(* ===== verification/_CoqProject ===== *)
-Q . S2P
Prelude.v
Committee.v
Index.v
IndexRefine.v
Types.v
Formed.v
Pacemaker.v
Outbox.v
Claim.v
Acks.v
AgbState.v
Agb.v
AgbSteps.v
AgbRefine.v
Fixtures.v
AgbTrace.v
ResolutionEvidence.v
AgbCensus.v
DigestStatements.v
DigestRuns.v
AgbVotes.v
AgbSafety.v
AgbNetwork.v
Blocks.v
BlockChains.v
Repair.v
RepairSettle.v
RepairComplete.v
RepairBudget.v
Avail.v
AvailChains.v
AvailRuns.v
Lanes.v
LaneOrder.v
LaneInv.v
LaneRuns.v
Frontier.v
FrontierRuns.v
LaneClaims.v
LaneTrace.v
OwnLane.v
LaneAcks.v
Direct.v
DirectInv.v
DirectSteps.v
DirectRuns.v
DirectNetwork.v
DirectFuel.v
DirectVotes.v
Sealing.v
Cursor.v
Ledger.v
Watermarks.v
CursorOrder.v
Sequence.v
SequenceChain.v
SequenceRuns.v
SequenceFetch.v
SequenceSources.v
Install.v
InstallOrder.v
StateTransfer.v
SimpleIt.v
SimpleItInv.v
SimpleItSafety.v
SimpleItCommit.v
Resume.v
ResumeRuns.v
