(* ===== verification/Prelude.v ===== *)
(** * A verification of the Vantage BFT core

    The repository is a testbed for Byzantine fault tolerant state machine
    replication; its own protocol is Vantage, under [src/primary/src/vantage/].
    Every party disseminates its blocks as a lane, a hash chain of headers.  A
    proposer of a view names a manifest of lane tips; parties answer with graded
    ECHO and READY statements, and a view ends sealed with an outcome (full, core
    or skip), directly or through a resolver.  The outcomes, taken in view order,
    are expanded into the committed sequence of blocks.  A node that has fallen behind
    transfers certified records of the sequence and installs them.  A second protocol,
    Simple-IT under [src/primary/src/simpleit/], agrees on cuts of the same lanes.  This
    library models the deterministic part of a node and proves what makes it correct.

    ** The parts and where they are modelled

    - [Committee]: [config::Committee] and its stake thresholds
      ([src/config/src/lib.rs]), [threshold.rs], the leader schedules of
      [src/primary/src/leader.rs].
    - [Index], [IndexRefine]: the committee-indexed containers of [index.rs] and
      the simulation by which the other files read them as plain maps and sets.
    - [Types]: references, proposals, statements and effects ([agb.rs], [block.rs],
      [claim.rs], [mod.rs], [messages.rs]).  [Formed]: proposal validation
      ([agb.rs]).  [Claim]: availability claims ([claim.rs], and
      [build_avail_claim_for_refs] of [lanes.rs]).
    - [Pacemaker] ([pacemaker.rs]) and [Outbox] ([outbox.rs]): view entry and the
      replay log.
    - [AgbState], [Agb]: the engine of [agb.rs], [AgbEngine], one definition per
      method; [DigestStatements]: its front end for statements that name a
      proposal by digest; [ResolutionEvidence] ([resolution_evidence.rs]): the
      candidate values for the resolver.
    - [Acks]: [AckAggregator] of [lanes.rs].  [Blocks]: [BlockCache] of [lanes.rs],
      [block_ok] ([block.rs]) and the header digest ([messages.rs]).  [Lanes]: the
      [LaneManager] of [lanes.rs] with its own lane, its held sets and frontiers, and what it uses of
      the key-value store: reads see staged writes, a new process sees the flushed ones ([src/store/src/lib.rs]).
    - [Avail]: the availability resolver of [avail.rs].
    - [Direct]: the resolver of [direct_resolution.rs]; the votes it asks the engine for
      are [try_direct_resolution_vote] in [Agb].
    - [Repair]: the [Repairer] of [repair.rs].
    - [Cursor]: the commit cursor of [cursor.rs].
    - [Frontier]: the proposer's frontier, manifests and tip quarantine of [frontier.rs], with
      [try_propose_effects] of [node.rs].
    - [Sequence]: the hash chain of finalised views, checkpoint announcements, verifiers
      and the transfer state machine of [sequence.rs], with the serving handlers of
      [node.rs]; [SequenceFetch]: the requests of [emit_sequence_requests].
    - [Install]: the staging of transferred views of [install.rs] and the handlers of
      [node.rs] that apply it; [StateTransfer]: [record_sequence] and the composition of the
      transfer with the install and the cursor.
    - [Resume]: lane resume and replay ([resume.rs]) with the handlers of [node.rs], the drop
      reports of [reliable_sender.rs] and the streams in flight of [wire.rs].
    - [SimpleIt]: messages, aggregators, effects and [CutEngine] of [simpleit/];
      [SimpleItCommit]: the commit queue of [simpleit/node.rs].

    ** How the code is read

    Integers are [Z] with the width of the Rust type; wrapping, saturating and
    checked operations are written out (this file).  Hash maps are [gmap]s; where
    the code iterates over one, the model uses one fixed order, and the
    theorems that a result does not depend on it are stated as such
    ([find_ready_order_independent]).  A method that mutates its receiver and
    pushes effects is a computation of the monad [M] below, a state transformer
    that returns the effects in order; [wp] and [sat] are its program logic.
    Panics of the source, and the assertions of a debug build that the model keeps ([Outbox]), appear as an explicit flag or [None].  BLAKE3 and [bincode]
    are parameters ([Hashing] in [Types]); the theorems that need it assume that the
    hash has no collision among the values compared ([header_binding], [Inj]).  The lane manager
    and the repairer appear to the engine as the interface [AgbEnv], with its laws
    [AgbEnvLaws]; the engine's theorems hold for every instance.

    ** What the theorems show

    - Engine ([AgbSteps], [AgbRefine], [AgbTrace], [AgbCensus], [AgbVotes], [AgbSafety],
      [AgbNetwork]): every handler runs as a sequence of atomic guarded steps, and
      the invariants are proved once per step.  A party sends one statement of each kind
      per view and never contradicts itself; tallies are the census of the
      recorded statements; decisions rest on quorums; and in a network whose Byzantine
      parties hold less than a third of the stake, correct parties never complete a
      view with conflicting manifests.
    - [DigestRuns]: the digest front end delivers to the engine what by-value
      statements would, and its fetches are bounded.
    - Blocks ([BlockChains]): memoised prefix walks are sound and complete for lineages of
      valid blocks, and two caches never classify a suffix differently.
    - Availability ([AvailChains], [AvailRuns]): a reference is credited to a peer only
      when a claim of that peer covers it, the remembered runs answer as the walk would,
      and the redundant indices stay exact and bounded.
    - Lanes ([LaneOrder], [LaneInv], [LaneRuns], [LaneClaims], [LaneTrace], [OwnLane], [LaneAcks]): the
      registers mean what the protocol reads off them in every run with crashes,
      restarts and recoveries; a claim tells a peer exactly what is directly published and, for the rest, the
      highest such ancestor; an acknowledgement vouches for
      a block whose ancestors are held, once per height.  The store stages writes in memory until
      a flush: the own lane never forks in runs whose crashes come after the flush of what was
      broadcast, and [crash_before_flush_forks] is a run in which one before it forks the lane.
    - Resolver ([DirectInv], [DirectSteps], [DirectRuns], [DirectNetwork], [DirectFuel]):
      what a view of the resolver records is justified by messages delivered; in a network
      of [n] members, counted without stake as the code does, of which at most [f] are faulty, two correct members never resolve a target
      differently, and a resolved value was accepted, fresh, by [f + 1] correct members.
    - Sealing ([DirectVotes], [Sealing]): the engines and the resolvers together, as the
      node composes them; an engine that answers for a fresh value has taken a position it
      keeps, and correct parties seal a view with one outcome whichever route each takes.  The
      theorem is for committees of equal stakes with at most [f] Byzantine parties ([fault_model]):
      the engine counts stake and the resolver counts members.
    - Repair ([RepairSettle], [RepairComplete], [RepairBudget]): settled references have
      a lineage down to genesis, none that is cached stays pending for good, and the
      requests sent respect the in-flight cap and the per-tick budget.
    - Output ([Ledger], [Watermarks], [CursorOrder]): nodes with different caches,
      different timing and with installs from peers produce prefixes of one
      sequence of views and blocks; the pump terminates; installs progress.
    - Proposing ([FrontierRuns]): a node proposes a view at most once, only in its own turns,
      with manifests that are well formed; the frontier passes no view without a reason.
    - State transfer ([SequenceChain], [SequenceRuns], [SequenceSources], [SequenceFetch],
      [InstallOrder], [StateTransfer]): a certified checkpoint was announced by a correct
      member; what a transfer verifies is the part of the sequence below the checkpoint
      whatever the sources answer; bad sources are dropped and honest ones complete the download;
      and what a node installs and outputs is what the others output, with the same records.
    - Replay ([ResumeRuns]): a reported drop stays owed to the peer until a stream with
      the messages was accepted, streams keep to a byte budget, and lane requests are paced.
    - Simple-IT ([SimpleItInv], [SimpleItSafety], [SimpleItCommit]): correct parties agree on
      safe cuts and commits, and the output is a function of the sequence of cuts; the files
      end with runs in which the node votes twice after a collection, commits out of order
      or stops at a fork.
    - The small components: threshold arithmetic with its overflow, leader
      schedules, wishes and view entry, the outbox, claims, acknowledgements, containers.

    ** Bounds and fuel

    Walks over block chains recurse on the height, which falls by one per step.
    [pump_loop] has the number of pending views as fuel and [pump_terminates] shows that
    this is enough; the eviction loops of the outbox recurse on the number of views; the
    bisection of [binary_search] on the number of keys; the bit iteration of a
    [MemberSet] word on its 64 bits; the peer rotation of [fan_out] on the number of
    peers, as the source's counter does.  [advance_view] of the resolver calls itself
    through [recheck_backing] and loops until no step applies: the class [Fuel] holds the two
    bounds, and [resolver_bounds_enough] shows that raising them changes no result.  The loops of
    the sequence transfer, of the install and of the commit queue recurse on the list or on
    the number of entries that they consume.  A Simple-IT handler can call the handler of its own next
    proposal: the depth is an argument, a call beyond it is recorded in [ce_overrun], and the
    theorems hold for every depth.

    ** Not modelled

    The node's task loop, sockets, storage, metrics and tracing ([node.rs], [wire.rs],
    [payload.rs], [pipeline.rs]) are I/O; their dispatch is the event type of each run model.
    The fetching of blocks for an install and the retries of payload downloads are left to
    the environment of the install's runs.  The Simple-IT node is modelled up to its commit queue; its
    lanes and repair are those of Vantage.  The Autobahn baseline ([core.rs]), the workers and the
    benchmark harness are separate programs of the testbed around signatures, channels and
    files; network, storage and cryptography are libraries. *)

From stdpp Require Export base gmap sets list sorting numbers strings.

Open Scope Z_scope.

(** ** Machine integers

    [View], [Height] and resolver views are Rust [u64]; stakes are [u32].  They
    are modelled as [Z] in range, and every arithmetic operation of the source
    is one of the operators below, so that a wrap-around is visible. *)

Definition u64_modulus : Z := 2 ^ 64.
Definition u64_max : Z := u64_modulus - 1.
Definition u32_modulus : Z := 2 ^ 32.
Definition u32_max : Z := u32_modulus - 1.

(** [a + b] on [u64], as a release build computes it. *)
Definition u64_add (a b : Z) : Z := (a + b) mod u64_modulus.
Definition u64_saturating_add (a b : Z) : Z := Z.min u64_max (a + b).
Definition u64_saturating_sub (a b : Z) : Z := Z.max 0 (a - b).

Definition u32_add (a b : Z) : Z := (a + b) mod u32_modulus.
Definition u32_mul (a b : Z) : Z := (a * b) mod u32_modulus.

Definition is_u64 (a : Z) : Prop := 0 <= a <= u64_max.
Definition is_u32 (a : Z) : Prop := 0 <= a <= u32_max.

Lemma u64_add_small a b : 0 <= a + b <= u64_max -> u64_add a b = a + b.
Proof. unfold u64_add, u64_max, u64_modulus. intros. apply Z.mod_small. lia. Qed.

Lemma u64_add_range a b : is_u64 (u64_add a b).
Proof.
  unfold is_u64, u64_add, u64_max, u64_modulus.
  pose proof (Z.mod_pos_bound (a + b) (2 ^ 64)). lia.
Qed.

Lemma u32_add_small a b : 0 <= a + b <= u32_max -> u32_add a b = a + b.
Proof. unfold u32_add, u32_max, u32_modulus. intros. apply Z.mod_small. lia. Qed.

Lemma u32_mul_small a b : 0 <= a * b <= u32_max -> u32_mul a b = a * b.
Proof. unfold u32_mul, u32_max, u32_modulus. intros. apply Z.mod_small. lia. Qed.

(** ** Record setters

    A record that models a Rust struct declares its eta expansion and one
    [Setter] instance per field; [r <| f := v |>] is then the struct with
    field [f] assigned, and [r <| f ::= g |>] the struct with [f] updated. *)

Class Setter {R T : Type} (proj : R -> T) := setter : (T -> T) -> R -> R.

Ltac solve_setter eta proj :=
  let g := fresh "g" in let r := fresh "r" in
  intros g r;
  let body := eval cbv delta [eta] beta in (eta r) in
  match eval pattern (proj r) in body with
  | ?k _ => let t := eval cbv beta in (k (g (proj r))) in exact t
  end.

Declare Scope record_scope.
Delimit Scope record_scope with record.
Notation "r <| f ::= g |>" := (setter (proj := f) g r)
  (at level 1, f at level 10, g at level 200) : record_scope.
Notation "r <| f := v |>" := (setter (proj := f) (fun _ => v) r)
  (at level 1, f at level 10, v at level 200) : record_scope.
Open Scope record_scope.

(** ** State machines that emit effects

    A Rust handler [fn f(&mut self, ..) -> Vec<Effect>] is a computation that
    reads and writes a state and appends effects in execution order.
    [M E S A] is that writer and state monad: [effects.push(e)] is [emit e] and
    [effects.extend(self.f())] is the call itself. *)

Record res (E S A : Type) : Type := Res { val : A; out : list E; st : S }.
Arguments Res {E S A} _ _ _.
Arguments val {E S A} _.
Arguments out {E S A} _.
Arguments st {E S A} _.

Definition M (E S A : Type) : Type := S -> res E S A.

#[export] Instance M_ret {E S} : MRet (M E S) := fun A a s => Res a [] s.
#[export] Instance M_bind {E S} : MBind (M E S) := fun A B k m s =>
  let r := m s in
  let r' := k (val r) (st r) in
  Res (val r') (out r ++ out r') (st r').

Section monad.
Context {E S : Type}.

Definition get : M E S S := fun s => Res s [] s.
Definition modify (f : S -> S) : M E S () := fun s => Res tt [] (f s).
Definition emit (e : E) : M E S () := fun s => Res tt [e] s.
Definition emit_all (es : list E) : M E S () := fun s => Res tt es s.
Definition skip : M E S () := mret tt.
Definition when (b : bool) (m : M E S ()) : M E S () := if b then m else skip.

Fixpoint for_each {A} (f : A -> M E S ()) (l : list A) : M E S () :=
  match l with
  | [] => skip
  | a :: l => f a ;; for_each f l
  end.

(** [all_m f l] is [l.iter().all(|x| f(x))]: left to right, stopping at the
    first failure. *)
Fixpoint all_m {A} (f : A -> M E S bool) (l : list A) : M E S bool :=
  match l with
  | [] => mret true
  | a :: l => b ← f a; if (b : bool) then all_m f l else mret false
  end.

Definition run_out {A} (m : M E S A) (s : S) : list E := out (m s).
Definition run_st {A} (m : M E S A) (s : S) : S := st (m s).
End monad.

Section monad_laws.
Context {E S : Type}.

Lemma get_bind {B} (k : S -> M E S B) s : (get ≫= k) s = k s s.
Proof. unfold mbind, M_bind. simpl. by destruct (k s s). Qed.

Lemma ret_bind {A B} (a : A) (k : A -> M E S B) s : (mret a ≫= k) s = k a s.
Proof. unfold mbind, M_bind. simpl. by destruct (k a s). Qed.

Lemma bind_run {A B} (m : M E S A) (k : A -> M E S B) s :
  (m ≫= k) s = Res (val (k (val (m s)) (st (m s))))
                 (out (m s) ++ out (k (val (m s)) (st (m s))))
                 (st (k (val (m s)) (st (m s)))).
Proof. done. Qed.

Lemma bind_assoc {A B C} (m : M E S A) (f : A -> M E S B) (g : B -> M E S C) s :
  ((m ≫= f) ≫= g) s = (m ≫= (fun a => f a ≫= g)) s.
Proof. rewrite !bind_run. cbn. by rewrite <- (assoc_L (++)). Qed.
End monad_laws.

(** A trace relation is closed under sequencing; [sat R m] says that every run
    of [m] is in [R]. *)
Class TraceRel {E S : Type} (R : S -> list E -> S -> Prop) : Prop := {
  trace_refl s : R s [] s;
  trace_trans s1 s2 s3 es1 es2 : R s1 es1 s2 -> R s2 es2 s3 -> R s1 (es1 ++ es2) s3;
}.

Section sat.
Context {E S : Type} (R : S -> list E -> S -> Prop) `{!TraceRel R}.

Definition sat_at {A} (m : M E S A) (s : S) : Prop := R s (out (m s)) (st (m s)).
Definition sat {A} (m : M E S A) : Prop := forall s, sat_at m s.

Lemma sat_ret {A} (a : A) : sat (mret a).
Proof. intros s. apply trace_refl. Qed.

Lemma sat_at_eq {A} (m m' : M E S A) s : m s = m' s -> sat_at m' s -> sat_at m s.
Proof. unfold sat_at. by intros ->. Qed.

Lemma sat_at_bind {A B} (m : M E S A) (k : A -> M E S B) s :
  sat_at m s -> sat_at (k (val (m s))) (st (m s)) -> sat_at (m ≫= k) s.
Proof. intros H1 H2. eapply trace_trans; [exact H1|exact H2]. Qed.

Lemma sat_bind {A B} (m : M E S A) (k : A -> M E S B) :
  sat m -> (forall a, sat (k a)) -> sat (m ≫= k).
Proof. intros H1 H2 s. apply sat_at_bind; [apply H1|apply H2]. Qed.

Lemma sat_get_bind {B} (k : S -> M E S B) :
  (forall s, sat_at (k s) s) -> sat (get ≫= k).
Proof. intros H s. apply (H s). Qed.

Lemma sat_get : sat get.
Proof. intros s. apply trace_refl. Qed.

Lemma sat_at_get_bind {B} (k : S -> M E S B) s : sat_at (k s) s -> sat_at (get ≫= k) s.
Proof. intros H. apply H. Qed.

Lemma sat_when b m : sat m -> sat (when b m).
Proof. destruct b; [done|intros; apply sat_ret]. Qed.

Lemma sat_for_each {A} (f : A -> M E S ()) l :
  (forall a, sat (f a)) -> sat (for_each f l).
Proof.
  intros Hf. induction l as [|a l IH]; [apply sat_ret|].
  apply sat_bind; [apply Hf|intros; apply IH].
Qed.

Lemma sat_for_each_in {A} (f : A -> M E S ()) l :
  Forall (fun a => sat (f a)) l -> sat (for_each f l).
Proof.
  induction 1 as [|a l Ha _ IH]; [apply sat_ret|]. apply sat_bind; [done|intros; apply IH].
Qed.

Lemma sat_all_m {A} (f : A -> M E S bool) l :
  (forall a, sat (f a)) -> sat (all_m f l).
Proof.
  intros Hf. induction l as [|a l IH]; [apply sat_ret|].
  apply sat_bind; [apply Hf|intros []; [apply IH|apply sat_ret]].
Qed.
End sat.

Lemma st_bind {E S A B} (m : M E S A) (k : A -> M E S B) s : st ((m ≫= k) s) = st (k (val (m s)) (st (m s))).
Proof. done. Qed.

(** ** Symbolic execution

    [wp m s Q] says that the result, effects and final state of running [m] in
    [s] satisfy [Q]. *)
Definition wp {E S A} (m : M E S A) (s : S) (Q : A -> list E -> S -> Prop) : Prop :=
  Q (val (m s)) (out (m s)) (st (m s)).

Section wp.
Context {E S : Type}.

Lemma wp_bind {A B} (m : M E S A) (k : A -> M E S B) s Q :
  wp m s (fun a es s' => wp (k a) s' (fun b es' s'' => Q b (es ++ es') s'')) ->
  wp (m ≫= k) s Q.
Proof. done. Qed.

Lemma wp_ret {A} (a : A) s (Q : A -> list E -> S -> Prop) : Q a [] s -> wp (mret a) s Q.
Proof. done. Qed.

Lemma wp_skip s (Q : () -> list E -> S -> Prop) : Q tt [] s -> wp skip s Q.
Proof. done. Qed.

Lemma wp_get s (Q : S -> list E -> S -> Prop) : Q s [] s -> wp get s Q.
Proof. done. Qed.

Lemma wp_modify f s (Q : () -> list E -> S -> Prop) : Q tt [] (f s) -> wp (modify f) s Q.
Proof. done. Qed.

Lemma wp_emit e s (Q : () -> list E -> S -> Prop) : Q tt [e] s -> wp (emit e) s Q.
Proof. done. Qed.

Lemma wp_emit_all es s (Q : () -> list E -> S -> Prop) : Q tt es s -> wp (emit_all es) s Q.
Proof. done. Qed.

Lemma wp_mono {A} (m : M E S A) s (Q Q' : A -> list E -> S -> Prop) :
  wp m s Q -> (forall a es s', Q a es s' -> Q' a es s') -> wp m s Q'.
Proof. intros H HQ. apply HQ, H. Qed.

(** Running a computation known to stay in a trace relation. *)
Lemma wp_sat {A} R (m : M E S A) s (Q : A -> list E -> S -> Prop) :
  sat_at R m s -> (forall a es s', R s es s' -> Q a es s') -> wp m s Q.
Proof. intros H HQ. apply HQ, H. Qed.

Lemma sat_at_wp {A} R (m : M E S A) s :
  wp m s (fun _ es s' => R s es s') -> sat_at R m s.
Proof. done. Qed.
End wp.

Create HintDb traces.
#[export] Hint Resolve sat_ret sat_bind sat_get sat_when sat_for_each sat_all_m : traces.

(** ** Ordered iteration over maps

    A [BTreeMap] or [BTreeSet] is a [gmap] or [gset] whose iterators yield the
    keys in increasing order. *)

Class KeyOrder (K : Type) := {
  kle : relation K;
  kle_dec :: RelDecision kle;
  kle_trans :: Transitive kle;
  kle_antisymm :: AntiSymm (=) kle;
  kle_total :: Total kle;
}.

#[export] Instance Z_key_order : KeyOrder Z := {| kle := Z.le |}.

(** Tuples compare lexicographically. *)
Section lexicographic.
Context {A B : Type} `{!EqDecision A, KeyOrder A, KeyOrder B}.

Definition lex_le (p q : A * B) : Prop := (p.1 = q.1 /\ kle p.2 q.2) \/ (p.1 <> q.1 /\ kle p.1 q.1).

#[export, program] Instance pair_key_order : KeyOrder (A * B) := {| kle := lex_le |}.
Next Obligation. intros p q. unfold lex_le. apply _. Defined.
Next Obligation.
  intros [a b] [a' b'] [a'' b'']; unfold lex_le; simpl.
  intros [[-> H1]|[N1 H1]] [[-> H2]|[N2 H2]].
  - left. split; [done|]. by etransitivity.
  - by right.
  - by right.
  - destruct (decide (a = a'')) as [->|]; [|right; split; [done|by etransitivity]].
    exfalso. apply N1. by apply (anti_symm kle).
Qed.
Next Obligation.
  intros [a b] [a' b']; unfold lex_le; simpl.
  intros [[-> H1]|[N1 H1]] [[He H2]|[N2 H2]]; simplify_eq.
  - f_equal. by apply (anti_symm kle).
  - exfalso. apply N1. by apply (anti_symm kle).
Qed.
Next Obligation.
  intros [a b] [a' b']; unfold lex_le; simpl. destruct (decide (a = a')) as [->|].
  - destruct (total kle b b'); auto.
  - destruct (total kle a a'); auto.
Qed.
End lexicographic.

Definition klt {K} `{KeyOrder K} (a b : K) : Prop := kle a b /\ a <> b.

Section ordered.
Context {K : Type} `{Countable K, KeyOrder K}.

#[local] Instance fst_le_dec {V : Type} : RelDecision (fun p q : K * V => kle p.1 q.1).
Proof. intros p q. apply _. Defined.
#[local] Instance fst_le_trans {V : Type} : Transitive (fun p q : K * V => kle p.1 q.1).
Proof. intros p q r; simpl. apply transitivity. Qed.
#[local] Instance fst_le_total {V : Type} : Total (fun p q : K * V => kle p.1 q.1).
Proof. intros p q; simpl. apply total, _. Qed.

(** [m.iter()] on a [BTreeMap]. *)
Definition map_iter {V : Type} (m : gmap K V) : list (K * V) :=
  merge_sort (fun p q => kle p.1 q.1) (map_to_list m).

(** [s.iter()] on a [BTreeSet]. *)
Definition set_iter (s : gset K) : list K := merge_sort kle (elements s).

Lemma map_iter_perm {V : Type} (m : gmap K V) : map_iter m ≡ₚ map_to_list m.
Proof. apply merge_sort_Permutation. Qed.

Lemma elem_of_map_iter {V : Type} (m : gmap K V) k v :
  (k, v) ∈ map_iter m <-> m !! k = Some v.
Proof. rewrite map_iter_perm. apply elem_of_map_to_list. Qed.

Lemma map_iter_sorted {V : Type} (m : gmap K V) :
  StronglySorted (fun p q => kle p.1 q.1) (map_iter m).
Proof. apply StronglySorted_merge_sort; apply _. Qed.

Lemma map_iter_NoDup {V : Type} (m : gmap K V) : NoDup (map_iter m).*1.
Proof. rewrite map_iter_perm. apply NoDup_fst_map_to_list. Qed.

Lemma set_iter_perm (s : gset K) : set_iter s ≡ₚ elements s.
Proof. apply merge_sort_Permutation. Qed.

Lemma elem_of_set_iter (s : gset K) k : k ∈ set_iter s <-> k ∈ s.
Proof. rewrite set_iter_perm. apply elem_of_elements. Qed.

Lemma set_iter_sorted (s : gset K) : StronglySorted kle (set_iter s).
Proof. apply StronglySorted_merge_sort; apply _. Qed.

Lemma set_iter_NoDup (s : gset K) : NoDup (set_iter s).
Proof. rewrite set_iter_perm. apply NoDup_elements. Qed.

Lemma length_set_iter (s : gset K) : length (set_iter s) = size s.
Proof. rewrite set_iter_perm. done. Qed.

Lemma length_map_iter {V : Type} (m : gmap K V) : length (map_iter m) = size m.
Proof. rewrite map_iter_perm. apply length_map_to_list. Qed.
End ordered.

(** [m.split_off(&floor)] keeps the keys at or above [floor]. *)
Definition map_split_off {V} (floor : Z) (m : gmap Z V) : gmap Z V :=
  filter (fun p => floor <= p.1) m.
Definition set_split_off (floor : Z) (s : gset Z) : gset Z :=
  filter (fun v => floor <= v) s.

Lemma lookup_map_split_off {V} floor (m : gmap Z V) k :
  map_split_off floor m !! k = if decide (floor <= k) then m !! k else None.
Proof.
  unfold map_split_off. rewrite map_lookup_filter. case_decide as Hk.
  - destruct (m !! k) eqn:E; simpl; [|done]. by rewrite option_guard_True.
  - destruct (m !! k) eqn:E; simpl; [|done]. by rewrite option_guard_False.
Qed.

Lemma elem_of_set_split_off floor s k : k ∈ set_split_off floor s <-> floor <= k /\ k ∈ s.
Proof. unfold set_split_off. apply elem_of_filter. Qed.

Lemma seqZ_sorted a n : StronglySorted Z.lt (seqZ a n).
Proof.
  unfold seqZ. apply (StronglySorted_fmap _ lt); [intros; lia|].
  generalize 0%nat, (Z.to_nat n). intros i k. revert i.
  induction k as [|k IH]; intros i; simpl; constructor; [apply IH|].
  apply Forall_forall. intros j Hj%elem_of_seq. lia.
Qed.

(** Two sorted lists with the same elements are one list. *)
Lemma sorted_unique (l l' : list Z) :
  StronglySorted Z.lt l -> StronglySorted Z.lt l' -> (forall x, x ∈ l <-> x ∈ l') -> l = l'.
Proof.
  intros Hl. revert l'. induction Hl as [|a l Hl IH Ha]; intros l' Hl' He.
  { destruct l' as [|b l']; [done|]. specialize (He b). set_solver. }
  destruct Hl' as [|b l' Hl' Hb]; [specialize (He a); set_solver|]. rewrite Forall_forall in Ha, Hb.
  assert (a = b) as <-.
  { destruct (decide (a = b)); [done|]. assert (a ∈ l') by (specialize (He a); set_solver).
    assert (b ∈ l) by (specialize (He b); set_solver). pose proof (Ha b ltac:(done)). pose proof (Hb a ltac:(done)). lia. }
  f_equal. apply IH; [done|]. intros x. specialize (He x). rewrite !elem_of_cons in He.
  split; intros Hx; [pose proof (Ha x Hx)|pose proof (Hb x Hx)]; destruct He as [H1 H2]; [destruct H1|destruct H2]; auto; lia.
Qed.

(** The keys of a map that holds an interval. *)
Lemma map_iter_interval {V : Type} (m : gmap Z V) a n :
  (forall k, is_Some (m !! k) <-> a <= k < a + n) -> (map_iter m).*1 = seqZ a n.
Proof.
  intros Hm. apply sorted_unique; [|apply seqZ_sorted|].
  - pose proof (map_iter_sorted m) as Hs. pose proof (map_iter_NoDup m) as Hn.
    induction Hs as [|p l Hs IH Hp]; [constructor|]. cbn in Hn. apply NoDup_cons in Hn as [Hp' Hn]. constructor; [by apply IH|].
    apply Forall_fmap. rewrite Forall_forall in Hp |- *. intros q Hq. specialize (Hp q Hq). cbn in *.
    assert (p.1 <> q.1); [|lia]. intros He. apply Hp'. rewrite He. by apply list_elem_of_fmap_2.
  - intros k. rewrite elem_of_seqZ, <- Hm. split.
    + intros ([k' v] & -> & Hin)%list_elem_of_fmap. apply elem_of_map_iter in Hin. by eexists.
    + intros [v Hv]. apply list_elem_of_fmap. exists (k, v). split; [done|]. by apply elem_of_map_iter.
Qed.

(** ** Weighted sums over maps and sets

    The tallies of the protocol engines are running totals of a weight (one per
    party, or the party's stake) over the recorded statements. *)

Definition indicator (b : bool) : Z := if b then 1 else 0.

Section sums.
Context {K : Type} `{Countable K}.

Definition map_sum {V} (f : K -> V -> Z) (m : gmap K V) : Z :=
  map_fold (fun k v acc => f k v + acc) 0 m.

Definition set_sum (f : K -> Z) (X : gset K) : Z :=
  set_fold (fun k acc => f k + acc) 0 X.

Lemma map_sum_empty {V} (f : K -> V -> Z) : map_sum f ∅ = 0.
Proof. apply map_fold_empty. Qed.

Lemma map_sum_insert_None {V} (f : K -> V -> Z) m k v :
  m !! k = None -> map_sum f (<[k := v]> m) = f k v + map_sum f m.
Proof.
  intros. unfold map_sum.
  apply (map_fold_insert_L (fun k v acc => f k v + acc)); [|done]. intros; lia.
Qed.

Lemma map_sum_delete {V} (f : K -> V -> Z) m k v :
  m !! k = Some v -> map_sum f m = f k v + map_sum f (delete k m).
Proof.
  intros. unfold map_sum.
  apply (map_fold_delete_L (fun k v acc => f k v + acc)); [|done]. intros; lia.
Qed.

Lemma map_sum_insert_Some {V} (f : K -> V -> Z) m k v w :
  m !! k = Some w -> map_sum f (<[k := v]> m) = map_sum f m - f k w + f k v.
Proof.
  intros Hk. rewrite (map_sum_delete f m k w Hk).
  rewrite <- (insert_delete_eq m k v).
  rewrite map_sum_insert_None by apply lookup_delete_eq. lia.
Qed.

Lemma map_sum_le {V} (f g : K -> V -> Z) m :
  (forall k v, m !! k = Some v -> f k v <= g k v) -> map_sum f m <= map_sum g m.
Proof.
  induction m as [|k v m Hk IH] using map_ind; intros Hle.
  { rewrite !map_sum_empty. lia. }
  rewrite !map_sum_insert_None by done.
  assert (map_sum f m <= map_sum g m).
  { apply IH. intros k' v' Hk'. apply Hle. rewrite lookup_insert_ne; [done|]. congruence. }
  pose proof (Hle k v (lookup_insert_eq m k v)). lia.
Qed.

Lemma map_sum_ext {V} (f g : K -> V -> Z) m :
  (forall k v, m !! k = Some v -> f k v = g k v) -> map_sum f m = map_sum g m.
Proof.
  intros Heq. apply Z.le_antisymm; apply map_sum_le; intros k v Hk;
    rewrite (Heq k v Hk); done.
Qed.

Lemma map_sum_nonneg {V} (f : K -> V -> Z) m :
  (forall k v, m !! k = Some v -> 0 <= f k v) -> 0 <= map_sum f m.
Proof.
  induction m as [|k v m Hk IH] using map_ind; intros Hf.
  { by rewrite map_sum_empty. }
  rewrite map_sum_insert_None by done.
  pose proof (Hf k v (lookup_insert_eq m k v)).
  assert (0 <= map_sum f m); [|lia].
  apply IH. intros k' v' Hk'. apply (Hf k' v'). rewrite lookup_insert_ne; [done|]. congruence.
Qed.

Lemma map_sum_add {V} (f g : K -> V -> Z) m :
  map_sum (fun k v => f k v + g k v) m = map_sum f m + map_sum g m.
Proof.
  induction m as [|k v m Hk IH] using map_ind; [by rewrite !map_sum_empty|].
  rewrite !map_sum_insert_None by done. lia.
Qed.

Lemma map_sum_one {V} (m : gmap K V) : map_sum (fun _ _ => 1) m = Z.of_nat (size m).
Proof.
  induction m as [|k v m Hk IH] using map_ind; [by rewrite map_sum_empty|].
  rewrite map_sum_insert_None, map_size_insert_None by done. lia.
Qed.

Lemma set_sum_empty f : set_sum f (∅ : gset K) = 0.
Proof. apply set_fold_empty. Qed.

Lemma set_sum_disj_union f (X Y : gset K) :
  X ## Y -> set_sum f (X ∪ Y) = set_sum f X + set_sum f Y.
Proof.
  intros HXY. revert Y HXY. induction X as [|x X Hx IH] using set_ind_L; intros Y HXY.
  { rewrite set_sum_empty, (left_id_L ∅ (∪)). lia. }
  assert (Hone : forall W : gset K, x ∉ W -> set_sum f ({[x]} ∪ W) = f x + set_sum f W).
  { intros W HW. rewrite (comm_L (∪)). unfold set_sum.
    rewrite (set_fold_disj_union_strong (=)) by (try apply _; try set_solver; intros; lia).
    by rewrite set_fold_singleton. }
  rewrite <- (assoc_L (∪)), Hone by set_solver.
  rewrite Hone by done. rewrite IH by set_solver. lia.
Qed.

Lemma set_sum_union f (X Y : gset K) :
  set_sum f X + set_sum f Y = set_sum f (X ∪ Y) + set_sum f (X ∩ Y).
Proof.
  assert (HX : X = (X ∖ Y) ∪ (X ∩ Y)).
  { apply set_eq. intros x. destruct (decide (x ∈ Y)); set_solver. }
  assert (HU : X ∪ Y = (X ∖ Y) ∪ Y).
  { apply set_eq. intros x. destruct (decide (x ∈ Y)); set_solver. }
  rewrite HU, set_sum_disj_union by set_solver.
  rewrite HX at 1. rewrite set_sum_disj_union by set_solver. lia.
Qed.

Lemma set_sum_mono f (X Y : gset K) :
  (forall k, 0 <= f k) -> X ⊆ Y -> set_sum f X <= set_sum f Y.
Proof.
  intros Hf HXY.
  assert (HY : Y = X ∪ (Y ∖ X)).
  { apply set_eq. intros x. destruct (decide (x ∈ X)); set_solver. }
  rewrite HY, set_sum_disj_union by set_solver.
  assert (0 <= set_sum f (Y ∖ X)); [|lia].
  generalize (Y ∖ X). intros W. clear HY HXY. induction W as [|z W Hz IH] using set_ind_L.
  { by rewrite set_sum_empty. }
  rewrite set_sum_disj_union by set_solver.
  unfold set_sum at 1. rewrite set_fold_singleton. specialize (Hf z). lia.
Qed.

Lemma set_sum_one (X : gset K) : set_sum (fun _ => 1) X = Z.of_nat (size X).
Proof.
  induction X as [|x X Hx IH] using set_ind_L.
  { by rewrite set_sum_empty, size_empty. }
  rewrite set_sum_disj_union, size_union by set_solver. rewrite IH, size_singleton.
  unfold set_sum. rewrite set_fold_singleton. lia.
Qed.

Lemma set_sum_zero f (X : gset K) : (forall k, k ∈ X -> f k = 0) -> set_sum f X = 0.
Proof.
  induction X as [|x X Hx IH] using set_ind_L; intros Hf; [by rewrite set_sum_empty|].
  rewrite set_sum_disj_union by set_solver. rewrite IH by (intros; apply Hf; set_solver).
  unfold set_sum. rewrite set_fold_singleton, Hf by set_solver. done.
Qed.

Lemma set_sum_ext f g (X : gset K) : (forall k, k ∈ X -> f k = g k) -> set_sum f X = set_sum g X.
Proof.
  induction X as [|x X Hx IH] using set_ind_L; intros Hf; [by rewrite !set_sum_empty|].
  rewrite !set_sum_disj_union by set_solver. rewrite IH by (intros; apply Hf; set_solver).
  f_equal. unfold set_sum. rewrite !set_fold_singleton, Hf by set_solver. done.
Qed.

(** Two subsets of [U] too large to overlap only within [B]. *)
Lemma sizes_meet (X Y U B : gset K) :
  X ⊆ U -> Y ⊆ U -> (size U + size B < size X + size Y)%nat ->
  exists k, k ∈ X /\ k ∈ Y /\ k ∉ B.
Proof.
  intros HX HY Hlt. destruct (decide (X ∩ Y ⊆ B)) as [Hsub|Hnot].
  - exfalso. pose proof (set_sum_union (fun _ => 1) X Y) as Hs. rewrite !set_sum_one in Hs.
    assert (size (X ∪ Y) <= size U)%nat by (apply subseteq_size; set_solver).
    apply subseteq_size in Hsub. lia.
  - assert (exists k, k ∈ (X ∩ Y) ∖ B) as [k Hk]; [|exists k; set_solver].
    apply set_choose_L. intros Hempty. apply Hnot. intros k Hk.
    destruct (decide (k ∈ B)) as [|HB]; [done|].
    assert (k ∈ (X ∩ Y) ∖ B) as Hin by (apply elem_of_difference; done).
    rewrite Hempty in Hin. by apply not_elem_of_empty in Hin.
Qed.

Lemma map_sum_zero {V} (f : K -> V -> Z) m :
  (forall k v, m !! k = Some v -> f k v = 0) -> map_sum f m = 0.
Proof.
  intros Hf. rewrite (map_sum_ext f (fun _ _ => 0)) by done.
  induction m as [|k v m Hk IH] using map_ind; [by rewrite map_sum_empty|].
  rewrite map_sum_insert_None by done. rewrite IH; [done|].
  intros k' v' Hk'. apply (Hf k' v'). rewrite lookup_insert_ne; [done|]. congruence.
Qed.

(** The keys of [m] selected by [p], and the weight they carry. *)
Definition selected {V} (p : K -> V -> bool) (m : gmap K V) : gset K :=
  dom (filter (fun kv => p kv.1 kv.2 = true) m).

Lemma elem_of_selected {V} (p : K -> V -> bool) (m : gmap K V) k :
  k ∈ selected p m <-> exists v, m !! k = Some v /\ p k v = true.
Proof.
  unfold selected. rewrite elem_of_dom. split.
  - intros [v Hv]. apply map_lookup_filter_Some in Hv. naive_solver.
  - intros (v & Hv & Hp). exists v. apply map_lookup_filter_Some. done.
Qed.

Lemma map_sum_selected {V} (w : K -> Z) (p : K -> V -> bool) (m : gmap K V) :
  map_sum (fun k v => if p k v then w k else 0) m = set_sum w (selected p m).
Proof.
  induction m as [|k v m Hk IH] using map_ind.
  { rewrite map_sum_empty. unfold selected.
    rewrite map_filter_empty, dom_empty_L, set_sum_empty. done. }
  rewrite map_sum_insert_None by done. destruct (p k v) eqn:Hp.
  - assert (selected p (<[k:=v]> m) = {[k]} ∪ selected p m) as ->.
    { apply set_eq. intros x. rewrite elem_of_union, elem_of_singleton, !elem_of_selected.
      destruct (decide (x = k)) as [->|].
      - rewrite lookup_insert_eq. naive_solver.
      - rewrite lookup_insert_ne by done. naive_solver. }
    rewrite set_sum_disj_union.
    + unfold set_sum at 1. rewrite set_fold_singleton. lia.
    + intros x. rewrite elem_of_singleton, elem_of_selected. naive_solver congruence.
  - assert (selected p (<[k:=v]> m) = selected p m) as ->; [|lia].
    apply set_eq. intros x. rewrite !elem_of_selected.
    destruct (decide (x = k)) as [->|].
    + rewrite lookup_insert_eq. naive_solver congruence.
    + by rewrite lookup_insert_ne.
Qed.

(** Two selections whose weights together exceed the whole by more than [b]
    share a key outside any set of weight at most [b]. *)
Lemma weighted_intersection (w : K -> Z) (X Y U B : gset K) (q : Z) :
  (forall k, 0 <= w k) -> X ⊆ U -> Y ⊆ U ->
  q <= set_sum w X -> q <= set_sum w Y ->
  set_sum w U + set_sum w B < 2 * q ->
  exists k, k ∈ X /\ k ∈ Y /\ k ∉ B.
Proof.
  intros Hw HX HY HqX HqY Hlt.
  destruct (decide (X ∩ Y ⊆ B)) as [Hsub|Hnot].
  - exfalso. pose proof (set_sum_union w X Y).
    assert (set_sum w (X ∪ Y) <= set_sum w U) by (apply set_sum_mono; set_solver).
    assert (set_sum w (X ∩ Y) <= set_sum w B) by (apply set_sum_mono; set_solver).
    lia.
  - assert (exists k, k ∈ (X ∩ Y) ∖ B) as [k Hk].
    { apply set_choose_L. intros Hempty. apply Hnot. intros k Hk.
      destruct (decide (k ∈ B)) as [|HB]; [done|].
      assert (k ∈ (X ∩ Y) ∖ B) as Hin by (apply elem_of_difference; done).
      rewrite Hempty in Hin. by apply not_elem_of_empty in Hin. }
    exists k. set_solver.
Qed.
End sums.

(** ** Lists *)

Lemma join_cons {A} (x : list A) (l : list (list A)) : mjoin (x :: l) = x ++ mjoin l.
Proof. done. Qed.

(** Association lists without duplicate keys are permutations of each other as
    soon as they hold the same pairs. *)
Lemma assoc_Permutation {A B} (l k : list (A * B)) :
  NoDup l.*1 -> NoDup k.*1 -> (forall a b, (a, b) ∈ l <-> (a, b) ∈ k) -> l ≡ₚ k.
Proof.
  intros Hl Hk Hin.
  apply NoDup_Permutation; [exact (NoDup_fmap_1 _ _ Hl) | exact (NoDup_fmap_1 _ _ Hk) |].
  intros [a b]. apply Hin.
Qed.

Lemma filter_full {A} (P : A -> Prop) `{forall x, Decision (P x)} (l : list A) :
  (forall x, x ∈ l -> P x) -> filter P l = l.
Proof.
  induction l as [|a l IH]; intros Hl; [done|]. rewrite filter_cons, decide_True by (apply Hl; by left).
  f_equal. apply IH. intros x Hx. apply Hl. by right.
Qed.

Lemma filter_none {A} (P : A -> Prop) `{forall x, Decision (P x)} (l : list A) :
  (forall x, x ∈ l -> ~ P x) -> filter P l = [].
Proof.
  induction l as [|x l IH]; intros Hl; [done|].
  rewrite filter_cons, decide_False by (apply Hl; set_solver).
  apply IH. set_solver.
Qed.

Lemma filter_ext_in {A} (P Q : A -> Prop) `{forall x, Decision (P x)} `{forall x, Decision (Q x)} (l : list A) :
  (forall x, x ∈ l -> P x <-> Q x) -> filter P l = filter Q l.
Proof.
  induction l as [|x l IH]; intros Hl; [done|]. rewrite !filter_cons, IH by set_solver.
  specialize (Hl x ltac:(set_solver)). destruct (decide (P x)), (decide (Q x)); naive_solver.
Qed.

(** [enumerate().filter_map(..)]: what it yields, and that distinct positions
    with distinct keys yield distinct keys. *)
Lemma omap_imap_elem {A B} (g : nat -> A -> option B) l y :
  y ∈ omap id (imap g l) <-> exists i x, l !! i = Some x /\ g i x = Some y.
Proof.
  rewrite list_elem_of_omap. split.
  - intros (o & Ho & Hy). apply list_elem_of_lookup in Ho as [i Hi].
    rewrite list_lookup_imap in Hi. destruct (l !! i) as [x|] eqn:E; [|done]. cbn in *. simplify_eq. eauto.
  - intros (i & x & Hx & Hg). exists (g i x). split; [|done].
    apply list_elem_of_lookup. exists i. by rewrite list_lookup_imap, Hx.
Qed.

Lemma omap_imap_NoDup {A B C} (g : nat -> A -> option B) (key : B -> C) l :
  (forall i x y i' x' y', g i x = Some y -> g i' x' = Some y' -> key y = key y' -> i = i') ->
  NoDup (key <$> omap id (imap g l)).
Proof.
  intros Hinj. induction l as [|x l IH] using rev_ind; [constructor|].
  rewrite imap_app. cbn [imap]. rewrite omap_app, fmap_app. apply NoDup_app. split_and!; [done| |].
  - intros k Hk Hk'. apply list_elem_of_fmap in Hk as (y & -> & Hy).
    apply list_elem_of_fmap in Hk' as (y' & Hkey & Hy').
    apply omap_imap_elem in Hy as (i & x1 & Hx1 & Hg1).
    cbn in Hy'. destruct (g _ x) as [z|] eqn:Hg; [|by apply not_elem_of_nil in Hy'].
    apply list_elem_of_singleton in Hy' as ->.
    assert (i = (length l + 0)%nat) by (eapply Hinj; eauto). apply lookup_lt_Some in Hx1. lia.
  - cbn. destruct (g _ x); cbn; [apply NoDup_singleton|constructor].
Qed.
