(* ===== verification/Committee.v ===== *)
(** The committee and what is derived from it.

    Models [src/config/src/lib.rs] (the [Committee] struct and its stake
    thresholds), [src/primary/src/vantage/threshold.rs] (party-count
    thresholds) and [src/primary/src/leader.rs] (round-robin schedules).
    Network addresses and consensus keys of an authority carry no protocol
    logic and are left out of [Authority]. *)

From S2P Require Import Prelude.

(** Keys and digests are 32-byte arrays ordered lexicographically; they are
    modelled by the number whose big-endian encoding they are, which has the
    same equality and the same order. *)
Abbreviation PublicKey := Z (only parsing).
Abbreviation Digest := Z (only parsing).
Abbreviation View := Z (only parsing).
Abbreviation Height := Z (only parsing).
Abbreviation Stake := Z (only parsing).
Abbreviation WorkerId := Z (only parsing).
Abbreviation Instant := Z (only parsing).
Abbreviation Duration := Z (only parsing).

(** ** config: [Committee] *)

Record Authority := mkAuthority {
  auth_stake : Stake;
  auth_workers : gset WorkerId;
}.

Record Committee := mkCommittee { authorities : gmap PublicKey Authority }.

(** [authorities.keys()] of the [BTreeMap], in increasing key order. *)
Definition authority_keys (c : Committee) : list PublicKey := (map_iter (authorities c)).*1.

Definition committee_size (c : Committee) : Z := Z.of_nat (size (authorities c)).

Definition stake (c : Committee) (name : PublicKey) : Stake :=
  match authorities c !! name with
  | Some a => auth_stake a
  | None => 0
  end.

(** [authorities.values().map(|x| x.stake).sum()], on [u32]. *)
Definition total_votes (c : Committee) : Stake :=
  map_fold (fun _ a acc => u32_add acc (auth_stake a)) 0 (authorities c).

Definition quorum_threshold (c : Committee) : Stake :=
  u32_add (u32_mul 2 (total_votes c) / 3) 1.

(** [total_votes.div_ceil(3)]. *)
Definition validity_threshold (c : Committee) : Stake := (total_votes c + 2) / 3.

Definition fast_threshold (c : Committee) : Stake := total_votes c.

Definition is_member (c : Committee) (name : PublicKey) : bool :=
  bool_decide (is_Some (authorities c !! name)).

(** [self.authorities.keys().position(|k| k == name)]. *)
Definition index_of (c : Committee) (name : PublicKey) : option nat :=
  fst <$> list_find (fun k => k = name) (authority_keys c).

Definition worker (c : Committee) (to : PublicKey) (id : WorkerId) : bool :=
  match authorities c !! to with
  | Some a => bool_decide (id ∈ auth_workers a)
  | None => false
  end.

(** ** vantage/threshold.rs *)

Record Thresholds := mkThresholds {
  th_n : Z;
  f_parties : Z;
  f_plus_1_parties : Z;
  n_minus_f_parties : Z;
}.

Definition from_party_count (n : Z) : Thresholds :=
  let f := (n - 1) / 3 in
  {| th_n := n; f_parties := f; f_plus_1_parties := f + 1; n_minus_f_parties := n - f |}.

Definition from_committee (c : Committee) : Thresholds := from_party_count (committee_size c).

(** ** leader.rs *)

(** [None] is the panic of [assert!(authority_count > 0)]. *)
Definition wrapped_index (authority_count : Z) (position : Z) : option nat :=
  if decide (0 < authority_count) then Some (Z.to_nat (position mod authority_count)) else None.

Record RoundRobin := mkRoundRobin { rr_authorities : list PublicKey }.

Definition round_robin_new (c : Committee) : option RoundRobin :=
  match authority_keys c with
  | [] => None
  | ks => Some (mkRoundRobin ks)
  end.

Definition round_robin_at (r : RoundRobin) (position : Z) : option PublicKey :=
  i ← wrapped_index (Z.of_nat (length (rr_authorities r))) position; rr_authorities r !! i.

Definition one_based (r : RoundRobin) (round : Z) : option PublicKey :=
  round_robin_at r (u64_saturating_sub round 1).

Definition one_based_authority (c : Committee) (round : Z) : option PublicKey :=
  i ← wrapped_index (committee_size c) (u64_saturating_sub round 1); authority_keys c !! i.

Record SemiParallelRRLeaderElector := mkElector {
  leaders : RoundRobin;
  leader_count : Z;
  slot_offset : Z;
}.

Definition elector_new (c : Committee) : option SemiParallelRRLeaderElector :=
  rr ← round_robin_new c;
  Some {| leaders := rr; leader_count := committee_size c;
          slot_offset := u64_saturating_sub (committee_size c) 1 / 3 |}.

Definition u64_mul (a b : Z) : Z := (a * b) mod u64_modulus.

Definition get_leader (e : SemiParallelRRLeaderElector) (slot view : Z) : option PublicKey :=
  let n := leader_count e in
  let slot_shift := u64_mul (slot mod n) (slot_offset e mod n) mod n in
  let position := u64_add (view mod n) slot_shift mod n in
  round_robin_at (leaders e) position.

(** ** Well-formed committees *)

(** The committee is not empty and its total stake, doubled, fits in a [u32]. *)
Record committee_ok (c : Committee) : Prop := {
  committee_nonempty : authorities c <> ∅;
  committee_stakes : forall k a, authorities c !! k = Some a -> 0 <= auth_stake a;
  committee_total : 2 * map_sum (fun _ a => auth_stake a) (authorities c) <= u32_max;
}.

(** The stake carried by a set of keys. *)
Definition stake_of (c : Committee) (X : gset PublicKey) : Z := set_sum (stake c) X.
Definition members (c : Committee) : gset PublicKey := dom (authorities c).

Lemma size_members_committee c : Z.of_nat (size (members c)) = committee_size c.
Proof. unfold members, committee_size. by rewrite size_dom. Qed.

Lemma length_authority_keys c : Z.of_nat (length (authority_keys c)) = committee_size c.
Proof. unfold authority_keys, committee_size. by rewrite length_fmap, length_map_iter. Qed.

Lemma elem_of_authority_keys c k : k ∈ authority_keys c <-> k ∈ members c.
Proof.
  unfold authority_keys, members. rewrite list_elem_of_fmap, elem_of_dom. split.
  - intros ([k' a] & -> & Hin). apply elem_of_map_iter in Hin. by exists a.
  - intros [a Ha]. exists (k, a). split; [done|]. by apply elem_of_map_iter.
Qed.

Lemma NoDup_authority_keys c : NoDup (authority_keys c).
Proof. apply map_iter_NoDup. Qed.

Section committee.
Context (c : Committee) (Hok : committee_ok c).

Lemma stake_nonneg k : 0 <= stake c k.
Proof.
  unfold stake. destruct (authorities c !! k) eqn:E; [|done].
  by eapply committee_stakes.
Qed.

Lemma total_votes_exact : total_votes c = map_sum (fun _ a => auth_stake a) (authorities c).
Proof.
  unfold total_votes, map_sum. destruct Hok as [_ Hpos Htot]. revert Hpos Htot.
  generalize (authorities c). intros m. clear Hok.
  assert (Hle : forall m' : gmap PublicKey Authority,
    (forall k a, m' !! k = Some a -> 0 <= auth_stake a) ->
    map_sum (fun _ a => auth_stake a) m' <= u32_max ->
    map_fold (fun _ a acc => u32_add acc (auth_stake a)) 0 m' =
    map_sum (fun _ a => auth_stake a) m').
  { intros m'. induction m' as [|k a m' Hk IH] using map_ind; intros Hpos Htot; [done|].
    rewrite (map_sum_insert_None _ m' k a Hk) in *.
    assert (0 <= auth_stake a) by (apply (Hpos k), lookup_insert_eq).
    assert (Hpos' : forall k' a', m' !! k' = Some a' -> 0 <= auth_stake a').
    { intros k' a' Hk'. apply (Hpos k'). rewrite lookup_insert_ne; [done|congruence]. }
    pose proof (map_sum_nonneg (fun _ a => auth_stake a) m' Hpos').
    rewrite (map_fold_insert_L (fun _ a acc => u32_add acc (auth_stake a))); [|..|done].
    - rewrite IH by (done || lia). rewrite u32_add_small by lia. lia.
    - intros. unfold u32_add. rewrite !Zplus_mod_idemp_l. f_equal. lia. }
  intros Hpos Htot. apply Hle; [done|].
  pose proof (map_sum_nonneg _ m Hpos). lia.
Qed.

Lemma total_votes_stake_of : total_votes c = stake_of c (members c).
Proof.
  rewrite total_votes_exact. unfold stake_of, members.
  rewrite (map_sum_ext _ (fun k _ => if true then stake c k else 0)).
  - rewrite (map_sum_selected (stake c) (fun _ _ => true)). f_equal.
    apply set_eq. intros k. rewrite elem_of_selected, elem_of_dom. unfold is_Some. naive_solver.
  - intros k a Hk. unfold stake. by rewrite Hk.
Qed.

Lemma total_votes_bounds : 0 <= total_votes c /\ 2 * total_votes c <= u32_max.
Proof.
  rewrite total_votes_exact. destruct Hok as [_ Hpos Htot].
  pose proof (map_sum_nonneg _ _ Hpos). lia.
Qed.

(** Non-members carry no stake. *)
Lemma stake_of_members X : stake_of c X = stake_of c (X ∩ members c).
Proof.
  unfold stake_of.
  assert (HX : X = (X ∩ members c) ∪ (X ∖ members c)).
  { apply set_eq. intros x. destruct (decide (x ∈ members c)); set_solver. }
  assert (Hz : set_sum (stake c) (X ∖ members c) = 0).
  { apply set_sum_zero. intros k Hk. apply elem_of_difference in Hk as [_ Hk].
    unfold members in Hk. rewrite not_elem_of_dom in Hk. unfold stake. by rewrite Hk. }
  rewrite HX at 1. rewrite set_sum_disj_union, Hz by set_solver. lia.
Qed.

Lemma stake_of_le X : stake_of c X <= total_votes c.
Proof.
  rewrite total_votes_stake_of, stake_of_members. unfold stake_of.
  apply set_sum_mono; [apply stake_nonneg|set_solver].
Qed.

Lemma quorum_threshold_exact : quorum_threshold c = 2 * total_votes c / 3 + 1.
Proof.
  unfold quorum_threshold. pose proof total_votes_bounds as [H1 H2].
  rewrite u32_mul_small by lia. apply u32_add_small.
  assert (0 <= 2 * total_votes c / 3 <= 2 * total_votes c).
  { split; [apply Z.div_pos; lia|]. apply Z.div_le_upper_bound; lia. }
  unfold u32_max, u32_modulus in *. split; [lia|].
  assert (2 * total_votes c / 3 <= u32_max / 3) by (apply Z.div_le_mono; unfold u32_max, u32_modulus in *; lia).
  unfold u32_max, u32_modulus in *. lia.
Qed.
End committee.

(** [f] is the largest fault count a committee of [n] parties tolerates, any
    two [Q = n - f] quorums meet in more than [f] parties, and the correct
    parties alone fill a quorum. *)
Lemma party_thresholds n :
  1 <= n ->
  let t := from_party_count n in
  0 <= f_parties t /\ 3 * f_parties t < n /\ n <= 3 * f_parties t + 3 /\
  f_plus_1_parties t <= n_minus_f_parties t /\
  n + f_parties t < 2 * n_minus_f_parties t.
Proof.
  intros Hn. simpl. pose proof (Z.div_mod (n - 1) 3 ltac:(lia)).
  pose proof (Z.mod_pos_bound (n - 1) 3 ltac:(lia)). lia.
Qed.

Section thresholds.
Context (c : Committee) (Hok : committee_ok c).
(** The stake of the faulty parties is below a third of the total. *)
Context (B : gset PublicKey) (HB : 3 * stake_of c B < total_votes c).

Lemma stake_quorums_intersect X Y :
  X ⊆ members c -> Y ⊆ members c ->
  quorum_threshold c <= stake_of c X -> quorum_threshold c <= stake_of c Y ->
  exists k, k ∈ X /\ k ∈ Y /\ k ∉ B.
Proof.
  intros HX HY HqX HqY.
  eapply (weighted_intersection (stake c) X Y (members c) B (quorum_threshold c));
    [by apply stake_nonneg|done..|].
  fold (stake_of c (members c)) (stake_of c B).
  rewrite <- total_votes_stake_of by done. rewrite quorum_threshold_exact by done.
  pose proof (Z.div_mod (2 * total_votes c) 3 ltac:(lia)).
  pose proof (Z.mod_pos_bound (2 * total_votes c) 3 ltac:(lia)). lia.
Qed.

Lemma stake_quorum_reachable :
  quorum_threshold c <= stake_of c (members c ∖ B).
Proof.
  assert (stake_of c (members c) <= stake_of c (members c ∖ B) + stake_of c B).
  { unfold stake_of. rewrite <- set_sum_disj_union by set_solver.
    apply set_sum_mono; [by apply stake_nonneg|]. intros k Hk.
    destruct (decide (k ∈ B)); set_solver. }
  rewrite <- total_votes_stake_of in * by done. rewrite quorum_threshold_exact by done.
  pose proof (Z.div_mod (2 * total_votes c) 3 ltac:(lia)).
  pose proof (Z.mod_pos_bound (2 * total_votes c) 3 ltac:(lia)). lia.
Qed.

Lemma validity_has_correct X :
  validity_threshold c <= stake_of c X -> exists k, k ∈ X /\ k ∉ B.
Proof.
  intros HX. destruct (decide (X ⊆ B)) as [Hsub|Hnot].
  - exfalso. assert (stake_of c X <= stake_of c B).
    { apply set_sum_mono; [by apply stake_nonneg|done]. }
    unfold validity_threshold in HX.
    pose proof (Z.div_mod (total_votes c + 2) 3 ltac:(lia)).
    pose proof (Z.mod_pos_bound (total_votes c + 2) 3 ltac:(lia)). lia.
  - assert (exists k, k ∈ X ∖ B) as [k Hk]; [|exists k; set_solver].
    apply set_choose_L. intros Hempty. apply Hnot. intros k Hk.
    destruct (decide (k ∈ B)) as [|HkB]; [done|].
    assert (k ∈ X ∖ B) as Hin by (apply elem_of_difference; done).
    rewrite Hempty in Hin. by apply not_elem_of_empty in Hin.
Qed.
End thresholds.

(** ** Leader schedules *)

Lemma round_robin_at_lookup ks position :
  ks <> [] -> 0 <= position ->
  round_robin_at (mkRoundRobin ks) position =
  ks !! Z.to_nat (position mod Z.of_nat (length ks)).
Proof.
  intros Hne Hpos. unfold round_robin_at, wrapped_index. simpl.
  rewrite decide_True by (destruct ks; simpl; [done|lia]). done.
Qed.

Lemma one_based_authority_eq c r round :
  round_robin_new c = Some r -> one_based r round = one_based_authority c round.
Proof.
  unfold round_robin_new, one_based, one_based_authority, round_robin_at.
  destruct (authority_keys c) eqn:E; [done|]. intros [= <-]. cbn [rr_authorities].
  by rewrite <- E, length_authority_keys.
Qed.

Lemma elector_position n slot view offset :
  0 < n <= 2 ^ 32 -> 0 <= slot -> 0 <= view -> 0 <= offset ->
  u64_add (view mod n) (u64_mul (slot mod n) (offset mod n) mod n) mod n =
  (view + slot * offset) mod n.
Proof.
  intros Hn Hs Hv Ho.
  pose proof (Z.mod_pos_bound slot n ltac:(lia)).
  pose proof (Z.mod_pos_bound offset n ltac:(lia)).
  pose proof (Z.mod_pos_bound view n ltac:(lia)).
  assert (u64_mul (slot mod n) (offset mod n) = slot mod n * (offset mod n)) as ->.
  { unfold u64_mul, u64_modulus. apply Z.mod_small. nia. }
  rewrite <- Zmult_mod.
  pose proof (Z.mod_pos_bound (slot * offset) n ltac:(lia)).
  rewrite u64_add_small by (unfold u64_max, u64_modulus; lia).
  by rewrite <- Zplus_mod.
Qed.

(** ** Properties *)

(** C31: the stake quorum of [Committee::quorum_threshold] is safe and live.  For
    a committee whose doubled total stake fits in a [u32] and a set [B] of
    faulty keys holding less than a third of the stake, two sets of members
    that each reach the quorum share a key outside [B], the members outside
    [B] alone reach the quorum, and any set reaching the validity threshold
    has a key outside [B]. *)
Theorem stake_thresholds_correct c B :
  committee_ok c -> 3 * stake_of c B < total_votes c ->
  (forall X Y, X ⊆ members c -> Y ⊆ members c ->
    quorum_threshold c <= stake_of c X -> quorum_threshold c <= stake_of c Y ->
    exists k, k ∈ X /\ k ∈ Y /\ k ∉ B) /\
  quorum_threshold c <= stake_of c (members c ∖ B) /\
  (forall X, validity_threshold c <= stake_of c X -> exists k, k ∈ X /\ k ∉ B).
Proof.
  intros Hok HB. split_and!.
  - by apply stake_quorums_intersect.
  - by apply stake_quorum_reachable.
  - by apply validity_has_correct.
Qed.

(** Four authorities of stake one. *)
Definition committee4 : Committee :=
  mkCommittee (list_to_map (map (fun k => (k, mkAuthority 1 {[ 0 ]})) [10; 20; 30; 40])).

Lemma committee4_ok : committee_ok committee4.
Proof.
  split.
  - done.
  - intros k a Hk. apply elem_of_map_to_list in Hk. vm_compute in Hk.
    repeat (apply elem_of_cons in Hk as [Hk|Hk]; [injection Hk as -> ->; done|]).
    by apply elem_of_nil in Hk.
  - by vm_compute.
Qed.

Lemma stake_thresholds_correct_witness :
  quorum_threshold committee4 <= stake_of committee4 (members committee4 ∖ {[ 30 ]}) /\
  exists k, k ∈ ({[ 10; 20; 30 ]} : gset Z) /\ k ∈ ({[ 20; 30; 40 ]} : gset Z) /\
    k ∉ ({[ 30 ]} : gset Z).
Proof.
  destruct (stake_thresholds_correct committee4 {[ 30 ]} committee4_ok ltac:(by vm_compute))
    as (Hint & Hlive & _).
  split; [exact Hlive|].
  apply Hint.
  - refine (bool_decide_eq_true_1 _ _). by vm_compute.
  - refine (bool_decide_eq_true_1 _ _). by vm_compute.
  - by vm_compute.
  - by vm_compute.
Defined.

(** With stakes that sum to [2^31], which a [u32] holds, the doubling in
    [quorum_threshold] wraps and the quorum is one unit of stake, so two
    disjoint sets of members are both quorums. *)
Theorem quorum_threshold_wraps :
  let c := mkCommittee {[ 1 := mkAuthority (2 ^ 30) ∅; 2 := mkAuthority (2 ^ 30) ∅ ]} in
  total_votes c = 2 ^ 31 /\ quorum_threshold c = 1 /\
  quorum_threshold c <= stake_of c {[ 1 ]} /\ quorum_threshold c <= stake_of c {[ 2 ]}.
Proof. split_and!; vm_compute; done. Qed.

(** [SemiParallelRRLeaderElector::get_leader] computes the exact schedule
    [authorities[(view + slot * offset) mod n]] for every [u64] slot and view:
    no intermediate product or sum wraps for committees of up to [2^32]
    members, and the elector always names a member. *)
Theorem get_leader_exact c e slot view :
  elector_new c = Some e -> committee_size c <= 2 ^ 32 -> is_u64 slot -> is_u64 view ->
  exists k, get_leader e slot view = Some k /\ k ∈ members c /\
  authority_keys c !! Z.to_nat ((view + slot * ((committee_size c - 1) / 3)) mod committee_size c)
    = Some k.
Proof.
  unfold elector_new, round_robin_new. intros He Hsize Hs Hv.
  destruct (authority_keys c) as [|k0 ks] eqn:Hks; [done|]. injection He as <-.
  pose proof (length_authority_keys c) as Hlen. rewrite Hks in Hlen. simpl in Hlen.
  set (n := committee_size c) in *. unfold get_leader. cbn [leaders leader_count slot_offset].
  unfold is_u64 in *. unfold u64_saturating_sub at 1. rewrite Z.max_r by lia.
  rewrite elector_position; [|lia..|apply Z.div_pos; lia].
  pose proof (Z.mod_pos_bound (view + slot * ((n - 1) / 3)) n ltac:(lia)) as Hb.
  set (i := (view + slot * ((n - 1) / 3)) mod n) in *.
  rewrite round_robin_at_lookup by (done || lia). simpl length.
  replace (Z.of_nat (S (length ks))) with n by lia. rewrite Z.mod_small by lia.
  destruct (lookup_lt_is_Some_2 (k0 :: ks) (Z.to_nat i)) as [k Hk]; [simpl; lia|].
  exists k. rewrite Hk. split_and!; [done| |done].
  apply elem_of_authority_keys. rewrite Hks. by eapply list_elem_of_lookup_2.
Qed.

Lemma get_leader_exact_witness :
  exists e, elector_new committee4 = Some e /\
  get_leader e u64_max u64_max = Some 30 /\
  exists k, get_leader e u64_max u64_max = Some k /\ k ∈ members committee4.
Proof.
  eexists. split; [vm_compute; reflexivity|]. split; [vm_compute; reflexivity|].
  destruct (get_leader_exact committee4
    (mkElector (mkRoundRobin [10; 20; 30; 40]) 4 1) u64_max u64_max) as (k & Hk & Hm & _).
  - vm_compute. reflexivity.
  - by vm_compute.
  - by vm_compute.
  - by vm_compute.
  - exists k. split; [exact Hk|exact Hm].
Defined.

(** the round-robin proposer schedule is fair: over any [n] consecutive
    views of a committee of [n], every member proposes exactly once. *)
Theorem one_based_fair c r first k :
  round_robin_new c = Some r -> 1 <= first -> k ∈ members c ->
  exists! i, 0 <= i < committee_size c /\ one_based r (first + i) = Some k.
Proof.
  unfold round_robin_new. intros Hr Hfirst Hk.
  destruct (authority_keys c) as [|k0 ks] eqn:Hks; [done|]. injection Hr as <-.
  apply elem_of_authority_keys in Hk. rewrite Hks in Hk.
  apply list_elem_of_lookup in Hk as [j Hj].
  pose proof (NoDup_authority_keys c) as Hnd. rewrite Hks in Hnd.
  pose proof (length_authority_keys c) as Hlen. rewrite Hks in Hlen.
  apply lookup_lt_Some in Hj as Hjlt.
  set (n := committee_size c) in *. set (l := k0 :: ks) in *.
  assert (Hn : 0 < n) by (subst l; simpl in Hlen; lia).
  assert (Hat : forall i, 0 <= i ->
    one_based (mkRoundRobin l) (first + i) = l !! Z.to_nat ((first + i - 1) mod n)).
  { intros i Hi. unfold one_based, u64_saturating_sub. rewrite Z.max_r by lia.
    rewrite round_robin_at_lookup by (done || lia). by rewrite Hlen. }
  exists ((Z.of_nat j - (first - 1)) mod n). split.
  - pose proof (Z.mod_pos_bound (Z.of_nat j - (first - 1)) n ltac:(lia)).
    split; [lia|]. rewrite Hat by lia.
    replace (first + (Z.of_nat j - (first - 1)) mod n - 1)
      with ((first - 1) + (Z.of_nat j - (first - 1)) mod n) by lia.
    rewrite Zplus_mod_idemp_r.
    replace (first - 1 + (Z.of_nat j - (first - 1))) with (Z.of_nat j) by lia.
    rewrite Z.mod_small by lia. by rewrite Nat2Z.id.
  - intros i [Hi Hik]. rewrite Hat in Hik by lia.
    pose proof (Z.mod_pos_bound (first + i - 1) n ltac:(lia)).
    assert (Z.to_nat ((first + i - 1) mod n) = j) as Heq.
    { eapply NoDup_lookup; [exact Hnd|exact Hik|exact Hj]. }
    replace (Z.of_nat j) with ((first + i - 1) mod n) by lia.
    rewrite Zminus_mod_idemp_l. replace (first + i - 1 - (first - 1)) with i by lia.
    apply Z.mod_small. lia.
Qed.

Lemma one_based_fair_witness :
  exists! i, 0 <= i < 4 /\ one_based (mkRoundRobin [10; 20; 30; 40]) (7 + i) = Some 20.
Proof.
  apply (one_based_fair committee4 (mkRoundRobin [10; 20; 30; 40]) 7 20).
  - vm_compute. reflexivity.
  - lia.
  - refine (bool_decide_eq_true_1 _ _). by vm_compute.
Defined.
