(* ===== verification/IndexRefine.v ===== *)
(** The committee-indexed containers are maps and sets keyed by public keys.

    Each container of [Index] and the plain map or set it stands for are state
    machines with the same operations; a simulation shows that any sequence of
    operations gets the same answers from both, lists up to order. *)

From S2P Require Import Prelude Committee Index.

(** ** Observational equivalence of data structures *)

(** A data structure as a state machine: operations change the state and
    answer. *)
Record ADT (Op Out : Type) := mkADT {
  adt_state : Type;
  adt_init : adt_state;
  adt_step : Op -> adt_state -> Out * adt_state;
}.
Arguments mkADT {Op Out} _ _ _.
Arguments adt_state {Op Out} _.
Arguments adt_init {Op Out} _.
Arguments adt_step {Op Out} _ _ _.

Section adt.
Context {Op Out : Type}.

Fixpoint adt_answers (a : ADT Op Out) (ops : list Op) (s : adt_state a) : list Out :=
  match ops with
  | [] => []
  | op :: ops => let r := adt_step a op s in r.1 :: adt_answers a ops r.2
  end.

(** Any sequence of operations gets answers related by [R]. *)
Definition adt_refines (R : Out -> Out -> Prop) (a b : ADT Op Out) : Prop :=
  forall ops, Forall2 R (adt_answers a ops (adt_init a)) (adt_answers b ops (adt_init b)).

Lemma adt_simulation (R : Out -> Out -> Prop) (a b : ADT Op Out)
    (I : adt_state a -> adt_state b -> Prop) :
  I (adt_init a) (adt_init b) ->
  (forall op s t, I s t ->
    R (adt_step a op s).1 (adt_step b op t).1 /\ I (adt_step a op s).2 (adt_step b op t).2) ->
  adt_refines R a b.
Proof.
  intros Hinit Hstep ops. revert Hinit. generalize (adt_init a) (adt_init b).
  induction ops as [|op ops IH]; intros s t Hst; cbn [adt_answers]; [done|].
  destruct (Hstep op s t Hst). constructor; auto.
Qed.
End adt.

(** What an operation answers. *)
Inductive Answer (T : Type) :=
  | AnsUnit
  | AnsFlag (b : bool)
  | AnsValue (v : option T)
  | AnsList (l : list T).
Arguments AnsUnit {T}.
Arguments AnsFlag {T} _.
Arguments AnsValue {T} _.
Arguments AnsList {T} _.

(** Iterators over hash maps have no fixed order. *)
Definition same_answer {T} (a b : Answer T) : Prop :=
  match a, b with
  | AnsList l, AnsList l' => l ≡ₚ l'
  | _, _ => a = b
  end.

(** ** [ByRef] is a map keyed by block references *)

Section by_ref.
Context {T : Type} (dflt : T) (c : Committee).
Abbreviation ix := (index_new c) (only parsing).
Abbreviation Ref := (PublicKey * Height * Digest)%type (only parsing).

Inductive RefOp :=
  | RGet (k : PublicKey) (h : Height) (d : Digest)
  | RGetMut (k : PublicKey) (h : Height) (d : Digest) (f : T -> T)
  | REntry (k : PublicKey) (h : Height) (d : Digest) (f : T -> T)
  | RDrain (k : PublicKey).

Definition by_ref_adt : ADT RefOp (Answer T) :=
  mkADT (ByRef T) (br_new ix) (fun op b =>
    match op with
    | RGet k h d => (AnsValue (br_get (slot ix k) h d b), b)
    | RGetMut k h d f => (AnsUnit, br_get_mut (slot ix k) h d f b)
    | REntry k h d f => let r := br_entry dflt (slot ix k) h d f b in (AnsFlag r.1, r.2)
    | RDrain k => let r := br_drain_author (slot ix k) b in (AnsList r.1, r.2)
    end).

Definition of_author (k : PublicKey) (p : Ref * T) : Prop := p.1.1.1 = k.
#[local] Instance of_author_dec k p : Decision (of_author k p).
Proof. unfold of_author. apply _. Defined.

Definition ref_map_adt : ADT RefOp (Answer T) :=
  mkADT (gmap Ref T) ∅ (fun op m =>
    match op with
    | RGet k h d => (AnsValue (m !! (k, h, d)), m)
    | RGetMut k h d f => (AnsUnit, alter f (k, h, d) m)
    | REntry k h d f =>
        (AnsFlag (bool_decide (m !! (k, h, d) = None)),
         <[ (k, h, d) := f (default dflt (m !! (k, h, d))) ]> m)
    | RDrain k => (AnsList (filter (of_author k) (map_to_list m)).*2,
                   filter (fun p => ~ of_author k p) m)
    end).

Definition rs_ok (r : RefSlot T) : Prop := NoDup (rs_head r :: (rs_forks r).*1).

Lemma fork_get_elem d v (l : list (Digest * T)) :
  NoDup l.*1 -> fork_get d l = Some v <-> (d, v) ∈ l.
Proof.
  induction l as [|[d' v'] l IH]; cbn; intros Hnd.
  - split; [done|]. by intros ?%not_elem_of_nil.
  - apply NoDup_cons in Hnd as [Hd' Hnd]. rewrite elem_of_cons.
    destruct (Z.eqb_spec d' d) as [->|Hne].
    + split; [naive_solver|]. intros [|Hin]; [naive_solver|].
      exfalso. apply Hd'. apply list_elem_of_fmap. by exists (d, v).
    + rewrite IH by done. naive_solver.
Qed.

Lemma fork_get_alter (f : T -> T) d d' (l : list (Digest * T)) :
  fork_get d' (fork_alter f d l) = (if decide (d' = d) then f <$> fork_get d l else fork_get d' l).
Proof.
  induction l as [|[x v] l IH]; cbn; [by destruct (decide _)|].
  destruct (Z.eqb_spec x d) as [->|Hx]; cbn.
  - destruct (decide (d' = d)) as [->|]; [by rewrite Z.eqb_refl|].
    destruct (Z.eqb_spec d d'); congruence.
  - rewrite IH. destruct (Z.eqb_spec x d') as [->|]; [|done]. destruct (decide (d' = d)); congruence.
Qed.

Lemma fork_alter_fst (f : T -> T) d (l : list (Digest * T)) : (fork_alter f d l).*1 = l.*1.
Proof. induction l as [|[x v] l IH]; cbn; [done|]. destruct (x =? d); cbn; congruence. Qed.

Lemma fork_get_app d (l k : list (Digest * T)) :
  fork_get d (l ++ k) = match fork_get d l with Some v => Some v | None => fork_get d k end.
Proof. induction l as [|[x v] l IH]; cbn; [done|]. by destruct (x =? d). Qed.

Lemma fork_get_None d (l : list (Digest * T)) : fork_get d l = None <-> d ∉ l.*1.
Proof.
  induction l as [|[x v] l IH]; cbn; [split; [intros _; apply not_elem_of_nil | done]|].
  rewrite not_elem_of_cons. destruct (Z.eqb_spec x d); rewrite ?IH; naive_solver.
Qed.

Lemma rs_alter_ok (f : T -> T) d r : rs_ok r -> rs_ok (rs_alter f d r).
Proof. unfold rs_ok, rs_alter. destruct (_ =? _); cbn; [done|]. by rewrite fork_alter_fst. Qed.

Lemma rs_get_alter (f : T -> T) d d' r :
  rs_get d' (rs_alter f d r) = (if decide (d' = d) then f <$> rs_get d r else rs_get d' r).
Proof.
  unfold rs_get, rs_alter. destruct (Z.eqb_spec (rs_head r) d) as [<-|Hd]; cbn.
  - destruct (Z.eqb_spec (rs_head r) d') as [<-|]; [by rewrite decide_True|].
    by rewrite decide_False by congruence.
  - rewrite fork_get_alter.
    destruct (Z.eqb_spec (rs_head r) d') as [<-|]; [by rewrite decide_False by congruence|].
    by destruct (decide (d' = d)).
Qed.

(** The values of a lane with their coordinates. *)
Definition slot_entries (p : Height * RefSlot T) : list (Height * Digest * T) :=
  (p.1, rs_head p.2, rs_value p.2) :: ((fun q => (p.1, q.1, q.2)) <$> rs_forks p.2).
Definition lane_entries (lane : gmap Height (RefSlot T)) : list (Height * Digest * T) :=
  mjoin (slot_entries <$> map_iter lane).

Definition lane_ok (lane : gmap Height (RefSlot T)) : Prop := forall h r, lane !! h = Some r -> rs_ok r.

Lemma lane_values_entries (lane : gmap Height (RefSlot T)) : lane_values lane = (lane_entries lane).*2.
Proof.
  unfold lane_values, lane_entries. induction (map_iter lane) as [|p l IH]; [done|].
  rewrite !fmap_cons, !join_cons, fmap_app, IH. f_equal.
  unfold slot_entries. by rewrite fmap_cons, <- list_fmap_compose.
Qed.

Lemma elem_of_slot_entries (p : Height * RefSlot T) h d v :
  rs_ok p.2 -> (h, d, v) ∈ slot_entries p <-> p.1 = h /\ rs_get d p.2 = Some v.
Proof.
  unfold rs_ok, slot_entries, rs_get. intros Hok. apply NoDup_cons in Hok as [Hh Hok].
  rewrite elem_of_cons, list_elem_of_fmap. destruct (Z.eqb_spec (rs_head p.2) d) as [<-|Hne].
  - split.
    + intros [[= -> ->]|([d v'] & Hq & Hin)]; [done|]. cbn in Hq. simplify_eq.
      exfalso. apply Hh. apply list_elem_of_fmap. by eexists (_, _).
    + intros [<- [= <-]]. by left.
  - rewrite fork_get_elem by done. split.
    + intros [?|([d0 v'] & Hq & Hin)]; cbn in *; simplify_eq; done.
    + intros [<- Hin]. right. by exists (d, v).
Qed.

Lemma elem_of_lane_entries lane h d v :
  lane_ok lane -> (h, d, v) ∈ lane_entries lane <-> lane !! h ≫= rs_get d = Some v.
Proof.
  intros Hok. unfold lane_entries. rewrite list_elem_of_join. setoid_rewrite list_elem_of_fmap. split.
  - intros (l & Hin & [h' r] & -> & Hp). apply elem_of_map_iter in Hp.
    apply elem_of_slot_entries in Hin as [<- Hg]; [|by eapply Hok]. cbn in *. by rewrite Hp.
  - intros H. destruct (lane !! h) as [r|] eqn:E; [|done].
    exists (slot_entries (h, r)). split; [|exists (h, r); split; [done|by apply elem_of_map_iter]].
    apply elem_of_slot_entries; [by eapply Hok|done].
Qed.

Lemma NoDup_lane_entries lane : lane_ok lane -> NoDup (lane_entries lane).*1.
Proof.
  intros Hok. unfold lane_entries.
  assert (Forall (fun p => rs_ok p.2) (map_iter lane)) as Hall.
  { apply Forall_forall. intros [h r] Hp. apply elem_of_map_iter in Hp. by eapply Hok. }
  pose proof (map_iter_NoDup lane) as Hnd. revert Hnd Hall.
  induction (map_iter lane) as [|p l IH]; intros Hnd Hall; [constructor|].
  apply NoDup_cons in Hnd as [Hp Hnd]. apply Forall_cons in Hall as [Hrs Hall].
  rewrite fmap_cons, join_cons, fmap_app. apply NoDup_app. split_and!; [| |by apply IH].
  - unfold rs_ok in Hrs. unfold slot_entries. rewrite fmap_cons, <- list_fmap_compose.
    apply (NoDup_fmap_2 (fun d => (p.1, d))) in Hrs.
    rewrite fmap_cons, <- list_fmap_compose in Hrs. exact Hrs.
  - intros [h d] Hin Hin2. apply Hp.
    assert (h = p.1) as ->.
    { apply list_elem_of_fmap in Hin as ([[h' d'] v] & [= -> ->] & Hin).
      unfold slot_entries in Hin. rewrite elem_of_cons, list_elem_of_fmap in Hin. naive_solver. }
    apply list_elem_of_fmap in Hin2 as ([[h' d'] v] & [= <- <-] & Hin2).
    apply list_elem_of_join in Hin2 as (e & He & Hin2).
    apply list_elem_of_fmap in Hin2 as (q & -> & Hq).
    apply list_elem_of_fmap. exists q. split; [|done].
    unfold slot_entries in He. rewrite elem_of_cons, list_elem_of_fmap in He. naive_solver.
Qed.

(** The table holds exactly the entries of the map. *)
Record ref_sim (b : ByRef T) (m : gmap Ref T) : Prop := {
  ref_sim_lanes : length (br_lanes b) = length (ci_keys ix);
  ref_sim_ok : forall i lane, br_lanes b !! i = Some lane -> lane_ok lane;
  ref_sim_outside : forall k h d v, br_outside b !! (k, h, d) = Some v -> slot_index (slot ix k) = None;
  ref_sim_get : forall k h d, br_get (slot ix k) h d b = m !! (k, h, d);
}.

Lemma ref_sim_lane b m k i :
  ref_sim b m -> slot_index (slot ix k) = Some i ->
  br_lanes b !! i = Some (br_lane i b) /\ lane_ok (br_lane i b) /\
  (forall h d, br_lane i b !! h ≫= rs_get d = m !! (k, h, d)).
Proof.
  intros Hs Hi. unfold br_lane.
  destruct (lookup_lt_is_Some_2 (br_lanes b) i) as [lane Hl].
  { rewrite (ref_sim_lanes _ _ Hs). by eapply slot_lt. }
  rewrite Hl. split_and!; [done|by eapply ref_sim_ok|].
  intros h d. rewrite <- (ref_sim_get _ _ Hs). unfold br_get, br_lane. by rewrite Hi, Hl.
Qed.

(** Replacing a member's lane replaces that author's entries. *)
Lemma ref_sim_put b m k i lane m' :
  ref_sim b m -> slot_index (slot ix k) = Some i -> lane_ok lane ->
  (forall h d, lane !! h ≫= rs_get d = m' !! (k, h, d)) ->
  (forall k' h d, k' <> k -> m' !! (k', h, d) = m !! (k', h, d)) ->
  ref_sim (mkByRef (<[ i := lane ]> (br_lanes b)) (br_outside b)) m'.
Proof.
  intros Hs Hi Hok Hin Hout. destruct (ref_sim_lane b m k i Hs Hi) as (Hl & _ & _).
  pose proof (lookup_lt_Some _ _ _ Hl). split; cbn.
  - rewrite length_insert. exact (ref_sim_lanes _ _ Hs).
  - intros j l Hj. destruct (decide (j = i)) as [->|].
    + rewrite list_lookup_insert_eq in Hj by done. by simplify_eq.
    + rewrite list_lookup_insert_ne in Hj by done. by eapply ref_sim_ok.
  - exact (ref_sim_outside _ _ Hs).
  - intros k' h d. unfold br_get, br_lane; cbn [br_lanes br_outside].
    destruct (decide (k' = k)) as [->|Hk].
    + rewrite Hi, list_lookup_insert_eq by done. apply Hin.
    + rewrite Hout by done. rewrite <- (ref_sim_get _ _ Hs). unfold br_get, br_lane.
      destruct (slot_index (slot ix k')) as [j|] eqn:Hj; [|done].
      rewrite list_lookup_insert_ne; [done|]. intros ->. by apply Hk; eapply slot_inj.
Qed.

(** Changing the entries of keys outside the committee. *)
Lemma ref_sim_others b m k o m' :
  ref_sim b m -> slot_index (slot ix k) = None ->
  (forall k' h d v, o !! (k', h, d) = Some v -> slot_index (slot ix k') = None) ->
  (forall k' h d, slot_index (slot ix k') = None -> o !! (k', h, d) = m' !! (k', h, d)) ->
  (forall k' h d, k' <> k -> m' !! (k', h, d) = m !! (k', h, d)) ->
  ref_sim (mkByRef (br_lanes b) o) m'.
Proof.
  intros Hs Hk Ho Hm Hout. split; cbn; [apply Hs|apply Hs|done|].
  intros k' h d. unfold br_get, br_lane; cbn [br_lanes br_outside].
  destruct (slot_index (slot ix k')) as [i|] eqn:Hi; [|by apply Hm].
  rewrite Hout by congruence. rewrite <- (ref_sim_get _ _ Hs). unfold br_get, br_lane. by rewrite Hi.
Qed.

Lemma ref_sim_outside_get b m k h d :
  ref_sim b m -> slot_index (slot ix k) = None -> br_outside b !! (k, h, d) = m !! (k, h, d).
Proof. intros Hs Hk. rewrite <- (ref_sim_get _ _ Hs). unfold br_get. by rewrite Hk. Qed.

Lemma lane_ok_insert lane h r : lane_ok lane -> rs_ok r -> lane_ok (<[ h := r ]> lane).
Proof. intros Hl Hr h' r'. rewrite lookup_insert_Some. naive_solver. Qed.

Lemma ref_sim_get_mut b m k h d f :
  ref_sim b m -> ref_sim (br_get_mut (slot ix k) h d f b) (alter f (k, h, d) m).
Proof.
  intros Hs. unfold br_get_mut. destruct (slot_index (slot ix k)) as [i|] eqn:Hi.
  - destruct (ref_sim_lane b m k i Hs Hi) as (Hl & Hok & Hget).
    apply (ref_sim_put b m k); [done..| | |].
    + intros h' r. rewrite lookup_alter_Some. intros [(-> & r' & Hr & ->)|[_ Hr]];
        [apply rs_alter_ok|]; by eapply Hok.
    + intros h' d'. destruct (decide (h' = h)) as [->|].
      * rewrite lookup_alter_eq. destruct (decide (d' = d)) as [->|].
        -- rewrite lookup_alter_eq, <- Hget. destruct (br_lane i b !! h); [|done]. cbn.
           by rewrite rs_get_alter, decide_True.
        -- rewrite lookup_alter_ne by congruence. rewrite <- Hget.
           destruct (br_lane i b !! h); [|done]. cbn. by rewrite rs_get_alter, decide_False.
      * rewrite lookup_alter_ne by done. rewrite lookup_alter_ne by congruence. apply Hget.
    + intros k' h' d' Hk. by rewrite lookup_alter_ne by congruence.
  - apply (ref_sim_others b m k); [done..| | |].
    + intros k' h' d' v. rewrite lookup_alter_Some.
      intros [(? & v' & Hv & _)|[_ Hv]]; by eapply ref_sim_outside.
    + intros k' h' d' Hk'. pose proof (ref_sim_outside_get b m k' h' d' Hs Hk').
      destruct (decide ((k', h', d') = (k, h, d))) as [E|].
      * cbn. rewrite E in *. rewrite !lookup_alter_eq. congruence.
      * cbn. rewrite !lookup_alter_ne by congruence. done.
    + intros k' h' d' Hk. by rewrite lookup_alter_ne by congruence.
Qed.

Lemma ref_sim_entry b m k h d f :
  ref_sim b m ->
  (br_entry dflt (slot ix k) h d f b).1 = bool_decide (m !! (k, h, d) = None) /\
  ref_sim (br_entry dflt (slot ix k) h d f b).2 (<[ (k, h, d) := f (default dflt (m !! (k, h, d))) ]> m).
Proof.
  intros Hs. unfold br_entry. destruct (slot_index (slot ix k)) as [i|] eqn:Hi.
  - destruct (ref_sim_lane b m k i Hs Hi) as (Hl & Hok & Hget). rewrite <- Hget.
    assert (forall x r, rs_ok r ->
      (forall d', rs_get d' r = if decide (d' = d) then Some x else br_lane i b !! h ≫= rs_get d') ->
      ref_sim (mkByRef (<[ i := <[ h := r ]> (br_lane i b) ]> (br_lanes b)) (br_outside b))
        (<[ (k, h, d) := x ]> m)) as Hput.
    { intros x r Hr Hrget. apply (ref_sim_put b m k); [done..|by apply lane_ok_insert| |].
      - intros h' d'. destruct (decide (h' = h)) as [->|].
        + rewrite lookup_insert_eq. cbn. rewrite Hrget. destruct (decide (d' = d)) as [->|].
          * by rewrite lookup_insert_eq.
          * rewrite lookup_insert_ne by congruence. apply Hget.
        + rewrite !lookup_insert_ne by congruence. apply Hget.
      - intros k' h' d' Hk. by rewrite lookup_insert_ne by congruence. }
    destruct (br_lane i b !! h) as [r|] eqn:Hr; cbn in *; [apply Hok in Hr as Hrs|].
    + unfold rs_get in *. destruct (Z.eqb_spec (rs_head r) d) as [Hd|Hd]; cbn in *.
      * split; [done|]. apply Hput; [done|]. intros d'. cbn.
        destruct (Z.eqb_spec (rs_head r) d'), (decide (d' = d)); congruence.
      * destruct (fork_get d (rs_forks r)) as [v|] eqn:Hf; cbn in *.
        -- split; [done|]. apply Hput; [unfold rs_ok in *; cbn; by rewrite fork_alter_fst|].
           intros d'. cbn. rewrite fork_get_alter, Hf.
           destruct (Z.eqb_spec (rs_head r) d'), (decide (d' = d)); try congruence; done.
        -- split; [done|]. apply Hput.
           ++ unfold rs_ok in *. cbn. rewrite fmap_app. cbn. apply fork_get_None in Hf.
              rewrite app_comm_cons. apply NoDup_app. split_and!; [done| |apply NoDup_singleton].
              intros y Hy ->%list_elem_of_singleton. apply elem_of_cons in Hy as [|]; congruence.
           ++ intros d'. cbn. rewrite fork_get_app. cbn. destruct (decide (d' = d)) as [->|].
              ** rewrite Hf, Z.eqb_refl. destruct (Z.eqb_spec (rs_head r) d); congruence.
              ** destruct (Z.eqb_spec d d'); [congruence|].
                 destruct (rs_head r =? d'); [done|]. by destruct (fork_get d' _).
    + split; [done|]. apply Hput; [unfold rs_ok; cbn; apply NoDup_singleton|].
      intros d'. unfold rs_get. cbn. destruct (Z.eqb_spec d d'), (decide (d' = d)); congruence.
  - cbn. rewrite (ref_sim_outside_get b m k h d Hs Hi). split; [done|].
    apply (ref_sim_others b m k); [done..| | |].
    + intros k' h' d' v. rewrite lookup_insert_Some.
      intros [[? _]|[_ Hv]]; [naive_solver|by eapply ref_sim_outside].
    + intros k' h' d' Hk'. pose proof (ref_sim_outside_get b m k' h' d' Hs Hk').
      destruct (decide ((k', h', d') = (k, h, d))) as [E|].
      * by rewrite E, !lookup_insert_eq.
      * by rewrite !lookup_insert_ne by congruence.
    + intros k' h' d' Hk. by rewrite lookup_insert_ne by congruence.
Qed.
Lemma NoDup_author_entries (k : PublicKey) (m : gmap Ref T) :
  NoDup (filter (of_author k) (map_to_list m)).*1.
Proof.
  apply (sublist_NoDup _ (map_to_list m).*1); [apply NoDup_fst_map_to_list|].
  apply fmap_sublist, sublist_filter.
Qed.

Lemma ref_sim_drain b m (k : PublicKey) :
  ref_sim b m ->
  (br_drain_author (slot ix k) b).1 ≡ₚ (filter (of_author k) (map_to_list m)).*2 /\
  ref_sim (br_drain_author (slot ix k) b).2 (filter (fun p => ~ of_author k p) m).
Proof.
  intros Hs. unfold br_drain_author.
  assert (forall k' h d, k' <> k -> filter (fun p => ~ of_author k p) m !! (k', h, d) = m !! (k', h, d))
    as Hother.
  { intros k' h d Hk. apply option_eq. intros v. rewrite map_lookup_filter_Some. unfold of_author. naive_solver. }
  assert (forall h d, filter (fun p => ~ of_author k p) m !! (k, h, d) = None) as Hgone.
  { intros h d. apply map_lookup_filter_None. right. intros v _ Hn. by apply Hn. }
  destruct (slot_index (slot ix k)) as [i|] eqn:Hi; cbn [fst snd].
  - destruct (ref_sim_lane b m k i Hs Hi) as (Hl & Hok & Hget). split.
    + rewrite lane_values_entries.
      replace (lane_entries (br_lane i b)).*2 with
        ((fun e : Height * Digest * T => ((k, e.1.1, e.1.2), e.2)) <$> lane_entries (br_lane i b)).*2
        by (rewrite <- list_fmap_compose; by apply list_fmap_ext).
      apply fmap_Permutation, assoc_Permutation; [|apply NoDup_author_entries|].
      * rewrite <- list_fmap_compose.
        pose proof (NoDup_lane_entries (br_lane i b) Hok) as Hnd.
        apply (NoDup_fmap_2_strong (fun e => (k, e.1, e.2))) in Hnd.
        -- by rewrite <- list_fmap_compose in Hnd.
        -- intros [] [] _ _ [=]; congruence.
      * intros [[k' h] d] v. rewrite list_elem_of_filter, elem_of_map_to_list, list_elem_of_fmap.
        unfold of_author. split.
        -- intros ([[h' d'] v'] & [= -> -> -> ->] & Hin). split; [done|].
           apply elem_of_lane_entries in Hin; [|done]. cbn. by rewrite <- Hget.
        -- cbn. intros [-> Hm]. exists (h, d, v). split; [done|].
           apply elem_of_lane_entries; [done|]. by rewrite Hget.
    + apply (ref_sim_put b m k); [done..| |done].
      intros h d. by rewrite Hgone, lookup_empty.
  - split.
    + apply fmap_Permutation, assoc_Permutation.
      * apply (NoDup_author_entries k).
      * apply NoDup_author_entries.
      * intros [[k' h] d] v. rewrite !list_elem_of_filter, !elem_of_map_to_list. unfold of_author. cbn.
        split; (intros [-> Hin]; split; [done|]); rewrite (ref_sim_outside_get b m) in *; done.
    + apply (ref_sim_others b m k); [done..| | |done].
      * intros k' h d v. rewrite map_lookup_filter_Some. intros [Hv _]. by eapply ref_sim_outside.
      * intros k' h d Hk'. apply option_eq. intros v. rewrite !map_lookup_filter_Some.
        rewrite (ref_sim_outside_get b m) by done. done.
Qed.

Lemma ref_sim_new : ref_sim (br_new ix) ∅.
Proof.
  split; cbn.
  - apply length_replicate.
  - intros i lane H h r Hr. apply lookup_replicate in H as [-> _]. done.
  - intros k h d v. by rewrite lookup_empty.
  - intros k h d. rewrite lookup_empty. unfold br_get, br_lane, br_new. cbn [br_lanes br_outside].
    destruct (slot_index _) as [i|]; [|apply lookup_empty].
    destruct (replicate _ _ !! i) as [l|] eqn:E; [|done].
    apply lookup_replicate in E as [-> _]. done.
Qed.

Lemma by_ref_sim : adt_refines same_answer by_ref_adt ref_map_adt.
Proof.
  apply (adt_simulation same_answer by_ref_adt ref_map_adt ref_sim); [apply ref_sim_new|].
  intros [k h d|k h d f|k h d f|k] b m Hs; cbn.
  - split; [|done]. f_equal. by apply ref_sim_get.
  - split; [done|]. by apply ref_sim_get_mut.
  - destruct (ref_sim_entry b m k h d f Hs) as [-> ?]. done.
  - by apply ref_sim_drain.
Qed.
End by_ref.

(** ** [ByPair] is a map keyed by pairs of keys *)

Section by_pair.
Context {T : Type} (c : Committee).
Abbreviation ix := (index_new c) (only parsing).

Inductive PairOp :=
  | PGet (s a : PublicKey)
  | PInsert (s a : PublicKey) (v : T)
  | PRemove (s a : PublicKey)
  | PClear (a : PublicKey)
  | PRow (a : PublicKey).

Definition by_pair_adt : ADT PairOp (Answer (PublicKey * T)) :=
  mkADT (ByPair T) (bp_new ix) (fun op b =>
    match op with
    | PGet s a => (AnsValue (pair s <$> bp_get (slot ix s) (slot ix a) b), b)
    | PInsert s a v => (AnsUnit, bp_insert ix (slot ix s) (slot ix a) v b)
    | PRemove s a => (AnsUnit, bp_remove (slot ix s) (slot ix a) b)
    | PClear a => (AnsUnit, bp_clear_author (slot ix a) b)
    | PRow a => (AnsList (prod_map slot_key id <$> bp_row_iter ix (slot ix a) b), b)
    end).

Definition pair_map_adt : ADT PairOp (Answer (PublicKey * T)) :=
  mkADT (gmap (PublicKey * PublicKey) T) ∅ (fun op m =>
    match op with
    | PGet s a => (AnsValue (pair s <$> m !! (s, a)), m)
    | PInsert s a v => (AnsUnit, <[ (s, a) := v ]> m)
    | PRemove s a => (AnsUnit, delete (s, a) m)
    | PClear a => (AnsUnit, filter (fun p => p.1.2 <> a) m)
    | PRow a => (AnsList ((fun p => (p.1.1, p.2)) <$> filter (fun p => p.1.2 = a) (map_to_list m)), m)
    end).

Record pair_sim (b : ByPair T) (m : gmap (PublicKey * PublicKey) T) : Prop := {
  pair_sim_rows : length (bp_rows b) = length (ci_keys ix);
  pair_sim_row : forall i, bp_row i b = [] \/ length (bp_row i b) = length (ci_keys ix);
  pair_sim_outside : forall s a v, bp_outside b !! (s, a) = Some v ->
    slot_index (slot ix s) = None \/ slot_index (slot ix a) = None;
  pair_sim_get : forall s a, bp_get (slot ix s) (slot ix a) b = m !! (s, a);
}.

Lemma pair_sim_outside_get b m s a :
  pair_sim b m -> slot_index (slot ix s) = None \/ slot_index (slot ix a) = None ->
  bp_outside b !! (s, a) = m !! (s, a).
Proof.
  intros Hs Hsa. rewrite <- (pair_sim_get _ _ Hs). unfold bp_get.
  destruct (slot_index (slot ix s)), (slot_index (slot ix a)); naive_solver.
Qed.

Lemma bp_row_insert i row b o : (i < length (bp_rows b))%nat -> forall j,
  bp_row j (mkByPair (<[ i := row ]> (bp_rows b)) o) = (if decide (j = i) then row else @bp_row T j b).
Proof.
  intros Hi j. unfold bp_row. cbn. destruct (decide (j = i)) as [->|].
  - by rewrite list_lookup_insert_eq.
  - by rewrite list_lookup_insert_ne.
Qed.

(** Changing a member's row: the pairs of two members. *)
Lemma pair_sim_put b m a i row m' :
  pair_sim b m -> slot_index (slot ix a) = Some i ->
  (row = [] \/ length row = length (ci_keys ix)) ->
  (forall s j, slot_index (slot ix s) = Some j -> mjoin (row !! j) = m' !! (s, a)) ->
  (forall s a', (a' <> a \/ slot_index (slot ix s) = None) -> m' !! (s, a') = m !! (s, a')) ->
  pair_sim (mkByPair (<[ i := row ]> (bp_rows b)) (bp_outside b)) m'.
Proof.
  intros Hs Hi Hrow Hin Hout.
  assert (i < length (bp_rows b))%nat as Hlt by (rewrite (pair_sim_rows _ _ Hs); by eapply slot_lt).
  split.
  - cbn. rewrite length_insert. apply (pair_sim_rows _ _ Hs).
  - intros j. rewrite bp_row_insert by done. destruct (decide _); [done|]. apply (pair_sim_row _ _ Hs).
  - apply (pair_sim_outside _ _ Hs).
  - intros s a'. unfold bp_get. cbn [bp_outside].
    destruct (slot_index (slot ix s)) as [j|] eqn:Hj.
    2:{ rewrite Hout by auto. by apply pair_sim_outside_get; auto. }
    destruct (slot_index (slot ix a')) as [i'|] eqn:Hi'.
    2:{ rewrite Hout by (left; congruence). apply pair_sim_outside_get; auto. }
    rewrite bp_row_insert by done. destruct (decide (i' = i)) as [->|].
    + replace a' with a by (by eapply slot_inj). by apply Hin.
    + rewrite Hout by (left; congruence). rewrite <- (pair_sim_get _ _ Hs). unfold bp_get. by rewrite Hj, Hi'.
Qed.

Lemma pair_sim_others b m o m' :
  pair_sim b m ->
  (forall s a v, o !! (s, a) = Some v -> slot_index (slot ix s) = None \/ slot_index (slot ix a) = None) ->
  (forall s a, slot_index (slot ix s) = None \/ slot_index (slot ix a) = None -> o !! (s, a) = m' !! (s, a)) ->
  (forall s a i j, slot_index (slot ix s) = Some i -> slot_index (slot ix a) = Some j ->
     m' !! (s, a) = m !! (s, a)) ->
  pair_sim (mkByPair (bp_rows b) o) m'.
Proof.
  intros Hs Ho Hm Hout. split; cbn; [apply Hs|apply Hs|done|].
  intros s a. unfold bp_get, bp_row. cbn [bp_rows bp_outside].
  destruct (slot_index (slot ix s)) as [i|] eqn:Hi; [|by apply Hm; auto].
  destruct (slot_index (slot ix a)) as [j|] eqn:Hj; [|by apply Hm; auto].
  rewrite (Hout s a i j) by done. rewrite <- (pair_sim_get _ _ Hs). unfold bp_get. by rewrite Hi, Hj.
Qed.

Lemma pair_sim_insert b m s a v :
  pair_sim b m -> pair_sim (bp_insert ix (slot ix s) (slot ix a) v b) (<[ (s, a) := v ]> m).
Proof.
  intros Hs. unfold bp_insert.
  destruct (slot_index (slot ix s)) as [i|] eqn:Hi; [destruct (slot_index (slot ix a)) as [j|] eqn:Hj|].
  2,3: apply (pair_sim_others b m); [done|..]; cbn [slot slot_key];
    [ intros s' a' v'; rewrite lookup_insert_Some; intros [[[= <- <-] _]|[_ Hv]];
        [auto | by eapply pair_sim_outside]
    | intros s' a' Hsa; pose proof (pair_sim_outside_get b m s' a' Hs Hsa);
      destruct (decide ((s', a') = (s, a))) as [[= -> ->]|];
        [by rewrite !lookup_insert_eq | by rewrite !lookup_insert_ne by congruence]
    | intros s' a' i' j' Hi' Hj'; rewrite lookup_insert_ne by congruence; done ].
  set (row := if bool_decide (bp_row j b = []) then _ else _).
  assert (length row = length (ci_keys ix)) as Hrow.
  { subst row. case_bool_decide; [apply length_replicate|].
    destruct (pair_sim_row _ _ Hs j); [done|done]. }
  assert (forall s' i', slot_index (slot ix s') = Some i' -> mjoin (row !! i') = m !! (s', a)) as Hold.
  { intros s' i' Hi'. rewrite <- (pair_sim_get _ _ Hs). unfold bp_get. rewrite Hi', Hj.
    subst row. case_bool_decide as E; [|done]. rewrite E, lookup_nil. cbn.
    destruct (replicate _ _ !! i') as [x|] eqn:F; [|done]. apply lookup_replicate in F as [-> _]. done. }
  pose proof (slot_lt c s i Hi).
  apply (pair_sim_put b m a); [done..| | |].
  - right. by rewrite length_insert.
  - intros s' i' Hi'. destruct (decide (i' = i)) as [->|].
    + replace s' with s by (by eapply slot_inj).
      rewrite list_lookup_insert_eq by lia. by rewrite lookup_insert_eq.
    + rewrite list_lookup_insert_ne by done. rewrite lookup_insert_ne by congruence. by apply Hold.
  - intros s' a' Hne. rewrite lookup_insert_ne; [done|]. intros [= -> ->]. destruct Hne; congruence.
Qed.

Lemma pair_sim_remove b m s a :
  pair_sim b m -> pair_sim (bp_remove (slot ix s) (slot ix a) b) (delete (s, a) m).
Proof.
  intros Hs. unfold bp_remove.
  destruct (slot_index (slot ix s)) as [i|] eqn:Hi; [destruct (slot_index (slot ix a)) as [j|] eqn:Hj|].
  2,3: apply (pair_sim_others b m); [done|..]; cbn [slot slot_key];
    [ intros s' a' v'; rewrite lookup_delete_Some; intros [_ Hv]; by eapply pair_sim_outside
    | intros s' a' Hsa; pose proof (pair_sim_outside_get b m s' a' Hs Hsa);
      destruct (decide ((s', a') = (s, a))) as [[= -> ->]|];
        [by rewrite !lookup_delete_eq | by rewrite !lookup_delete_ne by congruence]
    | intros s' a' i' j' Hi' Hj'; rewrite lookup_delete_ne by congruence; done ].
  apply (pair_sim_put b m a); [done..| | |].
  - destruct (pair_sim_row _ _ Hs j) as [->|]; [by left|right; by rewrite length_insert].
  - intros s' i' Hi'.
    assert (mjoin (bp_row j b !! i') = m !! (s', a)) as Hold.
    { rewrite <- (pair_sim_get _ _ Hs). unfold bp_get. by rewrite Hi', Hj. }
    destruct (decide (i' = i)) as [->|].
    + replace s' with s by (by eapply slot_inj). rewrite lookup_delete_eq.
      destruct (pair_sim_row _ _ Hs j) as [->|Hl]; [done|].
      pose proof (slot_lt c s i Hi). by rewrite list_lookup_insert_eq by lia.
    + rewrite list_lookup_insert_ne by done. by rewrite lookup_delete_ne by congruence.
  - intros s' a' Hne. rewrite lookup_delete_ne; [done|]. intros [= -> ->]. destruct Hne; congruence.
Qed.
Lemma pair_sim_clear b m a :
  pair_sim b m -> pair_sim (bp_clear_author (slot ix a) b) (filter (fun p => p.1.2 <> a) m).
Proof.
  intros Hs. unfold bp_clear_author. cbn [slot slot_key].
  set (m' := filter _ m).
  assert (forall s a', a' <> a -> m' !! (s, a') = m !! (s, a')) as Hother.
  { intros s a' Ha. apply option_eq. intros v. subst m'. rewrite map_lookup_filter_Some. naive_solver. }
  assert (forall s, m' !! (s, a) = None) as Hgone.
  { intros s. apply map_lookup_filter_None. right. intros v _ Hn. by apply Hn. }
  assert (pair_sim (mkByPair (bp_rows b) (filter (fun p => p.1.2 <> a) (bp_outside b)))
    (filter (fun p => p.1.2 <> a \/ is_Some (slot_index (slot ix p.1.1) ≫= fun _ => slot_index (slot ix a))) m))
    as Hmid.
  { apply (pair_sim_others b m); [done|..].
    - intros s a' v. rewrite map_lookup_filter_Some. intros [Hv _]. by eapply pair_sim_outside.
    - intros s a' Hsa. apply option_eq. intros v. rewrite !map_lookup_filter_Some. cbn [fst snd].
      rewrite (pair_sim_outside_get b m) by done.
      split; [naive_solver|]. intros [Hv [?|[j Hj]]]; [done|]. split; [done|]. intros ->.
      destruct (slot_index (slot ix s)); [|done]. cbn in *. destruct Hsa; congruence.
    - intros s a' i j Hi Hj. apply option_eq. intros v. rewrite map_lookup_filter_Some. cbn [fst snd].
      split; [naive_solver|]. intros Hv. split; [done|].
      destruct (decide (a' = a)) as [->|]; [right|by left]. rewrite Hi. cbn. eauto. }
  destruct (slot_index (slot ix a)) as [i|] eqn:Hi.
  - refine (pair_sim_put _ _ a i [] m' Hmid Hi (or_introl eq_refl) _ _).
    + intros s j Hj. rewrite Hgone. done.
    + intros s a' Hne. apply option_eq. intros v. subst m'. rewrite !map_lookup_filter_Some. cbn [fst snd].
      destruct Hne as [Ha|Hn]; [naive_solver|]. rewrite Hn. cbn. unfold is_Some. naive_solver.
  - replace m' with (filter (fun p => p.1.2 <> a \/
      is_Some (slot_index (slot ix p.1.1) ≫= fun _ => @None nat)) m); [exact Hmid|].
    subst m'. apply map_filter_ext. intros [s a'] v _. cbn [fst snd].
    split; [|tauto]. intros [|[? Hn]]; [done|]. 
    by destruct (slot_index (slot ix s)); cbn in Hn.
Qed.

(** One author's entries, by sender. *)
Definition author_row (a : PublicKey) (m : gmap (PublicKey * PublicKey) T) : list (PublicKey * T) :=
  (fun p => (p.1.1, p.2)) <$> filter (fun p => p.1.2 = a) (map_to_list m).

Lemma elem_of_author_row a m k v : (k, v) ∈ author_row a m <-> m !! (k, a) = Some v.
Proof.
  unfold author_row. rewrite list_elem_of_fmap. split.
  - intros ([[s' a'] w] & [= -> ->] & [Ha Hf]%list_elem_of_filter). cbn in Ha. subst a'.
    by apply elem_of_map_to_list.
  - intros Hm. exists ((k, a), v). split; [done|]. apply list_elem_of_filter. split; [done|].
    by apply elem_of_map_to_list.
Qed.

Lemma NoDup_author_row a m : NoDup (author_row a m).*1.
Proof.
  apply NoDup_fmap_fst.
  - intros k v v' H H'. rewrite elem_of_author_row in H, H'. congruence.
  - unfold author_row. apply NoDup_fmap_2_strong; [|apply NoDup_filter, NoDup_map_to_list].
    intros [[s1 a1] v1] [[s2 a2] v2] [H1 _]%list_elem_of_filter [H2 _]%list_elem_of_filter [=].
    cbn in *. congruence.
Qed.

(** The committee part of a row. *)
Definition dense_row (a : PublicKey) (b : ByPair T) : list (Slot * T) :=
  match slot_index (slot ix a) with
  | Some i =>
      omap id (imap (fun s (held : option T) => v ← held; k ← index_at ix s; Some (k, v)) (bp_row i b))
  | None => []
  end.

Lemma row_iter_keys a b :
  (prod_map slot_key id <$> bp_row_iter ix (slot ix a) b) =
  (prod_map slot_key id <$> dense_row a b) ++ author_row a (bp_outside b).
Proof.
  unfold bp_row_iter, dense_row, author_row. rewrite fmap_app. f_equal.
  by rewrite <- list_fmap_compose.
Qed.

Lemma elem_of_dense_row a b k v :
  (k, v) ∈ (prod_map slot_key id <$> dense_row a b) <->
  exists i j, slot_index (slot ix a) = Some i /\ slot_index (slot ix k) = Some j /\
    bp_row i b !! j = Some (Some v).
Proof.
  rewrite list_elem_of_fmap. unfold dense_row. split.
  - intros ([k' v'] & [= -> ->] & Hx).
    destruct (slot_index (slot ix a)) as [i|]; [|by apply not_elem_of_nil in Hx].
    apply omap_imap_elem in Hx as (j & [w|] & Ho & Hg); [|done]. cbn in Hg.
    destruct (index_at ix j) as [k0|] eqn:Hk; [|done]. cbn in Hg. simplify_eq.
    apply index_at_key in Hk as [Hk _]. eauto.
  - intros (i & j & Hi & Hj & Hr). rewrite Hi. exists (slot ix k, v). split; [done|].
    apply omap_imap_elem. exists j, (Some v). split; [done|]. cbn.
    destruct (index_at_slot c j) as (k' & Hk' & Hj'); [by eapply slot_lt|].
    replace k' with k in Hk' by (by eapply slot_inj). by rewrite Hk'.
Qed.

Lemma NoDup_dense_row a b : NoDup (prod_map slot_key id <$> dense_row a b).*1.
Proof.
  unfold dense_row. destruct (slot_index (slot ix a)) as [i|]; [|constructor].
  rewrite <- list_fmap_compose. apply omap_imap_NoDup.
  intros i1 [x1|] [y1 w1] i2 [x2|] [y2 w2]; cbn; intros H1 H2 He; [|done..].
  destruct (index_at ix i1) eqn:E1, (index_at ix i2) eqn:E2; [|done..]. cbn in *. simplify_eq.
  apply index_at_key in E1 as [E1 _], E2 as [E2 _]. rewrite He in E1. congruence.
Qed.

Lemma pair_sim_row_iter b m a :
  pair_sim b m -> (prod_map slot_key id <$> bp_row_iter ix (slot ix a) b) ≡ₚ author_row a m.
Proof.
  intros Hs. rewrite row_iter_keys. apply assoc_Permutation; [|apply NoDup_author_row|].
  - rewrite fmap_app. apply NoDup_app. split_and!; [apply NoDup_dense_row| |apply NoDup_author_row].
    intros k H1 H2. apply list_elem_of_fmap in H1 as ([k1 v1] & -> & H1), H2 as ([k2 v2] & He & H2).
    cbn in He. subst k2. apply elem_of_dense_row in H1 as (i & j & Hi & Hj & _).
    apply elem_of_author_row, (pair_sim_outside _ _ Hs) in H2. cbn in *. naive_solver.
  - intros k v. rewrite elem_of_app, elem_of_dense_row, !elem_of_author_row.
    pose proof (pair_sim_outside_get b m k a Hs) as Hout.
    rewrite <- (pair_sim_get _ _ Hs) in *. unfold bp_get in *. split.
    + intros [(i & j & -> & -> & ->)|Ho]; [done|].
      apply (pair_sim_outside _ _ Hs) in Ho as Hn. rewrite <- Ho. symmetry. by apply Hout.
    + destruct (slot_index (slot ix k)) as [j|]; [destruct (slot_index (slot ix a)) as [i|]|]; [|by auto..].
      intros Hg. left. exists i, j. split_and!; [done..|]. by destruct (bp_row i b !! j) as [[]|]; simplify_eq/=.
Qed.

Lemma pair_sim_new : pair_sim (bp_new ix) ∅.
Proof.
  assert (forall i, bp_row i (bp_new (T := T) ix) = []) as Hrow.
  { intros i. unfold bp_row, bp_new. cbn. destruct (replicate _ _ !! i) as [x|] eqn:E; [|done].
    by apply lookup_replicate in E as [-> _]. }
  split.
  - apply length_replicate.
  - intros i. left. apply Hrow.
  - intros s a v. cbn. by rewrite lookup_empty.
  - intros s a. rewrite lookup_empty. unfold bp_get.
    destruct (slot_index (slot ix s)), (slot_index (slot ix a)); rewrite ?Hrow; try done; apply lookup_empty.
Qed.

Lemma by_pair_sim : adt_refines same_answer by_pair_adt pair_map_adt.
Proof.
  apply (adt_simulation same_answer by_pair_adt pair_map_adt pair_sim); [apply pair_sim_new|].
  intros [s a|s a v|s a|a|a] b m Hs; cbn.
  - split; [|done]. do 2 f_equal. by apply pair_sim_get.
  - split; [done|]. by apply pair_sim_insert.
  - split; [done|]. by apply pair_sim_remove.
  - split; [done|]. by apply pair_sim_clear.
  - split; [|done]. by apply pair_sim_row_iter.
Qed.
End by_pair.

(** ** [ByAuthor] is a map with a default *)

Section by_author.
Context {T : Type} `{!EqDecision T} (dflt : T) (c : Committee).
Abbreviation ix := (index_new c) (only parsing).

Inductive AuthorOp :=
  | BGet (a : PublicKey)
  | BEntry (a : PublicKey) (f : T -> T)
  | BClear (a : PublicKey)
  | BIter.

(** Readers treat an absent author as one holding the default. *)
Definition by_author_adt : ADT AuthorOp (Answer (PublicKey * T)) :=
  mkADT (ByAuthor T) (ba_new dflt ix) (fun op b =>
    match op with
    | BGet a => (AnsValue (Some (a, default dflt (ba_get (slot ix a) b))), b)
    | BEntry a f => (AnsUnit, ba_entry dflt (slot ix a) f b)
    | BClear a => (AnsUnit, ba_clear dflt (slot ix a) b)
    | BIter => (AnsList (filter (fun p => p.2 <> dflt) (prod_map slot_key id <$> ba_iter ix b)), b)
    end).

Definition author_map_adt : ADT AuthorOp (Answer (PublicKey * T)) :=
  mkADT (gmap PublicKey T) ∅ (fun op m =>
    match op with
    | BGet a => (AnsValue (Some (a, default dflt (m !! a))), m)
    | BEntry a f => (AnsUnit, <[ a := f (default dflt (m !! a)) ]> m)
    | BClear a => (AnsUnit, delete a m)
    | BIter => (AnsList (filter (fun p => p.2 <> dflt) (map_to_list m)), m)
    end).

Record author_sim (b : ByAuthor T) (m : gmap PublicKey T) : Prop := {
  author_sim_dense : length (ba_dense b) = length (ci_keys ix);
  author_sim_outside : forall a v, ba_outside b !! a = Some v -> slot_index (slot ix a) = None;
  author_sim_get : forall a, default dflt (ba_get (slot ix a) b) = default dflt (m !! a);
}.

Lemma author_sim_dense_get b m a i :
  author_sim b m -> slot_index (slot ix a) = Some i ->
  ba_dense b !! i = Some (default dflt (m !! a)).
Proof.
  intros Hs Hi. rewrite <- (author_sim_get _ _ Hs). unfold ba_get. rewrite Hi.
  destruct (lookup_lt_is_Some_2 (ba_dense b) i) as [x Hx]; [|by rewrite Hx].
  rewrite (author_sim_dense _ _ Hs). by eapply slot_lt.
Qed.

Lemma author_sim_write b m a v :
  author_sim b m ->
  author_sim (match slot_index (slot ix a) with
    | Some i => mkByAuthor (<[ i := v ]> (ba_dense b)) (ba_outside b)
    | None => mkByAuthor (ba_dense b) (<[ a := v ]> (ba_outside b))
    end) (<[ a := v ]> m).
Proof.
  intros Hs. destruct (slot_index (slot ix a)) as [i|] eqn:Hi; split; cbn [ba_dense ba_outside].
  - rewrite length_insert. apply (author_sim_dense _ _ Hs).
  - apply (author_sim_outside _ _ Hs).
  - intros a'. unfold ba_get. cbn [ba_dense ba_outside]. destruct (decide (a' = a)) as [->|].
    + rewrite Hi, lookup_insert_eq, list_lookup_insert_eq; [done|].
      rewrite (author_sim_dense _ _ Hs). by eapply slot_lt.
    + rewrite lookup_insert_ne by done. rewrite <- (author_sim_get _ _ Hs). unfold ba_get.
      destruct (slot_index (slot ix a')) as [j|] eqn:Hj; [|done].
      rewrite list_lookup_insert_ne; [done|]. intros ->. by apply n; eapply slot_inj.
  - apply (author_sim_dense _ _ Hs).
  - intros a' v' H. apply lookup_insert_Some in H as [[<- _]|[_ H]]; [done|].
    by eapply author_sim_outside.
  - intros a'. unfold ba_get. cbn [ba_dense ba_outside slot_key slot]. destruct (decide (a' = a)) as [->|].
    + by rewrite Hi, !lookup_insert_eq.
    + rewrite !lookup_insert_ne by done. rewrite <- (author_sim_get _ _ Hs). done.
Qed.

Lemma author_sim_entry b m a f :
  author_sim b m ->
  author_sim (ba_entry dflt (slot ix a) f b) (<[ a := f (default dflt (m !! a)) ]> m).
Proof.
  intros Hs. pose proof (author_sim_write b m a (f (default dflt (m !! a))) Hs) as Hw.
  unfold ba_entry. destruct (slot_index (slot ix a)) as [i|] eqn:Hi.
  - replace (alter f i (ba_dense b)) with (<[ i := f (default dflt (m !! a)) ]> (ba_dense b)); [done|].
    apply list_eq. intros j. pose proof (author_sim_dense_get b m a i Hs Hi) as Hx.
    destruct (decide (j = i)) as [->|].
    + rewrite list_lookup_alter_eq, Hx. cbn. apply list_lookup_insert_eq. by eapply lookup_lt_Some.
    + by rewrite list_lookup_insert_ne, list_lookup_alter_ne by done.
  - cbn [slot slot_key]. pose proof (author_sim_get _ _ Hs a) as Hg. unfold ba_get in Hg.
    rewrite Hi in Hg. cbn [slot slot_key] in Hg. by rewrite Hg.
Qed.

Lemma author_sim_clear b m a :
  author_sim b m -> author_sim (ba_clear dflt (slot ix a) b) (delete a m).
Proof.
  intros Hs. pose proof (author_sim_write b m a dflt Hs) as Hw. unfold ba_clear. cbn [slot slot_key].
  assert (forall a', default dflt (<[ a := dflt ]> m !! a') = default dflt (delete a m !! a')) as Hd.
  { intros a'. destruct (decide (a' = a)) as [->|].
    - by rewrite lookup_insert_eq, lookup_delete_eq.
    - by rewrite lookup_insert_ne, lookup_delete_ne. }
  destruct (slot_index (slot ix a)) as [i|] eqn:Hi.
  - split; [apply Hw|apply Hw|]. intros a'. rewrite <- Hd. apply (author_sim_get _ _ Hw).
  - split; cbn [ba_dense ba_outside]; [apply (author_sim_dense _ _ Hs)| |].
    + intros a' v [_ H]%lookup_delete_Some. exact (author_sim_outside _ _ Hs _ _ H).
    + intros a'. rewrite <- Hd, <- (author_sim_get _ _ Hw). unfold ba_get.
      cbn [ba_dense ba_outside slot slot_key]. destruct (slot_index (slot ix a')); [done|].
      destruct (decide (a' = a)) as [->|].
      * by rewrite lookup_insert_eq, lookup_delete_eq.
      * by rewrite lookup_insert_ne, lookup_delete_ne.
Qed.

Lemma author_sim_iter b m :
  author_sim b m ->
  filter (fun p => p.2 <> dflt) (prod_map slot_key id <$> ba_iter ix b) ≡ₚ
  filter (fun p => p.2 <> dflt) (map_to_list m).
Proof.
  intros Hs. unfold ba_iter.
  set (g := fun i v => _). set (D := omap id (imap g (ba_dense b))).
  assert (forall k v, (k, v) ∈ (prod_map slot_key id <$> D) <->
    exists i, slot_index (slot ix k) = Some i /\ ba_dense b !! i = Some v) as HD.
  { intros k v. rewrite list_elem_of_fmap. split.
    - intros ([k' v'] & [= -> ->] & (i & x & Hx & Hg)%omap_imap_elem). subst g. cbn in Hg.
      destruct (index_at ix i) eqn:E; cbn in Hg; simplify_eq. apply index_at_key in E as [E _]. eauto.
    - intros (i & Hi & Hv). exists (slot ix k, v). split; [done|]. apply omap_imap_elem.
      exists i, v. split; [done|]. subst g. cbn.
      destruct (index_at_slot c i) as (k' & Hk' & Hj'); [by eapply slot_lt|].
      replace k' with k in Hk' by (by eapply slot_inj). by rewrite Hk'. }
  assert (NoDup (prod_map slot_key id <$> D).*1) as HDnd.
  { rewrite <- list_fmap_compose. apply omap_imap_NoDup. subst g.
    intros i1 x1 [y1 w1] i2 x2 [y2 w2]; cbn; intros H1 H2 He.
    destruct (index_at ix i1) eqn:E1, (index_at ix i2) eqn:E2; [|done..]. cbn in *. simplify_eq.
    apply index_at_key in E1 as [E1 _], E2 as [E2 _]. rewrite He in E1. congruence. }
  rewrite fmap_app, <- list_fmap_compose.
  replace (prod_map slot_key id ∘ (fun p : PublicKey * T => (slot ix p.1, p.2)) <$> map_to_list (ba_outside b))
    with (map_to_list (ba_outside b))
    by (symmetry; rewrite <- (list_fmap_id (map_to_list _)) at 2; apply list_fmap_ext; by intros ? [] _).
  assert (forall l : list (PublicKey * T), NoDup l.*1 -> NoDup (filter (fun p => p.2 <> dflt) l).*1) as Hflt.
  { intros l Hl. eapply sublist_NoDup; [exact Hl|]. apply fmap_sublist, sublist_filter. }
  apply assoc_Permutation; [apply Hflt| apply Hflt, NoDup_fst_map_to_list|].
  - rewrite fmap_app. apply NoDup_app. split_and!; [done| |apply NoDup_fst_map_to_list].
    intros k H1 H2. apply list_elem_of_fmap in H1 as ([k1 v1] & -> & H1), H2 as ([k2 v2] & He & H2).
    cbn in He. subst k2. apply HD in H1 as (i & Hi & _).
    apply elem_of_map_to_list, (author_sim_outside _ _ Hs) in H2. cbn in *. congruence.
  - intros k v. rewrite !list_elem_of_filter, elem_of_app, HD, !elem_of_map_to_list. cbn [snd].
    pose proof (author_sim_get _ _ Hs k) as Hg. unfold ba_get in Hg.
    split; intros [Hv H]; (split; [done|]).
    + destruct H as [(i & Hi & H)|H].
      * rewrite Hi, H in Hg. cbn in Hg. destruct (m !! k); cbn in *; congruence.
      * rewrite (author_sim_outside _ _ Hs _ _ H) in Hg. cbn [slot slot_key] in Hg. rewrite H in Hg.
        cbn in Hg. destruct (m !! k); cbn in *; congruence.
    + rewrite H in Hg. cbn [from_option default] in Hg. destruct (slot_index (slot ix k)) as [i|] eqn:Hi.
      * left. exists i. split; [done|]. by rewrite (author_sim_dense_get b m k i), H.
      * right. cbn [slot slot_key] in Hg. destruct (ba_outside b !! k); cbn in Hg; congruence.
Qed.

Lemma author_sim_new : author_sim (ba_new dflt ix) ∅.
Proof.
  split.
  - apply length_replicate.
  - intros a v. cbn. by rewrite lookup_empty.
  - intros a. rewrite lookup_empty. unfold ba_get, ba_new. cbn [ba_dense ba_outside].
    destruct (slot_index (slot ix a)) as [i|]; [|by rewrite lookup_empty].
    destruct (replicate _ _ !! i) eqn:E; [|done]. by apply lookup_replicate in E as [-> _].
Qed.

Lemma by_author_sim : adt_refines same_answer by_author_adt author_map_adt.
Proof.
  apply (adt_simulation same_answer by_author_adt author_map_adt author_sim); [apply author_sim_new|].
  intros [a|a f|a|] b m Hs; cbn [adt_step by_author_adt author_map_adt fst snd].
  - split; [|done]. cbn. by rewrite (author_sim_get _ _ Hs).
  - split; [done|]. by apply author_sim_entry.
  - split; [done|]. by apply author_sim_clear.
  - split; [|done]. by apply author_sim_iter.
Qed.
End by_author.

(** ** [MemberSet] is a set of positions *)

Section bits.
Implicit Types x : Z.

Lemma land_bit_zero x b : 0 <= b -> (Z.land x (Z.shiftl 1 b) =? 0) = negb (Z.testbit x b).
Proof.
  intros Hb. rewrite Z.shiftl_1_l. destruct (Z.testbit x b) eqn:E; cbn.
  - apply Z.eqb_neq. intros Hz. apply (f_equal (fun z => Z.testbit z b)) in Hz.
    rewrite Z.land_spec, Z.pow2_bits_true, E, Z.bits_0 in Hz by done. done.
  - apply Z.eqb_eq, Z.bits_inj'. intros j Hj. rewrite Z.land_spec, Z.pow2_bits_eqb, Z.bits_0 by done.
    destruct (Z.eqb_spec b j) as [<-|]; [by rewrite E|]. apply andb_false_r.
Qed.

Lemma lor_bit x b j : 0 <= b -> Z.testbit (Z.lor x (Z.shiftl 1 b)) j = Z.testbit x j || (b =? j).
Proof. intros Hb. by rewrite Z.lor_spec, Z.shiftl_1_l, Z.pow2_bits_eqb. Qed.

Lemma u64_testbit x j : is_u64 x -> Z.testbit x j = true -> 0 <= j < 64.
Proof.
  unfold is_u64, u64_max, u64_modulus. intros Hx Hj. destruct (decide (j < 0)).
  - rewrite Z.testbit_neg_r in Hj by done. done.
  - split; [lia|]. destruct (decide (j < 64)); [done|]. exfalso.
    rewrite Z.bits_above_log2 in Hj; [done|lia|].
    destruct (decide (x = 0)) as [->|]; [cbn; lia|]. apply Z.log2_lt_pow2; [lia|].
    apply Z.lt_le_trans with (2 ^ 64); [lia|]. apply Z.pow_le_mono_r; lia.
Qed.

Lemma clear_bit x b j :
  is_u64 x -> 0 <= b < 64 ->
  Z.testbit (Z.land x (Z.lxor u64_max (Z.shiftl 1 b))) j = Z.testbit x j && negb (b =? j).
Proof.
  intros Hx Hb. rewrite Z.land_spec. destruct (Z.testbit x j) eqn:E; [|done]. cbn.
  apply u64_testbit in E; [|done]. rewrite Z.lxor_spec, Z.shiftl_1_l, Z.pow2_bits_eqb by lia.
  change u64_max with (Z.ones 64). rewrite Z.ones_spec_low by lia. by destruct (b =? j).
Qed.

Lemma is_u64_bits x : 0 <= x -> (forall j, 64 <= j -> Z.testbit x j = false) -> is_u64 x.
Proof.
  intros Hx Hj. split; [done|]. unfold u64_max, u64_modulus.
  destruct (decide (x < 2 ^ 64)); [lia|]. exfalso.
  pose proof (Z.log2_le_pow2 x 64 ltac:(lia)). pose proof (Z.bit_log2 x ltac:(lia)).
  rewrite Hj in *; [done|lia].
Qed.

Lemma lor_bit_u64 x b : is_u64 x -> 0 <= b < 64 -> is_u64 (Z.lor x (Z.shiftl 1 b)).
Proof.
  intros Hx Hb. apply is_u64_bits.
  - apply Z.lor_nonneg. split; [apply Hx|]. apply Z.shiftl_nonneg. lia.
  - intros j Hj. rewrite lor_bit by lia. destruct (Z.testbit x j) eqn:E.
    + apply u64_testbit in E; [lia|done].
    + apply Z.eqb_neq. lia.
Qed.

Lemma land_u64 x y : is_u64 x -> is_u64 (Z.land x y).
Proof.
  intros Hx. apply is_u64_bits.
  - apply Z.land_nonneg. left. apply Hx.
  - intros j Hj. rewrite Z.land_spec. destruct (Z.testbit x j) eqn:E; [|done].
    apply u64_testbit in E; [lia|done].
Qed.

(** [rest & (rest - 1)] clears the lowest bit and nothing else. *)
Lemma clear_lowest x k j :
  0 <= k -> Z.testbit x k = true -> (forall i, 0 <= i < k -> Z.testbit x i = false) -> 0 <= j ->
  Z.testbit (Z.land x (x - 1)) j = Z.testbit x j && negb (j =? k).
Proof.
  intros Hk Hbit Hlow Hj. rewrite Z.land_spec. destruct (Z.ltb_spec j k).
  { by rewrite Hlow by lia. }
  assert (x mod 2 ^ k = 0) as Hmod.
  { apply Z.bits_inj'. intros i Hi. rewrite Z.bits_0. destruct (Z.ltb_spec i k).
    - rewrite Z.mod_pow2_bits_low by lia. apply Hlow. lia.
    - apply Z.mod_pow2_bits_high. lia. }
  pose proof (Z.pow_pos_nonneg 2 k ltac:(lia) Hk) as Hpos.
  set (y := x / 2 ^ k).
  assert (x = 2 ^ k * y) as Hxy by (pose proof (Z.div_mod x (2 ^ k) ltac:(lia)); lia).
  assert (Z.odd y = true) as Hodd.
  { rewrite <- Z.bit0_odd. subst y. rewrite <- Z.shiftr_div_pow2 by done.
    rewrite Z.shiftr_spec by lia. by rewrite Z.add_0_l. }
  assert ((x - 1) / 2 ^ k = y - 1) as Hdiv.
  { rewrite Hxy. replace (2 ^ k * y - 1) with ((2 ^ k - 1) + (y - 1) * 2 ^ k) by lia.
    rewrite Z.div_add by lia. rewrite Z.div_small by lia. lia. }
  assert (forall z, Z.testbit z j = Z.testbit (z / 2 ^ k) (j - k)) as Hshift.
  { intros z. rewrite <- Z.shiftr_div_pow2 by done. rewrite Z.shiftr_spec by lia. f_equal. lia. }
  rewrite (Hshift (x - 1)), Hdiv.
  apply Z.odd_spec in Hodd as [m Hm]. replace (y - 1) with (2 * m) by lia.
  destruct (Z.eqb_spec j k) as [->|]; cbn [negb].
  - rewrite Z.sub_diag, Z.testbit_even_0. done.
  - rewrite (Hshift x). fold y. rewrite Hm. replace (j - k) with (Z.succ (j - k - 1)) by lia.
    rewrite Z.testbit_odd_succ, Z.testbit_even_succ by lia. by destruct (Z.testbit m _).
Qed.

Definition bit_set x (i : nat) : Prop := Z.testbit x (Z.of_nat i) = true.
#[local] Instance bit_set_dec x i : Decision (bit_set x i).
Proof. unfold bit_set. apply _. Defined.

Lemma filter_find_first {A} (P : A -> Prop) `{!EqDecision A, forall y, Decision (P y)} l n a :
  NoDup l -> list_find P l = Some (n, a) -> filter P l = a :: filter (fun y => P y /\ y <> a) l.
Proof.
  revert n. induction l as [|y l IH]; intros n Hnd; [done|].
  apply NoDup_cons in Hnd as [Hy Hnd]. cbn [list_find]. rewrite !filter_cons.
  destruct (decide (P y)) as [HP|HP].
  - intros [= <- <-]. rewrite decide_False by naive_solver. f_equal.
    apply filter_ext_in. intros z Hz. split; [|naive_solver]. intros. split; [done|]. congruence.
  - intros Hf. destruct (list_find P l) as [[m b]|] eqn:E; [|done]. cbn in Hf. simplify_eq.
    rewrite (decide_False (P := _ /\ _)) by naive_solver. by eapply IH.
Qed.

Lemma trailing_zeros_spec x :
  is_u64 x -> x <> 0 ->
  list_find (bit_set x) (seq 0 64) = Some (trailing_zeros x, trailing_zeros x) /\
  bit_set x (trailing_zeros x) /\ (forall i, 0 <= i < Z.of_nat (trailing_zeros x) -> Z.testbit x i = false).
Proof.
  intros Hx Hne.
  assert (trailing_zeros x = match list_find (bit_set x) (seq 0 64) with Some (_, i) => i | None => 64%nat end)
    as -> by (unfold trailing_zeros; by rewrite (list_find_ext _ (bit_set x))).
  assert (is_Some (list_find (bit_set x) (seq 0 64))) as [[n i] E].
  { destruct (list_find (bit_set x) (seq 0 64)) eqn:E; [done|]. exfalso. apply Hne.
    apply list_find_None in E. apply Z.bits_inj'. intros j Hj. rewrite Z.bits_0.
    destruct (Z.testbit x j) eqn:B; [|done]. pose proof (u64_testbit x j Hx B).
    exfalso. apply (proj1 (Forall_forall _ _) E (Z.to_nat j)); [apply elem_of_seq; lia|].
    unfold bit_set. by rewrite Z2Nat.id by lia. }
  rewrite E. apply list_find_Some in E as (Hl & Hb & Hbefore).
  apply lookup_seq in Hl as [-> Hlt]. cbn [Nat.add]. split_and!; [done|done|].
  intros j Hj. destruct (Z.testbit x j) eqn:B; [|done]. exfalso.
  apply (Hbefore (Z.to_nat j) (Z.to_nat j)); [apply lookup_seq; lia|lia|].
  unfold bit_set. by rewrite Z2Nat.id by lia.
Qed.

(** The iterator yields the set bits in increasing order. *)
Lemma word_bits_spec fuel : forall x, is_u64 x ->
  (length (filter (bit_set x) (seq 0 64)) <= fuel)%nat ->
  word_bits fuel x = filter (bit_set x) (seq 0 64).
Proof.
  induction fuel as [|fuel IH]; intros x Hx Hlen; cbn [word_bits].
  { symmetry. apply nil_length_inv. lia. }
  destruct (Z.eqb_spec x 0) as [->|Hne].
  { symmetry. apply filter_none. intros i _. unfold bit_set. by rewrite Z.bits_0. }
  destruct (trailing_zeros_spec x Hx Hne) as (Hfind & Hbit & Hlow).
  pose proof (filter_find_first (bit_set x) (seq 0 64) _ _ (NoDup_seq 0 64) Hfind) as Hf.
  assert (filter (bit_set (Z.land x (x - 1))) (seq 0 64) =
    filter (fun y => bit_set x y /\ y <> trailing_zeros x) (seq 0 64)) as Heq.
  { apply list_filter_iff. intros i. unfold bit_set.
    rewrite (clear_lowest x (Z.of_nat (trailing_zeros x))) by (done || lia).
    rewrite andb_true_iff, negb_true_iff, Z.eqb_neq. naive_solver lia. }
  rewrite Hf in Hlen |- *. rewrite length_cons in Hlen. rewrite <- Heq in *. f_equal.
  apply IH; [by apply land_u64|lia].
Qed.

Lemma elem_of_word_bits x i : is_u64 x -> i ∈ word_bits 64 x <-> (i < 64)%nat /\ bit_set x i.
Proof.
  intros Hx. rewrite word_bits_spec; [|done|].
  - rewrite list_elem_of_filter, elem_of_seq. naive_solver lia.
  - etransitivity; [apply length_filter|]. by rewrite length_seq.
Qed.

Lemma NoDup_word_bits x : is_u64 x -> NoDup (word_bits 64 x).
Proof.
  intros Hx. rewrite word_bits_spec; [apply NoDup_filter, NoDup_seq|done|].
  etransitivity; [apply length_filter|]. by rewrite length_seq.
Qed.
End bits.

Record ms_ok (s : MemberSet) : Prop := {
  ms_words_len : length (ms_words s) = 4%nat;
  ms_words_u64 : forall w, is_u64 (word_at (ms_words s) w);
  ms_overflow_nodup : NoDup (ms_overflow s);
  ms_overflow_ge : forall i, i ∈ ms_overflow s -> (256 <= i)%nat;
}.

Lemma member_bit_inline i :
  (i < 256)%nat -> member_bit i = Some ((i / 64)%nat, Z.shiftl 1 (Z.of_nat (i mod 64))).
Proof. intros Hi. unfold member_bit, INLINE_MEMBERS. by rewrite (proj2 (Nat.ltb_lt i 256)). Qed.

Lemma member_bit_overflow i : (256 <= i)%nat -> member_bit i = None.
Proof. intros Hi. unfold member_bit, INLINE_MEMBERS. by rewrite (proj2 (Nat.ltb_ge i 256)). Qed.

Lemma word_index i : (i < 256)%nat -> (i / 64 < 4)%nat.
Proof. intros Hi. apply Nat.Div0.div_lt_upper_bound. lia. Qed.

Lemma bit_index (i : nat) : 0 <= Z.of_nat (i mod 64) < 64.
Proof. pose proof (Nat.mod_upper_bound i 64 ltac:(lia)). lia. Qed.

Lemma contains_inline i s :
  (i < 256)%nat -> ms_contains i s = Z.testbit (word_at (ms_words s) (i / 64)) (Z.of_nat (i mod 64)).
Proof.
  intros Hi. unfold ms_contains. rewrite member_bit_inline by done.
  rewrite land_bit_zero by apply bit_index. apply negb_involutive.
Qed.

Lemma contains_overflow i s : (256 <= i)%nat -> ms_contains i s = bool_decide (i ∈ ms_overflow s).
Proof. intros Hi. unfold ms_contains. by rewrite member_bit_overflow. Qed.

Lemma word_at_insert w x ws w' :
  (w < length ws)%nat -> word_at (<[ w := x ]> ws) w' = (if decide (w' = w) then x else word_at ws w').
Proof.
  intros Hw. unfold word_at. destruct (decide (w' = w)) as [->|].
  - by rewrite list_lookup_insert_eq.
  - by rewrite list_lookup_insert_ne.
Qed.

Lemma same_position (i j : nat) : (i / 64 = j / 64)%nat -> (i mod 64 = j mod 64)%nat -> i = j.
Proof. intros. rewrite (Nat.div_mod_eq i 64), (Nat.div_mod_eq j 64). congruence. Qed.

(** Writing one word changes one position when it changes one bit. *)
Lemma ms_write i s x (b : bool) :
  ms_ok s -> (i < 256)%nat -> is_u64 x ->
  (forall j, 0 <= j -> Z.testbit x j =
     if decide (j = Z.of_nat (i mod 64)) then b else Z.testbit (word_at (ms_words s) (i / 64)) j) ->
  let s' := mkMemberSet (<[ (i / 64)%nat := x ]> (ms_words s)) (ms_overflow s) in
  ms_ok s' /\ forall j, ms_contains j s' = if decide (j = i) then b else ms_contains j s.
Proof.
  intros Hs Hi Hx Hbits s'. subst s'.
  assert (i / 64 < length (ms_words s))%nat as Hw by (rewrite (ms_words_len _ Hs); by apply word_index).
  split.
  - split; cbn [ms_words ms_overflow].
    + rewrite length_insert. apply Hs.
    + intros w. rewrite word_at_insert by done. destruct (decide _); [done|]. apply Hs.
    + apply Hs.
    + apply Hs.
  - intros j. destruct (decide (j < 256)%nat) as [Hj|Hj].
    + rewrite !contains_inline by done. cbn [ms_words]. rewrite word_at_insert by done.
      destruct (decide (j / 64 = i / 64)%nat) as [E|E].
      * rewrite Hbits by apply bit_index. rewrite E. destruct (decide (j = i)) as [->|]; [by rewrite decide_True|].
        rewrite decide_False; [done|]. intros H. apply Nat2Z.inj in H.
        by apply n, same_position.
      * rewrite decide_False; [done|]. by intros ->.
    + rewrite !contains_overflow by lia. rewrite decide_False; [done|lia].
Qed.

Lemma ms_insert_spec i s :
  ms_ok s ->
  (ms_insert i s).1 = negb (ms_contains i s) /\ ms_ok (ms_insert i s).2 /\
  forall j, ms_contains j (ms_insert i s).2 = if decide (j = i) then true else ms_contains j s.
Proof.
  intros Hs. unfold ms_insert. destruct (decide (i < 256)%nat) as [Hi|Hi].
  - rewrite contains_inline by done. rewrite member_bit_inline by done. cbn [fst snd].
    split; [by rewrite land_bit_zero by apply bit_index|].
    apply ms_write; [done|done|apply lor_bit_u64; [apply Hs|apply bit_index]|].
    intros j Hj. rewrite lor_bit by apply bit_index.
    destruct (decide (j = _)) as [->|]; [by rewrite Z.eqb_refl, orb_true_r|].
    rewrite (proj2 (Z.eqb_neq _ _)) by congruence. apply orb_false_r.
  - rewrite contains_overflow by lia. rewrite member_bit_overflow by lia.
    case_bool_decide as Hin; cbn [fst snd negb]; split_and!; [done|done| |done| |].
    + intros j. destruct (decide (j = i)) as [->|]; [|done].
      rewrite contains_overflow by lia. by rewrite bool_decide_true.
    + split; cbn; [apply Hs|apply Hs| |].
      * apply NoDup_app. split_and!; [apply Hs| |apply NoDup_singleton].
        intros x Hx ->%list_elem_of_singleton. done.
      * intros x [Hx| ->%list_elem_of_singleton]%elem_of_app; [by apply Hs|lia].
    + intros j. destruct (decide (j < 256)%nat).
      * rewrite !contains_inline by done. by rewrite decide_False by lia.
      * rewrite !contains_overflow by lia. cbn. destruct (decide (j = i)) as [->|].
        -- apply bool_decide_true. set_solver.
        -- apply bool_decide_ext. set_solver.
Qed.

Lemma elem_of_remove_first {A} `{EqDecision A} (x y : A) l :
  NoDup l -> y ∈ remove_first x l <-> y ∈ l /\ y <> x.
Proof.
  induction l as [|z l IH]; cbn; intros Hnd; [set_solver|].
  apply NoDup_cons in Hnd as [Hz Hnd]. destruct (decide (z = x)) as [->|]; [set_solver|].
  rewrite !elem_of_cons, IH by done. set_solver.
Qed.

Lemma NoDup_remove_first {A} `{EqDecision A} (x : A) l : NoDup l -> NoDup (remove_first x l).
Proof.
  induction l as [|z l IH]; cbn; intros Hnd; [constructor|].
  apply NoDup_cons in Hnd as [Hz Hnd]. destruct (decide (z = x)) as [->|]; [done|].
  apply NoDup_cons. split; [|by apply IH]. rewrite elem_of_remove_first by done. naive_solver.
Qed.

Lemma ms_remove_spec i s :
  ms_ok s ->
  (ms_remove i s).1 = ms_contains i s /\ ms_ok (ms_remove i s).2 /\
  forall j, ms_contains j (ms_remove i s).2 = if decide (j = i) then false else ms_contains j s.
Proof.
  intros Hs. unfold ms_remove. destruct (decide (i < 256)%nat) as [Hi|Hi].
  - rewrite contains_inline by done. rewrite member_bit_inline by done. cbn [fst snd].
    split; [rewrite land_bit_zero by apply bit_index; apply negb_involutive|].
    apply ms_write; [done|done|apply land_u64, Hs|].
    intros j Hj. rewrite clear_bit by (apply Hs || apply bit_index).
    destruct (decide (j = _)) as [->|]; [by rewrite Z.eqb_refl, andb_false_r|].
    rewrite (proj2 (Z.eqb_neq _ _)) by congruence. apply andb_true_r.
  - rewrite contains_overflow by lia. rewrite member_bit_overflow by lia.
    case_bool_decide as Hin; cbn [fst snd]; split_and!; [done| | |done|done|].
    + split; cbn; [apply Hs|apply Hs| |].
      * apply NoDup_remove_first, Hs.
      * intros x [Hx _]%elem_of_remove_first; [by apply Hs|apply Hs].
    + intros j. destruct (decide (j < 256)%nat).
      * rewrite !contains_inline by done. by rewrite decide_False by lia.
      * rewrite !contains_overflow by lia. cbn.
        rewrite (bool_decide_ext _ (j ∈ ms_overflow s /\ j <> i)) by (apply elem_of_remove_first, Hs).
        destruct (decide (j = i)) as [->|]; [apply bool_decide_false; naive_solver|].
        apply bool_decide_ext. naive_solver.
    + intros j. destruct (decide (j = i)) as [->|]; [|done].
      rewrite contains_overflow by lia. by apply bool_decide_false.
Qed.

Lemma ms_default_ok : ms_ok member_set_default /\ forall i, ms_contains i member_set_default = false.
Proof.
  assert (forall w, word_at (ms_words member_set_default) w = 0) as Hw.
  { intros w. unfold word_at, member_set_default. cbn [ms_words].
    destruct (replicate _ _ !! w) eqn:E; [|done]. by apply lookup_replicate in E as [-> _]. }
  split; [split|].
  - done.
  - intros w. by rewrite Hw.
  - constructor.
  - intros i Hi. by apply not_elem_of_nil in Hi.
  - intros i. destruct (decide (i < 256)%nat).
    + rewrite contains_inline by done. by rewrite Hw, Z.bits_0.
    + rewrite contains_overflow by lia. apply bool_decide_false. apply not_elem_of_nil.
Qed.

(** The positions carried by the inline words. *)
Definition inline_positions (words : list Z) : list nat :=
  mjoin (imap (fun w bits => (fun b => (w * 64 + b)%nat) <$> word_bits 64 bits) words).

Lemma elem_of_inline words i :
  (forall w, is_u64 (word_at words w)) ->
  i ∈ inline_positions words <->
  (i / 64 < length words)%nat /\ Z.testbit (word_at words (i / 64)) (Z.of_nat (i mod 64)) = true.
Proof.
  intros Hu. unfold inline_positions. rewrite list_elem_of_join. split.
  - intros (l & Hin & Hl). apply list_elem_of_lookup in Hl as [w Hw].
    rewrite list_lookup_imap in Hw. apply fmap_Some in Hw as (x & E & ->).
    apply list_elem_of_fmap in Hin as (b & -> & Hb).
    assert (word_at words w = x) as Hx by (unfold word_at; by rewrite E).
    apply elem_of_word_bits in Hb as [Hb Hbit]; [|by rewrite <- Hx].
    rewrite Nat.div_add_l, (Nat.div_small b 64), Nat.add_0_r by lia.
    rewrite Nat.add_comm, Nat.Div0.mod_add, Nat.mod_small by lia.
    rewrite Hx. split; [by eapply lookup_lt_Some|done].
  - intros [Hlt Hbit]. destruct (lookup_lt_is_Some_2 words (i / 64)%nat Hlt) as [x E].
    exists ((fun b => (i / 64 * 64 + b)%nat) <$> word_bits 64 x). split.
    + assert (word_at words (i / 64) = x) as Hx by (unfold word_at; by rewrite E).
      apply list_elem_of_fmap. exists (i mod 64)%nat. split; [|apply elem_of_word_bits].
      * rewrite (Nat.div_mod_eq i 64) at 1. lia.
      * by rewrite <- Hx.
      * split; [apply Nat.mod_upper_bound; lia|]. unfold bit_set. by rewrite <- Hx.
    + apply list_elem_of_lookup. exists (i / 64)%nat. by rewrite list_lookup_imap, E.
Qed.

Lemma NoDup_inline words :
  (forall w, is_u64 (word_at words w)) -> NoDup (inline_positions words).
Proof.
  induction words as [|x words IH] using rev_ind; intros Hu; [constructor|].
  assert (forall w, is_u64 (word_at words w)) as Hu'.
  { intros w. specialize (Hu w). unfold word_at in *. destruct (words !! w) eqn:E; [|done].
    by rewrite (lookup_app_l_Some _ _ _ _ E) in Hu. }
  assert (is_u64 x) as Hx.
  { specialize (Hu (length words)). unfold word_at in Hu. by rewrite list_lookup_middle in Hu. }
  unfold inline_positions. rewrite imap_app, join_app. apply NoDup_app. split_and!; [by apply IH| |].
  - intros i Hi Hi'. apply (elem_of_inline words i Hu') in Hi as [Hlt _]. cbn [imap] in Hi'.
    rewrite join_cons, app_nil_r, Nat.add_0_r in Hi'. apply list_elem_of_fmap in Hi' as (b & -> & Hb).
    apply elem_of_word_bits in Hb as [Hb _]; [|done].
    rewrite Nat.div_add_l, (Nat.div_small b 64) in Hlt by lia. lia.
  - cbn [imap]. rewrite join_cons, app_nil_r. apply NoDup_fmap_2_strong; [intros; lia|by apply NoDup_word_bits].
Qed.

Lemma ms_iter_spec s :
  ms_ok s -> NoDup (ms_iter s) /\ forall i, i ∈ ms_iter s <-> ms_contains i s = true.
Proof.
  intros Hs. unfold ms_iter. fold (inline_positions (ms_words s)).
  assert (forall i, i ∈ inline_positions (ms_words s) <-> (i < 256)%nat /\ ms_contains i s = true) as Hin.
  { intros i. rewrite elem_of_inline by apply Hs. rewrite (ms_words_len _ Hs). split.
    - intros [Hlt Hbit]. assert (i < 256)%nat by (rewrite (Nat.div_mod_eq i 64);
        pose proof (Nat.mod_upper_bound i 64 ltac:(lia)); lia).
      by rewrite contains_inline.
    - intros [Hlt Hc]. rewrite contains_inline in Hc by done. split; [by apply word_index|done]. }
  split.
  - apply NoDup_app. split_and!; [apply NoDup_inline, Hs| |apply Hs].
    intros i [Hlt _]%Hin Hi%(ms_overflow_ge _ Hs). lia.
  - intros i. rewrite elem_of_app, Hin. destruct (decide (i < 256)%nat) as [Hi|Hi].
    + split; [|by auto]. intros [[_ H]|H%(ms_overflow_ge _ Hs)]; [done|lia].
    + rewrite contains_overflow by lia. rewrite bool_decide_eq_true. naive_solver lia.
Qed.

(** ** [SlotSet] is a set of keys *)

Section slot_set.
Context (c : Committee).
Abbreviation ix := (index_new c) (only parsing).

Inductive SetOp :=
  | SInsert (k : PublicKey)
  | SRemove (k : PublicKey)
  | SIter.

Definition slot_set_adt : ADT SetOp (Answer PublicKey) :=
  mkADT SlotSet slot_set_default (fun op x =>
    match op with
    | SInsert k => let r := ss_insert (slot ix k) x in (AnsFlag r.1, r.2)
    | SRemove k => let r := ss_remove (slot ix k) x in (AnsFlag r.1, r.2)
    | SIter => (AnsList (slot_key <$> ss_iter ix x), x)
    end).

Definition key_set_adt : ADT SetOp (Answer PublicKey) :=
  mkADT (gset PublicKey) ∅ (fun op X =>
    match op with
    | SInsert k => (AnsFlag (bool_decide (k ∉ X)), {[ k ]} ∪ X)
    | SRemove k => (AnsFlag (bool_decide (k ∈ X)), X ∖ {[ k ]})
    | SIter => (AnsList (elements X), X)
    end).

Definition ss_holds (x : SlotSet) (k : PublicKey) : bool :=
  match slot_index (slot ix k) with
  | Some i => ms_contains i (ss_members x)
  | None => bool_decide (k ∈ ss_outside x)
  end.

Record set_sim (x : SlotSet) (X : gset PublicKey) : Prop := {
  set_sim_ok : ms_ok (ss_members x);
  set_sim_lt : forall i, ms_contains i (ss_members x) = true -> (i < length (ci_keys ix))%nat;
  set_sim_nodup : NoDup (ss_outside x);
  set_sim_outside : forall k, k ∈ ss_outside x -> slot_index (slot ix k) = None;
  set_sim_holds : forall k, ss_holds x k = bool_decide (k ∈ X);
}.

Lemma set_sim_key x X k : set_sim x X -> slot_index (slot ix k) = None -> k ∈ ss_outside x <-> k ∈ X.
Proof.
  intros Hs Hk. pose proof (set_sim_holds _ _ Hs k) as H. unfold ss_holds in H. rewrite Hk in H.
  repeat case_bool_decide; done.
Qed.

Lemma set_sim_insert x X k :
  set_sim x X ->
  (ss_insert (slot ix k) x).1 = bool_decide (k ∉ X) /\ set_sim (ss_insert (slot ix k) x).2 ({[ k ]} ∪ X).
Proof.
  intros Hs. rewrite bool_decide_not, <- (set_sim_holds _ _ Hs). unfold ss_insert, ss_holds.
  destruct (slot_index (slot ix k)) as [i|] eqn:Hi; cbn [fst snd].
  - destruct (ms_insert_spec i (ss_members x) (set_sim_ok _ _ Hs)) as (H1 & H2 & H3).
    split; [done|]. split; cbn; [done| |apply Hs|apply Hs|].
    + intros j. rewrite H3. destruct (decide (j = i)) as [->|]; [by intros; eapply slot_lt|apply Hs].
    + intros k'. pose proof (set_sim_holds _ _ Hs k') as Hk'. unfold ss_holds in *. cbn [ss_members ss_outside].
      destruct (slot_index (slot ix k')) as [j|] eqn:Hj.
      * rewrite H3. destruct (decide (j = i)) as [->|].
        -- replace k' with k by (by eapply slot_inj). symmetry. apply bool_decide_true. set_solver.
        -- rewrite Hk'. apply bool_decide_ext. assert (k' <> k) by congruence. set_solver.
      * rewrite Hk'. apply bool_decide_ext. assert (k' <> k) by congruence. set_solver.
  - cbn [slot slot_key]. destruct (bool_decide (k ∈ ss_outside x)) eqn:Hin; cbn [fst snd negb]; (split; [done|]).
    + pose proof (set_sim_holds _ _ Hs k) as Hk. unfold ss_holds in Hk. rewrite Hi, Hin in Hk.
      symmetry in Hk. apply bool_decide_eq_true in Hk.
      replace ({[ k ]} ∪ X) with X by set_solver. done.
    + apply bool_decide_eq_false in Hin. split; cbn; [apply Hs|apply Hs| | |].
      * apply NoDup_app. split_and!; [apply Hs| |apply NoDup_singleton]. set_solver.
      * intros k' [H| ->%list_elem_of_singleton]%elem_of_app; [by apply (set_sim_outside _ _ Hs)|done].
      * intros k'. pose proof (set_sim_holds _ _ Hs k') as Hk'. unfold ss_holds in *. cbn [ss_members ss_outside].
        destruct (slot_index (slot ix k')) as [j|] eqn:Hj.
        -- rewrite Hk'. apply bool_decide_ext. assert (k' <> k) by congruence. set_solver.
        -- apply bool_decide_ext. pose proof (set_sim_key x X k' Hs Hj). set_solver.
Qed.

Lemma set_sim_remove x X k :
  set_sim x X ->
  (ss_remove (slot ix k) x).1 = bool_decide (k ∈ X) /\ set_sim (ss_remove (slot ix k) x).2 (X ∖ {[ k ]}).
Proof.
  intros Hs. rewrite <- (set_sim_holds _ _ Hs). unfold ss_remove, ss_holds.
  destruct (slot_index (slot ix k)) as [i|] eqn:Hi; cbn [fst snd].
  - destruct (ms_remove_spec i (ss_members x) (set_sim_ok _ _ Hs)) as (H1 & H2 & H3).
    split; [done|]. split; cbn; [done| |apply Hs|apply Hs|].
    + intros j. rewrite H3. destruct (decide (j = i)) as [->|]; [done|apply Hs].
    + intros k'. pose proof (set_sim_holds _ _ Hs k') as Hk'. unfold ss_holds in *. cbn [ss_members ss_outside].
      destruct (slot_index (slot ix k')) as [j|] eqn:Hj.
      * rewrite H3. destruct (decide (j = i)) as [->|].
        -- replace k' with k by (by eapply slot_inj). symmetry. apply bool_decide_false. set_solver.
        -- rewrite Hk'. apply bool_decide_ext. assert (k' <> k) by congruence. set_solver.
      * rewrite Hk'. apply bool_decide_ext. assert (k' <> k) by congruence. set_solver.
  - cbn [slot slot_key]. destruct (bool_decide (k ∈ ss_outside x)) eqn:Hin; cbn [fst snd]; (split; [done|]).
    + split; cbn; [apply Hs|apply Hs| | |].
      * apply NoDup_remove_first, Hs.
      * intros k' [H _]%elem_of_remove_first; [by apply (set_sim_outside _ _ Hs)|apply Hs].
      * intros k'. pose proof (set_sim_holds _ _ Hs k') as Hk'. unfold ss_holds in *. cbn [ss_members ss_outside].
        destruct (slot_index (slot ix k')) as [j|] eqn:Hj.
        -- rewrite Hk'. apply bool_decide_ext. assert (k' <> k) by congruence. set_solver.
        -- apply bool_decide_ext. rewrite elem_of_remove_first by apply Hs.
           pose proof (set_sim_key x X k' Hs Hj). set_solver.
    + apply bool_decide_eq_false in Hin. pose proof (set_sim_key x X k Hs Hi).
      replace (X ∖ {[ k ]}) with X by set_solver. done.
Qed.

Lemma set_sim_iter x X : set_sim x X -> (slot_key <$> ss_iter ix x) ≡ₚ elements X.
Proof.
  intros Hs. destruct (ms_iter_spec _ (set_sim_ok _ _ Hs)) as [Hnd Hin].
  unfold ss_iter. rewrite fmap_app, <- list_fmap_compose.
  replace (slot_key ∘ slot ix <$> ss_outside x) with (ss_outside x)
    by (rewrite <- (list_fmap_id (ss_outside x)) at 1; by apply list_fmap_ext).
  assert (forall k, k ∈ (slot_key <$> omap (index_at ix) (ms_iter (ss_members x))) <->
    exists i, slot_index (slot ix k) = Some i /\ ms_contains i (ss_members x) = true) as Hmem.
  { intros k. rewrite list_elem_of_fmap. setoid_rewrite list_elem_of_omap. split.
    - intros (y & -> & i & Hi%Hin & Hy). apply index_at_key in Hy as [Hy _]. eauto.
    - intros (i & Hi & Hc). exists (slot ix k). split; [done|]. exists i. split; [by apply Hin|].
      destruct (index_at_slot c i) as (k' & Hk' & Hj'); [by eapply slot_lt|].
      by replace k' with k in Hk' by (by eapply slot_inj). }
  apply NoDup_Permutation; [|apply NoDup_elements|].
  - apply NoDup_app. split_and!; [| |apply Hs].
    + clear Hmem Hin. induction Hnd as [|i l Hi Hnd IH]; [constructor|]. cbn.
      destruct (index_at ix i) as [y|] eqn:E; [|done]. cbn. apply NoDup_cons. split; [|done].
      intros (y' & He & (j & Hj & Hy')%list_elem_of_omap)%list_elem_of_fmap.
      apply index_at_key in E as [E _], Hy' as [Hy' _]. rewrite He in E. apply Hi. congruence.
    + intros k (i & Hi & _)%Hmem Hk%(set_sim_outside _ _ Hs). congruence.
  - intros k. rewrite elem_of_app, Hmem, elem_of_elements.
    pose proof (set_sim_holds _ _ Hs k) as Hk. unfold ss_holds in Hk.
    pose proof (set_sim_key x X k Hs) as Hkey. destruct (slot_index (slot ix k)) as [i|] eqn:Hi.
    + assert (k ∈ X <-> ms_contains i (ss_members x) = true) as ->
        by (rewrite Hk; symmetry; apply bool_decide_eq_true).
      split; [|by eauto].
      intros [(j & [= <-] & ?)|H%(set_sim_outside _ _ Hs)]; congruence.
    + rewrite <- Hkey by done. naive_solver.
Qed.

Lemma slot_set_sim : adt_refines same_answer slot_set_adt key_set_adt.
Proof.
  apply (adt_simulation same_answer slot_set_adt key_set_adt set_sim).
  - destruct ms_default_ok as [Hok Hc]. split; cbn [ss_members ss_outside adt_init slot_set_adt slot_set_default].
    + done.
    + intros i. by rewrite Hc.
    + constructor.
    + intros k Hk. by apply not_elem_of_nil in Hk.
    + intros k. unfold ss_holds. cbn [ss_members ss_outside slot_set_default].
      rewrite (bool_decide_false (k ∈ adt_init key_set_adt)) by (cbn; set_solver).
      destruct (slot_index (slot ix k)); [apply Hc|]. apply bool_decide_false, not_elem_of_nil.
  - intros [k|k|] x X Hs; cbn [adt_step slot_set_adt key_set_adt fst snd].
    + destruct (set_sim_insert x X k Hs) as [-> ?]. done.
    + destruct (set_sim_remove x X k Hs) as [-> ?]. done.
    + split; [|done]. by apply set_sim_iter.
Qed.
End slot_set.

(** C35: the committee-indexed containers are the maps and sets keyed by public
    keys that they replace.  For every committee, any sequence of reads, writes,
    row iterations and author resets gets the same answers - lists up to order -
    from [ByRef], [ByPair], [ByAuthor] and [SlotSet] as from a finite map or set
    keyed by block references, pairs of keys or keys, also for keys outside the
    committee, for several digests at one height and for committees wider than
    the inline bitmap; and a resolved slot is the position and stake
    [Committee::index_of] and [Committee::stake] report. *)
Theorem index_containers_refine (c : Committee) (T : Type) (dflt : T) (dec : EqDecision T) :
  (forall k, slot_index (slot (index_new c) k) = index_of c k /\
     index_stake_of (index_new c) (slot (index_new c) k) = stake c k /\
     index_is_member (index_new c) k = is_member c k) /\
  adt_refines same_answer (by_ref_adt dflt c) (ref_map_adt dflt) /\
  adt_refines same_answer (by_pair_adt (T := T) c) pair_map_adt /\
  adt_refines same_answer (by_author_adt dflt c) (author_map_adt dflt) /\
  adt_refines same_answer (slot_set_adt c) key_set_adt.
Proof.
  split_and!.
  - intros k. split_and!; [apply slot_index_of | apply index_stake_of_spec | apply index_is_member_spec].
  - apply by_ref_sim.
  - apply by_pair_sim.
  - apply by_author_sim.
  - apply slot_set_sim.
Qed.
