(* ===== verification/Types.v ===== *)
(** Wire and state data of the Vantage protocol.

    Models [src/primary/src/vantage/block.rs] (block references, domain
    hashing), the wire types and accessors at the head of
    [src/primary/src/vantage/agb.rs], [claim::{ShortClaim, AvailClaim,
    ClaimRef}], [messages::{Header, Certificate, Ack}] and the [Effect] enum of
    [src/primary/src/vantage/mod.rs].

    BLAKE3 and bincode are third-party crates: they are the fields of the class
    [Hashing], a parameter of every definition that hashes. *)

From S2P Require Import Prelude Committee.

(** ** Blocks *)

(** [(author, height, digest)]. *)
Definition BlockRef : Type := PublicKey * Height * Digest.

Definition ref_author (r : BlockRef) : PublicKey := r.1.1.
Definition ref_height (r : BlockRef) : Height := r.1.2.
Definition ref_digest (r : BlockRef) : Digest := r.2.

(** Entries are ordered strictly by author, with at most one entry per author. *)
Definition Manifest : Type := list BlockRef.

#[export] Instance BlockRef_eq_dec : EqDecision BlockRef := _.
#[export] Instance BlockRef_countable : Countable BlockRef := _.
#[export] Instance Manifest_eq_dec : EqDecision Manifest := _.
#[export] Instance Manifest_countable : Countable Manifest := _.

(** The parent certificate of a header; Vantage headers carry no votes. *)
Record Certificate := mkCertificate {
  cert_author : PublicKey;
  cert_header_digest : Digest;
  cert_height : Height;
  cert_votes : list (PublicKey * Z);
}.

(** Consensus signatures and the Autobahn consensus messages a header may carry
    are opaque here: only their presence and the messages' digests matter. *)
Record Header := mkHeader {
  hd_author : PublicKey;
  hd_height : Height;
  hd_payload : gmap Digest WorkerId;
  hd_parent_cert : Certificate;
  hd_id : Digest;
  hd_signature : option Z;
  hd_sid : option Digest;
  hd_consensus_messages : gmap Digest Digest;
  hd_num_active_instances : Z;
  hd_special : bool;
}.

#[export] Instance Certificate_eq_dec : EqDecision Certificate.
Proof. solve_decision. Defined.
#[export] Instance Header_eq_dec : EqDecision Header.
Proof. solve_decision. Defined.

Record Ack := mkAck {
  ack_author : PublicKey;
  ack_height : Height;
  ack_digest : Digest;
  ack_sender : PublicKey;
}.

Definition ack_reference (a : Ack) : BlockRef := (ack_author a, ack_height a, ack_digest a).

(** ** Resolution entries and proposals *)

Inductive ResolutionEntry :=
| EntryFull (target : View) (c t : Manifest)
| EntryCore (target : View) (c t : Manifest)
| EntrySkip (target : View).

#[export] Instance ResolutionEntry_eq_dec : EqDecision ResolutionEntry.
Proof. solve_decision. Defined.

Definition target_view (e : ResolutionEntry) : View :=
  match e with
  | EntryFull u _ _ | EntryCore u _ _ | EntrySkip u => u
  end.

Definition references (e : ResolutionEntry) : list BlockRef :=
  match e with
  | EntryFull _ core tip | EntryCore _ core tip => core ++ tip
  | EntrySkip _ => []
  end.

Record ViewProposal := mkViewProposal {
  vp_view : View;
  vp_c : Manifest;
  vp_t : Manifest;
  vp_m : option ResolutionEntry;
}.

Record BatchViewProposal := mkBatchViewProposal {
  bp_view : View;
  bp_c : Manifest;
  bp_t : Manifest;
  bp_m : list ResolutionEntry;
}.

Inductive ProposalOut :=
| PSingle (p : ViewProposal)
| PBatch (p : BatchViewProposal).

#[export] Instance ViewProposal_eq_dec : EqDecision ViewProposal.
Proof. solve_decision. Defined.
#[export] Instance BatchViewProposal_eq_dec : EqDecision BatchViewProposal.
Proof. solve_decision. Defined.
#[export] Instance ProposalOut_eq_dec : EqDecision ProposalOut.
Proof. solve_decision. Defined.

Definition p_view (p : ProposalOut) : View :=
  match p with PSingle p => vp_view p | PBatch p => bp_view p end.

Definition p_c (p : ProposalOut) : Manifest :=
  match p with PSingle p => vp_c p | PBatch p => bp_c p end.

Definition p_t (p : ProposalOut) : Manifest :=
  match p with PSingle p => vp_t p | PBatch p => bp_t p end.

Definition p_entries (p : ProposalOut) : list ResolutionEntry :=
  match p with
  | PSingle p => match vp_m p with Some e => [e] | None => [] end
  | PBatch p => bp_m p
  end.

(** ** Hashing *)

Class Hashing := {
  blake3 : list Z -> Digest;
  bincode_view_proposal : ViewProposal -> list Z;
  bincode_batch_view_proposal : BatchViewProposal -> list Z;
}.

(** The [n] bytes of [x], most significant first. *)
Fixpoint be_bytes (n : nat) (x : Z) : list Z :=
  match n with
  | O => []
  | S n => (x / 256 ^ Z.of_nat n) mod 256 :: be_bytes n x
  end.

Definition digest_bytes (d : Digest) : list Z := be_bytes 32 d.

(** The bytes of an ASCII literal such as [b"view-proposal"]. *)
Definition ascii_bytes (s : string) : list Z :=
  map (fun a => Z.of_nat (Ascii.nat_of_ascii a)) (String.list_ascii_of_string s).

Section hashing.
Context `{!Hashing}.

Definition domain_hash (tag : list Z) (sid : Digest) (payload : list Z) : Digest :=
  blake3 (tag ++ digest_bytes sid ++ payload).

Definition genesis_digest (sid : Digest) : Digest :=
  domain_hash (ascii_bytes "data-block") sid (ascii_bytes "genesis").

Definition vp_digest (sid : Digest) (p : ViewProposal) : Digest :=
  domain_hash (ascii_bytes "view-proposal") sid (bincode_view_proposal p).

Definition bp_digest (sid : Digest) (p : BatchViewProposal) : Digest :=
  domain_hash (ascii_bytes "view-proposal-batch") sid (bincode_batch_view_proposal p).

Definition p_digest (sid : Digest) (p : ProposalOut) : Digest :=
  match p with PSingle p => vp_digest sid p | PBatch p => bp_digest sid p end.
End hashing.

(** ** Availability claims *)

Record ShortClaim := mkShortClaim { sc_lane : Z; sc_delta : Height }.

Inductive ClaimRef :=
| Exact (r : BlockRef)
| Ancestor (anchor : BlockRef) (delta : Height).

Record AvailClaim := mkAvailClaim {
  at_tip : list Z;
  short : list ShortClaim;
}.

#[export] Instance ShortClaim_eq_dec : EqDecision ShortClaim.
Proof. solve_decision. Defined.
#[export] Instance ClaimRef_eq_dec : EqDecision ClaimRef.
Proof. solve_decision. Defined.
#[export] Instance AvailClaim_eq_dec : EqDecision AvailClaim.
Proof. solve_decision. Defined.

(** ** ECHO and READY messages *)

Record Echo := mkEcho {
  echo_proposal : ViewProposal;
  echo_grade : Z;
  echo_sender : PublicKey;
  echo_wish : View;
  echo_origin : option Z;
  echo_avail : option AvailClaim;
}.

Record EchoDigest := mkEchoDigest {
  ed_view : View;
  ed_digest : Digest;
  ed_grade : Z;
  ed_sender : PublicKey;
  ed_wish : View;
  ed_origin : option Z;
  ed_avail : option AvailClaim;
}.

Definition echo_to_digest `{!Hashing} (sid : Digest) (e : Echo) : EchoDigest :=
  {| ed_view := vp_view (echo_proposal e);
     ed_digest := vp_digest sid (echo_proposal e);
     ed_grade := echo_grade e;
     ed_sender := echo_sender e;
     ed_wish := echo_wish e;
     ed_origin := echo_origin e;
     ed_avail := echo_avail e |}.

Record EchoBatch := mkEchoBatch {
  eb_proposal : BatchViewProposal;
  eb_grade : Z;
  eb_sender : PublicKey;
  eb_wish : View;
  eb_avail : option AvailClaim;
}.

Inductive EchoOut :=
| ESingle (e : Echo)
| EBatch (e : EchoBatch).

Definition eo_proposal_view (e : EchoOut) : View :=
  match e with ESingle e => vp_view (echo_proposal e) | EBatch e => bp_view (eb_proposal e) end.
Definition eo_grade (e : EchoOut) : Z :=
  match e with ESingle e => echo_grade e | EBatch e => eb_grade e end.
Definition eo_sender (e : EchoOut) : PublicKey :=
  match e with ESingle e => echo_sender e | EBatch e => eb_sender e end.

Definition eo_origin_vec (e : EchoOut) : list (option Z) :=
  match e with
  | ESingle e => match vp_m (echo_proposal e) with Some _ => [echo_origin e] | None => [] end
  | EBatch _ => []
  end.

Definition eo_into_proposal_out (e : EchoOut) : ProposalOut :=
  match e with ESingle e => PSingle (echo_proposal e) | EBatch e => PBatch (eb_proposal e) end.

Inductive ReadyGrade := GZero | GOne | GMix.

#[export] Instance ReadyGrade_eq_dec : EqDecision ReadyGrade.
Proof. solve_decision. Defined.

Record Ready := mkReady {
  rdy_proposal : ViewProposal;
  rdy_grade : ReadyGrade;
  rdy_sender : PublicKey;
  rdy_wish : View;
}.

Record ReadyDigest := mkReadyDigest {
  rd_view : View;
  rd_digest : Digest;
  rd_grade : ReadyGrade;
  rd_sender : PublicKey;
  rd_wish : View;
}.

Definition ready_to_digest `{!Hashing} (sid : Digest) (r : Ready) : ReadyDigest :=
  {| rd_view := vp_view (rdy_proposal r);
     rd_digest := vp_digest sid (rdy_proposal r);
     rd_grade := rdy_grade r;
     rd_sender := rdy_sender r;
     rd_wish := rdy_wish r |}.

Record ReadyBatch := mkReadyBatch {
  rb_proposal : BatchViewProposal;
  rb_grade : ReadyGrade;
  rb_sender : PublicKey;
  rb_wish : View;
}.

Inductive ReadyOut :=
| RSingle (r : Ready)
| RBatch (r : ReadyBatch).

Definition ro_sender (r : ReadyOut) : PublicKey :=
  match r with RSingle r => rdy_sender r | RBatch r => rb_sender r end.
Definition ro_proposal_view (r : ReadyOut) : View :=
  match r with RSingle r => vp_view (rdy_proposal r) | RBatch r => bp_view (rb_proposal r) end.
Definition ro_grade (r : ReadyOut) : ReadyGrade :=
  match r with RSingle r => rdy_grade r | RBatch r => rb_grade r end.
Definition ro_into_proposal_out (r : ReadyOut) : ProposalOut :=
  match r with RSingle r => PSingle (rdy_proposal r) | RBatch r => PBatch (rb_proposal r) end.

(** ** Outcomes, timers and effects *)

Inductive Outcome :=
| OFull (c t : Manifest)
| OCore (c : Manifest)
| OSkip.

#[export] Instance Outcome_eq_dec : EqDecision Outcome.
Proof. solve_decision. Defined.

Inductive SequenceOutcome :=
| SeqFull (c t : Manifest)
| SeqCore (c : Manifest)
| SeqSkip.

#[export] Instance SequenceOutcome_eq_dec : EqDecision SequenceOutcome.
Proof. solve_decision. Defined.

Inductive TimerKind := EchoFallback | EchoAbsolute | ReadyAbsolute | ProposerDown | OwnProposalDue.
Inductive ResponseStage := StageEcho | StageReady.

#[export] Instance TimerKind_eq_dec : EqDecision TimerKind.
Proof. solve_decision. Defined.

(** The side effects the state machines emit for the runtime to execute. *)
Inductive Effect :=
| BroadcastPublish (h : Header)
| BroadcastAck (a : Ack)
| SyncBatches (author : PublicKey) (digest : Digest) (missing : list (Digest * WorkerId))
| RequestTo (peer : PublicKey) (d : Digest)
| ServeTo (peer : PublicKey) (h : Header)
| BlockCached (d : Digest)
| BroadcastPropose (p : ProposalOut)
| BroadcastEcho (e : EchoOut)
| BroadcastEchoSkip (v : View)
| QuarantineTips (t : Manifest)
| BroadcastReady (r : ReadyOut)
| BroadcastNoReady (v : View)
| BroadcastSkipVote (v : View)
| FixedView (v : View) (well_formed : bool)
| Completed (v : View) (c t : Manifest)
| Sealed (v : View) (o : Outcome)
| ArmTimer (v : View) (k : TimerKind) (deadline : Instant)
| NotifyCommitted (millis : Z) (batches : list (WorkerId * list Digest)) (headers : list Header)
| BroadcastWish (v : View)
| Enter (v : View)
| RaiseWish (v : View)
| SequenceFinalized (v : View) (o : SequenceOutcome) (output_delta : list Digest)
| RecoverOwnLane (h : Header)
| BodyFetchTo (peer : PublicKey) (v : View) (d : Digest)
| BodyServeTo (peer : PublicKey) (v : View) (p : ViewProposal)
| ResumeServeTo (peer : PublicKey) (h : Header)
| AvailClaimed (peer : PublicKey) (claims : list ClaimRef).

#[export] Instance Ack_eq_dec : EqDecision Ack.
Proof. solve_decision. Defined.
#[export] Instance Echo_eq_dec : EqDecision Echo.
Proof. solve_decision. Defined.
#[export] Instance EchoBatch_eq_dec : EqDecision EchoBatch.
Proof. solve_decision. Defined.
#[export] Instance EchoOut_eq_dec : EqDecision EchoOut.
Proof. solve_decision. Defined.
#[export] Instance Ready_eq_dec : EqDecision Ready.
Proof. solve_decision. Defined.
#[export] Instance ReadyBatch_eq_dec : EqDecision ReadyBatch.
Proof. solve_decision. Defined.
#[export] Instance ReadyOut_eq_dec : EqDecision ReadyOut.
Proof. solve_decision. Defined.
#[export] Instance Effect_eq_dec : EqDecision Effect.
Proof. solve_decision. Defined.
