(* ===== verification/Formed.v ===== *)
(** Well-formedness of proposals and resolution entries.

    Models the validation functions of [src/primary/src/vantage/agb.rs]:
    [formed], [formed_batch], [batch_cap], [formed_entry],
    [formed_resolution_entry], [strictly_sorted_and_staked],
    [distinct_hashes], [ProposalOut::formed] and [aux_refs_entries].  The
    theorems characterise each loop by the declarative predicate it decides. *)

From S2P Require Import Prelude Committee Types.

(** The loop over a manifest; [last] is the previous author. *)
Fixpoint strictly_sorted_and_staked_from (c : Committee) (last : option PublicKey)
    (m : Manifest) : bool :=
  match m with
  | [] => true
  | (author, height, _) :: m =>
      if height <? 1 then false
      else if stake c author =? 0 then false
      else
        match last with
        | Some prev =>
            if author <=? prev then false
            else strictly_sorted_and_staked_from c (Some author) m
        | None => strictly_sorted_and_staked_from c (Some author) m
        end
  end.

Definition strictly_sorted_and_staked (c : Committee) (m : Manifest) : bool :=
  strictly_sorted_and_staked_from c None m.

(** [hashes.insert(h)] in sequence, failing on the first repeated hash. *)
Fixpoint distinct_hashes_from (hashes : gset Digest) (refs : list BlockRef) : bool :=
  match refs with
  | [] => true
  | (_, _, h) :: refs =>
      if bool_decide (h ∈ hashes) then false else distinct_hashes_from ({[ h ]} ∪ hashes) refs
  end.

Definition distinct_hashes (m1 m2 : Manifest) : bool := distinct_hashes_from ∅ (m1 ++ m2).

Definition formed_resolution_entry (c : Committee) (e : ResolutionEntry) : bool :=
  if target_view e <? 1 then false
  else
    match e with
    | EntryFull _ c_u t_u | EntryCore _ c_u t_u =>
        if negb (strictly_sorted_and_staked c c_u) || negb (strictly_sorted_and_staked c t_u)
        then false
        else if negb (distinct_hashes c_u t_u) then false else true
    | EntrySkip _ => true
    end.

Definition formed_entry (c : Committee) (view : View) (e : ResolutionEntry) : bool :=
  let u := target_view e in
  if (u <? 1) || (u >? u64_saturating_sub view 3) then false
  else formed_resolution_entry c e.

Definition formed (c : Committee) (view : View) (mc mt : Manifest) (m : option ResolutionEntry)
    : bool :=
  if negb (strictly_sorted_and_staked c mc) || negb (strictly_sorted_and_staked c mt) then false
  else if negb (distinct_hashes mc mt) then false
  else match m with Some e => formed_entry c view e | None => true end.

(** [saturating_sub(1).max(1)] of [f + 1]. *)
Definition batch_cap (c : Committee) : Z :=
  Z.max (u64_saturating_sub (f_plus_1_parties (from_party_count (committee_size c))) 1) 1.

Fixpoint formed_batch_entries (c : Committee) (view : View) (prev : option View)
    (m : list ResolutionEntry) : bool :=
  match m with
  | [] => true
  | e :: m =>
      match e with
      | EntrySkip u =>
          if negb (formed_entry c view e) then false
          else
            match prev with
            | Some p => if u <=? p then false else formed_batch_entries c view (Some u) m
            | None => formed_batch_entries c view (Some u) m
            end
      | _ => false
      end
  end.

Definition formed_batch (c : Committee) (view : View) (mc mt : Manifest)
    (m : list ResolutionEntry) : bool :=
  if negb (strictly_sorted_and_staked c mc) || negb (strictly_sorted_and_staked c mt) then false
  else if negb (distinct_hashes mc mt) then false
  else if (Z.of_nat (length m) <? 2) || (Z.of_nat (length m) >? batch_cap c) then false
  else formed_batch_entries c view None m.

Definition p_formed (c : Committee) (p : ProposalOut) : bool :=
  match p with
  | PSingle p => formed c (vp_view p) (vp_c p) (vp_t p) (vp_m p)
  | PBatch p => formed_batch c (bp_view p) (bp_c p) (bp_t p) (bp_m p)
  end.

(** [entries.iter().flat_map(ResolutionEntry::references)]. *)
Definition aux_refs_entries (entries : list ResolutionEntry) : list BlockRef :=
  entries ≫= references.

(** ** Declarative well-formedness *)

(** Authors strictly increasing, heights positive, every author staked. *)
Definition manifest_ok (c : Committee) (m : Manifest) : Prop :=
  StronglySorted Z.lt (ref_author <$> m) /\
  Forall (fun r => 1 <= ref_height r /\ stake c (ref_author r) <> 0) m.

Definition manifests_ok (c : Committee) (mc mt : Manifest) : Prop :=
  manifest_ok c mc /\ manifest_ok c mt /\ NoDup (ref_digest <$> (mc ++ mt)).

Definition entry_ok (c : Committee) (e : ResolutionEntry) : Prop :=
  1 <= target_view e /\
  match e with
  | EntryFull _ mc mt | EntryCore _ mc mt => manifests_ok c mc mt
  | EntrySkip _ => True
  end.

(** A carried entry targets a view at least three below its carrier. *)
Definition carried_entry_ok (c : Committee) (view : View) (e : ResolutionEntry) : Prop :=
  entry_ok c e /\ target_view e <= view - 3.

Definition is_skip (e : ResolutionEntry) : Prop :=
  match e with EntrySkip _ => True | _ => False end.

Definition proposal_ok (c : Committee) (p : ProposalOut) : Prop :=
  manifests_ok c (p_c p) (p_t p) /\
  Forall (carried_entry_ok c (p_view p)) (p_entries p) /\
  match p with
  | PSingle _ => True
  | PBatch p =>
      2 <= Z.of_nat (length (bp_m p)) <= batch_cap c /\
      Forall is_skip (bp_m p) /\ StronglySorted Z.lt (target_view <$> bp_m p)
  end.

(** ** The loops decide the declarative predicates *)

Lemma strictly_sorted_and_staked_from_spec c last m :
  strictly_sorted_and_staked_from c last m = true <->
  manifest_ok c m /\
  match last with Some p => Forall (fun r => p < ref_author r) m | None => True end.
Proof.
  revert last. induction m as [|[[a h] d] m IH]; intros last; cbn [strictly_sorted_and_staked_from].
  { split; [|done]. intros _. split; [split; constructor|]. destruct last; constructor. }
  unfold manifest_ok in *. rewrite fmap_cons, StronglySorted_cons, Forall_cons.
  cbn [ref_author ref_height fst snd].
  assert (Hstep : strictly_sorted_and_staked_from c (Some a) m = true <->
    StronglySorted Z.lt (ref_author <$> m) /\
    Forall (fun r => 1 <= ref_height r /\ stake c (ref_author r) <> 0) m /\
    Forall (Z.lt a) (ref_author <$> m)).
  { rewrite IH, Forall_fmap. unfold compose. tauto. }
  destruct (Z.ltb_spec h 1); [split; [done|lia]|].
  destruct (Z.eqb_spec (stake c a) 0); [split; [done|tauto]|].
  destruct last as [p|].
  - destruct (Z.leb_spec a p).
    + rewrite Forall_cons. cbn. split; [done|]. lia.
    + rewrite Hstep, Forall_cons. cbn. split; [|tauto].
      intros (? & ? & Hlt). split_and!; try done.
      rewrite Forall_fmap in Hlt. eapply Forall_impl; [exact Hlt|]. cbn. lia.
  - rewrite Hstep. tauto.
Qed.

Lemma strictly_sorted_and_staked_spec c m :
  strictly_sorted_and_staked c m = true <-> manifest_ok c m.
Proof. unfold strictly_sorted_and_staked. rewrite strictly_sorted_and_staked_from_spec. tauto. Qed.

Lemma distinct_hashes_from_spec hashes refs :
  distinct_hashes_from hashes refs = true <->
  NoDup (ref_digest <$> refs) /\ Forall (fun r => ref_digest r ∉ hashes) refs.
Proof.
  revert hashes. induction refs as [|[[a h] d] refs IH]; intros hashes; cbn [distinct_hashes_from].
  { split; [|done]. intros _. split; constructor. }
  rewrite fmap_cons, NoDup_cons, Forall_cons. cbn [ref_digest snd].
  destruct (bool_decide_reflect (d ∈ hashes)) as [Hin|Hnin]; [split; [done|tauto]|].
  rewrite IH, !Forall_forall. split.
  - intros [Hnd Hall]. split_and!; try done.
    + intros (r & -> & Hr)%list_elem_of_fmap. apply (Hall r Hr). set_solver.
    + intros r Hr. specialize (Hall r Hr). set_solver.
  - intros [[Hd Hnd] [_ Hall]]. split; [done|]. intros r Hr.
    rewrite elem_of_union, elem_of_singleton. intros [Heq|Hh]; [|by eapply Hall].
    apply Hd. rewrite <- Heq. by apply list_elem_of_fmap_2.
Qed.

Lemma distinct_hashes_spec m1 m2 :
  distinct_hashes m1 m2 = true <-> NoDup (ref_digest <$> (m1 ++ m2)).
Proof.
  unfold distinct_hashes. rewrite distinct_hashes_from_spec, Forall_forall. set_solver.
Qed.

(** The shared prefix of [formed] and [formed_batch]. *)
Lemma manifests_guard c mc mt (b : bool) :
  (if negb (strictly_sorted_and_staked c mc) || negb (strictly_sorted_and_staked c mt) then false
   else if negb (distinct_hashes mc mt) then false else b) = true <->
  manifests_ok c mc mt /\ b = true.
Proof.
  unfold manifests_ok.
  rewrite <- !strictly_sorted_and_staked_spec, <- distinct_hashes_spec.
  destruct (strictly_sorted_and_staked c mc), (strictly_sorted_and_staked c mt),
    (distinct_hashes mc mt); simpl; naive_solver.
Qed.

Lemma formed_resolution_entry_spec c e :
  formed_resolution_entry c e = true <-> entry_ok c e.
Proof.
  unfold formed_resolution_entry, entry_ok.
  destruct (Z.ltb_spec (target_view e) 1); [split; [done|lia]|].
  destruct e; simpl; rewrite ?manifests_guard; naive_solver lia.
Qed.

Lemma formed_entry_spec c view e :
  0 <= view -> formed_entry c view e = true <-> carried_entry_ok c view e.
Proof.
  intros Hv. unfold formed_entry, carried_entry_ok, u64_saturating_sub.
  rewrite <- formed_resolution_entry_spec.
  destruct (Z.ltb_spec (target_view e) 1) as [Hlt|Hge]; simpl.
  { split; [done|]. intros [Hf _]. apply formed_resolution_entry_spec in Hf as [? _]. lia. }
  rewrite Z.gtb_ltb. destruct (Z.ltb_spec (Z.max 0 (view - 3)) (target_view e)).
  - split; [done|]. lia.
  - split; [|tauto]. intros ->. split; [done|]. lia.
Qed.

Lemma formed_batch_entries_spec c view prev m :
  0 <= view ->
  formed_batch_entries c view prev m = true <->
  Forall (carried_entry_ok c view) m /\ Forall is_skip m /\
  StronglySorted Z.lt (target_view <$> m) /\
  match prev with Some p => Forall (fun e => p < target_view e) m | None => True end.
Proof.
  intros Hv. revert prev. induction m as [|e m IH]; intros prev; cbn [formed_batch_entries].
  { split; [|done]. intros _. split_and!; try constructor. destruct prev; constructor. }
  rewrite fmap_cons, StronglySorted_cons, !Forall_cons.
  destruct e as [u ? ?|u ? ?|u]; simpl; [naive_solver..|].
  assert (Hstep : formed_batch_entries c view (Some u) m = true <->
    Forall (carried_entry_ok c view) m /\ Forall is_skip m /\
    StronglySorted Z.lt (target_view <$> m) /\ Forall (Z.lt u) (target_view <$> m)).
  { rewrite IH, Forall_fmap. done. }
  rewrite <- (formed_entry_spec c view (EntrySkip u)) by done.
  destruct (formed_entry c view (EntrySkip u)); simpl; [|naive_solver].
  destruct prev as [p|].
  - destruct (Z.leb_spec u p).
    + rewrite Forall_cons. cbn. split; [done|]. lia.
    + rewrite Hstep, Forall_cons. cbn. split; [|tauto].
      intros (? & ? & ? & Hlt). split_and!; try done.
      rewrite Forall_fmap in Hlt. eapply Forall_impl; [exact Hlt|]. cbn. lia.
  - rewrite Hstep. tauto.
Qed.

(** C32: [ProposalOut::formed] accepts a proposal exactly when its manifests have
    strictly increasing staked authors, positive heights and hashes that are
    distinct across both manifests, every carried entry is itself well formed
    and targets a view at least three below the carrier, and a batch carries
    between 2 and [max(1, f)] skips in strictly increasing target order. *)
Theorem formed_iff_proposal_ok c p :
  is_u64 (p_view p) -> p_formed c p = true <-> proposal_ok c p.
Proof.
  intros [Hv _]. unfold p_formed, proposal_ok. destruct p as [p|p]; simpl in *.
  - unfold formed. rewrite manifests_guard. destruct (vp_m p) as [e|].
    + rewrite formed_entry_spec, Forall_singleton by done. tauto.
    + split; [|tauto]. intros [? _]. split_and!; [done|constructor|done].
  - unfold formed_batch. rewrite manifests_guard, Z.gtb_ltb.
    destruct (Z.ltb_spec (Z.of_nat (length (bp_m p))) 2); simpl; [naive_solver lia|].
    destruct (Z.ltb_spec (batch_cap c) (Z.of_nat (length (bp_m p)))); [naive_solver lia|].
    rewrite formed_batch_entries_spec by done. naive_solver lia.
Qed.

Lemma formed_iff_proposal_ok_witness :
  proposal_ok committee4
    (PSingle (mkViewProposal 9 [(10, 1, 7); (20, 3, 8)] [(10, 2, 9)] (Some (EntrySkip 6)))).
Proof. apply formed_iff_proposal_ok; [by vm_compute|]. vm_compute. reflexivity. Defined.
