(* ===== verification/Pacemaker.v ===== *)
(** The view pacemaker.

    Models [src/primary/src/vantage/pacemaker.rs]: the largest wish received
    from each party, amplification at [f + 1] wishes, and entry at a quorum
    [Q = n - f] of wishes. *)

From S2P Require Import Prelude Committee Types.

Record Pacemaker := mkPacemaker {
  omega : list View;
  index_map : gmap PublicKey nat;
  own_index : nat;
  pm_f_plus_1 : nat;
  pm_quorum : nat;
  own_watermark : View;
  entry_target : View;
  largest_entered_view : View;
}.

Definition eta_Pacemaker (p : Pacemaker) : Pacemaker :=
  mkPacemaker (omega p) (index_map p) (own_index p) (pm_f_plus_1 p) (pm_quorum p)
    (own_watermark p) (entry_target p) (largest_entered_view p).
#[export] Instance set_omega : Setter omega.
Proof. solve_setter eta_Pacemaker omega. Defined.
#[export] Instance set_own_watermark : Setter own_watermark.
Proof. solve_setter eta_Pacemaker own_watermark. Defined.
#[export] Instance set_entry_target : Setter entry_target.
Proof. solve_setter eta_Pacemaker entry_target. Defined.
#[export] Instance set_largest_entered_view : Setter largest_entered_view.
Proof. solve_setter eta_Pacemaker largest_entered_view. Defined.

(** [names.iter().enumerate().map(|(i, pk)| (pk, i)).collect()]. *)
Definition index_names (names : list PublicKey) : gmap PublicKey nat :=
  list_to_map (imap (fun i pk => (pk, i)) names).

(** [None] is the panic of [expect("self must be a committee member")]. *)
Definition pacemaker_new (name : PublicKey) (c : Committee) : option Pacemaker :=
  let names := authority_keys c in
  let n := length names in
  let thresholds := from_party_count (Z.of_nat n) in
  let index_of := index_names names in
  own ← index_of !! name;
  Some {| omega := replicate n 0;
          index_map := index_of;
          own_index := own;
          pm_f_plus_1 := Z.to_nat (f_plus_1_parties thresholds);
          pm_quorum := Z.to_nat (n_minus_f_parties thresholds);
          own_watermark := 0;
          entry_target := 0;
          largest_entered_view := 0 |}.

(** The one-based [k]th largest wish: the element [select_nth_unstable_by]
    leaves at index [k - 1] under the descending order. *)
Definition kth_largest_of (l : list View) (k : nat) : View :=
  default 0 (merge_sort Z.ge l !! (k - 1)%nat).

Definition kth_largest (p : Pacemaker) (k : nat) : View := kth_largest_of (omega p) k.
Definition omega_plus (p : Pacemaker) : View := kth_largest p (pm_f_plus_1 p).
Definition omega_q (p : Pacemaker) : View := kth_largest p (pm_quorum p).

Abbreviation PM := (M Effect Pacemaker) (only parsing).

(** [while largest < target { largest += 1; push Enter(largest) }], bounded by
    the distance to the target. *)
Fixpoint enter_loop (fuel : nat) : PM () :=
  p ← get;
  if largest_entered_view p <? entry_target p then
    match fuel with
    | O => skip
    | S fuel =>
        modify (fun p => p <| largest_entered_view := u64_add (largest_entered_view p) 1 |>);;
        p ← get;
        emit (Enter (largest_entered_view p));;
        enter_loop fuel
    end
  else skip.

Definition advance_entry_target (oq : View) : PM () :=
  p ← get;
  when (oq >? entry_target p) (
    modify (fun p => p <| entry_target := oq |>);;
    p ← get;
    enter_loop (Z.to_nat (entry_target p - largest_entered_view p))).

Definition raise_own_wish (x : View) : PM () :=
  p ← get;
  if x <=? own_watermark p then skip
  else
    modify (fun p => p <| omega ::= <[own_index p := x]> |> <| own_watermark := x |>);;
    p ← get;
    advance_entry_target (omega_q p).

Definition genesis : PM () :=
  modify (fun p => p <| largest_entered_view := 1 |>);;
  emit (BroadcastWish 2);;
  raise_own_wish 2.

Definition on_wish (sender : PublicKey) (x : View) : PM () :=
  p ← get;
  match index_map p !! sender with
  | None => skip
  | Some idx =>
      when (x >? default 0 (omega p !! idx)) (modify (fun p => p <| omega ::= <[idx := x]> |>));;
      p ← get;
      let op := omega_plus p in
      when (op >? own_watermark p) (
        emit (BroadcastWish op);;
        modify (fun p => p <| omega ::= <[own_index p := op]> |> <| own_watermark := op |>));;
      p ← get;
      advance_entry_target (omega_q p)
  end.

Definition fast_forward_installed_entry (next_live : View) : PM () :=
  p ← get;
  when (next_live >? entry_target p) (modify (fun p => p <| entry_target := next_live |>));;
  when (next_live >? largest_entered_view p)
    (modify (fun p => p <| largest_entered_view := next_live |>));;
  when (next_live >? own_watermark p)
    (modify (fun p => p <| omega ::= <[own_index p := next_live]> |>
                       <| own_watermark := next_live |>)).

(** The operations the node performs after [genesis]. *)
Inductive pm_op :=
| OpWish (sender : PublicKey) (x : View)
| OpRaise (x : View)
| OpFastForward (next_live : View).

Definition pm_exec (o : pm_op) : PM () :=
  match o with
  | OpWish s x => on_wish s x
  | OpRaise x => raise_own_wish x
  | OpFastForward v => fast_forward_installed_entry v
  end.

Definition pm_run (ops : list pm_op) : PM () := genesis ;; for_each pm_exec ops.

(** ** The order statistic *)

(** How many parties wish for [w] or a later view. *)
Definition count_ge (l : list View) (w : View) : nat := length (filter (fun x => w <= x) l).

#[local] Instance Zge_trans : Transitive Z.ge.
Proof. intros x y z; lia. Qed.
#[local] Instance Zge_total : Total Z.ge.
Proof. intros x y; lia. Qed.

Lemma count_ge_sorted l w k :
  StronglySorted Z.ge l -> (k < length l)%nat ->
  (w <= default 0 (l !! k) <-> (S k <= count_ge l w)%nat).
Proof.
  unfold count_ge. intros Hs. revert k. induction Hs as [|x l Hs IH Hx]; intros k Hk.
  { simpl in Hk. lia. }
  rewrite filter_cons. destruct k as [|k]; simpl in *.
  - case_decide; simpl; [lia|]. split; [lia|]. intros Hlen. exfalso.
    destruct (filter (fun x => w <= x) l) as [|y l'] eqn:Hf; [simpl in Hlen; lia|].
    assert (y ∈ y :: l') as Hy by set_solver. rewrite <- Hf in Hy.
    apply list_elem_of_filter in Hy as [Hwy Hy]. rewrite Forall_forall in Hx.
    specialize (Hx y Hy). lia.
  - rewrite IH by lia. case_decide as Hwx; simpl; [lia|].
    assert (filter (fun x => w <= x) l = []) as ->; [|simpl; lia].
    apply filter_none. rewrite Forall_forall in Hx.
    intros y Hy. specialize (Hx y Hy). lia.
Qed.

(** The [k]th largest wish is the greatest view that [k] parties have reached. *)
Lemma kth_largest_of_spec l k w :
  (1 <= k <= length l)%nat -> (w <= kth_largest_of l k <-> (k <= count_ge l w)%nat).
Proof.
  intros Hk. unfold kth_largest_of.
  assert (Hp : merge_sort Z.ge l ≡ₚ l) by apply merge_sort_Permutation.
  rewrite count_ge_sorted.
  - unfold count_ge. rewrite Hp. lia.
  - apply StronglySorted_merge_sort; apply _.
  - rewrite Hp. lia.
Qed.

Lemma count_ge_insert l i x y w :
  l !! i = Some y ->
  (count_ge (<[i := x]> l) w + (if decide (w <= y)%Z then 1 else 0) =
   count_ge l w + (if decide (w <= x)%Z then 1 else 0))%nat.
Proof.
  unfold count_ge. revert i. induction l as [|z l IH]; intros [|i] Hi; simplify_eq/=.
  - rewrite !filter_cons. repeat case_decide; simpl; lia.
  - rewrite !filter_cons. specialize (IH i Hi). repeat case_decide; simpl in *; lia.
Qed.

(** Raising one wish raises the order statistic at most to that wish. *)
Lemma kth_largest_of_insert_le l i x y k :
  l !! i = Some y -> (1 <= k <= length l)%nat ->
  kth_largest_of (<[i := x]> l) k <= Z.max (kth_largest_of l k) x.
Proof.
  intros Hi Hk. set (w := kth_largest_of (<[i := x]> l) k).
  assert (Hw : (k <= count_ge (<[i := x]> l) w)%nat).
  { apply kth_largest_of_spec; [by rewrite length_insert|done]. }
  destruct (decide (w <= x)) as [Hwx|Hwx]; [lia|].
  assert (w <= kth_largest_of l k); [|lia].
  apply kth_largest_of_spec; [done|].
  pose proof (count_ge_insert l i x y w Hi) as Hc.
  rewrite (decide_False (P := w <= x)) in Hc by done. lia.
Qed.

Lemma count_ge_mono l l' w :
  Forall2 Z.le l l' -> (count_ge l w <= count_ge l' w)%nat.
Proof.
  unfold count_ge. induction 1 as [|x y l l' Hxy _ IH]; [done|].
  rewrite !filter_cons. repeat case_decide; simpl; lia.
Qed.

Lemma Forall2_le_insert l i x y :
  l !! i = Some y -> y <= x -> Forall2 Z.le l (<[i := x]> l).
Proof.
  revert i. induction l as [|z l IH]; intros [|i] Hi Hxy; simplify_eq/=;
    constructor; auto; try lia. apply Forall2_same_length_lookup; split; [done|].
  intros j a b Ha Hb. simplify_eq. lia.
Qed.

(** ** Runs of the operations *)

Definition entered_views (es : list Effect) : list View :=
  omap (fun e => match e with Enter v => Some v | _ => None end) es.

Lemma entered_views_app es1 es2 :
  entered_views (es1 ++ es2) = entered_views es1 ++ entered_views es2.
Proof. apply omap_app. Qed.

Lemma entered_views_enter l : entered_views (Enter <$> l) = l.
Proof. unfold entered_views. induction l; simpl; [done|]. by f_equal. Qed.

Lemma enter_loop_run fuel p :
  0 <= largest_entered_view p -> entry_target p <= u64_max ->
  fuel = Z.to_nat (entry_target p - largest_entered_view p) ->
  enter_loop fuel p =
  Res tt (Enter <$> seqZ (largest_entered_view p + 1) (entry_target p - largest_entered_view p))
    (p <| largest_entered_view := Z.max (largest_entered_view p) (entry_target p) |>).
Proof.
  revert p. induction fuel as [|fuel IH]; intros p Hl Ht Hfuel.
  - simpl. unfold mbind, M_bind. simpl.
    destruct (Z.ltb_spec (largest_entered_view p) (entry_target p)); [lia|].
    rewrite seqZ_nil by lia. rewrite Z.max_l by lia. by destruct p.
  - cbn [enter_loop]. unfold mbind, M_bind. simpl.
    destruct (Z.ltb_spec (largest_entered_view p) (entry_target p)); [|lia].
    simpl. rewrite u64_add_small by lia.
    rewrite IH; simpl; [|lia..].
    rewrite (seqZ_cons (largest_entered_view p + 1)) by lia.
    rewrite fmap_cons. f_equal.
    + f_equal. f_equal. f_equal; lia.
    + destruct p; unfold setter, set_largest_entered_view; simpl in *. f_equal. lia.
Qed.

Lemma advance_entry_target_run oq p :
  0 <= largest_entered_view p -> oq <= u64_max ->
  advance_entry_target oq p =
  if oq >? entry_target p then
    Res tt (Enter <$> seqZ (largest_entered_view p + 1) (oq - largest_entered_view p))
      (p <| entry_target := oq |> <| largest_entered_view := Z.max (largest_entered_view p) oq |>)
  else Res tt [] p.
Proof.
  intros Hl Hoq. unfold advance_entry_target, mbind, M_bind. simpl.
  destruct (oq >? entry_target p); simpl; [|done].
  rewrite enter_loop_run by (simpl; lia). done.
Qed.

(** ** The invariant *)

(** What holds between the updates of one operation. *)
Record pm_core (p : Pacemaker) : Prop := {
  core_own : omega p !! own_index p = Some (own_watermark p);
  core_index k i : index_map p !! k = Some i -> (i < length (omega p))%nat;
  core_f_plus_1 : (1 <= pm_f_plus_1 p <= length (omega p))%nat;
  core_quorum : (1 <= pm_quorum p <= length (omega p))%nat;
  core_u64 : Forall is_u64 (omega p);
  core_entered : 0 <= entry_target p <= largest_entered_view p /\ is_u64 (largest_entered_view p);
}.

(** Amplification and entry are never pending after an operation. *)
Record pm_inv (p : Pacemaker) : Prop := {
  inv_core : pm_core p;
  inv_plus : omega_plus p <= own_watermark p;
  inv_quorum : omega_q p <= entry_target p;
}.

(** What one operation does: it preserves the invariant and the configuration,
    moves every watermark forward, and enters new views in increasing order,
    each backed by a quorum of wishes. *)
Record pm_step (p : Pacemaker) (es : list Effect) (p' : Pacemaker) : Prop := {
  step_inv : pm_inv p';
  step_config : index_map p' = index_map p /\ own_index p' = own_index p /\
    pm_f_plus_1 p' = pm_f_plus_1 p /\ pm_quorum p' = pm_quorum p;
  step_omega : Forall2 Z.le (omega p) (omega p');
  step_watermark : own_watermark p <= own_watermark p';
  step_target : entry_target p <= entry_target p';
  step_largest : largest_entered_view p <= largest_entered_view p';
  step_sorted : StronglySorted Z.lt (entered_views es);
  step_fresh : Forall (fun v => largest_entered_view p < v <= largest_entered_view p')
    (entered_views es);
  step_backed : Forall (fun v => (pm_quorum p <= count_ge (omega p') v)%nat) (entered_views es);
}.

Lemma Forall2_Zle_refl l : Forall2 Z.le l l.
Proof. apply Forall_Forall2_diag, Forall_true. lia. Qed.

Lemma kth_largest_of_u64 l k : Forall is_u64 l -> is_u64 (kth_largest_of l k).
Proof.
  intros Hl. unfold kth_largest_of. destruct (_ !! _) as [v|] eqn:Hv; simpl; [|done].
  apply list_elem_of_lookup_2 in Hv. rewrite merge_sort_Permutation in Hv.
  rewrite Forall_forall in Hl. by apply Hl.
Qed.

(** A state that satisfies the core invariant is completed by
    [advance_entry_target] at its quorum wish. *)
Lemma advance_completes p :
  pm_core p -> omega_plus p <= own_watermark p ->
  let r := advance_entry_target (omega_q p) p in
  pm_inv (st r) /\ omega (st r) = omega p /\ own_watermark (st r) = own_watermark p /\
  index_map (st r) = index_map p /\ own_index (st r) = own_index p /\
  pm_f_plus_1 (st r) = pm_f_plus_1 p /\ pm_quorum (st r) = pm_quorum p /\
  entry_target p <= entry_target (st r) /\
  largest_entered_view p <= largest_entered_view (st r) /\
  StronglySorted Z.lt (entered_views (out r)) /\
  Forall (fun v => largest_entered_view p < v <= largest_entered_view (st r)
                   /\ (pm_quorum p <= count_ge (omega p) v)%nat) (entered_views (out r)).
Proof.
  intros Hcore Hplus.
  destruct Hcore as [Hown Hidx Hk1 Hkq Hu64 [Hentry Hlarge]] eqn:Hc.
  pose proof (kth_largest_of_u64 (omega p) (pm_quorum p) Hu64) as Hq.
  fold (kth_largest p (pm_quorum p)) in Hq. fold (omega_q p) in Hq. unfold is_u64 in *.
  rewrite advance_entry_target_run by lia.
  rewrite Z.gtb_ltb. destruct (Z.ltb_spec (entry_target p) (omega_q p)) as [Hlt|Hge]; simpl.
  - rewrite entered_views_enter. split_and!; try done; try lia.
    + split; [split|..]; simpl; try done; unfold is_u64; try lia.
    + apply seqZ_sorted.
    + apply Forall_forall. intros v Hv%elem_of_seqZ. split; [lia|].
      apply kth_largest_of_spec; [done|]. unfold omega_q, kth_largest in *. lia.
  - split_and!; try done; try lia; simpl; try constructor; done.
Qed.

(** Assigning [x] to this party's own wish keeps the core invariant. *)
Lemma pm_core_own_wish p x :
  pm_core p -> is_u64 x ->
  let p' := p <| omega ::= <[own_index p := x]> |> <| own_watermark := x |> in
  pm_core p' /\ (omega_plus p <= x -> omega_plus p' <= x) /\
  (own_watermark p <= x -> Forall2 Z.le (omega p) (omega p')).
Proof.
  intros [Hown Hidx Hk1 Hkq Hu64 Hrange] Hx. simpl. split_and!.
  - split; simpl; rewrite ?length_insert; try done.
    + apply list_lookup_insert_eq. by eapply lookup_lt_Some.
    + by apply Forall_insert.
  - intros Hle. unfold omega_plus, kth_largest in *. simpl.
    etrans; [by eapply kth_largest_of_insert_le|]. lia.
  - intros Hle. by eapply Forall2_le_insert.
Qed.

Lemma pm_core_wish p i x :
  pm_core p -> is_u64 x -> i <> own_index p -> (i < length (omega p))%nat ->
  x > default 0 (omega p !! i) ->
  let p' := p <| omega ::= <[i := x]> |> in pm_core p' /\ Forall2 Z.le (omega p) (omega p').
Proof.
  intros [Hown Hidx Hk1 Hkq Hu64 Hrange] Hx Hi Hlen Hgt. simpl.
  destruct (lookup_lt_is_Some_2 _ _ Hlen) as [y Hy]. rewrite Hy in Hgt. simpl in Hgt.
  split.
  - split; simpl; rewrite ?length_insert; try done.
    + by rewrite list_lookup_insert_ne.
    + by apply Forall_insert.
  - eapply Forall2_le_insert; [done|lia].
Qed.

(** The updates an operation performs before it advances the entry target. *)
Record pm_quiet (p : Pacemaker) (es : list Effect) (p' : Pacemaker) : Prop := {
  quiet_core : pm_core p -> pm_core p';
  quiet_config : index_map p' = index_map p /\ own_index p' = own_index p /\
    pm_f_plus_1 p' = pm_f_plus_1 p /\ pm_quorum p' = pm_quorum p;
  quiet_omega : Forall2 Z.le (omega p) (omega p');
  quiet_watermark : own_watermark p <= own_watermark p';
  quiet_target : entry_target p' = entry_target p;
  quiet_largest : largest_entered_view p' = largest_entered_view p;
  quiet_entered : entered_views es = [];
}.

#[export] Instance pm_quiet_trace : TraceRel pm_quiet.
Proof.
  split.
  - intros p. split; try done; apply Forall2_Zle_refl.
  - intros p1 p2 p3 es1 es2 [] []. split; try naive_solver congruence.
    + etrans; done.
    + lia.
    + rewrite entered_views_app. by apply app_nil.
Qed.

Lemma pm_step_stay p : pm_inv p -> pm_step p [] p.
Proof. intros Hp. split; simpl; try done; try apply Forall2_Zle_refl; constructor. Qed.

(** A quiet prefix followed by [advance_entry_target] is a step. *)
Lemma quiet_then_advance p es p' :
  pm_inv p -> pm_quiet p es p' -> omega_plus p' <= own_watermark p' ->
  let r := advance_entry_target (omega_q p') p' in pm_step p (es ++ out r) (st r).
Proof.
  intros [Hcore _ _] [Hc (Hcf1 & Hcf2 & Hcf3 & Hcf4) Hom Hwm Ht Hl Hes] Hplus.
  destruct (advance_completes p' (Hc Hcore) Hplus)
    as (Hinv & Hom' & Hwm' & Hi' & Ho' & Hf' & Hq' & Ht' & Hl' & Hs' & Hv').
  cbv zeta. split; rewrite ?entered_views_app, ?Hes, ?Hom'; try done; try lia.
  - rewrite Hi', Ho', Hf', Hq'. done.
  - eapply Forall_impl; [exact Hv'|]. simpl. rewrite Hl. tauto.
  - eapply Forall_impl; [exact Hv'|]. simpl. rewrite Hcf4. tauto.
Qed.

Lemma raise_own_wish_step p x :
  pm_inv p -> is_u64 x -> pm_step p (out (raise_own_wish x p)) (st (raise_own_wish x p)).
Proof.
  intros Hinv Hx. unfold raise_own_wish, mbind, M_bind. simpl.
  destruct (Z.leb_spec x (own_watermark p)) as [Hle|Hgt]; [by apply pm_step_stay|].
  destruct (pm_core_own_wish p x (inv_core p Hinv) Hx) as (_ & Hplus' & Hmono).
  pose proof (inv_plus p Hinv). simpl.
  apply (quiet_then_advance p []); [done| |simpl; apply Hplus'; lia].
  split; simpl; try done; try lia.
  - intros Hc. by apply pm_core_own_wish.
  - apply Hmono. lia.
Qed.

Lemma record_wish_quiet p i x :
  pm_core p -> is_u64 x -> i <> own_index p -> (i < length (omega p))%nat ->
  let m := when (x >? default 0 (omega p !! i))
             (modify (fun p => p <| omega ::= <[i := x]> |>)) : PM () in
  pm_quiet p (out (m p)) (st (m p)).
Proof.
  intros Hcore Hx Hi Hlen. simpl. rewrite Z.gtb_ltb.
  destruct (Z.ltb_spec (default 0 (omega p !! i)) x); simpl; [|apply trace_refl].
  destruct (pm_core_wish p i x Hcore Hx Hi Hlen) as [Hc Hm]; [lia|].
  split; done.
Qed.

Lemma amplify_quiet p :
  pm_core p ->
  let m := when (omega_plus p >? own_watermark p)
    (emit (BroadcastWish (omega_plus p));;
     modify (fun q => q <| omega ::= <[own_index q := omega_plus p]> |>
                        <| own_watermark := omega_plus p |>)) : PM () in
  pm_quiet p (out (m p)) (st (m p)) /\ omega_plus (st (m p)) <= own_watermark (st (m p)).
Proof.
  intros Hcore. simpl. rewrite Z.gtb_ltb.
  destruct (Z.ltb_spec (own_watermark p) (omega_plus p)); simpl; [|split; [apply trace_refl|lia]].
  assert (is_u64 (omega_plus p)) as Hu by (apply kth_largest_of_u64, core_u64, Hcore).
  destruct (pm_core_own_wish p (omega_plus p) Hcore Hu) as (Hc & Hp & Hm).
  split; [|apply Hp; lia]. split; simpl; try done; [apply Hm|]; lia.
Qed.

Lemma on_wish_step p sender x :
  pm_inv p -> is_u64 x -> index_map p !! sender <> Some (own_index p) ->
  pm_step p (out (on_wish sender x p)) (st (on_wish sender x p)).
Proof.
  intros Hinv Hx Hself. unfold on_wish. rewrite get_bind.
  destruct (index_map p !! sender) as [i|] eqn:Hi; [|by apply pm_step_stay].
  pose proof (inv_core p Hinv) as Hcore.
  assert (i <> own_index p) as Hne by congruence.
  pose proof (record_wish_quiet p i x Hcore Hx Hne (core_index p Hcore sender i Hi)) as Hq1.
  rewrite bind_run. set (r1 := when _ _ p) in *. rewrite get_bind.
  destruct (amplify_quiet (st r1) (quiet_core _ _ _ Hq1 Hcore)) as [Hq2 Hplus2].
  rewrite bind_run. set (r2 := when _ _ (st r1)) in *. rewrite get_bind.
  cbn [out st]. rewrite (assoc_L (++)).
  apply quiet_then_advance; [done| |done]. by eapply trace_trans.
Qed.

Lemma fast_forward_step p v :
  pm_inv p -> is_u64 v ->
  pm_step p (out (fast_forward_installed_entry v p)) (st (fast_forward_installed_entry v p)).
Proof.
  intros [Hcore Hplus Hq] Hv.
  unfold fast_forward_installed_entry, mbind, M_bind. simpl. rewrite !Z.gtb_ltb.
  pose proof (core_entered p Hcore) as [He Hl]. unfold is_u64 in *.
  pose proof (core_own p Hcore) as Hown. pose proof (core_quorum p Hcore) as Hkq.
  pose proof (kth_largest_of_insert_le (omega p) (own_index p) v _ _ Hown Hkq) as Hqi.
  pose proof (core_f_plus_1 p Hcore) as Hk1.
  pose proof (kth_largest_of_insert_le (omega p) (own_index p) v _ _ Hown Hk1) as Hpi.
  destruct (pm_core_own_wish p v Hcore Hv) as (Hcore' & _ & Hmono).
  destruct Hcore as [_ Hidx _ _ Hu64 _]. destruct Hcore' as [Hown' Hidx' Hk1' Hkq' Hu64' _].
  unfold omega_plus, omega_q, kth_largest in *.
  destruct (Z.ltb_spec (entry_target p) v), (Z.ltb_spec (largest_entered_view p) v),
    (Z.ltb_spec (own_watermark p) v); simpl in *; try lia;
    split; simpl; unfold omega_plus, omega_q, kth_largest, is_u64; simpl;
    repeat match goal with
      | |- pm_inv _ => split
      | |- pm_core _ => split
      | |- StronglySorted _ [] => constructor
      | |- Forall _ [] => constructor
      | |- Forall2 _ (omega p) (omega p) => apply Forall2_Zle_refl
      | |- Forall2 _ _ _ => apply Hmono
      | |- _ => progress (unfold omega_plus, omega_q, kth_largest, is_u64; simpl)
      end; first [done|lia].
Qed.

(** ** Properties *)

Definition op_ok (name : PublicKey) (o : pm_op) : Prop :=
  match o with
  | OpWish s x => s <> name /\ is_u64 x
  | OpRaise x => is_u64 x
  | OpFastForward v => is_u64 v
  end.

Lemma index_names_inj names k1 k2 i :
  NoDup names -> index_names names !! k1 = Some i -> index_names names !! k2 = Some i -> k1 = k2.
Proof.
  unfold index_names. intros Hnd H1 H2.
  apply elem_of_list_to_map_2, elem_of_lookup_imap in H1 as (i1 & x1 & [= -> ->] & H1).
  apply elem_of_list_to_map_2, elem_of_lookup_imap in H2 as (i2 & x2 & [= -> ->] & H2).
  congruence.
Qed.

Lemma index_names_lt names k i : index_names names !! k = Some i -> (i < length names)%nat.
Proof.
  unfold index_names.
  intros (i1 & x1 & [= -> ->] & H1)%elem_of_list_to_map_2%elem_of_lookup_imap.
  by eapply lookup_lt_Some.
Qed.

Lemma pacemaker_new_inv name c p :
  pacemaker_new name c = Some p ->
  pm_inv p /\ largest_entered_view p = 0 /\
  forall s, s <> name -> index_map p !! s <> Some (own_index p).
Proof.
  unfold pacemaker_new. intros Hp. simpl in Hp.
  destruct (index_names (authority_keys c) !! name) as [own|] eqn:Hown; [|done].
  injection Hp as <-. set (l := authority_keys c) in *.
  pose proof (index_names_lt _ _ _ Hown) as Hlt.
  pose proof (party_thresholds (Z.of_nat (length l)) ltac:(lia)) as Ht. simpl in Ht.
  assert (Hz : forall k, kth_largest_of (replicate (length l) 0) k = 0).
  { intros k. unfold kth_largest_of.
    destruct (merge_sort _ _ !! _) as [v|] eqn:Hv; [|done].
    apply list_elem_of_lookup_2 in Hv. rewrite merge_sort_Permutation in Hv.
    by apply elem_of_replicate in Hv as [-> _]. }
  split_and!; [|done|].
  - split; [split|..]; simpl; rewrite ?length_replicate; unfold omega_plus, omega_q, kth_largest;
      simpl; rewrite ?Hz; try done; try lia.
    + by apply lookup_replicate_2.
    + intros k i. apply index_names_lt.
    + by apply Forall_replicate.
  - simpl. intros s Hs Heq. apply Hs. eapply index_names_inj; [|done..].
    apply NoDup_authority_keys.
Qed.

Lemma pm_exec_step name p o :
  (forall s, s <> name -> index_map p !! s <> Some (own_index p)) ->
  pm_inv p -> op_ok name o -> pm_step p (out (pm_exec o p)) (st (pm_exec o p)).
Proof.
  intros Hself Hinv. destruct o; simpl.
  - intros [Hs Hx]. apply on_wish_step; auto.
  - by apply raise_own_wish_step.
  - by apply fast_forward_step.
Qed.

(** A whole run from a state satisfying the invariant. *)
Lemma pm_ops_step name ops p :
  (forall s, s <> name -> index_map p !! s <> Some (own_index p)) ->
  pm_inv p -> Forall (op_ok name) ops ->
  pm_step p (out (for_each pm_exec ops p)) (st (for_each pm_exec ops p)).
Proof.
  revert p. induction ops as [|o ops IH]; intros p Hself Hinv Hops; [by apply pm_step_stay|].
  inversion_clear Hops as [|? ? Ho Hops']. cbn [for_each]. rewrite bind_run. cbn [out st].
  destruct (pm_exec_step name p o Hself Hinv Ho)
    as [Hinv1 (Hi1 & Ho1 & Hf1 & Hq1) Hom1 Hw1 Ht1 Hl1 Hs1 Hv1 Hb1].
  set (r := pm_exec o p) in *.
  destruct (IH (st r)) as [Hinv2 (Hi2 & Ho2 & Hf2 & Hq2) Hom2 Hw2 Ht2 Hl2 Hs2 Hv2 Hb2];
    [by rewrite Hi1, Ho1|done..|].
  set (r' := for_each pm_exec ops (st r)) in *.
  split; rewrite ?entered_views_app; try lia; try done.
  - split_and!; congruence.
  - by etrans.
  - apply StronglySorted_app_2; try done. rewrite Forall_forall in Hv1, Hv2.
    intros x y Hx Hy. specialize (Hv1 x Hx). specialize (Hv2 y Hy). lia.
  - apply Forall_app. split; eapply Forall_impl; [exact Hv1|..|exact Hv2|]; simpl; lia.
  - apply Forall_app. split; eapply Forall_impl; [exact Hb1|..|exact Hb2|]; simpl; [|by rewrite Hq1].
    intros v Hv. etrans; [exact Hv|]. by apply count_ge_mono.
Qed.

Lemma genesis_step p :
  pm_inv p -> largest_entered_view p = 0 -> omega_q p <= 1 ->
  pm_step (p <| largest_entered_view := 1 |>) (out (genesis p)) (st (genesis p)).
Proof.
  intros [Hcore Hplus Hq] Hl Hq1. unfold genesis. rewrite bind_run. cbn [modify val out st].
  rewrite bind_run. cbn [emit val out st app].
  set (p' := p <| largest_entered_view := 1 |>).
  assert (Hinv' : pm_inv p').
  { split; [|done..]. destruct Hcore as [? ? ? ? ? [He _]]. split; simpl; try done.
    split; [lia|]. by vm_compute. }
  destruct (raise_own_wish_step p' 2 Hinv') as [H1 H2 H3 H4 H5 H6 H7 H8 H9]; [by vm_compute|].
  by split.
Qed.

(** C30: from [Pacemaker::new] and [genesis], whatever wishes other parties send
    and whatever views are installed, amplification is never pending
    ([omega_plus <= own_watermark]) and entry is never pending
    ([omega_q <= entry_target <= entered]); the views entered are strictly
    increasing, all after view 1; and every view entered is backed by wishes of
    [Q = n - f] parties for that view or a later one. *)
Theorem pacemaker_safe name c p ops :
  pacemaker_new name c = Some p -> Forall (op_ok name) ops ->
  let r := pm_run ops p in
  omega_plus (st r) <= own_watermark (st r) /\
  omega_q (st r) <= entry_target (st r) <= largest_entered_view (st r) /\
  StronglySorted Z.lt (entered_views (out r)) /\
  Forall (fun v => 1 < v <= largest_entered_view (st r) /\
    n_minus_f_parties (from_committee c) <= Z.of_nat (count_ge (omega (st r)) v))
    (entered_views (out r)).
Proof.
  intros Hnew Hops. destruct (pacemaker_new_inv name c p Hnew) as (Hinv & Hl0 & Hself).
  assert (Hq0 : omega_q p <= 1 /\ Z.of_nat (pm_quorum p) = n_minus_f_parties (from_committee c)).
  { pose proof (inv_quorum p Hinv) as Hq. revert Hnew Hq. unfold pacemaker_new. simpl.
    destruct (_ !! name) as [own|] eqn:Hown; [|done]. intros [= <-] Hq. simpl in *.
    split; [lia|]. unfold from_committee, from_party_count. simpl.
    rewrite <- length_authority_keys. apply index_names_lt in Hown.
    pose proof (party_thresholds (Z.of_nat (length (authority_keys c))) ltac:(lia)) as Ht.
    simpl in Ht. lia. }
  destruct Hq0 as [Hq0 HQ].
  destruct (genesis_step p Hinv Hl0 Hq0) as [Hi1 (Ha1 & Hb1 & _ & Hc1) Hom1 Hw1 Ht1 Hle1 Hs1 Hf1 Hbk1].
  unfold pm_run. rewrite bind_run. cbn [out st]. set (r1 := genesis p) in *. clearbody r1.
  simpl in Ha1, Hb1, Hc1, Hle1, Hf1, Hbk1.
  destruct (pm_ops_step name ops (st r1)) as [Hi2 _ Hom2 Hw2 Ht2 Hle2 Hs2 Hf2 Hbk2];
    [by rewrite Ha1, Hb1|done..|].
  set (r2 := for_each pm_exec ops (st r1)) in *.
  pose proof (core_entered _ (inv_core _ Hi2)) as [He2 _].
  split_and!; [apply Hi2|apply Hi2|lia|..]; rewrite entered_views_app.
  - apply StronglySorted_app_2; try done. rewrite Forall_forall in Hf1, Hf2.
    intros x y Hx Hy. specialize (Hf1 x Hx). specialize (Hf2 y Hy). simpl in *. lia.
  - rewrite <- HQ. rewrite Forall_forall in Hf1, Hf2, Hbk1, Hbk2. apply Forall_forall.
    intros v [Hv|Hv]%elem_of_app.
    + specialize (Hf1 v Hv). specialize (Hbk1 v Hv). pose proof (count_ge_mono _ _ v Hom2).
      simpl in *. lia.
    + specialize (Hf2 v Hv). specialize (Hbk2 v Hv). simpl in *. lia.
Qed.

Lemma pacemaker_safe_witness :
  exists p, pacemaker_new 10 committee4 = Some p /\
  let r := pm_run [OpWish 20 5; OpWish 30 7; OpRaise 4; OpWish 40 6; OpFastForward 9] p in
  entered_views (out r) = [2; 3; 4; 5; 6] /\
  omega_q (st r) <= entry_target (st r) <= largest_entered_view (st r).
Proof.
  eexists. split; [vm_compute; reflexivity|]. split; [vm_compute; reflexivity|].
  refine (proj1 (proj2 (pacemaker_safe 10 committee4 _
    [OpWish 20 5; OpWish 30 7; OpRaise 4; OpWish 40 6; OpFastForward 9] _ _))).
  - vm_compute. reflexivity.
  - repeat constructor; by vm_compute.
Defined.

(** [kth_largest] is the order statistic the protocol needs: for
    [1 <= k <= n] a view is at most the [k]th largest wish exactly when at
    least [k] parties have wished for that view or a later one. *)
Theorem kth_largest_spec p k w :
  (1 <= k <= length (omega p))%nat ->
  w <= kth_largest p k <-> (k <= count_ge (omega p) w)%nat.
Proof. apply kth_largest_of_spec. Qed.

Lemma kth_largest_spec_witness :
  exists p, pacemaker_new 10 committee4 = Some p /\ (0 <= kth_largest p 3 <-> (3 <= count_ge (omega p) 0)%nat).
Proof.
  eexists. split; [vm_compute; reflexivity|].
  apply kth_largest_spec. vm_compute. lia.
Defined.
