(* ===== verification/Outbox.v ===== *)
(** The outbox of recent broadcasts.

    Models [Outbox] of [src/primary/src/vantage/outbox.rs]: this node's
    broadcasts are kept by view for replay to peers, within a byte budget and
    above a pruning floor.  [record] asserts that keys do not decrease
    ([monotone_key]); [None] is the panic of a build with debug assertions. *)

From S2P Require Import Prelude Committee.

Definition Bytes : Type := list Z.

Definition byte_len (msgs : list Bytes) : Z := foldr (fun m n => Z.of_nat (length m) + n) 0 msgs.

Record Outbox := mkOutbox {
  ob_views : gmap View (list Bytes);
  total_bytes : Z;
  max_bytes : Z;
  ob_floor : View;
}.

Definition outbox_new (max_bytes : Z) : Outbox := mkOutbox ∅ 0 max_bytes 0.

(** The oldest view and its messages. *)
Definition oldest (o : Outbox) : option (View * list Bytes) := head (map_iter (ob_views o)).

(** The loop of [evict_over_cap]; every iteration removes a view, so the number of
    views is enough fuel. *)
Fixpoint evict_over_cap (fuel : nat) (o : Outbox) : Outbox :=
  match fuel with
  | O => o
  | S fuel =>
      if (max_bytes o <? total_bytes o) && (1 <? Z.of_nat (size (ob_views o))) then
        match oldest o with
        | None => o
        | Some (oldest_key, msgs) =>
            evict_over_cap fuel
              (mkOutbox (delete oldest_key (ob_views o)) (total_bytes o - byte_len msgs) (max_bytes o)
                 (Z.max (ob_floor o) (u64_add oldest_key 1)))
        end
      else o
  end.

(** The newest view is not above the key. *)
Definition monotone_key (key : View) (o : Outbox) : bool :=
  match last (map_iter (ob_views o)) with Some (newest, _) => newest <=? key | None => true end.

(** What follows the assertion. *)
Definition record_entry (key : View) (bytes : Bytes) (o : Outbox) : Outbox :=
  let views := <[ key := default [] (ob_views o !! key) ++ [bytes] ]> (ob_views o) in
  evict_over_cap (size views)
    (mkOutbox views (total_bytes o + Z.of_nat (length bytes)) (max_bytes o) (ob_floor o)).

Definition record (key : View) (bytes : Bytes) (o : Outbox) : option Outbox :=
  if negb (monotone_key key o) then None else Some (record_entry key bytes o).

Definition slice_from (from : View) (o : Outbox) : list (View * list Bytes) :=
  filter (fun p => from <= p.1) (map_iter (ob_views o)).

Definition prune_below (floor : View) (o : Outbox) : Outbox :=
  if floor <=? ob_floor o then o
  else
    let discarded := filter (fun p => p.1 < floor) (ob_views o) in
    mkOutbox (map_split_off floor (ob_views o))
      (total_bytes o - map_sum (fun _ msgs => byte_len msgs) discarded) (max_bytes o) floor.

(** The loop of [take_budgeted_slice]. *)
Fixpoint take_groups (groups : list (View * list Bytes)) (msgs : list Bytes) (end_key : View) (remaining : Z)
    : list Bytes * View * bool :=
  match groups with
  | [] => (msgs, end_key, true)
  | (key, key_msgs) :: groups =>
      let key_bytes := byte_len key_msgs in
      if negb (bool_decide (msgs = [])) && (remaining <? key_bytes) then (msgs, end_key, false)
      else take_groups groups (msgs ++ key_msgs) (u64_add key 1) (u64_saturating_sub remaining key_bytes)
  end.

Definition take_budgeted_slice (from : View) (budget : Z) (o : Outbox) : list Bytes * View * bool :=
  take_groups (slice_from from o) [] from budget.

(** ** The invariant *)

Record outbox_ok (o : Outbox) : Prop := {
  oo_floor : 0 <= ob_floor o;
  oo_total : total_bytes o = map_sum (fun _ msgs => byte_len msgs) (ob_views o);
  oo_key v msgs : ob_views o !! v = Some msgs -> ob_floor o <= v < u64_max /\ msgs <> [];
}.

Lemma byte_len_nonneg msgs : 0 <= byte_len msgs.
Proof. induction msgs; simpl; lia. Qed.

Lemma byte_len_app m m' : byte_len (m ++ m') = byte_len m + byte_len m'.
Proof. induction m; simpl; lia. Qed.

Lemma outbox_ok_new m : outbox_ok (outbox_new m).
Proof. split; cbn; [done|by rewrite map_sum_empty|intros *; by rewrite lookup_empty]. Qed.

Lemma oldest_spec o k msgs :
  oldest o = Some (k, msgs) ->
  ob_views o !! k = Some msgs /\ forall v m, ob_views o !! v = Some m -> k <= v.
Proof.
  unfold oldest. pose proof (map_iter_sorted (ob_views o)) as Hs.
  destruct (map_iter (ob_views o)) as [|p l] eqn:Hi; [done|]. simpl. intros [= ->]. split.
  - apply elem_of_map_iter. rewrite Hi. left.
  - intros v m Hv%elem_of_map_iter. rewrite Hi in Hv. apply elem_of_cons in Hv as [[= -> ->]|Hv]; [done|].
    apply StronglySorted_inv in Hs as [_ Hs]. rewrite Forall_forall in Hs. by apply (Hs _ Hv).
Qed.

(** Eviction keeps the newest views, whole, and the floor moves above the dropped ones. *)
Record evicts (o o' : Outbox) : Prop := {
  ev_ok : outbox_ok o';
  ev_max : max_bytes o' = max_bytes o;
  ev_floor : ob_floor o <= ob_floor o';
  ev_views v : ob_views o' !! v = if decide (ob_floor o' <= v) then ob_views o !! v else None;
}.

Lemma evicts_refl o : outbox_ok o -> evicts o o.
Proof.
  intros Ho. split; [done..|]. intros v. case_decide; [done|].
  destruct (ob_views o !! v) eqn:Hv; [|done]. apply (oo_key _ Ho) in Hv. lia.
Qed.

Lemma evicts_trans o1 o2 o3 : evicts o1 o2 -> evicts o2 o3 -> evicts o1 o3.
Proof.
  intros [A1 A2 A3 A4] [B1 B2 B3 B4]. split; [done|congruence|lia|]. intros v. rewrite B4, A4.
  repeat case_decide; try done; lia.
Qed.

Lemma evict_one o k msgs :
  outbox_ok o -> oldest o = Some (k, msgs) ->
  evicts o (mkOutbox (delete k (ob_views o)) (total_bytes o - byte_len msgs) (max_bytes o)
              (Z.max (ob_floor o) (u64_add k 1))).
Proof.
  intros Ho [Hk Hmin]%oldest_spec. pose proof (oo_key _ Ho _ _ Hk) as [Hr _].
  pose proof (oo_floor _ Ho) as Hfl. rewrite u64_add_small by lia. split; cbn; [split; cbn| |lia|]; [lia| | |done|].
  - rewrite (oo_total _ Ho), (map_sum_delete _ _ _ _ Hk). lia.
  - intros v m [Hne Hv]%lookup_delete_Some. pose proof (oo_key _ Ho _ _ Hv). pose proof (Hmin _ _ Hv).
    split; [lia|tauto].
  - intros v. destruct (decide (k = v)) as [<-|Hkv].
    + rewrite lookup_delete_eq. case_decide; [lia|done].
    + rewrite lookup_delete_ne by done. case_decide; [done|]. destruct (ob_views o !! v) eqn:Hv; [|done].
      pose proof (Hmin _ _ Hv). pose proof (oo_key _ Ho _ _ Hv). lia.
Qed.

Lemma evict_over_cap_spec fuel o :
  outbox_ok o -> (size (ob_views o) <= fuel)%nat ->
  let o' := evict_over_cap fuel o in
  evicts o o' /\ (total_bytes o' <= max_bytes o' \/ (size (ob_views o') <= 1)%nat) /\
  (ob_views o <> ∅ -> ob_views o' <> ∅).
Proof.
  cbn zeta. revert o. induction fuel as [|fuel IH]; intros o Ho Hf; cbn [evict_over_cap].
  { split_and!; [by apply evicts_refl|right; lia|done]. }
  destruct (Z.ltb_spec (max_bytes o) (total_bytes o)); cbn [andb];
    [|split_and!; [by apply evicts_refl|by left|done]].
  destruct (Z.ltb_spec 1 (Z.of_nat (size (ob_views o)))) as [Hlt|];
    [|split_and!; [by apply evicts_refl|right; lia|done]].
  destruct (oldest o) as [[k msgs]|] eqn:Hold.
  - pose proof (evict_one _ _ _ Ho Hold) as He. pose proof (oldest_spec _ _ _ Hold) as [Hk _].
    set (o1 := mkOutbox _ _ _ _) in *.
    assert (Hsz : size (ob_views o1) = pred (size (ob_views o))) by (cbn; by rewrite map_size_delete, Hk).
    destruct (IH o1) as (I1 & I2 & I3); [apply He|lia|].
    split_and!; [by eapply evicts_trans|done|]. intros _. apply I3. intros Hemp.
    rewrite Hemp, map_size_empty in Hsz. lia.
  - unfold oldest in Hold.
    destruct (map_iter (ob_views o)) eqn:Hi; [|done]. apply (f_equal length) in Hi.
    rewrite length_map_iter in Hi. simpl in Hi. lia.
Qed.

Lemma record_evicts key bytes o :
  outbox_ok o -> ob_floor o <= key < u64_max ->
  let o1 := mkOutbox (<[ key := default [] (ob_views o !! key) ++ [bytes] ]> (ob_views o))
              (total_bytes o + Z.of_nat (length bytes)) (max_bytes o) (ob_floor o) in
  evicts o1 (record_entry key bytes o) /\
  (total_bytes (record_entry key bytes o) <= max_bytes o \/ (size (ob_views (record_entry key bytes o)) <= 1)%nat) /\
  ob_views (record_entry key bytes o) <> ∅.
Proof.
  intros Ho Hk o1. unfold record_entry.
  assert (H1 : outbox_ok o1).
  { split; cbn; [apply Ho| |].
    - rewrite (oo_total _ Ho). destruct (ob_views o !! key) as [m|] eqn:Hm; cbn [default].
      + rewrite (map_sum_insert_Some _ _ _ _ _ Hm). change (id m) with m. rewrite byte_len_app. cbn [byte_len foldr].
        match goal with |- ?a + _ = ?b - _ + _ => change b with a end. lia.
      + rewrite map_sum_insert_None by done. simpl. lia.
    - intros v m. rewrite lookup_insert_Some. intros [[<- <-]|[_ Hv]]; [|by apply Ho].
      split; [done|]. by destruct (default [] (ob_views o !! key)). }
  destruct (evict_over_cap_spec (size (ob_views o1)) o1 H1) as (E1 & E2 & E3); [done|].
  split_and!; [done| |].
  - by rewrite (ev_max _ _ E1) in E2.
  - apply E3. unfold o1. cbn. apply insert_non_empty.
Qed.

Lemma monotone_key_spec key o : monotone_key key o = true <-> forall v m, ob_views o !! v = Some m -> v <= key.
Proof.
  unfold monotone_key. pose proof (map_iter_sorted (ob_views o)) as Hs.
  assert (forall v m, ob_views o !! v = Some m <-> (v, m) ∈ map_iter (ob_views o)) as Hin by (intros; by rewrite elem_of_map_iter).
  destruct (map_iter (ob_views o)) as [|p l _] eqn:Hi using rev_ind.
  - split; [|done]. intros _ v m Hv%Hin. by apply elem_of_nil in Hv.
  - rewrite last_snoc. destruct p as [newest msgs]. rewrite Z.leb_le. split.
    + intros Hle v m [Hv|[= -> ->]%list_elem_of_singleton]%Hin%elem_of_app; [|done].
      pose proof (StronglySorted_app_1_elem_of _ _ _ (v, m) (newest, msgs) Hs Hv ltac:(by left)) as Ho. cbn in Ho. lia.
    + intros Hall. apply (Hall newest msgs), Hin, elem_of_app. right. by left.
Qed.

Lemma prune_evicts floor o : outbox_ok o -> evicts o (prune_below floor o).
Proof.
  intros Ho. unfold prune_below. destruct (Z.leb_spec floor (ob_floor o)); [by apply evicts_refl|].
  pose proof (oo_floor _ Ho) as Hf. split; cbn; [split; cbn| |lia|]; [lia| | |done|].
  - rewrite (oo_total _ Ho).
    assert (HS : forall m : gmap View (list Bytes),
      map_sum (fun _ msgs => byte_len msgs) m =
      map_sum (fun _ msgs => byte_len msgs) (filter (fun p => p.1 < floor) m) +
      map_sum (fun _ msgs => byte_len msgs) (map_split_off floor m)).
    { intros m. induction m as [|v x m Hv IH] using map_ind.
      - unfold map_split_off. rewrite !map_filter_empty, !map_sum_empty. done.
      - rewrite map_sum_insert_None by done. unfold map_split_off in *. destruct (decide (v < floor)).
        + rewrite map_filter_insert_True by done. rewrite (map_filter_insert_False _ _ v) by (simpl; lia).
          rewrite map_sum_insert_None by (apply map_lookup_filter_None; by left).
          rewrite (delete_id m) by done. lia.
        + rewrite (map_filter_insert_False _ _ v) by (simpl; lia). rewrite map_filter_insert_True by (simpl; lia).
          rewrite map_sum_insert_None by (apply map_lookup_filter_None; by left).
          rewrite (delete_id m) by done. lia. }
    rewrite (HS (ob_views o)). lia.
  - intros v m. rewrite lookup_map_split_off. case_match; [|done]. intros Hv.
    pose proof (oo_key _ Ho _ _ Hv) as [? ?]. split; [lia|done].
  - intros v. rewrite lookup_map_split_off. repeat case_match; try done; lia.
Qed.

(** ** Runs *)

Inductive OutboxOp := ORecord (key : View) (bytes : Bytes) | OPrune (floor : View).

Definition outbox_exec (op : OutboxOp) (o : Outbox) : Outbox :=
  match op with ORecord key bytes => default o (record key bytes o) | OPrune floor => prune_below floor o end.

(** Own broadcasts are recorded at or above the floor and not below the newest view. *)
Definition outbox_op_ok (op : OutboxOp) (o : Outbox) : Prop :=
  match op with ORecord key _ => ob_floor o <= key < u64_max /\ monotone_key key o = true | OPrune _ => True end.

Lemma record_monotone key bytes o : monotone_key key o = true -> record key bytes o = Some (record_entry key bytes o).
Proof. unfold record. by intros ->. Qed.

(** The messages recorded under a view, in order. *)
Definition recorded (v : View) (ops : list OutboxOp) : list Bytes :=
  omap (fun op => match op with ORecord key bytes => if key =? v then Some bytes else None | OPrune _ => None end) ops.

Lemma recorded_app v ops ops' : recorded v (ops ++ ops') = recorded v ops ++ recorded v ops'.
Proof. apply omap_app. Qed.

Inductive outbox_run (m : Z) : list OutboxOp -> Outbox -> Prop :=
| outbox_start : outbox_run m [] (outbox_new m)
| outbox_step ops op o : outbox_run m ops o -> outbox_op_ok op o -> outbox_run m (ops ++ [op]) (outbox_exec op o).

Lemma outbox_run_inv m ops o :
  outbox_run m ops o ->
  max_bytes o = m /\ outbox_ok o /\
  (forall v, ob_floor o <= v -> default [] (ob_views o !! v) = recorded v ops).
Proof.
  intros Hr. induction Hr as [|ops op o _ (IH1 & IH2 & IH3) Hop].
  - split_and!; [done|apply outbox_ok_new|]. intros v _. cbn. by rewrite lookup_empty.
  - destruct op as [key bytes|floor]; cbn [outbox_exec outbox_op_ok] in *.
    + destruct Hop as [Hop Hm]. rewrite (record_monotone _ _ _ Hm). cbn [default].
      destruct (record_evicts key bytes o IH2 Hop) as ([E1 E2 E3 E4] & _). cbn in *.
      split_and!; [congruence|done|]. intros v Hv. rewrite E4, decide_True by done.
      rewrite recorded_app, <- (IH3 v) by lia. unfold recorded. cbn.
      destruct (Z.eqb_spec key v) as [->|Hne]; [by rewrite lookup_insert_eq|].
      by rewrite lookup_insert_ne, app_nil_r.
    + destruct (prune_evicts floor o IH2) as [E1 E2 E3 E4].
      split_and!; [congruence|done|]. intros v Hv. rewrite E4, decide_True by done.
      rewrite recorded_app. unfold recorded at 2. cbn. rewrite app_nil_r. apply IH3. lia.
Qed.

(** C34: the outbox is a bounded log.  After any sequence of recordings at or
    above the floor, under keys that do not decrease, and of prunings, each view at or
    above the floor holds exactly the messages recorded under it, in order, and no view
    below the floor is kept; the byte count is exact, so its subtractions never wrap; a
    recording succeeds exactly if no kept view is newer than its key, and after it the byte
    count exceeds the cap only if a single view is left, which is never evicted. *)
Theorem outbox_log m ops o :
  outbox_run m ops o ->
  max_bytes o = m /\ outbox_ok o /\
  (forall v, ob_floor o <= v -> default [] (ob_views o !! v) = recorded v ops) /\
  (forall v, v < ob_floor o -> ob_views o !! v = None) /\
  (forall key bytes, ob_floor o <= key < u64_max ->
    match record key bytes o with
    | Some o' => (forall v m', ob_views o !! v = Some m' -> v <= key) /\ (total_bytes o' <= m \/ (size (ob_views o') <= 1)%nat) /\ ob_views o' <> ∅
    | None => exists v m', ob_views o !! v = Some m' /\ key < v
    end).
Proof.
  intros Hr. destruct (outbox_run_inv _ _ _ Hr) as (H1 & H2 & H3). split_and!; try done.
  - intros v Hv. destruct (ob_views o !! v) eqn:Hl; [|done]. apply (oo_key _ H2) in Hl. lia.
  - intros key bytes Hop. unfold record. destruct (monotone_key key o) eqn:Hm; cbn [negb].
    + split; [by apply monotone_key_spec|]. destruct (record_evicts key bytes o H2 Hop) as (_ & E2 & E3). by rewrite H1 in E2.
    + unfold monotone_key in Hm. destruct (last (map_iter (ob_views o))) as [[v m']|] eqn:Hl; [|done].
      exists v, m'. apply Z.leb_gt in Hm. split; [|done]. apply elem_of_map_iter. by apply last_Some_elem_of.
Qed.

Definition outbox_ops : list OutboxOp :=
  [ORecord 1 [1; 2; 3]; ORecord 2 [4; 5]; ORecord 2 [6]; ORecord 4 [7; 8; 9]; OPrune 2].

Definition outbox_after (n : nat) : Outbox := foldl (fun o op => outbox_exec op o) (outbox_new 7) (take n outbox_ops).

Fixpoint ops_ok (ops : list OutboxOp) (o : Outbox) : Prop :=
  match ops with [] => True | op :: ops => outbox_op_ok op o /\ ops_ok ops (outbox_exec op o) end.

Lemma outbox_run_list m ops' o ops : outbox_run m ops' o -> ops_ok ops o ->
  outbox_run m (ops' ++ ops) (foldl (fun o op => outbox_exec op o) o ops).
Proof.
  revert ops' o. induction ops as [|op ops IH]; intros ops' o Hr Hok; [by rewrite app_nil_r|].
  destruct Hok as [H1 H2]. cbn [foldl]. rewrite cons_middle, (assoc_L (++)). apply IH; [by apply outbox_step|done].
Qed.

Lemma outbox_run_ops : outbox_run 7 outbox_ops (outbox_after 5).
Proof.
  apply (outbox_run_list 7 [] (outbox_new 7) outbox_ops (outbox_start 7)). unfold outbox_ops. cbn [ops_ok outbox_op_ok].
  repeat split; vm_compute; (reflexivity || discriminate).
Qed.

Lemma outbox_log_witness :
  ob_views (outbox_after 5) = {[ 2 := [[4; 5]; [6]]; 4 := [[7; 8; 9]] ]} /\
  record 3 [1] (outbox_after 5) = None /\
  default [] (ob_views (outbox_after 5) !! 2) = recorded 2 outbox_ops.
Proof.
  split; [apply map_eq; intros i; vm_compute; reflexivity|]. split; [vm_compute; reflexivity|].
  pose proof (outbox_log 7 outbox_ops (outbox_after 5) outbox_run_ops) as (_ & _ & H & _).
  refine (H 2 _). vm_compute. discriminate.
Defined.

(** ** Replay in pieces *)

Lemma take_groups_spec groups msgs end_key remaining :
  StronglySorted (fun p q : View * list Bytes => p.1 <= q.1) groups -> NoDup groups.*1 ->
  Forall (fun p : View * list Bytes => end_key <= p.1 /\ 0 <= p.1 < u64_max /\ p.2 <> []) groups -> 0 <= remaining ->
  let r := take_groups groups msgs end_key remaining in
  exists taken rest, groups = taken ++ rest /\ r.1.1 = msgs ++ mjoin taken.*2 /\
    (r.2 = true <-> rest = []) /\ end_key <= r.1.2 /\ (taken <> [] -> end_key < r.1.2) /\
    Forall (fun p : View * list Bytes => p.1 < r.1.2) taken /\
    Forall (fun p : View * list Bytes => r.1.2 <= p.1) rest /\
    (msgs = [] -> groups <> [] -> taken <> []) /\
    (byte_len (mjoin taken.*2) <= remaining \/
     (msgs = [] /\ exists p, head groups = Some p /\ byte_len (mjoin taken.*2) <= byte_len p.2)).
Proof.
  cbn zeta. revert msgs end_key remaining. induction groups as [|[k km] groups IH];
    intros msgs end_key remaining Hs Hnd Hf Hr; cbn [take_groups].
  { exists [], []. cbn. rewrite app_nil_r. split_and!; try done; try constructor; cbn; lia. }
  apply Forall_cons in Hf as [(Hk & Hkr & Hkm) Hf]. cbn [fst snd] in *.
  apply StronglySorted_inv in Hs as [Hs Hle]. cbn in Hnd. apply NoDup_cons in Hnd as [Hkn Hnd].
  destruct (negb (bool_decide (msgs = [])) && (remaining <? byte_len km)) eqn:Hcut.
  { apply andb_true_iff in Hcut as [Hm%negb_true_iff%bool_decide_eq_false _].
    exists [], ((k, km) :: groups). cbn. rewrite app_nil_r. split_and!; try done; try (by split); [|left; cbn; lia].
    constructor; [done|]. eapply Forall_impl; [exact Hf|]. by intros p (? & _). }
  rewrite (u64_add_small k 1) by lia.
  destruct (IH (msgs ++ km) (k + 1) (u64_saturating_sub remaining (byte_len km)) Hs Hnd)
    as (taken & rest & -> & R1 & R2 & R3 & _ & R5 & R6 & _ & R8).
  { apply Forall_forall. intros p Hp. rewrite Forall_forall in Hle, Hf.
    specialize (Hle _ Hp). destruct (Hf _ Hp) as (_ & ? & ?). split_and!; try done; try lia.
    assert (p.1 <> k); [|cbn in *; lia]. intros Heq. apply Hkn. rewrite <- Heq. apply list_elem_of_fmap. by exists p. }
  { unfold u64_saturating_sub. lia. }
  exists ((k, km) :: taken), rest.
  change (mjoin ((k, km) :: taken).*2) with (km ++ mjoin taken.*2).
  split_and!; try done; [by rewrite R1, <- (assoc_L (++))|lia|intros _; lia| |].
  - constructor; [cbn; lia|done].
  - rewrite byte_len_app. unfold u64_saturating_sub in R8.
    destruct R8 as [R8|[R8 _]]; [|destruct msgs, km; done].
    apply andb_false_iff in Hcut as [Hm%negb_false_iff%bool_decide_eq_true|Hm%Z.ltb_ge]; [|left; lia].
    destruct (Z.le_gt_cases (byte_len km) remaining); [left; lia|]. right. split; [done|].
    exists (k, km). split; [done|]. cbn [snd]. lia.
Qed.

Lemma filter_sorted {A} (R : A -> A -> Prop) (P : A -> Prop) `{!forall x, Decision (P x)} l :
  StronglySorted R l -> StronglySorted R (filter P l).
Proof.
  induction 1 as [|a l Hs IH Hf]; [constructor|]. rewrite filter_cons. case_decide; [|done].
  constructor; [done|]. apply Forall_forall. intros x [_ Hx]%list_elem_of_filter.
  rewrite Forall_forall in Hf. by apply Hf.
Qed.

Lemma filter_keys_NoDup {A B} (P : A * B -> Prop) `{!forall x, Decision (P x)} (l : list (A * B)) :
  NoDup l.*1 -> NoDup (filter P l).*1.
Proof.
  induction l as [|p l IH]; [constructor|]. cbn [fmap list_fmap]. intros [Hp Hnd]%NoDup_cons.
  rewrite filter_cons. case_decide; [|by apply IH]. cbn [fmap list_fmap]. constructor; [|by apply IH].
  intros (q & Hq & [_ Hin]%list_elem_of_filter)%list_elem_of_fmap. apply Hp, list_elem_of_fmap. by exists q.
Qed.

Lemma filter_split {A} (P : A -> Prop) `{!forall x, Decision (P x)} l l' :
  Forall P l -> Forall (fun x => ~ P x) l' -> filter P (l ++ l') = l.
Proof.
  intros Hl Hl'. rewrite filter_app. rewrite (filter_none P l') by (by rewrite Forall_forall in Hl').
  rewrite app_nil_r. induction Hl; [done|]. rewrite filter_cons_True by done. by f_equal.
Qed.

(** A replay read in pieces misses nothing.  A piece from view [from] is
    exactly the messages of the kept views from [from] up to its end, whole views
    in increasing order; it reports completion exactly when no kept view is left
    at or above its end, it always advances past the first kept view, and it
    exceeds the byte budget only by the first view. *)
Theorem slice_exact o from budget :
  outbox_ok o -> 0 <= budget ->
  let '(msgs, end_key, complete) := take_budgeted_slice from budget o in
  msgs = mjoin (filter (fun p => p.1 < end_key /\ from <= p.1) (map_iter (ob_views o))).*2 /\
  (complete = true <-> forall v m, ob_views o !! v = Some m -> from <= v -> v < end_key) /\
  from <= end_key /\
  (forall v m, ob_views o !! v = Some m -> from <= v -> from < end_key) /\
  (byte_len msgs <= budget \/
   exists v m, ob_views o !! v = Some m /\ from <= v /\ byte_len msgs <= byte_len m).
Proof.
  intros Ho Hb. unfold take_budgeted_slice, slice_from.
  set (groups := filter (fun p : View * list Bytes => from <= p.1) (map_iter (ob_views o))).
  assert (Hin : forall v m, (v, m) ∈ groups <-> ob_views o !! v = Some m /\ from <= v).
  { intros v m. unfold groups. rewrite list_elem_of_filter, elem_of_map_iter. simpl. tauto. }
  destruct (take_groups_spec groups [] from budget) as (taken & rest & Hg & R1 & R2 & R3 & R4 & R5 & R6 & R7 & R8).
  { apply filter_sorted. exact (map_iter_sorted (ob_views o)). }
  { apply filter_keys_NoDup, map_iter_NoDup. }
  { apply Forall_forall. intros [v m] [Hv Hle]%Hin. pose proof (oo_key _ Ho _ _ Hv) as [? ?].
    pose proof (oo_floor _ Ho). split_and!; [done|simpl; lia..|done]. }
  { done. }
  destruct (take_groups groups [] from budget) as [[msgs end_key] complete]. cbn [fst snd app] in *. subst msgs.
  split; [|split; [|split; [done|split]]].
  - rewrite <- (list_filter_filter (fun p : View * list Bytes => p.1 < end_key)). fold groups. rewrite Hg.
    rewrite filter_split; [done|done|]. eapply Forall_impl; [exact R6|]. simpl. intros. lia.
  - rewrite R2. split.
    + intros -> v m Hv Hle. rewrite app_nil_r in Hg. rewrite Forall_forall in R5.
      apply (R5 (v, m)). rewrite <- Hg. by apply Hin.
    + intros Hall. destruct rest as [|[v m] rest]; [done|].
      destruct (proj1 (Hin v m)) as [Hv Hle]; [rewrite Hg; set_solver|].
      apply Forall_cons in R6 as [Hge _]. specialize (Hall _ _ Hv Hle). simpl in Hge. lia.
  - intros v m Hv Hle. apply R4, R7; [done|]. intros Hnil.
    assert (Hx : (v, m) ∈ groups) by (by apply Hin). rewrite Hnil in Hx. by apply not_elem_of_nil in Hx.
  - destruct R8 as [?|(_ & [v m] & Hh & Hle)]; [by left|]. right. exists v, m.
    assert (Hx : (v, m) ∈ groups) by (destruct groups; [done|injection Hh as ->; left]).
    apply Hin in Hx as [? ?]. done.
Qed.

Lemma slice_exact_witness :
  take_budgeted_slice 0 4 (outbox_after 5) = ([[4; 5]; [6]], 3, false) /\
  0 <= 3 /\ (forall v m, ob_views (outbox_after 5) !! v = Some m -> 0 <= v -> 0 < 3).
Proof.
  split; [vm_compute; reflexivity|].
  assert (Hok : outbox_ok (outbox_after 5)).
  { apply (outbox_run_inv 7 outbox_ops (outbox_after 5) outbox_run_ops). }
  pose proof (slice_exact (outbox_after 5) 0 4 Hok ltac:(lia)) as Hs.
  assert (HE : take_budgeted_slice 0 4 (outbox_after 5) = ([[4; 5]; [6]], 3, false)) by (vm_compute; reflexivity).
  rewrite HE in Hs. destruct Hs as (_ & _ & H1 & H2 & _). split; [exact H1|exact H2].
Defined.
