(* ===== verification/Claim.v ===== *)
(** Positional availability claims.

    Models [src/primary/src/vantage/claim.rs]: the bitmap of tip claims, the
    list of short claims, the validation an echo's claim passes at the receiver
    ([AvailClaim::statements]), and the sender's construction
    [LaneManager::build_avail_claim_for_refs] of
    [src/primary/src/vantage/lanes.rs]. *)

From S2P Require Import Prelude Committee Types.

(** [len.div_ceil(64)] words of zeros. *)
Definition div_ceil_64 (len : nat) : nat := ((len + 63) / 64)%nat.

Definition with_capacity (len : nat) : AvailClaim :=
  mkAvailClaim (replicate (div_ceil_64 len) 0) [].

Definition set_at_tip (c : AvailClaim) (lane : nat) : AvailClaim :=
  let w := (lane / 64)%nat in
  let b := (lane mod 64)%nat in
  if decide (w < length (at_tip c))%nat then
    mkAvailClaim (alter (fun word => Z.lor word (Z.shiftl 1 (Z.of_nat b))) w (at_tip c)) (short c)
  else c.

Definition is_at_tip (c : AvailClaim) (lane : nat) : bool :=
  let w := (lane / 64)%nat in
  let b := (lane mod 64)%nat in
  match at_tip c !! w with
  | Some word => negb (Z.land word (Z.shiftl 1 (Z.of_nat b)) =? 0)
  | None => false
  end.

Definition u16_max : Z := 65535.

Definition push_short (c : AvailClaim) (lane : nat) (delta : Height) : AvailClaim * bool :=
  if (delta =? 0) || is_at_tip c lane || (Z.of_nat lane >? u16_max)
     || existsb (fun s => Z.to_nat (sc_lane s) =? lane)%nat (short c)
  then (c, false)
  else (mkAvailClaim (at_tip c) (short c ++ [mkShortClaim (Z.of_nat lane) delta]), true).

(** [!0u64 << used] on 64 bits. *)
Definition high_mask (used : Z) : Z := Z.shiftl (Z.ones 64) used mod 2 ^ 64.

(** The second loop of [statements]; [seen] is [seen_short]. *)
Fixpoint short_statements (c : AvailClaim) (refs : list BlockRef) (seen : gset nat)
    (l : list ShortClaim) : list ClaimRef :=
  match l with
  | [] => []
  | s :: l =>
      let j := Z.to_nat (sc_lane s) in
      match refs !! j with
      | None => short_statements c refs seen l
      | Some r =>
          if is_at_tip c j then short_statements c refs seen l
          else if bool_decide (j ∈ seen) then short_statements c refs seen l
          else
            let seen := {[ j ]} ∪ seen in
            if (sc_delta s =? 0) || (sc_delta s >=? ref_height r)
            then short_statements c refs seen l
            else Ancestor r (sc_delta s) :: short_statements c refs seen l
      end
  end.

Definition tip_statements (c : AvailClaim) (refs : list BlockRef) : list ClaimRef :=
  mjoin (imap (fun j r => if is_at_tip c j then [Exact r] else []) refs).

Definition statements (c : AvailClaim) (refs : list BlockRef) : list ClaimRef :=
  if negb (length (at_tip c) =? div_ceil_64 (length refs))%nat
     || (length refs <? length (short c))%nat then []
  else
    let used := (length refs mod 64)%nat in
    match last (at_tip c) with
    | Some word =>
        if negb (used =? 0)%nat && negb (Z.land word (high_mask (Z.of_nat used)) =? 0) then []
        else tip_statements c refs ++ short_statements c refs ∅ (short c)
    | None => tip_statements c refs ++ short_statements c refs ∅ (short c)
    end.

Definition manifest_refs (p : ViewProposal) : list BlockRef :=
  vp_c p ++ vp_t p ++
  match vp_m p with
  | Some (EntryFull _ c t) | Some (EntryCore _ c t) => c ++ t
  | Some (EntrySkip _) | None => []
  end.

Definition batch_manifest_refs (p : BatchViewProposal) : list BlockRef := bp_c p ++ bp_t p.

(** [LaneManager::build_avail_claim_for_refs]: [direct] is membership in
    [direct_pub_refs], [ancestor] is [greatest_direct_ancestor]. *)
Fixpoint build_from (direct : BlockRef -> bool) (ancestor : BlockRef -> option BlockRef)
    (j : nat) (refs : list BlockRef) (c : AvailClaim) : AvailClaim :=
  match refs with
  | [] => c
  | r :: refs =>
      let c :=
        if direct r then set_at_tip c j
        else
          match ancestor r with
          | Some a => (push_short c j (ref_height r - ref_height a)).1
          | None => c
          end in
      build_from direct ancestor (S j) refs c
  end.

Definition build_avail_claim_for_refs (direct : BlockRef -> bool)
    (ancestor : BlockRef -> option BlockRef) (refs : list BlockRef) : AvailClaim :=
  build_from direct ancestor 0 refs (with_capacity (length refs)).

(** ** The bitmap *)

Lemma testbit_one i : i <> 0 -> Z.testbit 1 i = false.
Proof.
  intros Hi. destruct (decide (i < 0)); [by apply Z.testbit_neg_r|].
  apply Z.bits_above_log2; simpl; lia.
Qed.

Lemma land_bit_testbit w b :
  0 <= b -> negb (Z.land w (Z.shiftl 1 b) =? 0) = Z.testbit w b.
Proof.
  intros Hb. destruct (Z.testbit w b) eqn:Ht.
  - apply negb_true_iff, Z.eqb_neq. intros H0.
    assert (Hf : Z.testbit (Z.land w (Z.shiftl 1 b)) b = false) by (rewrite H0; apply Z.bits_0).
    rewrite Z.land_spec, Ht, Z.shiftl_spec, Z.sub_diag in Hf by lia. done.
  - apply negb_false_iff, Z.eqb_eq. apply Z.bits_inj'. intros i Hi.
    rewrite Z.land_spec, Z.bits_0, Z.shiftl_spec by lia.
    destruct (decide (i = b)) as [->|]; [by rewrite Ht|].
    rewrite testbit_one by lia. apply andb_false_r.
Qed.

Lemma is_at_tip_testbit c lane :
  is_at_tip c lane =
  match at_tip c !! (lane / 64)%nat with
  | Some word => Z.testbit word (Z.of_nat (lane mod 64))
  | None => false
  end.
Proof. unfold is_at_tip. destruct (_ !! _); [|done]. apply land_bit_testbit. lia. Qed.

Lemma lane_split i j : (i / 64 = j / 64 -> i mod 64 = j mod 64 -> i = j)%nat.
Proof.
  intros Hd Hm. rewrite (Nat.div_mod_eq i 64), (Nat.div_mod_eq j 64), Hd, Hm. done.
Qed.

Lemma set_at_tip_length c i : length (at_tip (set_at_tip c i)) = length (at_tip c).
Proof. unfold set_at_tip. case_decide; [|done]. apply length_alter. Qed.

Lemma is_at_tip_set c i j :
  (i / 64 < length (at_tip c))%nat ->
  is_at_tip (set_at_tip c i) j = bool_decide (i = j) || is_at_tip c j.
Proof.
  intros Hi. rewrite !is_at_tip_testbit. unfold set_at_tip. rewrite decide_True by done.
  cbn [at_tip]. destruct (decide ((i / 64)%nat = (j / 64)%nat)) as [Heq|Hne].
  - rewrite <- Heq, list_lookup_alter_eq.
    destruct (lookup_lt_is_Some_2 _ _ Hi) as [w ->]. cbn [fmap option_fmap option_map].
    rewrite Z.lor_spec, Z.shiftl_spec by lia.
    destruct (bool_decide_reflect (i = j)) as [->|Hij].
    + rewrite Z.sub_diag. by rewrite orb_true_r.
    + cbn [orb]. assert (Hm : (i mod 64 <> j mod 64)%nat) by (intros ?; by apply Hij, lane_split).
      rewrite testbit_one; [by rewrite orb_false_r|].
      revert Hm. generalize (i mod 64)%nat, (j mod 64)%nat. intros. lia.
  - rewrite list_lookup_alter_ne by done.
    destruct (bool_decide_reflect (i = j)) as [->|]; done.
Qed.

Lemma is_at_tip_with_capacity n j : is_at_tip (with_capacity n) j = false.
Proof.
  rewrite is_at_tip_testbit. simpl. destruct (_ !! _) as [w|] eqn:Hw; [|done].
  apply lookup_replicate_1 in Hw as [-> _]. apply Z.bits_0.
Qed.

(** ** Validation of a received claim *)

(** A statement about position [j] of the reference vector. *)
Definition statement_at (c : AvailClaim) (refs : list BlockRef) (j : nat) (s : ClaimRef) : Prop :=
  exists r, refs !! j = Some r /\
  ((s = Exact r /\ is_at_tip c j = true) \/
   (exists delta, s = Ancestor r delta /\ is_at_tip c j = false /\ delta <> 0 /\
     delta < ref_height r)).

Lemma tip_statements_at c refs :
  exists l, tip_statements c refs = l.*2 /\ NoDup (l.*1) /\
  (forall j s, (j, s) ∈ l <-> exists r, refs !! j = Some r /\ s = Exact r /\ is_at_tip c j = true).
Proof.
  unfold tip_statements.
  assert (Hgen : forall k, exists l : list (nat * ClaimRef),
    mjoin (imap (fun j r => if is_at_tip c (k + j) then [Exact r] else []) refs) = l.*2 /\
    NoDup (l.*1) /\ (forall j s, (j, s) ∈ l <-> exists i r, j = (k + i)%nat /\
      refs !! i = Some r /\ s = Exact r /\ is_at_tip c j = true)); [|].
  { induction refs as [|r refs IH]; intros k.
    { exists []. split_and!; [done|constructor|]. intros j s. split; [set_solver|].
      intros (? & ? & _ & ? & _). done. }
    destruct (IH (S k)) as (l & Hl & Hnd & Hin).
    set (here := if is_at_tip c k then [(k, Exact r)] else []).
    exists (here ++ l). rewrite imap_cons. cbn [mjoin list_join]. rewrite Nat.add_0_r.
    split_and!.
    - rewrite fmap_app. f_equal; [unfold here; by destruct (is_at_tip c k)|].
      rewrite <- Hl. f_equal. apply imap_ext. intros i x _. simpl.
      by rewrite Nat.add_succ_r.
    - rewrite fmap_app. apply NoDup_app. split_and!; [|intros x Hx Hx'|done].
      + unfold here. destruct (is_at_tip c k); simpl; [apply NoDup_singleton|constructor].
      + assert (x = k) as ->.
        { unfold here in Hx. destruct (is_at_tip c k); set_solver. }
        apply list_elem_of_fmap in Hx' as ([j s] & -> & Hjs).
        apply Hin in Hjs as (i & r' & Hj & _). simpl in Hj. lia.
    - intros j s. rewrite elem_of_app, Hin. split.
      + intros [Hh|(i & r' & -> & Hi & Hs)].
        * unfold here in Hh. destruct (is_at_tip c k) eqn:Hk; [|set_solver].
          apply list_elem_of_singleton in Hh as [= -> ->].
          exists 0%nat, r. rewrite Nat.add_0_r. done.
        * exists (S i), r'. rewrite Nat.add_succ_r. done.
      + intros (i & r' & -> & Hi & -> & Ht). destruct i as [|i]; simpl in Hi.
        * left. injection Hi as ->. rewrite Nat.add_0_r in *. unfold here. rewrite Ht.
          set_solver.
        * right. exists i, r'. rewrite Nat.add_succ_r in *. done. }
  destruct (Hgen 0%nat) as (l & Hl & Hnd & Hin). exists l. split_and!; [done|done|].
  intros j s. rewrite Hin. split.
  - intros (i & r & -> & Hr). eauto.
  - intros (r & Hr). eauto.
Qed.

Lemma short_statements_at c refs seen l :
  exists k, short_statements c refs seen l = k.*2 /\ NoDup (k.*1) /\
  (forall j s, (j, s) ∈ k -> (j ∉ seen) /\ (exists r delta, refs !! j = Some r /\
    s = Ancestor r delta /\ is_at_tip c j = false /\ delta <> 0 /\ delta < ref_height r)).
Proof.
  revert seen. induction l as [|s l IH]; intros seen.
  { exists []. split_and!; [done|constructor|set_solver]. }
  cbn [short_statements]. generalize (Z.to_nat (sc_lane s)). intros j.
  destruct (refs !! j) as [r|] eqn:Hr; [|apply IH].
  destruct (is_at_tip c j) eqn:Ht; [apply IH|].
  destruct (bool_decide_reflect (j ∈ seen)) as [|Hseen]; [apply IH|].
  destruct (IH ({[ j ]} ∪ seen)) as (k & Hk & Hnd & Hin).
  destruct ((sc_delta s =? 0) || (sc_delta s >=? ref_height r)) eqn:Hd.
  - exists k. split_and!; [done..|]. intros i x Hix. destruct (Hin i x Hix) as [Hi ?].
    split; [set_solver|done].
  - exists ((j, Ancestor r (sc_delta s)) :: k). rewrite !fmap_cons, <- Hk. split_and!; [done| |].
    + constructor; [|done]. intros ([i x] & Heq & Hix)%list_elem_of_fmap. simpl in Heq.
      destruct (Hin i x Hix) as [Hi _]. set_solver.
    + intros i x [[= -> ->]|Hix]%elem_of_cons.
      * apply orb_false_iff in Hd as [Hd0 Hdh]. split; [done|].
        exists r, (sc_delta s). split_and!; [done..|apply Z.eqb_neq; done|]. lia.
      * destruct (Hin i x Hix) as [Hi ?]. split; [set_solver|done].
Qed.

(** whatever bytes a peer sends, [AvailClaim::statements] yields at most one
    statement per position of the proposal's reference vector; each is an exact
    claim of the reference whose bit is set, or an ancestor claim, at a
    distance strictly between zero and the reference's height, of a reference
    whose bit is clear. *)
Theorem statements_sound c refs :
  exists l, statements c refs = l.*2 /\ NoDup (l.*1) /\
  (forall j s, (j, s) ∈ l -> statement_at c refs j s) /\
  (length (statements c refs) <= length refs)%nat.
Proof.
  assert (Hall : exists l, tip_statements c refs ++ short_statements c refs ∅ (short c) = l.*2 /\
    NoDup (l.*1) /\ forall j s, (j, s) ∈ l -> statement_at c refs j s).
  { destruct (tip_statements_at c refs) as (l1 & -> & Hnd1 & Hin1).
    destruct (short_statements_at c refs ∅ (short c)) as (l2 & -> & Hnd2 & Hin2).
    exists (l1 ++ l2). rewrite !fmap_app. split_and!; [done| |].
    - apply NoDup_app. split_and!; [done| |done].
      intros j ([i1 s1] & -> & H1)%list_elem_of_fmap ([i2 s2] & Heq & H2)%list_elem_of_fmap.
      simpl in Heq. subst i2. apply Hin1 in H1 as (? & _ & _ & Ht).
      apply Hin2 in H2 as (_ & ? & ? & _ & _ & Hf & _). congruence.
    - intros j s [H1|H2]%elem_of_app.
      + apply Hin1 in H1 as (r & ? & ? & ?). exists r. eauto.
      + apply Hin2 in H2 as (_ & r & d & ? & ? & ? & ?). exists r. eauto 10. }
  assert (Hres : exists l, statements c refs = l.*2 /\ NoDup (l.*1) /\
    forall j s, (j, s) ∈ l -> statement_at c refs j s).
  { assert (Hnil : exists l : list (nat * ClaimRef), [] = l.*2 /\ NoDup (l.*1) /\
      forall j s, (j, s) ∈ l -> statement_at c refs j s).
    { exists []. split_and!; [done|constructor|set_solver]. }
    unfold statements. destruct (_ || _); [done|].
    destruct (last (at_tip c)); [destruct (_ && _)|]; done. }
  destruct Hres as (l & Heq & Hnd & Hin). exists l. split_and!; try done.
  rewrite Heq, length_fmap, <- (length_fmap fst).
  rewrite <- (length_seq (length refs) 0). apply submseteq_length, NoDup_submseteq; [done|].
  intros j ([i s] & -> & His)%list_elem_of_fmap. apply elem_of_seq.
  destruct (Hin i s His) as (r & Hr & _). apply lookup_lt_Some in Hr. simpl. lia.
Qed.

(** ** Claims built by a correct party survive validation *)

Section build.
Context (direct : BlockRef -> bool) (ancestor : BlockRef -> option BlockRef).
(** [greatest_direct_ancestor] returns a strict ancestor, never genesis. *)
Context (ancestor_below : forall r a, ancestor r = Some a ->
  1 <= ref_height a < ref_height r).

(** The claim a party makes about one reference. *)
Definition expected_short (r : BlockRef) : option Height :=
  if direct r then None else (fun a => ref_height r - ref_height a) <$> ancestor r.

Definition expected_statements (refs : list BlockRef) : list ClaimRef :=
  (Exact <$> filter (fun r => direct r = true) refs) ++
  omap (fun r => Ancestor r <$> expected_short r) refs.

Definition shorts_from (j : nat) (refs : list BlockRef) : list ShortClaim :=
  mjoin (imap (fun i r =>
    match expected_short r with
    | Some d => [mkShortClaim (Z.of_nat (j + i)) d]
    | None => []
    end) refs).

Lemma shorts_from_cons j r refs :
  shorts_from j (r :: refs) =
  match expected_short r with
  | Some d => [mkShortClaim (Z.of_nat j) d] | None => []
  end ++ shorts_from (S j) refs.
Proof.
  unfold shorts_from. rewrite imap_cons. cbn [mjoin list_join]. rewrite Nat.add_0_r. f_equal.
  f_equal. apply imap_ext. intros i x _. simpl. by rewrite Nat.add_succ_r.
Qed.

(** What [build_from] has established after [done] references. *)
Record build_inv (words : nat) (done : list BlockRef) (c : AvailClaim) : Prop := {
  bi_words : length (at_tip c) = words;
  bi_bits i : is_at_tip c i = match done !! i with Some r => direct r | None => false end;
  bi_short : forall s, s ∈ short c -> 0 <= sc_lane s < Z.of_nat (length done);
}.

Lemma is_at_tip_push_short c j d i : is_at_tip (push_short c j d).1 i = is_at_tip c i.
Proof. unfold push_short. by destruct (_ || _). Qed.

(** Pushing the next lane of a claim under construction always succeeds. *)
Lemma push_short_next words done c d :
  build_inv words done c -> Z.of_nat (length done) <= u16_max -> d <> 0 ->
  (push_short c (length done) d).1 =
  mkAvailClaim (at_tip c) (short c ++ [mkShortClaim (Z.of_nat (length done)) d]).
Proof.
  intros [_ Hb Hs] Hlen Hd. unfold push_short. rewrite Hb.
  rewrite lookup_ge_None_2 by done. rewrite (proj2 (Z.eqb_neq d 0)) by done.
  rewrite Z.gtb_ltb. rewrite (proj2 (Z.ltb_ge _ _)) by done. simpl.
  destruct (existsb _ _) eqn:He; [|done].
  apply existsb_exists in He as (s & Hin & Heq).
  apply list_elem_of_In in Hin. apply Nat.eqb_eq in Heq. specialize (Hs s Hin). lia.
Qed.

Lemma build_inv_snoc words done c r :
  build_inv words done c -> Z.of_nat (length done) <= u16_max ->
  (length done / 64 < words)%nat ->
  exists c',
    (if direct r then set_at_tip c (length done)
     else match ancestor r with
          | Some a => (push_short c (length done) (ref_height r - ref_height a)).1
          | None => c
          end) = c' /\
    build_inv words (done ++ [r]) c' /\
    short c' = short c ++ match expected_short r with
                          | Some d => [mkShortClaim (Z.of_nat (length done)) d] | None => []
                          end.
Proof.
  intros Hinv Hlen Hw. pose proof Hinv as [Hwords Hb Hs].
  assert (Hbit : forall i, match (done ++ [r]) !! i with
      Some r => direct r | None => false end =
    (bool_decide (length done = i) && direct r) ||
      match done !! i with Some r => direct r | None => false end).
  { intros i. destruct (decide (i < length done)%nat).
    - rewrite lookup_app_l, bool_decide_eq_false_2 by lia. done.
    - rewrite lookup_app_r, (lookup_ge_None_2 done) by lia.
      destruct (bool_decide_reflect (length done = i)) as [<-|].
      + rewrite Nat.sub_diag. simpl. by rewrite orb_false_r.
      + rewrite lookup_ge_None_2 by (simpl; lia). done. }
  unfold expected_short. destruct (direct r) eqn:Hd.
  - eexists. split_and!; [done|split|].
    + by rewrite set_at_tip_length.
    + intros i. rewrite is_at_tip_set by lia. by rewrite Hb, Hbit, andb_true_r.
    + unfold set_at_tip. rewrite length_app. simpl. case_decide; intros s Hin;
        specialize (Hs s Hin); lia.
    + unfold set_at_tip. case_decide; by rewrite app_nil_r.
  - destruct (ancestor r) as [a|] eqn:Ha; simpl.
    + specialize (ancestor_below r a Ha).
      rewrite (push_short_next words) by (done || lia). eexists. split_and!; [done|split|done].
      * done.
      * intros i. by rewrite Hbit, andb_false_r, <- Hb.
      * simpl. rewrite length_app. simpl. intros s [Hin| ->%list_elem_of_singleton]%elem_of_app.
        -- specialize (Hs s Hin). lia.
        -- simpl. lia.
    + exists c. rewrite app_nil_r. split_and!; [done|split|done].
      * done.
      * intros i. by rewrite Hbit, andb_false_r, <- Hb.
      * rewrite length_app. intros s Hin. specialize (Hs s Hin). lia.
Qed.

Lemma build_from_inv words refs done c :
  build_inv words done c -> Z.of_nat (length (done ++ refs)) <= u16_max + 1 ->
  (length (done ++ refs) <= 64 * words)%nat ->
  build_inv words (done ++ refs) (build_from direct ancestor (length done) refs c) /\
  short (build_from direct ancestor (length done) refs c) =
    short c ++ shorts_from (length done) refs.
Proof.
  revert done c. induction refs as [|r refs IH]; intros done c Hinv Hlen Hw.
  { by rewrite !app_nil_r. }
  rewrite !length_app in *. cbn [length] in *.
  destruct (build_inv_snoc words done c r) as (c' & Hc' & Hinv' & Hshort); [done|lia| |].
  { apply Nat.Div0.div_lt_upper_bound. lia. }
  cbn [build_from]. rewrite Hc'.
  destruct (IH (done ++ [r]) c') as [Hi Hs]; [done|rewrite !length_app; simpl; lia..|].
  rewrite !length_app in *. cbn [length] in *. rewrite Nat.add_1_r in *.
  rewrite <- (assoc_L (++)) in *. split; [done|].
  rewrite Hs, Hshort, shorts_from_cons. by rewrite <- (assoc_L (++)).
Qed.

Lemma tip_statements_built c refs :
  (forall i r, refs !! i = Some r -> is_at_tip c i = direct r) ->
  tip_statements c refs = Exact <$> filter (fun r => direct r = true) refs.
Proof.
  intros Hb. unfold tip_statements.
  rewrite (imap_ext _ (fun _ r => if direct r then [Exact r] else [])).
  2: { intros i r Hr. by rewrite (Hb i r Hr). }
  clear Hb. induction refs as [|r refs IH]; [done|].
  rewrite imap_cons, filter_cons. cbn [mjoin list_join]. unfold compose. cbn beta.
  etransitivity; [apply f_equal; exact IH|].
  destruct (direct r) eqn:Hd; [by rewrite decide_True|by rewrite decide_False].
Qed.

Lemma short_statements_built c pre refs seen :
  (forall i r, (pre ++ refs) !! i = Some r -> is_at_tip c i = direct r) ->
  (forall i, i ∈ seen -> (i < length pre)%nat) ->
  short_statements c (pre ++ refs) seen (shorts_from (length pre) refs) =
  omap (fun r => Ancestor r <$> expected_short r) refs.
Proof.
  revert pre seen. induction refs as [|r refs IH]; intros pre seen Hb Hseen; [done|].
  rewrite shorts_from_cons. specialize (IH (pre ++ [r])).
  rewrite <- (assoc_L (++)), length_app in IH. cbn [length app] in IH.
  rewrite Nat.add_1_r in IH. cbn [omap list_omap].
  destruct (expected_short r) as [d|] eqn:He; cbn [fmap option_fmap option_map].
  2: { cbn [app]. rewrite IH; [done..|]. intros i Hi. specialize (Hseen i Hi). lia. }
  assert (Hr : (pre ++ r :: refs) !! length pre = Some r).
  { by rewrite list_lookup_middle. }
  assert (d <> 0 /\ d < ref_height r /\ direct r = false) as (Hd0 & Hdh & Hdir).
  { unfold expected_short in He. destruct (direct r); [done|].
    destruct (ancestor r) as [a|] eqn:Ha; [|done]. simpl in He. injection He as <-.
    specialize (ancestor_below r a Ha). lia. }
  cbn [app short_statements sc_lane sc_delta]. rewrite Nat2Z.id, Hr, (Hb _ _ Hr), Hdir.
  rewrite bool_decide_eq_false_2 by (intros Hin; specialize (Hseen _ Hin); lia).
  rewrite (proj2 (Z.eqb_neq d 0)) by done. rewrite Z.geb_leb, (proj2 (Z.leb_gt _ _)) by done.
  cbn [orb]. rewrite IH; [done..|].
  intros i [->%elem_of_singleton|Hi]%elem_of_union; [lia|]. specialize (Hseen i Hi). lia.
Qed.

Lemma high_bits_clear c (refs : list BlockRef) word :
  length (at_tip c) = div_ceil_64 (length refs) ->
  (forall i, (length refs <= i)%nat -> is_at_tip c i = false) ->
  last (at_tip c) = Some word -> (length refs mod 64 <> 0)%nat ->
  Z.land word (high_mask (Z.of_nat (length refs mod 64))) = 0.
Proof.
  intros Hlen Hb Hlast Hused. rewrite last_lookup in Hlast.
  set (n := length refs) in *. set (used := (n mod 64)%nat) in *.
  assert (Hw : Nat.pred (length (at_tip c)) = (n / 64)%nat).
  { rewrite Hlen. unfold div_ceil_64.
    replace (n + 63)%nat with ((n / 64 + 1) * 64 + (used - 1))%nat.
    - assert (used < 64)%nat by (apply Nat.mod_upper_bound; lia).
      rewrite Nat.div_add_l, (Nat.div_small (used - 1)) by lia. lia.
    - pose proof (Nat.div_mod_eq n 64). unfold used in *. lia. }
  rewrite Hw in Hlast. apply Z.bits_inj'. intros b Hb0.
  rewrite Z.land_spec, Z.bits_0. unfold high_mask.
  destruct (decide (64 <= b)).
  { rewrite (Z.mod_pow2_bits_high _ 64) by lia. apply andb_false_r. }
  rewrite Z.mod_pow2_bits_low, Z.shiftl_spec by lia.
  destruct (decide (b < Z.of_nat used)).
  { rewrite (Z.testbit_neg_r (Z.ones 64)) by lia. apply andb_false_r. }
  specialize (Hb (64 * (n / 64) + Z.to_nat b)%nat).
  rewrite is_at_tip_testbit in Hb. rewrite (Nat.mul_comm 64) in Hb.
  rewrite Nat.div_add_l, (Nat.div_small (Z.to_nat b)), Nat.add_0_r, Hlast in Hb by lia.
  rewrite Nat.add_comm, Nat.Div0.mod_add, Nat.mod_small, Z2Nat.id in Hb by lia.
  rewrite Hb; [done|]. pose proof (Nat.div_mod_eq n 64). lia.
Qed.

Lemma length_shorts_from j refs : (length (shorts_from j refs) <= length refs)%nat.
Proof.
  revert j. induction refs as [|r refs IH]; intros j; [done|].
  rewrite shorts_from_cons, length_app. specialize (IH (S j)).
  destruct (expected_short r); simpl; lia.
Qed.
End build.

(** For any reference vector of at most 65,536 entries and any ancestors of lower positive height, what the
    receiver's [AvailClaim::statements] extracts from the claim that [build_avail_claim_for_refs] produced is one
    statement per reference the sender can support, in order; none is lost to validation.  [LaneClaims] instantiates
    it with the registers of the lane manager. *)
Lemma claim_roundtrip direct ancestor refs :
  (forall r a, ancestor r = Some a -> 1 <= ref_height a < ref_height r) ->
  Z.of_nat (length refs) <= u16_max + 1 ->
  statements (build_avail_claim_for_refs direct ancestor refs) refs =
  expected_statements direct ancestor refs.
Proof.
  intros Hanc Hlen. unfold build_avail_claim_for_refs.
  assert (Hcap : (length refs <= 64 * div_ceil_64 (length refs))%nat).
  { unfold div_ceil_64. pose proof (Nat.div_mod_eq (length refs + 63) 64).
    pose proof (Nat.mod_upper_bound (length refs + 63) 64). lia. }
  destruct (build_from_inv direct ancestor Hanc (div_ceil_64 (length refs)) refs []
    (with_capacity (length refs))) as [[Hwords Hbits _] Hshort]; [|done..|].
  { split; [apply length_replicate|apply is_at_tip_with_capacity|]. set_solver. }
  change (length (A:=BlockRef) []) with 0%nat in *. cbn [app] in *.
  set (c := build_from _ _ _ _ _) in *. cbn [with_capacity short app] in Hshort.
  assert (Hok : tip_statements c refs ++ short_statements c refs ∅ (short c) =
    expected_statements direct ancestor refs).
  { unfold expected_statements. rewrite (tip_statements_built direct).
    2: { intros i r Hr. by rewrite Hbits, Hr. }
    f_equal. rewrite Hshort. apply (short_statements_built direct ancestor Hanc c []).
    - intros i r Hr. simpl in Hr. by rewrite Hbits, Hr.
    - set_solver. }
  unfold statements. rewrite Hwords, Nat.eqb_refl. cbn [negb orb].
  rewrite Hshort, (proj2 (Nat.ltb_ge _ _)) by apply length_shorts_from.
  rewrite <- Hshort. destruct (last (at_tip c)) as [word|] eqn:Hlast; [|done].
  destruct (Nat.eqb_spec (length refs mod 64) 0) as [|Hne]; [done|]. cbn [negb andb].
  rewrite (high_bits_clear c refs word); [done..| |done|done].
  intros i Hi. by rewrite Hbits, lookup_ge_None_2.
Qed.

Lemma claim_roundtrip_witness :
  let refs := [(10, 5, 1); (20, 7, 2); (30, 3, 3)] in
  let direct := fun r : BlockRef => bool_decide (r = (10, 5, 1)) in
  let ancestor := fun r : BlockRef =>
    if bool_decide (r = (20, 7, 2)) then Some (20, 4, 9) else None in
  statements (build_avail_claim_for_refs direct ancestor refs) refs =
    [Exact (10, 5, 1); Ancestor (20, 7, 2) 3].
Proof.
  intros refs direct ancestor. rewrite (claim_roundtrip direct ancestor refs).
  - vm_compute. reflexivity.
  - intros r a. unfold ancestor. case_bool_decide as H; [|discriminate].
    intros [= <-]. subst r. vm_compute. split; [discriminate|reflexivity].
  - vm_compute. discriminate.
Defined.
