(* ===== verification/Acks.v ===== *)
(** Acknowledgement aggregation.

    Models [AckThreshold], [AckAggregator] and [aggregate_received_ack] of
    [src/primary/src/vantage/lanes.rs]: for each exact block reference the
    distinct committee senders that acknowledged it are counted by stake, and
    crossing the validity and the quorum threshold is reported once each.  The
    census of a reference is dropped once its quorum is reached.  [ByRef] and
    [MemberSet] are the map and the set [IndexRefine] shows them to be. *)

From S2P Require Import Prelude Committee Types Index.

Inductive AckThreshold := Validity | Quorum.

#[export] Instance AckThreshold_eq_dec : EqDecision AckThreshold.
Proof. solve_decision. Defined.

(** The derived order: [Validity < Quorum]. *)
Definition threshold_lt (a b : AckThreshold) : bool :=
  match a, b with Validity, Quorum => true | _, _ => false end.
Definition threshold_le (a b : AckThreshold) : bool :=
  match a, b with Quorum, Validity => false | _, _ => true end.

Record AckAvailability := mkAckAvailability {
  av_reference : BlockRef;
  av_threshold : AckThreshold;
}.

Record AckAggregationResult := mkAckResult {
  accepted : bool;
  availability : option AckAvailability;
}.

Record AckCensus := mkAckCensus { ac_senders : gset PublicKey; ac_weight : Stake }.

Definition census_default : AckCensus := mkAckCensus ∅ 0.

Record AckPosition := mkAckPosition {
  ap_census : option AckCensus;
  ap_emitted : option AckThreshold;
}.

Definition position_default : AckPosition := mkAckPosition None None.

Record AckAggregator := mkAckAggregator {
  aa_committee : Committee;
  aa_positions : gmap BlockRef AckPosition;
  aa_tracked : Z;
  aa_retired : Z;
}.

Definition aggregator_new (c : Committee) : AckAggregator := mkAckAggregator c ∅ 0 0.

(** [crossed] for the weight reached. *)
Definition crossed (c : Committee) (weight : Stake) : option AckThreshold :=
  if quorum_threshold c <=? weight then Some Quorum
  else if validity_threshold c <=? weight then Some Validity
  else None.

(** [crossed.filter(|t| emitted.is_none_or(|old| old < t))]. *)
Definition fresh_threshold (emitted crossed : option AckThreshold) : option AckThreshold :=
  match crossed, emitted with
  | Some t, Some old => if threshold_lt old t then Some t else None
  | _, None => crossed
  | None, _ => None
  end.

Definition record_ack (sender : PublicKey) (reference : BlockRef) (a : AckAggregator)
    : AckAggregationResult * AckAggregator :=
  let c := aa_committee a in
  if negb (is_member c sender) then (mkAckResult false None, a)
  else
    let w := stake c sender in
    let position := default position_default (aa_positions a !! reference) in
    let put p := <[ reference := p ]> (aa_positions a) in
    let unchanged := (mkAckResult true None,
      mkAckAggregator c (put position) (aa_tracked a) (aa_retired a)) in
    if bool_decide (ap_emitted position = Some Quorum) then unchanged
    else
      let opened := bool_decide (ap_census position = None) in
      let census := default census_default (ap_census position) in
      if bool_decide (sender ∈ ac_senders census) then
        (mkAckResult true None,
         mkAckAggregator c (put (mkAckPosition (Some census) (ap_emitted position)))
           (aa_tracked a) (aa_retired a))
      else
        let census := mkAckCensus ({[ sender ]} ∪ ac_senders census) (u32_add (ac_weight census) w) in
        let emit := fresh_threshold (ap_emitted position) (crossed c (ac_weight census)) in
        let first := bool_decide (is_Some emit) && bool_decide (ap_emitted position = None) in
        let retired_census := bool_decide (emit = Some Quorum) in
        let position' := mkAckPosition (if retired_census then None else Some census)
          (match emit with Some t => Some t | None => ap_emitted position end) in
        (mkAckResult true (mkAckAvailability reference <$> emit),
         mkAckAggregator c (put position')
           (aa_tracked a + indicator opened - indicator retired_census)
           (aa_retired a + indicator first)).

Definition will_count (sender : PublicKey) (reference : BlockRef) (a : AckAggregator) : bool :=
  if negb (is_member (aa_committee a) sender) then false
  else
    match aa_positions a !! reference with
    | None => true
    | Some p =>
        bool_decide (ap_emitted p <> Some Quorum) &&
        negb (match ap_census p with Some x => bool_decide (sender ∈ ac_senders x) | None => false end)
    end.

Definition agg_is_at_quorum (reference : BlockRef) (a : AckAggregator) : bool :=
  match aa_positions a !! reference with
  | Some p => bool_decide (ap_emitted p = Some Quorum)
  | None => false
  end.

Definition has_census (p : AckPosition) : Z := indicator (bool_decide (is_Some (ap_census p))).
Definition has_emitted (p : AckPosition) : Z := indicator (bool_decide (is_Some (ap_emitted p))).

(** The loop over [drain_author]: one subtraction per drained position. *)
Definition agg_reset_author (author : PublicKey) (a : AckAggregator) : AckAggregator :=
  let drained := (filter (fun p => ref_author p.1 = author) (map_to_list (aa_positions a))).*2 in
  foldl (fun a p => mkAckAggregator (aa_committee a) (aa_positions a)
      (aa_tracked a - has_census p) (aa_retired a - has_emitted p))
    (mkAckAggregator (aa_committee a) (filter (fun p => ref_author p.1 <> author) (aa_positions a))
       (aa_tracked a) (aa_retired a))
    drained.

(** [aggregate_received_ack], without the counters of [Metrics]. *)
Definition aggregate_received_ack (a : Ack) (g : AckAggregator) : option AckAvailability * AckAggregator :=
  let r := record_ack (ack_sender a) (ack_reference a) g in
  (if accepted r.1 then availability r.1 else None, r.2).

(** ** What was heard *)

Inductive AckOp :=
  | AckRecord (sender : PublicKey) (reference : BlockRef)
  | AckReset (author : PublicKey).

Definition ack_exec (a : AckAggregator) (op : AckOp) : AckAggregator :=
  match op with
  | AckRecord s r => (record_ack s r a).2
  | AckReset k => agg_reset_author k a
  end.

Definition ack_run (c : Committee) (ops : list AckOp) : AckAggregator := foldl ack_exec (aggregator_new c) ops.

(** The committee members that acknowledged [r] since its author was reset. *)
Definition heard_step (c : Committee) (r : BlockRef) (X : gset PublicKey) (op : AckOp) : gset PublicKey :=
  match op with
  | AckRecord s r' => if is_member c s && bool_decide (r' = r) then {[ s ]} ∪ X else X
  | AckReset k => if bool_decide (ref_author r = k) then ∅ else X
  end.
Definition heard (c : Committee) (ops : list AckOp) (r : BlockRef) : gset PublicKey :=
  foldl (heard_step c r) ∅ ops.

(** The threshold the stake of the members heard reaches. *)
Definition reached (c : Committee) (X : gset PublicKey) : option AckThreshold :=
  if bool_decide (X = ∅) then None else crossed c (stake_of c X).

Section exact.
Context (c : Committee) (Hok : committee_ok c).

(** The position a set of heard members leaves. *)
Definition expected_position (X : gset PublicKey) : AckPosition :=
  mkAckPosition
    (if bool_decide (X = ∅) || bool_decide (reached c X = Some Quorum) then None
     else Some (mkAckCensus X (stake_of c X)))
    (reached c X).

Lemma stake_of_add s X : s ∉ X -> stake_of c ({[ s ]} ∪ X) = stake c s + stake_of c X.
Proof.
  intros Hs. unfold stake_of. rewrite set_sum_disj_union by set_solver.
  f_equal. unfold set_sum. rewrite set_fold_singleton. lia.
Qed.

Lemma reached_add s X :
  reached c ({[ s ]} ∪ X) = crossed c (stake_of c ({[ s ]} ∪ X)).
Proof. unfold reached. rewrite bool_decide_false; [done|set_solver]. Qed.

Lemma crossed_mono w w' :
  w <= w' -> match crossed c w with
    | Some Quorum => crossed c w' = Some Quorum
    | Some Validity => crossed c w' <> None
    | None => True
    end.
Proof.
  intros Hw. unfold crossed.
  destruct (Z.leb_spec (quorum_threshold c) w); [by rewrite (proj2 (Z.leb_le _ w')) by lia|].
  destruct (Z.leb_spec (validity_threshold c) w); [|done].
  rewrite (proj2 (Z.leb_le (validity_threshold c) w')) by lia. by destruct (_ <=? _).
Qed.
Lemma stake_of_range X : 0 <= stake_of c X <= u32_max.
Proof.
  split.
  - unfold stake_of. rewrite <- (set_sum_empty (stake c)).
    apply set_sum_mono; [by apply stake_nonneg|set_solver].
  - pose proof (stake_of_le c Hok X). pose proof (total_votes_bounds c Hok). lia.
Qed.

(** Adding a member reports the threshold exactly when it changes. *)
Lemma fresh_threshold_reached s X :
  s ∉ X -> reached c X <> Some Quorum ->
  fresh_threshold (reached c X) (crossed c (stake_of c ({[ s ]} ∪ X))) =
  (if bool_decide (reached c ({[ s ]} ∪ X) = reached c X) then None else reached c ({[ s ]} ∪ X)).
Proof.
  intros Hs HX. rewrite reached_add.
  assert (stake_of c X <= stake_of c ({[ s ]} ∪ X)) as Hle.
  { rewrite stake_of_add by done. pose proof (stake_nonneg c Hok s). lia. }
  pose proof (crossed_mono _ _ Hle) as Hm. unfold fresh_threshold, reached in *.
  destruct (bool_decide (X = ∅)).
  - destruct (crossed c (stake_of c ({[ s ]} ∪ X))) as [[]|]; case_bool_decide; congruence.
  - destruct (crossed c (stake_of c X)) as [[]|]; [|done|];
      destruct (crossed c (stake_of c ({[ s ]} ∪ X))) as [[]|]; cbn; case_bool_decide; congruence.
Qed.

Record agg_inv (ops : list AckOp) (a : AckAggregator) : Prop := {
  agg_committee : aa_committee a = c;
  agg_positions : forall r,
    default position_default (aa_positions a !! r) = expected_position (heard c ops r);
  agg_tracked : aa_tracked a = map_sum (fun _ => has_census) (aa_positions a);
  agg_retired : aa_retired a = map_sum (fun _ => has_emitted) (aa_positions a);
}.

Lemma expected_empty : expected_position ∅ = position_default.
Proof. unfold expected_position, reached. by rewrite bool_decide_true. Qed.

(** Writing one position keeps the counters when they move by the difference. *)
Lemma agg_put r p a t u X :
  default position_default (aa_positions a !! r) = X ->
  aa_tracked a = map_sum (fun _ => has_census) (aa_positions a) ->
  aa_retired a = map_sum (fun _ => has_emitted) (aa_positions a) ->
  t = aa_tracked a - has_census X + has_census p -> u = aa_retired a - has_emitted X + has_emitted p ->
  t = map_sum (fun _ => has_census) (<[ r := p ]> (aa_positions a)) /\
  u = map_sum (fun _ => has_emitted) (<[ r := p ]> (aa_positions a)).
Proof.
  intros HX Ht Hu -> ->. destruct (aa_positions a !! r) as [q|] eqn:E; cbn in HX; subst X.
  - rewrite !(map_sum_insert_Some _ _ _ _ q) by done. lia.
  - rewrite !map_sum_insert_None by done. cbn. lia.
Qed.

Lemma heard_record ops s r r' :
  heard c (ops ++ [AckRecord s r]) r' =
  if is_member c s && bool_decide (r = r') then {[ s ]} ∪ heard c ops r' else heard c ops r'.
Proof. unfold heard. by rewrite foldl_app. Qed.

Lemma heard_reset ops k r :
  heard c (ops ++ [AckReset k]) r = if bool_decide (ref_author r = k) then ∅ else heard c ops r.
Proof. unfold heard. by rewrite foldl_app. Qed.

Lemma expected_census X :
  reached c X <> Some Quorum ->
  default census_default (ap_census (expected_position X)) = mkAckCensus X (stake_of c X).
Proof.
  intros Hq. unfold expected_position. cbn. rewrite (bool_decide_false (reached c X = Some Quorum)) by done.
  rewrite orb_false_r. case_bool_decide as HX; [|done]. subst X. unfold stake_of. by rewrite set_sum_empty.
Qed.

(** The answer of [record_ack], and the position it leaves. *)
Lemma record_ack_member s r ops a :
  agg_inv ops a -> is_member c s = true ->
  let X := heard c ops r in
  let a' := (record_ack s r a).2 in
  (record_ack s r a).1 = mkAckResult true
    (if bool_decide (reached c ({[ s ]} ∪ X) = reached c X) then None
     else mkAckAvailability r <$> reached c ({[ s ]} ∪ X)) /\
  aa_committee a' = c /\
  aa_positions a' = <[ r := expected_position ({[ s ]} ∪ X) ]> (aa_positions a) /\
  aa_tracked a' = aa_tracked a - has_census (expected_position X) + has_census (expected_position ({[ s ]} ∪ X)) /\
  aa_retired a' = aa_retired a - has_emitted (expected_position X) + has_emitted (expected_position ({[ s ]} ∪ X)).
Proof.
  intros Ha Hs X a'. subst a'. unfold record_ack. rewrite (agg_committee _ _ Ha), Hs. cbn [negb].
  rewrite (agg_positions _ _ Ha). fold X.
  destruct (decide (reached c X = Some Quorum)) as [Hq|Hq].
  { rewrite bool_decide_true by done. cbn [fst snd aa_committee aa_positions aa_tracked aa_retired].
    destruct (decide (s ∈ X)) as [Hin|Hin].
    { replace ({[ s ]} ∪ X) with X by set_solver. rewrite bool_decide_true by done.
      split_and!; [done..|lia|lia]. }
    assert (reached c ({[ s ]} ∪ X) = Some Quorum) as Hq'.
    { rewrite reached_add. pose proof (stake_nonneg c Hok s).
      pose proof (crossed_mono (stake_of c X) (stake_of c ({[ s ]} ∪ X))) as Hm.
      rewrite stake_of_add in * by done. unfold reached in Hq. case_bool_decide; [done|].
      rewrite Hq in Hm. apply Hm. lia. }
    assert (expected_position ({[ s ]} ∪ X) = expected_position X) as ->.
    { unfold expected_position. rewrite Hq, Hq'. rewrite !orb_true_r. done. }
    rewrite Hq, Hq', bool_decide_true by done. split_and!; [done..|lia|lia]. }
  rewrite bool_decide_false by done. rewrite expected_census by done.
  assert (ap_census (expected_position X) = None <-> X = ∅) as Hopen.
  { unfold expected_position. cbn. rewrite (bool_decide_false (reached c X = Some Quorum)) by done.
    rewrite orb_false_r. case_bool_decide; naive_solver. }
  rewrite (bool_decide_ext _ _ Hopen). cbn [ac_senders ac_weight ap_emitted expected_position].
  destruct (decide (s ∈ X)) as [Hin|Hin].
  - rewrite (bool_decide_true (s ∈ X)) by done. replace ({[ s ]} ∪ X) with X by set_solver.
    rewrite bool_decide_true by done. cbn [fst snd aa_committee aa_positions aa_tracked aa_retired].
    split_and!; [done|done| |lia|lia]. do 2 f_equal. unfold expected_position.
    rewrite !bool_decide_false by set_solver. done.
  - rewrite (bool_decide_false (s ∈ X)) by done.
    replace (u32_add (stake_of c X) (stake c s)) with (stake_of c ({[ s ]} ∪ X)).
    2:{ pose proof (stake_of_range ({[ s ]} ∪ X)). rewrite stake_of_add in * by done.
        rewrite u32_add_small; lia. }
    rewrite fresh_threshold_reached by done.
    cbn [fst snd aa_committee aa_positions aa_tracked aa_retired].
    unfold has_census, has_emitted, expected_position. cbn [ap_census ap_emitted].
    rewrite (bool_decide_false ({[ s ]} ∪ X = ∅)) by set_solver. cbn [orb].
    rewrite (bool_decide_false (reached c X = Some Quorum)) by done. rewrite orb_false_r.
    assert (reached c X <> None -> X <> ∅) as Hne.
    { unfold reached. case_bool_decide; naive_solver. }
    assert (reached c X = Some Validity -> reached c ({[ s ]} ∪ X) <> None) as Hkeep.
    { rewrite reached_add. pose proof (stake_nonneg c Hok s).
      pose proof (crossed_mono (stake_of c X) (stake_of c ({[ s ]} ∪ X))) as Hm.
      rewrite stake_of_add in * by done. unfold reached. case_bool_decide; [done|].
      intros Hv. rewrite Hv in Hm. apply Hm. lia. }
    destruct (reached c X) as [[]|]; [|done|];
      destruct (reached c ({[ s ]} ∪ X)) as [[]|]; cbn; try (exfalso; by apply Hkeep);
      destruct (decide (X = ∅)) as [HX|HX];
      rewrite ?(bool_decide_true (X = ∅)), ?(bool_decide_false (X = ∅)) by done; cbn;
      try (exfalso; by apply Hne); split_and!; try done;
      repeat case_bool_decide; unfold indicator, is_Some in *; naive_solver lia.
Qed.
Lemma agg_inv_record s r ops a :
  agg_inv ops a -> agg_inv (ops ++ [AckRecord s r]) (record_ack s r a).2.
Proof.
  intros Ha. destruct (is_member c s) eqn:Hs.
  - destruct (record_ack_member s r ops a Ha Hs) as (_ & Hc & Hp & Ht & Hu).
    destruct (agg_put r (expected_position ({[ s ]} ∪ heard c ops r)) a _ _ _
      (agg_positions _ _ Ha r) (agg_tracked _ _ Ha) (agg_retired _ _ Ha) Ht Hu).
    split; [done| |by rewrite Hp..].
    intros r'. rewrite Hp, heard_record, Hs. cbn [andb]. case_bool_decide as Hr.
    + subst r'. by rewrite lookup_insert_eq.
    + rewrite lookup_insert_ne by done. apply Ha.
  - assert ((record_ack s r a).2 = a) as ->.
    { unfold record_ack. by rewrite (agg_committee _ _ Ha), Hs. }
    split; [apply Ha| |apply Ha|apply Ha]. intros r'. rewrite heard_record, Hs. apply Ha.
Qed.

(** Draining subtracts exactly what the dropped positions counted. *)
Lemma map_sum_split {V} (f : V -> Z) (P : BlockRef * V -> Prop) `{forall x, Decision (P x)} (m : gmap BlockRef V) :
  map_sum (fun _ => f) m =
  foldr Z.add 0 (f <$> (filter P (map_to_list m)).*2) + map_sum (fun _ => f) (filter (fun p => ~ P p) m).
Proof.
  induction m as [|k v m Hk IH] using map_ind.
  { rewrite map_to_list_empty. by rewrite map_filter_empty, map_sum_empty. }
  rewrite map_sum_insert_None by done.
  assert (foldr Z.add 0 (f <$> (filter P (map_to_list (<[ k := v ]> m))).*2) =
    (if decide (P (k, v)) then f v else 0) + foldr Z.add 0 (f <$> (filter P (map_to_list m)).*2)) as ->.
  { assert (f <$> (filter P (map_to_list (<[ k := v ]> m))).*2 ≡ₚ
      f <$> (filter P ((k, v) :: map_to_list m)).*2) as Hperm by (by rewrite map_to_list_insert).
    rewrite (foldr_permutation_proper' eq Z.add 0 _ _ Hperm), filter_cons.
    destruct (decide (P (k, v))); cbn; lia. }
  destruct (decide (P (k, v))).
  - rewrite map_filter_insert_False by (intros Hn; by apply Hn). rewrite delete_id by done. lia.
  - rewrite map_filter_insert_True by done. rewrite map_sum_insert_None; [lia|].
    apply map_lookup_filter_None. by left.
Qed.
Lemma drain_fold l a :
  let a' := foldl (fun a p => mkAckAggregator (aa_committee a) (aa_positions a)
      (aa_tracked a - has_census p) (aa_retired a - has_emitted p)) a l in
  aa_committee a' = aa_committee a /\ aa_positions a' = aa_positions a /\
  aa_tracked a' = aa_tracked a - foldr Z.add 0 (has_census <$> l) /\
  aa_retired a' = aa_retired a - foldr Z.add 0 (has_emitted <$> l).
Proof.
  revert a. induction l as [|p l IH]; intros a; cbn.
  - split_and!; [done..|lia|lia].
  - destruct (IH (mkAckAggregator (aa_committee a) (aa_positions a)
      (aa_tracked a - has_census p) (aa_retired a - has_emitted p))) as (H1 & H2 & H3 & H4).
    cbn in *. rewrite H1, H2, H3, H4. split_and!; [done..|lia|lia].
Qed.

Lemma agg_inv_reset k ops a :
  agg_inv ops a -> agg_inv (ops ++ [AckReset k]) (agg_reset_author k a).
Proof.
  intros Ha. unfold agg_reset_author.
  set (l := (filter (fun p => ref_author p.1 = k) (map_to_list (aa_positions a))).*2).
  destruct (drain_fold l (mkAckAggregator (aa_committee a)
    (filter (fun p => ref_author p.1 <> k) (aa_positions a)) (aa_tracked a) (aa_retired a)))
    as (H1 & H2 & H3 & H4). cbn in *. split.
  - rewrite H1. apply Ha.
  - intros r. rewrite H2, heard_reset. case_bool_decide as Hr.
    + rewrite expected_empty. destruct (filter _ _ !! r) as [p|] eqn:E; [|done].
      apply map_lookup_filter_Some in E as [_ E]. done.
    + rewrite <- (agg_positions _ _ Ha). f_equal. apply option_eq. intros p.
      rewrite map_lookup_filter_Some. naive_solver.
  - rewrite H3, H2, (agg_tracked _ _ Ha).
    rewrite (map_sum_split has_census (fun p => ref_author p.1 = k)). fold l. lia.
  - rewrite H4, H2, (agg_retired _ _ Ha).
    rewrite (map_sum_split has_emitted (fun p => ref_author p.1 = k)). fold l. lia.
Qed.

Lemma agg_inv_run ops : agg_inv ops (ack_run c ops).
Proof.
  induction ops as [|op ops IH] using rev_ind.
  - split; cbn; [done| |by rewrite map_sum_empty..]. intros r. rewrite lookup_empty. cbn.
    by rewrite expected_empty.
  - unfold ack_run in *. rewrite foldl_app. cbn. destruct op; [by apply agg_inv_record|by apply agg_inv_reset].
Qed.

Lemma will_count_spec s r ops a :
  agg_inv ops a ->
  will_count s r a =
  is_member c s && bool_decide (s ∉ heard c ops r) && bool_decide (reached c (heard c ops r) <> Some Quorum).
Proof.
  intros Ha. unfold will_count. rewrite (agg_committee _ _ Ha). destruct (is_member c s); [|done]. cbn [negb andb].
  pose proof (agg_positions _ _ Ha r) as Hp. set (X := heard c ops r) in *.
  assert (forall p, p = expected_position X ->
    bool_decide (ap_emitted p <> Some Quorum) &&
    negb (match ap_census p with Some x => bool_decide (s ∈ ac_senders x) | None => false end) =
    bool_decide (s ∉ X) && bool_decide (reached c X <> Some Quorum)) as Hx.
  { intros p ->. unfold expected_position. cbn. rewrite bool_decide_not.
    destruct (decide (reached c X = Some Quorum)) as [Hq|Hq].
    - rewrite (bool_decide_true (reached c X = Some Quorum)) by done.
      rewrite orb_true_r. cbn. symmetry. apply andb_false_r.
    - rewrite (bool_decide_false (reached c X = Some Quorum)) by done.
      rewrite orb_false_r. cbn. rewrite andb_true_r. case_bool_decide as HX; cbn.
      + symmetry. apply bool_decide_true. set_solver.
      + by rewrite bool_decide_not. }
  destruct (aa_positions a !! r) as [p|]; [by apply Hx|].
  rewrite <- (Hx position_default Hp). done.
Qed.
End exact.

(** C36: the aggregator counts exactly what was heard.  After any sequence of
    acknowledgements and lane resets, with [X] the distinct committee members
    that acknowledged a reference since its author's last reset, the next
    acknowledgement of it is accepted exactly from a member, and reports a
    threshold exactly when the stake of the members heard crosses it with this
    one, so each threshold is reported once and never for stake that is not
    there; [is_at_quorum] and [will_count] answer for [X], although the census
    is dropped at the quorum; and the two size counters equal the number of live
    censuses and of reported references, so their subtractions never wrap. *)
Theorem ack_aggregator_exact c ops s r :
  committee_ok c ->
  let a := ack_run c ops in
  let X := heard c ops r in
  let X' := {[ s ]} ∪ X in
  (record_ack s r a).1 =
    (if is_member c s then mkAckResult true
       (if bool_decide (reached c X' = reached c X) then None else mkAckAvailability r <$> reached c X')
     else mkAckResult false None) /\
  agg_is_at_quorum r a = bool_decide (reached c X = Some Quorum) /\
  will_count s r a =
    is_member c s && bool_decide (s ∉ X) && bool_decide (reached c X <> Some Quorum) /\
  aa_tracked a = map_sum (fun _ => has_census) (aa_positions a) /\
  aa_retired a = map_sum (fun _ => has_emitted) (aa_positions a).
Proof.
  intros Hok a X X'. pose proof (agg_inv_run c Hok ops) as Ha. split_and!.
  - destruct (is_member c s) eqn:Hs; [by apply (record_ack_member c Hok)|].
    subst a. unfold record_ack. by rewrite (agg_committee _ _ _ Ha), Hs.
  - pose proof (agg_positions _ _ _ Ha r) as Hp. fold a X in Hp. unfold agg_is_at_quorum.
    destruct (aa_positions a !! r) as [p|]; cbn in Hp; [by subst p|].
    apply (f_equal ap_emitted) in Hp. cbn in Hp. by rewrite <- Hp.
  - by apply will_count_spec.
  - apply Ha.
  - apply Ha.
Qed.

Lemma ack_aggregator_exact_witness :
  let r := (10, 1, 7) in
  let a := ack_run committee4 [AckRecord 20 r; AckRecord 99 r; AckRecord 20 r; AckRecord 30 r] in
  record_ack 40 r a =
    (mkAckResult true (Some (mkAckAvailability r Quorum)),
     (record_ack 40 r a).2) /\
  agg_is_at_quorum r a = bool_decide (reached committee4 {[ 20; 30 ]} = Some Quorum).
Proof.
  destruct (ack_aggregator_exact committee4
    [AckRecord 20 (10, 1, 7); AckRecord 99 (10, 1, 7); AckRecord 20 (10, 1, 7); AckRecord 30 (10, 1, 7)]
    40 (10, 1, 7) committee4_ok) as (H & Hq & _).
  split.
  - rewrite (surjective_pairing (record_ack _ _ _)) at 1. rewrite H. vm_compute. reflexivity.
  - rewrite Hq. vm_compute. reflexivity.
Defined.
