(* ===== verification/AgbState.v ===== *)
(** The state of the accountable graded broadcast engine.

    Models the data of [AgbEngine] in [src/primary/src/vantage/agb.rs]:
    [Fixed], [EchoStatement], [EchoTally], [ReadyTally], [ReadyStatement],
    [Lock], [Stance], [ViewState] with its [Default], [AgbEngine] with [new],
    the read-only queries, and the pure cores of the two tally updates
    ([count_echo_statement], [count_ready_statement]).  Metrics handles, log
    lines and test-only accessors are left out. *)

From S2P Require Import Prelude Committee Types Formed.

(** ** Per-view data *)

Inductive Fixed :=
| Unset
| Reject
| FixedProposal (p : ProposalOut) (d : Digest).

Inductive EchoStatement :=
| EchoGraded (p : ProposalOut) (d : Digest) (grade : Z) (origin : list (option Z))
| EchoStSkip.

Record EchoTally := mkEchoTally {
  et_proposal : ProposalOut;
  et_grade_one : Stake;
  et_grade_zero : Stake;
  et_grade_one_parties : Z;
  et_grade_zero_parties : Z;
  et_origin_ones : list Z;
}.

Record ReadyTally := mkReadyTally {
  rt_proposal : ProposalOut;
  rt_any : Stake;
  rt_grade_one : Stake;
  rt_grade_zero : Stake;
}.

Inductive ReadyStatement :=
| ReadyGraded (p : ProposalOut) (d : Digest) (grade : ReadyGrade)
| NoReady.

Record Lock := mkLock {
  lock_proposal : ProposalOut;
  lock_digest : Digest;
  lock_active : bool;
}.

Inductive Stance := Free | NonSkip | SkipVoted.

Inductive MetaEntryStatus := MetaOk | MetaNotYet | MetaNever.

Inductive DirectVoteDecision :=
| VoteAccept (origin : option Z)
| VoteNotYet
| VoteNever.

#[export] Instance Fixed_eq_dec : EqDecision Fixed.
Proof. solve_decision. Defined.
#[export] Instance EchoStatement_eq_dec : EqDecision EchoStatement.
Proof. solve_decision. Defined.
#[export] Instance ReadyStatement_eq_dec : EqDecision ReadyStatement.
Proof. solve_decision. Defined.
#[export] Instance Lock_eq_dec : EqDecision Lock.
Proof. solve_decision. Defined.
#[export] Instance Stance_eq_dec : EqDecision Stance.
Proof. solve_decision. Defined.
#[export] Instance MetaEntryStatus_eq_dec : EqDecision MetaEntryStatus.
Proof. solve_decision. Defined.

(** [vs_panicked] is not a field of the source: it records that
    [tally.origin_ones[i] += 1] was executed with [i] out of bounds, where the
    code panics. *)
Record ViewState := mkViewState {
  fixed : Fixed;
  echo_sent : bool;
  ready_sent : bool;
  ready_mix_open : bool;
  completed : option (Manifest * Manifest);
  completed_instant : option Instant;
  completed_open_unsealed : bool;
  directed : option Outcome;
  sealed : option Outcome;
  fastsealed : bool;
  active : bool;
  entered : bool;
  entry_instant : option Instant;
  first_proposal_instant : option Instant;
  echo_statements : gmap PublicKey EchoStatement;
  echo_tallies : gmap Digest EchoTally;
  echo_skip_parties : Z;
  ready_statements : gmap PublicKey ReadyStatement;
  ready_tallies : gmap Digest ReadyTally;
  ready_non_grade_one_parties : Z;
  ready_zero_or_noready_parties : Z;
  noready_parties : Z;
  lock : option Lock;
  digest_cache : list (ProposalOut * Digest);
  stance : Stance;
  aux_accepted : bool;
  skip_vote_statements : gset PublicKey;
  skip_sealed : bool;
  vs_panicked : bool;
}.

Definition vs_default : ViewState := {|
  fixed := Unset;
  echo_sent := false;
  ready_sent := false;
  ready_mix_open := false;
  completed := None;
  completed_instant := None;
  completed_open_unsealed := false;
  directed := None;
  sealed := None;
  fastsealed := false;
  active := false;
  entered := false;
  entry_instant := None;
  first_proposal_instant := None;
  echo_statements := ∅;
  echo_tallies := ∅;
  echo_skip_parties := 0;
  ready_statements := ∅;
  ready_tallies := ∅;
  ready_non_grade_one_parties := 0;
  ready_zero_or_noready_parties := 0;
  noready_parties := 0;
  lock := None;
  digest_cache := [];
  stance := Free;
  aux_accepted := false;
  skip_vote_statements := ∅;
  skip_sealed := false;
  vs_panicked := false;
|}.

Definition vs_eta (s : ViewState) : ViewState :=
  mkViewState (fixed s) (echo_sent s) (ready_sent s) (ready_mix_open s) (completed s)
    (completed_instant s) (completed_open_unsealed s) (directed s) (sealed s) (fastsealed s)
    (active s) (entered s) (entry_instant s) (first_proposal_instant s) (echo_statements s)
    (echo_tallies s) (echo_skip_parties s) (ready_statements s) (ready_tallies s)
    (ready_non_grade_one_parties s) (ready_zero_or_noready_parties s) (noready_parties s)
    (lock s) (digest_cache s) (stance s) (aux_accepted s) (skip_vote_statements s)
    (skip_sealed s) (vs_panicked s).

#[export] Instance set_fixed : Setter fixed.
Proof. solve_setter vs_eta fixed. Defined.
#[export] Instance set_echo_sent : Setter echo_sent.
Proof. solve_setter vs_eta echo_sent. Defined.
#[export] Instance set_ready_sent : Setter ready_sent.
Proof. solve_setter vs_eta ready_sent. Defined.
#[export] Instance set_ready_mix_open : Setter ready_mix_open.
Proof. solve_setter vs_eta ready_mix_open. Defined.
#[export] Instance set_completed : Setter completed.
Proof. solve_setter vs_eta completed. Defined.
#[export] Instance set_completed_instant : Setter completed_instant.
Proof. solve_setter vs_eta completed_instant. Defined.
#[export] Instance set_completed_open_unsealed : Setter completed_open_unsealed.
Proof. solve_setter vs_eta completed_open_unsealed. Defined.
#[export] Instance set_directed : Setter directed.
Proof. solve_setter vs_eta directed. Defined.
#[export] Instance set_sealed : Setter sealed.
Proof. solve_setter vs_eta sealed. Defined.
#[export] Instance set_fastsealed : Setter fastsealed.
Proof. solve_setter vs_eta fastsealed. Defined.
#[export] Instance set_active : Setter active.
Proof. solve_setter vs_eta active. Defined.
#[export] Instance set_entered : Setter entered.
Proof. solve_setter vs_eta entered. Defined.
#[export] Instance set_entry_instant : Setter entry_instant.
Proof. solve_setter vs_eta entry_instant. Defined.
#[export] Instance set_first_proposal_instant : Setter first_proposal_instant.
Proof. solve_setter vs_eta first_proposal_instant. Defined.
#[export] Instance set_echo_statements : Setter echo_statements.
Proof. solve_setter vs_eta echo_statements. Defined.
#[export] Instance set_echo_tallies : Setter echo_tallies.
Proof. solve_setter vs_eta echo_tallies. Defined.
#[export] Instance set_echo_skip_parties : Setter echo_skip_parties.
Proof. solve_setter vs_eta echo_skip_parties. Defined.
#[export] Instance set_ready_statements : Setter ready_statements.
Proof. solve_setter vs_eta ready_statements. Defined.
#[export] Instance set_ready_tallies : Setter ready_tallies.
Proof. solve_setter vs_eta ready_tallies. Defined.
#[export] Instance set_ready_non_grade_one_parties : Setter ready_non_grade_one_parties.
Proof. solve_setter vs_eta ready_non_grade_one_parties. Defined.
#[export] Instance set_ready_zero_or_noready_parties : Setter ready_zero_or_noready_parties.
Proof. solve_setter vs_eta ready_zero_or_noready_parties. Defined.
#[export] Instance set_noready_parties : Setter noready_parties.
Proof. solve_setter vs_eta noready_parties. Defined.
#[export] Instance set_lock : Setter lock.
Proof. solve_setter vs_eta lock. Defined.
#[export] Instance set_digest_cache : Setter digest_cache.
Proof. solve_setter vs_eta digest_cache. Defined.
#[export] Instance set_stance : Setter stance.
Proof. solve_setter vs_eta stance. Defined.
#[export] Instance set_aux_accepted : Setter aux_accepted.
Proof. solve_setter vs_eta aux_accepted. Defined.
#[export] Instance set_skip_vote_statements : Setter skip_vote_statements.
Proof. solve_setter vs_eta skip_vote_statements. Defined.
#[export] Instance set_skip_sealed : Setter skip_sealed.
Proof. solve_setter vs_eta skip_sealed. Defined.
#[export] Instance set_vs_panicked : Setter vs_panicked.
Proof. solve_setter vs_eta vs_panicked. Defined.

(** ** The engine *)

(** The fields of [AgbEngine] fixed at construction. *)
Record AgbConfig := mkAgbConfig {
  name : PublicKey;
  committee : Committee;
  sid : Digest;
  delta : Duration;
  cfg_n : Z;
  f_plus_1 : Z;
  quorum_parties : Z;
  quorum : Stake;
  proposers : RoundRobin;
}.

Record AgbEngine := mkAgbEngine {
  cfg : AgbConfig;
  views : gmap View ViewState;
  pending_gate : gset View;
  recheck_cursor : View;
  min_live_view : View;
}.

Definition agb_eta (e : AgbEngine) : AgbEngine :=
  mkAgbEngine (cfg e) (views e) (pending_gate e) (recheck_cursor e) (min_live_view e).

#[export] Instance set_views : Setter views.
Proof. solve_setter agb_eta views. Defined.
#[export] Instance set_pending_gate : Setter pending_gate.
Proof. solve_setter agb_eta pending_gate. Defined.
#[export] Instance set_recheck_cursor : Setter recheck_cursor.
Proof. solve_setter agb_eta recheck_cursor. Defined.
#[export] Instance set_min_live_view : Setter min_live_view.
Proof. solve_setter agb_eta min_live_view. Defined.

(** [RoundRobin::new] panics on an empty committee: [None]. *)
Definition agb_config (nm : PublicKey) (c : Committee) (s : Digest) (delta_ms : Z)
    : option AgbConfig :=
  proposers ← round_robin_new c;
  let n := committee_size c in
  let thresholds := from_party_count n in
  Some {| name := nm; committee := c; sid := s; delta := delta_ms; cfg_n := n;
          f_plus_1 := f_plus_1_parties thresholds;
          quorum_parties := n_minus_f_parties thresholds;
          quorum := quorum_threshold c; proposers := proposers |}.

Definition agb_init (cf : AgbConfig) : AgbEngine :=
  {| cfg := cf; views := ∅; pending_gate := ∅; recheck_cursor := 1; min_live_view := 1 |}.

Definition agb_new (nm : PublicKey) (c : Committee) (s : Digest) (delta_ms : Z)
    : option AgbEngine :=
  agb_init <$> agb_config nm c s delta_ms.

Definition theta_echo (cf : AgbConfig) : Duration := delta cf * 3.
Definition theta_ready (cf : AgbConfig) : Duration := delta cf * 4.

(** [None] only for an empty committee, which [agb_new] excludes. *)
Definition agb_proposer (cf : AgbConfig) (v : View) : option PublicKey := one_based (proposers cf) v.

Definition is_pruned (e : AgbEngine) (v : View) : bool := v <? min_live_view e.

(** The state read through [self.views.get(&v)] or created by
    [self.state_mut(v)]. *)
Definition view_state (e : AgbEngine) (v : View) : ViewState := default vs_default (views e !! v).

Definition update_view (v : View) (g : ViewState -> ViewState) (e : AgbEngine) : AgbEngine :=
  e <| views := <[ v := g (view_state e v) ]> (views e) |>.

(** [self.views.get(&v).is_some_and(p)]. *)
Definition view_and (e : AgbEngine) (v : View) (p : ViewState -> bool) : bool :=
  match views e !! v with Some s => p s | None => false end.

(** [self.views.get(&v).map_or(0, f)]. *)
Definition view_count (e : AgbEngine) (v : View) (f : ViewState -> Z) : Z :=
  match views e !! v with Some s => f s | None => 0 end.

Definition gc_below (floor : View) (e : AgbEngine) : AgbEngine :=
  if floor <=? min_live_view e then e
  else e <| views ::= map_split_off floor |> <| pending_gate ::= set_split_off floor |>
         <| min_live_view := floor |>.

Definition pending_gate_len (e : AgbEngine) : nat := size (pending_gate e).

Definition RECHECK_BUDGET : nat := 64.

(** At most [budget] pending views from [cursor] upward, then from the smallest. *)
Definition recheck_window (pending : gset View) (cursor : View) (budget : nat) : list View :=
  if (size pending <=? budget)%nat then set_iter pending
  else
    let window := take budget (filter (fun v => cursor <= v) (set_iter pending)) in
    if (length window <? budget)%nat then
      window ++ take (budget - length window) (filter (fun v => v < cursor) (set_iter pending))
    else window.

(** ** Queries *)

Definition has_any_state (e : AgbEngine) (v : View) : bool :=
  is_pruned e v || bool_decide (is_Some (views e !! v)).

Definition ready_stage_total (e : AgbEngine) (v : View) : Z :=
  view_count e v (fun s => Z.of_nat (size (ready_statements s))).

Definition ready_stage_non_grade1_count (e : AgbEngine) (v : View) : Z :=
  view_count e v ready_non_grade_one_parties.

Definition ready_stage_zero_or_noready_count (e : AgbEngine) (v : View) : Z :=
  view_count e v ready_zero_or_noready_parties.

Definition noready_count (e : AgbEngine) (v : View) : Z := view_count e v noready_parties.

Definition tally_has_payload (c t : Manifest) (tally : EchoTally) : bool :=
  bool_decide (p_c (et_proposal tally) = c /\ p_t (et_proposal tally) = t).

Definition echo_grade1_count_for (e : AgbEngine) (v : View) (c t : Manifest) : Z :=
  view_count e v (fun s =>
    map_sum (fun _ tally => if tally_has_payload c t tally then et_grade_one_parties tally else 0)
      (echo_tallies s)).

Definition echo_any_grade_count_for (e : AgbEngine) (v : View) (c t : Manifest) : Z :=
  view_count e v (fun s =>
    map_sum (fun _ tally => if tally_has_payload c t tally
      then et_grade_one_parties tally + et_grade_zero_parties tally else 0)
      (echo_tallies s)).

(** The [HashMap] yields the tallies in an unspecified order; the distinct
    payloads are returned here in the order of [map_to_list]. *)
Definition candidate_payloads (e : AgbEngine) (v : View) : list (Manifest * Manifest) :=
  match views e !! v with
  | None => []
  | Some s => remove_dups
      ((fun p => (p_c (et_proposal p.2), p_t (et_proposal p.2))) <$> map_to_list (echo_tallies s))
  end.

Definition is_sealed (e : AgbEngine) (v : View) : bool :=
  is_pruned e v || view_and e v (fun s => bool_decide (is_Some (sealed s))).

Definition has_terminal_seal (e : AgbEngine) (v : View) : bool :=
  view_and e v (fun s => bool_decide (is_Some (sealed s))).

Definition q_echo_sent (e : AgbEngine) (v : View) : bool :=
  is_pruned e v || view_and e v echo_sent.

Definition q_ready_sent (e : AgbEngine) (v : View) : bool :=
  is_pruned e v || view_and e v ready_sent.

Definition ready_finalized (e : AgbEngine) (v : View) : bool :=
  is_pruned e v || view_and e v (fun s => ready_sent s && negb (ready_mix_open s)).

Definition fixed_proposal (e : AgbEngine) (v : View) : option (ProposalOut * Digest) :=
  if is_pruned e v then None
  else
    match fixed <$> views e !! v with
    | Some (FixedProposal p d) => Some (p, d)
    | _ => None
    end.

(** ** Tallies *)

(** [for (i, bit) in origin.iter().enumerate() { if *bit == Some(1) {
    ones[i] += 1 } }]; [None] is the panic of an index out of bounds. *)
Fixpoint bump_origin_ones (i : nat) (origin : list (option Z)) (ones : list Z)
    : option (list Z) :=
  match origin with
  | [] => Some ones
  | bit :: origin =>
      if bool_decide (bit = Some 1) then
        match ones !! i with
        | Some k => bump_origin_ones (S i) origin (<[ i := k + 1 ]> ones)
        | None => None
        end
      else bump_origin_ones (S i) origin ones
  end.

Definition echo_tally_new (p : ProposalOut) : EchoTally :=
  mkEchoTally p 0 0 0 0 (replicate (length (p_entries p)) 0).

(** The tally after one more echo of weight [w]; the flag is the panic. *)
Definition echo_tally_add (w : Stake) (grade : Z) (origin : list (option Z)) (t : EchoTally)
    : EchoTally * bool :=
  let bumped := bump_origin_ones 0 origin (et_origin_ones t) in
  let ones := default (et_origin_ones t) bumped in
  let panic := bool_decide (bumped = None) in
  if grade =? 1 then
    (mkEchoTally (et_proposal t) (u32_add (et_grade_one t) w) (et_grade_zero t)
       (et_grade_one_parties t + 1) (et_grade_zero_parties t) ones, panic)
  else
    (mkEchoTally (et_proposal t) (et_grade_one t) (u32_add (et_grade_zero t) w)
       (et_grade_one_parties t) (et_grade_zero_parties t + 1) ones, panic).

(** The state after counting the first echo statement of [sender]. *)
Definition apply_echo (cf : AgbConfig) (sender : PublicKey) (statement : EchoStatement)
    (s : ViewState) : ViewState :=
  let w := stake (committee cf) sender in
  let s :=
    match statement with
    | EchoGraded p d grade origin =>
        let tally := default (echo_tally_new p) (echo_tallies s !! d) in
        let r := echo_tally_add w grade origin tally in
        s <| echo_tallies ::= <[ d := r.1 ]> |> <| vs_panicked ::= orb r.2 |>
    | EchoStSkip => s <| echo_skip_parties ::= Z.add 1 |>
    end in
  s <| echo_statements ::= <[ sender := statement ]> |>.

Definition ready_tally_new (p : ProposalOut) : ReadyTally := mkReadyTally p 0 0 0.

Definition ready_tally_any (w : Stake) (t : ReadyTally) : ReadyTally :=
  mkReadyTally (rt_proposal t) (u32_add (rt_any t) w) (rt_grade_one t) (rt_grade_zero t).

Definition ready_tally_grade (w : Stake) (g : ReadyGrade) (t : ReadyTally) : ReadyTally :=
  match g with
  | GOne => mkReadyTally (rt_proposal t) (rt_any t) (u32_add (rt_grade_one t) w) (rt_grade_zero t)
  | GZero => mkReadyTally (rt_proposal t) (rt_any t) (rt_grade_one t) (u32_add (rt_grade_zero t) w)
  | GMix => t
  end.

(** A homogeneous refinement of a recorded READY-mix. *)
Definition valid_refinement (existing statement : ReadyStatement) : bool :=
  match existing, statement with
  | ReadyGraded _ old GMix, ReadyGraded _ new (GZero | GOne) => old =? new
  | _, _ => false
  end.

(** The state after counting the ready-stage statement of [sender], and
    whether it was accepted. *)
Definition apply_ready (cf : AgbConfig) (sender : PublicKey) (statement : ReadyStatement)
    (s : ViewState) : ViewState * bool :=
  let w := stake (committee cf) sender in
  match ready_statements s !! sender with
  | Some existing =>
      if valid_refinement existing statement then
        match statement with
        | ReadyGraded _ d grade =>
            match ready_tallies s !! d with
            | None => (s, false)
            | Some tally =>
                let s := s <| ready_tallies ::= <[ d := ready_tally_grade w grade tally ]> |> in
                let s := if decide (grade = GZero)
                  then s <| ready_zero_or_noready_parties ::= Z.add 1 |> else s in
                (s <| ready_statements ::= <[ sender := statement ]> |>, true)
            end
        | NoReady => (s, false)
        end
      else (s, false)
  | None =>
      let s :=
        match statement with
        | ReadyGraded p d grade =>
            let tally := default (ready_tally_new p) (ready_tallies s !! d) in
            let tally := ready_tally_grade w grade (ready_tally_any w tally) in
            let s := s <| ready_tallies ::= <[ d := tally ]> |> in
            match grade with
            | GOne => s
            | GZero => s <| ready_non_grade_one_parties ::= Z.add 1 |>
                         <| ready_zero_or_noready_parties ::= Z.add 1 |>
            | GMix => s <| ready_non_grade_one_parties ::= Z.add 1 |>
            end
        | NoReady => s <| ready_non_grade_one_parties ::= Z.add 1 |>
                       <| ready_zero_or_noready_parties ::= Z.add 1 |>
                       <| noready_parties ::= Z.add 1 |>
        end in
      (s <| ready_statements ::= <[ sender := statement ]> |>, true)
  end.

(** [state.echo_statements.len().saturating_sub(matching)]. *)
Definition nonmatching_echoes (s : ViewState) (locked : Digest) : Z :=
  u64_saturating_sub (Z.of_nat (size (echo_statements s)))
    (match echo_tallies s !! locked with Some t => et_grade_one_parties t | None => 0 end).

Definition matching_echoes (s : ViewState) (locked : Digest) : Z :=
  match echo_tallies s !! locked with Some t => et_grade_one_parties t | None => 0 end.

(** ** Ready candidates *)

(** Every non-skip resolution entry has [f + 1] origin bits. *)
Definition ready_guard (cf : AgbConfig) (t : EchoTally) : bool :=
  forallb (fun p => match p.2 with
    | EntryFull _ _ _ | EntryCore _ _ _ =>
        match et_origin_ones t !! p.1 with
        | Some k => f_plus_1 cf <=? k
        | None => false
        end
    | EntrySkip _ => true
    end) (imap pair (p_entries (et_proposal t))).

(** The closure of [ready_candidate]'s [find_map]. *)
Definition tally_ready (cf : AgbConfig) (t : EchoTally) : option ReadyGrade :=
  if u32_add (et_grade_one t) (et_grade_zero t) <? quorum cf then None
  else if negb (ready_guard cf t) then None
  else Some (if quorum cf <=? et_grade_one t then GOne
             else if quorum cf <=? et_grade_zero t then GZero else GMix).

Fixpoint find_ready (cf : AgbConfig) (l : list (Digest * EchoTally))
    : option (Digest * ProposalOut * ReadyGrade) :=
  match l with
  | [] => None
  | (d, t) :: l =>
      match tally_ready cf t with
      | Some g => Some (d, et_proposal t, g)
      | None => find_ready cf l
      end
  end.

(** The iteration order of the [HashMap] is unspecified: see
    [find_ready_order_independent]. *)
Definition ready_candidate (cf : AgbConfig) (s : ViewState)
    : option (Digest * ProposalOut * ReadyGrade) :=
  find_ready cf (map_to_list (echo_tallies s)).

Definition ready_refinement_candidate (cf : AgbConfig) (s : ViewState)
    : option (Digest * ProposalOut * ReadyGrade) :=
  if negb (ready_mix_open s) then None
  else
    match ready_statements s !! name cf with
    | Some (ReadyGraded p d GMix) =>
        t ← echo_tallies s !! d;
        if quorum cf <=? et_grade_one t then Some (d, p, GOne)
        else if quorum cf <=? et_grade_zero t then Some (d, p, GZero)
        else None
    | _ => None
    end.

Definition outcomes_compatible (a b : Outcome) : bool :=
  match a, b with
  | OFull c1 t1, OFull c2 t2 => bool_decide (c1 = c2 /\ t1 = t2)
  | OCore c1, OCore c2 => bool_decide (c1 = c2)
  | OFull c1 _, OCore c2 | OCore c2, OFull c1 _ => bool_decide (c1 = c2)
  | OSkip, OSkip => true
  | _, _ => false
  end.
