(* ===== verification/Agb.v ===== *)
(** The handlers of the accountable graded broadcast engine.

    Models the [&mut self] methods of [AgbEngine] in
    [src/primary/src/vantage/agb.rs], one definition per method, in the source's
    order of reads, writes and emitted effects.  The lane manager and the
    repairer, which share the block cache, are one abstract environment [E]
    behind the class [AgbEnv]. *)

From S2P Require Import Prelude Committee Types Formed Claim AgbState.

(** What the engine asks of [LaneManager] and [Repairer]; [holds_prefix] and
    [locally_available] take [&mut self], and [author_ok] memoises in the shared
    cache behind its lock.  [instant_now] is
    [Instant::now()]. *)
Class AgbEnv (E : Type) := {
  author_ok : BlockRef -> E -> bool * E;
  holds_prefix : BlockRef -> E -> bool * E;
  locally_available : BlockRef -> E -> bool * E;
  prefix_contains : BlockRef -> BlockRef -> E -> bool;
  authorize : BlockRef -> E -> list Effect * E;
  instant_now : E -> Instant;
}.

Section agb.
Context `{!Hashing} {E : Type} `{!AgbEnv E}.

Abbreviation AM := (M Effect (AgbEngine * E)) (only parsing).

(** ** Access to the two halves of the state *)

Definition eng : AM AgbEngine := fun s => Res s.1 [] s.
Definition env : AM E := fun s => Res s.2 [] s.
Definition on_engine (f : AgbEngine -> AgbEngine) : AM () := fun s => Res tt [] (f s.1, s.2).
Definition on_env (f : E -> bool * E) : AM bool := fun s => let r := f s.2 in Res r.1 [] (s.1, r.2).

(** [self.state_mut(v)] alone creates the default state of an unseen view. *)
Definition upd (v : View) (g : ViewState -> ViewState) : AM () := on_engine (update_view v g).
Definition state_mut (v : View) : AM ViewState :=
  upd v id;; e ← eng; mret (view_state e v).

Definition rep_authorize (r : BlockRef) : AM () :=
  fun s => let '(es, env') := authorize r s.2 in Res tt es (s.1, env').

(** ** Wishes *)

Definition two_response_wish_target (e : AgbEngine) (view : View) (stage : ResponseStage)
    : option View :=
  match stage with
  | StageEcho =>
      let prev := u64_saturating_sub view 1 in
      if (prev =? 0) || is_pruned e prev || view_and e prev ready_sent
      then Some (u64_add view 2) else None
  | StageReady =>
      let next := u64_add view 1 in
      if is_pruned e next || view_and e next echo_sent then Some (u64_add view 3) else None
  end.

Definition wish_effects (e : AgbEngine) (view : View) (stage : ResponseStage) : list Effect :=
  match two_response_wish_target e view stage with
  | Some v => [RaiseWish v]
  | None => []
  end.

Definition wish_effect (view : View) (stage : ResponseStage) : AM () :=
  e ← eng; emit_all (wish_effects e view stage).

(** ** Proposals *)

(** The cached proposal equal to [proposal], with its digest. *)
Definition cached_proposal (e : AgbEngine) (view : View) (proposal : ProposalOut)
    : option (ProposalOut * Digest) :=
  s ← views e !! view; snd <$> list_find (fun pd => pd.1 = proposal) (digest_cache s).

Definition canonical_proposal (view : View) (proposal : ProposalOut)
    : AM (ProposalOut * Digest) :=
  e ← eng;
  match cached_proposal e view proposal with
  | Some pd => mret pd
  | None =>
      let digest := p_digest (sid (cfg e)) proposal in
      upd view (fun s => s <| digest_cache ::= fun l => l ++ [(proposal, digest)] |>);;
      mret (proposal, digest)
  end.

Definition build_echo_out (cf : AgbConfig) (proposal : ProposalOut) (grade : Z)
    (origin : list (option Z)) : EchoOut :=
  match proposal with
  | PSingle p => ESingle
      {| echo_proposal := p; echo_grade := grade; echo_sender := name cf; echo_wish := 0;
         echo_origin := match origin with o :: _ => o | [] => None end;
         echo_avail := None |}
  | PBatch p => EBatch
      {| eb_proposal := p; eb_grade := grade; eb_sender := name cf; eb_wish := 0;
         eb_avail := None |}
  end.

Definition build_ready_out (cf : AgbConfig) (proposal : ProposalOut) (grade : ReadyGrade)
    : ReadyOut :=
  match proposal with
  | PSingle p => RSingle
      {| rdy_proposal := p; rdy_grade := grade; rdy_sender := name cf; rdy_wish := 0 |}
  | PBatch p => RBatch
      {| rb_proposal := p; rb_grade := grade; rb_sender := name cf; rb_wish := 0 |}
  end.

(** ** Gates *)

Definition core_ok (c : Manifest) : AM bool :=
  all_m (fun r => on_env (author_ok r)) c.

(** [c.iter().map(|c_ref| (c_ref.0, c_ref)).collect()]. *)
Definition by_author (c : Manifest) : gmap PublicKey BlockRef :=
  fold_left (fun m r => <[ ref_author r := r ]> m) c ∅.

Definition tip_ok_one (cores : gmap PublicKey BlockRef) (t_ref : BlockRef) : AM bool :=
  match cores !! ref_author t_ref with
  | None => mret true
  | Some c_ref =>
      if ref_height t_ref <=? ref_height c_ref then mret false
      else
        held ← on_env (holds_prefix t_ref);
        if (held : bool) then e ← env; mret (prefix_contains t_ref c_ref e) else mret false
  end.

Definition tip_ok (c t : Manifest) : AM bool := all_m (tip_ok_one (by_author c)) t.

(** Whether the own closed READY, of the [excluded] grade or for another
    payload, contradicts a value for [(c, t)]. *)
Definition graded_against (excluded : ReadyGrade) (own_ready : ReadyStatement) (c t : Manifest)
    : bool :=
  match own_ready with
  | ReadyGraded p _ grade =>
      bool_decide (grade = excluded) || negb (bool_decide (p_c p = c))
      || negb (bool_decide (p_t p = t))
  | NoReady => false
  end.

Definition lock_blocks (s : ViewState) (entry : ResolutionEntry) : bool :=
  match lock s with
  | Some l =>
      lock_active l &&
      match entry with
      | EntryFull _ c t =>
          negb (bool_decide (p_c (lock_proposal l) = c /\ p_t (lock_proposal l) = t))
      | _ => true
      end
  | None => false
  end.

Definition meta_entry_status (entry : ResolutionEntry) : AM MetaEntryStatus :=
  e ← eng;
  let u := target_view entry in
  if is_pruned e u then mret MetaNever
  else
    match views e !! u with
    | None => mret MetaNotYet
    | Some state_u =>
        match echo_statements state_u !! name (cfg e), ready_statements state_u !! name (cfg e) with
        | None, _ | _, None => mret MetaNotYet
        | Some _, Some own_ready =>
            if ready_mix_open state_u then mret MetaNotYet
            else if lock_blocks state_u entry then mret MetaNotYet
            else
              match entry with
              | EntryFull _ c_u t_u =>
                  if graded_against GZero own_ready c_u t_u then mret MetaNever
                  else
                    core ← all_m (fun r => on_env (locally_available r)) c_u;
                    if negb core then mret MetaNotYet
                    else
                      tip ← all_m (fun r => on_env (locally_available r)) t_u;
                      if negb tip then mret MetaNotYet
                      else
                        paired ← tip_ok c_u t_u;
                        mret (if (paired : bool) then MetaOk else MetaNotYet)
              | EntryCore _ c_u t_u =>
                  if graded_against GOne own_ready c_u t_u then mret MetaNever
                  else
                    core ← all_m (fun r => on_env (locally_available r)) c_u;
                    mret (if (core : bool) then MetaOk else MetaNotYet)
              | EntrySkip _ =>
                  match own_ready with
                  | NoReady => mret MetaOk
                  | ReadyGraded _ _ _ => mret MetaNever
                  end
              end
        end
    end.

Definition meta_ok_entry (entry : ResolutionEntry) : AM bool :=
  status ← meta_entry_status entry; mret (bool_decide (status = MetaOk)).

Definition meta_ok (entries : list ResolutionEntry) : AM bool := all_m meta_ok_entry entries.

(** Rejects non-skip entries after a skip vote or terminal skip. *)
Definition stance_excludes (e : AgbEngine) (entry : ResolutionEntry) : bool :=
  match entry with
  | EntrySkip _ => false
  | EntryFull u _ _ | EntryCore u _ _ =>
      negb (is_pruned e u) &&
      view_and e u (fun s => bool_decide (stance s = SkipVoted) || bool_decide (sealed s = Some OSkip))
  end.

(** [if target.stance == Free { target.stance = NonSkip }]. *)
Definition claim_non_skip (entry : ResolutionEntry) : AM () :=
  match entry with
  | EntryFull u _ _ | EntryCore u _ _ =>
      upd u (fun s => if decide (stance s = Free) then s <| stance := NonSkip |> else s)
  | EntrySkip _ => skip
  end.

Definition try_meta_ok (w : View) (entries : list ResolutionEntry) : AM bool :=
  match entries with
  | [] => mret true
  | _ =>
      e ← eng;
      if view_and e w aux_accepted then mret true
      else if existsb (stance_excludes e) entries then mret false
      else
        ok ← meta_ok entries;
        if negb ok then mret false
        else
          for_each claim_non_skip entries;;
          upd w (fun s => s <| aux_accepted := true |>);;
          mret true
  end.

Definition positive_gate_holds (proposal : ProposalOut) : AM bool :=
  core ← core_ok (p_c proposal);
  if negb core then mret false
  else
    tips ← core_ok (p_t proposal);
    if negb tips then mret false
    else
      paired ← tip_ok (p_c proposal) (p_t proposal);
      if negb paired then mret false
      else try_meta_ok (p_view proposal) (p_entries proposal).

Definition compute_origin_entry (e : AgbEngine) (entry : ResolutionEntry) : option Z :=
  let own_echo := s ← views e !! target_view entry; echo_statements s !! name (cfg e) in
  match entry with
  | EntryFull _ c t =>
      Some (match own_echo with
            | Some (EchoGraded p _ g _) =>
                indicator ((g =? 1) && bool_decide (p_c p = c /\ p_t p = t))
            | _ => 0
            end)
  | EntryCore _ c t =>
      Some (match own_echo with
            | Some (EchoGraded p _ _ _) => indicator (bool_decide (p_c p = c /\ p_t p = t))
            | _ => 0
            end)
  | EntrySkip _ => None
  end.

Definition compute_origin (e : AgbEngine) (entries : list ResolutionEntry) : list (option Z) :=
  compute_origin_entry e <$> entries.

(** ** Counting statements *)

Definition count_echo_statement (view : View) (sender : PublicKey) (statement : EchoStatement)
    : AM bool :=
  e ← eng;
  if is_pruned e view then mret false
  else
    s ← state_mut view;
    match echo_statements s !! sender with
    | Some _ => mret false
    | None => upd view (apply_echo (cfg e) sender statement);; mret true
    end.

Definition count_ready_statement (view : View) (sender : PublicKey) (statement : ReadyStatement)
    : AM bool :=
  e ← eng;
  if is_pruned e view then mret false
  else
    s ← state_mut view;
    let '(s', accepted) := apply_ready (cfg e) sender statement s in
    upd view (fun _ => s');; mret accepted.

Definition count_skip_vote_statement (view : View) (sender : PublicKey) : AM bool :=
  e ← eng;
  if is_pruned e view then mret false
  else
    s ← state_mut view;
    upd view (fun s => s <| skip_vote_statements ::= union {[ sender ]} |>);;
    mret (negb (bool_decide (sender ∈ skip_vote_statements s))).

(** ** Locks and seals *)

Definition record_lock (view : View) (proposal : ProposalOut) (digest : Digest) : AM () :=
  e ← eng;
  if is_pruned e view then skip
  else
    s ← state_mut view;
    match lock s with
    | Some _ => skip
    | None =>
        let active := nonmatching_echoes s digest <? f_plus_1 (cfg e) in
        upd view (fun s => s <| lock := Some (mkLock proposal digest active) |>)
    end.

Definition recheck_lock_release (view : View) : AM () :=
  e ← eng;
  match views e !! view with
  | None => skip
  | Some s =>
      match lock s with
      | None => skip
      | Some l =>
          if negb (lock_active l) then skip
          else if f_plus_1 (cfg e) <=? nonmatching_echoes s (lock_digest l) then
            upd view (fun s => s <| lock := Some (mkLock (lock_proposal l) (lock_digest l) false) |>)
          else skip
      end
  end.

Definition try_seal (view : View) (outcome : Outcome) : AM () :=
  e ← eng;
  if is_pruned e view then skip
  else
    s ← state_mut view;
    match sealed s with
    | Some _ => skip
    | None =>
        upd view (fun s => s <| completed_open_unsealed := false |> <| sealed := Some outcome |>);;
        emit (Sealed view outcome)
    end.

Definition recheck_fastseal_trigger (view : View) : AM () :=
  e ← eng;
  match views e !! view with
  | None => skip
  | Some s =>
      match lock s with
      | None => skip
      | Some l =>
          if negb (lock_active l) then skip
          else if fastsealed s then skip
          else if matching_echoes s (lock_digest l) =? cfg_n (cfg e) then
            upd view (fun s => s <| fastsealed := true |>);;
            try_seal view (OFull (p_c (lock_proposal l)) (p_t (lock_proposal l)))
          else skip
      end
  end.

Definition submit_resolution (view : View) (outcome : Outcome) : AM () :=
  e ← eng;
  if is_pruned e view then skip else try_seal view outcome.

Definition recheck_skip_seal_trigger (u : View) : AM () :=
  e ← eng;
  if is_pruned e u then skip
  else if view_and e u skip_sealed then skip
  else if view_count e u (fun s => Z.of_nat (size (skip_vote_statements s))) <? quorum_parties (cfg e)
  then skip
  else
    upd u (fun s => s <| skip_sealed := true |>);;
    try_seal u OSkip.

Definition on_skip_vote (view : View) (sender : PublicKey) : AM () :=
  e ← eng;
  if is_pruned e view then skip
  else
    fresh ← count_skip_vote_statement view sender;
    if negb fresh then skip else recheck_skip_seal_trigger view.

Definition skip_vote_ready (cf : AgbConfig) (s : ViewState) : bool :=
  bool_decide (stance s = Free) &&
  bool_decide (ready_statements s !! name cf = Some NoReady) &&
  negb (match sealed s with Some (OFull _ _) | Some (OCore _) => true | _ => false end).

Definition echo_skip_count (e : AgbEngine) (view : View) : Z := view_count e view echo_skip_parties.

Definition recheck_skip_vote_trigger (u : View) : AM () :=
  e ← eng;
  if is_pruned e u then skip
  else if negb (view_and e u (skip_vote_ready (cfg e)))
          || (echo_skip_count e u <? quorum_parties (cfg e)) then skip
  else
    upd u (fun s => s <| stance := SkipVoted |>);;
    count_skip_vote_statement u (name (cfg e));;
    emit (BroadcastSkipVote u);;
    recheck_skip_seal_trigger u.

(** ** The READY stage *)

(** [if any_stake >= self.quorum && self.state_mut(view).completed.is_none()]. *)
Definition complete_if_quorum (cf : AgbConfig) (view : View) (tally : ReadyTally) : AM () :=
  let q := quorum cf in
  let c := p_c (rt_proposal tally) in
  let t := p_t (rt_proposal tally) in
  if negb (q <=? rt_any tally) then skip
  else
    s ← state_mut view;
    match completed s with
    | Some _ => skip
    | None =>
        w ← env;
        let is_open := (rt_grade_one tally <? q) && (rt_grade_zero tally <? q)
                       && negb (bool_decide (t = [])) in
        upd view (fun s => s <| completed := Some (c, t) |>
          <| completed_instant := Some (instant_now w) |>
          <| completed_open_unsealed := is_open && bool_decide (sealed s = None) |>);;
        for_each rep_authorize (c ++ aux_refs_entries (p_entries (rt_proposal tally)));;
        when is_open (emit (QuarantineTips t));;
        emit (Completed view c t)
    end.

(** [if self.state_mut(view).directed.is_none()]. *)
Definition direct_if_quorum (cf : AgbConfig) (view : View) (tally : ReadyTally) : AM () :=
  let q := quorum cf in
  let c := p_c (rt_proposal tally) in
  let t := p_t (rt_proposal tally) in
  s ← state_mut view;
  match directed s with
  | Some _ => skip
  | None =>
      if q <=? rt_grade_one tally then
        upd view (fun s => s <| directed := Some (OFull c t) |>);;
        try_seal view (OFull c t)
      else if q <=? rt_grade_zero tally then
        upd view (fun s => s <| directed := Some (OCore c) |>);;
        try_seal view (OCore c)
      else skip
  end.

Definition recheck_completion_and_direct (view : View) (digest : Digest) : AM () :=
  e ← eng;
  if is_pruned e view then skip
  else
    match s ← views e !! view; ready_tallies s !! digest with
    | None => skip
    | Some tally =>
        complete_if_quorum (cfg e) view tally;;
        direct_if_quorum (cfg e) view tally
    end.

Definition finalize_mix_if_closed (view : View) (deadline : bool) : AM () :=
  e ← eng;
  when (view_and e view (fun s => ready_mix_open s &&
          (deadline || (Z.of_nat (size (echo_statements s)) =? cfg_n (cfg e)))))
    (upd view (fun s => s <| ready_mix_open := false |>)).

Definition emit_initial_ready (view : View) (digest : Digest) (proposal : ProposalOut)
    (grade : ReadyGrade) : AM () :=
  e ← eng;
  upd view (fun s => s <| ready_sent := true |>
                       <| ready_mix_open := bool_decide (grade = GMix) |>);;
  count_ready_statement view (name (cfg e)) (ReadyGraded proposal digest grade);;
  wish_effect view StageReady;;
  emit (BroadcastReady (build_ready_out (cfg e) proposal grade));;
  recheck_completion_and_direct view digest;;
  finalize_mix_if_closed view false.

Definition emit_ready_refinement (view : View) (digest : Digest) (proposal : ProposalOut)
    (grade : ReadyGrade) : AM () :=
  e ← eng;
  accepted ← count_ready_statement view (name (cfg e)) (ReadyGraded proposal digest grade);
  if negb accepted then skip
  else
    upd view (fun s => s <| ready_mix_open := false |>);;
    emit (BroadcastReady (build_ready_out (cfg e) proposal grade));;
    recheck_completion_and_direct view digest.

(** [self.ready_candidate(view)] and [self.ready_refinement_candidate(view)]. *)
Definition candidate (e : AgbEngine) (view : View) : option (Digest * ProposalOut * ReadyGrade) :=
  s ← views e !! view; ready_candidate (cfg e) s.
Definition refinement (e : AgbEngine) (view : View) : option (Digest * ProposalOut * ReadyGrade) :=
  s ← views e !! view; ready_refinement_candidate (cfg e) s.

Definition recheck_ready (view : View) : AM () :=
  e ← eng;
  if is_pruned e view then skip
  else
    s ← state_mut view;
    e ← eng;
    if negb (ready_sent s) then
      match candidate e view with
      | Some (d, p, g) => emit_initial_ready view d p g
      | None => skip
      end
    else
      match refinement e view with
      | Some (d, p, g) => emit_ready_refinement view d p g
      | None => finalize_mix_if_closed view false
      end.

Definition on_ready_timer (view : View) : AM () :=
  e ← eng;
  if is_pruned e view then skip
  else
    s ← state_mut view;
    e ← eng;
    if ready_sent s then
      match refinement e view with
      | Some (d, p, g) => emit_ready_refinement view d p g
      | None => finalize_mix_if_closed view true
      end
    else
      match candidate e view with
      | Some (d, p, g) =>
          emit_initial_ready view d p g;;
          finalize_mix_if_closed view true
      | None =>
          upd view (fun s => s <| ready_sent := true |>);;
          count_ready_statement view (name (cfg e)) NoReady;;
          wish_effect view StageReady;;
          emit (BroadcastNoReady view);;
          recheck_skip_vote_trigger view
      end.

Definition on_ready_any (ready : ReadyOut) : AM () :=
  let view := ro_proposal_view ready in
  e ← eng;
  if is_pruned e view then skip
  else
    pd ← canonical_proposal view (ro_into_proposal_out ready);
    accepted ← count_ready_statement view (ro_sender ready) (ReadyGraded pd.1 pd.2 (ro_grade ready));
    if negb accepted then skip else recheck_completion_and_direct view pd.2.

Definition on_ready (ready : Ready) : AM () := on_ready_any (RSingle ready).
Definition on_ready_batch (ready : ReadyBatch) : AM () := on_ready_any (RBatch ready).

Definition on_noready (view : View) (sender : PublicKey) : AM () :=
  e ← eng;
  if is_pruned e view then skip
  else count_ready_statement view sender NoReady;; skip.

(** ** The ECHO stage *)

(** The calls that follow every counted graded echo. *)
Definition after_echo (view : View) : AM () :=
  recheck_lock_release view;;
  recheck_ready view;;
  recheck_fastseal_trigger view;;
  recheck_skip_vote_trigger view.

Definition recheck_gate (view : View) : AM () :=
  e ← eng;
  if is_pruned e view then skip
  else
    s ← state_mut view;
    if negb (active s) || echo_sent s then skip
    else
      match fixed s with
      | FixedProposal proposal digest =>
          ok ← positive_gate_holds proposal;
          if negb ok then skip
          else
            record_lock view proposal digest;;
            upd view (fun s => s <| echo_sent := true |>);;
            on_engine (fun e => e <| pending_gate ::= fun P => P ∖ {[ view ]} |>);;
            e ← eng;
            let origin := compute_origin e (p_entries proposal) in
            count_echo_statement view (name (cfg e)) (EchoGraded proposal digest 1 origin);;
            wish_effect view StageEcho;;
            emit (BroadcastEcho (build_echo_out (cfg e) proposal 1 origin));;
            after_echo view
      | _ => skip
      end.

Definition recheck_all : AM () :=
  e ← eng;
  let views := recheck_window (pending_gate e) (recheck_cursor e) RECHECK_BUDGET in
  match last views with
  | Some l => on_engine (fun e => e <| recheck_cursor := u64_saturating_add l 1 |>)
  | None => skip
  end;;
  for_each recheck_gate views.

Definition activate (view : View) : AM () :=
  e ← eng;
  if is_pruned e view then skip
  else
    s ← state_mut view;
    if active s then skip
    else
      upd view (fun s => s <| active := true |>);;
      when (match fixed s with FixedProposal _ _ => negb (echo_sent s) | _ => false end)
        (on_engine (fun e => e <| pending_gate ::= union {[ view ]} |>));;
      recheck_gate view.

Definition enter (view : View) (now : Instant) : AM () :=
  e ← eng;
  if is_pruned e view then skip
  else
    s ← state_mut view;
    if entered s then skip
    else
      upd view (fun s => s <| entered := true |> <| entry_instant := Some now |>);;
      emit (ArmTimer view EchoAbsolute (now + theta_echo (cfg e)));;
      emit (ArmTimer view ReadyAbsolute (now + theta_ready (cfg e)));;
      when (match fixed s with FixedProposal _ _ => negb (echo_sent s) | _ => false end)
        (match first_proposal_instant s with
         | Some rho =>
             let t := Z.max now rho in
             emit (ArmTimer view EchoFallback
               (Z.min (t + delta (cfg e)) (now + theta_echo (cfg e))))
         | None => skip
         end);;
      activate view.

Definition on_propose_any (sender : PublicKey) (proposal : ProposalOut) (now : Instant) : AM () :=
  let view := p_view proposal in
  e ← eng;
  if is_pruned e view then skip
  else if negb (bool_decide (Some sender = agb_proposer (cfg e) view)) then skip
  else
    s ← state_mut view;
    if match entry_instant s with Some entry => entry + theta_echo (cfg e) <? now | None => false end
    then skip
    else if negb (bool_decide (fixed s = Unset)) then skip
    else
      upd view (fun s => s <| first_proposal_instant ::= fun o => Some (default now o) |>);;
      if negb (p_formed (committee (cfg e)) proposal) then
        upd view (fun s => s <| fixed := Reject |>);;
        emit (FixedView view false)
      else
        pd ← canonical_proposal view proposal;
        upd view (fun s => s <| fixed := FixedProposal pd.1 pd.2 |>);;
        when (active s && negb (echo_sent s))
          (on_engine (fun e => e <| pending_gate ::= union {[ view ]} |>));;
        for_each rep_authorize
          (p_c pd.1 ++ p_t pd.1 ++ aux_refs_entries (p_entries pd.1));;
        emit (FixedView view true);;
        match entry_instant s with
        | Some entry =>
            let t := Z.max entry now in
            emit (ArmTimer view EchoFallback
              (Z.min (t + delta (cfg e)) (entry + theta_echo (cfg e))))
        | None => skip
        end;;
        recheck_gate view.

Definition on_propose (sender : PublicKey) (p : ViewProposal) (now : Instant) : AM () :=
  on_propose_any sender (PSingle p) now.
Definition on_propose_batch (sender : PublicKey) (p : BatchViewProposal) (now : Instant) : AM () :=
  on_propose_any sender (PBatch p) now.

Definition try_direct_resolution_vote (entry : ResolutionEntry) (fresh : bool)
    : AM DirectVoteDecision :=
  e ← eng;
  let target := target_view entry in
  if is_pruned e target then mret VoteNever
  else if negb fresh then mret (VoteAccept None)
  else
    let incompatible :=
      match (s ← views e !! target; sealed s), entry with
      | None, _ => false
      | Some (OFull sc st), EntryFull _ c t => negb (bool_decide (sc = c /\ st = t))
      | Some (OCore sc), EntryCore _ c _ => negb (bool_decide (sc = c))
      | Some OSkip, EntrySkip _ => false
      | Some _, _ => true
      end in
    if incompatible then mret VoteNever
    else if stance_excludes e entry then mret VoteNever
    else
      status ← meta_entry_status entry;
      match status with
      | MetaNever => mret VoteNever
      | MetaNotYet => mret VoteNotYet
      | MetaOk =>
          claim_non_skip entry;;
          e ← eng;
          mret (VoteAccept (compute_origin_entry e entry))
      end.

(** The own echo-skip response. *)
Definition skip_echo (view : View) : AM () :=
  e ← eng;
  count_echo_statement view (name (cfg e)) EchoStSkip;;
  emit (BroadcastEchoSkip view).

Definition on_echo_fallback_timer (view : View) : AM () :=
  e ← eng;
  if is_pruned e view then skip
  else
    s ← state_mut view;
    if echo_sent s then skip
    else
      match fixed s with
      | FixedProposal proposal digest =>
          upd view (fun s => s <| echo_sent := true |>);;
          on_engine (fun e => e <| pending_gate ::= fun P => P ∖ {[ view ]} |>);;
          wish_effect view StageEcho;;
          core ← core_ok (p_c proposal);
          meta ← (if (core : bool) then try_meta_ok view (p_entries proposal) else mret false);
          (if (meta : bool) then
             e ← eng;
             let origin := compute_origin e (p_entries proposal) in
             count_echo_statement view (name (cfg e)) (EchoGraded proposal digest 0 origin);;
             emit (BroadcastEcho (build_echo_out (cfg e) proposal 0 origin))
           else skip_echo view);;
          after_echo view
      | _ => skip
      end.

Definition on_echo_absolute_timer (view : View) : AM () :=
  e ← eng;
  if is_pruned e view then skip
  else
    s ← state_mut view;
    if echo_sent s then skip
    else
      upd view (fun s => s <| echo_sent := true |>);;
      on_engine (fun e => e <| pending_gate ::= fun P => P ∖ {[ view ]} |>);;
      wish_effect view StageEcho;;
      skip_echo view;;
      after_echo view.

(** The views of [views_awaiting_proposal_from] satisfy this, and so does a
    view [refuse_unproposed_view] acts on. *)
Definition awaiting_proposal (s : ViewState) : bool :=
  entered s && bool_decide (sealed s = None) && negb (echo_sent s)
  && bool_decide (fixed s = Unset).

Definition views_awaiting_proposal_from (e : AgbEngine) (proposer : PublicKey) : list View :=
  (filter (fun p => awaiting_proposal p.2 && negb (is_pruned e p.1)
     && bool_decide (agb_proposer (cfg e) p.1 = Some proposer) = true) (map_iter (views e))).*1.

Definition refuse_unproposed_view (view : View) : AM () :=
  e ← eng;
  if is_pruned e view then skip
  else if negb (view_and e view awaiting_proposal) then skip
  else
    on_echo_absolute_timer view;;
    on_ready_timer view.

Definition on_echo_any (echo : EchoOut) : AM () :=
  if eo_grade echo >? 1 then skip
  else
    let view := eo_proposal_view echo in
    e ← eng;
    if is_pruned e view then skip
    else
      pd ← canonical_proposal view (eo_into_proposal_out echo);
      counted ← count_echo_statement view (eo_sender echo)
        (EchoGraded pd.1 pd.2 (eo_grade echo) (eo_origin_vec echo));
      if negb counted then skip else after_echo view.

Definition claim_anchor (c : ClaimRef) : BlockRef :=
  match c with Exact r => r | Ancestor anchor _ => anchor end.

(** The availability claims a first, well-formed echo of a member carries. *)
Definition absorb_claims (sender : PublicKey) (claim : option AvailClaim)
    (refs : list BlockRef) : AM () :=
  match claim with
  | None => skip
  | Some claim =>
      match statements claim refs with
      | [] => skip
      | l => emit (AvailClaimed sender l);; for_each (fun c => rep_authorize (claim_anchor c)) l
      end
  end.

Definition first_echo (e : AgbEngine) (view : View) (sender : PublicKey) : bool :=
  negb (view_and e view (fun s => bool_decide (is_Some (echo_statements s !! sender)))).

Definition on_echo (echo : Echo) : AM () :=
  e ← eng;
  let p := echo_proposal echo in
  when ((echo_grade echo <=? 1) && negb (is_pruned e (vp_view p))
        && first_echo e (vp_view p) (echo_sender echo)
        && is_member (committee (cfg e)) (echo_sender echo)
        && formed (committee (cfg e)) (vp_view p) (vp_c p) (vp_t p) (vp_m p))
    (absorb_claims (echo_sender echo) (echo_avail echo) (manifest_refs p));;
  on_echo_any (ESingle echo).

Definition on_echo_batch (echo : EchoBatch) : AM () :=
  e ← eng;
  let p := eb_proposal echo in
  when ((eb_grade echo <=? 1) && negb (is_pruned e (bp_view p))
        && first_echo e (bp_view p) (eb_sender echo)
        && is_member (committee (cfg e)) (eb_sender echo)
        && formed_batch (committee (cfg e)) (bp_view p) (bp_c p) (bp_t p) (bp_m p))
    (absorb_claims (eb_sender echo) (eb_avail echo) (batch_manifest_refs p));;
  on_echo_any (EBatch echo).

Definition on_echo_skip (view : View) (sender : PublicKey) : AM () :=
  e ← eng;
  if is_pruned e view then skip
  else
    counted ← count_echo_statement view sender EchoStSkip;
    if negb counted then skip
    else
      recheck_lock_release view;;
      finalize_mix_if_closed view false;;
      recheck_fastseal_trigger view;;
      recheck_skip_vote_trigger view.

Definition gc (floor : View) : AM () := on_engine (gc_below floor).
End agb.
