(* ===== verification/AgbSteps.v ===== *)
(** The engine as a step relation.

    Every handler of [Agb.v] is shown to run as a sequence of atomic steps: a
    guarded change of one live view's state with the effects it emits
    ([vstep]), a change outside the views, or a garbage collection.  The
    invariants and trace properties of the engine are then proved once per
    atomic step. *)

From S2P Require Import Prelude Committee Types Formed Claim AgbState Agb.

(** ** Effects of the engine's own protocol *)

(** Everything the engine emits apart from its protocol statements and results. *)
Definition foreign (x : Effect) : bool :=
  match x with
  | BroadcastEcho _ | BroadcastEchoSkip _ | BroadcastReady _ | BroadcastNoReady _
  | BroadcastSkipVote _ | Completed _ _ _ | Sealed _ _ => false
  | _ => true
  end.

(** The repairer and the lane manager emit none of the engine's statements. *)
Class AgbEnvLaws (E : Type) `{!AgbEnv E} : Prop := {
  authorize_foreign r w : Forall (fun x => foreign x = true) (authorize r w).1;
}.

(** ** What the outside world feeds the engine

    The statements remote parties made, as recorded, and the outcomes the
    resolver submitted. *)
Record Inputs := mkInputs {
  said_echo : View -> PublicKey -> EchoStatement -> Prop;
  said_ready : View -> PublicKey -> ReadyStatement -> Prop;
  said_skip : View -> PublicKey -> Prop;
  in_resolved : View -> Outcome -> Prop;
}.

(** No restriction on the statements; no resolver. *)
Definition any_inputs : Inputs :=
  mkInputs (fun _ _ _ => True) (fun _ _ _ => True) (fun _ _ => True) (fun _ _ => False).

(** ** Atomic steps of a view *)

Section vstep.
Context {Hash : Hashing} (inp : Inputs) (cf : AgbConfig) (v : View).

(** A proposal for this view under its own digest. *)
Definition canonical (p : ProposalOut) (d : Digest) : Prop :=
  p_view p = v /\ d = p_digest (sid cf) p.

Definition echo_canonical (x : EchoStatement) : Prop :=
  match x with EchoGraded p d _ _ => canonical p d | EchoStSkip => True end.

Definition ready_canonical (x : ReadyStatement) : Prop :=
  match x with ReadyGraded p d _ => canonical p d | NoReady => True end.

Definition echo_message (x : EchoStatement) : Effect :=
  match x with
  | EchoGraded p _ g origin => BroadcastEcho (build_echo_out cf p g origin)
  | EchoStSkip => BroadcastEchoSkip v
  end.

Definition ready_message (x : ReadyStatement) : Effect :=
  match x with
  | ReadyGraded p _ g => BroadcastReady (build_ready_out cf p g)
  | NoReady => BroadcastNoReady v
  end.

(** An own graded echo repeats the fixed proposal; a grade-1 echo is locked. *)
Definition own_echo_ok (s : ViewState) (x : EchoStatement) : Prop :=
  match x with
  | EchoGraded p d g origin =>
      fixed s = FixedProposal p d /\ length origin = length (p_entries p) /\
      (g = 0 \/ (g = 1 /\ exists l, lock s = Some l /\ lock_digest l = d))
  | EchoStSkip => True
  end.

(** What justifies sealing outcome [o]: the direct outcome, an active lock
    matched by every party, a quorum of skip votes, or the resolver, whose
    submissions are [in_resolved]. *)
Definition seal_reason (s : ViewState) (o : Outcome) : Prop :=
  directed s = Some o \/
  (exists l, lock s = Some l /\ lock_active l = true /\
     matching_echoes s (lock_digest l) = cfg_n cf /\
     o = OFull (p_c (lock_proposal l)) (p_t (lock_proposal l))) \/
  (o = OSkip /\ quorum_parties cf <= Z.of_nat (size (skip_vote_statements s))) \/
  in_resolved inp v o.

Inductive vstep : ViewState -> list Effect -> ViewState -> Prop :=
| vs_touch s : vstep s [] s
| vs_enter s now : entered s = false ->
    vstep s [] (s <| entered := true |> <| entry_instant := Some now |>)
| vs_activate s : vstep s [] (s <| active := true |>)
| vs_first s now :
    vstep s [] (s <| first_proposal_instant ::= fun o => Some (default now o) |>)
| vs_cache s p : p_view p = v ->
    vstep s [] (s <| digest_cache ::= fun l => l ++ [(p, p_digest (sid cf) p)] |>)
| vs_reject s : fixed s = Unset -> vstep s [] (s <| fixed := Reject |>)
| vs_fix s p d : fixed s = Unset -> canonical p d -> p_formed (committee cf) p = true ->
    vstep s [] (s <| fixed := FixedProposal p d |>)
| vs_lock s p d : lock s = None -> fixed s = FixedProposal p d -> echo_sent s = false ->
    vstep s [] (s <| lock := Some (mkLock p d (nonmatching_echoes s d <? f_plus_1 cf)) |>
                  <| echo_sent := true |>)
| vs_release s l : lock s = Some l -> lock_active l = true ->
    f_plus_1 cf <= nonmatching_echoes s (lock_digest l) ->
    vstep s [] (s <| lock := Some (mkLock (lock_proposal l) (lock_digest l) false) |>)
| vs_echo_flag s : echo_sent s = false -> vstep s [] (s <| echo_sent := true |>)
| vs_own_echo s x w : echo_sent s = true -> echo_statements s !! name cf = None ->
    echo_canonical x -> own_echo_ok s x -> Forall (fun y => foreign y = true) w ->
    vstep s (w ++ [echo_message x]) (apply_echo cf (name cf) x s)
| vs_echo s sender x : sender <> name cf -> said_echo inp v sender x ->
    echo_statements s !! sender = None -> echo_canonical x ->
    match x with EchoGraded p _ _ origin => (length origin <= length (p_entries p))%nat | _ => True end ->
    vstep s [] (apply_echo cf sender x s)
| vs_own_ready s d p g w : ready_sent s = false -> ready_statements s !! name cf = None ->
    ready_candidate cf s = Some (d, p, g) -> canonical p d ->
    Forall (fun y => foreign y = true) w ->
    vstep s (w ++ [ready_message (ReadyGraded p d g)])
      (apply_ready cf (name cf) (ReadyGraded p d g)
        (s <| ready_sent := true |> <| ready_mix_open := bool_decide (g = GMix) |>)).1
| vs_own_noready s w : ready_sent s = false -> ready_statements s !! name cf = None ->
    ready_candidate cf s = None -> Forall (fun y => foreign y = true) w ->
    vstep s (w ++ [ready_message NoReady])
      (apply_ready cf (name cf) NoReady (s <| ready_sent := true |>)).1
| vs_refine s d p g : ready_refinement_candidate cf s = Some (d, p, g) ->
    (apply_ready cf (name cf) (ReadyGraded p d g) s).2 = true ->
    vstep s [ready_message (ReadyGraded p d g)]
      ((apply_ready cf (name cf) (ReadyGraded p d g) s).1 <| ready_mix_open := false |>)
| vs_close_mix s : vstep s [] (s <| ready_mix_open := false |>)
| vs_ready s sender x : sender <> name cf -> said_ready inp v sender x -> ready_canonical x ->
    vstep s [] (apply_ready cf sender x s).1
| vs_complete s d tally now w : completed s = None -> ready_tallies s !! d = Some tally ->
    quorum cf <= rt_any tally -> Forall (fun y => foreign y = true) w ->
    let c := p_c (rt_proposal tally) in
    let t := p_t (rt_proposal tally) in
    let is_open := (rt_grade_one tally <? quorum cf) && (rt_grade_zero tally <? quorum cf)
                   && negb (bool_decide (t = [])) in
    vstep s (w ++ [Completed v c t])
      (s <| completed := Some (c, t) |> <| completed_instant := Some now |>
         <| completed_open_unsealed := is_open && bool_decide (sealed s = None) |>)
| vs_direct s d tally o : directed s = None -> ready_tallies s !! d = Some tally ->
    (quorum cf <= rt_grade_one tally /\
       o = OFull (p_c (rt_proposal tally)) (p_t (rt_proposal tally)) \/
     quorum cf <= rt_grade_zero tally /\ o = OCore (p_c (rt_proposal tally))) ->
    vstep s [] (s <| directed := Some o |>)
| vs_fastseal s : vstep s [] (s <| fastsealed := true |>)
| vs_skip_sealed s : vstep s [] (s <| skip_sealed := true |>)
| vs_seal s o : sealed s = None -> seal_reason s o ->
    vstep s [Sealed v o] (s <| completed_open_unsealed := false |> <| sealed := Some o |>)
| vs_non_skip s : stance s = Free -> vstep s [] (s <| stance := NonSkip |>)
| vs_aux s : vstep s [] (s <| aux_accepted := true |>)
| vs_skip_vote s : skip_vote_ready cf s = true -> quorum_parties cf <= echo_skip_parties s ->
    vstep s [BroadcastSkipVote v]
      (s <| stance := SkipVoted |> <| skip_vote_statements ::= union {[ name cf ]} |>)
| vs_skip_vote_in s sender : sender <> name cf -> said_skip inp v sender ->
    vstep s [] (s <| skip_vote_statements ::= union {[ sender ]} |>).
End vstep.

(** ** Steps of the engine *)

Section steps.
Context {Hash : Hashing} {E : Type} (inp : Inputs).

Inductive estep : AgbEngine * E -> list Effect -> AgbEngine * E -> Prop :=
| es_view e v es s' w w' : is_pruned e v = false ->
    vstep inp (cfg e) v (view_state e v) es s' ->
    estep (e, w) es (update_view v (fun _ => s') e, w')
| es_frame e e' w w' es : cfg e' = cfg e -> views e' = views e ->
    min_live_view e' = min_live_view e -> Forall (fun y => foreign y = true) es ->
    estep (e, w) es (e', w')
| es_gc e w floor : estep (e, w) [] (gc_below floor e, w).

Inductive chain : AgbEngine * E -> list Effect -> AgbEngine * E -> Prop :=
| chain_nil s : chain s [] s
| chain_step s1 s2 s3 es1 es2 : estep s1 es1 s2 -> chain s2 es2 s3 -> chain s1 (es1 ++ es2) s3.

Lemma chain_one s es s' : estep s es s' -> chain s es s'.
Proof. intros Hs. rewrite <- (app_nil_r es). eapply chain_step; [done|constructor]. Qed.

Lemma chain_trans s1 s2 s3 es1 es2 : chain s1 es1 s2 -> chain s2 es2 s3 -> chain s1 (es1 ++ es2) s3.
Proof.
  induction 1 as [|s1 s1' s2 es es' Hstep Hc IH]; [done|]. intros Hs.
  rewrite <- (assoc_L (++)). eapply chain_step; [done|]. by apply IH.
Qed.

#[export] Instance chain_trace : TraceRel chain.
Proof. split; [constructor|intros; by eapply chain_trans]. Qed.
End steps.

(** ** Shape of the tally updates *)

Definition echo_tallies_after (cf : AgbConfig) (k : PublicKey) (x : EchoStatement) (s : ViewState)
    : gmap Digest EchoTally :=
  match x with
  | EchoGraded p d g origin =>
      <[ d := (echo_tally_add (stake (committee cf) k) g origin
                 (default (echo_tally_new p) (echo_tallies s !! d))).1 ]> (echo_tallies s)
  | EchoStSkip => echo_tallies s
  end.

Definition panicked_after (cf : AgbConfig) (k : PublicKey) (x : EchoStatement) (s : ViewState) : bool :=
  match x with
  | EchoGraded p d g origin =>
      (echo_tally_add (stake (committee cf) k) g origin
         (default (echo_tally_new p) (echo_tallies s !! d))).2 || vs_panicked s
  | EchoStSkip => vs_panicked s
  end.

Definition echo_is_skip (x : EchoStatement) : bool :=
  match x with EchoGraded _ _ _ _ => false | EchoStSkip => true end.

Lemma apply_echo_shape cf k x s :
  apply_echo cf k x s =
  s <| echo_tallies := echo_tallies_after cf k x s |> <| vs_panicked := panicked_after cf k x s |>
    <| echo_skip_parties ::= Z.add (indicator (echo_is_skip x)) |>
    <| echo_statements ::= <[ k := x ]> |>.
Proof. destruct s, x; done. Qed.

Definition ready_tallies_after (cf : AgbConfig) (k : PublicKey) (x : ReadyStatement) (s : ViewState)
    : gmap Digest ReadyTally :=
  match x with
  | NoReady => ready_tallies s
  | ReadyGraded p d g =>
      let w := stake (committee cf) k in
      let t := default (ready_tally_new p) (ready_tallies s !! d) in
      let t := match ready_statements s !! k with Some _ => t | None => ready_tally_any w t end in
      <[ d := ready_tally_grade w g t ]> (ready_tallies s)
  end.

(** The statement a sender is bound to admits [x]: it is the first, or a
    refinement of a recorded READY-mix. *)
Definition ready_admits (k : PublicKey) (x : ReadyStatement) (s : ViewState) : bool :=
  match ready_statements s !! k with
  | None => true
  | Some y =>
      valid_refinement y x &&
      match x with
      | ReadyGraded _ d _ => bool_decide (is_Some (ready_tallies s !! d))
      | NoReady => false
      end
  end.

Definition is_zero_or_noready (x : ReadyStatement) : bool :=
  match x with ReadyGraded _ _ GZero | NoReady => true | _ => false end.
Definition is_noready (x : ReadyStatement) : bool :=
  match x with NoReady => true | _ => false end.
Definition is_grade_one (x : ReadyStatement) : bool :=
  match x with ReadyGraded _ _ GOne => true | _ => false end.

Lemma apply_ready_shape cf k x s :
  apply_ready cf k x s =
  if ready_admits k x s then
    (s <| ready_tallies := ready_tallies_after cf k x s |>
       <| ready_non_grade_one_parties ::= Z.add (indicator
            (bool_decide (ready_statements s !! k = None) && negb (is_grade_one x))) |>
       <| ready_zero_or_noready_parties ::= Z.add (indicator (is_zero_or_noready x)) |>
       <| noready_parties ::= Z.add (indicator (is_noready x)) |>
       <| ready_statements ::= <[ k := x ]> |>, true)
  else (s, false).
Proof.
  unfold apply_ready, ready_admits, ready_tallies_after.
  destruct (ready_statements s !! k) as [y|] eqn:Hy.
  - destruct (valid_refinement y x) eqn:Hv; [|done].
    destruct y as [py dy [| |]|]; try done. destruct x as [px dx [| |]|]; try done;
      destruct (ready_tallies s !! dx) eqn:Ht; try done; destruct s; done.
  - destruct x as [p d [| |]|]; destruct s; done.
Qed.

(** ** The invariant the handlers rely on *)

Section inv.
Context {Hash : Hashing}.

Record vinv (cf : AgbConfig) (v : View) (s : ViewState) : Prop := {
  vi_echo : is_Some (echo_statements s !! name cf) -> echo_sent s = true;
  vi_ready : is_Some (ready_statements s !! name cf) -> ready_sent s = true;
  vi_fixed p d : fixed s = FixedProposal p d ->
    canonical cf v p d /\ p_formed (committee cf) p = true;
  vi_lock l : lock s = Some l ->
    echo_sent s = true /\ fixed s = FixedProposal (lock_proposal l) (lock_digest l);
  vi_echoes k x : echo_statements s !! k = Some x -> echo_canonical cf v x;
  vi_tally d t : echo_tallies s !! d = Some t -> canonical cf v (et_proposal t) d;
  vi_readies k x : ready_statements s !! k = Some x -> ready_canonical cf v x;
  vi_rtally d t : ready_tallies s !! d = Some t -> canonical cf v (rt_proposal t) d;
  vi_cache p d : (p, d) ∈ digest_cache s -> canonical cf v p d;
  vi_mix : ready_mix_open s = true -> exists p d,
    ready_statements s !! name cf = Some (ReadyGraded p d GMix) /\ is_Some (ready_tallies s !! d);
}.

Definition inv (e : AgbEngine) : Prop :=
  forall v s, views e !! v = Some s -> min_live_view e <= v /\ vinv (cfg e) v s.

Lemma vinv_default cf v : vinv cf v vs_default.
Proof. split; cbn; intros *; rewrite ?lookup_empty; try done; intros [? [=]] || set_solver. Qed.

Lemma inv_view_state e v : inv e -> vinv (cfg e) v (view_state e v).
Proof.
  intros Hinv. unfold view_state. destruct (views e !! v) as [s|] eqn:Hs; simpl.
  - by apply Hinv.
  - apply vinv_default.
Qed.

Lemma et_proposal_add w g o t : et_proposal (echo_tally_add w g o t).1 = et_proposal t.
Proof. unfold echo_tally_add. by destruct (g =? 1). Qed.

Lemma rt_proposal_grade w g t : rt_proposal (ready_tally_grade w g t) = rt_proposal t.
Proof. by destruct g. Qed.

Lemma vinv_apply_echo cf v k x s :
  vinv cf v s -> echo_canonical cf v x -> (k = name cf -> echo_sent s = true) ->
  vinv cf v (apply_echo cf k x s).
Proof.
  intros [H1 H2 H3 H4 H5 H6 H7 H8 H9 H10] Hx Hk. rewrite apply_echo_shape. split; cbn; try done.
  - intros Hs. destruct (decide (k = name cf)) as [->|]; [by apply Hk|].
    rewrite lookup_insert_ne in Hs by done. by apply H1.
  - intros k' x'. destruct (decide (k = k')) as [<-|].
    + rewrite lookup_insert_eq. by intros [= <-].
    + rewrite lookup_insert_ne by done. apply H5.
  - intros d t. unfold echo_tallies_after. destruct x as [p d' g o|]; [|apply H6].
    destruct (decide (d' = d)) as [->|].
    + rewrite lookup_insert_eq. intros [= <-]. rewrite et_proposal_add.
      destruct (echo_tallies s !! d) as [t'|] eqn:Ht; [by apply H6|done].
    + rewrite lookup_insert_ne by done. apply H6.
Qed.

Lemma lookup_ready_tallies_after cf k x s d t :
  ready_tallies_after cf k x s !! d = Some t ->
  (exists t', ready_tallies s !! d = Some t' /\ rt_proposal t = rt_proposal t') \/
  (exists p g, x = ReadyGraded p d g /\ rt_proposal t = p).
Proof.
  unfold ready_tallies_after. destruct x as [p d' g|]; [|by eauto].
  destruct (decide (d' = d)) as [->|].
  - rewrite lookup_insert_eq. intros [= <-]. rewrite rt_proposal_grade.
    destruct (ready_tallies s !! d) as [t'|] eqn:Ht; simpl.
    + left. exists t'. by destruct (ready_statements s !! k).
    + right. exists p, g. by destruct (ready_statements s !! k).
  - rewrite lookup_insert_ne by done. eauto.
Qed.

Lemma ready_tallies_after_grow cf k x s d :
  is_Some (ready_tallies s !! d) -> is_Some (ready_tallies_after cf k x s !! d).
Proof.
  unfold ready_tallies_after. destruct x as [p d' g|]; [|done].
  rewrite lookup_insert_is_Some. intros. destruct (decide (d' = d)); auto.
Qed.

(** Counting a remote ready statement. *)
Lemma vinv_apply_ready cf v k x s :
  vinv cf v s -> ready_canonical cf v x -> k <> name cf -> vinv cf v (apply_ready cf k x s).1.
Proof.
  intros Hv Hx Hk. pose proof Hv as [H1 H2 H3 H4 H5 H6 H7 H8 H9 H10].
  rewrite apply_ready_shape. destruct (ready_admits k x s); [|done].
  split; cbn; try done.
  - by rewrite lookup_insert_ne.
  - intros k' x'. destruct (decide (k = k')) as [<-|].
    + rewrite lookup_insert_eq. by intros [= <-].
    + rewrite lookup_insert_ne by done. apply H7.
  - intros d t [(t' & Ht & ->)|(p & g & -> & ->)]%lookup_ready_tallies_after; [by apply H8|done].
  - rewrite lookup_insert_ne by done. intros (p & d & Hown & Ht)%H10.
    exists p, d. split; [done|]. by apply ready_tallies_after_grow.
Qed.

(** Recording the own ready statement [x]: mix stays open only if [x] is a mix. *)
Lemma vinv_own_ready cf v x b s :
  vinv cf v s -> ready_canonical cf v x -> ready_admits (name cf) x s = true ->
  (b = true -> exists p d, x = ReadyGraded p d GMix) ->
  vinv cf v ((apply_ready cf (name cf) x (s <| ready_sent := true |> <| ready_mix_open := b |>)).1).
Proof.
  intros Hv Hx Ha Hb. pose proof Hv as [H1 H2 H3 H4 H5 H6 H7 H8 H9 H10].
  rewrite apply_ready_shape.
  assert (ready_admits (name cf) x (s <| ready_sent := true |> <| ready_mix_open := b |>) = true)
    as -> by done.
  split; cbn; try done.
  - intros k' x'. destruct (decide (name cf = k')) as [<-|].
    + rewrite lookup_insert_eq. by intros [= <-].
    + rewrite lookup_insert_ne by done. apply H7.
  - intros d t Ht. apply lookup_ready_tallies_after in Ht.
    destruct Ht as [(t' & Ht & ->)|(p & g & -> & ->)]; [by apply H8|done].
  - intros (p & d & ->)%Hb. exists p, d. rewrite lookup_insert_eq. split; [done|].
    unfold ready_tallies_after. by rewrite lookup_insert_eq.
Qed.

Lemma apply_ready_flags cf k x s b :
  ready_sent s = true ->
  (apply_ready cf k x s).1 <| ready_mix_open := b |> =
  (apply_ready cf k x (s <| ready_sent := true |> <| ready_mix_open := b |>)).1.
Proof.
  intros Hs. rewrite !apply_ready_shape.
  assert (Ha : ready_admits k x (s <| ready_sent := true |> <| ready_mix_open := b |>) =
    ready_admits k x s) by done.
  rewrite Ha. destruct (ready_admits k x s); destruct s; cbn in *; subst; done.
Qed.

Lemma refinement_candidate_inv cf s d p g :
  ready_refinement_candidate cf s = Some (d, p, g) ->
  ready_mix_open s = true /\ ready_statements s !! name cf = Some (ReadyGraded p d GMix) /\
  exists t, echo_tallies s !! d = Some t /\
  (g = GOne /\ quorum cf <= et_grade_one t \/ g = GZero /\ quorum cf <= et_grade_zero t).
Proof.
  unfold ready_refinement_candidate. destruct (ready_mix_open s); [|done]. simpl.
  destruct (ready_statements s !! name cf) as [[p' d' [| |]|]|]; try done.
  destruct (echo_tallies s !! d') as [t|] eqn:Ht; [|done]. simpl.
  destruct (Z.leb_spec (quorum cf) (et_grade_one t)).
  - intros [= -> -> <-]. split_and!; [done..|]. exists t. auto.
  - destruct (Z.leb_spec (quorum cf) (et_grade_zero t)); [|done].
    intros [= -> -> <-]. split_and!; [done..|]. exists t. auto.
Qed.

Lemma apply_ready_accepts cf k x s :
  (apply_ready cf k x s).2 = ready_admits k x s.
Proof. rewrite apply_ready_shape. by destruct (ready_admits k x s). Qed.

Lemma vstep_vinv inp cf v s es s' :
  vstep inp cf v s es s' -> vinv cf v s -> vinv cf v s'.
Proof.
  intros Hstep Hv. pose proof Hv as [I1 I2 I3 I4 I5 I6 I7 I8 I9 I10].
  destruct Hstep;
    (* steps that leave the constrained fields alone *)
    try (split; cbn; solve [done | intros l [? ?]%I4; done]).
  - (* vs_cache *) split; cbn; try done.
    intros q d [Hin|[= -> ->]%list_elem_of_singleton]%elem_of_app; [by apply I9|done].
  - (* vs_reject *) split; cbn; try done. intros l [Hs Hf]%I4. congruence.
  - (* vs_fix *) split; cbn; try done.
    + by intros q d' [= <- <-].
    + intros l [Hs Hf]%I4. congruence.
  - (* vs_lock *) split; cbn; try done. by intros l [= <-].
  - (* vs_release *) split; cbn; try done. intros l' [= <-]. simpl. by apply I4.
  - by apply vinv_apply_echo.
  - by apply vinv_apply_echo.
  - apply vinv_own_ready; [done..| |].
    + unfold ready_admits. by simplify_option_eq.
    + case_bool_decide; [|done]. subst. eauto.
  - assert (ready_mix_open s = false) as Hopen.
    { destruct (ready_mix_open s); [|done]. destruct I10 as (p & d & Hown & _); [done|].
      congruence. }
    replace (s <| ready_sent := true |>) with
      (s <| ready_sent := true |> <| ready_mix_open := false |>).
    2: { destruct s; cbn in *; by subst. }
    apply vinv_own_ready; [done..| |done]. unfold ready_admits. by simplify_option_eq.
  - apply refinement_candidate_inv in H as (Ho & Hown & _).
    assert (ready_sent s = true) as Hsent by (apply I2; by rewrite Hown).
    rewrite apply_ready_flags by done. rewrite apply_ready_accepts in H0.
    apply vinv_own_ready; [done| |done|done]. by apply (I7 _ _ Hown).
  - by apply vinv_apply_ready.
Qed.

Lemma vstep_inv_view e v s' :
  inv e -> is_pruned e v = false -> vinv (cfg e) v s' -> inv (update_view v (fun _ => s') e).
Proof.
  intros Hinv Hp Hs v' s''. cbn. destruct (decide (v = v')) as [<-|].
  - rewrite lookup_insert_eq. intros [= <-]. split; [|done]. unfold is_pruned in Hp. lia.
  - rewrite lookup_insert_ne by done. apply Hinv.
Qed.

Lemma gc_below_lookup floor e v s :
  views (gc_below floor e) !! v = Some s -> views e !! v = Some s /\
  (min_live_view e <= v -> min_live_view (gc_below floor e) <= v).
Proof.
  unfold gc_below. destruct (Z.leb_spec floor (min_live_view e)); [done|]. cbn.
  rewrite lookup_map_split_off. by case_decide.
Qed.

Lemma cfg_gc_below floor e : cfg (gc_below floor e) = cfg e.
Proof. unfold gc_below. by destruct (floor <=? _). Qed.

Lemma estep_inv {E} inp (s s' : AgbEngine * E) es :
  estep inp s es s' -> inv s.1 -> inv s'.1.
Proof.
  intros Hstep Hinv. destruct Hstep as [e v es s' w w' Hp Hv|e e' w w' es Hc Hv Hm|e w floor]; simpl in *.
  - apply vstep_inv_view; [done..|]. eapply vstep_vinv; [done|]. by apply inv_view_state.
  - intros v s. rewrite Hc, Hv, Hm. apply Hinv.
  - intros v s [Hl Hm]%gc_below_lookup. rewrite cfg_gc_below.
    destruct (Hinv v s Hl) as [Hle ?]. auto.
Qed.

Lemma chain_inv {E} inp (s s' : AgbEngine * E) es :
  chain inp s es s' -> inv s.1 -> inv s'.1.
Proof. induction 1; [done|]. intros. by eapply IHchain, estep_inv. Qed.
End inv.
