(* ===== verification/AgbRefine.v ===== *)
(** Every handler of the engine runs as a sequence of atomic steps.

    [runs inp s es s'] says that from a state satisfying the invariant the
    step relation of [AgbSteps.v] leads from [s] to [s'] emitting [es], without
    touching the configuration or the garbage-collection floor.  The main
    result is one lemma per handler of [Agb.v]. *)

From S2P Require Import Prelude Committee Types Formed Claim AgbState Agb AgbSteps.

Section refine.
Context {Hash : Hashing} {E : Type} {Env : AgbEnv E} {Laws : AgbEnvLaws E}.
Context (inp : Inputs).

Abbreviation AM := (M Effect (AgbEngine * E)) (only parsing).

Record step_to (s : AgbEngine * E) (es : list Effect) (s' : AgbEngine * E) : Prop := {
  to_chain : chain inp s es s';
  to_cfg : cfg s'.1 = cfg s.1;
  to_floor : min_live_view s'.1 = min_live_view s.1;
}.

Definition runs (s : AgbEngine * E) (es : list Effect) (s' : AgbEngine * E) : Prop :=
  inv s.1 -> step_to s es s'.

Lemma step_to_inv s es s' : step_to s es s' -> inv s.1 -> inv s'.1.
Proof. intros [Hc _ _]. by eapply chain_inv. Qed.

#[export] Instance runs_trace : TraceRel runs.
Proof.
  split.
  - intros s _. split; [constructor|done..].
  - intros s1 s2 s3 es1 es2 H12 H23 Hinv. pose proof (H12 Hinv) as Hstep.
    pose proof (H23 (step_to_inv _ _ _ Hstep Hinv)) as [Hc2 Hf2 Hm2].
    destruct Hstep as [Hc1 Hf1 Hm1].
    split; [by eapply chain_trans|congruence..].
Qed.

Lemma is_pruned_to e e' v : min_live_view e' = min_live_view e -> is_pruned e' v = is_pruned e v.
Proof. unfold is_pruned. by intros ->. Qed.

Lemma view_state_lookup e v s : views e !! v = Some s -> view_state e v = s.
Proof. unfold view_state. by intros ->. Qed.

Lemma inv_live e v s : inv e -> views e !! v = Some s -> is_pruned e v = false.
Proof. intros Hinv Hs. apply Hinv in Hs as [? _]. unfold is_pruned. lia. Qed.

(** ** Rules of symbolic execution *)

Lemma with_inv {A} (m : AM A) s : (inv s.1 -> sat_at runs m s) -> sat_at runs m s.
Proof. intros Hm Hinv. by apply Hm. Qed.

Lemma r_eng {A} (k : AgbEngine -> AM A) e w :
  sat_at runs (k e) (e, w) -> sat_at runs (eng ≫= k) (e, w).
Proof. done. Qed.

Lemma r_env {A} (k : E -> AM A) e w : sat_at runs (k w) (e, w) -> sat_at runs (env ≫= k) (e, w).
Proof. done. Qed.

Lemma step_view e v es s' w w' :
  inv e -> is_pruned e v = false -> vstep inp (cfg e) v (view_state e v) es s' ->
  step_to (e, w) es (update_view v (fun _ => s') e, w').
Proof. intros Hinv Hp Hv. split; [|done..]. by apply chain_one, es_view. Qed.

Lemma step_frame e e' w w' es :
  cfg e' = cfg e -> views e' = views e -> min_live_view e' = min_live_view e ->
  Forall (fun y => foreign y = true) es -> step_to (e, w) es (e', w').
Proof. intros. split; [|done..]. by apply chain_one, es_frame. Qed.

(** A step followed by the rest of the computation. *)
Lemma runs_step {A} (m : AM A) e w es e' w' r :
  m (e, w) = Res (val r) (es ++ out r) (st r) ->
  (inv e -> step_to (e, w) es (e', w')) ->
  (inv e' -> cfg e' = cfg e -> min_live_view e' = min_live_view e ->
     runs (e', w') (out r) (st r)) ->
  sat_at runs m (e, w).
Proof.
  intros Hm Hs Hr Hinv. unfold sat_at. rewrite Hm. simpl.
  pose proof (Hs Hinv) as Hstep. pose proof (step_to_inv _ _ _ Hstep Hinv) as Hinv'.
  destruct (Hr Hinv' (to_cfg _ _ _ Hstep) (to_floor _ _ _ Hstep) Hinv') as [Hc Hf Hm'].
  destruct Hstep as [Hc1 Hf1 Hm1]. split; [by eapply chain_trans|simpl in *; congruence..].
Qed.

Lemma r_upd {A} v g (k : () -> AM A) e w :
  (inv e -> is_pruned e v = false) ->
  (inv e -> vstep inp (cfg e) v (view_state e v) [] (g (view_state e v))) ->
  (forall e', inv e' -> cfg e' = cfg e -> min_live_view e' = min_live_view e ->
     views e' !! v = Some (g (view_state e v)) ->
     (forall u, u <> v -> views e' !! u = views e !! u) -> sat_at runs (k tt) (e', w)) ->
  sat_at runs (upd v g ≫= k) (e, w).
Proof.
  intros Hp Hv Hk. eapply (runs_step _ e w [] (update_view v g e) w (k tt (update_view v g e, w))).
  - done.
  - intros Hinv. apply (step_view e v [] (g (view_state e v))); auto.
  - intros Hinv Hc Hm. apply Hk; try done; cbn.
    + by rewrite lookup_insert_eq.
    + intros u Hu. by rewrite lookup_insert_ne.
Qed.

Lemma r_upd_last v g e w :
  (inv e -> is_pruned e v = false) ->
  (inv e -> vstep inp (cfg e) v (view_state e v) [] (g (view_state e v))) ->
  sat_at runs (upd v g) (e, w).
Proof.
  intros Hp Hv Hinv. apply (step_view e v [] (g (view_state e v))); auto.
Qed.

Lemma r_state_mut {A} v (k : ViewState -> AM A) e w :
  (inv e -> is_pruned e v = false) ->
  (forall e', inv e' -> cfg e' = cfg e -> min_live_view e' = min_live_view e ->
     views e' !! v = Some (view_state e v) ->
     (forall u, u <> v -> views e' !! u = views e !! u) ->
     sat_at runs (k (view_state e v)) (e', w)) ->
  sat_at runs (state_mut v ≫= k) (e, w).
Proof.
  intros Hp Hk.
  assert (Hvs : view_state (update_view v id e) v = view_state e v).
  { apply view_state_lookup. cbn. by rewrite lookup_insert_eq. }
  eapply (runs_step _ e w [] (update_view v id e) w
    (k (view_state e v) (update_view v id e, w))).
  - unfold state_mut. rewrite !bind_run. cbn. by rewrite Hvs.
  - intros Hinv. apply (step_view e v [] (view_state e v)); [done|auto|constructor].
  - intros Hinv Hc Hm. apply Hk; try done; cbn.
    + by rewrite lookup_insert_eq.
    + intros u Hu. by rewrite lookup_insert_ne.
Qed.

Lemma r_foreign {A} es (k : () -> AM A) e w :
  Forall (fun y => foreign y = true) es ->
  sat_at runs (k tt) (e, w) -> sat_at runs (emit_all es ≫= k) (e, w).
Proof.
  intros Hes Hk. eapply (runs_step _ e w es e w (k tt (e, w))); [done| |by intros].
  intros _. by apply step_frame.
Qed.

Lemma r_emit {A} x (k : () -> AM A) e w :
  foreign x = true -> sat_at runs (k tt) (e, w) -> sat_at runs (emit x ≫= k) (e, w).
Proof. intros Hx. apply r_foreign. by repeat constructor. Qed.

Lemma r_pending {A} g (k : () -> AM A) e w :
  (forall e', inv e' -> cfg e' = cfg e -> min_live_view e' = min_live_view e ->
     views e' = views e -> sat_at runs (k tt) (e', w)) ->
  sat_at runs (on_engine (fun e => e <| pending_gate ::= g |>) ≫= k) (e, w).
Proof.
  intros Hk. set (e1 := e <| pending_gate ::= g |>).
  eapply (runs_step _ e w [] e1 w (k tt (e1, w))); [done| |].
  - intros _. by apply step_frame.
  - intros Hinv Hc Hm. by apply Hk.
Qed.

(** ** The environment and the gates *)

(** Only the environment changes, and nothing is emitted. *)
Definition same_engine (s : AgbEngine * E) (es : list Effect) (s' : AgbEngine * E) : Prop :=
  es = [] /\ s'.1 = s.1.

#[export] Instance same_engine_trace : TraceRel same_engine.
Proof. split; [done|]. intros s1 s2 s3 es1 es2 [-> H1] [-> H2]. split; [done|congruence]. Qed.

Lemma same_engine_runs {A} (m : AM A) : sat same_engine m -> sat runs m.
Proof.
  intros Hm [e w] _. destruct (Hm (e, w)) as [-> He]. destruct (st (m (e, w))) as [e' w'].
  simpl in He. subst. by apply step_frame.
Qed.

Lemma se_on_env f : sat same_engine (on_env f).
Proof. intros s. done. Qed.

Lemma se_eng : sat same_engine eng.
Proof. done. Qed.

Lemma se_env : sat same_engine env.
Proof. done. Qed.

Hint Resolve se_on_env se_eng se_env : traces.

Lemma se_core_ok c : sat same_engine (core_ok c).
Proof. unfold core_ok. eauto with traces typeclass_instances. Qed.

Lemma se_tip_ok c t : sat same_engine (tip_ok c t).
Proof.
  apply sat_all_m; [apply _|]. intros r. unfold tip_ok_one.
  destruct (by_author c !! ref_author r); [|apply sat_ret, _].
  destruct (_ <=? _); [apply sat_ret, _|]. apply sat_bind; [apply _|apply se_on_env|].
  intros []; [|apply sat_ret, _]. apply sat_bind; [apply _|apply se_env|].
  intros w. apply sat_ret, _.
Qed.

Lemma se_available l : sat same_engine (all_m (fun r => on_env (locally_available r)) l).
Proof. apply sat_all_m; [apply _|]. intros. apply se_on_env. Qed.

Hint Resolve se_core_ok se_tip_ok se_available : traces.

Ltac same_engine_tac :=
  repeat (apply sat_ret || (apply sat_bind; [apply _|auto with traces|intros]) || case_match);
  try apply _.

Lemma se_meta_entry_status entry : sat same_engine (meta_entry_status entry).
Proof. unfold meta_entry_status. same_engine_tac. Qed.

Lemma se_meta_ok_entry entry : sat same_engine (meta_ok_entry entry).
Proof.
  unfold meta_ok_entry. apply sat_bind; [apply _|apply se_meta_entry_status|].
  intros. apply sat_ret, _.
Qed.

Lemma se_meta_ok entries : sat same_engine (meta_ok entries).
Proof. apply sat_all_m; [apply _|]. apply se_meta_ok_entry. Qed.

(** An accepted entry names a live target. *)
Lemma meta_ok_entry_live entry s :
  val (meta_ok_entry entry s) = true -> is_pruned s.1 (target_view entry) = false.
Proof.
  unfold meta_ok_entry, meta_entry_status. rewrite !bind_run. cbn.
  by destruct (is_pruned s.1 (target_view entry)).
Qed.

Lemma meta_ok_live entries s :
  val (meta_ok entries s) = true ->
  Forall (fun entry => is_pruned s.1 (target_view entry) = false) entries.
Proof.
  unfold meta_ok. revert s. induction entries as [|entry entries IH]; intros s; [constructor|].
  cbn [all_m]. rewrite bind_run. cbn [val].
  destruct (val (meta_ok_entry entry s)) eqn:Hval; [|done]. intros Hrest.
  constructor; [by apply meta_ok_entry_live|].
  apply IH in Hrest. destruct (se_meta_ok_entry entry s) as [_ He]. by rewrite He in Hrest.
Qed.

Lemma sat_claim_non_skip entry e w :
  is_pruned e (target_view entry) = false -> sat_at runs (claim_non_skip entry) (e, w).
Proof.
  intros Hp. destruct entry as [u c t|u c t|u]; simpl in *; [..|by apply sat_ret; apply _].
  all: apply r_upd_last; [done|]; intros; cbn; case_decide;
    [by apply vs_non_skip|apply vs_touch].
Qed.

Lemma sat_claim_all entries e w :
  Forall (fun entry => is_pruned e (target_view entry) = false) entries ->
  sat_at runs (for_each claim_non_skip entries) (e, w).
Proof.
  revert e w. induction entries as [|entry entries IH]; intros e w Hl; [by apply sat_ret; apply _|].
  apply Forall_cons in Hl as [Hp Hl]. cbn [for_each]. apply with_inv. intros Hinv.
  pose proof (sat_claim_non_skip entry e w Hp) as Hs.
  apply sat_at_bind; [apply _|done|]. destruct (Hs Hinv) as [_ _ Hm].
  destruct (st (claim_non_skip entry (e, w))) as [e1 w1]. apply IH.
  eapply Forall_impl; [exact Hl|]. intros x Hx. by rewrite (is_pruned_to e).
Qed.

Lemma sat_try_meta_ok v entries e w :
  is_pruned e v = false -> sat_at runs (try_meta_ok v entries) (e, w).
Proof.
  intros Hp. unfold try_meta_ok. destruct entries as [|x entries]; [by apply sat_ret; apply _|].
  apply r_eng. destruct (view_and e v aux_accepted); [by apply sat_ret; apply _|].
  destruct (existsb _ _); [by apply sat_ret; apply _|]. set (l := x :: entries). clearbody l.
  apply sat_at_bind; [apply _|apply same_engine_runs, se_meta_ok|].
  pose proof (meta_ok_live l (e, w)) as Hlive. destruct (se_meta_ok l (e, w)) as [_ He].
  destruct (meta_ok l (e, w)) as [ok o [e1 w1]]. simpl in *. subst e1.
  destruct ok; [|by apply sat_ret; apply _]. cbn [negb]. apply with_inv. intros Hinv.
  pose proof (sat_claim_all l e w1 (Hlive eq_refl)) as Hs.
  apply sat_at_bind; [apply _|done|]. destruct (Hs Hinv) as [_ _ Hm].
  destruct (st (for_each claim_non_skip l (e, w1))) as [e2 w2]. simpl in Hm.
  apply r_upd; [by rewrite (is_pruned_to e)|intros; apply vs_aux|].
  intros. by apply sat_ret; apply _.
Qed.

Lemma sat_positive_gate p e w :
  is_pruned e (p_view p) = false -> sat_at runs (positive_gate_holds p) (e, w).
Proof.
  intros Hp. unfold positive_gate_holds.
  apply sat_at_bind; [apply _|apply same_engine_runs, se_core_ok|].
  destruct (se_core_ok (p_c p) (e, w)) as [_ He].
  destruct (core_ok (p_c p) (e, w)) as [[] o [e1 w1]]; simpl in *; subst e1;
    [|by apply sat_ret; apply _].
  apply sat_at_bind; [apply _|apply same_engine_runs, se_core_ok|].
  destruct (se_core_ok (p_t p) (e, w1)) as [_ He].
  destruct (core_ok (p_t p) (e, w1)) as [[] o' [e1 w2]]; simpl in *; subst e1;
    [|by apply sat_ret; apply _].
  apply sat_at_bind; [apply _|apply same_engine_runs, se_tip_ok|].
  destruct (se_tip_ok (p_c p) (p_t p) (e, w2)) as [_ He].
  destruct (tip_ok (p_c p) (p_t p) (e, w2)) as [[] o'' [e1 w3]]; simpl in *; subst e1;
    [|by apply sat_ret; apply _].
  by apply sat_try_meta_ok.
Qed.

(** The gates change nothing but stances and accepted metadata. *)
Definition mild (s : AgbEngine * E) (es : list Effect) (s' : AgbEngine * E) : Prop :=
  es = [] /\ forall v x, views s.1 !! v = Some x ->
    exists a b, views s'.1 !! v = Some (x <| stance := a |> <| aux_accepted := b |>).

#[export] Instance mild_trace : TraceRel mild.
Proof.
  split.
  - intros s. split; [done|]. intros v x Hx. exists (stance x), (aux_accepted x).
    by destruct x.
  - intros s1 s2 s3 es1 es2 [-> H1] [-> H2]. split; [done|]. intros v x (a & b & Hx)%H1.
    apply H2 in Hx as (a' & b' & ->). exists a', b'. done.
Qed.

Lemma same_engine_mild {A} (m : AM A) : sat same_engine m -> sat mild m.
Proof.
  intros Hm s. destruct (Hm s) as [Ho He]. split; [done|]. rewrite He.
  apply (proj2 (trace_refl (R:=mild) s)).
Qed.

Lemma mild_upd v g :
  (forall x, exists a b, g x = x <| stance := a |> <| aux_accepted := b |>) ->
  sat mild (upd v g).
Proof.
  intros Hg [e w]. split; [done|]. intros u x Hx. cbn in *. destruct (decide (u = v)) as [->|].
  - rewrite lookup_insert_eq, (view_state_lookup _ _ _ Hx).
    destruct (Hg x) as (a & b & ->). eauto.
  - rewrite lookup_insert_ne by done. exists (stance x), (aux_accepted x). destruct x; done.
Qed.

Lemma mild_try_meta_ok v entries : sat mild (try_meta_ok v entries).
Proof.
  unfold try_meta_ok. destruct entries as [|x entries]; [apply sat_ret, _|].
  apply sat_bind; [apply _|apply same_engine_mild, se_eng|]. intros e.
  case_match; [apply sat_ret, _|]. case_match; [apply sat_ret, _|].
  apply sat_bind; [apply _|apply same_engine_mild, se_meta_ok|]. intros [];
    [cbn [negb]|apply sat_ret, _].
  apply sat_bind; [apply _|apply sat_for_each; [apply _|]|].
  - intros [u c t|u c t|u]; [..|apply sat_ret, _]; apply mild_upd; intros y;
      case_decide; [exists NonSkip, (aux_accepted y)|exists (stance y), (aux_accepted y)|
      exists NonSkip, (aux_accepted y)|exists (stance y), (aux_accepted y)]; by destruct y.
  - intros _. apply sat_bind; [apply _|apply mild_upd|intros; apply sat_ret, _].
    intros y. exists (stance y), true. by destruct y.
Qed.

Lemma mild_positive_gate p : sat mild (positive_gate_holds p).
Proof.
  unfold positive_gate_holds.
  apply sat_bind; [apply _|apply same_engine_mild, se_core_ok|]. intros []; [|apply sat_ret, _].
  apply sat_bind; [apply _|apply same_engine_mild, se_core_ok|]. intros []; [|apply sat_ret, _].
  apply sat_bind; [apply _|apply same_engine_mild, se_tip_ok|]. intros []; [|apply sat_ret, _].
  apply mild_try_meta_ok.
Qed.

Lemma r_mild {A B} (m : AM A) (k : A -> AM B) e w v x :
  views e !! v = Some x -> sat_at runs m (e, w) -> sat mild m ->
  (forall a e' w' y z, inv e' -> cfg e' = cfg e -> min_live_view e' = min_live_view e ->
     views e' !! v = Some (x <| stance := y |> <| aux_accepted := z |>) ->
     sat_at runs (k a) (e', w')) ->
  sat_at runs (m ≫= k) (e, w).
Proof.
  intros Hx Hm Hmild Hk. apply with_inv. simpl. intros Hinv.
  apply sat_at_bind; [apply _|done|].
  pose proof (Hm Hinv) as Hstep. pose proof (step_to_inv _ _ _ Hstep Hinv) as Hinv'.
  destruct Hstep as [_ Hc Hf]. destruct (Hmild (e, w)) as [_ Hviews].
  destruct (Hviews v x Hx) as (y & z & Hy).
  destruct (m (e, w)) as [a o [e' w']]. simpl in *. by eapply Hk.
Qed.

(** ** Counting statements *)

Lemma r_canonical {A} v p (k : ProposalOut * Digest -> AM A) e w :
  p_view p = v -> is_pruned e v = false ->
  (forall e', inv e' -> cfg e' = cfg e -> min_live_view e' = min_live_view e ->
     (forall x, views e !! v = Some x ->
        exists l, views e' !! v = Some (x <| digest_cache := l |>)) ->
     sat_at runs (k (p, p_digest (sid (cfg e)) p)) (e', w)) ->
  sat_at runs (canonical_proposal v p ≫= k) (e, w).
Proof.
  intros Hv Hp Hk. apply with_inv. simpl. intros Hinv. unfold canonical_proposal.
  eapply (sat_at_bind runs (canonical_proposal v p)).
  { unfold canonical_proposal. apply r_eng.
    destruct (cached_proposal e v p) as [pd|] eqn:Hc; [by apply sat_ret; apply _|].
    apply r_upd; [done|intros; by apply vs_cache|]. intros. by apply sat_ret; apply _. }
  unfold canonical_proposal. rewrite bind_run. cbn [val st].
  destruct (cached_proposal e v p) as [pd|] eqn:Hc; cbn [eng val st fst]; rewrite Hc.
  - unfold cached_proposal in Hc. destruct (views e !! v) as [x|] eqn:Hx; [|done]. simpl in Hc.
    destruct (list_find _ (digest_cache x)) as [[i pd']|] eqn:Hf; [|done]. simpl in Hc.
    injection Hc as ->. apply list_find_Some in Hf as (Hi & Heq & _).
    destruct pd as [p' d]. simpl in Heq. subst p'.
    destruct (Hinv v x Hx) as [_ Hvi].
    destruct (vi_cache _ _ _ Hvi p d) as [_ ->]; [by eapply list_elem_of_lookup_2|].
    apply Hk; [done..|]. intros y [= <-]. exists (digest_cache x). by destruct x.
  - apply Hk; [|done..|].
    + apply (step_to_inv (e, w) [] (update_view v (fun s =>
        s <| digest_cache ::= fun l => l ++ [(p, p_digest (sid (cfg e)) p)] |>) e, w)); [|done].
      apply (step_view e v []); [done..|]. by apply vs_cache.
    + intros x Hx. cbn. rewrite lookup_insert_eq, (view_state_lookup _ _ _ Hx). by eexists.
Qed.

Lemma sat_count_echo v k x e w :
  k <> name (cfg e) -> said_echo inp v k x -> echo_canonical (cfg e) v x ->
  match x with EchoGraded p _ _ o => (length o <= length (p_entries p))%nat | _ => True end ->
  sat_at runs (count_echo_statement v k x) (e, w).
Proof.
  intros Hk Hsaid Hx Ho. unfold count_echo_statement. apply r_eng.
  destruct (is_pruned e v) eqn:Hp; [by apply sat_ret; apply _|].
  apply r_state_mut; [done|]. intros e' _ Hc Hm Hs _.
  destruct (echo_statements (view_state e v) !! k) eqn:Hk'; [by apply sat_ret; apply _|].
  apply r_upd; [by rewrite (is_pruned_to e)| |intros; by apply sat_ret; apply _].
  intros _. rewrite (view_state_lookup _ _ _ Hs), <- Hc. apply vs_echo; [by rewrite Hc|done|done| |done].
  by rewrite Hc.
Qed.

Lemma sat_count_ready v k x e w :
  k <> name (cfg e) -> said_ready inp v k x -> ready_canonical (cfg e) v x ->
  sat_at runs (count_ready_statement v k x) (e, w).
Proof.
  intros Hk Hsaid Hx. unfold count_ready_statement. apply r_eng.
  destruct (is_pruned e v) eqn:Hp; [by apply sat_ret; apply _|].
  apply r_state_mut; [done|]. intros e' _ Hc Hm Hs _.
  pose proof (vs_ready inp (cfg e) v (view_state e v) k x Hk Hsaid Hx) as Hstep.
  destruct (apply_ready (cfg e) k x (view_state e v)) as [s' b].
  apply r_upd; [by rewrite (is_pruned_to e)| |intros; by apply sat_ret; apply _].
  intros _. rewrite (view_state_lookup _ _ _ Hs), Hc. done.
Qed.

(** ** Seals *)

Lemma sat_try_seal v o e w :
  (inv e -> seal_reason inp (cfg e) v (view_state e v) o) ->
  sat_at runs (try_seal v o) (e, w).
Proof.
  intros Hr. apply with_inv. simpl. intros Hinv. specialize (Hr Hinv). unfold try_seal. apply r_eng.
  destruct (is_pruned e v) eqn:Hp; [by apply sat_ret; apply _|].
  apply r_state_mut; [done|]. intros e' Hinv' Hc Hm Hs _.
  destruct (sealed (view_state e v)) eqn:Hsealed; [by apply sat_ret; apply _|].
  intros _. apply (step_view e' v [Sealed v o]); [done|by rewrite (is_pruned_to e)|].
  cbn [fst]. rewrite (view_state_lookup _ _ _ Hs), Hc. by apply vs_seal.
Qed.

Lemma sat_fastseal v : sat runs (recheck_fastseal_trigger v).
Proof.
  intros [e w]. apply with_inv. simpl. intros Hinv. unfold recheck_fastseal_trigger. apply r_eng.
  destruct (views e !! v) as [s|] eqn:Hs; [|by apply sat_ret; apply _].
  destruct (lock s) as [l|] eqn:Hl; [|by apply sat_ret; apply _].
  destruct (lock_active l) eqn:Ha; [|by apply sat_ret; apply _]. cbn [negb].
  destruct (fastsealed s); [by apply sat_ret; apply _|].
  destruct (Z.eqb_spec (matching_echoes s (lock_digest l)) (cfg_n (cfg e))) as [Hall|];
    [|by apply sat_ret; apply _].
  apply r_upd; [intros; by eapply inv_live|intros; apply vs_fastseal|].
  intros e' _ Hc _ Hs' _. apply sat_try_seal. intros _.
  rewrite (view_state_lookup _ _ _ Hs'), (view_state_lookup _ _ _ Hs), Hc.
  right; left. by exists l.
Qed.

Lemma sat_lock_release v : sat runs (recheck_lock_release v).
Proof.
  intros [e w]. apply with_inv. simpl. intros Hinv. unfold recheck_lock_release. apply r_eng.
  destruct (views e !! v) as [s|] eqn:Hs; [|by apply sat_ret; apply _].
  destruct (lock s) as [l|] eqn:Hl; [|by apply sat_ret; apply _].
  destruct (lock_active l) eqn:Ha; [|by apply sat_ret; apply _]. cbn [negb].
  destruct (Z.leb_spec (f_plus_1 (cfg e)) (nonmatching_echoes s (lock_digest l)));
    [|by apply sat_ret; apply _].
  apply r_upd_last; [intros; by eapply inv_live|].
  intros _. rewrite (view_state_lookup _ _ _ Hs). by apply vs_release.
Qed.

Lemma sat_skip_seal v : sat runs (recheck_skip_seal_trigger v).
Proof.
  intros [e w]. unfold recheck_skip_seal_trigger. apply r_eng.
  destruct (is_pruned e v) eqn:Hp; [by apply sat_ret; apply _|].
  destruct (view_and e v skip_sealed); [by apply sat_ret; apply _|].
  destruct (Z.ltb_spec (view_count e v (fun s => Z.of_nat (size (skip_vote_statements s))))
    (quorum_parties (cfg e))) as [|Hq]; [by apply sat_ret; apply _|].
  apply r_upd; [done|intros; apply vs_skip_sealed|].
  intros e' _ Hc _ Hs' _. apply sat_try_seal. intros _.
  rewrite (view_state_lookup _ _ _ Hs'), Hc. right; right; left. split; [done|]. cbn.
  unfold view_state. unfold view_count in Hq. destruct (views e !! v); exact Hq.
Qed.

Lemma sat_skip_vote v : sat runs (recheck_skip_vote_trigger v).
Proof.
  intros [e w]. unfold recheck_skip_vote_trigger. apply r_eng.
  destruct (is_pruned e v) eqn:Hp; [by apply sat_ret; apply _|].
  destruct (view_and e v (skip_vote_ready (cfg e))) eqn:Hr; [cbn [negb orb]|by apply sat_ret; apply _].
  destruct (Z.ltb_spec (echo_skip_count e v) (quorum_parties (cfg e))) as [|Hq];
    [by apply sat_ret; apply _|].
  unfold view_and, echo_skip_count, view_count in *.
  destruct (views e !! v) as [s|] eqn:Hs; [|done]. pose proof (view_state_lookup _ _ _ Hs) as Hvs.
  set (s' := s <| stance := SkipVoted |> <| skip_vote_statements ::= union {[ name (cfg e) ]} |>).
  set (e' := update_view v (fun _ => s') e).
  eapply (runs_step _ e w [BroadcastSkipVote v] e' w (recheck_skip_seal_trigger v (e', w))).
  - rewrite !bind_run. unfold count_skip_vote_statement. rewrite !bind_run.
    cbn [eng upd on_engine out st val fst snd app]. rewrite (is_pruned_to e), Hp by done.
    unfold state_mut. rewrite !bind_run. cbn [eng upd on_engine out st val fst snd app emit mret M_ret].
    assert (update_view v (fun s => s <| skip_vote_statements ::= union {[ name (cfg e) ]} |>)
      (update_view v id (update_view v (fun s => s <| stance := SkipVoted |>) e)) = e') as ->.
    { unfold e', s', update_view, view_state. cbn. rewrite !lookup_insert_eq. cbn.
      rewrite !insert_insert_eq, Hs. done. }
    done.
  - intros Hinv. apply step_view; [done..|]. rewrite Hvs. by apply vs_skip_vote.
  - intros. by apply sat_skip_seal.
Qed.

Lemma sat_on_skip_vote v k e w :
  k <> name (cfg e) -> said_skip inp v k -> sat_at runs (on_skip_vote v k) (e, w).
Proof.
  intros Hk Hsaid. unfold on_skip_vote. apply r_eng.
  destruct (is_pruned e v) eqn:Hp; [by apply sat_ret; apply _|].
  apply sat_at_bind; [apply _| |].
  - unfold count_skip_vote_statement. apply r_eng. rewrite Hp.
    apply r_state_mut; [done|]. intros e' _ Hc Hm Hs _.
    apply r_upd; [by rewrite (is_pruned_to e)| |intros; by apply sat_ret; apply _].
    intros _. apply vs_skip_vote_in; [by rewrite Hc|done].
  - destruct (negb _); [by apply sat_ret; apply _|]. apply sat_skip_seal.
Qed.

(** ** Completion *)

(** Only foreign effects, and the engine is unchanged. *)
Definition only_foreign (s : AgbEngine * E) (es : list Effect) (s' : AgbEngine * E) : Prop :=
  Forall (fun y => foreign y = true) es /\ s'.1 = s.1.

#[export] Instance only_foreign_trace : TraceRel only_foreign.
Proof.
  split; [done|]. intros s1 s2 s3 es1 es2 [H1 E1] [H2 E2]. split; [by apply Forall_app|congruence].
Qed.

Lemma of_authorize r : sat only_foreign (rep_authorize r).
Proof.
  intros [e w]. unfold sat_at, rep_authorize. simpl. pose proof (authorize_foreign r w) as Hf.
  destruct (authorize r w) as [es w']. done.
Qed.

Lemma of_authorize_all l : sat only_foreign (for_each rep_authorize l).
Proof. apply sat_for_each; [apply _|]. apply of_authorize. Qed.

Lemma only_foreign_runs {A} (m : AM A) : sat only_foreign m -> sat runs m.
Proof.
  intros Hm [e w] _. destruct (Hm (e, w)) as [Ho He]. destruct (st (m (e, w))) as [e' w'].
  simpl in He. subst. by apply step_frame.
Qed.

Lemma r_only_foreign {A B} (m : AM A) (k : A -> AM B) e w :
  sat only_foreign m -> (forall a w', sat_at runs (k a) (e, w')) -> sat_at runs (m ≫= k) (e, w).
Proof.
  intros Hm Hk. apply sat_at_bind; [apply _|by apply only_foreign_runs|].
  destruct (Hm (e, w)) as [_ He]. destruct (m (e, w)) as [a o [e' w']]. simpl in *. by subst.
Qed.

(** What follows the update of [completed] emits foreign effects and then the
    completion. *)
Lemma complete_tail v c t l b (s : AgbEngine * E) :
  exists o w', (for_each rep_authorize l;; when b (emit (QuarantineTips t));; emit (Completed v c t)) s
    = Res tt (o ++ [Completed v c t]) (s.1, w') /\ Forall (fun y => foreign y = true) o.
Proof.
  destruct (of_authorize_all l s) as [Ho He]. rewrite !bind_run.
  destruct (for_each rep_authorize l s) as [[] o [e' w']]. simpl in He, Ho. subst e'.
  destruct b; cbn [when emit skip mret M_ret out st val app].
  - exists (o ++ [QuarantineTips t]), w'. rewrite <- (assoc_L (++)). split; [done|].
    apply Forall_app. split; [done|by repeat constructor].
  - exists o, w'. done.
Qed.

Lemma state_mut_run v e (w : E) x :
  views e !! v = Some x -> state_mut v (e, w) = Res x [] (update_view v id e, w).
Proof.
  intros Hx. unfold state_mut. rewrite !bind_run. cbn.
  rewrite (view_state_lookup _ v x); [done|].
  cbn. by rewrite lookup_insert_eq, (view_state_lookup _ _ _ Hx).
Qed.

Lemma step_touch e v w : inv e -> is_pruned e v = false -> step_to (e, w) [] (update_view v id e, w).
Proof. intros Hinv Hp. apply (step_view e v [] (view_state e v)); [done..|constructor]. Qed.

Lemma views_touch e v x : views e !! v = Some x -> views (update_view v id e) !! v = Some x.
Proof. intros Hx. cbn. by rewrite lookup_insert_eq, (view_state_lookup _ _ _ Hx). Qed.

Lemma complete_run v d tally e w x :
  inv e -> views e !! v = Some x -> ready_tallies x !! d = Some tally ->
  exists es e' w' x', complete_if_quorum (cfg e) v tally (e, w) = Res tt es (e', w') /\
    step_to (e, w) es (e', w') /\ views e' !! v = Some x' /\ ready_tallies x' = ready_tallies x.
Proof.
  intros Hinv Hx Ht. pose proof (inv_live _ _ _ Hinv Hx) as Hp. unfold complete_if_quorum.
  destruct (Z.leb_spec (quorum (cfg e)) (rt_any tally)) as [Hq|]; cbn [negb].
  2: { exists [], e, w, x. split_and!; try done. split; [constructor|done..]. }
  set (c := p_c (rt_proposal tally)). set (t := p_t (rt_proposal tally)).
  rewrite bind_run, (state_mut_run _ _ _ _ Hx). cbn [val st out app].
  pose proof (step_touch e v w Hinv Hp) as Hs1. pose proof (views_touch _ _ _ Hx) as He1.
  pose proof (step_to_inv _ _ _ Hs1 Hinv) as Hinv1.
  set (e1 := update_view v id e) in *. simpl in Hinv1.
  destruct (completed x) as [ct|] eqn:Hcomp; [by exists [], e1, w, x|].
  rewrite bind_run. cbn [env val st out app snd].
  rewrite bind_run. cbn [upd on_engine val st out app fst snd].
  set (is_open := (rt_grade_one tally <? quorum (cfg e)) && (rt_grade_zero tally <? quorum (cfg e))
    && negb (bool_decide (t = []))).
  set (e2 := update_view v _ e1).
  destruct (complete_tail v c t (c ++ aux_refs_entries (p_entries (rt_proposal tally))) is_open
    (e2, w)) as (o & w' & Hrun & Hfor).
  rewrite Hrun. cbn [val st out app fst].
  eexists _, e2, w', _. split_and!; [done| |unfold e2, update_view; cbn; apply lookup_insert_eq|].
  2: { by rewrite (view_state_lookup _ _ _ He1). }
  change (o ++ [Completed v c t]) with ([] ++ (o ++ [Completed v c t])).
  apply (runs_trace.(trace_trans) _ _ _ _ _ (fun _ => Hs1)); [|done]. intros _.
  apply (step_view e1 v); [done|by rewrite (is_pruned_to e)|].
  rewrite (view_state_lookup _ _ _ He1).
  apply (vs_complete inp (cfg e1) v x d tally); done.
Qed.

Lemma sat_direct v d tally e w x :
  views e !! v = Some x -> ready_tallies x !! d = Some tally ->
  sat_at runs (direct_if_quorum (cfg e) v tally) (e, w).
Proof.
  intros Hx Ht. apply with_inv. simpl. intros Hinv.
  pose proof (inv_live _ _ _ Hinv Hx) as Hp. unfold direct_if_quorum.
  apply r_state_mut; [done|]. rewrite (view_state_lookup _ _ _ Hx).
  intros e1 Hinv1 Hc Hm Hs _. destruct (directed x) eqn:Hd; [by apply sat_ret; apply _|].
  assert (Hgo : forall o, quorum (cfg e) <= rt_grade_one tally /\
       o = OFull (p_c (rt_proposal tally)) (p_t (rt_proposal tally)) \/
     quorum (cfg e) <= rt_grade_zero tally /\ o = OCore (p_c (rt_proposal tally)) ->
    sat_at runs (upd v (fun s => s <| directed := Some o |>);; try_seal v o) (e1, w)).
  { intros o Ho. apply r_upd; [by rewrite (is_pruned_to e)| |].
    - intros _. rewrite (view_state_lookup _ _ _ Hs), Hc. by apply (vs_direct inp _ _ _ d tally).
    - intros e2 _ Hc2 _ Hs2 _. apply sat_try_seal. intros _.
      rewrite (view_state_lookup _ _ _ Hs2). by left. }
  destruct (Z.leb_spec (quorum (cfg e)) (rt_grade_one tally)); [apply Hgo; auto|].
  destruct (Z.leb_spec (quorum (cfg e)) (rt_grade_zero tally)); [apply Hgo; auto|].
  by apply sat_ret; apply _.
Qed.

Lemma sat_completion v d : sat runs (recheck_completion_and_direct v d).
Proof.
  intros [e w]. apply with_inv. simpl. intros Hinv. unfold recheck_completion_and_direct.
  apply r_eng. destruct (is_pruned e v) eqn:Hp; [by apply sat_ret; apply _|].
  destruct (views e !! v) as [x|] eqn:Hx; [|by apply sat_ret; apply _]. simpl.
  destruct (ready_tallies x !! d) as [tally|] eqn:Ht; [|by apply sat_ret; apply _].
  destruct (complete_run v d tally e w x Hinv Hx Ht) as (es & e' & w' & x' & Hrun & Hstep & Hx' & Hrt).
  eapply (runs_step _ e w es e' w' (direct_if_quorum (cfg e) v tally (e', w'))).
  - by rewrite bind_run, Hrun.
  - done.
  - intros _ Hc _. rewrite <- Hc. apply (sat_direct v d tally e' w' x'); [done|by rewrite Hrt].
Qed.

Lemma sat_finalize v b : sat runs (finalize_mix_if_closed v b).
Proof.
  intros [e w]. unfold finalize_mix_if_closed. apply r_eng. unfold view_and.
  destruct (views e !! v) as [s|] eqn:Hs; [|by apply sat_ret; apply _].
  destruct (_ && _); [|by apply sat_ret; apply _].
  apply r_upd_last; [intros; by eapply inv_live|intros; apply vs_close_mix].
Qed.

(** ** The own READY *)

Lemma count_ready_run v k y e (w : E) x :
  is_pruned e v = false -> views e !! v = Some x ->
  count_ready_statement v k y (e, w) =
  Res (apply_ready (cfg e) k y x).2 []
    (update_view v (fun _ => (apply_ready (cfg e) k y x).1) e, w).
Proof.
  intros Hp Hx. unfold count_ready_statement. rewrite bind_run. cbn [eng val st out app fst].
  rewrite Hp. rewrite bind_run, (state_mut_run _ _ _ _ Hx). cbn [val st out app].
  destruct (apply_ready (cfg e) k y x) as [x' b]. rewrite bind_run. cbn.
  do 2 f_equal. unfold update_view. cbn. by rewrite insert_insert_eq.
Qed.

Lemma wish_foreign e v stage : Forall (fun y => foreign y = true) (wish_effects e v stage).
Proof. unfold wish_effects. destruct (two_response_wish_target e v stage); by repeat constructor. Qed.

(** Flags, count, wish and broadcast of an initial ready-stage response are
    one step. *)
Lemma r_initial_ready {A} v y g msg (k : () -> AM A) e w x :
  views e !! v = Some x ->
  (inv e -> forall o, Forall (fun z => foreign z = true) o ->
    vstep inp (cfg e) v x (o ++ [msg]) (apply_ready (cfg e) (name (cfg e)) y (g x)).1) ->
  sat runs (k tt) ->
  sat_at runs (upd v g;; count_ready_statement v (name (cfg e)) y;; wish_effect v StageReady;;
    emit msg;; k tt) (e, w).
Proof.
  intros Hx Hstep Hk. apply with_inv. simpl. intros Hinv.
  pose proof (inv_live _ _ _ Hinv Hx) as Hp.
  set (e1 := update_view v g e).
  assert (He1 : views e1 !! v = Some (g x)).
  { cbn. by rewrite lookup_insert_eq, (view_state_lookup _ _ _ Hx). }
  set (e2 := update_view v (fun _ => (apply_ready (cfg e) (name (cfg e)) y (g x)).1) e).
  eapply (runs_step _ e w (wish_effects e2 v StageReady ++ [msg]) e2 w (k tt (e2, w))).
  - rewrite bind_run. cbn [upd on_engine val st out app fst snd]. fold e1.
    rewrite bind_run, (count_ready_run _ _ _ e1 _ (g x)) by done. cbn [val st out app].
    assert (update_view v (fun _ => (apply_ready (cfg e1) (name (cfg e)) y (g x)).1) e1 = e2) as ->.
    { unfold e2, e1, update_view. cbn. by rewrite insert_insert_eq. }
    unfold wish_effect. rewrite !bind_run. cbn [eng emit_all emit val st out app fst snd].
    by rewrite <- (assoc_L (++)).
  - intros _. apply step_view; [done..|]. rewrite (view_state_lookup _ _ _ Hx).
    apply Hstep; [done|]. apply wish_foreign.
  - intros. apply Hk.
Qed.

Lemma ready_candidate_inv cf s d p g :
  ready_candidate cf s = Some (d, p, g) ->
  exists t, echo_tallies s !! d = Some t /\ p = et_proposal t /\ tally_ready cf t = Some g.
Proof.
  unfold ready_candidate. intros Hf.
  assert (exists t, (d, t) ∈ map_to_list (echo_tallies s) /\ p = et_proposal t /\
    tally_ready cf t = Some g) as (t & Ht%elem_of_map_to_list & Hp & Hg); [|by exists t].
  revert Hf. induction (map_to_list (echo_tallies s)) as [|[d' t] l IH]; simpl; [done|].
  destruct (tally_ready cf t) as [g'|] eqn:Hg.
  - intros [= -> <- ->]. exists t. split_and!; [by left|done..].
  - intros (t' & Hin & ?)%IH. exists t'. split; [by right|done].
Qed.

Lemma sat_initial_ready v d p g e w x :
  views e !! v = Some x -> ready_sent x = false -> ready_candidate (cfg e) x = Some (d, p, g) ->
  sat_at runs (emit_initial_ready v d p g) (e, w).
Proof.
  intros Hx Hs Hcand. unfold emit_initial_ready. apply r_eng.
  eapply (r_initial_ready v (ReadyGraded p d g) _ _ (fun _ =>
    recheck_completion_and_direct v d;; finalize_mix_if_closed v false)); [done| |].
  - intros Hinv o Ho. destruct (Hinv v x Hx) as [_ Hvi]. apply vs_own_ready; try done.
    + destruct (ready_statements x !! name (cfg e)) eqn:Hown; [|done].
      rewrite (vi_ready _ _ _ Hvi) in Hs; [done|]. by rewrite Hown.
    + apply ready_candidate_inv in Hcand as (t & Ht & -> & _). by apply (vi_tally _ _ _ Hvi).
  - apply sat_bind; [apply _|apply sat_completion|intros; apply sat_finalize].
Qed.

Lemma sat_refinement v d p g e w x :
  views e !! v = Some x -> ready_refinement_candidate (cfg e) x = Some (d, p, g) ->
  sat_at runs (emit_ready_refinement v d p g) (e, w).
Proof.
  intros Hx Hcand. apply with_inv. simpl. intros Hinv.
  pose proof (inv_live _ _ _ Hinv Hx) as Hp. unfold emit_ready_refinement. apply r_eng.
  set (y := ReadyGraded p d g). set (x1 := (apply_ready (cfg e) (name (cfg e)) y x).1).
  destruct ((apply_ready (cfg e) (name (cfg e)) y x).2) eqn:Hacc.
  - set (e2 := update_view v (fun _ => x1 <| ready_mix_open := false |>) e).
    eapply (runs_step _ e w [ready_message (cfg e) v y] e2 w
      (recheck_completion_and_direct v d (e2, w))).
    + rewrite bind_run, (count_ready_run _ _ _ e _ x) by done. cbn [val st out app].
      fold x1. rewrite Hacc. cbn [negb]. rewrite !bind_run.
      cbn [upd on_engine emit val st out app fst snd].
      assert (update_view v (fun s => s <| ready_mix_open := false |>)
        (update_view v (fun _ => x1) e) = e2) as ->; [|done].
      unfold e2, update_view, view_state. cbn. by rewrite lookup_insert_eq, insert_insert_eq.
    + intros _. apply step_view; [done..|]. rewrite (view_state_lookup _ _ _ Hx).
      by apply vs_refine.
    + intros. apply sat_completion.
  - apply sat_at_bind; [apply _| |].
    + unfold sat_at. rewrite (count_ready_run _ _ _ e _ x) by done. simpl. intros _.
      assert (x1 = x) as Hx1.
      { unfold x1. rewrite apply_ready_accepts in Hacc. by rewrite apply_ready_shape, Hacc. }
      apply step_view; [done..|]. fold x1. rewrite Hx1, (view_state_lookup _ _ _ Hx). constructor.
    + rewrite (count_ready_run _ _ _ e _ x), Hacc by done. by apply sat_ret; apply _.
Qed.

Lemma candidate_at e v x : views e !! v = Some x -> candidate e v = ready_candidate (cfg e) x.
Proof. unfold candidate. by intros ->. Qed.

Lemma refinement_at e v x :
  views e !! v = Some x -> refinement e v = ready_refinement_candidate (cfg e) x.
Proof. unfold refinement. by intros ->. Qed.

Lemma sat_recheck_ready v : sat runs (recheck_ready v).
Proof.
  intros [e w]. unfold recheck_ready. apply r_eng.
  destruct (is_pruned e v) eqn:Hp; [by apply sat_ret; apply _|].
  apply r_state_mut; [done|]. intros e1 _ Hc _ Hs _. apply r_eng.
  rewrite (candidate_at _ _ _ Hs), (refinement_at _ _ _ Hs).
  destruct (ready_sent (view_state e v)) eqn:Hsent; cbn [negb].
  - destruct (ready_refinement_candidate _ _) as [[[d p] g]|] eqn:Hr; [|apply sat_finalize].
    by eapply sat_refinement.
  - destruct (ready_candidate _ _) as [[[d p] g]|] eqn:Hr; [|by apply sat_ret; apply _].
    by eapply sat_initial_ready.
Qed.

Lemma sat_on_ready_timer v : sat runs (on_ready_timer v).
Proof.
  intros [e w]. unfold on_ready_timer. apply r_eng.
  destruct (is_pruned e v) eqn:Hp; [by apply sat_ret; apply _|].
  apply r_state_mut; [done|]. intros e1 _ Hc _ Hs _. apply r_eng.
  rewrite (candidate_at _ _ _ Hs), (refinement_at _ _ _ Hs).
  destruct (ready_sent (view_state e v)) eqn:Hsent.
  - destruct (ready_refinement_candidate _ _) as [[[d p] g]|] eqn:Hr; [|apply sat_finalize].
    by eapply sat_refinement.
  - destruct (ready_candidate _ _) as [[[d p] g]|] eqn:Hr.
    + apply sat_at_bind; [apply _|by eapply sat_initial_ready|apply sat_finalize].
    + eapply (r_initial_ready v NoReady _ _ (fun _ => recheck_skip_vote_trigger v));
        [done| |apply sat_skip_vote].
      intros Hinv o Ho. destruct (Hinv v _ Hs) as [_ Hvi]. apply (vs_own_noready inp); try done.
      destruct (ready_statements _ !! name (cfg e1)) eqn:Hown; [|done].
      rewrite (vi_ready _ _ _ Hvi) in Hsent; [done|]. by rewrite Hown.
Qed.

(** The statement recorded for a received READY. *)
Definition ready_statement_of (cf : AgbConfig) (r : ReadyOut) : ReadyStatement :=
  ReadyGraded (ro_into_proposal_out r) (p_digest (sid cf) (ro_into_proposal_out r)) (ro_grade r).

Lemma sat_on_ready r e w :
  ro_sender r <> name (cfg e) ->
  said_ready inp (ro_proposal_view r) (ro_sender r) (ready_statement_of (cfg e) r) ->
  sat_at runs (on_ready_any r) (e, w).
Proof.
  intros Hk Hsaid. unfold on_ready_any. apply r_eng.
  destruct (is_pruned e _) eqn:Hp; [by apply sat_ret; apply _|].
  apply r_canonical; [by destruct r|done|]. intros e1 _ Hc _ _. cbn [fst snd].
  apply sat_at_bind; [apply _|apply sat_count_ready; [by rewrite Hc|done|]|].
  - split; [by destruct r|by rewrite Hc].
  - destruct (negb _); [by apply sat_ret; apply _|apply sat_completion].
Qed.

Lemma sat_on_noready v k e w :
  k <> name (cfg e) -> said_ready inp v k NoReady -> sat_at runs (on_noready v k) (e, w).
Proof.
  intros Hk Hsaid. unfold on_noready. apply r_eng.
  destruct (is_pruned e _) eqn:Hp; [by apply sat_ret; apply _|].
  apply sat_at_bind; [apply _|by apply sat_count_ready|by apply sat_ret; apply _].
Qed.

(** ** The own ECHO *)

Lemma sat_after_echo v : sat runs (after_echo v).
Proof.
  unfold after_echo. apply sat_bind; [apply _|apply sat_lock_release|intros].
  apply sat_bind; [apply _|apply sat_recheck_ready|intros].
  apply sat_bind; [apply _|apply sat_fastseal|intros]. apply sat_skip_vote.
Qed.

Lemma count_echo_run v k y e (w : E) x :
  is_pruned e v = false -> views e !! v = Some x -> echo_statements x !! k = None ->
  count_echo_statement v k y (e, w) =
  Res true [] (update_view v (fun _ => apply_echo (cfg e) k y x) e, w).
Proof.
  intros Hp Hx Hk. unfold count_echo_statement. rewrite bind_run. cbn [eng val st out app fst].
  rewrite Hp. rewrite bind_run, (state_mut_run _ _ _ _ Hx). cbn [val st out app]. rewrite Hk.
  rewrite bind_run. cbn. do 2 f_equal. unfold update_view at 1. cbn.
  rewrite insert_insert_eq. rewrite (view_state_lookup _ v x); [done|].
  cbn. by rewrite lookup_insert_eq, (view_state_lookup _ _ _ Hx).
Qed.

(** Counting and broadcasting the own echo-stage response is one step. *)
Lemma r_own_echo {A} v y (m : AM ()) (k : AM A) e w x :
  views e !! v = Some x -> echo_sent x = true -> echo_statements x !! name (cfg e) = None ->
  echo_canonical (cfg e) v y -> own_echo_ok x y ->
  (forall e' w', exists es, m (e', w') = Res tt es (e', w') /\
     Forall (fun z => foreign z = true) es) ->
  sat runs k ->
  sat_at runs (count_echo_statement v (name (cfg e)) y;; m;;
    emit (echo_message (cfg e) v y);; k) (e, w).
Proof.
  intros Hx Hsent Hown Hy Hok Hm Hk. apply with_inv. simpl. intros Hinv.
  pose proof (inv_live _ _ _ Hinv Hx) as Hp.
  set (e2 := update_view v (fun _ => apply_echo (cfg e) (name (cfg e)) y x) e).
  destruct (Hm e2 w) as (es & Hrun & Hes).
  eapply (runs_step _ e w (es ++ [echo_message (cfg e) v y]) e2 w (k (e2, w))).
  - rewrite bind_run, (count_echo_run _ _ _ e _ x) by done. cbn [val st out app]. fold e2.
    rewrite bind_run, Hrun, bind_run. cbn [emit val st out app fst snd].
    by rewrite <- (assoc_L (++)).
  - intros _. apply step_view; [done..|]. rewrite (view_state_lookup _ _ _ Hx). by apply vs_own_echo.
  - intros. apply Hk.
Qed.

Lemma own_echo_absent e v x :
  inv e -> views e !! v = Some x -> echo_sent x = false -> echo_statements x !! name (cfg e) = None.
Proof.
  intros Hinv Hx Hs. destruct (Hinv v x Hx) as [_ Hvi].
  destruct (echo_statements x !! name (cfg e)) eqn:Hown; [|done].
  rewrite (vi_echo _ _ _ Hvi) in Hs; [done|]. by rewrite Hown.
Qed.

Lemma own_lock_absent e v x :
  inv e -> views e !! v = Some x -> echo_sent x = false -> lock x = None.
Proof.
  intros Hinv Hx Hs. destruct (Hinv v x Hx) as [_ Hvi].
  destruct (lock x) as [l|] eqn:Hl; [|done]. destruct (vi_lock _ _ _ Hvi l Hl). congruence.
Qed.

Lemma record_lock_run v p d e (w : E) x :
  is_pruned e v = false -> views e !! v = Some x -> lock x = None ->
  record_lock v p d (e, w) =
  Res tt [] (update_view v (fun _ =>
    x <| lock := Some (mkLock p d (nonmatching_echoes x d <? f_plus_1 (cfg e))) |>) e, w).
Proof.
  intros Hp Hx Hl. unfold record_lock. rewrite bind_run. cbn [eng val st out app fst].
  rewrite Hp. rewrite bind_run, (state_mut_run _ _ _ _ Hx). cbn [val st out app]. rewrite Hl.
  cbn. f_equal. f_equal. unfold update_view at 1. cbn. rewrite insert_insert_eq.
  rewrite (view_state_lookup _ v x); [done|].
  cbn. by rewrite lookup_insert_eq, (view_state_lookup _ _ _ Hx).
Qed.

(** The lock is recorded in the same step that commits to a grade-1 echo. *)
Lemma r_lock {A} v p d (k : AM A) e w x :
  views e !! v = Some x -> echo_sent x = false -> fixed x = FixedProposal p d ->
  (forall e' l, inv e' -> cfg e' = cfg e -> lock_digest l = d ->
     views e' !! v = Some (x <| lock := Some l |> <| echo_sent := true |>) ->
     sat_at runs k (e', w)) ->
  sat_at runs (record_lock v p d;; upd v (fun s => s <| echo_sent := true |>);; k) (e, w).
Proof.
  intros Hx Hs Hf Hk. apply with_inv. simpl. intros Hinv.
  pose proof (inv_live _ _ _ Hinv Hx) as Hp. pose proof (own_lock_absent _ _ _ Hinv Hx Hs) as Hl.
  set (l := mkLock p d (nonmatching_echoes x d <? f_plus_1 (cfg e))).
  set (x2 := x <| lock := Some l |> <| echo_sent := true |>).
  set (e2 := update_view v (fun _ => x2) e).
  eapply (runs_step _ e w [] e2 w (k (e2, w))).
  - rewrite bind_run, (record_lock_run _ _ _ e _ x) by done. cbn [val st out app]. fold l.
    rewrite bind_run. cbn [upd on_engine val st out app fst snd].
    assert (update_view v (fun s => s <| echo_sent := true |>)
      (update_view v (fun _ => x <| lock := Some l |>) e) = e2) as ->; [|done].
    unfold e2, update_view, view_state. cbn. by rewrite lookup_insert_eq, insert_insert_eq.
  - intros _. apply step_view; [done..|]. rewrite (view_state_lookup _ _ _ Hx). by apply vs_lock.
  - intros Hinv2 Hc _. apply (Hk e2 l); try done. cbn. by rewrite lookup_insert_eq.
Qed.

Lemma wish_run v stage e (w : E) :
  exists es, wish_effect v stage (e, w) = Res tt es (e, w) /\
    Forall (fun z => foreign z = true) es.
Proof. exists (wish_effects e v stage). split; [done|apply wish_foreign]. Qed.

Lemma sat_recheck_gate v : sat runs (recheck_gate v).
Proof.
  intros [e w]. unfold recheck_gate. apply r_eng.
  destruct (is_pruned e v) eqn:Hp; [by apply sat_ret; apply _|].
  apply r_state_mut; [done|]. intros e1 Hinv1 Hc1 Hm1 Hx _.
  generalize dependent (view_state e v). intros x Hx.
  destruct (active x); [cbn [negb orb]|by apply sat_ret; apply _].
  destruct (echo_sent x) eqn:Hsent; [by apply sat_ret; apply _|].
  destruct (fixed x) as [| |p d] eqn:Hf; [by apply sat_ret; apply _..|].
  destruct (Hinv1 v x Hx) as [_ Hvi]. destruct (vi_fixed _ _ _ Hvi p d Hf) as [[Hpv Hd] Hform].
  eapply r_mild; [exact Hx|apply sat_positive_gate|apply mild_positive_gate|].
  { by rewrite Hpv, (is_pruned_to e). }
  intros ok e2 w2 y z Hinv2 Hc2 Hm2 Hx2. destruct ok; [cbn [negb]|by apply sat_ret; apply _].
  eapply r_lock; [exact Hx2|done..|]. intros e3 l Hinv3 Hc3 Hld Hx3.
  apply r_pending. intros e4 Hinv4 Hc4 _ Hv4. rewrite <- Hv4 in Hx3. apply r_eng.
  assert (Hcfg : cfg e4 = cfg e1) by congruence.
  assert (Hcan : canonical (cfg e4) v p d) by (split; [done|by rewrite Hcfg]).
  eapply (r_own_echo v (EchoGraded p d 1 _) (wish_effect v StageEcho)); [exact Hx3|done| | | | |].
  - cbn. rewrite Hcfg. by eapply own_echo_absent.
  - done.
  - split_and!; [done| |by right; split; [|exists l]].
    unfold compute_origin. by rewrite length_fmap.
  - intros. apply wish_run.
  - apply sat_after_echo.
Qed.

Lemma sat_recheck_all : sat runs recheck_all.
Proof.
  intros [e w]. unfold recheck_all. apply r_eng. apply sat_at_bind; [apply _| |].
  - destruct (last _); [|by apply sat_ret; apply _]. intros _. by apply step_frame.
  - apply sat_for_each; [apply _|]. apply sat_recheck_gate.
Qed.

Lemma r_when_pending {A} b g (k : () -> AM A) e w :
  sat runs (k tt) ->
  sat_at runs (when b (on_engine (fun e => e <| pending_gate ::= g |>)) ≫= k) (e, w).
Proof.
  intros Hk. destruct b; [by apply r_pending|]. apply sat_at_bind; [apply _| |apply Hk].
  by apply sat_ret; apply _.
Qed.

Lemma sat_activate v : sat runs (activate v).
Proof.
  intros [e w]. unfold activate. apply r_eng.
  destruct (is_pruned e v) eqn:Hp; [by apply sat_ret; apply _|].
  apply r_state_mut; [done|]. intros e1 Hinv1 Hc1 Hm1 Hx _.
  destruct (active (view_state e v)); [by apply sat_ret; apply _|].
  apply r_upd; [by rewrite (is_pruned_to e)|intros; apply vs_activate|]. intros e2 _ _ _ _ _.
  apply r_when_pending. apply sat_recheck_gate.
Qed.

Lemma sat_enter v now : sat runs (enter v now).
Proof.
  intros [e w]. unfold enter. apply r_eng.
  destruct (is_pruned e v) eqn:Hp; [by apply sat_ret; apply _|].
  apply r_state_mut; [done|]. intros e1 Hinv1 Hc1 Hm1 Hx _.
  destruct (entered (view_state e v)) eqn:Hent; [by apply sat_ret; apply _|].
  apply r_upd; [by rewrite (is_pruned_to e)| |].
  { intros. apply vs_enter. by rewrite (view_state_lookup _ _ _ Hx). }
  intros e2 _ _ _ _ _. apply r_emit; [done|]. apply r_emit; [done|].
  apply sat_at_bind; [apply _| |apply sat_activate].
  destruct (match fixed _ with FixedProposal _ _ => _ | _ => _ end); [|by apply sat_ret; apply _].
  destruct (first_proposal_instant _); [|by apply sat_ret; apply _].
  intros _. apply step_frame; try done. by repeat constructor.
Qed.

Lemma sat_on_propose k p now e w : sat_at runs (on_propose_any k p now) (e, w).
Proof.
  unfold on_propose_any. apply r_eng.
  destruct (is_pruned e _) eqn:Hp; [by apply sat_ret; apply _|].
  destruct (negb _); [by apply sat_ret; apply _|].
  apply r_state_mut; [done|]. intros e1 Hinv1 Hc1 Hm1 Hx _.
  destruct (match entry_instant _ with Some _ => _ | None => _ end); [by apply sat_ret; apply _|].
  case_bool_decide as Hun; [cbn [negb]|by apply sat_ret; apply _].
  apply r_upd; [by rewrite (is_pruned_to e)|intros; apply vs_first|].
  rewrite (view_state_lookup _ _ _ Hx). intros e2 _ Hc2 Hm2 Hx2 _.
  destruct (p_formed _ p) eqn:Hform; cbn [negb].
  - apply r_canonical; [done|by rewrite (is_pruned_to e1), (is_pruned_to e)|].
    intros e3 _ Hc3 Hm3 Hx3. destruct (Hx3 _ Hx2) as [l Hl]. cbn [fst snd].
    apply r_upd.
    { by rewrite (is_pruned_to e2), (is_pruned_to e1), (is_pruned_to e). }
    { intros _. rewrite (view_state_lookup _ _ _ Hl).
      apply vs_fix; [done|split; [done|by rewrite Hc3]|by rewrite Hc3, Hc2, Hc1]. }
    intros e4 _ _ _ _ _. apply r_when_pending. intros [e5 w5].
    apply r_only_foreign; [apply of_authorize_all|]. intros _ w6. apply r_emit; [done|].
    apply sat_at_bind; [apply _| |apply sat_recheck_gate].
    destruct (entry_instant _); [|by apply sat_ret; apply _].
    intros _. apply step_frame; try done. by repeat constructor.
  - apply r_upd.
    { by rewrite (is_pruned_to e1), (is_pruned_to e). }
    { intros _. rewrite (view_state_lookup _ _ _ Hx2). by apply vs_reject. }
    intros e3 _ _ _ _ _ _. apply step_frame; try done. by repeat constructor.
Qed.

(** Counting and broadcasting the own skip. *)
Lemma sat_skip_echo {A} v (k : AM A) e w x :
  views e !! v = Some x -> echo_sent x = true -> echo_statements x !! name (cfg e) = None ->
  sat runs k -> sat_at runs (skip_echo v;; k) (e, w).
Proof.
  intros Hx Hs Hown Hk.
  eapply sat_at_eq; [|apply (r_own_echo v EchoStSkip skip k e w x Hx Hs Hown I I)]; [|by exists []|done].
  unfold skip_echo. rewrite !bind_run. cbn [eng skip mret M_ret val st out fst app].
  by rewrite <- (assoc_L (++)).
Qed.

Lemma sat_echo_absolute v : sat runs (on_echo_absolute_timer v).
Proof.
  intros [e w]. unfold on_echo_absolute_timer. apply r_eng.
  destruct (is_pruned e v) eqn:Hp; [by apply sat_ret; apply _|].
  apply r_state_mut; [done|]. intros e1 Hinv1 Hc1 Hm1 Hx _.
  destruct (echo_sent (view_state e v)) eqn:Hsent; [by apply sat_ret; apply _|].
  apply r_upd; [by rewrite (is_pruned_to e)| |].
  { intros. apply vs_echo_flag. by rewrite (view_state_lookup _ _ _ Hx). }
  rewrite (view_state_lookup _ _ _ Hx). intros e2 _ Hc2 Hm2 Hx2 _.
  apply r_pending. intros e3 Hinv3 Hc3 Hm3 Hv3. rewrite <- Hv3 in Hx2.
  apply sat_at_bind; [apply _| |].
  - intros _. destruct (wish_run v StageEcho e3 w) as (es & -> & Hes). by apply step_frame.
  - destruct (wish_run v StageEcho e3 w) as (es & -> & Hes). cbn [val st].
    eapply sat_skip_echo; [exact Hx2|done| |apply sat_after_echo].
    cbn. rewrite Hc3, Hc2. by eapply own_echo_absent.
Qed.

Lemma sat_echo_fallback v : sat runs (on_echo_fallback_timer v).
Proof.
  intros [e w]. unfold on_echo_fallback_timer. apply r_eng.
  destruct (is_pruned e v) eqn:Hp; [by apply sat_ret; apply _|].
  apply r_state_mut; [done|]. intros e1 Hinv1 Hc1 Hm1 Hx _.
  generalize dependent (view_state e v). intros x Hx.
  destruct (echo_sent x) eqn:Hsent; [by apply sat_ret; apply _|].
  destruct (fixed x) as [| |p d] eqn:Hf; [by apply sat_ret; apply _..|].
  destruct (Hinv1 v x Hx) as [_ Hvi]. destruct (vi_fixed _ _ _ Hvi p d Hf) as [[Hpv Hd] Hform].
  apply r_upd; [by rewrite (is_pruned_to e)| |].
  { intros. apply vs_echo_flag. by rewrite (view_state_lookup _ _ _ Hx). }
  rewrite (view_state_lookup _ _ _ Hx). intros e2 _ Hc2 Hm2 Hx2 _.
  apply r_pending. intros e3 Hinv3 Hc3 Hm3 Hv3. rewrite <- Hv3 in Hx2.
  apply sat_at_bind; [apply _| |].
  { intros _. destruct (wish_run v StageEcho e3 w) as (es & -> & Hes). by apply step_frame. }
  destruct (wish_run v StageEcho e3 w) as (es & -> & Hes). cbn [val st].
  assert (Hp3 : is_pruned e3 v = false) by (by rewrite (is_pruned_to e2), (is_pruned_to e1), (is_pruned_to e)).
  eapply r_mild; [exact Hx2|apply same_engine_runs, se_core_ok|apply same_engine_mild, se_core_ok|].
  intros core e4 w4 y z Hinv4 Hc4 Hm4 Hx4.
  eapply r_mild; [exact Hx4|..].
  { destruct core; [|by apply sat_ret; apply _]. apply sat_try_meta_ok. by rewrite (is_pruned_to e3). }
  { destruct core; [apply mild_try_meta_ok|apply sat_ret, _]. }
  intros meta e5 w5 y' z' Hinv5 Hc5 Hm5 Hx5.
  assert (Hcfg : cfg e5 = cfg e1) by congruence.
  assert (Hown : echo_statements x !! name (cfg e5) = None).
  { rewrite Hcfg. by eapply own_echo_absent. }
  destruct meta.
  - eapply sat_at_eq; [|eapply (r_own_echo v (EchoGraded p d 0
      (compute_origin e5 (p_entries p))) skip); [exact Hx5|done|done| | | |apply (sat_after_echo v)]].
    + rewrite !bind_run. cbn [eng skip mret M_ret val st out fst app].
      by rewrite <- (assoc_L (++)).
    + split; [done|by rewrite Hcfg].
    + split_and!; [done| |by left]. unfold compute_origin. by rewrite length_fmap.
    + intros. by exists [].
  - eapply sat_skip_echo; [exact Hx5|done|done|apply sat_after_echo].
Qed.

Lemma sat_refuse v : sat runs (refuse_unproposed_view v).
Proof.
  intros [e w]. unfold refuse_unproposed_view. apply r_eng.
  destruct (is_pruned e v); [by apply sat_ret; apply _|].
  destruct (negb _); [by apply sat_ret; apply _|].
  apply sat_at_bind; [apply _|apply sat_echo_absolute|apply sat_on_ready_timer].
Qed.

(** ** Remote ECHOs *)

Lemma eo_origin_length x :
  (length (eo_origin_vec x) <= length (p_entries (eo_into_proposal_out x)))%nat.
Proof. destruct x as [x|x]; simpl; [destruct (vp_m (echo_proposal x)); simpl; lia|lia]. Qed.

(** The statement recorded for a received ECHO. *)
Definition echo_statement_of (cf : AgbConfig) (x : EchoOut) : EchoStatement :=
  EchoGraded (eo_into_proposal_out x) (p_digest (sid cf) (eo_into_proposal_out x)) (eo_grade x)
    (eo_origin_vec x).

Lemma sat_on_echo_any x e w :
  eo_sender x <> name (cfg e) ->
  said_echo inp (eo_proposal_view x) (eo_sender x) (echo_statement_of (cfg e) x) ->
  sat_at runs (on_echo_any x) (e, w).
Proof.
  intros Hk Hsaid. unfold on_echo_any. destruct (_ >? 1); [by apply sat_ret; apply _|]. apply r_eng.
  destruct (is_pruned e _) eqn:Hp; [by apply sat_ret; apply _|].
  apply r_canonical; [by destruct x|done|]. intros e1 _ Hc _ _. cbn [fst snd].
  apply sat_at_bind; [apply _|apply sat_count_echo; [by rewrite Hc|done| |apply eo_origin_length]|].
  - split; [by destruct x|by rewrite Hc].
  - destruct (negb _); [by apply sat_ret; apply _|apply sat_after_echo].
Qed.

Lemma of_absorb k c refs : sat only_foreign (absorb_claims k c refs).
Proof.
  unfold absorb_claims. destruct c as [c|]; [|apply sat_ret, _].
  destruct (statements c refs) as [|a l]; [apply sat_ret, _|].
  apply sat_bind; [apply _| |intros; apply sat_for_each; [apply _|intros; apply of_authorize]].
  intros s. split; [by repeat constructor|done].
Qed.

Lemma of_when b (m : AM ()) : sat only_foreign m -> sat only_foreign (when b m).
Proof. apply sat_when, _. Qed.

Lemma sat_on_echo x e w :
  echo_sender x <> name (cfg e) ->
  said_echo inp (vp_view (echo_proposal x)) (echo_sender x) (echo_statement_of (cfg e) (ESingle x)) ->
  sat_at runs (on_echo x) (e, w).
Proof.
  intros Hk Hsaid. unfold on_echo. apply r_eng.
  apply r_only_foreign; [apply of_when, of_absorb|]. intros _ w'. by apply sat_on_echo_any.
Qed.

Lemma sat_on_echo_batch x e w :
  eb_sender x <> name (cfg e) ->
  said_echo inp (bp_view (eb_proposal x)) (eb_sender x) (echo_statement_of (cfg e) (EBatch x)) ->
  sat_at runs (on_echo_batch x) (e, w).
Proof.
  intros Hk Hsaid. unfold on_echo_batch. apply r_eng.
  apply r_only_foreign; [apply of_when, of_absorb|]. intros _ w'. by apply sat_on_echo_any.
Qed.

Lemma sat_on_echo_skip v k e w :
  k <> name (cfg e) -> said_echo inp v k EchoStSkip -> sat_at runs (on_echo_skip v k) (e, w).
Proof.
  intros Hk Hsaid. unfold on_echo_skip. apply r_eng.
  destruct (is_pruned e _) eqn:Hp; [by apply sat_ret; apply _|].
  apply sat_at_bind; [apply _|by apply sat_count_echo|].
  destruct (negb _); [by apply sat_ret; apply _|].
  apply sat_bind; [apply _|apply sat_lock_release|intros].
  apply sat_bind; [apply _|apply sat_finalize|intros].
  apply sat_bind; [apply _|apply sat_fastseal|intros]. apply sat_skip_vote.
Qed.

(** ** Resolution *)

Lemma sat_submit v o e w : in_resolved inp v o -> sat_at runs (submit_resolution v o) (e, w).
Proof.
  intros Ho. unfold submit_resolution. apply r_eng.
  destruct (is_pruned e _) eqn:Hp; [by apply sat_ret; apply _|].
  apply sat_try_seal. intros _. right; right; by right.
Qed.

Lemma sat_direct_vote entry fresh : sat runs (try_direct_resolution_vote entry fresh).
Proof.
  intros [e w]. unfold try_direct_resolution_vote. apply r_eng.
  destruct (is_pruned e _) eqn:Hp; [by apply sat_ret; apply _|].
  destruct (negb fresh); [by apply sat_ret; apply _|].
  match goal with |- sat_at _ (if ?b then _ else _) _ => destruct b end;
    [by apply sat_ret; apply _|].
  destruct (stance_excludes e entry); [by apply sat_ret; apply _|].
  apply sat_at_bind; [apply _|apply same_engine_runs, se_meta_entry_status|].
  destruct (se_meta_entry_status entry (e, w)) as [_ He].
  destruct (meta_entry_status entry (e, w)) as [[] o [e1 w1]]; simpl in *; subst e1;
    [|by apply sat_ret; apply _..].
  apply sat_at_bind; [apply _|by apply sat_claim_non_skip|].
  apply sat_bind; [apply _|apply same_engine_runs, se_eng|]. intros. apply sat_ret, _.
Qed.
End refine.
