(* ===== verification/Fixtures.v ===== *)
(** Concrete instances of the development's parameters.

    An injective hash, a lane environment in which every block is available and
    a committee of four: the witnesses of the engine's theorems run on them. *)

From S2P Require Import Prelude Committee Types Formed AgbState Agb AgbSteps.

(** ** An injective digest *)

Definition entry_code (x : ResolutionEntry) : (View * Manifest * Manifest) + (View * Manifest * Manifest) + View :=
  match x with
  | EntryFull u c t => inl (inl (u, c, t))
  | EntryCore u c t => inl (inr (u, c, t))
  | EntrySkip u => inr u
  end.

Definition entry_decode (x : (View * Manifest * Manifest) + (View * Manifest * Manifest) + View)
    : ResolutionEntry :=
  match x with
  | inl (inl (u, c, t)) => EntryFull u c t
  | inl (inr (u, c, t)) => EntryCore u c t
  | inr u => EntrySkip u
  end.

#[export] Instance ResolutionEntry_countable : Countable ResolutionEntry.
Proof. apply (inj_countable' entry_code entry_decode). by intros []. Defined.

(** [blake3] and [bincode] as injective codes. *)
Definition coded_hashing : Hashing := {|
  blake3 := fun l => Z.pos (encode l);
  bincode_view_proposal := fun p => [Z.pos (encode (vp_view p, vp_c p, vp_t p, vp_m p))];
  bincode_batch_view_proposal := fun p => [Z.pos (encode (bp_view p, bp_c p, bp_t p, bp_m p))];
|}.

(** ** An environment in which every block is available *)

Definition open_env : AgbEnv () := {|
  author_ok := fun _ w => (true, w);
  holds_prefix := fun _ w => (true, w);
  locally_available := fun _ w => (true, w);
  prefix_contains := fun _ _ _ => true;
  authorize := fun _ w => ([], w);
  instant_now := fun _ => 0;
|}.

Lemma open_env_laws : @AgbEnvLaws () open_env.
Proof. split. intros. constructor. Qed.

(** ** Party 10 of the committee of four *)

Definition config4 (nm : PublicKey) : AgbConfig := {|
  name := nm; committee := committee4; sid := 7; delta := 100; cfg_n := 4;
  f_plus_1 := 2; quorum_parties := 3; quorum := 3;
  proposers := mkRoundRobin [10; 20; 30; 40];
|}.

Lemma config4_new nm : agb_config nm committee4 7 100 = Some (config4 nm).
Proof. vm_compute. reflexivity. Qed.

(** A proposal of view 1 with one core block and one tip. *)
Definition proposal1 : ViewProposal := mkViewProposal 1 [(20, 1, 100)] [(30, 2, 101)] None.

Definition echo1 (k : PublicKey) (g : Z) : Echo := mkEcho proposal1 g k 0 None None.
Definition ready1 (k : PublicKey) (g : ReadyGrade) : Ready := mkReady proposal1 g k 0.
