(* ===== verification/AgbTrace.v ===== *)
(** Runs of the engine and what its messages promise.

    An event is a call of one of the engine's public handlers by the node
    ([src/primary/src/vantage/node.rs] dispatches them); remote statements come
    from authenticated senders other than the engine itself.  The properties
    here hold of the whole sequence of effects an engine ever emits, across
    garbage collections. *)

From S2P Require Import Prelude Committee Types Formed Claim AgbState Agb AgbSteps AgbRefine Fixtures.

Inductive Event :=
| EvEnter (v : View) (now : Instant)
| EvActivate (v : View)
| EvPropose (sender : PublicKey) (p : ViewProposal) (now : Instant)
| EvProposeBatch (sender : PublicKey) (p : BatchViewProposal) (now : Instant)
| EvRecheckAll
| EvEchoFallbackTimer (v : View)
| EvEchoAbsoluteTimer (v : View)
| EvReadyTimer (v : View)
| EvRefuse (v : View)
| EvEcho (x : Echo)
| EvEchoBatch (x : EchoBatch)
| EvEchoSkip (v : View) (sender : PublicKey)
| EvReady (x : Ready)
| EvReadyBatch (x : ReadyBatch)
| EvNoReady (v : View) (sender : PublicKey)
| EvSkipVote (v : View) (sender : PublicKey)
| EvSubmitResolution (v : View) (o : Outcome)
| EvDirectVote (entry : ResolutionEntry) (fresh : bool)
| EvGc (floor : View).

(** The sender of a remote statement. *)
Definition event_sender (ev : Event) : option PublicKey :=
  match ev with
  | EvEcho x => Some (echo_sender x)
  | EvEchoBatch x => Some (eb_sender x)
  | EvEchoSkip _ k | EvNoReady _ k | EvSkipVote _ k => Some k
  | EvReady x => Some (rdy_sender x)
  | EvReadyBatch x => Some (rb_sender x)
  | _ => None
  end.

Section trace.
Context {Hash : Hashing} {E : Type} {Env : AgbEnv E}.

Abbreviation AM := (M Effect (AgbEngine * E)) (only parsing).

Definition handle (ev : Event) : AM () :=
  match ev with
  | EvEnter v now => enter v now
  | EvActivate v => activate v
  | EvPropose k p now => on_propose k p now
  | EvProposeBatch k p now => on_propose_batch k p now
  | EvRecheckAll => recheck_all
  | EvEchoFallbackTimer v => on_echo_fallback_timer v
  | EvEchoAbsoluteTimer v => on_echo_absolute_timer v
  | EvReadyTimer v => on_ready_timer v
  | EvRefuse v => refuse_unproposed_view v
  | EvEcho x => on_echo x
  | EvEchoBatch x => on_echo_batch x
  | EvEchoSkip v k => on_echo_skip v k
  | EvReady x => on_ready x
  | EvReadyBatch x => on_ready_batch x
  | EvNoReady v k => on_noready v k
  | EvSkipVote v k => on_skip_vote v k
  | EvSubmitResolution v o => submit_resolution v o
  | EvDirectVote entry fresh => try_direct_resolution_vote entry fresh;; skip
  | EvGc floor => gc floor
  end.

(** An event the engine may receive: a remote statement is not its own and is
    among the inputs, and so is an outcome the resolver submits. *)
Definition allowed (inp : Inputs) (cf : AgbConfig) (ev : Event) : Prop :=
  event_sender ev <> Some (name cf) /\
  match ev with
  | EvEcho x => said_echo inp (vp_view (echo_proposal x)) (echo_sender x)
                  (echo_statement_of cf (ESingle x))
  | EvEchoBatch x => said_echo inp (bp_view (eb_proposal x)) (eb_sender x)
                       (echo_statement_of cf (EBatch x))
  | EvEchoSkip v k => said_echo inp v k EchoStSkip
  | EvReady x => said_ready inp (vp_view (rdy_proposal x)) (rdy_sender x)
                   (ready_statement_of cf (RSingle x))
  | EvReadyBatch x => said_ready inp (bp_view (rb_proposal x)) (rb_sender x)
                        (ready_statement_of cf (RBatch x))
  | EvNoReady v k => said_ready inp v k NoReady
  | EvSkipVote v k => said_skip inp v k
  | EvSubmitResolution v o => in_resolved inp v o
  | _ => True
  end.

(** [reaches inp cf s es]: the engine configured by [cf] can be in state [s]
    having emitted [es] when it receives only events allowed by [inp]; the
    environment may change between events. *)
Inductive reaches (inp : Inputs) (cf : AgbConfig)
    : AgbEngine * E -> list Effect -> Prop :=
| reach_init w : reaches inp cf (agb_init cf, w) []
| reach_env e w w' es : reaches inp cf (e, w) es -> reaches inp cf (e, w') es
| reach_event s es ev : reaches inp cf s es -> allowed inp cf ev ->
    reaches inp cf (st (handle ev s)) (es ++ out (handle ev s)).

(** A sequence of events, with the effects in order. *)
Fixpoint run_events (evs : list Event) (s : AgbEngine * E) : (AgbEngine * E) * list Effect :=
  match evs with
  | [] => (s, [])
  | ev :: evs =>
      let r := run_events evs (st (handle ev s)) in
      (r.1, out (handle ev s) ++ r.2)
  end.

Lemma run_reaches inp cf evs s es :
  reaches inp cf s es -> Forall (allowed inp cf) evs ->
  reaches inp cf (run_events evs s).1 (es ++ (run_events evs s).2).
Proof.
  revert s es. induction evs as [|ev evs IH]; intros s es Hs Hk; simpl.
  - by rewrite app_nil_r.
  - apply Forall_cons in Hk as [Hk Hks]. rewrite (assoc_L (++)). apply IH; [|done].
    by apply reach_event.
Qed.

Context {Laws : AgbEnvLaws E}.

Lemma inv_init cf : inv (agb_init cf).
Proof. intros v s. cbn. by rewrite lookup_empty. Qed.

Lemma sat_handle inp ev e w :
  (forall floor, ev <> EvGc floor) -> allowed inp (cfg e) ev ->
  sat_at (runs inp) (handle ev) (e, w).
Proof.
  intros Hgc [Hk Hin]. destruct ev; simpl in *.
  - apply sat_enter.
  - apply sat_activate.
  - apply sat_on_propose.
  - apply sat_on_propose.
  - apply sat_recheck_all.
  - apply sat_echo_fallback.
  - apply sat_echo_absolute.
  - apply sat_on_ready_timer.
  - apply sat_refuse.
  - apply sat_on_echo; [congruence|done].
  - apply sat_on_echo_batch; [congruence|done].
  - apply sat_on_echo_skip; [congruence|done].
  - apply sat_on_ready; [simpl; congruence|done].
  - apply sat_on_ready; [simpl; congruence|done].
  - apply sat_on_noready; [congruence|done].
  - apply sat_on_skip_vote; [congruence|done].
  - by apply sat_submit.
  - apply sat_bind; [apply _|apply sat_direct_vote|]. intros. apply sat_ret, _.
  - by destruct (Hgc floor).
Qed.

(** Every run is a chain of atomic steps. *)
Lemma reaches_chain inp cf s es :
  reaches inp cf s es ->
  cfg s.1 = cf /\ exists w, chain inp (agb_init cf, w) es s.
Proof.
  induction 1 as [w|e w w' es _ [Hc (w0 & IH)]|s es ev _ [Hc (w0 & IH)] Hk].
  - split; [done|]. exists w. constructor.
  - split; [done|]. exists w0. rewrite <- (app_nil_r es). eapply chain_trans; [done|].
    by apply chain_one, es_frame.
  - assert (Hinv : inv s.1) by (by eapply chain_inv; [exact IH|apply inv_init]).
    destruct s as [e w]. simpl in Hc.
    assert ((exists floor, ev = EvGc floor) \/ forall floor, ev <> EvGc floor)
      as [(floor & ->)|Hgc] by (destruct ev; naive_solver).
    + simpl. rewrite cfg_gc_below. split; [done|]. exists w0.
      eapply chain_trans; [done|]. apply chain_one, es_gc.
    + assert (Hs : sat_at (runs inp) (handle ev) (e, w)).
      { apply sat_handle; [done|by rewrite Hc]. }
      destruct (Hs Hinv) as [Hch Hcfg _]. simpl in Hcfg. split; [congruence|].
      exists w0. by eapply chain_trans.
Qed.

Lemma reaches_inv inp cf s es : reaches inp cf s es -> inv s.1.
Proof. intros [_ (w & Hc)]%reaches_chain. eapply chain_inv; [exact Hc|apply inv_init]. Qed.
End trace.

(** ** The view a statement or result belongs to *)

Definition effect_view (x : Effect) : View :=
  match x with
  | BroadcastEcho m => eo_proposal_view m
  | BroadcastReady m => ro_proposal_view m
  | BroadcastEchoSkip v | BroadcastNoReady v | BroadcastSkipVote v
  | Completed v _ _ | Sealed v _ => v
  | _ => 0
  end.

Section own.
Context {Hash : Hashing}.

Lemma echo_message_view cf v x : echo_canonical cf v x -> effect_view (echo_message cf v x) = v.
Proof. destruct x as [[p|p] d g o|]; [intros [Hv _]; done..|done]. Qed.

Lemma ready_message_view cf v x : ready_canonical cf v x -> effect_view (ready_message cf v x) = v.
Proof. destruct x as [[p|p] d g|]; [intros [Hv _]; done..|done]. Qed.

(** [consistent cf s x]: the state [s] of a view records the statement or
    result [x]. *)
Definition consistent (cf : AgbConfig) (s : ViewState) (x : Effect) : Prop :=
  match x with
  | BroadcastEcho m => exists p d g o,
      echo_statements s !! name cf = Some (EchoGraded p d g o) /\ m = build_echo_out cf p g o
  | BroadcastEchoSkip _ => echo_statements s !! name cf = Some EchoStSkip
  | BroadcastReady m => exists p d g g',
      ready_statements s !! name cf = Some (ReadyGraded p d g') /\ m = build_ready_out cf p g /\
      (g = g' \/ g = GMix)
  | BroadcastNoReady _ => ready_statements s !! name cf = Some NoReady
  | BroadcastSkipVote _ => stance s = SkipVoted /\ ready_statements s !! name cf = Some NoReady
  | Completed _ c t => completed s = Some (c, t)
  | Sealed _ o => sealed s = Some o
  | _ => True
  end.

(** A recorded response is never replaced, except that a READY-mix may be
    refined for the same proposal. *)
Record persists (cf : AgbConfig) (s s' : ViewState) : Prop := {
  pe_echo k x : echo_statements s !! k = Some x -> echo_statements s' !! k = Some x;
  pe_ready k x : ready_statements s !! k = Some x -> ready_statements s' !! k = Some x \/
    exists p p' d g, x = ReadyGraded p d GMix /\ g <> GMix /\
      ready_statements s' !! k = Some (ReadyGraded p' d g) /\ (k = name cf -> p' = p);
  pe_stance : stance s <> Free -> stance s' = stance s;
  pe_completed ct : completed s = Some ct -> completed s' = Some ct;
  pe_directed o : directed s = Some o -> directed s' = Some o;
  pe_sealed o : sealed s = Some o -> sealed s' = Some o;
  pe_fixed : fixed s <> Unset -> fixed s' = fixed s;
  pe_lock l : lock s = Some l -> exists l', lock s' = Some l' /\
    lock_proposal l' = lock_proposal l /\ lock_digest l' = lock_digest l /\
    (lock_active l' = true -> lock_active l = true);
  pe_echo_sent : echo_sent s = true -> echo_sent s' = true;
  pe_ready_sent : ready_sent s = true -> ready_sent s' = true;
}.

(** Fields the step leaves alone or sets once. *)
Ltac persist_field :=
  cbn; solve [done | intros; congruence | intros; by left
    | intros ? ?; eexists; split_and!; [eassumption|done..]
    | intros ? ?; eexists; split_and!; [reflexivity|simpl; congruence..]].

Lemma persists_refl cf s : persists cf s s.
Proof. split; persist_field. Qed.

Lemma persists_echo cf s k x :
  echo_statements s !! k = None -> persists cf s (apply_echo cf k x s).
Proof.
  intros Hk. rewrite apply_echo_shape. split; try persist_field. cbn.
  intros k' y Hy. rewrite lookup_insert_ne; [done|congruence].
Qed.

Lemma persists_ready cf s k x :
  (k = name cf -> forall p d, ready_statements s !! k = Some (ReadyGraded p d GMix) ->
     exists g, x = ReadyGraded p d g) ->
  persists cf s (apply_ready cf k x s).1.
Proof.
  intros Hown. rewrite apply_ready_shape. destruct (ready_admits k x s) eqn:Ha; [|apply persists_refl].
  split; try persist_field. cbn.
  intros k' y Hy. destruct (decide (k = k')) as [<-|]; [|left; by rewrite lookup_insert_ne].
  rewrite lookup_insert_eq. unfold ready_admits in Ha. rewrite Hy in Ha.
  apply andb_true_iff in Ha as [Hv _]. right.
  destruct y as [p d [| |]|]; try done. destruct x as [p' d' g'|]; try done.
  assert (d = d' /\ g' <> GMix) as [<- Hg].
  { destruct g'; simpl in Hv; try done; split; try done; lia. }
  exists p, p', d, g'. split_and!; [done..|]. intros Hn.
  destruct (Hown Hn p d Hy) as [g [= -> _]]. done.
Qed.

Lemma persists_trans cf s1 s2 s3 : persists cf s1 s2 -> persists cf s2 s3 -> persists cf s1 s3.
Proof.
  intros [A1 A2 A3 A4 A5 A6 A7 A8 A9 A10] [B1 B2 B3 B4 B5 B6 B7 B8 B9 B10].
  split; auto.
  - intros k x [Hx|(p & p' & d & g & -> & Hg & Hx & Hn)]%A2; [by apply B2|].
    right. apply B2 in Hx as [Hx|(q & q' & d' & g' & [= -> -> ->] & _)]; [|done].
    by exists p, p', d, g.
  - intros Hs. rewrite B3; [by apply A3|]. by rewrite A3.
  - intros Hf. rewrite B7; [by apply A7|]. by rewrite A7.
  - intros l (l' & H1 & H2 & H3 & H4)%A8. apply B8 in H1 as (l'' & ? & ? & ? & ?).
    exists l''. split_and!; [done|congruence..|auto].
Qed.

Lemma vstep_persists inp cf v s es s' :
  vstep inp cf v s es s' -> vinv cf v s -> persists cf s s'.
Proof.
  intros Hstep Hv. destruct Hstep; try (split; persist_field).
  - by apply persists_echo.
  - by apply persists_echo.
  - eapply persists_trans; [|apply persists_ready].
    + split; persist_field.
    + cbn. intros _ p' d' Hp. congruence.
  - eapply persists_trans; [|apply persists_ready].
    + split; persist_field.
    + cbn. intros _ p' d' Hp. congruence.
  - eapply persists_trans; [apply (persists_ready cf s (name cf) (ReadyGraded p d g))|].
    + intros _ p' d' Hp. apply refinement_candidate_inv in H as (_ & Hown & _).
      rewrite Hown in Hp. injection Hp as <- <-. eauto.
    + split; persist_field.
  - apply persists_ready. done.
  - unfold skip_vote_ready in H. split; try persist_field. cbn. intros Hs.
    case_bool_decide; done.
Qed.

Lemma consistent_persists cf s s' x : persists cf s s' -> consistent cf s x -> consistent cf s' x.
Proof.
  intros Hp. destruct x; simpl; try done.
  - intros (p & d & g & o & He & ->). exists p, d, g, o. split; [by apply (pe_echo _ _ _ Hp)|done].
  - apply (pe_echo _ _ _ Hp).
  - intros (p & d & g & g' & Hr & -> & Hg).
    destruct (pe_ready _ _ _ Hp _ _ Hr) as [Hr'|(q & q' & d' & g2 & [= <- <- ->] & _ & Hr' & Hq)].
    + by exists p, d, g, g'.
    + rewrite (Hq eq_refl) in Hr'. exists p, d, g, g2. split_and!; [done..|]. right.
      by destruct Hg.
  - intros Hr. destruct (pe_ready _ _ _ Hp _ _ Hr) as [|(? & ? & ? & ? & [=] & _)]; done.
  - intros [Hs Hr]. split; [by rewrite (pe_stance _ _ _ Hp), Hs; [|rewrite Hs]|].
    destruct (pe_ready _ _ _ Hp _ _ Hr) as [|(? & ? & ? & ? & [=] & _)]; done.
  - apply (pe_completed _ _ _ Hp).
  - apply (pe_sealed _ _ _ Hp).
Qed.

Lemma foreign_not l x : Forall (fun y => foreign y = true) l -> x ∈ l -> foreign x = true.
Proof. rewrite Forall_forall. auto. Qed.

(** An emitted statement belongs to the stepping view and is recorded. *)
Lemma vstep_emits inp cf v s es s' x :
  vstep inp cf v s es s' -> vinv cf v s -> x ∈ es -> foreign x = false ->
  effect_view x = v /\ consistent cf s' x.
Proof.
  intros Hstep Hv Hx Hfx. destruct Hstep; try (by apply elem_of_nil in Hx);
    repeat match goal with
    | H : x ∈ _ ++ [_] |- _ => apply elem_of_app in H as [Hx|Hx];
        [exfalso; rewrite (foreign_not w x) in Hfx; done|]
    | H : x ∈ [_] |- _ => apply list_elem_of_singleton in H; subst x
    end; try done.
  - split; [by apply echo_message_view|]. rewrite apply_echo_shape.
    destruct x0 as [p d g o|]; cbn; rewrite lookup_insert_eq; [|done]. by exists p, d, g, o.
  - split; [by apply (ready_message_view cf)|]. rewrite apply_ready_shape.
    unfold ready_admits. cbn. rewrite H0. cbn. rewrite lookup_insert_eq.
    exists p, d, g, g. auto.
  - split; [done|]. rewrite apply_ready_shape.
    unfold ready_admits. cbn. rewrite H0. cbn. by rewrite lookup_insert_eq.
  - apply refinement_candidate_inv in H as (_ & Hown & _).
    split; [by apply (ready_message_view cf), (vi_readies _ _ _ Hv _ _ Hown)|].
    rewrite apply_ready_accepts in H0. rewrite apply_ready_shape, H0. cbn.
    rewrite lookup_insert_eq. exists p, d, g, g. auto.
  - unfold skip_vote_ready in H. cbn. split_and!; [done..|].
    repeat case_bool_decide; done.
Qed.
End own.

(** ** Histories *)

Section history.
Context {Hash : Hashing} {E : Type} (inp : Inputs).

(** Every statement emitted for a live view is recorded in its state, and any
    two statements ever emitted for a view are recorded by one state. *)
Record history_ok (es : list Effect) (e : AgbEngine) : Prop := {
  ho_live x : x ∈ es -> foreign x = false -> is_pruned e (effect_view x) = true \/
    consistent (cfg e) (view_state e (effect_view x)) x;
  ho_pair x y : x ∈ es -> y ∈ es -> foreign x = false -> foreign y = false ->
    effect_view x = effect_view y -> exists s, consistent (cfg e) s x /\ consistent (cfg e) s y;
}.

Lemma is_pruned_gc e v floor : is_pruned e v = true -> is_pruned (gc_below floor e) v = true.
Proof.
  unfold is_pruned, gc_below. destruct (Z.leb_spec floor (min_live_view e)); [done|]. cbn.
  rewrite !Z.ltb_lt. lia.
Qed.

Lemma view_state_gc e v floor :
  is_pruned (gc_below floor e) v = true \/ view_state (gc_below floor e) v = view_state e v.
Proof.
  unfold is_pruned, gc_below, view_state.
  destruct (Z.leb_spec floor (min_live_view e)); [by right|]. cbn.
  rewrite lookup_map_split_off. case_decide; [by right|]. left. rewrite Z.ltb_lt. lia.
Qed.

Lemma view_state_update e v s u :
  view_state (update_view v (fun _ => s) e) u = if decide (u = v) then s else view_state e u.
Proof.
  unfold view_state, update_view. cbn. case_decide as Hu.
  - subst. by rewrite lookup_insert_eq.
  - by rewrite lookup_insert_ne.
Qed.

Lemma estep_history (s s' : AgbEngine * E) es hist :
  estep inp s es s' -> inv s.1 -> history_ok hist s.1 -> history_ok (hist ++ es) s'.1.
Proof.
  intros Hstep Hinv [Hl Hpair].
  destruct Hstep as [e v es s' w w' Hp Hv|e e' w w' es Hc Hvi Hm Hfor|e w floor]; simpl in *.
  - pose proof (inv_view_state e v Hinv) as Hvinv.
    pose proof (vstep_persists _ _ _ _ _ _ Hv Hvinv) as Hpe.
    assert (Hold : forall x, x ∈ hist -> foreign x = false -> effect_view x = v -> consistent (cfg e) s' x).
    { intros x Hx Hf Hxv. destruct (Hl x Hx Hf) as [Hpr|Hco]; rewrite Hxv in *; [congruence|].
      by eapply consistent_persists. }
    assert (Hnew : forall x, x ∈ es -> foreign x = false -> effect_view x = v /\ consistent (cfg e) s' x).
    { intros x Hx Hf. by eapply vstep_emits. }
    split.
    + intros x [Hx|Hx]%elem_of_app Hf; cbn.
      * rewrite view_state_update. case_decide; [right; by apply Hold|]. by apply Hl.
      * right. destruct (Hnew x Hx Hf) as [-> Hco]. by rewrite view_state_update, decide_True.
    + intros x y [Hx|Hx]%elem_of_app [Hy|Hy]%elem_of_app Hfx Hfy Heq; cbn.
      * by apply Hpair.
      * destruct (Hnew y Hy Hfy) as [Hyv ?]. exists s'. split; [apply Hold; congruence|done].
      * destruct (Hnew x Hx Hfx) as [Hxv ?]. exists s'. split; [done|apply Hold; congruence].
      * exists s'. split; [by apply Hnew|by apply Hnew].
  - assert (Hin : forall x, x ∈ hist ++ es -> foreign x = false -> x ∈ hist).
    { intros x [Hx|Hx]%elem_of_app Hf; [done|]. rewrite (foreign_not es) in Hf; done. }
    split.
    + intros x Hx Hf. unfold is_pruned, view_state. rewrite Hc, Hvi, Hm.
      apply Hl; [by apply Hin|done].
    + intros x y Hx Hy Hfx Hfy Heq. rewrite Hc. apply Hpair; auto.
  - rewrite app_nil_r. split; [|by rewrite cfg_gc_below].
    intros x Hx Hf. rewrite cfg_gc_below. destruct (Hl x Hx Hf) as [Hpr|Hco].
    + left. by apply is_pruned_gc.
    + destruct (view_state_gc e (effect_view x) floor) as [?| ->]; auto.
Qed.

Lemma chain_history (s s' : AgbEngine * E) es hist :
  chain inp s es s' -> inv s.1 -> history_ok hist s.1 -> history_ok (hist ++ es) s'.1.
Proof.
  intros Hc. revert hist. induction Hc as [|s1 s2 s3 es1 es2 Hstep Hc IH]; intros hist Hinv Hh.
  - by rewrite app_nil_r.
  - rewrite (assoc_L (++)). apply IH; [by eapply estep_inv|by eapply estep_history].
Qed.
End history.

Lemma reaches_history {Hash : Hashing} {E} {Env : AgbEnv E} {Laws : AgbEnvLaws E}
    inp cf (s : AgbEngine * E) es :
  reaches inp cf s es -> cfg s.1 = cf /\ history_ok es s.1.
Proof.
  intros [Hc (w & Hch)]%reaches_chain. split; [done|].
  apply (chain_history inp _ _ es [] Hch); [apply inv_init|]. split; set_solver.
Qed.

(** ** How often a statement is emitted *)

Definition of_view (cls : Effect -> bool) (v : View) (x : Effect) : bool :=
  negb (foreign x) && (effect_view x =? v) && cls x.

(** The number of effects of class [cls] that belong to view [v]. *)
Definition count (cls : Effect -> bool) (v : View) (es : list Effect) : Z :=
  Z.of_nat (length (filter (fun x => of_view cls v x = true) es)).

Definition is_echo_stage (x : Effect) : bool :=
  match x with BroadcastEcho _ | BroadcastEchoSkip _ => true | _ => false end.
Definition is_ready_stage (x : Effect) : bool :=
  match x with BroadcastReady _ | BroadcastNoReady _ => true | _ => false end.
Definition is_skip_vote (x : Effect) : bool :=
  match x with BroadcastSkipVote _ => true | _ => false end.
Definition is_completed (x : Effect) : bool :=
  match x with Completed _ _ _ => true | _ => false end.
Definition is_seal (x : Effect) : bool :=
  match x with Sealed _ _ => true | _ => false end.

Lemma count_app cls v l l' : count cls v (l ++ l') = count cls v l + count cls v l'.
Proof. unfold count. rewrite filter_app, length_app. lia. Qed.

Lemma count_none cls v l :
  (forall x, x ∈ l -> foreign x = false -> effect_view x <> v) -> count cls v l = 0.
Proof.
  intros Hl. unfold count. rewrite filter_none; [done|]. intros x Hx Hv. unfold of_view in Hv.
  destruct (foreign x) eqn:Hf; [done|]. destruct (Z.eqb_spec (effect_view x) v); [|done].
  by apply (Hl x).
Qed.

Lemma count_foreign cls v l : Forall (fun y => foreign y = true) l -> count cls v l = 0.
Proof. intros Hl. apply count_none. intros x Hx Hf. rewrite (foreign_not l) in Hf; done. Qed.

Lemma count_last cls v w x :
  Forall (fun y => foreign y = true) w -> count cls v (w ++ [x]) = indicator (of_view cls v x).
Proof.
  intros Hw. rewrite count_app, count_foreign by done. unfold count. rewrite filter_cons.
  destruct (of_view cls v x); [by rewrite decide_True|by rewrite decide_False].
Qed.

Section budget.
Context {Hash : Hashing} {E : Type} (inp : Inputs).
Context (cls : Effect -> bool) (f : AgbConfig -> ViewState -> Z) (bound : Z).
Context (f_range : forall cf s, 0 <= f cf s <= bound).
Context (f_step : forall cf v s es s', vstep inp cf v s es s' -> vinv cf v s ->
  f cf s + count cls v es <= f cf s').

Definition potential (v : View) (e : AgbEngine) : Z :=
  if is_pruned e v then bound else f (cfg e) (view_state e v).

Lemma estep_budget (s s' : AgbEngine * E) es v :
  estep inp s es s' -> inv s.1 -> potential v s.1 + count cls v es <= potential v s'.1.
Proof.
  intros Hstep Hinv. unfold potential.
  destruct Hstep as [e u es s' w w' Hp Hv|e e' w w' es Hc Hvi Hm Hfor|e w floor]; simpl.
  - pose proof (inv_view_state e u Hinv) as Hu. destruct (decide (u = v)) as [->|Hne].
    + rewrite view_state_update, decide_True by done.
      assert (is_pruned (update_view v (fun _ => s') e) v = is_pruned e v) as -> by done.
      rewrite Hp. cbn. by apply f_step.
    + rewrite view_state_update, decide_False by done.
      rewrite count_none; [cbn; unfold is_pruned; cbn; lia|].
      intros x Hx Hf Heq. eapply vstep_emits in Hx as [Hxu _]; [|done..]. congruence.
  - rewrite count_foreign by done. unfold is_pruned, view_state. rewrite Hc, Hvi, Hm. lia.
  - change (count cls v []) with 0. pose proof (f_range (cfg e) (view_state e v)).
    destruct (is_pruned e v) eqn:Hp; [rewrite is_pruned_gc by done; lia|].
    rewrite cfg_gc_below. destruct (is_pruned (gc_below floor e) v) eqn:Hp'; [lia|].
    destruct (view_state_gc e v floor) as [|Heq]; [congruence|]. rewrite Heq. lia.
Qed.

Lemma chain_budget (s s' : AgbEngine * E) es v :
  chain inp s es s' -> inv s.1 -> potential v s.1 + count cls v es <= potential v s'.1.
Proof.
  induction 1 as [|s1 s2 s3 es1 es2 Hstep Hc IH]; intros Hinv; [unfold count; simpl; lia|].
  rewrite count_app. pose proof (estep_budget _ _ _ v Hstep Hinv).
  assert (inv s2.1) by (by eapply estep_inv). specialize (IH ltac:(done)). lia.
Qed.

Lemma reaches_budget {Env : AgbEnv E} {Laws : AgbEnvLaws E} cf (s : AgbEngine * E) es v :
  reaches inp cf s es -> count cls v es <= bound.
Proof.
  intros [Hc (w & Hch)]%reaches_chain.
  pose proof (chain_budget _ _ _ v Hch (inv_init cf)) as Hb.
  unfold potential in Hb. pose proof (f_range (cfg s.1) (view_state s.1 v)).
  pose proof (f_range cf (view_state (agb_init cf) v)). pose proof (f_range cf vs_default).
  simpl in Hb. destruct (is_pruned s.1 v), (is_pruned (agb_init cf) v); lia.
Qed.
End budget.

Section once.
Context {Hash : Hashing} (inp : Inputs) (cf : AgbConfig).

Definition own_echoed (s : ViewState) : Z :=
  indicator (bool_decide (is_Some (echo_statements s !! name cf))).
Definition own_readied (s : ViewState) : Z :=
  match ready_statements s !! name cf with
  | None => 0
  | Some (ReadyGraded _ _ GMix) => 1
  | Some _ => 2
  end.

(** The emission of [x] uses up the right to emit it again. *)
Definition fresh (s : ViewState) (x : Effect) (s' : ViewState) : Prop :=
  match x with
  | BroadcastEcho _ | BroadcastEchoSkip _ => own_echoed s < own_echoed s'
  | BroadcastReady _ | BroadcastNoReady _ => own_readied s < own_readied s'
  | BroadcastSkipVote _ => stance s = Free /\ stance s' = SkipVoted
  | Completed _ _ _ => completed s = None /\ is_Some (completed s')
  | Sealed _ _ => sealed s = None /\ is_Some (sealed s')
  | _ => True
  end.

Lemma vstep_fresh v s es s' :
  vstep inp cf v s es s' ->
  Forall (fun y => foreign y = true) es \/
  exists w x, es = w ++ [x] /\ Forall (fun y => foreign y = true) w /\ fresh s x s'.
Proof.
  intros Hstep. destruct Hstep; try (left; by constructor); right.
  - exists w, (echo_message cf v x). split_and!; [done..|].
    assert (own_echoed s < own_echoed (apply_echo cf (name cf) x s)); [|by destruct x].
    unfold own_echoed. rewrite apply_echo_shape. cbn. rewrite lookup_insert_eq, H0. done.
  - eexists w, _. split_and!; [done..|]. cbn. unfold own_readied. rewrite apply_ready_shape.
    unfold ready_admits. cbn. rewrite H0. cbn. rewrite lookup_insert_eq. by destruct g.
  - eexists w, _. split_and!; [done..|]. cbn. unfold own_readied. rewrite apply_ready_shape.
    unfold ready_admits. cbn. rewrite H0. cbn. by rewrite lookup_insert_eq.
  - exists [], (ready_message cf v (ReadyGraded p d g)). split_and!; [done|constructor|]. cbn.
    apply refinement_candidate_inv in H as (_ & Hown & t & _ & Hg).
    unfold own_readied. rewrite Hown. rewrite apply_ready_accepts in H0.
    rewrite apply_ready_shape, H0. cbn. rewrite lookup_insert_eq.
    by destruct Hg as [[-> _]|[-> _]].
  - eexists w, _. split_and!; [done..|]. cbn. done.
  - eexists [], _. split_and!; [done|constructor|]. cbn. done.
  - eexists [], _. split_and!; [done|constructor|]. cbn. split; [|done].
    unfold skip_vote_ready in H. by case_bool_decide.
Qed.

(** A class of effects is budgeted by a potential that never decreases and
    grows with each fresh emission of the class. *)
Lemma fresh_budget cls (f : ViewState -> Z) v s es s' :
  (persists cf s s' -> f s <= f s') ->
  (forall x, cls x = true -> fresh s x s' -> f s < f s') ->
  vstep inp cf v s es s' -> vinv cf v s -> f s + count cls v es <= f s'.
Proof.
  intros Hmono Hfresh Hstep Hv. pose proof (vstep_persists _ _ _ _ _ _ Hstep Hv) as Hp.
  specialize (Hmono Hp).
  destruct (vstep_fresh _ _ _ _ Hstep) as [Hall|(w & x & -> & Hw & Hx)].
  - rewrite count_foreign by done. lia.
  - rewrite count_last by done. unfold of_view. destruct (cls x) eqn:Hc.
    + specialize (Hfresh x Hc Hx). destruct (_ && _); simpl; lia.
    + rewrite andb_false_r. simpl. lia.
Qed.

Lemma own_echoed_mono s s' : persists cf s s' -> own_echoed s <= own_echoed s'.
Proof.
  intros Hp. unfold own_echoed. case_bool_decide as H1; [|cbn; by case_bool_decide].
  destruct H1 as [x Hx]. by rewrite (pe_echo _ _ _ Hp _ x Hx).
Qed.

Lemma own_readied_mono s s' : persists cf s s' -> own_readied s <= own_readied s'.
Proof.
  intros Hp. unfold own_readied at 1. destruct (ready_statements s !! name cf) as [x|] eqn:Hx.
  - destruct (pe_ready _ _ _ Hp _ x Hx) as [Hx'|(p & p' & d & g & -> & Hg & Hx' & _)];
      unfold own_readied; rewrite Hx'; [done|]. by destruct g.
  - unfold own_readied. destruct (ready_statements s' !! _) as [[? ? []|]|]; done.
Qed.

Definition skip_voted (s : ViewState) : Z := indicator (bool_decide (stance s = SkipVoted)).
Definition was_completed (s : ViewState) : Z := indicator (bool_decide (is_Some (completed s))).
Definition was_sealed (s : ViewState) : Z := indicator (bool_decide (is_Some (sealed s))).

Lemma skip_voted_mono s s' : persists cf s s' -> skip_voted s <= skip_voted s'.
Proof.
  intros Hp. unfold skip_voted. case_bool_decide as H1; [|cbn; by case_bool_decide].
  rewrite (pe_stance _ _ _ Hp), H1; [done|by rewrite H1].
Qed.

Lemma was_completed_mono s s' : persists cf s s' -> was_completed s <= was_completed s'.
Proof.
  intros Hp. unfold was_completed. case_bool_decide as H1; [|cbn; by case_bool_decide].
  destruct H1 as [x Hx]. by rewrite (pe_completed _ _ _ Hp _ Hx).
Qed.

Lemma was_sealed_mono s s' : persists cf s s' -> was_sealed s <= was_sealed s'.
Proof.
  intros Hp. unfold was_sealed. case_bool_decide as H1; [|cbn; by case_bool_decide].
  destruct H1 as [x Hx]. by rewrite (pe_sealed _ _ _ Hp _ Hx).
Qed.
End once.

(** Over its whole life, and across garbage collections, an engine emits for
    each view at most one echo-stage response (ECHO or ECHO-SKIP), at most two
    ready-stage responses, one SKIP-VOTE, one completion and one seal, whatever
    the network and the resolver feed it. *)
Theorem statements_bounded {Hash : Hashing} {E} {Env : AgbEnv E} {Laws : AgbEnvLaws E}
    inp cf (s : AgbEngine * E) es v :
  reaches inp cf s es ->
  count is_echo_stage v es <= 1 /\ count is_ready_stage v es <= 2 /\
  count is_skip_vote v es <= 1 /\ count is_completed v es <= 1 /\ count is_seal v es <= 1.
Proof.
  intros Hr. split_and!.
  - eapply (reaches_budget inp is_echo_stage own_echoed 1); [| |exact Laws|exact Hr].
    + intros cf' s'. unfold own_echoed. case_bool_decide; simpl; lia.
    + intros cf' v' s1 es1 s2. apply fresh_budget; [apply own_echoed_mono|]. by intros [].
  - eapply (reaches_budget inp is_ready_stage own_readied 2); [| |exact Laws|exact Hr].
    + intros cf' s'. unfold own_readied. destruct (ready_statements s' !! _) as [[? ? []|]|]; lia.
    + intros cf' v' s1 es1 s2. apply fresh_budget; [apply own_readied_mono|]. by intros [].
  - eapply (reaches_budget inp is_skip_vote (fun _ => skip_voted) 1); [| |exact Laws|exact Hr].
    + intros cf' s'. unfold skip_voted. case_bool_decide; simpl; lia.
    + intros cf' v' s1 es1 s2. apply fresh_budget; [apply skip_voted_mono|].
      intros [] Hc Hf; try done. unfold skip_voted. destruct Hf as [-> ->]. done.
  - eapply (reaches_budget inp is_completed (fun _ => was_completed) 1); [| |exact Laws|exact Hr].
    + intros cf' s'. unfold was_completed. case_bool_decide; simpl; lia.
    + intros cf' v' s1 es1 s2. apply fresh_budget; [apply was_completed_mono|].
      intros [] Hc Hf; try done. unfold was_completed. destruct Hf as [-> [x ->]]. done.
  - eapply (reaches_budget inp is_seal (fun _ => was_sealed) 1); [| |exact Laws|exact Hr].
    + intros cf' s'. unfold was_sealed. case_bool_decide; simpl; lia.
    + intros cf' v' s1 es1 s2. apply fresh_budget; [apply was_sealed_mono|].
      intros [] Hc Hf; try done. unfold was_sealed. destruct Hf as [-> [x ->]]. done.
Qed.

(** Party 10 receives the proposal of view 1, two grade-1 echoes and two grade-1
    readies: it echoes, readies, completes and seals. *)
Definition happy_events : list Event :=
  [EvEnter 1 0; EvPropose 10 proposal1 5; EvEcho (echo1 20 1); EvEcho (echo1 30 1);
   EvReady (ready1 20 GOne); EvReady (ready1 30 GOne)].

Definition happy_run (evs : list Event) : (AgbEngine * ()) * list Effect :=
  @run_events coded_hashing () open_env evs (agb_init (config4 10), tt).

(** No event claims to come from party 10 and none submits a resolution. *)
Definition plain_event (ev : Event) : bool :=
  negb (bool_decide (event_sender ev = Some 10)) &&
  match ev with EvSubmitResolution _ _ => false | _ => true end.

Lemma happy_reaches evs :
  forallb plain_event evs = true ->
  @reaches coded_hashing () open_env any_inputs (config4 10) (happy_run evs).1 (happy_run evs).2.
Proof.
  rewrite forallb_forall. intros Hevs.
  apply (@run_reaches coded_hashing () open_env any_inputs (config4 10) evs _ []); [constructor|].
  apply Forall_forall. intros ev Hin%list_elem_of_In%Hevs. unfold plain_event in Hin.
  case_bool_decide; [done|]. split; [done|]. by destruct ev.
Qed.

Lemma statements_bounded_witness :
  (happy_run happy_events).2 =
    [ArmTimer 1 EchoAbsolute 300; ArmTimer 1 ReadyAbsolute 400; FixedView 1 true;
     ArmTimer 1 EchoFallback 105; RaiseWish 3;
     BroadcastEcho (build_echo_out (config4 10) (PSingle proposal1) 1 []);
     BroadcastReady (build_ready_out (config4 10) (PSingle proposal1) GOne);
     Completed 1 [(20, 1, 100)] [(30, 2, 101)]; Sealed 1 (OFull [(20, 1, 100)] [(30, 2, 101)])] /\
  count is_echo_stage 1 (happy_run happy_events).2 <= 1.
Proof.
  split; [vm_compute; reflexivity|].
  apply (@statements_bounded coded_hashing () open_env open_env_laws any_inputs (config4 10)
    (happy_run happy_events).1 (happy_run happy_events).2 1).
  apply happy_reaches. vm_compute. reflexivity.
Defined.

(** C9: an engine never contradicts itself: of any two messages it ever sends for
    a view, two echo-stage responses are identical; two ready-stage responses
    are both NO-READY or READYs for one proposal, of one grade unless one of
    them is the provisional mix; a SKIP-VOTE excludes every READY; two
    completions carry one payload and two seals one outcome. *)
Theorem no_equivocation {Hash : Hashing} {E} {Env : AgbEnv E} {Laws : AgbEnvLaws E}
    inp cf (s : AgbEngine * E) es x y :
  reaches inp cf s es -> x ∈ es -> y ∈ es -> effect_view x = effect_view y ->
  match x, y with
  | BroadcastEcho a, BroadcastEcho b => a = b
  | BroadcastEcho _, BroadcastEchoSkip _ => False
  | BroadcastReady a, BroadcastReady b =>
      ro_into_proposal_out a = ro_into_proposal_out b /\
      (ro_grade a = ro_grade b \/ ro_grade a = GMix \/ ro_grade b = GMix)
  | BroadcastReady _, BroadcastNoReady _ => False
  | BroadcastReady _, BroadcastSkipVote _ => False
  | Completed _ c t, Completed _ c' t' => c = c' /\ t = t'
  | Sealed _ o, Sealed _ o' => o = o'
  | _, _ => True
  end.
Proof.
  intros [Hc [_ Hpair]]%reaches_history Hx Hy Hv.
  destruct x, y; try done; destruct (Hpair _ _ Hx Hy eq_refl eq_refl Hv) as (s' & Hs1 & Hs2);
    simpl in *.
  - destruct Hs1 as (p & d & g & o & He & ->), Hs2 as (p' & d' & g' & o' & He' & ->). congruence.
  - destruct Hs1 as (p & d & g & o & He & _). congruence.
  - destruct Hs1 as (p & d & g & g1 & He & -> & Hg), Hs2 as (p' & d' & g' & g1' & He' & -> & Hg').
    assert (p' = p /\ g1' = g1) as [-> ->] by (split; congruence).
    destruct p; simpl; (split; [done|]); destruct Hg as [->| ->], Hg' as [->| ->]; auto.
  - destruct Hs1 as (p & d & g & o & He & _). congruence.
  - destruct Hs1 as (p & d & g & g1 & He & _), Hs2 as [_ ?]. congruence.
  - split; congruence.
  - congruence.
Qed.

(** Mixed echoes make party 10 send a READY-mix, which it refines once the
    grade-1 echoes alone are a quorum. *)
Definition mix_events : list Event :=
  [EvEnter 1 0; EvPropose 10 proposal1 5; EvEcho (echo1 20 0); EvEcho (echo1 30 1);
   EvEcho (echo1 40 1)].

Lemma no_equivocation_witness :
  let mix := build_ready_out (config4 10) (PSingle proposal1) GMix in
  let one := build_ready_out (config4 10) (PSingle proposal1) GOne in
  BroadcastReady mix ∈ (happy_run mix_events).2 /\ BroadcastReady one ∈ (happy_run mix_events).2 /\
  ro_into_proposal_out mix = ro_into_proposal_out one /\
  (ro_grade mix = ro_grade one \/ ro_grade mix = GMix \/ ro_grade one = GMix).
Proof.
  intros mix one.
  assert (H1 : BroadcastReady mix ∈ (happy_run mix_events).2).
  { vm_compute. repeat (first [apply list_elem_of_here | apply list_elem_of_further]). }
  assert (H2 : BroadcastReady one ∈ (happy_run mix_events).2).
  { vm_compute. repeat (first [apply list_elem_of_here | apply list_elem_of_further]). }
  split; [exact H1|]. split; [exact H2|].
  apply (@no_equivocation coded_hashing () open_env open_env_laws any_inputs (config4 10)
    (happy_run mix_events).1 (happy_run mix_events).2 (BroadcastReady mix) (BroadcastReady one));
    [|exact H1|exact H2|reflexivity].
  apply happy_reaches. vm_compute. reflexivity.
Defined.
