(* ===== verification/ResolutionEvidence.v ===== *)
(** Candidates justified by first-hand evidence.

    Models [ResolutionEvidence] of
    [src/primary/src/vantage/resolution_evidence.rs]: the values a party may
    propose to the resolver for a target view, from the statements its engine
    has counted, in one canonical order.  [bincode] is a third-party crate: its
    encoding of a payload is a parameter. *)

From S2P Require Import Prelude Committee Types Formed AgbState Agb Fixtures AgbTrace.

(** ** Comparing keys *)

(** [Ord] on [Vec<u8>]. *)
Fixpoint bytes_le (l l' : list Z) : bool :=
  match l, l' with
  | [], _ => true
  | _ :: _, [] => false
  | a :: l, b :: l' => (a <? b) || ((a =? b) && bytes_le l l')
  end.

Lemma bytes_le_total l l' : bytes_le l l' = true \/ bytes_le l' l = true.
Proof.
  revert l'. induction l as [|a l IH]; intros [|b l']; simpl; try by auto.
  destruct (Z.lt_total a b) as [?|[->|?]].
  - left. by rewrite (proj2 (Z.ltb_lt a b)).
  - rewrite Z.ltb_irrefl, Z.eqb_refl. simpl. apply IH.
  - right. by rewrite (proj2 (Z.ltb_lt b a)).
Qed.

Lemma bytes_le_spec a b l l' :
  bytes_le (a :: l) (b :: l') = true <-> a < b \/ (a = b /\ bytes_le l l' = true).
Proof. simpl. rewrite orb_true_iff, andb_true_iff, Z.ltb_lt, Z.eqb_eq. done. Qed.

Lemma bytes_le_trans l1 l2 l3 : bytes_le l1 l2 = true -> bytes_le l2 l3 = true -> bytes_le l1 l3 = true.
Proof.
  revert l2 l3. induction l1 as [|a l1 IH]; intros [|b l2] [|c l3]; try done.
  rewrite !bytes_le_spec. intros [?|[-> ?]] [?|[-> ?]]; [left; lia|by left|by left|right; eauto].
Qed.

Lemma bytes_le_antisymm l l' : bytes_le l l' = true -> bytes_le l' l = true -> l = l'.
Proof.
  revert l'. induction l as [|a l IH]; intros [|b l']; try done.
  rewrite !bytes_le_spec. intros [?|[-> ?]] [?|[? ?]]; try lia. f_equal. by apply IH.
Qed.

#[export, program] Instance bytes_key_order : KeyOrder (list Z) :=
  {| kle := fun l l' => bytes_le l l' = true |}.
Next Obligation. intros l l'. apply bool_eq_dec. Defined.
Next Obligation. intros l1 l2 l3. apply bytes_le_trans. Qed.
Next Obligation. intros l l'. apply bytes_le_antisymm. Qed.
Next Obligation. intros l l'. apply bytes_le_total. Qed.

(** [false < true]. *)
#[export, program] Instance bool_key_order : KeyOrder bool := {| kle := fun a b => a = true -> b = true |}.
Next Obligation. intros [] []; (left; done) || (right; naive_solver). Defined.
Next Obligation. intros a b c Hab Hbc Ha. by apply Hbc, Hab. Qed.
Next Obligation. intros [] []; naive_solver. Qed.
Next Obligation. intros [] []; naive_solver. Qed.

(** ** The component *)

Record ResolutionEvidence := mkResolutionEvidence {
  re_f_plus_1_parties : Z;
  re_quorum_parties : Z;
  resolved_watermark : View;
}.

Definition evidence_new (n : Z) : ResolutionEvidence :=
  let thresholds := from_party_count n in
  mkResolutionEvidence (f_plus_1_parties thresholds) (n_minus_f_parties thresholds) 1.

Definition gc_floor (gc_window : View) (r : ResolutionEvidence) : View :=
  Z.max (u64_saturating_sub (resolved_watermark r) gc_window) 1.

Definition note_resolved_through (view : View) (r : ResolutionEvidence) : ResolutionEvidence :=
  mkResolutionEvidence (re_f_plus_1_parties r) (re_quorum_parties r)
    (Z.max (resolved_watermark r) (u64_saturating_add view 1)).

Definition evidence_gc_below (floor : View) (r : ResolutionEvidence) : ResolutionEvidence :=
  mkResolutionEvidence (re_f_plus_1_parties r) (re_quorum_parties r) (Z.max (resolved_watermark r) floor).

Definition full_selection_barred (r : ResolutionEvidence) (e : AgbEngine) (target : View) : bool :=
  re_quorum_parties r <=? ready_stage_zero_or_noready_count e target.

Section evidence.
(** [bincode::serialize(&(c, t))]. *)
Context (bincode_payload : Manifest -> Manifest -> list Z).

Definition canonical_key (entry : ResolutionEntry) : bool * list Z * Z :=
  match entry with
  | EntryFull _ c t => (false, bincode_payload c t, 0)
  | EntryCore _ c t => (false, bincode_payload c t, 1)
  | EntrySkip _ => (true, [], 2)
  end.

Definition key_le (x y : ResolutionEntry) : Prop := kle (canonical_key x) (canonical_key y).

#[export] Instance key_le_dec : RelDecision key_le.
Proof. intros x y. apply kle_dec. Defined.
#[export] Instance key_le_total : Total key_le.
Proof. intros x y. apply (total kle (canonical_key x) (canonical_key y)). Qed.
#[export] Instance key_le_trans : Transitive key_le.
Proof. intros x y z. apply kle_trans. Qed.

(** The candidates of one payload. *)
Definition payload_candidates (r : ResolutionEvidence) (e : AgbEngine) (target : View) (p : Manifest * Manifest)
    : list ResolutionEntry :=
  (if re_f_plus_1_parties r <=? echo_grade1_count_for e target p.1 p.2
   then [EntryFull target p.1 p.2] else []) ++
  (if (re_quorum_parties r <=? ready_stage_non_grade1_count e target)
      && (re_f_plus_1_parties r <=? echo_any_grade_count_for e target p.1 p.2)
   then [EntryCore target p.1 p.2] else []).

(** [justified_candidates], from the payloads in the order they are listed. *)
Definition candidates_of (r : ResolutionEvidence) (e : AgbEngine) (target : View)
    (payloads : list (Manifest * Manifest)) : list ResolutionEntry :=
  if ready_stage_total e target <? re_quorum_parties r then []
  else
    merge_sort key_le (
      mjoin (payload_candidates r e target <$> payloads) ++
      (if re_quorum_parties r <=? noready_count e target then [EntrySkip target] else [])).

Definition justified_candidates (r : ResolutionEvidence) (e : AgbEngine) (target : View)
    : list ResolutionEntry :=
  candidates_of r e target (candidate_payloads e target).

(** What justifies a candidate. *)
Definition justified_entry (r : ResolutionEvidence) (e : AgbEngine) (target : View) (x : ResolutionEntry) : Prop :=
  re_quorum_parties r <= ready_stage_total e target /\
  match x with
  | EntryFull u c t => u = target /\ (c, t) ∈ candidate_payloads e target /\
      re_f_plus_1_parties r <= echo_grade1_count_for e target c t
  | EntryCore u c t => u = target /\ (c, t) ∈ candidate_payloads e target /\
      re_quorum_parties r <= ready_stage_non_grade1_count e target /\
      re_f_plus_1_parties r <= echo_any_grade_count_for e target c t
  | EntrySkip u => u = target /\ re_quorum_parties r <= noready_count e target
  end.

Lemma elem_of_candidates r e target ps x :
  ps ≡ₚ candidate_payloads e target ->
  x ∈ candidates_of r e target ps <-> justified_entry r e target x.
Proof.
  intros Hp. unfold candidates_of, justified_entry. destruct (Z.ltb_spec (ready_stage_total e target) (re_quorum_parties r)).
  { split; [by intros ?%not_elem_of_nil|]. intros [? _]. lia. }
  rewrite merge_sort_Permutation, elem_of_app. unfold payload_candidates.
  assert (HP : x ∈ mjoin ((fun p =>
    (if re_f_plus_1_parties r <=? echo_grade1_count_for e target p.1 p.2 then [EntryFull target p.1 p.2] else []) ++
    (if (re_quorum_parties r <=? ready_stage_non_grade1_count e target)
      && (re_f_plus_1_parties r <=? echo_any_grade_count_for e target p.1 p.2)
     then [EntryCore target p.1 p.2] else [])) <$> ps) <->
    exists c t, (c, t) ∈ candidate_payloads e target /\
      ((x = EntryFull target c t /\ re_f_plus_1_parties r <= echo_grade1_count_for e target c t) \/
       (x = EntryCore target c t /\ re_quorum_parties r <= ready_stage_non_grade1_count e target /\
        re_f_plus_1_parties r <= echo_any_grade_count_for e target c t))).
  { rewrite list_elem_of_join. setoid_rewrite list_elem_of_fmap. split.
    - intros (l & Hx & [c t] & -> & Hin). rewrite Hp in Hin. exists c, t. split; [done|]. simpl in Hx.
      apply elem_of_app in Hx as [Hx|Hx].
      + destruct (Z.leb_spec (re_f_plus_1_parties r) (echo_grade1_count_for e target c t)); [|by apply not_elem_of_nil in Hx].
        apply list_elem_of_singleton in Hx. auto.
      + destruct (_ && _) eqn:Hc; [|by apply not_elem_of_nil in Hx].
        apply list_elem_of_singleton in Hx. apply andb_true_iff in Hc as [?%Z.leb_le ?%Z.leb_le]. auto.
    - intros (c & t & Hin & Hx). eexists. split; [|exists (c, t); split; [reflexivity|by rewrite Hp]]. simpl.
      apply elem_of_app. destruct Hx as [(-> & H1)|(-> & H1 & H2)]; [left|right].
      + rewrite (proj2 (Z.leb_le _ _) H1). by apply list_elem_of_singleton.
      + rewrite (proj2 (Z.leb_le _ _) H1), (proj2 (Z.leb_le _ _) H2). by apply list_elem_of_singleton. }
  rewrite HP. destruct (Z.leb_spec (re_quorum_parties r) (noready_count e target)).
  - rewrite list_elem_of_singleton. destruct x; naive_solver.
  - rewrite elem_of_nil. destruct x; naive_solver lia.
Qed.

Lemma elem_of_payload_candidates r e target p x :
  x ∈ payload_candidates r e target p -> x = EntryFull target p.1 p.2 \/ x = EntryCore target p.1 p.2.
Proof.
  unfold payload_candidates. intros [Hx|Hx]%elem_of_app; case_match;
    (by apply not_elem_of_nil in Hx) || (apply list_elem_of_singleton in Hx; auto).
Qed.

Lemma candidates_NoDup r e target ps :
  NoDup ps -> NoDup (candidates_of r e target ps).
Proof.
  intros Hnd. unfold candidates_of. destruct (_ <? _); [constructor|]. rewrite merge_sort_Permutation.
  assert (Hskip : forall x, x ∈ mjoin (payload_candidates r e target <$> ps) -> x <> EntrySkip target).
  { intros x (l & Hx & (p & -> & _)%list_elem_of_fmap)%list_elem_of_join.
    by apply elem_of_payload_candidates in Hx as [-> | ->]. }
  apply NoDup_app. split_and!.
  - clear Hskip. induction Hnd as [|p ps Hp Hnd IH]; [constructor|]. apply NoDup_app. split_and!; [| |done].
    + unfold payload_candidates. repeat case_match; cbn; repeat constructor; set_solver.
    + intros x Hx (l & Hx' & (q & -> & Hq)%list_elem_of_fmap)%list_elem_of_join.
      apply elem_of_payload_candidates in Hx. apply elem_of_payload_candidates in Hx'.
      assert (p = q) as ->; [|done]. destruct p, q. simpl in *. destruct Hx as [-> | ->], Hx' as [?|?]; congruence.
  - intros x Hx Hs. case_match; [|by apply not_elem_of_nil in Hs].
    apply list_elem_of_singleton in Hs. by apply (Hskip x).
  - case_match; repeat constructor. set_solver.
Qed.

(** Equal keys of one target are equal entries. *)
Lemma key_le_antisymm x y :
  (forall c t c' t', bincode_payload c t = bincode_payload c' t' -> c = c' /\ t = t') ->
  target_view x = target_view y -> key_le x y -> key_le y x -> x = y.
Proof.
  intros Hinj Ht Hxy Hyx. assert (Hk : canonical_key x = canonical_key y) by (by apply (anti_symm kle)).
  destruct x as [u c t|u c t|u], y as [u' c' t'|u' c' t'|u']; simpl in *; try discriminate Hk; subst;
    try (injection Hk as Hk; destruct (Hinj _ _ _ _ Hk) as [-> ->]); done.
Qed.
End evidence.

(** The candidates for a target are exactly the values its counted
    statements justify - every one needs a quorum of ready-stage responses, a
    full value [f + 1] grade-1 echoes, a core value a quorum of ready-stage
    responses without grade 1 and [f + 1] echoes, skip a quorum of NO-READYs -
    each once, in increasing canonical order, and do not depend on the order in
    which the engine's hash map lists the payloads. *)
Theorem candidates_canonical bincode r e target :
  (forall c t c' t', bincode c t = bincode c' t' -> c = c' /\ t = t') ->
  let l := justified_candidates bincode r e target in
  (forall x, x ∈ l <-> justified_entry r e target x) /\ NoDup l /\ StronglySorted (key_le bincode) l /\
  (forall ps, ps ≡ₚ candidate_payloads e target -> candidates_of bincode r e target ps = l).
Proof.
  intros Hinj. cbn zeta. unfold justified_candidates.
  assert (Hpay : NoDup (candidate_payloads e target)).
  { unfold candidate_payloads. case_match; [apply NoDup_remove_dups|constructor]. }
  assert (Hsort : forall ps, StronglySorted (key_le bincode) (candidates_of bincode r e target ps)).
  { intros ps. unfold candidates_of. destruct (_ <? _); [constructor|]. apply StronglySorted_merge_sort; apply _. }
  split_and!; [by intros x; apply elem_of_candidates|by apply candidates_NoDup|apply Hsort|].
  intros ps Hps. eapply (StronglySorted_unique_strong (key_le bincode)); [|apply Hsort|apply Hsort|].
  - intros x y Hx Hy. apply elem_of_candidates in Hx as [_ Hx]; [|done]. apply elem_of_candidates in Hy as [_ Hy]; [|done].
    apply key_le_antisymm; [done|]. destruct x, y; simpl in *; naive_solver.
  - apply NoDup_Permutation; [apply candidates_NoDup; by rewrite Hps|by apply candidates_NoDup|].
    intros x. by rewrite !elem_of_candidates.
Qed.

(** Party 10 has counted two grade-1 echoes and three NO-READYs for view 1. *)
Definition evidence_engine : AgbEngine :=
  (happy_run [EvEnter 1 0; EvPropose 10 proposal1 5; EvEcho (echo1 20 1); EvNoReady 1 20; EvNoReady 1 30;
    EvNoReady 1 40]).1.1.

Lemma candidates_canonical_witness :
  let bincode c t := [Z.pos (encode (c : Manifest, t : Manifest))] in
  justified_candidates bincode (evidence_new 4) evidence_engine 1 =
    [EntryFull 1 [(20, 1, 100)] [(30, 2, 101)]; EntryCore 1 [(20, 1, 100)] [(30, 2, 101)]; EntrySkip 1] /\
  NoDup (justified_candidates bincode (evidence_new 4) evidence_engine 1).
Proof.
  cbn zeta. split; [vm_compute; reflexivity|].
  apply (candidates_canonical (fun c t => [Z.pos (encode (c : Manifest, t : Manifest))]) (evidence_new 4) evidence_engine 1).
  intros c t c' t' [= Heq]. by apply (inj encode) in Heq as [= -> ->].
Defined.
