(* ===== verification/AgbCensus.v ===== *)
(** The engine's running tallies are the census of the recorded statements.

    [count_echo_statement] and [count_ready_statement] maintain per-digest
    stakes, party counts and origin-bit counts incrementally; here they are
    shown equal, in every reachable state, to the sums recomputed from the
    statements themselves, with no wrap-around of the [u32] stakes and no index
    out of bounds. *)

From S2P Require Import Prelude Committee Types Formed Claim AgbState Agb AgbSteps AgbRefine Fixtures AgbTrace.

(** ** Sums over statements *)

Section sums.
Context {V : Type} (c : Committee).

(** The stake behind, and the number of, the statements satisfying [P]. *)
Definition stake_sum (P : V -> bool) (m : gmap PublicKey V) : Z :=
  map_sum (fun k x => if P x then stake c k else 0) m.
Definition party_count (P : V -> bool) (m : gmap PublicKey V) : Z :=
  map_sum (fun _ x => indicator (P x)) m.

Lemma stake_sum_selected P m :
  stake_sum P m = stake_of c (selected (fun _ x => P x) m).
Proof. apply (map_sum_selected (stake c) (fun _ x => P x)). Qed.

Lemma stake_sum_range P m : committee_ok c -> 0 <= stake_sum P m <= total_votes c.
Proof.
  intros Hok. split.
  - apply map_sum_nonneg. intros k x _. destruct (P x); [|done]. by apply stake_nonneg.
  - rewrite stake_sum_selected. by apply stake_of_le.
Qed.

Lemma stake_sum_insert_None P m k x :
  m !! k = None ->
  stake_sum P (<[ k := x ]> m) = stake_sum P m + (if P x then stake c k else 0).
Proof. intros Hk. unfold stake_sum. rewrite map_sum_insert_None by done. lia. Qed.

Lemma stake_sum_insert_Some P m k x y :
  m !! k = Some y ->
  stake_sum P (<[ k := x ]> m) =
  stake_sum P m - (if P y then stake c k else 0) + (if P x then stake c k else 0).
Proof. intros Hk. unfold stake_sum. by rewrite (map_sum_insert_Some _ m k x y). Qed.

Lemma party_count_insert_None P m k x :
  m !! k = None -> party_count P (<[ k := x ]> m) = party_count P m + indicator (P x).
Proof. intros Hk. unfold party_count. rewrite map_sum_insert_None by done. lia. Qed.

Lemma party_count_insert_Some P m k x y :
  m !! k = Some y ->
  party_count P (<[ k := x ]> m) = party_count P m - indicator (P y) + indicator (P x).
Proof. intros Hk. unfold party_count. by rewrite (map_sum_insert_Some _ m k x y). Qed.

Lemma stake_sum_none P m : (forall k x, m !! k = Some x -> P x = false) -> stake_sum P m = 0.
Proof. intros Hm. apply map_sum_zero. intros k x Hx. by rewrite (Hm k x Hx). Qed.

Lemma party_count_none P m : (forall k x, m !! k = Some x -> P x = false) -> party_count P m = 0.
Proof. intros Hm. apply map_sum_zero. intros k x Hx. by rewrite (Hm k x Hx). Qed.

Lemma party_count_size P m : party_count P m = Z.of_nat (size (selected (fun _ x => P x) m)).
Proof.
  unfold party_count. rewrite (map_sum_ext _ (fun k x => if P x then 1 else 0)).
  - rewrite (map_sum_selected (fun _ => 1) (fun _ x => P x)). apply set_sum_one.
  - intros k x _. by destruct (P x).
Qed.

(** Adding a stake never wraps. *)
Lemma u32_add_stake P m k x :
  committee_ok c -> m !! k = None -> P x = true ->
  u32_add (stake_sum P m) (stake c k) = stake_sum P m + stake c k.
Proof.
  intros Hok Hk Hx. apply u32_add_small.
  pose proof (stake_sum_range P (<[ k := x ]> m) Hok) as Hr.
  rewrite stake_sum_insert_None, Hx in Hr by done.
  pose proof (stake_sum_range P m Hok). pose proof (stake_nonneg c Hok k).
  pose proof (total_votes_bounds c Hok). lia.
Qed.
End sums.

(** ** Origin bits *)

Lemma bump_origin_ones_spec j origin ones :
  (j + length origin <= length ones)%nat ->
  exists ones', bump_origin_ones j origin ones = Some ones' /\ length ones' = length ones /\
  forall i k, ones !! i = Some k ->
    ones' !! i = Some (k + indicator (bool_decide (j <= i)%nat
                                      && bool_decide (origin !! (i - j)%nat = Some (Some 1)))).
Proof.
  revert j ones. induction origin as [|b origin IH]; intros j ones Hlen.
  { exists ones. split_and!; [done..|]. intros i k Hi. simpl. rewrite andb_false_r. simpl.
    by rewrite Z.add_0_r. }
  cbn [bump_origin_ones length] in *.
  assert (Hshift : forall i, bool_decide (S j <= i)%nat && bool_decide (origin !! (i - S j)%nat = Some (Some 1))
    = bool_decide (j <= i)%nat && bool_decide ((b :: origin) !! (i - j)%nat = Some (Some 1))
      && negb (bool_decide (i = j))).
  { intros i. destruct (decide (i = j)) as [->|].
    - rewrite (bool_decide_eq_false_2 (S j <= j)%nat) by lia.
      rewrite (bool_decide_eq_true_2 (j = j)) by done. simpl. by rewrite andb_false_r.
    - rewrite (bool_decide_eq_false_2 (i = j)), andb_true_r by done.
      destruct (decide (j <= i)%nat).
      + rewrite (bool_decide_eq_true_2 (S j <= i)%nat), (bool_decide_eq_true_2 (j <= i)%nat) by lia.
        by replace (i - j)%nat with (S (i - S j)) by lia.
      + by rewrite (bool_decide_eq_false_2 (S j <= i)%nat), (bool_decide_eq_false_2 (j <= i)%nat) by lia. }
  case_bool_decide as Hb.
  - destruct (lookup_lt_is_Some_2 ones j) as [kj Hkj]; [lia|]. rewrite Hkj.
    destruct (IH (S j) (<[ j := kj + 1 ]> ones)) as (ones' & He & Hl & Hi);
      [rewrite length_insert; lia|].
    exists ones'. rewrite length_insert in Hl. split_and!; [done..|]. intros i k Hik.
    destruct (decide (i = j)) as [->|Hne].
    + rewrite Hkj in Hik. injection Hik as <-.
      rewrite (Hi j (kj + 1)) by (by apply list_lookup_insert_eq; apply lookup_lt_Some in Hkj).
      rewrite Hshift, (bool_decide_eq_true_2 (j = j)), andb_false_r by done.
      rewrite Nat.sub_diag. simpl. rewrite !bool_decide_eq_true_2 by (done || congruence). simpl.
      f_equal. lia.
    + rewrite (Hi i k) by by rewrite list_lookup_insert_ne.
      by rewrite Hshift, (bool_decide_eq_false_2 (i = j)), andb_true_r by done.
  - destruct (IH (S j) ones) as (ones' & He & Hl & Hi); [lia|].
    exists ones'. split_and!; [done..|]. intros i k Hik. rewrite (Hi i k Hik), Hshift.
    destruct (decide (i = j)) as [->|Hne].
    + rewrite Nat.sub_diag. simpl. rewrite (bool_decide_eq_false_2 (Some b = _)) by congruence.
      by rewrite andb_false_r.
    + by rewrite (bool_decide_eq_false_2 (i = j)), andb_true_r by done.
Qed.

(** ** The echo census *)

(** An echo of any grade, or of grade one or not, for digest [d]. *)
Definition echo_any (d : Digest) (x : EchoStatement) : bool :=
  match x with EchoGraded _ d' _ _ => d' =? d | EchoStSkip => false end.
Definition echo_for (d : Digest) (one : bool) (x : EchoStatement) : bool :=
  match x with EchoGraded _ d' g _ => (d' =? d) && Bool.eqb (g =? 1) one | EchoStSkip => false end.
(** The echo carries origin bit 1 at position [i]. *)
Definition echo_origin_at (d : Digest) (i : nat) (x : EchoStatement) : bool :=
  match x with
  | EchoGraded _ d' _ o => (d' =? d) && bool_decide (o !! i = Some (Some 1))
  | EchoStSkip => false
  end.

(** The tally of digest [d] recomputed from the statements. *)
Record tally_exact (c : Committee) (m : gmap PublicKey EchoStatement) (d : Digest) (t : EchoTally)
    : Prop := {
  te_one : et_grade_one t = stake_sum c (echo_for d true) m;
  te_zero : et_grade_zero t = stake_sum c (echo_for d false) m;
  te_one_parties : et_grade_one_parties t = party_count (echo_for d true) m;
  te_zero_parties : et_grade_zero_parties t = party_count (echo_for d false) m;
  te_length : length (et_origin_ones t) = length (p_entries (et_proposal t));
  te_origin i k : et_origin_ones t !! i = Some k -> k = party_count (echo_origin_at d i) m;
}.

Record echo_census (cf : AgbConfig) (s : ViewState) : Prop := {
  ec_tally d t : echo_tallies s !! d = Some t -> tally_exact (committee cf) (echo_statements s) d t;
  ec_none d : echo_tallies s !! d = None -> forall k x, echo_statements s !! k = Some x ->
    echo_any d x = false;
  ec_skip : echo_skip_parties s = party_count echo_is_skip (echo_statements s);
  ec_panic : vs_panicked s = false;
}.

Section echo_census.
Context (c : Committee) (Hok : committee_ok c).

Lemma echo_for_any d b x : echo_any d x = false -> echo_for d b x = false.
Proof. destruct x; simpl; [|done]. by intros ->. Qed.

Lemma echo_origin_any d i x : echo_any d x = false -> echo_origin_at d i x = false.
Proof. destruct x; simpl; [|done]. by intros ->. Qed.

(** A fresh tally is the census of no statements. *)
Lemma tally_exact_new p d m :
  (forall k x, m !! k = Some x -> echo_any d x = false) -> tally_exact c m d (echo_tally_new p).
Proof.
  intros Hm. split; cbn.
  - rewrite stake_sum_none; [done|]. intros. eapply echo_for_any. eauto.
  - rewrite stake_sum_none; [done|]. intros. eapply echo_for_any. eauto.
  - rewrite party_count_none; [done|]. intros. eapply echo_for_any. eauto.
  - rewrite party_count_none; [done|]. intros. eapply echo_for_any. eauto.
  - apply length_replicate.
  - intros i k [-> _]%lookup_replicate_1. rewrite party_count_none; [done|].
    intros. eapply echo_origin_any. eauto.
Qed.

Lemma origin_ones_add m d t p g o k :
  tally_exact c m d t -> m !! k = None -> (length o <= length (p_entries (et_proposal t)))%nat ->
  exists ones, bump_origin_ones 0 o (et_origin_ones t) = Some ones /\
    length ones = length (p_entries (et_proposal t)) /\
    forall i n, ones !! i = Some n ->
      n = party_count (echo_origin_at d i) (<[ k := EchoGraded p d g o ]> m).
Proof.
  intros Ht Hk Ho.
  destruct (bump_origin_ones_spec 0 o (et_origin_ones t)) as (ones & He & Hl & Hi);
    [rewrite (te_length _ _ _ _ Ht); simpl; lia|].
  exists ones. rewrite (te_length _ _ _ _ Ht) in Hl. split_and!; [done..|]. intros i n Hn.
  assert (is_Some (et_origin_ones t !! i)) as [n' Hn'].
  { apply lookup_lt_is_Some. rewrite (te_length _ _ _ _ Ht), <- Hl. by eapply lookup_lt_Some. }
  rewrite (Hi i n' Hn') in Hn. injection Hn as <-. rewrite party_count_insert_None by done.
  rewrite (te_origin _ _ _ _ Ht i n' Hn'). f_equal. cbn [echo_origin_at]. rewrite Z.eqb_refl.
  by rewrite Nat.sub_0_r.
Qed.

(** Adding the echo of a new sender keeps the tally exact and in bounds. *)
Lemma tally_exact_add m d t p g o k :
  tally_exact c m d t -> m !! k = None -> (length o <= length (p_entries (et_proposal t)))%nat ->
  let r := echo_tally_add (stake c k) g o t in
  tally_exact c (<[ k := EchoGraded p d g o ]> m) d r.1 /\ r.2 = false.
Proof.
  intros Ht Hk Ho. destruct (origin_ones_add m d t p g o k Ht Hk Ho) as (ones & He & Hl & Hi).
  pose proof Ht as [T1 T2 T3 T4 T5 T6]. cbn zeta. unfold echo_tally_add. rewrite He. cbn [default].
  assert (Hf : forall b, echo_for d b (EchoGraded p d g o) = Bool.eqb (g =? 1) b).
  { intros b. cbn. by rewrite Z.eqb_refl. }
  destruct (g =? 1) eqn:Hg.
  - split; [split; cbn|done]; try done;
      rewrite ?stake_sum_insert_None, ?party_count_insert_None, ?Hf by done; cbn; [|lia..].
    rewrite T1. apply (u32_add_stake c _ m k (EchoGraded p d g o)); [done..|by rewrite Hf].
  - split; [split; cbn|done]; try done;
      rewrite ?stake_sum_insert_None, ?party_count_insert_None, ?Hf by done; cbn; try lia.
    rewrite T2. apply (u32_add_stake c _ m k (EchoGraded p d g o)); [done..|by rewrite Hf].
Qed.

(** Statements for other digests do not disturb a tally. *)
Lemma tally_exact_other m d t k x :
  tally_exact c m d t -> m !! k = None -> echo_any d x = false -> tally_exact c (<[ k := x ]> m) d t.
Proof.
  intros [T1 T2 T3 T4 T5 T6] Hk Hx.
  split; try done; rewrite ?stake_sum_insert_None, ?party_count_insert_None by done;
    rewrite ?(echo_for_any d _ x Hx); cbn; try lia.
  intros i n Hn. rewrite party_count_insert_None, (echo_origin_any d i x Hx) by done. cbn.
  rewrite Z.add_0_r. by apply T6.
Qed.
End echo_census.

(** Distinct proposals of a view have distinct digests: collision resistance of
    BLAKE3 over an injective encoding with separated domains. *)
Definition digest_injective `{!Hashing} (s : Digest) : Prop :=
  forall p q, p_view p = p_view q -> p_digest s p = p_digest s q -> p = q.

Section census.
Context {Hash : Hashing} (cf : AgbConfig) (v : View).
Context (Hok : committee_ok (committee cf)) (Hinj : digest_injective (sid cf)).

Lemma canonical_inj p q d : canonical cf v p d -> canonical cf v q d -> p = q.
Proof. intros [Hp ->] [Hq Hd]. apply Hinj; [congruence|done]. Qed.

Lemma echo_census_default : echo_census cf vs_default.
Proof. split; cbn; try done; intros *; by rewrite lookup_empty. Qed.

Lemma echo_census_apply s k x :
  vinv cf v s -> echo_census cf s -> echo_statements s !! k = None -> echo_canonical cf v x ->
  match x with EchoGraded p _ _ o => (length o <= length (p_entries p))%nat | _ => True end ->
  echo_census cf (apply_echo cf k x s).
Proof.
  intros Hv [C1 C2 C3 C4] Hk Hx Hlen. rewrite apply_echo_shape.
  destruct x as [p d g o|].
  - set (t0 := default (echo_tally_new p) (echo_tallies s !! d)).
    assert (Ht0 : tally_exact (committee cf) (echo_statements s) d t0 /\ et_proposal t0 = p).
    { unfold t0. destruct (echo_tallies s !! d) as [t|] eqn:Ht; simpl.
      - split; [by apply C1|]. apply (canonical_inj _ _ d); [by apply (vi_tally _ _ _ Hv)|done].
      - split; [|done]. apply tally_exact_new. by apply C2. }
    destruct Ht0 as [Ht0 Hp0].
    destruct (tally_exact_add _ Hok _ d t0 p g o k Ht0 Hk) as [Hadd Hpanic]; [by rewrite Hp0|].
    split; cbn.
    + intros d' t'. fold t0. destruct (decide (d = d')) as [<-|Hne].
      * rewrite lookup_insert_eq. by intros [= <-].
      * rewrite lookup_insert_ne by done. intros Ht'. apply tally_exact_other; [by apply C1|done|].
        cbn. by apply Z.eqb_neq.
    + intros d'. destruct (decide (d = d')) as [<-|Hne].
      * by rewrite lookup_insert_eq.
      * rewrite lookup_insert_ne by done. intros Hd' k' x'. destruct (decide (k = k')) as [<-|].
        -- rewrite lookup_insert_eq. intros [= <-]. cbn. by apply Z.eqb_neq.
        -- rewrite lookup_insert_ne by done. by apply C2.
    + rewrite party_count_insert_None, <- C3 by done. cbn. lia.
    + fold t0. by rewrite Hpanic, C4.
  - split; cbn.
    + intros d t Ht. apply tally_exact_other; [by apply C1|done..].
    + intros d Hd k' x'. destruct (decide (k = k')) as [<-|].
      * rewrite lookup_insert_eq. by intros [= <-].
      * rewrite lookup_insert_ne by done. by apply C2.
    + rewrite party_count_insert_None, <- C3 by done. cbn. lia.
    + done.
Qed.
End census.

(** ** The ready census *)

Definition ready_any (d : Digest) (x : ReadyStatement) : bool :=
  match x with ReadyGraded _ d' _ => d' =? d | NoReady => false end.
Definition ready_for (d : Digest) (g : ReadyGrade) (x : ReadyStatement) : bool :=
  match x with ReadyGraded _ d' g' => (d' =? d) && bool_decide (g' = g) | NoReady => false end.

Record rtally_exact (c : Committee) (m : gmap PublicKey ReadyStatement) (d : Digest) (t : ReadyTally)
    : Prop := {
  re_any : rt_any t = stake_sum c (ready_any d) m;
  re_one : rt_grade_one t = stake_sum c (ready_for d GOne) m;
  re_zero : rt_grade_zero t = stake_sum c (ready_for d GZero) m;
}.

(** The non-grade-1 counter is historical: a READY-mix refined to grade 1 stays
    counted. *)
Record ready_census (cf : AgbConfig) (s : ViewState) : Prop := {
  rc_tally d t : ready_tallies s !! d = Some t ->
    rtally_exact (committee cf) (ready_statements s) d t;
  rc_none d : ready_tallies s !! d = None -> forall k x, ready_statements s !! k = Some x ->
    ready_any d x = false;
  rc_noready : noready_parties s = party_count is_noready (ready_statements s);
  rc_zero : ready_zero_or_noready_parties s = party_count is_zero_or_noready (ready_statements s);
  rc_non_one : party_count (fun x => negb (is_grade_one x)) (ready_statements s)
    <= ready_non_grade_one_parties s <= Z.of_nat (size (ready_statements s));
}.

Section ready_census.
Context (cf : AgbConfig) (Hok : committee_ok (committee cf)).
Abbreviation c := (committee cf) (only parsing).

Lemma ready_for_any d g x : ready_any d x = false -> ready_for d g x = false.
Proof. destruct x; simpl; [|done]. by intros ->. Qed.

Lemma rtally_exact_new p d m :
  (forall k x, m !! k = Some x -> ready_any d x = false) -> rtally_exact c m d (ready_tally_new p).
Proof.
  intros Hm. split; cbn; rewrite stake_sum_none; try done; intros; eauto using ready_for_any.
Qed.

Lemma ready_for_graded d p g g' :
  ready_for d g' (ReadyGraded p d g) = bool_decide (g = g').
Proof. cbn. by rewrite Z.eqb_refl. Qed.

Lemma ready_any_graded d p g : ready_any d (ReadyGraded p d g) = true.
Proof. apply Z.eqb_refl. Qed.

Lemma rtally_exact_add m d t p g k :
  rtally_exact c m d t -> m !! k = None ->
  rtally_exact c (<[ k := ReadyGraded p d g ]> m) d
    (ready_tally_grade (stake c k) g (ready_tally_any (stake c k) t)).
Proof.
  intros [R1 R2 R3] Hk.
  assert (Hadd : forall P, P (ReadyGraded p d g) = true ->
    u32_add (stake_sum c P m) (stake c k) = stake_sum c P (<[ k := ReadyGraded p d g ]> m)).
  { intros P HP. rewrite (u32_add_stake c P m k (ReadyGraded p d g)) by done.
    by rewrite stake_sum_insert_None, HP. }
  assert (Hsame : forall P, P (ReadyGraded p d g) = false ->
    stake_sum c P m = stake_sum c P (<[ k := ReadyGraded p d g ]> m)).
  { intros P HP. rewrite stake_sum_insert_None, HP by done. lia. }
  split; destruct g; cbn [ready_tally_grade ready_tally_any rt_any rt_grade_one rt_grade_zero];
    rewrite ?R1, ?R2, ?R3;
    first [apply Hadd; first [apply ready_any_graded|rewrite ready_for_graded; done]
          |apply Hsame; rewrite ready_for_graded; done].
Qed.

Lemma rtally_exact_refine m d t p q g k :
  rtally_exact c m d t -> m !! k = Some (ReadyGraded q d GMix) -> g <> GMix ->
  rtally_exact c (<[ k := ReadyGraded p d g ]> m) d (ready_tally_grade (stake c k) g t).
Proof.
  intros [R1 R2 R3] Hk Hg.
  assert (Hany : stake_sum c (ready_any d) (<[ k := ReadyGraded p d g ]> m) = stake_sum c (ready_any d) m).
  { rewrite (stake_sum_insert_Some c _ m k _ _ Hk), !ready_any_graded. lia. }
  assert (Hgr : forall g', g' <> GMix ->
    stake_sum c (ready_for d g') (<[ k := ReadyGraded p d g ]> m) =
    stake_sum c (ready_for d g') m + if bool_decide (g = g') then stake c k else 0).
  { intros g' Hg'. rewrite (stake_sum_insert_Some c _ m k _ _ Hk), !ready_for_graded.
    rewrite (bool_decide_eq_false_2 (GMix = g')) by done. lia. }
  pose proof (total_votes_bounds c Hok).
  assert (Hadd : forall g', g = g' ->
    u32_add (stake_sum c (ready_for d g') m) (stake c k) =
    stake_sum c (ready_for d g') (<[ k := ReadyGraded p d g ]> m)).
  { intros g' Heq. pose proof (stake_sum_range c (ready_for d g') (<[ k := ReadyGraded p d g ]> m) Hok).
    pose proof (stake_sum_range c (ready_for d g') m Hok).
    rewrite Hgr in * by congruence. rewrite bool_decide_eq_true_2 in * by done.
    apply u32_add_small. lia. }
  split; destruct g; cbn [ready_tally_grade rt_any rt_grade_one rt_grade_zero];
    rewrite ?Hany, ?R1, ?R2, ?R3; try done;
    first [by apply Hadd|rewrite Hgr, bool_decide_eq_false_2 by done; lia].
Qed.

Lemma rtally_exact_other m d t k x :
  rtally_exact c m d t -> ready_any d x = false ->
  (forall y, m !! k = Some y -> ready_any d y = false) -> rtally_exact c (<[ k := x ]> m) d t.
Proof.
  intros [R1 R2 R3] Hx Hy.
  assert (Hs : forall P, P x = false -> (forall y, m !! k = Some y -> P y = false) ->
    stake_sum c P (<[ k := x ]> m) = stake_sum c P m).
  { intros P HPx HPy. destruct (m !! k) as [y|] eqn:Hk.
    - rewrite (stake_sum_insert_Some c P m k x y Hk), HPx, (HPy y) by done. lia.
    - rewrite stake_sum_insert_None, HPx by done. lia. }
  split; rewrite Hs; try done; eauto using ready_for_any.
Qed.

Lemma ready_census_default : ready_census cf vs_default.
Proof. split; cbn; try done; intros *; by rewrite lookup_empty. Qed.

Lemma ready_census_first s k x :
  ready_census cf s -> ready_statements s !! k = None ->
  ready_census cf (apply_ready cf k x s).1.
Proof.
  intros [C1 C2 C3 C4 C5] Hk. rewrite apply_ready_shape. unfold ready_admits. rewrite Hk. cbn [fst].
  split; cbn.
  - intros d t. unfold ready_tallies_after. rewrite Hk. destruct x as [p d' g|].
    + destruct (decide (d' = d)) as [->|Hne].
      * rewrite lookup_insert_eq. intros [= <-]. apply rtally_exact_add; [|done].
        destruct (ready_tallies s !! d) as [t|] eqn:Ht; [by apply C1|]. apply rtally_exact_new, C2, Ht.
      * rewrite lookup_insert_ne by done. intros Ht. apply rtally_exact_other; [by apply C1| |].
        -- cbn. by apply Z.eqb_neq.
        -- intros y Hy. congruence.
    + intros Ht. apply rtally_exact_other; [by apply C1|done|]. intros y Hy. congruence.
  - intros d Hd k' x'. unfold ready_tallies_after in Hd. rewrite Hk in Hd.
    destruct (decide (k = k')) as [<-|].
    + rewrite lookup_insert_eq. intros [= <-]. destruct x as [p d' g|]; [|done].
      cbn. apply Z.eqb_neq. intros ->. by rewrite lookup_insert_eq in Hd.
    + rewrite lookup_insert_ne by done. apply C2. destruct x as [p d' g|]; [|done].
      by apply lookup_insert_None in Hd as [? _].
  - rewrite party_count_insert_None, <- C3 by done. lia.
  - rewrite party_count_insert_None, <- C4 by done. lia.
  - rewrite party_count_insert_None, map_size_insert_None by done.
    destruct (negb (is_grade_one x)); cbn [indicator]; lia.
Qed.

Lemma ready_census_refine s k x y :
  ready_census cf s -> ready_statements s !! k = Some y ->
  ready_census cf (apply_ready cf k x s).1.
Proof.
  intros Hc Hk. pose proof Hc as [C1 C2 C3 C4 C5]. rewrite apply_ready_shape.
  destruct (ready_admits k x s) eqn:Ha; [|done]. unfold ready_admits in Ha. rewrite Hk in Ha.
  destruct y as [py dy [| |]|]; try done. destruct x as [px dx g|]; [|by rewrite andb_false_r in Ha].
  assert (dy = dx /\ g <> GMix /\ is_Some (ready_tallies s !! dx)) as (-> & Hg & Hsome).
  { apply andb_true_iff in Ha as [Hv Ht]. apply bool_decide_eq_true in Ht.
    destruct g; simpl in Hv; try done; split_and!; try done; lia. }
  destruct Hsome as [t0 Ht0]. cbn [fst].
  split; cbn.
  - intros d t. rewrite Hk, Ht0. cbn [default].
    destruct (decide (dx = d)) as [->|Hne].
    + rewrite lookup_insert_eq. intros [= <-]. eapply rtally_exact_refine; [by apply C1|done..].
    + rewrite lookup_insert_ne by done. intros Ht. apply rtally_exact_other; [by apply C1| |].
      * cbn. by apply Z.eqb_neq.
      * intros y. rewrite Hk. intros [= <-]. cbn. by apply Z.eqb_neq.
  - intros d Hd k' x'. apply lookup_insert_None in Hd as [Hd Hne].
    destruct (decide (k = k')) as [<-|].
    + rewrite lookup_insert_eq. intros [= <-]. cbn. by apply Z.eqb_neq.
    + rewrite lookup_insert_ne by done. by apply C2.
  - rewrite (party_count_insert_Some _ _ k _ _ Hk), <- C3. cbn. lia.
  - rewrite (party_count_insert_Some _ _ k _ _ Hk), <- C4. cbn. lia.
  - rewrite (party_count_insert_Some _ _ k _ _ Hk).
    rewrite map_size_insert_Some by (by rewrite Hk). rewrite Hk.
    rewrite bool_decide_eq_false_2 by done. cbn [andb indicator negb is_grade_one].
    destruct g; cbn [negb indicator]; lia.
Qed.

Lemma ready_census_apply s k x : ready_census cf s -> ready_census cf (apply_ready cf k x s).1.
Proof.
  intros Hc. destruct (ready_statements s !! k) as [y|] eqn:Hk.
  - by eapply ready_census_refine.
  - by apply ready_census_first.
Qed.

(** The census depends on the tallies and statements only. *)
Lemma ready_census_flags s b m :
  ready_census cf s -> ready_census cf (s <| ready_sent := b |> <| ready_mix_open := m |>).
Proof. by intros [? ? ? ? ?]. Qed.
End ready_census.

(** ** Every reachable view state is exact *)

Section engine.
Context {Hash : Hashing}.

Record census (cf : AgbConfig) (s : ViewState) : Prop := {
  ce_echo : echo_census cf s;
  ce_ready : ready_census cf s;
}.

Lemma vstep_census inp cf v s es s' :
  committee_ok (committee cf) -> digest_injective (sid cf) ->
  vstep inp cf v s es s' -> vinv cf v s -> census cf s -> census cf s'.
Proof.
  intros Hok Hinj Hstep Hv [He Hr].
  destruct Hstep;
    try (split; [by destruct He as [? ? ? ?]; split|by destruct Hr as [? ? ? ? ?]; split]).
  - split; [|by destruct Hr as [? ? ? ? ?]; rewrite apply_echo_shape; split].
    apply (echo_census_apply cf v); try done. destruct x; [|done].
    destruct H2 as (_ & -> & _). done.
  - split; [|by destruct Hr as [? ? ? ? ?]; rewrite apply_echo_shape; split].
    by apply (echo_census_apply cf v).
  - split; [|by apply ready_census_apply, ready_census_flags].
    destruct He as [? ? ? ?]. rewrite apply_ready_shape. by destruct (ready_admits _ _ _); split.
  - split; [|apply ready_census_apply; [done|by destruct Hr as [? ? ? ? ?]; split]].
    destruct He as [? ? ? ?]. rewrite apply_ready_shape. by destruct (ready_admits _ _ _); split.
  - pose proof (ready_census_apply cf Hok s (name cf) (ReadyGraded p d g) Hr) as Hr'.
    split; [|by destruct Hr' as [? ? ? ? ?]; split].
    destruct He as [? ? ? ?]. rewrite apply_ready_shape. by destruct (ready_admits _ _ _); split.
  - split; [|by apply ready_census_apply].
    destruct He as [? ? ? ?]. rewrite apply_ready_shape. by destruct (ready_admits _ _ _); split.
Qed.

(** Lifting an invariant of view states to reachable engines. *)
Lemma chain_views {E} inp (P : AgbConfig -> View -> ViewState -> Prop) (s s' : AgbEngine * E) es :
  (forall cf v, P cf v vs_default) ->
  (forall v x es' x', vstep inp (cfg s.1) v x es' x' -> vinv (cfg s.1) v x ->
     P (cfg s.1) v x -> P (cfg s.1) v x') ->
  chain inp s es s' -> inv s.1 ->
  (forall v x, views s.1 !! v = Some x -> P (cfg s.1) v x) ->
  forall v x, views s'.1 !! v = Some x -> P (cfg s'.1) v x.
Proof.
  intros Hdef Hstep Hc. induction Hc as [|s1 s2 s3 es1 es2 He Hc IH]; intros Hinv HP; [done|].
  assert (Hcfg : cfg s2.1 = cfg s1.1).
  { destruct He; simpl; [done|done|]. apply cfg_gc_below. }
  apply IH; [by rewrite Hcfg|by eapply estep_inv|]. rewrite Hcfg.
  destruct He as [e v es s' w w' Hp Hv|e e' w w' es Hcf Hvi Hm|e w floor]; simpl in *.
  - intros u x. destruct (decide (v = u)) as [<-|].
    + rewrite lookup_insert_eq. intros [= <-]. eapply Hstep; [exact Hv|by apply inv_view_state|].
      unfold view_state. destruct (views e !! v) eqn:Hx; [by apply HP|apply Hdef].
    + rewrite lookup_insert_ne by done. apply HP.
  - intros u x. rewrite Hvi. apply HP.
  - intros u x [Hx _]%gc_below_lookup. by apply HP.
Qed.

Lemma reaches_views {E} {Env : AgbEnv E} {Laws : AgbEnvLaws E} inp cf
    (P : AgbConfig -> View -> ViewState -> Prop) (s : AgbEngine * E) es :
  (forall cf v, P cf v vs_default) ->
  (forall v x es' x', vstep inp cf v x es' x' -> vinv cf v x -> P cf v x -> P cf v x') ->
  reaches inp cf s es -> forall v x, views s.1 !! v = Some x -> vinv cf v x /\ P cf v x.
Proof.
  intros Hdef Hstep Hr v x Hx. pose proof (reaches_inv _ _ _ _ Hr) as Hinv.
  apply reaches_chain in Hr as [Hc (w & Hch)]. split.
  - destruct (Hinv v x Hx). by rewrite <- Hc.
  - rewrite <- Hc. eapply (chain_views inp P (agb_init cf, w) s es); done.
Qed.
End engine.

(** C24: in every reachable state the incremental tallies are exact.  For a
    committee whose total stake fits the [u32] arithmetic and a
    collision-free digest, each echo tally holds the grade-1 and grade-0
    stakes, party counts and origin-bit counts of the recorded ECHOs for its
    digest, each ready tally the stakes of the recorded READYs, the skip,
    no-ready and zero-or-no-ready counters the numbers of such statements, and
    no origin index was ever out of bounds. *)
Theorem tallies_exact {Hash : Hashing} {E} {Env : AgbEnv E} {Laws : AgbEnvLaws E}
    inp cf (s : AgbEngine * E) es v x :
  committee_ok (committee cf) -> digest_injective (sid cf) ->
  reaches inp cf s es -> views s.1 !! v = Some x ->
  echo_census cf x /\ ready_census cf x.
Proof.
  intros Hok Hinj Hr Hx.
  assert (vinv cf v x /\ census cf x) as [_ [He Hrd]]; [|done].
  apply (reaches_views inp cf (fun cf _ => census cf) s es); [..|done|done].
  - intros cf' v'. split; [apply echo_census_default|apply ready_census_default].
  - intros v' y es' y'. by apply vstep_census.
Qed.

(** The digests of [coded_hashing] are injective. *)
Lemma coded_injective s : @digest_injective coded_hashing s.
Proof.
  intros [p|p] [q|q] _; unfold p_digest, vp_digest, bp_digest, domain_hash;
    cbn [blake3 bincode_view_proposal bincode_batch_view_proposal coded_hashing];
    intros Heq%(inj Z.pos)%(inj encode).
  - apply app_inv_head, app_inv_head in Heq. injection Heq as Heq%(inj encode).
    destruct p, q; cbn in Heq; congruence.
  - apply (f_equal length) in Heq. by vm_compute in Heq.
  - apply (f_equal length) in Heq. by vm_compute in Heq.
  - apply app_inv_head, app_inv_head in Heq. injection Heq as Heq%(inj encode).
    destruct p, q; cbn in Heq; congruence.
Qed.

(** The echo stakes recorded for [proposal1] after [mix_events]. *)
Definition mix_stakes : option (Z * Z) :=
  x ← views (happy_run mix_events).1.1 !! 1;
  t ← echo_tallies x !! @p_digest coded_hashing 7 (PSingle proposal1);
  Some (et_grade_one t, et_grade_zero t).

Lemma tallies_exact_witness :
  mix_stakes = Some (3, 1) /\
  forall x, views (happy_run mix_events).1.1 !! 1 = Some x ->
    echo_census (config4 10) x /\ ready_census (config4 10) x.
Proof.
  split; [vm_compute; reflexivity|]. intros x Hx.
  apply (@tallies_exact coded_hashing () open_env open_env_laws any_inputs (config4 10)
    (happy_run mix_events).1 (happy_run mix_events).2 1 x).
  - exact committee4_ok.
  - apply coded_injective.
  - apply happy_reaches. vm_compute. reflexivity.
  - exact Hx.
Defined.
