(* ===== verification/DigestStatements.v ===== *)
(** Digest-named statements.

    Models [DigestStatements] of [src/primary/src/vantage/agb.rs]: ECHOs and
    READYs that name a proposal by digest are buffered until the proposal's
    body is verified, then passed to the engine as if received by value;
    missing bodies are fetched from the statements' authors with bounded
    retries, and bodies are served to peers.  Metrics are left out. *)

From S2P Require Import Prelude Committee Types Formed Claim AgbState Agb AgbSteps AgbRefine Fixtures AgbTrace.

Definition MAX_PENDING_FETCH : nat := 1024.
Definition FETCH_WIDTH_START : Z := 2.
Definition MAX_FETCH_ATTEMPTS : Z := 4.

Record FetchState := mkFetchState {
  fs_last : Instant;
  fs_next_width : Z;
  fs_attempts : Z;
}.

Definition BufferedEcho : Type := Digest * Z * option Z * option AvailClaim.
Definition BufferedReady : Type := Digest * ReadyGrade.

Definition be_digest (b : BufferedEcho) : Digest := b.1.1.1.
Definition be_grade (b : BufferedEcho) : Z := b.1.1.2.
Definition be_origin (b : BufferedEcho) : option Z := b.1.2.
Definition be_avail (b : BufferedEcho) : option AvailClaim := b.2.

Record DigestStatements := mkDigestStatements {
  buffered_echo : gmap View (gmap PublicKey BufferedEcho);
  buffered_ready : gmap View (gmap PublicKey BufferedReady);
  known_bodies : gmap (View * Digest) ViewProposal;
  pending_fetch : gmap (View * Digest) FetchState;
  fetch_answered : gset (View * Digest * PublicKey);
  ds_min_live_view : View;
  fetch_retry_interval : Duration;
}.

Definition ds_eta (d : DigestStatements) : DigestStatements :=
  mkDigestStatements (buffered_echo d) (buffered_ready d) (known_bodies d) (pending_fetch d)
    (fetch_answered d) (ds_min_live_view d) (fetch_retry_interval d).

#[export] Instance set_buffered_echo : Setter buffered_echo.
Proof. solve_setter ds_eta buffered_echo. Defined.
#[export] Instance set_buffered_ready : Setter buffered_ready.
Proof. solve_setter ds_eta buffered_ready. Defined.
#[export] Instance set_known_bodies : Setter known_bodies.
Proof. solve_setter ds_eta known_bodies. Defined.
#[export] Instance set_pending_fetch : Setter pending_fetch.
Proof. solve_setter ds_eta pending_fetch. Defined.
#[export] Instance set_fetch_answered : Setter fetch_answered.
Proof. solve_setter ds_eta fetch_answered. Defined.
#[export] Instance set_ds_min_live_view : Setter ds_min_live_view.
Proof. solve_setter ds_eta ds_min_live_view. Defined.

Definition ds_new (delta_ms : Z) : DigestStatements :=
  mkDigestStatements ∅ ∅ ∅ ∅ ∅ 1 (delta_ms * 8).

Definition ds_is_pruned (d : DigestStatements) (v : View) : bool := v <? ds_min_live_view d.

(** [split_off(&(floor, Digest::default()))]: the zero digest is the least. *)
Definition at_or_above (floor : View) (v : View) (d : Digest) : bool :=
  bool_decide (kle (floor, 0) (v, d)).

Definition ds_gc_below (floor : View) (d : DigestStatements) : DigestStatements :=
  if floor <=? ds_min_live_view d then d
  else
    d <| buffered_echo ::= map_split_off floor |>
      <| buffered_ready ::= map_split_off floor |>
      <| known_bodies ::= filter (fun p => at_or_above floor p.1.1 p.1.2 = true) |>
      <| pending_fetch ::= filter (fun p => at_or_above floor p.1.1 p.1.2 = true) |>
      <| fetch_answered ::= filter (fun k => bool_decide (kle (floor, 0, 0) k) = true) |>
      <| ds_min_live_view := floor |>.

(** [None] leaves the state unchanged. *)
Definition resolve_body (view : View) (digest : Digest) (e : AgbEngine) (d : DigestStatements)
    : option ViewProposal * DigestStatements :=
  match known_bodies d !! (view, digest) with
  | Some p => (Some p, d)
  | None =>
      match fixed_proposal e view with
      | Some (PSingle vp, fixed_digest) =>
          if fixed_digest =? digest then
            (Some vp, d <| known_bodies ::= <[ (view, digest) := vp ]> |>)
          else (None, d)
      | _ => (None, d)
      end
  end.

Definition fetch_targets (view : View) (digest : Digest) (d : DigestStatements) : list PublicKey :=
  set_iter (
    dom (filter (fun p => be_digest p.2 = digest) (default ∅ (buffered_echo d !! view))) ∪
    dom (filter (fun p => p.2.1 = digest) (default ∅ (buffered_ready d !! view)))).

Definition has_buffered_statement_for (view : View) (digest : Digest) (d : DigestStatements) : bool :=
  bool_decide (filter (fun p => be_digest p.2 = digest) (default ∅ (buffered_echo d !! view)) <> ∅) ||
  bool_decide (filter (fun p => p.2.1 = digest) (default ∅ (buffered_ready d !! view)) <> ∅).

(** [now.saturating_duration_since(last)]. *)
Definition duration_since (now last : Instant) : Duration := Z.max 0 (now - last).

(** The eviction loop; each iteration removes one pair, so the number of pairs
    is enough fuel. *)
Fixpoint evict_highest (fuel : nat) (key : View * Digest) (m : gmap (View * Digest) FetchState)
    : gmap (View * Digest) FetchState :=
  match fuel with
  | O => m
  | S fuel =>
      if (size m <? MAX_PENDING_FETCH)%nat then m
      else
        match last (map_iter m) with
        | None => m
        | Some (highest, _) =>
            if bool_decide (kle highest key) then m
            else evict_highest fuel key (delete highest m)
        end
  end.

(** The insertion part of [ensure_fetch], after the retry checks. *)
Definition fetch_insert (view : View) (digest : Digest) (now : Instant) (width attempts : Z)
    (d : DigestStatements) : list Effect * DigestStatements :=
  let key := (view, digest) in
  let m := evict_highest (size (pending_fetch d)) key (pending_fetch d) in
  let d := d <| pending_fetch := m |> in
  if (MAX_PENDING_FETCH <=? size m)%nat then ([], d)
  else
    let d := d <| pending_fetch ::= <[ key := mkFetchState now (Z.min u64_max (width * 2)) (attempts + 1) ]> |> in
    let targets := take (Z.to_nat width) (fetch_targets view digest d) in
    ((fun peer => BodyFetchTo peer view digest) <$> targets, d).

Definition ensure_fetch (view : View) (digest : Digest) (now : Instant) (d : DigestStatements)
    : list Effect * DigestStatements :=
  if ds_is_pruned d view then ([], d)
  else
    match pending_fetch d !! (view, digest) with
    | Some state =>
        if duration_since now (fs_last state) <? fetch_retry_interval d then ([], d)
        else if MAX_FETCH_ATTEMPTS <=? fs_attempts state then
          ([], d <| pending_fetch ::= delete (view, digest) |>)
        else fetch_insert view digest now (fs_next_width state) (fs_attempts state) d
    | None => fetch_insert view digest now FETCH_WIDTH_START 0 d
    end.

Definition buffer_echo (msg : EchoDigest) (now : Instant) (d : DigestStatements)
    : list Effect * DigestStatements :=
  let bucket := default ∅ (buffered_echo d !! ed_view msg) in
  match bucket !! ed_sender msg with
  | Some _ => ([], d <| buffered_echo ::= <[ ed_view msg := bucket ]> |>)
  | None =>
      let b := (ed_digest msg, ed_grade msg, ed_origin msg, ed_avail msg) in
      ensure_fetch (ed_view msg) (ed_digest msg) now
        (d <| buffered_echo ::= <[ ed_view msg := <[ ed_sender msg := b ]> bucket ]> |>)
  end.

Definition buffer_ready (view : View) (digest : Digest) (sender : PublicKey) (grade : ReadyGrade)
    (now : Instant) (d : DigestStatements) : list Effect * DigestStatements :=
  let bucket := default ∅ (buffered_ready d !! view) in
  let accepted :=
    match bucket !! sender with
    | None => true
    | Some (old_digest, old_grade) =>
        (old_digest =? digest) && bool_decide (old_grade = GMix) && negb (bool_decide (grade = GMix))
    end in
  if accepted then
    ensure_fetch view digest now
      (d <| buffered_ready ::= <[ view := <[ sender := (digest, grade) ]> bucket ]> |>)
  else ([], d <| buffered_ready ::= <[ view := bucket ]> |>).

Definition on_body_fetch (requester : PublicKey) (view : View) (digest : Digest) (e : AgbEngine)
    (d : DigestStatements) : list Effect * DigestStatements :=
  if ds_is_pruned d view then ([], d)
  else if bool_decide ((view, digest, requester) ∈ fetch_answered d) then ([], d)
  else
    match fixed_proposal e view with
    | Some (PSingle vp, fixed_digest) =>
        if fixed_digest =? digest then
          ([BodyServeTo requester view vp],
           d <| fetch_answered ::= union {[ (view, digest, requester) ]} |>)
        else ([], d)
    | _ => ([], d)
    end.

Definition unanswer_fetch (requester : PublicKey) (view : View) (d : DigestStatements)
    : DigestStatements :=
  d <| fetch_answered ::= filter (fun k =>
    negb (bool_decide (kle (view, 0, 0) k) && (k.1.1 =? view) && (k.2 =? requester)) = true) |>.

(** Retries in increasing key order; [ensure_fetch] on one pair may evict
    another that is still due. *)
Fixpoint retry_all (now : Instant) (due : list (View * Digest)) (d : DigestStatements)
    : list Effect * DigestStatements :=
  match due with
  | [] => ([], d)
  | (view, digest) :: due =>
      let r := ensure_fetch view digest now d in
      let r' := retry_all now due r.2 in
      (r.1 ++ r'.1, r'.2)
  end.

Definition retry_fetches (now : Instant) (d : DigestStatements) : list Effect * DigestStatements :=
  let due := (filter (fun p => fetch_retry_interval d <= duration_since now (fs_last p.2))
                (map_iter (pending_fetch d))).*1 in
  retry_all now due d.

Definition pending_fetch_len (d : DigestStatements) : nat := size (pending_fetch d).

Section digests.
Context `{!Hashing} {E : Type} `{!AgbEnv E}.

(** Handlers that call into the engine. *)
Abbreviation DM := (M Effect (DigestStatements * (AgbEngine * E))) (only parsing).

Definition agb {A} (m : M Effect (AgbEngine * E) A) : DM A :=
  fun s => let r := m s.2 in Res (val r) (out r) (s.1, st r).
Definition on_ds (f : DigestStatements -> DigestStatements) : DM () :=
  fun s => Res tt [] (f s.1, s.2).
Definition ds_call (f : DigestStatements -> list Effect * DigestStatements) : DM () :=
  fun s => let r := f s.1 in Res tt r.1 (r.2, s.2).
Definition ds_resolve (view : View) (digest : Digest) : DM (option ViewProposal) :=
  fun s => let r := resolve_body view digest s.2.1 s.1 in Res r.1 [] (r.2, s.2).

Definition buffered_to_echo (body : ViewProposal) (sender : PublicKey) (b : BufferedEcho) : Echo :=
  mkEcho body (be_grade b) sender 0 (be_origin b) (be_avail b).

Definition drain_echo (view : View) (body : ViewProposal) (p : PublicKey * BufferedEcho) : DM () :=
  on_ds (fun d => d <| buffered_echo ::= alter (delete p.1) view |>);;
  agb (on_echo (buffered_to_echo body p.1 p.2)).

Definition drain_ready (view : View) (body : ViewProposal) (p : PublicKey * BufferedReady) : DM () :=
  on_ds (fun d => d <| buffered_ready ::= alter (delete p.1) view |>);;
  agb (on_ready (mkReady body p.2.2 p.1 0)).

(** [if bucket.is_empty() { map.remove(&view) }]. *)
Definition drop_empty {V} (view : View) (m : gmap View (gmap PublicKey V)) : gmap View (gmap PublicKey V) :=
  match m !! view with
  | Some senders => if decide (senders = ∅) then delete view m else m
  | None => m
  end.

Definition drain (view : View) (digest : Digest) (body : ViewProposal) : DM () :=
  on_ds (fun d => d <| pending_fetch ::= delete (view, digest) |>);;
  s ← get;
  for_each (drain_echo view body)
    (filter (fun p => be_digest p.2 = digest) (map_iter (default ∅ (buffered_echo s.1 !! view))));;
  on_ds (fun d => d <| buffered_echo ::= drop_empty view |>);;
  s ← get;
  for_each (drain_ready view body)
    (filter (fun p => p.2.1 = digest) (map_iter (default ∅ (buffered_ready s.1 !! view))));;
  on_ds (fun d => d <| buffered_ready ::= drop_empty view |>).

Definition echo_of_digest (body : ViewProposal) (msg : EchoDigest) : Echo :=
  mkEcho body (ed_grade msg) (ed_sender msg) (ed_wish msg) (ed_origin msg) (ed_avail msg).
Definition ready_of_digest (body : ViewProposal) (msg : ReadyDigest) : Ready :=
  mkReady body (rd_grade msg) (rd_sender msg) (rd_wish msg).

Definition on_echo_digest (msg : EchoDigest) (now : Instant) : DM () :=
  s ← get;
  if ds_is_pruned s.1 (ed_view msg) || (ed_grade msg >? 1) then skip
  else
    body ← ds_resolve (ed_view msg) (ed_digest msg);
    match body with
    | Some body => agb (on_echo (echo_of_digest body msg))
    | None => ds_call (buffer_echo msg now)
    end.

Definition on_ready_digest (msg : ReadyDigest) (now : Instant) : DM () :=
  s ← get;
  if ds_is_pruned s.1 (rd_view msg) then skip
  else
    body ← ds_resolve (rd_view msg) (rd_digest msg);
    match body with
    | Some body => agb (on_ready (ready_of_digest body msg))
    | None => ds_call (buffer_ready (rd_view msg) (rd_digest msg) (rd_sender msg) (rd_grade msg) now)
    end.

Definition on_local_fixed (view : View) : DM () :=
  s ← get;
  match fixed_proposal s.2.1 view with
  | None => skip
  | Some (_, digest) =>
      body ← ds_resolve view digest;
      match body with
      | None => skip
      | Some body => drain view digest body
      end
  end.

Definition on_body_serve (view : View) (proposal : ViewProposal) : DM () :=
  s ← get;
  if ds_is_pruned s.1 view || negb (vp_view proposal =? view) then skip
  else
    let digest := vp_digest (sid (cfg s.2.1)) proposal in
    if negb (bool_decide (is_Some (pending_fetch s.1 !! (view, digest)))
             || has_buffered_statement_for view digest s.1) then skip
    else if negb (formed (committee (cfg s.2.1)) (vp_view proposal) (vp_c proposal) (vp_t proposal)
                    (vp_m proposal)) then skip
    else
      on_ds (fun d => d <| known_bodies ::= <[ (view, digest) := proposal ]> |>);;
      drain view digest proposal.

Definition ds_gc (floor : View) : DM () := on_ds (ds_gc_below floor).
End digests.

(** ** The fetch table *)

Lemma max_pending_pos : (0 < MAX_PENDING_FETCH)%nat.
Proof. apply Nat.ltb_lt. reflexivity. Qed.

#[global] Opaque MAX_PENDING_FETCH.

(** Eviction keeps a subset with room for one more pair, unless the table is
    full of pairs at or below [key]. *)
Lemma evict_size fuel key m :
  (size m <= fuel)%nat -> (size m <= MAX_PENDING_FETCH)%nat ->
  evict_highest fuel key m ⊆ m /\
  ((size (evict_highest fuel key m) < MAX_PENDING_FETCH)%nat \/
   (evict_highest fuel key m = m /\ forall k fs, m !! k = Some fs -> kle k key)).
Proof.
  pose proof max_pending_pos. destruct fuel as [|fuel]; intros Hf Hm; cbn [evict_highest].
  { split; [done|]. left. lia. }
  destruct (Nat.ltb_spec (size m) MAX_PENDING_FETCH); [by auto|].
  destruct (last (map_iter m)) as [[h fs]|] eqn:Hlast.
  - apply last_Some in Hlast as [l Hl].
    assert (Hmax : forall k x, m !! k = Some x -> kle k h).
    { intros k x Hk%elem_of_map_iter. pose proof (map_iter_sorted m) as Hs. rewrite Hl in Hs, Hk.
      apply elem_of_app in Hk as [Hk|[= -> ->]%list_elem_of_singleton]; [|by destruct (total kle h h)].
      apply (StronglySorted_app_1_elem_of _ _ _ (k, x) (h, fs) Hs); [done|set_solver]. }
    assert (Hh : m !! h = Some fs) by (apply elem_of_map_iter; rewrite Hl; set_solver).
    case_bool_decide as Hk.
    + split; [done|]. right. split; [done|]. intros k x Hx. eapply (kle_trans k h key); [by eapply Hmax|done].
    + assert (size (delete h m) < MAX_PENDING_FETCH)%nat as Hlt.
      { rewrite map_size_delete, Hh. lia. }
      assert (evict_highest fuel key (delete h m) = delete h m) as ->.
      { destruct fuel; [done|]. cbn [evict_highest]. by rewrite (proj2 (Nat.ltb_lt _ _)). }
      split; [apply delete_subseteq|by left].
  - apply last_None in Hlast. apply (f_equal length) in Hlast. rewrite length_map_iter in Hlast.
    simpl in Hlast. lia.
Qed.

Definition fetch_ok (fs : FetchState) : Prop :=
  1 <= fs_attempts fs <= MAX_FETCH_ATTEMPTS /\ fs_next_width fs = 2 ^ (fs_attempts fs + 1).

Record fetches_ok (m : gmap (View * Digest) FetchState) : Prop := {
  fo_size : (size m <= MAX_PENDING_FETCH)%nat;
  fo_state k fs : m !! k = Some fs -> fetch_ok fs;
}.

Lemma fetches_ok_subseteq m m' : m' ⊆ m -> fetches_ok m -> fetches_ok m'.
Proof.
  intros Hs [H1 H2]. split.
  - apply map_subseteq_size in Hs. lia.
  - intros k fs Hk. eapply H2, lookup_weaken; eauto.
Qed.

Lemma fetch_ok_next fs now width attempts :
  0 <= attempts < MAX_FETCH_ATTEMPTS -> width = 2 ^ (attempts + 1) ->
  fs = mkFetchState now (Z.min u64_max (width * 2)) (attempts + 1) -> fetch_ok fs.
Proof.
  unfold fetch_ok, MAX_FETCH_ATTEMPTS. intros Ha -> ->. cbn. split; [lia|].
  assert (attempts = 0 \/ attempts = 1 \/ attempts = 2 \/ attempts = 3) as [->|[->|[->| ->]]] by lia; done.
Qed.

(** What [ensure_fetch] may do: only the fetch table changes, and it stays
    within its bounds. *)
Definition only_fetches (d d' : DigestStatements) : Prop :=
  d' = d <| pending_fetch := pending_fetch d' |>.

Lemma fetch_insert_frame v h now width attempts d :
  only_fetches d (fetch_insert v h now width attempts d).2.
Proof. unfold fetch_insert. cbn zeta. by destruct (_ <=? _)%nat. Qed.

Lemma ensure_fetch_frame v h now d : only_fetches d (ensure_fetch v h now d).2.
Proof.
  unfold ensure_fetch. destruct (ds_is_pruned d v); [by destruct d|].
  destruct (pending_fetch d !! _) as [fs|]; [|apply fetch_insert_frame].
  destruct (_ <? _); [by destruct d|]. destruct (_ <=? _); [by destruct d|apply fetch_insert_frame].
Qed.

Lemma fetch_insert_ok v h now width attempts d :
  fetches_ok (pending_fetch d) -> 0 <= attempts < MAX_FETCH_ATTEMPTS -> width = 2 ^ (attempts + 1) ->
  fetches_ok (pending_fetch (fetch_insert v h now width attempts d).2).
Proof.
  intros Hok Ha Hw. unfold fetch_insert.
  destruct (evict_size (size (pending_fetch d)) (v, h) (pending_fetch d)) as [Hsub _]; [done|apply Hok|].
  set (m := evict_highest _ _ _) in *. cbn zeta.
  assert (Hm : fetches_ok m) by (by eapply fetches_ok_subseteq).
  destruct (Nat.leb_spec MAX_PENDING_FETCH (size m)) as [Hle|Hlt]; [done|]. cbn.
  set (fs := mkFetchState _ _ _). split.
  - rewrite map_size_insert. destruct (m !! (v, h)); simpl; lia.
  - intros k fs'. destruct (decide ((v, h) = k)) as [<-|].
    + rewrite lookup_insert_eq. intros [= <-]. by eapply fetch_ok_next.
    + rewrite lookup_insert_ne by done. apply Hm.
Qed.

Lemma ensure_fetch_ok v h now d :
  fetches_ok (pending_fetch d) -> fetches_ok (pending_fetch (ensure_fetch v h now d).2).
Proof.
  intros Hok. unfold ensure_fetch. destruct (ds_is_pruned d v); [done|].
  destruct (pending_fetch d !! (v, h)) as [fs|] eqn:Hfs; [|by apply fetch_insert_ok].
  destruct (_ <? _); [done|]. destruct (Z.leb_spec MAX_FETCH_ATTEMPTS (fs_attempts fs)).
  - cbn. eapply fetches_ok_subseteq; [apply delete_subseteq|done].
  - destruct (fo_state _ Hok _ _ Hfs) as [? ?]. apply fetch_insert_ok; [done|lia|done].
Qed.

(** ** Runs of the engine with its digest statements *)

Inductive DsEvent :=
| DsEngine (ev : Event)
| DsEchoDigest (msg : EchoDigest) (now : Instant)
| DsReadyDigest (msg : ReadyDigest) (now : Instant)
| DsLocalFixed (v : View)
| DsBodyFetch (requester : PublicKey) (v : View) (digest : Digest)
| DsUnanswer (requester : PublicKey) (v : View)
| DsBodyServe (v : View) (p : ViewProposal)
| DsRetry (now : Instant)
| DsGc (floor : View).

Section ds_runs.
Context {Hash : Hashing} {E : Type} {Env : AgbEnv E} {Laws : AgbEnvLaws E}.
Context (inp : Inputs) (cf : AgbConfig).

Abbreviation DM := (M Effect (DigestStatements * (AgbEngine * E))) (only parsing).

Definition ds_handle (ev : DsEvent) : DM () :=
  match ev with
  | DsEngine ev => agb (handle ev)
  | DsEchoDigest msg now => on_echo_digest msg now
  | DsReadyDigest msg now => on_ready_digest msg now
  | DsLocalFixed v => on_local_fixed v
  | DsBodyFetch k v h => s ← get; ds_call (on_body_fetch k v h s.2.1)
  | DsUnanswer k v => on_ds (unanswer_fetch k v)
  | DsBodyServe v p => on_body_serve v p
  | DsRetry now => ds_call (retry_fetches now)
  | DsGc floor => ds_gc floor
  end.

(** A digest-named statement is a statement about the bodies of that digest. *)
Definition names_echo (v : View) (k : PublicKey) (b : BufferedEcho) : Prop :=
  forall p, vp_view p = v -> vp_digest (sid cf) p = be_digest b ->
  said_echo inp v k (echo_statement_of cf (ESingle (buffered_to_echo p k b))).
Definition names_ready (v : View) (k : PublicKey) (b : BufferedReady) : Prop :=
  forall p, vp_view p = v -> vp_digest (sid cf) p = b.1 ->
  said_ready inp v k (ready_statement_of cf (RSingle (mkReady p b.2 k 0))).

Definition ds_allowed (ev : DsEvent) : Prop :=
  match ev with
  | DsEngine ev => allowed inp cf ev
  | DsEchoDigest msg _ => ed_sender msg <> name cf /\
      names_echo (ed_view msg) (ed_sender msg) (ed_digest msg, ed_grade msg, ed_origin msg, ed_avail msg)
  | DsReadyDigest msg _ => rd_sender msg <> name cf /\
      names_ready (rd_view msg) (rd_sender msg) (rd_digest msg, rd_grade msg)
  | _ => True
  end.

Inductive ds_reaches : DigestStatements * (AgbEngine * E) -> list Effect -> Prop :=
| ds_reach_init delta_ms w : ds_reaches (ds_new delta_ms, (agb_init cf, w)) []
| ds_reach_env d e w w' es : ds_reaches (d, (e, w)) es -> ds_reaches (d, (e, w')) es
| ds_reach_event s es ev : ds_reaches s es -> ds_allowed ev ->
    ds_reaches (st (ds_handle ev s)) (es ++ out (ds_handle ev s)).

(** ** The invariant *)

(** A verified body: the well-formed proposal its key names. *)
Definition body_ok (v : View) (h : Digest) (p : ViewProposal) : Prop :=
  vp_view p = v /\ vp_digest (sid cf) p = h /\
  formed (committee cf) (vp_view p) (vp_c p) (vp_t p) (vp_m p) = true.

Record ds_ok (d : DigestStatements) : Prop := {
  do_bodies v h p : known_bodies d !! (v, h) = Some p -> body_ok v h p;
  do_pending : fetches_ok (pending_fetch d);
  do_echo v b k x : buffered_echo d !! v = Some b -> b !! k = Some x ->
    k <> name cf /\ be_grade x <= 1 /\ names_echo v k x;
  do_ready v b k x : buffered_ready d !! v = Some b -> b !! k = Some x ->
    k <> name cf /\ names_ready v k x;
}.

Lemma ds_ok_new delta_ms : ds_ok (ds_new delta_ms).
Proof.
  split; cbn; try (intros *; by rewrite lookup_empty).
  split; [rewrite map_size_empty; lia|intros *; by rewrite lookup_empty].
Qed.

(** An operation that drops bodies, fetches and statements. *)
Lemma ds_ok_less d d' :
  known_bodies d' ⊆ known_bodies d -> pending_fetch d' ⊆ pending_fetch d ->
  (forall v b k x, buffered_echo d' !! v = Some b -> b !! k = Some x ->
    exists b', buffered_echo d !! v = Some b' /\ b' !! k = Some x) ->
  (forall v b k x, buffered_ready d' !! v = Some b -> b !! k = Some x ->
    exists b', buffered_ready d !! v = Some b' /\ b' !! k = Some x) ->
  ds_ok d -> ds_ok d'.
Proof.
  intros Hb Hp He Hr [D1 D2 D3 D4]. split.
  - intros v h p Hl. by eapply D1, lookup_weaken.
  - by eapply fetches_ok_subseteq.
  - intros v b k x Hv Hk. destruct (He _ _ _ _ Hv Hk) as (b' & ? & ?). by eapply D3.
  - intros v b k x Hv Hk. destruct (Hr _ _ _ _ Hv Hk) as (b' & ? & ?). by eapply D4.
Qed.

Lemma ds_ok_fetches d d' :
  only_fetches d d' -> fetches_ok (pending_fetch d') -> ds_ok d -> ds_ok d'.
Proof. intros -> Hf [D1 D2 D3 D4]. by split. Qed.

Lemma ds_ok_ensure v h now d : ds_ok d -> ds_ok (ensure_fetch v h now d).2.
Proof.
  intros Hd. eapply ds_ok_fetches; [apply ensure_fetch_frame| |done].
  apply ensure_fetch_ok, Hd.
Qed.

Lemma ds_ok_retry now due d : ds_ok d -> ds_ok (retry_all now due d).2.
Proof.
  revert d. induction due as [|[v h] due IH]; intros d Hd; [done|]. apply IH. by apply ds_ok_ensure.
Qed.

Lemma ds_ok_gc floor d : ds_ok d -> ds_ok (ds_gc_below floor d).
Proof.
  intros Hd. unfold ds_gc_below. destruct (_ <=? _); [done|]. revert Hd. apply ds_ok_less; cbn.
  - apply map_filter_subseteq.
  - apply map_filter_subseteq.
  - intros v b k x. rewrite lookup_map_split_off. case_match; [|done]. eauto.
  - intros v b k x. rewrite lookup_map_split_off. case_match; [|done]. eauto.
Qed.

Lemma ds_ok_buffer_echo msg now d :
  ds_ok d -> ed_sender msg <> name cf -> ed_grade msg <= 1 ->
  names_echo (ed_view msg) (ed_sender msg) (ed_digest msg, ed_grade msg, ed_origin msg, ed_avail msg) ->
  ds_ok (buffer_echo msg now d).2.
Proof.
  intros Hd Hk Hg Hn. unfold buffer_echo. set (v := ed_view msg) in *.
  assert (Hb : forall b k x, default ∅ (buffered_echo d !! v) = b -> b !! k = Some x ->
    k <> name cf /\ be_grade x <= 1 /\ names_echo v k x).
  { intros b k x <-. destruct (buffered_echo d !! v) eqn:Hv; simpl; [|by rewrite lookup_empty].
    by eapply do_echo. }
  set (bucket := default ∅ _) in *. cbn zeta.
  assert (Hins : forall b', (forall k x, b' !! k = Some x ->
      k <> name cf /\ be_grade x <= 1 /\ names_echo v k x) ->
    ds_ok (d <| buffered_echo ::= <[ v := b' ]> |>)).
  { intros b' Hb'. destruct Hd as [D1 D2 D3 D4]. split; cbn; [done..| |done].
    intros v' b k x. destruct (decide (v = v')) as [<-|].
    - rewrite lookup_insert_eq. intros [= <-]. apply Hb'.
    - rewrite lookup_insert_ne by done. apply D3. }
  destruct (bucket !! ed_sender msg) eqn:Hs.
  - apply Hins. intros k0 x0. by apply Hb.
  - apply ds_ok_ensure, Hins. intros k x. rewrite lookup_insert_Some.
    intros [[<- <-]|[_ Hx]]; [done|by eapply Hb].
Qed.

Lemma ds_ok_buffer_ready v h k g now d :
  ds_ok d -> k <> name cf -> names_ready v k (h, g) -> ds_ok (buffer_ready v h k g now d).2.
Proof.
  intros Hd Hk Hn. unfold buffer_ready.
  assert (Hb : forall b k x, default ∅ (buffered_ready d !! v) = b -> b !! k = Some x ->
    k <> name cf /\ names_ready v k x).
  { intros b k' x <-. destruct (buffered_ready d !! v) eqn:Hv; simpl; [|by rewrite lookup_empty].
    by eapply do_ready. }
  set (bucket := default ∅ _) in *. cbn zeta.
  assert (Hins : forall b', (forall k x, b' !! k = Some x -> k <> name cf /\ names_ready v k x) ->
    ds_ok (d <| buffered_ready ::= <[ v := b' ]> |>)).
  { intros b' Hb'. destruct Hd as [D1 D2 D3 D4]. split; cbn; [done..|].
    intros v' b k' x. destruct (decide (v = v')) as [<-|].
    - rewrite lookup_insert_eq. intros [= <-]. apply Hb'.
    - rewrite lookup_insert_ne by done. apply D4. }
  set (acc := match bucket !! k with None => true | Some _ => _ end). destruct acc.
  - apply ds_ok_ensure, Hins. intros k' x. rewrite lookup_insert_Some.
    intros [[<- <-]|[_ Hx]]; [done|by eapply Hb].
  - apply Hins. intros k0 x0. by apply Hb.
Qed.

Lemma lookup_drop_empty {V} v v' (m : gmap View (gmap PublicKey V)) b :
  drop_empty v m !! v' = Some b -> m !! v' = Some b.
Proof.
  unfold drop_empty. destruct (m !! v); [|done]. case_decide; [|done].
  rewrite lookup_delete_Some. tauto.
Qed.

Lemma lookup_alter_delete {V} v v' k k' (m : gmap View (gmap PublicKey V)) b x :
  alter (delete k) v m !! v' = Some b -> b !! k' = Some x ->
  exists b', m !! v' = Some b' /\ b' !! k' = Some x.
Proof.
  rewrite lookup_alter_Some. intros [(<- & b' & Hb & ->)|[_ Hb]] Hx; [|eauto].
  exists b'. split; [done|]. by apply lookup_delete_Some in Hx as [_ ?].
Qed.

(** ** Simulation

    Every handler runs the engine on by-value statements: the engine's own
    part of the effects is that of an engine run. *)
Definition own (es : list Effect) : list Effect := filter (fun x => foreign x = false) es.

Definition ds_sim (s : DigestStatements * (AgbEngine * E)) (es : list Effect)
    (s' : DigestStatements * (AgbEngine * E)) : Prop :=
  forall hist, reaches inp cf s.2 hist -> ds_ok s.1 ->
  exists es', reaches inp cf s'.2 (hist ++ es') /\ own es' = own es /\ ds_ok s'.1.

#[export] Instance ds_sim_trace : TraceRel ds_sim.
Proof.
  split.
  - intros s hist Hs Hd. exists []. by rewrite app_nil_r.
  - intros s1 s2 s3 es1 es2 H1 H2 hist Hs Hd.
    destruct (H1 hist Hs Hd) as (es1' & Hs1 & Ho1 & Hd1).
    destruct (H2 _ Hs1 Hd1) as (es2' & Hs2 & Ho2 & Hd2).
    exists (es1' ++ es2'). rewrite (assoc_L (++)). unfold own in *. rewrite !filter_app. by rewrite Ho1, Ho2.
Qed.

Lemma sim_engine ev s : allowed inp cf ev -> sat_at ds_sim (agb (handle ev)) s.
Proof.
  intros Hev hist Hs Hd. exists (out (handle ev s.2)). split; [by apply reach_event|done].
Qed.

Lemma sim_on_ds f : (forall d, ds_ok d -> ds_ok (f d)) -> sat ds_sim (on_ds f).
Proof. intros Hf s hist Hs Hd. exists []. rewrite app_nil_r. split_and!; [done..|by apply Hf]. Qed.

Lemma sim_ds_call f s :
  (ds_ok s.1 -> ds_ok (f s.1).2) -> Forall (fun x => foreign x = true) (f s.1).1 ->
  sat_at ds_sim (ds_call f) s.
Proof.
  intros Hf Hx hist Hs Hd. exists []. rewrite app_nil_r. split_and!; [done| |by apply Hf].
  symmetry. apply filter_none. intros x Hin. rewrite Forall_forall in Hx. by rewrite (Hx x Hin).
Qed.

(** A body is returned only if it is verified. *)
Lemma resolve_body_ok v h e d :
  inv e -> cfg e = cf -> ds_ok d ->
  (forall p, (resolve_body v h e d).1 = Some p -> body_ok v h p) /\ ds_ok (resolve_body v h e d).2.
Proof.
  intros Hinv Hc Hd. unfold resolve_body. destruct (known_bodies d !! (v, h)) as [q|] eqn:Hk.
  { split; [|done]. intros p [= <-]. by eapply do_bodies. }
  unfold fixed_proposal. destruct (is_pruned e v); [done|].
  destruct (views e !! v) as [s|] eqn:Hs; [|done]. simpl.
  destruct (fixed s) as [| |[vp|] h'] eqn:Hf; try done.
  destruct (Z.eqb_spec h' h) as [->|]; [|done].
  destruct (Hinv _ _ Hs) as [_ Hv]. destruct (vi_fixed _ _ _ Hv _ _ Hf) as [[Hpv Hpd] Hform].
  rewrite Hc in Hpd, Hform.
  assert (Hb : body_ok v h vp) by done. split; [by intros p [= <-]|].
  destruct Hd as [D1 D2 D3 D4]. split; cbn; try done.
  intros v' h' p. rewrite lookup_insert_Some. intros [[[= <- <-] <-]|[_ ?]]; [done|by apply D1].
Qed.

Lemma reaches_cfg s hist : reaches inp cf s hist -> cfg s.1 = cf.
Proof. by intros [? _]%reaches_chain. Qed.

(** A handler that continues with the resolved body. *)
Lemma sim_resolve {A} v h (k : option ViewProposal -> DM A) s :
  (forall p s', body_ok v h p -> sat_at ds_sim (k (Some p)) s') ->
  sat_at ds_sim (k None) s ->
  sat_at ds_sim (ds_resolve v h ≫= k) s.
Proof.
  intros HS HN. unfold sat_at. intros hist Hs Hd.
  destruct (resolve_body_ok v h s.2.1 s.1) as [Hbody Hd'];
    [by eapply reaches_inv|by eapply reaches_cfg|done|].
  destruct (resolve_body v h s.2.1 s.1) as [[p|] d'] eqn:Hr; cbn [fst snd] in *.
  - assert (HM : (ds_resolve v h ≫= k) s = k (Some p) (d', s.2)).
    { rewrite bind_run. unfold ds_resolve. rewrite Hr. cbn [val out st fst snd app]. by destruct (k _ _). }
    rewrite HM. by apply (HS p (d', s.2) (Hbody p eq_refl) hist).
  - assert (d' = s.1) as ->.
    { revert Hr. unfold resolve_body. repeat case_match; intros [= ->]; done. }
    assert (HM : (ds_resolve v h ≫= k) s = k None s).
    { rewrite bind_run. unfold ds_resolve. rewrite Hr. destruct s as [d0 ew]. cbn [val out st fst snd app].
      by destruct (k _ _). }
    rewrite HM. by apply HN.
Qed.

Lemma sim_echo p v k b wish :
  body_ok v (be_digest b) p -> k <> name cf -> names_echo v k b ->
  sat ds_sim (agb (on_echo (mkEcho p (be_grade b) k wish (be_origin b) (be_avail b)))).
Proof.
  intros (<- & Hh & _) Hk Hn s. apply (sim_engine (EvEcho _)). split; [simpl; congruence|].
  by apply Hn.
Qed.

Lemma sim_ready p v k b wish :
  body_ok v b.1 p -> k <> name cf -> names_ready v k b ->
  sat ds_sim (agb (on_ready (mkReady p b.2 k wish))).
Proof.
  intros (<- & Hh & _) Hk Hn s. apply (sim_engine (EvReady _)). split; [simpl; congruence|].
  by apply Hn.
Qed.

Lemma sim_ok {A} (m : DM A) s : (ds_ok s.1 -> sat_at ds_sim m s) -> sat_at ds_sim m s.
Proof. intros H hist Hs Hd. by apply H. Qed.

Lemma sim_cfg {A} (m : DM A) s : (cfg s.2.1 = cf -> sat_at ds_sim m s) -> sat_at ds_sim m s.
Proof. intros H hist Hs Hd. apply H; [by eapply reaches_cfg|done..]. Qed.

Lemma sim_drain_echoes v h p s :
  body_ok v h p ->
  sat_at ds_sim (for_each (drain_echo v p)
    (filter (fun p => be_digest p.2 = h) (map_iter (default ∅ (buffered_echo s.1 !! v))))) s.
Proof.
  intros Hb. apply sim_ok. intros Hd. apply sat_for_each_in; [apply _|]. apply Forall_forall.
  intros [k b] [Hh Hin%elem_of_map_iter]%list_elem_of_filter. simpl in Hh. subst h.
  destruct (buffered_echo s.1 !! v) as [bucket|] eqn:Hv; simpl in Hin; [|by rewrite lookup_empty in Hin].
  destruct (do_echo _ Hd _ _ _ _ Hv Hin) as (Hk & _ & Hn).
  apply sat_bind; [apply _| |intros _; by eapply sim_echo].
  apply sim_on_ds. intros d. apply ds_ok_less; cbn; [done..| |eauto].
  intros *. apply lookup_alter_delete.
Qed.

Lemma sim_drain_readies v h p s :
  body_ok v h p ->
  sat_at ds_sim (for_each (drain_ready v p)
    (filter (fun p => p.2.1 = h) (map_iter (default ∅ (buffered_ready s.1 !! v))))) s.
Proof.
  intros Hb. apply sim_ok. intros Hd. apply sat_for_each_in; [apply _|]. apply Forall_forall.
  intros [k b] [Hh Hin%elem_of_map_iter]%list_elem_of_filter. simpl in Hh. subst h.
  destruct (buffered_ready s.1 !! v) as [bucket|] eqn:Hv; simpl in Hin; [|by rewrite lookup_empty in Hin].
  destruct (do_ready _ Hd _ _ _ _ Hv Hin) as (Hk & Hn).
  apply sat_bind; [apply _| |intros _; by eapply sim_ready].
  apply sim_on_ds. intros d. apply ds_ok_less; cbn; [done..|eauto|].
  intros *. apply lookup_alter_delete.
Qed.

Lemma sim_drain v h p s :
  body_ok v h p -> sat_at ds_sim (drain v h p) s.
Proof.
  intros Hb. unfold drain.
  apply sat_at_bind; [apply _|apply sim_on_ds|].
  { intros d. apply ds_ok_less; cbn; [done|apply delete_subseteq|eauto..]. }
  apply sat_at_get_bind. apply sat_at_bind; [apply _|by apply sim_drain_echoes|].
  apply sat_at_bind; [apply _|apply sim_on_ds|].
  { intros d. apply ds_ok_less; cbn; [done..| |eauto]. intros * ?%lookup_drop_empty. eauto. }
  apply sat_at_get_bind. apply sat_at_bind; [apply _|by apply sim_drain_readies|].
  apply sim_on_ds. intros d. apply ds_ok_less; cbn; [done..|eauto|].
  intros * ?%lookup_drop_empty. eauto.
Qed.

(** Fetches and served bodies are not statements of the engine. *)
Lemma ensure_fetch_foreign v h now d : Forall (fun x => foreign x = true) (ensure_fetch v h now d).1.
Proof.
  assert (HI : forall w a, Forall (fun x => foreign x = true) (fetch_insert v h now w a d).1).
  { intros w a. unfold fetch_insert. cbn zeta. destruct (_ <=? _)%nat; [constructor|].
    apply Forall_fmap, Forall_forall. done. }
  unfold ensure_fetch. destruct (ds_is_pruned d v); [constructor|].
  destruct (_ !! _); [|apply HI]. destruct (_ <? _); [constructor|]. by destruct (_ <=? _).
Qed.

Lemma retry_all_foreign now due d : Forall (fun x => foreign x = true) (retry_all now due d).1.
Proof.
  revert d. induction due as [|[v h] due IH]; intros d; [constructor|].
  apply Forall_app. split; [apply ensure_fetch_foreign|apply IH].
Qed.

Lemma sim_on_echo_digest msg now s :
  ed_sender msg <> name cf ->
  names_echo (ed_view msg) (ed_sender msg) (ed_digest msg, ed_grade msg, ed_origin msg, ed_avail msg) ->
  sat_at ds_sim (on_echo_digest msg now) s.
Proof.
  intros Hk Hn. apply sat_at_get_bind. destruct (ds_is_pruned _ _ || (ed_grade msg >? 1)) eqn:Hg.
  { apply sat_ret; apply _. }
  apply sim_resolve.
  - intros p s' Hb.
    by apply (sim_echo p (ed_view msg) _ (ed_digest msg, ed_grade msg, ed_origin msg, ed_avail msg)).
  - apply sim_ds_call.
    + intros Hd. apply ds_ok_buffer_echo; try done. apply orb_false_iff in Hg as [_ Hg]. lia.
    + unfold buffer_echo. case_match; [constructor|apply ensure_fetch_foreign].
Qed.

Lemma sim_on_ready_digest msg now s :
  rd_sender msg <> name cf ->
  names_ready (rd_view msg) (rd_sender msg) (rd_digest msg, rd_grade msg) ->
  sat_at ds_sim (on_ready_digest msg now) s.
Proof.
  intros Hk Hn. apply sat_at_get_bind. destruct (ds_is_pruned _ _).
  { apply sat_ret; apply _. }
  apply sim_resolve.
  - intros p s' Hb. by apply (sim_ready p (rd_view msg) _ (rd_digest msg, rd_grade msg)).
  - apply sim_ds_call.
    + intros Hd. by apply ds_ok_buffer_ready.
    + unfold buffer_ready. cbn zeta. match goal with |- context [if ?b then _ else _] => destruct b end;
        [apply ensure_fetch_foreign|constructor].
Qed.

Lemma sim_on_body_fetch k v h s :
  sat_at ds_sim (s ← get; ds_call (on_body_fetch k v h s.2.1)) s.
Proof.
  apply sat_at_get_bind, sim_ds_call; unfold on_body_fetch; repeat case_match; try done; cbn.
  - intros Hd. revert Hd. apply ds_ok_less; cbn; eauto.
  - by repeat constructor.
Qed.

Lemma sim_on_body_serve v p s : sat_at ds_sim (on_body_serve v p) s.
Proof.
  apply sim_cfg. intros Hc. apply sat_at_get_bind. destruct (ds_is_pruned _ _ || _) eqn:Hv; [apply sat_ret; apply _|].
  rewrite Hc. cbn zeta. destruct (negb (bool_decide _ || _)); [apply sat_ret; apply _|].
  destruct (negb (formed _ _ _ _ _)) eqn:Hf; [apply sat_ret; apply _|].
  apply orb_false_iff in Hv as [_ Hv]. apply negb_false_iff in Hf.
  assert (Hb : body_ok v (vp_digest (sid cf) p) p) by (split_and!; [lia|done..]).
  apply sat_at_bind; [apply _|apply sim_on_ds|by apply sim_drain].
  intros d [D1 D2 D3 D4]. split; cbn; try done.
  intros v' h' q. rewrite lookup_insert_Some. intros [[[= <- <-] <-]|[_ ?]]; [done|by apply D1].
Qed.

Lemma sim_handle ev s : ds_allowed ev -> sat_at ds_sim (ds_handle ev) s.
Proof.
  destruct ev as [ev|msg now|msg now|v|k v h|k v|v p|now|floor]; cbn [ds_allowed ds_handle].
  - apply sim_engine.
  - intros [? ?]. by apply sim_on_echo_digest.
  - intros [? ?]. by apply sim_on_ready_digest.
  - intros _. apply sat_at_get_bind. destruct (fixed_proposal _ _) as [[q h]|]; [|apply sat_ret; apply _].
    apply sim_resolve; [intros; by apply sim_drain|apply sat_ret; apply _].
  - intros _. apply sim_on_body_fetch.
  - intros _. apply sim_on_ds. intros d. apply ds_ok_less; cbn; eauto.
  - intros _. apply sim_on_body_serve.
  - intros _. apply sim_ds_call; [intros; by apply ds_ok_retry|apply retry_all_foreign].
  - intros _. apply sim_on_ds, ds_ok_gc.
Qed.

Lemma ds_reaches_sim s es :
  ds_reaches s es -> exists es', reaches inp cf s.2 es' /\ own es' = own es /\ ds_ok s.1.
Proof.
  induction 1 as [delta_ms w|d e w w' es _ (es' & IH & Ho & Hd)|s es ev _ (es' & IH & Ho & Hd) Hev].
  - exists []. split_and!; [constructor|done|apply ds_ok_new].
  - exists es'. split_and!; [by eapply reach_env|done..].
  - destruct (sim_handle ev s Hev es' IH Hd) as (es2 & H1 & H2 & H3).
    exists (es' ++ es2). unfold own in *. rewrite !filter_app. by rewrite Ho, H2.
Qed.
End ds_runs.
