(* ===== verification/DigestRuns.v ===== *)
(** What digest-named statements promise.

    The engine behind [DigestStatements] only ever sees by-value statements; a
    verified body delivers exactly the statements buffered for it; fetches are
    bounded and go to the authors of buffered statements. *)

From S2P Require Import Prelude Committee Types Formed Claim AgbState Agb AgbSteps AgbRefine Fixtures AgbTrace AgbCensus DigestStatements.

(** ** Delivering buffered statements *)

Section delivery.
Context {Hash : Hashing} {E : Type} {Env : AgbEnv E}.

Lemma run_events_app evs evs' (s : AgbEngine * E) :
  run_events (evs ++ evs') s =
    ((run_events evs' (run_events evs s).1).1,
     (run_events evs s).2 ++ (run_events evs' (run_events evs s).1).2).
Proof.
  revert s. induction evs as [|ev evs IH]; intros s; simpl.
  - by destruct (run_events evs' s).
  - rewrite IH. simpl. by rewrite (assoc_L (++)).
Qed.

Definition remove_keys {V} (l : list PublicKey) (b : gmap PublicKey V) : gmap PublicKey V :=
  foldl (fun b k => delete k b) b l.

Lemma lookup_remove_keys {V} l (b : gmap PublicKey V) k :
  remove_keys l b !! k = if decide (k ∈ l) then None else b !! k.
Proof.
  unfold remove_keys. revert b. induction l as [|k' l IH]; intros b; cbn [foldl].
  - case_decide; [set_solver|done].
  - rewrite IH. destruct (decide (k = k')) as [->|Hne].
    + rewrite lookup_delete_eq. repeat case_decide; set_solver.
    + rewrite lookup_delete_ne by done. repeat case_decide; set_solver.
Qed.

Lemma alter_alter {V} (f g : V -> V) i (m : gmap View V) :
  alter f i (alter g i m) = alter (fun x => f (g x)) i m.
Proof.
  apply map_eq. intros j. destruct (decide (i = j)) as [<-|].
  - rewrite !lookup_alter_eq. by destruct (m !! i).
  - by rewrite !lookup_alter_ne.
Qed.

(** Draining one kind of statement is a run of the engine on them. *)
Lemma for_each_drain {V} (f : PublicKey * V -> M Effect (DigestStatements * (AgbEngine * E)) ())
    (ev : PublicKey * V -> Event) (rm : PublicKey -> DigestStatements -> DigestStatements) l s :
  (forall p, f p = (on_ds (rm p.1);; agb (handle (ev p)))) ->
  for_each f l s = Res tt (run_events (ev <$> l) s.2).2
    (foldl (fun d k => rm k d) s.1 l.*1, (run_events (ev <$> l) s.2).1).
Proof.
  intros Hf. revert s. induction l as [|p l IH]; intros [d ew]; [done|].
  cbn [for_each]. rewrite Hf, bind_run, IH. cbn. done.
Qed.

Lemma foldl_rm_echo v l d :
  foldl (fun d k => d <| buffered_echo ::= alter (delete k) v |>) d l =
  d <| buffered_echo ::= alter (remove_keys l) v |>.
Proof.
  revert d. induction l as [|k l IH]; intros d; simpl.
  - unfold remove_keys. simpl. destruct d. unfold setter, set_buffered_echo. simpl. f_equal.
    symmetry. by apply alter_id.
  - rewrite IH. destruct d. apply (f_equal (fun m => mkDigestStatements m _ _ _ _ _ _)), (alter_alter (remove_keys l) (delete k)).
Qed.

Lemma foldl_rm_ready v l d :
  foldl (fun d k => d <| buffered_ready ::= alter (delete k) v |>) d l =
  d <| buffered_ready ::= alter (remove_keys l) v |>.
Proof.
  revert d. induction l as [|k l IH]; intros d; simpl.
  - unfold remove_keys. simpl. destruct d. unfold setter, set_buffered_ready. simpl. f_equal.
    symmetry. by apply alter_id.
  - rewrite IH. destruct d. apply (f_equal (fun m => mkDigestStatements _ m _ _ _ _ _)), (alter_alter (remove_keys l) (delete k)).
Qed.

(** The statements buffered for a view and digest, in sender order. *)
Definition due_echoes (v : View) (h : Digest) (d : DigestStatements) : list (PublicKey * BufferedEcho) :=
  filter (fun p => be_digest p.2 = h) (map_iter (default ∅ (buffered_echo d !! v))).
Definition due_readies (v : View) (h : Digest) (d : DigestStatements) : list (PublicKey * BufferedReady) :=
  filter (fun p => p.2.1 = h) (map_iter (default ∅ (buffered_ready d !! v))).

(** The by-value statements they stand for once the body is known. *)
Definition due_events (v : View) (h : Digest) (p : ViewProposal) (d : DigestStatements) : list Event :=
  ((fun kb => EvEcho (buffered_to_echo p kb.1 kb.2)) <$> due_echoes v h d) ++
  ((fun kb => EvReady (mkReady p kb.2.2 kb.1 0)) <$> due_readies v h d).

Definition drained (v : View) (h : Digest) (d : DigestStatements) : DigestStatements :=
  d <| pending_fetch ::= delete (v, h) |>
    <| buffered_echo ::= fun m => drop_empty v (alter (remove_keys (due_echoes v h d).*1) v m) |>
    <| buffered_ready ::= fun m => drop_empty v (alter (remove_keys (due_readies v h d).*1) v m) |>.

Lemma drain_run v h p d (ew : AgbEngine * E) :
  drain v h p (d, ew) =
    Res tt (run_events (due_events v h p d) ew).2
      (drained v h d, (run_events (due_events v h p d) ew).1).
Proof.
  unfold drain, due_events, drained. rewrite run_events_app.
  rewrite bind_run. cbn [out st val on_ds fst snd]. rewrite get_bind, bind_run.
  rewrite (for_each_drain (drain_echo v p) (fun kb => EvEcho (buffered_to_echo p kb.1 kb.2))
    (fun k d => d <| buffered_echo ::= alter (delete k) v |>)) by done.
  rewrite foldl_rm_echo. cbn [out st val fst snd]. rewrite bind_run.
  cbn [out st val on_ds fst snd]. rewrite get_bind, bind_run.
  rewrite (for_each_drain (drain_ready v p) (fun kb => EvReady (mkReady p kb.2.2 kb.1 0))
    (fun k d => d <| buffered_ready ::= alter (delete k) v |>)) by done.
  rewrite foldl_rm_ready. cbn [out st val fst snd on_ds]. destruct d. cbn. by rewrite app_nil_r.
Qed.

Lemma lookup_drained {V} (P : V -> Prop) `{!forall x, Decision (P x)} v v' k x
    (m : gmap View (gmap PublicKey V)) l :
  (forall k' y, default ∅ (m !! v) !! k' = Some y -> P y <-> k' ∈ l) ->
  drop_empty v (alter (remove_keys l) v m) !! v' ≫= lookup k = Some x <->
  m !! v' ≫= lookup k = Some x /\ ~ (v' = v /\ P x).
Proof.
  intros HP. unfold drop_empty. rewrite lookup_alter_eq.
  destruct (decide (v' = v)) as [->|Hne].
  - destruct (m !! v) as [b|] eqn:Hm; simpl in *.
    + transitivity (remove_keys l b !! k = Some x).
      { case_decide as He; [|by rewrite lookup_alter_eq, Hm].
        rewrite lookup_delete_eq, He, lookup_empty. done. }
      rewrite lookup_remove_keys. case_decide as Hk.
      * split; [done|]. intros [Hx Hn]. destruct Hn. split; [done|]. by apply (HP k).
      * split; [|tauto]. intros Hx. split; [done|]. intros [_ HPx]. by apply (HP k) in HPx.
    + rewrite lookup_alter_eq, Hm. simpl. naive_solver.
  - assert (HR : (match remove_keys l <$> m !! v with
      | Some senders => if decide (senders = ∅) then delete v (alter (remove_keys l) v m)
                        else alter (remove_keys l) v m
      | None => alter (remove_keys l) v m end) !! v' = m !! v').
    { destruct (m !! v); simpl; [|by apply lookup_alter_ne]. case_decide; [rewrite lookup_delete_ne by done|];
        by apply lookup_alter_ne. }
    rewrite HR. naive_solver.
Qed.

Lemma due_keys {V} (f : V -> Digest) h (b : gmap PublicKey V) k y :
  b !! k = Some y -> f y = h <-> k ∈ (filter (fun p => f p.2 = h) (map_iter b)).*1.
Proof.
  intros Hy. rewrite list_elem_of_fmap. split.
  - intros Hh. exists (k, y). split; [done|]. apply list_elem_of_filter. by rewrite elem_of_map_iter.
  - intros ([k' y'] & -> & [Hh Hin%elem_of_map_iter]%list_elem_of_filter). simpl in *. congruence.
Qed.
End delivery.

(** A body the node asked for: live, of the right view, pending or named by a
    buffered statement, and well formed. *)
Definition wanted `{!Hashing} (e : AgbEngine) (v : View) (p : ViewProposal) (d : DigestStatements) : bool :=
  let h := vp_digest (sid (cfg e)) p in
  negb (ds_is_pruned d v) && (vp_view p =? v)
  && (bool_decide (is_Some (pending_fetch d !! (v, h))) || has_buffered_statement_for v h d)
  && formed (committee (cfg e)) (vp_view p) (vp_c p) (vp_t p) (vp_m p).

(** A served body either is one the node asked for, or changes nothing.
    A body that was asked for is recorded under its digest and the engine handles
    exactly the ECHOs and READYs buffered for that view and digest, each with the
    body in place of the digest, echoes first and each kind in sender order;
    those statements and the pending fetch are gone afterwards, and every other
    buffered statement remains. *)
Theorem body_serve_exact {Hash : Hashing} {E} {Env : AgbEnv E} v p d (e : AgbEngine) (w : E) :
  let h := vp_digest (sid (cfg e)) p in
  let r := on_body_serve v p (d, (e, w)) in
  if wanted e v p d then
    (out r, (st r).2) = (let x := run_events (due_events v h p d) (e, w) in (x.2, x.1)) /\
    known_bodies (st r).1 = <[ (v, h) := p ]> (known_bodies d) /\
    pending_fetch (st r).1 = delete (v, h) (pending_fetch d) /\
    (forall v' k x, buffered_echo (st r).1 !! v' ≫= lookup k = Some x <->
      buffered_echo d !! v' ≫= lookup k = Some x /\ ~ (v' = v /\ be_digest x = h)) /\
    (forall v' k x, buffered_ready (st r).1 !! v' ≫= lookup k = Some x <->
      buffered_ready d !! v' ≫= lookup k = Some x /\ ~ (v' = v /\ x.1 = h))
  else r = Res tt [] (d, (e, w)).
Proof.
  cbn zeta. unfold wanted, on_body_serve. rewrite get_bind. cbn [fst snd].
  destruct (ds_is_pruned d v); [done|]. destruct (vp_view p =? v); [|done]. cbn [negb orb andb].
  set (h := vp_digest _ p). destruct (bool_decide _ || _); [|done]. cbn [negb andb].
  destruct (formed _ _ _ _ _); [|done]. cbn [negb].
  rewrite bind_run. cbn [out st val on_ds fst snd]. rewrite drain_run. cbn [out st fst snd app].
  split; [done|]. split; [done|]. split; [done|]. unfold drained. cbn.
  split; intros v' k x.
  - apply (lookup_drained (fun x => be_digest x = h)). intros k' y. apply due_keys.
  - apply (lookup_drained (fun x => x.1 = h)). intros k' y. apply (due_keys fst).
Qed.

(** C11: the engine behind the digest statements is an engine that hears every
    statement by value.  In every run of the two together, whatever peers send,
    the engine's state is one that by-value statements of the same senders lead
    to, and it has emitted the same statements and results; so whatever holds of
    every engine run holds behind digest-named statements.  Besides, every known
    body is the well-formed proposal its view and digest name, at most
    [MAX_PENDING_FETCH] fetches are pending, and none was attempted more than
    [MAX_FETCH_ATTEMPTS] times. *)
Theorem digest_statements_refine {Hash : Hashing} {E} {Env : AgbEnv E} {Laws : AgbEnvLaws E}
    inp cf (s : DigestStatements * (AgbEngine * E)) es :
  ds_reaches inp cf s es ->
  (exists es', reaches inp cf s.2 es' /\ own es' = own es) /\
  (forall v h p, known_bodies s.1 !! (v, h) = Some p ->
    vp_view p = v /\ vp_digest (sid cf) p = h /\ p_formed (committee cf) (PSingle p) = true) /\
  (pending_fetch_len s.1 <= MAX_PENDING_FETCH)%nat /\
  (forall k fs, pending_fetch s.1 !! k = Some fs -> 1 <= fs_attempts fs <= MAX_FETCH_ATTEMPTS).
Proof.
  intros Hs. destruct (ds_reaches_sim _ _ _ _ Hs) as (es' & Hr & Ho & Hd).
  split; [by eauto|]. split; [apply Hd|]. split; [apply Hd|]. intros k fs Hk.
  by apply (do_pending _ _ _ Hd) in Hk as [? _].
Qed.

(** ** A concrete run *)

Fixpoint ds_run {Hash : Hashing} {E} {Env : AgbEnv E} (evs : list DsEvent)
    (s : DigestStatements * (AgbEngine * E)) : (DigestStatements * (AgbEngine * E)) * list Effect :=
  match evs with
  | [] => (s, [])
  | ev :: evs =>
      let r := ds_run evs (st (ds_handle ev s)) in
      (r.1, out (ds_handle ev s) ++ r.2)
  end.

Lemma ds_run_reaches {Hash : Hashing} {E} {Env : AgbEnv E} inp cf evs
    (s : DigestStatements * (AgbEngine * E)) es :
  ds_reaches inp cf s es -> Forall (ds_allowed inp cf) evs ->
  ds_reaches inp cf (ds_run evs s).1 (es ++ (ds_run evs s).2).
Proof.
  revert s es. induction evs as [|ev evs IH]; intros s es Hs Hk; cbn [ds_run fst snd].
  - by rewrite app_nil_r.
  - apply Forall_cons in Hk as [Hk Hks]. rewrite (assoc_L (++)). apply IH; [|done].
    by apply ds_reach_event.
Qed.

Definition digest1 : Digest := @vp_digest coded_hashing 7 proposal1.

(** Parties 20 and 30 echo and ready by digest before party 10 has the body;
    party 20 serves it. *)
Definition late_body_events : list DsEvent :=
  [DsEngine (EvEnter 1 0);
   DsEchoDigest (mkEchoDigest 1 digest1 1 20 0 None None) 1;
   DsEchoDigest (mkEchoDigest 1 digest1 1 30 0 None None) 2;
   DsReadyDigest (mkReadyDigest 1 digest1 GOne 20 0) 3;
   DsReadyDigest (mkReadyDigest 1 digest1 GOne 30 0) 4;
   DsBodyServe 1 proposal1;
   DsEngine (EvPropose 10 proposal1 5)].

Definition late_body_run (n : nat) : (DigestStatements * (AgbEngine * ())) * list Effect :=
  @ds_run coded_hashing () open_env (take n late_body_events) (ds_new 100, (agb_init (config4 10), tt)).

Lemma late_body_reaches n :
  @ds_reaches coded_hashing () open_env any_inputs (config4 10) (late_body_run n).1 (late_body_run n).2.
Proof.
  apply (@ds_run_reaches coded_hashing () open_env any_inputs (config4 10) _ _ []); [constructor|].
  apply Forall_take. repeat constructor; try done; by intros p _ _.
Qed.

Lemma digest_statements_refine_witness :
  own (late_body_run 7).2 =
    [BroadcastEcho (build_echo_out (config4 10) (PSingle proposal1) 1 []);
     BroadcastReady (build_ready_out (config4 10) (PSingle proposal1) GOne);
     Completed 1 [(20, 1, 100)] [(30, 2, 101)]; Sealed 1 (OFull [(20, 1, 100)] [(30, 2, 101)])] /\
  exists es', @reaches coded_hashing () open_env any_inputs (config4 10) (late_body_run 7).1.2 es' /\
    own es' = own (late_body_run 7).2.
Proof.
  split; [vm_compute; reflexivity|].
  apply (@digest_statements_refine coded_hashing () open_env open_env_laws any_inputs (config4 10)
    (late_body_run 7).1 (late_body_run 7).2).
  apply late_body_reaches.
Defined.

Lemma resolve_body_none {Hash : Hashing} v h e d :
  (resolve_body v h e d).1 = None -> (resolve_body v h e d).2 = d.
Proof. unfold resolve_body. repeat case_match; done. Qed.

(** The effects are requests for one body. *)
Definition only_fetches_of (v : View) (h : Digest) (es : list Effect) : Prop :=
  Forall (fun x => exists k, x = BodyFetchTo k v h) es.

Lemma ensure_fetch_effects v h now d : only_fetches_of v h (ensure_fetch v h now d).1.
Proof.
  assert (HI : forall w a, only_fetches_of v h (fetch_insert v h now w a d).1).
  { intros w a. unfold fetch_insert. cbn zeta. destruct (_ <=? _)%nat; [constructor|].
    apply Forall_fmap, Forall_forall. intros k _. by exists k. }
  unfold ensure_fetch. destruct (ds_is_pruned d v); [constructor|].
  destruct (_ !! _); [|apply HI]. destruct (_ <? _); [constructor|]. by destruct (_ <=? _); [constructor|].
Qed.

Lemma ensure_fetch_buffers v h now d :
  buffered_echo (ensure_fetch v h now d).2 = buffered_echo d /\
  buffered_ready (ensure_fetch v h now d).2 = buffered_ready d.
Proof. by rewrite (ensure_fetch_frame v h now d). Qed.

Lemma buffer_echo_spec msg now d :
  only_fetches_of (ed_view msg) (ed_digest msg) (buffer_echo msg now d).1 /\
  buffered_echo (buffer_echo msg now d).2 !! ed_view msg ≫= lookup (ed_sender msg) =
    Some (default ((ed_digest msg, ed_grade msg, ed_origin msg, ed_avail msg) : BufferedEcho)
            (buffered_echo d !! ed_view msg ≫= lookup (ed_sender msg))).
Proof.
  unfold buffer_echo.
  assert (Hd : default ∅ (buffered_echo d !! ed_view msg) !! ed_sender msg =
    buffered_echo d !! ed_view msg ≫= lookup (ed_sender msg)).
  { destruct (buffered_echo d !! ed_view msg); [done|apply lookup_empty]. }
  rewrite <- Hd. set (b := default ∅ _) in *. cbn zeta.
  destruct (b !! ed_sender msg) as [y|] eqn:Hy.
  - split; [constructor|]. unfold setter, set_buffered_echo. cbn [fst snd buffered_echo].
    rewrite lookup_insert_eq. exact Hy.
  - split; [apply ensure_fetch_effects|]. rewrite (proj1 (ensure_fetch_buffers _ _ _ _)).
    unfold setter, set_buffered_echo. cbn [buffered_echo]. rewrite lookup_insert_eq.
    apply lookup_insert_eq.
Qed.

(** naming a proposal by digest loses nothing.  A live ECHO sent as
    [echo_to_digest], received once its body is known, is handled exactly as the
    ECHO itself; before that it is buffered under its sender, unless one from that
    sender is buffered already, the engine is untouched and the only effects are
    requests for the body. *)
Theorem echo_digest_by_value {Hash : Hashing} {E} {Env : AgbEnv E} {Laws : AgbEnvLaws E}
    inp cf (s : DigestStatements * (AgbEngine * E)) es x now :
  digest_injective (sid cf) -> ds_reaches inp cf s es ->
  echo_grade x <= 1 -> ds_is_pruned s.1 (vp_view (echo_proposal x)) = false ->
  let msg := echo_to_digest (sid cf) x in
  let r := on_echo_digest msg now s in
  match (resolve_body (ed_view msg) (ed_digest msg) s.2.1 s.1).1 with
  | Some _ => out r = out (on_echo x s.2) /\ (st r).2 = st (on_echo x s.2)
  | None =>
      (st r).2 = s.2 /\ only_fetches_of (ed_view msg) (ed_digest msg) (out r) /\
      buffered_echo (st r).1 !! ed_view msg ≫= lookup (ed_sender msg) =
        Some (default ((ed_digest msg, ed_grade msg, ed_origin msg, ed_avail msg) : BufferedEcho)
                (buffered_echo s.1 !! ed_view msg ≫= lookup (ed_sender msg)))
  end.
Proof.
  intros Hinj Hs Hg Hp msg. cbn zeta. destruct (ds_reaches_sim _ _ _ _ Hs) as (es' & Hr & _ & Hd).
  destruct (resolve_body_ok inp cf (ed_view msg) (ed_digest msg) s.2.1 s.1) as [Hbody _];
    [by eapply reaches_inv|by eapply reaches_cfg|done|].
  unfold on_echo_digest. rewrite get_bind. change (ed_view msg) with (vp_view (echo_proposal x)) in *.
  rewrite Hp. cbn [orb]. change (ed_grade msg) with (echo_grade x).
  destruct (Z.gtb_spec (echo_grade x) 1); [lia|]. rewrite bind_run. unfold ds_resolve. cbn [val out st].
  destruct (resolve_body _ _ _ _).1 as [p|] eqn:Hres.
  - destruct (Hbody p eq_refl) as (Hv & Hh & _).
    assert (Hx : PSingle p = PSingle (echo_proposal x)) by (by apply Hinj).
    injection Hx as ->. by destruct x.
  - rewrite (resolve_body_none _ _ _ _ Hres). split; [by destruct s|]. exact (buffer_echo_spec msg now s.1).
Qed.

Lemma echo_digest_by_value_witness :
  let x := echo1 40 0 in
  let r := @on_echo_digest coded_hashing () open_env (@echo_to_digest coded_hashing 7 x) 9 (late_body_run 6).1 in
  let e := (st r).2.1 in
  (out r = out (@on_echo coded_hashing () open_env x (late_body_run 6).1.2) /\
   (st r).2 = st (@on_echo coded_hashing () open_env x (late_body_run 6).1.2)) /\
  (echo_grade1_count_for e 1 [(20, 1, 100)] [(30, 2, 101)], echo_any_grade_count_for e 1 [(20, 1, 100)] [(30, 2, 101)]) = (2, 3).
Proof.
  cbn zeta. split; [|vm_compute; reflexivity].
  refine (@echo_digest_by_value coded_hashing () open_env open_env_laws any_inputs (config4 10)
    (late_body_run 6).1 (late_body_run 6).2 (echo1 40 0) 9 (coded_injective 7) (late_body_reaches 6) _ _).
  - by vm_compute.
  - vm_compute. reflexivity.
Defined.

(** ** Fetching *)

(** [k] sent a buffered statement that names [h] in view [v]. *)
Definition named_by (v : View) (h : Digest) (d : DigestStatements) (k : PublicKey) : Prop :=
  (exists b, buffered_echo d !! v ≫= lookup k = Some b /\ be_digest b = h) \/
  (exists b, buffered_ready d !! v ≫= lookup k = Some b /\ b.1 = h).

Lemma filter_dom_spec {V} (f : V -> Digest) h (m : gmap View (gmap PublicKey V)) v k :
  k ∈ dom (filter (fun p => f p.2 = h) (default ∅ (m !! v))) <->
  exists b, m !! v ≫= lookup k = Some b /\ f b = h.
Proof.
  rewrite elem_of_dom. unfold is_Some. setoid_rewrite map_lookup_filter_Some.
  destruct (m !! v); simpl; [done|]. setoid_rewrite lookup_empty. naive_solver.
Qed.

Lemma fetch_targets_named v h d k : k ∈ fetch_targets v h d <-> named_by v h d k.
Proof.
  unfold fetch_targets, named_by. rewrite elem_of_set_iter, elem_of_union.
  rewrite (filter_dom_spec be_digest), (filter_dom_spec (fst : BufferedReady -> Digest)). done.
Qed.

Lemma fetch_insert_spec v h now width attempts d :
  let r := fetch_insert v h now width attempts d in
  (forall x, x ∈ r.1 -> exists k, x = BodyFetchTo k v h /\ named_by v h d k) /\
  Z.of_nat (length r.1) <= Z.max 0 width /\
  (r.1 <> [] -> pending_fetch r.2 !! (v, h) =
    Some (mkFetchState now (Z.min u64_max (width * 2)) (attempts + 1))).
Proof.
  cbn zeta. unfold fetch_insert. set (m := evict_highest _ _ _). cbn zeta.
  destruct (_ <=? _)%nat; cbn [fst snd].
  - split; [set_solver|]. split; [simpl; lia|done].
  - split.
    + intros x (k & -> & Hk)%list_elem_of_fmap. exists k. split; [done|].
      apply fetch_targets_named. apply elem_of_take in Hk as (i & Hi & _). by eapply list_elem_of_lookup_2.
    + split; [rewrite length_fmap, length_take; lia|]. intros _.
      unfold setter, set_pending_fetch. cbn [pending_fetch]. apply lookup_insert_eq.
Qed.

(** Fetching is bounded and justified.  In every reachable state a request
    for a body goes only to senders of buffered statements that name it; the
    [n]-th attempt asks at most [2 ^ n] of them, with [n] at most
    [MAX_FETCH_ATTEMPTS], is recorded, and comes no sooner than the retry
    interval after the one before; a pruned view is not fetched. *)
Theorem fetch_requests_bounded {Hash : Hashing} {E} {Env : AgbEnv E} {Laws : AgbEnvLaws E}
    inp cf (s : DigestStatements * (AgbEngine * E)) es v h now :
  ds_reaches inp cf s es ->
  let r := ensure_fetch v h now s.1 in
  (forall x, x ∈ r.1 -> exists k, x = BodyFetchTo k v h /\ named_by v h s.1 k) /\
  (r.1 <> [] ->
    ds_is_pruned s.1 v = false /\
    exists fs, pending_fetch r.2 !! (v, h) = Some fs /\ fs_last fs = now /\
      1 <= fs_attempts fs <= MAX_FETCH_ATTEMPTS /\ Z.of_nat (length r.1) <= 2 ^ fs_attempts fs /\
      match pending_fetch s.1 !! (v, h) with
      | None => fs_attempts fs = 1
      | Some old => fs_attempts fs = fs_attempts old + 1 /\
                    fetch_retry_interval s.1 <= duration_since now (fs_last old)
      end).
Proof.
  intros Hs. destruct (ds_reaches_sim _ _ _ _ Hs) as (es' & _ & _ & Hd). cbn zeta. unfold ensure_fetch.
  destruct (ds_is_pruned s.1 v); [split; [set_solver|done]|].
  destruct (pending_fetch s.1 !! (v, h)) as [old|] eqn:Hold.
  - destruct (Z.ltb_spec (duration_since now (fs_last old)) (fetch_retry_interval s.1));
      [split; [set_solver|done]|].
    destruct (Z.leb_spec MAX_FETCH_ATTEMPTS (fs_attempts old)); [split; [set_solver|done]|].
    destruct (fo_state _ (do_pending _ _ _ Hd) _ _ Hold) as [Ha Hw].
    destruct (fetch_insert_spec v h now (fs_next_width old) (fs_attempts old) s.1) as (H1 & H2 & H3).
    split; [done|]. intros Hne. split; [done|]. eexists. split; [by apply H3|]. cbn [fs_last fs_attempts].
    pose proof (Z.pow_nonneg 2 (fs_attempts old + 1) ltac:(lia)).
    split_and!; (done || lia).
  - destruct (fetch_insert_spec v h now FETCH_WIDTH_START 0 s.1) as (H1 & H2 & H3).
    split; [done|]. intros Hne. split; [done|]. eexists. split; [by apply H3|]. cbn.
    unfold FETCH_WIDTH_START, MAX_FETCH_ATTEMPTS in *. lia.
Qed.

Lemma fetch_requests_bounded_witness :
  (ensure_fetch 1 digest1 1000 (late_body_run 5).1.1).1 = [BodyFetchTo 20 1 digest1; BodyFetchTo 30 1 digest1] /\
  named_by 1 digest1 (late_body_run 5).1.1 30.
Proof.
  assert (HE : (ensure_fetch 1 digest1 1000 (late_body_run 5).1.1).1 =
    [BodyFetchTo 20 1 digest1; BodyFetchTo 30 1 digest1]) by (vm_compute; reflexivity).
  split; [exact HE|].
  destruct (proj1 (@fetch_requests_bounded coded_hashing () open_env open_env_laws any_inputs (config4 10)
    (late_body_run 5).1 (late_body_run 5).2 1 digest1 1000 (late_body_reaches 5))
    (BodyFetchTo 30 1 digest1)) as (k & Hk & Hn).
  - rewrite HE. right. left.
  - injection Hk as <-. exact Hn.
Defined.
