(* ===== verification/AgbVotes.v ===== *)
(** Skip votes, resolver votes and refinements.

    The stance of a party towards a view is exclusive: a party that endorsed a
    fresh full or core value for a view never votes to skip it, and the other
    way round.  A provisional READY-mix is always refinable. *)

From S2P Require Import Prelude Committee Types Formed Claim AgbState Agb AgbSteps AgbRefine Fixtures AgbTrace AgbCensus.

Section stance.
Context {Hash : Hashing} {E : Type} (inp : Inputs).

(** The view has left the [Free] stance for [NonSkip], or is pruned. *)
Definition non_skip (e : AgbEngine) (u : View) : Prop :=
  is_pruned e u = true \/ stance (view_state e u) = NonSkip.

Lemma estep_non_skip (s s' : AgbEngine * E) es u :
  estep inp s es s' -> inv s.1 -> non_skip s.1 u ->
  non_skip s'.1 u /\ BroadcastSkipVote u ∉ es.
Proof.
  intros Hstep Hinv Hns.
  destruct Hstep as [e v es s' w w' Hp Hv|e e' w w' es Hc Hvi Hm Hfor|e w floor]; simpl in *.
  - pose proof (inv_view_state e v Hinv) as Hvinv.
    destruct (decide (u = v)) as [->|Hne].
    + destruct Hns as [?|Hns]; [congruence|].
      pose proof (pe_stance _ _ _ (vstep_persists _ _ _ _ _ _ Hv Hvinv)) as Hst.
      split.
      * right. rewrite view_state_update, decide_True by done. rewrite Hst, Hns; [done|]. by rewrite Hns.
      * intros Hin. destruct (vstep_emits _ _ _ _ _ _ _ Hv Hvinv Hin eq_refl) as [_ [Hsv _]].
        rewrite Hst in Hsv; rewrite Hns in *; done.
    + split.
      * destruct Hns as [?|?]; [by left|right]. by rewrite view_state_update, decide_False.
      * intros Hin. destruct (vstep_emits _ _ _ _ _ _ _ Hv Hvinv Hin eq_refl) as [Hu _].
        cbn in Hu. congruence.
  - split.
    + unfold non_skip, is_pruned, view_state in *. by rewrite Hvi, Hm.
    + intros Hin. by apply (foreign_not es) in Hin.
  - split; [|apply not_elem_of_nil]. destruct Hns as [Hp|Hs].
    + left. by apply is_pruned_gc.
    + destruct (view_state_gc e u floor) as [?|Heq]; [by left|right]. by rewrite Heq.
Qed.

Lemma chain_non_skip (s s' : AgbEngine * E) es u :
  chain inp s es s' -> inv s.1 -> non_skip s.1 u ->
  non_skip s'.1 u /\ BroadcastSkipVote u ∉ es.
Proof.
  induction 1 as [|s1 s2 s3 es1 es2 Hstep Hc IH]; intros Hinv Hns.
  - split; [done|apply not_elem_of_nil].
  - destruct (estep_non_skip _ _ _ u Hstep Hinv Hns) as [Hns' Hno].
    destruct (IH (estep_inv _ _ _ _ Hstep Hinv) Hns') as [? Hno'].
    split; [done|]. rewrite elem_of_app. tauto.
Qed.
End stance.

Section votes.
Context {Hash : Hashing} {E : Type} {Env : AgbEnv E} {Laws : AgbEnvLaws E}.

(** The steps an allowed event takes. *)
Lemma event_chain inp ev e (w : E) :
  inv e -> allowed inp (cfg e) ev ->
  chain inp (e, w) (out (handle ev (e, w))) (st (handle ev (e, w))) /\
  cfg (st (handle ev (e, w))).1 = cfg e.
Proof.
  intros Hinv Ha.
  assert ((exists floor, ev = EvGc floor) \/ forall floor, ev <> EvGc floor)
    as [(floor & ->)|Hgc] by (destruct ev; naive_solver).
  - split; [apply chain_one, es_gc|apply cfg_gc_below].
  - destruct (sat_handle inp ev e w Hgc Ha Hinv) as [Hc Hcfg _]. done.
Qed.

Lemma events_chain inp evs e (w : E) :
  inv e -> Forall (allowed inp (cfg e)) evs ->
  chain inp (e, w) (run_events evs (e, w)).2 (run_events evs (e, w)).1.
Proof.
  revert e w. induction evs as [|ev evs IH]; intros e w Hinv Hall; [constructor|].
  apply Forall_cons in Hall as [Ha Hall]. cbn [run_events fst snd].
  destruct (event_chain inp ev e w Hinv Ha) as [Hc Hcfg].
  eapply chain_trans; [exact Hc|]. pose proof (chain_inv _ _ _ _ Hc Hinv) as Hinv'.
  destruct (st (handle ev (e, w))) as [e' w']. apply IH; [done|]. cbn [fst] in Hcfg. by rewrite Hcfg.
Qed.

(** Accepting a fresh non-skip value claims the stance. *)
Lemma accept_claims entry o e (w : E) :
  val (try_direct_resolution_vote entry true (e, w)) = VoteAccept o ->
  (forall u, entry <> EntrySkip u) ->
  let e' := (st (try_direct_resolution_vote entry true (e, w))).1 in
  is_pruned e (target_view entry) = false /\
  stance (view_state e (target_view entry)) <> SkipVoted /\
  stance (view_state e' (target_view entry)) = NonSkip.
Proof.
  intros Hval Hentry. cbn zeta. unfold try_direct_resolution_vote in *. rewrite bind_run in *.
  cbn [eng val st fst] in *. cbn [negb] in *.
  destruct (is_pruned e (target_view entry)) eqn:Hp; [done|].
  match type of Hval with context [if ?b then mret VoteNever else _] => destruct b end; [done|].
  destruct (stance_excludes e entry) eqn:Hex; [done|].
  rewrite bind_run in *. cbn [val st] in *. destruct (se_meta_entry_status entry (e, w)) as [_ He].
  destruct (meta_entry_status entry (e, w)) as [[] o' [e1 w1]]; cbn [val st fst] in *; try done.
  subst e1.
  assert (Hns : stance (view_state e (target_view entry)) <> SkipVoted).
  { unfold stance_excludes, view_and, view_state in *.
    destruct entry as [u c t|u c t|u]; cbn in *; [..|by destruct (Hentry u)]; rewrite Hp in Hex; cbn in Hex;
      (destruct (views e !! u); [|done]); cbn; case_bool_decide; done. }
  split_and!; [done..|]. rewrite bind_run. cbn [st fst].
  destruct entry as [u c t|u c t|u]; cbn in *; [..|by destruct (Hentry u)].
  all: rewrite bind_run; cbn [eng st val fst mret M_ret];
    rewrite (view_state_lookup _ u _ (lookup_insert_eq _ _ _)); case_decide; [done|];
    destruct (stance (view_state e u)); done.
Qed.
End votes.

(** C29: a party's stance is exclusive.  If an engine accepts a fresh full or core
    value for a view in a resolver vote, it has not sent a SKIP-VOTE for that
    view before, and it sends none after, whatever events follow, including a
    garbage collection of the view. *)
Theorem accepted_vote_excludes_skip {Hash : Hashing} {E} {Env : AgbEnv E} {Laws : AgbEnvLaws E}
    inp cf (s : AgbEngine * E) es entry o evs :
  reaches inp cf s es -> (forall u, entry <> EntrySkip u) ->
  val (try_direct_resolution_vote entry true s) = VoteAccept o ->
  Forall (allowed inp cf) evs ->
  (BroadcastSkipVote (target_view entry) ∉ es) /\
  BroadcastSkipVote (target_view entry) ∉
    (run_events evs (st (try_direct_resolution_vote entry true s))).2.
Proof.
  intros Hr Hentry Hval Hevs. destruct (reaches_history _ _ _ _ Hr) as [Hc [Hlive _]].
  pose proof (reaches_inv _ _ _ _ Hr) as Hinv. destruct s as [e w]. cbn [fst] in *.
  destruct (accept_claims entry o e w Hval Hentry) as (Hp & Hns & Hst). split.
  - intros Hin. destruct (Hlive _ Hin eq_refl) as [Hpr|[Hsv _]]; cbn in *; congruence.
  - destruct (sat_direct_vote inp entry true (e, w) Hinv) as [Hch Hcfg _].
    pose proof (chain_inv _ _ _ _ Hch Hinv) as Hinv'. cbn [fst] in Hcfg.
    destruct (st (try_direct_resolution_vote entry true (e, w))) as [e' w']. cbn [fst] in *.
    eapply (chain_non_skip inp (e', w')); [apply events_chain; [done|by rewrite Hcfg, Hc]|done|].
    right. exact Hst.
Qed.

(** Party 10 timed out in view 1, then resolved it to the core value. *)
Definition refused_events : list Event :=
  [EvEnter 1 0; EvEchoAbsoluteTimer 1; EvReadyTimer 1].

Lemma accepted_vote_excludes_skip_witness :
  let s := (happy_run refused_events).1 in
  let entry := EntryCore 1 [(20, 1, 100)] [] in
  val (@try_direct_resolution_vote () open_env entry true s) = VoteAccept (Some 0) /\
  BroadcastSkipVote 1 ∉ (happy_run refused_events).2.
Proof.
  intros s entry.
  assert (Hval : val (@try_direct_resolution_vote () open_env entry true s) = VoteAccept (Some 0))
    by (vm_compute; reflexivity).
  split; [exact Hval|].
  apply (@accepted_vote_excludes_skip coded_hashing () open_env open_env_laws any_inputs (config4 10)
    s (happy_run refused_events).2 entry (Some 0) []).
  - apply happy_reaches. vm_compute. reflexivity.
  - discriminate.
  - exact Hval.
  - constructor.
Defined.

(** a provisional READY-mix can always be refined.  In every reachable state,
    when [ready_refinement_candidate] selects a homogeneous grade, the engine's
    own count accepts it and the broadcast follows; and whenever any sender's
    recorded READY-mix is followed by a homogeneous READY for the same digest,
    the initial tally it refines is present.  These are the two conditions the
    source asserts in debug builds. *)
Theorem refinement_admissible {Hash : Hashing} {E} {Env : AgbEnv E} {Laws : AgbEnvLaws E}
    inp cf (s : AgbEngine * E) es v x :
  committee_ok (committee cf) -> digest_injective (sid cf) ->
  reaches inp cf s es -> views s.1 !! v = Some x ->
  (forall d p g, ready_refinement_candidate cf x = Some (d, p, g) ->
     (apply_ready cf (name cf) (ReadyGraded p d g) x).2 = true) /\
  (forall k y z, ready_statements x !! k = Some y -> valid_refinement y z = true ->
     (apply_ready cf k z x).2 = true).
Proof.
  intros Hok Hinj Hr Hx.
  assert (vinv cf v x /\ census cf x) as [Hv [_ Hc]].
  { apply (reaches_views inp cf (fun cf _ => census cf) s es); [..|done|done].
    - intros cf' v'. split; [apply echo_census_default|apply ready_census_default].
    - intros v' y es' y'. by apply vstep_census. }
  assert (Hacc : forall k y z, ready_statements x !! k = Some y -> valid_refinement y z = true ->
     (apply_ready cf k z x).2 = true).
  { intros k y z Hy Hvr. rewrite apply_ready_accepts. unfold ready_admits. rewrite Hy, Hvr. cbn.
    destruct y as [py dy [| |]|]; try done. destruct z as [pz dz gz|]; try done.
    assert (dy = dz) as -> by (destruct gz; cbn in Hvr; try done; lia).
    apply bool_decide_eq_true. destruct (ready_tallies x !! dz) eqn:Ht; [done|].
    pose proof (rc_none _ _ Hc dz Ht k _ Hy) as Hany. cbn in Hany. by rewrite Z.eqb_refl in Hany. }
  split; [|done]. intros d p g (_ & Hown & t & _ & Hg)%refinement_candidate_inv.
  eapply Hacc; [exact Hown|]. destruct Hg as [[-> _]|[-> _]]; cbn; apply Z.eqb_refl.
Qed.

Lemma refinement_admissible_witness :
  ((fun x => size (ready_statements x)) <$> (views (happy_run (take 4 mix_events)).1.1 !! 1)) = Some 1%nat /\
  forall x, views (happy_run (take 4 mix_events)).1.1 !! 1 = Some x ->
  forall k y z, ready_statements x !! k = Some y -> valid_refinement y z = true ->
    (apply_ready (config4 10) k z x).2 = true.
Proof.
  split; [vm_compute; reflexivity | intros x Hx].
  apply (@refinement_admissible coded_hashing () open_env open_env_laws any_inputs (config4 10)
    (happy_run (take 4 mix_events)).1 (happy_run (take 4 mix_events)).2 1 x).
  - exact committee4_ok.
  - apply coded_injective.
  - apply happy_reaches. vm_compute. reflexivity.
  - exact Hx.
Defined.
