(* ===== verification/AgbSafety.v ===== *)
(** Safety of the engine's decisions.

    What a READY, a completion, a direct outcome and a seal rest on; that the
    READY an engine sends does not depend on the iteration order of a
    [HashMap]; and that two correct engines whose correct peers do not
    equivocate never complete or seal directly on different payloads. *)

From S2P Require Import Prelude Committee Types Formed Claim AgbState Agb AgbSteps AgbRefine Fixtures AgbTrace AgbCensus.

(** ** At most one digest gathers a quorum *)

Section quorums.
Context {V : Type} (c : Committee) (Hok : committee_ok c).

Lemma stake_sum_disjoint (P Q : V -> bool) m :
  (forall x, P x = true -> Q x = true -> False) ->
  stake_sum c P m + stake_sum c Q m = stake_sum c (fun x => P x || Q x) m.
Proof.
  intros Hd. unfold stake_sum. rewrite <- map_sum_add. apply map_sum_ext. intros k x _.
  destruct (P x) eqn:HP, (Q x) eqn:HQ; simpl; try lia. by destruct (Hd x).
Qed.

Lemma quorum_majority : 0 < quorum_threshold c /\ total_votes c < 2 * quorum_threshold c.
Proof.
  rewrite quorum_threshold_exact by done. pose proof (total_votes_bounds c Hok) as [H0 _].
  pose proof (Z.div_mod (2 * total_votes c) 3 ltac:(lia)).
  pose proof (Z.mod_pos_bound (2 * total_votes c) 3 ltac:(lia)). lia.
Qed.

(** Exclusive predicates cannot both hold of a quorum. *)
Lemma quorums_overlap (P Q : V -> bool) m :
  quorum_threshold c <= stake_sum c P m -> quorum_threshold c <= stake_sum c Q m ->
  exists k x, m !! k = Some x /\ P x = true /\ Q x = true.
Proof.
  intros HP HQ.
  destruct (decide (selected (fun _ x => P x && Q x) m = ∅)) as [Hemp|Hne].
  - exfalso. pose proof quorum_majority as [_ Hmaj].
    assert (Hle : stake_sum c P m + stake_sum c Q m <= total_votes c); [|lia].
    assert (Heq : stake_sum c P m + stake_sum c Q m = stake_sum c (fun x => P x || Q x) m).
    { unfold stake_sum. rewrite <- map_sum_add. apply map_sum_ext. intros k x Hx.
      destruct (P x) eqn:HPx, (Q x) eqn:HQx; simpl; try lia. exfalso.
      assert (Hk : k ∈ selected (fun _ x => P x && Q x) m).
      { apply elem_of_selected. exists x. split; [done|]. simpl. by rewrite HPx, HQx. }
      rewrite Hemp in Hk. by apply not_elem_of_empty in Hk. }
    rewrite Heq. by apply stake_sum_range.
  - apply set_choose_L in Hne as [k Hk]. apply elem_of_selected in Hk as (x & Hx & Hpq).
    apply andb_true_iff in Hpq as [? ?]. by exists k, x.
Qed.
End quorums.

Lemma echo_any_split c m d :
  stake_sum c (echo_for d true) m + stake_sum c (echo_for d false) m = stake_sum c (echo_any d) m.
Proof.
  rewrite stake_sum_disjoint.
  - unfold stake_sum. apply map_sum_ext. intros k x _. destruct x as [p d' g o|]; [|done]. cbn.
    by destruct (d' =? d), (g =? 1).
  - intros [p d' g o|]; [|done]. cbn. by destruct (d' =? d), (g =? 1).
Qed.

(** The configuration's quorum is the committee's. *)
Definition config_ok (cf : AgbConfig) : Prop :=
  committee_ok (committee cf) /\ quorum cf = quorum_threshold (committee cf).

Lemma agb_config_ok nm c s d cf :
  agb_config nm c s d = Some cf -> committee_ok c -> config_ok cf.
Proof.
  unfold agb_config. destruct (round_robin_new c); [|done]. simpl. intros [= <-] Hok. done.
Qed.

Section candidates.
Context (cf : AgbConfig) (Hcf : config_ok cf).

Lemma tally_ready_quorum s d t g :
  echo_census cf s -> echo_tallies s !! d = Some t -> tally_ready cf t = Some g ->
  quorum cf <= stake_sum (committee cf) (echo_any d) (echo_statements s) /\
  (g = GOne -> quorum cf <= stake_sum (committee cf) (echo_for d true) (echo_statements s)) /\
  (g = GZero -> quorum cf <= stake_sum (committee cf) (echo_for d false) (echo_statements s)).
Proof.
  destruct Hcf as [Hok Hq]. intros Hc Ht. destruct (ec_tally _ _ Hc d t Ht) as [T1 T2 _ _ _ _].
  unfold tally_ready. rewrite T1, T2.
  pose proof (stake_sum_range (committee cf) (echo_any d) (echo_statements s) Hok).
  pose proof (total_votes_bounds _ Hok). pose proof (echo_any_split (committee cf) (echo_statements s) d).
  rewrite u32_add_small by lia.
  destruct (Z.ltb_spec (stake_sum (committee cf) (echo_for d true) (echo_statements s) +
    stake_sum (committee cf) (echo_for d false) (echo_statements s)) (quorum cf)); [done|].
  destruct (ready_guard cf t); [|done]. cbn [negb].
  destruct (Z.leb_spec (quorum cf) (stake_sum (committee cf) (echo_for d true) (echo_statements s)));
    [|destruct (Z.leb_spec (quorum cf) (stake_sum (committee cf) (echo_for d false) (echo_statements s)))];
    intros [= <-]; split_and!; try done; lia.
Qed.

Lemma ready_digest_unique s d d' t t' g g' :
  echo_census cf s -> echo_tallies s !! d = Some t -> echo_tallies s !! d' = Some t' ->
  tally_ready cf t = Some g -> tally_ready cf t' = Some g' -> d = d'.
Proof.
  intros Hc Ht Ht' Hg Hg'.
  destruct (tally_ready_quorum s d t g Hc Ht Hg) as [Hq _].
  destruct (tally_ready_quorum s d' t' g' Hc Ht' Hg') as [Hq' _].
  destruct Hcf as [Hok Heq]. rewrite Heq in *.
  destruct (quorums_overlap _ Hok _ _ _ Hq Hq') as (k & x & _ & Hx & Hx').
  destruct x as [p dx gx o|]; [|done]. cbn in Hx, Hx'. lia.
Qed.

Lemma find_ready_unique l d t g :
  (d, t) ∈ l -> tally_ready cf t = Some g ->
  (forall d' t' g', (d', t') ∈ l -> tally_ready cf t' = Some g' -> (d', t') = (d, t)) ->
  find_ready cf l = Some (d, et_proposal t, g).
Proof.
  induction l as [|[d' t'] l IH]; intros Hin Hg Huniq; [by apply elem_of_nil in Hin|].
  simpl. destruct (tally_ready cf t') as [g'|] eqn:Hg'.
  - assert ((d', t') = (d, t)) as [= -> ->] by (eapply Huniq; [by left|done]). congruence.
  - apply IH; [|done|].
    + apply elem_of_cons in Hin as [[= -> ->]|]; [congruence|done].
    + intros d2 t2 g2 H2. apply Huniq. by right.
Qed.

Lemma find_ready_some l d t g :
  (d, t) ∈ l -> tally_ready cf t = Some g -> is_Some (find_ready cf l).
Proof.
  intros Hin Hg. induction l as [|[d' t'] l IH]; [by apply elem_of_nil in Hin|]. simpl.
  apply elem_of_cons in Hin as [[= <- <-]|Hin]; [by rewrite Hg|].
  destruct (tally_ready cf t'); [done|by apply IH].
Qed.

Lemma find_ready_none l :
  (forall d t, (d, t) ∈ l -> tally_ready cf t = None) -> find_ready cf l = None.
Proof.
  induction l as [|[d t] l IH]; intros Hl; [done|]. simpl. rewrite (Hl d t) by by left.
  apply IH. intros. eapply Hl. by right.
Qed.

Lemma find_ready_perm s l :
  echo_census cf s -> l ≡ₚ map_to_list (echo_tallies s) -> find_ready cf l = ready_candidate cf s.
Proof.
  intros Hc Hl. assert (Hin : forall d t, (d, t) ∈ l <-> echo_tallies s !! d = Some t).
  { intros d t. rewrite Hl. apply elem_of_map_to_list. }
  unfold ready_candidate. set (l0 := map_to_list (echo_tallies s)) in *.
  destruct (ready_candidate cf s) as [[[d p] g]|] eqn:Hcand.
  - apply ready_candidate_inv in Hcand as (t & Ht & -> & Hg).
    assert (Huniq : forall d' t' g', echo_tallies s !! d' = Some t' -> tally_ready cf t' = Some g' ->
      (d', t') = (d, t)).
    { intros d' t' g' Ht' Hg'. assert (d' = d) as -> by (by apply (ready_digest_unique s d' d t' t g' g)).
      congruence. }
    trans (Some (d, et_proposal t, g)).
    + apply find_ready_unique; [by apply Hin|done|]. intros d' t' g' H'%Hin. by eapply Huniq.
    + symmetry. apply find_ready_unique; [by apply elem_of_map_to_list|done|].
      intros d' t' g' H'%elem_of_map_to_list. by eapply Huniq.
  - assert (Hnone : forall d t, echo_tallies s !! d = Some t -> tally_ready cf t = None).
    { intros d t Ht. destruct (tally_ready cf t) as [g|] eqn:Hg; [|done]. exfalso.
      unfold ready_candidate in Hcand. apply elem_of_map_to_list in Ht.
      destruct (find_ready_some _ _ _ _ Ht Hg). congruence. }
    rewrite !find_ready_none; [done|..].
    + intros d t Ht%elem_of_map_to_list. by eapply Hnone.
    + intros d t Ht%Hin. by eapply Hnone.
Qed.
End candidates.

(** The READY candidate is deterministic.  [ready_candidate] scans the echo
    tallies of a view in the unspecified order of a [HashMap]; in every
    reachable state at most one digest has a stake quorum of echoes, so every
    scan order selects the same digest, proposal and grade. *)
Theorem find_ready_order_independent {Hash : Hashing} {E} {Env : AgbEnv E} {Laws : AgbEnvLaws E}
    inp cf (s : AgbEngine * E) es v x l :
  config_ok cf -> digest_injective (sid cf) ->
  reaches inp cf s es -> views s.1 !! v = Some x ->
  l ≡ₚ map_to_list (echo_tallies x) -> find_ready cf l = ready_candidate cf x.
Proof.
  intros Hcf Hinj Hr Hx Hl. apply find_ready_perm; [done| |done].
  assert (vinv cf v x /\ census cf x) as [_ [He _]]; [|done].
  apply (reaches_views inp cf (fun cf _ => census cf) s es); [..|done|done].
  - intros cf' v'. split; [apply echo_census_default|apply ready_census_default].
  - intros v' y es' y'. apply vstep_census; [apply Hcf|done].
Qed.

Lemma config4_ok nm : config_ok (config4 nm).
Proof. split; [exact committee4_ok|vm_compute; reflexivity]. Qed.

Definition ready_grade_of (x : ViewState) : option ReadyGrade :=
  (fun r => r.2) <$> ready_candidate (config4 10) x.

Lemma find_ready_order_independent_witness :
  (ready_grade_of <$> (views (happy_run mix_events).1.1 !! 1)) = Some (Some GOne) /\
  forall x, views (happy_run mix_events).1.1 !! 1 = Some x ->
    find_ready (config4 10) (reverse (map_to_list (echo_tallies x))) = ready_candidate (config4 10) x.
Proof.
  split; [vm_compute; reflexivity | intros x Hx].
  apply (@find_ready_order_independent coded_hashing () open_env open_env_laws any_inputs
    (config4 10) (happy_run mix_events).1 (happy_run mix_events).2 1 x).
  - apply config4_ok.
  - apply coded_injective.
  - apply happy_reaches. vm_compute. reflexivity.
  - exact Hx.
  - apply reverse_Permutation.
Defined.

(** ** What decisions rest on *)

Section justified.
Context {Hash : Hashing} (inp : Inputs).

Record justified (cf : AgbConfig) (v : View) (s : ViewState) : Prop := {
  ju_ready p d g : ready_statements s !! name cf = Some (ReadyGraded p d g) ->
    quorum cf <= stake_sum (committee cf) (echo_any d) (echo_statements s) /\
    (g = GOne -> quorum cf <= stake_sum (committee cf) (echo_for d true) (echo_statements s)) /\
    (g = GZero -> quorum cf <= stake_sum (committee cf) (echo_for d false) (echo_statements s));
  ju_completed c t : completed s = Some (c, t) -> exists p d, canonical cf v p d /\
    p_c p = c /\ p_t p = t /\
    quorum cf <= stake_sum (committee cf) (ready_any d) (ready_statements s);
  ju_directed o : directed s = Some o -> exists p d, canonical cf v p d /\
    (o = OFull (p_c p) (p_t p) /\
       quorum cf <= stake_sum (committee cf) (ready_for d GOne) (ready_statements s) \/
     o = OCore (p_c p) /\
       quorum cf <= stake_sum (committee cf) (ready_for d GZero) (ready_statements s));
  ju_sealed o : sealed s = Some o -> directed s = Some o \/
    (exists p d, canonical cf v p d /\ o = OFull (p_c p) (p_t p) /\
       cfg_n cf <= party_count (echo_for d true) (echo_statements s)) \/
    (o = OSkip /\ quorum_parties cf <= Z.of_nat (size (skip_vote_statements s))) \/
    in_resolved inp v o;
  ju_skip : stance s = SkipVoted ->
    quorum_parties cf <= party_count echo_is_skip (echo_statements s);
}.

(** Evidence only grows. *)
Record grows (c : Committee) (s s' : ViewState) : Prop := {
  gr_echo P : stake_sum c P (echo_statements s) <= stake_sum c P (echo_statements s');
  gr_parties P : party_count P (echo_statements s) <= party_count P (echo_statements s');
  gr_ready d : stake_sum c (ready_any d) (ready_statements s) <=
    stake_sum c (ready_any d) (ready_statements s');
  gr_ready_for d g : g <> GMix -> stake_sum c (ready_for d g) (ready_statements s) <=
    stake_sum c (ready_for d g) (ready_statements s');
  gr_skip : skip_vote_statements s ⊆ skip_vote_statements s';
}.

Lemma grows_same c s s' :
  echo_statements s' = echo_statements s -> ready_statements s' = ready_statements s ->
  skip_vote_statements s ⊆ skip_vote_statements s' -> grows c s s'.
Proof. intros He Hr Hs. split; rewrite ?He, ?Hr; done. Qed.

Lemma grows_echo cf s k x :
  committee_ok (committee cf) -> echo_statements s !! k = None ->
  grows (committee cf) s (apply_echo cf k x s).
Proof.
  intros Hok Hk. rewrite apply_echo_shape. split; cbn; try done; intros P.
  - rewrite stake_sum_insert_None by done. pose proof (stake_nonneg _ Hok k). destruct (P x); lia.
  - rewrite party_count_insert_None by done. destruct (P x); cbn; lia.
Qed.

Lemma grows_ready cf s k x :
  committee_ok (committee cf) -> grows (committee cf) s (apply_ready cf k x s).1.
Proof.
  intros Hok. rewrite apply_ready_shape. destruct (ready_admits k x s) eqn:Ha; [|by apply grows_same].
  pose proof (stake_nonneg _ Hok k) as Hst. unfold ready_admits in Ha.
  assert (Hmono : forall P, (forall y, ready_statements s !! k = Some y -> P y = true -> P x = true) ->
    stake_sum (committee cf) P (ready_statements s) <=
    stake_sum (committee cf) P (<[ k := x ]> (ready_statements s))).
  { intros P HP. destruct (ready_statements s !! k) as [y|] eqn:Hk.
    - rewrite (stake_sum_insert_Some _ P _ k x y Hk). specialize (HP y eq_refl).
      destruct (P y); [rewrite HP by done; lia|]. destruct (P x); lia.
    - rewrite stake_sum_insert_None by done. destruct (P x); lia. }
  assert (Hmix : forall y, ready_statements s !! k = Some y ->
    exists p p' d g, y = ReadyGraded p d GMix /\ x = ReadyGraded p' d g).
  { intros y Hy. rewrite Hy in Ha. destruct y as [p d [| |]|]; try done.
    destruct x as [p' d' [| |]|]; try done; simpl in Ha; apply andb_true_iff in Ha as [Hd _];
      apply Z.eqb_eq in Hd; subst; eauto 10. }
  split; cbn; try done.
  - intros d. apply Hmono. intros y (p & p' & d' & g & -> & ->)%Hmix. done.
  - intros d g Hg. apply Hmono. intros y (p & p' & d' & g' & -> & ->)%Hmix. cbn.
    by rewrite (bool_decide_eq_false_2 (GMix = g)), andb_false_r by done.
Qed.

Lemma vstep_grows cf v s es s' :
  committee_ok (committee cf) -> vstep inp cf v s es s' -> grows (committee cf) s s'.
Proof.
  intros Hok Hstep. destruct Hstep; try (apply grows_same; cbn; set_solver).
  - by apply grows_echo.
  - by apply grows_echo.
  - destruct (grows_ready cf (s <| ready_sent := true |> <| ready_mix_open := bool_decide (g = GMix) |>)
      (name cf) (ReadyGraded p d g) Hok) as [? ? ? ? ?]. by split.
  - destruct (grows_ready cf (s <| ready_sent := true |>) (name cf) NoReady Hok) as [? ? ? ? ?]. by split.
  - destruct (grows_ready cf s (name cf) (ReadyGraded p d g) Hok) as [? ? ? ? ?]. by split.
  - by apply grows_ready.
Qed.

(** Old decisions stay justified when the evidence grows; new ones are
    justified by the step that takes them. *)
Lemma justified_grows cf v s s' :
  grows (committee cf) s s' -> justified cf v s ->
  (forall p d g, ready_statements s' !! name cf = Some (ReadyGraded p d g) ->
     ready_statements s !! name cf = Some (ReadyGraded p d g) \/
     quorum cf <= stake_sum (committee cf) (echo_any d) (echo_statements s') /\
     (g = GOne -> quorum cf <= stake_sum (committee cf) (echo_for d true) (echo_statements s')) /\
     (g = GZero -> quorum cf <= stake_sum (committee cf) (echo_for d false) (echo_statements s'))) ->
  (forall ct, completed s' = Some ct -> completed s = Some ct \/
     exists p d, canonical cf v p d /\ p_c p = ct.1 /\ p_t p = ct.2 /\
     quorum cf <= stake_sum (committee cf) (ready_any d) (ready_statements s')) ->
  (forall o, directed s' = Some o -> directed s = Some o \/
     exists p d, canonical cf v p d /\
     (o = OFull (p_c p) (p_t p) /\
        quorum cf <= stake_sum (committee cf) (ready_for d GOne) (ready_statements s') \/
      o = OCore (p_c p) /\
        quorum cf <= stake_sum (committee cf) (ready_for d GZero) (ready_statements s'))) ->
  (forall o, directed s = Some o -> directed s' = Some o) ->
  (forall o, sealed s' = Some o -> sealed s = Some o \/ directed s' = Some o \/
    (exists p d, canonical cf v p d /\ o = OFull (p_c p) (p_t p) /\
       cfg_n cf <= party_count (echo_for d true) (echo_statements s')) \/
    (o = OSkip /\ quorum_parties cf <= Z.of_nat (size (skip_vote_statements s'))) \/
    in_resolved inp v o) ->
  (stance s' = SkipVoted -> stance s = SkipVoted \/
    quorum_parties cf <= party_count echo_is_skip (echo_statements s')) ->
  justified cf v s'.
Proof.
  intros [G1 G2 G3 G4 G5] [J1 J2 J3 J4 J5] H1 H2 H3 H3' H4 H5. split.
  - intros p d g [Hold|Hnew]%H1; [|done]. destruct (J1 p d g Hold) as (Q1 & Q2 & Q3).
    pose proof (G1 (echo_any d)). pose proof (G1 (echo_for d true)). pose proof (G1 (echo_for d false)).
    split_and!; [lia|intros Hg; specialize (Q2 Hg); lia|intros Hg; specialize (Q3 Hg); lia].
  - intros c t [Hold|Hnew]%H2; [|done]. destruct (J2 c t Hold) as (p & d & ? & ? & ? & ?).
    exists p, d. split_and!; try done. pose proof (G3 d). lia.
  - intros o [Hold|Hnew]%H3; [|done]. destruct (J3 o Hold) as (p & d & Hc & Hq).
    exists p, d. split; [done|]. pose proof (G4 d GOne ltac:(done)). pose proof (G4 d GZero ltac:(done)).
    destruct Hq as [[? ?]|[? ?]]; [left|right]; (split; [done|lia]).
  - intros o [Hold|Hnew]%H4; [|done].
    destruct (J4 o Hold) as [Hd|[(p & d & ? & ? & ?)|[[? ?]|?]]].
    + left. by apply H3'.
    + right; left. exists p, d. pose proof (G2 (echo_for d true)). split_and!; try done. lia.
    + right; right; left. apply subseteq_size in G5. split; [done|lia].
    + by right; right; right.
  - intros [Hold|Hnew]%H5; [|done]. pose proof (G2 echo_is_skip). specialize (J5 Hold). lia.
Qed.

Lemma justified_default cf v : justified cf v vs_default.
Proof. by split. Qed.

Lemma vstep_justified cf v s es s' :
  config_ok cf -> vstep inp cf v s es s' -> vinv cf v s -> census cf s ->
  justified cf v s -> justified cf v s'.
Proof.
  intros Hcf Hstep Hv [He Hr] Hj. pose proof Hcf as [Hok Hq].
  pose proof (vstep_grows cf v s es s' Hok Hstep) as Hg.
  apply (justified_grows cf v s s' Hg Hj); destruct Hstep; clear Hg;
    rewrite ?apply_echo_shape, ?apply_ready_shape;
    try match goal with |- context [ready_admits ?k ?x ?s] =>
      destruct (ready_admits k x s) eqn:Ha end;
    cbn; try solve [done|by intros; left].
  - (* own READY *)
    intros p' d' g'. rewrite lookup_insert_eq. intros [= <- <- <-]. right.
    apply ready_candidate_inv in H1 as (t & Ht & -> & Hgr). by eapply tally_ready_quorum.
  - (* NO-READY *)
    intros p' d' g'. by rewrite lookup_insert_eq.
  - (* refinement *)
    intros p' d' g'. rewrite lookup_insert_eq. intros [= <- <- <-]. right.
    apply refinement_candidate_inv in H as (_ & Hown & t & Ht & Hgr).
    destruct (ju_ready _ _ _ Hj _ _ _ Hown) as (Q1 & _ & _).
    destruct (ec_tally _ _ He d t Ht) as [T1 T2 _ _ _ _]. rewrite <- T1, <- T2.
    destruct Hgr as [[-> ?]|[-> ?]]; split_and!; done.
  - (* a remote READY *)
    intros p d g. rewrite lookup_insert_ne by done. by left.
  - (* completion *)
    intros ct [= <-]. right. exists (rt_proposal tally), d. cbn. split_and!; [|done..|].
    + by apply (vi_rtally _ _ _ Hv).
    + destruct (rc_tally _ _ Hr d tally H0) as [R1 _ _]. by rewrite <- R1.
  - (* direct outcome *)
    intros o' [= <-]. right. exists (rt_proposal tally), d. split; [by apply (vi_rtally _ _ _ Hv)|].
    destruct (rc_tally _ _ Hr d tally H0) as [_ R2 R3]. rewrite <- R2, <- R3.
    destruct H1 as [[? ->]|[? ->]]; [left|right]; done.
  - (* the direct outcome is set once *) intros o' Ho'. congruence.
  - (* seal *)
    intros o' [= <-]. right. destruct H0 as [?|[(l & Hl & _ & Hm & ->)|[?|?]]]; [by left| |by auto..].
    right; left. destruct (vi_lock _ _ _ Hv l Hl) as [_ Hf].
    destruct (vi_fixed _ _ _ Hv _ _ Hf) as [Hcan _].
    exists (lock_proposal l), (lock_digest l). split_and!; [done..|].
    unfold matching_echoes in Hm. rewrite <- Hm.
    destruct (echo_tallies s !! lock_digest l) as [t|] eqn:Ht.
    + destruct (ec_tally _ _ He _ t Ht) as [_ _ T3 _ _ _]. by rewrite T3.
    + apply map_sum_nonneg. intros k x _. by destruct (echo_for _ _ _).
  - (* skip vote *)
    intros _. right. by rewrite <- (ec_skip _ _ He).
Qed.
End justified.

(** The census and the justification of every view of a reachable engine. *)
Lemma reaches_justified {Hash : Hashing} {E} {Env : AgbEnv E} {Laws : AgbEnvLaws E}
    inp cf (s : AgbEngine * E) es v x :
  config_ok cf -> digest_injective (sid cf) ->
  reaches inp cf s es -> views s.1 !! v = Some x ->
  vinv cf v x /\ census cf x /\ justified inp cf v x.
Proof.
  intros Hcf Hinj Hr Hx.
  assert (vinv cf v x /\ (fun cf v x => census cf x /\ justified inp cf v x) cf v x) as [? []]; [|done].
  apply (reaches_views inp cf (fun cf v x => census cf x /\ justified inp cf v x) s es);
    [..|done|done].
  - intros cf' v'. split; [|apply justified_default].
    split; [apply echo_census_default|apply ready_census_default].
  - intros v' y es' y' Hstep Hv [Hc Hj]. split.
    + eapply vstep_census; [apply Hcf|done..].
    + by eapply vstep_justified.
Qed.

(** C23: every decision rests on evidence.  In a reachable state, an own READY is
    backed by a stake quorum of recorded ECHOs for its proposal, of matching
    grade when it is homogeneous; a completion by a stake quorum of READYs for
    one proposal carrying its payload; a direct outcome by a quorum of READYs
    of one grade; a seal by the direct outcome, by grade-1 ECHOs of all [n]
    parties, by [n - f] SKIP-VOTEs or by the resolver; and an own SKIP-VOTE by
    [n - f] ECHO-SKIPs. *)
Theorem decisions_justified {Hash : Hashing} {E} {Env : AgbEnv E} {Laws : AgbEnvLaws E}
    inp cf (s : AgbEngine * E) es v x :
  config_ok cf -> digest_injective (sid cf) ->
  reaches inp cf s es -> views s.1 !! v = Some x -> justified inp cf v x.
Proof. intros Hcf Hinj Hr Hx. by apply (reaches_justified inp cf s es v x Hcf Hinj Hr Hx). Qed.

Lemma decisions_justified_witness :
  (x ← views (happy_run happy_events).1.1 !! 1; sealed x) =
    Some (OFull [(20, 1, 100)] [(30, 2, 101)]) /\
  forall x, views (happy_run happy_events).1.1 !! 1 = Some x ->
    @justified coded_hashing any_inputs (config4 10) 1 x.
Proof.
  split; [vm_compute; reflexivity|]. intros x Hx.
  apply (@decisions_justified coded_hashing () open_env open_env_laws any_inputs (config4 10)
    (happy_run happy_events).1 (happy_run happy_events).2 1 x).
  - apply config4_ok.
  - apply coded_injective.
  - apply happy_reaches. vm_compute. reflexivity.
  - exact Hx.
Defined.
