(* ===== verification/AgbNetwork.v ===== *)
(** Agreement between the engines of a committee.

    A network of engines, one per correct party, exchanges the messages they
    broadcast; the other parties are Byzantine and may say anything to anyone.
    Messages between correct parties may be delayed, reordered, duplicated or
    lost, but not forged: channels are authenticated.  The theorems show that
    correct parties never complete, or seal without the resolver, on different
    outcomes of a view. *)

From S2P Require Import Prelude Committee Types Formed Claim AgbState Agb AgbSteps AgbRefine Fixtures AgbTrace AgbCensus AgbSafety.

(** ** Where recorded statements come from *)

Section sources.
Context {Hash : Hashing}.

(** Remote statements are inputs. *)
Record sourced (inp : Inputs) (cf : AgbConfig) (v : View) (s : ViewState) : Prop := {
  so_echo k x : k <> name cf -> echo_statements s !! k = Some x -> said_echo inp v k x;
  so_ready k x : k <> name cf -> ready_statements s !! k = Some x -> said_ready inp v k x;
  so_skip k : k <> name cf -> k ∈ skip_vote_statements s -> said_skip inp v k;
}.

Lemma lookup_apply_ready cf k x s j y :
  ready_statements (apply_ready cf k x s).1 !! j = Some y ->
  ready_statements s !! j = Some y \/ (j = k /\ y = x).
Proof.
  rewrite apply_ready_shape. destruct (ready_admits k x s); cbn; [|by left].
  destruct (decide (k = j)) as [<-|]; [rewrite lookup_insert_eq|rewrite lookup_insert_ne by done];
    naive_solver.
Qed.

Lemma lookup_apply_echo cf k x s j y :
  echo_statements (apply_echo cf k x s) !! j = Some y ->
  echo_statements s !! j = Some y \/ (j = k /\ y = x).
Proof.
  rewrite apply_echo_shape. cbn.
  destruct (decide (k = j)) as [<-|]; [rewrite lookup_insert_eq|rewrite lookup_insert_ne by done];
    naive_solver.
Qed.

Lemma apply_ready_other cf k x s :
  let s' := (apply_ready cf k x s).1 in
  echo_statements s' = echo_statements s /\ skip_vote_statements s' = skip_vote_statements s.
Proof. cbn zeta. rewrite apply_ready_shape. by destruct (ready_admits k x s). Qed.

Lemma apply_echo_other cf k x s :
  let s' := apply_echo cf k x s in
  ready_statements s' = ready_statements s /\ skip_vote_statements s' = skip_vote_statements s.
Proof. cbn zeta. by rewrite apply_echo_shape. Qed.

(** A step adds at most one statement: an own one, which it broadcasts, or a
    remote one, which is an input. *)
Lemma vstep_sources inp cf v s es s' :
  vstep inp cf v s es s' -> vinv cf v s ->
  (forall k x, echo_statements s' !! k = Some x -> echo_statements s !! k = Some x \/
     (k = name cf /\ echo_message cf v x ∈ es) \/ (k <> name cf /\ said_echo inp v k x)) /\
  (forall k x, ready_statements s' !! k = Some x -> ready_statements s !! k = Some x \/
     (k = name cf /\ ready_message cf v x ∈ es) \/ (k <> name cf /\ said_ready inp v k x)) /\
  (forall k, k ∈ skip_vote_statements s' -> k ∈ skip_vote_statements s \/
     (k = name cf /\ BroadcastSkipVote v ∈ es) \/ (k <> name cf /\ said_skip inp v k)).
Proof.
  intros Hstep Hv.
  destruct Hstep; try (split_and!; cbn; by auto).
  - destruct (apply_echo_other cf (name cf) x s) as [-> ->]. split_and!; [|by auto..].
    intros k y [Hy|[-> ->]]%lookup_apply_echo; [by left|right; left]. split; [done|set_solver].
  - destruct (apply_echo_other cf sender x s) as [-> ->]. split_and!; [|by auto..].
    intros k y [Hy|[-> ->]]%lookup_apply_echo; [by left|by right; right].
  - destruct (apply_ready_other cf (name cf) (ReadyGraded p d g)
      (s <| ready_sent := true |> <| ready_mix_open := bool_decide (g = GMix) |>)) as [-> ->].
    split_and!; [by auto| |by auto].
    intros k y [Hy|[-> ->]]%lookup_apply_ready; [by left|right; left]. split; [done|set_solver].
  - destruct (apply_ready_other cf (name cf) NoReady (s <| ready_sent := true |>)) as [-> ->].
    split_and!; [by auto| |by auto].
    intros k y [Hy|[-> ->]]%lookup_apply_ready; [by left|right; left]. split; [done|set_solver].
  - destruct (apply_ready_other cf (name cf) (ReadyGraded p d g) s) as [He Hs]. cbn. rewrite He, Hs.
    split_and!; [by auto| |by auto].
    intros k y [Hy|[-> ->]]%lookup_apply_ready; [by left|right; left]. split; [done|set_solver].
  - destruct (apply_ready_other cf sender x s) as [-> ->]. split_and!; [by auto| |by auto].
    intros k y [Hy|[-> ->]]%lookup_apply_ready; [by left|by right; right].
  - split_and!; cbn; [by auto..|]. intros k [->%elem_of_singleton|]%elem_of_union; [|by left].
    right; left. split; [done|set_solver].
  - split_and!; cbn; [by auto..|]. intros k [->%elem_of_singleton|]%elem_of_union; [|by left].
    by right; right.
Qed.

(** The own recorded statements were broadcast. *)
Definition broadcast_own (es : list Effect) (e : AgbEngine) : Prop :=
  forall v s, views e !! v = Some s ->
  (forall x, echo_statements s !! name (cfg e) = Some x -> echo_message (cfg e) v x ∈ es) /\
  (forall x, ready_statements s !! name (cfg e) = Some x -> ready_message (cfg e) v x ∈ es) /\
  (name (cfg e) ∈ skip_vote_statements s -> BroadcastSkipVote v ∈ es).

Lemma estep_broadcast_own {E} inp (s s' : AgbEngine * E) es hist :
  estep inp s es s' -> inv s.1 -> broadcast_own hist s.1 -> broadcast_own (hist ++ es) s'.1.
Proof.
  intros Hstep Hinv Hb.
  destruct Hstep as [e v es s' w w' Hp Hv|e e' w w' es Hc Hvi Hm Hfor|e w floor]; simpl in *.
  - intros u x. cbn. destruct (decide (v = u)) as [<-|].
    + rewrite lookup_insert_eq. intros [= <-].
      assert (Hold : (forall x, echo_statements (view_state e v) !! name (cfg e) = Some x ->
          echo_message (cfg e) v x ∈ hist) /\
        (forall x, ready_statements (view_state e v) !! name (cfg e) = Some x ->
          ready_message (cfg e) v x ∈ hist) /\
        (name (cfg e) ∈ skip_vote_statements (view_state e v) -> BroadcastSkipVote v ∈ hist)).
      { unfold view_state. destruct (views e !! v) as [y|] eqn:Hy; [by apply (Hb v)|].
        cbn. split_and!; [intros x; by rewrite lookup_empty..|]. set_solver. }
      destruct Hold as (O1 & O2 & O3).
      destruct (vstep_sources _ _ _ _ _ _ Hv (inv_view_state e v Hinv)) as (S1 & S2 & S3).
      split_and!.
      * intros x [?%O1|[[_ ?]|[? _]]]%S1; [apply elem_of_app; by left|apply elem_of_app; by right|done].
      * intros x [?%O2|[[_ ?]|[? _]]]%S2; [apply elem_of_app; by left|apply elem_of_app; by right|done].
      * intros [?%O3|[[_ ?]|[? _]]]%S3; [apply elem_of_app; by left|apply elem_of_app; by right|done].
    + rewrite lookup_insert_ne by done. intros (B1 & B2 & B3)%Hb.
      split_and!; intros; apply elem_of_app; left; auto.
  - intros v x. rewrite Hc, Hvi. intros (B1 & B2 & B3)%Hb.
    split_and!; intros; apply elem_of_app; left; auto.
  - intros v x [Hx _]%gc_below_lookup. rewrite cfg_gc_below, app_nil_r. by apply Hb.
Qed.

Lemma chain_broadcast_own {E} inp (s s' : AgbEngine * E) es hist :
  chain inp s es s' -> inv s.1 -> broadcast_own hist s.1 -> broadcast_own (hist ++ es) s'.1.
Proof.
  intros Hc. revert hist. induction Hc as [|s1 s2 s3 es1 es2 Hstep Hc IH]; intros hist Hinv Hh.
  - by rewrite app_nil_r.
  - rewrite (assoc_L (++)). apply IH; [by eapply estep_inv|by eapply estep_broadcast_own].
Qed.

Lemma vstep_sourced inp cf v s es s' :
  vstep inp cf v s es s' -> vinv cf v s -> sourced inp cf v s -> sourced inp cf v s'.
Proof.
  intros Hstep Hv [S1 S2 S3].
  destruct (vstep_sources _ _ _ _ _ _ Hstep Hv) as (N1 & N2 & N3). split.
  - intros k x Hk [?|[[? _]|[_ ?]]]%N1; [by apply S1|done..].
  - intros k x Hk [?|[[? _]|[_ ?]]]%N2; [by apply S2|done..].
  - intros k Hk [?|[[? _]|[_ ?]]]%N3; [by apply S3|done..].
Qed.
End sources.

Lemma reaches_sources {Hash : Hashing} {E} {Env : AgbEnv E} {Laws : AgbEnvLaws E}
    inp cf (s : AgbEngine * E) es v x :
  reaches inp cf s es -> views s.1 !! v = Some x ->
  sourced inp cf v x /\
  (forall y, echo_statements x !! name cf = Some y -> echo_message cf v y ∈ es) /\
  (forall y, ready_statements x !! name cf = Some y -> ready_message cf v y ∈ es) /\
  (name cf ∈ skip_vote_statements x -> BroadcastSkipVote v ∈ es).
Proof.
  intros Hr Hx. split.
  - apply (reaches_views inp cf (sourced inp) s es); [..|done|done].
    + intros cf' v'. split; cbn; intros *; rewrite ?lookup_empty; set_solver.
    + apply vstep_sourced.
  - apply reaches_chain in Hr as [Hc (w & Hch)]. rewrite <- Hc.
    apply (chain_broadcast_own inp _ _ es [] Hch (inv_init cf)); [|done].
    intros u y. cbn. by rewrite lookup_empty.
Qed.

(** ** Snapshots *)

(** At the time an engine emitted [y] for view [v], the view's state satisfied
    every invariant, recorded [y], and had its own statements broadcast. *)
Record snapshot {Hash : Hashing} (inp : Inputs) (cf : AgbConfig) (es : list Effect) (v : View)
    (y : Effect) (x : ViewState) : Prop := {
  sn_inv : vinv cf v x;
  sn_just : justified inp cf v x;
  sn_src : sourced inp cf v x;
  sn_rec : consistent cf x y;
  sn_echo z : echo_statements x !! name cf = Some z -> echo_message cf v z ∈ es;
  sn_ready z : ready_statements x !! name cf = Some z -> ready_message cf v z ∈ es;
  sn_skip : name cf ∈ skip_vote_statements x -> BroadcastSkipVote v ∈ es;
}.

Section snapshots.
Context {Hash : Hashing} {E : Type} (inp : Inputs) (cf : AgbConfig).
Context (Hcf : config_ok cf) (Hinj : digest_injective (sid cf)).

Lemma snapshot_mono es es' v y x :
  (forall z, z ∈ es -> z ∈ es') -> snapshot inp cf es v y x -> snapshot inp cf es' v y x.
Proof. intros Hsub [? ? ? ? ? ? ?]. split; auto. Qed.

(** The invariants of all views, with the snapshots taken so far. *)
Record snap_ok (es : list Effect) (e : AgbEngine) : Prop := {
  sk_inv : inv e;
  sk_cfg : cfg e = cf;
  sk_views v x : views e !! v = Some x ->
    census cf x /\ justified inp cf v x /\ sourced inp cf v x;
  sk_own : broadcast_own es e;
  sk_snap y : y ∈ es -> foreign y = false -> exists x, snapshot inp cf es (effect_view y) y x;
}.

Lemma default_good v : census cf vs_default /\ justified inp cf v vs_default /\
  sourced inp cf v vs_default.
Proof.
  split_and!; [|apply justified_default|].
  - split; [apply echo_census_default|apply ready_census_default].
  - split; cbn; intros *; rewrite ?lookup_empty; set_solver.
Qed.

Lemma estep_snap (s s' : AgbEngine * E) es hist :
  estep inp s es s' -> snap_ok hist s.1 -> snap_ok (hist ++ es) s'.1.
Proof.
  intros Hstep [Hinv Hc Hv Hown Hsnap].
  pose proof (estep_inv _ _ _ _ Hstep Hinv) as Hinv'.
  pose proof (estep_broadcast_own _ _ _ _ _ Hstep Hinv Hown) as Hown'.
  assert (Hold : forall y, y ∈ hist -> foreign y = false ->
    exists x, snapshot inp cf (hist ++ es) (effect_view y) y x).
  { intros y Hy Hf. destruct (Hsnap y Hy Hf) as [x Hx]. exists x.
    eapply snapshot_mono; [|exact Hx]. set_solver. }
  destruct Hstep as [e v es s' w w' Hp Hvs|e e' w w' es Hce Hvi Hm Hfor|e w floor]; simpl in *.
  - pose proof (inv_view_state e v Hinv) as Hvi. rewrite Hc in Hvs, Hvi.
    assert (Hgood : census cf (view_state e v) /\ justified inp cf v (view_state e v) /\
      sourced inp cf v (view_state e v)).
    { unfold view_state. destruct (views e !! v) eqn:Hx; [by apply Hv|apply default_good]. }
    destruct Hgood as (Hce & Hj & Hso).
    assert (Hgood' : census cf s' /\ justified inp cf v s' /\ sourced inp cf v s').
    { split_and!; [eapply vstep_census; [apply Hcf|done..]|by eapply vstep_justified|
        by eapply vstep_sourced]. }
    split; [done|done| |done|].
    + intros u x. cbn. destruct (decide (v = u)) as [<-|].
      * rewrite lookup_insert_eq. by intros [= <-].
      * rewrite lookup_insert_ne by done. apply Hv.
    + intros y [Hy|Hy]%elem_of_app Hf; [by apply Hold|].
      destruct (vstep_emits _ _ _ _ _ _ y Hvs Hvi Hy Hf) as [-> Hrec]. exists s'.
      destruct (Hown' v s') as (B1 & B2 & B3); [cbn; by rewrite lookup_insert_eq|].
      cbn in B1, B2, B3. rewrite Hc in B1, B2, B3.
      split; [by eapply vstep_vinv|by apply Hgood'..|done|done|done|done].
  - split; [done|congruence| |done|].
    + intros v x. rewrite Hvi. apply Hv.
    + intros y [Hy|Hy]%elem_of_app Hf; [by apply Hold|]. rewrite (foreign_not es) in Hf; done.
  - split; [done|by rewrite cfg_gc_below| |done|].
    + intros v x [Hx _]%gc_below_lookup. by apply Hv.
    + intros y. rewrite app_nil_r in *. by apply Hold.
Qed.

Lemma chain_snap (s s' : AgbEngine * E) es hist :
  chain inp s es s' -> snap_ok hist s.1 -> snap_ok (hist ++ es) s'.1.
Proof.
  intros Hc. revert hist. induction Hc as [|s1 s2 s3 es1 es2 Hstep Hc IH]; intros hist Hs.
  - by rewrite app_nil_r.
  - rewrite (assoc_L (++)). apply IH. by eapply estep_snap.
Qed.

Lemma reaches_snap {Env : AgbEnv E} {Laws : AgbEnvLaws E} (s : AgbEngine * E) es :
  reaches inp cf s es -> snap_ok es s.1.
Proof.
  intros [Hc (w & Hch)]%reaches_chain. apply (chain_snap _ _ es [] Hch). split.
  - apply inv_init.
  - done.
  - intros v x. cbn. by rewrite lookup_empty.
  - intros v x. cbn. by rewrite lookup_empty.
  - set_solver.
Qed.
End snapshots.

(** ** The network *)

Section network.
Context {Hash : Hashing} {E : Type} {Env : AgbEnv E} {Laws : AgbEnvLaws E}.
Context (c : Committee) (s0 : Digest) (delta_ms : Z) (rr : RoundRobin).
(** The correct parties, and what each one's resolver submits. *)
Context (correct : gset PublicKey) (resolver : PublicKey -> View -> Outcome -> Prop).

Definition party_config (k : PublicKey) : AgbConfig :=
  let t := from_party_count (committee_size c) in
  {| name := k; committee := c; sid := s0; delta := delta_ms; cfg_n := committee_size c;
     f_plus_1 := f_plus_1_parties t; quorum_parties := n_minus_f_parties t;
     quorum := quorum_threshold c; proposers := rr |}.

Record Net := mkNet {
  node : PublicKey -> AgbEngine * E;
  sent : PublicKey -> list Effect;
}.

(** What party [k] may receive: statements of members, those of correct
    members having been broadcast by them. *)
Definition net_inputs (N : Net) (k : PublicKey) : Inputs := {|
  said_echo := fun v j x => j ∈ members c /\
    (j ∈ correct -> echo_message (party_config j) v x ∈ sent N j);
  said_ready := fun v j x => j ∈ members c /\
    (j ∈ correct -> ready_message (party_config j) v x ∈ sent N j);
  said_skip := fun v j => j ∈ members c /\ (j ∈ correct -> BroadcastSkipVote v ∈ sent N j);
  in_resolved := resolver k;
|}.

Definition set_node (N : Net) (k : PublicKey) (x : AgbEngine * E) (es : list Effect) : Net := {|
  node := fun j => if decide (j = k) then x else node N j;
  sent := fun j => if decide (j = k) then sent N j ++ es else sent N j;
|}.

Inductive net_reaches : Net -> Prop :=
| nr_init (w : PublicKey -> E) :
    net_reaches (mkNet (fun k => (agb_init (party_config k), w k)) (fun _ => []))
| nr_event N k ev : net_reaches N -> k ∈ correct ->
    allowed (net_inputs N k) (party_config k) ev ->
    net_reaches (set_node N k (st (handle ev (node N k))) (out (handle ev (node N k))))
| nr_env N k w : net_reaches N -> net_reaches (set_node N k ((node N k).1, w) []).

(** A larger network history allows every event a smaller one allows. *)
Lemma reaches_mono inp inp' cf (s : AgbEngine * E) es :
  (forall v k x, said_echo inp v k x -> said_echo inp' v k x) ->
  (forall v k x, said_ready inp v k x -> said_ready inp' v k x) ->
  (forall v k, said_skip inp v k -> said_skip inp' v k) ->
  (forall v o, in_resolved inp v o -> in_resolved inp' v o) ->
  reaches inp cf s es -> reaches inp' cf s es.
Proof.
  intros H1 H2 H3 H4. induction 1 as [|e w w' es Hr IH|s es ev Hr IH [Hk Ha]].
  - constructor.
  - by eapply reach_env.
  - apply reach_event; [done|]. split; [done|]. destruct ev; auto.
Qed.

Lemma net_inputs_mono N j k x es s es' :
  reaches (net_inputs N k) (party_config k) s es' ->
  reaches (net_inputs (set_node N j x es) k) (party_config k) s es'.
Proof.
  apply reaches_mono; cbn; try done; intros v i; intros;
    repeat match goal with H : _ /\ _ |- _ => destruct H end; split; try done; intros Hi;
    case_decide; subst; try (apply elem_of_app; left); auto.
Qed.

Lemma net_local N k : net_reaches N -> k ∈ correct ->
  reaches (net_inputs N k) (party_config k) (node N k) (sent N k).
Proof.
  induction 1 as [w|N j ev Hr IH Hj Ha|N j w Hr IH]; intros Hk.
  - constructor.
  - cbn. apply net_inputs_mono. case_decide as Heq; [|by apply IH]. subst.
    apply reach_event; [by apply IH|done].
  - cbn. apply net_inputs_mono. case_decide as Heq; [|by apply IH]. subst.
    rewrite app_nil_r. destruct (node N j) as [e w'] eqn:Hn. eapply reach_env. by apply IH.
Qed.

(** ** What correct parties said *)

Context (Hok : committee_ok c) (Hinj : digest_injective s0) (Hcor : correct ⊆ members c).

Lemma party_config_ok k : config_ok (party_config k).
Proof. done. Qed.

(** The statements recorded by a correct party: whose they are and that they
    were made. *)
Record recorded (N : Net) (v : View) (x : ViewState) : Prop := {
  rec_echo k y : echo_statements x !! k = Some y -> k ∈ members c /\ echo_canonical (party_config k) v y /\
    (k ∈ correct -> echo_message (party_config k) v y ∈ sent N k);
  rec_ready k y : ready_statements x !! k = Some y -> k ∈ members c /\ ready_canonical (party_config k) v y /\
    (k ∈ correct -> ready_message (party_config k) v y ∈ sent N k);
  rec_skip k : k ∈ skip_vote_statements x -> k ∈ members c /\
    (k ∈ correct -> BroadcastSkipVote v ∈ sent N k);
}.

Lemma canonical_party i k v p d :
  canonical (party_config i) v p d -> canonical (party_config k) v p d.
Proof. done. Qed.

Lemma recorded_of N i v x :
  i ∈ correct -> vinv (party_config i) v x -> sourced (net_inputs N i) (party_config i) v x ->
  (forall y, echo_statements x !! i = Some y -> echo_message (party_config i) v y ∈ sent N i) ->
  (forall y, ready_statements x !! i = Some y -> ready_message (party_config i) v y ∈ sent N i) ->
  (i ∈ skip_vote_statements x -> BroadcastSkipVote v ∈ sent N i) ->
  recorded N v x.
Proof.
  intros Hi Hv [S1 S2 S3] B1 B2 B3. split.
  - intros k y Hy. pose proof (vi_echoes _ _ _ Hv k y Hy) as Hcan.
    destruct (decide (k = i)) as [->|Hne]; [by auto|]. destruct (S1 k y Hne Hy). by destruct y.
  - intros k y Hy. pose proof (vi_readies _ _ _ Hv k y Hy) as Hcan.
    destruct (decide (k = i)) as [->|Hne]; [by auto|]. destruct (S2 k y Hne Hy). by destruct y.
  - intros k Hk. destruct (decide (k = i)) as [->|Hne]; [by auto|]. by apply (S3 k Hne Hk).
Qed.

(** A live view of a correct party. *)
Lemma view_recorded N i v x :
  net_reaches N -> i ∈ correct -> views (node N i).1 !! v = Some x ->
  recorded N v x /\ vinv (party_config i) v x /\
  justified (net_inputs N i) (party_config i) v x.
Proof.
  intros HN Hi Hx. pose proof (net_local N i HN Hi) as Hr.
  destruct (reaches_justified _ _ _ _ v x (party_config_ok i) Hinj Hr Hx) as (Hv & _ & Hj).
  destruct (reaches_sources _ _ _ _ v x Hr Hx) as (Hs & B1 & B2 & B3).
  split_and!; [|done..]. by eapply recorded_of.
Qed.

(** The state behind a message of a correct party, even if since pruned. *)
Lemma sent_snapshot N k y :
  net_reaches N -> k ∈ correct -> y ∈ sent N k -> foreign y = false ->
  exists x, snapshot (net_inputs N k) (party_config k) (sent N k) (effect_view y) y x.
Proof.
  intros HN Hk Hy Hf. pose proof (net_local N k HN Hk) as Hr.
  by apply (sk_snap _ _ _ _ (reaches_snap _ _ (party_config_ok k) Hinj _ _ Hr)).
Qed.

(** Statements of one correct party recorded anywhere are compatible. *)
Lemma echoes_agree N k v y z :
  net_reaches N -> k ∈ correct ->
  echo_canonical (party_config k) v y -> echo_message (party_config k) v y ∈ sent N k ->
  echo_canonical (party_config k) v z -> echo_message (party_config k) v z ∈ sent N k ->
  match y, z with
  | EchoGraded p _ g _, EchoGraded p' _ g' _ => p = p' /\ g = g'
  | EchoStSkip, EchoStSkip => True
  | _, _ => False
  end.
Proof.
  intros HN Hk Cy Hy Cz Hz. pose proof (net_local N k HN Hk) as Hr.
  pose proof (echo_message_view _ _ _ Cy) as Vy. pose proof (echo_message_view _ _ _ Cz) as Vz.
  destruct (reaches_history _ _ _ _ Hr) as [Hc [_ Hpair]].
  destruct (Hpair _ _ Hy Hz) as (s & Sy & Sz); [by destruct y|by destruct z|congruence|].
  rewrite Hc in Sy, Sz. destruct y as [p d g o|], z as [p' d' g' o'|]; cbn in Sy, Sz; try done.
  - destruct Sy as (q & e & h & u & E1 & M1), Sz as (q' & e' & h' & u' & E2 & M2).
    assert (q = q' /\ h = h') as [<- <-] by (split; congruence).
    destruct p, q; cbn in M1; simplify_eq; destruct p'; cbn in M2; by simplify_eq.
  - destruct Sy as (q & e & h & u & E1 & M1). congruence.
  - destruct Sz as (q & e & h & u & E1 & M1). congruence.
Qed.

Lemma readies_agree N k v y z :
  net_reaches N -> k ∈ correct ->
  ready_canonical (party_config k) v y -> ready_message (party_config k) v y ∈ sent N k ->
  ready_canonical (party_config k) v z -> ready_message (party_config k) v z ∈ sent N k ->
  match y, z with
  | ReadyGraded p _ g, ReadyGraded p' _ g' => p = p' /\ (g = g' \/ g = GMix \/ g' = GMix)
  | NoReady, NoReady => True
  | _, _ => False
  end.
Proof.
  intros HN Hk Cy Hy Cz Hz. pose proof (net_local N k HN Hk) as Hr.
  pose proof (ready_message_view _ _ _ Cy) as Vy. pose proof (ready_message_view _ _ _ Cz) as Vz.
  destruct (reaches_history _ _ _ _ Hr) as [Hc [_ Hpair]].
  destruct (Hpair _ _ Hy Hz) as (s & Sy & Sz); [by destruct y|by destruct z|congruence|].
  rewrite Hc in Sy, Sz. destruct y as [p d g|], z as [p' d' g'|]; cbn in Sy, Sz; try done.
  - destruct Sy as (q & e & h & h1 & E1 & M1 & G1), Sz as (q' & e' & h' & h1' & E2 & M2 & G2).
    assert (q = q' /\ h1 = h1') as [<- <-] by (split; congruence).
    destruct p, q; cbn in M1; simplify_eq; destruct p'; cbn in M2; simplify_eq; split; try done;
      destruct G1 as [->| ->], G2 as [->| ->]; auto.
  - destruct Sy as (q & e & h & u & E1 & M1). congruence.
  - destruct Sz as (q & e & h & u & E1 & M1). congruence.
Qed.

(** ** Quorums meet in correct parties *)

Abbreviation faulty := (members c ∖ correct) (only parsing).
Context (Hfault : 3 * stake_of c faulty < total_votes c).

Lemma selected_quorum {V} (P : V -> bool) m :
  quorum_threshold c <= stake_sum c P m ->
  quorum_threshold c <= stake_of c (selected (fun _ x => P x) m ∩ members c).
Proof. by rewrite stake_sum_selected, stake_of_members. Qed.

Lemma quorums_meet {V W} (P : V -> bool) (Q : W -> bool) m m' :
  quorum_threshold c <= stake_sum c P m -> quorum_threshold c <= stake_sum c Q m' ->
  exists k x y, k ∈ correct /\ m !! k = Some x /\ P x = true /\ m' !! k = Some y /\ Q y = true.
Proof.
  intros HP%selected_quorum HQ%selected_quorum.
  destruct (stake_quorums_intersect c Hok _ Hfault
    (selected (fun _ x => P x) m ∩ members c) (selected (fun _ x => Q x) m' ∩ members c))
    as (k & HX & HY & HB); [set_solver|set_solver|done|done|].
  apply elem_of_intersection in HX as [(x & Hx & HPx)%elem_of_selected Hm].
  apply elem_of_intersection in HY as [(y & Hy & HQy)%elem_of_selected _].
  exists k, x, y. split_and!; try done. destruct (decide (k ∈ correct)); [done|]. set_solver.
Qed.

Lemma quorum_has_correct {V} (P : V -> bool) m :
  quorum_threshold c <= stake_sum c P m -> exists k x, k ∈ correct /\ m !! k = Some x /\ P x = true.
Proof.
  intros HP. destruct (quorums_meet P P m m HP HP) as (k & x & _ & Hk & Hx & HPx & _).
  by exists k, x.
Qed.

Lemma canonical_eq v p q d : canonical (party_config 0) v p d -> canonical (party_config 0) v q d -> p = q.
Proof. intros [Hp ->] [Hq Hd]. apply Hinj; [congruence|done]. Qed.

Lemma ready_any_inv v d y :
  ready_any d y = true -> ready_canonical (party_config 0) v y ->
  exists p g, y = ReadyGraded p d g /\ canonical (party_config 0) v p d.
Proof. destruct y as [p d' g|]; [|done]. cbn. intros ->%Z.eqb_eq Hc. eauto. Qed.

Lemma ready_for_inv v d g y :
  ready_for d g y = true -> ready_canonical (party_config 0) v y ->
  exists p, y = ReadyGraded p d g /\ canonical (party_config 0) v p d.
Proof.
  destruct y as [p d' g'|]; [|done]. cbn. intros [->%Z.eqb_eq ->%bool_decide_eq_true]%andb_true_iff Hc.
  eauto.
Qed.

Lemma echo_for_inv v d b y :
  echo_for d b y = true -> echo_canonical (party_config 0) v y ->
  exists p g o, y = EchoGraded p d g o /\ (g =? 1) = b /\ canonical (party_config 0) v p d.
Proof.
  destruct y as [p d' g o|]; [|done]. cbn.
  intros [->%Z.eqb_eq Hb%eqb_prop]%andb_true_iff Hc. exists p, g, o. done.
Qed.

(** Two quorums of READYs, at any two correct parties, name one proposal. *)
Lemma ready_quorums_agree N v x y d d' p p' :
  net_reaches N -> recorded N v x -> recorded N v y ->
  canonical (party_config 0) v p d -> canonical (party_config 0) v p' d' ->
  quorum_threshold c <= stake_sum c (ready_any d) (ready_statements x) ->
  quorum_threshold c <= stake_sum c (ready_any d') (ready_statements y) -> p = p'.
Proof.
  intros HN Hx Hy Hp Hp' Qx Qy.
  destruct (quorums_meet _ _ _ _ Qx Qy) as (k & a & b & Hk & Ha & Pa & Hb & Pb).
  destruct (rec_ready _ _ _ Hx k a Ha) as (_ & Ca & Sa).
  destruct (rec_ready _ _ _ Hy k b Hb) as (_ & Cb & Sb).
  pose proof (readies_agree N k v a b HN Hk Ca (Sa Hk) Cb (Sb Hk)) as Hag.
  destruct (ready_any_inv v d a Pa) as (q & g & -> & Cq); [by destruct a|].
  destruct (ready_any_inv v d' b Pb) as (q' & g' & -> & Cq'); [by destruct b|].
  destruct Hag as [<- _]. rewrite (canonical_eq v p q d) by done.
  by rewrite (canonical_eq v p' q d').
Qed.

Lemma ready_for_any_sum d g m :
  stake_sum c (ready_for d g) m <= stake_sum c (ready_any d) m.
Proof.
  apply map_sum_le. intros k [p d' g'|] _; [|done]. cbn. pose proof (stake_nonneg c Hok k).
  destruct (d' =? d); [|done]. by destruct (bool_decide (g' = g)).
Qed.

(** Quorums of READYs of two homogeneous grades have one grade. *)
Lemma ready_grades_agree N v x y d d' g g' :
  net_reaches N -> recorded N v x -> recorded N v y -> g <> GMix -> g' <> GMix ->
  quorum_threshold c <= stake_sum c (ready_for d g) (ready_statements x) ->
  quorum_threshold c <= stake_sum c (ready_for d' g') (ready_statements y) -> g = g'.
Proof.
  intros HN Hx Hy Hg Hg' Qx Qy.
  destruct (quorums_meet _ _ _ _ Qx Qy) as (k & a & b & Hk & Ha & Pa & Hb & Pb).
  destruct (rec_ready _ _ _ Hx k a Ha) as (_ & Ca & Sa).
  destruct (rec_ready _ _ _ Hy k b Hb) as (_ & Cb & Sb).
  pose proof (readies_agree N k v a b HN Hk Ca (Sa Hk) Cb (Sb Hk)) as Hag.
  destruct (ready_for_inv v d g a Pa) as (q & -> & _); [by destruct a|].
  destruct (ready_for_inv v d' g' b Pb) as (q' & -> & _); [by destruct b|].
  destruct Hag as [_ [?|[?|?]]]; done.
Qed.

(** What party [i] decided for view [v]. *)
Definition completed_at (N : Net) (i : PublicKey) (v : View) : option (Manifest * Manifest) :=
  x ← views (node N i).1 !! v; completed x.
Definition directed_at (N : Net) (i : PublicKey) (v : View) : option Outcome :=
  x ← views (node N i).1 !! v; directed x.
Definition sealed_at (N : Net) (i : PublicKey) (v : View) : option Outcome :=
  x ← views (node N i).1 !! v; sealed x.

Lemma completions_agree N i j v ct ct' :
  net_reaches N -> i ∈ correct -> j ∈ correct ->
  completed_at N i v = Some ct -> completed_at N j v = Some ct' -> ct = ct'.
Proof.
  unfold completed_at. intros HN Hi Hj Ci Cj.
  destruct (views (node N i).1 !! v) as [x|] eqn:Hx; [|done].
  destruct (views (node N j).1 !! v) as [y|] eqn:Hy; [|done]. simpl in *.
  destruct (view_recorded N i v x HN Hi Hx) as (Rx & _ & Jx).
  destruct (view_recorded N j v y HN Hj Hy) as (Ry & _ & Jy).
  destruct ct as [a b], ct' as [a' b'].
  destruct (ju_completed _ _ _ _ Jx a b Ci) as (p & d & Cp & <- & <- & Qp).
  destruct (ju_completed _ _ _ _ Jy a' b' Cj) as (p' & d' & Cp' & <- & <- & Qp').
  by rewrite (ready_quorums_agree N v x y d d' p p').
Qed.

(** ** Seals *)

(** Party counts: at most [f] parties are faulty, and every party has stake one. *)
Abbreviation f := (f_parties (from_committee c)) (only parsing).
Context (Hparties : Z.of_nat (size faulty) <= f) (Huni : forall k, k ∈ members c -> stake c k = 1).

Lemma committee_counts :
  1 <= committee_size c /\ 3 * f < committee_size c /\ 0 <= f /\ total_votes c = committee_size c /\
  2 * f < quorum_threshold c.
Proof.
  assert (Hn : 1 <= committee_size c).
  { unfold committee_size. pose proof (committee_nonempty c Hok) as Hne.
    apply map_size_non_empty_iff in Hne. lia. }
  destruct (party_thresholds (committee_size c) Hn) as (F1 & F2 & _). cbn zeta in F1, F2.
  assert (Ht : total_votes c = committee_size c).
  { rewrite total_votes_stake_of by done. unfold stake_of.
    rewrite <- size_members_committee, <- set_sum_one. by apply set_sum_ext. }
  rewrite quorum_threshold_exact, Ht by done. split_and!; try done.
  pose proof (Z.div_mod (2 * committee_size c) 3 ltac:(lia)).
  pose proof (Z.mod_pos_bound (2 * committee_size c) 3 ltac:(lia)). unfold from_committee. lia.
Qed.

Lemma stake_of_size X : X ⊆ members c -> stake_of c X = Z.of_nat (size X).
Proof. intros HX. rewrite <- set_sum_one. apply set_sum_ext. auto. Qed.

(** Two sets of members that together outnumber [n + f] share a correct party. *)
Lemma parties_meet (X Y : gset PublicKey) :
  X ⊆ members c -> Y ⊆ members c ->
  committee_size c + f < Z.of_nat (size X) + Z.of_nat (size Y) ->
  exists k, k ∈ correct /\ k ∈ X /\ k ∈ Y.
Proof.
  intros HX HY Hlt. pose proof (size_members_committee c).
  destruct (sizes_meet X Y (members c) faulty HX HY) as (k & HkX & HkY & HkB); [lia|].
  exists k. split_and!; try done. destruct (decide (k ∈ correct)); [done|]. set_solver.
Qed.

Lemma many_has_correct (X : gset PublicKey) :
  X ⊆ members c -> n_minus_f_parties (from_party_count (committee_size c)) <= Z.of_nat (size X) ->
  exists k, k ∈ correct /\ k ∈ X.
Proof.
  intros HX Hn. pose proof committee_counts as (_ & H3 & _). pose proof (size_members_committee c).
  unfold from_committee in *. cbn in *.
  destruct (parties_meet X (members c) HX ltac:(done)) as (k & ? & ? & _);
    [unfold from_committee; cbn; lia|]. eauto.
Qed.

Lemma echo_selected_members N v x P :
  recorded N v x -> selected (fun _ y => P y) (echo_statements x) ⊆ members c.
Proof. intros Hx k (y & Hy & _)%elem_of_selected. by apply (rec_echo _ _ _ Hx k y Hy). Qed.

(** An echo count of [n] covers every member. *)
Lemma all_echoed N v x P k :
  recorded N v x -> committee_size c <= party_count P (echo_statements x) -> k ∈ members c ->
  exists y, echo_statements x !! k = Some y /\ P y = true.
Proof.
  intros Hx Hn Hk. pose proof (echo_selected_members N v x P Hx) as Hsub.
  rewrite party_count_size, <- size_members_committee in Hn.
  rewrite <- (set_subseteq_size_eq _ _ Hsub) in Hk by lia. by apply elem_of_selected in Hk.
Qed.

(** Why a party sealed [o], unless its resolver decided it. *)
Inductive grounds (v : View) (x : ViewState) : Outcome -> Prop :=
| by_direct p d g : canonical (party_config 0) v p d -> g <> GMix ->
    quorum_threshold c <= stake_sum c (ready_for d g) (ready_statements x) ->
    grounds v x (match g with GOne => OFull (p_c p) (p_t p) | _ => OCore (p_c p) end)
| by_fast p d : canonical (party_config 0) v p d ->
    committee_size c <= party_count (echo_for d true) (echo_statements x) ->
    grounds v x (OFull (p_c p) (p_t p))
| by_skip : n_minus_f_parties (from_party_count (committee_size c)) <=
      Z.of_nat (size (skip_vote_statements x)) ->
    grounds v x OSkip.

Lemma sealed_grounds N i v x o :
  net_reaches N -> i ∈ correct -> views (node N i).1 !! v = Some x -> sealed x = Some o ->
  grounds v x o \/ resolver i v o.
Proof.
  intros HN Hi Hx Hs. destruct (view_recorded N i v x HN Hi Hx) as (_ & _ & J).
  destruct (ju_sealed _ _ _ _ J o Hs) as [Hd|[(p & d & Cp & -> & Hn)|[[-> Hn]|?]]]; [left..|by right].
  - destruct (ju_directed _ _ _ _ J o Hd) as (p & d & Cp & [[-> Q]|[-> Q]]).
    + by apply (by_direct v x p d GOne).
    + by apply (by_direct v x p d GZero).
  - by apply (by_fast v x p d).
  - by apply by_skip.
Qed.

(** The echoes behind a homogeneous READY recorded from a correct party. *)
Lemma ready_echo_quorum N v y d g :
  net_reaches N -> recorded N v y -> g <> GMix ->
  quorum_threshold c <= stake_sum c (ready_for d g) (ready_statements y) ->
  exists z, recorded N v z /\
    quorum_threshold c <= stake_sum c (echo_for d (bool_decide (g = GOne))) (echo_statements z).
Proof.
  intros HN Hy Hg Q. destruct (quorum_has_correct _ _ Q) as (k & b & Hk & Hb & Pb).
  destruct (rec_ready _ _ _ Hy k b Hb) as (_ & Cb & Sb). specialize (Sb Hk).
  destruct (ready_for_inv v d g b Pb) as (q & -> & Cq); [by destruct b|].
  destruct (sent_snapshot N k _ HN Hk Sb) as (z & [Vz Jz Sz Rz Ez Yz Kz]); [done|].
  rewrite (ready_message_view _ _ _ Cb) in *. exists z. split; [by eapply recorded_of|].
  destruct Rz as (q' & d' & h & h' & Hown & Hmsg & Hh).
  assert (q' = q /\ h = g) as [-> ->].
  { destruct q, q'; cbn in Hmsg; by simplify_eq. }
  destruct Hh as [<-|?]; [|done].
  assert (d' = d) as ->.
  { destruct (vi_readies _ _ _ Vz _ _ Hown) as [_ ->]. by destruct Cq as [_ ->]. }
  destruct (ju_ready _ _ _ _ Jz _ _ _ Hown) as (_ & Q1 & Q0). cbn in Q1, Q0.
  destruct g; [by apply Q0|by apply Q1|done].
Qed.

Lemma fast_direct_agree N v x y p d p' d' g :
  net_reaches N -> recorded N v x -> recorded N v y ->
  canonical (party_config 0) v p d -> canonical (party_config 0) v p' d' ->
  committee_size c <= party_count (echo_for d true) (echo_statements x) -> g <> GMix ->
  quorum_threshold c <= stake_sum c (ready_for d' g) (ready_statements y) -> p = p' /\ g = GOne.
Proof.
  intros HN Hx Hy Cp Cp' Hn Hg Q.
  destruct (ready_echo_quorum N v y d' g HN Hy Hg Q) as (z & Hz & Qz).
  destruct (quorum_has_correct _ _ Qz) as (l & b & Hl & Hb & Pb).
  destruct (all_echoed N v x _ l Hx Hn (Hcor _ Hl)) as (a & Ha & Pa).
  destruct (rec_echo _ _ _ Hx l a Ha) as (_ & Ca & Sa).
  destruct (rec_echo _ _ _ Hz l b Hb) as (_ & Cb & Sb).
  pose proof (echoes_agree N l v a b HN Hl Ca (Sa Hl) Cb (Sb Hl)) as Hag.
  destruct (echo_for_inv v d _ a Pa) as (qa & ga & oa & -> & Ga & Cqa); [by destruct a|].
  destruct (echo_for_inv v d' _ b Pb) as (qb & gb & ob & -> & Gb & Cqb); [by destruct b|].
  destruct Hag as [<- <-]. rewrite Ga in Gb. symmetry in Gb. apply bool_decide_eq_true in Gb.
  split; [|done]. rewrite (canonical_eq v p qa d) by done. by rewrite (canonical_eq v p' qa d').
Qed.

Lemma fast_fast_agree N v x y p d p' d' :
  net_reaches N -> recorded N v x -> recorded N v y ->
  canonical (party_config 0) v p d -> canonical (party_config 0) v p' d' ->
  committee_size c <= party_count (echo_for d true) (echo_statements x) ->
  committee_size c <= party_count (echo_for d' true) (echo_statements y) -> p = p'.
Proof.
  intros HN Hx Hy Cp Cp' Hn Hn'. pose proof (size_members_committee c).
  pose proof committee_counts as (H1 & H3 & H0 & _).
  destruct (many_has_correct (members c)) as (l & Hl & Hm); [done|cbn in *; lia|].
  destruct (all_echoed N v x _ l Hx Hn Hm) as (a & Ha & Pa).
  destruct (all_echoed N v y _ l Hy Hn' Hm) as (b & Hb & Pb).
  destruct (rec_echo _ _ _ Hx l a Ha) as (_ & Ca & Sa).
  destruct (rec_echo _ _ _ Hy l b Hb) as (_ & Cb & Sb).
  pose proof (echoes_agree N l v a b HN Hl Ca (Sa Hl) Cb (Sb Hl)) as Hag.
  destruct (echo_for_inv v d _ a Pa) as (qa & ga & oa & -> & Ga & Cqa); [by destruct a|].
  destruct (echo_for_inv v d' _ b Pb) as (qb & gb & ob & -> & Gb & Cqb); [by destruct b|].
  destruct Hag as [<- _]. rewrite (canonical_eq v p qa d) by done. by rewrite (canonical_eq v p' qa d').
Qed.

Lemma skip_votes_members N v x : recorded N v x -> skip_vote_statements x ⊆ members c.
Proof. intros Hx k Hk. by apply (rec_skip _ _ _ Hx k Hk). Qed.

(** A skip quorum excludes a quorum of READYs ... *)
Lemma skip_direct_exclude N v x y d g :
  net_reaches N -> recorded N v x -> recorded N v y ->
  n_minus_f_parties (from_party_count (committee_size c)) <= Z.of_nat (size (skip_vote_statements x)) ->
  quorum_threshold c <= stake_sum c (ready_for d g) (ready_statements y) -> False.
Proof.
  intros HN Hx Hy Hn Q. apply selected_quorum in Q. pose proof committee_counts as (_ & H3 & _ & _ & Hq).
  set (Y := selected _ _ ∩ _) in Q. assert (HY : Y ⊆ members c) by set_solver.
  rewrite stake_of_size in Q by done. unfold from_committee in *. cbn in *.
  destruct (parties_meet _ Y (skip_votes_members N v x Hx) HY) as (k & Hk & Kx & Ky);
    [unfold from_committee; cbn; lia|].
  apply elem_of_intersection in Ky as [(b & Hb & Pb)%elem_of_selected _].
  destruct (rec_skip _ _ _ Hx k Kx) as [_ Sx]. destruct (rec_ready _ _ _ Hy k b Hb) as (_ & Cb & Sb).
  destruct (ready_for_inv v d g b Pb) as (q & -> & Cq); [by destruct b|].
  destruct (reaches_history _ _ _ _ (net_local N k HN Hk)) as [Hc [_ Hpair]].
  destruct (Hpair _ _ (Sx Hk) (Sb Hk)) as (s & [_ S1] & (? & ? & ? & ? & S2 & _)); [done..| |congruence].
  by rewrite (ready_message_view _ _ _ Cb).
Qed.

(** ... and grade-1 echoes of all parties. *)
Lemma skip_fast_exclude N v x y d :
  net_reaches N -> recorded N v x -> recorded N v y ->
  n_minus_f_parties (from_party_count (committee_size c)) <= Z.of_nat (size (skip_vote_statements x)) ->
  committee_size c <= party_count (echo_for d true) (echo_statements y) -> False.
Proof.
  intros HN Hx Hy Hn Hall.
  destruct (many_has_correct _ (skip_votes_members N v x Hx) Hn) as (k & Hk & Kx).
  destruct (rec_skip _ _ _ Hx k Kx) as [_ Sx].
  destruct (sent_snapshot N k _ HN Hk (Sx Hk)) as (z & [Vz Jz Sz Rz Ez Yz Kz]); [done|].
  cbn [effect_view] in *. destruct Rz as [Hst _]. pose proof (ju_skip _ _ _ _ Jz Hst) as Hsk. cbn in Hsk.
  assert (Hz : recorded N v z) by (by eapply recorded_of).
  rewrite party_count_size in Hsk.
  destruct (many_has_correct _ (echo_selected_members N v z _ Hz) Hsk) as (l & Hl & Kl).
  apply elem_of_selected in Kl as (b & Hb & Pb).
  destruct (all_echoed N v y _ l Hy Hall (Hcor _ Hl)) as (a & Ha & Pa).
  destruct (rec_echo _ _ _ Hy l a Ha) as (_ & Ca & Sa).
  destruct (rec_echo _ _ _ Hz l b Hb) as (_ & Cb & Sb).
  pose proof (echoes_agree N l v a b HN Hl Ca (Sa Hl) Cb (Sb Hl)) as Hag.
  by destruct a, b.
Qed.

Lemma grounds_agree N v x y o o' :
  net_reaches N -> recorded N v x -> recorded N v y ->
  grounds v x o -> grounds v y o' -> o = o'.
Proof.
  intros HN Hx Hy [p d g Cp Hg Q|p d Cp Q|Q] [p' d' g' Cp' Hg' Q'|p' d' Cp' Q'|Q'].
  - pose proof (ready_for_any_sum d g (ready_statements x)).
    pose proof (ready_for_any_sum d' g' (ready_statements y)).
    rewrite (ready_quorums_agree N v x y d d' p p') by (done || lia).
    by rewrite (ready_grades_agree N v x y d d' g g').
  - destruct (fast_direct_agree N v y x p' d' p d g) as [-> ->]; done.
  - by destruct (skip_direct_exclude N v y x d g).
  - destruct (fast_direct_agree N v x y p d p' d' g') as [-> ->]; done.
  - by rewrite (fast_fast_agree N v x y p d p' d').
  - by destruct (skip_fast_exclude N v y x d).
  - by destruct (skip_direct_exclude N v x y d' g').
  - by destruct (skip_fast_exclude N v x y d').
  - done.
Qed.
End network.

(** ** Agreement *)

(** At most [f] members of a committee of equal stakes are faulty. *)
Record fault_model (c : Committee) (correct : gset PublicKey) : Prop := {
  fm_committee : committee_ok c;
  fm_correct : correct ⊆ members c;
  fm_stakes k : k ∈ members c -> stake c k = 1;
  fm_faulty : Z.of_nat (size (members c ∖ correct)) <= f_parties (from_committee c);
}.

Lemma fault_model_stake c correct :
  fault_model c correct -> 3 * stake_of c (members c ∖ correct) < total_votes c.
Proof.
  intros [Hok Hcor Huni Hf].
  destruct (committee_counts c correct Hok Huni) as (_ & H3 & _ & -> & _).
  unfold stake_of. rewrite (set_sum_ext _ (fun _ => 1)), set_sum_one; [lia|].
  intros k Hk. apply Huni. set_solver.
Qed.

(** C8: correct parties agree on completions.  In every reachable network state of a
    committee with any stakes, with Byzantine parties of less than a third of the
    stake, if two correct parties have completed a view then they completed it with
    the same core and tip manifests. *)
Theorem completion_agreement {Hash : Hashing} {E} {Env : AgbEnv E} {Laws : AgbEnvLaws E}
    c s0 delta_ms rr correct resolver (N : Net (E := E)) i j v ct ct' :
  committee_ok c -> correct ⊆ members c -> 3 * stake_of c (members c ∖ correct) < total_votes c -> digest_injective s0 ->
  net_reaches c s0 delta_ms rr correct resolver N -> i ∈ correct -> j ∈ correct ->
  completed_at N i v = Some ct -> completed_at N j v = Some ct' -> ct = ct'.
Proof.
  intros Hok Hcor Hstake Hinj HN. by eapply completions_agree.
Qed.

(** Correct parties agree on seals.  In every reachable network state, with
    up to [f] Byzantine parties among [n] of equal stake, if two correct
    parties have sealed a view by a direct, a fast or a skip-vote route, then
    they sealed the same outcome: no mixture of routes, orderings or garbage
    collections yields different manifests, a full next to a core outcome, or
    a skip next to a non-skip. *)
Theorem seal_agreement {Hash : Hashing} {E} {Env : AgbEnv E} {Laws : AgbEnvLaws E}
    c s0 delta_ms rr correct resolver (N : Net (E := E)) i j v o o' :
  fault_model c correct -> digest_injective s0 ->
  net_reaches c s0 delta_ms rr correct resolver N -> i ∈ correct -> j ∈ correct ->
  sealed_at N i v = Some o -> sealed_at N j v = Some o' ->
  ~ resolver i v o -> ~ resolver j v o' -> o = o'.
Proof.
  intros Hf Hinj HN Hi Hj Si Sj Ri Rj. pose proof (fault_model_stake _ _ Hf).
  destruct Hf as [Hok Hcor Huni Hf]. unfold sealed_at in *.
  destruct (views (node N i).1 !! v) as [x|] eqn:Hx; [|done].
  destruct (views (node N j).1 !! v) as [y|] eqn:Hy; [|done]. simpl in Si, Sj.
  destruct (view_recorded c s0 delta_ms rr correct resolver Hok Hinj Hcor N i v x HN Hi Hx) as (Rx & _).
  destruct (view_recorded c s0 delta_ms rr correct resolver Hok Hinj Hcor N j v y HN Hj Hy) as (Ry & _).
  apply (grounds_agree c s0 delta_ms rr correct resolver Hok Hinj Hcor ltac:(done) Hf Huni N v x y o o'
    HN Rx Ry).
  - by destruct (sealed_grounds c s0 delta_ms rr correct resolver Hok Hinj Hcor N i v x o).
  - by destruct (sealed_grounds c s0 delta_ms rr correct resolver Hok Hinj Hcor N j v y o').
Qed.

(** ** A concrete network *)

Section simulation.
Context {Hash : Hashing} {E : Type} {Env : AgbEnv E}.
Context (c : Committee) (s0 : Digest) (delta_ms : Z) (rr : RoundRobin) (correct : gset PublicKey).

Definition said_b (N : Net (E := E)) (j : PublicKey) (m : Effect) : bool :=
  bool_decide (j ∈ members c) && (negb (bool_decide (j ∈ correct)) || bool_decide (m ∈ sent N j)).

(** Decides [allowed] for a network whose resolvers are silent. *)
Definition allowed_b (N : Net (E := E)) (k : PublicKey) (ev : Event) : bool :=
  let cf j := party_config c s0 delta_ms rr j in
  negb (bool_decide (event_sender ev = Some k)) &&
  match ev with
  | EvEcho x => said_b N (echo_sender x)
      (echo_message (cf (echo_sender x)) (vp_view (echo_proposal x)) (echo_statement_of (cf k) (ESingle x)))
  | EvEchoSkip v j => said_b N j (BroadcastEchoSkip v)
  | EvReady x => said_b N (rdy_sender x)
      (ready_message (cf (rdy_sender x)) (vp_view (rdy_proposal x)) (ready_statement_of (cf k) (RSingle x)))
  | EvNoReady v j => said_b N j (BroadcastNoReady v)
  | EvSkipVote v j => said_b N j (BroadcastSkipVote v)
  | EvEchoBatch _ | EvReadyBatch _ | EvSubmitResolution _ _ => false
  | _ => true
  end.

(** Runs a schedule of events, stopping with [None] at one not allowed. *)
Fixpoint net_run (l : list (PublicKey * Event)) (N : Net (E := E)) : option (Net (E := E)) :=
  match l with
  | [] => Some N
  | (k, ev) :: l =>
      if bool_decide (k ∈ correct) && allowed_b N k ev then
        let r := handle ev (node N k) in
        net_run l (set_node N k (st r) (out r))
      else None
  end.

Lemma said_b_true N j m :
  said_b N j m = true -> j ∈ members c /\ (j ∈ correct -> m ∈ sent N j).
Proof.
  unfold said_b. intros [Hm Hs]%andb_true_iff. split; [by apply bool_decide_eq_true in Hm|].
  intros Hj. rewrite (bool_decide_eq_true_2 _ Hj) in Hs. by apply bool_decide_eq_true in Hs.
Qed.

Lemma allowed_b_true resolver N k ev :
  allowed_b N k ev = true ->
  allowed (net_inputs c s0 delta_ms rr correct resolver N k) (party_config c s0 delta_ms rr k) ev.
Proof.
  unfold allowed_b. intros [Hs Ha]%andb_true_iff. split; [by case_bool_decide|].
  destruct ev; try done; by apply said_b_true in Ha.
Qed.

Lemma net_run_reaches l N N' :
  net_reaches c s0 delta_ms rr correct (fun _ _ _ => False) N -> net_run l N = Some N' ->
  net_reaches c s0 delta_ms rr correct (fun _ _ _ => False) N'.
Proof.
  revert N. induction l as [|[k ev] l IH]; intros N HN; simpl; [by intros [= <-]|].
  destruct (bool_decide (k ∈ correct) && allowed_b N k ev) eqn:Ha; [|done].
  apply andb_true_iff in Ha as [Hk%bool_decide_eq_true Ha]. apply IH. apply nr_event; [done..|].
  by apply allowed_b_true.
Qed.
End simulation.

(** Parties 10, 20 and 30 run view 1; party 40 is Byzantine and silent. *)
Definition net_schedule : list (PublicKey * Event) :=
  (k ← [10; 20; 30]; [(k, EvEnter 1 0); (k, EvPropose 10 proposal1 5)]) ++
  [(10, EvEcho (echo1 20 1)); (10, EvEcho (echo1 30 1)); (20, EvEcho (echo1 10 1));
   (20, EvEcho (echo1 30 1)); (30, EvEcho (echo1 10 1)); (30, EvEcho (echo1 20 1));
   (10, EvReady (ready1 20 GOne)); (10, EvReady (ready1 30 GOne));
   (20, EvReady (ready1 10 GOne)); (20, EvReady (ready1 30 GOne))].

Definition rr4 : RoundRobin := mkRoundRobin [10; 20; 30; 40].

Definition net_start : Net (E := ()) :=
  mkNet (fun k => (agb_init (party_config committee4 7 100 rr4 k), tt)) (fun _ => []).

Definition net_final : option (Net (E := ())) :=
  @net_run coded_hashing () open_env committee4 7 100 rr4 {[ 10; 20; 30 ]} net_schedule net_start.

Lemma fault_model4 : fault_model committee4 {[ 10; 20; 30 ]}.
Proof.
  split.
  - exact committee4_ok.
  - refine (bool_decide_eq_true_1 _ _). by vm_compute.
  - intros k Hk. assert (k ∈ ({[ 10; 20; 30; 40 ]} : gset Z)) as Hk'.
    { assert (members committee4 = {[ 10; 20; 30; 40 ]}) as <-; [|done].
      refine (bool_decide_eq_true_1 _ _). by vm_compute. }
    repeat (apply elem_of_union in Hk' as [Hk'|Hk']); apply elem_of_singleton in Hk' as ->;
      vm_compute; done.
  - by vm_compute.
Qed.

Lemma net_final_reaches N :
  net_final = Some N ->
  @net_reaches coded_hashing () open_env committee4 7 100 rr4 {[ 10; 20; 30 ]} (fun _ _ _ => False) N.
Proof. apply net_run_reaches. apply (nr_init _ _ _ _ _ _ (fun _ => tt)). Qed.

(** The same run in a committee of unequal stakes. *)
Definition weighted4 : Committee :=
  mkCommittee (list_to_map (map (fun p => (p.1, mkAuthority p.2 {[ 0 ]})) [(10, 3); (20, 2); (30, 2); (40, 1)])).

Lemma weighted4_ok : committee_ok weighted4.
Proof.
  split; [done| |by vm_compute].
  intros k a Hk. apply elem_of_map_to_list in Hk. vm_compute in Hk.
  repeat (apply elem_of_cons in Hk as [Hk|Hk]; [injection Hk as -> ->; done|]). by apply elem_of_nil in Hk.
Qed.

Definition weighted_final : option (Net (E := ())) :=
  @net_run coded_hashing () open_env weighted4 7 100 rr4 {[ 10; 20; 30 ]} net_schedule
    (mkNet (fun k => (agb_init (party_config weighted4 7 100 rr4 k), tt)) (fun _ => [])).

Lemma completion_agreement_witness :
  (N ← weighted_final; completed_at N 10 1) = Some ([(20, 1, 100)], [(30, 2, 101)]) /\
  forall N ct ct', weighted_final = Some N -> completed_at N 10 1 = Some ct ->
    completed_at N 20 1 = Some ct' -> ct = ct'.
Proof.
  split; [vm_compute; reflexivity|]. intros N ct ct' HN H1 H2.
  apply (@completion_agreement coded_hashing () open_env open_env_laws weighted4 7 100 rr4
    {[ 10; 20; 30 ]} (fun _ _ _ => False) N 10 20 1).
  - exact weighted4_ok.
  - refine (bool_decide_eq_true_1 _ _). by vm_compute.
  - by vm_compute.
  - apply coded_injective.
  - apply (@net_run_reaches coded_hashing () open_env weighted4 7 100 rr4 _ _ _ _ (nr_init _ _ _ _ _ _ (fun _ => tt)) HN).
  - refine (bool_decide_eq_true_1 _ _). by vm_compute.
  - refine (bool_decide_eq_true_1 _ _). by vm_compute.
  - exact H1.
  - exact H2.
Defined.

Lemma seal_agreement_witness :
  (N ← net_final; sealed_at N 10 1) = Some (OFull [(20, 1, 100)] [(30, 2, 101)]) /\
  forall N o o', net_final = Some N -> sealed_at N 10 1 = Some o -> sealed_at N 20 1 = Some o' -> o = o'.
Proof.
  split; [vm_compute; reflexivity|]. intros N o o' HN H1 H2.
  apply (@seal_agreement coded_hashing () open_env open_env_laws committee4 7 100 rr4
    {[ 10; 20; 30 ]} (fun _ _ _ => False) N 10 20 1).
  - exact fault_model4.
  - apply coded_injective.
  - apply net_final_reaches, HN.
  - refine (bool_decide_eq_true_1 _ _). by vm_compute.
  - refine (bool_decide_eq_true_1 _ _). by vm_compute.
  - exact H1.
  - exact H2.
  - intros [].
  - intros [].
Defined.
