(* ===== verification/Blocks.v ===== *)
(** The block cache.

    Models [block_ok] of [src/primary/src/vantage/block.rs], the header digest of
    [src/primary/src/messages.rs], and [BlockEntry] and [BlockCache] of
    [src/primary/src/vantage/lanes.rs].  Left out: the walk counters and clocks
    (metrics only) and the two queries that expose the iteration order of a
    [HashSet] ([author_block_at], [author_refs]). *)

From S2P Require Import Prelude Committee Types.

(** ** Block validity *)

Definition le_bytes (n : nat) (x : Z) : list Z := reverse (be_bytes n x).

Section header_digest.
Context `{!Hashing}.

(** What [impl Hash for Header] feeds the hasher. *)
Definition header_bytes (h : Header) : list Z :=
  digest_bytes (hd_author h) ++ le_bytes 8 (hd_height h) ++
  mjoin ((fun p => digest_bytes p.1 ++ le_bytes 4 p.2) <$> map_iter (hd_payload h)) ++
  digest_bytes (cert_header_digest (hd_parent_cert h)) ++
  (match hd_sid h with Some sid => 1 :: digest_bytes sid | None => [0] end) ++
  (if decide (hd_consensus_messages h = ∅) then []
   else
     let messages := merge_sort Z.le (map_to_list (hd_consensus_messages h)).*2 in
     ascii_bytes "autobahn-rideshare-v1" ++ le_bytes 8 (hd_num_active_instances h) ++
     le_bytes 8 (Z.of_nat (length messages)) ++ mjoin (digest_bytes <$> messages)).

Definition header_digest (h : Header) : Digest := blake3 (header_bytes h).

Definition block_ok (header : Header) (c : Committee) (sid : Digest) (max_block_payload : Z) : bool :=
  (header_digest header =? hd_id header)
  && bool_decide (hd_sid header = Some sid)
  && (Z.of_nat (size (hd_payload header)) <=? max_block_payload)
  && (1 <=? hd_height header)
  && (u64_add (cert_height (hd_parent_cert header)) 1 =? hd_height header)
  && bool_decide (hd_signature header = None)
  && bool_decide (cert_votes (hd_parent_cert header) = [])
  && bool_decide (hd_consensus_messages header = ∅)
  && (hd_num_active_instances header =? 0)
  && negb (hd_special header)
  && (0 <? stake c (hd_author header))
  && forallb (fun p => worker c (hd_author header) p.2) (map_iter (hd_payload header)).
End header_digest.

Definition parent (h : Header) : Digest := cert_header_digest (hd_parent_cert h).

(** ** The cache *)

Record BlockEntry := mkBlockEntry {
  ent_block : Header;
  ent_direct : bool;
  ent_repaired : bool;
  ent_retained : bool;
  ent_payload_ok : bool;
  ent_direct_prefix_verified : bool;
  ent_chain_verified : bool;
  ent_block_ok_verified : bool;
}.

Definition ent_eta (e : BlockEntry) : BlockEntry :=
  mkBlockEntry (ent_block e) (ent_direct e) (ent_repaired e) (ent_retained e) (ent_payload_ok e)
    (ent_direct_prefix_verified e) (ent_chain_verified e) (ent_block_ok_verified e).

#[export] Instance set_ent_block : Setter ent_block.
Proof. solve_setter ent_eta ent_block. Defined.
#[export] Instance set_ent_direct : Setter ent_direct.
Proof. solve_setter ent_eta ent_direct. Defined.
#[export] Instance set_ent_repaired : Setter ent_repaired.
Proof. solve_setter ent_eta ent_repaired. Defined.
#[export] Instance set_ent_retained : Setter ent_retained.
Proof. solve_setter ent_eta ent_retained. Defined.
#[export] Instance set_ent_payload_ok : Setter ent_payload_ok.
Proof. solve_setter ent_eta ent_payload_ok. Defined.
#[export] Instance set_ent_direct_prefix_verified : Setter ent_direct_prefix_verified.
Proof. solve_setter ent_eta ent_direct_prefix_verified. Defined.
#[export] Instance set_ent_chain_verified : Setter ent_chain_verified.
Proof. solve_setter ent_eta ent_chain_verified. Defined.
#[export] Instance set_ent_block_ok_verified : Setter ent_block_ok_verified.
Proof. solve_setter ent_eta ent_block_ok_verified. Defined.

Definition pinned_at (e : BlockEntry) (author : PublicKey) (expected_height : Height) : bool :=
  (hd_author (ent_block e) =? author) && (hd_height (ent_block e) =? expected_height).

Record BlockCache := mkBlockCache {
  by_digest : gmap Digest BlockEntry;
  by_author : gmap PublicKey (gmap Height (gset Digest));
  missing_parents : gset BlockRef;
}.

Definition cache_eta (c : BlockCache) : BlockCache :=
  mkBlockCache (by_digest c) (by_author c) (missing_parents c).

#[export] Instance set_by_digest : Setter by_digest.
Proof. solve_setter cache_eta by_digest. Defined.
#[export] Instance set_by_author : Setter by_author.
Proof. solve_setter cache_eta by_author. Defined.
#[export] Instance set_missing_parents : Setter missing_parents.
Proof. solve_setter cache_eta missing_parents. Defined.

Definition cache_new : BlockCache := mkBlockCache ∅ ∅ ∅.

Definition MISSING_PARENTS_CAP : nat := 64.

Definition note_missing_parent (author : PublicKey) (height : Height) (digest : Digest) (c : BlockCache)
    : BlockCache :=
  if (MISSING_PARENTS_CAP <=? size (missing_parents c))%nat then c
  else c <| missing_parents ::= union {[ (author, height, digest) ]} |>.

(** [pop_first] until [cap] coordinates are out or none is left. *)
Definition take_missing_parents (cap : nat) (c : BlockCache) : list BlockRef * BlockCache :=
  let taken := take cap (set_iter (missing_parents c)) in
  (taken, c <| missing_parents ::= fun s => s ∖ list_to_set taken |>).

Definition evict_author_below (author : PublicKey) (height : Height) (c : BlockCache) : Z * BlockCache :=
  match by_author c !! author with
  | None => (0, c)
  | Some by_height =>
      let keep := map_split_off height by_height in
      let below : gset Digest :=
        union_list (map_to_list (filter (fun p => p.1 < height) by_height)).*2 in
      (Z.of_nat (size (dom (by_digest c) ∩ below)),
       c <| by_digest ::= filter (fun p => p.1 ∉ below) |>
         <| by_author ::= if decide (keep = ∅) then delete author else <[ author := keep ]> |>)
  end.

Definition index_insert (author : PublicKey) (height : Height) (digest : Digest)
    (m : gmap PublicKey (gmap Height (gset Digest))) : gmap PublicKey (gmap Height (gset Digest)) :=
  let by_height := default ∅ (m !! author) in
  <[ author := <[ height := {[ digest ]} ∪ default ∅ (by_height !! height) ]> by_height ]> m.

Definition upsert (block : Header) (direct repaired payload_ok block_ok_verified : bool) (c : BlockCache)
    : BlockCache :=
  let digest := hd_id block in
  let entry :=
    match by_digest c !! digest with
    | None => mkBlockEntry block direct repaired false payload_ok false false block_ok_verified
    | Some e =>
        e <| ent_direct ::= orb direct |> <| ent_repaired ::= orb repaired |>
          <| ent_payload_ok ::= orb payload_ok |> <| ent_block_ok_verified ::= orb block_ok_verified |>
          <| ent_block := block |>
    end in
  c <| by_author ::= index_insert (hd_author block) (hd_height block) digest |>
    <| by_digest ::= <[ digest := entry ]> |>.

Definition anchored (e : BlockEntry) : BlockEntry :=
  e <| ent_chain_verified := true |> <| ent_direct_prefix_verified := true |> <| ent_retained := true |>.

Definition seed_own_anchor (block : Header) (c : BlockCache) : BlockCache :=
  (upsert block true false true true c) <| by_digest ::= alter anchored (hd_id block) |>.

Definition seed_recovered_own_anchor (block : Header) (c : BlockCache) : BlockCache :=
  (upsert block false true false true c) <| by_digest ::= alter anchored (hd_id block) |>.

Definition mark_retained (h : Digest) (c : BlockCache) : bool * BlockCache :=
  match by_digest c !! h with
  | Some e =>
      if negb (ent_retained e) then
        (true, c <| by_digest ::= <[ h := e <| ent_retained := true |> ]> |>)
      else (false, c)
  | None => (false, c)
  end.

Definition set_payload_ok (h : Digest) (ok : bool) (c : BlockCache) : bool * BlockCache :=
  match by_digest c !! h with
  | Some e =>
      if ok && negb (ent_payload_ok e) then
        (true, c <| by_digest ::= <[ h := e <| ent_payload_ok := true |> ]> |>)
      else (false, c)
  | None => (false, c)
  end.

Definition direct_gate_ready (h : Digest) (c : BlockCache) : bool :=
  match by_digest c !! h with
  | Some e => ent_direct e && ent_payload_ok e
  | None => false
  end.

Definition earliest_height (author : PublicKey) (c : BlockCache) : option Height :=
  by_height ← by_author c !! author; fst <$> head (map_iter by_height).

(** ** Prefix walks

    [expected_height] falls by one per step and the loop stops at 0, so the walks
    recurse on it; [Z.of_nat n] is [expected_height]. *)

Inductive DirectPrefixCheck := DVerified | DGate (d : Digest) | DFailed.

(** The end of the loop: the result, the digests walked and the coordinate that
    was missing. *)
Definition WalkEnd (A : Type) : Type := A * list Digest * option BlockRef.

Fixpoint direct_walk (m : gmap Digest BlockEntry) (genesis : Digest) (author : PublicKey)
    (n : nat) (cur : Digest) (newly_walked : list Digest) : WalkEnd DirectPrefixCheck :=
  if cur =? genesis then
    (if (n =? 0)%nat then DVerified else DFailed, newly_walked, None)
  else
    match n with
    | O => (DFailed, newly_walked, None)
    | S n' =>
        match m !! cur with
        | None => (DFailed, newly_walked, Some (author, Z.of_nat n, cur))
        | Some e =>
            if negb (pinned_at e author (Z.of_nat n)) then (DFailed, newly_walked, None)
            else if ent_direct_prefix_verified e then (DVerified, newly_walked, None)
            else if negb (ent_direct e && ent_payload_ok e) then (DGate cur, newly_walked, None)
            else direct_walk m genesis author n' (parent (ent_block e)) (newly_walked ++ [cur])
        end
    end.

(** Memoise a successful walk. *)
Definition mark_all (f : BlockEntry -> BlockEntry) (ds : list Digest) (c : BlockCache) : BlockCache :=
  c <| by_digest ::= fun m => foldl (fun m d => alter f d m) m ds |>.

Definition note_missing (r : option BlockRef) (c : BlockCache) : BlockCache :=
  match r with
  | Some (a, h, d) => note_missing_parent a h d c
  | None => c
  end.

Definition direct_prefix_check (genesis : Digest) (h : Digest) (c : BlockCache)
    : DirectPrefixCheck * BlockCache :=
  match by_digest c !! h with
  | None => (DFailed, c)
  | Some start =>
      if ent_direct_prefix_verified start then (DVerified, c)
      else
        match direct_walk (by_digest c) genesis (hd_author (ent_block start))
                (Z.to_nat (hd_height (ent_block start))) h [] with
        | (DVerified, walked, _) =>
            (DVerified, mark_all (fun e => e <| ent_direct_prefix_verified := true |>) walked c)
        | (r, _, missing) => (r, note_missing missing c)
        end
  end.

Definition direct_prefix_ok (genesis : Digest) (h : Digest) (c : BlockCache) : bool * BlockCache :=
  let r := direct_prefix_check genesis h c in
  (match r.1 with DVerified => true | _ => false end, r.2).

Fixpoint chain_walk (m : gmap Digest BlockEntry) (genesis : Digest) (author : PublicKey)
    (n : nat) (cur : Digest) (newly_walked : list Digest) : WalkEnd bool :=
  if cur =? genesis then ((n =? 0)%nat, newly_walked, None)
  else
    match n with
    | O => (false, newly_walked, None)
    | S n' =>
        match m !! cur with
        | None => (false, newly_walked, Some (author, Z.of_nat n, cur))
        | Some e =>
            if negb (pinned_at e author (Z.of_nat n)) then (false, newly_walked, None)
            else if negb (ent_block_ok_verified e) then (false, newly_walked, None)
            else if ent_chain_verified e then (true, newly_walked, None)
            else chain_walk m genesis author n' (parent (ent_block e)) (newly_walked ++ [cur])
        end
    end.

Definition verified_prefix_through_genesis (genesis : Digest) (h : Digest) (c : BlockCache)
    : bool * BlockCache :=
  match by_digest c !! h with
  | None => (false, c)
  | Some start =>
      if ent_chain_verified start then (true, c)
      else
        match chain_walk (by_digest c) genesis (hd_author (ent_block start))
                (Z.to_nat (hd_height (ent_block start))) h [] with
        | (true, walked, _) =>
            (true, mark_all (fun e => e <| ent_chain_verified := true |>) walked c)
        | (false, _, missing) => (false, note_missing missing c)
        end
  end.

(** ** Suffixes above a coordinate *)

Inductive SuffixWalk := SReady (chain : list Digest) | SPending | SForked.

Fixpoint suffix_walk (m : gmap Digest BlockEntry) (author : PublicKey) (stop_height : Height)
    (stop_digest : Digest) (n : nat) (cur : Digest) (chain : list Digest) : SuffixWalk :=
  if Z.of_nat n =? stop_height then
    if negb (cur =? stop_digest) then SForked else SReady (reverse chain)
  else
    match n with
    | O => SForked
    | S n' =>
        match m !! cur with
        | None => SPending
        | Some e =>
            if negb (pinned_at e author (Z.of_nat n)) then SPending
            else if negb (ent_block_ok_verified e) then SPending
            else suffix_walk m author stop_height stop_digest n' (parent (ent_block e)) (chain ++ [cur])
        end
    end.

Definition classify_suffix (stop_height : Height) (stop_digest : Digest) (h : Digest) (c : BlockCache)
    : SuffixWalk :=
  match by_digest c !! h with
  | None => SPending
  | Some start =>
      suffix_walk (by_digest c) (hd_author (ent_block start)) stop_height stop_digest
        (Z.to_nat (hd_height (ent_block start))) h []
  end.

Definition collect_verified_suffix (stop_height : Height) (stop_digest : Digest) (h : Digest)
    (c : BlockCache) : option (list Digest) :=
  match classify_suffix stop_height stop_digest h c with
  | SReady chain => Some chain
  | SPending | SForked => None
  end.

Section collect.
Context `{!Hashing}.

Fixpoint collect_walk (cm : Committee) (sid : Digest) (max_block_payload : Z)
    (m : gmap Digest BlockEntry) (genesis : Digest) (author : PublicKey)
    (n : nat) (cur : Digest) (chain : list Digest) : option (list Digest) :=
  if cur =? genesis then
    if (n =? 0)%nat then Some (reverse (chain ++ [genesis])) else None
  else
    match n with
    | O => None
    | S n' =>
        match m !! cur with
        | None => None
        | Some e =>
            if negb (pinned_at e author (Z.of_nat n)) then None
            else if negb (block_ok (ent_block e) cm sid max_block_payload) then None
            else collect_walk cm sid max_block_payload m genesis author n' (parent (ent_block e)) (chain ++ [cur])
        end
    end.

Definition collect_verified_chain (cm : Committee) (sid : Digest) (max_block_payload : Z)
    (genesis : Digest) (h : Digest) (c : BlockCache) : option (list Digest) :=
  start ← by_digest c !! h;
  collect_walk cm sid max_block_payload (by_digest c) genesis (hd_author (ent_block start))
    (Z.to_nat (hd_height (ent_block start))) h [].
End collect.

Inductive AncestorWalk := AReady (r : BlockRef) | APending | AForked.

(** [k] steps remain above the target height. *)
Fixpoint ancestor_walk (m : gmap Digest BlockEntry) (author : PublicKey) (target_height : Height)
    (k : nat) (cur : Digest) : AncestorWalk :=
  match m !! cur with
  | None => APending
  | Some e =>
      if negb (pinned_at e author (target_height + Z.of_nat k)) then AForked
      else if negb (ent_block_ok_verified e) then APending
      else
        match k with
        | O => AReady (author, target_height, cur)
        | S k => ancestor_walk m author target_height k (parent (ent_block e))
        end
  end.

Definition resolve_verified_ancestor (anchor : BlockRef) (delta : Height) (c : BlockCache) : AncestorWalk :=
  if (delta =? 0) || (ref_height anchor <=? delta) then AForked
  else
    ancestor_walk (by_digest c) (ref_author anchor) (ref_height anchor - delta) (Z.to_nat delta)
      (ref_digest anchor).

(** ** What a digest binds *)

Lemma length_be_bytes n x : length (be_bytes n x) = n.
Proof. by induction n; simpl; f_equal. Qed.

Lemma be_bytes_mod n x y : be_bytes n x = be_bytes n y -> x mod 256 ^ Z.of_nat n = y mod 256 ^ Z.of_nat n.
Proof.
  induction n as [|n IH]; cbn [be_bytes]; [by rewrite !Z.mod_1_r|]. intros [= Hd Hr].
  replace (256 ^ Z.of_nat (S n)) with (256 ^ Z.of_nat n * 256) by (rewrite Nat2Z.inj_succ, Z.pow_succ_r; lia).
  pose proof (Z.pow_pos_nonneg 256 (Z.of_nat n)).
  rewrite !Z.rem_mul_r by lia. by rewrite Hd, IH.
Qed.

Lemma be_bytes_inj n x y :
  0 <= x < 256 ^ Z.of_nat n -> 0 <= y < 256 ^ Z.of_nat n -> be_bytes n x = be_bytes n y -> x = y.
Proof. intros Hx Hy Heq%be_bytes_mod. by rewrite !Z.mod_small in Heq. Qed.

Definition is_digest (d : Digest) : Prop := 0 <= d < 256 ^ 32.

(** The fields hold values of their types. *)
Definition typed_header (h : Header) : Prop :=
  is_digest (hd_author h) /\ is_u64 (hd_height h) /\ is_digest (parent h).

(** What the rest of the system uses of a block's contents. *)
Definition coord (h : Header) : PublicKey * Height * Digest := (hd_author h, hd_height h, parent h).

Section binding.
Context `{!Hashing} (cm : Committee) (sid : Digest) (max_block_payload : Z).

Definition header_binding : Prop := forall h h',
  typed_header h -> typed_header h' ->
  block_ok h cm sid max_block_payload = true -> block_ok h' cm sid max_block_payload = true ->
  hd_id h = hd_id h' -> coord h = coord h'.

(** The bytes a valid header's digest covers determine its coordinates: their
    lengths are fixed but for the payload, which the ends delimit.  So headers
    bind their coordinates whenever BLAKE3 has no collision among them. *)
Lemma binding_of_injective : Inj (=) (=) blake3 -> header_binding.
Proof.
  intros Hinj h h' (Ha & Hh & Hp) (Ha' & Hh' & Hp') Hok Hok' Hid. unfold block_ok in *.
  repeat match goal with H : _ && _ = true |- _ => apply andb_true_iff in H as [H ?] end.
  repeat match goal with
    | H : bool_decide _ = true |- _ => apply bool_decide_eq_true in H
    | H : (_ =? _) = true |- _ => apply Z.eqb_eq in H
    end.
  assert (Heq : header_digest h = header_digest h') by congruence.
  unfold header_digest in Heq. apply Hinj in Heq. unfold header_bytes in Heq.
  repeat match goal with H : hd_sid _ = _ |- _ => rewrite H in Heq; clear H end.
  rewrite !decide_True in Heq by done. rewrite !app_nil_r in Heq.
  apply app_inj_1 in Heq as [HA Heq]; [|unfold digest_bytes; by rewrite !length_be_bytes].
  apply app_inj_1 in Heq as [HH Heq]; [|unfold le_bytes; by rewrite !length_reverse, !length_be_bytes].
  apply app_inj_2 in Heq as [_ Heq];
    [|rewrite !length_app; cbn [length]; unfold digest_bytes; by rewrite !length_be_bytes].
  apply app_inj_1 in Heq as [HP _]; [|unfold digest_bytes; by rewrite !length_be_bytes].
  unfold coord. f_equal; [f_equal|].
  - by apply (be_bytes_inj 32).
  - apply (be_bytes_inj 8); [unfold is_u64, u64_max, u64_modulus in *; simpl; lia..|].
    unfold le_bytes in HH. by apply (inj reverse) in HH.
  - by apply (be_bytes_inj 32).
Qed.
End binding.
