(* ===== verification/BlockChains.v ===== *)
(** Chains of blocks and the cache's invariant.

    A cached block is valid and names its parent by digest, so with binding
    digests the walks of [BlockCache] compute facts about block chains that do
    not depend on the cache: a memoised or walked prefix is a lineage of valid
    blocks down to genesis, and two nodes that both classify a suffix agree. *)

From S2P Require Import Prelude Committee Types Fixtures Blocks.

(** ** Paths through the cache *)

Section path.
Context (m : gmap Digest BlockEntry) (a : PublicKey).

(** [path n d l k d']: from [d] at height [n] down to [d'] at height [k] through
    verified cached blocks [l] of author [a], one height per block. *)
Inductive path : nat -> Digest -> list Digest -> nat -> Digest -> Prop :=
| path_nil n d : path n d [] n d
| path_cons n d e l k d' :
    m !! d = Some e -> pinned_at e a (Z.of_nat (S n)) = true -> ent_block_ok_verified e = true ->
    path n (parent (ent_block e)) l k d' -> path (S n) d (d :: l) k d'.

Lemma path_le n d l k d' : path n d l k d' -> (k <= n)%nat /\ length l = (n - k)%nat.
Proof. induction 1 as [|n d e l k d' _ _ _ _ [IH1 IH2]]; simpl; lia. Qed.

Lemma path_refl n d l d' : path n d l n d' -> l = [] /\ d' = d.
Proof.
  intros Hp. pose proof (path_le _ _ _ _ _ Hp) as [_ Hl]. inversion Hp; subst; [done|].
  simpl in Hl. lia.
Qed.
End path.

Lemma suffix_walk_ready m a k sd n cur acc ch :
  suffix_walk m a (Z.of_nat k) sd n cur acc = SReady ch <->
  exists l, path m a n cur l k sd /\ ch = reverse (acc ++ l).
Proof.
  revert cur acc. induction n as [|n IH]; intros cur acc; cbn [suffix_walk].
  - destruct (Z.eqb_spec (Z.of_nat 0) (Z.of_nat k)) as [Hk|Hk].
    + assert (k = 0%nat) as -> by lia. destruct (Z.eqb_spec cur sd) as [->|Hne]; simpl.
      * split.
        -- intros [= <-]. exists []. rewrite app_nil_r. split; [constructor|done].
        -- intros (l & [-> _]%path_refl & ->). by rewrite app_nil_r.
      * split; [done|]. by intros (l & [_ ->]%path_refl & _).
    + split; [done|]. intros (l & Hp%path_le & _). lia.
  - destruct (Z.eqb_spec (Z.of_nat (S n)) (Z.of_nat k)) as [Hk|Hk].
    + assert (k = S n) as -> by lia. destruct (Z.eqb_spec cur sd) as [->|Hne]; simpl.
      * split.
        -- intros [= <-]. exists []. rewrite app_nil_r. split; [constructor|done].
        -- intros (l & [-> _]%path_refl & ->). by rewrite app_nil_r.
      * split; [done|]. by intros (l & [_ ->]%path_refl & _).
    + destruct (m !! cur) as [e|] eqn:Hm.
      2: { split; [done|]. intros (l & Hp & _). inversion Hp; subst; [lia|congruence]. }
      destruct (pinned_at e a (Z.of_nat (S n))) eqn:Hpin; cbn [negb].
      2: { split; [done|]. intros (l & Hp & _). inversion Hp; subst; [lia|congruence]. }
      destruct (ent_block_ok_verified e) eqn:Hok; cbn [negb].
      2: { split; [done|]. intros (l & Hp & _). inversion Hp; subst; [lia|congruence]. }
      rewrite IH. split.
      * intros (l & Hp & ->). exists (cur :: l). split; [by econstructor|].
        by rewrite <- (assoc_L (++)).
      * intros (l & Hp & ->). inversion Hp; subst; [lia|]. simplify_eq.
        exists l0. split; [done|]. by rewrite <- (assoc_L (++)).
Qed.

Lemma suffix_walk_forked m a k sd n cur acc :
  suffix_walk m a (Z.of_nat k) sd n cur acc = SForked <->
  exists l d, (path m a n cur l k d /\ d <> sd) \/ ((n < k)%nat /\ path m a n cur l 0 d).
Proof.
  revert cur acc. induction n as [|n IH]; intros cur acc; cbn [suffix_walk].
  - destruct (Z.eqb_spec (Z.of_nat 0) (Z.of_nat k)) as [Hk|Hk].
    + assert (k = 0%nat) as -> by lia. destruct (Z.eqb_spec cur sd) as [->|Hne]; simpl.
      * split; [done|]. intros (l & d & [[[_ ->]%path_refl ?]|[? _]]); [done|lia].
      * split; [|done]. intros _. exists [], cur. left. split; [constructor|done].
    + split; [|done]. intros _. exists [], cur. right. split; [lia|constructor].
  - destruct (Z.eqb_spec (Z.of_nat (S n)) (Z.of_nat k)) as [Hk|Hk].
    + assert (k = S n) as -> by lia. destruct (Z.eqb_spec cur sd) as [->|Hne]; simpl.
      * split; [done|]. intros (l & d & [[[_ ->]%path_refl ?]|[? _]]); [done|lia].
      * split; [|done]. intros _. exists [], cur. left. split; [constructor|done].
    + assert (Hinv : forall l d, (path m a (S n) cur l k d /\ d <> sd) \/ ((S n < k)%nat /\ path m a (S n) cur l 0 d) ->
        exists e, m !! cur = Some e /\ pinned_at e a (Z.of_nat (S n)) = true /\
          ent_block_ok_verified e = true /\ exists l',
          (path m a n (parent (ent_block e)) l' k d /\ d <> sd) \/
          ((n < k)%nat /\ path m a n (parent (ent_block e)) l' 0 d)).
      { intros l d [[Hp ?]|[? Hp]]; inversion Hp; subst; try lia; eexists; split_and!; try done;
          eexists; [left|right]; (split; [|eassumption]) || (split; [eassumption|]); try done; lia. }
      destruct (m !! cur) as [e|] eqn:Hm.
      2: { split; [done|]. intros (l & d & (e & ? & _)%Hinv). done. }
      destruct (pinned_at e a (Z.of_nat (S n))) eqn:Hpin; cbn [negb].
      2: { split; [done|]. intros (l & d & (e' & [= <-] & ? & _)%Hinv). congruence. }
      destruct (ent_block_ok_verified e) eqn:Hok; cbn [negb].
      2: { split; [done|]. intros (l & d & (e' & [= <-] & _ & ? & _)%Hinv). congruence. }
      rewrite IH. split.
      * intros (l & d & [[Hp ?]|[? Hp]]); exists (cur :: l), d; [left|right]; (split; [by econstructor|done]) ||
          (split; [lia|by econstructor]).
      * intros (l & d & (e' & [= <-] & _ & _ & l' & ?)%Hinv). by exists l', d.
Qed.

Lemma suffix_walk_negative m a stop sd n cur acc ch :
  stop < 0 -> suffix_walk m a stop sd n cur acc <> SReady ch.
Proof.
  intros Hs. revert cur acc. induction n as [|n IH]; intros cur acc; cbn [suffix_walk];
    match goal with |- context [Z.eqb ?x stop] => destruct (Z.eqb_spec x stop); [lia|] end; [done|].
  destruct (m !! cur) as [e|]; [|done]. destruct (negb _); [done|]. destruct (negb _); [done|]. apply IH.
Qed.

(** ** Completeness of the memoised walk *)

Lemma chain_walk_complete m g a n cur l acc :
  path m a n cur l 0 g -> g ∉ l -> exists walked, chain_walk m g a n cur acc = (true, walked, None).
Proof.
  intros Hp. remember g as g0 eqn:Hg0. remember 0%nat as z. revert acc.
  induction Hp as [n d|n d e l k d' He Hpin Hok Hp IH]; intros acc Hg; subst.
  - cbn. rewrite Z.eqb_refl. by exists acc.
  - cbn [chain_walk]. destruct (Z.eqb_spec d g) as [->|]; [set_solver|].
    rewrite He, Hpin, Hok. cbn [negb]. destruct (ent_chain_verified e); [by exists acc|].
    apply IH; [done..|set_solver].
Qed.

Lemma chain_walk_missing m g a n cur acc r walked :
  chain_walk m g a n cur acc = (false, walked, Some r) ->
  exists l k d, r = (a, Z.of_nat k, d) /\ m !! d = None /\ path m a n cur l k d.
Proof.
  revert cur acc. induction n as [|n IH]; intros cur acc; cbn [chain_walk];
    (destruct (Z.eqb_spec cur g); [done|]); [done|].
  destruct (m !! cur) as [e|] eqn:He.
  - destruct (pinned_at e a _) eqn:Hpin; cbn [negb]; [|done].
    destruct (ent_block_ok_verified e) eqn:Hok; cbn [negb]; [|done].
    destruct (ent_chain_verified e); [done|]. intros (l & k & d & -> & Hn & Hp)%IH.
    exists (cur :: l), k, d. split_and!; [done..|by econstructor].
  - intros [= <- <-]. exists [], (S n), cur. split_and!; [done..|constructor].
Qed.

(** ** Lineages of valid blocks *)

Section chains.
Context {Hash : Hashing} (cm : Committee) (sid : Digest) (max_block_payload : Z).
Abbreviation genesis := (genesis_digest sid) (only parsing).

Definition valid (h : Header) : Prop :=
  typed_header h /\ block_ok h cm sid max_block_payload = true.

(** [lineage a n d]: [d] is the block of author [a] at height [n] of a chain of
    valid blocks, one per height, that ends in genesis. *)
Inductive lineage (a : PublicKey) : nat -> Digest -> Prop :=
| lineage_genesis : lineage a 0 genesis
| lineage_block n h : hd_id h <> genesis -> valid h -> hd_author h = a ->
    hd_height h = Z.of_nat (S n) -> lineage a n (parent h) -> lineage a (S n) (hd_id h).

(** No valid block has the genesis digest: their hashes cover different domains. *)
Definition genesis_apart : Prop := forall b, valid b -> hd_id b <> genesis.

Definition has_lineage (e : BlockEntry) : Prop :=
  lineage (hd_author (ent_block e)) (Z.to_nat (hd_height (ent_block e))) (hd_id (ent_block e)).

(** The digests the index lists for an author and height. *)
Definition indexed (c : BlockCache) (a : PublicKey) (h : Height) : gset Digest :=
  default ∅ (by_author c !! a ≫= lookup h).

Record cache_ok (c : BlockCache) : Prop := {
  co_valid d e : by_digest c !! d = Some e -> hd_id (ent_block e) = d /\ valid (ent_block e);
  co_chain d e : by_digest c !! d = Some e ->
    ent_chain_verified e = true \/ ent_direct_prefix_verified e = true -> has_lineage e;
  co_index a h d : d ∈ indexed c a h <->
    exists e, by_digest c !! d = Some e /\ hd_author (ent_block e) = a /\ hd_height (ent_block e) = h;
  co_missing : (size (missing_parents c) <= MISSING_PARENTS_CAP)%nat;
}.

Lemma cache_ok_new : cache_ok cache_new.
Proof.
  split; cbn; try (intros *; by rewrite lookup_empty).
  - intros a h d. unfold indexed. cbn. rewrite lookup_empty. simpl. setoid_rewrite lookup_empty. set_solver.
  - rewrite size_empty. lia.
Qed.

(** Entries whose blocks are unchanged keep the index. *)
Lemma cache_ok_entries c c' :
  cache_ok c -> by_author c' = by_author c -> (size (missing_parents c') <= MISSING_PARENTS_CAP)%nat ->
  (forall d, ent_block <$> by_digest c' !! d = ent_block <$> by_digest c !! d) ->
  (forall d e, by_digest c' !! d = Some e ->
    ent_chain_verified e = true \/ ent_direct_prefix_verified e = true -> has_lineage e) ->
  cache_ok c'.
Proof.
  intros [C1 C2 C3 C4] Ha Hm Hb Hl. split; [| |intros a h d|]; try done.
  - intros d e He. specialize (Hb d). rewrite He in Hb. simpl in Hb.
    destruct (by_digest c !! d) as [e0|] eqn:He0; [|done]. simpl in Hb. injection Hb as ->. by apply C1.
  - unfold indexed. rewrite Ha. fold (indexed c a h). rewrite C3. specialize (Hb d).
    split; intros (e & He & ? & ?); rewrite He in Hb; simpl in Hb.
    + destruct (by_digest c' !! d) as [e'|]; [|done]. injection Hb as Hb. exists e'. by rewrite Hb.
    + destruct (by_digest c !! d) as [e'|]; [|done]. injection Hb as Hb. exists e'. by rewrite <- Hb.
Qed.

Lemma cache_ok_note a h d c : cache_ok c -> cache_ok (note_missing_parent a h d c).
Proof.
  intros Hc. unfold note_missing_parent. destruct (Nat.leb_spec MISSING_PARENTS_CAP (size (missing_parents c))).
  { done. }
  apply (cache_ok_entries c); cbn; try done; [|apply Hc].
  assert (size ({[(a, h, d)]} ∪ missing_parents c) <= 1 + size (missing_parents c))%nat; [|lia].
  rewrite size_union_alt. rewrite size_singleton.
  assert (size (missing_parents c ∖ {[(a, h, d)]}) <= size (missing_parents c))%nat;
    [apply subseteq_size; set_solver|lia].
Qed.

Lemma cache_ok_note_missing r c : cache_ok c -> cache_ok (note_missing r c).
Proof. destruct r as [[[a h] d]|]; [apply cache_ok_note|done]. Qed.

Lemma pinned_at_spec e a h :
  pinned_at e a h = true <-> hd_author (ent_block e) = a /\ hd_height (ent_block e) = h.
Proof. unfold pinned_at. rewrite andb_true_iff, !Z.eqb_eq. done. Qed.

(** A cached block extends its parent's lineage. *)
Lemma lineage_step c cur e a n :
  cache_ok c -> by_digest c !! cur = Some e -> cur <> genesis ->
  pinned_at e a (Z.of_nat (S n)) = true -> lineage a n (parent (ent_block e)) -> lineage a (S n) cur.
Proof.
  intros Hc He Hg [Ha Hh]%pinned_at_spec Hl. destruct (co_valid _ Hc _ _ He) as [<- Hv].
  by apply lineage_block.
Qed.

Lemma has_lineage_at c cur e a n :
  cache_ok c -> by_digest c !! cur = Some e -> pinned_at e a (Z.of_nat n) = true ->
  has_lineage e <-> lineage a n cur.
Proof.
  intros Hc He [<- Hh]%pinned_at_spec. destruct (co_valid _ Hc _ _ He) as [Hid _].
  unfold has_lineage. by rewrite Hid, Hh, Nat2Z.id.
Qed.

(** The digests a successful walk memoises. *)
Definition memo_ok (c : BlockCache) (l : list Digest) : Prop :=
  forall d e, d ∈ l -> by_digest c !! d = Some e -> has_lineage e.

Lemma chain_walk_sound c a n cur acc walked r :
  cache_ok c -> chain_walk (by_digest c) genesis a n cur acc = (true, walked, r) ->
  lineage a n cur /\ (memo_ok c acc -> memo_ok c walked).
Proof.
  intros Hc. revert cur acc. induction n as [|n IH]; intros cur acc; cbn [chain_walk].
  - destruct (Z.eqb_spec cur genesis) as [->|]; [|done]. intros [= <- _]. split; [constructor|done].
  - destruct (Z.eqb_spec cur genesis) as [->|Hg]; [done|].
    destruct (by_digest c !! cur) as [e|] eqn:He; [|done].
    destruct (pinned_at e a _) eqn:Hpin; cbn [negb]; [|done].
    destruct (ent_block_ok_verified e) eqn:Hok; cbn [negb]; [|done].
    pose proof (has_lineage_at _ _ _ _ _ Hc He Hpin) as Hiff.
    destruct (ent_chain_verified e) eqn:Hcv.
    + intros [= <- _]. split; [|done]. apply Hiff. eapply co_chain; eauto.
    + intros [Hl Hm]%IH. assert (Hcur : lineage a (S n) cur) by (by eapply lineage_step).
      split; [done|]. intros Hacc. apply Hm. intros d e' [Hd| ->%list_elem_of_singleton]%elem_of_app He'.
      * by eapply Hacc.
      * rewrite He in He'. injection He' as <-. by apply Hiff.
Qed.

Lemma direct_walk_sound c a n cur acc walked r :
  cache_ok c -> direct_walk (by_digest c) genesis a n cur acc = (DVerified, walked, r) ->
  lineage a n cur /\ (memo_ok c acc -> memo_ok c walked).
Proof.
  intros Hc. revert cur acc. induction n as [|n IH]; intros cur acc; cbn [direct_walk].
  - destruct (Z.eqb_spec cur genesis) as [->|]; [|done]. intros [= <- _]. split; [constructor|done].
  - destruct (Z.eqb_spec cur genesis) as [->|Hg]; [done|].
    destruct (by_digest c !! cur) as [e|] eqn:He; [|done].
    destruct (pinned_at e a _) eqn:Hpin; cbn [negb]; [|done].
    pose proof (has_lineage_at _ _ _ _ _ Hc He Hpin) as Hiff.
    destruct (ent_direct_prefix_verified e) eqn:Hcv.
    + intros [= <- _]. split; [|done]. apply Hiff. eapply co_chain; eauto.
    + destruct (_ && _); cbn [negb]; [|done].
      intros [Hl Hm]%IH. assert (Hcur : lineage a (S n) cur) by (by eapply lineage_step).
      split; [done|]. intros Hacc. apply Hm. intros d e' [Hd| ->%list_elem_of_singleton]%elem_of_app He'.
      * by eapply Hacc.
      * rewrite He in He'. injection He' as <-. by apply Hiff.
Qed.

Lemma lookup_mark_all f ds c d :
  (forall e, f (f e) = f e) ->
  by_digest (mark_all f ds c) !! d =
    (fun e => if decide (d ∈ ds) then f e else e) <$> by_digest c !! d.
Proof.
  intros Hf. unfold mark_all. cbn. generalize (by_digest c). clear c.
  induction ds as [|d' ds IH]; intros m; cbn [foldl].
  - case_decide; [set_solver|]. by destruct (m !! d).
  - rewrite IH. destruct (decide (d' = d)) as [->|Hne].
    + rewrite lookup_alter_eq. destruct (m !! d); [|done]. simpl. f_equal.
      rewrite (decide_True (P := d ∈ d :: ds)) by set_solver. case_decide; [apply Hf|done].
    + rewrite lookup_alter_ne by done. destruct (m !! d); [|done]. simpl. f_equal.
      repeat case_decide; set_solver.
Qed.

(** Setting a memo flag on blocks that have a lineage. *)
Lemma cache_ok_mark c f ds :
  cache_ok c -> (forall e, f (f e) = f e) -> (forall e, ent_block (f e) = ent_block e) ->
  memo_ok c ds -> cache_ok (mark_all f ds c).
Proof.
  intros Hc Hf Hb Hm. apply (cache_ok_entries c); try done; [apply Hc| |].
  - intros d. rewrite lookup_mark_all by done. destruct (by_digest c !! d); [|done]. simpl.
    f_equal. by case_decide.
  - intros d e'. rewrite lookup_mark_all by done.
    destruct (by_digest c !! d) as [e|] eqn:He; [|done]. intros [= <-]. case_decide as Hd.
    + intros _. unfold has_lineage. rewrite Hb. by eapply Hm.
    + by eapply co_chain.
Qed.

Lemma verified_prefix_ok h c :
  cache_ok c -> cache_ok (verified_prefix_through_genesis genesis h c).2.
Proof.
  intros Hc. unfold verified_prefix_through_genesis. destruct (by_digest c !! h) as [e|]; [|done].
  destruct (ent_chain_verified e); [done|].
  destruct (chain_walk _ _ _ _ _ _) as [[[] walked] r] eqn:Hw; [|by apply cache_ok_note_missing].
  apply chain_walk_sound in Hw as [_ Hm]; [|done]. apply cache_ok_mark; try done. apply Hm. by intros d e' ?%not_elem_of_nil.
Qed.

Lemma direct_prefix_check_ok h c :
  cache_ok c -> cache_ok (direct_prefix_check genesis h c).2.
Proof.
  intros Hc. unfold direct_prefix_check. destruct (by_digest c !! h) as [e|]; [|done].
  destruct (ent_direct_prefix_verified e); [done|].
  destruct (direct_walk _ _ _ _ _ _) as [[[|g|] walked] r] eqn:Hw; [|by apply cache_ok_note_missing|by apply cache_ok_note_missing].
  apply direct_walk_sound in Hw as [_ Hm]; [|done]. apply cache_ok_mark; try done. apply Hm. by intros d e' ?%not_elem_of_nil.
Qed.

Lemma elem_of_index_insert c c' a h d a' h' d' :
  by_author c' = index_insert a h d (by_author c) ->
  d' ∈ indexed c' a' h' <-> (a' = a /\ h' = h /\ d' = d) \/ d' ∈ indexed c a' h'.
Proof.
  intros Hc. unfold indexed. rewrite Hc. unfold index_insert.
  destruct (decide (a' = a)) as [->|Ha].
  - rewrite lookup_insert_eq. cbn [mbind option_bind].
    destruct (decide (h' = h)) as [->|Hh].
    + rewrite lookup_insert_eq. cbn [default]. destruct (by_author c !! a); simpl;
        [set_solver|rewrite lookup_empty; set_solver].
    + rewrite lookup_insert_ne by done. destruct (by_author c !! a); simpl;
        [set_solver|rewrite lookup_empty; set_solver].
  - rewrite lookup_insert_ne by done. set_solver.
Qed.

Context (Hbind : header_binding cm sid max_block_payload).

(** Two cached copies of a digest have the same coordinates. *)
Lemma valid_coord h h' : valid h -> valid h' -> hd_id h = hd_id h' -> coord h = coord h'.
Proof. intros [? ?] [? ?]. by apply Hbind. Qed.

Lemma cache_ok_upsert b direct repaired payload_ok ok c :
  cache_ok c -> valid b -> cache_ok (upsert b direct repaired payload_ok ok c).
Proof.
  intros Hc Hb. unfold upsert. set (entry := match by_digest c !! hd_id b with Some _ => _ | None => _ end).
  assert (Hent : ent_block entry = b /\
    (ent_chain_verified entry = true \/ ent_direct_prefix_verified entry = true -> has_lineage entry)).
  { unfold entry. destruct (by_digest c !! hd_id b) as [e|] eqn:He; cbn; [|naive_solver].
    split; [done|]. intros Hf. destruct (co_valid _ Hc _ _ He) as [Hid Hv].
    pose proof (valid_coord _ _ Hb Hv (eq_sym Hid)) as [= H1 H2 H3].
    pose proof (co_chain _ Hc _ _ He Hf) as Hl. unfold has_lineage in *. cbn. by rewrite H1, H2, <- Hid. }
  destruct Hent as [Hblk Hlin].
  assert (Hold : forall d e, by_digest c !! d = Some e -> d = hd_id b -> coord (ent_block e) = coord b).
  { intros d e He ->. destruct (co_valid _ Hc _ _ He) as [Hid Hv]. by apply valid_coord. }
  split; cbn [by_digest by_author missing_parents setter set_by_digest set_by_author].
  - intros d e. rewrite lookup_insert_Some. intros [[<- <-]|[_ He]]; [by rewrite Hblk|by apply Hc].
  - intros d e. rewrite lookup_insert_Some. intros [[<- <-]|[_ He]]; [done|by apply (co_chain _ Hc d)].
  - intros a h d. rewrite (elem_of_index_insert c) by reflexivity. rewrite (co_index _ Hc). split.
    + intros [(-> & -> & ->)|(e & He & Ha & Hh)].
      * exists entry. rewrite lookup_insert_eq, Hblk. done.
      * destruct (decide (d = hd_id b)) as [->|Hne].
        -- exists entry. rewrite lookup_insert_eq, Hblk.
           pose proof (Hold _ _ He eq_refl) as [= H1 H2 _]. split_and!; congruence.
        -- exists e. by rewrite lookup_insert_ne.
    + intros (e & He & Ha & Hh). apply lookup_insert_Some in He as [[<- <-]|[_ He]].
      * left. rewrite Hblk in *. done.
      * right. by exists e.
  - apply Hc.
Qed.

Lemma cache_ok_anchor b c :
  cache_ok c -> lineage (hd_author b) (Z.to_nat (hd_height b)) (hd_id b) ->
  (forall e, by_digest c !! hd_id b = Some e -> ent_block e = b) ->
  cache_ok (c <| by_digest ::= alter anchored (hd_id b) |>).
Proof.
  intros Hc Hl He. apply (cache_ok_entries c); cbn [by_digest by_author missing_parents setter set_by_digest];
    try done; [apply Hc| |].
  - intros d. destruct (decide (hd_id b = d)) as [<-|].
    + rewrite lookup_alter_eq. by destruct (by_digest c !! hd_id b).
    + by rewrite lookup_alter_ne.
  - intros d e. destruct (decide (hd_id b = d)) as [<-|].
    + rewrite lookup_alter_eq. destruct (by_digest c !! hd_id b) as [e0|] eqn:He0; [|done].
      intros [= <-] _. unfold has_lineage. cbn. by rewrite (He _ eq_refl).
    + rewrite lookup_alter_ne by done. apply Hc.
Qed.

Lemma upsert_block b direct repaired payload_ok ok c e :
  by_digest (upsert b direct repaired payload_ok ok c) !! hd_id b = Some e -> ent_block e = b.
Proof.
  unfold upsert. cbn [by_digest setter set_by_digest set_by_author]. rewrite lookup_insert_eq.
  intros [= <-]. by destruct (by_digest c !! hd_id b).
Qed.

(** Changing flags of one entry. *)
Lemma cache_ok_flag c d e e' :
  cache_ok c -> by_digest c !! d = Some e -> ent_block e' = ent_block e ->
  ent_chain_verified e' = ent_chain_verified e ->
  ent_direct_prefix_verified e' = ent_direct_prefix_verified e ->
  cache_ok (c <| by_digest ::= <[ d := e' ]> |>).
Proof.
  intros Hc He Hb H1 H2. apply (cache_ok_entries c); cbn [by_digest by_author missing_parents setter set_by_digest];
    try done; [apply Hc| |].
  - intros d'. destruct (decide (d = d')) as [<-|].
    + rewrite lookup_insert_eq, He. simpl. by f_equal.
    + by rewrite lookup_insert_ne.
  - intros d' e0. rewrite lookup_insert_Some. intros [[<- <-]|[_ He0]]; [|by apply (co_chain _ Hc d')].
    rewrite H1, H2. unfold has_lineage. rewrite Hb. by apply (co_chain _ Hc d).
Qed.

Lemma cache_ok_evict a h c : cache_ok c -> cache_ok (evict_author_below a h c).2.
Proof.
  intros Hc. unfold evict_author_below. destruct (by_author c !! a) as [bh|] eqn:Hbh; [|done].
  set (keep := map_split_off h bh). set (below := union_list _).
  assert (Hbelow : forall d, d ∈ below <-> exists e, by_digest c !! d = Some e /\
    hd_author (ent_block e) = a /\ hd_height (ent_block e) < h).
  { intros d. unfold below. rewrite elem_of_union_list. split.
    - intros (X & ([h' X'] & -> & Hin)%list_elem_of_fmap & HX). simpl in HX.
      apply elem_of_map_to_list, map_lookup_filter_Some in Hin as [Hin Hlt].
      assert (Hi : d ∈ indexed c a h') by (unfold indexed; rewrite Hbh; simpl; by rewrite Hin).
      apply (co_index _ Hc) in Hi as (e & ? & ? & <-). by exists e.
    - intros (e & He & Ha & Hh).
      assert (Hi : d ∈ indexed c a (hd_height (ent_block e))) by (apply (co_index _ Hc); by exists e).
      unfold indexed in Hi. rewrite Hbh in Hi. simpl in Hi.
      destruct (bh !! hd_height (ent_block e)) as [X|] eqn:HX; [|set_solver]. simpl in Hi.
      exists X. split; [|done]. apply list_elem_of_fmap. exists (hd_height (ent_block e), X).
      split; [done|]. apply elem_of_map_to_list, map_lookup_filter_Some. done. }
  set (ba := if decide (keep = ∅) then delete a else <[ a := keep ]>).
  assert (Hidx : forall a' h', default ∅ (ba (by_author c) !! a' ≫= lookup h') =
    if decide (a' = a /\ h' < h) then ∅ else indexed c a' h').
  { intros a' h'. unfold indexed. destruct (decide (a' = a)) as [->|Ha].
    - transitivity (default ∅ (keep !! h')).
      + unfold ba. case_decide as Hk; [rewrite lookup_delete_eq, Hk, lookup_empty|rewrite lookup_insert_eq]; done.
      + rewrite Hbh. simpl. unfold keep. rewrite lookup_map_split_off. repeat case_match; try done; lia || naive_solver lia.
    - rewrite decide_False by tauto. unfold ba. case_decide; [by rewrite lookup_delete_ne|by rewrite lookup_insert_ne]. }
  split; cbn [snd by_digest by_author missing_parents setter set_by_digest set_by_author].
  - intros d e [He _]%map_lookup_filter_Some. by apply Hc.
  - intros d e [He _]%map_lookup_filter_Some. by apply (co_chain _ Hc d).
  - intros a' h' d. unfold indexed at 1. cbn [by_author]. rewrite Hidx.
    setoid_rewrite map_lookup_filter_Some. case_decide as Hd.
    + split; [set_solver|]. intros (e & [He Hn] & Ha & Hh). destruct Hn. apply Hbelow. exists e. naive_solver.
    + rewrite (co_index _ Hc). split.
      * intros (e & He & Ha & Hh). exists e. split_and!; try done.
        cbn [fst]. intros (e' & He' & Ha' & Hh')%Hbelow. rewrite He in He'. injection He' as <-.
        apply Hd. split; [congruence|lia].
      * intros (e & [He _] & ? & ?). by exists e.
  - apply Hc.
Qed.

(** ** Every use of the cache *)

Inductive CacheOp :=
| OpUpsert (b : Header) (direct repaired payload_ok : bool)
| OpSeedOwn (b : Header)
| OpSeedRecovered (b : Header)
| OpMarkRetained (d : Digest)
| OpSetPayloadOk (d : Digest) (ok : bool)
| OpEvict (a : PublicKey) (h : Height)
| OpTakeMissing (cap : nat)
| OpDirectPrefix (d : Digest)
| OpVerifiedPrefix (d : Digest).

Definition cache_exec (op : CacheOp) (c : BlockCache) : BlockCache :=
  match op with
  | OpUpsert b direct repaired payload_ok => upsert b direct repaired payload_ok true c
  | OpSeedOwn b => seed_own_anchor b c
  | OpSeedRecovered b => seed_recovered_own_anchor b c
  | OpMarkRetained d => (mark_retained d c).2
  | OpSetPayloadOk d ok => (set_payload_ok d ok c).2
  | OpEvict a h => (evict_author_below a h c).2
  | OpTakeMissing cap => (take_missing_parents cap c).2
  | OpDirectPrefix d => (direct_prefix_ok genesis d c).2
  | OpVerifiedPrefix d => (verified_prefix_through_genesis genesis d c).2
  end.

(** As the callers ensure: only blocks that passed [block_ok] are inserted, and
    an anchor's ancestry has been verified or certified. *)
Definition cache_op_ok (op : CacheOp) : Prop :=
  match op with
  | OpUpsert b _ _ _ => valid b
  | OpSeedOwn b | OpSeedRecovered b =>
      valid b /\ lineage (hd_author b) (Z.to_nat (hd_height b)) (hd_id b)
  | _ => True
  end.

Lemma cache_exec_ok op c : cache_ok c -> cache_op_ok op -> cache_ok (cache_exec op c).
Proof.
  intros Hc. destruct op as [b dr rp pl|b|b|d|d ok|a h|cap|d|d]; cbn [cache_op_ok cache_exec].
  - intros Hb. by apply cache_ok_upsert.
  - intros [Hb Hl]. apply cache_ok_anchor; [by apply cache_ok_upsert|done|]. intros e. apply upsert_block.
  - intros [Hb Hl]. apply cache_ok_anchor; [by apply cache_ok_upsert|done|]. intros e. apply upsert_block.
  - intros _. unfold mark_retained. destruct (by_digest c !! d) as [e|] eqn:He; [|done].
    destruct (ent_retained e); [done|]. by apply (cache_ok_flag c d e).
  - intros _. unfold set_payload_ok. destruct (by_digest c !! d) as [e|] eqn:He; [|done].
    destruct (ok && _); [|done]. by apply (cache_ok_flag c d e).
  - intros _. by apply cache_ok_evict.
  - intros _. apply (cache_ok_entries c); try done; [|apply Hc].
    cbn. etransitivity; [|apply (co_missing _ Hc)]. apply subseteq_size. set_solver.
  - intros _. by apply direct_prefix_check_ok.
  - intros _. by apply verified_prefix_ok.
Qed.

Lemma cache_run_ok ops c :
  cache_ok c -> Forall cache_op_ok ops -> cache_ok (foldl (fun c op => cache_exec op c) c ops).
Proof.
  intros Hc Hops. revert c Hc. induction Hops; intros c Hc; [done|]. simpl. by apply IHHops, cache_exec_ok.
Qed.

(** ** Walks do not depend on the cache *)

Lemma entries_agree c c' d e e' :
  cache_ok c -> cache_ok c' -> by_digest c !! d = Some e -> by_digest c' !! d = Some e' ->
  coord (ent_block e) = coord (ent_block e').
Proof.
  intros Hc Hc' He He'. destruct (co_valid _ Hc _ _ He) as [H1 ?], (co_valid _ Hc' _ _ He') as [H2 ?].
  apply valid_coord; [done..|]. by rewrite H1, H2.
Qed.

Lemma path_agree c c' a n d l l' k d1 d2 :
  cache_ok c -> cache_ok c' -> path (by_digest c) a n d l k d1 -> path (by_digest c') a n d l' k d2 ->
  l = l' /\ d1 = d2.
Proof.
  intros Hc Hc' Hp. revert l'. induction Hp as [n d|n d e l k d1 He _ _ Hp IH]; intros l' Hp'.
  - by apply path_refl in Hp' as [-> ->].
  - pose proof (path_le _ _ _ _ _ _ _ Hp) as [Hle _].
    inversion Hp' as [|? ? e' l0 ? ? He' _ _ Hp2]; subst; [lia|].
    pose proof (entries_agree _ _ _ _ _ Hc Hc' He He') as [= _ _ Hpar].
    rewrite <- Hpar in Hp2. destruct (IH _ Hp2) as [-> ->]. done.
Qed.

(** Two paths from one block at different depths share their upper part. *)
Lemma path_split m a n d l k d' j :
  path m a n d l k d' -> (k <= j <= n)%nat -> exists l1 dj, path m a n d l1 j dj.
Proof.
  induction 1 as [n d|n d e l k d' He Hpin Hok Hp IH]; intros Hj.
  - assert (j = n) as -> by lia. exists [], d. constructor.
  - destruct (decide (j = S n)) as [->|]; [exists [], d; constructor|].
    destruct IH as (l1 & dj & Hl); [lia|]. exists (d :: l1), dj. by econstructor.
Qed.

Lemma classify_suffix_agree c c' stop_height stop_digest h :
  cache_ok c -> cache_ok c' ->
  classify_suffix stop_height stop_digest h c <> SPending ->
  classify_suffix stop_height stop_digest h c' <> SPending ->
  classify_suffix stop_height stop_digest h c = classify_suffix stop_height stop_digest h c'.
Proof.
  intros Hc Hc'. unfold classify_suffix.
  destruct (by_digest c !! h) as [e|] eqn:He; [|done]. destruct (by_digest c' !! h) as [e'|] eqn:He'; [|done].
  pose proof (entries_agree _ _ _ _ _ Hc Hc' He He') as [= Ha Hh _]. rewrite <- Ha, <- Hh.
  set (n := Z.to_nat (hd_height _)). set (a := hd_author _).
  destruct (Z.lt_ge_cases stop_height 0) as [Hneg|Hs].
  { pose proof (suffix_walk_negative (by_digest c) a stop_height stop_digest n h [] ).
    pose proof (suffix_walk_negative (by_digest c') a stop_height stop_digest n h []).
    destruct (suffix_walk (by_digest c) _ _ _ _ _ _), (suffix_walk (by_digest c') _ _ _ _ _ _); naive_solver. }
  rewrite <- (Z2Nat.id stop_height) by done. set (k := Z.to_nat stop_height).
  destruct (suffix_walk (by_digest c) _ _ _ _ _ _) as [ch| |] eqn:H1; [|done|];
    destruct (suffix_walk (by_digest c') _ _ _ _ _ _) as [ch'| |] eqn:H2; try done; intros _ _.
  - apply suffix_walk_ready in H1 as (l & Hp & ->). apply suffix_walk_ready in H2 as (l' & Hp' & ->).
    by destruct (path_agree _ _ _ _ _ _ _ _ _ _ Hc Hc' Hp Hp') as [-> _].
  - apply suffix_walk_ready in H1 as (l & Hp & ->).
    apply suffix_walk_forked in H2 as (l' & d & [[Hp' Hne]|[Hlt Hp']]).
    + by destruct (path_agree _ _ _ _ _ _ _ _ _ _ Hc Hc' Hp Hp') as [_ <-].
    + apply path_le in Hp. lia.
  - apply suffix_walk_ready in H2 as (l & Hp & ->).
    apply suffix_walk_forked in H1 as (l' & d & [[Hp' Hne]|[Hlt Hp']]).
    + by destruct (path_agree _ _ _ _ _ _ _ _ _ _ Hc Hc' Hp' Hp) as [_ <-].
    + apply path_le in Hp. lia.
Qed.

(** A cache that keeps every verified entry of another. *)
Definition extends (c c' : BlockCache) : Prop := forall d e,
  by_digest c !! d = Some e -> ent_block_ok_verified e = true ->
  exists e', by_digest c' !! d = Some e' /\ ent_block_ok_verified e' = true.

Lemma path_extends c c' a n d l k d' :
  cache_ok c -> cache_ok c' -> extends c c' -> path (by_digest c) a n d l k d' ->
  path (by_digest c') a n d l k d'.
Proof.
  intros Hc Hc' Hx. induction 1 as [n d|n d e l k d' He Hpin Hok Hp IH]; [constructor|].
  destruct (Hx _ _ He Hok) as (e' & He' & Hok').
  pose proof (entries_agree _ _ _ _ _ Hc Hc' He He') as [= Ha Hh Hpar].
  econstructor; [done| |done|by rewrite <- Hpar].
  apply pinned_at_spec. apply pinned_at_spec in Hpin as [<- <-]. by rewrite Ha, Hh.
Qed.
End chains.

(** C26: however the block cache is used - inserting blocks that passed
    [block_ok], seeding certified anchors, evicting, memoising walks - it holds
    under each digest a valid block of that digest; a block marked
    chain-verified or direct-prefix-verified has a lineage of valid blocks of its
    author, one per height, down to genesis, even if ancestors were evicted
    since; the per-author index lists exactly the cached blocks; and at most
    [MISSING_PARENTS_CAP] missing coordinates are kept. *)
Theorem cache_invariant {Hash : Hashing} cm sid mbp ops :
  header_binding cm sid mbp -> Forall (cache_op_ok cm sid mbp) ops ->
  cache_ok cm sid mbp (foldl (fun c op => cache_exec sid op c) cache_new ops).
Proof. intros Hb Hops. apply cache_run_ok; [done|apply cache_ok_new|done]. Qed.

(** [verified_prefix_through_genesis] is sound and complete.  It accepts only
    a cached block with a lineage of valid blocks to genesis, memo or not; it
    accepts every block whose ancestors down to genesis are all cached and
    verified; and when it refuses, the only coordinate it may report as missing
    is that of an ancestor reached through verified blocks and not cached. *)
Theorem verified_prefix_exact {Hash : Hashing} cm sid mbp c h :
  cache_ok cm sid mbp c ->
  let r := verified_prefix_through_genesis (genesis_digest sid) h c in
  (r.1 = true -> exists e, by_digest c !! h = Some e /\ has_lineage cm sid mbp e) /\
  (forall e l, by_digest c !! h = Some e ->
    path (by_digest c) (hd_author (ent_block e)) (Z.to_nat (hd_height (ent_block e))) h l 0 (genesis_digest sid) ->
    genesis_digest sid ∉ l -> r.1 = true) /\
  (forall a k d, (a, k, d) ∈ missing_parents r.2 -> (a, k, d) ∉ missing_parents c ->
    exists e l, by_digest c !! h = Some e /\ a = hd_author (ent_block e) /\ by_digest c !! d = None /\
      path (by_digest c) a (Z.to_nat (hd_height (ent_block e))) h l (Z.to_nat k) d).
Proof.
  intros Hc. cbn zeta. unfold verified_prefix_through_genesis.
  destruct (by_digest c !! h) as [e|] eqn:He; [|done].
  destruct (ent_chain_verified e) eqn:Hcv.
  { split_and!; [|done|done]. intros _. exists e. split; [done|]. eapply co_chain; eauto. }
  destruct (chain_walk _ _ _ _ _ _) as [[b walked] r] eqn:Hw. destruct b; cbn [fst snd].
  - split_and!; [|done|done]. intros _. exists e. split; [done|].
    apply (chain_walk_sound cm sid mbp) in Hw as [Hl _]; [|done].
    destruct (co_valid _ _ _ _ Hc _ _ He) as [Hid _]. unfold has_lineage. by rewrite Hid.
  - split_and!; [done| |].
    + intros e' l [= <-] Hp Hg. destruct (chain_walk_complete _ _ _ _ _ _ [] Hp Hg) as (w & Hw'). congruence.
    + intros a k d Hin Hnew. destruct r as [[[a' k'] d']|]; [|done]. cbn [note_missing] in Hin.
      unfold note_missing_parent in Hin. destruct (_ <=? _)%nat; [done|].
      apply elem_of_union in Hin as [[= -> -> ->]%elem_of_singleton|]; [|done].
      apply chain_walk_missing in Hw as (l & k0 & d0 & [= -> -> ->] & Hn & Hp).
      exists e, l. by rewrite Nat2Z.id.
Qed.

(** C25: whether a suffix above a coordinate is complete or contradicts it does
    not depend on who asks: two nodes whose caches both decide it get the same
    answer, with the same digests in the same order, and the chain returned is
    the path of verified blocks from the coordinate to the target in ascending
    order. *)
Theorem suffix_agreement {Hash : Hashing} cm sid mbp c c' stop_height stop_digest h :
  header_binding cm sid mbp -> cache_ok cm sid mbp c -> cache_ok cm sid mbp c' -> 0 <= stop_height ->
  let r := classify_suffix stop_height stop_digest h c in
  let r' := classify_suffix stop_height stop_digest h c' in
  (r <> SPending -> r' <> SPending -> r = r') /\
  (forall chain, r = SReady chain -> exists e, by_digest c !! h = Some e /\
    path (by_digest c) (hd_author (ent_block e)) (Z.to_nat (hd_height (ent_block e))) h
      (reverse chain) (Z.to_nat stop_height) stop_digest).
Proof.
  intros Hb Hc Hc' Hs. cbn zeta. split; [by apply (classify_suffix_agree cm sid mbp)|].
  intros chain. unfold classify_suffix. destruct (by_digest c !! h) as [e|] eqn:He; [|done].
  rewrite <- (Z2Nat.id stop_height) at 1 by done.
  intros (l & Hp & ->)%suffix_walk_ready. exists e. split; [done|]. by rewrite reverse_involutive.
Qed.

(** The genesis digest and the digests of valid blocks cover byte strings of
    different lengths. *)
Lemma genesis_apart_of_injective {Hash : Hashing} cm sid mbp :
  Inj (=) (=) blake3 -> genesis_apart cm sid mbp.
Proof.
  intros Hinj b [_ Hok] Hid. unfold block_ok in Hok.
  repeat match type of Hok with _ && _ = true => apply andb_true_iff in Hok as [Hok _] end.
  apply Z.eqb_eq in Hok. unfold genesis_digest, domain_hash in Hid. rewrite <- Hok in Hid.
  unfold header_digest in Hid. apply Hinj, (f_equal length) in Hid. unfold header_bytes in Hid.
  rewrite !length_app in Hid. unfold digest_bytes in Hid. rewrite !length_be_bytes in Hid. simpl in Hid. lia.
Qed.

(** ** Concrete lanes

    Lanes of three blocks of party 20 and two of party 30.  The hash is injective
    and gives the digests 1 to 6 to genesis and to these blocks. *)

Definition lane_block (a : PublicKey) (height : Height) (par id : Digest) : Header :=
  mkHeader a height ∅ (mkCertificate a par (height - 1) []) id None (Some 7) ∅ 0 false.

Definition lanes_blocks : list Header :=
  [lane_block 20 1 1 2; lane_block 20 2 2 3; lane_block 20 3 3 4; lane_block 30 1 1 5; lane_block 30 2 5 6].

Definition genesis_bytes : list Z := ascii_bytes "data-block" ++ digest_bytes 7 ++ ascii_bytes "genesis".

Definition table : list (list Z) := genesis_bytes :: (header_bytes <$> lanes_blocks).

Definition table_hashing : Hashing := {|
  blake3 := fun l =>
    match list_find (eq l) table with
    | Some (i, _) => Z.of_nat i + 1
    | None => 256 ^ 32 + Z.pos (encode l)
    end;
  bincode_view_proposal := bincode_view_proposal (Hashing := coded_hashing);
  bincode_batch_view_proposal := bincode_batch_view_proposal (Hashing := coded_hashing);
|}.

Lemma table_injective : Inj (=) (=) (@blake3 table_hashing).
Proof.
  assert (Hsmall : forall l i x, list_find (eq l) table = Some (i, x) -> table !! i = Some l /\ Z.of_nat i < 256).
  { intros l i x (Hi & -> & _)%list_find_Some. split; [done|]. apply lookup_lt_Some in Hi.
    assert (length table < 256)%nat by (apply Nat.ltb_lt; vm_compute; reflexivity). lia. }
  intros l l'. cbn [blake3 table_hashing].
  destruct (list_find (eq l) table) as [[i x]|] eqn:Hl, (list_find (eq l') table) as [[i' x']|] eqn:Hl'; intros Heq.
  - apply Hsmall in Hl as [Hl _]. apply Hsmall in Hl' as [Hl' _].
    assert (i = i') as -> by lia. congruence.
  - apply Hsmall in Hl as [_ ?]. lia.
  - apply Hsmall in Hl' as [_ ?]. lia.
  - assert (Z.pos (encode l) = Z.pos (encode l')) as Hp by lia. by apply (inj Z.pos), (inj encode) in Hp.
Qed.

Lemma table_binding : @header_binding table_hashing committee4 7 100.
Proof. apply binding_of_injective, table_injective. Qed.

Lemma lanes_valid h : h ∈ lanes_blocks -> @valid table_hashing committee4 7 100 h.
Proof.
  unfold lanes_blocks. intros Hin. repeat (apply elem_of_cons in Hin as [-> |Hin]);
    [..|by apply not_elem_of_nil in Hin];
    (split; [unfold typed_header, is_digest, is_u64, u64_max, u64_modulus; cbn; lia|vm_compute; reflexivity]).
Qed.

(** All blocks arrive, lane 20's prefix is verified, then its first block is evicted. *)
Definition lanes_ops : list CacheOp :=
  ((fun h => OpUpsert h true false true) <$> lanes_blocks) ++ [OpVerifiedPrefix 4; OpEvict 20 2].

Definition lanes_cache (n : nat) : BlockCache :=
  foldl (fun c op => @cache_exec table_hashing 7 op c) cache_new (take n lanes_ops).

Lemma lanes_ops_ok : Forall (@cache_op_ok table_hashing committee4 7 100) lanes_ops.
Proof.
  apply Forall_app. split; [|by repeat constructor].
  apply Forall_fmap, Forall_forall. intros h Hh. by apply lanes_valid.
Qed.

Lemma cache_invariant_witness :
  ent_chain_verified <$> by_digest (lanes_cache 7) !! 3 = Some true /\
  by_digest (lanes_cache 7) !! 2 = None /\
  @cache_ok table_hashing committee4 7 100 (lanes_cache 7).
Proof.
  split; [vm_compute; reflexivity|]. split; [vm_compute; reflexivity|].
  apply (@cache_invariant table_hashing committee4 7 100 (take 7 lanes_ops) table_binding).
  apply Forall_take, lanes_ops_ok.
Defined.

Lemma lanes_cache_ok n : @cache_ok table_hashing committee4 7 100 (lanes_cache n).
Proof.
  apply cache_run_ok; [apply table_binding|apply cache_ok_new|]. apply Forall_take, lanes_ops_ok.
Qed.

Lemma verified_prefix_exact_witness :
  (@verified_prefix_through_genesis 1 4 (lanes_cache 5)).1 = true /\
  exists e, by_digest (lanes_cache 5) !! 4 = Some e /\ @has_lineage table_hashing committee4 7 100 e.
Proof.
  split; [vm_compute; reflexivity|].
  apply (@verified_prefix_exact table_hashing committee4 7 100 (lanes_cache 5) 4 (lanes_cache_ok 5)).
  vm_compute. reflexivity.
Defined.

Lemma suffix_agreement_witness :
  classify_suffix 1 2 4 (lanes_cache 5) = SReady [3; 4] /\
  classify_suffix 1 2 4 (lanes_cache 5) = classify_suffix 1 2 4 (lanes_cache 7).
Proof.
  split; [vm_compute; reflexivity|].
  apply (@suffix_agreement table_hashing committee4 7 100 (lanes_cache 5) (lanes_cache 7) 1 2 4
    table_binding (lanes_cache_ok 5) (lanes_cache_ok 7)).
  - lia.
  - by vm_compute.
  - by vm_compute.
Defined.
