(* ===== verification/Repair.v ===== *)
(** The repairer.

    Models [Repairer] of [src/primary/src/vantage/repair.rs]: a reference that was
    authorised is settled once its whole prefix is cached and verified; until
    then the walk records the missing digest it waits for and asks peers for it,
    in rounds of growing width under an emission budget and a cap on requests in
    flight; requests of other parties are answered from retained blocks.

    The block cache is shared with the lane manager, so a handler acts on the
    pair of the repairer and the cache.  The committee-indexed containers are the
    maps [IndexRefine] shows them to be.  Left out: metrics and the step counters;
    the counter of dropped inbound messages that [adapt_recovery_ceiling] reads
    from the metrics is an argument of [retry_requests].  Where the source
    iterates over a hash set the model uses one fixed order. *)

From S2P Require Import Prelude Committee Types Blocks.

Definition FANOUT_FIRST : Z := 4.
Definition FANOUT_ESCALATE_BUDGET : nat := 256.
Definition RECOVERY_EMIT_START : Z := 2048.
Definition RECOVERY_EMIT_MIN : Z := 256.
Definition RECOVERY_EMIT_MAX : Z := 65536.
Definition CORE_QUEUE_CONGESTED : Z := 256.
Definition RECOVERY_IN_FLIGHT_MAX : Z := 512.
Definition ASK_TIMEOUT_TICKS : Z := 4.
Definition ESCALATE_WIDTH_MAX : Z := 8.
Definition REFETCH_COOLDOWN_TICKS : Z := 10.

Record FanoutState := mkFanoutState {
  fo_author : PublicKey;
  fo_height : Height;
  fo_start : Z;
  fo_asked : Z;
  fo_next_width : Z;
  fo_in_flight_asks : Z;
  fo_asked_at : Z;
}.

Record RepairPosition := mkRepairPosition {
  rp_settled : bool;
  rp_pending_settle : bool;
  rp_blocked_at : option Digest;
}.

Definition rp_default : RepairPosition := mkRepairPosition false false None.

Record Repairer := mkRepairer {
  r_committee : Committee;
  r_peers : list PublicKey;
  r_sid : Digest;
  r_genesis : Digest;
  r_max_block_payload : Z;
  r_positions : gmap BlockRef RepairPosition;
  r_pending_settle : Z;
  r_blocked_on : gmap Digest (gset BlockRef);
  r_requested : gset (PublicKey * Digest);
  r_requested_hashes : gset Digest;
  r_fanout : gmap Digest FanoutState;
  r_fanout_queue : gset (Height * Digest);
  r_holders : gmap (PublicKey * PublicKey) Height;
  r_refetch_at : gmap Digest Z;
  r_emit_budget : Z;
  r_emit_ceiling : Z;
  r_last_bulk_drops : Z;
  r_core_queue_len : Z;
  r_ticks : Z;
  r_in_flight : Z;
  r_pending_req : gmap Digest (gset PublicKey);
  r_answered : gset (PublicKey * Digest);
}.

Definition r_eta (r : Repairer) : Repairer :=
  mkRepairer (r_committee r) (r_peers r) (r_sid r) (r_genesis r) (r_max_block_payload r) (r_positions r)
    (r_pending_settle r) (r_blocked_on r) (r_requested r) (r_requested_hashes r) (r_fanout r)
    (r_fanout_queue r) (r_holders r) (r_refetch_at r) (r_emit_budget r) (r_emit_ceiling r)
    (r_last_bulk_drops r) (r_core_queue_len r) (r_ticks r) (r_in_flight r) (r_pending_req r) (r_answered r).

#[export] Instance set_r_positions : Setter r_positions.
Proof. solve_setter r_eta r_positions. Defined.
#[export] Instance set_r_pending_settle : Setter r_pending_settle.
Proof. solve_setter r_eta r_pending_settle. Defined.
#[export] Instance set_r_blocked_on : Setter r_blocked_on.
Proof. solve_setter r_eta r_blocked_on. Defined.
#[export] Instance set_r_requested : Setter r_requested.
Proof. solve_setter r_eta r_requested. Defined.
#[export] Instance set_r_requested_hashes : Setter r_requested_hashes.
Proof. solve_setter r_eta r_requested_hashes. Defined.
#[export] Instance set_r_fanout : Setter r_fanout.
Proof. solve_setter r_eta r_fanout. Defined.
#[export] Instance set_r_fanout_queue : Setter r_fanout_queue.
Proof. solve_setter r_eta r_fanout_queue. Defined.
#[export] Instance set_r_holders : Setter r_holders.
Proof. solve_setter r_eta r_holders. Defined.
#[export] Instance set_r_refetch_at : Setter r_refetch_at.
Proof. solve_setter r_eta r_refetch_at. Defined.
#[export] Instance set_r_emit_budget : Setter r_emit_budget.
Proof. solve_setter r_eta r_emit_budget. Defined.
#[export] Instance set_r_emit_ceiling : Setter r_emit_ceiling.
Proof. solve_setter r_eta r_emit_ceiling. Defined.
#[export] Instance set_r_last_bulk_drops : Setter r_last_bulk_drops.
Proof. solve_setter r_eta r_last_bulk_drops. Defined.
#[export] Instance set_r_core_queue_len : Setter r_core_queue_len.
Proof. solve_setter r_eta r_core_queue_len. Defined.
#[export] Instance set_r_ticks : Setter r_ticks.
Proof. solve_setter r_eta r_ticks. Defined.
#[export] Instance set_r_in_flight : Setter r_in_flight.
Proof. solve_setter r_eta r_in_flight. Defined.
#[export] Instance set_r_pending_req : Setter r_pending_req.
Proof. solve_setter r_eta r_pending_req. Defined.
#[export] Instance set_r_answered : Setter r_answered.
Proof. solve_setter r_eta r_answered. Defined.

Definition fo_eta (f : FanoutState) : FanoutState :=
  mkFanoutState (fo_author f) (fo_height f) (fo_start f) (fo_asked f) (fo_next_width f)
    (fo_in_flight_asks f) (fo_asked_at f).
#[export] Instance set_fo_asked : Setter fo_asked.
Proof. solve_setter fo_eta fo_asked. Defined.
#[export] Instance set_fo_next_width : Setter fo_next_width.
Proof. solve_setter fo_eta fo_next_width. Defined.
#[export] Instance set_fo_in_flight_asks : Setter fo_in_flight_asks.
Proof. solve_setter fo_eta fo_in_flight_asks. Defined.
#[export] Instance set_fo_asked_at : Setter fo_asked_at.
Proof. solve_setter fo_eta fo_asked_at. Defined.

Definition rp_eta (p : RepairPosition) : RepairPosition :=
  mkRepairPosition (rp_settled p) (rp_pending_settle p) (rp_blocked_at p).
#[export] Instance set_rp_settled : Setter rp_settled.
Proof. solve_setter rp_eta rp_settled. Defined.
#[export] Instance set_rp_pending_settle : Setter rp_pending_settle.
Proof. solve_setter rp_eta rp_pending_settle. Defined.
#[export] Instance set_rp_blocked_at : Setter rp_blocked_at.
Proof. solve_setter rp_eta rp_blocked_at. Defined.

(** [committee.others_primaries(&name)]: the other members, in key order. *)
Definition other_members (c : Committee) (name : PublicKey) : list PublicKey :=
  filter (fun k => k <> name) (authority_keys c).

Definition repairer_new (name : PublicKey) (c : Committee) (sid genesis : Digest) (max_block_payload : Z)
    : Repairer :=
  mkRepairer c (other_members c name) sid genesis max_block_payload ∅ 0 ∅ ∅ ∅ ∅ ∅ ∅ ∅
    RECOVERY_EMIT_START RECOVERY_EMIT_START 0 0 0 0 ∅ ∅.

Abbreviation RM := (M Effect (Repairer * BlockCache)) (only parsing).

Definition rep : RM Repairer := fun s => Res s.1 [] s.
Definition on_rep (f : Repairer -> Repairer) : RM () := fun s => Res tt [] (f s.1, s.2).
Definition cache : RM BlockCache := fun s => Res s.2 [] s.
Definition on_cache (f : BlockCache -> BlockCache) : RM () := fun s => Res tt [] (s.1, f s.2).

Definition position (r : BlockRef) (x : Repairer) : RepairPosition := default rp_default (r_positions x !! r).
Definition is_settled (r : BlockRef) (x : Repairer) : bool := rp_settled (position r x).

Definition expect_sequence_digest (digest : Digest) : RM () :=
  on_rep (fun x => x <| r_requested_hashes ::= union {[ digest ]} |>).

(** [entry] creates the default position. *)
Definition note_authorized (r : BlockRef) : RM () :=
  on_rep (fun x =>
    let p := position r x in
    if negb (rp_settled p) && negb (rp_pending_settle p) then
      x <| r_positions ::= <[ r := p <| rp_pending_settle := true |> ]> |> <| r_pending_settle ::= Z.add 1 |>
    else x <| r_positions ::= <[ r := p ]> |>).

Definition mark_settled (r : BlockRef) : RM () :=
  on_rep (fun x =>
    let p := position r x in
    if rp_pending_settle p then
      x <| r_positions ::= <[ r := p <| rp_settled := true |> <| rp_pending_settle := false |> ]> |>
        <| r_pending_settle ::= fun n => n - 1 |>
    else x <| r_positions ::= <[ r := p <| rp_settled := true |> ]> |>).

(** ** Waiting for a missing digest *)

Definition bucket_remove (d : Digest) (r : BlockRef) (m : gmap Digest (gset BlockRef)) : gmap Digest (gset BlockRef) :=
  match m !! d with
  | Some b => let b := b ∖ {[ r ]} in if decide (b = ∅) then delete d m else <[ d := b ]> m
  | None => m
  end.

Definition bucket_add (d : Digest) (r : BlockRef) (m : gmap Digest (gset BlockRef)) : gmap Digest (gset BlockRef) :=
  <[ d := {[ r ]} ∪ default ∅ (m !! d) ]> m.

(** One turn of the loop of [record_blocked]; [get_mut] leaves an absent
    position absent. *)
Definition block_one (h : Digest) (x : Repairer) (r : BlockRef) : Repairer :=
  let previous := r_positions x !! r ≫= rp_blocked_at in
  let x := x <| r_positions ::= alter (fun p => p <| rp_blocked_at := Some h |>) r |> in
  match previous with
  | Some prev =>
      if prev =? h then x
      else x <| r_blocked_on ::= fun m => bucket_add h r (bucket_remove prev r m) |>
  | None => x <| r_blocked_on ::= bucket_add h r |>
  end.

Definition record_blocked (refs : list BlockRef) (h : Digest) : RM () :=
  on_rep (fun x => foldl (block_one h) x refs).

(** ** Asking peers *)

Definition le_value (bs : list Z) : Z := foldr (fun b acc => b + 256 * acc) 0 bs.

(** The first eight bytes of a key or digest, little endian. *)
Definition first8 (d : Z) : Z := le_value (take 8 (digest_bytes d)).

Definition holder_rank (peer : PublicKey) (h : Digest) : Z := Z.lxor (first8 peer) (first8 h).

Definition fanout_start (h : Digest) (n : Z) : Z := first8 h mod n.

Definition holder_le (h : Digest) (a b : Height * PublicKey) : Prop :=
  b.1 < a.1 \/ (a.1 = b.1 /\ holder_rank a.2 h <= holder_rank b.2 h).
#[export] Instance holder_le_dec h : RelDecision (holder_le h).
Proof. intros a b. unfold holder_le. apply _. Defined.

Definition likely_holders (author : PublicKey) (height : Height) (want : nat) (h : Digest) (x : Repairer)
    : list PublicKey :=
  let candidates :=
    (fun p => (p.2, p.1.1)) <$>
      filter (fun p => p.1.2 = author /\ height <= p.2) (map_iter (r_holders x)) in
  take want (merge_sort (holder_le h) candidates).*2.

(** The first loop over the likely holders: stop once [take] peers are in. *)
Fixpoint pick_holders (x : Repairer) (h : Digest) (width : nat) (peers targets : list PublicKey)
    : list PublicKey :=
  match peers with
  | [] => targets
  | peer :: peers =>
      if (width <=? length targets)%nat then targets
      else pick_holders x h width peers
             (if bool_decide ((peer, h) ∈ r_requested x) then targets else targets ++ [peer])
  end.

(** The second loop: the peers in rotation from [start + asked]. *)
Fixpoint pick_rotation (x : Repairer) (h : Digest) (width : nat) (base : Z) (fuel scanned : nat)
    (targets : list PublicKey) : list PublicKey :=
  match fuel with
  | O => targets
  | S fuel =>
      if (width <=? length targets)%nat then targets
      else
        let n := Z.of_nat (length (r_peers x)) in
        let at_ := Z.to_nat ((base + Z.of_nat scanned) mod n) in
        let targets :=
          match r_peers x !! at_ with
          | Some peer =>
              if negb (bool_decide ((peer, h) ∈ r_requested x)) && negb (bool_decide (peer ∈ targets))
              then targets ++ [peer] else targets
          | None => targets
          end in
        pick_rotation x h width base fuel (S scanned) targets
  end.

(** The requests of one round: recorded, then emitted. *)
Definition request_one (h : Digest) (peer : PublicKey) : RM () :=
  x ← rep;
  if bool_decide ((peer, h) ∈ r_requested x) then skip
  else
    on_rep (fun x => x <| r_requested ::= union {[ (peer, h) ]} |> <| r_requested_hashes ::= union {[ h ]} |>);;
    emit (RequestTo peer h).

(** How many peers this round may add: none when all were asked or the width
    cap of a congested queue is reached. *)
Definition round_width (x : Repairer) (e : FanoutState) : option Z :=
  let n := Z.of_nat (length (r_peers x)) in
  let width_cap := if CORE_QUEUE_CONGESTED <=? r_core_queue_len x then Z.min ESCALATE_WIDTH_MAX n else n in
  if (n <=? fo_asked e) || (width_cap <=? fo_asked e) then None
  else Some (Z.min (fo_next_width e) (width_cap - fo_asked e)).

Definition round_targets (x : Repairer) (h : Digest) (e : FanoutState) (width : Z) : list PublicKey :=
  let n := length (r_peers x) in
  let w := Z.to_nat width in
  pick_rotation x h w (fo_start e + fo_asked e) n 0
    (pick_holders x h w (likely_holders (fo_author e) (fo_height e) n h x) []).

Definition usize_max : Z := u64_max.

Definition fan_out (h : Digest) : RM () :=
  x ← rep;
  if (length (r_peers x) =? 0)%nat then skip
  else
    match r_fanout x !! h with
    | None => skip
    | Some e =>
        match round_width x e with
        | None => skip
        | Some width =>
            let room := Z.max 0 (RECOVERY_IN_FLIGHT_MAX - r_in_flight x) in
            let targets := take (Z.to_nat (Z.min (r_emit_budget x) room)) (round_targets x h e width) in
            let emitted := Z.of_nat (length targets) in
            if (emitted =? 0) && ((r_emit_budget x =? 0) || (room =? 0)) then skip
            else
              on_rep (fun x => x <| r_emit_budget ::= fun b => b - emitted |> <| r_in_flight ::= Z.add emitted |>);;
              for_each (request_one h) targets;;
              on_rep (fun x => x <| r_fanout ::= alter (fun e =>
                e <| fo_asked := if emitted =? 0 then Z.of_nat (length (r_peers x)) else fo_asked e + emitted |>
                  <| fo_in_flight_asks ::= Z.add emitted |> <| fo_asked_at := r_ticks x |>
                  <| fo_next_width ::= fun w => Z.min usize_max (w * 2) |>) h |>)
        end
    end.

Definition begin_fanout (h : Digest) (author : PublicKey) (height : Height) : RM () :=
  x ← rep;
  if (length (r_peers x) =? 0)%nat then skip
  else
    (match r_fanout x !! h with
     | Some _ => skip
     | None =>
         on_rep (fun x => x <| r_fanout ::= <[ h := mkFanoutState author height
           (fanout_start h (Z.of_nat (length (r_peers x)))) 0 FANOUT_FIRST 0 0 ]> |>)
     end);;
    fan_out h.

Definition adapt_recovery_ceiling (bulk_drops : option Z) : RM () :=
  on_rep (fun x =>
    let new_drops := match bulk_drops with Some now => Z.max 0 (now - r_last_bulk_drops x) | None => 0 end in
    let x := match bulk_drops with Some now => x <| r_last_bulk_drops := now |> | None => x end in
    x <| r_emit_ceiling ::= fun c =>
      if 0 <? new_drops then Z.max (c / 2) RECOVERY_EMIT_MIN
      else Z.min (Z.min usize_max (c * 2)) RECOVERY_EMIT_MAX |>).

Definition observe_core_queue (len : Z) : RM () := on_rep (fun x => x <| r_core_queue_len := len |>).

Definition note_holder (peer author : PublicKey) (height : Height) : RM () :=
  on_rep (fun x =>
    if default 0 (r_holders x !! (peer, author)) <? height
    then x <| r_holders ::= <[ (peer, author) := height ]> |> else x).

(** ** Serving *)

Definition serve_one (h : Digest) (block : Header) (peer : PublicKey) : RM () :=
  on_rep (fun x => x <| r_answered ::= union {[ (peer, h) ]} |>
    <| r_pending_req ::= fun m =>
         match m !! h with
         | Some peers =>
             let peers := peers ∖ {[ peer ]} in if decide (peers = ∅) then delete h m else <[ h := peers ]> m
         | None => m
         end |>);;
  emit (ServeTo peer block).

Definition serve_pending (h : Digest) (block : Header) : RM () :=
  x ← rep;
  let pending := filter (fun peer => (peer, h) ∉ r_answered x) (elements (default ∅ (r_pending_req x !! h))) in
  for_each (serve_one h block) pending.

Definition try_serve (h : Digest) : RM () :=
  c ← cache;
  match by_digest c !! h with
  | Some e => if ent_retained e then serve_pending h (ent_block e) else skip
  | None => skip
  end.

Definition retain_and_serve (r : BlockRef) : RM () :=
  on_cache (fun c => (mark_retained (ref_digest r) c).2);;
  try_serve (ref_digest r).

Definition on_request (requester : PublicKey) (h : Digest) : RM () :=
  x ← rep;
  when (negb (bool_decide ((requester, h) ∈ r_answered x)))
    (on_rep (fun x => x <| r_pending_req ::= fun m => <[ h := {[ requester ]} ∪ default ∅ (m !! h) ]> m |>));;
  try_serve h.

Definition unanswer (peer : PublicKey) (digest : Digest) : RM () :=
  on_rep (fun x => x <| r_answered ::= fun s => s ∖ {[ (peer, digest) ]} |>).

(** ** Settlement *)

(** What the cache says of [cur]: the parent of an exact verified block, and
    whether a verified block is there at all. *)
Definition settle_probe (c : BlockCache) (author : PublicKey) (height : Height) (h : Digest)
    : option Digest * bool :=
  match by_digest c !! h with
  | Some e =>
      let b := ent_block e in
      (if (hd_author b =? author) && (hd_height b =? height) && (hd_id b =? h) && ent_block_ok_verified e
       then Some (parent b) else None, ent_block_ok_verified e)
  | None => (None, false)
  end.

(** The branch for a missing or unusable block: start, or restart, asking. *)
Definition chase (author : PublicKey) (height : Height) (h : Digest) (verified_present : bool) : RM () :=
  x ← rep;
  let requested := bool_decide (h ∈ r_requested_hashes x) in
  let active := bool_decide (is_Some (r_fanout x !! h)) in
  if negb requested && negb active then
    on_rep (fun x => x <| r_fanout_queue ::= union {[ (height, h) ]} |>);;
    begin_fanout h author height
  else if requested && negb active then
    let ready := match r_refetch_at x !! h with Some at_ => at_ <=? r_ticks x | None => true end in
    when (negb verified_present && ready) (
      on_rep (fun x => x <| r_refetch_at ::= <[ h := r_ticks x + REFETCH_COOLDOWN_TICKS ]> |>
        <| r_requested ::= fun s => s ∖ list_to_set ((fun p => (p, h)) <$> r_peers x) |>
        <| r_requested_hashes ::= fun s => s ∖ {[ h ]} |>
        <| r_fanout_queue ::= union {[ (height, h) ]} |>);;
      begin_fanout h author height)
  else skip.

(** The loop of [settle].  The height falls by one per turn and the loop stops at
    0; [Z.of_nat n] is the height of [cur], and [frames] the references walked,
    the last one first. *)
Fixpoint settle_walk (author : PublicKey) (n : nat) (h : Digest) (frames : list BlockRef) : RM (option (list BlockRef)) :=
  x ← rep;
  let cur := (author, Z.of_nat n, h) in
  if is_settled cur x then mret (Some frames)
  else
    match n with
    | O => mret (Some frames)
    | S n' =>
        c ← cache;
        match settle_probe c author (Z.of_nat n) h with
        | (None, verified_present) =>
            chase author (Z.of_nat n) h verified_present;;
            record_blocked (reverse (cur :: frames)) h;;
            mret None
        | (Some parent_h, _) =>
            match n' with
            | O => mret (if parent_h =? r_genesis x then Some (cur :: frames) else None)
            | S _ =>
                note_authorized (author, Z.of_nat n', parent_h);;
                settle_walk author n' parent_h (cur :: frames)
            end
        end
    end.

Definition settle_frame (frame : BlockRef) : RM () := retain_and_serve frame;; mark_settled frame.

Definition settle (r : BlockRef) : RM bool :=
  frames ← settle_walk (ref_author r) (Z.to_nat (ref_height r)) (ref_digest r) [];
  match frames with
  | Some frames => for_each settle_frame frames;; mret true
  | None => mret false
  end.

Definition repairer_authorize (r : BlockRef) : RM () := note_authorized r;; settle r;; skip.

(** ** Blocks arriving *)

Definition drop_fanout (digest : Digest) (x : Repairer) : Repairer :=
  match r_fanout x !! digest with
  | Some s => x <| r_fanout ::= delete digest |>
                <| r_in_flight ::= fun n => Z.max 0 (n - fo_in_flight_asks s) |>
  | None => x
  end.

Definition retry_waiting (r : BlockRef) : RM () :=
  x ← rep;
  match r_positions x !! r with
  | Some p =>
      on_rep (fun x => x <| r_positions ::= <[ r := p <| rp_blocked_at := None |> ]> |>);;
      if rp_pending_settle p then settle r;; skip else skip
  | None => skip
  end.

Definition on_block_available (digest : Digest) : RM () :=
  on_rep (fun x => (drop_fanout digest x) <| r_refetch_at ::= delete digest |>);;
  x ← rep;
  match r_blocked_on x !! digest with
  | None => skip
  | Some waiting =>
      on_rep (fun x => x <| r_blocked_on ::= delete digest |>);;
      for_each retry_waiting (elements waiting)
  end.

Section serve.
Context `{!Hashing}.

Definition accept_served (block : Header) : RM () :=
  x ← rep;
  if negb (block_ok block (r_committee x) (r_sid x) (r_max_block_payload x)) then skip
  else
    on_cache (upsert block false true false true);;
    emit (BlockCached (hd_id block));;
    on_block_available (hd_id block).

Definition on_serve (block : Header) : RM () :=
  x ← rep;
  if bool_decide (hd_id block ∈ r_requested_hashes x) then accept_served block else skip.

Definition on_sequence_serve (block : Header) : RM () := accept_served block.
End serve.

(** ** The one-second tick *)

Definition timed_out (now : Z) (s : FanoutState) : bool :=
  (0 <? fo_in_flight_asks s) && (ASK_TIMEOUT_TICKS <=? Z.max 0 (now - fo_asked_at s)).

Definition reclaim (x : Repairer) : Repairer :=
  let now := r_ticks x in
  let reclaimed := map_sum (fun _ s => if timed_out now s then fo_in_flight_asks s else 0) (r_fanout x) in
  x <| r_fanout ::= fmap (fun s => if timed_out now s then s <| fo_in_flight_asks := 0 |> else s) |>
    <| r_in_flight ::= fun n => Z.max 0 (n - reclaimed) |>.

Definition escalate (key : Height * Digest) : RM () :=
  let h := key.2 in
  on_rep (fun x => x <| r_fanout_queue ::= fun q => q ∖ {[ key ]} |>);;
  x ← rep;
  if negb (bool_decide (is_Some (r_fanout x !! h))) then skip
  else if negb (bool_decide (is_Some (r_blocked_on x !! h))) then on_rep (drop_fanout h)
  else
    fan_out h;;
    x ← rep;
    if match r_fanout x !! h with Some s => fo_asked s <? Z.of_nat (length (r_peers x)) | None => false end
    then on_rep (fun x => x <| r_fanout_queue ::= union {[ key ]} |>)
    else on_rep (drop_fanout h).

Definition retry_requests (bulk_drops : option Z) : RM () :=
  on_rep (fun x => x <| r_ticks ::= fun t => u64_add t 1 |>);;
  on_rep reclaim;;
  adapt_recovery_ceiling bulk_drops;;
  on_rep (fun x => x <| r_emit_budget := r_emit_ceiling x |>);;
  x ← rep;
  for_each escalate (take FANOUT_ESCALATE_BUDGET (set_iter (r_fanout_queue x))).
