(* ===== verification/RepairSettle.v ===== *)
(** Settlement by the repairer.

    What the walks of [settle] establish: a settled reference heads a lineage of
    valid blocks, and a reference still pending is either registered under the
    digest it waits for or heads a chain that does not end in genesis. *)

From S2P Require Import Prelude Committee Types Blocks BlockChains Repair.

(** ** Reading and writing the two parts of the state *)

Lemma wp_rep s (Q : Repairer -> list Effect -> Repairer * BlockCache -> Prop) : Q s.1 [] s -> wp rep s Q.
Proof. done. Qed.

Lemma wp_cache s (Q : BlockCache -> list Effect -> Repairer * BlockCache -> Prop) : Q s.2 [] s -> wp cache s Q.
Proof. done. Qed.

Lemma wp_on_rep f s (Q : () -> list Effect -> Repairer * BlockCache -> Prop) :
  Q tt [] (f s.1, s.2) -> wp (on_rep f) s Q.
Proof. done. Qed.

Lemma wp_on_cache f s (Q : () -> list Effect -> Repairer * BlockCache -> Prop) :
  Q tt [] (s.1, f s.2) -> wp (on_cache f) s Q.
Proof. done. Qed.

(** ** Parts that do not touch settlement *)

(** Asking and serving change neither positions, nor buckets, nor blocks. *)
Record settle_frame_rel (s : Repairer * BlockCache) (es : list Effect) (s' : Repairer * BlockCache) : Prop := {
  sf_config : r_committee s'.1 = r_committee s.1 /\ r_sid s'.1 = r_sid s.1 /\
    r_genesis s'.1 = r_genesis s.1 /\ r_max_block_payload s'.1 = r_max_block_payload s.1;
  sf_positions : r_positions s'.1 = r_positions s.1;
  sf_pending : r_pending_settle s'.1 = r_pending_settle s.1;
  sf_blocked : r_blocked_on s'.1 = r_blocked_on s.1;
  sf_cache : s'.2 = s.2;
}.

#[export] Instance settle_frame_trace : TraceRel settle_frame_rel.
Proof.
  split; [by intros s; split|].
  intros s1 s2 s3 es1 es2 [A1 A2 A3 A4 A5] [B1 B2 B3 B4 B5].
  split; [naive_solver congruence|congruence..].
Qed.

Lemma frame_on_rep f :
  (forall x c, settle_frame_rel (x, c) [] (f x, c)) -> sat settle_frame_rel (on_rep f).
Proof. intros Hf [x c]. apply Hf. Qed.

Lemma frame_emit e : sat settle_frame_rel (emit e).
Proof. by intros s; split. Qed.

Lemma frame_rep : sat settle_frame_rel rep.
Proof. by intros s; split. Qed.

Lemma frame_cache : sat settle_frame_rel cache.
Proof. by intros s; split. Qed.

#[export] Hint Resolve frame_emit frame_rep frame_cache : traces.

(** Split a computation into its steps; what is left are single updates. *)
Ltac frame_step :=
  repeat first
    [ apply sat_bind; [apply _| |intros ?; cbv beta zeta]
    | apply frame_on_rep; by intros x c; split
    | apply frame_emit | apply frame_rep | apply frame_cache
    | apply sat_ret, _
    | apply sat_when; [apply _|]
    | apply sat_for_each; [apply _|intros ?]
    | case_match ].

Lemma frame_fan_out h : sat settle_frame_rel (fan_out h).
Proof. unfold fan_out, request_one. frame_step. Qed.
#[export] Hint Resolve frame_fan_out : traces.

Lemma frame_begin_fanout h a n : sat settle_frame_rel (begin_fanout h a n).
Proof. unfold begin_fanout. frame_step; apply frame_fan_out. Qed.

Lemma frame_chase a n h b : sat settle_frame_rel (chase a n h b).
Proof. unfold chase. frame_step; apply frame_begin_fanout. Qed.

Lemma frame_try_serve h : sat settle_frame_rel (try_serve h).
Proof. unfold try_serve, serve_pending, serve_one. frame_step. Qed.

Lemma frame_drop_fanout d x c : settle_frame_rel (x, c) [] (drop_fanout d x, c).
Proof. unfold drop_fanout. case_match; by split. Qed.

Lemma frame_drop d : sat settle_frame_rel (on_rep (drop_fanout d)).
Proof. intros [x c]. apply frame_drop_fanout. Qed.

Lemma frame_escalate key : sat settle_frame_rel (escalate key).
Proof.
  unfold escalate. frame_step; first [apply frame_fan_out|apply frame_drop].
Qed.

Lemma frame_retry_requests drops : sat settle_frame_rel (retry_requests drops).
Proof.
  assert (sat settle_frame_rel (adapt_recovery_ceiling drops)) as Ha.
  { apply frame_on_rep. intros x c. destruct drops; by split. }
  unfold retry_requests. frame_step; first [apply Ha|apply frame_drop|apply frame_escalate].
Qed.

Lemma frame_on_request peer h : sat settle_frame_rel (on_request peer h).
Proof. unfold on_request. frame_step; apply frame_try_serve. Qed.

Lemma frame_note_holder peer a n : sat settle_frame_rel (note_holder peer a n).
Proof. apply frame_on_rep. intros x c. case_match; by split. Qed.

(** ** The invariant *)

Section settle.
Context {Hash : Hashing} (cm : Committee) (sid : Digest) (mbp : Z).
Abbreviation genesis := (genesis_digest sid) (only parsing).
Abbreviation cache_ok := (cache_ok cm sid mbp) (only parsing).
Abbreviation valid := (valid cm sid mbp) (only parsing).

(** [stray a n d]: a chain of valid blocks of author [a] from [d] at height [n]
    whose end at height 0 is not genesis. *)
Inductive stray (a : PublicKey) : nat -> Digest -> Prop :=
| stray_end d : d <> genesis -> stray a 0 d
| stray_block n h : valid h -> hd_author h = a -> hd_height h = Z.of_nat (S n) ->
    stray a n (parent h) -> stray a (S n) (hd_id h).

Definition ref_lineage (r : BlockRef) : Prop :=
  lineage cm sid mbp (ref_author r) (Z.to_nat (ref_height r)) (ref_digest r).
Definition ref_stray (r : BlockRef) : Prop :=
  stray (ref_author r) (Z.to_nat (ref_height r)) (ref_digest r).

Definition bucket (x : Repairer) (d : Digest) : gset BlockRef := default ∅ (r_blocked_on x !! d).

Definition pending_one (_ : BlockRef) (p : RepairPosition) : Z := indicator (rp_pending_settle p).

(** [stale r d]: the bucket of [d] was taken out and [r] is still to be retried;
    [walked r]: a walk in progress has visited [r]. *)
Record rep_ok (stale : BlockRef -> Digest -> Prop) (walked : BlockRef -> Prop) (x : Repairer) : Prop := {
  ro_config : r_committee x = cm /\ r_sid x = sid /\ r_genesis x = genesis /\ r_max_block_payload x = mbp;
  ro_height r p : r_positions x !! r = Some p -> 0 < ref_height r;
  ro_settled r p : r_positions x !! r = Some p -> rp_settled p = true ->
    rp_pending_settle p = false /\ ref_lineage r;
  ro_count : r_pending_settle x = map_sum pending_one (r_positions x);
  ro_blocked r p d : r_positions x !! r = Some p -> rp_blocked_at p = Some d ->
    r ∈ bucket x d \/ stale r d;
  ro_waiting r p : r_positions x !! r = Some p -> rp_pending_settle p = true ->
    is_Some (rp_blocked_at p) \/ ref_stray r \/ walked r;
}.

Lemma rep_ok_frame stale walked s es s' :
  settle_frame_rel s es s' -> rep_ok stale walked s.1 -> rep_ok stale walked s'.1.
Proof.
  intros [(C1 & C2 & C3 & C4) P N B _] [H1 H2 H3 H4 H5 H6]. unfold bucket in *.
  split; rewrite ?P, ?N; try done; [naive_solver congruence|]. unfold bucket. by rewrite B.
Qed.

Lemma rep_ok_weaken stale walked stale' walked' x :
  rep_ok stale walked x -> (forall r d, stale r d -> stale' r d) ->
  (forall r p, r_positions x !! r = Some p -> rp_pending_settle p = true -> walked r ->
     is_Some (rp_blocked_at p) \/ ref_stray r \/ walked' r) ->
  rep_ok stale' walked' x.
Proof.
  intros [H1 H2 H3 H4 H5 H6] Hs Hw. split; try done.
  - intros r p d Hp Hd. destruct (H5 r p d Hp Hd); auto.
  - intros r p Hp Hpend. destruct (H6 r p Hp Hpend) as [|[|Hr]]; eauto.
Qed.

(** Writing one position. *)
Lemma rep_ok_put stale walked walked' x r p n :
  rep_ok stale walked x -> 0 < ref_height r ->
  n = r_pending_settle x - pending_one r (position r x) + pending_one r p ->
  (rp_settled p = true -> rp_pending_settle p = false /\ ref_lineage r) ->
  (forall d, rp_blocked_at p = Some d -> rp_blocked_at (position r x) = Some d \/ stale r d) ->
  (rp_pending_settle p = true -> is_Some (rp_blocked_at p) \/ ref_stray r \/ walked' r) ->
  (forall r', r' <> r -> walked r' -> walked' r') ->
  rep_ok stale walked' (x <| r_positions ::= <[ r := p ]> |> <| r_pending_settle := n |>).
Proof.
  intros [H1 H2 H3 H4 H5 H6] Hh -> Hs Hb Hp Hw. unfold position in *. split; cbn; try done.
  - intros r' p' Hr. apply lookup_insert_Some in Hr as [[<- _]|[_ Hr]]; [done|by eapply H2].
  - intros r' p' Hr. apply lookup_insert_Some in Hr as [[<- <-]|[_ Hr]]; [done|by eapply H3].
  - rewrite H4. destruct (r_positions x !! r) as [q|] eqn:E; cbn.
    + rewrite (map_sum_insert_Some _ _ _ _ q) by done. lia.
    + rewrite map_sum_insert_None by done. cbn. lia.
  - intros r' p' d Hr Hd. apply lookup_insert_Some in Hr as [[<- <-]|[_ Hr]]; [|by eapply H5].
    destruct (Hb d Hd) as [Hd'|]; [|by right]. destruct (r_positions x !! r) as [q|] eqn:E; [|done].
    by eapply H5.
  - intros r' p' Hr Hpend. apply lookup_insert_Some in Hr as [[<- <-]|[Hne Hr]]; [by apply Hp|].
    destruct (H6 r' p' Hr Hpend) as [|[|]]; auto.
Qed.

Lemma rep_ok_authorized stale walked x c r :
  rep_ok stale walked x -> 0 < ref_height r ->
  wp (note_authorized r) (x, c) (fun _ _ s' => s'.2 = c /\
    rep_ok stale (fun r' => walked r' \/ r' = r) s'.1).
Proof.
  intros Hx Hh. split; [done|]. cbn [note_authorized on_rep st fst snd].
  set (p := position r x).
  destruct (negb (rp_settled p) && negb (rp_pending_settle p)) eqn:Hb.
  - apply andb_true_iff in Hb as [H1%negb_true_iff H2%negb_true_iff].
    refine (rep_ok_put stale walked _ x r (p <| rp_pending_settle := true |>) (1 + r_pending_settle x)
      Hx Hh _ _ _ _ _); fold p; unfold pending_one; cbn; rewrite ?H1, ?H2; cbn; [lia|done|by auto|by auto|by auto].
  - destruct (decide (is_Some (r_positions x !! r))) as [[q E]|E].
    + assert (p = q) as -> by (unfold p, position; by rewrite E).
      replace (x <| r_positions ::= <[ r := q ]> |>) with x.
      * eapply rep_ok_weaken; [done|done|]. auto.
      * unfold setter, set_r_positions, r_eta. destruct x; cbn in *. by rewrite insert_id.
    + exfalso. apply eq_None_not_Some in E. unfold p, position in Hb. by rewrite E in Hb.
Qed.

Lemma rep_ok_settled stale walked x c r :
  rep_ok stale walked x -> 0 < ref_height r -> ref_lineage r ->
  wp (mark_settled r) (x, c) (fun _ _ s' => s'.2 = c /\
    rep_ok stale (fun r' => walked r' /\ r' <> r) s'.1).
Proof.
  intros Hx Hh Hl. split; [done|]. cbn [mark_settled on_rep st fst snd].
  set (p := position r x). destruct (rp_pending_settle p) eqn:Hb.
  - refine (rep_ok_put stale walked _ x r (p <| rp_settled := true |> <| rp_pending_settle := false |>)
      (r_pending_settle x - 1) Hx Hh _ _ _ _ _); fold p; unfold pending_one; cbn; rewrite ?Hb; cbn;
      [lia|done|by auto|done|by auto].
  - replace (x <| r_positions ::= <[ r := p <| rp_settled := true |> ]> |>) with
      (x <| r_positions ::= <[ r := p <| rp_settled := true |> ]> |> <| r_pending_settle := r_pending_settle x |>)
      by (by destruct x).
    refine (rep_ok_put stale walked _ x r (p <| rp_settled := true |>)
      (r_pending_settle x) Hx Hh _ _ _ _ _); fold p; unfold pending_one; cbn; rewrite ?Hb; cbn;
      [lia|done|by auto|done|by auto].
Qed.
Lemma lookup_bucket_add d r m d' :
  default ∅ (bucket_add d r m !! d') =
  if decide (d' = d) then {[ r ]} ∪ default ∅ (m !! d) else default ∅ (m !! d').
Proof.
  unfold bucket_add. destruct (decide (d' = d)) as [->|]; [by rewrite lookup_insert_eq|].
  by rewrite lookup_insert_ne.
Qed.

Lemma lookup_bucket_remove d r m d' :
  default ∅ (bucket_remove d r m !! d') =
  if decide (d' = d) then default ∅ (m !! d) ∖ {[ r ]} else default ∅ (m !! d').
Proof.
  unfold bucket_remove. destruct (m !! d) as [b|] eqn:E; cbn.
  - case_decide as Hb; (destruct (decide (d' = d)) as [->|];
      [rewrite ?lookup_delete_eq, ?lookup_insert_eq|rewrite ?lookup_delete_ne, ?lookup_insert_ne by done]); cbn;
      set_solver.
  - destruct (decide (d' = d)) as [->|]; [rewrite E; cbn; set_solver|done].
Qed.

(** The position written by one turn of [record_blocked]. *)
Lemma block_one_positions h x r :
  r_positions (block_one h x r) = alter (fun p => p <| rp_blocked_at := Some h |>) r (r_positions x).
Proof. unfold block_one. repeat case_match; done. Qed.

Lemma block_one_config h x r :
  r_pending_settle (block_one h x r) = r_pending_settle x /\ r_committee (block_one h x r) = r_committee x /\
  r_sid (block_one h x r) = r_sid x /\ r_genesis (block_one h x r) = r_genesis x /\
  r_max_block_payload (block_one h x r) = r_max_block_payload x.
Proof. unfold block_one. repeat case_match; done. Qed.

(** It leaves the other references where they were and puts [r] under [h],
    unless it was there already. *)
Lemma block_one_bucket h x r :
  (forall r' d, r' <> r -> r' ∈ bucket x d -> r' ∈ bucket (block_one h x r) d) /\
  (r_positions x !! r ≫= rp_blocked_at = Some h -> bucket (block_one h x r) = bucket x) /\
  (r_positions x !! r ≫= rp_blocked_at <> Some h -> r ∈ bucket (block_one h x r) h).
Proof.
  unfold block_one, bucket. destruct (r_positions x !! r ≫= rp_blocked_at) as [prev|]; cbn.
  - destruct (Z.eqb_spec prev h) as [->|Hne]; cbn; [done|]. split_and!.
    + intros r' d Hr. rewrite lookup_bucket_add, !lookup_bucket_remove. repeat case_decide; subst; set_solver.
    + intros [= ?]. done.
    + intros _. rewrite lookup_bucket_add, decide_True by done. set_solver.
  - split_and!; [|done|].
    + intros r' d Hr. rewrite lookup_bucket_add. case_decide; subst; set_solver.
    + intros _. rewrite lookup_bucket_add, decide_True by done. set_solver.
Qed.

Lemma rep_ok_block_one stale walked h x r :
  rep_ok stale walked x -> rep_ok stale (fun r' => walked r' /\ r' <> r) (block_one h x r).
Proof.
  intros [H1 H2 H3 H4 H5 H6]. destruct (block_one_bucket h x r) as (B1 & B2 & B3).
  destruct (block_one_config h x r) as (C0 & C1 & C2 & C3 & C4).
  split; rewrite ?block_one_positions, ?C0, ?C1, ?C2, ?C3, ?C4; [done| | | | |].
  - intros r' p Hr. apply lookup_alter_Some in Hr as [(-> & q & Hq & ->)|[_ Hr]]; by eapply H2.
  - intros r' p Hr. apply lookup_alter_Some in Hr as [(-> & q & Hq & ->)|[_ Hr]];
      [exact (H3 _ _ Hq)|exact (H3 _ _ Hr)].
  - rewrite H4. destruct (r_positions x !! r) as [q|] eqn:E.
    + replace (alter _ r (r_positions x)) with (<[ r := q <| rp_blocked_at := Some h |> ]> (r_positions x)).
      * rewrite (map_sum_insert_Some _ _ _ _ q) by done. unfold pending_one. cbn. lia.
      * apply map_eq. intros k. destruct (decide (k = r)) as [->|].
        -- by rewrite lookup_alter_eq, lookup_insert_eq, E.
        -- by rewrite lookup_alter_ne, lookup_insert_ne.
    + f_equal. apply map_eq. intros k. destruct (decide (k = r)) as [->|];
        [by rewrite lookup_alter_eq, E|by rewrite lookup_alter_ne].
  - intros r' p d Hr Hd. apply lookup_alter_Some in Hr as [(-> & q & Hq & ->)|[Hne Hr]].
    + cbn in Hd. simplify_eq. destruct (decide (rp_blocked_at q = Some d)) as [Hs|Hs].
      * destruct (H5 _ _ _ Hq Hs) as [Hin|]; [left|by right]. rewrite B2; [done|]. by rewrite Hq.
      * left. apply B3. by rewrite Hq.
    + destruct (H5 r' p d Hr Hd); [left; by apply B1|by right].
  - intros r' p Hr Hp. apply lookup_alter_Some in Hr as [(-> & q & Hq & ->)|[Hne Hr]]; [by left|].
    destruct (H6 r' p Hr Hp) as [|[|]]; auto.
Qed.

Lemma rep_ok_record_blocked stale walked h refs x :
  rep_ok stale walked x ->
  rep_ok stale (fun r' => walked r' /\ r' ∉ refs) (foldl (block_one h) x refs).
Proof.
  revert x walked. induction refs as [|r refs IH]; intros x walked Hx; cbn.
  - eapply rep_ok_weaken; [done|done|]. intros r p _ _ Hr. right. right. set_solver.
  - eapply rep_ok_weaken; [by apply IH, rep_ok_block_one|done|].
    intros r' p _ _ [[? ?] ?]. right. right. set_solver.
Qed.

(** ** Walks *)

(** [frames] climb from [h] at height [n]: each is a cached block whose parent is
    the one before. *)
Fixpoint linked (c : BlockCache) (a : PublicKey) (n : nat) (h : Digest) (frames : list BlockRef) : Prop :=
  match frames with
  | [] => True
  | f :: rest =>
      (exists e, by_digest c !! ref_digest f = Some e /\ pinned_at e a (Z.of_nat (S n)) = true /\
         parent (ent_block e) = h) /\
      f = (a, Z.of_nat (S n), ref_digest f) /\ linked c a (S n) (ref_digest f) rest
  end.

Lemma linked_lineage c a frames : genesis_apart cm sid mbp -> cache_ok c -> forall n h,
  linked c a n h frames -> lineage cm sid mbp a n h -> Forall ref_lineage frames.
Proof.
  intros Hg Hc. induction frames as [|f rest IH]; intros n h; [done|].
  intros ((e & He & Hpin & <-) & Hf & Hrest) Hl. destruct (co_valid _ _ _ _ Hc _ _ He) as [Hid Hv].
  assert (lineage cm sid mbp a (S n) (ref_digest f)) as Hl'.
  { eapply lineage_step; eauto. rewrite <- Hid. by apply Hg. }
  constructor; [|by eapply IH]. unfold ref_lineage. rewrite Hf. cbn [ref_author ref_height ref_digest fst snd].
  by rewrite Nat2Z.id.
Qed.

Lemma linked_stray c a frames : cache_ok c -> forall n h,
  linked c a n h frames -> stray a n h -> Forall ref_stray frames.
Proof.
  intros Hc. induction frames as [|f rest IH]; intros n h; [done|].
  intros ((e & He & [Ha Hh]%pinned_at_spec & <-) & Hf & Hrest) Hl.
  destruct (co_valid _ _ _ _ Hc _ _ He) as [Hid Hv].
  assert (stray a (S n) (ref_digest f)) as Hl' by (rewrite <- Hid; by apply stray_block).
  constructor; [|by eapply IH]. unfold ref_stray. rewrite Hf. cbn [ref_author ref_height ref_digest fst snd].
  by rewrite Nat2Z.id.
Qed.

Lemma settle_probe_some c a n h d b :
  settle_probe c a n h = (Some d, b) ->
  exists e, by_digest c !! h = Some e /\ pinned_at e a n = true /\ parent (ent_block e) = d.
Proof.
  unfold settle_probe. destruct (by_digest c !! h) as [e|]; [|done].
  destruct (_ && _) eqn:E; [|done]. intros [= <- _]. exists e. split_and!; [done| |done].
  apply andb_true_iff in E as [E _]. by apply andb_true_iff in E as [E _].
Qed.
Context (Hgen : genesis_apart cm sid mbp).

Lemma settle_walk_ok a stale walked n : forall h (frames : list BlockRef) s,
  rep_ok stale (fun r => walked r \/ r ∈ (a, Z.of_nat (S n), h) :: frames) s.1 -> cache_ok s.2 ->
  linked s.2 a (S n) h frames ->
  wp (settle_walk a (S n) h frames) s (fun res _ s' => s'.2 = s.2 /\
    match res with
    | Some fs => rep_ok stale (fun r => walked r \/ r ∈ fs) s'.1 /\ Forall ref_lineage fs /\
        Forall (fun f => 0 < ref_height f) fs
    | None => rep_ok stale walked s'.1
    end).
Proof.
  assert (forall n h frames c, linked c a n h frames -> Forall (fun f => 0 < ref_height f) frames) as Hpos.
  { clear n. intros n h frames c. revert n h. induction frames as [|f rest IH]; intros n h; [done|].
    intros (_ & -> & Hrest). constructor; [cbn; lia|by eapply IH]. }
  induction n as [n IH] using lt_wf_ind. intros h frames s Hx Hc Hl.
  set (cur := (a, Z.of_nat (S n), h)) in *.
  cbn [settle_walk]. fold cur. apply wp_bind, wp_rep.
  destruct (is_settled cur s.1) eqn:Hs.
  { apply wp_ret. split; [done|]. unfold is_settled, position in Hs.
    destruct (r_positions s.1 !! (cur : BlockRef)) as [p|] eqn:E; cbn in Hs; [|done].
    destruct (ro_settled _ _ _ Hx _ _ E Hs) as [Hnp Hlin]. split_and!; [| |by eapply Hpos].
    - eapply rep_ok_weaken; [done|done|]. intros r p' Hp Hpend [Hw|[->|Hw]%elem_of_cons]; [by auto| |by auto].
      rewrite E in Hp. simplify_eq. congruence.
    - eapply linked_lineage; eauto. unfold ref_lineage, cur in Hlin.
      cbn [ref_author ref_height ref_digest fst snd] in Hlin. by rewrite Nat2Z.id in Hlin. }
  apply wp_bind, wp_cache.
  destruct (settle_probe s.2 a (Z.of_nat (S n)) h) as [[parent_h|] vp] eqn:Hprobe.
  - apply settle_probe_some in Hprobe as (e & He & Hpin & Hpar).
    assert (linked s.2 a n parent_h (cur :: frames)) as Hl'.
    { split; [|split; [done|done]]. by exists e. }
    destruct n as [|n].
    + destruct (Z.eqb_spec parent_h (r_genesis s.1)) as [Hg|Hg]; apply wp_ret; (split; [done|]).
      * destruct (ro_config _ _ _ Hx) as (_ & _ & Hrg & _). rewrite Hrg in Hg. subst parent_h.
        split_and!; [done| |by eapply Hpos]. eapply linked_lineage; eauto. rewrite Hg. constructor.
      * destruct (ro_config _ _ _ Hx) as (_ & _ & Hrg & _). rewrite Hrg in Hg.
        eapply linked_stray in Hl'; [|done|by apply stray_end].
        eapply rep_ok_weaken; [done|done|]. intros r p _ _ [Hw|Hw]; [by auto|].
        right. left. by eapply Forall_forall in Hl'.
    + apply wp_bind. destruct s as [x c]. cbn [fst snd] in *.
      eapply wp_mono; [apply rep_ok_authorized; [done|cbn; lia]|].
      intros _ _ [x' c'] [Hc' Hx']. cbn [fst snd] in *. subst c'.
      eapply wp_mono; [apply (IH n ltac:(lia)); cbn [fst snd]; [|done|done]|done].
      eapply rep_ok_weaken; [done|done|]. intros r p _ _ Hr. right. right.
      rewrite elem_of_cons. naive_solver.
  - apply wp_bind. eapply wp_sat; [apply frame_chase|]. intros [] es s1 Hf. apply wp_bind.
    apply wp_on_rep.
    apply wp_ret. cbn [fst snd]. split; [by apply sf_cache in Hf|].
    eapply rep_ok_weaken; [apply rep_ok_record_blocked; by eapply rep_ok_frame|done|].
    intros r p _ _ [[Hw|Hw] Hn]; [by auto|]. exfalso. apply Hn. by rewrite elem_of_reverse.
Qed.

(** Retaining and serving keep the positions and only flag a cached block. *)
Lemma retain_frame stale walked r s :
  rep_ok stale walked s.1 -> cache_ok s.2 -> header_binding cm sid mbp ->
  wp (retain_and_serve r) s (fun _ _ s' => rep_ok stale walked s'.1 /\ cache_ok s'.2).
Proof.
  intros Hx Hc Hb. unfold retain_and_serve. apply wp_bind, wp_on_cache.
  eapply wp_sat; [apply frame_try_serve|]. intros [] es s' Hf. split; [by eapply (rep_ok_frame _ _ (s.1, _))|].
  rewrite (sf_cache _ _ _ Hf). cbn [snd].
  by apply (cache_exec_ok cm sid mbp Hb (OpMarkRetained (ref_digest r)) s.2).
Qed.

Lemma settle_frames_ok stale walked frames s :
  header_binding cm sid mbp ->
  rep_ok stale (fun r => walked r \/ r ∈ frames) s.1 -> cache_ok s.2 ->
  Forall ref_lineage frames -> Forall (fun f => 0 < ref_height f) frames ->
  wp (for_each settle_frame frames) s (fun _ _ s' => rep_ok stale walked s'.1 /\ cache_ok s'.2).
Proof.
  intros Hb. revert s. induction frames as [|f frames IH]; intros s Hx Hc Hl Hh.
  - apply wp_skip. split; [|done]. eapply rep_ok_weaken; [done|done|]. set_solver.
  - apply Forall_cons in Hl as [Hl1 Hl], Hh as [Hh1 Hh]. cbn [for_each]. unfold settle_frame at 1.
    apply wp_bind, wp_bind. eapply wp_mono; [by apply retain_frame|].
    intros [] es [x c] [Hx' Hc']. cbn [fst snd] in *.
    eapply wp_mono; [by apply rep_ok_settled|]. intros [] es' [x' c'] [Hc'' Hx'']. cbn [fst snd] in *. subst c'.
    eapply wp_mono; [apply IH; try done|done].
    eapply rep_ok_weaken; [done|done|]. cbn. intros r p _ _ [[Hw|Hw] Hne]; set_solver.
Qed.

Lemma settle_ok stale walked r s :
  header_binding cm sid mbp -> 0 < ref_height r ->
  rep_ok stale (fun r' => walked r' \/ r' = r) s.1 -> cache_ok s.2 ->
  wp (settle r) s (fun _ _ s' => rep_ok stale walked s'.1 /\ cache_ok s'.2).
Proof.
  intros Hb Hh Hx Hc. unfold settle. apply wp_bind.
  destruct (Z.to_nat (ref_height r)) as [|n] eqn:Hn; [lia|].
  assert (r = (ref_author r, Z.of_nat (S n), ref_digest r)) as Hr.
  { destruct r as [[a k] d]. unfold ref_author, ref_height, ref_digest in *. cbn [fst snd] in *. do 2 f_equal. lia. }
  eapply wp_mono; [apply (settle_walk_ok _ stale walked); [|done|done]|].
  - eapply rep_ok_weaken; [done|done|]. intros r' p _ _ [?| ->]; [by auto|]. right. right. right.
    rewrite Hr at 1. apply elem_of_cons. by left.
  - intros [fs|] es s' [Hc' Hres]; [|apply wp_ret; by rewrite Hc'].
    destruct Hres as (Hx' & Hl & Hp). rewrite <- Hc' in Hc. apply wp_bind.
    eapply wp_mono; [by apply settle_frames_ok|]. done.
Qed.

Lemma retry_waiting_ok digest r rest s :
  header_binding cm sid mbp ->
  rep_ok (fun r' d => d = digest /\ r' ∈ r :: rest) (fun _ => False) s.1 -> cache_ok s.2 ->
  wp (retry_waiting r) s (fun _ _ s' =>
    rep_ok (fun r' d => d = digest /\ r' ∈ rest) (fun _ => False) s'.1 /\ cache_ok s'.2).
Proof.
  intros Hb Hx Hc. unfold retry_waiting. apply wp_bind, wp_rep.
  destruct (r_positions s.1 !! r) as [p|] eqn:E.
  - apply wp_bind, wp_on_rep.
    assert (rep_ok (fun r' d => d = digest /\ r' ∈ rest) (fun r' => False \/ (r' = r /\ rp_pending_settle p = true))
      (s.1 <| r_positions ::= <[ r := p <| rp_blocked_at := None |> ]> |>)) as Hx'.
    { destruct Hx as [H1 H2 H3 H4 H5 H6]. split; cbn; [done| | | | |].
      - intros r' p' Hr. apply lookup_insert_Some in Hr as [[<- _]|[_ Hr]]; by eapply H2.
      - intros r' p' Hr. apply lookup_insert_Some in Hr as [[<- <-]|[_ Hr]]; [exact (H3 _ _ E)|exact (H3 _ _ Hr)].
      - rewrite H4, (map_sum_insert_Some _ _ _ _ p) by done. unfold pending_one. cbn. lia.
      - intros r' p' d Hr Hd. apply lookup_insert_Some in Hr as [[<- <-]|[Hne Hr]]; [done|].
        destruct (H5 r' p' d Hr Hd) as [|[-> Hin]]; [by left|]. right. set_solver.
      - intros r' p' Hr Hp. apply lookup_insert_Some in Hr as [[<- <-]|[_ Hr]]; [by auto|].
        destruct (H6 r' p' Hr Hp) as [|[|[]]]; auto. }
    destruct (rp_pending_settle p) eqn:Hp.
    + apply wp_bind. eapply wp_mono; [apply (settle_ok (fun r' d => d = digest /\ r' ∈ rest) (fun _ => False)); [done| | |done]|].
      * exact (ro_height _ _ _ Hx _ _ E).
      * cbn [fst]. eapply rep_ok_weaken; [done|done|]. naive_solver.
      * done.
    + apply wp_skip. split; [|done]. eapply rep_ok_weaken; [done|done|]. naive_solver.
  - apply wp_skip. split; [|done]. destruct Hx as [H1 H2 H3 H4 H5 H6]. split; try done.
    intros r' p' d Hr Hd. destruct (H5 r' p' d Hr Hd) as [|[-> Hin]]; [by left|]. right. split; [done|].
    apply elem_of_cons in Hin as [->|]; [congruence|done].
Qed.

Lemma retry_all_ok digest waiting s :
  header_binding cm sid mbp ->
  rep_ok (fun r' d => d = digest /\ r' ∈ waiting) (fun _ => False) s.1 -> cache_ok s.2 ->
  wp (for_each retry_waiting waiting) s (fun _ _ s' =>
    rep_ok (fun _ _ => False) (fun _ => False) s'.1 /\ cache_ok s'.2).
Proof.
  intros Hb. revert s. induction waiting as [|r rest IH]; intros s Hx Hc.
  - apply wp_skip. split; [|done]. eapply rep_ok_weaken; [done| |done]. intros r d [_ H]. by apply not_elem_of_nil in H.
  - cbn [for_each]. apply wp_bind. eapply wp_mono; [by apply retry_waiting_ok|].
    intros [] es s' [Hx' Hc']. eapply wp_mono; [by apply IH|done].
Qed.

Abbreviation settled_ok s := (rep_ok (fun _ _ => False) (fun _ => False) s.1 /\ cache_ok s.2) (only parsing).

Lemma on_block_available_ok digest s :
  header_binding cm sid mbp -> settled_ok s ->
  wp (on_block_available digest) s (fun _ _ s' => settled_ok s').
Proof.
  intros Hb [Hx Hc]. unfold on_block_available. apply wp_bind, wp_on_rep.
  set (x := (drop_fanout digest s.1) <| r_refetch_at ::= delete digest |>).
  assert (rep_ok (fun _ _ => False) (fun _ => False) x) as Hx'.
  { apply (rep_ok_frame _ _ s [] (x, s.2)); [|done]. destruct s as [x0 c].
    by destruct (frame_drop_fanout digest x0 c). }
  apply wp_bind, wp_rep. cbn [fst]. destruct (r_blocked_on x !! digest) as [waiting|] eqn:E; [|done].
  apply wp_bind, wp_on_rep. cbn [fst snd].
  eapply wp_mono; [apply (retry_all_ok digest); [done| |done]|done].
  cbn [fst]. destruct Hx' as [H1 H2 H3 H4 H5 H6]. split; cbn; try done.
  intros r p d Hr Hd. destruct (H5 r p d Hr Hd) as [Hin|[]]. unfold bucket in *. cbn.
  destruct (decide (d = digest)) as [->|].
  - right. split; [done|]. rewrite E in Hin. by apply elem_of_elements.
  - left. by rewrite lookup_delete_ne.
Qed.

Lemma accept_served_ok b s :
  header_binding cm sid mbp -> typed_header b -> settled_ok s ->
  wp (accept_served b) s (fun _ _ s' => settled_ok s').
Proof.
  intros Hb Ht [Hx Hc]. unfold accept_served. apply wp_bind, wp_rep.
  destruct (ro_config _ _ _ Hx) as (-> & -> & _ & ->).
  destruct (block_ok b cm sid mbp) eqn:Hok; [|by apply wp_skip]. cbn [negb].
  apply wp_bind, wp_on_cache, wp_bind, wp_emit. eapply wp_mono; [apply on_block_available_ok|]; [done| |done].
  split; [done|]. cbn [snd]. by apply (cache_exec_ok cm sid mbp Hb (OpUpsert b false true false)).
Qed.

Lemma repairer_authorize_ok r s :
  header_binding cm sid mbp -> 0 < ref_height r -> settled_ok s ->
  wp (repairer_authorize r) s (fun _ _ s' => settled_ok s').
Proof.
  intros Hb Hr [Hx Hc]. destruct s as [x c]. unfold repairer_authorize. apply wp_bind.
  eapply wp_mono; [by apply rep_ok_authorized|]. intros [] es [x' c'] [Hc' Hx']. cbn [fst snd] in *. subst c'.
  apply wp_bind. eapply wp_mono; [by apply (settle_ok (fun _ _ => False) (fun _ => False))|]. by intros.
Qed.

(** *** Runs *)

(** What the node calls on the repairer, and what the lane manager does to the
    cache they share. *)
Inductive RepEvent :=
| RAuthorize (r : BlockRef)
| RServe (b : Header)
| RSequenceServe (b : Header)
| RAvailable (d : Digest)
| RRequest (peer : PublicKey) (d : Digest)
| RUnanswer (peer : PublicKey) (d : Digest)
| RExpect (d : Digest)
| RHolder (peer author : PublicKey) (height : Height)
| RQueue (len : Z)
| RTick (bulk_drops : option Z)
| RCacheOp (op : CacheOp).

Definition rep_exec (e : RepEvent) : RM () :=
  match e with
  | RAuthorize r => repairer_authorize r
  | RServe b => on_serve b
  | RSequenceServe b => on_sequence_serve b
  | RAvailable d => on_block_available d
  | RRequest peer d => on_request peer d
  | RUnanswer peer d => unanswer peer d
  | RExpect d => expect_sequence_digest d
  | RHolder peer a n => note_holder peer a n
  | RQueue len => observe_core_queue len
  | RTick drops => retry_requests drops
  | RCacheOp op => on_cache (cache_exec sid op)
  end.

(** References authorised are of blocks, not of genesis; a served block has
    passed decoding. *)
Definition rep_event_ok (e : RepEvent) : Prop :=
  match e with
  | RAuthorize r => 0 < ref_height r
  | RServe b | RSequenceServe b => typed_header b
  | RCacheOp op => cache_op_ok cm sid mbp op
  | _ => True
  end.

Definition rep_run (es : list RepEvent) (s : Repairer * BlockCache) : Repairer * BlockCache :=
  foldl (fun s e => st (rep_exec e s)) s es.

Lemma settled_ok_frame (m : RM ()) s : sat settle_frame_rel m -> settled_ok s -> settled_ok (st (m s)).
Proof.
  intros Hm [Hx Hc]. specialize (Hm s). unfold sat_at in Hm. split; [by eapply rep_ok_frame|].
  by rewrite (sf_cache _ _ _ Hm).
Qed.

Lemma rep_exec_ok e s :
  header_binding cm sid mbp -> rep_event_ok e -> settled_ok s -> settled_ok (st (rep_exec e s)).
Proof.
  intros Hb He Hs. destruct e; cbn [rep_exec rep_event_ok] in *.
  - by apply repairer_authorize_ok.
  - unfold on_serve. change (wp (x ← rep; if bool_decide (hd_id b ∈ r_requested_hashes x) then accept_served b else skip)
      s (fun _ _ s' => settled_ok s')).
    apply wp_bind, wp_rep. case_bool_decide; [|by apply wp_skip]. by apply accept_served_ok.
  - by apply accept_served_ok.
  - by apply on_block_available_ok.
  - apply settled_ok_frame; [apply frame_on_request|done].
  - apply settled_ok_frame; [apply frame_on_rep; by intros x c; split|done].
  - apply settled_ok_frame; [apply frame_on_rep; by intros x c; split|done].
  - apply settled_ok_frame; [apply frame_note_holder|done].
  - apply settled_ok_frame; [apply frame_on_rep; by intros x c; split|done].
  - apply settled_ok_frame; [apply frame_retry_requests|done].
  - destruct Hs as [Hx Hc]. split; [done|]. by apply cache_exec_ok.
Qed.

Lemma rep_ok_new name : settled_ok (repairer_new name cm sid genesis mbp, cache_new).
Proof. split; [split; cbn; try done; by intros ? ? ?%lookup_empty_Some|apply cache_ok_new]. Qed.

Lemma rep_run_ok es s :
  header_binding cm sid mbp -> Forall rep_event_ok es -> settled_ok s -> settled_ok (rep_run es s).
Proof.
  intros Hb Hes. revert s. induction Hes as [|e es He _ IH]; intros s Hs; [done|]. by apply IH, rep_exec_ok.
Qed.
End settle.
