(* ===== verification/RepairComplete.v ===== *)
(** The repairer settles what is cached.

    Settlement only grows, and a pending reference whose prefix is cached and
    verified down to genesis is settled by the next walk that starts at it: the
    one of its authorisation, or the one the digest it waits for releases. *)

From S2P Require Import Prelude Committee Types Blocks Fixtures BlockChains Repair RepairSettle.

(** ** Settlement grows *)

Section grow.
Context (genesis : Digest).

(** The prefix of [h] at height [n] is cached: verified blocks of [a], one per
    height, down to genesis. *)
Fixpoint cached (c : BlockCache) (a : PublicKey) (n : nat) (h : Digest) : Prop :=
  match n with
  | O => h = genesis
  | S n' =>
      exists e, by_digest c !! h = Some e /\ pinned_at e a (Z.of_nat n) = true /\ hd_id (ent_block e) = h /\
        ent_block_ok_verified e = true /\ cached c a n' (parent (ent_block e))
  end.

Definition owed (r : BlockRef) (x : Repairer) : bool := rp_pending_settle (position r x) || is_settled r x.

Record grows (s : Repairer * BlockCache) (es : list Effect) (s' : Repairer * BlockCache) : Prop := {
  gr_settled r : is_settled r s.1 = true -> is_settled r s'.1 = true;
  gr_owed r : owed r s.1 = true -> owed r s'.1 = true;
  gr_genesis : r_genesis s'.1 = r_genesis s.1;
  gr_cached a n h : cached s.2 a n h -> cached s'.2 a n h;
}.

#[export] Instance grows_trace : TraceRel grows.
Proof.
  split; [by intros s; split|]. intros s1 s2 s3 es1 es2 [A1 A2 A3 A4] [B1 B2 B3 B4].
  split; [by auto|by auto|congruence|by auto].
Qed.

Lemma grows_frame s es s' : settle_frame_rel s es s' -> grows s es s'.
Proof.
  intros [(_ & _ & Hg & _) Hp _ _ Hc].
  split; unfold owed, is_settled, position; rewrite ?Hp, ?Hc; auto.
Qed.

Lemma grows_sat {A} (m : RM A) : sat settle_frame_rel m -> sat grows m.
Proof. intros Hm s. apply grows_frame, Hm. Qed.

(** Writing one position, without withdrawing what it owes. *)
Lemma grows_put x c x' r p :
  r_positions x' = <[ r := p ]> (r_positions x) -> r_genesis x' = r_genesis x ->
  (is_settled r x = true -> rp_settled p = true) ->
  (owed r x = true -> rp_pending_settle p || rp_settled p = true) ->
  grows (x, c) [] (x', c).
Proof.
  intros Hp Hg Hs Ho. split; cbn [fst snd]; [| |done|done]; intros r'; unfold owed, is_settled, position in *;
    rewrite Hp; (destruct (decide (r' = r)) as [->|]; [by rewrite lookup_insert_eq|by rewrite lookup_insert_ne]).
Qed.

Lemma grows_authorized r : sat grows (note_authorized r).
Proof.
  intros [x c]. unfold sat_at. cbn [note_authorized on_rep st out fst snd].
  destruct (negb _ && _) eqn:E; (eapply grows_put; [done|done| |]); unfold owed, is_settled in *; cbn; auto.
Qed.

Lemma grows_mark r : sat grows (mark_settled r).
Proof.
  intros [x c]. unfold sat_at. cbn [mark_settled on_rep st out fst snd].
  destruct (rp_pending_settle _) eqn:E; (eapply grows_put; [done|done| |]); unfold owed, is_settled in *; cbn;
    rewrite ?E; auto.
Qed.

Lemma grows_block_one h x c r : grows (x, c) [] (block_one h x r, c).
Proof.
  destruct (block_one_config h x r) as (_ & _ & _ & Hg & _).
  split; cbn [fst snd]; [| |done|done]; intros r'; unfold owed, is_settled, position;
    rewrite block_one_positions; (destruct (decide (r' = r)) as [->|]; [rewrite lookup_alter_eq|by rewrite lookup_alter_ne]);
    by destruct (r_positions x !! r).
Qed.

Lemma grows_record_blocked refs h : sat grows (record_blocked refs h).
Proof.
  intros [x c]. unfold sat_at. cbn [record_blocked on_rep st out fst snd]. revert x.
  induction refs as [|r refs IH]; intros x; [apply (trace_refl (x, c))|]. cbn [foldl].
  change (@nil Effect) with ([] ++ [] : list Effect). eapply trace_trans; [apply grows_block_one|apply IH].
Qed.

Lemma cached_retained c d a n h : cached c a n h -> cached (mark_retained d c).2 a n h.
Proof.
  revert h. induction n as [|n IH]; intros h; [done|]. intros (e & He & Hpin & Hid & Hok & Hrest).
  apply IH in Hrest. revert Hrest. cbn [cached]. unfold mark_retained. destruct (by_digest c !! d) as [e'|] eqn:Hd;
    [|by exists e]. destruct (ent_retained e'); [by exists e|]. cbn [negb snd].
  intros Hrest. destruct (decide (h = d)) as [->|].
  - exists (e <| ent_retained := true |>). cbn. rewrite lookup_insert_eq.
    split_and!; try done. congruence.
  - exists e. cbn. by rewrite lookup_insert_ne.
Qed.

Lemma grows_retain r : sat grows (retain_and_serve r).
Proof.
  unfold retain_and_serve. apply sat_bind; [apply _| |intros _; apply grows_sat, frame_try_serve].
  intros [x c]. split; cbn; [done..|]. intros a n h. apply cached_retained.
Qed.

Lemma grows_settle_frame r : sat grows (settle_frame r).
Proof. apply sat_bind; [apply _|apply grows_retain|intros _; apply grows_mark]. Qed.

Lemma grows_settle_walk a n : forall h frames, sat grows (settle_walk a n h frames).
Proof.
  induction n as [|n IH]; intros h frames; cbn [settle_walk];
    (apply sat_bind; [apply _|apply grows_sat, frame_rep|intros x]); case_match; try apply sat_ret, _.
  apply sat_bind; [apply _|apply grows_sat, frame_cache|intros c]. case_match. case_match.
  - case_match; [apply sat_ret, _|]. apply sat_bind; [apply _|apply grows_authorized|intros _; apply IH].
  - apply sat_bind; [apply _|apply grows_sat, frame_chase|intros _].
    apply sat_bind; [apply _|apply grows_record_blocked|intros _]. apply sat_ret, _.
Qed.

Lemma grows_settle r : sat grows (settle r).
Proof.
  apply sat_bind; [apply _|apply grows_settle_walk|intros [fs|]]; [|apply sat_ret, _].
  apply sat_bind; [apply _|apply sat_for_each; [apply _|apply grows_settle_frame]|intros _; apply sat_ret, _].
Qed.

Lemma grows_retry r : sat grows (retry_waiting r).
Proof.
  intros [x c]. unfold retry_waiting. apply (sat_at_bind grows); [apply grows_sat, frame_rep|].
  cbn [rep st val fst]. destruct (r_positions x !! r) as [p|] eqn:E; [|apply sat_ret, _].
  apply (sat_at_bind grows).
  - eapply grows_put; [done|done| |]; unfold owed, is_settled, position; by rewrite E.
  - case_match; [|apply sat_ret, _]. apply sat_bind; [apply _|apply grows_settle|intros _; apply sat_ret, _].
Qed.
End grow.

(** ** Cached prefixes settle *)

Section complete.
Context {Hash : Hashing} (cm : Committee) (sid : Digest) (mbp : Z).
Abbreviation genesis := (genesis_digest sid) (only parsing).
Abbreviation grows := (grows (genesis_digest sid)) (only parsing).

Definition ref_cached (c : BlockCache) (r : BlockRef) : Prop :=
  cached genesis c (ref_author r) (Z.to_nat (ref_height r)) (ref_digest r).

Lemma settle_probe_cached c a n h e :
  by_digest c !! h = Some e -> pinned_at e a n = true -> hd_id (ent_block e) = h ->
  ent_block_ok_verified e = true -> settle_probe c a n h = (Some (parent (ent_block e)), true).
Proof.
  intros He Hpin Hid Hok. unfold settle_probe. rewrite He. unfold pinned_at in Hpin.
  by rewrite Hpin, Hid, Z.eqb_refl, Hok.
Qed.

(** A walk down a cached prefix ends at genesis or at a settled reference. *)
Lemma settle_walk_complete a n : forall h (frames : list BlockRef) s,
  r_genesis s.1 = genesis -> cached genesis s.2 a n h ->
  wp (settle_walk a n h frames) s (fun res _ s' =>
    exists fs, res = Some fs /\ forall r, r ∈ frames \/ (0 < n)%nat /\ r = (a, Z.of_nat n, h) ->
      r ∈ fs \/ is_settled r s'.1 = true).
Proof.
  induction n as [|n IH]; intros h frames s Hg Hc; cbn [settle_walk]; apply wp_bind, wp_rep.
  { case_match; apply wp_ret; exists frames; (split; [done|]); intros r [?|[? _]]; [by left|lia|by left|lia]. }
  destruct (is_settled _ s.1) eqn:Hs; [apply wp_ret; exists frames; (split; [done|]); naive_solver|].
  destruct Hc as (e & He & Hpin & Hid & Hok & Hrest).
  apply wp_bind, wp_cache. rewrite (settle_probe_cached _ _ _ _ _ He Hpin Hid Hok).
  destruct n as [|n].
  - cbn [cached] in Hrest. rewrite Hrest, Hg, Z.eqb_refl. apply wp_ret. eexists. split; [done|].
    intros r [?|[_ ->]]; left; [by right|by left].
  - apply wp_bind. eapply wp_sat; [apply (grows_authorized genesis)|]. intros [] es s' Hgr.
    eapply wp_mono; [apply IH|].
    + by rewrite (gr_genesis _ _ _ _ Hgr).
    + by apply (gr_cached _ _ _ _ Hgr).
    + cbn. intros res _ s'' (fs & -> & Hfs). exists fs. split; [done|].
      intros r [Hr|[_ ->]]; apply Hfs; left; [by right|by left].
Qed.

Lemma mark_settled_settles r s : is_settled r (st (mark_settled r s)).1 = true.
Proof.
  unfold mark_settled, is_settled, position. cbn [on_rep st fst]. case_match; cbn; by rewrite lookup_insert_eq.
Qed.

Lemma settle_frames_settle fs : forall s r, r ∈ fs \/ is_settled r s.1 = true ->
  is_settled r (st (for_each settle_frame fs s)).1 = true.
Proof.
  induction fs as [|f fs IH]; intros s r Hr; [by destruct Hr as [?%not_elem_of_nil|?]|].
  cbn [for_each]. rewrite st_bind.
  apply IH. destruct Hr as [[->|]%elem_of_cons|Hr]; [right| |right].
  - apply (mark_settled_settles f (st (retain_and_serve f s))).
  - by left.
  - by apply (gr_settled genesis _ _ _ (grows_settle_frame genesis f s)).
Qed.

Lemma settle_complete r s :
  0 < ref_height r -> r_genesis s.1 = genesis -> ref_cached s.2 r -> is_settled r (st (settle r s)).1 = true.
Proof.
  intros Hh Hg Hc. pose proof (settle_walk_complete _ _ _ [] s Hg Hc) as (fs & Hv & Hfs). cbv beta in *.
  unfold settle. rewrite st_bind, Hv. apply settle_frames_settle, Hfs. right. split; [lia|].
  destruct r as [[a k] d]. unfold ref_author, ref_height, ref_digest in *. cbn [fst snd] in *. do 2 f_equal. lia.
Qed.

(** The walks a released bucket starts settle each cached reference in it. *)
Lemma retry_complete r s :
  0 < ref_height r -> r_genesis s.1 = genesis -> ref_cached s.2 r -> owed r s.1 = true ->
  is_settled r (st (retry_waiting r s)).1 = true.
Proof.
  intros Hh Hg Hc Ho. destruct (is_settled r s.1) eqn:Hs.
  { by apply (gr_settled genesis _ _ _ (grows_retry genesis r s)). }
  unfold owed in Ho. rewrite Hs, orb_false_r in Ho.
  unfold retry_waiting. rewrite st_bind. cbn [rep val st]. unfold position in Ho. destruct (r_positions s.1 !! r) as [p|] eqn:E; cbn in Ho; [|done]. rewrite Ho.
  by apply settle_complete.
Qed.

Lemma retry_all_complete waiting r : forall s,
  r ∈ waiting \/ is_settled r s.1 = true -> 0 < ref_height r -> r_genesis s.1 = genesis ->
  ref_cached s.2 r -> owed r s.1 = true ->
  is_settled r (st (for_each retry_waiting waiting s)).1 = true.
Proof.
  induction waiting as [|r' rest IH]; intros s Hr Hh Hg Hc Ho; [by destruct Hr as [?%not_elem_of_nil|?]|].
  cbn [for_each]. rewrite st_bind.
  pose proof (grows_retry genesis r' s) as Hgr. apply IH; try done.
  - destruct Hr as [[->|]%elem_of_cons|Hr]; [right; by apply retry_complete|by left|right; by apply (gr_settled _ _ _ _ Hgr)].
  - by rewrite (gr_genesis _ _ _ _ Hgr).
  - by apply (gr_cached _ _ _ _ Hgr).
  - by apply (gr_owed _ _ _ _ Hgr).
Qed.

Lemma on_block_available_complete d r s :
  r ∈ bucket s.1 d -> 0 < ref_height r -> r_genesis s.1 = genesis -> ref_cached s.2 r ->
  rp_pending_settle (position r s.1) = true -> is_settled r (st (on_block_available d s)).1 = true.
Proof.
  intros Hr Hh Hg Hc Hp. set (s1 := ((drop_fanout d s.1) <| r_refetch_at ::= delete d |>, s.2)).
  assert (settle_frame_rel s [] s1) as Hf by (destruct s as [x c]; by destruct (frame_drop_fanout d x c)).
  assert (r_blocked_on s1.1 = r_blocked_on s.1) as Hb by apply Hf.
  unfold bucket in Hr. destruct (r_blocked_on s.1 !! d) as [waiting|] eqn:E; [|by apply elem_of_empty in Hr].
  assert (st (on_block_available d s) = st (for_each retry_waiting (elements waiting)
    (s1.1 <| r_blocked_on ::= delete d |>, s1.2))) as ->.
  { unfold on_block_available. rewrite st_bind. change (st (on_rep _ s)) with s1.
    rewrite st_bind. cbn [rep val st]. by rewrite Hb, E. }
  pose proof (grows_frame genesis _ _ _ Hf) as Hgr.
  apply retry_all_complete; cbn [fst snd].
  - left. by apply elem_of_elements.
  - done.
  - by rewrite <- Hg, <- (gr_genesis _ _ _ _ Hgr).
  - done.
  - apply (gr_owed _ _ _ _ Hgr). unfold owed. by rewrite Hp.
Qed.
End complete.

Section claims.
Context {Hash : Hashing} (cm : Committee) (sid : Digest) (mbp : Z).
Abbreviation genesis := (genesis_digest sid) (only parsing).

Lemma stray_not_cached c a n h :
  header_binding cm sid mbp -> cache_ok cm sid mbp c -> stray cm sid mbp a n h -> ~ cached genesis c a n h.
Proof.
  intros Hb Hc. induction 1 as [d Hd|n b Hv Ha Hh Hs IH]; [done|]. intros (e & He & _ & Hid & _ & Hrest).
  destruct (co_valid _ _ _ _ Hc _ _ He) as [_ Hv'].
  assert (coord (ent_block e) = coord b) as Hco by (by apply (valid_coord cm sid mbp)).
  unfold coord in Hco. apply IH. congruence.
Qed.

Lemma waiting_is_blocked name es r :
  header_binding cm sid mbp -> genesis_apart cm sid mbp -> Forall (rep_event_ok cm sid mbp) es ->
  let s := rep_run sid es (repairer_new name cm sid genesis mbp, cache_new) in
  rp_pending_settle (position r s.1) = true -> ref_cached sid s.2 r ->
  exists d, rp_blocked_at (position r s.1) = Some d /\ r ∈ bucket s.1 d /\ 0 < ref_height r /\
    r_genesis s.1 = genesis.
Proof.
  intros Hb Hg Hes s Hp Hc.
  destruct (rep_run_ok cm sid mbp Hg es _ Hb Hes (rep_ok_new cm sid mbp name)) as [Hx Hok]. fold s in Hx, Hok.
  unfold position in *. destruct (r_positions s.1 !! r) as [p|] eqn:E; cbn in Hp; [|done]. cbn.
  destruct (ro_waiting _ _ _ _ _ _ Hx r p E Hp) as [[d Hd]|[Hs|[]]].
  - exists d. destruct (ro_blocked _ _ _ _ _ _ Hx r p d E Hd) as [Hin|[]].
    split_and!; [done|done|by eapply (ro_height _ _ _ _ _ _ Hx)|by apply (ro_config _ _ _ _ _ _ Hx)].
  - by destruct (stray_not_cached s.2 _ _ _ Hb Hok Hs).
Qed.
End claims.

(** C37: in every run of the repairer, whatever the lane manager does to the block
    cache, a settled reference heads a chain of valid blocks of its author that
    ends in genesis and is no longer pending; a reference recorded as blocked on
    a digest is in that digest's bucket, so the block's arrival retries it; a
    pending reference is blocked on some digest, unless its chain provably does not end in
    genesis; and the counter of pending references is their number. *)
Theorem repair_settlement {Hash : Hashing} cm sid mbp name es :
  header_binding cm sid mbp -> genesis_apart cm sid mbp -> Forall (rep_event_ok cm sid mbp) es ->
  let x := (rep_run sid es (repairer_new name cm sid (genesis_digest sid) mbp, cache_new)).1 in
  (forall r p, r_positions x !! r = Some p ->
    (rp_settled p = true -> rp_pending_settle p = false /\ ref_lineage cm sid mbp r) /\
    (forall d, rp_blocked_at p = Some d -> r ∈ bucket x d) /\
    (rp_pending_settle p = true -> is_Some (rp_blocked_at p) \/ ref_stray cm sid mbp r)) /\
  r_pending_settle x = map_sum (fun _ p => indicator (rp_pending_settle p)) (r_positions x).
Proof.
  intros Hb Hg Hes x. destruct (rep_run_ok cm sid mbp Hg es _ Hb Hes (rep_ok_new cm sid mbp name)) as [Hx _].
  fold x in Hx. destruct Hx as [_ _ H3 H4 H5 H6]. split; [|exact H4]. intros r p Hr. split_and!.
  - by apply H3.
  - intros d Hd. by destruct (H5 r p d Hr Hd).
  - intros Hp. destruct (H6 r p Hr Hp) as [|[|[]]]; auto.
Qed.

(** C38: nothing that is cached stays pending for good.  In every run, a reference
    that is pending although its whole prefix is cached and verified is blocked
    on a digest whose next availability notice settles it; and authorising a
    reference whose prefix is cached settles it at once. *)
Theorem repair_settles_cached {Hash : Hashing} cm sid mbp name es r :
  header_binding cm sid mbp -> genesis_apart cm sid mbp -> Forall (rep_event_ok cm sid mbp) es ->
  0 < ref_height r ->
  let s := rep_run sid es (repairer_new name cm sid (genesis_digest sid) mbp, cache_new) in
  ref_cached sid s.2 r ->
  is_settled r (st (repairer_authorize r s)).1 = true /\
  (rp_pending_settle (position r s.1) = true ->
    exists d, rp_blocked_at (position r s.1) = Some d /\ is_settled r (st (on_block_available d s)).1 = true).
Proof.
  intros Hb Hg Hes Hh s Hc. split.
  - destruct (rep_run_ok cm sid mbp Hg es _ Hb Hes (rep_ok_new cm sid mbp name)) as [Hx _]. fold s in Hx.
    destruct (ro_config _ _ _ _ _ _ Hx) as (_ & _ & Hgen & _).
    pose proof (grows_authorized (genesis_digest sid) r s) as Hgr. unfold repairer_authorize. rewrite !st_bind.
    apply (settle_complete sid); [done|by rewrite (gr_genesis _ _ _ _ Hgr)|by apply (gr_cached _ _ _ _ Hgr)].
  - intros Hp. destruct (waiting_is_blocked cm sid mbp name es r Hb Hg Hes Hp Hc) as (d & Hd & Hin & _ & Hgen).
    exists d. split; [done|]. by apply (on_block_available_complete sid).
Qed.

(** ** Witnesses

    Party 10 authorises the second block of lane 20 before any block is cached.
    The block is served and the walk stops at its parent, which the lane manager
    then receives. *)
Definition repair_events : list RepEvent :=
  [RAuthorize (20, 2, 3); RServe (lane_block 20 2 2 3); RCacheOp (OpUpsert (lane_block 20 1 1 2) true false true);
   RAvailable 2].

Definition repair_at (n : nat) : Repairer * BlockCache :=
  @rep_run table_hashing 7 (take n repair_events) (repairer_new 10 committee4 7 1 100, cache_new).

Lemma repair_events_ok n : Forall (@rep_event_ok table_hashing committee4 7 100) (take n repair_events).
Proof.
  apply Forall_take. repeat constructor; cbn [rep_event_ok cache_op_ok]; try done;
    apply (lanes_valid _); set_solver.
Qed.

Lemma table_genesis_apart : @genesis_apart table_hashing committee4 7 100.
Proof. apply genesis_apart_of_injective, table_injective. Qed.

Lemma repair_settlement_witness :
  (rp_blocked_at <$> r_positions (repair_at 2).1 !! (20, 2, 3) = Some (Some 2)) /\
  r_pending_settle (repair_at 2).1 = 2 /\ r_pending_settle (repair_at 4).1 = 0 /\
  @ref_lineage table_hashing committee4 7 100 (20, 2, 3).
Proof.
  split; [vm_compute; reflexivity|]. split; [vm_compute; reflexivity|]. split; [vm_compute; reflexivity|].
  destruct (@repair_settlement table_hashing committee4 7 100 10 (take 4 repair_events)
    table_binding table_genesis_apart (repair_events_ok 4)) as [H _].
  destruct (r_positions (repair_at 4).1 !! (20, 2, 3)) as [p|] eqn:E; [|vm_compute in E; discriminate E].
  destruct (H _ _ E) as [Hs _]. apply Hs. vm_compute in E. injection E as <-. reflexivity.
Defined.

Lemma repair_settles_cached_witness :
  rp_blocked_at (position (20, 2, 3) (repair_at 3).1) = Some 2 /\
  (exists d, rp_blocked_at (position (20, 2, 3) (repair_at 3).1) = Some d /\
     is_settled (20, 2, 3) (st (on_block_available d (repair_at 3))).1 = true).
Proof.
  split; [vm_compute; reflexivity|].
  apply (@repair_settles_cached table_hashing committee4 7 100 10 (take 3 repair_events) (20, 2, 3)
    table_binding table_genesis_apart (repair_events_ok 3)); [done| |vm_compute; reflexivity].
  eexists. split; [vm_compute; reflexivity|]. split_and!; [vm_compute; reflexivity..|].
  eexists. split; [vm_compute; reflexivity|]. split_and!; vm_compute; reflexivity.
Defined.
