(* ===== verification/RepairBudget.v ===== *)
(** The repairer's request budget.

    [flight] is the invariant of the request bookkeeping, [metered] the relation
    of a computation that keeps it and pays one unit of budget per request. *)

From S2P Require Import Prelude Committee Types Blocks Fixtures BlockChains Repair RepairSettle.

Definition is_request (e : Effect) : bool := match e with RequestTo _ _ => true | _ => false end.
Definition requests (es : list Effect) : Z := Z.of_nat (length (filter (fun e => is_request e = true) es)).

Lemma requests_app es es' : requests (es ++ es') = requests es + requests es'.
Proof. unfold requests. rewrite filter_app, length_app. lia. Qed.

(** The peers already asked for [h]. *)
Definition asked_peers (x : Repairer) (h : Digest) : list PublicKey :=
  filter (fun p => (p, h) ∈ r_requested x) (r_peers x).

Record flight (x : Repairer) : Prop := {
  fl_sum : r_in_flight x = map_sum (fun _ e => fo_in_flight_asks e) (r_fanout x);
  fl_entry h e : r_fanout x !! h = Some e ->
    0 <= fo_in_flight_asks e /\ 0 < fo_next_width e /\ Z.of_nat (length (asked_peers x h)) <= fo_asked e;
  fl_cap : r_in_flight x <= RECOVERY_IN_FLIGHT_MAX;
  fl_budget : 0 <= r_emit_budget x <= r_emit_ceiling x;
  fl_ceiling : RECOVERY_EMIT_MIN <= r_emit_ceiling x <= RECOVERY_EMIT_MAX;
  fl_hashes p h : p ∈ r_peers x -> (p, h) ∈ r_requested x -> h ∈ r_requested_hashes x;
  fl_peers : NoDup (r_peers x);
}.

Definition metered (s : Repairer * BlockCache) (es : list Effect) (s' : Repairer * BlockCache) : Prop :=
  flight s.1 -> flight s'.1 /\ r_emit_budget s'.1 + requests es = r_emit_budget s.1 /\
    r_emit_ceiling s'.1 = r_emit_ceiling s.1.

#[export] Instance metered_trace : TraceRel metered.
Proof.
  split; [intros s Hs; split_and!; [done|unfold requests; cbn; lia|done]|].
  intros s1 s2 s3 es1 es2 H12 H23 H1. destruct (H12 H1) as (H2 & Hb & Hc). destruct (H23 H2) as (H3 & Hb' & Hc').
  rewrite requests_app. split_and!; [done|lia|congruence].
Qed.

(** Computations that leave the bookkeeping alone. *)
Record idle (s : Repairer * BlockCache) (es : list Effect) (s' : Repairer * BlockCache) : Prop := {
  id_fanout : r_fanout s'.1 = r_fanout s.1;
  id_flight : r_in_flight s'.1 = r_in_flight s.1;
  id_budget : r_emit_budget s'.1 = r_emit_budget s.1;
  id_ceiling : r_emit_ceiling s'.1 = r_emit_ceiling s.1;
  id_requested : r_requested s'.1 = r_requested s.1;
  id_hashes : r_requested_hashes s.1 ⊆ r_requested_hashes s'.1;
  id_peers : r_peers s'.1 = r_peers s.1;
  id_out : requests es = 0;
}.

#[export] Instance idle_trace : TraceRel idle.
Proof.
  split; [by intros s; split|]. intros s1 s2 s3 es1 es2 [A1 A2 A3 A4 A5 A6 A7 A8] [B1 B2 B3 B4 B5 B6 B7 B8].
  split; [congruence..|by transitivity (r_requested_hashes s2.1)|congruence|rewrite requests_app; lia].
Qed.

Lemma idle_metered s es s' : idle s es s' -> metered s es s'.
Proof.
  intros [A1 A2 A3 A4 A5 A6 A7 A8] [H1 H2 H3 H4 H5 H6 H7]. split; [|split; [lia|done]].
  split; unfold asked_peers in *; rewrite ?A1, ?A2, ?A3, ?A4, ?A5, ?A7; try done.
  intros p h Hp Hr. apply A6. by eapply H6.
Qed.

Lemma metered_idle {A} (m : RM A) : sat idle m -> sat metered m.
Proof. intros Hm s. apply idle_metered, Hm. Qed.

Lemma idle_on_rep f : (forall x c, idle (x, c) [] (f x, c)) -> sat idle (on_rep f).
Proof. intros Hf [x c]. apply Hf. Qed.

Lemma idle_on_cache f : sat idle (on_cache f).
Proof. by intros s; split. Qed.

Lemma idle_rep : sat idle rep.
Proof. by intros s; split. Qed.

Lemma idle_cache : sat idle cache.
Proof. by intros s; split. Qed.

Lemma idle_emit e : is_request e = false -> sat idle (emit e).
Proof. intros He s. split; try done. by destruct e. Qed.

Ltac idle_step :=
  repeat first
    [ apply idle_rep | apply idle_cache | apply idle_on_cache
    | apply idle_on_rep; by intros x c; split
    | apply idle_emit; reflexivity
    | apply sat_ret, _
    | apply sat_bind; [apply _| |intros ?; cbv beta zeta]
    | apply sat_for_each; [apply _|intros ?]
    | case_match ].

Lemma idle_authorized r : sat idle (note_authorized r).
Proof. apply idle_on_rep. intros x c. cbv beta zeta. case_match; by split. Qed.

Lemma idle_mark r : sat idle (mark_settled r).
Proof. apply idle_on_rep. intros x c. cbv beta zeta. case_match; by split. Qed.

Lemma idle_record_blocked refs h : sat idle (record_blocked refs h).
Proof.
  apply idle_on_rep. intros x c. revert x. induction refs as [|r refs IH]; intros x; [by split|]. cbn [foldl].
  change (@nil Effect) with ([] ++ [] : list Effect). eapply trace_trans; [|apply IH].
  unfold block_one. repeat case_match; by split.
Qed.

Lemma idle_try_serve h : sat idle (try_serve h).
Proof. unfold try_serve, serve_pending, serve_one. idle_step. Qed.

Lemma idle_settle_frame r : sat idle (settle_frame r).
Proof.
  apply sat_bind; [apply _| |intros _; apply idle_mark].
  apply sat_bind; [apply _|apply idle_on_cache|intros _; apply idle_try_serve].
Qed.

Lemma idle_on_request peer h : sat idle (on_request peer h).
Proof.
  unfold on_request. apply sat_bind; [apply _|apply idle_rep|intros x].
  apply sat_bind; [apply _| |intros _; apply idle_try_serve].
  apply sat_when; [apply _|]. apply idle_on_rep. intros y c. by split.
Qed.

Lemma idle_note_holder peer a n : sat idle (note_holder peer a n).
Proof. apply idle_on_rep. intros x c. case_match; by split. Qed.

(** ** One round *)

Definition fresh_for (x : Repairer) (h : Digest) (T : list PublicKey) : Prop :=
  NoDup T /\ forall p, p ∈ T -> (p, h) ∉ r_requested x.

Lemma fresh_for_snoc x h T p :
  fresh_for x h T -> p ∉ T -> (p, h) ∉ r_requested x -> fresh_for x h (T ++ [p]).
Proof.
  intros [Hn Hr] Hp Hq. split; [|set_solver]. apply NoDup_app. split_and!; [done|set_solver|apply NoDup_singleton].
Qed.

Lemma likely_holders_NoDup a n want h x : NoDup (likely_holders a n want h x).
Proof.
  unfold likely_holders. eapply sublist_NoDup; [|apply sublist_take]. rewrite merge_sort_Permutation.
  rewrite <- list_fmap_compose. change (snd ∘ _) with (fun p : PublicKey * PublicKey * Height => p.1.1).
  pose proof (map_iter_NoDup (r_holders x)) as Hnd. revert Hnd.
  induction (map_iter (r_holders x)) as [|[[p q] k] l IH]; intros Hnd; [constructor|].
  rewrite fmap_cons in Hnd. apply NoDup_cons in Hnd as [Hin Hnd]. rewrite filter_cons. case_decide as Hf; [|by apply IH].
  rewrite fmap_cons. apply NoDup_cons. split; [|by apply IH]. cbn in Hf |- *.
  intros ([[p' q'] k'] & -> & [[Hq' _] Hl]%list_elem_of_filter)%list_elem_of_fmap. cbn in *. apply Hin.
  apply list_elem_of_fmap. exists (p', q', k'). split; [|done]. cbn. destruct Hf as [-> _]. by rewrite Hq'.
Qed.

Lemma pick_holders_fresh x h width peers : forall T,
  NoDup peers -> (forall p, p ∈ peers -> p ∉ T) -> fresh_for x h T -> fresh_for x h (pick_holders x h width peers T).
Proof.
  induction peers as [|p peers IH]; intros T Hnd Hd HT; cbn [pick_holders]; [done|]. case_match; [done|].
  apply NoDup_cons in Hnd as [Hp Hnd]. apply IH; [done| |]; case_bool_decide; try done.
  - intros q Hq. apply Hd. by right.
  - intros q Hq [HqT|Hq'%list_elem_of_singleton]%elem_of_app; [|congruence]. by apply (Hd q); [right|].
  - apply fresh_for_snoc; [done|apply Hd; by left|done].
Qed.

Lemma pick_rotation_fresh x h width base fuel : forall scanned T,
  fresh_for x h T -> fresh_for x h (pick_rotation x h width base fuel scanned T).
Proof.
  induction fuel as [|fuel IH]; intros scanned T HT; cbn [pick_rotation]; [done|]. case_match; [done|].
  apply IH. destruct (r_peers x !! _) as [p|]; [|done].
  case_bool_decide; cbn [negb andb]; [done|]. case_bool_decide; cbn [negb]; [done|]. by apply fresh_for_snoc.
Qed.

Lemma round_targets_fresh x h e width : fresh_for x h (round_targets x h e width).
Proof.
  apply pick_rotation_fresh, pick_holders_fresh; [apply likely_holders_NoDup|set_solver|].
  split; [constructor|set_solver].
Qed.

(** The rotation visits every peer, so a round comes up empty only when all
    peers were asked. *)
Lemma pick_rotation_nil x h width base fuel : (0 < width)%nat -> forall scanned T,
  pick_rotation x h width base fuel scanned T = [] ->
  T = [] /\ forall i p, (i < fuel)%nat ->
    r_peers x !! Z.to_nat ((base + Z.of_nat (scanned + i)) mod Z.of_nat (length (r_peers x))) = Some p ->
    (p, h) ∈ r_requested x.
Proof.
  intros Hw. induction fuel as [|fuel IH]; intros scanned T; cbn [pick_rotation]; [split; [done|lia]|].
  destruct (Nat.leb_spec width (length T)); [intros ->; cbn in *; lia|]. intros [HT Hrest]%IH.
  destruct (r_peers x !! _) as [q|] eqn:Hq.
  - case_bool_decide as Hreq; cbn [negb andb] in HT.
    + split; [done|]. intros [|i] p Hi Hp; [rewrite Nat.add_0_r in Hp; congruence|].
      apply (Hrest i); [lia|]. by rewrite Nat.add_succ_comm.
    + case_bool_decide as HqT; cbn [negb] in HT; [subst; by apply not_elem_of_nil in HqT|]. by destruct T.
  - split; [done|]. intros [|i] p Hi Hp; [rewrite Nat.add_0_r in Hp; congruence|].
    apply (Hrest i); [lia|]. by rewrite Nat.add_succ_comm.
Qed.

Lemma round_targets_nil x h e width :
  0 < width -> round_targets x h e width = [] -> forall p, p ∈ r_peers x -> (p, h) ∈ r_requested x.
Proof.
  intros Hw Hnil p [j Hj]%list_elem_of_lookup. pose proof (lookup_lt_Some _ _ _ Hj) as Hlt.
  set (n := Z.of_nat (length (r_peers x))). set (base := fo_start e + fo_asked e).
  pose proof (Z.mod_pos_bound (Z.of_nat j - base) n ltac:(lia)) as Hi.
  eapply (pick_rotation_nil x h (Z.to_nat width) base) in Hnil as [_ H]; [|lia].
  apply (H (Z.to_nat ((Z.of_nat j - base) mod n))); [lia|]. rewrite <- Hj. f_equal.
  rewrite Nat.add_0_l, Z2Nat.id by lia. fold n. rewrite Zplus_mod_idemp_r.
  replace (base + (Z.of_nat j - base)) with (Z.of_nat j) by lia. rewrite Z.mod_small by lia. lia.
Qed.

Record asks (h : Digest) (T : list PublicKey) (x x' : Repairer) : Prop := {
  as_fanout : r_fanout x' = r_fanout x;
  as_flight : r_in_flight x' = r_in_flight x;
  as_budget : r_emit_budget x' = r_emit_budget x;
  as_ceiling : r_emit_ceiling x' = r_emit_ceiling x;
  as_peers : r_peers x' = r_peers x;
  as_requested p d : (p, d) ∈ r_requested x' <-> (p, d) ∈ r_requested x \/ (d = h /\ p ∈ T);
  as_hashes d : d ∈ r_requested_hashes x' <-> d ∈ r_requested_hashes x \/ (d = h /\ T <> []);
}.

(** The targets of a round are all asked. *)
Lemma request_all h T : forall s, fresh_for s.1 h T ->
  wp (for_each (request_one h) T) s (fun _ es s' =>
    es = (fun p => RequestTo p h) <$> T /\ asks h T s.1 s'.1 /\ s'.2 = s.2).
Proof.
  induction T as [|p T IH]; intros s [Hnd Hreq]; cbn [for_each].
  - apply wp_skip. split_and!; [done| |done]. split; try done; set_solver.
  - apply NoDup_cons in Hnd as [Hp Hnd]. apply wp_bind. unfold request_one at 1. apply wp_bind, wp_rep.
    rewrite bool_decide_false by (apply Hreq; by left). apply wp_bind, wp_on_rep, wp_emit.
    eapply wp_mono; [apply IH|]; cbn [fst snd].
    + split; [done|]. intros q Hq. cbn. intros [[= ->]%elem_of_singleton|Hin]%elem_of_union; [done|].
      apply (Hreq q); [by right|done].
    + cbn. intros _ es s' (-> & [A1 A2 A3 A4 A5 A6 A7] & Hc). split_and!; [done| |done].
      split; try done; cbn in *.
      * intros q d. rewrite A6, elem_of_union, elem_of_singleton, elem_of_cons. naive_solver.
      * intros d. rewrite A7, elem_of_union, elem_of_singleton. naive_solver.
Qed.

Lemma requests_fmap h T : requests ((fun p => RequestTo p h) <$> T) = Z.of_nat (length T).
Proof.
  unfold requests. f_equal. induction T as [|p T IH]; [done|]. rewrite fmap_cons, filter_cons, decide_True by done.
  cbn. by rewrite IH.
Qed.

(** At most the peers asked now join those asked before. *)
Lemma asked_peers_asks x x' h T :
  NoDup (r_peers x) -> asks h T x x' -> (length (asked_peers x' h) <= length (asked_peers x h) + length T)%nat.
Proof.
  intros Hnd [_ _ _ _ Hp Hr _]. rewrite <- length_app. unfold asked_peers. rewrite Hp.
  apply NoDup_incl_length; [by apply NoDup_ListNoDup, NoDup_filter|]. intros q.
  rewrite <- !list_elem_of_In, elem_of_app, !list_elem_of_filter, Hr. naive_solver.
Qed.

Lemma asked_peers_other x x' h T d : d <> h -> asks h T x x' -> asked_peers x' d = asked_peers x d.
Proof.
  intros Hd [_ _ _ _ Hp Hr _]. unfold asked_peers. rewrite Hp. apply list_filter_iff. intros p. rewrite Hr. naive_solver.
Qed.

(** The round of an entry that is not complete. *)
Definition room (x : Repairer) : Z := Z.max 0 (RECOVERY_IN_FLIGHT_MAX - r_in_flight x).
Definition granted (x : Repairer) (h : Digest) (e : FanoutState) (width : Z) : list PublicKey :=
  take (Z.to_nat (Z.min (r_emit_budget x) (room x))) (round_targets x h e width).

Lemma granted_fresh x h e width : fresh_for x h (granted x h e width).
Proof.
  destruct (round_targets_fresh x h e width) as [Hnd Hr]. unfold granted.
  pose proof (sublist_take (round_targets x h e width) (Z.to_nat (Z.min (r_emit_budget x) (room x)))) as Hsub.
  split; [by eapply sublist_NoDup|]. intros p Hp. apply Hr. by eapply elem_of_sublist.
Qed.

Lemma granted_length x h e width : 0 <= r_emit_budget x ->
  Z.of_nat (length (granted x h e width)) <= Z.min (r_emit_budget x) (room x).
Proof. intros. unfold granted. rewrite length_take. unfold room. lia. Qed.

Lemma round_width_pos x h e w : flight x -> r_fanout x !! h = Some e -> round_width x e = Some w ->
  0 < w /\ fo_asked e < Z.of_nat (length (r_peers x)).
Proof.
  intros Hx He. destruct (fl_entry _ Hx h e He) as (_ & Hw & _). unfold round_width, CORE_QUEUE_CONGESTED, ESCALATE_WIDTH_MAX.
  destruct (Z.leb_spec (Z.of_nat (length (r_peers x))) (fo_asked e)); cbn [orb]; [done|].
  destruct (Z.leb_spec (if 256 <=? r_core_queue_len x then Z.min 8 (Z.of_nat (length (r_peers x)))
    else Z.of_nat (length (r_peers x))) (fo_asked e)); [done|]. intros [= <-]. lia.
Qed.

(** While budget and room are left, a round asks somebody. *)
Lemma granted_nonempty x h e w :
  flight x -> r_fanout x !! h = Some e -> round_width x e = Some w -> 0 < r_emit_budget x ->
  r_in_flight x < RECOVERY_IN_FLIGHT_MAX -> granted x h e w <> [].
Proof.
  intros Hx He Hw Hb Hf. destruct (round_width_pos _ _ _ _ Hx He Hw) as [Hpos Hask].
  destruct (fl_entry _ Hx h e He) as (_ & _ & Hcount). unfold granted, room.
  intros Hnil. apply (f_equal length) in Hnil. rewrite length_take in Hnil. cbn in Hnil.
  assert (round_targets x h e w = []) as Hempty by (apply length_zero_iff_nil; lia).
  assert (asked_peers x h = r_peers x) as Hall.
  { apply filter_full. by apply round_targets_nil with e w. }
  rewrite Hall in Hcount. lia.
Qed.

(** ** Handlers are metered *)

(** The bookkeeping after a round of targets [T]: [x1] has paid for them, [x2] has
    recorded the requests and [x3] the round. *)
Lemma flight_round x x1 x2 x3 h e e' T :
  flight x -> r_fanout x !! h = Some e ->
  Z.of_nat (length T) <= Z.min (r_emit_budget x) (room x) ->
  x1 = x <| r_emit_budget ::= fun b => b - Z.of_nat (length T) |> <| r_in_flight ::= Z.add (Z.of_nat (length T)) |> ->
  asks h T x1 x2 -> x3 = x2 <| r_fanout := r_fanout x3 |> -> r_fanout x3 = <[ h := e' ]> (r_fanout x) ->
  fo_in_flight_asks e' = Z.of_nat (length T) + fo_in_flight_asks e -> 0 < fo_next_width e' ->
  Z.of_nat (length (asked_peers x h)) + Z.of_nat (length T) <= fo_asked e' -> flight x3.
Proof.
  intros Hx He HT E1 Ha E3 Ef Hfl Hw Hask. destruct Hx as [H1 H2 H3 H4 H5 H6 H7]. pose proof Ha as [A1 A2 A3 A4 A5 A6 A7].
  destruct (H2 h e He) as (Hn & _ & _). unfold room in HT.
  assert (forall d, asked_peers x1 d = asked_peers x d /\ asked_peers x3 d = asked_peers x2 d) as Hap.
  { intros d. rewrite E1, E3. done. }
  assert (r_in_flight x3 = Z.of_nat (length T) + r_in_flight x /\ r_emit_budget x3 = r_emit_budget x - Z.of_nat (length T) /\
    r_emit_ceiling x3 = r_emit_ceiling x /\ r_peers x3 = r_peers x /\ r_peers x1 = r_peers x)
    as (E & Eb & Ec & Ep & Ep1).
  { rewrite E3. subst x1. cbn in *. split_and!; congruence. }
  split; rewrite ?E, ?Eb, ?Ec, ?Ep, ?Ef; try done; try lia.
  - rewrite (map_sum_insert_Some _ _ _ _ e) by done. lia.
  - intros d e'' Hd. destruct (Hap d) as [Hd1 Hd2]. rewrite Hd2. apply lookup_insert_Some in Hd as [[<- <-]|[Hne Hd]].
    + assert (NoDup (r_peers x1)) as Hnd by congruence. pose proof (asked_peers_asks _ _ _ _ Hnd Ha). rewrite Hd1 in *. lia.
    + rewrite (asked_peers_other x1 x2 h T), Hd1 by done. by apply H2.
  - intros p d Hp Hr. rewrite E3 in Hr |- *. cbn in Hr |- *. apply A7. rewrite E1 in A6 |- *. cbn in A6 |- *.
    apply A6 in Hr as [Hr|[-> Hin]]; [left; by eapply H6|right].
    split; [done|]. by intros ->; apply not_elem_of_nil in Hin.
Qed.

Definition paid (s : Repairer * BlockCache) {A} (_ : A) (es : list Effect) (s' : Repairer * BlockCache) : Prop :=
  flight s'.1 /\ r_emit_budget s'.1 + requests es = r_emit_budget s.1 /\ r_emit_ceiling s'.1 = r_emit_ceiling s.1.

Lemma metered_wp {A} (m : RM A) s : (flight s.1 -> wp m s (paid s)) -> sat_at metered m s.
Proof. done. Qed.

Lemma metered_fan_out h : sat metered (fan_out h).
Proof.
  intros s. apply metered_wp. intros Hx.
  assert (wp skip s (paid s)) as Hskip by (apply wp_skip; split_and!; [done|unfold requests; cbn; lia|done]).
  unfold fan_out. apply wp_bind, wp_rep. case_match; [done|].
  destruct (r_fanout s.1 !! h) as [e|] eqn:He; [|done].
  destruct (round_width s.1 e) as [w|] eqn:Hw; [|done]. cbv zeta. fold (room s.1) (granted s.1 h e w).
  set (T := granted s.1 h e w). destruct (_ && _) eqn:Hstop; [done|].
  pose proof (granted_length s.1 h e w (proj1 (fl_budget _ Hx))) as HT. fold T in HT.
  destruct (fl_entry _ Hx h e He) as (_ & Hnw & Hcount). destruct (round_width_pos _ _ _ _ Hx He Hw) as [_ Hask].
  apply wp_bind, wp_on_rep, wp_bind. cbv beta.
  eapply wp_mono; [apply request_all, (granted_fresh s.1 h e w)|]. cbn [fst snd]. fold T.
  intros [] es s' (-> & Ha & _). apply wp_on_rep. cbn [fst snd]. unfold paid. cbn [fst snd].
  split_and!; [|rewrite !requests_app, requests_fmap; unfold requests; cbn; rewrite (as_budget _ _ _ _ Ha); cbn; lia
               |cbn; by rewrite (as_ceiling _ _ _ _ Ha)].
  eapply (flight_round s.1 _ s'.1 _ h e); [done|done|exact HT|reflexivity|exact Ha|reflexivity| | | |].
  - apply map_eq. intros k. cbn. rewrite (as_fanout _ _ _ _ Ha). cbn.
    destruct (decide (k = h)) as [->|]; [rewrite lookup_alter_eq, lookup_insert_eq, He; reflexivity
                                        |by rewrite lookup_alter_ne, lookup_insert_ne].
  - done.
  - cbn. unfold usize_max, u64_max, u64_modulus. lia.
  - cbn. rewrite (as_peers _ _ _ _ Ha). cbn. case_match eqn:Hz; [apply Z.eqb_eq in Hz|]; lia.
Qed.

Lemma metered_begin_fanout h a n s :
  (flight s.1 -> r_fanout s.1 !! h = None -> asked_peers s.1 h = []) -> sat_at metered (begin_fanout h a n) s.
Proof.
  intros Hnew. unfold begin_fanout. apply (sat_at_bind metered); [apply metered_idle, idle_rep|].
  cbn [rep val st]. case_match; [apply sat_ret, _|]. apply (sat_at_bind metered); [|apply metered_fan_out].
  destruct (r_fanout s.1 !! h) as [e|] eqn:He; [apply sat_ret, _|]. apply metered_wp. intros Hx. apply wp_on_rep.
  specialize (Hnew Hx eq_refl). destruct Hx as [H1 H2 H3 H4 H5 H6 H7].
  split_and!; [|unfold requests; cbn; lia|done]. split; cbn; try done.
  - rewrite map_sum_insert_None by done. cbn. done.
  - intros d e Hd. apply lookup_insert_Some in Hd as [[<- <-]|[_ Hd]]; [|by apply H2].
    unfold asked_peers in Hnew |- *. cbn. rewrite Hnew. cbn. unfold FANOUT_FIRST. lia.
Qed.

(** Forgetting the requests of one digest. *)
Lemma metered_forget h x c x' :
  r_fanout x' = r_fanout x -> r_in_flight x' = r_in_flight x -> r_emit_budget x' = r_emit_budget x ->
  r_emit_ceiling x' = r_emit_ceiling x -> r_peers x' = r_peers x ->
  r_requested x' = r_requested x ∖ list_to_set ((fun p => (p, h)) <$> r_peers x) ->
  r_requested_hashes x' = r_requested_hashes x ∖ {[ h ]} ->
  metered (x, c) [] (x', c) /\ asked_peers x' h = [].
Proof.
  intros E1 E2 E3 E4 E5 E6 E7. split.
  - intros [H1 H2 H3 H4 H5 H6 H7]. split_and!; cbn [fst] in *; [|rewrite E3; unfold requests; cbn; lia|done].
    split; rewrite ?E1, ?E2, ?E3, ?E4, ?E5, ?E7; try done.
    + intros d e Hd. destruct (H2 d e Hd) as (? & ? & Hl). split_and!; [done|done|]. etransitivity; [|exact Hl].
      unfold asked_peers. rewrite E5, E6. apply inj_le, NoDup_incl_length; [by apply NoDup_ListNoDup, NoDup_filter|].
      intros p. rewrite <- !list_elem_of_In, !list_elem_of_filter. set_solver.
    + rewrite E6. intros p d Hp Hr. apply elem_of_difference in Hr as [Hr Hn]. apply elem_of_difference.
      split; [by eapply H6|]. intros ->%elem_of_singleton. apply Hn. apply elem_of_list_to_set, list_elem_of_fmap. by exists p.
  - apply filter_none. rewrite E5, E6. intros p Hp [_ Hn]%elem_of_difference. apply Hn.
    apply elem_of_list_to_set, list_elem_of_fmap. by exists p.
Qed.

Lemma metered_chase a n h b : sat metered (chase a n h b).
Proof.
  intros s. unfold chase. apply (sat_at_bind metered); [apply metered_idle, idle_rep|]. cbn [rep val st]. cbv zeta.
  destruct (negb _ && negb _) eqn:Hnew.
  - apply (sat_at_bind metered); [apply metered_idle, idle_on_rep; by intros x c; split|].
    apply metered_begin_fanout. intros Hx _. apply filter_none. intros p Hp Hr.
    apply andb_true_iff in Hnew as [Hh%negb_true_iff _]. apply bool_decide_eq_false in Hh. apply Hh.
    by eapply (fl_hashes _ Hx).
  - case_match; [|apply sat_ret, _]. unfold when. case_match; [|apply sat_ret, _].
    edestruct (metered_forget h s.1 s.2) as [Hm Hnil]; [..|apply (sat_at_bind metered); [exact Hm|]]; try reflexivity.
    apply metered_begin_fanout. intros _ _. exact Hnil.
Qed.

Lemma metered_drop d x c : metered (x, c) [] (drop_fanout d x, c).
Proof.
  unfold drop_fanout. destruct (r_fanout x !! d) as [e|] eqn:He; [|apply (trace_refl (x, c))].
  intros [H1 H2 H3 H4 H5 H6 H7]. cbn [fst] in *. destruct (H2 d e He) as (Hn & _).
  pose proof (map_sum_delete (fun _ e => fo_in_flight_asks e) _ _ _ He) as Hs. cbn beta in Hs.
  assert (0 <= map_sum (fun _ e => fo_in_flight_asks e) (delete d (r_fanout x))).
  { apply map_sum_nonneg. intros k v Hk. apply lookup_delete_Some in Hk as [_ Hk]. by apply (H2 k v). }
  split_and!; [|unfold requests; cbn; lia|done]. split; cbn; try done; try lia.
  intros k e' Hk. apply lookup_delete_Some in Hk as [_ Hk]. by apply (H2 k e').
Qed.

Lemma metered_on_drop d : sat metered (on_rep (drop_fanout d)).
Proof. intros [x c]. apply metered_drop. Qed.

Lemma metered_settle_walk a n : forall h frames, sat metered (settle_walk a n h frames).
Proof.
  induction n as [|n IH]; intros h frames; cbn [settle_walk];
    (apply sat_bind; [apply _|apply metered_idle, idle_rep|intros x]); case_match; try apply sat_ret, _.
  apply sat_bind; [apply _|apply metered_idle, idle_cache|intros c]. case_match. case_match.
  - case_match; [apply sat_ret, _|]. apply sat_bind; [apply _|apply metered_idle, idle_authorized|intros _; apply IH].
  - apply sat_bind; [apply _|apply metered_chase|intros _].
    apply sat_bind; [apply _|apply metered_idle, idle_record_blocked|intros _]. apply sat_ret, _.
Qed.

Lemma metered_settle r : sat metered (settle r).
Proof.
  apply sat_bind; [apply _|apply metered_settle_walk|intros [fs|]]; [|apply sat_ret, _].
  apply sat_bind; [apply _| |intros _; apply sat_ret, _].
  apply sat_for_each; [apply _|intros f; apply metered_idle, idle_settle_frame].
Qed.

Lemma metered_retry r : sat metered (retry_waiting r).
Proof.
  unfold retry_waiting. apply sat_bind; [apply _|apply metered_idle, idle_rep|intros x]. case_match; [|apply sat_ret, _].
  apply sat_bind; [apply _|apply metered_idle, idle_on_rep; by intros y c; split|intros _].
  case_match; [|apply sat_ret, _]. apply sat_bind; [apply _|apply metered_settle|intros _; apply sat_ret, _].
Qed.

Lemma metered_available d : sat metered (on_block_available d).
Proof.
  unfold on_block_available. apply sat_bind; [apply _| |intros _].
  - intros [x c]. change (metered (x, c) ([] ++ []) ((drop_fanout d x) <| r_refetch_at ::= delete d |>, c)).
    eapply trace_trans; [apply metered_drop|]. by apply idle_metered; split.
  - apply sat_bind; [apply _|apply metered_idle, idle_rep|intros x]. case_match; [|apply sat_ret, _].
    apply sat_bind; [apply _|apply metered_idle, idle_on_rep; by intros y c; split|intros _].
    apply sat_for_each; [apply _|apply metered_retry].
Qed.

Lemma metered_accept {Hash : Hashing} b : sat metered (accept_served b).
Proof.
  unfold accept_served. apply sat_bind; [apply _|apply metered_idle, idle_rep|intros x]. case_match; [apply sat_ret, _|].
  apply sat_bind; [apply _|apply metered_idle, idle_on_cache|intros _].
  apply sat_bind; [apply _|by apply metered_idle, idle_emit|intros _]. apply metered_available.
Qed.

Lemma metered_escalate key : sat metered (escalate key).
Proof.
  unfold escalate. apply sat_bind; [apply _|apply metered_idle, idle_on_rep; by intros y c; split|intros _].
  apply sat_bind; [apply _|apply metered_idle, idle_rep|intros x]. case_match; [apply sat_ret, _|].
  case_match; [apply metered_on_drop|]. apply sat_bind; [apply _|apply metered_fan_out|intros _].
  apply sat_bind; [apply _|apply metered_idle, idle_rep|intros y].
  case_match; [apply metered_idle, idle_on_rep; by intros z c; split|apply metered_on_drop].
Qed.

(** *** The tick *)

Lemma map_sum_fmap {V W} (f : Digest -> W -> Z) (g : V -> W) (m : gmap Digest V) :
  map_sum f (g <$> m) = map_sum (fun k v => f k (g v)) m.
Proof.
  induction m as [|k v m Hk IH] using map_ind; [by rewrite fmap_empty, !map_sum_empty|].
  rewrite fmap_insert, !map_sum_insert_None; [by rewrite IH|done|by rewrite lookup_fmap, Hk].
Qed.

(** Timed-out rounds give their slots back. *)
Lemma reclaim_flight x : flight x -> flight (reclaim x).
Proof.
  intros [H1 H2 H3 H4 H5 H6 H7].
  set (asks e := if timed_out (r_ticks x) e then fo_in_flight_asks e else 0).
  set (give (e : FanoutState) := if timed_out (r_ticks x) e then e <| fo_in_flight_asks := 0 |> else e).
  assert (map_sum (fun _ e => fo_in_flight_asks e) (r_fanout x) =
    map_sum (fun _ e => asks e) (r_fanout x) + map_sum (fun _ e => fo_in_flight_asks (give e)) (r_fanout x)) as Hs.
  { rewrite <- map_sum_add. apply map_sum_ext. intros k e _. unfold asks, give. case_match; cbn; lia. }
  assert (0 <= map_sum (fun _ e => asks e) (r_fanout x)).
  { apply map_sum_nonneg. intros k e He. unfold asks. case_match; [by apply (H2 k e)|done]. }
  assert (0 <= map_sum (fun _ e => fo_in_flight_asks (give e)) (r_fanout x)).
  { apply map_sum_nonneg. intros k e He. unfold give. case_match; [done|]. by apply (H2 k e). }
  assert (r_in_flight (reclaim x) =
    Z.max 0 (r_in_flight x - map_sum (fun _ e => asks e) (r_fanout x))) as Hfl by done.
  assert (r_fanout (reclaim x) = give <$> r_fanout x) as Hfo by done.
  split; rewrite ?Hfl, ?Hfo; try done; try lia.
  - rewrite map_sum_fmap, H1. lia.
  - intros h e. rewrite lookup_fmap. intros (e0 & He & ->)%fmap_Some. destruct (H2 h e0 He) as (? & ? & ?).
    change (asked_peers (reclaim x) h) with (asked_peers x h). unfold give. case_match; cbn; lia.
Qed.

(** The ceiling halves or doubles within its limits. *)
Lemma adapt_ceiling drops x c :
  RECOVERY_EMIT_MIN <= r_emit_ceiling x <= RECOVERY_EMIT_MAX ->
  exists k drops', RECOVERY_EMIT_MIN <= k <= RECOVERY_EMIT_MAX /\
    st (adapt_recovery_ceiling drops (x, c)) = (x <| r_emit_ceiling := k |> <| r_last_bulk_drops := drops' |>, c).
Proof.
  unfold RECOVERY_EMIT_MIN, RECOVERY_EMIT_MAX. intros Hc.
  exists (r_emit_ceiling (st (adapt_recovery_ceiling drops (x, c))).1),
    (r_last_bulk_drops (st (adapt_recovery_ceiling drops (x, c))).1).
  split; [|destruct drops; by destruct x]. cbn [adapt_recovery_ceiling on_rep st fst snd].
  unfold RECOVERY_EMIT_MIN, RECOVERY_EMIT_MAX, usize_max, u64_max, u64_modulus.
  pose proof (Z.div_le_upper_bound (r_emit_ceiling x) 2 65536 ltac:(lia) ltac:(lia)).
  destruct drops as [now|]; cbn -[Z.div Z.mul Z.min Z.max Z.ltb Z.sub]; case_match; lia.
Qed.

Lemma tick_metered drops s : flight s.1 ->
  let s' := st (retry_requests drops s) in
  flight s'.1 /\ r_emit_budget s'.1 + requests (out (retry_requests drops s)) = r_emit_ceiling s'.1.
Proof.
  intros Hx. change (wp (retry_requests drops) s (fun _ es s' => flight s'.1 /\ r_emit_budget s'.1 + requests es = r_emit_ceiling s'.1)).
  unfold retry_requests. apply wp_bind, wp_on_rep. cbn [fst snd]. set (x := _ <| r_ticks ::= _ |>).
  assert (flight (reclaim x)) as Hr.
  { apply reclaim_flight. by apply (idle_metered s [] (x, s.2)); [split|]. }
  apply wp_bind, wp_on_rep, wp_bind. cbn [fst snd].
  destruct (adapt_ceiling drops (reclaim x) s.2 (fl_ceiling _ Hr)) as (k & dr & Hk & Heq).
  unfold wp at 1. rewrite Heq. apply wp_bind, wp_on_rep, wp_bind, wp_rep. cbn [fst snd].
  set (y := _ <| r_emit_budget := _ |>).
  assert (flight y) as Hy.
  { destruct Hr as [H1 H2 H3 H4 H5 H6 H7]. split; try done. cbn. unfold RECOVERY_EMIT_MIN in *. lia. }
  pose proof (sat_for_each metered escalate (take FANOUT_ESCALATE_BUDGET (set_iter (r_fanout_queue y))) metered_escalate (y, s.2)) as Hm.
  destruct (Hm Hy) as (Hf & Hb & Hc). unfold wp. split; [exact Hf|].
  rewrite !requests_app. change (requests (out (adapt_recovery_ceiling drops (reclaim x, s.2)))) with 0.
  rewrite Hc. change (r_emit_ceiling (y, s.2).1) with (r_emit_budget (y, s.2).1). rewrite <- Hb.
  change (requests []) with 0. lia.
Qed.

(** ** Runs *)

Definition is_tick (e : RepEvent) : bool := match e with RTick _ => true | _ => false end.

Fixpoint rep_trace {Hash : Hashing} (sid : Digest) (es : list RepEvent) (s : Repairer * BlockCache) : list Effect :=
  match es with
  | [] => []
  | e :: es => let r := rep_exec sid e s in out r ++ rep_trace sid es (st r)
  end.

Lemma metered_exec {Hash : Hashing} sid e : is_tick e = false -> sat metered (rep_exec sid e).
Proof.
  destruct e; cbn [is_tick rep_exec]; intros Ht; try done.
  - apply sat_bind; [apply _|apply metered_idle, idle_authorized|intros _].
    apply sat_bind; [apply _|apply metered_settle|intros _; apply sat_ret, _].
  - unfold on_serve. apply sat_bind; [apply _|apply metered_idle, idle_rep|intros x].
    case_match; [apply metered_accept|apply sat_ret, _].
  - apply metered_accept.
  - apply metered_available.
  - apply metered_idle, idle_on_request.
  - apply metered_idle, idle_on_rep. by intros x c; split.
  - apply metered_idle, idle_on_rep. intros x c; split; cbn; try done. set_solver.
  - apply metered_idle, idle_note_holder.
  - apply metered_idle, idle_on_rep. by intros x c; split.
  - apply metered_idle, idle_on_cache.
Qed.

Lemma exec_flight {Hash : Hashing} sid e s : flight s.1 -> flight (st (rep_exec sid e s)).1.
Proof.
  intros Hs. destruct (is_tick e) eqn:Ht; [|by apply (metered_exec sid e Ht s)].
  destruct e; try done. by apply (tick_metered bulk_drops s).
Qed.

Lemma run_flight {Hash : Hashing} sid es : forall s, flight s.1 -> flight (rep_run sid es s).1.
Proof. induction es as [|e es IH]; intros s Hs; [done|]. by apply IH, exec_flight. Qed.

Lemma flight_new name cm sid genesis mbp : flight (repairer_new name cm sid genesis mbp).
Proof.
  split; cbn; unfold RECOVERY_IN_FLIGHT_MAX, RECOVERY_EMIT_START, RECOVERY_EMIT_MIN, RECOVERY_EMIT_MAX; try done; try lia.
  apply NoDup_filter, NoDup_authority_keys.
Qed.

(** Between ticks the budget pays for every request. *)
Lemma period_budget {Hash : Hashing} sid es : Forall (fun e => is_tick e = false) es -> forall s, flight s.1 ->
  r_emit_budget (rep_run sid es s).1 + requests (rep_trace sid es s) = r_emit_budget s.1.
Proof.
  induction 1 as [|e es He _ IH]; intros s Hs; [unfold requests; cbn; lia|].
  destruct (metered_exec sid e He s Hs) as (Hf & Hb & _). cbn [rep_trace]. cbv zeta. rewrite requests_app.
  change (rep_run sid (e :: es) s) with (rep_run sid es (st (rep_exec sid e s))). specialize (IH _ Hf). lia.
Qed.

(** C40: the repairer's requests are bounded, whatever the peers and the lane
    manager do.  The in-flight counter is the sum of the unanswered requests of
    the digests being asked for and never exceeds [RECOVERY_IN_FLIGHT_MAX]; the
    ceiling stays within its limits; and from one tick to the next the requests
    emitted and the budget that is left add up to the ceiling that tick set, so at most
    [RECOVERY_EMIT_MAX] requests leave the node in between. *)
Theorem repair_requests_bounded {Hash : Hashing} cm sid genesis mbp name es drops period :
  Forall (fun e => is_tick e = false) period ->
  let s := rep_run sid es (repairer_new name cm sid genesis mbp, cache_new) in
  let s' := rep_run sid (RTick drops :: period) s in
  r_in_flight s'.1 = map_sum (fun _ e => fo_in_flight_asks e) (r_fanout s'.1) /\
  0 <= r_in_flight s'.1 <= RECOVERY_IN_FLIGHT_MAX /\
  RECOVERY_EMIT_MIN <= r_emit_ceiling (st (retry_requests drops s)).1 <= RECOVERY_EMIT_MAX /\
  0 <= r_emit_budget s'.1 /\
  requests (rep_trace sid (RTick drops :: period) s) + r_emit_budget s'.1 =
    r_emit_ceiling (st (retry_requests drops s)).1.
Proof.
  intros Hp s s'. assert (flight s.1) as Hs by apply run_flight, flight_new.
  destruct (tick_metered drops s Hs) as [Ht Hb]. cbv zeta in *. set (s1 := st (retry_requests drops s)) in *.
  assert (flight s'.1) as Hs' by (by apply (run_flight sid period s1)).
  pose proof (period_budget sid period Hp s1 Ht) as Hb'. split_and!.
  - apply Hs'.
  - rewrite (fl_sum _ Hs'). apply map_sum_nonneg. intros k e He. by apply (fl_entry _ Hs' k e).
  - apply Hs'.
  - apply (fl_ceiling _ Ht).
  - apply (fl_ceiling _ Ht).
  - apply (fl_budget _ Hs').
  - cbn [rep_trace rep_exec]. fold s1. rewrite requests_app. change (rep_run sid period s1) with s' in Hb'. lia.
Qed.

(** a digest whose round is not complete is asked for whenever budget and room
    allow.  In every run, if the fan-out of [h] may add [w] peers, some
    budget is left and the in-flight cap is not reached, then [fan_out] asks at
    least one peer, and only peers not asked before in this cycle; the
    assertion of [fan_out] that it emits something therefore never fails. *)
Theorem fan_out_progresses {Hash : Hashing} cm sid genesis mbp name es h e w :
  let s := rep_run sid es (repairer_new name cm sid genesis mbp, cache_new) in
  r_fanout s.1 !! h = Some e -> round_width s.1 e = Some w ->
  0 < r_emit_budget s.1 -> r_in_flight s.1 < RECOVERY_IN_FLIGHT_MAX ->
  exists targets, targets <> [] /\ NoDup targets /\ Forall (fun p => (p, h) ∉ r_requested s.1) targets /\
    out (fan_out h s) = (fun p => RequestTo p h) <$> targets.
Proof.
  intros s He Hw Hb Hf. assert (flight s.1) as Hs by apply run_flight, flight_new.
  pose proof (granted_nonempty _ _ _ _ Hs He Hw Hb Hf) as Hne.
  pose proof (granted_fresh s.1 h e w) as Hfresh. exists (granted s.1 h e w).
  split_and!; [done|apply Hfresh|apply Forall_forall, Hfresh|].
  change (wp (fan_out h) s (fun _ es _ => es = (fun p => RequestTo p h) <$> granted s.1 h e w)).
  unfold fan_out. apply wp_bind, wp_rep.
  destruct (round_width_pos _ _ _ _ Hs He Hw) as [_ Hask]. destruct (fl_entry _ Hs h e He) as (_ & _ & Hc).
  destruct (Nat.eqb_spec (length (r_peers s.1)) 0) as [H0|_]; [lia|]. rewrite He, Hw. cbv zeta.
  fold (room s.1) (granted s.1 h e w). destruct (granted s.1 h e w) as [|p T] eqn:HT; [done|]. rewrite <- HT in *.
  replace (Z.of_nat (length (granted s.1 h e w)) =? 0) with false by (rewrite HT; done). cbn [andb].
  apply wp_bind, wp_on_rep, wp_bind. cbv beta. eapply wp_mono; [apply request_all, (granted_fresh s.1 h e w)|].
  intros [] es' s' (-> & _). apply wp_on_rep. by rewrite !app_nil_r, app_nil_l.
Qed.

(** ** Witnesses

    A committee of seven: the first round for a missing block asks four of the six
    peers and leaves the fan-out open. *)
Definition committee7 : Committee :=
  mkCommittee (list_to_map (map (fun k => (k, mkAuthority 1 {[ 0 ]})) [10; 20; 30; 40; 50; 60; 70])).

Definition repair7 (es : list RepEvent) : Repairer * BlockCache :=
  @rep_run table_hashing 7 es (repairer_new 10 committee7 7 1 100, cache_new).

Lemma repair_requests_bounded_witness :
  requests (@rep_trace table_hashing 7 [RTick None; RAuthorize (20, 2, 3)] (repair7 [])) = 4 /\
  requests (@rep_trace table_hashing 7 [RTick None; RAuthorize (20, 2, 3)] (repair7 [])) +
    r_emit_budget (repair7 [RTick None; RAuthorize (20, 2, 3)]).1 = 4096.
Proof.
  split; [vm_compute; reflexivity|].
  destruct (@repair_requests_bounded table_hashing committee7 7 1 100 10 [] None [RAuthorize (20, 2, 3)]
    ltac:(by repeat constructor)) as (_ & _ & _ & _ & H). etransitivity; [exact H|vm_compute; reflexivity].
Defined.

Lemma fan_out_progresses_witness :
  requests (out (fan_out 3 (repair7 [RAuthorize (20, 2, 3)]))) = 2 /\
  exists targets, targets <> [] /\ NoDup targets /\
    Forall (fun p => (p, 3) ∉ r_requested (repair7 [RAuthorize (20, 2, 3)]).1) targets /\
    out (fan_out 3 (repair7 [RAuthorize (20, 2, 3)])) = (fun p => RequestTo p 3) <$> targets.
Proof.
  split; [vm_compute; reflexivity|].
  eapply (@fan_out_progresses table_hashing committee7 7 1 100 10 [RAuthorize (20, 2, 3)] 3);
    vm_compute; reflexivity.
Defined.
