(* ===== verification/Avail.v ===== *)
(** The availability resolver.

    Models [ChainSegment], [ClaimCredits] and [AvailResolver] of
    [src/primary/src/vantage/avail.rs]: a peer's claim that it holds a lane up to a
    block is turned into the block references it covers, by walking the cached
    chain from the claimed head down to what the peer was credited with before;
    one verified run per author is remembered so that later claims on the same
    fork are answered by slicing it.

    The block cache is read only here, so it is an argument.  The
    committee-indexed containers are the maps [IndexRefine] shows them to be; a
    pair is keyed by sender and author.  Left out: metrics.  Heights that are
    computed by addition here are those of cached blocks, so they stay in range.
    Where the source iterates over a hash set the model uses one fixed order. *)

From S2P Require Import Prelude Committee Types Blocks Acks.

Definition AT_QUORUM_HEIGHTS : nat := 1024.
Definition CHAIN_SEGMENT_HEIGHTS : Z := 256.
Definition RELATIVE_ANCHOR_HEIGHTS : Z := 32.
Definition RELATIVE_TARGETS : nat := 1024.

Record AvailEntry := mkAvailEntry { ae_author : PublicKey; ae_height : Height; ae_head : Digest }.

(** Sender, anchor and distance. *)
Definition PendingRelativeClaim : Type := PublicKey * BlockRef * Height.
Definition prc_sender (p : PendingRelativeClaim) : PublicKey := p.1.1.
Definition prc_anchor (p : PendingRelativeClaim) : BlockRef := p.1.2.
Definition prc_delta (p : PendingRelativeClaim) : Height := p.2.

#[export] Instance PendingRelativeClaim_eq_dec : EqDecision PendingRelativeClaim.
Proof. unfold PendingRelativeClaim. apply _. Defined.
#[export] Instance PendingRelativeClaim_countable : Countable PendingRelativeClaim.
Proof. unfold PendingRelativeClaim. apply _. Defined.

(** ** The remembered run of an author *)

Abbreviation ChainSegment := (gmap Height Digest).

(** [heights.range(lo..=hi)], in ascending order. *)
Definition seg_range (lo hi : Height) (seg : ChainSegment) : list (Height * Digest) :=
  filter (fun p => lo <= p.1 <= hi) (map_iter seg).

Definition seg_suffix (floor_height : Height) (floor_digest : Digest) (height : Height) (head : Digest)
    (seg : ChainSegment) : option (list Digest) :=
  if negb (bool_decide (seg !! floor_height = Some floor_digest)) ||
     negb (bool_decide (seg !! height = Some head)) then None
  else
    let suffix := (seg_range (floor_height + 1) height seg).*2 in
    if Z.of_nat (length suffix) =? height - floor_height then Some suffix else None.

Definition seg_ancestor (height : Height) (digest : Digest) (target_height : Height) (seg : ChainSegment)
    : option Digest :=
  if negb (bool_decide (seg !! height = Some digest)) then None
  else
    target ← seg !! target_height;
    if Z.of_nat (length (seg_range target_height height seg)) =? height - target_height + 1
    then Some target else None.

Definition seg_base (seg : ChainSegment) : option Height := head (map_iter seg).*1.
Definition seg_top (seg : ChainSegment) : option Height := last (map_iter seg).*1.

Definition shared_height (lo hi : Height) (seg : ChainSegment) : option Height :=
  base ← seg_base seg;
  top ← seg_top seg;
  let shared := Z.min top hi in
  if Z.max base lo <=? shared then Some shared else None.

(** [checked_sub] yields nothing when the run's top is below the window. *)
Definition prune_below_window (seg : ChainSegment) : ChainSegment :=
  match seg_top seg with
  | Some top =>
      if top <? CHAIN_SEGMENT_HEIGHTS then seg
      else filter (fun p => top - CHAIN_SEGMENT_HEIGHTS <= p.1) seg
  | None => seg
  end.

(** ** State *)

Record ClaimCredits := mkClaimCredits { cc_references : list BlockRef; cc_newly_exact_quorum : list BlockRef }.

Definition credits_default : ClaimCredits := mkClaimCredits [] [].
Definition credits_app (a b : ClaimCredits) : ClaimCredits :=
  mkClaimCredits (cc_references a ++ cc_references b) (cc_newly_exact_quorum a ++ cc_newly_exact_quorum b).

(** Anchor height, anchor digest and distance. *)
Abbreviation RelativeTargets := (gmap (Height * Digest * Height) BlockRef).

Record AvailResolver := mkAvailResolver {
  av_committee : Committee;
  av_genesis : Digest;
  av_credited_floor : gmap (PublicKey * PublicKey) (Height * Digest);
  av_pending_avail : gmap (PublicKey * PublicKey) AvailEntry;
  av_pending_by_author : gmap PublicKey (gset PublicKey);
  av_pending_relative : gset PendingRelativeClaim;
  av_relative_by_author : gmap PublicKey (gset PendingRelativeClaim);
  av_at_quorum : gmap PublicKey (gset (Height * Digest));
  av_claimed : gmap (PublicKey * PublicKey) (Height * Digest);
  av_exact_claims : AckAggregator;
  av_chain_segments : gmap PublicKey ChainSegment;
  av_relative_targets : gmap PublicKey RelativeTargets;
}.

Definition av_eta (r : AvailResolver) : AvailResolver :=
  mkAvailResolver (av_committee r) (av_genesis r) (av_credited_floor r) (av_pending_avail r)
    (av_pending_by_author r) (av_pending_relative r) (av_relative_by_author r) (av_at_quorum r)
    (av_claimed r) (av_exact_claims r) (av_chain_segments r) (av_relative_targets r).

#[export] Instance set_av_credited_floor : Setter av_credited_floor.
Proof. solve_setter av_eta av_credited_floor. Defined.
#[export] Instance set_av_pending_avail : Setter av_pending_avail.
Proof. solve_setter av_eta av_pending_avail. Defined.
#[export] Instance set_av_pending_by_author : Setter av_pending_by_author.
Proof. solve_setter av_eta av_pending_by_author. Defined.
#[export] Instance set_av_pending_relative : Setter av_pending_relative.
Proof. solve_setter av_eta av_pending_relative. Defined.
#[export] Instance set_av_relative_by_author : Setter av_relative_by_author.
Proof. solve_setter av_eta av_relative_by_author. Defined.
#[export] Instance set_av_at_quorum : Setter av_at_quorum.
Proof. solve_setter av_eta av_at_quorum. Defined.
#[export] Instance set_av_claimed : Setter av_claimed.
Proof. solve_setter av_eta av_claimed. Defined.
#[export] Instance set_av_exact_claims : Setter av_exact_claims.
Proof. solve_setter av_eta av_exact_claims. Defined.
#[export] Instance set_av_chain_segments : Setter av_chain_segments.
Proof. solve_setter av_eta av_chain_segments. Defined.
#[export] Instance set_av_relative_targets : Setter av_relative_targets.
Proof. solve_setter av_eta av_relative_targets. Defined.

Definition avail_new (c : Committee) (genesis : Digest) : AvailResolver :=
  mkAvailResolver c genesis ∅ ∅ ∅ ∅ ∅ ∅ ∅ (aggregator_new c) ∅ ∅.

Abbreviation VM := (M Effect AvailResolver) (only parsing).

(** ** Quorum marks *)

Definition lane_at_quorum (lane : PublicKey) (height : Height) (d : Digest) (a : AvailResolver) : bool :=
  bool_decide ((height, d) ∈ default ∅ (av_at_quorum a !! lane)).

Definition is_at_quorum (r : BlockRef) (a : AvailResolver) : bool :=
  lane_at_quorum (ref_author r) (ref_height r) (ref_digest r) a.

(** The split key has the smallest digest, so a height is kept or dropped whole. *)
Definition prune_quorum (marks : gset (Height * Digest)) : gset (Height * Digest) :=
  if (AT_QUORUM_HEIGHTS <? size marks)%nat then
    match set_iter marks !! (size marks - AT_QUORUM_HEIGHTS)%nat with
    | Some (cut, _) => filter (fun p => cut <= p.1) marks
    | None => marks
    end
  else marks.

Definition note_threshold (r : BlockRef) (threshold : AckThreshold) : VM () :=
  when (bool_decide (threshold = Quorum)) (modify (fun a => a <| av_at_quorum ::= fun m =>
    <[ ref_author r := prune_quorum ({[ (ref_height r, ref_digest r) ]} ∪ default ∅ (m !! ref_author r)) ]> m |>)).

(** ** Verified segments *)

(** The coordinate of the walked run at a height of its span. *)
Definition walked_at (floor_height : Height) (floor_digest : Digest) (suffix : list Digest) (height : Height)
    : option Digest :=
  if height =? floor_height then Some floor_digest
  else suffix !! Z.to_nat (height - floor_height - 1).

Fixpoint insert_run (height : Height) (suffix : list Digest) (seg : ChainSegment) : ChainSegment :=
  match suffix with
  | [] => seg
  | d :: suffix => insert_run (height + 1) suffix (<[ height := d ]> seg)
  end.

(** What [memoize_segment] does to the segment of the lane. *)
Definition merge_run (floor_height : Height) (floor_digest : Digest) (suffix : list Digest) (seg : ChainSegment)
    : ChainSegment :=
  let walked_top := floor_height + Z.of_nat (length suffix) in
  let agrees :=
    match shared_height floor_height walked_top seg with
    | Some height =>
        match seg !! height with
        | Some d => bool_decide (walked_at floor_height floor_digest suffix height = Some d)
        | None => false
        end
    | None => false
    end in
  let seg := if agrees then seg else ∅ in
  prune_below_window (insert_run floor_height (floor_digest :: suffix) seg).

Definition memoize_segment (lane : PublicKey) (floor_height : Height) (floor_digest : Digest)
    (suffix : list Digest) : VM () :=
  when (negb (bool_decide (suffix = []))) (modify (fun a => a <| av_chain_segments ::= fun m =>
    <[ lane := merge_run floor_height floor_digest suffix (default ∅ (m !! lane)) ]> m |>)).

Definition verified_segment (blocks : BlockCache) (lane : PublicKey) (entry : AvailEntry)
    (floor_height : Height) (floor_digest : Digest) : VM (option (list Digest)) :=
  a ← get;
  match seg_suffix floor_height floor_digest (ae_height entry) (ae_head entry)
          (default ∅ (av_chain_segments a !! lane)) with
  | Some suffix => mret (Some suffix)
  | None =>
      match collect_verified_suffix floor_height floor_digest (ae_head entry) blocks with
      | Some suffix =>
          memoize_segment lane floor_height floor_digest suffix;;
          mret (Some suffix)
      | None => mret None
      end
  end.

(** The references of a suffix that are not at quorum yet. *)
Fixpoint suffix_refs (lane author : PublicKey) (a : AvailResolver) (height : Height) (suffix : list Digest)
    : list BlockRef :=
  match suffix with
  | [] => []
  | d :: suffix =>
      (if lane_at_quorum lane height d a then [] else [(author, height, d)]) ++
      suffix_refs lane author a (height + 1) suffix
  end.

Definition senders_insert (lane sender : PublicKey) (m : gmap PublicKey (gset PublicKey))
    : gmap PublicKey (gset PublicKey) := <[ lane := {[ sender ]} ∪ default ∅ (m !! lane) ]> m.
Definition senders_remove (lane sender : PublicKey) (m : gmap PublicKey (gset PublicKey))
    : gmap PublicKey (gset PublicKey) := <[ lane := default ∅ (m !! lane) ∖ {[ sender ]} ]> m.

(** The credited floor moves to the end of the suffix. *)
Definition raise_floor (sender lane : PublicKey) (floor_height : Height) (suffix : list Digest) : VM () :=
  match last suffix with
  | Some d => modify (fun a => a <| av_credited_floor ::=
      <[ (sender, lane) := (floor_height + Z.of_nat (length suffix), d) ]> |>)
  | None => skip
  end.

Definition resolve_one (blocks : BlockCache) (sender lane : PublicKey) (entry : AvailEntry) : VM (list BlockRef) :=
  a ← get;
  let floor := av_credited_floor a !! (sender, lane) in
  let floor_height := match floor with Some (h, _) => h | None => 0 end in
  if ae_height entry <=? floor_height then mret []
  else
    let floor_digest := match floor with Some (_, d) => d | None => av_genesis a end in
    segment ← verified_segment blocks lane entry floor_height floor_digest;
    match segment with
    | Some suffix =>
        a ← get;
        let refs := suffix_refs lane (ae_author entry) a (floor_height + 1) suffix in
        raise_floor sender lane floor_height suffix;;
        modify (fun a => a <| av_pending_avail ::= delete (sender, lane) |>
          <| av_pending_by_author ::= senders_remove lane sender |>);;
        mret refs
    | None =>
        modify (fun a => a <| av_pending_by_author ::= senders_insert lane sender |>
          <| av_pending_avail ::= <[ (sender, lane) := entry ]> |>);;
        a ← get;
        if lane_at_quorum lane (ae_height entry) (ae_head entry) a then mret []
        else mret [(ae_author entry, ae_height entry, ae_head entry)]
    end.

Fixpoint resolve_watermark (blocks : BlockCache) (sender : PublicKey) (entries : list AvailEntry)
    : VM (list BlockRef) :=
  match entries with
  | [] => mret []
  | entry :: entries =>
      refs ← resolve_one blocks sender (ae_author entry) entry;
      rest ← resolve_watermark blocks sender entries;
      mret (refs ++ rest)
  end.

(** ** Positional claims *)

Definition note_exact_claim (sender : PublicKey) (r : BlockRef) : VM bool :=
  a ← get;
  let res := record_ack sender r (av_exact_claims a) in
  modify (fun a => a <| av_exact_claims := res.2 |>);;
  mret (match availability res.1 with
        | Some v => bool_decide (av_threshold v = Quorum)
        | None => false
        end).

Definition is_exact_quorum (r : BlockRef) (a : AvailResolver) : bool := agg_is_at_quorum r (av_exact_claims a).

Definition cached_relative (anchor : BlockRef) (delta : Height) (a : AvailResolver) : option BlockRef :=
  let target_height := ref_height anchor - delta in
  let lane := ref_author anchor in
  match seg_ancestor (ref_height anchor) (ref_digest anchor) target_height
          (default ∅ (av_chain_segments a !! lane)) with
  | Some d => Some (lane, target_height, d)
  | None => default ∅ (av_relative_targets a !! lane) !! (ref_height anchor, ref_digest anchor, delta)
  end.

(** The memo keeps anchors within a window of heights, then a bounded number of
    targets; the split key has the smallest digest and distance. *)
Definition prune_relative (memo : RelativeTargets) : RelativeTargets :=
  let memo :=
    match last (map_iter memo).*1 with
    | Some (top, _, _) =>
        if top <? RELATIVE_ANCHOR_HEIGHTS then memo
        else filter (fun p => top - RELATIVE_ANCHOR_HEIGHTS <= p.1.1.1) memo
    | None => memo
    end in
  if (RELATIVE_TARGETS <? size memo)%nat then ∅ else memo.

Definition memoize_relative (anchor : BlockRef) (delta : Height) (target : BlockRef) : VM () :=
  modify (fun a => a <| av_relative_targets ::= fun m =>
    <[ ref_author anchor := prune_relative (<[ (ref_height anchor, ref_digest anchor, delta) := target ]>
         (default ∅ (m !! ref_author anchor))) ]> m |>).

Definition resolve_relative (blocks : BlockCache) (anchor : BlockRef) (delta : Height) : VM AncestorWalk :=
  a ← get;
  match (if (0 <? delta) && (delta <? ref_height anchor) then cached_relative anchor delta a else None) with
  | Some r => mret (AReady r)
  | None =>
      let walked := resolve_verified_ancestor anchor delta blocks in
      (match walked with AReady r => memoize_relative anchor delta r | _ => skip end);;
      mret walked
  end.

Definition credit_claim_prefix (blocks : BlockCache) (sender : PublicKey) (r : BlockRef) : VM (list BlockRef) :=
  a ← get;
  let lane := ref_author r in
  let higher := match av_claimed a !! (sender, lane) with Some (h, _) => h <? ref_height r | None => true end in
  when higher (modify (fun a => a <| av_claimed ::= <[ (sender, lane) := (ref_height r, ref_digest r) ]> |>));;
  resolve_one blocks sender lane (mkAvailEntry (ref_author r) (ref_height r) (ref_digest r)).

Definition remember_relative (sender : PublicKey) (anchor : BlockRef) (delta : Height) : VM () :=
  a ← get;
  let pending : PendingRelativeClaim := (sender, anchor, delta) in
  if bool_decide (pending ∈ av_pending_relative a) then skip
  else modify (fun a => a <| av_pending_relative ::= union {[ pending ]} |>
    <| av_relative_by_author ::= fun m =>
         <[ ref_author anchor := {[ pending ]} ∪ default ∅ (m !! ref_author anchor) ]> m |>).

Definition credit_relative_target (blocks : BlockCache) (sender : PublicKey) (r : BlockRef) : VM (list BlockRef) :=
  credited ← credit_claim_prefix blocks sender r;
  a ← get;
  if negb (bool_decide (r ∈ credited)) && negb (is_at_quorum r a) then mret (credited ++ [r]) else mret credited.

Definition remove_relative (pending : PendingRelativeClaim) : VM () :=
  modify (fun a => a <| av_pending_relative ::= fun s => s ∖ {[ pending ]} |>
    <| av_relative_by_author ::= fun m =>
         let author := ref_author (prc_anchor pending) in
         match m !! author with
         | Some claims =>
             let claims := claims ∖ {[ pending ]} in
             if decide (claims = ∅) then delete author m else <[ author := claims ]> m
         | None => m
         end |>).

Definition note_one (blocks : BlockCache) (sender : PublicKey) (claim : ClaimRef) : VM ClaimCredits :=
  match claim with
  | Exact r =>
      a ← get;
      let newly_counted := will_count sender r (av_exact_claims a) in
      crossed ← note_exact_claim sender r;
      credited ← credit_claim_prefix blocks sender r;
      a ← get;
      let credited :=
        if newly_counted && negb (bool_decide (r ∈ credited)) && negb (is_at_quorum r a)
        then credited ++ [r] else credited in
      mret (mkClaimCredits credited (if (crossed : bool) then [r] else []))
  | Ancestor anchor delta =>
      if (delta =? 0) || (ref_height anchor <=? delta) then mret credits_default
      else
        walk ← resolve_relative blocks anchor delta;
        match walk with
        | AReady r => credited ← credit_relative_target blocks sender r; mret (mkClaimCredits credited [])
        | APending => remember_relative sender anchor delta;; mret credits_default
        | AForked => mret credits_default
        end
  end.

Fixpoint note_claims (blocks : BlockCache) (sender : PublicKey) (claims : list ClaimRef) : VM ClaimCredits :=
  match claims with
  | [] => mret credits_default
  | claim :: claims =>
      one ← note_one blocks sender claim;
      rest ← note_claims blocks sender claims;
      mret (credits_app one rest)
  end.

Definition note_claim (blocks : BlockCache) (sender : PublicKey) (claims : list ClaimRef) : VM ClaimCredits :=
  a ← get;
  if negb (is_member (av_committee a) sender) then mret credits_default else note_claims blocks sender claims.

(** ** Retries *)

Definition retry_avail (blocks : BlockCache) (lane sender : PublicKey) : VM (list (PublicKey * BlockRef)) :=
  a ← get;
  match av_pending_avail a !! (sender, lane) with
  | None => mret []
  | Some entry => refs ← resolve_one blocks sender lane entry; mret (pair sender <$> refs)
  end.

Definition retry_relative (blocks : BlockCache) (pending : PendingRelativeClaim) : VM (list (PublicKey * BlockRef)) :=
  a ← get;
  if negb (bool_decide (pending ∈ av_pending_relative a)) then mret []
  else
    walk ← resolve_relative blocks (prc_anchor pending) (prc_delta pending);
    match walk with
    | AReady r =>
        remove_relative pending;;
        refs ← credit_relative_target blocks (prc_sender pending) r;
        mret (pair (prc_sender pending) <$> refs)
    | APending => mret []
    | AForked => remove_relative pending;; mret []
    end.

Fixpoint collect {A B} (f : A -> VM (list B)) (l : list A) : VM (list B) :=
  match l with
  | [] => mret []
  | x :: l => ys ← f x; rest ← collect f l; mret (ys ++ rest)
  end.

Definition retry_pending_avail (blocks : BlockCache) (digest : Digest) : VM (list (PublicKey * BlockRef)) :=
  match by_digest blocks !! digest with
  | None => mret []
  | Some e =>
      let lane := hd_author (ent_block e) in
      a ← get;
      one ← collect (retry_avail blocks lane) (set_iter (default ∅ (av_pending_by_author a !! lane)));
      a ← get;
      two ← collect (retry_relative blocks) (elements (default ∅ (av_relative_by_author a !! lane)));
      mret (one ++ two)
  end.

(** ** Resets and queries *)

Definition pairs_clear {V} (lane : PublicKey) (m : gmap (PublicKey * PublicKey) V) : gmap (PublicKey * PublicKey) V :=
  filter (fun p => p.1.2 <> lane) m.

Definition avail_reset_author (author : PublicKey) (anchor : BlockRef) : VM () :=
  modify (fun a => a
    <| av_credited_floor ::= fun m =>
         foldl (fun m sender => <[ (sender, author) := (ref_height anchor, ref_digest anchor) ]> m)
           (pairs_clear author m) (authority_keys (av_committee a)) |>
    <| av_pending_avail ::= pairs_clear author |>
    <| av_pending_by_author ::= delete author |>
    <| av_pending_relative ::= filter (fun p => ref_author (prc_anchor p) <> author) |>
    <| av_relative_by_author ::= delete author |>
    <| av_at_quorum ::= <[ author := {[ (ref_height anchor, ref_digest anchor) ]} ]> |>
    <| av_claimed ::= pairs_clear author |>
    <| av_exact_claims ::= agg_reset_author author |>
    <| av_chain_segments ::= delete author |>
    <| av_relative_targets ::= delete author |>).

#[export] Instance height_stake_ge_dec : RelDecision (fun p q : Height * Stake => q.1 <= p.1).
Proof. intros p q. apply _. Defined.

(** Heights from the top down until their stake reaches the quorum. *)
Fixpoint quorum_height (c : Committee) (acc : Stake) (by_height : list (Height * Stake)) : Height :=
  match by_height with
  | [] => 0
  | (h, w) :: rest =>
      let acc := u32_add acc w in
      if quorum_threshold c <=? acc then h else quorum_height c acc rest
  end.

Definition avail_height (author : PublicKey) (a : AvailResolver) : Height :=
  let row := filter (fun p => p.1.2 = author) (map_to_list (av_claimed a)) in
  quorum_height (av_committee a) 0
    (merge_sort (fun p q => q.1 <= p.1) ((fun p => (p.2.1, stake (av_committee a) p.1.1)) <$> row)).
