(* ===== verification/AvailChains.v ===== *)
(** Remembered runs.

    The coordinates a [ChainSegment] remembers form one chain of valid blocks,
    each the parent of the next, within a window of heights; merging a walked
    run into it keeps this, and slices of it are what a walk would return. *)

From S2P Require Import Prelude Committee Types Blocks BlockChains Acks Avail.

Section chains.
Context {Hash : Hashing} (cm : Committee) (sid : Digest) (mbp : Z).
Context (Hbind : header_binding cm sid mbp).
Abbreviation valid := (valid cm sid mbp) (only parsing).
Abbreviation cache_ok := (cache_ok cm sid mbp) (only parsing).
Abbreviation genesis := (genesis_digest sid) (only parsing).

(** [d] is the digest of a valid block at height [h], or genesis at height 0. *)
Definition real (h : Height) (d : Digest) : Prop :=
  (h = 0 /\ d = genesis) \/ (0 < h /\ exists b, valid b /\ hd_id b = d /\ hd_height b = h).

(** [d'] is a valid block one above [d]. *)
Definition link (h : Height) (d d' : Digest) : Prop :=
  exists b, valid b /\ hd_id b = d' /\ hd_height b = h + 1 /\ parent b = d.

(** [s] climbs from [d] at height [h], one block per height. *)
Fixpoint climbs (h : Height) (d : Digest) (s : list Digest) : Prop :=
  match s with
  | [] => True
  | d' :: s => link h d d' /\ climbs (h + 1) d' s
  end.

(** [d'] at height [h'] is on the chain that ends in [d] at height [h]. *)
Definition below (h : Height) (d : Digest) (h' : Height) (d' : Digest) : Prop :=
  exists s, climbs h' d' s /\ last (d' :: s) = Some d /\ Z.of_nat (length s) = h - h'.

Lemma link_parent h d1 d2 d' h' : link h d1 d' -> link h' d2 d' -> d1 = d2 /\ h = h'.
Proof.
  intros (b & Hv & Hid & Hh & <-) (b' & Hv' & Hid' & Hh' & <-).
  assert (coord b = coord b') as [= _ ? ?] by (apply (valid_coord cm sid mbp Hbind); congruence). split; [done|lia].
Qed.

Lemma climbs_app h d s s' d1 :
  climbs h d (s ++ s') -> last (d :: s) = Some d1 -> climbs h d s /\ climbs (h + Z.of_nat (length s)) d1 s'.
Proof.
  revert h d. induction s as [|x s IH]; intros h d; cbn [app climbs length].
  - intros Hc [= ->]. replace (h + Z.of_nat 0) with h by lia. done.
  - intros [Hl Hc] Hlast. destruct (IH _ _ Hc) as [H1 H2]; [by rewrite last_cons_cons in Hlast|].
    split; [done|]. by replace (h + Z.of_nat (S (length s))) with (h + 1 + Z.of_nat (length s)) by lia.
Qed.

Lemma climbs_join h d s s' d1 :
  climbs h d s -> last (d :: s) = Some d1 -> climbs (h + Z.of_nat (length s)) d1 s' -> climbs h d (s ++ s').
Proof.
  revert h d. induction s as [|x s IH]; intros h d; cbn [app climbs length].
  - intros _ [= ->]. by replace (h + Z.of_nat 0) with h by lia.
  - intros [Hl Hc] Hlast Hs'. split; [done|]. apply IH; [done|by rewrite last_cons_cons in Hlast|].
    by replace (h + 1 + Z.of_nat (length s)) with (h + Z.of_nat (S (length s))) by lia.
Qed.

(** A chain is determined by its end. *)
Lemma climbs_unique s : forall s' h d d',
  climbs h d s -> climbs h d' s' -> length s = length s' -> last (d :: s) = last (d' :: s') -> d = d' /\ s = s'.
Proof.
  induction s as [|x s IH] using rev_ind; intros s' h d d' Hs Hs' Hlen Hlast.
  - destruct s'; [|done]. by injection Hlast as ->.
  - destruct s' as [|y s' _] using rev_ind; [rewrite length_app in Hlen; cbn in Hlen; lia|].
    rewrite !length_app in Hlen. cbn in Hlen. rewrite !app_comm_cons, !last_snoc in Hlast. injection Hlast as ->.
    destruct (last (d :: s)) as [d1|] eqn:E1; [|by apply last_None in E1].
    destruct (last (d' :: s')) as [d2|] eqn:E2; [|by apply last_None in E2].
    apply (climbs_app _ _ _ _ d1) in Hs as [Hs [Hl _]]; [|done]. apply (climbs_app _ _ _ _ d2) in Hs' as [Hs' [Hl' _]]; [|done].
    destruct (link_parent _ _ _ _ _ Hl Hl') as [-> _]. destruct (IH s' h d d') as [-> ->]; try done; [lia|congruence].
Qed.

Lemma climbs_last_real h d s d' : climbs h d s -> real h d -> 0 <= h -> last (d :: s) = Some d' ->
  real (h + Z.of_nat (length s)) d'.
Proof.
  revert h d. induction s as [|x s IH]; intros h d; cbn [climbs length].
  - intros _ Hr _ [= <-]. by replace (h + Z.of_nat 0) with h by lia.
  - intros [(b & Hv & Hid & Hh & _) Hc] _ Hpos Hlast.
    replace (h + Z.of_nat (S (length s))) with (h + 1 + Z.of_nat (length s)) by lia.
    apply (IH _ x); [done| |lia|by rewrite last_cons_cons in Hlast]. right. split; [lia|]. by exists b.
Qed.

Lemma real_unique h h' d : genesis_apart cm sid mbp -> real h d -> real h' d -> h = h'.
Proof.
  intros Hg [[-> ->]|(Hp & b & Hv & Hid & Hh)] [[-> Hd]|(Hp' & b' & Hv' & Hid' & Hh')]; [done| | |].
  - by destruct (Hg b' Hv').
  - subst d. by destruct (Hg b Hv).
  - assert (coord b = coord b') as [= _ ? _] by (apply (valid_coord cm sid mbp Hbind); congruence). lia.
Qed.

(** ** Walks yield chains *)

Lemma path_climbs c a n cur l k d : cache_ok c -> path (by_digest c) a n cur l k d ->
  climbs (Z.of_nat k) d (reverse l) /\ last (d :: reverse l) = Some cur /\ length l = (n - k)%nat /\ (k <= n)%nat.
Proof.
  intros Hc Hp. pose proof (path_le _ _ _ _ _ _ _ Hp) as [Hle Hlen]. split_and!; [| |done|done].
  - clear Hle Hlen. induction Hp as [|n d e l k d' He Hpin Hok Hp IH]; [done|]. rewrite reverse_cons.
    pose proof (path_le _ _ _ _ _ _ _ Hp) as [Hle Hlen]. destruct (co_valid _ _ _ _ Hc _ _ He) as [Hid Hv].
    apply pinned_at_spec in Hpin as [_ Hh].
    assert (last (d' :: reverse l) = Some (parent (ent_block e))) as Hlast.
    { clear -Hp. induction Hp as [|n d e' l k d' He Hpin Hok Hp IH]; [done|]. rewrite reverse_cons, app_comm_cons, last_snoc.
      done. }
    apply (climbs_join _ _ _ _ (parent (ent_block e))); [done|done|]. cbn. split; [|done].
    exists (ent_block e). rewrite length_reverse, Hlen, Hh. split_and!; [done|done|lia|done].
  - destruct Hp as [|n d e l k d' He Hpin Hok Hp]; [done|]. by rewrite reverse_cons, app_comm_cons, last_snoc.
Qed.

Lemma collect_climbs c k d h s : cache_ok c -> 0 <= k -> collect_verified_suffix k d h c = Some s ->
  climbs k d s /\ last (d :: s) = Some h /\ exists e, by_digest c !! h = Some e /\
    Z.of_nat (length s) = hd_height (ent_block e) - k.
Proof.
  intros Hc Hk. unfold collect_verified_suffix, classify_suffix.
  destruct (by_digest c !! h) as [e|] eqn:He; [|done]. rewrite <- (Z2Nat.id k) at 1 by done.
  destruct (suffix_walk _ _ _ _ _ _ _) as [ch| |] eqn:Hw; try done. intros [= <-].
  apply suffix_walk_ready in Hw as (l & Hp & ->). cbn [app] in *.
  destruct (path_climbs _ _ _ _ _ _ _ Hc Hp) as (H1 & H2 & H3 & H4). rewrite Z2Nat.id in H1 by done.
  split_and!; [done|done|]. exists e. split; [done|]. rewrite length_reverse, H3.
  destruct (co_valid _ _ _ _ Hc _ _ He) as [_ [(_ & Hu & _) _]]. unfold is_u64 in Hu. lia.
Qed.

Lemma ancestor_walk_climbs c a t k : cache_ok c -> forall cur r, ancestor_walk (by_digest c) a t k cur = AReady r ->
  exists d s, r = (a, t, d) /\ climbs t d s /\ last (d :: s) = Some cur /\ length s = k /\
    (exists b, valid b /\ hd_id b = d /\ hd_height b = t).
Proof.
  intros Hc. induction k as [|k IH]; intros cur r; cbn [ancestor_walk];
    (destruct (by_digest c !! cur) as [e|] eqn:He; [|done]);
    (destruct (pinned_at e a _) eqn:Hpin; cbn [negb]; [|done]);
    (destruct (ent_block_ok_verified e); cbn [negb]; [|done]);
    destruct (co_valid _ _ _ _ Hc _ _ He) as [Hid Hv]; apply pinned_at_spec in Hpin as [_ Hh].
  - intros [= <-]. exists cur, []. split_and!; try done. exists (ent_block e). split_and!; [done|done|lia].
  - intros (d & s & -> & Hcl & Hlast & Hlen & Hb)%IH. exists d, (s ++ [cur]).
    rewrite app_comm_cons, last_snoc, length_app. cbn. split_and!; try done; [|lia].
    apply (climbs_join _ _ _ _ (parent (ent_block e))); [done|done|]. split; [|done].
    exists (ent_block e). split_and!; [done|done|lia|done].
Qed.

(** ** Segments *)

Record seg_chain (seg : ChainSegment) : Prop := {
  so_real h d : seg !! h = Some d -> 0 <= h /\ real h d;
  so_link h d d' : seg !! h = Some d -> seg !! (h + 1) = Some d' -> link h d d';
  so_between h1 h2 h3 : is_Some (seg !! h1) -> is_Some (seg !! h3) -> h1 <= h2 <= h3 -> is_Some (seg !! h2);
}.

Record seg_ok (seg : ChainSegment) : Prop := {
  so_chain :> seg_chain seg;
  so_window h1 h2 : is_Some (seg !! h1) -> is_Some (seg !! h2) -> h2 - h1 <= CHAIN_SEGMENT_HEIGHTS;
}.

Lemma seg_ok_empty : seg_ok ∅.
Proof. split; [split|]; intros *; rewrite ?lookup_empty; try done; by intros []. Qed.

(** The range of a segment without gaps, as a list of heights. *)
Lemma seg_range_eq seg lo n :
  (forall h, lo <= h < lo + Z.of_nat n -> is_Some (seg !! h)) ->
  seg_range lo (lo + Z.of_nat n - 1) seg = (fun h => (h, default 0 (seg !! h))) <$> seqZ lo (Z.of_nat n).
Proof.
  intros Hall. assert (Hperm : seg_range lo (lo + Z.of_nat n - 1) seg ≡ₚ
      (fun h => (h, default 0 (seg !! h))) <$> seqZ lo (Z.of_nat n)).
  { apply NoDup_Permutation.
    - apply NoDup_filter. eapply NoDup_fmap_1. apply map_iter_NoDup.
    - apply NoDup_fmap_2_strong; [|apply NoDup_seqZ]. by intros h h' _ _ [= -> _].
    - intros [h d]. unfold seg_range. rewrite list_elem_of_filter, elem_of_map_iter, list_elem_of_fmap. cbn. split.
      + intros [Hh Hd]. exists h. rewrite Hd. split; [done|]. apply elem_of_seqZ. lia.
      + intros (h' & [= -> ->] & Hh%elem_of_seqZ). split; [lia|].
        destruct (Hall h') as [d ->]; [lia|done]. }
  apply (StronglySorted_unique_strong (fun p q : Height * Digest => p.1 <= q.1)); [| | |done].
  - intros [h d] [h' d'] Hin Hin' ? ?. cbn in *. assert (h = h') as -> by lia.
    rewrite Hperm in Hin. apply list_elem_of_fmap in Hin as (x & [= -> ->] & _), Hin' as (y & [= -> ->] & _). done.
  - pose proof (map_iter_sorted seg) as Hs. unfold seg_range. clear -Hs. induction Hs as [|p l Hl IH Hp]; [constructor|].
    rewrite filter_cons. case_decide; [|done]. constructor; [done|]. apply Forall_forall. intros q [_ Hq]%list_elem_of_filter.
    by eapply Forall_forall in Hp.
  - clear. revert lo. induction n as [|n IH]; intros lo; [rewrite seqZ_nil by lia; constructor|].
    rewrite seqZ_cons by lia. cbn. replace (Z.pred (Z.of_nat (S n))) with (Z.of_nat n) by lia.
    constructor; [by apply IH|]. apply Forall_forall. intros [h d] (x & [= -> _] & Hx%elem_of_seqZ)%list_elem_of_fmap. cbn. lia.
Qed.

Lemma seg_climbs seg n : seg_ok seg -> forall lo,
  (forall h, lo <= h <= lo + Z.of_nat n -> is_Some (seg !! h)) ->
  climbs lo (default 0 (seg !! lo)) ((fun h => default 0 (seg !! h)) <$> seqZ (lo + 1) (Z.of_nat n)) /\
  last (default 0 (seg !! lo) :: ((fun h => default 0 (seg !! h)) <$> seqZ (lo + 1) (Z.of_nat n))) =
    seg !! (lo + Z.of_nat n).
Proof.
  intros Hs. induction n as [|n IH]; intros lo Hall.
  - rewrite seqZ_nil by lia. cbn. split; [done|]. replace (lo + Z.of_nat 0) with lo by lia.
    destruct (Hall lo) as [d Hd]; [lia|]. by rewrite Hd.
  - rewrite seqZ_cons by lia. replace (Z.pred (Z.of_nat (S n))) with (Z.of_nat n) by lia.
    replace (Z.succ (lo + 1)) with (lo + 1 + 1) by lia. rewrite fmap_cons. cbn [climbs]. rewrite last_cons_cons.
    destruct (IH (lo + 1)) as [Hc Hl]; [intros h Hh; apply Hall; lia|].
    replace (lo + Z.of_nat (S n)) with (lo + 1 + Z.of_nat n) by lia. split_and!; [|done|done].
    destruct (Hall lo) as [d Hd]; [lia|]. destruct (Hall (lo + 1)) as [d' Hd']; [lia|]. rewrite Hd, Hd'. cbn.
    by apply (so_link _ Hs).
Qed.

Lemma fmap_snd_range (seg : ChainSegment) (l : list Z) :
  ((fun h => (h, default 0 (seg !! h))) <$> l).*2 = (fun h => default 0 (seg !! h)) <$> l.
Proof. rewrite <- list_fmap_compose. done. Qed.

(** A slice of a run is the chain between its two ends. *)
Lemma seg_suffix_climbs seg k d h d' s : seg_ok seg -> k < h -> seg_suffix k d h d' seg = Some s ->
  climbs k d s /\ last (d :: s) = Some d' /\ Z.of_nat (length s) = h - k.
Proof.
  intros Hs Hlt. unfold seg_suffix. destruct (_ || _) eqn:E; [done|].
  apply orb_false_iff in E as [H1%negb_false_iff H2%negb_false_iff].
  apply bool_decide_eq_true in H1, H2. set (n := Z.to_nat (h - k)).
  assert (forall x, k <= x <= k + Z.of_nat n -> is_Some (seg !! x)) as Hall.
  { intros x Hx. apply (so_between _ Hs k x h); [by rewrite H1|by rewrite H2|lia]. }
  assert (seg_range (k + 1) h seg = (fun h => (h, default 0 (seg !! h))) <$> seqZ (k + 1) (Z.of_nat n)) as Hr.
  { rewrite <- seg_range_eq by (intros x Hx; apply Hall; lia). f_equal. lia. }
  rewrite Hr, fmap_snd_range. clear Hr.
  destruct (_ =? _) eqn:Hlen; [|done]. intros [= <-]. destruct (seg_climbs seg n Hs k Hall) as [Hc Hl].
  rewrite H1 in Hc, Hl. cbn [from_option id] in Hc, Hl. apply Z.eqb_eq in Hlen. split_and!; [done| |lia].
  rewrite Hl, <- H2. f_equal. lia.
Qed.

Lemma seg_ancestor_below seg h d t d' : seg_ok seg -> t <= h -> seg_ancestor h d t seg = Some d' -> below h d t d'.
Proof.
  intros Hs Hle. unfold seg_ancestor. destruct (negb _) eqn:E; [done|]. apply negb_false_iff, bool_decide_eq_true in E.
  destruct (seg !! t) as [x|] eqn:Ht; cbn; [|done]. destruct (_ =? _); [|done]. intros [= ->].
  set (n := Z.to_nat (h - t)).
  destruct (seg_climbs seg n Hs t) as [Hc Hl].
  { intros k Hk. apply (so_between _ Hs t k h); [by rewrite Ht|by rewrite E|lia]. }
  rewrite Ht in Hc, Hl. cbn [from_option id] in Hc, Hl. eexists. split_and!; [exact Hc| |].
  - rewrite Hl, <- E. f_equal. lia.
  - rewrite length_fmap, length_seqZ. lia.
Qed.

Lemma insert_run_lookup suffix : forall h (seg : ChainSegment) k,
  insert_run h suffix seg !! k =
  if decide (h <= k < h + Z.of_nat (length suffix)) then suffix !! Z.to_nat (k - h) else seg !! k.
Proof.
  induction suffix as [|d suffix IH]; intros h seg k; cbn [insert_run length].
  - case_decide; [lia|done].
  - rewrite IH. destruct (decide (k = h)) as [->|Hne].
    + rewrite decide_False by lia. rewrite lookup_insert_eq, decide_True by lia. by rewrite Z.sub_diag.
    + rewrite lookup_insert_ne by done. repeat case_decide; try lia; [|done].
      replace (Z.to_nat (k - h)) with (S (Z.to_nat (k - (h + 1)))) by lia. done.
Qed.

(** The walked run as a map of heights. *)
Lemma run_lookup h d s k : climbs h d s -> real h d -> 0 <= h -> h <= k < h + Z.of_nat (S (length s)) ->
  exists x, (d :: s) !! Z.to_nat (k - h) = Some x /\ real k x.
Proof.
  intros Hc Hr Hh Hk. destruct (lookup_lt_is_Some_2 (d :: s) (Z.to_nat (k - h))) as [x Hx]; [cbn; lia|].
  exists x. split; [done|]. destruct (Z.to_nat (k - h)) as [|i] eqn:Hi; cbn in Hx.
  - injection Hx as <-. by replace k with h by lia.
  - assert (last (d :: take (S i) s) = Some x) as Hl.
    { rewrite (take_S_r s i x) by done. by rewrite app_comm_cons, last_snoc. }
    rewrite <- (take_drop (S i) s) in Hc. apply (climbs_app _ _ _ _ x) in Hc as [Hc _]; [|done].
    pose proof (climbs_last_real _ _ _ _ Hc Hr Hh Hl) as Hreal. rewrite length_take in Hreal.
    apply lookup_lt_Some in Hx. by replace k with (h + Z.of_nat (S i `min` length s)) by lia.
Qed.

Lemma run_link h d s i x y : climbs h d s -> (d :: s) !! i = Some x -> (d :: s) !! S i = Some y ->
  link (h + Z.of_nat i) x y.
Proof.
  revert h d i. induction s as [|z s IH]; intros h d i; [by destruct i|]. cbn [climbs]. intros [Hl Hc].
  destruct i as [|i]; cbn.
  - intros [= <-] [= <-]. by replace (h + Z.of_nat 0) with h by lia.
  - intros Hx Hy. replace (h + Z.of_nat (S i)) with (h + 1 + Z.of_nat i) by lia. by apply (IH _ z).
Qed.

(** ** Merging *)

Lemma sorted_last {A} (R : relation A) l x y : StronglySorted R l -> last l = Some x -> y ∈ l -> y = x \/ R y x.
Proof.
  induction 1 as [|z l Hl IH Hz]; [done|]. intros Hlast [->|Hy]%elem_of_cons.
  - destruct l as [|w l]; [left; by injection Hlast|]. right. rewrite last_cons_cons in Hlast.
    eapply Forall_forall; [exact Hz|]. by apply last_Some_elem_of.
  - destruct l as [|w l]; [by apply not_elem_of_nil in Hy|]. rewrite last_cons_cons in Hlast. by apply IH.
Qed.

Lemma elem_of_keys (seg : ChainSegment) h : h ∈ (map_iter seg).*1 <-> is_Some (seg !! h).
Proof.
  rewrite list_elem_of_fmap. split.
  - intros ([h' d] & -> & H%elem_of_map_iter). by exists d.
  - intros [d H]. exists (h, d). split; [done|]. by apply elem_of_map_iter.
Qed.

Lemma keys_sorted (seg : ChainSegment) : StronglySorted Z.le (map_iter seg).*1.
Proof.
  pose proof (map_iter_sorted seg) as Hs. induction Hs as [|p l Hl IH Hp]; [constructor|]. rewrite fmap_cons.
  constructor; [done|]. apply Forall_fmap. eapply Forall_impl; [exact Hp|]. done.
Qed.

Lemma seg_top_spec seg t : seg_top seg = Some t -> is_Some (seg !! t) /\ forall h, is_Some (seg !! h) -> h <= t.
Proof.
  intros Ht. split; [by apply elem_of_keys, last_Some_elem_of|]. intros h Hh%elem_of_keys.
  destruct (sorted_last _ _ _ _ (keys_sorted seg) Ht Hh); lia.
Qed.

Lemma seg_base_spec seg b : seg_base seg = Some b -> forall h, is_Some (seg !! h) -> b <= h.
Proof.
  unfold seg_base. pose proof (keys_sorted seg) as Hs. intros Hb h Hh%elem_of_keys.
  destruct Hs as [|z l _ Hz]; [done|]. injection Hb as ->. apply elem_of_cons in Hh as [->|Hh]; [lia|].
  by eapply Forall_forall in Hz.
Qed.

Lemma walked_at_lookup k d s h : k <= h -> walked_at k d s h = (d :: s) !! Z.to_nat (h - k).
Proof.
  intros Hh. unfold walked_at. destruct (Z.eqb_spec h k) as [->|]; [by rewrite Z.sub_diag|].
  by replace (Z.to_nat (h - k)) with (S (Z.to_nat (h - k - 1))) by lia.
Qed.

(** A run joined to a chain it agrees with. *)
Lemma insert_run_chain seg k d s :
  seg_chain seg -> climbs k d s -> real k d -> 0 <= k ->
  (forall h x, k <= h <= k + Z.of_nat (length s) -> seg !! h = Some x -> (d :: s) !! Z.to_nat (h - k) = Some x) ->
  (forall h x, seg !! h = Some x -> exists t, k <= t <= k + Z.of_nat (length s) /\ is_Some (seg !! t)) ->
  seg_chain (insert_run k (d :: s) seg).
Proof.
  intros Hs Hc Hr Hk Hag Hov. set (w := k + Z.of_nat (length s)).
  assert (forall h, insert_run k (d :: s) seg !! h =
    if decide (k <= h <= w) then (d :: s) !! Z.to_nat (h - k) else seg !! h) as Hlk.
  { intros h. rewrite insert_run_lookup. cbn [length]. repeat case_decide; [done|lia|lia|done]. }
  assert (forall h, is_Some (insert_run k (d :: s) seg !! h) <-> k <= h <= w \/ is_Some (seg !! h)) as Hdom.
  { intros h. rewrite Hlk. case_decide as Hh; [|naive_solver]. split; [by left|intros _].
    apply lookup_lt_is_Some. cbn. lia. }
  assert (forall h x, insert_run k (d :: s) seg !! h = Some x -> seg !! h = Some x \/
    (k <= h <= w /\ (d :: s) !! Z.to_nat (h - k) = Some x)) as Hval.
  { intros h x. rewrite Hlk. case_decide; auto. }
  assert (forall h x, seg !! h = Some x -> insert_run k (d :: s) seg !! h = Some x) as Hkeep.
  { intros h x Hx. rewrite Hlk. case_decide; [by apply Hag|done]. }
  split.
  - intros h x [Hx|[Hh Hx]]%Hval; [by apply (so_real _ Hs)|]. split; [lia|].
    destruct (run_lookup k d s h) as (y & Hy & Hreal); [done|done|done|lia|]. by simplify_eq.
  - intros h x y Hx Hy. destruct (decide (k <= h /\ h + 1 <= w)) as [Hin|Hout].
    + rewrite Hlk, decide_True in Hx by lia. rewrite Hlk, decide_True in Hy by lia. replace (Z.to_nat (h + 1 - k)) with (S (Z.to_nat (h - k))) in Hy by lia.
      replace h with (k + Z.of_nat (Z.to_nat (h - k))) by lia. by eapply run_link.
    + assert (is_Some (seg !! h) /\ is_Some (seg !! (h + 1))) as [[x' Hx'] [y' Hy']].
      { destruct (decide (is_Some (seg !! h))) as [H1|H1]; destruct (decide (is_Some (seg !! (h + 1)))) as [H2|H2].
        - done.
        - destruct H1 as [x' Hx']. destruct (Hov h x' Hx') as (t & Ht & Hst).
          assert (k <= h + 1 <= w) by (destruct (Hdom (h + 1)) as [[]]; [by rewrite Hy|done|done]).
          split; [done|]. apply (so_between _ Hs h (h + 1) t); [done|done|lia].
        - destruct H2 as [y' Hy']. destruct (Hov _ y' Hy') as (t & Ht & Hst).
          assert (k <= h <= w) by (destruct (Hdom h) as [[]]; [by rewrite Hx|done|done]).
          split; [|done]. apply (so_between _ Hs t h (h + 1)); [done|by exists y'|lia].
        - exfalso. assert (k <= h <= w) by (destruct (Hdom h) as [[]]; [by rewrite Hx|done|done]).
          assert (k <= h + 1 <= w) by (destruct (Hdom (h + 1)) as [[]]; [by rewrite Hy|done|done]). lia. }
      rewrite (Hkeep _ _ Hx') in Hx. rewrite (Hkeep _ _ Hy') in Hy. simplify_eq. by apply (so_link _ Hs).
  - intros h1 h2 h3 H1 H3 Hle. apply Hdom. destruct (decide (k <= h2 <= w)) as [|Hn]; [by left|right].
    apply Hdom in H1, H3. destruct (decide (h2 < k)).
    + destruct H1 as [|[x Hx]]; [lia|]. destruct (Hov h1 x Hx) as (t & Ht & Hst).
      apply (so_between _ Hs h1 h2 t); [by exists x|done|lia].
    + destruct H3 as [|[x Hx]]; [lia|]. destruct (Hov h3 x Hx) as (t & Ht & Hst).
      apply (so_between _ Hs t h2 h3); [done|by exists x|lia].
Qed.

(** Agreement at one height goes down the chain. *)
Lemma runs_agree_below seg k d s t x : seg_chain seg -> climbs k d s -> k <= t <= k + Z.of_nat (length s) ->
  seg !! t = Some x -> (d :: s) !! Z.to_nat (t - k) = Some x -> forall h y, k <= h <= t -> seg !! h = Some y ->
  (d :: s) !! Z.to_nat (h - k) = Some y.
Proof.
  intros Hs Hc Ht Hx Hx' h y Hh Hy. remember (Z.to_nat (t - h)) as n eqn:Hn. revert h y Hh Hy Hn.
  induction n as [|n IH]; intros h y Hh Hy Hn; [by replace h with t in * by lia; simplify_eq|].
  destruct (so_between _ Hs h (h + 1) t) as [z Hz]; [by rewrite Hy|by rewrite Hx|lia|].
  pose proof (IH (h + 1) z ltac:(lia) Hz ltac:(lia)) as Hz'.
  destruct (lookup_lt_is_Some_2 (d :: s) (Z.to_nat (h - k))) as [y' Hy']; [cbn; lia|].
  replace (Z.to_nat (h + 1 - k)) with (S (Z.to_nat (h - k))) in Hz' by lia.
  pose proof (run_link _ _ _ _ _ _ Hc Hy' Hz') as Hl. pose proof (so_link _ Hs _ _ _ Hy Hz) as Hl'.
  destruct (link_parent _ _ _ _ _ Hl Hl') as [-> _]. done.
Qed.

Lemma prune_ok seg : seg_chain seg -> seg_ok (prune_below_window seg).
Proof.
  intros Hs. unfold prune_below_window, CHAIN_SEGMENT_HEIGHTS. destruct (seg_top seg) as [top|] eqn:Ht.
  - destruct (seg_top_spec _ _ Ht) as [_ Htop]. destruct (Z.ltb_spec top 256).
    + split; [done|]. unfold CHAIN_SEGMENT_HEIGHTS. intros h1 h2 [d H1] H2%Htop.
      destruct (so_real _ Hs _ _ H1) as [? _]. lia.
    + assert (forall h, is_Some (filter (fun p : Height * Digest => top - 256 <= p.1) seg !! h) <->
        is_Some (seg !! h) /\ top - 256 <= h) as Hdom.
      { intros h. split.
        - intros [d [Hd Hh]%map_lookup_filter_Some]. by split; [exists d|].
        - intros [[d Hd] Hh]. exists d. by apply map_lookup_filter_Some. }
      split; [split|].
      * intros h d [Hd _]%map_lookup_filter_Some. by apply (so_real _ Hs).
      * intros h d d' [Hd _]%map_lookup_filter_Some [Hd' _]%map_lookup_filter_Some. by apply (so_link _ Hs).
      * intros h1 h2 h3 [H1 ?]%Hdom [H3 ?]%Hdom ?. apply Hdom. split; [by apply (so_between _ Hs h1 h2 h3)|lia].
      * intros h1 h2 [H1 ?]%Hdom [H2%Htop ?]%Hdom. unfold CHAIN_SEGMENT_HEIGHTS. lia.
  - split; [done|]. intros h1 h2 H1 _. exfalso. apply elem_of_keys in H1. unfold seg_top in Ht.
    apply last_None in Ht. rewrite Ht in H1. by apply not_elem_of_nil in H1.
Qed.

Lemma merge_run_ok seg k d s : seg_ok seg -> climbs k d s -> real k d -> 0 <= k -> seg_ok (merge_run k d s seg).
Proof.
  intros [Hs _] Hc Hr Hk. apply prune_ok. cbv zeta. destruct (shared_height _ _ seg) as [t|] eqn:Hsh.
  - unfold shared_height in Hsh. destruct (seg_base seg) as [b|] eqn:Hb; [|done]. cbn in Hsh.
    destruct (seg_top seg) as [top|] eqn:Ht; [|done]. cbn in Hsh. destruct (Z.leb_spec (Z.max b k) (Z.min top (k + Z.of_nat (length s)))) as [Hle|];
      [|done]. injection Hsh as Hsh. destruct (seg_top_spec _ _ Ht) as [_ Htop].
    destruct (seg !! t) as [x|] eqn:Hx.
    + case_bool_decide as Hw.
      * rewrite walked_at_lookup in Hw by lia. apply insert_run_chain; try done.
        -- intros h y Hh Hy. apply (runs_agree_below seg k d s t x); try done; [lia|].
           pose proof (Htop h ltac:(by rewrite Hy)). lia.
        -- intros _ _ _. exists t. split; [lia|]. by rewrite Hx.
      * apply insert_run_chain; try done; apply seg_ok_empty.
    + apply insert_run_chain; try done; apply seg_ok_empty.
  - apply insert_run_chain; try done; apply seg_ok_empty.
Qed.
End chains.
