(* ===== verification/AvailRuns.v ===== *)
(** Runs of the availability resolver.

    Whatever peers claim, the resolver's indexes mirror each other, its memos are
    bounded and hold chains of valid blocks, and each reference it credits to a
    peer lies on the chain below a coordinate the peer claimed. *)

From S2P Require Import Prelude Committee Types Fixtures Blocks BlockChains Acks Avail AvailChains.

Section runs.
Context {Hash : Hashing} (cm : Committee) (sid : Digest) (mbp : Z).
Context (Hbind : header_binding cm sid mbp) (Hgen : genesis_apart cm sid mbp).
Abbreviation cache_ok := (cache_ok cm sid mbp) (only parsing).
Abbreviation genesis := (genesis_digest sid) (only parsing).
Abbreviation real := (real cm sid mbp) (only parsing).
Abbreviation below := (below cm sid mbp) (only parsing).
Abbreviation climbs := (climbs cm sid mbp) (only parsing).

(** [covers claim r]: [r] is the claimed coordinate itself, or lies on the chain
    of valid blocks below it, at the height of the block claimed. *)
Definition covers_exact (c r : BlockRef) : Prop :=
  ref_author r = ref_author c /\
  (r = c \/ exists h, real h (ref_digest c) /\ below h (ref_digest c) (ref_height r) (ref_digest r)).

Definition derived (anchor : BlockRef) (delta : Height) (t : BlockRef) : Prop :=
  ref_author t = ref_author anchor /\ ref_height t = ref_height anchor - delta /\
  real (ref_height t) (ref_digest t) /\
  below (ref_height anchor) (ref_digest anchor) (ref_height t) (ref_digest t).

Definition covers (claim : ClaimRef) (r : BlockRef) : Prop :=
  match claim with
  | Exact c => covers_exact c r
  | Ancestor anchor delta => exists t, derived anchor delta t /\ covers_exact t r
  end.

Lemma covers_exact_refl c : covers_exact c c.
Proof. split; [done|by left]. Qed.

(** The claims a sender made vouch for [c]: whatever [c] covers, they cover. *)
Definition vouched (H : PublicKey -> ClaimRef -> Prop) (s : PublicKey) (c : BlockRef) : Prop :=
  exists claim, H s claim /\ forall r, covers_exact c r -> covers claim r.

Definition entry_ref (e : AvailEntry) : BlockRef := (ae_author e, ae_height e, ae_head e).

Definition target_ok (lane : PublicKey) (key : Height * Digest * Height) (r : BlockRef) : Prop :=
  derived (lane, key.1.1, key.1.2) key.2 r.

Record avail_ok (H : PublicKey -> ClaimRef -> Prop) (a : AvailResolver) : Prop := {
  ao_genesis : av_genesis a = genesis;
  ao_floor s l h d : av_credited_floor a !! (s, l) = Some (h, d) -> 0 <= h /\ real h d;
  ao_pending s l : s ∈ default ∅ (av_pending_by_author a !! l) <-> is_Some (av_pending_avail a !! (s, l));
  ao_vouched s l e : av_pending_avail a !! (s, l) = Some e -> ae_author e = l /\ vouched H s (entry_ref e);
  ao_relative l p : p ∈ default ∅ (av_relative_by_author a !! l) <->
    p ∈ av_pending_relative a /\ ref_author (prc_anchor p) = l;
  ao_claimed p : p ∈ av_pending_relative a ->
    H (prc_sender p) (Ancestor (prc_anchor p) (prc_delta p)) /\ 0 <= prc_delta p;
  ao_segment l seg : av_chain_segments a !! l = Some seg -> seg_ok cm sid mbp seg;
  ao_targets l m : av_relative_targets a !! l = Some m ->
    (size m <= RELATIVE_TARGETS)%nat /\ forall key r, m !! key = Some r -> target_ok l key r;
}.

Lemma avail_ok_mono H H' a : avail_ok H a -> (forall s c, H s c -> H' s c) -> avail_ok H' a.
Proof.
  intros [A1 A2 A3 A4 A5 A6 A7 A8] HH. split; try done; [|intros p Hp; destruct (A6 p Hp); auto].
  intros s l e He. destruct (A4 s l e He) as [Ha (claim & Hc & Hcov)]. split; [done|]. exists claim. auto.
Qed.

Lemma avail_ok_new H c : avail_ok H (avail_new c genesis).
Proof.
  split; cbn; try done.
  - intros s l. rewrite !lookup_empty. cbn. split; [set_solver|by intros []].
  - intros l p. rewrite lookup_empty. cbn. set_solver.
Qed.

(** ** Segments *)

Lemma lane_segment_ok H a l : avail_ok H a -> seg_ok cm sid mbp (default ∅ (av_chain_segments a !! l)).
Proof.
  intros Ha. destruct (av_chain_segments a !! l) as [seg|] eqn:E; [by apply (ao_segment _ _ Ha l)|].
  apply seg_ok_empty.
Qed.

Lemma memoize_segment_ok H a l k d s :
  avail_ok H a -> climbs k d s -> real k d -> 0 <= k ->
  wp (memoize_segment l k d s) a (fun _ _ a' => avail_ok H a' /\ av_credited_floor a' = av_credited_floor a).
Proof.
  intros Ha Hc Hr Hk. unfold memoize_segment, when. case_match; [|by apply wp_skip]. split; [|done].
  pose proof (lane_segment_ok H a l Ha) as Hseg. destruct Ha as [A1 A2 A3 A4 A5 A6 A7 A8]. split; cbn; try done.
  intros l' seg [[<- <-]|[_ Hl]]%lookup_insert_Some; [|by apply (A7 l')].
  by apply merge_run_ok.
Qed.

(** A segment is served exactly when it should: the answer is the chain from the
    floor to the head, and it is the walk's answer whenever the walk has one. *)
Lemma verified_segment_ok H a blocks l e k d :
  avail_ok H a -> cache_ok blocks -> real k d -> 0 <= k < ae_height e ->
  wp (verified_segment blocks l e k d) a (fun res _ a' =>
    avail_ok H a' /\ av_credited_floor a' = av_credited_floor a /\
    match res with
    | Some s => climbs k d s /\ last (d :: s) = Some (ae_head e) /\
        (forall s', collect_verified_suffix k d (ae_head e) blocks = Some s' -> s' = s)
    | None => collect_verified_suffix k d (ae_head e) blocks = None
    end).
Proof.
  intros Ha Hc Hr Hk. unfold verified_segment. apply wp_bind, wp_get.
  destruct (seg_suffix _ _ _ _ _) as [s|] eqn:Hs.
  - apply wp_ret. split; [done|]. split; [done|].
    apply (seg_suffix_climbs cm sid mbp) in Hs as (Hcl & Hlast & Hlen); [|by eapply lane_segment_ok|lia].
    split_and!; [done|done|]. intros s' Hs'.
    apply (collect_climbs cm sid mbp) in Hs' as (Hcl' & Hlast' & eb & Heb & Hlen'); [|done|lia].
    pose proof (climbs_last_real _ _ _ _ _ _ _ Hcl Hr ltac:(lia) Hlast) as R1.
    pose proof (climbs_last_real _ _ _ _ _ _ _ Hcl' Hr ltac:(lia) Hlast') as R2.
    pose proof (real_unique cm sid mbp Hbind _ _ _ Hgen R1 R2) as Heq.
    destruct (climbs_unique cm sid mbp Hbind s' s k d d) as [_ ->]; [done|done|lia|congruence|done].
  - destruct (collect_verified_suffix k d (ae_head e) blocks) as [s|] eqn:Hw; [|by apply wp_ret].
    pose proof Hw as Hw'. apply (collect_climbs cm sid mbp) in Hw' as (Hcl & Hlast & _); [|done|lia].
    apply wp_bind. eapply wp_mono; [apply (memoize_segment_ok H); [done|done|done|lia]|].
    intros [] es a' [Ha' Hf]. apply wp_ret. split_and!; try done. by intros s' [= ->].
Qed.

(** ** Crediting one entry *)

Lemma suffix_refs_spec l author a s : forall h r, r ∈ suffix_refs l author a h s ->
  exists i d, s !! i = Some d /\ r = (author, h + Z.of_nat i, d).
Proof.
  induction s as [|d s IH]; intros h r; cbn [suffix_refs]; [by intros ?%not_elem_of_nil|].
  intros [Hr|Hr]%elem_of_app.
  - case_match; [by apply not_elem_of_nil in Hr|]. apply list_elem_of_singleton in Hr as ->. exists 0%nat, d.
    split; [done|]. do 2 f_equal. lia.
  - apply IH in Hr as (i & x & Hi & ->). exists (S i), x. split; [done|]. do 2 f_equal. lia.
Qed.

Lemma climbs_below k d s i x hd : climbs k d s -> s !! i = Some x -> last (d :: s) = Some hd ->
  below (k + Z.of_nat (length s)) hd (k + 1 + Z.of_nat i) x.
Proof.
  intros Hc Hi Hl. exists (drop (S i) s). rewrite <- (take_drop (S i) s) in Hc.
  pose proof (lookup_lt_Some _ _ _ Hi) as Hlt.
  assert (last (d :: take (S i) s) = Some x) as Hx.
  { rewrite (take_S_r s i x) by done. by rewrite app_comm_cons, last_snoc. }
  apply (climbs_app _ _ _ _ _ _ _ x) in Hc as [_ Hc]; [|done].
  rewrite length_take_le in Hc by lia. split_and!.
  - by replace (k + 1 + Z.of_nat i) with (k + Z.of_nat (S i)) by lia.
  - rewrite <- Hl. rewrite <- (take_drop_middle s i x Hi) at 2. rewrite app_comm_cons, last_app.
    destruct (last (x :: drop (S i) s)) eqn:E; [done|]. by apply last_None in E.
  - rewrite length_drop. lia.
Qed.

Lemma raise_floor_ok H a s l k d sfx :
  avail_ok H a -> climbs k d sfx -> real k d -> 0 <= k ->
  wp (raise_floor s l k sfx) a (fun _ _ a' => avail_ok H a').
Proof.
  intros Ha Hcl Hr Hk. unfold raise_floor. destruct (last sfx) as [x|] eqn:Hx; [|by apply wp_skip].
  apply wp_modify. destruct Ha as [A1 A2 A3 A4 A5 A6 A7 A8]. split; cbn; try done.
  intros s' l' h y [[[= <- <-] [= <- <-]]|[_ Hf]]%lookup_insert_Some; [|by apply (A2 s' l')]. split; [lia|].
  apply (climbs_last_real cm sid mbp k d); try done. destruct sfx; [done|]. by rewrite last_cons_cons.
Qed.

Lemma forget_pending_ok H a s l : avail_ok H a ->
  avail_ok H (a <| av_pending_avail ::= delete (s, l) |> <| av_pending_by_author ::= senders_remove l s |>).
Proof.
  intros [A1 A2 A3 A4 A5 A6 A7 A8]. split; cbn; try done.
  - intros s' l'. unfold senders_remove. destruct (decide (l' = l)) as [->|].
    + rewrite lookup_insert_eq. cbn. rewrite elem_of_difference, A3, elem_of_singleton.
      destruct (decide (s' = s)) as [->|]; [rewrite lookup_delete_eq; split; [naive_solver|by intros []]|].
      rewrite lookup_delete_ne by congruence. naive_solver.
    + rewrite lookup_insert_ne by done. rewrite lookup_delete_ne by congruence. apply A3.
  - intros s' l' e' [_ He']%lookup_delete_Some. by apply A4.
Qed.

Lemma remember_pending_ok H a s l e : avail_ok H a -> ae_author e = l -> vouched H s (entry_ref e) ->
  avail_ok H (a <| av_pending_by_author ::= senders_insert l s |> <| av_pending_avail ::= <[ (s, l) := e ]> |>).
Proof.
  intros [A1 A2 A3 A4 A5 A6 A7 A8] Hl Hv. split; cbn; try done.
  - intros s' l'. unfold senders_insert. destruct (decide (l' = l)) as [->|].
    + rewrite lookup_insert_eq. cbn. rewrite elem_of_union, A3, elem_of_singleton.
      destruct (decide (s' = s)) as [->|]; [rewrite lookup_insert_eq; naive_solver|].
      rewrite lookup_insert_ne by congruence. naive_solver.
    + rewrite lookup_insert_ne by done. rewrite lookup_insert_ne by congruence. apply A3.
  - intros s' l' e' [[[= <- <-] <-]|[_ He']]%lookup_insert_Some; [done|]. by apply A4.
Qed.

Lemma resolve_one_ok H a blocks s l e :
  avail_ok H a -> cache_ok blocks -> ae_author e = l -> vouched H s (entry_ref e) ->
  wp (resolve_one blocks s l e) a (fun refs _ a' =>
    avail_ok H a' /\ forall r, r ∈ refs -> covers_exact (entry_ref e) r).
Proof.
  intros Ha Hc Hl Hv. unfold resolve_one. apply wp_bind, wp_get.
  set (k := match _ with Some _ => _ | None => 0 end). set (d := match _ with Some _ => _ | None => av_genesis a end).
  assert (0 <= k /\ real k d) as [Hk Hr].
  { unfold k, d. destruct (av_credited_floor a !! (s, l)) as [[h x]|] eqn:E; [by apply (ao_floor _ _ Ha s l)|].
    rewrite (ao_genesis _ _ Ha). split; [done|by left]. }
  destruct (Z.leb_spec (ae_height e) k) as [|Hlt]; [apply wp_ret; split; [done|]; by intros r ?%not_elem_of_nil|].
  apply wp_bind. eapply wp_mono; [by apply (verified_segment_ok H)|]. intros [sfx|] es a' (Ha' & Hfl & Hres).
  - destruct Hres as (Hcl & Hlast & _). apply wp_bind, wp_get, wp_bind.
    eapply wp_mono; [by apply (raise_floor_ok H a' s l k d)|]. intros [] es' a2 Ha2.
    apply wp_bind, wp_modify, wp_ret. split; [by apply forget_pending_ok|].
    intros r (i & x & Hi & ->)%suffix_refs_spec. split; [done|]. right. exists (k + Z.of_nat (length sfx)).
    split; [by apply (climbs_last_real cm sid mbp k d)|]. by apply climbs_below with d.
  - apply wp_bind, wp_modify, wp_bind, wp_get. pose proof (remember_pending_ok H a' s l e Ha' Hl Hv) as Ha2.
    case_match; apply wp_ret; (split; [done|]); [by intros r ?%not_elem_of_nil|].
    intros r ->%list_elem_of_singleton. apply covers_exact_refl.
Qed.

(** ** Relative claims *)

Lemma prune_relative_ok m : (size (prune_relative m) <= RELATIVE_TARGETS)%nat /\
  forall key r, prune_relative m !! key = Some r -> m !! key = Some r.
Proof.
  unfold prune_relative. cbv zeta. set (m' := match last _ with Some _ => _ | None => m end).
  assert (forall key r, m' !! key = Some r -> m !! key = Some r) as Hsub.
  { intros key r. unfold m'. destruct (last _) as [[[top ?] ?]|]; [|done]. case_match; [done|].
    by intros [? _]%map_lookup_filter_Some. }
  destruct (Nat.ltb_spec RELATIVE_TARGETS (size m')); [|by split]. rewrite map_size_empty. split; [lia|].
  by intros key r ?%lookup_empty_Some.
Qed.

Lemma memoize_relative_ok H a anchor delta t : avail_ok H a -> derived anchor delta t ->
  wp (memoize_relative anchor delta t) a (fun _ _ a' => avail_ok H a').
Proof.
  intros [A1 A2 A3 A4 A5 A6 A7 A8] Hd. apply wp_modify. split; cbn; try done.
  intros l m [[<- <-]|[_ Hm]]%lookup_insert_Some; [|by apply A8].
  match goal with |- context [prune_relative ?m0] => destruct (prune_relative_ok m0) as [Hs Hin] end.
  split; [done|]. intros key r [[<- <-]|[_ Hr]]%Hin%lookup_insert_Some.
  - by destruct anchor as [[? ?] ?].
  - destruct (av_relative_targets a !! ref_author anchor) as [m0|] eqn:E; cbn in Hr; [|by rewrite lookup_empty in Hr].
    by apply (A8 _ m0).
Qed.

Lemma cached_relative_ok H a anchor delta t : avail_ok H a -> 0 < delta < ref_height anchor ->
  cached_relative anchor delta a = Some t -> derived anchor delta t.
Proof.
  intros Ha Hd. unfold cached_relative. destruct (seg_ancestor _ _ _ _) as [d|] eqn:Hs.
  - intros [= <-]. pose proof (lane_segment_ok H a (ref_author anchor) Ha) as Hok. split_and!; [done|done| |].
    + cbn. unfold seg_ancestor in Hs. case_match; [done|].
      destruct (default ∅ (av_chain_segments a !! ref_author anchor) !! (ref_height anchor - delta)) as [x|] eqn:E; [|done].
      cbn in Hs. case_match; [|done]. injection Hs as ->. by apply (so_real _ _ _ _ Hok).
    + by apply (seg_ancestor_below cm sid mbp _ _ _ _ _ Hok); [cbn; lia|].
  - destruct (av_relative_targets a !! ref_author anchor) as [m|] eqn:E; cbn; [|done].
    intros Hm. apply (ao_targets _ _ Ha) in E as [_ Hall]. apply Hall in Hm. unfold target_ok in Hm. cbn in Hm.
    by destruct anchor as [[? ?] ?].
Qed.

Lemma walked_relative_ok blocks anchor delta t : cache_ok blocks -> 0 <= delta ->
  resolve_verified_ancestor anchor delta blocks = AReady t -> derived anchor delta t.
Proof.
  intros Hc Hpos. unfold resolve_verified_ancestor.
  destruct (_ || _) eqn:E; [done|]. apply orb_false_iff in E as [E1%Z.eqb_neq E2%Z.leb_gt].
  intros (d & s & -> & Hcl & Hlast & Hlen & b & Hv & Hid & Hh)%(ancestor_walk_climbs cm sid mbp); [|done].
  split_and!; [done|done| |].
  - right. cbn. split; [lia|]. by exists b.
  - exists s. split_and!; [done|done|]. unfold ref_height in *. cbn. lia.
Qed.

Lemma resolve_relative_ok H a blocks anchor delta : avail_ok H a -> cache_ok blocks -> 0 <= delta ->
  wp (resolve_relative blocks anchor delta) a (fun walk _ a' => avail_ok H a' /\
    forall t, walk = AReady t -> derived anchor delta t).
Proof.
  intros Ha Hc Hd. unfold resolve_relative. apply wp_bind, wp_get.
  destruct (if (0 <? delta) && (delta <? ref_height anchor) then cached_relative anchor delta a else None) as [r|] eqn:E.
  - apply wp_ret. split; [done|]. intros t [= <-]. destruct (_ && _) eqn:Hg; [|done].
    apply andb_true_iff in Hg as [?%Z.ltb_lt ?%Z.ltb_lt]. by eapply cached_relative_ok.
  - apply wp_bind. destruct (resolve_verified_ancestor anchor delta blocks) as [r| |] eqn:Hw.
    + apply walked_relative_ok in Hw; [|done|done]. eapply wp_mono; [by apply (memoize_relative_ok H)|].
      intros [] es a' Ha'. apply wp_ret. split; [done|]. by intros t [= <-].
    + apply wp_skip, wp_ret. by split.
    + apply wp_skip, wp_ret. by split.
Qed.

Lemma credit_claim_prefix_ok H a blocks s r : avail_ok H a -> cache_ok blocks -> vouched H s r ->
  wp (credit_claim_prefix blocks s r) a (fun refs _ a' => avail_ok H a' /\ forall x, x ∈ refs -> covers_exact r x).
Proof.
  intros Ha Hc Hv. unfold credit_claim_prefix. apply wp_bind, wp_get, wp_bind.
  assert (entry_ref (mkAvailEntry (ref_author r) (ref_height r) (ref_digest r)) = r) as He by (by destruct r as [[? ?] ?]).
  unfold when. match goal with |- wp (if ?b then _ else _) _ _ => destruct b end; [apply wp_modify|apply wp_skip];
    (eapply wp_mono; [apply (resolve_one_ok H)|]); try done; try (by rewrite He); rewrite ?He; try done.
  destruct Ha as [A1 A2 A3 A4 A5 A6 A7 A8]. by split.
Qed.

Lemma credit_relative_target_ok H a blocks s r : avail_ok H a -> cache_ok blocks -> vouched H s r ->
  wp (credit_relative_target blocks s r) a (fun refs _ a' => avail_ok H a' /\ forall x, x ∈ refs -> covers_exact r x).
Proof.
  intros Ha Hc Hv. unfold credit_relative_target. apply wp_bind. eapply wp_mono; [by apply (credit_claim_prefix_ok H)|].
  intros refs es a' [Ha' Hcov]. apply wp_bind, wp_get. case_match; apply wp_ret; (split; [done|]); [|done].
  intros x [?| ->%list_elem_of_singleton]%elem_of_app; [by apply Hcov|apply covers_exact_refl].
Qed.

Lemma remember_relative_ok H a s anchor delta : avail_ok H a -> H s (Ancestor anchor delta) -> 0 <= delta ->
  wp (remember_relative s anchor delta) a (fun _ _ a' => avail_ok H a').
Proof.
  intros Ha Hs Hd. unfold remember_relative. apply wp_bind, wp_get. case_bool_decide; [by apply wp_skip|].
  apply wp_modify. destruct Ha as [A1 A2 A3 A4 A5 A6 A7 A8]. split; cbn; try done.
  - intros l p. rewrite elem_of_union, elem_of_singleton. destruct (decide (l = ref_author anchor)) as [->|].
    + rewrite lookup_insert_eq. cbn. rewrite elem_of_union, elem_of_singleton, A5. unfold prc_anchor. naive_solver.
    + rewrite lookup_insert_ne by done. rewrite A5. unfold prc_anchor. naive_solver.
  - intros p [->%elem_of_singleton|Hp]%elem_of_union; [done|by apply A6].
Qed.

Lemma remove_relative_ok H a p : avail_ok H a -> wp (remove_relative p) a (fun _ _ a' => avail_ok H a').
Proof.
  intros [A1 A2 A3 A4 A5 A6 A7 A8]. apply wp_modify. split; cbn; try done.
  - intros l q. rewrite elem_of_difference, elem_of_singleton. specialize (A5 l q).
    destruct (av_relative_by_author a !! ref_author (prc_anchor p)) as [claims|] eqn:E.
    + destruct (decide (l = ref_author (prc_anchor p))) as [->|].
      * rewrite E in A5. cbn in A5. case_decide as Hem; [rewrite lookup_delete_eq|rewrite lookup_insert_eq]; cbn; set_solver.
      * case_decide; [rewrite lookup_delete_ne by done|rewrite lookup_insert_ne by done]; rewrite A5; naive_solver.
    + rewrite A5. split; [|naive_solver]. intros [Hq <-]. split_and!; [done| |done]. intros ->.
      rewrite E in A5. cbn in A5. set_solver.
  - intros q [Hq _]%elem_of_difference. by apply A6.
Qed.

Lemma note_exact_claim_ok H a s r : avail_ok H a -> wp (note_exact_claim s r) a (fun _ _ a' => avail_ok H a').
Proof.
  intros [A1 A2 A3 A4 A5 A6 A7 A8]. unfold note_exact_claim. apply wp_bind, wp_get, wp_bind, wp_modify, wp_ret. by split.
Qed.

Definition typed_claim (c : ClaimRef) : Prop := match c with Exact _ => True | Ancestor _ delta => 0 <= delta end.

Lemma note_one_ok H a blocks s claim : avail_ok H a -> cache_ok blocks -> H s claim -> typed_claim claim ->
  wp (note_one blocks s claim) a (fun out _ a' => avail_ok H a' /\ forall r, r ∈ cc_references out -> covers claim r).
Proof.
  intros Ha Hc Hs Ht. destruct claim as [r|anchor delta]; cbn [note_one].
  - assert (vouched H s r) as Hv by (by exists (Exact r)).
    apply wp_bind, wp_get, wp_bind. eapply wp_mono; [by apply (note_exact_claim_ok H)|]. intros b es a1 Ha1.
    apply wp_bind. eapply wp_mono; [by apply (credit_claim_prefix_ok H)|]. intros refs es' a2 [Ha2 Hcov].
    apply wp_bind, wp_get, wp_ret. split; [done|]. cbn. intros x Hx. case_match; [|by apply Hcov].
    apply elem_of_app in Hx as [?| ->%list_elem_of_singleton]; [by apply Hcov|apply covers_exact_refl].
  - destruct (_ || _); [apply wp_ret; split; [done|]; by intros r ?%not_elem_of_nil|].
    apply wp_bind. eapply wp_mono; [by apply (resolve_relative_ok H)|]. intros [t| |] es a1 [Ha1 Hd].
    + apply wp_bind. eapply wp_mono; [apply (credit_relative_target_ok H _ _ s t); [done|done|]|].
      * exists (Ancestor anchor delta). split; [done|]. intros r Hr. exists t. split; [by apply Hd|done].
      * intros refs es' a2 [Ha2 Hcov]. apply wp_ret. split; [done|]. intros r Hr. exists t.
        split; [by apply Hd|by apply Hcov].
    + apply wp_bind. eapply wp_mono; [by apply (remember_relative_ok H)|]. intros [] es' a2 Ha2.
      apply wp_ret. split; [done|]. by intros r ?%not_elem_of_nil.
    + apply wp_ret. split; [done|]. by intros r ?%not_elem_of_nil.
Qed.

(** ** Whole calls *)

Lemma note_claims_ok H blocks s claims : cache_ok blocks -> forall a, avail_ok H a ->
  (forall c, c ∈ claims -> H s c /\ typed_claim c) ->
  wp (note_claims blocks s claims) a (fun out _ a' => avail_ok H a' /\
    forall r, r ∈ cc_references out -> exists c, H s c /\ covers c r).
Proof.
  intros Hc. induction claims as [|c claims IH]; intros a Ha Hs; cbn [note_claims].
  { apply wp_ret. split; [done|]. by intros r ?%not_elem_of_nil. }
  destruct (Hs c) as [H1 H2]; [by left|]. apply wp_bind. eapply wp_mono; [by apply (note_one_ok H)|].
  intros out es a1 [Ha1 Hcov]. apply wp_bind. eapply wp_mono; [apply IH; [done|]|].
  - intros c' Hc'. apply Hs. by right.
  - intros rest es' a2 [Ha2 Hrest]. apply wp_ret. split; [done|]. cbn. intros r [Hr|Hr]%elem_of_app; [|by apply Hrest].
    exists c. split; [done|by apply Hcov].
Qed.

Lemma note_claim_ok H a blocks s claims : avail_ok H a -> cache_ok blocks ->
  (forall c, c ∈ claims -> H s c /\ typed_claim c) ->
  wp (note_claim blocks s claims) a (fun out _ a' => avail_ok H a' /\
    forall r, r ∈ cc_references out -> exists c, H s c /\ covers c r).
Proof.
  intros Ha Hc Hs. unfold note_claim. apply wp_bind, wp_get.
  case_match; [apply wp_ret; split; [done|]; by intros r ?%not_elem_of_nil|]. by apply note_claims_ok.
Qed.

Lemma resolve_watermark_ok H blocks s entries : cache_ok blocks -> forall a, avail_ok H a ->
  (forall e, e ∈ entries -> H s (Exact (entry_ref e))) ->
  wp (resolve_watermark blocks s entries) a (fun refs _ a' => avail_ok H a' /\
    forall r, r ∈ refs -> exists c, H s c /\ covers c r).
Proof.
  intros Hc. induction entries as [|e entries IH]; intros a Ha Hs; cbn [resolve_watermark].
  { apply wp_ret. split; [done|]. by intros r ?%not_elem_of_nil. }
  assert (H s (Exact (entry_ref e))) as He by (apply Hs; by left).
  apply wp_bind. eapply wp_mono; [apply (resolve_one_ok H); [done|done|done|by exists (Exact (entry_ref e))]|].
  intros refs es a1 [Ha1 Hcov]. apply wp_bind. eapply wp_mono; [apply IH; [done|]|].
  - intros e' He'. apply Hs. by right.
  - intros rest es' a2 [Ha2 Hrest]. apply wp_ret. split; [done|]. intros r [Hr|Hr]%elem_of_app; [|by apply Hrest].
    exists (Exact (entry_ref e)). split; [done|by apply Hcov].
Qed.

(** Credits of retries go to the sender that made the claim. *)
Definition credits_ok (H : PublicKey -> ClaimRef -> Prop) (out : list (PublicKey * BlockRef)) : Prop :=
  forall s r, (s, r) ∈ out -> exists c, H s c /\ covers c r.

Lemma credits_ok_app H out out' : credits_ok H out -> credits_ok H out' -> credits_ok H (out ++ out').
Proof. intros H1 H2 s r [?|?]%elem_of_app; eauto. Qed.

Lemma credits_ok_pair H s refs : (forall r, r ∈ refs -> exists c, H s c /\ covers c r) -> credits_ok H (pair s <$> refs).
Proof. intros Hr s' r (x & [= -> ->] & Hx)%list_elem_of_fmap. by apply Hr. Qed.

Lemma collect_ok {A} H (f : A -> VM (list (PublicKey * BlockRef))) l :
  (forall x a, avail_ok H a -> wp (f x) a (fun out _ a' => avail_ok H a' /\ credits_ok H out)) ->
  forall a, avail_ok H a -> wp (collect f l) a (fun out _ a' => avail_ok H a' /\ credits_ok H out).
Proof.
  intros Hf. induction l as [|x l IH]; intros a Ha; cbn [collect].
  { apply wp_ret. split; [done|]. by intros s r ?%not_elem_of_nil. }
  apply wp_bind. eapply wp_mono; [by apply Hf|]. intros out es a1 [Ha1 H1].
  apply wp_bind. eapply wp_mono; [by apply IH|]. intros rest es' a2 [Ha2 H2].
  apply wp_ret. split; [done|by apply credits_ok_app].
Qed.

Lemma retry_avail_ok H blocks l s a : cache_ok blocks -> avail_ok H a ->
  wp (retry_avail blocks l s) a (fun out _ a' => avail_ok H a' /\ credits_ok H out).
Proof.
  intros Hc Ha. unfold retry_avail. apply wp_bind, wp_get. destruct (av_pending_avail a !! (s, l)) as [e|] eqn:E.
  - destruct (ao_vouched _ _ Ha _ _ _ E) as [He Hv]. apply wp_bind. eapply wp_mono; [by apply (resolve_one_ok H)|].
    intros refs es a' [Ha' Hcov]. apply wp_ret. split; [done|]. apply credits_ok_pair. intros r Hr.
    destruct Hv as (c & Hs & Hall). exists c. split; [done|by apply Hall, Hcov].
  - apply wp_ret. split; [done|]. by intros s' r ?%not_elem_of_nil.
Qed.

Lemma retry_relative_ok H blocks p a : cache_ok blocks -> avail_ok H a ->
  wp (retry_relative blocks p) a (fun out _ a' => avail_ok H a' /\ credits_ok H out).
Proof.
  intros Hc Ha. assert (credits_ok H []) as Hnil by (by intros s' r ?%not_elem_of_nil).
  unfold retry_relative. apply wp_bind, wp_get. case_bool_decide as Hp; cbn [negb]; [|by apply wp_ret].
  destruct (ao_claimed _ _ Ha p Hp) as [Hs Hd]. apply wp_bind. eapply wp_mono; [by apply (resolve_relative_ok H)|].
  intros [t| |] es a1 [Ha1 Ht]; [|by apply wp_ret|].
  - apply wp_bind. eapply wp_mono; [by apply (remove_relative_ok H)|]. intros [] es' a2 Ha2.
    assert (forall r, covers_exact t r -> covers (Ancestor (prc_anchor p) (prc_delta p)) r) as Hcov.
    { intros r Hr. exists t. split; [by apply Ht|done]. }
    apply wp_bind. eapply wp_mono; [apply (credit_relative_target_ok H); [done|done|by eexists]|].
    intros refs es'' a3 [Ha3 Hr]. apply wp_ret. split; [done|]. apply credits_ok_pair. intros r Hin.
    eexists. split; [exact Hs|]. by apply Hcov, Hr.
  - apply wp_bind. eapply wp_mono; [by apply (remove_relative_ok H)|]. intros [] es' a2 Ha2. by apply wp_ret.
Qed.

Lemma retry_pending_avail_ok H blocks d a : cache_ok blocks -> avail_ok H a ->
  wp (retry_pending_avail blocks d) a (fun out _ a' => avail_ok H a' /\ credits_ok H out).
Proof.
  intros Hc Ha. unfold retry_pending_avail. case_match; [|apply wp_ret; split; [done|]; by intros s' r ?%not_elem_of_nil].
  apply wp_bind, wp_get, wp_bind. eapply wp_mono; [apply (collect_ok H); [|done]|].
  - intros x a0 Ha0. by apply retry_avail_ok.
  - intros one es a1 [Ha1 H1]. apply wp_bind, wp_get, wp_bind. eapply wp_mono; [apply (collect_ok H); [|done]|].
    + intros x a0 Ha0. by apply retry_relative_ok.
    + intros two es' a2 [Ha2 H2]. apply wp_ret. split; [done|by apply credits_ok_app].
Qed.

Lemma note_threshold_ok H a r t : avail_ok H a -> wp (note_threshold r t) a (fun _ _ a' => avail_ok H a').
Proof.
  intros Ha. unfold note_threshold, when. case_match; [|by apply wp_skip]. apply wp_modify.
  destruct Ha as [A1 A2 A3 A4 A5 A6 A7 A8]. by split.
Qed.

Lemma floors_lookup {V} (author : PublicKey) (v : V) (keys : list PublicKey) :
  forall (m : gmap (PublicKey * PublicKey) V) s l x,
  foldl (fun m sender => <[ (sender, author) := v ]> m) m keys !! (s, l) = Some x -> x = v \/ m !! (s, l) = Some x.
Proof.
  induction keys as [|k keys IH]; intros m s l x; cbn [foldl]; [by right|].
  intros [->|Hx]%IH; [by left|]. apply lookup_insert_Some in Hx as [[_ <-]|[_ ?]]; auto.
Qed.

Lemma reset_author_ok H a author anchor : avail_ok H a -> 0 <= ref_height anchor ->
  real (ref_height anchor) (ref_digest anchor) ->
  wp (avail_reset_author author anchor) a (fun _ _ a' => avail_ok H a').
Proof.
  intros [A1 A2 A3 A4 A5 A6 A7 A8] Hh Hr. apply wp_modify.
  assert (forall (m : gmap (PublicKey * PublicKey) (Height * Digest)) s l x, pairs_clear author m !! (s, l) = Some x -> m !! (s, l) = Some x) as Hpc.
  { by intros m s l x [? _]%map_lookup_filter_Some. }
  split; cbn; try done.
  - intros s l h d [[= -> ->]|Hm]%floors_lookup; [done|]. apply Hpc in Hm. by apply (A2 s l).
  - intros s l. unfold pairs_clear. destruct (decide (l = author)) as [->|].
    + rewrite lookup_delete_eq. cbn. split; [set_solver|]. by intros [e [_ ?]%map_lookup_filter_Some].
    + rewrite lookup_delete_ne by done. rewrite A3. split.
      * intros [e He]. exists e. by apply map_lookup_filter_Some.
      * intros [e [He _]%map_lookup_filter_Some]. by exists e.
  - intros s l e [He _]%map_lookup_filter_Some. by apply A4.
  - intros l p. rewrite elem_of_filter. destruct (decide (l = author)) as [->|].
    + rewrite lookup_delete_eq. cbn. set_solver.
    + rewrite lookup_delete_ne by done. rewrite A5. naive_solver.
  - intros p [_ Hp]%elem_of_filter. by apply A6.
  - intros l seg [_ Hl]%lookup_delete_Some. by apply (A7 l).
  - intros l m [_ Hl]%lookup_delete_Some. by apply (A8 l).
Qed.
End runs.

(** ** Runs *)

Inductive AvailEvent :=
| VWatermark (sender : PublicKey) (entries : list AvailEntry)
| VClaim (sender : PublicKey) (claims : list ClaimRef)
| VRetry (digest : Digest)
| VThreshold (r : BlockRef) (t : AckThreshold)
| VReset (author : PublicKey) (anchor : BlockRef).

(** The references credited, each with the sender it is credited to. *)
Definition avail_exec (blocks : BlockCache) (ev : AvailEvent) : M Effect AvailResolver (list (PublicKey * BlockRef)) :=
  match ev with
  | VWatermark s entries => refs ← resolve_watermark blocks s entries; mret (pair s <$> refs)
  | VClaim s claims => out ← note_claim blocks s claims; mret (pair s <$> cc_references out)
  | VRetry d => retry_pending_avail blocks d
  | VThreshold r t => note_threshold r t;; mret []
  | VReset author anchor => avail_reset_author author anchor;; mret []
  end.

Definition claims_of (ev : AvailEvent) : list (PublicKey * ClaimRef) :=
  match ev with
  | VWatermark s entries => (fun e => (s, Exact (entry_ref e))) <$> entries
  | VClaim s claims => pair s <$> claims
  | _ => []
  end.

(** Each event runs on the block cache of its moment. *)
Definition AvailTrace : Type := list (BlockCache * AvailEvent).

Definition avail_run (tr : AvailTrace) (a : AvailResolver) : AvailResolver :=
  foldl (fun a p => st (avail_exec p.1 p.2 a)) a tr.

Definition said (tr : AvailTrace) (s : PublicKey) (c : ClaimRef) : Prop := exists p, p ∈ tr /\ (s, c) ∈ claims_of p.2.

Section trace.
Context {Hash : Hashing} (cm : Committee) (sid : Digest) (mbp : Z).

(** Distances are unsigned, and an author is reset to a block the caller validated. *)
Definition avail_event_ok (p : BlockCache * AvailEvent) : Prop :=
  cache_ok cm sid mbp p.1 /\
  match p.2 with
  | VClaim _ claims => Forall typed_claim claims
  | VReset _ anchor => 0 <= ref_height anchor /\ real cm sid mbp (ref_height anchor) (ref_digest anchor)
  | _ => True
  end.

Context (Hbind : header_binding cm sid mbp) (Hgen : genesis_apart cm sid mbp).

Lemma avail_exec_ok H a blocks ev :
  avail_ok cm sid mbp H a -> avail_event_ok (blocks, ev) -> (forall s c, (s, c) ∈ claims_of ev -> H s c) ->
  wp (avail_exec blocks ev) a (fun out _ a' => avail_ok cm sid mbp H a' /\ credits_ok cm sid mbp H out).
Proof.
  intros Ha [Hc Hev] Hs. cbn [fst snd] in *. assert (credits_ok cm sid mbp H []) as Hnil by (by intros s r ?%not_elem_of_nil).
  destruct ev as [s entries|s claims|d|r t|author anchor]; cbn [avail_exec claims_of] in *.
  - apply wp_bind. eapply wp_mono; [apply (resolve_watermark_ok cm sid mbp Hbind Hgen H); [done|done|]|].
    + intros e He. apply Hs, list_elem_of_fmap. by exists e.
    + intros refs es a' [Ha' Hr]. apply wp_ret. split; [done|by apply credits_ok_pair].
  - apply wp_bind. eapply wp_mono; [apply (note_claim_ok cm sid mbp Hbind Hgen H); [done|done|]|].
    + intros c Hin. split; [|by eapply Forall_forall in Hev]. apply Hs, list_elem_of_fmap. by exists c.
    + intros out es a' [Ha' Hr]. apply wp_ret. split; [done|by apply credits_ok_pair].
  - by apply retry_pending_avail_ok.
  - apply wp_bind. eapply wp_mono; [by apply note_threshold_ok|]. intros [] es a' Ha'. by apply wp_ret.
  - destruct Hev. apply wp_bind. eapply wp_mono; [by apply reset_author_ok|]. intros [] es a' Ha'. by apply wp_ret.
Qed.

Lemma avail_run_ok H tr a :
  avail_ok cm sid mbp H a -> Forall avail_event_ok tr -> (forall s c, said tr s c -> H s c) ->
  avail_ok cm sid mbp H (avail_run tr a).
Proof.
  intros Ha Htr. revert a Ha. induction Htr as [|[blocks ev] tr Hev _ IH]; intros a Ha Hs; [done|].
  cbn [avail_run foldl]. apply IH.
  - apply (avail_exec_ok H a blocks ev Ha Hev). intros s c Hc. apply Hs. exists (blocks, ev). split; [by left|done].
  - intros s c (p & Hp & Hc). apply Hs. exists p. split; [by right|done].
Qed.

Lemma avail_reach_ok tr c : Forall avail_event_ok tr ->
  avail_ok cm sid mbp (said tr) (avail_run tr (avail_new c (genesis_digest sid))).
Proof. intros Htr. refine (avail_run_ok _ _ _ _ Htr _); [by apply avail_ok_new|done]. Qed.
End trace.

(** C21: every reference the availability resolver credits to a peer is covered by
    a claim that peer made: it is the claimed coordinate itself, or lies on the chain of
    valid blocks below it, where a digest-free claim first has to resolve to a
    valid ancestor of its anchor.  This holds in every run, for dishonest senders too,
    whether the answer came from a walk of the cache, from the run remembered
    for the author or from the memo of relative targets, and at the retry of a
    claim as at its arrival. *)
Theorem avail_credits_sound {Hash : Hashing} cm sid mbp c tr blocks ev s r :
  header_binding cm sid mbp -> genesis_apart cm sid mbp -> Forall (avail_event_ok cm sid mbp) (tr ++ [(blocks, ev)]) ->
  (s, r) ∈ val (avail_exec blocks ev (avail_run tr (avail_new c (genesis_digest sid)))) ->
  exists claim, said (tr ++ [(blocks, ev)]) s claim /\ covers cm sid mbp claim r.
Proof.
  intros Hb Hg [Htr [Hev _]%Forall_cons]%Forall_app Hr.
  assert (avail_ok cm sid mbp (said (tr ++ [(blocks, ev)])) (avail_run tr (avail_new c (genesis_digest sid)))) as Ha.
  { eapply avail_ok_mono; [by apply (avail_reach_ok cm sid mbp Hb Hg)|]. intros s' c' (p & Hp & Hc).
    exists p. split; [apply elem_of_app; by left|done]. }
  destruct (avail_exec_ok cm sid mbp Hb Hg _ _ blocks ev Ha Hev) as [_ Hcr]; [|by apply Hcr].
  intros s' c' Hc. exists (blocks, ev). split; [apply elem_of_app; right; by left|done].
Qed.

(** C22: serving a claim from the remembered run is transparent.  In every reachable
    state, for the floor credited to a sender, the answer of [verified_segment] is
    the walk's answer whenever the cache can still be walked, and in any case it is the
    chain of valid blocks from the floor up to the claimed head. *)
Theorem avail_segment_exact {Hash : Hashing} cm sid mbp c tr blocks s l e k d :
  header_binding cm sid mbp -> genesis_apart cm sid mbp -> Forall (avail_event_ok cm sid mbp) tr ->
  cache_ok cm sid mbp blocks ->
  let a := avail_run tr (avail_new c (genesis_digest sid)) in
  default (0, genesis_digest sid) (av_credited_floor a !! (s, l)) = (k, d) -> k < ae_height e ->
  let answer := val (verified_segment blocks l e k d a) in
  (forall sfx, collect_verified_suffix k d (ae_head e) blocks = Some sfx -> answer = Some sfx) /\
  (forall sfx, answer = Some sfx -> climbs cm sid mbp k d sfx /\ last (d :: sfx) = Some (ae_head e)).
Proof.
  intros Hb Hg Htr Hc a Hfl Hlt answer. pose proof (avail_reach_ok cm sid mbp Hb Hg tr c Htr) as Ha. fold a in Ha.
  assert (0 <= k /\ real cm sid mbp k d) as [Hk Hr].
  { destruct (av_credited_floor a !! (s, l)) as [[h x]|] eqn:E; cbn in Hfl; injection Hfl as <- <-.
    - by apply (ao_floor _ _ _ _ _ Ha s l).
    - split; [done|by left]. }
  pose proof (verified_segment_ok cm sid mbp Hb Hg _ a blocks l e k d Ha Hc Hr ltac:(lia)) as (_ & _ & Hres).
  fold answer in Hres. destruct answer as [sfx|]; split.
  - intros sfx' Hw. destruct Hres as (_ & _ & Hu). by rewrite (Hu _ Hw).
  - intros sfx' [= <-]. by destruct Hres as (? & ? & _).
  - intros sfx' Hw. congruence.
  - done.
Qed.

(** The resolver's redundant state stays exact and bounded.  In every run the
    per-author index of unresolved watermarks lists exactly the senders that have
    one, the per-author index of digest-free claims is the set of those claims by
    anchor author, the run remembered for an author has no gap, spans at most
    [CHAIN_SEGMENT_HEIGHTS] above its base and is a chain of valid blocks each the parent of the next, and at most
    [RELATIVE_TARGETS] derived targets are kept per author. *)
Theorem avail_state_exact {Hash : Hashing} cm sid mbp c tr :
  header_binding cm sid mbp -> genesis_apart cm sid mbp -> Forall (avail_event_ok cm sid mbp) tr ->
  let a := avail_run tr (avail_new c (genesis_digest sid)) in
  (forall s l, s ∈ default ∅ (av_pending_by_author a !! l) <-> is_Some (av_pending_avail a !! (s, l))) /\
  (forall l p, p ∈ default ∅ (av_relative_by_author a !! l) <->
     p ∈ av_pending_relative a /\ ref_author (prc_anchor p) = l) /\
  (forall l seg, av_chain_segments a !! l = Some seg ->
     (forall h d d', seg !! h = Some d -> seg !! (h + 1) = Some d' -> link cm sid mbp h d d') /\
     (forall h1 h2 h3, is_Some (seg !! h1) -> is_Some (seg !! h3) -> h1 <= h2 <= h3 -> is_Some (seg !! h2)) /\
     (forall h1 h2, is_Some (seg !! h1) -> is_Some (seg !! h2) -> h2 - h1 <= CHAIN_SEGMENT_HEIGHTS)) /\
  (forall l m, av_relative_targets a !! l = Some m -> (size m <= RELATIVE_TARGETS)%nat).
Proof.
  intros Hb Hg Htr a. destruct (avail_reach_ok cm sid mbp Hb Hg tr c Htr) as [A1 A2 A3 A4 A5 A6 A7 A8]. fold a in A1, A2, A3, A4, A5, A6, A7, A8.
  split; [done|]. split; [done|]. split; [|intros l m Hm; by apply (A8 l m)].
  intros l seg Hl. destruct (A7 l seg Hl) as [[S1 S2 S3] S4]. done.
Qed.

(** ** Witnesses

    Party 10 claims the first two blocks of lane 20 while they are cached, party 40
    claims a lane that is not; party 30 repeats the first claim after the lowest block
    was evicted, and is served from the remembered run. *)
Definition avail_trace : AvailTrace :=
  [(lanes_cache 2, VWatermark 10 [mkAvailEntry 20 2 3]); (lanes_cache 2, VWatermark 40 [mkAvailEntry 30 2 6])].

Lemma avail_trace_ok : Forall (@avail_event_ok table_hashing committee4 7 100) avail_trace.
Proof. do 2 (constructor; [split; [apply lanes_cache_ok|done]|]). constructor. Qed.

Lemma table_apart : @genesis_apart table_hashing committee4 7 100.
Proof. apply genesis_apart_of_injective, table_injective. Qed.

Definition avail_at : AvailResolver := avail_run avail_trace (avail_new committee4 1).

Lemma avail_credits_sound_witness :
  @collect_verified_suffix 0 1 3 (lanes_cache 7) = None /\
  exists claim, said (avail_trace ++ [(lanes_cache 7, VWatermark 30 [mkAvailEntry 20 2 3])]) 30 claim /\
    @covers table_hashing committee4 7 100 claim (20, 1, 2).
Proof.
  split; [vm_compute; reflexivity|].
  apply (@avail_credits_sound table_hashing committee4 7 100 committee4 avail_trace (lanes_cache 7)
    (VWatermark 30 [mkAvailEntry 20 2 3]) 30 (20, 1, 2) table_binding table_apart).
  - apply Forall_app. split; [apply avail_trace_ok|]. constructor; [split; [apply lanes_cache_ok|done]|constructor].
  - apply (bool_decide_unpack _). vm_compute. exact I.
Defined.

Lemma avail_segment_exact_witness :
  collect_verified_suffix 0 1 3 (lanes_cache 5) = Some [2; 3] /\
  val (verified_segment (lanes_cache 5) 20 (mkAvailEntry 20 2 3) 0 1 avail_at) = Some [2; 3].
Proof.
  split; [vm_compute; reflexivity|].
  apply (@avail_segment_exact table_hashing committee4 7 100 committee4 avail_trace (lanes_cache 5) 30 20
    (mkAvailEntry 20 2 3) 0 1 table_binding table_apart avail_trace_ok (lanes_cache_ok 5)); vm_compute; reflexivity.
Defined.

Lemma avail_state_exact_witness :
  40 ∈ default ∅ (av_pending_by_author avail_at !! 30) /\
  forall l m, av_relative_targets avail_at !! l = Some m -> (size m <= RELATIVE_TARGETS)%nat.
Proof.
  destruct (@avail_state_exact table_hashing committee4 7 100 committee4 avail_trace
    table_binding table_apart avail_trace_ok) as (Hm & _ & _ & Hs). split; [|exact Hs].
  apply Hm. apply (bool_decide_unpack _). vm_compute. exact I.
Defined.

(** ** Two limits of the remembered run

    A watermark entry is not checked against the block it names: a head of
    another author enters the run of the named lane, and a digest-free claim that the
    walk would reject as forked is then answered from it. *)
Theorem foreign_head_joins_run :
  let a := avail_run [(lanes_cache 5, VWatermark 40 [mkAvailEntry 20 2 6])] (avail_new committee4 1) in
  (hd_author ∘ ent_block <$> by_digest (lanes_cache 5) !! 6 = Some 30) /\
  av_chain_segments a !! 20 ≫= lookup 2 = Some 6 /\
  resolve_verified_ancestor (20, 2, 6) 1 (lanes_cache 5) = AForked /\
  val (resolve_relative (lanes_cache 5) (20, 2, 6) 1 a) = AReady (20, 1, 5).
Proof. vm_compute. done. Qed.

(** The window keeps one height more than [CHAIN_SEGMENT_HEIGHTS]. *)
Theorem segment_window_tight :
  CHAIN_SEGMENT_HEIGHTS = 256 /\ size (merge_run 0 1000 (seqZ 1001 257) ∅) = 257%nat.
Proof. vm_compute. done. Qed.
