(* ===== verification/Lanes.v ===== *)
(** The lane manager.

    Models [LaneManager] of [src/primary/src/vantage/lanes.rs]: blocks of all lanes
    enter the shared cache; a block received from its own author is pending until
    its whole prefix is direct and has its payload, then it is acknowledged;
    acknowledgements and positional claims raise availability thresholds, from which
    the candidates for the next proposal are kept per author; and the own lane is
    extended, persisted, restored and recovered.

    A method acts on the pair of the manager and the shared block cache.  The
    committee-indexed containers are the maps [IndexRefine] shows them to be.  The
    key-value store appears as the two records the manager keeps in it and as the predicate
    [stored] that tells which batches it holds.  As in [src/store/src/lib.rs], a write is pending
    inside the process, where reads see it, until a flush hands it to the database; a process that
    dies leaves what was flushed.
    Left out: metrics, logging and test accessors. *)

From S2P Require Import Prelude Committee Types Claim Blocks Acks Avail.

Definition REFRESH_WALK_BUDGET : nat := 8.

Inductive DirectPubCheck := Confirmed | BlockedOnGate (d : Digest) | CheckFailed.

Record PersistedFrontier := mkPersistedFrontier { pf_sid : Digest; pf_height : Height; pf_digest : Digest }.
Record PersistedFrontierHeader := mkPersistedFrontierHeader { pfh_sid : Digest; pfh_header : Header }.

Record LaneManager := mkLaneManager {
  lm_name : PublicKey;
  lm_committee : Committee;
  lm_sid : Digest;
  lm_genesis : Digest;
  lm_max_block_payload : Z;
  lm_store_frontier : option PersistedFrontier;
  lm_store_header : option PersistedFrontierHeader;
  (** The database: what the two reads return without the pending writes. *)
  lm_disk : option PersistedFrontier * option PersistedFrontierHeader;
  lm_ack_availability : gmap BlockRef AckThreshold;
  lm_acked : gset BlockRef;
  lm_pending_direct : gset BlockRef;
  lm_blocked_by : gmap BlockRef Digest;
  lm_waiters : gmap Digest (gset BlockRef);
  lm_prefix_blocker : gmap Digest Digest;
  lm_scan_after : gmap PublicKey BlockRef;
  lm_direct_pub : gset BlockRef;
  lm_quorum_claim : gset BlockRef;
  lm_quorum_direct : gset BlockRef;
  lm_c_candidate : gmap PublicKey BlockRef;
  lm_confirmation : gmap PublicKey BlockRef;
  lm_t_candidate : gmap PublicKey BlockRef;
  lm_own_frontier : Height * Digest;
  lm_own_watermark : gmap PublicKey (Height * Digest);
  lm_avail_dirty : bool;
  lm_avail : AvailResolver;
  lm_avail_high : gmap PublicKey Height;
  lm_seeded_anchor : option Header;
}.

Definition lm_eta (x : LaneManager) : LaneManager :=
  mkLaneManager (lm_name x) (lm_committee x) (lm_sid x) (lm_genesis x) (lm_max_block_payload x)
    (lm_store_frontier x) (lm_store_header x) (lm_disk x) (lm_ack_availability x) (lm_acked x) (lm_pending_direct x)
    (lm_blocked_by x) (lm_waiters x) (lm_prefix_blocker x) (lm_scan_after x) (lm_direct_pub x)
    (lm_quorum_claim x) (lm_quorum_direct x) (lm_c_candidate x) (lm_confirmation x) (lm_t_candidate x)
    (lm_own_frontier x) (lm_own_watermark x) (lm_avail_dirty x) (lm_avail x) (lm_avail_high x)
    (lm_seeded_anchor x).

#[export] Instance set_lm_store_frontier : Setter lm_store_frontier.
Proof. solve_setter lm_eta lm_store_frontier. Defined.
#[export] Instance set_lm_store_header : Setter lm_store_header.
Proof. solve_setter lm_eta lm_store_header. Defined.
#[export] Instance set_lm_disk : Setter lm_disk.
Proof. solve_setter lm_eta lm_disk. Defined.
#[export] Instance set_lm_ack_availability : Setter lm_ack_availability.
Proof. solve_setter lm_eta lm_ack_availability. Defined.
#[export] Instance set_lm_acked : Setter lm_acked.
Proof. solve_setter lm_eta lm_acked. Defined.
#[export] Instance set_lm_pending_direct : Setter lm_pending_direct.
Proof. solve_setter lm_eta lm_pending_direct. Defined.
#[export] Instance set_lm_blocked_by : Setter lm_blocked_by.
Proof. solve_setter lm_eta lm_blocked_by. Defined.
#[export] Instance set_lm_waiters : Setter lm_waiters.
Proof. solve_setter lm_eta lm_waiters. Defined.
#[export] Instance set_lm_prefix_blocker : Setter lm_prefix_blocker.
Proof. solve_setter lm_eta lm_prefix_blocker. Defined.
#[export] Instance set_lm_scan_after : Setter lm_scan_after.
Proof. solve_setter lm_eta lm_scan_after. Defined.
#[export] Instance set_lm_direct_pub : Setter lm_direct_pub.
Proof. solve_setter lm_eta lm_direct_pub. Defined.
#[export] Instance set_lm_quorum_claim : Setter lm_quorum_claim.
Proof. solve_setter lm_eta lm_quorum_claim. Defined.
#[export] Instance set_lm_quorum_direct : Setter lm_quorum_direct.
Proof. solve_setter lm_eta lm_quorum_direct. Defined.
#[export] Instance set_lm_c_candidate : Setter lm_c_candidate.
Proof. solve_setter lm_eta lm_c_candidate. Defined.
#[export] Instance set_lm_confirmation : Setter lm_confirmation.
Proof. solve_setter lm_eta lm_confirmation. Defined.
#[export] Instance set_lm_t_candidate : Setter lm_t_candidate.
Proof. solve_setter lm_eta lm_t_candidate. Defined.
#[export] Instance set_lm_own_frontier : Setter lm_own_frontier.
Proof. solve_setter lm_eta lm_own_frontier. Defined.
#[export] Instance set_lm_own_watermark : Setter lm_own_watermark.
Proof. solve_setter lm_eta lm_own_watermark. Defined.
#[export] Instance set_lm_avail_dirty : Setter lm_avail_dirty.
Proof. solve_setter lm_eta lm_avail_dirty. Defined.
#[export] Instance set_lm_avail : Setter lm_avail.
Proof. solve_setter lm_eta lm_avail. Defined.
#[export] Instance set_lm_avail_high : Setter lm_avail_high.
Proof. solve_setter lm_eta lm_avail_high. Defined.
#[export] Instance set_lm_seeded_anchor : Setter lm_seeded_anchor.
Proof. solve_setter lm_eta lm_seeded_anchor. Defined.

(** [session_id] is the hash of the committee; the caller supplies it. *)
Definition lanes_new (name : PublicKey) (c : Committee) (sid genesis : Digest) (max_block_payload : Z)
    : LaneManager :=
  mkLaneManager name c sid genesis max_block_payload None None (None, None) ∅ ∅ ∅ ∅ ∅ ∅ ∅ ∅ ∅ ∅ ∅ ∅ ∅ (0, genesis) ∅ false
    (avail_new c genesis) ∅ None.

Abbreviation LM := (M Effect (LaneManager * BlockCache)) (only parsing).

Definition lanes : LM LaneManager := fun s => Res s.1 [] s.
Definition on_lanes (f : LaneManager -> LaneManager) : LM () := fun s => Res tt [] (f s.1, s.2).
Definition blocks : LM BlockCache := fun s => Res s.2 [] s.
Definition with_blocks {A} (f : BlockCache -> A * BlockCache) : LM A :=
  fun s => let r := f s.2 in Res r.1 [] (s.1, r.2).
Definition with_avail {A} (f : BlockCache -> M Effect AvailResolver A) : LM A := fun s =>
  let r := f s.2 (lm_avail s.1) in Res (val r) [] ((s.1) <| lm_avail := st r |>, s.2).

(** ** Queries *)

Definition exact_entry (r : BlockRef) (c : BlockCache) : bool :=
  match by_digest c !! ref_digest r with
  | Some e => (hd_author (ent_block e) =? ref_author r) && (hd_height (ent_block e) =? ref_height r)
  | None => false
  end.

(** [u32] stakes compare with the thresholds of the committee. *)
Definition is_q_available (r : BlockRef) (q : Stake) (x : LaneManager) : bool :=
  match lm_ack_availability x !! r with
  | Some Quorum => q <=? quorum_threshold (lm_committee x)
  | Some Validity => q <=? validity_threshold (lm_committee x)
  | None => false
  end.

Fixpoint contains_walk (m : gmap Digest BlockEntry) (genesis : Digest) (author : PublicKey) (target : BlockRef)
    (n : nat) (cur : Digest) : bool :=
  if cur =? genesis then false
  else
    match n with
    | O => false
    | S n' =>
        match m !! cur with
        | None => false
        | Some e =>
            if negb (pinned_at e author (Z.of_nat n)) then false
            else if negb (ent_block_ok_verified e) then false
            else if Z.of_nat n =? ref_height target then cur =? ref_digest target
            else contains_walk m genesis author target n' (parent (ent_block e))
        end
    end.

Definition lm_prefix_contains (r target : BlockRef) (genesis : Digest) (c : BlockCache) : bool :=
  if negb (ref_author r =? ref_author target) || (ref_height r <? ref_height target) then false
  else contains_walk (by_digest c) genesis (ref_author r) target (Z.to_nat (ref_height r)) (ref_digest r).

(** The two walks at the end of [direct_pub_check]. *)
Definition check_walks (r : BlockRef) : LM DirectPubCheck :=
  x ← lanes;
  verified ← with_blocks (verified_prefix_through_genesis (lm_genesis x) (ref_digest r));
  if negb (verified : bool) then mret CheckFailed
  else
    check ← with_blocks (direct_prefix_check (lm_genesis x) (ref_digest r));
    mret (match check with
          | DVerified => Confirmed
          | DGate blocker => BlockedOnGate blocker
          | DFailed => CheckFailed
          end).

Definition direct_pub_check (r : BlockRef) : LM DirectPubCheck :=
  x ← lanes;
  c ← blocks;
  if negb (exact_entry r c) then mret CheckFailed
  else
    match lm_prefix_blocker x !! ref_digest r with
    | Some blocker =>
        if negb (direct_gate_ready blocker c) then mret (BlockedOnGate blocker) else check_walks r
    | None => check_walks r
    end.

Definition direct_pub (r : BlockRef) : LM bool :=
  check ← direct_pub_check r; mret (match check with Confirmed => true | _ => false end).

(** [retain_prefix_locked]; the height falls by one per step. *)
Fixpoint retain_walk (genesis : Digest) (n : nat) (cur : Digest) (c : BlockCache) : BlockCache :=
  if cur =? genesis then c
  else
    match n with
    | O => c
    | S n' =>
        match by_digest c !! cur with
        | None => c
        | Some e =>
            if negb (hd_height (ent_block e) =? Z.of_nat n) || ent_retained e then c
            else retain_walk genesis n' (parent (ent_block e)) (mark_retained cur c).2
        end
    end.

Definition retain_prefix (r : BlockRef) : LM () :=
  x ← lanes;
  with_blocks (fun c => (tt, retain_walk (lm_genesis x) (Z.to_nat (ref_height r)) (ref_digest r) c)).

Definition lm_holds_prefix (r : BlockRef) : LM bool :=
  x ← lanes;
  c ← blocks;
  if negb (exact_entry r c) then mret false
  else
    verified ← with_blocks (verified_prefix_through_genesis (lm_genesis x) (ref_digest r));
    when verified (retain_prefix r);;
    mret verified.

Definition lm_locally_available (r : BlockRef) : LM bool :=
  held ← lm_holds_prefix r;
  if (held : bool) then mret true
  else x ← lanes; mret (is_q_available r (validity_threshold (lm_committee x)) x).

Definition lm_author_ok (r : BlockRef) : LM bool :=
  x ← lanes;
  if is_q_available r (validity_threshold (lm_committee x)) x then mret true else direct_pub r.

(** ** Candidates *)

(** [range(author_lower_bound(a)..=author_upper_bound(a))]: every reference of
    the author, by height and digest. *)
Definition author_refs (author : PublicKey) (refs : gset BlockRef) : list BlockRef :=
  filter (fun r => ref_author r = author) (set_iter refs).

(** [newest_indexed]: the scan from the top stops below the greatest height. *)
Fixpoint newest_scan (current : option Height) (best : option BlockRef) (refs : list BlockRef) : option BlockRef :=
  match refs with
  | [] => best
  | r :: refs =>
      match current with
      | Some h => if negb (h =? ref_height r) then best else newest_scan current (Some r) refs
      | None => newest_scan (Some (ref_height r)) (Some r) refs
      end
  end.

Definition newest_indexed (index : gset BlockRef) (author : PublicKey) : option BlockRef :=
  newest_scan None None (reverse (author_refs author index)).

Definition candidate_floor (c : option BlockRef) : Height :=
  match c with Some r => u64_saturating_add (ref_height r) 1 | None => 0 end.

Definition qualifies (genesis : Digest) (blocks : BlockCache) (c : option BlockRef) (r : BlockRef) : bool :=
  match c with
  | Some c_ref => (ref_height c_ref <? ref_height r) && lm_prefix_contains r c_ref genesis blocks
  | None => true
  end.

Definition least_confirmation_candidate (x : LaneManager) (blocks : BlockCache) (author : PublicKey)
    (c : option BlockRef) : option BlockRef :=
  head (filter (fun r => (r ∉ lm_quorum_direct x) /\ qualifies (lm_genesis x) blocks c r = true)
    (filter (fun r => candidate_floor c <= ref_height r) (author_refs author (lm_quorum_claim x)))).

Fixpoint t_scan (ok : BlockRef -> bool) (current : option Height) (best : option BlockRef) (refs : list BlockRef)
    : option BlockRef :=
  match refs with
  | [] => best
  | r :: refs =>
      let moved := match current with Some h => negb (h =? ref_height r) | None => false end in
      if moved && bool_decide (is_Some best) then best
      else
        t_scan ok (Some (if moved then ref_height r else default (ref_height r) current))
          (if ok r then Some r else best) refs
  end.

Definition newest_t_candidate (x : LaneManager) (blocks : BlockCache) (author : PublicKey) (c : option BlockRef)
    : option BlockRef :=
  t_scan (qualifies (lm_genesis x) blocks c) None None
    (reverse (filter (fun r => candidate_floor c <= ref_height r) (author_refs author (lm_direct_pub x)))).

Definition set_candidate (author : PublicKey) (value : option BlockRef) (m : gmap PublicKey BlockRef)
    : gmap PublicKey BlockRef := partial_alter (fun _ => value) author m.

Definition refresh_registers (author : PublicKey) : LM () :=
  x ← lanes;
  b ← blocks;
  let c := newest_indexed (lm_quorum_direct x) author in
  on_lanes (fun x => x <| lm_c_candidate ::= set_candidate author c |>
    <| lm_confirmation ::= set_candidate author (least_confirmation_candidate x b author c) |>
    <| lm_t_candidate ::= set_candidate author (newest_t_candidate x b author c) |>).

(** ** Deferred direct references *)

(** Both halves of [pending_direct_blocked_by] and its inverse. *)
Definition waiters_remove (d : Digest) (r : BlockRef) (m : gmap Digest (gset BlockRef)) : gmap Digest (gset BlockRef) :=
  match m !! d with
  | Some w => let w := w ∖ {[ r ]} in if decide (w = ∅) then delete d m else <[ d := w ]> m
  | None => m
  end.

Definition waiters_insert (d : Digest) (r : BlockRef) (m : gmap Digest (gset BlockRef)) : gmap Digest (gset BlockRef) :=
  <[ d := {[ r ]} ∪ default ∅ (m !! d) ]> m.

Definition park_pending_direct_on (r : BlockRef) (blocker : Digest) : LM () :=
  on_lanes (fun x =>
    if bool_decide (r ∈ lm_acked x) then x
    else
      x <| lm_waiters ::= fun m => waiters_insert blocker r
             (match lm_blocked_by x !! r with Some old => waiters_remove old r m | None => m end) |>
        <| lm_blocked_by ::= <[ r := blocker ]> |>
        <| lm_prefix_blocker ::= <[ ref_digest r := blocker ]> |>).

Definition block_pending_direct_on (r : BlockRef) (blocker : Digest) : LM () :=
  on_lanes (fun x => x <| lm_pending_direct ::= fun s => s ∖ {[ r ]} |>);;
  park_pending_direct_on r blocker.

Definition inherited_direct_prefix_blocker (r : BlockRef) : LM (option Digest) :=
  x ← lanes;
  c ← blocks;
  match by_digest c !! ref_digest r with
  | None => mret None
  | Some e =>
      let par := parent (ent_block e) in
      match lm_prefix_blocker x !! par with
      | None => mret None
      | Some blocker =>
          if negb (direct_gate_ready blocker c) then mret (Some blocker)
          else on_lanes (fun x => x <| lm_prefix_blocker ::= delete par |>);; mret None
      end
  end.

Definition enqueue_pending_direct (r : BlockRef) : LM () :=
  x ← lanes;
  if bool_decide (r ∈ lm_acked x) || bool_decide (is_Some (lm_blocked_by x !! r)) then skip
  else
    inherited ← inherited_direct_prefix_blocker r;
    match inherited with
    | Some blocker => park_pending_direct_on r blocker
    | None => on_lanes (fun x => x <| lm_pending_direct ::= union {[ r ]} |>)
    end.

Definition note_direct_prefix_self_blocker (blocker : Digest) : LM () :=
  on_lanes (fun x => x <| lm_prefix_blocker ::= <[ blocker := blocker ]> |>).

Definition clear_direct_prefix_blocker (blocker : Digest) : LM () :=
  on_lanes (fun x =>
    if bool_decide (lm_prefix_blocker x !! blocker = Some blocker)
    then x <| lm_prefix_blocker ::= delete blocker |> else x).

(** One turn of the loop over the waiters. *)
Definition wake_one (x : LaneManager) (r : BlockRef) : LaneManager :=
  match lm_blocked_by x !! r with
  | None => x
  | Some _ =>
      let x := x <| lm_blocked_by ::= delete r |> <| lm_prefix_blocker ::= delete (ref_digest r) |> in
      if bool_decide (r ∈ lm_acked x) then x else x <| lm_pending_direct ::= union {[ r ]} |>
  end.

Definition woken_author (x : LaneManager) (r : BlockRef) : option PublicKey :=
  if bool_decide (is_Some (lm_blocked_by x !! r)) && negb (bool_decide (r ∈ lm_acked x))
  then Some (ref_author r) else None.

Definition wake_pending_direct_blocker (blocker : Digest) : LM (gset PublicKey) :=
  clear_direct_prefix_blocker blocker;;
  x ← lanes;
  match lm_waiters x !! blocker with
  | None => mret ∅
  | Some waiters =>
      on_lanes (fun x => foldl wake_one (x <| lm_waiters ::= delete blocker |>) (set_iter waiters));;
      mret (list_to_set (omap (woken_author x) (set_iter waiters)))
  end.

(** ** Direct publication *)

Definition record_direct_pub (r : BlockRef) : LM () :=
  on_lanes (fun x =>
    let x := x <| lm_direct_pub ::= union {[ r ]} |> in
    let x := if is_q_available r (quorum_threshold (lm_committee x)) x
             then x <| lm_quorum_claim ::= union {[ r ]} |> else x in
    let x := if is_exact_quorum r (lm_avail x) then x <| lm_quorum_direct ::= union {[ r ]} |> else x in
    let advances := match lm_own_watermark x !! ref_author r with Some (h, _) => h <? ref_height r | None => true end in
    if advances then
      x <| lm_own_watermark ::= <[ ref_author r := (ref_height r, ref_digest r) ]> |> <| lm_avail_dirty := true |>
    else x).

Definition on_direct_pub_confirmed (r : BlockRef) : LM () :=
  retain_prefix r;;
  on_lanes (fun x => x <| lm_acked ::= union {[ r ]} |>);;
  x ← lanes;
  emit (BroadcastAck (mkAck (ref_author r) (ref_height r) (ref_digest r) (lm_name x)));;
  record_direct_pub r.

(** One turn of the loop of [refresh_author]: whether the registers changed. *)
Definition refresh_one (r : BlockRef) : LM bool :=
  x ← lanes;
  if bool_decide (r ∈ lm_acked x) then
    on_lanes (fun x => x <| lm_pending_direct ::= fun s => s ∖ {[ r ]} |>);; mret false
  else
    check ← direct_pub_check r;
    match check with
    | Confirmed =>
        on_lanes (fun x => x <| lm_pending_direct ::= fun s => s ∖ {[ r ]} |>
          <| lm_prefix_blocker ::= delete (ref_digest r) |>);;
        on_direct_pub_confirmed r;;
        mret true
    | BlockedOnGate blocker => block_pending_direct_on r blocker;; mret false
    | CheckFailed => mret false
    end.

Fixpoint refresh_all (refs : list BlockRef) : LM bool :=
  match refs with
  | [] => mret false
  | r :: refs => a ← refresh_one r; b ← refresh_all refs; mret (a || b)
  end.

(** The pending references to check: up to the budget, from the one after the last
    scan, wrapping around. *)
Definition scan_refs (after : option BlockRef) (refs : list BlockRef) : list BlockRef :=
  match after with
  | Some after =>
      let ahead := take REFRESH_WALK_BUDGET (filter (fun r => klt after r) refs) in
      ahead ++ take (REFRESH_WALK_BUDGET - length ahead) (filter (fun r => kle r after) refs)
  | None => take REFRESH_WALK_BUDGET refs
  end.

Definition refresh_author (author : PublicKey) : LM () :=
  x ← lanes;
  let refs := scan_refs (lm_scan_after x !! author) (author_refs author (lm_pending_direct x)) in
  on_lanes (fun x => x <| lm_scan_after ::= partial_alter (fun _ => last refs) author |>);;
  changed ← refresh_all refs;
  when changed (refresh_registers author).

Definition refresh_woken_pending_direct (blocker : Digest) : LM () :=
  authors ← wake_pending_direct_blocker blocker;
  for_each refresh_author (set_iter authors).

(** ** Blocks *)

Section headers.
Context `{!Hashing}.

(** The payload entries the store does not hold. *)
Definition missing_payload (stored : Digest * WorkerId -> bool) (header : Header) (x : LaneManager)
    : list (Digest * WorkerId) :=
  if hd_author header =? lm_name x then []
  else filter (fun p => stored p = false) (map_iter (hd_payload header)).

Definition process_publish_inner (stored : Digest * WorkerId -> bool) (sender : PublicKey) (header : Header) : LM () :=
  x ← lanes;
  if negb (bool_decide (hd_sid header = Some (lm_sid x))) then skip
  else if negb (block_ok header (lm_committee x) (lm_sid x) (lm_max_block_payload x)) then skip
  else
    let direct := sender =? hd_author header in
    let missing := missing_payload stored header x in
    let payload_ok := bool_decide (missing = []) in
    let digest := hd_id header in
    gate_ready ← with_blocks (fun c =>
      let c := upsert header direct false payload_ok true c in (direct_gate_ready digest c, c));
    (if direct && payload_ok then enqueue_pending_direct (hd_author header, hd_height header, digest)
     else if direct then note_direct_prefix_self_blocker digest
     else skip);;
    emit (BlockCached digest);;
    when (direct && negb payload_ok) (emit (SyncBatches (hd_author header) digest missing));;
    refresh_author (hd_author header);;
    when gate_ready (refresh_woken_pending_direct digest).

Definition process_publish := process_publish_inner.

(** [Header::new_vantage]: an unsigned header under its own digest. *)
Definition new_vantage (author : PublicKey) (height : Height) (payload : gmap Digest WorkerId)
    (prev_digest sid : Digest) : Header :=
  let header := mkHeader author height payload
    (mkCertificate author prev_digest (u64_saturating_sub height 1) []) 0 None (Some sid) ∅ 0 false in
  mkHeader author height payload (hd_parent_cert header) (header_digest header) None (Some sid) ∅ 0 false.

(** Two writes to the store, one after the other; both are pending until the next flush. *)
Definition write_frontier : LM () :=
  on_lanes (fun x => x
    <| lm_store_frontier := Some (mkPersistedFrontier (lm_sid x) (lm_own_frontier x).1 (lm_own_frontier x).2) |>).
Definition write_frontier_header (header : Header) : LM () :=
  on_lanes (fun x => x <| lm_store_header := Some (mkPersistedFrontierHeader (lm_sid x) header) |>).
Definition persist_own_frontier (header : Header) : LM () := write_frontier;; write_frontier_header header.

Definition publish_own (payload : gmap Digest WorkerId) : LM Header :=
  x ← lanes;
  let '(height, prev) := lm_own_frontier x in
  let next_height := u64_add height 1 in
  let header := new_vantage (lm_name x) next_height payload prev (lm_sid x) in
  on_lanes (fun x => x <| lm_own_frontier := (next_height, hd_id header) |>);;
  persist_own_frontier header;;
  process_publish_inner (fun _ => true) (lm_name x) header;;
  emit (BroadcastPublish header);;
  mret header.

(** ** Restarts and recovery *)

Definition seed_own_anchor_from_store : LM () :=
  x ← lanes;
  match lm_store_header x with
  | None => skip
  | Some rec =>
      let header := pfh_header rec in
      if negb (pfh_sid rec =? lm_sid x) then skip
      else if negb (hd_author header =? lm_name x) ||
              negb (bool_decide ((hd_height header, hd_id header) = lm_own_frontier x)) then skip
      else if negb (block_ok header (lm_committee x) (lm_sid x) (lm_max_block_payload x)) then skip
      else
        with_blocks (fun c => (tt, seed_own_anchor header c));;
        on_lanes (fun x => x <| lm_seeded_anchor := Some header |>
          <| lm_pending_direct ::= union {[ (hd_author header, hd_height header, hd_id header) ]} |>)
  end.

Definition restore_own_frontier : LM () :=
  x ← lanes;
  match lm_store_frontier x with
  | None => skip
  | Some rec =>
      if negb (pf_sid rec =? lm_sid x) then skip
      else if pf_height rec <=? (lm_own_frontier x).1 then skip
      else
        on_lanes (fun x => x <| lm_own_frontier := (pf_height rec, pf_digest rec) |>);;
        seed_own_anchor_from_store
  end.

(** The store's actor writes its pending entries as one batch: every 100 ms, when they are many, and when
    all handles of the store are dropped. *)
Definition flush_pending : LM () := on_lanes (fun x => x <| lm_disk := (lm_store_frontier x, lm_store_header x) |>).

(** A new process with the database of the old one. *)
Definition restarted (x : LaneManager) : LaneManager :=
  (lanes_new (lm_name x) (lm_committee x) (lm_sid x) (lm_genesis x) (lm_max_block_payload x))
    <| lm_store_frontier := (lm_disk x).1 |> <| lm_store_header := (lm_disk x).2 |> <| lm_disk := lm_disk x |>.

Definition take_seeded_anchor : LM (option Header) :=
  x ← lanes;
  on_lanes (fun x => x <| lm_seeded_anchor := None |>);;
  mret (lm_seeded_anchor x).

Definition others (name : PublicKey) (s : gset BlockRef) : gset BlockRef := filter (fun r => ref_author r <> name) s.

(** The digests of the own lane that are still referenced. *)
Definition stale_digests (x : LaneManager) : gset Digest :=
  let refs := lm_pending_direct x ∪ dom (lm_blocked_by x) ∪ lm_direct_pub x ∪ lm_quorum_claim x ∪
    lm_quorum_direct x ∪ dom (lm_ack_availability x) ∪ lm_acked x in
  set_map ref_digest (filter (fun r => ref_author r = lm_name x) refs).

(** Everything remembered of the own lane goes. *)
Definition drop_own_lane (x : LaneManager) : LaneManager :=
  let name := lm_name x in
  let stale := stale_digests x in
  x <| lm_pending_direct ::= others name |>
    <| lm_blocked_by ::= filter (fun p => ref_author p.1 <> name) |>
    <| lm_waiters ::= fun m => filter (fun p => p.2 <> ∅) (others name <$> m) |>
    <| lm_prefix_blocker ::= filter (fun p => p.1 ∉ stale) |>
    <| lm_direct_pub ::= others name |>
    <| lm_quorum_claim ::= others name |>
    <| lm_quorum_direct ::= others name |>
    <| lm_ack_availability ::= filter (fun p => ref_author p.1 <> name) |>
    <| lm_acked ::= others name |>
    <| lm_scan_after ::= delete name |>
    <| lm_c_candidate ::= delete name |>
    <| lm_confirmation ::= delete name |>
    <| lm_t_candidate ::= delete name |>.

Definition recover_own_frontier (header : Header) : LM bool :=
  x ← lanes;
  if negb (hd_author header =? lm_name x) || (hd_height header =? 0) ||
     negb (block_ok header (lm_committee x) (lm_sid x) (lm_max_block_payload x)) then mret false
  else if bool_decide (lm_own_frontier x = (hd_height header, hd_id header)) then mret false
  else
    let anchor := (lm_name x, hd_height header, hd_id header) in
    on_lanes drop_own_lane;;
    with_blocks (fun c => (tt, seed_recovered_own_anchor header c));;
    with_avail (fun _ => avail_reset_author (lm_name x) anchor);;
    on_lanes (fun x => x <| lm_ack_availability ::= <[ anchor := Quorum ]> |>);;
    with_avail (fun _ => note_threshold anchor Quorum);;
    on_lanes (fun x => x <| lm_acked ::= union {[ anchor ]} |>
      <| lm_direct_pub ::= union {[ anchor ]} |>
      <| lm_quorum_claim ::= union {[ anchor ]} |>
      <| lm_quorum_direct ::= union {[ anchor ]} |>
      <| lm_c_candidate ::= <[ lm_name x := anchor ]> |>
      <| lm_own_watermark ::= <[ lm_name x := (hd_height header, hd_id header) ]> |>
      <| lm_avail_high ::= <[ lm_name x := hd_height header ]> |>
      <| lm_avail_dirty := true |>
      <| lm_own_frontier := (hd_height header, hd_id header) |>
      <| lm_seeded_anchor := None |>);;
    persist_own_frontier header;;
    mret true.
End headers.

Definition set_payload_ready (digest : Digest) : LM () :=
  with_blocks (set_payload_ok digest true);;
  c ← blocks;
  (match by_digest c !! digest with
   | Some e =>
       when (ent_direct e && ent_payload_ok e) (
         let r := (hd_author (ent_block e), hd_height (ent_block e), digest) in
         enqueue_pending_direct r;;
         refresh_author (hd_author (ent_block e)))
   | None => skip
   end);;
  when (direct_gate_ready digest c) (refresh_woken_pending_direct digest).

(** ** Availability *)

Definition process_availability (availability : AckAvailability) (promote_core : bool) : LM () :=
  x ← lanes;
  let r := av_reference availability in
  let threshold := av_threshold availability in
  if match lm_ack_availability x !! r with Some old => threshold_le threshold old | None => false end then skip
  else
    on_lanes (fun x => x <| lm_ack_availability ::= <[ r := threshold ]> |>);;
    with_avail (fun _ => note_threshold r threshold);;
    on_lanes (fun x => x <| lm_avail_high ::= fun m =>
      <[ ref_author r := Z.max (default 0 (m !! ref_author r)) (ref_height r) ]> m |>);;
    when (threshold_le Quorum threshold && bool_decide (r ∈ lm_direct_pub x)) (
      let learned_claim := negb (bool_decide (r ∈ lm_quorum_claim x)) in
      let learned_core := promote_core && negb (bool_decide (r ∈ lm_quorum_direct x)) in
      on_lanes (fun x => x <| lm_quorum_claim ::= union {[ r ]} |>
        <| lm_quorum_direct ::= if promote_core then union {[ r ]} else id |>);;
      when (learned_claim || learned_core) (refresh_registers (ref_author r))).

Definition process_ack_availability (a : AckAvailability) : LM () := process_availability a true.
Definition process_claim_availability (a : AckAvailability) : LM () := process_availability a false.

Definition lm_resolve_watermark (sender : PublicKey) (entries : list AvailEntry) : LM (list BlockRef) :=
  with_avail (fun b => resolve_watermark b sender entries).

Definition lm_retry_pending_avail (digest : Digest) : LM (list (PublicKey * BlockRef)) :=
  with_avail (fun b => retry_pending_avail b digest).

(** One newly exact quorum. *)
Definition promote_exact (r : BlockRef) (x : LaneManager) : LaneManager :=
  if bool_decide (r ∈ lm_direct_pub x) then x <| lm_quorum_direct ::= union {[ r ]} |> else x.

Definition lm_note_claim (sender : PublicKey) (claims : list ClaimRef) : LM (list BlockRef) :=
  credits ← with_avail (fun b => note_claim b sender claims);
  x ← lanes;
  let exact := cc_newly_exact_quorum credits in
  let changed : gset PublicKey :=
    list_to_set (ref_author <$> filter (fun r => r ∈ lm_direct_pub x /\ r ∉ lm_quorum_direct x) exact) in
  on_lanes (fun x => foldl (fun x r => promote_exact r x) x exact);;
  for_each refresh_registers (elements changed);;
  mret (cc_references credits).

Definition take_avail_flush : LM (option (list AvailEntry)) :=
  x ← lanes;
  if negb (lm_avail_dirty x) then mret None
  else
    on_lanes (fun x => x <| lm_avail_dirty := false |>);;
    mret (Some ((fun p => mkAvailEntry p.1 p.2.1 p.2.2) <$> map_iter (lm_own_watermark x))).

Definition own_direct_frontier (author : PublicKey) (x : LaneManager) : Height :=
  match lm_own_watermark x !! author with Some (h, _) => h | None => 0 end.

(** The first from the top that is a strict ancestor of the anchor. *)
Definition greatest_direct_ancestor (anchor : BlockRef) (x : LaneManager) (b : BlockCache) : option BlockRef :=
  head (filter (fun r => ref_height r < ref_height anchor /\ lm_prefix_contains anchor r (lm_genesis x) b = true)
    (reverse (author_refs (ref_author anchor) (lm_direct_pub x)))).

Definition lm_build_avail_claim_for_refs (refs : list BlockRef) (x : LaneManager) (b : BlockCache) : AvailClaim :=
  build_avail_claim_for_refs (fun r => bool_decide (r ∈ lm_direct_pub x))
    (fun r => greatest_direct_ancestor r x b) refs.
