(* ===== verification/LaneOrder.v ===== *)
(** What the lane manager's registers mean.

    [lanes_ok] is the invariant of the manager and the block cache it shares: a
    directly published reference has a lineage of valid blocks down to genesis,
    the candidates and watermarks are the extremes of the sets they summarise, and the
    indexes of deferred references are inverse to each other. *)

From S2P Require Import Prelude Committee Types Blocks BlockChains Acks Avail Repair RepairSettle Lanes.

(** ** Reading and writing the parts of the state *)

Lemma wp_lanes s (Q : LaneManager -> list Effect -> LaneManager * BlockCache -> Prop) : Q s.1 [] s -> wp lanes s Q.
Proof. done. Qed.

Lemma wp_blocks s (Q : BlockCache -> list Effect -> LaneManager * BlockCache -> Prop) : Q s.2 [] s -> wp blocks s Q.
Proof. done. Qed.

Lemma wp_on_lanes f s (Q : () -> list Effect -> LaneManager * BlockCache -> Prop) :
  Q tt [] (f s.1, s.2) -> wp (on_lanes f) s Q.
Proof. done. Qed.

Lemma wp_with_blocks {A} (f : BlockCache -> A * BlockCache) s (Q : A -> list Effect -> LaneManager * BlockCache -> Prop) :
  Q (f s.2).1 [] (s.1, (f s.2).2) -> wp (with_blocks f) s Q.
Proof. done. Qed.

Lemma wp_with_avail {A} (f : BlockCache -> M Effect AvailResolver A) s (Q : A -> list Effect -> LaneManager * BlockCache -> Prop) :
  Q (val (f s.2 (lm_avail s.1))) [] ((s.1) <| lm_avail := st (f s.2 (lm_avail s.1)) |>, s.2) -> wp (with_avail f) s Q.
Proof. done. Qed.

(** ** The newest reference *)

(** Greatest height, then smallest digest. *)
Definition newest_of (X : gset BlockRef) (author : PublicKey) (r : BlockRef) : Prop :=
  r ∈ X /\ ref_author r = author /\ forall r', r' ∈ X -> ref_author r' = author ->
    ref_height r' < ref_height r \/ (ref_height r' = ref_height r /\ ref_digest r <= ref_digest r').

Lemma elem_of_author_refs author X r : r ∈ author_refs author X <-> r ∈ X /\ ref_author r = author.
Proof. unfold author_refs. rewrite list_elem_of_filter, elem_of_set_iter. naive_solver. Qed.

Lemma kle_ref (r r' : BlockRef) : ref_author r = ref_author r' ->
  kle r r' <-> ref_height r < ref_height r' \/ (ref_height r = ref_height r' /\ ref_digest r <= ref_digest r').
Proof.
  destruct r as [[a h] d], r' as [[a' h'] d']. unfold ref_author, ref_height, ref_digest. cbn [fst snd]. intros <-.
  cbn. unfold lex_le. cbn [fst snd]. cbn. unfold lex_le. cbn [fst snd]. split.
  - intros [[[= ->] ?]|[Hne [[_ ?]|[? _]]]]; [by right| |done]. left. assert (h <> h') by congruence. cbn in *. lia.
  - intros [?|[-> ?]]; [|by left]. right. split; [intros [= ->]; lia|]. left. split; [done|]. cbn. lia.
Qed.

(** In a descending list of one author the scan ends at the smallest digest of
    the first height. *)
Lemma newest_scan_spec a l : forall b, StronglySorted (flip kle) (b :: l) -> Forall (fun r => ref_author r = a) (b :: l) ->
  exists r, newest_scan (Some (ref_height b)) (Some b) l = Some r /\ r ∈ b :: l /\
    forall r', r' ∈ b :: l -> ref_height r' < ref_height r \/ (ref_height r' = ref_height r /\ ref_digest r <= ref_digest r').
Proof.
  induction l as [|x l IH]; intros b Hs Ha; cbn [newest_scan].
  - exists b. split_and!; [done|by left|]. intros r' ->%list_elem_of_singleton. by right.
  - apply StronglySorted_inv in Hs as [Hs Hb]. apply Forall_cons in Ha as [Ha0 Ha].
    assert (forall r', r' ∈ x :: l -> ref_height r' < ref_height b \/
      (ref_height r' = ref_height b /\ ref_digest r' <= ref_digest b)) as Hlow.
    { intros r' Hr'. apply kle_ref; [eapply Forall_forall in Ha; [|exact Hr']; cbn in Ha; congruence|].
      by eapply Forall_forall in Hb. }
    destruct (Z.eqb_spec (ref_height b) (ref_height x)) as [Heq|Hne]; cbn [negb].
    + rewrite Heq. destruct (IH x Hs Ha) as (r & -> & Hr & Hmin). exists r. split_and!; [done|by right|].
      intros r' [->|Hr']%elem_of_cons; [|by apply Hmin].
      pose proof (Hmin x ltac:(by left)). pose proof (Hlow x ltac:(by left)). lia.
    + exists b. split_and!; [done|by left|]. intros r' [->|Hr']%elem_of_cons; [by right|left].
      apply StronglySorted_inv in Hs as [_ Hx]. destruct (Hlow x) as [Hlt|[? _]]; [by left| |lia].
      apply elem_of_cons in Hr' as [->|Hr']; [done|]. apply Forall_cons in Ha as [Hax Ha].
      assert (kle r' x) as Hk by (by eapply Forall_forall in Hx).
      apply kle_ref in Hk; [lia|]. eapply Forall_forall in Ha; [|exact Hr']. cbn in Ha. congruence.
Qed.

Lemma sorted_filter {A} (R : relation A) (P : A -> Prop) `{forall x, Decision (P x)} l :
  StronglySorted R l -> StronglySorted R (filter P l).
Proof.
  induction 1 as [|x l Hl IH Hx]; [constructor|]. rewrite filter_cons. case_decide; [|done]. constructor; [done|].
  apply Forall_forall. intros y [_ Hy]%list_elem_of_filter. by eapply Forall_forall in Hx.
Qed.

Lemma sorted_reverse {A} (R : relation A) l : StronglySorted R l -> StronglySorted (flip R) (reverse l).
Proof.
  induction 1 as [|x l Hl IH Hx]; [constructor|]. rewrite reverse_cons. apply StronglySorted_app_2; [|done|repeat constructor].
  intros y z Hy ->%list_elem_of_singleton. rewrite elem_of_reverse in Hy. rewrite Forall_forall in Hx. by apply Hx.
Qed.

Lemma newest_indexed_spec X author :
  match newest_indexed X author with
  | Some r => newest_of X author r
  | None => forall r, r ∈ X -> ref_author r <> author
  end.
Proof.
  unfold newest_indexed. set (l := reverse (author_refs author X)).
  assert (forall r, r ∈ l <-> r ∈ X /\ ref_author r = author) as Hin.
  { intros r. unfold l. by rewrite elem_of_reverse, elem_of_author_refs. }
  assert (StronglySorted (flip kle) l) as Hs by (apply sorted_reverse, sorted_filter, set_iter_sorted).
  destruct l as [|b l]; cbn [newest_scan].
  - intros r Hr Ha. assert (r ∈ []) as []%not_elem_of_nil by (by apply Hin).
  - destruct (newest_scan_spec author l b Hs) as (r & -> & Hr & Hmin).
    { apply Forall_forall. intros r Hr. by apply Hin. }
    apply Hin in Hr as [HX Ha]. split_and!; [done|done|]. intros r' HX' Ha'. apply Hmin, Hin. by split.
Qed.

Lemma newest_of_unique X a r r' : newest_of X a r -> newest_of X a r' -> r = r'.
Proof.
  intros (H1 & H2 & H3) (H1' & H2' & H3'). destruct (H3 r' H1' H2') as [?|[? ?]], (H3' r H1 H2) as [?|[? ?]]; try lia.
  destruct r as [[? ?] ?], r' as [[? ?] ?]. unfold ref_author, ref_height, ref_digest in *. cbn in *. repeat f_equal; lia.
Qed.

Lemma newest_indexed_ext X Y a : (forall r, ref_author r = a -> r ∈ X <-> r ∈ Y) -> newest_indexed X a = newest_indexed Y a.
Proof.
  intros HXY. pose proof (newest_indexed_spec X a) as HX. pose proof (newest_indexed_spec Y a) as HY.
  assert (forall r, newest_of X a r -> newest_of Y a r) as Hmov.
  { intros r (H1 & H2 & H3). split_and!; [by apply HXY|done|]. intros r' Hr' Ha'. apply H3; [by apply HXY|done]. }
  destruct (newest_indexed X a) as [r|], (newest_indexed Y a) as [r'|]; [| | |done].
  - f_equal. apply (newest_of_unique Y a); [by apply Hmov|done].
  - destruct HX as (H1 & H2 & _). exfalso. apply (HY r); [by apply HXY|done].
  - destruct HY as (H1 & H2 & _). exfalso. apply (HX r'); [by apply HXY|done].
Qed.
