(* ===== verification/LaneInv.v ===== *)
(** The invariant of the lane manager.

    Every operation keeps [lanes_ok]; while the references of one author are being
    confirmed, that author's core candidate may lag behind, which the parameter
    [D] of the invariant allows. *)

From S2P Require Import Prelude Committee Types Blocks BlockChains Acks Avail Repair RepairSettle Lanes LaneOrder.

Section inv.
Context {Hash : Hashing} (cm : Committee) (sid : Digest) (mbp : Z) (name : PublicKey).
Context (Hbind : header_binding cm sid mbp).
Abbreviation genesis := (genesis_digest sid) (only parsing).
Abbreviation cache_ok := (cache_ok cm sid mbp) (only parsing).
Abbreviation valid := (valid cm sid mbp) (only parsing).
Abbreviation lineage := (lineage cm sid mbp) (only parsing).
Abbreviation ref_lineage := (ref_lineage cm sid mbp) (only parsing).
Abbreviation LS := (LaneManager * BlockCache)%type (only parsing).

Definition frontier_ok (f : Height * Digest) : Prop := 0 <= f.1 /\ lineage name (Z.to_nat f.1) f.2.

(** A reference with a lineage, above genesis. *)
Definition ref_held (r : BlockRef) : Prop := ref_lineage r /\ 1 <= ref_height r.

Lemma valid_height h : valid h -> 1 <= hd_height h.
Proof. intros [_ Hb]. unfold block_ok in Hb. rewrite !andb_true_iff in Hb. lia. Qed.

Definition waiting_on (x : LaneManager) (d : Digest) : gset BlockRef := default ∅ (lm_waiters x !! d).

Record lanes_ok (D : PublicKey -> Prop) (s : LS) : Prop := {
  lo_cache : cache_ok s.2;
  lo_config : lm_committee s.1 = cm /\ lm_sid s.1 = sid /\ lm_genesis s.1 = genesis /\
    lm_max_block_payload s.1 = mbp /\ lm_name s.1 = name;
  lo_frontier : frontier_ok (lm_own_frontier s.1);
  lo_stored rec : lm_store_frontier s.1 = Some rec \/ (lm_disk s.1).1 = Some rec -> frontier_ok (pf_height rec, pf_digest rec);
  lo_stored_header rec : lm_store_header s.1 = Some rec \/ (lm_disk s.1).2 = Some rec -> typed_header (pfh_header rec);
  lo_acked r : r ∈ lm_acked s.1 -> ref_held r;
  lo_direct r : r ∈ lm_direct_pub s.1 -> r ∈ lm_acked s.1;
  lo_core r : r ∈ lm_quorum_direct s.1 -> r ∈ lm_direct_pub s.1;
  lo_claim r : r ∈ lm_quorum_claim s.1 -> r ∈ lm_direct_pub s.1;
  lo_watermark a h d : lm_own_watermark s.1 !! a = Some (h, d) -> (a, h, d) ∈ lm_direct_pub s.1;
  lo_highest r : r ∈ lm_direct_pub s.1 -> exists h d, lm_own_watermark s.1 !! ref_author r = Some (h, d) /\ ref_height r <= h;
  lo_waiters r d : r ∈ waiting_on s.1 d <-> lm_blocked_by s.1 !! r = Some d;
  lo_candidate a : ~ D a -> lm_c_candidate s.1 !! a = newest_indexed (lm_quorum_direct s.1) a;
  lo_tips a r : lm_t_candidate s.1 !! a = Some r \/ lm_confirmation s.1 !! a = Some r -> ref_author r = a /\ r ∈ lm_direct_pub s.1;
}.

Abbreviation clean := (fun _ : PublicKey => False).
Abbreviation only a := (fun b : PublicKey => b = a).

Lemma lanes_ok_weaken D D' s : lanes_ok D s -> (forall a, D a -> D' a) -> lanes_ok D' s.
Proof. intros [A1 A2 A3 A4 A5 A0 A6 A7 A8 A9 A10 A11 A12 A13] HD. split; try done. intros a Ha. apply A12. auto. Qed.

Lemma lanes_ok_cache D x c c' : lanes_ok D (x, c) -> cache_ok c' -> lanes_ok D (x, c').
Proof. intros [A1 A2 A3 A4 A5 A0 A6 A7 A8 A9 A10 A11 A12 A13] Hc. by split. Qed.

(** What the invariant speaks of. *)
Definition same_core (x x' : LaneManager) : Prop :=
  (lm_committee x', lm_sid x', lm_genesis x', lm_max_block_payload x', lm_name x') =
  (lm_committee x, lm_sid x, lm_genesis x, lm_max_block_payload x, lm_name x) /\
  (lm_own_frontier x', lm_store_frontier x', lm_store_header x', lm_disk x') =
  (lm_own_frontier x, lm_store_frontier x, lm_store_header x, lm_disk x) /\
  (lm_direct_pub x', lm_acked x', lm_quorum_direct x', lm_quorum_claim x', lm_own_watermark x') =
  (lm_direct_pub x, lm_acked x, lm_quorum_direct x, lm_quorum_claim x, lm_own_watermark x) /\
  (lm_waiters x', lm_blocked_by x') = (lm_waiters x, lm_blocked_by x) /\
  (lm_c_candidate x', lm_t_candidate x', lm_confirmation x') = (lm_c_candidate x, lm_t_candidate x, lm_confirmation x).

Lemma lanes_ok_same D x x' c : same_core x x' -> lanes_ok D (x, c) -> lanes_ok D (x', c).
Proof.
  intros ([= E1 E2 E3 E4 E5] & [= E6 E7 E8 E0] & [= E9 E10 E11 E12 E13] & [= E14 E15] & [= E16 E17 E18])
    [A1 A2 A3 A4 A5 A0 A6 A7 A8 A9 A10 A11 A12 A13]. cbn [fst snd] in *.
  split; unfold waiting_on in *; cbn [fst snd];
    rewrite ?E1, ?E2, ?E3, ?E4, ?E5, ?E6, ?E7, ?E8, ?E0, ?E9, ?E10, ?E11, ?E12, ?E13, ?E14, ?E15, ?E16, ?E17, ?E18; done.
Qed.

(** Both kinds of steps that keep the invariant for trivial reasons. *)
Definition calm (s : LS) (es : list Effect) (s' : LS) : Prop :=
  same_core s.1 s'.1 /\ (cache_ok s.2 -> lm_genesis s.1 = genesis -> cache_ok s'.2).

#[export] Instance calm_trace : TraceRel calm.
Proof.
  split; [by intros s|]. intros s1 s2 s3 es es' [H1 C1] [H2 C2]. unfold calm, same_core in *. split.
  - destruct H1 as (? & ? & ? & ? & ?), H2 as (? & ? & ? & ? & ?). split_and!; congruence.
  - intros Hc Hg. apply C2; [by apply C1|]. destruct H1 as ([= _ _ E _ _] & _). congruence.
Qed.

Lemma calm_ok D s es s' : calm s es s' -> lanes_ok D s -> lanes_ok D s'.
Proof.
  intros [Hs Hc] Hok. destruct s as [x c], s' as [x' c']. apply (lanes_ok_cache D x' c); [by apply (lanes_ok_same D x)|].
  apply Hc; [apply (lo_cache _ _ Hok)|]. by destruct (lo_config _ _ Hok) as (_ & _ & ? & _).
Qed.

Lemma calm_lanes : sat calm lanes.
Proof. by intros s. Qed.
Lemma calm_blocks : sat calm blocks.
Proof. by intros s. Qed.
Lemma calm_emit e : sat calm (emit e).
Proof. by intros s. Qed.
Lemma calm_on_lanes f : (forall x, same_core x (f x)) -> sat calm (on_lanes f).
Proof. intros Hf s. split; [apply Hf|done]. Qed.
Lemma calm_with_avail {A} (f : BlockCache -> M Effect AvailResolver A) : sat calm (with_avail f).
Proof. by intros s. Qed.

(** ** Checks against the cache *)

(** Steps that only memoise in the cache. *)
Definition memoises (s s' : LS) : Prop := s'.1 = s.1 /\ cache_ok s'.2.

Lemma memoises_ok D s s' : memoises s s' -> lanes_ok D s -> lanes_ok D s'.
Proof. destruct s, s'. intros [Hx Hc] Hok. cbn [fst snd] in *. subst. by eapply lanes_ok_cache. Qed.

Lemma verified_prefix_lineage c r : cache_ok c -> exact_entry r c = true ->
  (verified_prefix_through_genesis genesis (ref_digest r) c).1 = true -> ref_held r.
Proof.
  intros Hc. unfold exact_entry, verified_prefix_through_genesis.
  destruct (by_digest c !! ref_digest r) as [e|] eqn:He; [|done].
  intros [Ha%Z.eqb_eq Hh%Z.eqb_eq]%andb_true_iff. unfold ref_held, RepairSettle.ref_lineage. rewrite <- Ha, <- Hh.
  destruct (co_valid _ _ _ _ Hc _ _ He) as [Hid Hv]. intros Hpre. split; [|by apply valid_height in Hv]. revert Hpre.
  destruct (ent_chain_verified e) eqn:Hcv.
  - intros _. rewrite <- Hid. by apply (co_chain _ _ _ _ Hc _ _ He); left.
  - destruct (chain_walk _ _ _ _ _ _) as [[[] walked] m] eqn:Hw; [|done]. intros _.
    by apply (chain_walk_sound cm sid mbp) in Hw as [Hl _].
Qed.

Lemma check_walks_ok D s r : lanes_ok D s -> exact_entry r s.2 = true ->
  wp (check_walks r) s (fun res _ s' => memoises s s' /\ (res = Confirmed -> ref_held r)).
Proof.
  intros Hok Hex. unfold check_walks. apply wp_bind, wp_lanes, wp_bind, wp_with_blocks.
  destruct (lo_config _ _ Hok) as (_ & _ & -> & _). pose proof (lo_cache _ _ Hok) as Hc.
  pose proof (verified_prefix_ok cm sid mbp (ref_digest r) s.2 Hc) as Hc1.
  pose proof (verified_prefix_lineage s.2 r Hc Hex) as Hl.
  destruct (verified_prefix_through_genesis genesis (ref_digest r) s.2) as [[] c1]; cbn [fst snd negb] in *.
  - apply wp_bind, wp_with_blocks. cbn [fst snd]. apply wp_ret. split; [|by intros _; apply Hl].
    split; [done|]. cbn. by apply (direct_prefix_check_ok cm sid mbp).
  - apply wp_ret. by split.
Qed.

Lemma direct_pub_check_ok D s r : lanes_ok D s ->
  wp (direct_pub_check r) s (fun res _ s' => memoises s s' /\ (res = Confirmed -> ref_held r)).
Proof.
  intros Hok. unfold direct_pub_check. apply wp_bind, wp_lanes, wp_bind, wp_blocks.
  pose proof (lo_cache _ _ Hok) as Hc. destruct (exact_entry r s.2) eqn:Hex; cbn [negb]; [|by apply wp_ret].
  destruct (lm_prefix_blocker s.1 !! ref_digest r) as [b|]; [|by apply check_walks_ok with D].
  destruct (direct_gate_ready b s.2); cbn [negb]; [by apply check_walks_ok with D|by apply wp_ret].
Qed.

Lemma retain_walk_ok g n : forall cur c, cache_ok c -> cache_ok (retain_walk g n cur c).
Proof.
  induction n as [|n IH]; intros cur c Hc; cbn [retain_walk]; (case_match; [done|]); [done|].
  destruct (by_digest c !! cur) as [e|] eqn:He; [|done]. case_match; [done|]. apply IH.
  by apply (cache_exec_ok cm sid mbp Hbind (OpMarkRetained cur) c Hc).
Qed.

Lemma retain_prefix_ok s r : cache_ok s.2 -> wp (retain_prefix r) s (fun _ _ s' => memoises s s').
Proof.
  intros Hc. unfold retain_prefix. apply wp_bind, wp_lanes, wp_with_blocks. split; [done|]. by apply retain_walk_ok.
Qed.

Lemma lm_holds_prefix_ok D s r : lanes_ok D s ->
  wp (lm_holds_prefix r) s (fun res _ s' => memoises s s' /\ (res = true -> ref_held r)).
Proof.
  intros Hok. unfold lm_holds_prefix. apply wp_bind, wp_lanes, wp_bind, wp_blocks.
  destruct (lo_config _ _ Hok) as (_ & _ & -> & _). pose proof (lo_cache _ _ Hok) as Hc.
  destruct (exact_entry r s.2) eqn:Hex; cbn [negb]; [|by apply wp_ret]. apply wp_bind, wp_with_blocks.
  pose proof (verified_prefix_ok cm sid mbp (ref_digest r) s.2 Hc) as Hc1.
  pose proof (verified_prefix_lineage s.2 r Hc Hex) as Hl.
  destruct (verified_prefix_through_genesis genesis (ref_digest r) s.2) as [[] c1]; cbn [fst snd when] in *.
  - apply wp_bind. eapply wp_mono; [by apply retain_prefix_ok|]. intros [] es s' [Hx Hc']. apply wp_ret.
    split; [split; [done|done]|by intros _; apply Hl].
  - apply wp_bind, wp_skip, wp_ret. by split.
Qed.

Lemma lm_author_ok_ok D s r : lanes_ok D s -> wp (lm_author_ok r) s (fun _ _ s' => memoises s s').
Proof.
  intros Hok. unfold lm_author_ok. apply wp_bind, wp_lanes.
  case_match; [apply wp_ret; split; [done|apply (lo_cache _ _ Hok)]|]. unfold direct_pub. apply wp_bind.
  eapply wp_mono; [by apply (direct_pub_check_ok D)|]. intros res es s' [Hm _]. by apply wp_ret.
Qed.

Lemma lm_locally_available_ok D s r : lanes_ok D s -> wp (lm_locally_available r) s (fun _ _ s' => memoises s s').
Proof.
  intros Hok. unfold lm_locally_available. apply wp_bind. eapply wp_mono; [by apply (lm_holds_prefix_ok D)|].
  intros [] es s' [Hm _]; [by apply wp_ret|]. by apply wp_bind, wp_lanes, wp_ret.
Qed.

(** ** Registers *)

Lemma t_scan_elem ok l : forall current best r, t_scan ok current best l = Some r -> best = Some r \/ r ∈ l.
Proof.
  induction l as [|q l IH]; intros current best r; cbn [t_scan]; [by left|]. destruct (_ && _); [by left|].
  intros [H|H]%IH; [|by right; right]. destruct (ok q); [injection H as ->; right; left|by left].
Qed.

(** The candidates for the tips are references of their author. *)
Lemma tip_candidates_elem x b a c r :
  least_confirmation_candidate x b a c = Some r \/ newest_t_candidate x b a c = Some r ->
  ref_author r = a /\ (r ∈ lm_quorum_claim x \/ r ∈ lm_direct_pub x).
Proof.
  intros [H|H].
  - apply head_Some_elem_of in H. rewrite !list_elem_of_filter, elem_of_author_refs in H. naive_solver.
  - apply t_scan_elem in H as [H|H]; [done|]. rewrite elem_of_reverse, list_elem_of_filter, elem_of_author_refs in H. naive_solver.
Qed.

Lemma refresh_registers_ok D s a : lanes_ok D s ->
  wp (refresh_registers a) s (fun _ _ s' => lanes_ok (fun b => D b /\ b <> a) s').
Proof.
  intros [A1 A2 A3 A4 A5 A0 A6 A7 A8 A9 A10 A11 A12 A13]. unfold refresh_registers.
  apply wp_bind, wp_lanes, wp_bind, wp_blocks, wp_on_lanes. split; try done; cbn; unfold set_candidate.
  - intros b Hb. destruct (decide (b = a)) as [->|]; [by rewrite lookup_partial_alter_eq|].
    rewrite lookup_partial_alter_ne by done. apply A12. naive_solver.
  - intros b r. destruct (decide (b = a)) as [->|]; [|rewrite !lookup_partial_alter_ne by done; apply A13].
    rewrite !lookup_partial_alter_eq. intros [H|H];
      (destruct (tip_candidates_elem s.1 s.2 a _ r (ltac:(first [left; exact H|right; exact H]))) as [Ha [?|?]]; (split; [done|]); auto).
Qed.

(** Adding one confirmed reference of an author whose candidate may lag. *)
Lemma lanes_ok_add D x x' c r :
  lanes_ok D (x, c) -> r ∈ lm_acked x -> D (ref_author r) ->
  same_core x (x' <| lm_direct_pub := lm_direct_pub x |> <| lm_quorum_direct := lm_quorum_direct x |>
                  <| lm_quorum_claim := lm_quorum_claim x |> <| lm_own_watermark := lm_own_watermark x |>) ->
  lm_direct_pub x' = {[ r ]} ∪ lm_direct_pub x ->
  (lm_quorum_direct x' = lm_quorum_direct x \/ lm_quorum_direct x' = {[ r ]} ∪ lm_quorum_direct x) ->
  (forall q, q ∈ lm_quorum_claim x' -> q ∈ lm_quorum_claim x \/ q = r) ->
  lm_own_watermark x' =
    (if match lm_own_watermark x !! ref_author r with Some (h, _) => h <? ref_height r | None => true end
     then <[ ref_author r := (ref_height r, ref_digest r) ]> (lm_own_watermark x) else lm_own_watermark x) ->
  lanes_ok D (x', c).
Proof.
  intros [A1 A2 A3 A4 A5 A0 A6 A7 A8 A9 A10 A11 A12 A13] Hack HD (C1 & C2 & C3 & C4 & C5) Ed Eq Ec Ew. cbn in *.
  injection C1 as E1 E2 E3 E4 E5. injection C2 as E6 E7 E8 E0. injection C3 as E9. injection C4 as E10 E11. injection C5 as E12 E13 E14.
  set (adv := match lm_own_watermark x !! ref_author r with Some (h, _) => h <? ref_height r | None => true end) in Ew.
  split; unfold waiting_on in *; cbn [fst snd]; rewrite ?E1, ?E2, ?E3, ?E4, ?E5, ?E6, ?E7, ?E8, ?E0, ?E9, ?E10, ?E11, ?E12, ?E13, ?E14, ?Ed; try done.
  - intros q [->%elem_of_singleton|Hq]%elem_of_union; [done|by apply A6].
  - intros q Hq. apply elem_of_union. destruct Eq as [Eq|Eq]; rewrite Eq in Hq; [right; by apply A7|].
    apply elem_of_union in Hq as [?|?]; [by left|right; by apply A7].
  - intros q [Hq| ->]%Ec; apply elem_of_union; [right; by apply A8|left; by apply elem_of_singleton].
  - intros a h d. rewrite Ew. destruct adv; [|intros Hw; apply elem_of_union; right; by apply A9].
    intros [[<- [= <- <-]]|[_ Hw]]%lookup_insert_Some; apply elem_of_union; [left|right; by apply A9].
    apply elem_of_singleton. by destruct r as [[? ?] ?].
  - intros q [->%elem_of_singleton|Hq]%elem_of_union; rewrite Ew.
    + unfold adv. destruct (lm_own_watermark x !! ref_author r) as [[h d]|] eqn:E.
      * destruct (Z.ltb_spec h (ref_height r)); [rewrite lookup_insert_eq; do 2 eexists; (split; [done|lia])|].
        exists h, d. split; [done|lia].
      * rewrite lookup_insert_eq. do 2 eexists. split; [done|lia].
    + destruct (A10 q Hq) as (h & d & Hw & Hle). destruct adv eqn:Hadv; [|eauto].
      destruct (decide (ref_author q = ref_author r)) as [Heq|]; [|rewrite lookup_insert_ne by done; eauto].
      rewrite Heq, lookup_insert_eq. do 2 eexists. split; [done|]. unfold adv in Hadv. rewrite Heq in Hw. rewrite Hw in Hadv.
      apply Z.ltb_lt in Hadv. lia.
  - intros a Ha. rewrite (A12 a Ha). apply newest_indexed_ext. intros q Hq.
    destruct Eq as [->| ->]; [done|]. rewrite elem_of_union, elem_of_singleton. split; [by right|].
    intros [->|?]; [|done]. by rewrite Hq in HD.
  - intros a q Hq. apply A13 in Hq as [Ha Hq]. split; [done|]. apply elem_of_union. by right.
Qed.

Lemma record_direct_pub_ok D s r : lanes_ok D s -> r ∈ lm_acked s.1 -> D (ref_author r) ->
  wp (record_direct_pub r) s (fun _ _ s' => lanes_ok D s').
Proof.
  intros Hok Hack HD. destruct s as [x c]. unfold record_direct_pub. apply wp_on_lanes. cbn [fst snd].
  eapply (lanes_ok_add D x _ c r Hok Hack HD);
    (destruct (is_q_available _ _ _); destruct (is_exact_quorum _ _); cbn;
     destruct (lm_own_watermark x !! ref_author r) as [[h d]|] eqn:E; cbn; try (destruct (h <? ref_height r)); cbn);
    first [done|by left|by right|set_solver].
Qed.

Lemma on_direct_pub_confirmed_ok D s r : lanes_ok D s -> ref_held r -> D (ref_author r) ->
  wp (on_direct_pub_confirmed r) s (fun _ _ s' => lanes_ok D s').
Proof.
  intros Hok Hl HD. unfold on_direct_pub_confirmed. apply wp_bind.
  eapply wp_mono; [apply retain_prefix_ok, (lo_cache _ _ Hok)|]. intros [] es s1 Hm.
  apply (memoises_ok D) in Hm; [|done]. apply wp_bind, wp_on_lanes, wp_bind, wp_lanes, wp_bind, wp_emit.
  eapply wp_mono; [apply (record_direct_pub_ok D); [|cbn; set_solver|done]|by intros].
  destruct Hm as [A1 A2 A3 A4 A5 A0 A6 A7 A8 A9 A10 A11 A12 A13]. split; try done; cbn.
  - intros q [->%elem_of_singleton|Hq]%elem_of_union; [done|by apply A0].
  - intros q Hq%A6. set_solver.
Qed.

(** ** Deferred references *)

Lemma lanes_ok_deferred D x c w b :
  lanes_ok D (x, c) -> (forall r d, r ∈ default ∅ (w !! d) <-> b !! r = Some d) ->
  lanes_ok D (x <| lm_waiters := w |> <| lm_blocked_by := b |>, c).
Proof. intros [A1 A2 A3 A4 A5 A0 A6 A7 A8 A9 A10 A11 A12 A13] Hw. by split. Qed.

Lemma waiters_remove_spec d r m d' q :
  q ∈ default ∅ (waiters_remove d r m !! d') <-> q ∈ default ∅ (m !! d') /\ ~ (d' = d /\ q = r).
Proof.
  unfold waiters_remove. destruct (decide (d' = d)) as [->|Hne].
  - destruct (m !! d) as [w|] eqn:E; cbn.
    + case_decide as Hem; [rewrite lookup_delete_eq|rewrite lookup_insert_eq]; cbn; set_solver.
    + rewrite E. cbn. set_solver.
  - destruct (m !! d) as [w|] eqn:E; [case_decide; [rewrite lookup_delete_ne by done|rewrite lookup_insert_ne by done]|]; naive_solver.
Qed.

Lemma waiters_insert_spec d r m d' q :
  q ∈ default ∅ (waiters_insert d r m !! d') <-> q ∈ default ∅ (m !! d') \/ (d' = d /\ q = r).
Proof.
  unfold waiters_insert. destruct (decide (d' = d)) as [->|].
  - rewrite lookup_insert_eq. cbn. set_solver.
  - rewrite lookup_insert_ne by done. naive_solver.
Qed.

Lemma park_ok D s r d : lanes_ok D s -> wp (park_pending_direct_on r d) s (fun _ _ s' => lanes_ok D s').
Proof.
  intros Hok. destruct s as [x c]. apply wp_on_lanes. cbn [fst snd]. case_bool_decide; [done|].
  eapply lanes_ok_same; [|apply (lanes_ok_deferred D x c
    (waiters_insert d r (match lm_blocked_by x !! r with Some old => waiters_remove old r (lm_waiters x) | None => lm_waiters x end))
    (<[ r := d ]> (lm_blocked_by x)) Hok)]; [done|].
  pose proof (lo_waiters _ _ Hok) as Hw. unfold waiting_on in Hw. cbn in Hw. intros q d'. rewrite waiters_insert_spec.
  destruct (decide (q = r)) as [->|Hne].
  - rewrite lookup_insert_eq. destruct (lm_blocked_by x !! r) as [old|] eqn:E.
    + rewrite waiters_remove_spec, Hw, E. naive_solver.
    + rewrite Hw, E. naive_solver.
  - rewrite lookup_insert_ne by done. destruct (lm_blocked_by x !! r) as [old|] eqn:E.
    + rewrite waiters_remove_spec, Hw. naive_solver.
    + rewrite Hw. naive_solver.
Qed.

Lemma same_core_trans x y z : same_core x y -> same_core y z -> same_core x z.
Proof. unfold same_core. intros (? & ? & ? & ? & ?) (? & ? & ? & ? & ?). split_and!; congruence. Qed.

Lemma wake_one_core x r : same_core (x <| lm_blocked_by ::= delete r |>) (wake_one x r).
Proof.
  unfold wake_one. destruct (lm_blocked_by x !! r) eqn:E; [by repeat case_match|].
  split_and!; try done. cbn. by rewrite delete_id.
Qed.

Lemma wake_all_core R : forall x,
  same_core (x <| lm_blocked_by ::= filter (fun p => p.1 ∉ R) |>) (foldl wake_one x R).
Proof.
  induction R as [|r R IH]; intros x; cbn [foldl].
  - split_and!; try done. cbn. f_equal. symmetry. apply map_filter_id. set_solver.
  - eapply same_core_trans; [|apply IH]. destruct (wake_one_core x r) as (H1 & H2 & H3 & [= H4 H5] & H6).
    split_and!; try done. cbn. f_equal; [done|]. rewrite H5. cbn. apply map_eq. intros q.
    destruct (decide (q = r)) as [->|Hne].
    + rewrite !map_lookup_filter, lookup_delete_eq. cbn. destruct (lm_blocked_by x !! r); cbn; [|done].
      by rewrite option_guard_False by set_solver.
    + rewrite !map_lookup_filter, lookup_delete_ne by done. destruct (lm_blocked_by x !! q); cbn; [|done].
      repeat case_guard; set_solver.
Qed.

Lemma wake_ok D s d : lanes_ok D s -> wp (wake_pending_direct_blocker d) s (fun _ _ s' => lanes_ok D s').
Proof.
  intros Hok. unfold wake_pending_direct_blocker. apply wp_bind, wp_on_lanes, wp_bind, wp_lanes. cbn [fst snd].
  set (x := if bool_decide _ then _ else _). destruct s as [x0 c]. cbn [fst snd] in *.
  assert (lanes_ok D (x, c)) as Hx by (eapply lanes_ok_same; [|exact Hok]; unfold x; by case_match).
  destruct (lm_waiters x !! d) as [w|] eqn:Hw; [|by apply wp_ret]. apply wp_bind, wp_on_lanes, wp_ret. cbn [fst snd].
  eapply lanes_ok_same; [apply wake_all_core|]. cbn.
  eapply lanes_ok_same; [|apply (lanes_ok_deferred D x c (delete d (lm_waiters x))
    (filter (fun p => p.1 ∉ set_iter w) (lm_blocked_by x)) Hx)]; [done|].
  pose proof (lo_waiters _ _ Hx) as Hwt. unfold waiting_on in Hwt. cbn in Hwt. intros r d'.
  rewrite map_lookup_filter_Some. cbn. rewrite elem_of_set_iter. destruct (decide (d' = d)) as [->|].
  - rewrite lookup_delete_eq. cbn. specialize (Hwt r d). rewrite Hw in Hwt. cbn in Hwt. set_solver.
  - rewrite lookup_delete_ne by done. rewrite Hwt. specialize (Hwt r d). rewrite Hw in Hwt. cbn in Hwt.
    split; [|naive_solver]. intros H1. split; [done|]. intros H2%Hwt. congruence.
Qed.

Lemma enqueue_ok D s r : lanes_ok D s -> wp (enqueue_pending_direct r) s (fun _ _ s' => lanes_ok D s').
Proof.
  intros Hok. unfold enqueue_pending_direct. apply wp_bind, wp_lanes. case_match; [by apply wp_skip|].
  assert (forall s, lanes_ok D s -> wp (on_lanes (fun x => x <| lm_pending_direct ::= union {[ r ]} |>)) s
    (fun _ _ s' => lanes_ok D s')) as Hin.
  { intros [x c] Hs. apply wp_on_lanes. by eapply lanes_ok_same; [|exact Hs]. }
  apply wp_bind. unfold inherited_direct_prefix_blocker. apply wp_bind, wp_lanes, wp_bind, wp_blocks.
  destruct (by_digest s.2 !! ref_digest r) as [e|]; [|by apply wp_ret, Hin].
  destruct (lm_prefix_blocker s.1 !! parent (ent_block e)) as [b|]; [|by apply wp_ret, Hin].
  destruct (direct_gate_ready b s.2); cbn [negb]; [|by apply wp_ret, park_ok].
  apply wp_bind, wp_on_lanes, wp_ret, Hin. destruct s as [x c]. by eapply lanes_ok_same; [|exact Hok].
Qed.

(** ** Refreshing

    A confirmed reference may leave its author's candidate behind, which the
    refresh of the registers at the end makes up for. *)

Definition plus (D : PublicKey -> Prop) (b : bool) (a : PublicKey) : PublicKey -> Prop := fun x => D x \/ (b = true /\ x = a).

Lemma refresh_one_ok D s r : lanes_ok D s ->
  wp (refresh_one r) s (fun b _ s' => lanes_ok (plus D b (ref_author r)) s').
Proof.
  assert (forall D' s', lanes_ok D' s' -> lanes_ok (plus D' false (ref_author r)) s') as Hno.
  { intros D' s' Hs. eapply lanes_ok_weaken; [exact Hs|]. by left. }
  intros Hok. unfold refresh_one. apply wp_bind, wp_lanes. case_bool_decide.
  { apply wp_bind, wp_on_lanes, wp_ret, Hno. destruct s as [x c]. by eapply lanes_ok_same; [|exact Hok]. }
  apply wp_bind. eapply wp_mono; [by apply (direct_pub_check_ok D)|]. intros res es s1 [Hm Hl].
  apply (memoises_ok D) in Hm; [|done]. destruct s1 as [x c].
  destruct res as [|b|]; [| |by apply wp_ret, Hno]; apply wp_bind.
  - apply wp_on_lanes, wp_bind.
    eapply wp_mono; [apply (on_direct_pub_confirmed_ok (plus D true (ref_author r))); [|by apply Hl|by right]|by intros; apply wp_ret].
    eapply lanes_ok_weaken; [eapply lanes_ok_same; [|exact Hm]; done|by left].
  - unfold block_pending_direct_on. apply wp_bind, wp_on_lanes.
    eapply wp_mono; [apply (park_ok D)|by intros; apply wp_ret, Hno]. by eapply lanes_ok_same; [|exact Hm].
Qed.

Lemma refresh_all_ok a refs : Forall (fun r => ref_author r = a) refs -> forall D s, lanes_ok D s ->
  wp (refresh_all refs) s (fun b _ s' => lanes_ok (plus D b a) s').
Proof.
  induction 1 as [|r refs <- _ IH]; intros D s Hok; cbn [refresh_all].
  { apply wp_ret. eapply lanes_ok_weaken; [exact Hok|]. by left. }
  apply wp_bind. eapply wp_mono; [by apply refresh_one_ok|]. intros b es s1 Hs1. apply wp_bind.
  eapply wp_mono; [exact (IH _ _ Hs1)|]. intros b' es' s2 Hs2. apply wp_ret. eapply lanes_ok_weaken; [exact Hs2|].
  unfold plus. intros x. destruct b; naive_solver.
Qed.

Lemma scan_refs_subset after refs r : r ∈ scan_refs after refs -> r ∈ refs.
Proof.
  assert (forall k (l : list BlockRef), r ∈ take k l -> r ∈ l) as Ht.
  { intros k l (i & Hi & _)%elem_of_take. by apply list_elem_of_lookup_2 in Hi. }
  unfold scan_refs. destruct after as [b|]; [|apply Ht].
  rewrite elem_of_app. intros [H|H]; apply Ht, list_elem_of_filter in H as [_ ?]; done.
Qed.

Lemma refresh_author_ok D s a : lanes_ok D s -> wp (refresh_author a) s (fun _ _ s' => lanes_ok D s').
Proof.
  intros Hok. unfold refresh_author. apply wp_bind, wp_lanes, wp_bind, wp_on_lanes, wp_bind.
  destruct s as [x c]. cbn [fst snd]. eapply wp_mono; [apply (refresh_all_ok a)|].
  - apply Forall_forall. intros r Hr%scan_refs_subset. by apply elem_of_author_refs in Hr as [_ ?].
  - eapply lanes_ok_same; [|exact Hok]. done.
  - intros [] es s1 Hs1; cbn [when].
    + eapply wp_mono; [by apply refresh_registers_ok|]. intros [] es' s2 Hs2.
      eapply lanes_ok_weaken; [exact Hs2|]. by intros y [[?|[_ ?]] ?].
    + apply wp_skip. eapply lanes_ok_weaken; [exact Hs1|]. by intros y [?|[? _]].
Qed.

Lemma for_each_ok {A} (f : A -> LM ()) D l : (forall a s, lanes_ok D s -> wp (f a) s (fun _ _ s' => lanes_ok D s')) ->
  forall s, lanes_ok D s -> wp (for_each f l) s (fun _ _ s' => lanes_ok D s').
Proof.
  intros Hf. induction l as [|a l IH]; intros s Hok; cbn [for_each]; [by apply wp_skip|].
  apply wp_bind. eapply wp_mono; [by apply Hf|]. intros [] es s1 Hs1. eapply wp_mono; [by apply IH|by intros].
Qed.

Lemma refresh_woken_ok D s d : lanes_ok D s -> wp (refresh_woken_pending_direct d) s (fun _ _ s' => lanes_ok D s').
Proof.
  intros Hok. unfold refresh_woken_pending_direct. apply wp_bind. eapply wp_mono; [by apply (wake_ok D)|].
  intros authors es s1 Hs1. eapply wp_mono; [apply (for_each_ok _ D); [|done]|by intros].
  intros a s' Hs'. by apply refresh_author_ok.
Qed.
End inv.
