(* ===== verification/LaneRuns.v ===== *)
(** Runs of the lane manager.

    [LaneEvent] lists the calls the node makes on the manager and what else touches
    the shared cache, [lane_reaches] the states and effects they lead to.  Every
    reachable state satisfies [lanes_ok]. *)

From S2P Require Import Prelude Committee Types Fixtures Blocks BlockChains Acks Avail Repair RepairSettle Lanes LaneOrder LaneInv.

Section handlers.
Context {Hash : Hashing} (cm : Committee) (sid : Digest) (mbp : Z) (name : PublicKey).
Context (Hbind : header_binding cm sid mbp).
Abbreviation genesis := (genesis_digest sid) (only parsing).
Abbreviation cache_ok := (cache_ok cm sid mbp) (only parsing).
Abbreviation valid := (valid cm sid mbp) (only parsing).
Abbreviation lineage := (lineage cm sid mbp) (only parsing).
Abbreviation ref_lineage := (ref_lineage cm sid mbp) (only parsing).
Abbreviation lanes_ok := (lanes_ok cm sid mbp name) (only parsing).
Abbreviation frontier_ok := (frontier_ok cm sid mbp name) (only parsing).
Abbreviation LS := (LaneManager * BlockCache)%type (only parsing).
Abbreviation keeps m := (forall D s, lanes_ok D s -> wp m s (fun _ _ s' => lanes_ok D s')).

(** ** Blocks *)

Lemma cache_step_ok op D x c : cache_op_ok cm sid mbp op -> lanes_ok D (x, c) -> lanes_ok D (x, cache_exec sid op c).
Proof.
  intros Hop Hok. eapply lanes_ok_cache; [exact Hok|]. apply (cache_exec_ok cm sid mbp Hbind); [apply (lo_cache _ _ _ _ _ _ Hok)|done].
Qed.

Lemma process_publish_ok stored sender h : typed_header h -> keeps (process_publish_inner stored sender h).
Proof.
  intros Ht D s Hok. unfold process_publish_inner. apply wp_bind, wp_lanes. case_match; [by apply wp_skip|].
  destruct (block_ok _ _ _ _) eqn:Hb; cbn [negb]; [|by apply wp_skip].
  destruct (lo_config _ _ _ _ _ _ Hok) as (Ec & Es & _ & Em & _). rewrite Ec, Es, Em in Hb.
  apply wp_bind, wp_with_blocks. cbn [fst snd]. destruct s as [x c]. cbn [fst snd].
  set (direct := sender =? hd_author h). set (ready := bool_decide _).
  apply (cache_step_ok (OpUpsert h direct false ready)) in Hok; [|done].
  apply wp_bind. eapply (wp_mono _ _ (fun _ _ s' => lanes_ok D s')).
  { case_match; [by apply (enqueue_ok cm sid mbp name)|]. case_match; [|by apply wp_skip].
    apply wp_on_lanes. by eapply lanes_ok_same; [|exact Hok]. }
  intros [] es s1 Hs1. apply wp_bind, wp_emit, wp_bind.
  eapply (wp_mono _ _ (fun _ _ s' => lanes_ok D s')); [unfold when; case_match; [by apply wp_emit|by apply wp_skip]|].
  intros [] es' s2 Hs2. apply wp_bind. eapply wp_mono; [by eapply refresh_author_ok|].
  intros [] es'' s3 Hs3. unfold when. case_match; [|by apply wp_skip]. eapply wp_mono; [by eapply refresh_woken_ok|by intros].
Qed.

Lemma set_payload_ready_ok d : keeps (set_payload_ready d).
Proof.
  intros D s Hok. unfold set_payload_ready. apply wp_bind, wp_with_blocks, wp_bind, wp_blocks. cbn [fst snd].
  destruct s as [x c]. apply (cache_step_ok (OpSetPayloadOk d true)) in Hok; [|done]. cbn [fst snd cache_exec] in *.
  set (c' := (set_payload_ok d true c).2) in *. apply wp_bind. eapply (wp_mono _ _ (fun _ _ s' => lanes_ok D s')).
  { destruct (by_digest c' !! d) as [e|]; [|by apply wp_skip]. unfold when. case_match; [|by apply wp_skip]. apply wp_bind.
    eapply wp_mono; [by apply (enqueue_ok cm sid mbp name Hbind D)|]. intros [] es s1 Hs1.
    eapply wp_mono; [by eapply refresh_author_ok|by intros]. }
  intros [] es s1 Hs1. unfold when. case_match; [|by apply wp_skip]. eapply wp_mono; [by eapply refresh_woken_ok|by intros].
Qed.
(** ** The own lane *)

(** What the node ensures of its payloads, and that its numbers fit their types. *)
Definition publishable (x : LaneManager) (payload : gmap Digest WorkerId) : Prop :=
  is_digest name /\ is_digest (lm_own_frontier x).2 /\ (lm_own_frontier x).1 < u64_max /\
  Z.of_nat (size payload) <= mbp /\ 0 < stake cm name /\
  forallb (fun p => worker cm name p.2) (map_iter payload) = true.

Definition next_header (x : LaneManager) (payload : gmap Digest WorkerId) : Header :=
  new_vantage name ((lm_own_frontier x).1 + 1) payload (lm_own_frontier x).2 sid.

Lemma next_header_valid x payload : frontier_ok (lm_own_frontier x) -> publishable x payload -> valid (next_header x payload).
Proof.
  intros [Hf _] (Hn & Hd & Hh & Hs & Hst & Hw). split.
  { split_and!; try done. unfold is_u64. cbn. lia. }
  unfold next_header, new_vantage, block_ok. cbn [hd_id hd_sid hd_payload hd_height hd_parent_cert cert_height hd_signature
    cert_votes hd_consensus_messages hd_num_active_instances hd_special hd_author].
  unfold u64_saturating_sub. rewrite Hw, Z.eqb_refl, !bool_decide_eq_true_2, u64_add_small by (done || lia).
  repeat (apply andb_true_iff; split); try done; lia.
Qed.

Lemma next_header_lineage x payload : genesis_apart cm sid mbp -> frontier_ok (lm_own_frontier x) -> publishable x payload ->
  frontier_ok (hd_height (next_header x payload), hd_id (next_header x payload)).
Proof.
  intros Hgen Hf Hp. pose proof (next_header_valid x payload Hf Hp) as Hv. destruct Hf as [Hf Hl].
  assert (Z.to_nat ((lm_own_frontier x).1 + 1) = S (Z.to_nat (lm_own_frontier x).1)) as Hn by lia.
  split; [cbn; lia|]. cbn [fst snd]. change (hd_height (next_header x payload)) with ((lm_own_frontier x).1 + 1).
  rewrite Hn. apply lineage_block; [by apply Hgen|done|done|cbn; lia|exact Hl].
Qed.

(** The header [publish_own] builds. *)
Lemma next_header_built D x c payload height prev : lanes_ok D (x, c) -> publishable x payload -> lm_own_frontier x = (height, prev) ->
  new_vantage (lm_name x) (u64_add height 1) payload prev (lm_sid x) = next_header x payload /\
  u64_add height 1 = hd_height (next_header x payload).
Proof.
  intros Hok (_ & _ & Hh & _) Ef. destruct (lo_frontier _ _ _ _ _ _ Hok) as [Hf _]. unfold next_header.
  destruct (lo_config _ _ _ _ _ _ Hok) as (_ & Es & _ & _ & En). cbn [fst snd] in *. rewrite Ef, En, Es in *. cbn [fst snd] in *.
  by rewrite u64_add_small by lia.
Qed.

(** The state after the writes. *)
Lemma persisted_ok D x x' c h : lanes_ok D (x, c) -> frontier_ok (hd_height h, hd_id h) -> valid h ->
  x' = x <| lm_own_frontier := (hd_height h, hd_id h) |>
         <| lm_store_frontier := Some (mkPersistedFrontier (lm_sid x) (hd_height h) (hd_id h)) |> ->
  lanes_ok D (x', c) /\ lanes_ok D (x' <| lm_store_header := Some (mkPersistedFrontierHeader (lm_sid x) h) |>, c).
Proof.
  intros [A1 A2 A3 A4 A5 A0 A6 A7 A8 A9 A10 A11 A12 A13] Hf Hv ->.
  split; split; try done; cbn.
  - intros rec [[= <-]|Hr]; [done|]. apply A4. by right.
  - intros rec [[= <-]|Hr]; [done|]. apply A4. by right.
  - intros rec [[= <-]|Hr]; [apply Hv|]. apply A5. by right.
Qed.

Lemma publish_own_ok payload D s : genesis_apart cm sid mbp -> lanes_ok D s -> publishable s.1 payload ->
  wp (publish_own payload) s (fun h es s' => lanes_ok D s' /\ h = next_header s.1 payload).
Proof.
  intros Hgen Hok Hp. destruct s as [x c]. pose proof (lo_frontier _ _ _ _ _ _ Hok) as Hf. cbn [fst snd] in *.
  pose proof (next_header_valid x payload Hf Hp) as Hv. pose proof (next_header_lineage x payload Hgen Hf Hp) as Hnew.
  unfold publish_own. apply wp_bind, wp_lanes. cbn [fst snd]. destruct (lm_own_frontier x) as [height prev] eqn:Ef.
  destruct (next_header_built D x c payload height prev Hok Hp Ef) as [-> ->]. set (h := next_header x payload) in *.
  apply wp_bind, wp_on_lanes, wp_bind, wp_bind, wp_on_lanes, wp_on_lanes, wp_bind. cbn [fst snd].
  eapply wp_mono; [apply (process_publish_ok _ _ _ (proj1 Hv) D), (persisted_ok D x _ c h Hok Hnew Hv); done|].
  intros [] es s' Hs'. by apply wp_bind, wp_emit, wp_ret.
Qed.

Lemma seed_own_anchor_ok : keeps seed_own_anchor_from_store.
Proof.
  intros D s Hok. unfold seed_own_anchor_from_store. apply wp_bind, wp_lanes.
  destruct (lm_store_header s.1) as [rec|] eqn:Hrec; [|by apply wp_skip]. set (h := pfh_header rec).
  case_match; [by apply wp_skip|]. destruct (_ || _) eqn:Hm; [by apply wp_skip|].
  destruct (block_ok h _ _ _) eqn:Hb; cbn [negb]; [|by apply wp_skip].
  apply orb_false_iff in Hm as [Ha%negb_false_iff%Z.eqb_eq Hf%negb_false_iff%bool_decide_eq_true].
  destruct (lo_config _ _ _ _ _ _ Hok) as (Ec & Es & _ & Em & En). rewrite Ec, Es, Em in Hb. rewrite En in Ha.
  pose proof (lo_stored_header _ _ _ _ _ _ Hok _ (or_introl Hrec)) as Ht. destruct (lo_frontier _ _ _ _ _ _ Hok) as [_ Hl].
  apply wp_bind, wp_with_blocks, wp_on_lanes. destruct s as [x c]. cbn [fst snd].
  apply (cache_step_ok (OpSeedOwn h)) in Hok.
  - by eapply lanes_ok_same; [|exact Hok].
  - split; [done|]. cbn [fst snd] in *. rewrite <- Hf in Hl. cbn [fst snd] in Hl. by rewrite Ha.
Qed.

Lemma restore_own_frontier_ok : keeps restore_own_frontier.
Proof.
  intros D s Hok. unfold restore_own_frontier. apply wp_bind, wp_lanes.
  destruct (lm_store_frontier s.1) as [rec|] eqn:Hrec; [|by apply wp_skip]. repeat (case_match; [by apply wp_skip|]).
  apply wp_bind, wp_on_lanes. eapply wp_mono; [apply (seed_own_anchor_ok D)|by intros].
  pose proof (lo_stored _ _ _ _ _ _ Hok _ (or_introl Hrec)) as Hf. destruct s as [x c]. cbn [fst snd] in *.
  destruct Hok as [A1 A2 A3 A4 A5 A0 A6 A7 A8 A9 A10 A11 A12 A13]. by split.
Qed.

Lemma restarted_ok D x c : lanes_ok D (x, c) -> lanes_ok (fun _ => False) (restarted x, cache_new).
Proof.
  intros [A1 (E1 & E2 & E3 & E4 & E5) A3 A4 A5 A0 A6 A7 A8 A9 A10 A11 A12 A13]. cbn [fst snd] in *.
  split; cbn [fst snd]; try done; try (intros r Hr; by apply not_elem_of_empty in Hr).
  - apply cache_ok_new.
  - cbn. rewrite E3. split; [done|]. apply lineage_genesis.
  - intros rec Hr. apply A4. right. by destruct Hr.
  - intros rec Hr. apply A5. right. by destruct Hr.
  - intros a r. cbn. rewrite !lookup_empty. by intros [?|?].
Qed.

Lemma flush_pending_ok D s : lanes_ok D s -> lanes_ok D (st (flush_pending s)).
Proof.
  intros [A1 A2 A3 A4 A5 A0 A6 A7 A8 A9 A10 A11 A12 A13]. split; try done; cbn.
  - intros rec Hr. apply A4. left. by destruct Hr.
  - intros rec Hr. apply A5. left. by destruct Hr.
Qed.

(** ** Recovery of the own lane *)

Lemma elem_of_others r X : r ∈ others name X <-> r ∈ X /\ ref_author r <> name.
Proof. unfold others. rewrite elem_of_filter. naive_solver. Qed.

Lemma others_waiters (m : gmap Digest (gset BlockRef)) d r :
  r ∈ default ∅ (filter (fun p => p.2 <> ∅) (others name <$> m) !! d) <-> r ∈ default ∅ (m !! d) /\ ref_author r <> name.
Proof.
  rewrite map_lookup_filter, lookup_fmap. destruct (m !! d) as [w|]; cbn; [|set_solver].
  case_guard as Hne; cbn; rewrite <- elem_of_others; [done|]. set_solver.
Qed.

Lemma newest_of_anchor anchor X a :
  ref_author anchor = name -> newest_indexed ({[ anchor ]} ∪ others name X) a =
    if decide (a = name) then Some anchor else newest_indexed X a.
Proof.
  intros Ha. case_decide as Hd; [subst a|].
  - pose proof (newest_indexed_spec ({[ anchor ]} ∪ others name X) name) as Hs.
    destruct (newest_indexed _ name) as [r|].
    + destruct Hs as ([->%elem_of_singleton|[_ Hr]%elem_of_others]%elem_of_union & Hn & _); done.
    + exfalso. apply (Hs anchor); [set_solver|done].
  - apply newest_indexed_ext. intros r <-. rewrite elem_of_union, elem_of_singleton, elem_of_others.
    split; [intros [->|[? _]]; done|by right].
Qed.

(** The state [recover_own_frontier] ends in. *)
Lemma recovered_ok D x x' c c' h :
  lanes_ok D (x, c) -> cache_ok c' -> typed_header h -> ref_held cm sid mbp (name, hd_height h, hd_id h) -> 0 <= hd_height h ->
  let anchor : BlockRef := (name, hd_height h, hd_id h) in
  (lm_committee x', lm_sid x', lm_genesis x', lm_max_block_payload x', lm_name x') =
    (lm_committee x, lm_sid x, lm_genesis x, lm_max_block_payload x, lm_name x) ->
  lm_own_frontier x' = (hd_height h, hd_id h) ->
  lm_store_frontier x' = Some (mkPersistedFrontier (lm_sid x) (hd_height h) (hd_id h)) ->
  lm_store_header x' = Some (mkPersistedFrontierHeader (lm_sid x) h) -> lm_disk x' = lm_disk x ->
  lm_acked x' = {[ anchor ]} ∪ others name (lm_acked x) ->
  lm_direct_pub x' = {[ anchor ]} ∪ others name (lm_direct_pub x) ->
  lm_quorum_claim x' = {[ anchor ]} ∪ others name (lm_quorum_claim x) ->
  lm_quorum_direct x' = {[ anchor ]} ∪ others name (lm_quorum_direct x) ->
  lm_own_watermark x' = <[ name := (hd_height h, hd_id h) ]> (lm_own_watermark x) ->
  lm_c_candidate x' = <[ name := anchor ]> (delete name (lm_c_candidate x)) ->
  lm_t_candidate x' = delete name (lm_t_candidate x) -> lm_confirmation x' = delete name (lm_confirmation x) ->
  lm_waiters x' = filter (fun p => p.2 <> ∅) (others name <$> lm_waiters x) ->
  lm_blocked_by x' = filter (fun p => ref_author p.1 <> name) (lm_blocked_by x) ->
  lanes_ok D (x', c').
Proof.
  intros [A1 A2 A3 A4 A5 A0 A6 A7 A8 A9 A10 A11 A12 A13] Hc Ht [Hl Hl1] Hh anchor [= E1 E2 E3 E4 E5] Ef Es Eh Edk Ea Ed Ec Eq Ew Ecc Etc Ecf Ewt Eb.
  cbn [fst snd] in *.
  assert (forall X Y : gset BlockRef, (forall r, r ∈ X -> r ∈ Y) ->
    forall r, r ∈ ({[ anchor ]} ∪ others name X : gset BlockRef) -> r ∈ ({[ anchor ]} ∪ others name Y : gset BlockRef)) as Hsub.
  { intros X Y HXY r. rewrite !elem_of_union, !elem_of_others. naive_solver. }
  split; unfold waiting_on in *; cbn [fst snd];
    rewrite ?E1, ?E2, ?E3, ?E4, ?E5, ?Ef, ?Es, ?Eh, ?Edk, ?Ea, ?Ed, ?Ec, ?Eq; try done; try (by apply Hsub).
  - intros rec [[= <-]|Hr]; [done|]. apply A4. by right.
  - intros rec [[= <-]|Hr]; [done|]. apply A5. by right.
  - intros r [->%elem_of_singleton|[Hr _]%elem_of_others]%elem_of_union; [by split|by apply A0].
  - intros a hh d. rewrite Ew, elem_of_union, elem_of_others, elem_of_singleton.
    intros [[<- [= <- <-]]|[Hne Hw]]%lookup_insert_Some; [by left|right]. by split; [apply A9|].
  - intros r [->%elem_of_singleton|[Hr Hne]%elem_of_others]%elem_of_union; rewrite Ew.
    + rewrite lookup_insert_eq. do 2 eexists. split; [done|]. cbn. lia.
    + rewrite lookup_insert_ne by done. by apply A10.
  - intros r d. rewrite Ewt, Eb, others_waiters, A11, map_lookup_filter_Some. done.
  - intros a Ha. rewrite Ecc, (newest_of_anchor anchor) by done. case_decide; [subst; by rewrite lookup_insert_eq|].
    rewrite lookup_insert_ne, lookup_delete_ne by done. by apply A12.
  - intros a r. rewrite Etc, Ecf, !lookup_delete_Some, elem_of_union, elem_of_others.
    intros [[Hne Hr]|[Hne Hr]]; (destruct (A13 a r) as [<- Hd]; [by auto|]; (split; [done|]); right; done).
Qed.

(** The header of a certified checkpoint has a lineage. *)
Lemma recover_own_frontier_ok h D s : typed_header h -> ref_lineage (hd_author h, hd_height h, hd_id h) ->
  lanes_ok D s -> wp (recover_own_frontier h) s (fun _ _ s' => lanes_ok D s').
Proof.
  intros Ht Hl Hok. unfold recover_own_frontier. apply wp_bind, wp_lanes.
  destruct (_ || _ || _) eqn:Hg; [by apply wp_ret|]. case_match; [by apply wp_ret|].
  rewrite !orb_false_iff, !negb_false_iff, Z.eqb_eq in Hg. destruct Hg as ((Ha & Hh) & Hb).
  destruct (lo_config _ _ _ _ _ _ Hok) as (Ec & Es & _ & Em & En). rewrite Ec, Es, Em in Hb. rewrite En in Ha.
  destruct s as [x c]. cbn [fst snd] in *. rewrite En.
  set (anchor := (name, hd_height h, hd_id h) : BlockRef).
  assert (valid h) as Hv by done.
  assert (ref_held cm sid mbp anchor) as Hla by (split; [by rewrite Ha in Hl|by apply (valid_height cm sid mbp)]).
  apply wp_bind, wp_on_lanes, wp_bind, wp_with_blocks, wp_bind, wp_with_avail, wp_bind, wp_on_lanes, wp_bind, wp_with_avail,
    wp_bind, wp_on_lanes, wp_bind, wp_bind, wp_on_lanes, wp_on_lanes, wp_ret. cbn [fst snd].
  assert (cache_ok (seed_recovered_own_anchor h c)) as Hc.
  { apply (cache_exec_ok cm sid mbp Hbind (OpSeedRecovered h)); [apply (lo_cache _ _ _ _ _ _ Hok)|done]. }
  eapply (recovered_ok D x _ c _ h); first [done|apply Ht|cbn; by rewrite ?En].
Qed.
(** ** Availability *)

(** Promoting direct references to the core of authors whose candidates may lag. *)
Lemma lanes_ok_promote D D' x c (X C : gset BlockRef) :
  lanes_ok D (x, c) -> X ⊆ lm_direct_pub x -> C ⊆ lm_direct_pub x ->
  (forall r, r ∈ X -> r ∉ lm_quorum_direct x -> D' (ref_author r)) -> (forall a, D a -> D' a) ->
  lanes_ok D' (x <| lm_quorum_claim ::= union C |> <| lm_quorum_direct ::= union X |>, c).
Proof.
  intros [A1 A2 A3 A4 A5 A0 A6 A7 A8 A9 A10 A11 A12 A13] HX HC HD HDD. split; try done; cbn in *.
  - intros r [?|?]%elem_of_union; auto.
  - intros r [?|?]%elem_of_union; auto.
  - intros a Ha. rewrite A12 by naive_solver. apply newest_indexed_ext. intros r Hr. rewrite elem_of_union.
    split; [by right|]. intros [HrX|]; [|done]. destruct (decide (r ∈ lm_quorum_direct x)) as [|Hn]; [done|].
    exfalso. apply Ha. rewrite <- Hr. by apply HD.
Qed.

Lemma refresh_list_ok l : forall D s, lanes_ok D s ->
  wp (for_each refresh_registers l) s (fun _ _ s' => lanes_ok (fun a => D a /\ a ∉ l) s').
Proof.
  induction l as [|a l IH]; intros D s Hok; cbn [for_each].
  { apply wp_skip. eapply lanes_ok_weaken; [exact Hok|]. intros a Ha. split; [done|apply not_elem_of_nil]. }
  apply wp_bind. eapply wp_mono; [by apply refresh_registers_ok|]. intros [] es s1 Hs1.
  eapply wp_mono; [by apply IH|]. intros [] es' s2 Hs2. eapply lanes_ok_weaken; [exact Hs2|].
  intros b [[HD Hb] Hl]. split; [done|]. by intros [?|?]%elem_of_cons.
Qed.

Lemma process_availability_ok a promote : keeps (process_availability a promote).
Proof.
  intros D s Hok. unfold process_availability. apply wp_bind, wp_lanes.
  match goal with |- wp (if ?b then _ else _) _ _ => destruct b end.
  { by apply wp_skip. }
  apply wp_bind, wp_on_lanes, wp_bind, wp_with_avail, wp_bind, wp_on_lanes. destruct s as [x c]. cbn [fst snd].
  set (r := av_reference a). set (x1 := _ <| lm_avail_high ::= _ |>).
  assert (lanes_ok D (x1, c)) as H1 by (by eapply lanes_ok_same; [|exact Hok]).
  destruct (threshold_le Quorum (av_threshold a) && bool_decide (r ∈ lm_direct_pub x)) eqn:Hq; cbn [when]; [|by apply wp_skip].
  apply andb_true_iff in Hq as [_ Hr%bool_decide_eq_true].
  apply wp_bind, wp_on_lanes. cbn [fst snd].
  set (l := negb _ || _).
  assert (forall b : bool, (b = false -> promote = true -> r ∈ lm_quorum_direct x) ->
    lanes_ok (plus D b (ref_author r)) (x1 <| lm_quorum_claim ::= union {[ r ]} |>
      <| lm_quorum_direct ::= (if promote then union {[ r ]} else id) |>, c)) as H2.
  { intros b Hb. eapply lanes_ok_same; [|apply (lanes_ok_promote D (plus D b (ref_author r)) x1 c
      (if promote then {[ r ]} else ∅) {[ r ]})]; try done.
    - destruct promote; [done|]. split_and!; try done. cbn. f_equal. f_equal. f_equal. by rewrite (left_id_L ∅ (∪)).
    - destruct promote; cbn; set_solver.
    - cbn. set_solver.
    - intros q Hq Hn. right. destruct promote; [|set_solver]. apply elem_of_singleton in Hq as ->. split; [|done].
      destruct b; [done|]. exfalso. by apply Hn, Hb.
    - by left. }
  destruct l eqn:El; cbn [when].
  - eapply wp_mono; [apply refresh_registers_ok, (H2 true); done|]. intros [] es s' Hs'.
    eapply lanes_ok_weaken; [exact Hs'|]. by intros b [[?|[_ ?]] ?].
  - apply wp_skip. eapply lanes_ok_weaken; [apply (H2 false)|by intros b [?|[? _]]]. intros _ ->.
    unfold l in El. apply orb_false_iff in El as [_ El]. cbn in El. by apply negb_false_iff, bool_decide_eq_true in El.
Qed.

Lemma promote_all_core l : forall x,
  same_core (x <| lm_quorum_direct ::= union (list_to_set (filter (fun r => r ∈ lm_direct_pub x) l)) |>)
    (foldl (fun x r => promote_exact r x) x l).
Proof.
  induction l as [|r l IH]; intros x; cbn [foldl].
  - split_and!; try done. cbn. by rewrite (left_id_L ∅ (∪)).
  - eapply same_core_trans; [|apply IH]. unfold promote_exact. rewrite filter_cons. case_bool_decide as Hr.
    + rewrite decide_True by done. split_and!; try done. cbn. f_equal. f_equal. f_equal. set_solver.
    + by rewrite decide_False.
Qed.

Lemma lm_note_claim_ok sender claims : keeps (lm_note_claim sender claims).
Proof.
  intros D s Hok. unfold lm_note_claim. apply wp_bind, wp_with_avail, wp_bind, wp_lanes. cbn [fst snd].
  destruct s as [x c]. cbn [fst snd]. set (x1 := x <| lm_avail := _ |>).
  set (exact := cc_newly_exact_quorum _). set (changed := list_to_set _ : gset PublicKey).
  assert (lanes_ok D (x1, c)) as H1 by (by eapply lanes_ok_same; [|exact Hok]).
  apply wp_bind, wp_on_lanes, wp_bind. cbn [fst snd].
  eapply wp_mono; [apply (refresh_list_ok _ (fun a => D a \/ a ∈ changed))|].
  - eapply lanes_ok_same; [apply promote_all_core|]. eapply lanes_ok_same; [|apply (lanes_ok_promote D _ x1 c
      (list_to_set (filter (fun r => r ∈ lm_direct_pub x1) exact)) ∅ H1)].
    + split_and!; try done. cbn. by rewrite (left_id_L ∅ (∪)).
    + intros r. rewrite elem_of_list_to_set, list_elem_of_filter. by intros [? _].
    + set_solver.
    + intros r. rewrite elem_of_list_to_set, list_elem_of_filter. intros [Hd Hr] Hn. right. unfold changed.
      rewrite elem_of_list_to_set, list_elem_of_fmap. exists r. split; [done|]. rewrite list_elem_of_filter. done.
    + by left.
  - intros [] es s' Hs'. apply wp_ret. eapply lanes_ok_weaken; [exact Hs'|]. intros a [[?|Ha] Hn]; [done|].
    by rewrite elem_of_elements in Hn.
Qed.
End handlers.

(** ** Events *)

Inductive LaneEvent :=
| LePublish (stored : Digest * WorkerId -> bool) (sender : PublicKey) (h : Header)
| LePublishOwn (payload : gmap Digest WorkerId)
| LePayloadReady (d : Digest)
| LeAckAvailability (a : AckAvailability)
| LeClaimAvailability (a : AckAvailability)
| LeWatermark (sender : PublicKey) (entries : list AvailEntry)
| LeRetry (d : Digest)
| LeClaim (sender : PublicKey) (claims : list ClaimRef)
| LeFlush
| LeHoldsPrefix (r : BlockRef)
| LeLocallyAvailable (r : BlockRef)
| LeAuthorOk (r : BlockRef)
| LeCache (op : CacheOp)
| LeStoreFlush
| LeRestart (flushed : bool)
| LeCrash (torn flushed : bool) (payload : gmap Digest WorkerId)
| LeRecover (h : Header).

Section events.
Context {Hash : Hashing} (cm : Committee) (sid : Digest) (mbp : Z) (name : PublicKey).
Abbreviation LS := (LaneManager * BlockCache)%type (only parsing).

(** A new process reads the database, then broadcasts the anchor it restored again. *)
Definition restart : LM () :=
  (fun s => Res tt [] (restarted s.1, cache_new));;
  restore_own_frontier;;
  anchor ← take_seeded_anchor;
  match anchor with Some h => emit (BroadcastPublish h) | None => skip end.

(** A process ends and a new one starts.  The last writes are lost unless they were flushed: by the actor's tick,
    or because an orderly end drops the handles of the store.  The machine itself stays up: the database does not
    sync its log. *)
Definition crash (flushed : bool) : LM () := when flushed flush_pending;; restart.

(** A process that dies inside [publish_own], before the broadcast: after the first of
    the two writes or after both, flushed or not. *)
Definition publish_crash (torn flushed : bool) (payload : gmap Digest WorkerId) : LM () :=
  x ← lanes;
  let '(height, prev) := lm_own_frontier x in
  let header := new_vantage (lm_name x) (u64_add height 1) payload prev (lm_sid x) in
  on_lanes (fun x => x <| lm_own_frontier := (u64_add height 1, hd_id header) |>);;
  (if torn then write_frontier else persist_own_frontier header);;
  crash flushed.

Definition lane_exec (e : LaneEvent) : LM () :=
  match e with
  | LePublish stored sender h => process_publish stored sender h
  | LePublishOwn payload => publish_own payload;; skip
  | LePayloadReady d => set_payload_ready d
  | LeAckAvailability a => process_ack_availability a
  | LeClaimAvailability a => process_claim_availability a
  | LeWatermark sender entries => lm_resolve_watermark sender entries;; skip
  | LeRetry d => lm_retry_pending_avail d;; skip
  | LeClaim sender claims => lm_note_claim sender claims;; skip
  | LeFlush => take_avail_flush;; skip
  | LeHoldsPrefix r => lm_holds_prefix r;; skip
  | LeLocallyAvailable r => lm_locally_available r;; skip
  | LeAuthorOk r => lm_author_ok r;; skip
  | LeCache op => with_blocks (fun c => (tt, cache_exec sid op c))
  | LeStoreFlush => flush_pending
  | LeRestart flushed => crash flushed
  | LeCrash torn flushed payload => publish_crash torn flushed payload
  | LeRecover h => recover_own_frontier h;; skip
  end.

(** Blocks have fields of their types, own payloads fit, the other users of the
    cache insert valid blocks, and a recovery anchor is certified. *)
Definition lane_event_ok (e : LaneEvent) (s : LS) : Prop :=
  match e with
  | LePublish _ _ h => typed_header h
  | LePublishOwn payload | LeCrash _ _ payload => publishable cm mbp name s.1 payload
  | LeCache op => cache_op_ok cm sid mbp op
  | LeRecover h => typed_header h /\ ref_lineage cm sid mbp (hd_author h, hd_height h, hd_id h)
  | _ => True
  end.

Definition lane_start : LS := (lanes_new name cm sid (genesis_digest sid) mbp, cache_new).

(** The states and effects that events in [P] lead to from the start. *)
Inductive lane_reaches (P : LaneEvent -> Prop) : list Effect -> LS -> Prop :=
| lr_start : lane_reaches P [] lane_start
| lr_step e es s : lane_reaches P es s -> P e -> lane_event_ok e s ->
    lane_reaches P (es ++ out (lane_exec e s)) (st (lane_exec e s)).

(** A given sequence of events. *)
Fixpoint lane_allowed (P : LaneEvent -> Prop) (l : list LaneEvent) (s : LS) : Prop :=
  match l with
  | [] => True
  | e :: l => P e /\ lane_event_ok e s /\ lane_allowed P l (st (lane_exec e s))
  end.

Definition lane_run (l : list LaneEvent) : list Effect * LS :=
  foldl (fun p e => (p.1 ++ out (lane_exec e p.2), st (lane_exec e p.2))) ([], lane_start) l.

Lemma lane_run_reaches P l : lane_allowed P l lane_start -> lane_reaches P (lane_run l).1 (lane_run l).2.
Proof.
  unfold lane_run. assert (lane_reaches P ([] : list Effect) lane_start) as H0 by constructor. revert H0.
  generalize ([] : list Effect) lane_start. induction l as [|e l IH]; intros es s Hr; [done|].
  intros (HP & Hok & Hl). cbn [foldl fst snd]. apply IH; [by constructor|done].
Qed.

Context (Hbind : header_binding cm sid mbp) (Hgen : genesis_apart cm sid mbp).
Abbreviation lanes_ok := (lanes_ok cm sid mbp name) (only parsing).
Abbreviation clean := (fun _ : PublicKey => False).

Lemma wp_then_skip {A} (m : LM A) s (Q : LS -> Prop) : wp m s (fun _ _ s' => Q s') -> Q (st ((m;; skip) s)).
Proof. done. Qed.

Lemma restart_ok s : lanes_ok clean s -> lanes_ok clean (st (restart s)).
Proof.
  intros Hok. unfold restart. rewrite !st_bind. cbn [val st].
  assert (lanes_ok clean (restarted s.1, cache_new)) as H0 by (destruct s; by eapply restarted_ok).
  pose proof (restore_own_frontier_ok cm sid mbp name Hbind clean _ H0) as H1. unfold wp in H1.
  set (s1 := st (restore_own_frontier (restarted s.1, cache_new))) in *. destruct s1 as [x c].
  assert (lanes_ok clean (st (take_seeded_anchor (x, c)))) as H2 by (eapply lanes_ok_same; [|exact H1]; done).
  destruct (val (take_seeded_anchor (x, c))); exact H2.
Qed.

Lemma crash_ok flushed s : lanes_ok clean s -> lanes_ok clean (st (crash flushed s)).
Proof. intros Hok. unfold crash. rewrite st_bind. apply restart_ok. destruct flushed; [by apply flush_pending_ok|done]. Qed.

Lemma publish_crash_ok torn flushed payload s : lanes_ok clean s -> publishable cm mbp name s.1 payload ->
  lanes_ok clean (st (publish_crash torn flushed payload s)).
Proof.
  intros Hok Hp. destruct s as [x c]. pose proof (lo_frontier _ _ _ _ _ _ Hok) as Hf. cbn [fst snd] in *.
  pose proof (next_header_valid cm sid mbp name x payload Hf Hp) as Hv.
  pose proof (next_header_lineage cm sid mbp name x payload Hgen Hf Hp) as Hnew.
  unfold publish_crash. rewrite st_bind. cbn [val st lanes fst]. destruct (lm_own_frontier x) as [height prev] eqn:Ef.
  destruct (next_header_built cm sid mbp name clean x c payload height prev Hok Hp Ef) as [-> ->].
  rewrite !st_bind. apply crash_ok. destruct torn; by apply (persisted_ok cm sid mbp name clean x _ c (next_header sid name x payload) Hok Hnew Hv).
Qed.

Lemma lane_exec_ok e s : lane_event_ok e s -> lanes_ok clean s -> lanes_ok clean (st (lane_exec e s)).
Proof.
  assert (forall s s', memoises cm sid mbp s s' -> lanes_ok clean s -> lanes_ok clean s') as Hmem by eauto using memoises_ok.
  intros He Hok. destruct e; cbn [lane_exec lane_event_ok] in *; try apply wp_then_skip.
  - by apply (process_publish_ok cm sid mbp name Hbind).
  - eapply wp_mono; [by apply (publish_own_ok cm sid mbp name Hbind payload clean)|]. intros h es s' Hs'. apply Hs'.
  - by apply (set_payload_ready_ok cm sid mbp name Hbind).
  - by apply (process_availability_ok cm sid mbp name).
  - by apply (process_availability_ok cm sid mbp name).
  - apply wp_with_avail. destruct s. by eapply lanes_ok_same; [|exact Hok].
  - apply wp_with_avail. destruct s. by eapply lanes_ok_same; [|exact Hok].
  - by apply (lm_note_claim_ok cm sid mbp name).
  - unfold take_avail_flush. apply wp_bind, wp_lanes. case_match; [by apply wp_ret|].
    apply wp_bind, wp_on_lanes, wp_ret. destruct s. by eapply lanes_ok_same; [|exact Hok].
  - eapply wp_mono; [by apply (lm_holds_prefix_ok cm sid mbp name Hbind clean)|]. intros a es s' [Hm _]. exact (Hmem _ _ Hm Hok).
  - eapply wp_mono; [by apply (lm_locally_available_ok cm sid mbp name Hbind clean)|]. intros a es s' Hm. exact (Hmem _ _ Hm Hok).
  - eapply wp_mono; [by apply (lm_author_ok_ok cm sid mbp name clean)|]. intros a es s' Hm. exact (Hmem _ _ Hm Hok).
  - destruct s. by apply (cache_step_ok cm sid mbp name Hbind).
  - by apply flush_pending_ok.
  - by apply crash_ok.
  - by apply publish_crash_ok.
  - destruct He. by apply (recover_own_frontier_ok cm sid mbp name Hbind).
Qed.

Lemma lane_start_ok : lanes_ok clean lane_start.
Proof.
  split; cbn [fst snd lane_start]; try done; try (intros r Hr; by apply not_elem_of_empty in Hr).
  - apply cache_ok_new.
  - split; [done|]. apply lineage_genesis.
  - by intros rec [?|?].
  - by intros rec [?|?].
  - intros a r. cbn. rewrite !lookup_empty. by intros [?|?].
Qed.

Lemma lane_reaches_ok P es s : lane_reaches P es s -> lanes_ok clean s.
Proof. induction 1 as [|e es s _ IH _ He]; [apply lane_start_ok|by apply lane_exec_ok]. Qed.
End events.

(** C20: The registers of the lane manager mean what the protocol reads off them.  After
    any sequence of blocks, payloads, acknowledgements, claims, own publications,
    crashes, restarts and certified recoveries: every directly published reference has a
    lineage of valid blocks of its author down to genesis; the references with a
    quorum are among them; an author's core candidate is the one of greatest height, and
    smallest digest at that height, among its directly published references with an
    exact quorum, and is missing only when there is none; the own watermark of an author is
    a directly published reference of greatest height; and the two indexes of deferred
    references are inverse to each other. *)
Theorem lane_registers_exact {Hash : Hashing} cm sid mbp name P es s :
  header_binding cm sid mbp -> genesis_apart cm sid mbp -> lane_reaches cm sid mbp name P es s ->
  (forall r, r ∈ lm_direct_pub s.1 -> ref_lineage cm sid mbp r) /\
  lm_quorum_direct s.1 ⊆ lm_direct_pub s.1 /\ lm_quorum_claim s.1 ⊆ lm_direct_pub s.1 /\
  (forall a, match lm_c_candidate s.1 !! a with
             | Some r => newest_of (lm_quorum_direct s.1) a r
             | None => forall r, r ∈ lm_quorum_direct s.1 -> ref_author r <> a
             end) /\
  (forall a, match lm_own_watermark s.1 !! a with
             | Some (h, d) => (a, h, d) ∈ lm_direct_pub s.1 /\
                 forall r, r ∈ lm_direct_pub s.1 -> ref_author r = a -> ref_height r <= h
             | None => forall r, r ∈ lm_direct_pub s.1 -> ref_author r <> a
             end) /\
  (forall r d, r ∈ default ∅ (lm_waiters s.1 !! d) <-> lm_blocked_by s.1 !! r = Some d).
Proof.
  intros Hbind Hgen Hr. destruct (lane_reaches_ok cm sid mbp name Hbind Hgen P es s Hr)
    as [A1 A2 A3 A4 A5 A0 A6 A7 A8 A9 A10 A11 A12 A13]. split_and!; [|exact A7|exact A8| | |exact A11].
  - intros r Hd. by apply A0, A6.
  - intros a. rewrite A12 by auto. apply newest_indexed_spec.
  - intros a. destruct (lm_own_watermark s.1 !! a) as [[h d]|] eqn:Hw.
    + split; [by apply A9|]. intros r Hd <-. destruct (A10 r Hd) as (h' & d' & Hw' & Hle). congruence.
    + intros r Hd <-. destruct (A10 r Hd) as (h' & d' & Hw' & _). congruence.
Qed.

(** Party 10 receives lane 20 and learns that its second block has a quorum. *)
Definition lane_events : list LaneEvent :=
  [LePublish (fun _ => true) 20 (lane_block 20 1 1 2); LePublish (fun _ => true) 20 (lane_block 20 2 2 3);
   LeAckAvailability (mkAckAvailability (20, 2, 3) Quorum)].

Lemma lane_registers_exact_witness :
  lm_c_candidate (@lane_run table_hashing committee4 7 100 10 lane_events).2.1 !! 20 = Some (20, 2, 3) /\
  (forall r, r ∈ lm_direct_pub (@lane_run table_hashing committee4 7 100 10 lane_events).2.1 ->
    @ref_lineage table_hashing committee4 7 100 r).
Proof.
  split; [vm_compute; reflexivity|].
  destruct (@lane_registers_exact table_hashing committee4 7 100 10 (fun _ => True)
    (@lane_run table_hashing committee4 7 100 10 lane_events).1 (@lane_run table_hashing committee4 7 100 10 lane_events).2
    table_binding (genesis_apart_of_injective _ _ _ table_injective)) as [H _]; [|exact H].
  apply lane_run_reaches. unfold lane_events. cbn [lane_allowed lane_event_ok]. repeat split; vm_compute; discriminate.
Defined.
