(* ===== verification/Frontier.v ===== *)
(** The proposal frontier.

    Models [Frontier] of [src/primary/src/vantage/frontier.rs]: the active views, the frontier
    [a_i] of well-formed proposals, the manifests of an own proposal and the quarantine of tips that
    did not reach a quorum; and the loop of [try_propose_effects] in
    [src/primary/src/vantage/node.rs] that proposes the own views.  The lane manager is read through the
    state of [Lanes] together with the shared block cache.  [debug_assert] and test accessors left out;
    that the asserted property holds is a theorem here. *)

From S2P Require Import Prelude Committee Types Formed Blocks BlockChains Acks Avail Repair RepairSettle Lanes LaneOrder LaneInv.
From S2P Require Import LaneRuns Fixtures.

Record TipQuarantine := mkTipQuarantine {
  tq_witness : BlockRef;
  tq_probe_attempt : Z;
  tq_probe_due : View;
}.

Record Frontier := mkFrontier {
  fr_name : PublicKey;
  fr_committee : Committee;
  fr_proposers : RoundRobin;
  fr_a_i : View;
  fr_active : gset View;
  fr_fixed_well_formed : gmap View bool;
  fr_proposed : gset View;
  fr_quarantined_tips : gmap PublicKey TipQuarantine;
  fr_own_proposal_turn : View;
  fr_min_live_view : View;
}.

Definition fr_eta (x : Frontier) : Frontier :=
  mkFrontier (fr_name x) (fr_committee x) (fr_proposers x) (fr_a_i x) (fr_active x) (fr_fixed_well_formed x) (fr_proposed x)
    (fr_quarantined_tips x) (fr_own_proposal_turn x) (fr_min_live_view x).

#[export] Instance set_fr_a_i : Setter fr_a_i.
Proof. solve_setter fr_eta fr_a_i. Defined.
#[export] Instance set_fr_active : Setter fr_active.
Proof. solve_setter fr_eta fr_active. Defined.
#[export] Instance set_fr_fixed_well_formed : Setter fr_fixed_well_formed.
Proof. solve_setter fr_eta fr_fixed_well_formed. Defined.
#[export] Instance set_fr_proposed : Setter fr_proposed.
Proof. solve_setter fr_eta fr_proposed. Defined.
#[export] Instance set_fr_quarantined_tips : Setter fr_quarantined_tips.
Proof. solve_setter fr_eta fr_quarantined_tips. Defined.
#[export] Instance set_fr_own_proposal_turn : Setter fr_own_proposal_turn.
Proof. solve_setter fr_eta fr_own_proposal_turn. Defined.
#[export] Instance set_fr_min_live_view : Setter fr_min_live_view.
Proof. solve_setter fr_eta fr_min_live_view. Defined.

(** [RoundRobin::new] panics on an empty committee. *)
Definition frontier_new (name : PublicKey) (c : Committee) : option Frontier :=
  rr ← round_robin_new c; Some (mkFrontier name c rr 0 ∅ ∅ ∅ ∅ 0 1).

Definition is_active (x : Frontier) (view : View) : bool := bool_decide (view ∈ fr_active x).
Definition next_turn (x : Frontier) : View := u64_add (fr_a_i x) 1.
Definition already_proposed (x : Frontier) (view : View) : bool := bool_decide (view ∈ fr_proposed x).

(** [split_off] keeps the keys from the floor on. *)
Definition frontier_gc_below (floor : View) (x : Frontier) : Frontier :=
  if floor <=? fr_min_live_view x then x
  else x <| fr_active ::= filter (fun v => floor <= v) |> <| fr_fixed_well_formed ::= filter (fun p => floor <= p.1) |>
         <| fr_proposed ::= filter (fun v => floor <= v) |>
         <| fr_a_i ::= fun a => Z.max a (u64_saturating_sub floor 1) |> <| fr_min_live_view := floor |>.

(** [active.insert(view)] and the push when it is new. *)
Definition activate_view (view : View) (p : list View * Frontier) : list View * Frontier :=
  if is_active p.2 view then p else (p.1 ++ [view], p.2 <| fr_active ::= union {[ view ]} |>).

(** The loop over the contiguous well-formed prefix; every turn uses one entry of the map. *)
Fixpoint advance_frontier (n : nat) (p : list View * Frontier) : list View * Frontier :=
  match n with
  | O => p
  | S n =>
      let next := next_turn p.2 in
      match fr_fixed_well_formed p.2 !! next with
      | Some true => advance_frontier n (activate_view next (p.1, p.2 <| fr_a_i := next |>))
      | _ => p
      end
  end.

Definition advance_all (p : list View * Frontier) : list View * Frontier :=
  advance_frontier (S (size (fr_fixed_well_formed p.2))) p.

Definition frontier_enter (view : View) (x : Frontier) : list View * Frontier :=
  if view <? fr_min_live_view x then ([], x)
  else
    let p := activate_view view ([], x) in
    let floor := u64_saturating_sub view 1 in
    advance_all (p.1, if fr_a_i p.2 <? floor then p.2 <| fr_a_i := floor |> else p.2).

Definition record_fixed (view : View) (well_formed : bool) (x : Frontier) : list View * Frontier :=
  if view <? fr_min_live_view x then ([], x)
  else advance_all ([], x <| fr_fixed_well_formed ::= <[ view := well_formed ]> |>).

Definition frontier_proposer (x : Frontier) (view : View) : option PublicKey := one_based (fr_proposers x) view.

(** ** Manifests *)

Definition keeps_quarantine (s : LaneManager * BlockCache) (author : PublicKey) (q : TipQuarantine) : bool :=
  if is_exact_quorum (tq_witness q) (lm_avail s.1) then false
  else
    negb (match lm_c_candidate s.1 !! author with
          | Some core => (ref_height (tq_witness q) <=? ref_height core) && lm_prefix_contains core (tq_witness q) (lm_genesis s.1) s.2
          | None => false
          end).

Definition refresh_tip_quarantine (s : LaneManager * BlockCache) (x : Frontier) : Frontier :=
  x <| fr_quarantined_tips ::= filter (fun p => keeps_quarantine s p.1 p.2 = true) |>.

Definition quarantine_tip (s : LaneManager * BlockCache) (x : Frontier) (tip : BlockRef) : Frontier :=
  if is_exact_quorum tip (lm_avail s.1) then x
  else if bool_decide (is_Some (fr_quarantined_tips x !! ref_author tip)) then x
  else x <| fr_quarantined_tips ::= <[ ref_author tip := mkTipQuarantine tip 0 (u64_saturating_add (fr_own_proposal_turn x) 1) ]> |>.

Definition quarantine_tips (tips : Manifest) (s : LaneManager * BlockCache) (x : Frontier) : Frontier :=
  foldl (quarantine_tip s) (refresh_tip_quarantine s x) tips.

(** The reference an author offers for the tips: the one to confirm before the newest. *)
Definition tip_candidate (x : LaneManager) (author : PublicKey) : option BlockRef :=
  match lm_confirmation x !! author with Some r => Some r | None => lm_t_candidate x !! author end.

(** [if seen.insert(r.2) { m.push(r) }] for the reference of each author. *)
Definition push_fresh (p : gset Digest * Manifest) (r : BlockRef) : gset Digest * Manifest :=
  if bool_decide (ref_digest r ∈ p.1) then p else ({[ ref_digest r ]} ∪ p.1, p.2 ++ [r]).

Definition collect (choice : PublicKey -> option BlockRef) (keys : list PublicKey) (seen : gset Digest) : gset Digest * Manifest :=
  foldl push_fresh (seen, []) (omap choice keys).

Definition ordinary_tip (x : Frontier) (s : LaneManager * BlockCache) (author : PublicKey) : option BlockRef :=
  if bool_decide (is_Some (fr_quarantined_tips x !! author)) then None else tip_candidate s.1 author.

(** A quarantined author whose probe is due, with its reference. *)
Definition probe_of (x : Frontier) (s : LaneManager * BlockCache) (seen : gset Digest) (author : PublicKey)
    : option (View * PublicKey * BlockRef) :=
  q ← fr_quarantined_tips x !! author;
  if fr_own_proposal_turn x <? tq_probe_due q then None
  else
    r ← tip_candidate s.1 author;
    if bool_decide (ref_digest r ∈ seen) then None else Some (tq_probe_due q, author, r).

(** [min_by_key] by due turn; the list is in committee order, so ties go to the first. *)
Definition earlier (best : option (View * PublicKey * BlockRef)) (p : View * PublicKey * BlockRef) : option (View * PublicKey * BlockRef) :=
  match best with
  | Some b => if p.1.1 <? b.1.1 then Some p else best
  | None => Some p
  end.

Definition select_probe (x : Frontier) (s : LaneManager * BlockCache) (seen : gset Digest) (keys : list PublicKey)
    : option (View * PublicKey * BlockRef) := foldl earlier None (omap (probe_of x s seen) keys).

(** The gap doubles with each probe. *)
Definition probe_gap (attempt : Z) : Z := Z.shiftl 1 (Z.min attempt 63).

Definition probed (turn : View) (q : TipQuarantine) : TipQuarantine :=
  mkTipQuarantine (tq_witness q) (Z.min u32_max (tq_probe_attempt q + 1)) (u64_saturating_add turn (probe_gap (tq_probe_attempt q))).

Definition author_le (r r' : BlockRef) : Prop := ref_author r <= ref_author r'.
#[export] Instance author_le_dec : RelDecision author_le.
Proof. intros r r'. unfold author_le. apply _. Defined.

Definition build_manifests (s : LaneManager * BlockCache) (x : Frontier) : (Manifest * Manifest) * Frontier :=
  let x := refresh_tip_quarantine s x in
  let keys := authority_keys (fr_committee x) in
  let c := collect (fun a => lm_c_candidate s.1 !! a) keys ∅ in
  let t := collect (ordinary_tip x s) keys c.1 in
  let p :=
    match select_probe x s t.1 keys with
    | Some (_, author, r) =>
        if bool_decide (ref_digest r ∈ t.1) then (t.2, x)
        else (t.2 ++ [r], x <| fr_quarantined_tips ::= alter (probed (fr_own_proposal_turn x)) author |>)
    | None => (t.2, x)
    end in
  ((c.2, merge_sort author_le p.1), p.2).

(** The guards and the bookkeeping every proposal shares. *)
Definition may_propose (view : View) (x : Frontier) : bool :=
  negb (view <? fr_min_live_view x) && negb (already_proposed x view) && bool_decide (frontier_proposer x view = Some (fr_name x)).

Definition take_turn (view : View) (x : Frontier) : Frontier :=
  x <| fr_proposed ::= union {[ view ]} |> <| fr_own_proposal_turn ::= fun t => u64_saturating_add t 1 |>.

Definition propose_view (view : View) (s : LaneManager * BlockCache) (m : option ResolutionEntry) (x : Frontier)
    : option ViewProposal * Frontier :=
  if negb (may_propose view x) then (None, x)
  else
    let r := build_manifests s (take_turn view x) in
    (Some (mkViewProposal view r.1.1 r.1.2 m), r.2).

Definition try_propose (s : LaneManager * BlockCache) (m : option ResolutionEntry) (x : Frontier) : option ViewProposal * Frontier :=
  propose_view (next_turn x) s m x.

Definition propose_view_batch (view : View) (s : LaneManager * BlockCache) (entries : list ResolutionEntry) (x : Frontier)
    : option BatchViewProposal * Frontier :=
  if negb (may_propose view x) then (None, x)
  else
    let r := build_manifests s (take_turn view x) in
    (Some (mkBatchViewProposal view r.1.1 r.1.2 entries), r.2).

(** The proposal of the stress test: the core and the own tip, quarantined or not. *)
Definition propose_view_mixed_open (view : View) (s : LaneManager * BlockCache) (x : Frontier) : option ViewProposal * Frontier :=
  if negb (may_propose view x) then (None, x)
  else
    let x := refresh_tip_quarantine s (take_turn view x) in
    let c := collect (fun a => lm_c_candidate s.1 !! a) (authority_keys (fr_committee x)) ∅ in
    let t := collect (tip_candidate s.1) [fr_name x] c.1 in
    (Some (mkViewProposal view c.2 t.2 None), x).

(** The loop of [try_propose_effects] from [view] on, [n] views.  [echo_sent] and the lanes are as they are when the
    loop comes to a view; the stress test is off. *)
Fixpoint propose_loop (n : nat) (view : View) (echo_sent : View -> bool) (lanes_at : View -> LaneManager * BlockCache) (x : Frontier)
    : list ViewProposal * Frontier :=
  match n with
  | O => ([], x)
  | S n =>
      if negb (bool_decide (frontier_proposer x view = Some (fr_name x))) || already_proposed x view || echo_sent view then
        propose_loop n (u64_add view 1) echo_sent lanes_at x
      else
        let p := propose_view view (lanes_at view) None x in
        let r := propose_loop n (u64_add view 1) echo_sent lanes_at p.2 in
        (match p.1 with Some q => q :: r.1 | None => r.1 end, r.2)
  end.

Definition try_propose_effects (omega_plus : View) (recovering : bool) (echo_sent : View -> bool)
    (lanes_at : View -> LaneManager * BlockCache) (x : Frontier) : list ViewProposal * Frontier :=
  let bound := Z.max (next_turn x) omega_plus in
  if recovering then ([], x)
  else propose_loop (Z.to_nat (bound - next_turn x + 1)) (next_turn x) echo_sent lanes_at x.
