(* ===== verification/FrontierRuns.v ===== *)
(** Theorems on the proposal frontier.

    An own proposal is well formed whatever the lanes hold, each view is proposed and activated at most once, and the
    frontier passes a view only for a reason.  [FrontierEvent] has one event per call of the node. *)

From S2P Require Import Prelude Committee Index Types Formed Blocks BlockChains Acks Avail Repair RepairSettle Lanes LaneOrder LaneInv.
From S2P Require Import LaneRuns Fixtures Frontier.

(** ** Lists of references *)

Lemma push_all_spec (l : list BlockRef) : forall (seen : gset Digest) (m : Manifest),
  exists k, (foldl push_fresh (seen, m) l).2 = m ++ k /\ k `sublist_of` l /\ NoDup (ref_digest <$> k) /\
    (forall r, r ∈ k -> ref_digest r ∉ seen) /\ (forall d, d ∈ (foldl push_fresh (seen, m) l).1 <-> d ∈ seen \/ d ∈ ref_digest <$> k).
Proof.
  induction l as [|r l IH]; intros seen m; cbn [foldl].
  { exists []. cbn. rewrite app_nil_r. split_and!; [done|constructor|constructor|intros r Hr; by apply elem_of_nil in Hr|].
    intros d. rewrite elem_of_nil. naive_solver. }
  destruct (decide (ref_digest r ∈ seen)) as [Hd|Hd].
  { assert (push_fresh (seen, m) r = (seen, m)) as -> by (unfold push_fresh; by rewrite bool_decide_eq_true_2). destruct (IH seen m) as (k & H1 & H2 & H3). exists k. split; [done|]. split; [by apply sublist_cons|done]. }
  assert (push_fresh (seen, m) r = ({[ ref_digest r ]} ∪ seen, m ++ [r])) as -> by (unfold push_fresh; by rewrite bool_decide_eq_false_2).
  destruct (IH ({[ ref_digest r ]} ∪ seen) (m ++ [r])) as (k & H1 & H2 & H3 & H4 & H5). exists (r :: k).
  rewrite fmap_cons, NoDup_cons. split_and!; [etrans; [exact H1|by rewrite <- (assoc_L (++))]|by apply sublist_skip| |done| |].
  - intros (q & Hq & Hin)%list_elem_of_fmap. apply (H4 q Hin). set_solver.
  - intros q [->|Hq]%elem_of_cons; [done|]. specialize (H4 q Hq). set_solver.
  - intros d. rewrite H5. set_solver.
Qed.

Lemma collect_spec choice keys seen :
  (collect choice keys seen).2 `sublist_of` omap choice keys /\ NoDup (ref_digest <$> (collect choice keys seen).2) /\
  (forall r, r ∈ (collect choice keys seen).2 -> ref_digest r ∉ seen) /\
  (forall d, d ∈ (collect choice keys seen).1 <-> d ∈ seen \/ d ∈ ref_digest <$> (collect choice keys seen).2).
Proof. destruct (push_all_spec (omap choice keys) seen []) as (k & Hk & H). unfold collect. cbn [app] in Hk. rewrite <- Hk in H. exact H. Qed.

Lemma sublist_sorted (l k : list Z) : k `sublist_of` l -> StronglySorted Z.lt l -> StronglySorted Z.lt k.
Proof.
  induction 1 as [|x k l Hs IH|x k l Hs IH]; [done| |]; intros [Hx Hl]%StronglySorted_cons; [|by apply IH].
  constructor; [by apply IH|]. apply Forall_forall. intros y Hy. rewrite Forall_forall in Hx. apply Hx. by apply (elem_of_sublist _ _ _ Hy Hs).
Qed.

(** References chosen per author come in the order of the authors. *)
Lemma chosen_authors choice keys :
  (forall a r, choice a = Some r -> ref_author r = a) -> ref_author <$> omap choice keys `sublist_of` keys.
Proof.
  intros Hc. induction keys as [|a keys IH]; [done|]. cbn. destruct (choice a) as [r|] eqn:Hr; cbn.
  - rewrite (Hc a r Hr). by apply sublist_skip.
  - by apply sublist_cons.
Qed.

Lemma collect_authors choice keys seen :
  (forall a r, choice a = Some r -> ref_author r = a) -> StronglySorted Z.lt keys ->
  StronglySorted Z.lt (ref_author <$> (collect choice keys seen).2) /\
  Forall (fun r => exists a, a ∈ keys /\ choice a = Some r) (collect choice keys seen).2.
Proof.
  intros Hc Hk. destruct (collect_spec choice keys seen) as (Hs & _). split.
  - eapply sublist_sorted; [|exact Hk]. etrans; [apply fmap_sublist, Hs|by apply chosen_authors].
  - apply Forall_forall. intros r Hr. apply (elem_of_sublist _ _ _ Hr) in Hs. apply list_elem_of_omap in Hs. naive_solver.
Qed.

Lemma sorted_NoDup (l : list Z) : StronglySorted Z.lt l -> NoDup l.
Proof.
  induction 1 as [|x l Hs IH Hx]; constructor; [|done]. intros Hin. rewrite Forall_forall in Hx. specialize (Hx x Hin). lia.
Qed.

Lemma sorted_strict l : StronglySorted author_le l -> NoDup (ref_author <$> l) -> StronglySorted Z.lt (ref_author <$> l).
Proof.
  induction l as [|r l IH]; [constructor|]. intros [Hr Hl]%StronglySorted_cons [Hn Hd]%NoDup_cons. cbn. constructor; [by apply IH|].
  apply Forall_forall. intros a (q & -> & Hq)%list_elem_of_fmap. rewrite Forall_forall in Hr. specialize (Hr q Hq). unfold author_le in Hr.
  assert (ref_author r <> ref_author q); [|lia]. intros He. apply Hn. rewrite He. by apply list_elem_of_fmap_2.
Qed.

(** ** Own proposals are well formed *)

(** What the proposals need of the lanes: the candidates are references of their author, above genesis, of a staked author. *)
Definition lanes_offer (cm : Committee) (s : LaneManager * BlockCache) : Prop :=
  forall a r, lm_c_candidate s.1 !! a = Some r \/ lm_t_candidate s.1 !! a = Some r \/ lm_confirmation s.1 !! a = Some r ->
  ref_author r = a /\ 1 <= ref_height r /\ stake cm (ref_author r) <> 0.

Lemma lanes_offer_reached {Hash : Hashing} cm sid mbp name P es s :
  header_binding cm sid mbp -> genesis_apart cm sid mbp -> lane_reaches cm sid mbp name P es s -> lanes_offer cm s.
Proof.
  intros Hbind Hgen Hr. pose proof (lane_reaches_ok cm sid mbp name Hbind Hgen P es s Hr) as Hok.
  assert (forall r, r ∈ lm_direct_pub s.1 -> 1 <= ref_height r /\ stake cm (ref_author r) <> 0) as Hheld.
  { intros r Hd. destruct (lo_acked _ _ _ _ _ _ Hok r) as [Hl Hh]; [by apply (lo_direct _ _ _ _ _ _ Hok)|]. split; [done|].
    unfold ref_lineage in Hl. destruct (Z.to_nat (ref_height r)) as [|n] eqn:Hn; [lia|]. inversion Hl as [|n' h Hne Hv Ha Hhh Hp Hn' Hd']. rewrite <- Ha.
    destruct Hv as [_ Hv]. unfold block_ok in Hv. rewrite !andb_true_iff in Hv. lia. }
  intros a r Hor. assert (ref_author r = a /\ r ∈ lm_direct_pub s.1) as [<- Hd]; [|by split; [|apply Hheld]].
  destruct Hor as [Hc|Hor]; [|by apply (lo_tips _ _ _ _ _ _ Hok)]. rewrite (lo_candidate _ _ _ _ _ _ Hok) in Hc by auto.
  pose proof (newest_indexed_spec (lm_quorum_direct s.1) a) as Hs. rewrite Hc in Hs. destruct Hs as (Hin & Ha & _).
  split; [done|]. by apply (lo_core _ _ _ _ _ _ Hok).
Qed.

Lemma tip_candidate_of cm s a r : lanes_offer cm s -> tip_candidate s.1 a = Some r ->
  ref_author r = a /\ 1 <= ref_height r /\ stake cm (ref_author r) <> 0.
Proof.
  intros Ho. unfold tip_candidate. destruct (lm_confirmation s.1 !! a) as [q|] eqn:Hq; [intros [= <-]|]; intros; apply Ho; auto.
Qed.

(** A manifest of chosen references. *)
Lemma collect_manifest cm choice keys seen :
  (forall a r, choice a = Some r -> ref_author r = a /\ 1 <= ref_height r /\ stake cm (ref_author r) <> 0) ->
  StronglySorted Z.lt keys -> manifest_ok cm (collect choice keys seen).2.
Proof.
  intros Hc Hk. destruct (collect_authors choice keys seen) as [Hs Hf]; [naive_solver|done|]. split; [done|].
  eapply Forall_impl; [exact Hf|]. cbn. intros r (a & _ & Hr). by destruct (Hc a r Hr).
Qed.

Lemma select_probe_spec x s seen keys due author r :
  select_probe x s seen keys = Some (due, author, r) -> probe_of x s seen author = Some (due, author, r).
Proof.
  unfold select_probe. set (l := omap (probe_of x s seen) keys).
  assert (forall l best, foldl earlier best l = Some (due, author, r) -> best = Some (due, author, r) \/ (due, author, r) ∈ l) as Hf.
  { clear. induction l as [|p l IH]; intros best; cbn; [by left|]. intros [H|H]%IH; [|by right; right].
    unfold earlier in H. destruct best as [b|]; [destruct (p.1.1 <? b.1.1)|]; [injection H as <-; right; left|by left|injection H as <-; right; left]. }
  intros [H|H]%Hf; [done|]. unfold l in H. apply list_elem_of_omap in H as (a & _ & H).
  assert (author = a) as ->; [|done]. unfold probe_of in H. destruct (fr_quarantined_tips x !! a); cbn in H; [|done]. destruct (_ <? _); [done|].
  destruct (tip_candidate s.1 a); cbn in H; [|done]. case_bool_decide; [done|]. by injection H.
Qed.

#[local] Instance author_le_total : Total author_le.
Proof. intros r r'. unfold author_le. lia. Qed.
#[local] Instance author_le_trans : Transitive author_le.
Proof. intros r1 r2 r3. unfold author_le. lia. Qed.

(** The tips of a proposal, before they are sorted. *)
Definition tips_of (s : LaneManager * BlockCache) (x : Frontier) (t : gset Digest * Manifest) (keys : list PublicKey) : Manifest :=
  match select_probe x s t.1 keys with
  | Some (_, _, r) => if bool_decide (ref_digest r ∈ t.1) then t.2 else t.2 ++ [r]
  | None => t.2
  end.

Lemma tips_of_ok cm s x keys seen :
  lanes_offer cm s -> StronglySorted Z.lt keys ->
  let t := collect (ordinary_tip x s) keys seen in
  NoDup (ref_author <$> tips_of s x t keys) /\ NoDup (ref_digest <$> tips_of s x t keys) /\
  Forall (fun r => 1 <= ref_height r /\ stake cm (ref_author r) <> 0) (tips_of s x t keys) /\
  (forall r, r ∈ tips_of s x t keys -> ref_digest r ∉ seen).
Proof.
  intros Ho Hk t.
  assert (forall a r, ordinary_tip x s a = Some r -> fr_quarantined_tips x !! a = None /\ tip_candidate s.1 a = Some r) as Hord.
  { intros a r. unfold ordinary_tip. case_bool_decide as Hq; [done|]. by rewrite <- eq_None_not_Some in Hq. }
  destruct (collect_manifest cm (ordinary_tip x s) keys seen) as [Hs Hf]; [|done|].
  { intros a r Hr. apply Hord in Hr as [_ Hr]. by apply (tip_candidate_of cm s). }
  destruct (collect_authors (ordinary_tip x s) keys seen) as [_ Hch]; [|done|].
  { intros a r Hr. apply Hord in Hr as [_ Hr]. by apply (tip_candidate_of cm s) in Hr as (? & _). }
  destruct (collect_spec (ordinary_tip x s) keys seen) as (_ & Hd & Hfresh & Hseen). fold t in Hs, Hf, Hd, Hfresh, Hseen, Hch.
  assert (NoDup (ref_author <$> t.2)) as Hn by (by apply sorted_NoDup).
  unfold tips_of. destruct (select_probe x s t.1 keys) as [[[due a] r]|] eqn:Hp; [|done]. case_bool_decide as Hin; [done|].
  apply select_probe_spec in Hp. unfold probe_of in Hp. destruct (fr_quarantined_tips x !! a) as [q|] eqn:Hq; cbn in Hp; [|done].
  destruct (_ <? _); [done|]. destruct (tip_candidate s.1 a) as [r'|] eqn:Hr; cbn in Hp; [|done]. case_bool_decide; [done|]. injection Hp as _ ->.
  apply (tip_candidate_of cm s) in Hr as (Ha & Hh & Hst); [|done]. rewrite !fmap_app, !NoDup_app, Forall_app. cbn.
  rewrite Hseen in Hin. split_and!; [done| |apply NoDup_singleton|done| |apply NoDup_singleton|done|by constructor|].
  - intros b (q' & -> & Hq')%list_elem_of_fmap Hb%list_elem_of_singleton. rewrite Forall_forall in Hch. destruct (Hch q' Hq') as (b & _ & Hqb).
    apply Hord in Hqb as [Hnone Hqb]. apply (tip_candidate_of cm s) in Hqb as (<- & _); [|done]. congruence.
  - intros d Hd' ->%list_elem_of_singleton. tauto.
  - intros q' [Hq'|Hq']%elem_of_app; [by apply Hfresh|]. apply list_elem_of_singleton in Hq' as ->. tauto.
Qed.

(** What building a proposal leaves alone. *)
Definition same_but_tips (x x' : Frontier) : Prop := x' = x <| fr_quarantined_tips := fr_quarantined_tips x' |>.

Lemma build_manifests_ok s x :
  lanes_offer (fr_committee x) s ->
  manifests_ok (fr_committee x) (build_manifests s x).1.1 (build_manifests s x).1.2 /\ same_but_tips x (build_manifests s x).2.
Proof.
  intros Ho. unfold build_manifests. change (fr_committee (refresh_tip_quarantine s x)) with (fr_committee x).
  set (y := refresh_tip_quarantine s x). set (keys := authority_keys (fr_committee x)). set (c := collect (fun a => lm_c_candidate s.1 !! a) keys ∅).
  set (t := collect (ordinary_tip y s) keys c.1). pose proof (authority_keys_sorted (fr_committee x)) as Hk. fold keys in Hk.
  destruct (tips_of_ok (fr_committee x) s y keys c.1 Ho Hk) as (T1 & T2 & T3 & T4). fold t in T1, T2, T3, T4.
  match goal with |- context [merge_sort author_le (fst ?p)] => set (pp := p) end.
  assert (pp.1 = tips_of s y t keys /\ same_but_tips x pp.2) as [Et Ex].
  { unfold pp, tips_of. destruct (select_probe y s t.1 keys) as [[[due a] r]|]; [case_bool_decide|]; by split; destruct x. }
  cbn [fst snd]. rewrite Et. split; [|done]. pose proof (merge_sort_Permutation author_le (tips_of s y t keys)) as Hperm.
  split_and!.
  - apply collect_manifest; [|done]. intros a r Hr. apply Ho. auto.
  - split; [|by rewrite Hperm]. apply sorted_strict; [|by rewrite Hperm]. by apply (StronglySorted_merge_sort _).
  - rewrite fmap_app, NoDup_app. destruct (collect_spec (fun a => lm_c_candidate s.1 !! a) keys ∅) as (_ & C1 & _ & C2). fold c in C1, C2.
    split_and!; [done| |by rewrite Hperm]. intros d Hd Hd'. rewrite Hperm in Hd'. apply list_elem_of_fmap in Hd' as (r & -> & Hr).
    apply (T4 r Hr). apply C2. by right.
Qed.

Lemma formed_none c view mc mt : manifests_ok c mc mt -> formed c view mc mt None = true.
Proof. intros H. unfold formed. by apply manifests_guard. Qed.

(** ** Runs *)

Inductive FrontierEvent :=
| FeEnter (view : View)
| FeFixed (view : View) (well_formed : bool)
| FeGc (floor : View)
| FeQuarantine (tips : Manifest) (s : LaneManager * BlockCache)
| FePropose (omega_plus : View) (recovering : bool) (echo_sent : View -> bool) (lanes_at : View -> LaneManager * BlockCache).

(** The own proposals, the views activated and the new state. *)
Definition frontier_step (ev : FrontierEvent) (x : Frontier) : list ViewProposal * list View * Frontier :=
  match ev with
  | FeEnter view => let r := frontier_enter view x in ([], r.1, r.2)
  | FeFixed view wf => let r := record_fixed view wf x in ([], r.1, r.2)
  | FeGc floor => ([], [], frontier_gc_below floor x)
  | FeQuarantine tips s => ([], [], quarantine_tips tips s x)
  | FePropose omega_plus recovering echo_sent lanes_at =>
      let r := try_propose_effects omega_plus recovering echo_sent lanes_at x in (r.1, [], r.2)
  end.

Section runs.
Context {Hash : Hashing} (cm : Committee) (sid : Digest) (mbp : Z) (name : PublicKey).

Definition view_ok (v : View) : Prop := 1 <= v < u64_max.

(** Views are below the largest integer; a proposal is made from lanes that a run of the lane manager leads to. *)
Definition frontier_event_ok (ev : FrontierEvent) : Prop :=
  match ev with
  | FeEnter v | FeFixed v _ | FeGc v => view_ok v
  | FeQuarantine _ _ => True
  | FePropose omega_plus _ _ lanes_at => omega_plus < u64_max /\ forall v, exists P es, lane_reaches cm sid mbp name P es (lanes_at v)
  end.

(** A run with its events, proposals and activations. *)
Inductive frontier_reaches : list FrontierEvent -> list ViewProposal -> list View -> Frontier -> Prop :=
| fr_start x : frontier_new name cm = Some x -> frontier_reaches [] [] [] x
| fr_event evs ps vs x ev :
    frontier_reaches evs ps vs x -> frontier_event_ok ev ->
    frontier_reaches (evs ++ [ev]) (ps ++ (frontier_step ev x).1.1) (vs ++ (frontier_step ev x).1.2) (frontier_step ev x).2.

(** Why the frontier may pass a view: its proposal was fixed well formed, or a later view was entered, or it was collected. *)
Definition passed (evs : list FrontierEvent) (w : View) : Prop :=
  FeFixed w true ∈ evs \/ exists v, w < v /\ (FeEnter v ∈ evs \/ FeGc v ∈ evs).

(** An own proposal as it leaves the node. *)
Definition own_proposal_ok (p : ViewProposal) : Prop :=
  one_based_authority cm (vp_view p) = Some name /\ vp_m p = None /\
  formed cm (vp_view p) (vp_c p) (vp_t p) (vp_m p) = true.

Record frontier_ok (evs : list FrontierEvent) (ps : list ViewProposal) (vs : list View) (x : Frontier) : Prop := {
  fk_config : fr_committee x = cm /\ fr_name x = name /\ round_robin_new cm = Some (fr_proposers x);
  fk_range : 0 <= fr_a_i x < u64_max /\ 1 <= fr_min_live_view x <= fr_a_i x + 1;
  fk_fixed w : fr_fixed_well_formed x !! w = Some true -> FeFixed w true ∈ evs /\ view_ok w;
  fk_passed w : 1 <= w <= fr_a_i x -> passed evs w;
  fk_once : NoDup (vp_view <$> ps);
  fk_proposed p : p ∈ ps -> vp_view p ∈ fr_proposed x \/ vp_view p < fr_min_live_view x;
  fk_ok : Forall own_proposal_ok ps;
  fk_activated : NoDup vs;
  fk_active v : v ∈ vs -> v ∈ fr_active x \/ v < fr_min_live_view x;
}.

Lemma passed_app evs ev w : passed evs w -> passed (evs ++ [ev]) w.
Proof. unfold passed. setoid_rewrite elem_of_app. naive_solver. Qed.

Lemma frontier_ok_more evs ev ps vs x : frontier_ok evs ps vs x -> frontier_ok (evs ++ [ev]) ps vs x.
Proof.
  intros [F1 F2 F3 F4 F5 F6 F7 F8 F9]. split; try done.
  - intros w Hw. rewrite elem_of_app. destruct (F3 w Hw). auto.
  - intros w Hw. by apply passed_app, F4.
Qed.

(** ** The frontier advances *)

Lemma activate_view_ok evs ps vs l x v :
  frontier_ok evs ps (vs ++ l) x -> fr_min_live_view x <= v ->
  let r := activate_view v (l, x) in
  frontier_ok evs ps (vs ++ r.1) r.2 /\ fr_a_i r.2 = fr_a_i x /\ fr_fixed_well_formed r.2 = fr_fixed_well_formed x /\
  fr_min_live_view r.2 = fr_min_live_view x.
Proof.
  intros [F1 F2 F3 F4 F5 F6 F7 F8 F9] Hv. unfold activate_view, is_active. cbn [fst snd]. case_bool_decide as Ha; [by split; [split|]|]. cbn [fst snd].
  split; [|done]. split; try done; cbn.
  - rewrite (assoc_L (++)). apply NoDup_app. split; [done|]. split; [|apply NoDup_singleton]. intros w Hw ->%list_elem_of_singleton.
    destruct (F9 v Hw); [done|lia].
  - intros w. rewrite (assoc_L (++)), elem_of_app, list_elem_of_singleton, elem_of_union, elem_of_singleton. intros [Hw| ->]; [|by left; left].
    destruct (F9 w Hw); [left; by right|by right].
Qed.

Lemma raise_ok evs ps vs x a :
  frontier_ok evs ps vs x -> fr_a_i x <= a < u64_max -> (forall w, fr_a_i x < w <= a -> passed evs w) ->
  frontier_ok evs ps vs (x <| fr_a_i := a |>).
Proof.
  intros [F1 F2 F3 F4 F5 F6 F7 F8 F9] Ha Hp. split; try done; cbn; [lia|]. intros w Hw.
  destruct (Z.le_gt_cases w (fr_a_i x)); [apply F4; lia|apply Hp; lia].
Qed.

Lemma size_filter_lt {V} (P Q : Z * V -> Prop) `{!forall p, Decision (P p), !forall p, Decision (Q p)} (m : gmap Z V) k v :
  m !! k = Some v -> P (k, v) -> ~ Q (k, v) -> (forall p, Q p -> P p) -> (size (filter Q m) < size (filter P m))%nat.
Proof.
  intros Hk HP HQ Hsub. apply map_subset_size. split.
  - apply map_subseteq_spec. intros j w. rewrite !map_lookup_filter_Some. naive_solver.
  - intros Hs. rewrite map_subseteq_spec in Hs. specialize (Hs k v). rewrite !map_lookup_filter_Some in Hs. naive_solver.
Qed.

(** Each turn uses a fixed view beyond the frontier, so the map bounds them. *)
Definition ahead (x : Frontier) : nat := size (filter (fun p => fr_a_i x < p.1) (fr_fixed_well_formed x)).

Lemma advance_frontier_ok evs ps vs n : forall l x,
  frontier_ok evs ps (vs ++ l) x -> (ahead x < n)%nat ->
  let r := advance_frontier n (l, x) in
  frontier_ok evs ps (vs ++ r.1) r.2 /\ fr_fixed_well_formed r.2 !! (fr_a_i r.2 + 1) <> Some true /\ fr_a_i x <= fr_a_i r.2.
Proof.
  induction n as [|n IH]; intros l x Hok Hn; [lia|]. cbn [advance_frontier fst snd]. unfold next_turn.
  pose proof (fk_range _ _ _ _ Hok) as [Hr Hm]. rewrite u64_add_small by lia.
  destruct (fr_fixed_well_formed x !! (fr_a_i x + 1)) as [[]|] eqn:Hf; cbn [fst snd];
    [|split; [done|split; [congruence|lia]]|split; [done|split; [congruence|lia]]].
  destruct (fk_fixed _ _ _ _ Hok _ Hf) as [Hev Hvo]. unfold view_ok in Hvo.
  assert (frontier_ok evs ps (vs ++ l) (x <| fr_a_i := fr_a_i x + 1 |>)) as H1.
  { apply raise_ok; [done|lia|]. intros w Hw. assert (w = fr_a_i x + 1) as -> by lia. by left. }
  destruct (activate_view_ok evs ps vs l _ (fr_a_i x + 1) H1) as (H2 & Ea & Ef & _); [cbn; lia|]. cbn in Ea, Ef.
  destruct (activate_view (fr_a_i x + 1) (l, x <| fr_a_i := fr_a_i x + 1 |>)) as [l' x'] eqn:Ex. cbn [fst snd] in *.
  assert (ahead x' < ahead x)%nat as Hlt.
  { unfold ahead. rewrite Ea, Ef. apply (size_filter_lt _ _ _ (fr_a_i x + 1) true); cbn; [done|lia|lia|lia]. }
  destruct (IH l' x' H2) as (H3 & H4 & H5); [lia|]. split; [done|]. split; [done|]. lia.
Qed.

(** Nothing fixed well formed is next after the loop. *)
Definition settled (x : Frontier) : Prop := fr_fixed_well_formed x !! (fr_a_i x + 1) <> Some true.

Lemma advance_all_ok evs ps vs l x :
  frontier_ok evs ps (vs ++ l) x -> let r := advance_all (l, x) in frontier_ok evs ps (vs ++ r.1) r.2 /\ settled r.2 /\ fr_a_i x <= fr_a_i r.2.
Proof.
  intros Hok. apply advance_frontier_ok; [done|]. cbn [snd]. unfold ahead.
  pose proof (map_size_filter (fun p : View * bool => fr_a_i x < p.1) (fr_fixed_well_formed x)). lia.
Qed.

Lemma frontier_enter_ok evs ps vs x v :
  frontier_ok evs ps vs x -> view_ok v -> FeEnter v ∈ evs ->
  let r := frontier_enter v x in frontier_ok evs ps (vs ++ r.1) r.2 /\ fr_a_i x <= fr_a_i r.2 /\ (fr_min_live_view x <= v -> settled r.2 /\ v - 1 <= fr_a_i r.2).
Proof.
  intros Hok Hv Hin. unfold view_ok in Hv. unfold frontier_enter. destruct (Z.ltb_spec v (fr_min_live_view x)).
  { cbn. rewrite app_nil_r. split; [done|]. split; [lia|]. intros. lia. }
  rewrite <- (app_nil_r vs) in Hok. destruct (activate_view_ok evs ps vs [] x v Hok) as (H1 & Ea & _); [done|].
  destruct (activate_view v ([], x)) as [l y]. cbn [fst snd] in *. unfold u64_saturating_sub. rewrite Ea.
  set (y' := if fr_a_i x <? Z.max 0 (v - 1) then y <| fr_a_i := Z.max 0 (v - 1) |> else y).
  assert (frontier_ok evs ps (vs ++ l) y' /\ fr_a_i x <= fr_a_i y' /\ v - 1 <= fr_a_i y') as (H2 & Hle & Hge).
  { unfold y'. destruct (Z.ltb_spec (fr_a_i x) (Z.max 0 (v - 1))); cbn; [|split; [done|lia]]. split; [|lia].
    apply raise_ok; [done|lia|]. intros w Hw. right. exists v. split; [lia|by left]. }
  destruct (advance_all_ok evs ps vs l y' H2) as (H3 & H4 & H5). split; [done|]. split; [lia|]. intros _. split; [done|lia].
Qed.

Lemma record_fixed_ok evs ps vs x v b :
  frontier_ok evs ps vs x -> view_ok v -> FeFixed v b ∈ evs ->
  let r := record_fixed v b x in frontier_ok evs ps (vs ++ r.1) r.2 /\ fr_a_i x <= fr_a_i r.2 /\ (fr_min_live_view x <= v -> settled r.2).
Proof.
  intros Hok Hv Hin. unfold record_fixed. destruct (Z.ltb_spec v (fr_min_live_view x)).
  { cbn. rewrite app_nil_r. split; [done|]. split; [lia|]. intros. lia. }
  set (y := x <| fr_fixed_well_formed ::= <[ v := b ]> |>).
  assert (frontier_ok evs ps (vs ++ []) y) as H1.
  { rewrite app_nil_r. destruct Hok as [F1 F2 F3 F4 F5 F6 F7 F8 F9]. split; try done. cbn. intros w.
    intros [[<- ->]|[_ Hw]]%lookup_insert_Some; [done|by apply F3]. }
  destruct (advance_all_ok evs ps vs [] y H1) as (H2 & H3 & H4). split; [done|]. split; [exact H4|]. done.
Qed.

Lemma frontier_gc_ok evs ps vs x v :
  frontier_ok evs ps vs x -> view_ok v -> FeGc v ∈ evs -> frontier_ok evs ps vs (frontier_gc_below v x) /\ fr_a_i x <= fr_a_i (frontier_gc_below v x).
Proof.
  intros [F1 F2 F3 F4 F5 F6 F7 F8 F9] Hv Hin. unfold frontier_gc_below, view_ok in *. destruct (Z.leb_spec v (fr_min_live_view x)); [split; [by split|lia]|].
  unfold u64_saturating_sub. split; [|cbn; lia]. split; try done; cbn.
  - lia.
  - intros w [Hw _]%map_lookup_filter_Some. by apply F3.
  - intros w Hw. destruct (Z.le_gt_cases w (fr_a_i x)); [apply F4; lia|]. right. exists v. split; [lia|by right].
  - intros p Hp. rewrite elem_of_filter. destruct (F6 p Hp); [|right; lia]. destruct (Z.le_gt_cases v (vp_view p)); [by left|by right].
  - intros w Hw. rewrite elem_of_filter. destruct (F9 w Hw); [|right; lia]. destruct (Z.le_gt_cases v w); [by left|by right].
Qed.

Lemma frontier_ok_tips evs ps vs x x' : same_but_tips x x' -> frontier_ok evs ps vs x -> frontier_ok evs ps vs x'.
Proof. intros -> [F1 F2 F3 F4 F5 F6 F7 F8 F9]. by split. Qed.

Lemma quarantine_tips_same tips s x : same_but_tips x (quarantine_tips tips s x).
Proof.
  unfold quarantine_tips. assert (same_but_tips x (refresh_tip_quarantine s x)) as H0 by (by destruct x). revert H0.
  generalize (refresh_tip_quarantine s x). induction tips as [|tip tips IH]; intros y Hy; [done|]. cbn. apply IH. unfold quarantine_tip.
  destruct (is_exact_quorum _ _); [done|]. case_bool_decide; [done|]. unfold same_but_tips in *. rewrite Hy. by destruct x.
Qed.

(** ** Proposing *)

Lemma propose_view_ok evs ps vs x v s :
  frontier_ok evs ps vs x -> lanes_offer cm s ->
  let r := propose_view v s None x in
  frontier_ok evs (ps ++ option_list r.1) vs r.2 /\ fr_a_i r.2 = fr_a_i x.
Proof.
  intros Hok Ho. unfold propose_view. destruct (may_propose v x) eqn:Hm; cbn [negb fst snd option_list]; [|by rewrite app_nil_r].
  unfold may_propose, already_proposed, frontier_proposer in Hm. rewrite !andb_true_iff, !negb_true_iff, Z.ltb_ge, bool_decide_eq_true, bool_decide_eq_false in Hm.
  destruct Hm as ((Hlive & Hnew) & Hmine). destruct Hok as [F1 F2 F3 F4 F5 F6 F7 F8 F9]. destruct F1 as (E1 & E2 & E3).
  assert (fr_committee (take_turn v x) = cm) as E4 by done.
  destruct (build_manifests_ok s (take_turn v x)) as [Hmf Hsame]; [by rewrite E4|]. rewrite E4 in Hmf.
  destruct (build_manifests s (take_turn v x)) as [[c t] y]. cbn [fst snd] in *. split; [|by rewrite Hsame].
  apply (frontier_ok_tips _ _ _ (take_turn v x) _ Hsame). split; cbn; try done.
  - rewrite fmap_app, NoDup_app. split; [done|]. split; [|apply NoDup_singleton]. cbn. intros w (p & -> & Hp)%list_elem_of_fmap Hw%list_elem_of_singleton.
    destruct (F6 p Hp) as [Hin|Hin]; rewrite Hw in Hin; [done|lia].
  - intros p [Hp| ->%list_elem_of_singleton]%elem_of_app; cbn; [|left; set_solver]. destruct (F6 p Hp); [left; set_solver|by right].
  - apply Forall_app. split; [done|]. constructor; [|constructor]. split_and!; cbn; [|done|].
    + by rewrite <- (one_based_authority_eq cm (fr_proposers x) v E3), Hmine, E2.
    + by apply formed_none.
Qed.

Lemma propose_loop_ok n evs vs echo_sent lanes_at : (forall v, lanes_offer cm (lanes_at v)) -> forall view x ps,
  frontier_ok evs ps vs x ->
  let r := propose_loop n view echo_sent lanes_at x in frontier_ok evs (ps ++ r.1) vs r.2 /\ fr_a_i r.2 = fr_a_i x.
Proof.
  intros Ho. induction n as [|n IH]; intros view x ps Hok; cbn [propose_loop]; [by cbn; rewrite app_nil_r|].
  destruct (_ || _); [by apply IH|]. destruct (propose_view_ok evs ps vs x view (lanes_at view) Hok (Ho view)) as [H1 E1].
  destruct (propose_view view (lanes_at view) None x) as [p y]. cbn [fst snd] in *.
  destruct (IH (u64_add view 1) y (ps ++ option_list p) H1) as [H2 E2]. rewrite E2. split; [|done].
  destruct p; cbn in *; [by rewrite <- (assoc_L (++)) in H2|by rewrite app_nil_r in H2].
Qed.

Context (Hbind : header_binding cm sid mbp) (Hgen : genesis_apart cm sid mbp).

Lemma frontier_step_ok evs ps vs x ev :
  frontier_ok evs ps vs x -> frontier_event_ok ev ->
  let r := frontier_step ev x in frontier_ok (evs ++ [ev]) (ps ++ r.1.1) (vs ++ r.1.2) r.2 /\ fr_a_i x <= fr_a_i r.2.
Proof using Hbind Hgen.
  intros Hok Hev. apply (frontier_ok_more evs ev) in Hok. assert (ev ∈ evs ++ [ev]) as Hin by set_solver.
  destruct ev as [v|v b|v|tips s|om rec echo_sent lanes_at]; cbn [frontier_step frontier_event_ok fst snd] in *; rewrite ?app_nil_r.
  - destruct (frontier_enter_ok _ ps vs x v Hok Hev Hin) as (? & ? & _). done.
  - destruct (record_fixed_ok _ ps vs x v b Hok Hev Hin) as (? & ? & _). done.
  - by apply frontier_gc_ok.
  - pose proof (quarantine_tips_same tips s x) as Hs. split; [by eapply frontier_ok_tips|rewrite Hs; cbn; lia].
  - unfold try_propose_effects. destruct rec; [by cbn; rewrite app_nil_r|]. destruct Hev as [_ Hl].
    match goal with |- context [propose_loop ?n ?v _ _ _] => destruct (propose_loop_ok n (evs ++ [FePropose om false echo_sent lanes_at]) vs echo_sent lanes_at) with v x ps as [H1 E1] end;
      [|done|split; [done|lia]]. intros v. destruct (Hl v) as (P & es & Hr). by eapply (lanes_offer_reached cm sid mbp name P es).
Qed.

Lemma frontier_reaches_ok evs ps vs x : frontier_reaches evs ps vs x -> frontier_ok evs ps vs x.
Proof using Hbind Hgen.
  induction 1 as [x Hx|evs ps vs x ev _ IH Hev]; [|by apply frontier_step_ok].
  unfold frontier_new in Hx. destruct (round_robin_new cm) as [rr|] eqn:Hrr; cbn in Hx; [|done]. injection Hx as <-.
  split; cbn; [done|split; [split; [lia|reflexivity]|lia]|intros w; by rewrite lookup_empty|lia|constructor|intros p Hp; by apply elem_of_nil in Hp|constructor|constructor|].
  intros v Hv. by apply elem_of_nil in Hv.
Qed.
End runs.

(** C10: An honest proposer proposes each view at most once, only in its own turns, and always a well-formed proposal without
    carried entries, whatever its lanes have received and however views were entered, fixed, collected or quarantined
    before; a view is activated at most once; and the frontier passes a view only when its proposal was fixed well
    formed, a later view was entered or it was collected. *)
Theorem own_proposals_safe {Hash : Hashing} cm sid mbp name evs ps vs x :
  header_binding cm sid mbp -> genesis_apart cm sid mbp -> frontier_reaches cm sid mbp name evs ps vs x ->
  NoDup (vp_view <$> ps) /\ Forall (own_proposal_ok cm name) ps /\ NoDup vs /\
  (forall w, 1 <= w <= fr_a_i x -> passed evs w).
Proof.
  intros Hbind Hgen Hr. destruct (frontier_reaches_ok cm sid mbp name Hbind Hgen evs ps vs x Hr) as [F1 F2 F3 F4 F5 F6 F7 F8 F9]. done.
Qed.

(** Party 10 proposes views 1 and 5 of a run, the second without the quarantined tip of lane 20. *)
Section example.
#[local] Existing Instance table_hashing.
Definition lanes_20 : LaneManager * BlockCache := (lane_run committee4 7 100 10 lane_events).2.
Definition lanes_first : LaneManager * BlockCache := (lane_run committee4 7 100 10 [LePublish (fun _ => true) 20 (lane_block 20 1 1 2)]).2.
Definition frontier_events : list FrontierEvent :=
  [FePropose 1 false (fun _ => false) (fun _ => lanes_first); FeFixed 2 true; FeEnter 2; FeQuarantine [(20, 1, 2)] lanes_first;
   FeFixed 3 false; FeGc 2; FeEnter 4; FePropose 6 false (fun _ => false) (fun _ => lanes_20)].
Definition frontier_start : Frontier := mkFrontier 10 committee4 (mkRoundRobin [10; 20; 30; 40]) 0 ∅ ∅ ∅ ∅ 0 1.
Definition frontier_run : list ViewProposal * list View * Frontier :=
  foldl (fun p ev => let r := frontier_step ev p.2 in (p.1.1 ++ r.1.1, p.1.2 ++ r.1.2, r.2)) ([], [], frontier_start) frontier_events.

Lemma frontier_run_reaches evs0 ps vs x l :
  frontier_reaches committee4 7 100 10 evs0 ps vs x -> Forall (frontier_event_ok committee4 7 100 10) l ->
  let r := foldl (fun p ev => let r := frontier_step ev p.2 in (p.1.1 ++ r.1.1, p.1.2 ++ r.1.2, r.2)) (ps, vs, x) l in
  frontier_reaches committee4 7 100 10 (evs0 ++ l) r.1.1 r.1.2 r.2.
Proof.
  revert evs0 ps vs x. induction l as [|ev l IH]; intros evs0 ps vs x Hr Hl; [by rewrite app_nil_r|]. apply Forall_cons in Hl as [Hev Hl].
  cbn [foldl fst snd]. rewrite cons_middle, (assoc_L (++)). apply IH; [by apply fr_event|done].
Qed.

Lemma lanes_reached l : lane_allowed committee4 7 100 10 (fun _ => True) l (lane_start committee4 7 100 10) ->
  exists P es, lane_reaches committee4 7 100 10 P es (lane_run committee4 7 100 10 l).2.
Proof. intros Hl. exists (fun _ => True), (lane_run committee4 7 100 10 l).1. by apply lane_run_reaches. Qed.

Lemma frontier_events_ok : Forall (frontier_event_ok committee4 7 100 10) frontier_events.
Proof.
  assert (exists P es, lane_reaches committee4 7 100 10 P es lanes_20) as H20.
  { apply lanes_reached. unfold lane_events. cbn [lane_allowed lane_event_ok]. repeat split; try exact I; vm_compute; discriminate. }
  assert (exists P es, lane_reaches committee4 7 100 10 P es lanes_first) as H1.
  { apply lanes_reached. cbn [lane_allowed lane_event_ok]. repeat split; try exact I; vm_compute; discriminate. }
  unfold frontier_events. repeat apply Forall_cons_2; cbn [frontier_event_ok]; first [done|split; [by vm_compute|by intros]|split; by vm_compute].
Qed.

Lemma own_proposals_safe_witness :
  (vp_view <$> frontier_run.1.1) = [1; 5] /\ fr_a_i frontier_run.2 = 3 /\ Forall (own_proposal_ok committee4 10) frontier_run.1.1 /\
  passed frontier_events 3.
Proof.
  pose proof (own_proposals_safe committee4 7 100 10 frontier_events frontier_run.1.1 frontier_run.1.2 frontier_run.2
    table_binding (genesis_apart_of_injective committee4 7 100 table_injective)) as H.
  specialize (H (frontier_run_reaches [] [] [] frontier_start frontier_events (fr_start committee4 7 100 10 frontier_start eq_refl) frontier_events_ok)).
  assert (fr_a_i frontier_run.2 = 3) as Ha by (vm_compute; reflexivity).
  destruct H as (_ & H2 & _ & H4). split; [vm_compute; reflexivity|]. split; [exact Ha|]. split; [exact H2|]. apply H4. rewrite Ha. lia.
Defined.
End example.

(** ** Quarantined tips *)

(** Whether a manifest names a block of the author. *)
Definition names (a : PublicKey) (t : Manifest) : bool := bool_decide (a ∈ ref_author <$> t).

(** A sequence of own proposals: how many name the author in their tips, and the final state. *)
Fixpoint probes (a : PublicKey) (l : list (View * (LaneManager * BlockCache))) (x : Frontier) : nat * Frontier :=
  match l with
  | [] => (O, x)
  | (view, s) :: l =>
      let p := propose_view view s None x in
      let r := probes a l p.2 in
      (match p.1 with Some q => if names a (vp_t q) then S r.1 else r.1 | None => r.1 end, r.2)
  end.

(** The author stays in quarantine through the sequence, and every turn is taken. *)
Fixpoint stays (a : PublicKey) (l : list (View * (LaneManager * BlockCache))) (x : Frontier) : Prop :=
  match l with
  | [] => True
  | (view, s) :: l =>
      may_propose view x = true /\ is_Some (fr_quarantined_tips (refresh_tip_quarantine s x) !! a) /\ stays a l (propose_view view s None x).2
  end.

Lemma ordinary_not_quarantined cm s x keys seen a :
  lanes_offer cm s -> is_Some (fr_quarantined_tips x !! a) -> a ∉ ref_author <$> (collect (ordinary_tip x s) keys seen).2.
Proof.
  intros Ho Hq (r & -> & Hr)%list_elem_of_fmap. destruct (collect_spec (ordinary_tip x s) keys seen) as (Hsub & _).
  apply (elem_of_sublist _ _ _ Hr) in Hsub. apply list_elem_of_omap in Hsub as (b & _ & Hb). unfold ordinary_tip in Hb. case_bool_decide as Hn; [done|].
  apply (tip_candidate_of cm s) in Hb as (Hb & _); [|done]. by rewrite Hb in Hq.
Qed.

(** One proposal: the author is not named and its quarantine is as before, or it is probed when due. *)
Lemma build_probe cm s x a q :
  lanes_offer cm s -> fr_quarantined_tips (refresh_tip_quarantine s x) !! a = Some q ->
  let r := build_manifests s x in
  names a r.1.2 = false /\ fr_quarantined_tips r.2 !! a = Some q \/
  names a r.1.2 = true /\ tq_probe_due q <= fr_own_proposal_turn x /\ fr_quarantined_tips r.2 !! a = Some (probed (fr_own_proposal_turn x) q).
Proof.
  intros Ho Hq. unfold build_manifests. set (y := refresh_tip_quarantine s x) in *. set (keys := authority_keys (fr_committee y)).
  set (c := collect (fun a => lm_c_candidate s.1 !! a) keys ∅). set (t := collect (ordinary_tip y s) keys c.1).
  assert (a ∉ ref_author <$> t.2) as Hnot by (apply (ordinary_not_quarantined cm); [done|by eexists]).
  assert (forall l, names a (merge_sort author_le l) = names a l) as Hsort.
  { intros l. unfold names. apply bool_decide_ext. by rewrite (merge_sort_Permutation author_le l). }
  cbn [fst snd]. rewrite Hsort. destruct (select_probe y s t.1 keys) as [[[due b] r]|] eqn:Hp; cbn [fst snd];
    [|left; split; [by apply bool_decide_eq_false|done]].
  apply select_probe_spec in Hp. unfold probe_of in Hp. destruct (fr_quarantined_tips y !! b) as [qb|] eqn:Hqb; cbn in Hp; [|done].
  destruct (Z.ltb_spec (fr_own_proposal_turn x) (tq_probe_due qb)) as [|Hdue]; [done|].
  destruct (tip_candidate s.1 b) as [r'|] eqn:Hr; cbn in Hp; [|done]. case_bool_decide as Hd; [done|]. injection Hp as _ ->.
  rewrite bool_decide_eq_false_2 by done. cbn [fst snd]. apply (tip_candidate_of cm s) in Hr as (Hb & _); [|done]. cbn [fr_quarantined_tips].
  destruct (decide (a = b)) as [->|Hne].
  - right. rewrite Hq in Hqb. injection Hqb as <-. split; [|split; [done|]].
    + apply bool_decide_eq_true. rewrite fmap_app. apply elem_of_app. right. cbn. rewrite Hb. by apply list_elem_of_singleton.
    + change (alter (probed (fr_own_proposal_turn x)) b (fr_quarantined_tips y) !! b = Some (probed (fr_own_proposal_turn x) q)). by rewrite lookup_alter_eq, Hq.
  - left. split; [|change (alter (probed (fr_own_proposal_turn x)) b (fr_quarantined_tips y) !! a = Some q); by rewrite lookup_alter_ne].
    apply bool_decide_eq_false. rewrite fmap_app, elem_of_app. cbn. rewrite list_elem_of_singleton, Hb. naive_solver.
Qed.

(** After [k] probes [2 ^ k] turns pass before the next one. *)
Lemma probe_gap_pow k : 0 <= k <= 62 -> probe_gap k = 2 ^ k.
Proof. intros Hk. unfold probe_gap. rewrite Z.min_l, Z.shiftl_1_l by lia. done. Qed.

Lemma probes_bound cm a l : forall x q t0,
  Forall (fun p => lanes_offer cm p.2) l -> fr_quarantined_tips x !! a = Some q -> stays a l x ->
  0 <= tq_probe_attempt q -> t0 + 2 ^ tq_probe_attempt q <= tq_probe_due q -> 0 <= t0 -> 0 <= fr_own_proposal_turn x ->
  fr_own_proposal_turn x + Z.of_nat (length l) < 2 ^ 62 ->
  let r := probes a l x in
  r.1 = O \/ t0 + 2 ^ (tq_probe_attempt q + Z.of_nat r.1 - 1) <= fr_own_proposal_turn x + Z.of_nat (length l).
Proof.
  induction l as [|[v s] l IH]; intros x q t0 Ho Hq Hs Ha Hd Ht Hx Hlen; [by left|]. apply Forall_cons in Ho as [Ho Hol]. cbn [snd] in Ho.
  cbn [stays probes] in *. destruct Hs as (Hm & [q' Hq'] & Hs).
  assert (q' = q) as -> by (cbn in Hq'; apply map_lookup_filter_Some in Hq' as [Hq' _]; congruence).
  unfold propose_view in *. rewrite Hm in *. cbn [negb fst snd vp_t length] in *.
  set (x1 := take_turn v x) in *. assert (fr_own_proposal_turn x1 = fr_own_proposal_turn x + 1) as Et.
  { cbn. unfold u64_saturating_add. rewrite Z.min_r; [lia|]. assert (2 ^ 62 < u64_max) by reflexivity. lia. }
  assert (fr_own_proposal_turn (build_manifests s x1).2 = fr_own_proposal_turn x1) as Et'.
  { unfold build_manifests. cbn [snd]. destruct (select_probe _ _ _ _) as [[[? ?] ?]|]; [case_bool_decide|]; reflexivity. }
  destruct (build_probe cm s x1 a q Ho Hq') as [[-> Hq1]|(-> & Hdue & Hq1)].
  - destruct (IH _ q t0 Hol Hq1 Hs Ha Hd Ht) as [E|E]; [lia|lia|by left|right]. lia.
  - set (k := tq_probe_attempt q) in *.
    assert (2 ^ k < 2 ^ 62) as Hk by lia. apply Z.pow_lt_mono_r_iff in Hk; [|lia|lia].
    assert (tq_probe_attempt (probed (fr_own_proposal_turn x1) q) = k + 1) as Ek by (cbn; rewrite Z.min_r; [done|]; fold k; assert (63 < u32_max) by reflexivity; lia).
    assert (tq_probe_due (probed (fr_own_proposal_turn x1) q) = fr_own_proposal_turn x1 + 2 ^ k) as Ed.
    { cbn. fold k. rewrite probe_gap_pow by lia. fold x1. unfold u64_saturating_add in *. assert (2 ^ 62 + 2 ^ 62 < u64_max) by reflexivity.
      assert (2 ^ k < 2 ^ 62) by (by apply Z.pow_lt_mono_r). change (fr_own_proposal_turn x1) with (Z.min u64_max (fr_own_proposal_turn x + 1)) in Et. rewrite Et. lia. }
    destruct (IH _ _ t0 Hol Hq1 Hs) as [E|E]; rewrite ?Ek, ?Ed, ?Z.pow_add_r by lia; try lia.
    + rewrite E. right. replace (k + Z.of_nat 1 - 1) with k by lia. lia.
    + right. rewrite Ek in E. rewrite Et', Et in E. replace (k + Z.of_nat (S _) - 1) with (k + 1 + Z.of_nat (probes a l (build_manifests s x1).2).1 - 1) by lia. lia.
Qed.

(** Probes of a quarantined author back off: once its tip is quarantined, [n] of the next [N] own proposals may name it only if
    [2 ^ (n - 1) <= N], as long as it stays in quarantine. *)
Theorem quarantine_backoff {Hash : Hashing} cm sid mbp name a l x w :
  header_binding cm sid mbp -> genesis_apart cm sid mbp ->
  Forall (fun p => exists P es, lane_reaches cm sid mbp name P es p.2) l ->
  fr_quarantined_tips x !! a = Some (mkTipQuarantine w 0 (fr_own_proposal_turn x + 1)) -> stays a l x ->
  0 <= fr_own_proposal_turn x -> fr_own_proposal_turn x + Z.of_nat (length l) < 2 ^ 62 ->
  (probes a l x).1 = O \/ 2 ^ (Z.of_nat (probes a l x).1 - 1) <= Z.of_nat (length l).
Proof.
  intros Hb Hg Hl Hq Hs Ht Hlen.
  destruct (probes_bound cm a l x (mkTipQuarantine w 0 (fr_own_proposal_turn x + 1)) (fr_own_proposal_turn x)) as [H|H];
    [|done|done|cbn; lia|cbn; lia|lia|lia|lia|by left|right; cbn [tq_probe_attempt] in H; rewrite Z.add_0_l in H; lia].
  eapply Forall_impl; [exact Hl|]. cbn. intros p (P & es & Hr). by eapply (lanes_offer_reached cm sid mbp name P es).
Qed.
