(* ===== verification/LaneClaims.v ===== *)
(** Claims of the lane manager.

    What a peer reads from a claim that [build_avail_claim_for_refs] built in a run of the lane manager: the directly
    published references exactly, and for the others the distance to the highest directly published block on their branch. *)

From S2P Require Import Prelude Committee Types Fixtures Claim Blocks BlockChains Acks Avail Repair RepairSettle Lanes LaneOrder LaneInv LaneRuns.

(** ** Branches *)

Section claims.
Context (x : LaneManager) (c : BlockCache).

(** [a] is a block of the chain of verified cached blocks that [r] heads, above genesis. *)
Definition on_branch (r a : BlockRef) : Prop :=
  ref_author a = ref_author r /\ exists l d, (lm_genesis x ∉ l ++ [ref_digest a]) /\
    path (by_digest c) (ref_author r) (Z.to_nat (ref_height r)) (ref_digest r) (l ++ [ref_digest a]) (pred (Z.to_nat (ref_height a))) d.

(** A directly published strict ancestor of [r]. *)
Definition published_ancestor (r a : BlockRef) : Prop := a ∈ lm_direct_pub x /\ ref_height a < ref_height r /\ on_branch r a.

Lemma contains_walk_spec author a n cur : 1 <= ref_height a <= Z.of_nat n ->
  contains_walk (by_digest c) (lm_genesis x) author a n cur = true <->
  exists l d, (lm_genesis x ∉ l ++ [ref_digest a]) /\ path (by_digest c) author n cur (l ++ [ref_digest a]) (pred (Z.to_nat (ref_height a))) d.
Proof.
  revert cur. induction n as [|n IH]; intros cur Hh; [lia|]. cbn [contains_walk]. split.
  - destruct (Z.eqb_spec cur (lm_genesis x)) as [|Hg]; [done|]. destruct (by_digest c !! cur) as [e|] eqn:He; [|done].
    destruct (pinned_at _ _ _) eqn:Hp; [|done]. destruct (ent_block_ok_verified e) eqn:Hv; [|done]. cbn [negb].
    destruct (Z.eqb_spec (Z.of_nat (S n)) (ref_height a)) as [Heq|Hne].
    + intros ->%Z.eqb_eq. exists [], (parent (ent_block e)). cbn [app]. split; [set_solver|].
      rewrite <- Heq, Nat2Z.id. cbn [pred]. econstructor; [done..|]. constructor.
    + intros (l & d & Hl & Hpath)%IH; [|lia]. exists (cur :: l), d. split; [set_solver|]. by econstructor.
  - intros ([|b l] & d & Hl & Hpath); cbn [app] in Hl, Hpath; inversion Hpath as [|? ? e ? ? ? He Hp Hv Hrest]; subst.
    + destruct (Z.eqb_spec (ref_digest a) (lm_genesis x)) as [Heq|_]; [set_solver|]. rewrite He, Hp, Hv. cbn [negb].
      apply path_le in Hrest as [Hle Hlen]. cbn in Hlen. destruct (Z.eqb_spec (Z.of_nat (S n)) (ref_height a)); [by apply Z.eqb_refl|lia].
    + destruct (Z.eqb_spec b (lm_genesis x)) as [Heq|_]; [set_solver|]. rewrite He, Hp, Hv. cbn [negb].
      pose proof (path_le _ _ _ _ _ _ _ Hrest) as [Hle Hlen]. rewrite length_app in Hlen. cbn in Hlen.
      destruct (Z.eqb_spec (Z.of_nat (S n)) (ref_height a)); [lia|]. apply IH; [lia|]. exists l, d. split; [set_solver|done].
Qed.

Context (Hdirect : forall r, r ∈ lm_direct_pub x -> 1 <= ref_height r).
Set Default Proof Using "Type Hdirect".

Lemma prefix_contains_spec r a : a ∈ lm_direct_pub x -> ref_height a < ref_height r ->
  (ref_author a = ref_author r /\ lm_prefix_contains r a (lm_genesis x) c = true <-> on_branch r a).
Proof.
  intros Ha Hlt. apply Hdirect in Ha. unfold lm_prefix_contains, on_branch. destruct (Z.eqb_spec (ref_author r) (ref_author a)) as [He|He]; cbn [negb orb].
  - destruct (Z.ltb_spec (ref_height r) (ref_height a)); [lia|]. rewrite contains_walk_spec by lia. naive_solver.
  - split; [by intros []|intros [? _]; congruence].
Qed.

(** The search finds the highest one. *)
Lemma greatest_direct_ancestor_spec r :
  match greatest_direct_ancestor r x c with
  | Some a => published_ancestor r a /\ forall a', published_ancestor r a' -> ref_height a' <= ref_height a
  | None => forall a', ~ published_ancestor r a'
  end.
Proof.
  unfold greatest_direct_ancestor. set (good := fun q : BlockRef => ref_height q < ref_height r /\ lm_prefix_contains r q (lm_genesis x) c = true).
  assert (forall a', published_ancestor r a' <-> a' ∈ filter good (reverse (author_refs (ref_author r) (lm_direct_pub x)))) as Hin.
  { intros a'. rewrite list_elem_of_filter, elem_of_reverse, elem_of_author_refs. unfold published_ancestor, good. split.
    - intros (H1 & H2 & H3). pose proof (proj2 (prefix_contains_spec r a' H1 H2) H3). naive_solver.
    - intros ((H1 & H2) & H3 & H4). split_and!; [done|done|]. by apply prefix_contains_spec. }
  assert (StronglySorted (flip kle) (filter good (reverse (author_refs (ref_author r) (lm_direct_pub x))))) as Hs
    by (apply sorted_filter, sorted_reverse, sorted_filter, set_iter_sorted).
  destruct (filter good _) as [|a l]; cbn [head].
  - intros a' Ha'. apply Hin in Ha'. by apply elem_of_nil in Ha'.
  - assert (published_ancestor r a) as Ha by (apply Hin; left). split; [done|]. intros a' Ha'. pose proof Ha' as [->|Hl]%Hin%elem_of_cons; [lia|].
    apply StronglySorted_inv in Hs as [_ Hs]. rewrite Forall_forall in Hs. specialize (Hs _ Hl). cbn in Hs.
    apply kle_ref in Hs; [lia|]. destruct Ha as (_ & _ & -> & _), Ha' as (_ & _ & -> & _). done.
Qed.
End claims.
Unset Default Proof Using.

(** C33: An availability claim says what the sender holds.  In every state of a run of the lane manager and for any reference vector of at most
    65,536 entries, the receiver's [AvailClaim::statements] extracts from the claim that the sender's
    [build_avail_claim_for_refs] built exactly one statement per reference that the sender can support, the exact ones first, each
    kind in the order of the references: an exact one for a directly published reference, and for another one the distance to the highest directly
    published block below it on its branch of verified blocks; there is none only if no such block exists. *)
Theorem lane_claim_roundtrip {Hash : Hashing} cm sid mbp name P es s refs :
  header_binding cm sid mbp -> genesis_apart cm sid mbp -> lane_reaches cm sid mbp name P es s ->
  Z.of_nat (length refs) <= u16_max + 1 ->
  exists distance : BlockRef -> option Height,
    statements (lm_build_avail_claim_for_refs refs s.1 s.2) refs =
      (Exact <$> filter (fun r => r ∈ lm_direct_pub s.1) refs) ++ omap (fun r => Ancestor r <$> distance r) refs /\
    forall r, match distance r with
      | Some d => (r ∉ lm_direct_pub s.1) /\ 0 < d < ref_height r /\ exists a, published_ancestor s.1 s.2 r a /\ d = ref_height r - ref_height a /\
          forall a', published_ancestor s.1 s.2 r a' -> ref_height a' <= ref_height a
      | None => r ∈ lm_direct_pub s.1 \/ forall a', ~ published_ancestor s.1 s.2 r a'
      end.
Proof.
  intros Hbind Hgen Hr Hlen. pose proof (lane_reaches_ok cm sid mbp name Hbind Hgen P es s Hr) as Hok.
  assert (forall r, r ∈ lm_direct_pub s.1 -> 1 <= ref_height r) as Hd.
  { intros r Hin. apply (lo_direct _ _ _ _ _ _ Hok), (lo_acked _ _ _ _ _ _ Hok) in Hin. apply Hin. }
  set (direct := fun r : BlockRef => bool_decide (r ∈ lm_direct_pub s.1)). set (ancestor := fun r => greatest_direct_ancestor r s.1 s.2).
  exists (expected_short direct ancestor). split.
  - unfold lm_build_avail_claim_for_refs. rewrite claim_roundtrip; [|intros r a Ha|done].
    + unfold expected_statements. f_equal. f_equal. apply list_filter_iff. intros r. apply bool_decide_eq_true.
    + pose proof (greatest_direct_ancestor_spec s.1 s.2 Hd r) as Hs. rewrite Ha in Hs. destruct Hs as [(H1 & H2 & _) _]. apply Hd in H1. lia.
  - intros r. unfold expected_short, direct. case_bool_decide as Hin; [by left|]. unfold ancestor.
    pose proof (greatest_direct_ancestor_spec s.1 s.2 Hd r) as Hs. destruct (greatest_direct_ancestor r s.1 s.2) as [a|]; cbn; [|by right].
    destruct Hs as [Ha Hmax]. split; [done|]. pose proof Ha as (H1 & H2 & _). apply Hd in H1. split; [lia|]. by exists a.
Qed.

(** Party 10 has the first two blocks of lane 20 from their author and the third by repair. *)
Definition claim_events : list LaneEvent :=
  [LePublish (fun _ => true) 20 (lane_block 20 1 1 2); LePublish (fun _ => true) 20 (lane_block 20 2 2 3);
   LeCache (OpUpsert (lane_block 20 3 3 4) false true true)].

Lemma lane_claim_roundtrip_witness :
  let s := (@lane_run table_hashing committee4 7 100 10 claim_events).2 in
  let refs := [(20, 2, 3); (20, 3, 4); (30, 1, 5)] in
  statements (lm_build_avail_claim_for_refs refs s.1 s.2) refs = [Exact (20, 2, 3); Ancestor (20, 3, 4) 1] /\
  exists a, published_ancestor s.1 s.2 (20, 3, 4) a /\ ref_height a = 2.
Proof.
  intros s refs. assert (statements (lm_build_avail_claim_for_refs refs s.1 s.2) refs = [Exact (20, 2, 3); Ancestor (20, 3, 4) 1]) as Hst
    by (vm_compute; reflexivity). split; [exact Hst|].
  destruct (@lane_claim_roundtrip table_hashing committee4 7 100 10 (fun _ => True)
    (@lane_run table_hashing committee4 7 100 10 claim_events).1 s refs
    table_binding (genesis_apart_of_injective _ _ _ table_injective)) as (distance & Heq & Hd); [|vm_compute; discriminate|].
  { apply lane_run_reaches. unfold claim_events. cbn [lane_allowed lane_event_ok]. repeat split; vm_compute; discriminate. }
  rewrite Hst in Heq. clear Hst. clearbody s. specialize (Hd (20, 3, 4)). destruct (distance (20, 3, 4)) as [d|] eqn:Hdist.
  - destruct Hd as (_ & _ & a & Ha & Hd & _). exists a. split; [exact Ha|].
    assert (Ancestor (20, 3, 4) d ∈ [Exact (20, 2, 3); Ancestor (20, 3, 4) 1]) as Hin.
    { rewrite Heq. apply elem_of_app. right. apply list_elem_of_omap. exists (20, 3, 4). rewrite Hdist. split; [right; left|reflexivity]. }
    apply elem_of_cons in Hin as [Hin|Hin]; [discriminate|]. apply list_elem_of_singleton in Hin. injection Hin as ->.
    change (ref_height (20, 3, 4)) with 3 in Hd. lia.
  - exfalso. assert (Ancestor (20, 3, 4) 1 ∈ [Exact (20, 2, 3); Ancestor (20, 3, 4) 1]) as Hin by (right; left).
    rewrite Heq in Hin. apply elem_of_app in Hin as [Hin|Hin].
    + apply list_elem_of_fmap in Hin as (? & ? & _). discriminate.
    + apply list_elem_of_omap in Hin as (r & _ & Hr). destruct (distance r) eqn:Hr'; [|discriminate]. cbn in Hr. injection Hr as -> ->. congruence.
Defined.
