(* ===== verification/LaneTrace.v ===== *)
(** What the lane manager sends.

    Apart from publishing, restarting and recovering, no operation touches the own
    lane, and a reference is acknowledged when it enters the set of acknowledged
    references.  So the own lane is one chain across restarts, and an
    acknowledgement is sent once and for a lineage of valid blocks. *)

From S2P Require Import Prelude Committee Types Fixtures Blocks BlockChains Acks Avail Repair RepairSettle Lanes LaneOrder LaneInv LaneRuns.

Abbreviation LS := (LaneManager * BlockCache)%type (only parsing).

Definition published (es : list Effect) : list Header :=
  omap (fun e => match e with BroadcastPublish h => Some h | _ => None end) es.
Definition acks_of (es : list Effect) : list Ack :=
  omap (fun e => match e with BroadcastAck a => Some a | _ => None end) es.
Definition ack_of (sender : PublicKey) (r : BlockRef) : Ack := mkAck (ref_author r) (ref_height r) (ref_digest r) sender.

Lemma published_app es es' : published (es ++ es') = published es ++ published es'.
Proof. apply omap_app. Qed.
Lemma acks_app es es' : acks_of (es ++ es') = acks_of es ++ acks_of es'.
Proof. apply omap_app. Qed.

(** The configuration, the own frontier and the store. *)
Definition own_part (x : LaneManager) :=
  (lm_committee x, lm_sid x, lm_genesis x, lm_max_block_payload x, lm_name x, lm_own_frontier x, lm_store_frontier x, lm_store_header x).

(** Steps that acknowledge what they record, and nothing twice. *)
Definition once (s : LS) (es : list Effect) (s' : LS) : Prop :=
  lm_name s'.1 = lm_name s.1 /\
  exists l, acks_of es = ack_of (lm_name s.1) <$> l /\ lm_acked s'.1 = lm_acked s.1 ∪ list_to_set l /\
    NoDup l /\ forall r, r ∈ l -> r ∉ lm_acked s.1.

#[export] Instance once_trace : TraceRel once.
Proof.
  split.
  - intros s. split; [done|]. exists []. split_and!; [done|set_solver|constructor|set_solver].
  - intros s1 s2 s3 es1 es2 (H1 & l1 & A1 & S1 & N1 & F1) (H2 & l2 & A2 & S2 & N2 & F2).
    split; [congruence|]. exists (l1 ++ l2). split_and!.
    + by rewrite acks_app, fmap_app, A1, A2, H1.
    + rewrite S2, S1, list_to_set_app_L. set_solver.
    + apply NoDup_app. split_and!; [done| |done]. intros r Hr1 Hr2. apply (F2 r Hr2). set_solver.
    + intros r [Hr|Hr]%elem_of_app; [by apply F1|]. apply F2 in Hr. set_solver.
Qed.

Lemma once_same s es s' : lm_name s'.1 = lm_name s.1 -> lm_acked s'.1 = lm_acked s.1 -> acks_of es = [] -> once s es s'.
Proof. intros H1 H2 H3. split; [done|]. exists []. rewrite H2. split_and!; [done|set_solver|constructor|set_solver]. Qed.

(** Steps that also leave the own lane alone. *)
Definition quiet (s : LS) (es : list Effect) (s' : LS) : Prop :=
  own_part s'.1 = own_part s.1 /\ published es = [] /\ once s es s'.

#[export] Instance quiet_trace : TraceRel quiet.
Proof.
  split; [intros s; split_and!; [done|done|apply trace_refl]|].
  intros s1 s2 s3 es1 es2 (H1 & P1 & O1) (H2 & P2 & O2).
  split_and!; [congruence|by rewrite published_app, P1, P2|by eapply trace_trans].
Qed.

(** Steps on the cache and on the parts of the manager [quiet] does not mention. *)
Lemma quiet_same s es s' : own_part s'.1 = own_part s.1 -> lm_acked s'.1 = lm_acked s.1 ->
  published es = [] -> acks_of es = [] -> quiet s es s'.
Proof. intros H1 H2 H3 H4. split_and!; [done|done|]. apply once_same; try done. by injection H1 as _ _ _ _ -> _ _ _. Qed.

Lemma quiet_lanes : sat quiet lanes.
Proof. intros s. by apply quiet_same. Qed.
Lemma quiet_blocks : sat quiet blocks.
Proof. intros s. by apply quiet_same. Qed.
Lemma quiet_with_blocks {A} (f : BlockCache -> A * BlockCache) : sat quiet (with_blocks f).
Proof. intros s. by apply quiet_same. Qed.
Lemma quiet_with_avail {A} (f : BlockCache -> M Effect AvailResolver A) : sat quiet (with_avail f).
Proof. intros s. by apply quiet_same. Qed.
Lemma quiet_on_lanes f : (forall x, own_part (f x) = own_part x /\ lm_acked (f x) = lm_acked x) -> sat quiet (on_lanes f).
Proof. intros Hf s. destruct (Hf s.1). by apply quiet_same. Qed.
Lemma quiet_emit e : published [e] = [] -> acks_of [e] = [] -> sat quiet (emit e).
Proof. intros H1 H2 s. by apply quiet_same. Qed.

Create HintDb quiet discriminated.
#[export] Hint Resolve quiet_lanes quiet_blocks quiet_with_blocks quiet_with_avail : quiet.

(** Split a computation into its steps. *)
Ltac quiet_step :=
  repeat first
    [ solve [trivial with quiet nocore]
    | apply sat_bind; [apply _| |intros ?; cbv beta zeta]
    | apply quiet_on_lanes; intros ?; by repeat (case_match || case_bool_decide)
    | by apply quiet_emit
    | apply sat_ret, _
    | apply sat_when; [apply _|]
    | apply sat_for_each; [apply _|intros ?]
    | case_match ].

Lemma quiet_check r : sat quiet (direct_pub_check r).
Proof. unfold direct_pub_check, check_walks. quiet_step. Qed.
#[export] Hint Resolve quiet_check : quiet.

Lemma quiet_refresh_registers a : sat quiet (refresh_registers a).
Proof. unfold refresh_registers. quiet_step. Qed.
#[export] Hint Resolve quiet_refresh_registers : quiet.

Lemma quiet_enqueue r : sat quiet (enqueue_pending_direct r).
Proof. unfold enqueue_pending_direct, inherited_direct_prefix_blocker, park_pending_direct_on. quiet_step. Qed.
#[export] Hint Resolve quiet_enqueue : quiet.

Lemma own_part_wake l : forall x, own_part (foldl wake_one x l) = own_part x /\ lm_acked (foldl wake_one x l) = lm_acked x.
Proof.
  induction l as [|r l IH]; intros x; [done|]. cbn [foldl]. destruct (IH (wake_one x r)) as [-> ->].
  unfold wake_one. by repeat case_match.
Qed.

Lemma quiet_wake d : sat quiet (wake_pending_direct_blocker d).
Proof.
  unfold wake_pending_direct_blocker, clear_direct_prefix_blocker. quiet_step. apply quiet_on_lanes. intros x.
  by destruct (own_part_wake (set_iter g) (x <| lm_waiters ::= delete d |>)) as [-> ->].
Qed.
#[export] Hint Resolve quiet_wake : quiet.

(** The checks only memoise in the cache. *)
Lemma check_same r s : wp (direct_pub_check r) s (fun _ es s' => s'.1 = s.1 /\ es = []).
Proof.
  assert (wp (check_walks r) s (fun _ es s' => s'.1 = s.1 /\ es = [])) as Hw.
  { unfold check_walks. apply wp_bind, wp_lanes, wp_bind, wp_with_blocks. case_match; [by apply wp_ret|].
    by apply wp_bind, wp_with_blocks, wp_ret. }
  unfold direct_pub_check. apply wp_bind, wp_lanes, wp_bind, wp_blocks. case_match; [by apply wp_ret|].
  case_match; [|exact Hw]. case_match; [by apply wp_ret|exact Hw].
Qed.

Lemma quiet_record r : sat quiet (record_direct_pub r).
Proof.
  apply quiet_on_lanes. intros x. cbv zeta. split; repeat case_match; done.
Qed.
#[export] Hint Resolve quiet_record : quiet.

Lemma quiet_ack r s : r ∉ lm_acked s.1 ->
  sat_at quiet (on_lanes (fun x => x <| lm_acked ::= union {[ r ]} |>);; x ← lanes; emit (BroadcastAck (ack_of (lm_name x) r))) s.
Proof.
  intros Hr. split_and!; [done|done|]. split; [done|]. exists [r]. split_and!; [done|cbn; set_solver|by apply NoDup_singleton|set_solver].
Qed.

Lemma quiet_confirmed r s : r ∉ lm_acked s.1 -> sat_at quiet (on_direct_pub_confirmed r) s.
Proof.
  intros Hr. unfold on_direct_pub_confirmed. apply sat_at_bind; [apply _|apply quiet_with_blocks|].
  set (s1 := st (retain_prefix r s)). assert (r ∉ lm_acked s1.1) as Hr1 by done.
  apply (sat_at_eq _ _ ((on_lanes (fun x => x <| lm_acked ::= union {[ r ]} |>);; x ← lanes; emit (BroadcastAck (ack_of (lm_name x) r)));;
    record_direct_pub r)); [done|].
  apply sat_at_bind; [apply _|by apply quiet_ack|apply quiet_record].
Qed.

Lemma quiet_refresh_one r : sat quiet (refresh_one r).
Proof.
  intros s. unfold refresh_one. apply sat_at_bind; [apply _|apply quiet_lanes|]. cbn [val st lanes].
  case_bool_decide as Hr.
  { assert (sat quiet (on_lanes (fun x => x <| lm_pending_direct ::= fun s => s ∖ {[ r ]} |>);; mret false)) as H by quiet_step.
    apply H. }
  apply sat_at_bind; [apply _|apply quiet_check|]. destruct (check_same r s) as [Hs _].
  destruct (val (direct_pub_check r s)) as [|b|].
  - apply sat_at_bind; [apply _|by apply quiet_on_lanes|]. apply sat_at_bind; [apply _| |by apply sat_ret, _].
    apply quiet_confirmed. cbn. by rewrite Hs.
  - assert (sat quiet (block_pending_direct_on r b;; mret false)) as H; [|apply H].
    unfold block_pending_direct_on, park_pending_direct_on. quiet_step.
  - apply sat_ret, _.
Qed.
#[export] Hint Resolve quiet_refresh_one : quiet.

Lemma quiet_refresh_author a : sat quiet (refresh_author a).
Proof.
  assert (forall l, sat quiet (refresh_all l)) as Hall.
  { intros l. induction l as [|r l IH]; cbn [refresh_all]; [apply sat_ret, _|].
    apply sat_bind; [apply _|apply quiet_refresh_one|intros b]. apply sat_bind; [apply _|apply IH|intros b']. apply sat_ret, _. }
  unfold refresh_author. quiet_step; apply Hall.
Qed.
#[export] Hint Resolve quiet_refresh_author : quiet.

Lemma quiet_refresh_woken d : sat quiet (refresh_woken_pending_direct d).
Proof. unfold refresh_woken_pending_direct. quiet_step. Qed.
#[export] Hint Resolve quiet_refresh_woken : quiet.

Lemma quiet_process_publish {Hash : Hashing} stored sender h : sat quiet (process_publish_inner stored sender h).
Proof.
  unfold process_publish_inner, note_direct_prefix_self_blocker.
  quiet_step.
Qed.
#[export] Hint Resolve quiet_process_publish : quiet.

Lemma promote_all_own l : forall x, own_part (foldl (fun x r => promote_exact r x) x l) = own_part x /\
  lm_acked (foldl (fun x r => promote_exact r x) x l) = lm_acked x.
Proof.
  induction l as [|r l IH]; intros x; [done|]. cbn [foldl]. destruct (IH (promote_exact r x)) as [-> ->].
  unfold promote_exact. by case_match.
Qed.

(** The operations apart from the three that move the own lane. *)
Definition foreign_event (e : LaneEvent) : Prop :=
  match e with LePublishOwn _ | LeRestart _ | LeCrash _ _ _ | LeRecover _ => False | _ => True end.

Lemma quiet_exec {Hash : Hashing} sid e : foreign_event e -> sat quiet (lane_exec sid e).
Proof.
  destruct e; cbn [foreign_event lane_exec]; try done; intros _.
  - apply quiet_process_publish.
  - unfold set_payload_ready. quiet_step.
  - unfold process_ack_availability, process_availability. quiet_step.
  - unfold process_claim_availability, process_availability. quiet_step.
  - unfold lm_resolve_watermark. quiet_step.
  - unfold lm_retry_pending_avail. quiet_step.
  - unfold lm_note_claim. quiet_step. apply quiet_on_lanes. intros x. apply promote_all_own.
  - unfold take_avail_flush. quiet_step.
  - unfold lm_holds_prefix, retain_prefix. quiet_step.
  - unfold lm_locally_available, lm_holds_prefix, retain_prefix. quiet_step.
  - unfold lm_author_ok, direct_pub. quiet_step.
  - apply quiet_with_blocks.
  - by apply quiet_on_lanes.
Qed.
