(* ===== verification/OwnLane.v ===== *)
(** The own lane across crashes and restarts.

    The headers a party ever built for its lane form one chain, whatever is received
    in between and wherever in [publish_own] the process dies, because the frontier
    is written to the store before the header is sent - provided that the write is flushed to
    the database before the process dies.  A write that is still pending then is lost,
    and [crash_before_flush_forks] shows how the lane forks. *)

From S2P Require Import Prelude Committee Types Fixtures Blocks BlockChains Acks Avail Repair RepairSettle Lanes LaneOrder LaneInv LaneRuns LaneTrace.

Section own.
Context {Hash : Hashing} (cm : Committee) (sid : Digest) (mbp : Z) (name : PublicKey).
Abbreviation genesis := (genesis_digest sid) (only parsing).

Definition tip (chain : list Header) : Height * Digest :=
  match last chain with Some h => (hd_height h, hd_id h) | None => (0, genesis) end.

(** One block per height from 1, each naming the one before. *)
Inductive own_chain : list Header -> Prop :=
| own_chain_nil : own_chain []
| own_chain_snoc chain h : own_chain chain -> hd_author h = name -> hd_height h = Z.of_nat (length chain) + 1 ->
    parent h = (tip chain).2 -> own_chain (chain ++ [h]).

Lemma own_chain_lookup chain i h : own_chain chain -> chain !! i = Some h -> hd_height h = Z.of_nat i + 1.
Proof.
  intros Hc. revert i. induction Hc as [|chain h' Hc IH _ Hh _]; intros i Hi; [done|].
  apply lookup_app_Some in Hi as [Hi|[Hle Hi]]; [by apply IH|].
  apply list_lookup_singleton_Some in Hi as [Hi <-]. rewrite Hh. lia.
Qed.

Lemma own_chain_unique chain h h' : own_chain chain -> h ∈ chain -> h' ∈ chain -> hd_height h = hd_height h' -> h = h'.
Proof.
  intros Hc [i Hi]%list_elem_of_lookup [j Hj]%list_elem_of_lookup Hh.
  pose proof (own_chain_lookup _ _ _ Hc Hi). pose proof (own_chain_lookup _ _ _ Hc Hj).
  assert (i = j) as -> by lia. congruence.
Qed.

Lemma own_chain_tip chain : own_chain chain -> (tip chain).1 = Z.of_nat (length chain).
Proof. destruct 1 as [|chain h _ _ Hh _]; [done|]. unfold tip. rewrite last_snoc, length_app. cbn. lia. Qed.

(** What memory and store remember of the chain. *)
Record own_inv (chain : list Header) (x : LaneManager) : Prop := {
  oi_chain : own_chain chain;
  oi_config : lm_name x = name /\ lm_sid x = sid /\ lm_genesis x = genesis;
  oi_frontier : lm_own_frontier x = tip chain;
  oi_stored : lm_store_frontier x =
    if decide (chain = []) then None else Some (mkPersistedFrontier sid (tip chain).1 (tip chain).2);
  oi_header rec : lm_store_header x = Some rec -> pfh_header rec ∈ chain;
}.

Lemma own_inv_part chain x x' : own_part x' = own_part x -> own_inv chain x -> own_inv chain x'.
Proof. intros [= E1 E2 E3 E4 E5 E6 E7 E8] [A1 A2 A3 A4 A5]. split; by rewrite ?E2, ?E3, ?E5, ?E6, ?E7, ?E8. Qed.

(** The chain with the header [publish_own] builds. *)
Lemma own_inv_next chain x payload h torn : own_inv chain x -> publishable cm mbp name x payload ->
  new_vantage (lm_name x) (u64_add (lm_own_frontier x).1 1) payload (lm_own_frontier x).2 (lm_sid x) = h ->
  own_inv (chain ++ [h]) (x <| lm_own_frontier := (u64_add (lm_own_frontier x).1 1, hd_id h) |>
    <| lm_store_frontier := Some (mkPersistedFrontier (lm_sid x) (u64_add (lm_own_frontier x).1 1) (hd_id h)) |>
    <| lm_store_header := if torn : bool then lm_store_header x else Some (mkPersistedFrontierHeader (lm_sid x) h) |>).
Proof.
  intros [A1 (E1 & E2 & E3) A3 A4 A5] (_ & _ & Hh & _) <-. pose proof (own_chain_tip _ A1) as Ht. rewrite A3 in *.
  rewrite E1, E2, u64_add_small by lia.
  set (h := new_vantage name ((tip chain).1 + 1) payload (tip chain).2 sid).
  assert (tip (chain ++ [h]) = ((tip chain).1 + 1, hd_id h)) as Htip by (unfold tip at 1; by rewrite last_snoc).
  split; try done.
  - apply own_chain_snoc; try done. change (hd_height h) with ((tip chain).1 + 1). lia.
  - rewrite decide_False by (by destruct chain). by rewrite Htip.
  - intros rec. destruct torn; cbn; [intros Hrec%A5|intros [= <-]]; apply elem_of_app; [by left|right; by left].
Qed.

Lemma wp_restart chain s : own_inv chain s.1 -> lm_disk s.1 = (lm_store_frontier s.1, lm_store_header s.1) ->
  wp restart s (fun _ es s' => own_inv chain s'.1 /\ forall h, h ∈ published es -> h ∈ chain).
Proof.
  intros [A1 (E1 & E2 & E3) A3 A4 A5] Hd. pose proof (own_chain_tip _ A1) as Ht. unfold restart. apply wp_bind.
  set (x := restarted s.1).
  assert (lm_store_frontier x = lm_store_frontier s.1 /\ lm_store_header x = lm_store_header s.1) as [Ex Ey] by (unfold x; cbn; by rewrite Hd). change (wp _ s ?Q) with (Q tt [] (x, cache_new)). cbv beta. apply wp_bind.
  eapply (wp_mono _ _ (fun _ es s' => published es = [] /\ own_inv chain s'.1 /\ forall h, lm_seeded_anchor s'.1 = Some h -> h ∈ chain)).
  - unfold restore_own_frontier. apply wp_bind, wp_lanes. cbn [fst]. rewrite Ex, A4. case_decide as Hnil.
    { apply wp_skip. subst chain. split_and!; [done| |done]. split; try done; [cbn; by rewrite E3| |]; cbn [fst]; [by rewrite Ex, A4|by rewrite Ey]. }
    change (lm_sid x) with (lm_sid s.1). cbn [pf_sid pf_height pf_digest]. rewrite E2, Z.eqb_refl. cbn [negb].
    assert (0 < (tip chain).1) as Hpos by (destruct chain; [done|cbn in Ht; lia]).
    change (lm_own_frontier x).1 with 0. destruct (Z.leb_spec (tip chain).1 0) as [|_]; [lia|].
    apply wp_bind, wp_on_lanes. cbn [fst snd].
    assert (own_inv chain (x <| lm_own_frontier := ((tip chain).1, (tip chain).2) |>)) as Hx.
    { split; try done; [cbn; by destruct (tip chain)|change (lm_store_frontier x = if decide (chain = []) then None else Some (mkPersistedFrontier sid (tip chain).1 (tip chain).2))|].
      - by rewrite Ex, A4, decide_False.
      - change (forall rec, lm_store_header x = Some rec -> pfh_header rec ∈ chain). by rewrite Ey. }
    set (x1 := x <| lm_own_frontier := _ |>) in *. unfold seed_own_anchor_from_store. apply wp_bind, wp_lanes. cbn [fst snd].
    destruct (lm_store_header x1) as [rec|] eqn:Hrec; [|by apply wp_skip]. pose proof (oi_header _ _ Hx _ Hrec) as Hin.
    repeat (case_match; [by apply wp_skip|]). apply wp_bind, wp_with_blocks, wp_on_lanes. split_and!; [done| |].
    + by apply (own_inv_part chain x1).
    + by intros h [= <-].
  - intros [] es s1 (Hp & Hi & Hs). apply wp_bind. unfold take_seeded_anchor. apply wp_bind, wp_lanes, wp_bind, wp_on_lanes, wp_ret.
    assert (own_inv chain ((s1.1) <| lm_seeded_anchor := None |>)) as Hi' by (by apply (own_inv_part chain s1.1)).
    destruct (lm_seeded_anchor s1.1) as [h0|]; [apply wp_emit|apply wp_skip]; (split; [done|]); intros h;
      rewrite ?published_app, Hp; cbn; [|intros []%not_elem_of_nil]. intros ->%list_elem_of_singleton. by apply Hs.
Qed.

(** With everything flushed. *)
Lemma wp_crash chain s : own_inv chain s.1 ->
  wp (crash true) s (fun _ es s' => own_inv chain s'.1 /\ forall h, h ∈ published es -> h ∈ chain).
Proof.
  intros Hi. unfold crash. apply wp_bind, wp_on_lanes. cbn [fst snd]. eapply wp_mono; [apply wp_restart|].
  - by apply (own_inv_part chain s.1).
  - done.
  - done.
Qed.

Lemma wp_publish_own chain payload s : own_inv chain s.1 -> publishable cm mbp name s.1 payload ->
  wp (publish_own payload) s (fun h es s' => own_inv (chain ++ [h]) s'.1 /\ published es = [h]).
Proof.
  intros Hi Hp. unfold publish_own. apply wp_bind, wp_lanes. destruct (lm_own_frontier s.1) as [height prev] eqn:Ef.
  set (h := new_vantage _ _ _ _ _). pose proof (own_inv_next chain s.1 payload h false Hi Hp) as Hn. rewrite Ef in Hn.
  apply wp_bind, wp_on_lanes, wp_bind, wp_bind, wp_on_lanes, wp_on_lanes, wp_bind.
  eapply wp_sat; [apply quiet_process_publish|]. intros [] es s1 (Ho & Hpub & _). apply wp_bind, wp_emit, wp_ret.
  split; [by eapply own_inv_part; [exact Ho|apply Hn]|]. rewrite !published_app, Hpub. done.
Qed.

Lemma wp_publish_crash chain torn payload s : own_inv chain s.1 -> publishable cm mbp name s.1 payload ->
  wp (publish_crash torn true payload) s (fun _ es s' => exists h, own_inv (chain ++ [h]) s'.1 /\ forall h', h' ∈ published es -> h' ∈ chain ++ [h]).
Proof.
  intros Hi Hp. unfold publish_crash. apply wp_bind, wp_lanes. destruct (lm_own_frontier s.1) as [height prev] eqn:Ef.
  set (h := new_vantage _ _ _ _ _). pose proof (own_inv_next chain s.1 payload h torn Hi Hp) as Hn. rewrite Ef in Hn.
  specialize (Hn eq_refl). apply wp_bind, wp_on_lanes, wp_bind.
  eapply (wp_mono _ _ (fun _ es s' => es = [] /\ own_inv (chain ++ [h]) s'.1)).
  { destruct torn; [apply wp_on_lanes|apply wp_bind, wp_on_lanes, wp_on_lanes]; (split; [done|]); by apply (own_inv_part _ _ _ eq_refl Hn). }
  intros [] es s1 [-> Hs1]. eapply wp_mono; [by apply wp_crash|]. intros [] es' s2 [H1 H2]. exists h. done.
Qed.

(** No recovery from a checkpoint, and no process dies with writes that are not flushed. *)
Definition keeps_lane (e : LaneEvent) : Prop :=
  match e with LeRecover _ | LeRestart false | LeCrash _ false _ => False | _ => True end.

Lemma own_step chain e s : keeps_lane e -> lane_event_ok cm sid mbp name e s -> own_inv chain s.1 ->
  exists chain', own_inv chain' (st (lane_exec sid e s)).1 /\ (forall h, h ∈ chain -> h ∈ chain') /\
    forall h, h ∈ published (out (lane_exec sid e s)) -> h ∈ chain'.
Proof.
  intros He Hok Hi.
  assert (foreign_event e -> exists chain', own_inv chain' (st (lane_exec sid e s)).1 /\ (forall h, h ∈ chain -> h ∈ chain') /\
    forall h, h ∈ published (out (lane_exec sid e s)) -> h ∈ chain') as Hf.
  { intros Hf. destruct (quiet_exec sid e Hf s) as (Ho & Hp & _). exists chain. rewrite Hp.
    split_and!; [by eapply own_inv_part|done|by intros h ?%not_elem_of_nil]. }
  destruct e; try (by apply Hf); try done; cbn [lane_event_ok lane_exec] in *; clear Hf.
  - destruct (wp_publish_own chain payload s Hi Hok) as [H1 H2]. eexists. split_and!; [exact H1|set_solver|].
    change (out ((publish_own payload;; skip) s)) with (out (publish_own payload s) ++ []). rewrite app_nil_r, H2. set_solver.
  - destruct flushed; [|done]. destruct (wp_crash chain s Hi) as [H1 H2]. by exists chain.
  - destruct flushed; [|done]. destruct (wp_publish_crash chain torn payload s Hi Hok) as (h & H1 & H2). exists (chain ++ [h]). split_and!; [done|set_solver|done].
Qed.

Lemma own_lane_chain es s : lane_reaches cm sid mbp name keeps_lane es s ->
  exists chain, own_inv chain s.1 /\ forall h, h ∈ published es -> h ∈ chain.
Proof.
  induction 1 as [|e es s Hr (chain & Hi & Hsub) He Hok].
  { exists []. split; [|by intros h]. split; try done. constructor. }
  destruct (own_step chain e s He Hok Hi) as (chain' & Hi' & Hc & Hp). exists chain'. split; [done|].
  intros h. rewrite published_app, elem_of_app. naive_solver.
Qed.

(** A header record of another height does not seed an anchor. *)
Lemma seed_mismatch s : (forall rec, lm_store_header s.1 = Some rec -> hd_height (pfh_header rec) <> (lm_own_frontier s.1).1) ->
  wp seed_own_anchor_from_store s (fun _ es s' => es = [] /\ s' = s).
Proof.
  intros Hne. unfold seed_own_anchor_from_store. apply wp_bind, wp_lanes.
  destruct (lm_store_header s.1) as [rec|]; [|by apply wp_skip]. case_match; [by apply wp_skip|].
  rewrite (bool_decide_eq_false_2 (_ = lm_own_frontier s.1)); [rewrite orb_true_r; by apply wp_skip|].
  intros Heq. apply (Hne rec eq_refl). by rewrite <- Heq.
Qed.

(** A crash between the two writes of [persist_own_frontier], with a flush between them, leaves a frontier whose
    block was neither sent nor kept: the restart broadcasts nothing and caches nothing,
    and the next own block is built on top of the lost one. *)
Lemma torn_persist_loses_block chain payload s : own_inv chain s.1 -> publishable cm mbp name s.1 payload ->
  wp (publish_crash true true payload) s (fun _ es s' =>
    lm_own_frontier s'.1 = ((lm_own_frontier s.1).1 + 1, hd_id (next_header sid name s.1 payload)) /\
    published es = [] /\ s'.2 = cache_new).
Proof.
  intros Hi Hp. destruct Hi as [A1 (E1 & E2 & E3) A3 A4 A5]. pose proof (own_chain_tip _ A1) as Ht.
  unfold publish_crash. apply wp_bind, wp_lanes. destruct (lm_own_frontier s.1) as [height prev] eqn:Ef.
  destruct Hp as (_ & _ & Hh & _). rewrite Ef in Hh. cbn [fst] in Hh. rewrite <- A3 in Ht. cbn [fst] in Ht.
  rewrite E1, E2, u64_add_small by lia. unfold next_header. rewrite Ef. cbn [fst snd].
  set (h := new_vantage _ _ _ _ _). apply wp_bind, wp_on_lanes, wp_bind, wp_on_lanes. unfold crash, restart.
  apply wp_bind, wp_on_lanes, wp_bind. change (wp _ ?t ?Q) with (Q tt [] (restarted t.1, cache_new)). cbv beta. apply wp_bind.
  unfold restore_own_frontier. apply wp_bind, wp_lanes. cbn [fst snd].
  match goal with |- wp (match ?f with Some _ => _ | None => _ end) _ _ =>
    change f with (Some (mkPersistedFrontier (lm_sid s.1) (height + 1) (hd_id h))) end.
  cbn [pf_sid pf_height pf_digest].
  match goal with |- wp (if ?b then _ else _) _ _ => replace b with false by (symmetry; apply negb_false_iff, Z.eqb_refl) end.
  match goal with |- wp (if ?b then _ else _) _ _ => replace b with false by (symmetry; apply Z.leb_gt; change (0 < height + 1); lia) end.
  apply wp_bind, wp_on_lanes. eapply wp_mono; [apply seed_mismatch|].
  { intros rec Hrec. pose proof (A5 rec Hrec) as [i Hi]%list_elem_of_lookup. pose proof (own_chain_lookup _ _ _ A1 Hi).
    apply lookup_lt_Some in Hi. change (hd_height (pfh_header rec) <> height + 1). lia. }
  intros [] es s1 [-> ->]. by apply wp_bind, wp_bind, wp_lanes, wp_bind, wp_on_lanes, wp_ret, wp_skip.
Qed.
End own.

(** C19: The own lane does not fork if the process never dies with unflushed writes.  For a party that
    starts with an empty database and then publishes, receives blocks, acknowledgements and
    claims from anyone, crashes at any point - inside [publish_own] too, after either of its
    two writes - when the store has flushed what was written, and restarts from the database, in any
    order, the headers it broadcasts all belong to one chain of its own blocks, one per height
    from 1, each naming its predecessor; two broadcast headers of the same height are equal;
    the frontier it will extend is the tip of that chain; and the next publication broadcasts
    exactly one header, on top of that tip. *)
Theorem own_lane_linear {Hash : Hashing} cm sid mbp name es s :
  lane_reaches cm sid mbp name keeps_lane es s ->
  exists chain, own_chain sid name chain /\ lm_own_frontier s.1 = tip sid chain /\
    (forall h, h ∈ published es -> h ∈ chain) /\
    (forall h h', h ∈ published es -> h' ∈ published es -> hd_height h = hd_height h' -> h = h') /\
    (forall payload, publishable cm mbp name s.1 payload ->
      exists h, published (out (publish_own payload s)) = [h] /\ own_chain sid name (chain ++ [h])).
Proof.
  intros (chain & Hi & Hsub)%own_lane_chain. exists chain. pose proof (oi_chain _ _ _ _ Hi) as Hc. split_and!.
  - done.
  - apply (oi_frontier _ _ _ _ Hi).
  - done.
  - intros h h' Hh Hh'. by apply (own_chain_unique sid name chain); auto.
  - intros payload Hp. destruct (wp_publish_own cm sid mbp name chain payload s Hi Hp) as [H1 H2].
    eexists. split; [exact H2|]. apply (oi_chain _ _ _ _ H1).
Qed.

(** Party 20 publishes twice, dies before it sends the second block, and publishes again. *)
Definition own_events : list LaneEvent := [LePublishOwn ∅; LeStoreFlush; LeCrash false true ∅; LePublishOwn ∅; LeRestart true].

(** A process that dies before the flush loses the frontier it has broadcast: the new process builds another
    block of the same height. *)
Definition fork_events : list LaneEvent := [LePublishOwn ∅; LeRestart false; LePublishOwn {[ 50 := 0 ]}].

Lemma crash_before_flush_forks :
  lane_reaches (Hash := table_hashing) committee4 7 100 20 (fun _ => True) (@lane_run table_hashing committee4 7 100 20 fork_events).1
    (@lane_run table_hashing committee4 7 100 20 fork_events).2 /\
  ((fun h => (hd_height h, map_iter (hd_payload h))) <$> published (@lane_run table_hashing committee4 7 100 20 fork_events).1) = [(1, []); (1, [(50, 0)])].
Proof.
  split; [|vm_compute; reflexivity]. apply lane_run_reaches. unfold fork_events. cbn [lane_allowed lane_event_ok].
  repeat split; vm_compute; (reflexivity || discriminate).
Qed.

Lemma own_lane_linear_witness :
  hd_height <$> published (@lane_run table_hashing committee4 7 100 20 own_events).1 = [1; 2; 3; 3] /\
  exists chain, @own_chain table_hashing 7 20 chain /\
    lm_own_frontier (@lane_run table_hashing committee4 7 100 20 own_events).2.1 = @tip table_hashing 7 chain.
Proof.
  split; [vm_compute; reflexivity|].
  destruct (@own_lane_linear table_hashing committee4 7 100 20 (@lane_run table_hashing committee4 7 100 20 own_events).1
    (@lane_run table_hashing committee4 7 100 20 own_events).2) as (chain & H1 & H2 & _).
  - apply lane_run_reaches. unfold own_events. cbn [lane_allowed keeps_lane lane_event_ok].
    repeat split; vm_compute; (reflexivity || discriminate).
  - exists chain. exact (conj H1 H2).
Defined.
