(* ===== verification/LaneAcks.v ===== *)
(** What an acknowledgement vouches for.

    A block of another party is acknowledged only when it and all its ancestors were
    received from their author and their payloads are held: [backed] says so in
    terms of the events of the run, and [data_ok] carries it through the cache's
    memoised walks. *)

From S2P Require Import Prelude Committee Types Fixtures Blocks BlockChains Acks Avail Repair RepairSettle Lanes LaneOrder LaneInv LaneRuns LaneTrace.

Section acks.
Context {Hash : Hashing} (cm : Committee) (sid : Digest) (mbp : Z) (name : PublicKey).
Context (Hbind : header_binding cm sid mbp) (P : LaneEvent -> Prop).
Abbreviation genesis := (genesis_digest sid) (only parsing).
Abbreviation cache_ok := (cache_ok cm sid mbp) (only parsing).
Abbreviation valid := (valid cm sid mbp) (only parsing).

(** Some event of the run delivered the block from its author. *)
Definition direct_from (d : Digest) : Prop := exists stored h, P (LePublish stored (hd_author h) h) /\ hd_id h = d.

(** Some event found the payload in the store, or reported that it arrived. *)
Definition payload_ready (d : Digest) : Prop :=
  (exists stored sender h, P (LePublish stored sender h) /\ hd_id h = d /\
    forall p, p ∈ map_iter (hd_payload h) -> stored p = true) \/ P (LePayloadReady d).

Inductive backed (a : PublicKey) : nat -> Digest -> Prop :=
| backed_genesis : backed a 0 genesis
| backed_block n h : valid h -> hd_author h = a -> hd_height h = Z.of_nat (S n) ->
    direct_from (hd_id h) -> payload_ready (hd_id h) -> backed a n (parent h) -> backed a (S n) (hd_id h).

Definition entry_backed (d : Digest) (e : BlockEntry) : Prop :=
  hd_author (ent_block e) <> name ->
  (ent_direct e = true -> direct_from d) /\ (ent_payload_ok e = true -> payload_ready d) /\
  (ent_direct_prefix_verified e = true -> backed (hd_author (ent_block e)) (Z.to_nat (hd_height (ent_block e))) d).

Definition cache_backed (c : BlockCache) : Prop := forall d e, by_digest c !! d = Some e -> entry_backed d e.

(** ** The cache *)

Lemma cache_backed_flags c c' : cache_backed c ->
  (forall d e', by_digest c' !! d = Some e' -> exists e, by_digest c !! d = Some e /\ ent_block e' = ent_block e /\
    ent_direct e' = ent_direct e /\ ent_payload_ok e' = ent_payload_ok e /\
    ent_direct_prefix_verified e' = ent_direct_prefix_verified e) -> cache_backed c'.
Proof.
  intros Hc Hf d e' He'. destruct (Hf d e' He') as (e & He & E1 & E2 & E3 & E4). unfold entry_backed.
  rewrite E1, E2, E3, E4. by apply Hc.
Qed.

Lemma cache_backed_mark c f ds : cache_backed c -> (forall e, f (f e) = f e) ->
  (forall e, ent_block (f e) = ent_block e /\ ent_direct (f e) = ent_direct e /\ ent_payload_ok (f e) = ent_payload_ok e) ->
  (forall d e, d ∈ ds -> by_digest c !! d = Some e -> hd_author (ent_block e) <> name ->
    ent_direct_prefix_verified (f e) = true -> backed (hd_author (ent_block e)) (Z.to_nat (hd_height (ent_block e))) d) ->
  cache_backed (mark_all f ds c).
Proof.
  intros Hc Hf Hs Hm d e'. rewrite lookup_mark_all by done. destruct (by_digest c !! d) as [e|] eqn:He; [|done].
  intros [= <-]. case_decide as Hd; [|by apply Hc]. destruct (Hs e) as (E1 & E2 & E3). unfold entry_backed.
  rewrite E1, E2, E3. intros Hne. destruct (Hc d e He Hne) as (H1 & H2 & _). split_and!; [done|done|]. by apply Hm.
Qed.

Lemma note_missing_digest r c : by_digest (note_missing r c) = by_digest c.
Proof. destruct r as [[[a h] d]|]; [|done]. cbn. unfold note_missing_parent. by case_match. Qed.

Lemma cache_backed_note r c : cache_backed c -> cache_backed (note_missing r c).
Proof. intros Hc d e. rewrite note_missing_digest. apply Hc. Qed.

Definition memo_backed (c : BlockCache) (l : list Digest) : Prop := forall d e, d ∈ l -> by_digest c !! d = Some e ->
  hd_author (ent_block e) <> name -> backed (hd_author (ent_block e)) (Z.to_nat (hd_height (ent_block e))) d.

Lemma direct_walk_backed c a n cur acc walked r :
  cache_ok c -> cache_backed c -> direct_walk (by_digest c) genesis a n cur acc = (DVerified, walked, r) ->
  (a <> name -> backed a n cur) /\ (memo_backed c acc -> memo_backed c walked).
Proof.
  intros Hc Hb. revert cur acc. induction n as [|n IH]; intros cur acc; cbn [direct_walk].
  - destruct (Z.eqb_spec cur genesis) as [->|]; [|done]. intros [= <- _]. split; [constructor|done].
  - destruct (Z.eqb_spec cur genesis) as [->|Hg]; [done|].
    destruct (by_digest c !! cur) as [e|] eqn:He; [|done].
    destruct (pinned_at e a _) eqn:Hpin; cbn [negb]; [|done]. apply pinned_at_spec in Hpin as [Ha Hh].
    pose proof (Hb cur e He) as Hcb. unfold entry_backed in Hcb. rewrite Ha, Hh, Nat2Z.id in Hcb.
    destruct (ent_direct_prefix_verified e) eqn:Hcv; [intros [= <- _]; split; [naive_solver|done]|].
    destruct (ent_direct e), (ent_payload_ok e); cbn [negb andb]; try done. intros [Hl Hm]%IH.
    destruct (co_valid _ _ _ _ Hc _ _ He) as [Hid Hv].
    assert (a <> name -> backed a (S n) cur) as Hcur.
    { intros Hne. destruct (Hcb Hne) as (B1 & B2 & _). rewrite <- Hid in *. apply backed_block; auto. }
    split; [done|]. intros Hacc. apply Hm. intros d e' [Hd| ->%list_elem_of_singleton]%elem_of_app He'; [by eapply Hacc|].
    rewrite He in He'. injection He' as <-. by rewrite Ha, Hh, Nat2Z.id.
Qed.

Lemma direct_prefix_backed d c : cache_ok c -> cache_backed c ->
  cache_backed (direct_prefix_check genesis d c).2 /\
  ((direct_prefix_check genesis d c).1 = DVerified -> forall e, by_digest c !! d = Some e -> hd_author (ent_block e) <> name ->
    backed (hd_author (ent_block e)) (Z.to_nat (hd_height (ent_block e))) d).
Proof.
  intros Hc Hb. unfold direct_prefix_check. destruct (by_digest c !! d) as [e|] eqn:He; [|done].
  destruct (ent_direct_prefix_verified e) eqn:Hd.
  { split; [done|]. intros _ e' [= <-] Hne. by apply (Hb d e He Hne). }
  destruct (direct_walk _ _ _ _ _ _) as [[res walked] r] eqn:Hw. destruct res as [|g|]; [|by split; [apply cache_backed_note|]..].
  apply direct_walk_backed in Hw as [Hl Hm]; [|done..]. split; [|by intros _ e' [= <-]].
  apply cache_backed_mark; try done. intros d' e' Hd' He' Hne _.
  apply (Hm ltac:(by intros ?? ?%not_elem_of_nil) _ _ Hd' He' Hne).
Qed.

Lemma verified_prefix_backed d c : cache_backed c -> cache_backed (verified_prefix_through_genesis genesis d c).2.
Proof.
  intros Hb. unfold verified_prefix_through_genesis. destruct (by_digest c !! d) as [e|]; [|done].
  destruct (ent_chain_verified e); [done|]. destruct (chain_walk _ _ _ _ _ _) as [[[] walked] r]; [|by apply cache_backed_note].
  cbn [snd]. apply (cache_backed_flags c); [done|]. intros d' e'. rewrite lookup_mark_all by done.
  destruct (by_digest c !! d') as [e0|]; [|done]. intros [= <-]. exists e0. by case_decide.
Qed.

(** Inserting a block with flags the run accounts for. *)
Lemma upsert_backed h dr rp pl c : cache_ok c -> cache_backed c -> valid h ->
  (hd_author h <> name -> (dr = true -> direct_from (hd_id h)) /\ (pl = true -> payload_ready (hd_id h))) ->
  cache_backed (upsert h dr rp pl true c).
Proof.
  intros Hc Hb Hv Hf d e'. unfold upsert. cbn. intros [[<- <-]|[_ He']]%lookup_insert_Some; [|by apply Hb].
  destruct (by_digest c !! hd_id h) as [e|] eqn:He.
  - destruct (co_valid _ _ _ _ Hc _ _ He) as [Hid Hv'].
    pose proof (Hbind (ent_block e) h (proj1 Hv') (proj1 Hv) (proj2 Hv') (proj2 Hv) Hid) as [= Ea Eh _].
    intros Hne. cbn in *. destruct (Hf Hne) as [F1 F2]. destruct (Hb _ _ He ltac:(congruence)) as (B1 & B2 & B3).
    rewrite !orb_true_iff. rewrite Ea, Eh in B3. naive_solver.
  - intros Hne. cbn in *. destruct (Hf Hne) as [F1 F2]. done.
Qed.

Lemma seed_backed h dr rp pl c : cache_ok c -> cache_backed c -> valid h -> hd_author h = name ->
  cache_backed ((upsert h dr rp pl true c) <| by_digest ::= alter anchored (hd_id h) |>).
Proof.
  intros Hc Hb Hv Ha. pose proof (upsert_backed h dr rp pl c Hc Hb Hv ltac:(done)) as Hu. intros d e'. cbn [by_digest].
  change (by_digest ?c <| by_digest ::= ?f |>) with (f (by_digest c)).
  destruct (decide (d = hd_id h)) as [->|Hne]; [|rewrite lookup_alter_ne by done; apply Hu].
  rewrite lookup_alter_eq. unfold upsert at 1. cbn. rewrite lookup_insert_eq. intros [= <-] Hne. exfalso. apply Hne. cbn.
  by destruct (by_digest c !! hd_id h).
Qed.

Lemma flag_backed d e f c : cache_backed c -> by_digest c !! d = Some e -> entry_backed d (f e) ->
  cache_backed (c <| by_digest ::= <[ d := f e ]> |>).
Proof. intros Hc He Hf d' e'. cbn. intros [[<- <-]|[_ ?]]%lookup_insert_Some; [done|by apply Hc]. Qed.

Lemma mark_retained_backed d c : cache_backed c -> cache_backed (mark_retained d c).2.
Proof.
  intros Hb. unfold mark_retained. destruct (by_digest c !! d) as [e|] eqn:He; [|done]. case_match; [|done].
  apply (flag_backed d e _ c Hb He). by apply (Hb d e).
Qed.

Lemma retain_walk_backed g n : forall cur c, cache_backed c -> cache_backed (retain_walk g n cur c).
Proof.
  induction n as [|n IH]; intros cur c Hc; cbn [retain_walk]; (case_match; [done|]); [done|].
  destruct (by_digest c !! cur); [|done]. case_match; [done|]. by apply IH, mark_retained_backed.
Qed.

Lemma set_payload_backed d c : cache_backed c -> payload_ready d -> cache_backed (set_payload_ok d true c).2.
Proof.
  intros Hb Hp. unfold set_payload_ok. destruct (by_digest c !! d) as [e|] eqn:He; [|done]. case_match; [|done].
  apply (flag_backed d e _ c Hb He). intros Hne. by destruct (Hb d e He Hne) as (? & ? & ?).
Qed.

Lemma evict_backed a h c : cache_backed c -> cache_backed (evict_author_below a h c).2.
Proof.
  intros Hb. unfold evict_author_below. destruct (by_author c !! a); [|done]. intros d e. cbn.
  intros [He _]%map_lookup_filter_Some. by apply Hb.
Qed.

(** What the repairer and the garbage collection do to the cache. *)
Definition repair_op (op : CacheOp) : Prop :=
  match op with
  | OpUpsert _ direct _ payload_ok => direct = false /\ payload_ok = false
  | OpSeedOwn _ | OpSeedRecovered _ | OpSetPayloadOk _ _ => False
  | _ => True
  end.

Lemma repair_op_backed op c : cache_ok c -> cache_backed c -> cache_op_ok cm sid mbp op -> repair_op op -> cache_backed (cache_exec sid op c).
Proof.
  intros Hc Hb. destruct op as [b dr rp pl|b|b|d|d ok|a h|cap|d|d]; cbn [cache_op_ok repair_op cache_exec]; try done.
  - intros Hv [-> ->]. by apply upsert_backed.
  - intros _ _. by apply mark_retained_backed.
  - intros _ _. by apply evict_backed.
  - intros _ _. by apply direct_prefix_backed.
  - intros _ _. by apply verified_prefix_backed.
Qed.

(** ** The manager *)

Definition ref_backed (r : BlockRef) : Prop :=
  ref_author r <> name -> backed (ref_author r) (Z.to_nat (ref_height r)) (ref_digest r).

Record data_ok (s : LS) : Prop := {
  da_cache : cache_ok s.2;
  da_backed : cache_backed s.2;
  da_config : lm_committee s.1 = cm /\ lm_sid s.1 = sid /\ lm_genesis s.1 = genesis /\ lm_max_block_payload s.1 = mbp /\ lm_name s.1 = name;
  da_acked r : r ∈ lm_acked s.1 -> ref_backed r;
}.

Definition keeps (s : LS) (es : list Effect) (s' : LS) : Prop := data_ok s -> data_ok s'.

#[local] Instance keeps_trace : TraceRel keeps.
Proof. split; unfold keeps; auto. Qed.

Lemma keeps_lanes : sat keeps lanes.
Proof. by intros s ?. Qed.
Lemma keeps_blocks : sat keeps blocks.
Proof. by intros s ?. Qed.
Lemma keeps_emit e : sat keeps (emit e).
Proof. by intros s ?. Qed.
Lemma keeps_with_avail {A} (f : BlockCache -> M Effect AvailResolver A) : sat keeps (with_avail f).
Proof. intros s [A1 A2 A3 A4]. by split. Qed.
Lemma keeps_with_blocks {A} (f : BlockCache -> A * BlockCache) :
  (forall c, cache_ok c -> cache_backed c -> cache_ok (f c).2 /\ cache_backed (f c).2) -> sat keeps (with_blocks f).
Proof. intros Hf s [A1 A2 A3 A4]. destruct (Hf s.2 A1 A2). by split. Qed.

Definition config_of (x : LaneManager) := (lm_committee x, lm_sid x, lm_genesis x, lm_max_block_payload x, lm_name x).

Lemma keeps_on_lanes f : (forall x, config_of (f x) = config_of x /\ lm_acked (f x) = lm_acked x) -> sat keeps (on_lanes f).
Proof.
  intros Hf s [A1 A2 A3 A4]. destruct (Hf s.1) as [[= E1 E2 E3 E4 E5] E6].
  split; cbn; rewrite ?E1, ?E2, ?E3, ?E4, ?E5, ?E6; done.
Qed.

Lemma verified_prefix_blocks d c d' e' : by_digest (verified_prefix_through_genesis genesis d c).2 !! d' = Some e' ->
  exists e, by_digest c !! d' = Some e /\ ent_block e' = ent_block e.
Proof.
  unfold verified_prefix_through_genesis. destruct (by_digest c !! d); [|by eauto]. case_match; [by eauto|].
  destruct (chain_walk _ _ _ _ _ _) as [[[] walked] r]; cbn [snd]; [|rewrite note_missing_digest; by eauto].
  rewrite lookup_mark_all by done. destruct (by_digest c !! d') as [e0|]; [|done]. intros [= <-]. exists e0. by case_decide.
Qed.

Lemma check_walks_data s r : data_ok s -> exact_entry r s.2 = true ->
  wp (check_walks r) s (fun res es s' => data_ok s' /\ (res = Confirmed -> ref_backed r)).
Proof.
  intros [A1 A2 A3 A4] Hex. unfold check_walks. apply wp_bind, wp_lanes, wp_bind, wp_with_blocks.
  destruct A3 as (E1 & E2 & E3 & E4 & E5). rewrite E3.
  pose proof (verified_prefix_ok cm sid mbp (ref_digest r) s.2 A1) as B1.
  pose proof (verified_prefix_backed (ref_digest r) s.2 A2) as B2.
  pose proof (verified_prefix_blocks (ref_digest r) s.2 (ref_digest r)) as B3.
  destruct (verified_prefix_through_genesis genesis (ref_digest r) s.2) as [v c1]. cbn [fst snd] in *.
  destruct v; cbn [negb]; [|by apply wp_ret]. apply wp_bind, wp_with_blocks, wp_ret. cbn [fst snd].
  pose proof (direct_prefix_check_ok cm sid mbp (ref_digest r) c1 B1) as C1.
  destruct (direct_prefix_backed (ref_digest r) c1 B1 B2) as [C2 C3]. split; [by split|].
  destruct (direct_prefix_check genesis (ref_digest r) c1) as [[|g|] c2] eqn:Hd; cbn [fst snd] in *; [|done..].
  intros _ Hne. unfold direct_prefix_check in Hd. destruct (by_digest c1 !! ref_digest r) as [e1|] eqn:He1; [|done].
  destruct (B3 e1 eq_refl) as (e & He & Eb). unfold exact_entry in Hex. rewrite He in Hex.
  apply andb_true_iff in Hex as [Ha%Z.eqb_eq Hh%Z.eqb_eq]. specialize (C3 eq_refl e1 eq_refl).
  rewrite Eb, Ha, Hh in C3. by apply C3.
Qed.

Lemma check_data s r : data_ok s -> wp (direct_pub_check r) s (fun res es s' => data_ok s' /\ (res = Confirmed -> ref_backed r)).
Proof.
  intros Hs. unfold direct_pub_check. apply wp_bind, wp_lanes, wp_bind, wp_blocks.
  destruct (exact_entry r s.2) eqn:Hex; cbn [negb]; [|by apply wp_ret].
  case_match; [case_match; [by apply wp_ret|]|]; by apply check_walks_data.
Qed.

Lemma keeps_retain r : sat keeps (retain_prefix r).
Proof.
  apply sat_bind; [apply _|apply keeps_lanes|intros x]. apply keeps_with_blocks. intros c Hc Hb.
  split; [by apply (retain_walk_ok cm sid mbp Hbind)|by apply retain_walk_backed].
Qed.

Lemma keeps_record r : sat keeps (record_direct_pub r).
Proof. apply keeps_on_lanes. intros x. cbv zeta. split; repeat case_match; done. Qed.

Lemma confirmed_data s r : data_ok s -> ref_backed r -> wp (on_direct_pub_confirmed r) s (fun _ _ s' => data_ok s').
Proof.
  intros Hs Hr. unfold on_direct_pub_confirmed. apply wp_bind. eapply wp_sat; [apply keeps_retain|]. intros [] es s1 [A1 A2 A3 A4]%(fun H => H Hs).
  apply wp_bind, wp_on_lanes, wp_bind, wp_lanes, wp_bind, wp_emit. eapply wp_sat; [apply keeps_record|].
  intros [] es' s2 H2. apply H2. split; try done. cbn. intros q [->%elem_of_singleton|Hq]%elem_of_union; [done|by apply A4].
Qed.

(** Split a computation into its steps. *)
Ltac keeps_step :=
  repeat first
    [ apply sat_bind; [apply _| |intros ?; cbv beta zeta]
    | apply keeps_on_lanes; intros ?; by repeat (case_match || case_bool_decide)
    | apply keeps_lanes | apply keeps_blocks | apply keeps_with_avail | apply keeps_emit
    | apply sat_ret, _
    | apply sat_when; [apply _|]
    | apply sat_for_each; [apply _|intros ?]
    | case_match ].

Lemma keeps_registers a : sat keeps (refresh_registers a).
Proof. unfold refresh_registers. keeps_step. Qed.

Lemma keeps_enqueue r : sat keeps (enqueue_pending_direct r).
Proof. unfold enqueue_pending_direct, inherited_direct_prefix_blocker, park_pending_direct_on. keeps_step. Qed.

Lemma keeps_wp {A} (m : LM A) : (forall s, data_ok s -> wp m s (fun _ _ s' => data_ok s')) -> sat keeps m.
Proof. intros Hm s Hs. by apply (Hm s). Qed.

Lemma keeps_refresh_one r : sat keeps (refresh_one r).
Proof.
  apply keeps_wp. intros s Hs. unfold refresh_one. apply wp_bind, wp_lanes. case_bool_decide.
  { assert (sat keeps (on_lanes (fun x => x <| lm_pending_direct ::= fun s => s ∖ {[ r ]} |>);; mret false)) as H' by keeps_step.
    by apply (H' s). }
  apply wp_bind. eapply wp_mono; [by apply check_data|]. intros res es s1 [Hs1 Hr]. destruct res as [|b|]; [| |by apply wp_ret].
  - apply wp_bind, wp_on_lanes, wp_bind. eapply wp_mono; [apply confirmed_data; [|by apply Hr]|by intros; apply wp_ret].
    destruct Hs1 as [A1 A2 A3 A4]. by split.
  - assert (sat keeps (block_pending_direct_on r b;; mret false)) as H'; [|by apply (H' s1)].
    unfold block_pending_direct_on, park_pending_direct_on. keeps_step.
Qed.

Lemma keeps_refresh_author a : sat keeps (refresh_author a).
Proof.
  assert (forall l, sat keeps (refresh_all l)) as Hall.
  { intros l. induction l as [|r l IH]; cbn [refresh_all]; [apply sat_ret, _|].
    apply sat_bind; [apply _|apply keeps_refresh_one|intros b]. apply sat_bind; [apply _|apply IH|intros b']. apply sat_ret, _. }
  unfold refresh_author. keeps_step; apply Hall.
Qed.

Lemma config_wake l : forall x, config_of (foldl wake_one x l) = config_of x /\ lm_acked (foldl wake_one x l) = lm_acked x.
Proof. intros x. destruct (own_part_wake l x) as [[= ?????] ?]. unfold config_of. split; [congruence|done]. Qed.

Lemma keeps_refresh_woken d : sat keeps (refresh_woken_pending_direct d).
Proof.
  unfold refresh_woken_pending_direct. apply sat_bind; [apply _| |intros authors; apply sat_for_each; [apply _|apply keeps_refresh_author]].
  unfold wake_pending_direct_blocker, clear_direct_prefix_blocker. keeps_step. apply keeps_on_lanes. intros x.
  by destruct (config_wake (set_iter g) (x <| lm_waiters ::= delete d |>)) as [-> ->].
Qed.

(** A block that arrives: its flags are what the event says. *)
Lemma keeps_publish stored sender h : typed_header h -> (hd_author h <> name -> P (LePublish stored sender h)) ->
  sat keeps (process_publish_inner stored sender h).
Proof.
  intros Ht HP. apply keeps_wp. intros s Hs. unfold process_publish_inner. apply wp_bind, wp_lanes.
  case_match; [by apply wp_skip|]. destruct (block_ok _ _ _ _) eqn:Hb; cbn [negb]; [|by apply wp_skip].
  destruct Hs as [A1 A2 A3 A4]. destruct A3 as (E1 & E2 & E3 & E4 & E5). rewrite E1, E2, E4 in Hb.
  apply wp_bind, wp_with_blocks. cbn [fst snd]. set (direct := sender =? hd_author h). set (ready := bool_decide _).
  assert (data_ok (s.1, upsert h direct false ready true s.2)) as Hu.
  { split; try done.
    - by apply (cache_exec_ok cm sid mbp Hbind (OpUpsert h direct false ready)).
    - apply upsert_backed; try done. intros Hne. specialize (HP Hne). split.
      + intros Hd%Z.eqb_eq. subst sender. by exists stored, h.
      + intros Hr%bool_decide_eq_true. left. exists stored, sender, h. split_and!; [done|done|]. intros p Hp.
        unfold missing_payload in Hr. rewrite E5 in Hr. apply Z.eqb_neq in Hne. rewrite Hne in Hr.
        destruct (stored p) eqn:Hsp; [done|]. exfalso. apply (not_elem_of_nil p). rewrite <- Hr. by apply list_elem_of_filter. }
  match goal with |- wp ?m _ _ => assert (sat keeps m) as Hm end; [|by apply (Hm _ Hu)].
  apply sat_bind; [apply _| |intros ?].
  { unfold note_direct_prefix_self_blocker. repeat case_match; [apply keeps_enqueue|keeps_step|keeps_step]. }
  apply sat_bind; [apply _|apply keeps_emit|intros ?]. apply sat_bind; [apply _|keeps_step|intros ?].
  apply sat_bind; [apply _|apply keeps_refresh_author|intros ?]. apply sat_when; [apply _|apply keeps_refresh_woken].
Qed.

Lemma keeps_payload_ready d : P (LePayloadReady d) -> sat keeps (set_payload_ready d).
Proof.
  intros HP. unfold set_payload_ready. apply sat_bind; [apply _| |intros ?].
  { apply keeps_with_blocks. intros c Hc Hb. split; [by apply (cache_exec_ok cm sid mbp Hbind (OpSetPayloadOk d true))|].
    apply set_payload_backed; [done|by right]. }
  apply sat_bind; [apply _|apply keeps_blocks|intros c].
  apply sat_bind; [apply _| |intros ?; apply sat_when; [apply _|apply keeps_refresh_woken]].
  case_match; [|keeps_step]. apply sat_when; [apply _|]. apply sat_bind; [apply _|apply keeps_enqueue|intros ?]. apply keeps_refresh_author.
Qed.

Lemma verified_prefix_data s d : data_ok s -> wp (with_blocks (verified_prefix_through_genesis (lm_genesis s.1) d)) s
  (fun _ _ s' => data_ok s').
Proof.
  intros [A1 A2 A3 A4]. apply wp_with_blocks. destruct A3 as (E1 & E2 & E3 & E4 & E5). rewrite E3.
  split; try done; cbn [snd]; [by apply verified_prefix_ok|by apply verified_prefix_backed].
Qed.

Lemma keeps_holds_prefix r : sat keeps (lm_holds_prefix r).
Proof.
  apply keeps_wp. intros s Hs. unfold lm_holds_prefix. apply wp_bind, wp_lanes, wp_bind, wp_blocks.
  case_match; [by apply wp_ret|]. apply wp_bind. eapply wp_mono; [apply (verified_prefix_data s (ref_digest r) Hs)|].
  intros v es s1 Hs1. apply wp_bind. destruct v; cbn [when]; [|by apply wp_skip, wp_ret].
  eapply wp_sat; [apply keeps_retain|]. intros [] es' s2 H2. by apply wp_ret, H2.
Qed.

Lemma keeps_foreign e : foreign_event e -> (forall op, e = LeCache op -> cache_op_ok cm sid mbp op /\ repair_op op) ->
  (forall stored sender h, e = LePublish stored sender h -> typed_header h) -> P e -> sat keeps (lane_exec sid e).
Proof.
  intros Hf Hc Ht HP. destruct e; cbn [foreign_event lane_exec] in *; try done.
  - apply keeps_publish; [by eapply Ht|done].
  - by apply keeps_payload_ready.
  - unfold process_ack_availability, process_availability. keeps_step.
  - unfold process_claim_availability, process_availability. keeps_step.
  - unfold lm_resolve_watermark. keeps_step.
  - unfold lm_retry_pending_avail. keeps_step.
  - unfold lm_note_claim. keeps_step. apply keeps_on_lanes. intros x.
    destruct (promote_all_own (cc_newly_exact_quorum a) x) as [[= ?????] ?]. unfold config_of. split; [congruence|done].
  - unfold take_avail_flush. keeps_step.
  - apply sat_bind; [apply _|apply keeps_holds_prefix|intros ?]. apply sat_ret, _.
  - apply sat_bind; [apply _| |intros ?; apply sat_ret, _]. unfold lm_locally_available.
    apply sat_bind; [apply _|apply keeps_holds_prefix|intros ?]. keeps_step.
  - apply sat_bind; [apply _| |intros ?; apply sat_ret, _]. apply keeps_wp. intros s Hs. unfold lm_author_ok.
    apply wp_bind, wp_lanes. case_match; [by apply wp_ret|]. unfold direct_pub. apply wp_bind.
    eapply wp_mono; [by apply check_data|]. intros res es s' [Hs' _]. by apply wp_ret.
  - destruct (Hc op eq_refl) as [H1 H2]. apply keeps_with_blocks. intros c Hok Hb.
    split; [by apply (cache_exec_ok cm sid mbp Hbind)|by apply repair_op_backed].
  - by apply keeps_on_lanes.
Qed.

(** ** Restarts and the own lane *)

Abbreviation lanes_ok := (lanes_ok cm sid mbp name (fun _ => False)) (only parsing).

Lemma lanes_data s : lanes_ok s -> cache_backed s.2 -> (forall r, r ∈ lm_acked s.1 -> ref_backed r) -> data_ok s.
Proof. intros Hok Hb Ha. split; [apply (lo_cache _ _ _ _ _ _ Hok)|done|apply (lo_config _ _ _ _ _ _ Hok)|done]. Qed.

Definition fresh (es : list Effect) (s : LS) : Prop := cache_backed s.2 /\ lm_acked s.1 = ∅ /\ acks_of es = [].

Lemma restart_fresh s : lanes_ok s -> wp restart s (fun _ es s' => fresh es s').
Proof.
  intros Hok. unfold restart. apply wp_bind. destruct s as [x c].
  pose proof (restarted_ok cm sid mbp name _ x c Hok) as H0. change (wp _ (x, c) ?Q) with (Q tt [] (restarted x, cache_new)). cbv beta.
  assert (cache_backed cache_new) as B0 by done.
  apply wp_bind. eapply (wp_mono _ _ (fun _ es s' => fresh es s')).
  - unfold restore_own_frontier. apply wp_bind, wp_lanes. destruct (lm_store_frontier _) as [rec|]; [|by apply wp_skip].
    repeat (case_match; [by apply wp_skip|]). apply wp_bind, wp_on_lanes. cbn [fst snd].
    unfold seed_own_anchor_from_store. apply wp_bind, wp_lanes. cbn [fst].
    match goal with |- wp _ (?y, _) _ => set (x1 := y) end.
    destruct (lm_store_header x1) as [hr|] eqn:Hrec; [|by apply wp_skip]. case_match; [by apply wp_skip|].
    destruct (_ || _) eqn:Hm; [by apply wp_skip|]. destruct (block_ok _ _ _ _) eqn:Hb; cbn [negb]; [|by apply wp_skip].
    apply orb_false_iff in Hm as [Ha%negb_false_iff%Z.eqb_eq _].
    pose proof (lo_stored_header _ _ _ _ _ _ H0 hr (or_introl Hrec)) as Ht. destruct (lo_config _ _ _ _ _ _ H0) as (E1 & E2 & _ & E4 & E5).
    change (block_ok (pfh_header hr) (lm_committee (restarted x)) (lm_sid (restarted x)) (lm_max_block_payload (restarted x)) = true) in Hb.
    cbn [fst snd] in *. rewrite E1, E2, E4 in Hb. apply wp_bind, wp_with_blocks, wp_on_lanes. split_and!; [|done|done].
    apply seed_backed; [apply (lo_cache _ _ _ _ _ _ H0)|done|done|]. rewrite Ha. exact E5.
  - intros [] es s1 (B1 & Ea & Hes). apply wp_bind. unfold take_seeded_anchor. apply wp_bind, wp_lanes, wp_bind, wp_on_lanes, wp_ret.
    destruct (lm_seeded_anchor s1.1); [apply wp_emit|apply wp_skip]; (split_and!; [done|done|]); by rewrite !acks_app, Hes.
Qed.

Lemma fresh_data es s : lanes_ok s -> fresh es s -> data_ok s.
Proof. intros Hok (Hb & Ha & _). apply lanes_data; [done|done|]. rewrite Ha. by intros r ?%not_elem_of_empty. Qed.

(** Acknowledgements an event sends are of references it adds. *)
Definition sends (es : list Effect) (s' : LS) : Prop := forall a, a ∈ acks_of es -> exists r, a = ack_of name r /\ r ∈ lm_acked s'.1.

Lemma quiet_sends s es s' : lm_name s.1 = name -> quiet s es s' -> sends es s'.
Proof.
  intros Hn (_ & _ & _ & l & Ha & Hk & _ & _) a. rewrite Ha, Hn, Hk, list_elem_of_fmap. intros (r & -> & Hr). exists r. set_solver.
Qed.

Hypothesis HP : forall op, P (LeCache op) -> repair_op op.
Hypothesis Hgen : genesis_apart cm sid mbp.

Lemma publish_own_data payload s : lanes_ok s -> publishable cm mbp name s.1 payload -> data_ok s ->
  wp (publish_own payload) s (fun _ es s' => data_ok s' /\ sends es s').
Proof.
  intros Hok Hp Hd. destruct s as [x c]. pose proof (lo_frontier _ _ _ _ _ _ Hok) as Hf. cbn [fst snd] in *.
  pose proof (next_header_valid cm sid mbp name x payload Hf Hp) as Hv.
  unfold publish_own. apply wp_bind, wp_lanes. cbn [fst snd]. destruct (lm_own_frontier x) as [height prev] eqn:Ef.
  destruct (next_header_built cm sid mbp name _ x c payload height prev Hok Hp Ef) as [-> ->]. set (h := next_header sid name x payload) in *.
  apply wp_bind, wp_on_lanes, wp_bind, wp_bind, wp_on_lanes, wp_on_lanes, wp_bind. cbn [fst snd].
  match goal with |- wp _ ?t _ => assert (data_ok t) as Hd1 by (destruct Hd as [A1 A2 A3 A4]; by split) end.
  assert (hd_author h = name) as Ha by done. match goal with |- wp _ (?y, _) _ => set (x1 := y) in * end.
  eapply (wp_mono _ _ (fun _ es s' => keeps (x1, c) es s' /\ quiet (x1, c) es s')).
  - split; [apply (keeps_publish _ _ _ (proj1 Hv)); by intros ?|apply quiet_process_publish].
  - intros [] es s1 [Hk Hq]. specialize (Hk Hd1). apply wp_bind, wp_emit, wp_ret. split; [done|].
    intros a. cbn [app]. rewrite acks_app, elem_of_app. intros [Hin|[]%not_elem_of_nil].
    eapply quiet_sends; [|exact Hq|done]. by destruct (da_config _ Hd1) as (_ & _ & _ & _ & ?).
Qed.

Lemma recover_backed h s : lanes_ok s -> typed_header h -> data_ok s ->
  wp (recover_own_frontier h) s (fun _ es s' =>
    cache_backed s'.2 /\ acks_of es = [] /\ forall r, r ∈ lm_acked s'.1 -> r ∈ lm_acked s.1 \/ ref_author r = name).
Proof.
  intros Hok Ht [A1 A2 (E1 & E2 & E3 & E4 & E5) A4]. unfold recover_own_frontier. apply wp_bind, wp_lanes.
  destruct (_ || _ || _) eqn:Hg; [apply wp_ret; split_and!; auto|]. case_match; [apply wp_ret; split_and!; auto|].
  rewrite !orb_false_iff, !negb_false_iff, Z.eqb_eq in Hg. destruct Hg as ((Ha & Hh) & Hb). rewrite E1, E2, E4 in Hb. rewrite E5 in Ha.
  apply wp_bind, wp_on_lanes, wp_bind, wp_with_blocks, wp_bind, wp_with_avail, wp_bind, wp_on_lanes, wp_bind, wp_with_avail,
    wp_bind, wp_on_lanes, wp_bind, wp_bind, wp_on_lanes, wp_on_lanes, wp_ret. split_and!; [|done|].
  - by apply seed_backed.
  - cbn. rewrite E5. intros r [->%elem_of_singleton|Hr]%elem_of_union; [by right|]. left. by apply elem_of_others in Hr as [? _].
Qed.

Lemma restarts_fresh flushed s : lanes_ok s -> wp (crash flushed) s (fun _ es s' => fresh es s').
Proof.
  intros Hok. unfold crash. apply wp_bind. destruct flushed; cbn [when]; [|by apply wp_skip, restart_fresh].
  apply wp_on_lanes, restart_fresh. by apply (flush_pending_ok cm sid mbp name _ s).
Qed.

Lemma crash_fresh torn flushed payload s : lanes_ok s -> publishable cm mbp name s.1 payload ->
  wp (publish_crash torn flushed payload) s (fun _ es s' => fresh es s').
Proof.
  intros Hok Hp. destruct s as [x c]. pose proof (lo_frontier _ _ _ _ _ _ Hok) as Hf. cbn [fst snd] in *.
  pose proof (next_header_valid cm sid mbp name x payload Hf Hp) as Hv.
  pose proof (next_header_lineage cm sid mbp name x payload Hgen Hf Hp) as Hnew.
  unfold publish_crash. apply wp_bind, wp_lanes. cbn [fst snd]. destruct (lm_own_frontier x) as [height prev] eqn:Ef.
  destruct (next_header_built cm sid mbp name _ x c payload height prev Hok Hp Ef) as [-> ->].
  apply wp_bind, wp_on_lanes, wp_bind. eapply (wp_mono _ _ (fun _ es s' => lanes_ok s' /\ es = [])).
  { destruct torn; [apply wp_on_lanes|apply wp_bind, wp_on_lanes, wp_on_lanes]; (split; [|done]);
      by apply (persisted_ok cm sid mbp name _ x _ c (next_header sid name x payload) Hok Hnew Hv). }
  intros [] es s1 [H1 ->]. by apply restarts_fresh.
Qed.

Lemma exec_data e s : P e -> lane_event_ok cm sid mbp name e s -> lanes_ok s -> data_ok s ->
  data_ok (st (lane_exec sid e s)) /\ sends (out (lane_exec sid e s)) (st (lane_exec sid e s)).
Proof.
  intros He Hev Hok Hd.
  pose proof (lane_exec_ok cm sid mbp name Hbind Hgen e s Hev Hok) as Hok'.
  assert (forall es t, acks_of es = [] -> sends es t) as Hnone by (intros es t Hn a; rewrite Hn; by intros ?%not_elem_of_nil).
  assert (foreign_event e -> data_ok (st (lane_exec sid e s)) /\ sends (out (lane_exec sid e s)) (st (lane_exec sid e s))) as Hf.
  { intros Hf. split.
    - apply (keeps_foreign e Hf); [| |done|done].
      + intros op ->. split; [done|by apply HP].
      + by intros stored sender h ->.
    - eapply quiet_sends; [|by apply quiet_exec]. by destruct (da_config _ Hd) as (_ & _ & _ & _ & ?). }
  destruct e; try (by apply Hf); clear Hf; cbn [lane_exec lane_event_ok] in *.
  - destruct (publish_own_data payload s Hok Hev Hd) as [H1 H2]. split; [done|].
    intros a. change (out ((publish_own payload;; skip) s)) with (out (publish_own payload s) ++ []). rewrite app_nil_r. apply H2.
  - pose proof (restarts_fresh flushed s Hok) as Hfr. split; [by eapply fresh_data|apply Hnone, Hfr].
  - pose proof (crash_fresh torn flushed payload s Hok Hev) as Hfr. split; [by eapply fresh_data|apply Hnone, Hfr].
  - destruct Hev as [Ht _]. destruct (recover_backed h s Hok Ht Hd) as (H1 & H2 & H3). split.
    + apply lanes_data; [done|done|]. intros r [Hr|Hr]%H3; [by apply (da_acked _ Hd)|by intros ?].
    + apply Hnone. change (out ((recover_own_frontier h;; skip) s)) with (out (recover_own_frontier h s) ++ []). by rewrite app_nil_r.
Qed.

Lemma reaches_data es s : lane_reaches cm sid mbp name P es s ->
  data_ok s /\ forall a, a ∈ acks_of es -> exists r, a = ack_of name r /\ ref_backed r.
Proof.
  induction 1 as [|e es s Hr [Hd Ha] He Hev].
  - split; [|by intros a ?%not_elem_of_nil]. apply lanes_data; [apply (lane_start_ok cm sid mbp name)|by intros d e|by intros r ?%not_elem_of_empty].
  - pose proof (lane_reaches_ok cm sid mbp name Hbind Hgen _ _ _ Hr) as Hok.
    destruct (exec_data e s He Hev Hok Hd) as [Hd' Hs]. split; [done|]. intros a. rewrite acks_app, elem_of_app.
    intros [Hin|Hin]; [by apply Ha|]. destruct (Hs a Hin) as (r & -> & Hr'). exists r. split; [done|by apply (da_acked _ Hd')].
Qed.
End acks.

(** ** Nothing is acknowledged twice *)

Definition no_restart (e : LaneEvent) : Prop := match e with LeRestart _ | LeCrash _ _ _ | LeRecover _ => False | _ => True end.

Lemma once_publish_own {Hash : Hashing} payload : sat once (publish_own payload).
Proof.
  intros s. apply sat_at_wp. unfold publish_own. apply wp_bind, wp_lanes. destruct (lm_own_frontier s.1) as [height prev].
  apply wp_bind, wp_on_lanes, wp_bind, wp_bind, wp_on_lanes, wp_on_lanes, wp_bind.
  eapply wp_sat; [apply quiet_process_publish|]. intros [] es s1 (_ & _ & Hq). apply wp_bind, wp_emit, wp_ret.
  cbn [app]. eapply (trace_trans (R := once)); [|by apply once_same]. exact Hq.
Qed.

Lemma once_exec {Hash : Hashing} sid e : no_restart e -> sat once (lane_exec sid e).
Proof.
  intros Hn. assert (foreign_event e -> sat once (lane_exec sid e)) as Hf by (intros Hf s; by apply quiet_exec).
  destruct e; try (by apply Hf); try done. apply sat_bind; [apply _|apply once_publish_own|intros ?]. apply sat_ret, _.
Qed.

Lemma reaches_once {Hash : Hashing} cm sid mbp name P es s : (forall e, P e -> no_restart e) ->
  lane_reaches cm sid mbp name P es s -> once (lane_start cm sid mbp name) es s.
Proof.
  intros HP. induction 1 as [|e es s _ IH He _]; [apply trace_refl|]. eapply trace_trans; [exact IH|]. by apply once_exec, HP.
Qed.

(** C18: What an acknowledgement vouches for.  In a run whose events are in [P], every
    acknowledgement the party sends names itself as the sender; when it is for a block of
    another party, then that block and every ancestor down to genesis are valid blocks
    of its author, consecutive in height, each of which some event of the run delivered
    from the author itself and for each of which some event found or reported the whole
    payload; and as long as the process neither restarts nor recovers its lane, no
    acknowledgement is sent twice. *)
Theorem acks_backed_once {Hash : Hashing} cm sid mbp name P es s :
  header_binding cm sid mbp -> genesis_apart cm sid mbp -> (forall op, P (LeCache op) -> repair_op op) ->
  lane_reaches cm sid mbp name P es s ->
  (forall a, a ∈ acks_of es -> ack_sender a = name /\
    (ack_author a <> name -> backed cm sid mbp P (ack_author a) (Z.to_nat (ack_height a)) (ack_digest a))) /\
  ((forall e, P e -> no_restart e) -> NoDup (acks_of es)).
Proof.
  intros Hbind Hgen HP Hr. split.
  - intros a Ha. destruct (reaches_data cm sid mbp name Hbind P HP Hgen es s Hr) as [_ Hb].
    destruct (Hb a Ha) as (r & -> & Hrb). split; [done|exact Hrb].
  - intros Hn. destruct (reaches_once cm sid mbp name P es s Hn Hr) as (_ & l & -> & _ & Hl & _).
    apply NoDup_fmap_2; [|done]. intros [[a h] d] [[a' h'] d'] Heq. injection Heq. unfold ref_author, ref_height, ref_digest. cbn. congruence.
Qed.

(** Party 10 receives the second block of lane 20 before the first. *)
Definition ack_events : list LaneEvent :=
  [LePublish (fun _ => true) 20 (lane_block 20 2 2 3); LePublish (fun _ => true) 20 (lane_block 20 1 1 2)].

Lemma acks_backed_once_witness :
  acks_of (@lane_run table_hashing committee4 7 100 10 ack_events).1 = [mkAck 20 1 2 10; mkAck 20 2 3 10] /\
  @backed table_hashing committee4 7 100 (fun e => match e with LePublish _ _ _ => True | _ => False end) 20 2 3.
Proof.
  assert (acks_of (@lane_run table_hashing committee4 7 100 10 ack_events).1 = [mkAck 20 1 2 10; mkAck 20 2 3 10]) as E
    by (vm_compute; reflexivity).
  split; [exact E|].
  destruct (@acks_backed_once table_hashing committee4 7 100 10 (fun e => match e with LePublish _ _ _ => True | _ => False end)
    (@lane_run table_hashing committee4 7 100 10 ack_events).1 (@lane_run table_hashing committee4 7 100 10 ack_events).2
    table_binding (genesis_apart_of_injective _ _ _ table_injective)) as [H _].
  - by intros op [].
  - apply lane_run_reaches. unfold ack_events. cbn [lane_allowed lane_event_ok].
    repeat split; vm_compute; discriminate.
  - rewrite E in H. destruct (H (mkAck 20 2 3 10)) as [_ H2]; [right; by left|]. by apply H2.
Defined.
