(* ===== verification/Direct.v ===== *)
(** The direct resolver.

    Models [src/primary/src/vantage/direct_resolution.rs]: one instance of a view-based
    agreement protocol per open target view.  An instance counts WISHes to enter its views;
    in a view the primary proposes a value from the suggestions it collected, parties
    check the value and their lock before they ECHO it, and quorums of statements move
    them through KEY1, KEY2, KEY3 and LOCK to DONE; a quorum of DONEs decides.

    [Instant::now] reads [dr_clock], which the environment advances.  [bincode] is a
    third-party crate: its encodings are parameters.  An [expect] that fails sets
    [dr_panicked].  Left out: metrics, logging and test accessors. *)

From S2P Require Import Prelude Committee Types Formed ResolutionEvidence.

(** [None < Some _]. *)
#[export, program] Instance option_key_order `{KeyOrder A} : KeyOrder (option A) :=
  {| kle := fun x y => match x, y with None, _ => True | Some _, None => False | Some a, Some b => kle a b end |}.
Next Obligation. intros A KA [a|] [b|]; [apply (decide (kle a b))|by right; intros []|by left|by left]. Defined.
Next Obligation. intros A KA [a|] [b|] [c|]; try done. apply (transitivity (R := kle)). Qed.
Next Obligation. intros A KA [a|] [b|]; try done. intros H1 H2. f_equal. by apply (anti_symm kle). Qed.
Next Obligation. intros A KA [a|] [b|]; [apply (total kle)|by right|by left|by left]. Qed.

(** ** Messages *)

Abbreviation DirectResolverView := Z (only parsing).

Inductive DirectResolutionTimerKind := TkEntry | TkProposal | TkView | TkPrimaryDown.

Record DirectResolutionWish := mkWish { dw_target : View; dw_view : DirectResolverView; dw_sender : PublicKey }.

Record DirectResolutionSuggest := mkSuggest {
  sg_target : View;
  sg_view : DirectResolverView;
  sg_sender : PublicKey;
  sg_key3_view : DirectResolverView;
  sg_key3_value : Digest;
  sg_key2_view : DirectResolverView;
  sg_key2_value : Digest;
  sg_prev_key2 : DirectResolverView;
  sg_entry : option ResolutionEntry;
}.

Record DirectResolutionProof := mkProof {
  pr_target : View;
  pr_view : DirectResolverView;
  pr_sender : PublicKey;
  pr_key1_view : DirectResolverView;
  pr_key1_value : Digest;
  pr_prev_key1 : DirectResolverView;
}.

Record DirectResolutionWitness := mkWitness {
  wi_target : View;
  wi_view : DirectResolverView;
  wi_value : Digest;
  wi_entry : ResolutionEntry;
  wi_sender : PublicKey;
}.

Record DirectResolutionProposal := mkDProposal {
  dp_target : View;
  dp_view : DirectResolverView;
  dp_key_view : DirectResolverView;
  dp_value : Digest;
  dp_entry : ResolutionEntry;
  dp_sender : PublicKey;
}.

Inductive DirectResolutionPhase := PEcho | PKey1 | PKey2 | PKey3 | PLock.

Record DirectResolutionStatement := mkStatement {
  ds_target : View;
  ds_view : DirectResolverView;
  ds_value : Digest;
  ds_phase : DirectResolutionPhase;
  ds_proposal_key_view : option DirectResolverView;
  ds_origin : option Z;
  ds_sender : PublicKey;
}.

Record DirectResolutionDone := mkDone {
  dd_target : View;
  dd_value : Digest;
  dd_entry : ResolutionEntry;
  dd_sender : PublicKey;
}.

Record DirectResolutionValueFetch := mkValueFetch { vf_target : View; vf_value : Digest; vf_requester : PublicKey }.
Record DirectResolutionValueServe := mkValueServe { vs_target : View; vs_value : Digest; vs_entry : ResolutionEntry }.

Inductive DirectResolutionVote := Reject (permanent : bool) | Accept (origin : option Z).

Inductive DirectResolutionEffect :=
| DBroadcastWish (w : DirectResolutionWish)
| DWishTo (peer : PublicKey) (w : DirectResolutionWish)
| DSuggestTo (peer : PublicKey) (s : DirectResolutionSuggest)
| DBroadcastProof (p : DirectResolutionProof)
| DProofTo (peer : PublicKey) (p : DirectResolutionProof)
| DBroadcastWitness (w : DirectResolutionWitness)
| DWitnessTo (peer : PublicKey) (w : DirectResolutionWitness)
| DBroadcastProposal (p : DirectResolutionProposal)
| DProposalTo (peer : PublicKey) (p : DirectResolutionProposal)
| DBroadcastStatement (s : DirectResolutionStatement)
| DStatementTo (peer : PublicKey) (s : DirectResolutionStatement)
| DBroadcastDone (d : DirectResolutionDone)
| DDoneTo (peer : PublicKey) (d : DirectResolutionDone)
| DValueFetchTo (peer : PublicKey) (f : DirectResolutionValueFetch)
| DValueServeTo (peer : PublicKey) (s : DirectResolutionValueServe)
| DArmTimer (target : View) (view : DirectResolverView) (kind : DirectResolutionTimerKind) (deadline : Instant)
| DValidateVote (target : View) (view : DirectResolverView) (value : Digest) (entry : ResolutionEntry) (fresh : bool)
| DDecide (entry : ResolutionEntry).

#[export] Instance timer_kind_eq_dec : EqDecision DirectResolutionTimerKind.
Proof. solve_decision. Defined.
#[export] Instance phase_eq_dec : EqDecision DirectResolutionPhase.
Proof. solve_decision. Defined.

Definition phase_index (p : DirectResolutionPhase) : nat :=
  match p with PEcho => 0 | PKey1 => 1 | PKey2 => 2 | PKey3 => 3 | PLock => 4 end.
Definition phase_at (n : nat) : DirectResolutionPhase :=
  match n with 0 => PEcho | 1 => PKey1 | 2 => PKey2 | 3 => PKey3 | _ => PLock end%nat.
#[export] Instance phase_countable : Countable DirectResolutionPhase.
Proof. refine (inj_countable' phase_index phase_at _). by intros []. Defined.

(** ** State *)

Record StatementRecord := mkStatementRecord {
  sr_value : Digest;
  sr_proposal_key_view : option DirectResolverView;
  sr_origin : option Z;
}.

Inductive VoteStatus := VsUnknown | VsRequested | VsRejected | VsRejectedPermanently | VsAccepted.

#[export] Instance vote_status_eq_dec : EqDecision VoteStatus.
Proof. solve_decision. Defined.

Inductive DirectReplayKind := RkSuggest | RkProof | RkProposal | RkStatement (phase : DirectResolutionPhase) | RkWitness.

#[export] Instance replay_kind_eq_dec : EqDecision DirectReplayKind.
Proof. solve_decision. Defined.
Definition replay_code (k : DirectReplayKind) : nat :=
  match k with RkSuggest => 0 | RkProof => 1 | RkProposal => 2 | RkWitness => 3 | RkStatement p => 4 + phase_index p end.
Definition replay_decode (n : nat) : DirectReplayKind :=
  match n with 0 => RkSuggest | 1 => RkProof | 2 => RkProposal | 3 => RkWitness | S (S (S (S n))) => RkStatement (phase_at n) end%nat.
#[export] Instance replay_kind_countable : Countable DirectReplayKind.
Proof. refine (inj_countable' replay_code replay_decode _). by intros [| | |[]|]. Defined.

Record DirectViewState := mkDirectViewState {
  suggestions : gmap PublicKey DirectResolutionSuggest;
  proofs : gmap PublicKey DirectResolutionProof;
  proposal : option DirectResolutionProposal;
  backing_sent : option Digest;
  backing_witnesses : gmap PublicKey Digest;
  replayed_to : gset (DirectReplayKind * PublicKey);
  vote_status : VoteStatus;
  vote_origin : option Z;
  sent : gmap DirectResolutionPhase Digest;
  statements : gmap DirectResolutionPhase (gmap PublicKey StatementRecord);
}.

Definition dvs_eta (x : DirectViewState) : DirectViewState :=
  mkDirectViewState (suggestions x) (proofs x) (proposal x) (backing_sent x) (backing_witnesses x) (replayed_to x)
    (vote_status x) (vote_origin x) (sent x) (statements x).

#[export] Instance set_suggestions : Setter suggestions.
Proof. solve_setter dvs_eta suggestions. Defined.
#[export] Instance set_proofs : Setter proofs.
Proof. solve_setter dvs_eta proofs. Defined.
#[export] Instance set_proposal : Setter proposal.
Proof. solve_setter dvs_eta proposal. Defined.
#[export] Instance set_backing_sent : Setter backing_sent.
Proof. solve_setter dvs_eta backing_sent. Defined.
#[export] Instance set_backing_witnesses : Setter backing_witnesses.
Proof. solve_setter dvs_eta backing_witnesses. Defined.
#[export] Instance set_replayed_to : Setter replayed_to.
Proof. solve_setter dvs_eta replayed_to. Defined.
#[export] Instance set_vote_status : Setter vote_status.
Proof. solve_setter dvs_eta vote_status. Defined.
#[export] Instance set_vote_origin : Setter vote_origin.
Proof. solve_setter dvs_eta vote_origin. Defined.
#[export] Instance set_sent : Setter sent.
Proof. solve_setter dvs_eta sent. Defined.
#[export] Instance set_statements : Setter statements.
Proof. solve_setter dvs_eta statements. Defined.

Definition dvs_default : DirectViewState := mkDirectViewState ∅ ∅ None None ∅ ∅ VsUnknown None ∅ ∅.

Record DirectInstance := mkDirectInstance {
  own_wish : DirectResolverView;
  wish_replayed_through : gmap PublicKey DirectResolverView;
  entered_through : DirectResolverView;
  current_view : DirectResolverView;
  wishes : gmap PublicKey DirectResolverView;
  di_views : gmap DirectResolverView DirectViewState;
  candidates : list ResolutionEntry;
  next_candidate : option ResolutionEntry;
  key1_view : DirectResolverView;
  key1_value : Digest;
  prev_key1 : DirectResolverView;
  key2_view : DirectResolverView;
  key2_value : Digest;
  prev_key2 : DirectResolverView;
  key3_view : DirectResolverView;
  key3_value : Digest;
  lock_view : DirectResolverView;
  lock_value : Digest;
  done_sent : option Digest;
  done_by : gmap PublicKey Digest;
}.

Definition di_eta (x : DirectInstance) : DirectInstance :=
  mkDirectInstance (own_wish x) (wish_replayed_through x) (entered_through x) (current_view x) (wishes x) (di_views x)
    (candidates x) (next_candidate x) (key1_view x) (key1_value x) (prev_key1 x) (key2_view x) (key2_value x)
    (prev_key2 x) (key3_view x) (key3_value x) (lock_view x) (lock_value x) (done_sent x) (done_by x).

#[export] Instance set_own_wish : Setter own_wish.
Proof. solve_setter di_eta own_wish. Defined.
#[export] Instance set_wish_replayed_through : Setter wish_replayed_through.
Proof. solve_setter di_eta wish_replayed_through. Defined.
#[export] Instance set_entered_through : Setter entered_through.
Proof. solve_setter di_eta entered_through. Defined.
#[export] Instance set_current_view : Setter current_view.
Proof. solve_setter di_eta current_view. Defined.
#[export] Instance set_wishes : Setter wishes.
Proof. solve_setter di_eta wishes. Defined.
#[export] Instance set_di_views : Setter di_views.
Proof. solve_setter di_eta di_views. Defined.
#[export] Instance set_candidates : Setter candidates.
Proof. solve_setter di_eta candidates. Defined.
#[export] Instance set_next_candidate : Setter next_candidate.
Proof. solve_setter di_eta next_candidate. Defined.
#[export] Instance set_key1_view : Setter key1_view.
Proof. solve_setter di_eta key1_view. Defined.
#[export] Instance set_key1_value : Setter key1_value.
Proof. solve_setter di_eta key1_value. Defined.
#[export] Instance set_prev_key1 : Setter prev_key1.
Proof. solve_setter di_eta prev_key1. Defined.
#[export] Instance set_key2_view : Setter key2_view.
Proof. solve_setter di_eta key2_view. Defined.
#[export] Instance set_key2_value : Setter key2_value.
Proof. solve_setter di_eta key2_value. Defined.
#[export] Instance set_prev_key2 : Setter prev_key2.
Proof. solve_setter di_eta prev_key2. Defined.
#[export] Instance set_key3_view : Setter key3_view.
Proof. solve_setter di_eta key3_view. Defined.
#[export] Instance set_key3_value : Setter key3_value.
Proof. solve_setter di_eta key3_value. Defined.
#[export] Instance set_lock_view : Setter lock_view.
Proof. solve_setter di_eta lock_view. Defined.
#[export] Instance set_lock_value : Setter lock_value.
Proof. solve_setter di_eta lock_value. Defined.
#[export] Instance set_done_sent : Setter done_sent.
Proof. solve_setter di_eta done_sent. Defined.
#[export] Instance set_done_by : Setter done_by.
Proof. solve_setter di_eta done_by. Defined.

(** [Digest::default()] is the zero digest. *)
Definition instance_new : DirectInstance :=
  mkDirectInstance 0 ∅ 0 0 ∅ ∅ [] None 0 0 0 0 0 0 0 0 0 0 None ∅.

Record DirectResolver := mkDirectResolver {
  dr_name : PublicKey;
  dr_committee : Committee;
  dr_sid : Digest;
  dr_delta : Z;
  dr_f_plus_1 : Z;
  dr_quorum : Z;
  instances : gmap View DirectInstance;
  dr_values : gmap (View * Digest) ResolutionEntry;
  decisions : gmap View (Digest * ResolutionEntry);
  full_barred : gset View;
  done_replayed_to : gmap View (gset PublicKey);
  admitted_through : View;
  retained_floor : View;
  passive_wishes : gmap View (gmap PublicKey DirectResolverView);
  pending_fetch : gmap View (gset Digest);
  fetch_requested : gmap View (gset (Digest * PublicKey));
  fetch_answered : gmap View (gset (Digest * PublicKey));
  dr_clock : Instant;
  dr_panicked : bool;
}.

Definition dr_eta (x : DirectResolver) : DirectResolver :=
  mkDirectResolver (dr_name x) (dr_committee x) (dr_sid x) (dr_delta x) (dr_f_plus_1 x) (dr_quorum x) (instances x)
    (dr_values x) (decisions x) (full_barred x) (done_replayed_to x) (admitted_through x) (retained_floor x)
    (passive_wishes x) (pending_fetch x) (fetch_requested x) (fetch_answered x) (dr_clock x) (dr_panicked x).

#[export] Instance set_instances : Setter instances.
Proof. solve_setter dr_eta instances. Defined.
#[export] Instance set_dr_values : Setter dr_values.
Proof. solve_setter dr_eta dr_values. Defined.
#[export] Instance set_decisions : Setter decisions.
Proof. solve_setter dr_eta decisions. Defined.
#[export] Instance set_full_barred : Setter full_barred.
Proof. solve_setter dr_eta full_barred. Defined.
#[export] Instance set_done_replayed_to : Setter done_replayed_to.
Proof. solve_setter dr_eta done_replayed_to. Defined.
#[export] Instance set_admitted_through : Setter admitted_through.
Proof. solve_setter dr_eta admitted_through. Defined.
#[export] Instance set_retained_floor : Setter retained_floor.
Proof. solve_setter dr_eta retained_floor. Defined.
#[export] Instance set_passive_wishes : Setter passive_wishes.
Proof. solve_setter dr_eta passive_wishes. Defined.
#[export] Instance set_pending_fetch : Setter pending_fetch.
Proof. solve_setter dr_eta pending_fetch. Defined.
#[export] Instance set_fetch_requested : Setter fetch_requested.
Proof. solve_setter dr_eta fetch_requested. Defined.
#[export] Instance set_fetch_answered : Setter fetch_answered.
Proof. solve_setter dr_eta fetch_answered. Defined.
#[export] Instance set_dr_clock : Setter dr_clock.
Proof. solve_setter dr_eta dr_clock. Defined.
#[export] Instance set_dr_panicked : Setter dr_panicked.
Proof. solve_setter dr_eta dr_panicked. Defined.

Definition resolver_new (name : PublicKey) (c : Committee) (sid : Digest) (delta_ms : Z) : DirectResolver :=
  let thresholds := from_party_count (committee_size c) in
  mkDirectResolver name c sid delta_ms (f_plus_1_parties thresholds) (n_minus_f_parties thresholds)
    ∅ ∅ ∅ ∅ ∅ 0 1 ∅ ∅ ∅ ∅ 0 false.

(** ** The primary schedule *)

(** One step of splitmix64: the next state and its output. *)
Definition splitmix64 (state : Z) : Z * Z :=
  let state := u64_add state 0x9E3779B97F4A7C15 in
  let z := u64_mul (Z.lxor state (Z.shiftr state 30)) 0xBF58476D1CE4E5B9 in
  let z := u64_mul (Z.lxor z (Z.shiftr z 27)) 0x94D049BB133111EB in
  (state, Z.lxor z (Z.shiftr z 31)).

(** [order.swap(i, j)] for positions in range. *)
Definition swap {A} (i j : nat) (l : list A) : list A :=
  match l !! i, l !! j with
  | Some a, Some b => <[ i := b ]> (<[ j := a ]> l)
  | _, _ => l
  end.

(** The loop [for i in (1..n).rev()]; [i] is the last position it swaps. *)
Fixpoint shuffle {A} (i : nat) (state : Z) (order : list A) : list A :=
  match i with
  | O => order
  | S i' =>
      let '(state, z) := splitmix64 state in
      shuffle i' state (swap i (Z.to_nat (z mod (Z.of_nat i + 1))) order)
  end.

(** The proposer moves to the last position. *)
Definition move_last (x : PublicKey) (l : list PublicKey) : list PublicKey :=
  match list_find (eq x) l with
  | Some (i, _) => take i l ++ drop (S i) l ++ [x]
  | None => l
  end.

(** [to_le_bytes], and the little-endian number the first eight bytes of a digest spell. *)
Definition u64_le_bytes (x : Z) : list Z := reverse (be_bytes 8 x).
Definition le_number (l : list Z) : Z := foldr (fun b acc => b + 256 * acc) 0 l.

(** Bounds on the turns of [advance_view]'s loop and on the depth of its recursion; [DirectFuel] shows
    that no run reaches those of [enough]: four statements and one DONE can be sent, and a
    backing quorum can be completed once. *)
Class Fuel := { loop_bound : nat; advance_depth : nat }.
#[export] Instance enough : Fuel := {| loop_bound := 6; advance_depth := 2 |}.

Section resolver.
Context `{!Hashing} {fuel : Fuel}.
(** [bincode::serialize(entry)] and [bincode::serialize(&(c, t))]. *)
Context (bincode_entry : ResolutionEntry -> list Z) (bincode_payload : Manifest -> Manifest -> list Z).

Definition resolver_schedule (c : Committee) (sid : Digest) (target : View) : list PublicKey :=
  let names := authority_keys c in
  let seed := domain_hash (ascii_bytes "vantage-resolver-schedule") sid (u64_le_bytes target) in
  let state := le_number (take 8 (digest_bytes seed)) in
  let order := shuffle (length names - 1) state names in
  match one_based_authority c target with
  | Some proposer => move_last proposer order
  | None => order
  end.

(** [None] is the division by zero of an empty committee. *)
Definition resolution_leader (x : DirectResolver) (target : View) (view : DirectResolverView) : option PublicKey :=
  let schedule := resolver_schedule (dr_committee x) (dr_sid x) target in
  schedule !! Z.to_nat (u64_saturating_sub view 1 mod Z.of_nat (length schedule)).

Abbreviation DM := (M DirectResolutionEffect DirectResolver) (only parsing).

(** ** Queries *)

Definition resolver_timeout (x : DirectResolver) : Z := dr_delta x * 11.
Definition proposal_timeout (x : DirectResolver) : Z := dr_delta x * 5.

Definition view_of (x : DirectResolver) (target : View) (view : DirectResolverView) : option DirectViewState :=
  i ← instances x !! target; di_views i !! view.

Definition current_of (x : DirectResolver) (target : View) : DirectResolverView :=
  match instances x !! target with Some i => current_view i | None => 0 end.

Definition has_proposal (x : DirectResolver) (target : View) (view : DirectResolverView) : bool :=
  match view_of x target view with Some s => bool_decide (is_Some (proposal s)) | None => false end.

Definition dr_views_awaiting_proposal_from (primary : PublicKey) (x : DirectResolver) : list (View * DirectResolverView) :=
  (fun p => (p.1, current_view p.2)) <$>
  filter (fun p => 0 < current_view p.2 /\ decisions x !! p.1 = None /\
      has_proposal x p.1 (current_view p.2) = false /\ resolution_leader x p.1 (current_view p.2) = Some primary)
    (map_iter (instances x)).

Definition value_digest (x : DirectResolver) (entry : ResolutionEntry) : Digest :=
  domain_hash (ascii_bytes "vantage-direct-resolution-value") (dr_sid x) (bincode_entry entry).

Definition is_member (x : DirectResolver) (sender : PublicKey) : bool := 0 <? stake (dr_committee x) sender.

Definition valid_entry (x : DirectResolver) (target : View) (entry : ResolutionEntry) : bool :=
  (target_view entry =? target) && formed_resolution_entry (dr_committee x) entry.

Definition entry_of (x : DirectResolver) (target : View) (value : Digest) : option ResolutionEntry :=
  dr_values x !! (target, value).

Definition is_decided (target : View) (x : DirectResolver) : bool := bool_decide (is_Some (decisions x !! target)).
Definition has_instance (target : View) (x : DirectResolver) : bool := bool_decide (is_Some (instances x !! target)).
Definition decision (target : View) (x : DirectResolver) : option ResolutionEntry := snd <$> decisions x !! target.

(** [canonical_entry_key] is the key of [ResolutionEvidence]. *)
Abbreviation dr_key_le := (key_le bincode_payload).

(** ** Updates *)

Definition on_inst (target : View) (f : DirectInstance -> DirectInstance) : DM () :=
  modify (fun x => x <| instances ::= alter f target |>).

(** [get_mut(&view)] and [entry(view).or_default()]. *)
Definition on_view (target : View) (view : DirectResolverView) (f : DirectViewState -> DirectViewState) : DM () :=
  on_inst target (fun i => i <| di_views ::= alter f view |>).
Definition on_view_entry (target : View) (view : DirectResolverView) (f : DirectViewState -> DirectViewState) : DM () :=
  on_inst target (fun i => i <| di_views ::= partial_alter (fun o => Some (f (default dvs_default o))) view |>).

Definition panic : DM () := modify (fun x => x <| dr_panicked := true |>).

Definition set_insert {K} `{Countable K} {V} `{Countable V} (k : K) (v : V) (m : gmap K (gset V)) : gmap K (gset V) :=
  <[ k := {[ v ]} ∪ default ∅ (m !! k) ]> m.
Definition set_has {K} `{Countable K} {V} `{Countable V} (k : K) (v : V) (m : gmap K (gset V)) : bool :=
  bool_decide (v ∈ (default ∅ (m !! k) : gset V)).

Definition remember_entry (target : View) (entry : ResolutionEntry) : DM (option Digest) :=
  x ← get;
  if negb (valid_entry x target entry) then mret None
  else
    let value := value_digest x entry in
    modify (fun x => x <| dr_values ::= partial_alter (fun o => Some (default entry o)) (target, value) |>);;
    mret (Some value).

(** ** Counting *)

(** The least key that occurs often enough, as the search of a [BTreeMap] of counts. *)
Definition occurrences {K} `{EqDecision K} (k : K) (l : list K) : Z := Z.of_nat (length (filter (eq k) l)).
Definition first_quorum {K} `{Countable K} `{KeyOrder K} (threshold : Z) (l : list K) : option K :=
  head (filter (fun k => threshold <= occurrences k l) (set_iter (list_to_set l : gset K))).

Definition values_of {V} (m : gmap PublicKey V) : list V := (map_to_list m).*2.

Definition backing_winner (x : DirectResolver) (target : View) (view : DirectResolverView) (threshold : Z) : option Digest :=
  s ← view_of x target view; first_quorum threshold (values_of (backing_witnesses s)).

Definition is_backed (x : DirectResolver) (target : View) (value : Digest) : bool :=
  match instances x !! target with
  | Some i => existsb (fun s => dr_quorum x <=? occurrences value (values_of (backing_witnesses s))) (map_to_list (di_views i)).*2
  | None => false
  end.

(** Once a proposal was received, only ECHOs that bind it count. *)
Definition expected_echo (phase : DirectResolutionPhase) (s : DirectViewState) (r : StatementRecord) : bool :=
  match phase, proposal s with
  | PEcho, Some p => bool_decide (sr_proposal_key_view r = Some (dp_key_view p)) && (sr_value r =? dp_value p)
  | _, _ => true
  end.

(** ECHOs are counted per proposal key. *)
Definition phase_keys (phase : DirectResolutionPhase) (s : DirectViewState) : list (option DirectResolverView * Digest) :=
  (fun r => (if bool_decide (phase = PEcho) then sr_proposal_key_view r else None, sr_value r)) <$>
  filter (fun r => expected_echo phase s r = true) (values_of (default ∅ (statements s !! phase))).

Definition phase_winner (x : DirectResolver) (target : View) (view : DirectResolverView) (phase : DirectResolutionPhase)
    (threshold : Z) : option (Digest * option DirectResolverView) :=
  s ← view_of x target view;
  (fun p => (p.2, p.1)) <$> first_quorum threshold (phase_keys phase s).

Definition phase_authors (x : DirectResolver) (target : View) (view : DirectResolverView) (phase : DirectResolutionPhase)
    (value : Digest) (key : option DirectResolverView) : list PublicKey :=
  match view_of x target view with
  | Some s => (filter (fun p => sr_value p.2 = value /\ sr_proposal_key_view p.2 = key)
                 (map_to_list (default ∅ (statements s !! phase)))).*1
  | None => []
  end.

Definition is_skip (entry : ResolutionEntry) : bool := match entry with EntrySkip _ => true | _ => false end.

Definition fresh_origin_ok (x : DirectResolver) (target : View) (view : DirectResolverView) (value : Digest) : bool :=
  match view_of x target view with
  | None => false
  | Some s =>
      match proposal s with
      | None => false
      | Some p =>
          if negb (dp_value p =? value) then false
          else if (0 <? dp_key_view p) || is_skip (dp_entry p) then true
          else
            dr_f_plus_1 x <=? Z.of_nat (length (filter (fun r => sr_value r = value /\ sr_proposal_key_view r = Some 0 /\
              sr_origin r = Some 1) (values_of (default ∅ (statements s !! PEcho)))))
      end
  end.

Definition done_winner (x : DirectResolver) (target : View) (threshold : Z) : option Digest :=
  i ← instances x !! target; first_quorum threshold (values_of (done_by i)).

Definition accept_key (x : DirectResolver) (target : View) (view key : DirectResolverView) (value : Digest) : bool :=
  if key =? 0 then true
  else
    match view_of x target view with
    | None => false
    | Some s =>
        dr_f_plus_1 x <=? Z.of_nat (length (filter (fun g =>
          sg_prev_key2 g < sg_key2_view g /\ sg_key2_view g < view /\
          (key <= sg_prev_key2 g \/ (key <= sg_key2_view g /\ sg_key2_value g = value))) (values_of (suggestions s))))
    end.

Definition has_valid_entry (x : DirectResolver) (target : View) (value : Digest) : bool :=
  match entry_of x target value with Some e => valid_entry x target e | None => false end.

Definition accepted_suggestions (x : DirectResolver) (target : View) (view : DirectResolverView) : list DirectResolutionSuggest :=
  match view_of x target view with
  | None => []
  | Some s =>
      filter (fun g => sg_key3_view g = 0 \/
        (sg_key3_view g < view /\ accept_key x target view (sg_key3_view g) (sg_key3_value g) = true /\
         is_backed x target (sg_key3_value g) = true /\ has_valid_entry x target (sg_key3_value g) = true))
        (values_of (suggestions s))
  end.

Definition open_lock (x : DirectResolver) (target : View) (view : DirectResolverView) : bool :=
  match instances x !! target with
  | None => false
  | Some i =>
      match di_views i !! view with
      | None => false
      | Some s =>
          dr_f_plus_1 x <=? Z.of_nat (length (filter (fun p =>
            pr_prev_key1 p < pr_key1_view p /\ pr_key1_view p < view /\
            (lock_view i <= pr_prev_key1 p \/ (lock_view i <= pr_key1_view p /\ pr_key1_value p <> lock_value i)))
            (values_of (proofs s))))
      end
  end.

(** [k]-th largest, 0 when there are fewer. *)
Definition dr_kth_largest (values : list DirectResolverView) (k : Z) : DirectResolverView :=
  default 0 (merge_sort (flip Z.le) values !! Z.to_nat (Z.max 0 (k - 1))).

Definition admits_phase_view (x : DirectResolver) (target : View) (view : DirectResolverView) : bool :=
  match instances x !! target with
  | Some i => (0 <? view) && (view <=? u64_saturating_add (Z.max (own_wish i) (entered_through i)) 1)
  | None => false
  end.

(** ** Statements *)

Definition emit_statement (target : View) (view : DirectResolverView) (phase : DirectResolutionPhase) (value : Digest)
    (key : option DirectResolverView) (origin : option Z) : DM () :=
  let binding_is_valid :=
    match phase, key with PEcho, Some k => k <? view | PEcho, None => false | _, None => true | _, Some _ => false end in
  let carried := match key with Some k => 0 <? k | None => false end in
  if negb binding_is_valid || (carried && bool_decide (is_Some origin)) then skip
  else
    x ← get;
    match instances x !! target with
    | None => skip
    | Some i =>
        on_view_entry target view id;;
        if bool_decide (is_Some (sent (default dvs_default (di_views i !! view)) !! phase)) then skip
        else
          let origin := if bool_decide (phase = PEcho) then origin else None in
          on_view target view (fun s => s <| sent ::= <[ phase := value ]> |>
            <| statements ::= fun m => <[ phase := <[ dr_name x := mkStatementRecord value key origin ]> (default ∅ (m !! phase)) ]> m |>);;
          emit (DBroadcastStatement (mkStatement target view value phase key origin (dr_name x)))
    end.

Definition lock_allows (x : DirectResolver) (target : View) (view : DirectResolverView) (i : DirectInstance)
    (p : DirectResolutionProposal) : bool :=
  (lock_view i =? 0) || (lock_value i =? dp_value p) ||
  ((dp_key_view p <? view) && (lock_view i <=? dp_key_view p) && open_lock x target view).

Definition try_echo (target : View) (view : DirectResolverView) : DM () :=
  x ← get;
  match instances x !! target with
  | None => skip
  | Some i =>
      if negb (view =? current_view i) then skip
      else
        match di_views i !! view with
        | None => skip
        | Some s =>
            if bool_decide (is_Some (sent s !! PEcho)) then skip
            else
              match proposal s with
              | None => skip
              | Some p =>
                  if (0 <? dp_key_view p) && negb (is_backed x target (dp_value p)) then skip
                  else if negb (lock_allows x target view i p) then skip
                  else
                    match vote_status s with
                    | VsAccepted => emit_statement target view PEcho (dp_value p) (Some (dp_key_view p)) (vote_origin s)
                    | VsRequested | VsRejected | VsRejectedPermanently => skip
                    | VsUnknown =>
                        on_view target view (fun s => s <| vote_status := VsRequested |>);;
                        emit (DValidateVote target view (dp_value p) (dp_entry p) (dp_key_view p =? 0))
                    end
              end
        end
  end.

Definition on_proposal (p : DirectResolutionProposal) : DM () :=
  x ← get;
  let target := dp_target p in
  if negb (is_member x (dp_sender p)) || (target =? 0) || (dp_view p =? 0) || (dp_view p <=? dp_key_view p) ||
     negb (bool_decide (resolution_leader x target (dp_view p) = Some (dp_sender p))) ||
     is_decided target x || negb (has_instance target x) then skip
  else if negb (admits_phase_view x target (dp_view p)) || (dp_view p <? current_of x target) then skip
  else if has_proposal x target (dp_view p) then skip
  else
    value ← remember_entry target (dp_entry p);
    match value with
    | None => skip
    | Some value =>
        if negb (value =? dp_value p) then skip
        else
          on_view_entry target (dp_view p) (fun s => s <| proposal := Some p |>);;
          try_echo target (dp_view p)
    end.

(** ** The primary *)

Definition take_next_candidate (target : View) (view : DirectResolverView) : DM (option ResolutionEntry) :=
  x ← get;
  match instances x !! target with
  | None => mret None
  | Some i =>
      let barred := bool_decide (target ∈ full_barred x) in
      let eligible := filter (fun e => barred && match e with EntryFull _ _ _ => true | _ => false end = false) (candidates i) in
      let selected :=
        match next_candidate i ≫= (fun c => fst <$> list_find (eq c) eligible) with
        | Some k => k
        | None => Z.to_nat (u64_saturating_sub view 1 mod Z.of_nat (length eligible))
        end in
      match eligible !! selected with
      | None => mret None
      | Some entry =>
          on_inst target (fun i => i <| next_candidate := eligible !! (S selected mod length eligible)%nat |>);;
          mret (Some entry)
      end
  end.

(** By the key's view, then its value. *)
Definition suggest_le (a b : DirectResolutionSuggest) : Prop :=
  kle (sg_key3_view a, sg_key3_value a) (sg_key3_view b, sg_key3_value b).
#[export] Instance suggest_le_dec : RelDecision suggest_le.
Proof. intros a b. apply kle_dec. Defined.

Definition try_primary_propose (target : View) (view : DirectResolverView) : DM () :=
  x ← get;
  match instances x !! target with
  | None => skip
  | Some i =>
      if negb (view =? current_view i) || negb (bool_decide (resolution_leader x target view = Some (dr_name x))) ||
         has_proposal x target view then skip
      else
        let accepted := accepted_suggestions x target view in
        if Z.of_nat (length accepted) <? dr_quorum x then skip
        else
          match last (merge_sort suggest_le accepted) with
          | None => skip
          | Some max =>
              choice ← (if 0 <? sg_key3_view max
                        then mret ((fun e => (sg_key3_view max, e)) <$> entry_of x target (sg_key3_value max))
                        else e ← take_next_candidate target view; mret ((fun e => (0, e)) <$> e));
              match choice with
              | None => skip
              | Some (key, entry) =>
                  let p := mkDProposal target view key (value_digest x entry) entry (dr_name x) in
                  emit (DBroadcastProposal p);;
                  on_proposal p
              end
          end
  end.

(** ** Deciding *)

Definition emit_done (target : View) (value : Digest) (entry : ResolutionEntry) : DM () :=
  x ← get;
  if negb (valid_entry x target entry) || negb (value_digest x entry =? value) then skip
  else
    match instances x !! target with
    | None => skip
    | Some i =>
        if bool_decide (is_Some (done_sent i)) then skip
        else
          on_inst target (fun i => i <| done_sent := Some value |> <| done_by ::= <[ dr_name x := value ]> |>);;
          emit (DBroadcastDone (mkDone target value entry (dr_name x)))
    end.

Definition done_is_sent (x : DirectResolver) (target : View) : bool :=
  match instances x !! target with Some i => bool_decide (is_Some (done_sent i)) | None => false end.

Definition recheck_done (target : View) : DM () :=
  x ← get;
  (if done_is_sent x target then skip
   else
     match done_winner x target (dr_f_plus_1 x) with
     | None => skip
     | Some value =>
         match entry_of x target value with
         | None => panic
         | Some entry => emit_done target value entry
         end
     end);;
  x ← get;
  match done_winner x target (dr_quorum x) with
  | None => skip
  | Some value =>
      match entry_of x target value with
      | None => panic
      | Some entry =>
          modify (fun x => x <| decisions ::= <[ target := (value, entry) ]> |> <| instances ::= delete target |>
            <| pending_fetch ::= delete target |> <| fetch_requested ::= delete target |> <| fetch_answered ::= delete target |>);;
          emit (DDecide entry)
      end
  end.

(** ** Advancing a view *)

Definition emit_backing_witness (target : View) (view : DirectResolverView) (value : Digest) : DM () :=
  x ← get;
  match entry_of x target value, view_of x target view with
  | Some entry, Some s =>
      if bool_decide (is_Some (backing_sent s)) then skip
      else
        on_view target view (fun s => s <| backing_sent := Some value |> <| backing_witnesses ::= <[ dr_name x := value ]> |>);;
        emit (DBroadcastWitness (mkWitness target view value entry (dr_name x)))
  | _, _ => skip
  end.

(** [again] is the call of [advance_view]. *)
Definition recheck_backing (again : DM ()) (target : View) (view : DirectResolverView) : DM () :=
  x ← get;
  (match backing_winner x target view (dr_f_plus_1 x) with
   | Some value => emit_backing_witness target view value
   | None => skip
   end);;
  x ← get;
  when (bool_decide (is_Some (backing_winner x target view (dr_quorum x))) && has_instance target x && (current_of x target =? view))
    again.

Fixpoint request_values (target : View) (value : Digest) (peers : list PublicKey) : DM () :=
  match peers with
  | [] => skip
  | peer :: peers =>
      x ← get;
      (if set_has target (value, peer) (fetch_requested x) then skip
       else
         modify (fun x => x <| fetch_requested ::= set_insert target (value, peer) |>);;
         emit (DValueFetchTo peer (mkValueFetch target value (dr_name x))));;
      request_values target value peers
  end.

Definition ensure_value_fetch (target : View) (value : Digest) (peers : list PublicKey) : DM () :=
  x ← get;
  if bool_decide (is_Some (entry_of x target value)) then skip
  else
    modify (fun x => x <| pending_fetch ::= set_insert target value |>);;
    request_values target value peers.

(** The key registers a statement moves. *)
Definition raise_key (to : DirectResolutionPhase) (view : DirectResolverView) (value : Digest) (i : DirectInstance) : DirectInstance :=
  match to with
  | PKey1 =>
      (if key1_value i =? value then i else i <| prev_key1 := key1_view i |> <| key1_value := value |>) <| key1_view := view |>
  | PKey2 =>
      (if key2_value i =? value then i else i <| prev_key2 := key2_view i |> <| key2_value := value |>) <| key2_view := view |>
  | PKey3 => i <| key3_view := view |> <| key3_value := value |>
  | PLock => i <| lock_view := view |> <| lock_value := value |>
  | PEcho => i
  end.

(** One turn of the loop over the phases: [None] is the early return, and
    otherwise the flag says whether a statement was sent. *)
Definition advance_step (again : DM ()) (target : View) (view : DirectResolverView)
    (from to : DirectResolutionPhase) : DM (option bool) :=
  x ← get;
  match phase_winner x target view from (dr_quorum x) with
  | None => mret (Some false)
  | Some (value, key) =>
      match view_of x target view with
      | None => mret (Some false)
      | Some s =>
          if bool_decide (is_Some (sent s !! to)) then mret (Some false)
          else if negb (has_valid_entry x target value) then
            ensure_value_fetch target value (phase_authors x target view from value key);; mret None
          else if bool_decide (from = PEcho) && negb (fresh_origin_ok x target view value) then mret (Some false)
          else if bool_decide (from = PEcho) && match proposal s with Some p => dp_key_view p =? 0 | None => false end &&
                  negb (is_backed x target value) then
            emit_backing_witness target view value;;
            recheck_backing again target view;;
            mret (Some false)
          else
            on_inst target (raise_key to view value);;
            emit_statement target view to value None None;;
            mret (Some true)
      end
  end.

Fixpoint advance_round (again : DM ()) (target : View) (view : DirectResolverView)
    (steps : list (DirectResolutionPhase * DirectResolutionPhase)) : DM (option bool) :=
  match steps with
  | [] => mret (Some false)
  | (from, to) :: steps =>
      r ← advance_step again target view from to;
      match r with
      | None => mret None
      | Some moved =>
          r ← advance_round again target view steps;
          mret ((fun later => moved || later) <$> r)
      end
  end.

(** One turn of the outer loop. *)
Definition advance_pass (again : DM ()) (target : View) (view : DirectResolverView) : DM (option bool) :=
  r ← advance_round again target view [(PEcho, PKey1); (PKey1, PKey2); (PKey2, PKey3); (PKey3, PLock)];
  match r with
  | None => mret None
  | Some progressed =>
      x ← get;
      match phase_winner x target view PLock (dr_quorum x) with
      | None => mret (Some progressed)
      | Some (value, key) =>
          if done_is_sent x target then mret (Some progressed)
          else
            match entry_of x target value with
            | None => ensure_value_fetch target value (phase_authors x target view PLock value key);; mret None
            | Some entry => emit_done target value entry;; mret (Some true)
            end
      end
  end.

(** Whether the loop ended rather than returned. *)
Fixpoint advance_loop (again : DM ()) (n : nat) (target : View) (view : DirectResolverView) : DM bool :=
  match n with
  | O => mret false
  | S n =>
      r ← advance_pass again target view;
      match r with
      | None => mret false
      | Some true => advance_loop again n target view
      | Some false => mret true
      end
  end.

Fixpoint advance_deep (depth : nat) (target : View) (view : DirectResolverView) : DM () :=
  match depth with
  | O => skip
  | S depth =>
      x ← get;
      if negb (has_instance target x) || negb (current_of x target =? view) then skip
      else
        ended ← advance_loop (advance_deep depth target view) loop_bound target view;
        when ended (recheck_done target)
  end.

Definition advance_view := advance_deep advance_depth.

(** ** Wishes and view entry *)

Definition raise_own_wish (target : View) (view : DirectResolverView) : DM () :=
  x ← get;
  match instances x !! target with
  | None => skip
  | Some i =>
      if view <=? own_wish i then skip
      else
        on_inst target (fun i => i <| own_wish := view |> <| wishes ::= <[ dr_name x := view ]> |>);;
        emit (DBroadcastWish (mkWish target view (dr_name x)));;
        when (current_view i =? 0) (emit (DArmTimer target view TkEntry (dr_clock x + proposal_timeout x)))
  end.

Definition enter_view (target : View) (view : DirectResolverView) : DM () :=
  x ← get;
  match instances x !! target with
  | None => skip
  | Some i =>
      if view <=? entered_through i then skip
      else
        on_inst target (fun i => i <| entered_through := view |> <| current_view := view |>);;
        let entry := if 0 <? key3_view i then entry_of x target (key3_value i) else None in
        let suggest := mkSuggest target view (dr_name x) (key3_view i) (key3_value i) (key2_view i) (key2_value i) (prev_key2 i) entry in
        let proof := mkProof target view (dr_name x) (key1_view i) (key1_value i) (prev_key1 i) in
        on_view_entry target view (fun s => s <| suggestions ::= <[ dr_name x := suggest ]> |> <| proofs ::= <[ dr_name x := proof ]> |>);;
        emit (DArmTimer target view TkProposal (dr_clock x + proposal_timeout x));;
        emit (DArmTimer target view TkView (dr_clock x + resolver_timeout x));;
        emit (DBroadcastProof proof);;
        (match resolution_leader x target view with
         | Some leader => when (negb (leader =? dr_name x)) (emit (DSuggestTo leader suggest))
         | None => skip
         end);;
        try_primary_propose target view;;
        try_echo target view;;
        advance_view target view
  end.

Definition wish_values (x : DirectResolver) (target : View) : list DirectResolverView :=
  match instances x !! target with Some i => values_of (wishes i) | None => [] end.

Definition recheck_wishes (target : View) : DM () :=
  x ← get;
  if negb (has_instance target x) then skip
  else
    raise_own_wish target (dr_kth_largest (wish_values x target) (dr_f_plus_1 x));;
    x ← get;
    match instances x !! target with
    | None => skip
    | Some i =>
        let enter := dr_kth_largest (wish_values x target) (dr_quorum x) in
        let start := u64_saturating_add (entered_through i) 1 in
        if enter <? start then skip
        else for_each (enter_view target) (seqZ start (enter - start + 1))
    end.

(** The own sends of one view, each at most once per requester. *)
Definition replay_item (target : View) (requester : PublicKey) (view : DirectResolverView) (kind : DirectReplayKind)
    (effect : option DirectResolutionEffect) : DM () :=
  match effect with
  | None => skip
  | Some e =>
      x ← get;
      match view_of x target view with
      | None => skip
      | Some s =>
          if bool_decide ((kind, requester) ∈ replayed_to s) then skip
          else on_view target view (fun s => s <| replayed_to ::= union {[ (kind, requester) ]} |>);; emit e
      end
  end.

Definition replay_statement (x : DirectResolver) (target : View) (requester : PublicKey) (view : DirectResolverView)
    (s : DirectViewState) (phase : DirectResolutionPhase) : option DirectResolutionEffect :=
  (fun r => DStatementTo requester (mkStatement target view (sr_value r) phase (sr_proposal_key_view r) (sr_origin r) (dr_name x))) <$>
  (statements s !! phase ≫= lookup (dr_name x)).

Definition replay_view (target : View) (requester : PublicKey) (view : DirectResolverView) : DM () :=
  x ← get;
  match view_of x target view with
  | None => skip
  | Some s =>
      when (bool_decide (resolution_leader x target view = Some requester))
        (replay_item target requester view RkSuggest (DSuggestTo requester <$> suggestions s !! dr_name x));;
      replay_item target requester view RkProof (DProofTo requester <$> proofs s !! dr_name x);;
      replay_item target requester view RkProposal (DProposalTo requester <$>
        (p ← proposal s; if dp_sender p =? dr_name x then Some p else None));;
      for_each (fun phase => replay_item target requester view (RkStatement phase) (replay_statement x target requester view s phase))
        [PEcho; PKey1; PKey2; PKey3; PLock];;
      match backing_sent s with
      | None => skip
      | Some value =>
          match entry_of x target value with
          | None => when (negb (bool_decide ((RkWitness, requester) ∈ replayed_to s))) panic
          | Some entry => replay_item target requester view RkWitness
                            (Some (DWitnessTo requester (mkWitness target view value entry (dr_name x))))
          end
      end
  end.

Definition replay_done (target : View) (requester : PublicKey) : DM () :=
  x ← get;
  match instances x !! target ≫= done_sent with
  | None => skip
  | Some value =>
      if set_has target requester (done_replayed_to x) then skip
      else
        modify (fun x => x <| done_replayed_to ::= set_insert target requester |>);;
        match entry_of x target value with
        | None => panic
        | Some entry => emit (DDoneTo requester (mkDone target value entry (dr_name x)))
        end
  end.

Definition replay_progress_to (target : View) (requester : PublicKey) (through : DirectResolverView) : DM () :=
  x ← get;
  (match instances x !! target with
   | None => skip
   | Some i =>
       if own_wish i <=? default 0 (wish_replayed_through i !! requester) then
         on_inst target (fun i => i <| wish_replayed_through ::= <[ requester := default 0 (wish_replayed_through i !! requester) ]> |>)
       else
         on_inst target (fun i => i <| wish_replayed_through ::= <[ requester := own_wish i ]> |>);;
         emit (DWishTo requester (mkWish target (own_wish i) (dr_name x)))
   end);;
  x ← get;
  (match instances x !! target with
   | None => skip
   | Some i =>
       for_each (replay_view target requester)
         (filter (fun v => v <= u64_saturating_add through 1) (map_iter (di_views i)).*1)
   end);;
  replay_done target requester.

(** [WISH]es of an instance that does not exist yet. *)
Definition raise_wish (sender : PublicKey) (view : DirectResolverView) (m : gmap PublicKey DirectResolverView) : gmap PublicKey DirectResolverView :=
  <[ sender := view ]> m.

Definition on_wish (w : DirectResolutionWish) : DM () :=
  x ← get;
  let target := dw_target w in
  let sender := dw_sender w in
  if negb (is_member x sender) || (target =? 0) || (dw_view w =? 0) then skip
  else
    match decisions x !! target with
    | Some (value, entry) =>
        if set_has target sender (done_replayed_to x) then skip
        else
          modify (fun x => x <| done_replayed_to ::= set_insert target sender |>);;
          emit (DDoneTo sender (mkDone target value entry (dr_name x)))
    | None =>
        match instances x !! target with
        | None =>
            if (target <? retained_floor x) || (admitted_through x <? target) then skip
            else
              let pending := default ∅ (passive_wishes x !! target) in
              if dw_view w <=? default 0 (pending !! sender) then
                modify (fun x => x <| passive_wishes ::= <[ target := raise_wish sender (default 0 (pending !! sender)) pending ]> |>)
              else
                let pending := raise_wish sender (dw_view w) pending in
                if Z.of_nat (size pending) <? dr_f_plus_1 x then
                  modify (fun x => x <| passive_wishes ::= <[ target := pending ]> |>)
                else
                  modify (fun x => x <| passive_wishes ::= delete target |>
                    <| instances ::= <[ target := instance_new <| wishes := pending |> ]> |>);;
                  recheck_wishes target;;
                  replay_progress_to target sender (dw_view w)
        | Some i =>
            if dw_view w <=? default 0 (wishes i !! sender) then
              on_inst target (fun i => i <| wishes ::= raise_wish sender (default 0 (wishes i !! sender)) |>)
            else
              on_inst target (fun i => i <| wishes ::= raise_wish sender (dw_view w) |>);;
              recheck_wishes target;;
              replay_progress_to target sender (dw_view w)
        end
    end.

Definition on_timer (target : View) (view : DirectResolverView) (kind : DirectResolutionTimerKind) : DM () :=
  x ← get;
  match instances x !! target with
  | None => skip
  | Some i =>
      match kind with
      | TkEntry =>
          if negb (current_view i =? 0) || negb (own_wish i =? view) then skip
          else
            emit (DBroadcastWish (mkWish target view (dr_name x)));;
            emit (DArmTimer target view TkEntry (dr_clock x + proposal_timeout x))
      | _ =>
          if negb (current_view i =? view) then skip
          else if bool_decide (kind = TkProposal \/ kind = TkPrimaryDown) && has_proposal x target view then skip
          else
            raise_own_wish target (u64_saturating_add view 1);;
            recheck_wishes target
      end
  end.

(** ** Phase messages *)

Definition retry_target (target : View) : DM () :=
  x ← get;
  if negb (has_instance target x) then skip
  else
    let view := current_of x target in
    try_primary_propose target view;;
    try_echo target view;;
    advance_view target view;;
    recheck_done target.

Definition on_suggest (g : DirectResolutionSuggest) : DM () :=
  x ← get;
  let target := sg_target g in
  if negb (is_member x (sg_sender g)) || (target =? 0) || (sg_view g =? 0) || is_decided target x || negb (has_instance target x) then skip
  else if negb (admits_phase_view x target (sg_view g)) || (sg_view g <? current_of x target) then skip
  else if match view_of x target (sg_view g) with
          | Some s => bool_decide (is_Some (suggestions s !! sg_sender g)) | None => false end then skip
  else
    named ← (if sg_key3_view g =? 0 then mret (negb (bool_decide (is_Some (sg_entry g))))
             else match sg_entry g with
                  | None => mret false
                  | Some entry =>
                      value ← remember_entry target entry;
                      mret (bool_decide (value = Some (sg_key3_value g)))
                  end);
    if negb (named : bool) then skip
    else
      on_view_entry target (sg_view g) (fun s => s <| suggestions ::= <[ sg_sender g := g ]> |>);;
      try_primary_propose target (sg_view g).

Definition on_proof (p : DirectResolutionProof) : DM () :=
  x ← get;
  let target := pr_target p in
  if negb (is_member x (pr_sender p)) || (target =? 0) || (pr_view p =? 0) || is_decided target x || negb (has_instance target x) then skip
  else if negb (admits_phase_view x target (pr_view p)) || (pr_view p <? current_of x target) then skip
  else
    on_view_entry target (pr_view p) id;;
    if match view_of x target (pr_view p) with
       | Some s => bool_decide (is_Some (proofs s !! pr_sender p)) | None => false end then skip
    else
      on_view target (pr_view p) (fun s => s <| proofs ::= <[ pr_sender p := p ]> |>);;
      try_echo target (pr_view p).

Definition on_witness (w : DirectResolutionWitness) : DM () :=
  x ← get;
  let target := wi_target w in
  if negb (is_member x (wi_sender w)) || (target =? 0) || (wi_view w =? 0) || is_decided target x ||
     negb (value_digest x (wi_entry w) =? wi_value w) || negb (has_instance target x) then skip
  else if negb (admits_phase_view x target (wi_view w)) then skip
  else if match view_of x target (wi_view w) with
          | Some s => bool_decide (is_Some (backing_witnesses s !! wi_sender w)) | None => false end then skip
  else
    value ← remember_entry target (wi_entry w);
    match value with
    | None => skip
    | Some _ =>
        on_view_entry target (wi_view w) (fun s => s <| backing_witnesses ::= <[ wi_sender w := wi_value w ]> |>);;
        recheck_backing (advance_view target (wi_view w)) target (wi_view w);;
        retry_target target
    end.

Definition on_vote (target : View) (view : DirectResolverView) (value : Digest) (vote : DirectResolutionVote) : DM () :=
  x ← get;
  match view_of x target view with
  | None => skip
  | Some s =>
      let proposal_matches := match proposal s with Some p => dp_value p =? value | None => false end in
      if negb (bool_decide (vote_status s = VsRequested)) || negb proposal_matches then skip
      else
        match vote with
        | Reject permanent =>
            on_view target view (fun s => s <| vote_status := if permanent then VsRejectedPermanently else VsRejected |>)
        | Accept origin =>
            if match origin with Some bit => 1 <? bit | None => false end then
              on_view target view (fun s => s <| vote_status := VsRejected |>)
            else
              on_view target view (fun s => s <| vote_status := VsAccepted |> <| vote_origin := origin |>);;
              try_echo target view;;
              advance_view target view
        end
  end.

(** The targets whose current view was rejected for now. *)
Definition rejected_now (p : View * DirectInstance) : option (View * DirectResolverView) :=
  s ← di_views p.2 !! current_view p.2;
  if bool_decide (vote_status s = VsRejected) then Some (p.1, current_view p.2) else None.

Definition retry_external_validity : DM () :=
  x ← get;
  let coordinates := omap rejected_now (map_iter (instances x)) in
  for_each (fun c => on_view c.1 c.2 (fun s => s <| vote_status := VsUnknown |>)) coordinates;;
  for_each (fun c => try_echo c.1 c.2) coordinates.

(** The checks on the fields of a statement. *)
Definition statement_formed (st : DirectResolutionStatement) : bool :=
  negb (match ds_origin st with Some bit => 1 <? bit | None => false end) &&
  match ds_phase st, ds_proposal_key_view st with
  | PEcho, Some key => (key <? ds_view st) && negb ((0 <? key) && bool_decide (is_Some (ds_origin st)))
  | PEcho, None => false
  | _, key => bool_decide (key = None) && bool_decide (ds_origin st = None)
  end.

Definition on_statement (m : DirectResolutionStatement) : DM () :=
  x ← get;
  let target := ds_target m in
  if negb (is_member x (ds_sender m)) || (target =? 0) || (ds_view m =? 0) || negb (statement_formed m) || is_decided target x ||
     negb (has_instance target x) then skip
  else if negb (admits_phase_view x target (ds_view m)) then skip
  else
    let current := current_of x target in
    on_view_entry target (ds_view m) (fun s => s <| statements ::= fun m' => <[ ds_phase m := default ∅ (m' !! ds_phase m) ]> m' |>);;
    if match view_of x target (ds_view m) with
       | Some s => bool_decide (is_Some (statements s !! ds_phase m ≫= lookup (ds_sender m))) | None => false end then skip
    else
      on_view target (ds_view m) (fun s => s <| statements ::= fun m' =>
        <[ ds_phase m := <[ ds_sender m := mkStatementRecord (ds_value m) (ds_proposal_key_view m) (ds_origin m) ]>
             (default ∅ (m' !! ds_phase m)) ]> m' |>);;
      try_primary_propose target current;;
      try_echo target current;;
      when (ds_view m =? current) (advance_view target (ds_view m)).

Definition on_done (d : DirectResolutionDone) : DM () :=
  x ← get;
  let target := dd_target d in
  if negb (is_member x (dd_sender d)) || (target =? 0) || negb (value_digest x (dd_entry d) =? dd_value d) ||
     negb (valid_entry x target (dd_entry d)) then skip
  else if is_decided target x then skip
  else
    match instances x !! target with
    | None => skip
    | Some i =>
        if bool_decide (is_Some (done_by i !! dd_sender d)) then skip
        else
          remember_entry target (dd_entry d);;
          on_inst target (fun i => i <| done_by ::= <[ dd_sender d := dd_value d ]> |>);;
          recheck_done target
    end.

Definition on_value_fetch (f : DirectResolutionValueFetch) : DM () :=
  x ← get;
  let target := vf_target f in
  if negb (is_member x (vf_requester f)) || (target =? 0) then skip
  else
    match entry_of x target (vf_value f) with
    | None => skip
    | Some entry =>
        if set_has target (vf_value f, vf_requester f) (fetch_answered x) then skip
        else
          modify (fun x => x <| fetch_answered ::= set_insert target (vf_value f, vf_requester f) |>);;
          emit (DValueServeTo (vf_requester f) (mkValueServe target (vf_value f) entry))
    end.

Definition on_value_serve (v : DirectResolutionValueServe) : DM () :=
  x ← get;
  let target := vs_target v in
  if negb (value_digest x (vs_entry v) =? vs_value v) || negb (valid_entry x target (vs_entry v)) ||
     negb (set_has target (vs_value v) (pending_fetch x)) then skip
  else
    modify (fun x => x <| pending_fetch ::= fun m =>
      let rest := (default ∅ (m !! target) : gset Digest) ∖ {[ vs_value v ]} in
      if decide (rest = ∅) then delete target m else <[ target := rest ]> m |>);;
    remember_entry target (vs_entry v);;
    retry_target target.

(** ** What the caller drives *)

Definition merge_wishes (passive wishes : gmap PublicKey DirectResolverView) : gmap PublicKey DirectResolverView :=
  union_with (fun a b => Some (Z.max a b)) passive wishes.

Fixpoint remember_all (target : View) (entries : list ResolutionEntry) : DM (list ResolutionEntry) :=
  match entries with
  | [] => mret []
  | entry :: entries =>
      x ← get;
      if negb (valid_entry x target entry) then remember_all target entries
      else
        remember_entry target entry;;
        rest ← remember_all target entries;
        mret (entry :: rest)
  end.

Definition add_candidates (accepted cs : list ResolutionEntry) : list ResolutionEntry :=
  merge_sort dr_key_le (foldl (fun cs e => if bool_decide (e ∈ cs) then cs else cs ++ [e]) cs accepted).

Definition update_candidates (target : View) (entries : list ResolutionEntry) : DM () :=
  x ← get;
  if (target =? 0) || (target <? retained_floor x) || is_decided target x then skip
  else
    modify (fun x => x <| admitted_through ::= Z.max target |>);;
    accepted ← remember_all target entries;
    if bool_decide (accepted = []) then skip
    else
      modify (fun x => x <| instances ::= partial_alter (fun o =>
          Some ((default instance_new o) <| wishes ::= merge_wishes (default ∅ (passive_wishes x !! target)) |>
            <| candidates ::= add_candidates accepted |>)) target |>
        <| passive_wishes ::= delete target |>);;
      raise_own_wish target 1;;
      recheck_wishes target;;
      x ← get;
      try_primary_propose target (current_of x target).

Definition bar_full_selection (target : View) : DM () :=
  modify (fun x =>
    if (target =? 0) || (target <? retained_floor x) || is_decided target x then x
    else x <| full_barred ::= union {[ target ]} |>).

Definition activate_with_local_terminal (target : View) : DM () :=
  x ← get;
  if (target =? 0) || (target <? retained_floor x) || is_decided target x || has_instance target x then skip
  else
    modify (fun x => x <| admitted_through ::= Z.max target |>
      <| instances ::= <[ target := instance_new <| wishes := default ∅ (passive_wishes x !! target) |> ]> |>
      <| passive_wishes ::= delete target |>);;
    raise_own_wish target 1;;
    recheck_wishes target.

Definition admit_targets_through (through : View) : DM () :=
  modify (fun x => x <| admitted_through ::= Z.max through |>).

(** [Digest::default()] is the least digest, so [split_off] keeps the values of the targets from
    the floor on. *)
Definition dr_gc_below (floor : View) : DM () :=
  if floor =? 0 then skip
  else
    modify (fun x => x <| retained_floor ::= Z.max floor |> <| instances ::= map_split_off floor |>
      <| dr_values ::= filter (fun p => floor <= p.1.1) |> <| decisions ::= map_split_off floor |>
      <| full_barred ::= set_split_off floor |> <| done_replayed_to ::= map_split_off floor |>
      <| passive_wishes ::= map_split_off floor |> <| pending_fetch ::= map_split_off floor |>
      <| fetch_requested ::= map_split_off floor |> <| fetch_answered ::= map_split_off floor |>).

Definition max_current_view (x : DirectResolver) : DirectResolverView :=
  foldr Z.max 0 (current_view <$> (map_to_list (instances x)).*2).
End resolver.
