(* ===== verification/DirectInv.v ===== *)
(** What one resolver's history says.

    For one target, [linv] relates the messages a party has sent to its state: it sends
    one value per view and phase, each statement rests on a quorum of the statements of the
    phase before, an ECHO respects the party's lock, and its PROOFs describe the keys it
    had.  Every handler keeps it ([direct_step]), whatever other parties say. *)

From S2P Require Import Prelude Committee Types Formed ResolutionEvidence Direct.

(** ** Messages

    The entry a WITNESS or a DONE carries is named by its value. *)

Inductive DMsg :=
| MStatement (m : DirectResolutionStatement)
| MProof (p : DirectResolutionProof)
| MWitness (target : View) (view : DirectResolverView) (value : Digest) (sender : PublicKey)
| MDone (target : View) (value : Digest) (sender : PublicKey).

Definition msg_target (m : DMsg) : View :=
  match m with MStatement m => ds_target m | MProof p => pr_target p | MWitness target _ _ _ | MDone target _ _ => target end.

Definition msg_of (e : DirectResolutionEffect) : option DMsg :=
  match e with
  | DBroadcastStatement m | DStatementTo _ m => Some (MStatement m)
  | DBroadcastProof p | DProofTo _ p => Some (MProof p)
  | DBroadcastWitness w | DWitnessTo _ w => Some (MWitness (wi_target w) (wi_view w) (wi_value w) (wi_sender w))
  | DBroadcastDone d | DDoneTo _ d => Some (MDone (dd_target d) (dd_value d) (dd_sender d))
  | _ => None
  end.

Definition spoke (es : list DirectResolutionEffect) (m : DMsg) : Prop := m ∈ omap msg_of es.

Lemma spoke_app es es' m : spoke (es ++ es') m <-> spoke es m \/ spoke es' m.
Proof. unfold spoke. by rewrite omap_app, elem_of_app. Qed.

Lemma spoke_nil m : ~ spoke [] m.
Proof. apply not_elem_of_nil. Qed.

Lemma spoke_one e m : spoke [e] m <-> msg_of e = Some m.
Proof.
  unfold spoke. cbn. destruct (msg_of e) as [m'|]; cbn; [rewrite list_elem_of_singleton; naive_solver|].
  split; [by intros ?%not_elem_of_nil|done].
Qed.

(** ** Counting senders *)

Lemma member_size c k : k ∈ members c -> 1 <= committee_size c.
Proof.
  intros Hk. rewrite <- size_members_committee. assert (size (members c) <> 0%nat) by (intros ?%size_empty_inv; set_solver). lia.
Qed.

Lemma count_senders {V} (P : V -> Prop) `{forall v, Decision (P v)} (m : gmap PublicKey V) :
  exists S : gset PublicKey, Z.of_nat (size S) = Z.of_nat (length (filter P (values_of m))) /\
    forall k, k ∈ S -> exists v, m !! k = Some v /\ P v.
Proof.
  set (l := filter (fun p => P p.2) (map_to_list m)). exists (list_to_set l.*1). split.
  - rewrite size_list_to_set.
    + f_equal. unfold values_of. rewrite length_fmap. unfold l. clear l. generalize (map_to_list m) as l. intros l.
      induction l as [|[k v] l IH]; [done|]. rewrite fmap_cons, !filter_cons. cbn [snd]. case_decide; cbn; by rewrite IH.
    + apply (NoDup_fmap_fst); [|apply NoDup_filter, NoDup_map_to_list].
      intros k v v'. unfold l. rewrite !list_elem_of_filter, !elem_of_map_to_list. naive_solver.
  - intros k. rewrite elem_of_list_to_set, list_elem_of_fmap. unfold l.
    intros ([k' v] & -> & [HP Hin]%list_elem_of_filter). apply elem_of_map_to_list in Hin. by exists v.
Qed.

Lemma first_quorum_spec {K} `{Countable K} `{KeyOrder K} threshold (l : list K) k :
  first_quorum threshold l = Some k -> threshold <= occurrences k l.
Proof.
  unfold first_quorum. intros Hh. apply head_Some_elem_of in Hh. by apply list_elem_of_filter in Hh as [? _].
Qed.

#[local] Set Default Proof Using "Type".

Section local.
Context {Hash : Hashing} (bincode_entry : ResolutionEntry -> list Z) (bincode_payload : Manifest -> Manifest -> list Z).
Context (c : Committee) (sid : Digest) (me : PublicKey) (t : View) (said : PublicKey -> DMsg -> Prop)
  (voted : DirectResolverView -> Digest -> option Z -> Prop).
Abbreviation DM := (M DirectResolutionEffect DirectResolver) (only parsing).
Abbreviation fp1 := (f_plus_1_parties (from_party_count (committee_size c))) (only parsing).
Abbreviation quo := (n_minus_f_parties (from_party_count (committee_size c))) (only parsing).
Implicit Types past es : list DirectResolutionEffect.

(** ** Claims about a history *)

Definition vd (e : ResolutionEntry) : Digest :=
  domain_hash (ascii_bytes "vantage-direct-resolution-value") sid (bincode_entry e).

Definition many (n : Z) (P : PublicKey -> Prop) : Prop :=
  exists S : gset PublicKey, n <= Z.of_nat (size S) /\ forall k, k ∈ S -> k ∈ members c /\ P k.

Definition own past (ph : DirectResolutionPhase) (v : DirectResolverView) (w : Digest) : Prop :=
  exists key origin, spoke past (MStatement (mkStatement t v w ph key origin me)).

(** What a party's records are evidence of: its own messages and those others sent it. *)
Definition heard past (k : PublicKey) (m : DMsg) : Prop := (k = me /\ spoke past m) \/ (k <> me /\ said k m).
Definition heard_st past (ph : DirectResolutionPhase) (v : DirectResolverView) (w : Digest) (k : PublicKey) : Prop :=
  exists key origin, heard past k (MStatement (mkStatement t v w ph key origin k)).

(** A PROOF that opens a lock on [y] of view [u] for view [v]. *)
Definition opens (u : DirectResolverView) (y : Digest) (v : DirectResolverView) (p : DirectResolutionProof) : Prop :=
  pr_target p = t /\ pr_view p = v /\ pr_prev_key1 p < pr_key1_view p /\ pr_key1_view p < v /\
  (u <= pr_prev_key1 p \/ (u <= pr_key1_view p /\ pr_key1_value p <> y)).

(** The greatest lock below the view, if any, is on the value or was opened. *)
Definition strict past (v : DirectResolverView) (w : Digest) : Prop :=
  (forall u y, own past PLock u y -> v <= u) \/
  exists u y, own past PLock u y /\ u < v /\ (forall u' y', own past PLock u' y' -> u' < v -> u' <= u) /\
    (y = w \/ many fp1 (fun k => exists p, pr_sender p = k /\ heard past k (MProof p) /\ opens u y v p)).

Definition own_done past (w : Digest) : Prop := spoke past (MDone t w me).

Definition prev_phase (ph : DirectResolutionPhase) : DirectResolutionPhase :=
  match ph with PKey1 => PEcho | PKey2 => PKey1 | PKey3 => PKey2 | PLock => PKey3 | PEcho => PEcho end.

Definition own_witness past (v : DirectResolverView) (w : Digest) : Prop := spoke past (MWitness t v w me).

(** A quorum of witnesses in one view. *)
Definition backed past (w : Digest) : Prop :=
  exists v, many quo (fun k => heard past k (MWitness t v w k)).

(** A quorum of ECHOs of a fresh proposal, with enough first-hand origins unless it is a skip. *)
Definition fresh past (v : DirectResolverView) (w : Digest) : Prop :=
  many quo (fun k => exists origin, heard past k (MStatement (mkStatement t v w PEcho (Some 0) origin k))) /\
  ((exists e, vd e = w /\ is_skip e = true) \/
   many fp1 (fun k => heard past k (MStatement (mkStatement t v w PEcho (Some 0) (Some 1) k)))).

(** Why a statement, a PROOF, a DONE, a decision or a WITNESS was sent. *)
Definition echo_ok past v w : Prop := strict past v w \/ own past PLock v w.
Definition proof_ok past (p : DirectResolutionProof) : Prop :=
  (pr_key1_view p = 0 \/ own past PKey1 (pr_key1_view p) (pr_key1_value p)) /\
  (pr_prev_key1 p = 0 \/ exists y, y <> pr_key1_value p /\ own past PKey1 (pr_prev_key1 p) y).
Definition done_ok past w : Prop :=
  (exists v, many quo (heard_st past PLock v w)) \/ many fp1 (fun k => k <> me /\ said k (MDone t w k)).
Definition decide_ok past w : Prop := many quo (fun k => heard past k (MDone t w k)).
Definition vote_ok past v w (key : option DirectResolverView) origin : Prop :=
  voted v w origin /\ (exists e, vd e = w /\ DValidateVote t v w e (bool_decide (key = Some 0)) ∈ past) /\
  (key = Some 0 \/ backed past w).
Definition source_ok past v w : Prop := backed past w \/
  exists key, 0 < key /\ many quo (fun k => exists origin, heard past k (MStatement (mkStatement t v w PEcho (Some key) origin k))).
Definition witness_ok past v w : Prop :=
  fresh past v w \/ many fp1 (fun k => k <> me /\ said k (MWitness t v w k)).

(** The messages of [es] are justified by the history [past], of which they are part. *)
Record justified es past : Prop := {
  h_uniq ph v w w' : own es ph v w -> own past ph v w' -> w = w';
  h_echo v w : own es PEcho v w -> echo_ok past v w;
  h_chain ph v w : ph <> PEcho -> own es ph v w -> many quo (heard_st past (prev_phase ph) v w);
  h_proof p : spoke es (MProof p) -> pr_target p = t -> pr_sender p = me -> proof_ok past p;
  h_done w : own_done es w -> done_ok past w;
  h_decide e : DDecide e ∈ es -> target_view e = t -> decide_ok past (vd e);
  h_vote v w key origin : spoke es (MStatement (mkStatement t v w PEcho key origin me)) -> vote_ok past v w key origin;
  h_source v w : own es PKey1 v w -> source_ok past v w;
  h_witness v w : own_witness es v w -> witness_ok past v w;
  h_pos ph v w : own es ph v w -> 0 < v;
}.

Definition hist past : Prop := justified past past.

(** ** Claims about the state *)

(** The view of the last statement of a phase, and its value. *)
Definition last_sent past (ph : DirectResolutionPhase) (view : DirectResolverView) (value : Digest) : Prop :=
  (view = 0 /\ forall v w, ~ own past ph v w) \/
  (own past ph view value /\ forall v w, own past ph v w -> v <= view).

Record vlive past (v : DirectResolverView) (s : DirectViewState) : Prop := {
  vl_pos : 0 < v;
  vl_sent ph w : sent s !! ph = Some w -> own past ph v w;
  vl_records ph k r : statements s !! ph ≫= lookup k = Some r ->
    k ∈ members c /\ heard past k (MStatement (mkStatement t v (sr_value r) ph (sr_proposal_key_view r) (sr_origin r) k));
  vl_proofs k p : proofs s !! k = Some p ->
    k ∈ members c /\ pr_sender p = k /\ pr_target p = t /\ pr_view p = v /\ heard past k (MProof p);
  vl_witnesses k w : backing_witnesses s !! k = Some w ->
    k ∈ members c /\ heard past k (MWitness t v w k);
  vl_backing w : backing_sent s = Some w -> own_witness past v w;
  vl_proposal p : proposal s = Some p -> dp_value p = vd (dp_entry p) /\ 0 <= dp_key_view p;
  vl_asked : vote_status s <> VsUnknown -> exists p, proposal s = Some p /\
    DValidateVote t v (dp_value p) (dp_entry p) (dp_key_view p =? 0) ∈ past;
  vl_voted p : vote_status s = VsAccepted -> proposal s = Some p -> voted v (dp_value p) (vote_origin s);
}.

Record live past (i : DirectInstance) : Prop := {
  lv_current : entered_through i = current_view i /\ 0 <= current_view i;
  lv_views v s : di_views i !! v = Some s -> vlive past v s;
  lv_own ph v w : own past ph v w -> v <= current_view i /\ exists s, di_views i !! v = Some s /\ sent s !! ph = Some w;
  lv_backing v w : own_witness past v w -> exists s, di_views i !! v = Some s /\ backing_sent s = Some w;
  lv_done k w : done_by i !! k = Some w -> k ∈ members c /\ heard past k (MDone t w k);
  lv_done_sent w : own_done past w <-> done_sent i = Some w;
  lv_key1 : last_sent past PKey1 (key1_view i) (key1_value i);
  lv_prev : prev_key1 i = 0 \/ exists y, y <> key1_value i /\ own past PKey1 (prev_key1 i) y;
  lv_lock : last_sent past PLock (lock_view i) (lock_value i);
}.

(** Nothing was said about the target. *)
Definition silent past : Prop :=
  (forall ph v w, ~ own past ph v w) /\ (forall w, ~ own_done past w) /\ (forall v w, ~ own_witness past v w) /\
  (forall p, spoke past (MProof p) -> pr_target p = t -> pr_sender p <> me).

Record linv past (x : DirectResolver) : Prop := {
  li_config : dr_committee x = c /\ dr_name x = me /\ dr_sid x = sid /\ dr_f_plus_1 x = fp1 /\ dr_quorum x = quo;
  li_member : me ∈ members c;
  li_hist : hist past;
  li_values t' w e : dr_values x !! (t', w) = Some e -> vd e = w /\ target_view e = t' /\ formed_resolution_entry c e = true;
  li_live i : instances x !! t = Some i -> live past i /\ decisions x !! t = None /\ retained_floor x <= t;
  li_closed : instances x !! t = None -> silent past \/ is_Some (decisions x !! t) \/ t < retained_floor x;
  li_decided w e : decisions x !! t = Some (w, e) -> decide_ok past w;
}.

(** Once an ECHO is out, no lock of an earlier view follows. *)
Definition frozen past es : Prop :=
  forall v w u y, own past PEcho v w -> own es PLock u y -> u < v -> own past PLock u y.

Definition keeps (x : DirectResolver) es (x' : DirectResolver) : Prop :=
  forall past, linv past x -> linv (past ++ es) x' /\ frozen past es.

(** ** Monotonicity *)

Lemma own_app past es ph v w : own (past ++ es) ph v w <-> own past ph v w \/ own es ph v w.
Proof.
  split.
  - intros (key & o & [?|?]%spoke_app); [left|right]; by exists key, o.
  - intros [(key & o & ?)|(key & o & ?)]; exists key, o; apply spoke_app; auto.
Qed.

Lemma own_nil ph v w : ~ own [] ph v w.
Proof. intros (key & origin & ?%spoke_nil). done. Qed.

Lemma heard_app past es k m : heard past k m -> heard (past ++ es) k m.
Proof. intros [[-> H]|H]; [left; split; [done|]; apply spoke_app; by left|by right]. Qed.

Lemma heard_st_app past es ph v w k : heard_st past ph v w k -> heard_st (past ++ es) ph v w k.
Proof. intros (key & origin & Hh). exists key, origin. by apply heard_app. Qed.

Lemma many_impl n (P P' : PublicKey -> Prop) : many n P -> (forall k, P k -> P' k) -> many n P'.
Proof. intros (S & Hn & HS) HP. exists S. split; [done|]. intros k Hk. destruct (HS k Hk). auto. Qed.

Lemma frozen_nil past : frozen past [].
Proof. intros v w u y _ []%own_nil. Qed.

Lemma frozen_app past es1 es2 : frozen past es1 -> frozen (past ++ es1) es2 -> frozen past (es1 ++ es2).
Proof.
  intros F1 F2 v w u y He Hl Hlt. apply own_app in Hl as [Hl|Hl]; [by eapply F1|].
  apply (F2 v w) in Hl; [|by apply own_app; left|done]. apply own_app in Hl as [?|?]; [done|by eapply F1].
Qed.

#[export] Instance keeps_trace : TraceRel keeps.
Proof.
  split.
  - intros x past H. rewrite app_nil_r. split; [done|apply frozen_nil].
  - intros x1 x2 x3 es1 es2 H1 H2 past Hl. destruct (H1 past Hl) as [L1 F1]. destruct (H2 _ L1) as [L2 F2].
    rewrite (assoc_L (++)). split; [done|by apply frozen_app].
Qed.

(** ** What growing the history keeps *)

Lemma many_heard_app past es n (m : PublicKey -> DMsg) :
  many n (fun k => heard past k (m k)) -> many n (fun k => heard (past ++ es) k (m k)).
Proof. intros H. eapply many_impl; [exact H|]. intros k. apply heard_app. Qed.

Lemma strict_app past es v w :
  (forall u y, own es PLock u y -> u < v -> own past PLock u y) -> strict past v w -> strict (past ++ es) v w.
Proof.
  intros Hf [Hno|(u & y & Hu & Hlt & Hmax & Hv)].
  - left. intros u y [H|H]%own_app; [by eapply Hno|]. destruct (Z.le_gt_cases v u) as [|Hlt]; [done|].
    apply (Hno u y). by eapply Hf.
  - right. exists u, y. split_and!; [by apply own_app; left|done| |].
    + intros u' y' [H|H]%own_app Hlt'; [by eapply Hmax|]. eapply Hmax; [by eapply Hf|done].
    + destruct Hv as [?|Hm]; [by left|right]. eapply many_impl; [exact Hm|].
      intros k (p & ? & ? & ?). exists p. split_and!; [done|by apply heard_app|done].
Qed.

Lemma proof_ok_app past es p : proof_ok past p -> proof_ok (past ++ es) p.
Proof.
  intros [H1 H2]. split.
  - destruct H1; [by left|right; by apply own_app; left].
  - destruct H2 as [?|(y & ? & ?)]; [by left|right; exists y]. split; [done|]. by apply own_app; left.
Qed.
Lemma chain_app past es ph v w : many quo (heard_st past ph v w) -> many quo (heard_st (past ++ es) ph v w).
Proof. intros H. eapply many_impl; [exact H|]. intros k. apply heard_st_app. Qed.
Lemma done_ok_app past es w : done_ok past w -> done_ok (past ++ es) w.
Proof. intros [[v H]|H]; [left; exists v; by apply chain_app|by right]. Qed.
Lemma decide_ok_app past es w : decide_ok past w -> decide_ok (past ++ es) w.
Proof. apply many_heard_app. Qed.
Lemma backed_app past es w : backed past w -> backed (past ++ es) w.
Proof. intros [v H]. exists v. by apply many_heard_app. Qed.
Lemma vote_ok_app past es v w key origin : vote_ok past v w key origin -> vote_ok (past ++ es) v w key origin.
Proof.
  intros (H1 & (e & He & H2) & H3). split_and!; [done|exists e; split; [done|]; apply elem_of_app; by left|].
  destruct H3; [by left|right; by apply backed_app].
Qed.
Lemma source_ok_app past es v w : source_ok past v w -> source_ok (past ++ es) v w.
Proof.
  intros [?|(key & Hk & H)]; [left; by apply backed_app|right; exists key; split; [done|]].
  eapply many_impl; [exact H|]. intros k [o Ho]. exists o. by apply heard_app.
Qed.
Lemma witness_ok_app past es v w : witness_ok past v w -> witness_ok (past ++ es) v w.
Proof.
  intros [[H1 H2]|?]; [left|by right]. split.
  - eapply many_impl; [exact H1|]. intros k [o Ho]. exists o. by apply heard_app.
  - destruct H2; [by left|right; by apply many_heard_app].
Qed.

(** A history grows by justified messages. *)
Lemma hist_app past es : hist past -> frozen past es -> justified es (past ++ es) -> hist (past ++ es).
Proof.
  intros [A1 A2 A3 A4 A5 A6 A7 A8 A9 A10] Hf [B1 B2 B3 B4 B5 B6 B7 B8 B9 B10]. split.
  - intros ph v w w' [H|H]%own_app; [|by eapply B1]. intros [H'|H']%own_app; [by eapply A1|].
    symmetry. eapply B1; [done|apply own_app; by left].
  - intros v w [H|H]%own_app; [|by apply B2]. destruct (A2 v w H) as [?|?]; [left|right; by apply own_app; left].
    eapply strict_app; [|done]. intros u y Hu Hlt. by eapply Hf.
  - intros ph v w Hne [H|H]%own_app; [|by apply B3]. by apply chain_app, A3.
  - intros p [H|H]%spoke_app ? ?; [|by apply B4]. by apply proof_ok_app, A4.
  - intros w [H|H]%spoke_app; [|by apply B5]. by apply done_ok_app, A5.
  - intros e [H|H]%elem_of_app ?; [|by apply B6]. by apply decide_ok_app, A6.
  - intros v w key origin [H|H]%spoke_app; [|by apply B7]. by apply vote_ok_app, A7.
  - intros v w [H|H]%own_app; [|by apply B8]. by apply source_ok_app, A8.
  - intros v w [H|H]%spoke_app; [|by apply B9]. by apply witness_ok_app, A9.
  - intros ph v w [H|H]%own_app; [by eapply A10|by eapply B10].
Qed.

Lemma vlive_app past es v s : vlive past v s -> vlive (past ++ es) v s.
Proof.
  intros [B1 B2 B3 B4 B5 B6 B7 B8 B9]. split; try done.
  - intros ph w Hs. apply own_app. left. by apply B2.
  - intros ph k r Hr. destruct (B3 ph k r Hr). split; [done|]. by apply heard_app.
  - intros k p Hp. destruct (B4 k p Hp) as (? & ? & ? & ? & ?). split_and!; try done. by apply heard_app.
  - intros k w Hk. destruct (B5 k w Hk). split; [done|]. by apply heard_app.
  - intros w Hw. apply spoke_app. left. by apply B6.
  - intros Hv. destruct (B8 Hv) as (p & Hp & Ha). exists p. split; [done|]. apply elem_of_app. by left.
Qed.

(** ** Messages that repeat earlier ones *)

Definition quiet past es : Prop :=
  (forall m, msg_target m = t -> spoke es m -> spoke past m) /\ (forall e, DDecide e ∈ es -> target_view e <> t).

Lemma quiet_nil past : quiet past [].
Proof. split; [by intros m _ ?%spoke_nil|by intros e ?%not_elem_of_nil]. Qed.

Lemma quiet_own past es ph v w : quiet past es -> own es ph v w -> own past ph v w.
Proof. intros [Hq _] (key & o & H). exists key, o. by apply Hq. Qed.

Lemma quiet_frozen past es : quiet past es -> frozen past es.
Proof. intros Hq v w u y _ H _. by eapply quiet_own. Qed.

Lemma hist_quiet past es : quiet past es -> hist past -> hist (past ++ es).
Proof.
  intros Hq Hh. apply hist_app; [done|by apply quiet_frozen|]. pose proof Hq as [Hm Hd].
  destruct Hh as [A1 A2 A3 A4 A5 A6 A7 A8 A9 A10]. split.
  - intros ph v w w' H%(quiet_own past); [|done]. intros [H'|H'%(quiet_own past)]%own_app; [by eapply A1|by eapply A1|done].
  - intros v w H%(quiet_own past); [|done]. destruct (A2 v w H) as [?|?]; [left|right; by apply own_app; left].
    eapply strict_app; [|done]. intros u y Hu _. by eapply quiet_own.
  - intros ph v w Hne H%(quiet_own past); [|done]. by apply chain_app, A3.
  - intros p H Ht ?. apply proof_ok_app, A4; [by apply Hm|done..].
  - intros w H. apply done_ok_app, A5. by apply Hm.
  - intros e H Ht. by destruct (Hd e).
  - intros v w key origin H. apply vote_ok_app, A7. by apply Hm.
  - intros v w H%(quiet_own past); [|done]. by apply source_ok_app, A8.
  - intros v w H. apply witness_ok_app, A9. by apply Hm.
  - intros ph v w H%(quiet_own past); [by eapply A10|done].
Qed.

(** A history that says nothing new about the statements. *)
Lemma last_sent_app past es ph view value :
  (forall v w, own es ph v w -> own past ph v w) -> last_sent past ph view value -> last_sent (past ++ es) ph view value.
Proof.
  intros Hq [[? H]|[H1 H2]]; [left; split; [done|]|right; split; [by apply own_app; left|]].
  - intros v w [?|?%Hq]%own_app; by eapply H.
  - intros v w [?|?%Hq]%own_app; by eapply H2.
Qed.

Lemma live_quiet past es i : quiet past es -> live past i -> live (past ++ es) i.
Proof.
  intros Hq [B1 B2 B3 B4 B5 B6 B7 B8 B9]. pose proof Hq as [Hm _]. split; try done.
  - intros v s Hs. by apply vlive_app, B2.
  - intros ph v w [?|?%(quiet_own past)]%own_app; [by apply B3|by apply B3|done].
  - intros v w [?|?]%spoke_app; apply B4; [done|by apply Hm].
  - intros k w Hk. destruct (B5 k w Hk). split; [done|]. by apply heard_app.
  - intros w. rewrite <- B6. unfold own_done. rewrite spoke_app. split; [intros [?|?]; [done|by apply Hm]|by left].
  - apply last_sent_app; [|done]. intros v w. by apply quiet_own.
  - destruct B8 as [?|(y & ? & ?)]; [by left|right; exists y]. split; [done|]. apply own_app. by left.
  - apply last_sent_app; [|done]. intros v w. by apply quiet_own.
Qed.

Lemma silent_quiet past es : quiet past es -> silent past -> silent (past ++ es).
Proof.
  intros Hq (S1 & S2 & S3 & S4). pose proof Hq as [Hm _]. split_and!.
  - intros ph v w [?|?%(quiet_own past)]%own_app; [by eapply S1|by eapply S1|done].
  - intros w [?|?]%spoke_app; [by eapply S2|]. eapply S2. by apply Hm.
  - intros v w [?|?]%spoke_app; [by eapply S3|]. eapply S3. by apply Hm.
  - intros p [?|?]%spoke_app Ht; [by apply S4|]. apply S4; [by apply Hm|done].
Qed.
End local.

(** ** More messages and answers of others *)

Section more.
Context {Hash : Hashing} (bincode_entry : ResolutionEntry -> list Z).
Context (c : Committee) (sid : Digest) (me : PublicKey) (t : View) (said said' : PublicKey -> DMsg -> Prop)
  (voted voted' : DirectResolverView -> Digest -> option Z -> Prop)
  (Hsaid : forall k m, said k m -> said' k m) (Hvoted : forall v w o, voted v w o -> voted' v w o).
#[local] Set Default Proof Using "Type Hsaid".
Implicit Types past : list DirectResolutionEffect.

Lemma heard_more past k m : heard me said past k m -> heard me said' past k m.
Proof. intros [?|[? ?]]; [by left|right; auto]. Qed.

Lemma many_heard_more past n (m : PublicKey -> DMsg) :
  many c n (fun k => heard me said past k (m k)) -> many c n (fun k => heard me said' past k (m k)).
Proof. intros H. eapply many_impl; [exact H|]. intros k. apply heard_more. Qed.

Lemma heard_st_more past ph v w k : heard_st me t said past ph v w k -> heard_st me t said' past ph v w k.
Proof. intros (key & o & H). exists key, o. by apply heard_more. Qed.

Lemma strict_more past v w : strict c me t said past v w -> strict c me t said' past v w.
Proof.
  intros [?|(u & y & H1 & H2 & H3 & H4)]; [by left|right; exists u, y; split_and!; [done..|]].
  destruct H4 as [?|H4]; [by left|right]. eapply many_impl; [exact H4|]. intros k (p & ? & ? & ?). exists p.
  split_and!; [done|by apply heard_more|done].
Qed.

Lemma backed_more past w : backed c me t said past w -> backed c me t said' past w.
Proof. intros [v H]. exists v. by apply many_heard_more. Qed.

#[local] Set Default Proof Using "Type Hsaid Hvoted".

Lemma hist_more past : hist bincode_entry c sid me t said voted past -> hist bincode_entry c sid me t said' voted' past.
Proof.
  intros [A1 A2 A3 A4 A5 A6 A7 A8 A9 A10]. split; try done.
  - intros v w [?|?]%A2; [left; by apply strict_more|by right].
  - intros ph v w Hne Ho. eapply many_impl; [by apply A3|]. intros k. apply heard_st_more.
  - intros w [[v H]|H]%A5; [left; exists v; eapply many_impl; [exact H|]; intros k; apply heard_st_more|right].
    eapply many_impl; [exact H|]. intros k [? ?]. auto.
  - intros e He Ht. by apply many_heard_more, A6.
  - intros v w key o H. destruct (A7 _ _ _ _ H) as (H1 & H2 & H3). split_and!; [auto|done|].
    destruct H3; [by left|right; by apply backed_more].
  - intros v w [?|(key & Hk & H)]%A8; [left; by apply backed_more|right; exists key; split; [done|]].
    eapply many_impl; [exact H|]. intros k [o Ho]. exists o. by apply heard_more.
  - intros v w [[H1 H2]|H]%A9; [left; split|right].
    + eapply many_impl; [exact H1|]. intros k [o Ho]. exists o. by apply heard_more.
    + destruct H2; [by left|right; by apply many_heard_more].
    + eapply many_impl; [exact H|]. intros k [? ?]. auto.
Qed.

Lemma vlive_more past v s : vlive bincode_entry c sid me t said voted past v s -> vlive bincode_entry c sid me t said' voted' past v s.
Proof.
  intros [B1 B2 B3 B4 B5 B6 B7 B8 B9]. split; try done.
  - intros ph k r Hr. destruct (B3 ph k r Hr). split; [done|by apply heard_more].
  - intros k p Hp. destruct (B4 k p Hp) as (? & ? & ? & ? & ?). split_and!; try done. by apply heard_more.
  - intros k w Hk. destruct (B5 k w Hk). split; [done|by apply heard_more].
  - intros p Hv Hp. auto.
Qed.

Lemma linv_more past x : linv bincode_entry c sid me t said voted past x -> linv bincode_entry c sid me t said' voted' past x.
Proof.
  intros [C1 C2 C3 C4 C5 C6 C7]. split; try done.
  - by apply hist_more.
  - intros i Hi. destruct (C5 i Hi) as ([D1 D2 D3 D4 D5 D6 D7 D8 D9] & ? & ?). split_and!; [|done|done]. split; try done.
    + intros v s Hs. by apply vlive_more, D2.
    + intros k w Hk. destruct (D5 k w Hk). split; [done|by apply heard_more].
  - intros w e Hd. by eapply many_heard_more, C7.
Qed.
End more.
