(* ===== verification/DirectSteps.v ===== *)
(** The resolver's handlers keep the invariant of [DirectInv].

    The state changes only at a few places: a record of what another party said, an own
    statement with the key registers it moves, a WITNESS, a DONE, a decision, the
    PROOF of an entered view, and the creation and collection of an instance.  Each has
    its lemma; the handlers are sequences of them. *)

From S2P Require Import Prelude Committee Types Formed ResolutionEvidence Direct DirectInv.

#[local] Set Default Proof Using "Type".

Section steps.
Context {Hash : Hashing} (bincode_entry : ResolutionEntry -> list Z) (bincode_payload : Manifest -> Manifest -> list Z).
Context (c : Committee) (sid : Digest) (me : PublicKey) (t : View) (said : PublicKey -> DMsg -> Prop)
  (voted : DirectResolverView -> Digest -> option Z -> Prop).
Abbreviation DM := (M DirectResolutionEffect DirectResolver) (only parsing).
Abbreviation fp1 := (f_plus_1_parties (from_party_count (committee_size c))) (only parsing).
Abbreviation quo := (n_minus_f_parties (from_party_count (committee_size c))) (only parsing).
Abbreviation vd := (vd bincode_entry sid) (only parsing).
Abbreviation own := (own me t).
Abbreviation heard := (heard me said).
Abbreviation strict := (strict c me t said).
Abbreviation own_done := (own_done me t).
Abbreviation own_witness := (own_witness me t).
Abbreviation justified := (justified bincode_entry c sid me t said voted).
Abbreviation hist := (hist bincode_entry c sid me t said voted).
Abbreviation vlive := (vlive bincode_entry c sid me t said voted).
Abbreviation live := (live bincode_entry c sid me t said voted).
Abbreviation linv := (linv bincode_entry c sid me t said voted).
Abbreviation frozen := (frozen me t).
Abbreviation keeps := (keeps bincode_entry c sid me t said voted).
Abbreviation quiet := (quiet t).
Implicit Types (past es : list DirectResolutionEffect) (x : DirectResolver) (i : DirectInstance) (s : DirectViewState).

(** ** Changes of the resolver *)

Definition frame x x' : Prop :=
  dr_committee x' = dr_committee x /\ dr_name x' = dr_name x /\ dr_sid x' = dr_sid x /\ dr_f_plus_1 x' = dr_f_plus_1 x /\
  dr_quorum x' = dr_quorum x /\ dr_values x' = dr_values x /\ decisions x' !! t = decisions x !! t /\ retained_floor x' = retained_floor x.

Lemma linv_frame past es x x' :
  linv past x -> frame x x' -> hist (past ++ es) ->
  (forall i', instances x' !! t = Some i' -> is_Some (instances x !! t) /\ live (past ++ es) i') ->
  (instances x' !! t = None -> instances x !! t = None /\ quiet past es) ->
  linv (past ++ es) x'.
Proof.
  intros [C1 C2 C3 C4 C5 C6 C7] (F1 & F2 & F3 & F4 & F5 & F6 & F7 & F8) Hh Hl Hn. split.
  - by rewrite F1, F2, F3, F4, F5.
  - done.
  - done.
  - by rewrite F6.
  - intros i' Hi'. destruct (Hl i' Hi') as [[i Hi] L]. destruct (C5 i Hi) as (_ & ? & ?). rewrite F7, F8. split_and!; done.
  - intros Hi'. destruct (Hn Hi') as [Hi Hq]. rewrite F7, F8. destruct (C6 Hi) as [Hs|?]; [left|by right].
    by apply silent_quiet.
  - rewrite F7. intros w e Hd. apply decide_ok_app. by eapply C7.
Qed.

(** The message part of a step on the target's instance. *)
Lemma keeps_speak x i i' es x' :
  frame x x' -> instances x !! t = Some i -> instances x' !! t = Some i' ->
  (forall past, linv past x -> live past i -> frozen past es /\ justified es (past ++ es) /\ live (past ++ es) i') ->
  keeps x es x'.
Proof.
  intros Hf Hi Hi' H past L. destruct (li_live _ _ _ _ _ _ _ _ _ L i Hi) as (Lv & _).
  destruct (H past L Lv) as (H1 & H2 & H3). split; [|done]. eapply linv_frame; [done|done| | |].
  - apply hist_app; [apply L|done|done].
  - rewrite Hi'. intros ? [= <-]. by rewrite Hi.
  - by rewrite Hi'.
Qed.

(** A step that repeats messages at most. *)
Lemma keeps_quiet x es x' :
  frame x x' ->
  (forall past, linv past x -> quiet past es) ->
  (forall past i', linv past x -> instances x' !! t = Some i' ->
     exists i, instances x !! t = Some i /\ (live past i -> live (past ++ es) i')) ->
  (instances x' !! t = None -> instances x !! t = None) ->
  keeps x es x'.
Proof.
  intros Hf Hq Hl Hn past L. specialize (Hq past L). split; [|by apply quiet_frozen].
  eapply linv_frame; [done|done|apply hist_quiet; [done|apply L]| |].
  - intros i' Hi'. destruct (Hl past i' L Hi') as (i & Hi & HL). split; [by exists i|]. apply HL.
    by apply (li_live _ _ _ _ _ _ _ _ _ L i Hi).
  - intros Hi'. split; [by apply Hn|done].
Qed.

(** Nothing about the target. *)
Definition hush (e : DirectResolutionEffect) : Prop :=
  (forall m, msg_of e = Some m -> msg_target m <> t) /\ (forall d, e = DDecide d -> target_view d <> t).

Lemma hush_quiet past es : Forall hush es -> quiet past es.
Proof.
  intros Hh. rewrite Forall_forall in Hh. split.
  - intros m Hm Hs. apply list_elem_of_omap in Hs as (e & He & Hs). by destruct (proj1 (Hh e He) m Hs).
  - intros e He. by apply (proj2 (Hh _ He) e).
Qed.

Lemma keeps_aside x es x' :
  frame x x' -> instances x' !! t = instances x !! t -> (forall past, linv past x -> quiet past es) -> keeps x es x'.
Proof.
  intros Hf Hi Hq. apply keeps_quiet; [done|done| |by rewrite Hi].
  intros past i' L. rewrite Hi. intros Hi'. exists i'. split; [done|]. apply live_quiet. by apply Hq.
Qed.

Lemma sat_emit e : hush e -> sat keeps (emit e).
Proof. intros He x. apply (keeps_aside x [e] x); [done|done|]. intros past _. apply hush_quiet. by apply Forall_singleton. Qed.

Lemma sat_modify f : (forall x, frame x (f x) /\ instances (f x) !! t = instances x !! t) -> sat keeps (modify f).
Proof. intros Hf x. destruct (Hf x). apply keeps_aside; [done|done|]. intros. apply quiet_nil. Qed.

Lemma sat_panic : sat keeps panic.
Proof. by apply sat_modify. Qed.

(** ** Changes of an instance *)

Lemma frame_alter x target f : frame x (x <| instances ::= alter f target |>).
Proof. done. Qed.

(** What [live] reads of an instance besides its views. *)
Definition icore i :=
  (entered_through i, current_view i, done_by i, done_sent i, key1_view i, key1_value i, prev_key1 i, lock_view i, lock_value i).

Lemma live_views past es i i' :
  quiet past es -> live past i -> icore i' = icore i ->
  (forall v s', di_views i' !! v = Some s' -> vlive (past ++ es) v s' /\
     (forall s, di_views i !! v = Some s -> sent s' = sent s /\ backing_sent s' = backing_sent s)) ->
  (forall v, is_Some (di_views i !! v) -> is_Some (di_views i' !! v)) ->
  live (past ++ es) i'.
Proof.
  unfold icore. intros Hq L He Hv Hs. eapply live_quiet in L; [|done].
  destruct L as [B1 B2 B3 B4 B5 B6 B7 B8 B9]. injection He as E1 E2 E3 E4 E5 E6 E7 E8 E9. split; rewrite ?E1, ?E2, ?E3, ?E4, ?E5, ?E6, ?E7, ?E8, ?E9; try done.
  - intros v s' Hs'. by apply (Hv v s').
  - intros ph v w Ho. destruct (B3 ph v w Ho) as (Hle & s & Hsv & Hw). split; [done|].
    destruct (Hs v ltac:(by exists s)) as [s' Hs']. exists s'. split; [done|]. by rewrite (proj1 (proj2 (Hv v s' Hs') s Hsv)).
  - intros v w Ho. destruct (B4 v w Ho) as (s & Hsv & Hw).
    destruct (Hs v ltac:(by exists s)) as [s' Hs']. exists s'. split; [done|]. by rewrite (proj2 (proj2 (Hv v s' Hs') s Hsv)).
Qed.

(** A change of fields [live] does not read. *)
Lemma sat_on_inst target f : (forall i, icore (f i) = icore i /\ di_views (f i) = di_views i) -> sat keeps (on_inst target f).
Proof.
  intros Hf x. apply keeps_quiet; [done|intros; apply quiet_nil| |].
  - intros past i'. cbn. destruct (decide (target = t)) as [->|]; [|rewrite lookup_alter_ne by done].
    + rewrite lookup_alter_eq. intros L (i & Hi & ->)%fmap_Some. exists i. split; [done|]. intros HL.
      destruct (Hf i) as [H1 H2]. eapply live_views; [apply quiet_nil|done|done| |by rewrite H2].
      intros v s'. rewrite H2. intros Hs'. split; [|naive_solver]. apply vlive_app. by eapply lv_views.
    + intros L Hi. exists i'. by rewrite app_nil_r.
  - cbn. destruct (decide (target = t)) as [->|]; [rewrite lookup_alter_eq|by rewrite lookup_alter_ne by done].
    by intros ?%fmap_None.
Qed.

Lemma vlive_default past v : 0 < v -> vlive past v dvs_default.
Proof. intros Hv. by split. Qed.

(** A change of one view that keeps its sends. *)
Definition calm past es v (g : DirectViewState -> DirectViewState) s : Prop :=
  (vlive past v s -> vlive (past ++ es) v (g s)) /\ sent (g s) = sent s /\ backing_sent (g s) = backing_sent s.

Lemma live_view past es v s' i (views' : gmap DirectResolverView DirectViewState) :
  quiet past es -> live past i -> views' !! v = Some s' -> (forall u, u <> v -> views' !! u = di_views i !! u) ->
  vlive (past ++ es) v s' ->
  (forall s, di_views i !! v = Some s -> sent s' = sent s /\ backing_sent s' = backing_sent s) ->
  live (past ++ es) (i <| di_views := views' |>).
Proof.
  intros Hq L Hv Hu Hs Hk. eapply live_views; [done|done|done| |]; cbn.
  - intros u s''. destruct (decide (u = v)) as [->|]; [rewrite Hv; by intros [= <-]|rewrite Hu by done].
    intros Hs''. split; [|naive_solver]. apply vlive_app. by eapply lv_views.
  - intros u. destruct (decide (u = v)) as [->|]; [by rewrite Hv|by rewrite Hu].
Qed.

Lemma live_alter past es v g i :
  quiet past es -> live past i -> (forall s, di_views i !! v = Some s -> calm past es v g s) ->
  live (past ++ es) (i <| di_views ::= alter g v |>).
Proof.
  intros Hq L Hg. destruct (di_views i !! v) as [s|] eqn:Hs.
  - destruct (Hg s eq_refl) as (G1 & G2 & G3). change (live (past ++ es) (i <| di_views := alter g v (di_views i) |>)).
    eapply (live_view _ _ v (g s)); [done|done|by rewrite lookup_alter_eq, Hs|intros; by rewrite lookup_alter_ne| |].
    + apply G1. by eapply lv_views.
    + rewrite Hs. by intros ? [= <-].
  - eapply live_views; [done|done|done| |]; cbn; intros u; destruct (decide (v = u)) as [<-|];
      (rewrite lookup_alter_eq || rewrite lookup_alter_ne by done); rewrite ?Hs; try done.
    intros s' Hs'. split; [|naive_solver]. apply vlive_app. by eapply lv_views.
Qed.

Lemma live_entry past es v g i :
  quiet past es -> live past i -> 0 < v -> calm past es v g (default dvs_default (di_views i !! v)) ->
  live (past ++ es) (i <| di_views ::= partial_alter (fun o => Some (g (default dvs_default o))) v |>).
Proof.
  intros Hq L Hv (G1 & G2 & G3).
  change (live (past ++ es) (i <| di_views := partial_alter (fun o => Some (g (default dvs_default o))) v (di_views i) |>)).
  eapply (live_view _ _ v); [done|done|by rewrite lookup_partial_alter_eq|intros; by rewrite lookup_partial_alter_ne| |].
  - apply G1. destruct (di_views i !! v) as [s|] eqn:Hs; cbn; [by eapply lv_views|by apply vlive_default].
  - intros s Hs. by rewrite Hs in G2, G3 |- *.
Qed.

Lemma sat_at_alter x target v g es :
  (forall past, linv past x -> quiet past es) ->
  (target = t -> forall past i s, linv past x -> instances x !! t = Some i -> di_views i !! v = Some s -> calm past es v g s) ->
  keeps x es (x <| instances ::= alter (fun i => i <| di_views ::= alter g v |>) target |>).
Proof.
  intros Hq Hg. apply keeps_quiet; [done|done| |].
  - intros past i'. cbn. destruct (decide (target = t)) as [->|]; [|rewrite lookup_alter_ne by done].
    + rewrite lookup_alter_eq. intros L (i & Hi & ->)%fmap_Some. exists i. split; [done|]. intros HL.
      apply live_alter; [by apply Hq|done|]. intros s Hs. by eapply Hg.
    + intros L Hi. exists i'. split; [done|]. apply live_quiet. by apply Hq.
  - cbn. destruct (decide (target = t)) as [->|]; [rewrite lookup_alter_eq|by rewrite lookup_alter_ne by done].
    by intros ?%fmap_None.
Qed.

Lemma sat_on_view target v g : (target = t -> forall past s, calm past [] v g s) -> sat keeps (on_view target v g).
Proof. intros Hg x. apply sat_at_alter; [intros; apply quiet_nil|]. intros ?; intros. by apply Hg. Qed.

Lemma sat_at_entry x target v g :
  (target = t -> 0 < v /\ forall past i, linv past x -> instances x !! t = Some i ->
     calm past [] v g (default dvs_default (di_views i !! v))) ->
  sat_at keeps (on_view_entry target v g) x.
Proof.
  intros Hg. apply keeps_quiet; [done|intros; apply quiet_nil| |].
  - intros past i'. cbn. destruct (decide (target = t)) as [->|]; [|rewrite lookup_alter_ne by done].
    + rewrite lookup_alter_eq. intros L (i & Hi & ->)%fmap_Some. exists i. split; [done|]. intros HL.
      destruct (Hg eq_refl) as [? G]. apply live_entry; [apply quiet_nil|done|done|]. by apply G.
    + intros L Hi. exists i'. by rewrite app_nil_r.
  - cbn. destruct (decide (target = t)) as [->|]; [rewrite lookup_alter_eq|by rewrite lookup_alter_ne by done].
    by intros ?%fmap_None.
Qed.

(** ** Speaking *)

Lemma own_one e ph v w :
  own [e] ph v w <-> exists key origin, msg_of e = Some (MStatement (mkStatement t v w ph key origin me)).
Proof. unfold DirectInv.own. by setoid_rewrite spoke_one. Qed.

(** [es] is one message; reads off what it is. *)
Ltac one_message :=
  repeat match goal with
  | H : own [_] _ _ _ |- _ => apply own_one in H as (? & ? & H)
  | H : own_done [_] _ |- _ => apply spoke_one in H
  | H : own_witness [_] _ _ |- _ => apply spoke_one in H
  | H : spoke [_] _ |- _ => apply spoke_one in H
  | H : _ ∈ [_] |- _ => apply list_elem_of_singleton in H
  end; cbn in *; simplify_eq.

Lemma raise_key_core ph v w i :
  let i' := raise_key ph v w i in
  entered_through i' = entered_through i /\ current_view i' = current_view i /\ di_views i' = di_views i /\
  done_by i' = done_by i /\ done_sent i' = done_sent i.
Proof. destruct ph; cbn; by repeat case_match. Qed.

Lemma raise_key_lock ph v w i :
  let i' := raise_key ph v w i in
  (ph = PLock /\ lock_view i' = v /\ lock_value i' = w) \/ (ph <> PLock /\ lock_view i' = lock_view i /\ lock_value i' = lock_value i).
Proof. destruct ph; cbn; repeat case_match; first [by left|by right]. Qed.

Lemma raise_key_key1 ph v w i :
  let i' := raise_key ph v w i in
  (ph = PKey1 /\ key1_view i' = v /\ key1_value i' = w /\
     ((key1_value i = w /\ prev_key1 i' = prev_key1 i) \/ (key1_value i <> w /\ prev_key1 i' = key1_view i))) \/
  (ph <> PKey1 /\ key1_view i' = key1_view i /\ key1_value i' = key1_value i /\ prev_key1 i' = prev_key1 i).
Proof.
  destruct ph; cbn; repeat case_match; try (by right). left.
  - split_and!; [done|done|lia|]. left. split; [lia|done].
  - left. split_and!; [done..|]. right. split; [lia|done].
Qed.

Lemma last_sent_one past e ph v w : own [e] ph v w -> (forall v' w', own past ph v' w' -> v' <= v) ->
  (forall ph' v' w', own [e] ph' v' w' -> v' = v) -> last_sent me t (past ++ [e]) ph v w.
Proof.
  intros He Hp Ho. right. split; [apply own_app; by right|]. intros v' w' [H|H]%own_app; [by eapply Hp|]. by rewrite (Ho _ _ _ H).
Qed.

Section statement.
Context x i s (v : DirectResolverView) (ph : DirectResolutionPhase) (w : Digest) (key : option DirectResolverView) (origin : option Z).
Definition with_statement (k : PublicKey) : DirectViewState :=
  s <| sent ::= <[ ph := w ]> |>
    <| statements ::= fun m => <[ ph := <[ k := mkStatementRecord w key origin ]> (default ∅ (m !! ph)) ]> m |>.

Abbreviation said_now := (DBroadcastStatement (mkStatement t v w ph key origin me)).

Lemma own_said_now ph' v' w' : own [said_now] ph' v' w' <-> ph' = ph /\ v' = v /\ w' = w.
Proof. rewrite own_one. cbn. split; [intros (? & ? & ?); by simplify_eq|intros (-> & -> & ->); by eexists _, _]. Qed.

Lemma vlive_statement past : me ∈ members c -> vlive past v s -> vlive (past ++ [said_now]) v (with_statement me).
Proof.
  intros Hme L. eapply vlive_app with (es := [said_now]) in L as [B1 B2 B3 B4 B5 B6 B7 B8 B9]. split; try done; cbn.
  - intros ph' w'. destruct (decide (ph' = ph)) as [->|]; [rewrite lookup_insert_eq|rewrite lookup_insert_ne by done; apply B2].
    intros [= <-]. apply own_app. right. by apply own_said_now.
  - intros ph' k r. destruct (decide (ph' = ph)) as [->|]; [rewrite lookup_insert_eq|rewrite lookup_insert_ne by done; apply B3].
    cbn. destruct (decide (k = me)) as [->|]; [rewrite lookup_insert_eq|rewrite lookup_insert_ne by done].
    + intros [= <-]. cbn. split; [done|]. left. split; [done|]. apply spoke_app. right. by apply spoke_one.
    + intros Hr. apply B3. by destruct (statements s !! ph).
Qed.

Context (Hi : instances x !! t = Some i) (Hs : di_views i !! v = Some s) (Hns : sent s !! ph = None) (Hv : v = current_view i).
#[local] Set Default Proof Using "Type Hi Hs Hns Hv".

Lemma live_statement past views' :
  linv past x -> live past i -> views' !! v = Some (with_statement me) -> (forall u, u <> v -> views' !! u = di_views i !! u) ->
  live (past ++ [said_now]) ((raise_key ph v w i) <| di_views := views' |>).
Proof.
  intros L Lv Hv' Hu. destruct Lv as [B1 B2 B3 B4 B5 B6 B7 B8 B9].
  destruct (raise_key_core ph v w i) as (E1 & E2 & E3 & E4 & E5). split; cbn; rewrite ?E1, ?E2, ?E4, ?E5; try done.
  - intros u s'. destruct (decide (u = v)) as [->|]; [rewrite Hv'; intros [= <-]|rewrite Hu by done; intros; by apply vlive_app, B2].
    apply vlive_statement; [apply L|by apply B2].
  - intros ph' u w' [Ho|(-> & -> & ->)%own_said_now]%own_app.
    + destruct (B3 ph' u w' Ho) as (Hle & s' & Hs' & Hw'). split; [done|].
      destruct (decide (u = v)) as [->|]; [|exists s'; by rewrite Hu].
      rewrite Hv'. eexists. split; [done|]. cbn. assert (s' = s) as -> by congruence.
      rewrite lookup_insert_ne; [done|]. intros <-. congruence.
    + split; [lia|]. rewrite Hv'. eexists. split; [done|]. cbn. apply lookup_insert_eq.
  - intros u w' [Ho|Ho]%spoke_app; [|by apply spoke_one in Ho]. destruct (B4 u w' Ho) as (s' & Hs' & Hw').
    destruct (decide (u = v)) as [->|]; [|exists s'; by rewrite Hu]. rewrite Hv'. eexists. split; [done|]. cbn. congruence.
  - intros k w' Hk. destruct (B5 k w' Hk). split; [done|by apply heard_app].
  - intros w'. rewrite <- B6. unfold DirectInv.own_done. rewrite spoke_app, spoke_one. cbn. split; [intros [?|?]; done|by left].
  - destruct (raise_key_key1 ph v w i) as [(Hp & -> & -> & _)|(Hp & -> & -> & _)].
    + apply last_sent_one; [by apply own_said_now|rewrite Hv; intros; by eapply B3|intros ? ? ?; rewrite own_said_now; naive_solver].
    + apply last_sent_app; [|done]. intros u w' (? & _)%own_said_now. congruence.
  - destruct (raise_key_key1 ph v w i) as [(Hp & _ & -> & [(<- & ->)|(Hne & ->)])|(Hp & _ & -> & ->)].
    + destruct B8 as [?|(y & ? & ?)]; [by left|right; exists y; split; [done|apply own_app; by left]].
    + destruct B7 as [[? _]|[? _]]; [by left|right; eexists; split; [done|apply own_app; by left]].
    + destruct B8 as [?|(y & ? & ?)]; [by left|right; exists y; split; [done|apply own_app; by left]].
  - destruct (raise_key_lock ph v w i) as [(Hp & -> & ->)|(Hp & -> & ->)].
    + apply last_sent_one; [by apply own_said_now|rewrite Hv; intros; by eapply B3|intros ? ? ?; rewrite own_said_now; naive_solver].
    + apply last_sent_app; [|done]. intros u w' (? & _)%own_said_now. congruence.
Qed.

(** Why a statement may be sent. *)
Definition statement_ok past : Prop :=
  (ph = PEcho -> echo_ok c me t said past v w /\ vote_ok bincode_entry c sid me t said voted past v w key origin) /\
  (ph <> PEcho -> many c quo (heard_st me t said past (prev_phase ph) v w)) /\
  (ph = PKey1 -> source_ok c me t said past v w).

Lemma justified_statement past : live past i -> statement_ok past -> justified [said_now] (past ++ [said_now]).
Proof.
  intros Lv (Ho & Hc & Hk). split.
  - intros ph' u w' w'' (-> & -> & ->)%own_said_now [H|(_ & _ & ->)%own_said_now]%own_app; [|done].
    destruct (lv_own _ _ _ _ _ _ _ _ _ Lv _ _ _ H) as (_ & s' & Hs' & Hw'). congruence.
  - intros u w' (Hp & -> & ->)%own_said_now. destruct (Ho (eq_sym Hp)) as [[Hst|Hl] _]; [left|right; by apply own_app; left].
    apply strict_app; [|done]. intros u y (? & _)%own_said_now. congruence.
  - intros ph' u w' Hne (-> & -> & ->)%own_said_now. by apply chain_app, Hc.
  - intros p H. by apply spoke_one in H.
  - intros w' H. by apply spoke_one in H.
  - intros e H. by apply list_elem_of_singleton in H.
  - intros u w' key' origin' H. apply spoke_one in H. cbn in H. injection H as -> -> Hp -> ->. by apply vote_ok_app, Ho.
  - intros u w' (Hp & -> & ->)%own_said_now. by apply source_ok_app, Hk.
  - intros u w' H. by apply spoke_one in H.
  - intros ph' u w' (_ & -> & _)%own_said_now. by apply (lv_views _ _ _ _ _ _ _ _ _ Lv v s).
Qed.

Lemma keeps_statement x' views' :
  frame x x' -> instances x' !! t = Some ((raise_key ph v w i) <| di_views := views' |>) ->
  views' !! v = Some (with_statement (dr_name x)) -> (forall u, u <> v -> views' !! u = di_views i !! u) ->
  (forall past, linv past x -> live past i -> statement_ok past) ->
  keeps x [DBroadcastStatement (mkStatement t v w ph key origin (dr_name x))] x'.
Proof.
  intros Hf Hi' Hv' Hu Hok. eapply keeps_speak; [done|done|done|]. intros past L Lv.
  destruct (li_config _ _ _ _ _ _ _ _ _ L) as (_ & Hme & _). rewrite Hme in Hv' |- *. split_and!.
  - intros v' w' u y He (_ & -> & _)%own_said_now Hlt. destruct (lv_own _ _ _ _ _ _ _ _ _ Lv _ _ _ He). lia.
  - apply justified_statement; [done|by apply Hok].
  - by apply live_statement.
Qed.
End statement.
#[local] Set Default Proof Using "Type".

(** One message other than a statement. *)
Definition no_statement e : Prop := forall ph v w, ~ own [e] ph v w.

Lemma frozen_no_statement past e : no_statement e -> frozen past [e].
Proof. intros Hn v w u y _ H. by apply Hn in H. Qed.

Lemma last_sent_no_statement past e ph view value :
  no_statement e -> last_sent me t past ph view value -> last_sent me t (past ++ [e]) ph view value.
Proof. intros Hn. apply last_sent_app. intros v w H. by apply Hn in H. Qed.

Lemma own_no_statement past e ph v w : no_statement e -> own (past ++ [e]) ph v w -> own past ph v w.
Proof. intros Hn [?|H]%own_app; [done|]. by apply Hn in H. Qed.

(** The parts of [live] a message other than a statement keeps. *)
Lemma live_speak past e i i' :
  no_statement e -> live past i ->
  entered_through i' = current_view i' -> current_view i <= current_view i' ->
  (key1_view i', key1_value i', prev_key1 i', lock_view i', lock_value i') =
    (key1_view i, key1_value i, prev_key1 i, lock_view i, lock_value i) ->
  (forall v s', di_views i' !! v = Some s' -> vlive (past ++ [e]) v s') ->
  (forall v s, di_views i !! v = Some s -> exists s', di_views i' !! v = Some s' /\ sent s' = sent s /\
     (backing_sent s' = backing_sent s \/ backing_sent s = None)) ->
  (forall v w, own_witness [e] v w -> exists s', di_views i' !! v = Some s' /\ backing_sent s' = Some w) ->
  (forall k w, done_by i' !! k = Some w -> k ∈ members c /\ heard (past ++ [e]) k (MDone t w k)) ->
  (forall w, own_done (past ++ [e]) w <-> done_sent i' = Some w) ->
  live (past ++ [e]) i'.
Proof.
  intros Hn [B1 B2 B3 B4 B5 B6 B7 B8 B9] He Hc Hk Hv Hs Hw Hd Hds. injection Hk as E1 E2 E3 E4 E5.
  split; rewrite ?E1, ?E2, ?E3, ?E4, ?E5; try done; [lia|..].
  - intros ph v w H%own_no_statement; [|done]. destruct (B3 ph v w H) as (Hle & s & Hsv & Hsw). split; [lia|].
    destruct (Hs v s Hsv) as (s' & Hs' & Hss & _). exists s'. split; [done|congruence].
  - intros v w [H|H]%spoke_app; [|by apply Hw]. destruct (B4 v w H) as (s & Hsv & Hsw).
    destruct (Hs v s Hsv) as (s' & Hs' & _ & [Hb|Hb]); [|congruence]. exists s'. split; [done|congruence].
  - by apply last_sent_no_statement.
  - destruct B8 as [?|(y & ? & ?)]; [by left|right; exists y; split; [done|apply own_app; by left]].
  - by apply last_sent_no_statement.
Qed.

(** [justified] of one message, clause by clause. *)
Lemma justified_one past e :
  no_statement e ->
  (forall p, msg_of e = Some (MProof p) -> pr_target p = t -> pr_sender p = me -> proof_ok me t past p) ->
  (forall w, msg_of e = Some (MDone t w me) -> done_ok c me t said past w) ->
  (forall d, e = DDecide d -> target_view d = t -> decide_ok c me t said past (vd d)) ->
  (forall v w, msg_of e = Some (MWitness t v w me) -> witness_ok bincode_entry c sid me t said past v w) ->
  justified [e] (past ++ [e]).
Proof.
  intros Hn Hp Hd Hde Hw. split.
  - intros ph v w w' H. by apply Hn in H.
  - intros v w H. by apply Hn in H.
  - intros ph v w _ H. by apply Hn in H.
  - intros p H%spoke_one ? ?. by apply proof_ok_app, Hp.
  - intros w H%spoke_one. by apply done_ok_app, Hd.
  - intros d H%list_elem_of_singleton ?. by apply decide_ok_app, Hde.
  - intros v w key origin H. destruct (Hn PEcho v w). by exists key, origin.
  - intros v w H. by apply Hn in H.
  - intros v w H%spoke_one. by apply witness_ok_app, Hw.
  - intros ph v w H. by apply Hn in H.
Qed.

Ltac no_statement := intros ? ? ? (? & ? & ?)%own_one; done.

(** ** Witnesses *)

Lemma keeps_witness x i s v w e x' :
  frame x x' -> instances x !! t = Some i -> di_views i !! v = Some s -> backing_sent s = None ->
  instances x' !! t = Some (i <| di_views ::= alter (fun s => s <| backing_sent := Some w |> <| backing_witnesses ::= <[ dr_name x := w ]> |>) v |>) ->
  (forall past, linv past x -> live past i -> witness_ok bincode_entry c sid me t said past v w) ->
  keeps x [DBroadcastWitness (mkWitness t v w e (dr_name x))] x'.
Proof.
  intros Hf Hi Hs Hb Hi' Hok. eapply keeps_speak; [done|done|done|]. intros past L Lv.
  destruct (li_config _ _ _ _ _ _ _ _ _ L) as (_ & Hme & _). rewrite Hme. clear Hi'. split_and!.
  - apply frozen_no_statement. no_statement.
  - apply justified_one; [no_statement|..]; try done. intros v' w' [= <- <-]. by apply Hok.
  - pose proof (lv_views _ _ _ _ _ _ _ _ _ Lv v s Hs) as Ls.
    apply (live_speak past _ i); [no_statement|done|apply Lv|done|done|..]; cbn.
    + intros u s'. destruct (decide (v = u)) as [<-|].
      * rewrite lookup_alter_eq, Hs. cbn. intros [= <-].
        eapply vlive_app in Ls as [D1 D2 D3 D4 D5 D6 D7 D8 D9]. split; try done; cbn.
        -- intros k y. destruct (decide (k = me)) as [->|]; [rewrite lookup_insert_eq|rewrite lookup_insert_ne by done; apply D5].
           intros [= <-]. split; [apply L|]. left. split; [done|]. apply spoke_app. right. by apply spoke_one.
        -- intros y [= <-]. apply spoke_app. right. by apply spoke_one.
      * rewrite lookup_alter_ne by done. intros Hu. apply vlive_app. by eapply lv_views.
    + intros u s'. destruct (decide (v = u)) as [<-|].
      * rewrite lookup_alter_eq, Hs. cbn. intros [= <-]. eexists. split; [done|]. split; [done|]. by right.
      * rewrite lookup_alter_ne by done. intros Hu. exists s'. split_and!; [done|done|by left].
    + intros u y Hy%spoke_one. cbn in Hy. injection Hy as <- <-. rewrite lookup_alter_eq, Hs. by eexists.
    + intros k y Hk. destruct (lv_done _ _ _ _ _ _ _ _ _ Lv k y Hk). split; [done|by apply heard_app].
    + intros y. rewrite <- (lv_done_sent _ _ _ _ _ _ _ _ _ Lv). unfold DirectInv.own_done. rewrite spoke_app, spoke_one. cbn.
      split; [intros [?|?]; done|by left].
Qed.

(** ** DONEs and decisions *)

Lemma keeps_done x i w e x' :
  frame x x' -> instances x !! t = Some i -> done_sent i = None ->
  instances x' !! t = Some (i <| done_sent := Some w |> <| done_by ::= <[ dr_name x := w ]> |>) ->
  (forall past, linv past x -> live past i -> done_ok c me t said past w) ->
  keeps x [DBroadcastDone (mkDone t w e (dr_name x))] x'.
Proof.
  intros Hf Hi Hn Hi' Hok. eapply keeps_speak; [done|done|done|]. intros past L Lv.
  destruct (li_config _ _ _ _ _ _ _ _ _ L) as (_ & Hme & _). rewrite Hme. clear Hi'. split_and!.
  - apply frozen_no_statement. no_statement.
  - apply justified_one; [no_statement|..]; try done. intros w' [= <-]. by apply Hok.
  - apply (live_speak past _ i); [no_statement|done|apply Lv|done|done|..]; cbn.
    + intros u s' Hu. apply vlive_app. by eapply lv_views.
    + intros u s' Hu. exists s'. split_and!; [done|done|by left].
    + intros u y Hy%spoke_one. done.
    + intros k y. destruct (decide (k = me)) as [->|]; [rewrite lookup_insert_eq|rewrite lookup_insert_ne by done].
      * intros [= <-]. split; [apply L|]. left. split; [done|]. apply spoke_app. right. by apply spoke_one.
      * intros Hk. destruct (lv_done _ _ _ _ _ _ _ _ _ Lv k y Hk). split; [done|by apply heard_app].
    + intros y. unfold DirectInv.own_done. rewrite spoke_app, spoke_one. cbn. split.
      * intros [H|[= <-]]; [|done]. apply (lv_done_sent _ _ _ _ _ _ _ _ _ Lv) in H. congruence.
      * intros [= <-]. by right.
Qed.

Lemma keeps_decide x i w e x' :
  instances x !! t = Some i -> dr_values x !! (t, w) = Some e ->
  dr_committee x' = dr_committee x -> dr_name x' = dr_name x -> dr_sid x' = dr_sid x -> dr_f_plus_1 x' = dr_f_plus_1 x ->
  dr_quorum x' = dr_quorum x -> dr_values x' = dr_values x ->
  instances x' !! t = None -> decisions x' !! t = Some (w, e) ->
  (forall past, linv past x -> live past i -> decide_ok c me t said past w) ->
  keeps x [DDecide e] x'.
Proof.
  intros Hi He F1 F2 F3 F4 F5 F6 Hn Hd Hok past L. destruct (li_live _ _ _ _ _ _ _ _ _ L i Hi) as (Lv & _).
  destruct (li_values _ _ _ _ _ _ _ _ _ L _ _ _ He) as (Hw & Ht & _).
  assert (frozen past [DDecide e]) as Hfr by (apply frozen_no_statement; no_statement). split; [|done].
  destruct L as [C1 C2 C3 C4 C5 C6 C7]. split.
  - by rewrite F1, F2, F3, F4, F5.
  - done.
  - apply hist_app; [done|done|]. apply justified_one; [no_statement|..]; try done.
    intros d [= <-] _. rewrite Hw. apply Hok; [by split|done].
  - by rewrite F6.
  - congruence.
  - intros _. right. left. by exists (w, e).
  - intros w' e'. rewrite Hd. intros [= <- <-]. apply decide_ok_app, Hok; [by split|done].
Qed.

(** A DONE for a decided target. *)
Lemma keeps_done_again x peer w e e' x' :
  frame x x' -> instances x' !! t = instances x !! t -> decisions x !! t = Some (w, e) ->
  keeps x [DDoneTo peer (mkDone t w e' (dr_name x))] x'.
Proof.
  intros (F1 & F2 & F3 & F4 & F5 & F6 & F7 & F8) Hi Hd past L.
  set (m := DDoneTo peer (mkDone t w e' (dr_name x))).
  assert (no_statement m) as Hns by no_statement.
  assert (frozen past [m]) as Hfr by by apply frozen_no_statement. split; [|done].
  assert (instances x !! t = None) as Hn.
  { destruct (instances x !! t) as [i|] eqn:Hi'; [|done]. destruct (li_live _ _ _ _ _ _ _ _ _ L i Hi') as (_ & ? & _). congruence. }
  destruct L as [C1 C2 C3 C4 C5 C6 C7]. split.
  - by rewrite F1, F2, F3, F4, F5.
  - done.
  - apply hist_app; [done|done|]. apply justified_one; [done|..]; try done.
    intros w' [= <- _]. destruct (C7 w e Hd) as (S & HS & HP). destruct (decide (me ∈ S)) as [Hm|Hm].
    + destruct (HP me Hm) as [_ [[_ Hsp]|[? _]]]; [|done]. by apply (h_done _ _ _ _ _ _ _ _ _ C3).
    + right. exists S. split.
      * pose proof (party_thresholds _ (member_size _ _ C2)). cbn in *. lia.
      * intros k Hk. destruct (HP k Hk) as [? [[-> _]|[? ?]]]; [done|]. done.
  - by rewrite F6.
  - intros i. rewrite Hi, Hn. done.
  - intros _. right. left. rewrite F7, Hd. by eexists.
  - rewrite F7. intros w' e'' H. by eapply decide_ok_app, C7.
Qed.

(** ** Entering a view *)

Lemma keeps_enter x i v x' g :
  frame x x' -> instances x !! t = Some i -> entered_through i < v ->
  let p := mkProof t v (dr_name x) (key1_view i) (key1_value i) (prev_key1 i) in
  instances x' !! t = Some (i <| entered_through := v |> <| current_view := v |>
    <| di_views ::= partial_alter (fun o => Some ((default dvs_default o) <| suggestions ::= g |> <| proofs ::= <[ dr_name x := p ]> |>)) v |>) ->
  keeps x [DBroadcastProof p] x'.
Proof.
  intros Hf Hi Hlt p Hi'. unfold p in *. clear p. eapply keeps_speak; [done|done|done|]. intros past L Lv.
  destruct (li_config _ _ _ _ _ _ _ _ _ L) as (_ & Hme & _). rewrite Hme. clear Hi'.
  destruct (lv_current _ _ _ _ _ _ _ _ _ Lv) as [Hcur Hpos]. split_and!.
  - apply frozen_no_statement. no_statement.
  - apply justified_one; [no_statement|..]; try done. intros p [= <-] _ _. split; cbn; [|apply Lv].
    destruct (lv_key1 _ _ _ _ _ _ _ _ _ Lv) as [[? _]|[? _]]; auto.
  - apply (live_speak past _ i); [no_statement|done|done|cbn; lia|done|..]; cbn.
    + intros u s'. destruct (decide (v = u)) as [<-|].
      * rewrite lookup_partial_alter_eq. intros [= <-].
        assert (vlive past v (default dvs_default (di_views i !! v))) as Ls.
        { destruct (di_views i !! v) as [s|] eqn:Hs; cbn; [by eapply lv_views|apply vlive_default; lia]. }
        eapply vlive_app in Ls as [D1 D2 D3 D4 D5 D6 D7 D8 D9]. split; try done; cbn.
        intros k p. destruct (decide (k = me)) as [->|]; [rewrite lookup_insert_eq|rewrite lookup_insert_ne by done; apply D4].
        intros [= <-]. split_and!; [apply L|done..|]. left. split; [done|]. apply spoke_app. right. by apply spoke_one.
      * rewrite lookup_partial_alter_ne by done. intros Hu. apply vlive_app. by eapply lv_views.
    + intros u s'. destruct (decide (v = u)) as [<-|].
      * rewrite lookup_partial_alter_eq. intros ->. eexists. split; [done|]. split; [done|]. by left.
      * rewrite lookup_partial_alter_ne by done. intros Hu. exists s'. split_and!; [done|done|by left].
    + intros u y Hy%spoke_one. done.
    + intros k y Hk. destruct (lv_done _ _ _ _ _ _ _ _ _ Lv k y Hk). split; [done|by apply heard_app].
    + intros y. rewrite <- (lv_done_sent _ _ _ _ _ _ _ _ _ Lv). unfold DirectInv.own_done. rewrite spoke_app, spoke_one. cbn.
      split; [intros [?|?]; done|by left].
Qed.

(** ** Creating and collecting instances *)

Lemma live_new past i' : silent me t past -> icore i' = icore instance_new -> di_views i' = ∅ -> live past i'.
Proof.
  unfold icore. intros (S1 & S2 & S3 & S4) He Hv. injection He as E1 E2 E3 E4 E5 E6 E7 E8 E9.
  split; rewrite ?E1, ?E2, ?E3, ?E4, ?E5, ?E6, ?E7, ?E8, ?E9, ?Hv; try done.
  - intros ph v w H. by apply S1 in H.
  - intros v w H. by apply S3 in H.
  - intros w. split; [intros H; by apply S2 in H|done].
  - left. split; [done|]. intros v w. apply S1.
  - by left.
  - left. split; [done|]. intros v w. apply S1.
Qed.

Lemma keeps_create x i' x' :
  frame x x' -> instances x !! t = None -> decisions x !! t = None -> retained_floor x <= t ->
  instances x' !! t = Some i' -> icore i' = icore instance_new -> di_views i' = ∅ -> keeps x [] x'.
Proof.
  intros (F1 & F2 & F3 & F4 & F5 & F6 & F7 & F8) Hi Hd Hfl Hi' Hc Hv past [C1 C2 C3 C4 C5 C6 C7].
  rewrite app_nil_r. split; [|apply frozen_nil]. split.
  - by rewrite F1, F2, F3, F4, F5.
  - done.
  - done.
  - by rewrite F6.
  - rewrite Hi'. intros i [= <-]. rewrite F7, F8. split_and!; [|done|done]. apply live_new; [|done|done].
    destruct (C6 Hi) as [?|[[? ?]|?]]; [done|congruence|lia].
  - by rewrite Hi'.
  - by rewrite F7, Hd.
Qed.

Lemma sat_gc floor : sat keeps (dr_gc_below floor).
Proof.
  unfold dr_gc_below. destruct (floor =? 0); [apply sat_ret, _|]. intros x past [C1 C2 C3 C4 C5 C6 C7].
  cbn [out st modify]. rewrite app_nil_r. split; [|apply frozen_nil]. split; try done; cbn.
  - intros t' w e [He _]%map_lookup_filter_Some. by apply C4.
  - intros i. rewrite !lookup_map_split_off. case_decide; [|done]. intros Hi. destruct (C5 i Hi) as (? & ? & ?).
    split_and!; [done|done|lia].
  - rewrite !lookup_map_split_off. case_decide; [|intros _; right; right; lia].
    intros Hi. destruct (C6 Hi) as [?|[?|?]]; [by left|by right; left|right; right; lia].
  - intros w e. rewrite lookup_map_split_off. case_decide; [apply C7|done].
Qed.

Lemma sat_remember target entry : sat keeps (remember_entry bincode_entry target entry).
Proof.
  unfold remember_entry. apply sat_get_bind. intros x. destruct (valid_entry x target entry) eqn:Hv; cbn [negb]; [|apply sat_ret, _].
  apply sat_at_bind; [apply _| |apply sat_ret, _]. intros past [C1 C2 C3 C4 C5 C6 C7].
  cbn [out st modify]. rewrite app_nil_r. split; [|apply frozen_nil]. split; try done; cbn.
  destruct C1 as (Hcc & _ & Hsid & _). intros t' w e.
  destruct (decide ((target, value_digest bincode_entry x entry) = (t', w))) as [[= <- <-]|].
  - rewrite lookup_partial_alter_eq. destruct (dr_values x !! _) as [e'|] eqn:He; cbn; intros [= <-]; [by apply C4|].
    unfold value_digest, valid_entry in *. rewrite Hsid. rewrite Hcc in Hv. apply andb_prop in Hv as [? ?]. split_and!; [done|lia|done].
  - rewrite lookup_partial_alter_ne by done. apply C4.
Qed.
End steps.
