(* ===== verification/DirectRuns.v ===== *)
(** Every handler of the resolver keeps the invariant.

    [direct_step]: from a state in [linv] a handler, whatever its input, ends in a state in [linv] of
    the longer history. *)

From S2P Require Import Prelude Committee Types Formed ResolutionEvidence Direct DirectInv DirectSteps.

(** ** Counting *)

Lemma occurrences_senders {V K} `{EqDecision K} (f : V -> K) (Q : V -> bool) (m : gmap PublicKey V) k :
  exists S : gset PublicKey, Z.of_nat (size S) = occurrences k (f <$> filter (fun v => Q v = true) (values_of m)) /\
    forall j, j ∈ S -> exists v, m !! j = Some v /\ Q v = true /\ k = f v.
Proof.
  destruct (count_senders (fun v => Q v = true /\ k = f v) m) as (S & HS & HP). exists S. split; [|done].
  rewrite HS. unfold occurrences. f_equal. clear. induction (values_of m) as [|v l IH]; [done|].
  rewrite !filter_cons. destruct (decide (Q v = true)) as [HQ|HQ].
  - rewrite fmap_cons, filter_cons. destruct (decide (k = f v)).
    + rewrite decide_True by done. cbn. by rewrite IH.
    + rewrite decide_False by tauto. done.
  - rewrite decide_False by tauto. done.
Qed.

(** A first step from a known state, then anything. *)
Lemma sat_at_then {E S A B} (R : S -> list E -> S -> Prop) `{!TraceRel R} (m : M E S A) (k : A -> M E S B) s :
  sat_at R m s -> (forall a, sat R (k a)) -> sat_at R (m ≫= k) s.
Proof. intros H1 H2. eapply trace_trans; [exact H1|apply H2]. Qed.

#[local] Set Default Proof Using "Type".

Section runs.
Context {Hash : Hashing} {fuel : Fuel} (bincode_entry : ResolutionEntry -> list Z) (bincode_payload : Manifest -> Manifest -> list Z).
Context (c : Committee) (sid : Digest) (me : PublicKey) (t : View) (said : PublicKey -> DMsg -> Prop)
  (voted : DirectResolverView -> Digest -> option Z -> Prop).
Abbreviation DM := (M DirectResolutionEffect DirectResolver) (only parsing).
Abbreviation fp1 := (f_plus_1_parties (from_party_count (committee_size c))) (only parsing).
Abbreviation quo := (n_minus_f_parties (from_party_count (committee_size c))) (only parsing).
Abbreviation vd := (vd bincode_entry sid) (only parsing).
Abbreviation own := (own me t).
Abbreviation heard := (heard me said).
Abbreviation strict := (strict c me t said).
Abbreviation own_done := (own_done me t).
Abbreviation own_witness := (own_witness me t).
Abbreviation justified := (justified bincode_entry c sid me t said voted).
Abbreviation hist := (hist bincode_entry c sid me t said voted).
Abbreviation vlive := (vlive bincode_entry c sid me t said voted).
Abbreviation live := (live bincode_entry c sid me t said voted).
Abbreviation linv := (linv bincode_entry c sid me t said voted).
Abbreviation frozen := (frozen me t).
Abbreviation keeps := (keeps bincode_entry c sid me t said voted).
Abbreviation quiet := (quiet t).
Abbreviation hush := (hush t).
Abbreviation frame := (frame t).
Abbreviation echo_ok := (echo_ok c me t said).
Abbreviation vote_ok := (vote_ok bincode_entry c sid me t said voted).
Abbreviation witness_ok := (witness_ok bincode_entry c sid me t said).
Abbreviation many := (many c).
Implicit Types (past es : list DirectResolutionEffect) (x : DirectResolver) (i : DirectInstance) (s : DirectViewState).

(** ** What the counters are evidence of *)

Lemma config past x : linv past x -> dr_name x = me /\ dr_f_plus_1 x = fp1 /\ dr_quorum x = quo /\ dr_sid x = sid /\ dr_committee x = c.
Proof. intros L. by destruct (li_config _ _ _ _ _ _ _ _ _ L) as (? & ? & ? & ? & ?). Qed.

Lemma thresholds_pos past x : linv past x -> 0 < fp1 /\ 0 < quo.
Proof.
  intros L. pose proof (party_thresholds _ (member_size _ _ (li_member _ _ _ _ _ _ _ _ _ L))). cbn in *. lia.
Qed.

Lemma view_of_live past x i v s : instances x !! t = Some i -> live past i -> view_of x t v = Some s -> vlive past v s.
Proof. unfold view_of. intros -> Lv H. by eapply lv_views. Qed.

Lemma phase_winner_heard past x i v ph w key :
  linv past x -> instances x !! t = Some i -> live past i -> phase_winner x t v ph (dr_quorum x) = Some (w, key) ->
  (ph = PEcho -> forall s p, view_of x t v = Some s -> proposal s = Some p -> key = Some (dp_key_view p) /\ w = dp_value p) /\
  many quo (fun k => exists key' origin, heard past k (MStatement (mkStatement t v w ph key' origin k)) /\ (ph = PEcho -> key' = key)).
Proof.
  unfold phase_winner. intros L Hi Lv. destruct (view_of x t v) as [s|] eqn:Hs; [|done]. cbn.
  intros ([key' w'] & Hq%first_quorum_spec & [= -> ->])%fmap_Some. pose proof (view_of_live _ _ _ _ _ Hi Lv Hs) as Ls.
  destruct (config _ _ L) as (_ & _ & Hquo & _). rewrite Hquo in Hq.
  destruct (occurrences_senders (fun r => (if bool_decide (ph = PEcho) then sr_proposal_key_view r else None, sr_value r))
    (expected_echo ph s) (default ∅ (statements s !! ph)) (key', w')) as (S & HS & HP).
  assert (forall k, k ∈ S -> exists r, statements s !! ph ≫= lookup k = Some r /\ expected_echo ph s r = true /\
    (key', w') = (if bool_decide (ph = PEcho) then sr_proposal_key_view r else None, sr_value r)) as HP'.
  { intros k Hk. destruct (HP k Hk) as (r & Hr & ? & ?). exists r. split; [|done]. by destruct (statements s !! ph). }
  unfold phase_keys in Hq. pose proof (thresholds_pos _ _ L) as [_ ?]. split.
  - intros -> s' p [= <-] Hp. assert (exists k, k ∈ S) as [k Hk].
    { apply set_choose_L. intros ->. rewrite size_empty in HS. lia. }
    destruct (HP' k Hk) as (r & _ & He & [= -> ->]). unfold expected_echo in He. rewrite Hp in He.
    apply andb_prop in He as [?%bool_decide_eq_true ?]. split; [done|lia].
  - exists S. split; [rewrite HS; exact Hq|]. intros k Hk. destruct (HP' k Hk) as (r & Hr & _ & [= -> ->]).
    destruct (vl_records _ _ _ _ _ _ _ _ _ _ Ls _ _ _ Hr) as [? Hh]. split; [done|]. eexists _, _. split; [exact Hh|].
    by intros ->.
Qed.

Lemma values_senders {V} (m : gmap PublicKey V) `{EqDecision V} v :
  exists S : gset PublicKey, Z.of_nat (size S) = occurrences v (values_of m) /\ forall j, j ∈ S -> m !! j = Some v.
Proof.
  destruct (count_senders (eq v) m) as (S & HS & HP). exists S. split; [done|]. intros j Hj. by destruct (HP j Hj) as (v' & ? & <-).
Qed.

Lemma witnesses_heard past v s w n :
  vlive past v s -> n <= occurrences w (values_of (backing_witnesses s)) -> many n (fun k => heard past k (MWitness t v w k)).
Proof.
  intros Ls Hn. destruct (values_senders (backing_witnesses s) w) as (S & HS & HP). exists S. split; [lia|].
  intros k Hk. by apply (vl_witnesses _ _ _ _ _ _ _ _ _ _ Ls), HP.
Qed.

Lemma is_backed_heard past x w : linv past x -> is_backed x t w = true -> backed c me t said past w.
Proof.
  unfold is_backed. intros L. destruct (instances x !! t) as [i|] eqn:Hi; [|done].
  intros (s & Hs & Hq)%existsb_exists. apply list_elem_of_In, list_elem_of_fmap in Hs as ([v s'] & -> & Hs%elem_of_map_to_list).
  destruct (li_live _ _ _ _ _ _ _ _ _ L i Hi) as (Lv & _). destruct (config _ _ L) as (_ & _ & Hquo & _). rewrite Hquo in Hq. exists v.
  eapply witnesses_heard; [by eapply lv_views|]. cbn in *. lia.
Qed.

Lemma done_winner_heard past x i w n :
  instances x !! t = Some i -> live past i -> done_winner x t n = Some w -> many n (fun k => heard past k (MDone t w k)).
Proof.
  unfold done_winner. intros -> Lv. cbn. intros Hn%first_quorum_spec.
  destruct (values_senders (done_by i) w) as (S & HS & HP). exists S. split; [rewrite HS; exact Hn|].
  intros k Hk. by apply (lv_done _ _ _ _ _ _ _ _ _ Lv), HP.
Qed.

Lemma open_lock_heard past x i v :
  linv past x -> instances x !! t = Some i -> live past i -> open_lock x t v = true ->
  many fp1 (fun k => exists p, pr_sender p = k /\ heard past k (MProof p) /\ opens t (lock_view i) (lock_value i) v p).
Proof.
  unfold open_lock. intros L Hi Lv. rewrite Hi. destruct (di_views i !! v) as [s|] eqn:Hs; [|done].
  pose proof (lv_views _ _ _ _ _ _ _ _ _ Lv _ _ Hs) as Ls.
  destruct (config _ _ L) as (_ & -> & _). intros Hn%Z.leb_le.
  destruct (count_senders (fun p => pr_prev_key1 p < pr_key1_view p /\ pr_key1_view p < v /\
    (lock_view i <= pr_prev_key1 p \/ (lock_view i <= pr_key1_view p /\ pr_key1_value p <> lock_value i))) (proofs s)) as (S & HS & HP).
  exists S. split; [rewrite HS; exact Hn|]. intros k Hk. destruct (HP k Hk) as (p & Hp & ? & ? & ?).
  destruct (vl_proofs _ _ _ _ _ _ _ _ _ _ Ls _ _ Hp) as (? & <- & ? & ? & ?). split; [done|]. exists p. split_and!; [done|done|].
  by split_and!.
Qed.

(** An ECHO that the lock allows respects it. *)
Lemma lock_allows_ok past x i v p :
  linv past x -> instances x !! t = Some i -> live past i -> v = current_view i -> lock_allows x t v i p = true ->
  echo_ok past v (dp_value p).
Proof.
  intros L Hi Lv Hv Ha. destruct (lv_lock _ _ _ _ _ _ _ _ _ Lv) as [[Hz Hno]|[Hl Hmax]].
  { left. left. intros u y H. by apply Hno in H. }
  assert (lock_view i <= v) as Hle by (destruct (lv_own _ _ _ _ _ _ _ _ _ Lv _ _ _ Hl); lia).
  assert (0 < lock_view i) as Hpos.
  { destruct (lv_own _ _ _ _ _ _ _ _ _ Lv _ _ _ Hl) as (_ & s & Hs & _). by apply (lv_views _ _ _ _ _ _ _ _ _ Lv _ _ Hs). }
  unfold lock_allows in Ha. destruct (decide (lock_value i = dp_value p)) as [Heq|Hne].
  - destruct (decide (lock_view i = v)) as [Hv'|]; [right; by rewrite <- Hv', <- Heq|]. left. right. exists (lock_view i), (lock_value i).
    split_and!; [done|lia|intros u' y' H _; by eapply Hmax|by left].
  - assert (open_lock x t v = true) as Ho by (destruct (open_lock x t v); [done|]; lia).
    apply (open_lock_heard past) with (i := i) in Ho; [|done..]. left. right. exists (lock_view i), (lock_value i).
    split_and!; [done| |intros u' y' H _; by eapply Hmax|by right].
    destruct Ho as (S & HS & HP). assert (exists k, k ∈ S) as [k Hk].
    { apply set_choose_L. intros ->. rewrite size_empty in HS. destruct (thresholds_pos _ _ L). lia. }
    destruct (HP k Hk) as (_ & q & _ & _ & (_ & _ & ? & ? & ?)). lia.
Qed.

(** ** Statements *)

Lemma emit_statement_run x target view ph w key origin i s :
  instances x !! target = Some i -> di_views i !! view = Some s -> sent s !! ph = None ->
  (ph <> PEcho -> key = None /\ origin = None) ->
  (ph = PEcho /\ emit_statement target view ph w key origin x = Res tt [] x) \/
  exists views', let o := if bool_decide (ph = PEcho) then origin else None in
    emit_statement target view ph w key origin x =
      Res tt [DBroadcastStatement (mkStatement target view w ph key o (dr_name x))]
        (x <| instances ::= <[ target := i <| di_views := views' |> ]> |>) /\
    views' !! view = Some (with_statement s ph w key o (dr_name x)) /\ (forall u, u <> view -> views' !! u = di_views i !! u).
Proof.
  intros Hi Hs Hn Hk. unfold emit_statement. destruct (negb _ || _) eqn:Hb.
  { left. split; [|done]. destruct (decide (ph = PEcho)) as [|Hne]; [done|]. destruct (Hk Hne) as [-> ->]. by destruct ph. }
  right. rewrite get_bind, Hi, Hs. change (default dvs_default (Some s)) with s. rewrite Hn, bool_decide_false by (by intros []).
  exists (alter (fun s => with_statement s ph w key (if bool_decide (ph = PEcho) then origin else None) (dr_name x)) view
    (partial_alter (fun o => Some (default dvs_default o)) view (di_views i))). cbn zeta. split_and!.
  - unfold mbind, M_bind. cbn. f_equal. unfold setter, set_instances. cbn. f_equal. apply map_eq. intros u.
    destruct (decide (target = u)) as [<-|]; [by rewrite !lookup_alter_eq, lookup_insert_eq, Hi|].
    by rewrite !lookup_alter_ne, lookup_insert_ne.
  - by rewrite lookup_alter_eq, lookup_partial_alter_eq, Hs.
  - intros u Hu. by rewrite lookup_alter_ne, lookup_partial_alter_ne by done.
Qed.

(** The registers and the statement, as one step. *)
Lemma keeps_send x x1 target view ph w key origin i s :
  instances x !! target = Some i -> di_views i !! view = Some s -> sent s !! ph = None -> view = current_view i ->
  (target = t -> forall past, linv past x -> live past i ->
     statement_ok bincode_entry c sid me t said voted view ph w key (if bool_decide (ph = PEcho) then origin else None) past) ->
  (ph <> PEcho -> key = None /\ origin = None) ->
  (ph = PEcho -> x1 = x) -> frame x x1 -> instances x1 !! target = Some (raise_key ph view w i) ->
  (target <> t -> instances x1 !! t = instances x !! t) ->
  let r := emit_statement target view ph w key origin x1 in keeps x (out r) (st r).
Proof.
  intros Hi Hs Hn Hv Hok Hne Hx Hf Hi1 Ho r. unfold r. clear r.
  assert (di_views (raise_key ph view w i) = di_views i) as Hd by apply raise_key_core.
  assert (dr_name x1 = dr_name x) as Hnm by apply Hf.
  destruct (emit_statement_run x1 target view ph w key origin _ s Hi1 ltac:(by rewrite Hd) Hn Hne) as [[Hp Hr]|(views' & Hr & H1 & H2)].
  - rewrite Hr, (Hx Hp). apply trace_refl.
  - rewrite Hr, Hnm. cbn [out st]. destruct (decide (target = t)) as [->|Hne'].
    + rewrite Hnm in H1.
      eapply (keeps_statement bincode_entry c sid me t said voted x i s); [done..| |exact H1|intros u Hu; rewrite <- Hd; by apply H2|by apply Hok].
      cbn. by rewrite lookup_insert_eq.
    + apply keeps_aside; [done|cbn; by rewrite lookup_insert_ne, Ho|].
      intros past _. apply hush_quiet, Forall_singleton. split; [by intros m [= <-]|done].
Qed.

Lemma hush_other target e : target <> t -> (forall m, msg_of e = Some m -> msg_target m = target) -> (forall d, e <> DDecide d) -> hush e.
Proof. intros Hne Hm Hd. split; [intros m H; by rewrite (Hm m H)|intros d ->; by destruct (Hd d)]. Qed.

Lemma hush_silent e : msg_of e = None -> (forall d, e <> DDecide d) -> hush e.
Proof. intros Hm Hd. split; [by rewrite Hm|intros d ->; by destruct (Hd d)]. Qed.

(** Effects that carry no message of [DMsg]. *)
Lemma sat_emit_silent e : msg_of e = None -> (forall d, e <> DDecide d) -> sat keeps (emit e).
Proof. intros. apply sat_emit. by apply hush_silent. Qed.

Lemma sat_try_echo target view : sat keeps (try_echo target view).
Proof.
  apply sat_get_bind. intros x. destruct (instances x !! target) as [i|] eqn:Hi; [|apply sat_ret, _].
  destruct (view =? current_view i) eqn:Hv; cbn [negb]; [|apply sat_ret, _].
  destruct (di_views i !! view) as [s|] eqn:Hs; [|apply sat_ret, _].
  case_bool_decide as Hn; [apply sat_ret, _|]. apply eq_None_not_Some in Hn.
  destruct (proposal s) as [p|] eqn:Hp; [|apply sat_ret, _].
  destruct (_ && _) eqn:Hb; [apply sat_ret, _|]. destruct (lock_allows x target view i p) eqn:Hl; cbn [negb]; [|apply sat_ret, _].
  destruct (vote_status s) eqn:Hst; try apply sat_ret, _.
  - apply (sat_at_alter bincode_entry c sid me t said voted x target view (fun s => s <| vote_status := VsRequested |>)
      [DValidateVote target view (dp_value p) (dp_entry p) (dp_key_view p =? 0)]).
    { intros past _. apply hush_quiet, Forall_singleton. by apply hush_silent. }
    intros -> past i' s' L Hi' Hs'. assert (i' = i) as -> by congruence. assert (s' = s) as -> by congruence.
    split; [|done]. intros Ls%(vlive_app _ _ _ _ _ _ _ past [DValidateVote t view (dp_value p) (dp_entry p) (dp_key_view p =? 0)]).
    destruct Ls as [B1 B2 B3 B4 B5 B6 B7 B8 B9]. split; try done; cbn. intros _. exists p. split; [done|]. apply elem_of_app. right.
    by apply list_elem_of_singleton.
  - apply (keeps_send x x target view PEcho (dp_value p) (Some (dp_key_view p)) (vote_origin s) i s); try done; [lia|].
    intros -> past L Lv. split_and!; [|done|done]. intros _. split; [eapply lock_allows_ok; [done|done|done|lia|done]|].
    pose proof (lv_views _ _ _ _ _ _ _ _ _ Lv _ _ Hs) as Ls. cbn. split_and!.
    + by eapply vl_voted.
    + destruct (vl_asked _ _ _ _ _ _ _ _ _ _ Ls) as (p' & Hp' & Hin); [by rewrite Hst|]. assert (p' = p) as -> by congruence.
      exists (dp_entry p). split; [symmetry; by eapply vl_proposal|]. 
      replace (bool_decide (Some (dp_key_view p) = Some 0)) with (dp_key_view p =? 0); [done|].
      case_bool_decide as Hk; [injection Hk; lia|]. apply Z.eqb_neq. congruence.
    + destruct (vl_proposal _ _ _ _ _ _ _ _ _ _ Ls p Hp) as [_ Hpos]. destruct (decide (dp_key_view p = 0)) as [->|]; [by left|right].
      eapply is_backed_heard; [done|]. destruct (is_backed x t (dp_value p)); [done|]. lia.
Qed.

(** ** Proposals *)

Lemma admitted_pos x target v b : negb (admits_phase_view x target v) || b = false -> 0 < v.
Proof. unfold admits_phase_view. destruct (instances x !! target); [|done]. lia. Qed.

Lemma remember_run target entry x :
  let r := remember_entry bincode_entry target entry x in
  val r = (if valid_entry x target entry then Some (value_digest bincode_entry x entry) else None) /\ instances (st r) = instances x.
Proof. unfold remember_entry. cbn zeta. rewrite get_bind. by destruct (valid_entry x target entry). Qed.

Lemma sat_on_proposal p : (dp_target p = t -> 0 <= dp_key_view p) -> sat keeps (on_proposal bincode_entry p).
Proof.
  intros Hk. apply sat_get_bind. intros x. cbn zeta. destruct (_ || _); [apply sat_ret, _|].
  destruct (negb (admits_phase_view x (dp_target p) (dp_view p)) || _) eqn:Ha; [apply sat_ret, _|].
  destruct (has_proposal x (dp_target p) (dp_view p)) eqn:Hp; [apply sat_ret, _|].
  apply sat_at_bind; [apply _|apply sat_remember|].
  destruct (remember_run (dp_target p) (dp_entry p) x) as [Hv Hi]. rewrite Hv. set (x1 := st _) in *.
  assert (dr_sid x1 = dr_sid x) as Hsid.
  { unfold x1, remember_entry. rewrite get_bind. by destruct (valid_entry x (dp_target p) (dp_entry p)). }
  destruct (valid_entry x (dp_target p) (dp_entry p)); [|apply sat_ret, _].
  destruct (_ =? dp_value p) eqn:He; cbn [negb]; [|apply sat_ret, _]. apply sat_at_bind; [apply _| |apply sat_try_echo].
  apply sat_at_entry. intros Ht. split; [by eapply admitted_pos|].
  intros past i L Hi1. destruct (config _ _ L) as (_ & _ & _ & Hs & _). split; [|done]. rewrite app_nil_r.
  assert (proposal (default dvs_default (di_views i !! dp_view p)) = None) as Hn.
  { unfold has_proposal, view_of in Hp. rewrite Ht, <- Hi, Hi1 in Hp. cbn in Hp. destruct (di_views i !! dp_view p) as [s|]; [|done].
    case_bool_decide as Hb; [done|]. by apply eq_None_not_Some in Hb. }
  intros [B1 B2 B3 B4 B5 B6 B7 B8 B9]. split; try done; cbn.
  - intros p' [= <-]. split; [|by apply Hk]. apply Z.eqb_eq in He. unfold value_digest in He. unfold DirectInv.vd. congruence.
  - intros Hu. destruct (B8 Hu) as (p' & ? & _). congruence.
  - intros p' Ha'. destruct B8 as (p'' & ? & _); [by rewrite Ha'|]. congruence.
Qed.

Lemma sat_take_candidate target view : sat keeps (take_next_candidate target view).
Proof.
  apply sat_get_bind. intros x. destruct (instances x !! target) as [i|]; [|apply sat_ret, _]. cbn zeta.
  destruct (_ !! _) as [e|]; [|apply sat_ret, _]. apply sat_at_bind; [apply _|by apply sat_on_inst|apply sat_ret, _].
Qed.

Lemma sat_try_primary target view : sat keeps (try_primary_propose bincode_entry target view).
Proof.
  apply sat_get_bind. intros x. destruct (instances x !! target) as [i|]; [|apply sat_ret, _].
  destruct (_ || _); [apply sat_ret, _|]. cbn zeta. destruct (_ <? _); [apply sat_ret, _|].
  destruct (last _) as [m|]; [|apply sat_ret, _].
  assert (forall choice : option (DirectResolverView * ResolutionEntry), (forall key entry, choice = Some (key, entry) -> 0 <= key) ->
    sat keeps (match choice with
     | None => skip
     | Some (key, entry) =>
         let p := mkDProposal target view key (value_digest bincode_entry x entry) entry (dr_name x) in
         emit (DBroadcastProposal p);; on_proposal bincode_entry p
     end)) as Hc.
  { intros [[key entry]|] Hk; [|apply sat_ret, _]. cbn zeta. apply sat_bind; [apply _|by apply sat_emit_silent|].
    intros _. apply sat_on_proposal. intros _. cbn. by eapply Hk. }
  destruct (0 <? sg_key3_view m) eqn:Hm.
  - apply sat_at_bind; [apply _|apply sat_ret, _|]. apply Hc. intros key entry. cbn. destruct (entry_of _ _ _); [|done].
    intros [= <- _]. lia.
  - apply sat_at_bind; [apply _| |].
    + apply sat_at_bind; [apply _|apply sat_take_candidate|apply sat_ret, _].
    + apply Hc. intros key entry. rewrite bind_run. cbn. destruct (val _); [|done]. by intros [= <- _].
Qed.

(** ** Witnesses, DONEs and decisions *)

Lemma sat_at_witness x target view w :
  (target = t -> forall past i s, linv past x -> instances x !! t = Some i -> live past i -> di_views i !! view = Some s ->
     backing_sent s = None -> witness_ok past view w) ->
  sat_at keeps (emit_backing_witness target view w) x.
Proof.
  intros Hok. apply sat_at_get_bind. destruct (entry_of x target w) as [e|]; [|apply sat_ret, _].
  unfold view_of. destruct (instances x !! target) as [i|] eqn:Hi; [|apply sat_ret, _].
  cbn [option_bind mbind]. destruct (di_views i !! view) as [s|] eqn:Hs; [|apply sat_ret, _].
  case_bool_decide as Hb; [apply sat_ret, _|]. apply eq_None_not_Some in Hb.
  unfold sat_at. rewrite bind_run. cbn [out st emit on_view on_inst modify app val].
  destruct (decide (target = t)) as [->|Hne].
  - eapply (keeps_witness bincode_entry c sid me t said voted x i s view w e); [done|done|done|done| |].
    + cbn. by rewrite lookup_alter_eq, Hi.
    + intros past L Lv. by eapply Hok.
  - apply keeps_aside; [done|cbn; by rewrite lookup_alter_ne|].
    intros past _. apply hush_quiet, Forall_singleton. split; [by intros m [= <-]|done].
Qed.

Lemma sat_at_done x target w e :
  (target = t -> forall past i, linv past x -> instances x !! t = Some i -> live past i -> done_sent i = None -> done_ok c me t said past w) ->
  sat_at keeps (emit_done bincode_entry target w e) x.
Proof.
  intros Hok. apply sat_at_get_bind. destruct (_ || _); [apply sat_ret, _|].
  destruct (instances x !! target) as [i|] eqn:Hi; [|apply sat_ret, _].
  case_bool_decide as Hb; [apply sat_ret, _|]. apply eq_None_not_Some in Hb.
  unfold sat_at. rewrite bind_run. cbn [out st emit on_inst modify app val].
  destruct (decide (target = t)) as [->|Hne].
  - eapply (keeps_done bincode_entry c sid me t said voted x i w e); [done|done|done| |].
    + cbn. by rewrite lookup_alter_eq, Hi.
    + intros past L Lv. by eapply Hok.
  - apply keeps_aside; [done|cbn; by rewrite lookup_alter_ne|].
    intros past _. apply hush_quiet, Forall_singleton. split; [by intros m [= <-]|done].
Qed.

Lemma sat_recheck_done target : sat keeps (recheck_done bincode_entry target).
Proof.
  apply sat_get_bind. intros x. apply sat_at_bind; [apply _| |].
  - destruct (done_is_sent x target); [apply sat_ret, _|]. destruct (done_winner x target (dr_f_plus_1 x)) as [w|] eqn:Hw; [|apply sat_ret, _].
    destruct (entry_of x target w) as [e|]; [|apply sat_panic]. apply sat_at_done. intros -> past i L Hi Lv Hn. right.
    destruct (config _ _ L) as (_ & Hf & _). rewrite Hf in Hw. eapply many_impl; [by eapply done_winner_heard|].
    intros k [[-> Hs]|?]; [|done]. apply (lv_done_sent _ _ _ _ _ _ _ _ _ Lv) in Hs. congruence.
  - generalize (st ((if done_is_sent x target then skip
      else match done_winner x target (dr_f_plus_1 x) with
           | None => skip
           | Some value => match entry_of x target value with None => panic | Some entry => emit_done bincode_entry target value entry end
           end) x)) as x1. clear x. intros x. apply sat_at_get_bind.
    destruct (done_winner x target (dr_quorum x)) as [w|] eqn:Hw; [|apply sat_ret, _].
    destruct (entry_of x target w) as [e|] eqn:He; [|apply sat_panic].
    unfold sat_at. rewrite bind_run. cbn [out st emit modify app val]. destruct (decide (target = t)) as [->|Hne].
    + pose proof Hw as Hw'. unfold done_winner in Hw'. destruct (instances x !! t) as [i|] eqn:Hi; [|done].
      eapply (keeps_decide bincode_entry c sid me t said voted x i w e); try done.
      * cbn. by rewrite lookup_delete_eq.
      * cbn. by rewrite lookup_insert_eq.
      * intros past L Lv. destruct (config _ _ L) as (_ & _ & Hq & _). rewrite Hq in Hw. by eapply done_winner_heard.
    + apply keeps_aside.
      * unfold DirectSteps.frame. cbn. by rewrite lookup_insert_ne.
      * cbn. by rewrite lookup_delete_ne.
      * intros past L. apply hush_quiet, Forall_singleton. split; [done|]. intros d [= <-].
        by destruct (li_values _ _ _ _ _ _ _ _ _ L _ _ _ He) as (_ & -> & _).
Qed.

(** ** Advancing *)

Lemma echo_quorum past x i v w key :
  linv past x -> instances x !! t = Some i -> live past i -> phase_winner x t v PEcho (dr_quorum x) = Some (w, key) ->
  many quo (fun k => exists origin, heard past k (MStatement (mkStatement t v w PEcho key origin k))).
Proof.
  intros L Hi Lv Hw. destruct (phase_winner_heard _ _ _ _ _ _ _ L Hi Lv Hw) as [_ H]. eapply many_impl; [exact H|].
  intros k (key' & o & Hh & He). rewrite <- (He eq_refl). by exists o.
Qed.

Lemma fresh_heard past x i s p v w key :
  linv past x -> instances x !! t = Some i -> live past i -> view_of x t v = Some s -> proposal s = Some p -> dp_key_view p = 0 ->
  phase_winner x t v PEcho (dr_quorum x) = Some (w, key) -> fresh_origin_ok x t v w = true ->
  fresh bincode_entry c sid me t said past v w.
Proof.
  intros L Hi Lv Hs Hp Hk Hw Ho. pose proof (view_of_live _ _ _ _ _ Hi Lv Hs) as Ls.
  destruct (proj1 (phase_winner_heard _ _ _ _ _ _ _ L Hi Lv Hw) eq_refl s p Hs Hp) as [-> ->].
  pose proof (echo_quorum _ _ _ _ _ _ L Hi Lv Hw) as Hq. rewrite Hk in Hq. split; [exact Hq|].
  unfold fresh_origin_ok in Ho. rewrite Hs, Hp, Hk, Z.eqb_refl in Ho. cbn in Ho. destruct (is_skip (dp_entry p)) eqn:He.
  { left. exists (dp_entry p). split; [|done]. symmetry. by eapply vl_proposal. }
  right. destruct (config _ _ L) as (_ & Hf & _). rewrite Hf in Ho. apply Z.leb_le in Ho.
  destruct (count_senders (fun r => sr_value r = dp_value p /\ sr_proposal_key_view r = Some 0 /\ sr_origin r = Some 1)
    (default ∅ (statements s !! PEcho))) as (S & HS & HP). exists S. split; [rewrite HS; exact Ho|].
  intros k Hk'. destruct (HP k Hk') as (r & Hr & H1 & H2 & H3).
  destruct (vl_records _ _ _ _ _ _ _ _ _ _ Ls PEcho k r) as [? Hh]; [by destruct (statements s !! PEcho)|].
  rewrite H1, H2, H3 in Hh. done.
Qed.

(** The phases of [advance_view] run while the view is the current one. *)
Definition at_view (target : View) (view : DirectResolverView) x : Prop :=
  forall i, instances x !! target = Some i -> current_view i = view.
Definition advances target view x es x' : Prop := at_view target view x -> keeps x es x' /\ at_view target view x'.

#[export] Instance advances_trace target view : TraceRel (advances target view).
Proof.
  split.
  - intros x Hx. split; [apply trace_refl|done].
  - intros x1 x2 x3 es1 es2 H1 H2 Hx. destruct (H1 Hx) as [? Hx2]. destruct (H2 Hx2). split; [by eapply trace_trans|done].
Qed.

(** Steps that keep the current view of every instance they keep, and what it sent. *)
Definition grown i i' : Prop :=
  current_view i' = current_view i /\ (done_sent i' = None -> done_sent i = None) /\
  forall v ph, sent (default dvs_default (di_views i' !! v)) !! ph = None -> sent (default dvs_default (di_views i !! v)) !! ph = None.
Definition same_view x (es : list DirectResolutionEffect) x' : Prop :=
  forall target i', instances x' !! target = Some i' -> exists i, instances x !! target = Some i /\ grown i i'.

Lemma grown_refl i : grown i i.
Proof. done. Qed.

Lemma grown_trans i1 i2 i3 : grown i1 i2 -> grown i2 i3 -> grown i1 i3.
Proof. intros (A1 & A2 & A3) (B1 & B2 & B3). split_and!; [congruence|auto|auto]. Qed.

Lemma grown_alter i v g : (forall s ph, sent (g s) !! ph = None -> sent s !! ph = None) -> grown i (i <| di_views ::= alter g v |>).
Proof.
  intros Hg. split_and!; [done|done|]. intros u ph. cbn. destruct (decide (v = u)) as [<-|]; [|by rewrite lookup_alter_ne].
  rewrite lookup_alter_eq. destruct (di_views i !! v) as [s|]; cbn; [apply Hg|done].
Qed.

Lemma grown_entry i v g : (forall s ph, sent (g s) !! ph = None -> sent s !! ph = None) ->
  grown i (i <| di_views ::= partial_alter (fun o => Some (g (default dvs_default o))) v |>).
Proof.
  intros Hg. split_and!; [done|done|]. intros u ph. cbn. destruct (decide (v = u)) as [<-|]; [|by rewrite lookup_partial_alter_ne].
  rewrite lookup_partial_alter_eq. cbn. apply Hg.
Qed.

#[export] Instance same_view_trace : TraceRel same_view.
Proof.
  split.
  - intros x target i Hi. exists i. split; [done|apply grown_refl].
  - intros x1 x2 x3 es1 es2 H1 H2 target i3 H3. destruct (H2 _ _ H3) as (i2 & Hi2 & E2). destruct (H1 _ _ Hi2) as (i1 & ? & ?).
    exists i1. split; [done|by eapply grown_trans].
Qed.

Lemma sat_advances {A} target view (m : DM A) x : sat_at keeps m x -> sat_at same_view m x -> sat_at (advances target view) m x.
Proof. intros Hk Hs Hx. split; [exact Hk|]. intros i' Hi'. destruct (Hs _ _ Hi') as (i & Hi & -> & _). by apply Hx. Qed.

Lemma same_modify f : (forall x, instances (f x) = instances x) -> sat same_view (modify f).
Proof. intros Hf x target i. cbn. rewrite Hf. intros Hi. exists i. split; [done|apply grown_refl]. Qed.

Lemma same_emit e : sat same_view (emit e).
Proof. intros x target i Hi. exists i. split; [done|apply grown_refl]. Qed.

Lemma same_on_inst target f : (forall i, grown i (f i)) -> sat same_view (on_inst target f).
Proof.
  intros Hf x u i'. cbn. destruct (decide (target = u)) as [->|]; [rewrite lookup_alter_eq|rewrite lookup_alter_ne by done].
  - intros (i & Hi & ->)%fmap_Some. by exists i.
  - intros Hi. exists i'. split; [done|apply grown_refl].
Qed.

(** Fetches satisfy every relation that contains their silent steps. *)
Section fetch.
Context (R : DirectResolver -> list DirectResolutionEffect -> DirectResolver -> Prop) {HR : TraceRel R}.
Context (Hp : forall f, sat R (modify (fun x => x <| pending_fetch ::= f |>)))
  (Hm : forall f, sat R (modify (fun x => x <| fetch_requested ::= f |>)))
  (He : forall peer f, sat R (emit (DValueFetchTo peer f))).

Lemma sat_request target w peers : sat R (request_values target w peers).
Proof using Type HR Hp Hm He.
  induction peers as [|peer peers IH]; [apply sat_ret, _|]. apply sat_get_bind. intros x.
  apply sat_at_bind; [apply _| |apply IH]. destruct (set_has _ _ _); [apply sat_ret, _|].
  apply sat_at_bind; [apply _|by apply Hm|apply He].
Qed.

Lemma sat_fetch target w peers : sat R (ensure_value_fetch target w peers).
Proof using Type HR Hp Hm He.
  apply sat_get_bind. intros x. case_bool_decide; [apply sat_ret, _|].
  apply sat_at_bind; [apply _|by apply Hp|apply sat_request].
Qed.
End fetch.

Lemma fetch_keeps target w peers : sat keeps (ensure_value_fetch target w peers).
Proof. apply sat_fetch; [apply _|intros; by apply sat_modify..|intros; by apply sat_emit_silent]. Qed.

Lemma fetch_same target w peers : sat same_view (ensure_value_fetch target w peers).
Proof. apply sat_fetch; [apply _|intros; by apply same_modify..|intros; apply same_emit]. Qed.

Lemma witness_same target view w : sat same_view (emit_backing_witness target view w).
Proof.
  apply sat_get_bind. intros x. destruct (entry_of x target w); [|apply sat_ret, _]. destruct (view_of x target view); [|apply sat_ret, _].
  case_bool_decide; [apply sat_ret, _|]. apply sat_at_bind; [apply _|apply same_on_inst; intros; by apply grown_alter|apply same_emit].
Qed.

Lemma done_same target w e : sat same_view (emit_done bincode_entry target w e).
Proof.
  apply sat_get_bind. intros x. destruct (_ || _); [apply sat_ret, _|]. destruct (instances x !! target) as [i|]; [|apply sat_ret, _].
  case_bool_decide; [apply sat_ret, _|]. apply sat_at_bind; [apply _|by apply same_on_inst|apply same_emit].
Qed.

Lemma recheck_done_same target : sat same_view (recheck_done bincode_entry target).
Proof.
  apply sat_get_bind. intros x. apply sat_at_bind; [apply _| |].
  - destruct (done_is_sent x target); [apply sat_ret, _|]. destruct (done_winner x target _); [|apply sat_ret, _].
    destruct (entry_of x target _); [apply done_same|by apply same_modify].
  - apply sat_get_bind. intros x1. destruct (done_winner x1 target _); [|apply sat_ret, _].
    destruct (entry_of x1 target _); [|by apply same_modify]. apply sat_at_bind; [apply _| |apply same_emit].
    intros u i'. cbn. intros [_ Hi]%lookup_delete_Some. exists i'. split; [done|apply grown_refl].
Qed.

Lemma send_same target view ph w key origin : sat same_view (emit_statement target view ph w key origin).
Proof.
  unfold emit_statement. destruct (negb _ || _); [apply sat_ret, _|]. apply sat_get_bind. intros x.
  destruct (instances x !! target) as [i|]; [|apply sat_ret, _].
  apply sat_at_bind; [apply _|apply same_on_inst; intros; by apply (grown_entry _ _ id)|].
  case_bool_decide; [apply sat_ret, _|]. apply sat_at_bind; [apply _|apply same_on_inst; intros; apply grown_alter|apply same_emit].
  intros s ph'. cbn. destruct (decide (ph = ph')) as [<-|]; [by rewrite lookup_insert_eq|by rewrite lookup_insert_ne].
Qed.

Lemma advance_send_ok past x i s view from to w key :
  linv past x -> instances x !! t = Some i -> live past i -> view_of x t view = Some s ->
  phase_winner x t view from (dr_quorum x) = Some (w, key) -> to <> PEcho -> from = prev_phase to ->
  (from = PEcho -> fresh_origin_ok x t view w = true /\ (forall p, proposal s = Some p -> dp_key_view p = 0 -> is_backed x t w = true)) ->
  statement_ok bincode_entry c sid me t said voted view to w None None past.
Proof.
  intros L Hi Lv Hs Hw Hto Hfrom Ho. split_and!; [done| |].
  - intros _. rewrite <- Hfrom. destruct (phase_winner_heard _ _ _ _ _ _ _ L Hi Lv Hw) as [_ H]. eapply many_impl; [exact H|].
    intros k (key' & o & Hh & _). by exists key', o.
  - intros ->. cbn in Hfrom. destruct (Ho Hfrom) as [Hf Hb]. subst from. pose proof (echo_quorum _ _ _ _ _ _ L Hi Lv Hw) as Hq.
    unfold fresh_origin_ok in Hf. rewrite Hs in Hf. destruct (proposal s) as [p|] eqn:Hp; [|done].
    destruct (proj1 (phase_winner_heard _ _ _ _ _ _ _ L Hi Lv Hw) eq_refl s p Hs Hp) as [-> ->].
    pose proof (view_of_live _ _ _ _ _ Hi Lv Hs) as Ls. destruct (vl_proposal _ _ _ _ _ _ _ _ _ _ Ls p Hp) as [_ Hpos].
    destruct (decide (dp_key_view p = 0)) as [Hz|]; [left; eapply is_backed_heard; [done|by eapply Hb]|]. right.
    exists (dp_key_view p). split; [lia|exact Hq].
Qed.

Lemma sat_at_fresh x target view w key s p :
  phase_winner x target view PEcho (dr_quorum x) = Some (w, key) -> view_of x target view = Some s -> proposal s = Some p ->
  dp_key_view p = 0 -> fresh_origin_ok x target view w = true -> sat_at keeps (emit_backing_witness target view w) x.
Proof.
  intros Hw Hs Hp Hz Hf. apply sat_at_witness. intros -> past i s' L Hi Lv Hs' Hns. left. by eapply fresh_heard.
Qed.

Lemma sat_at_backing x target view w :
  backing_winner x target view (dr_f_plus_1 x) = Some w -> sat_at keeps (emit_backing_witness target view w) x.
Proof.
  intros Hw. apply sat_at_witness. intros -> past i s L Hi Lv Hs Hn. right.
  pose proof (lv_views _ _ _ _ _ _ _ _ _ Lv _ _ Hs) as Ls. unfold backing_winner, view_of in Hw. rewrite Hi in Hw. cbn in Hw. rewrite Hs in Hw.
  apply first_quorum_spec in Hw. destruct (config _ _ L) as (_ & Hf & _). rewrite Hf in Hw.
  eapply many_impl; [by eapply witnesses_heard|]. intros k [[-> Hsp]|?]; [|done].
  destruct (lv_backing _ _ _ _ _ _ _ _ _ Lv view w Hsp) as (s' & Hs' & ?). congruence.
Qed.

Lemma grown_raise ph v w i : grown i (raise_key ph v w i).
Proof. destruct (raise_key_core ph v w i) as (E1 & E2 & E3 & E4 & E5). split_and!; [done|by rewrite E5|by rewrite E3]. Qed.

Section again.
Context (target : View) (view : DirectResolverView) (again : DM ()) (Hagain : sat (advances target view) again).
#[local] Set Default Proof Using "Type Hagain".

Lemma sat_recheck_backing : sat (advances target view) (recheck_backing again target view).
Proof.
  apply sat_get_bind. intros x. apply sat_at_bind; [apply _| |].
  - destruct (backing_winner x target view (dr_f_plus_1 x)) as [w|] eqn:Hw; [|apply sat_ret, _].
    apply sat_advances; [by apply sat_at_backing|apply witness_same].
  - apply sat_get_bind. intros x1. apply sat_when; [apply _|apply Hagain].
Qed.

Lemma sat_advance_step from to : to <> PEcho -> from = prev_phase to -> sat (advances target view) (advance_step again target view from to).
Proof.
  intros Hto Hfrom. apply sat_get_bind. intros x. destruct (phase_winner x target view from (dr_quorum x)) as [[w key]|] eqn:Hw; [|apply sat_ret, _].
  destruct (view_of x target view) as [s|] eqn:Hs; [|apply sat_ret, _]. case_bool_decide as Hn; [apply sat_ret, _|]. apply eq_None_not_Some in Hn.
  destruct (has_valid_entry x target w); cbn [negb].
  2: { apply sat_at_bind; [apply _| |apply sat_ret, _]. apply sat_advances; [apply fetch_keeps|apply fetch_same]. }
  destruct (bool_decide (from = PEcho) && negb (fresh_origin_ok x target view w)) eqn:Hf; [apply sat_ret, _|].
  destruct (_ && negb (is_backed x target w)) eqn:Hb.
  - apply sat_at_bind; [apply _| |apply sat_bind; [apply _|apply sat_recheck_backing|intros; apply sat_ret, _]].
    apply sat_advances; [|apply witness_same]. destruct (proposal s) as [p|] eqn:Hp; [|by rewrite andb_false_r in Hb].
    apply andb_prop in Hb as [[He%bool_decide_eq_true Hz]%andb_prop _]. subst from. rewrite He in Hw, Hf.
    eapply sat_at_fresh; [done..|lia|]. by destruct (fresh_origin_ok x target view w).
  - pose proof Hs as Hs'. unfold view_of in Hs'. destruct (instances x !! target) as [i|] eqn:Hi; [|done]. cbn in Hs'.
    apply sat_at_eq with (m' := ((on_inst target (raise_key to view w);; emit_statement target view to w None None) ;; mret (Some true)));
      [by rewrite bind_assoc|]. apply sat_at_bind; [apply _| |apply sat_ret, _].
    intros Hx. split; [|].
    + set (x1 := x <| instances ::= alter (raise_key to view w) target |>).
      apply (keeps_send x x1 target view to w None None i s); try done.
      * symmetry. by apply Hx.
      * intros -> past L Lv. rewrite bool_decide_false by done. eapply advance_send_ok; try done. intros He. subst from. rewrite He in *.
        rewrite bool_decide_true in Hf, Hb by done. split; [by destruct (fresh_origin_ok x t view w)|]. intros p Hp Hz. rewrite Hp in Hb.
        destruct (is_backed x t w); [done|]. cbn in Hb. lia.
      * cbn. by rewrite lookup_alter_eq, Hi.
      * cbn. intros. by rewrite lookup_alter_ne.
    + assert (sat same_view (on_inst target (raise_key to view w);; emit_statement target view to w None None)) as Hsame.
      { apply sat_bind; [apply _|apply same_on_inst; intros; apply grown_raise|intros; apply send_same]. }
      intros i' Hi'. destruct (Hsame x _ _ Hi') as (i0 & Hi0 & -> & _). by apply Hx.
Qed.

Lemma sat_advance_round steps :
  Forall (fun p => p.2 <> PEcho /\ p.1 = prev_phase p.2) steps -> sat (advances target view) (advance_round again target view steps).
Proof.
  induction 1 as [|[from to] steps [? ?] _ IH]; [apply sat_ret, _|]. apply sat_bind; [apply _|by apply sat_advance_step|].
  intros [moved|]; [|apply sat_ret, _]. apply sat_bind; [apply _|apply IH|intros; apply sat_ret, _].
Qed.

Lemma sat_advance_pass : sat (advances target view) (advance_pass bincode_entry again target view).
Proof.
  apply sat_bind; [apply _|apply sat_advance_round; by repeat constructor|]. intros [progressed|]; [|apply sat_ret, _].
  apply sat_get_bind. intros x. destruct (phase_winner x target view PLock (dr_quorum x)) as [[w key]|] eqn:Hw; [|apply sat_ret, _].
  destruct (done_is_sent x target); [apply sat_ret, _|]. destruct (entry_of x target w) as [e|].
  - apply sat_at_bind; [apply _| |apply sat_ret, _]. apply sat_advances; [|apply done_same]. apply sat_at_done.
    intros -> past i L Hi Lv _. left. exists view. eapply many_impl; [by eapply phase_winner_heard|].
    intros k (key' & o & Hh & _). by exists key', o.
  - apply sat_at_bind; [apply _| |apply sat_ret, _]. apply sat_advances; [apply fetch_keeps|apply fetch_same].
Qed.

Lemma sat_advance_loop n : sat (advances target view) (advance_loop bincode_entry again n target view).
Proof.
  induction n as [|n IH]; [apply sat_ret, _|]. apply sat_bind; [apply _|apply sat_advance_pass|].
  intros [[]|]; [apply IH|apply sat_ret, _..].
Qed.
End again.

Lemma sat_advance_deep depth target view : sat (advances target view) (advance_deep bincode_entry depth target view).
Proof.
  induction depth as [|depth IH]; [apply sat_ret, _|]. apply sat_get_bind. intros x. destruct (_ || _); [apply sat_ret, _|].
  apply sat_at_bind; [apply _|by apply sat_advance_loop|]. apply sat_when; [apply _|]. intros x1.
  apply sat_advances; [apply sat_recheck_done|apply recheck_done_same].
Qed.

Lemma sat_advance depth target view : sat keeps (advance_deep bincode_entry depth target view).
Proof.
  intros x. destruct (negb (has_instance target x) || negb (current_of x target =? view)) eqn:Hb.
  - destruct depth as [|depth]; [apply sat_ret, _|]. apply sat_at_get_bind. rewrite Hb. apply sat_ret, _.
  - apply (sat_advance_deep depth target view x). intros i Hi. unfold current_of in Hb. rewrite Hi in Hb. lia.
Qed.

Lemma sat_advance_view target view : sat keeps (advance_view bincode_entry target view).
Proof. apply sat_advance. Qed.

(** ** Wishes and view entry *)

Lemma sat_raise_wish target view : sat keeps (raise_own_wish target view).
Proof.
  apply sat_get_bind. intros x. destruct (instances x !! target) as [i|]; [|apply sat_ret, _]. destruct (_ <=? _); [apply sat_ret, _|].
  apply sat_at_bind; [apply _|by apply sat_on_inst|]. apply sat_bind; [apply _|by apply sat_emit_silent|]. intros _.
  apply sat_when; [apply _|by apply sat_emit_silent].
Qed.

Lemma sat_enter_view target view : sat keeps (enter_view bincode_entry target view).
Proof.
  apply sat_get_bind. intros x. destruct (instances x !! target) as [i|] eqn:Hi; [|apply sat_ret, _].
  destruct (view <=? entered_through i) eqn:Hv; [apply sat_ret, _|]. cbn zeta.
  set (entry := if 0 <? key3_view i then _ else None).
  set (suggest := mkSuggest _ _ _ _ _ _ _ _ _). set (proof := mkProof _ _ _ _ _ _).
  set (tail := (match resolution_leader x target view with
         | Some leader => when (negb (leader =? dr_name x)) (emit (DSuggestTo leader suggest))
         | None => skip
         end);;
        try_primary_propose bincode_entry target view;;
        try_echo target view;;
        advance_view bincode_entry target view).
  assert (sat keeps tail) as Htail.
  { apply sat_bind; [apply _| |intros _; apply sat_bind; [apply _|apply sat_try_primary|intros _]].
    - destruct (resolution_leader x target view); [|apply sat_ret, _]. apply sat_when; [apply _|by apply sat_emit_silent].
    - apply sat_bind; [apply _|apply sat_try_echo|intros _; apply sat_advance_view]. }
  set (a1 := DArmTimer target view TkProposal (dr_clock x + proposal_timeout x)).
  set (a2 := DArmTimer target view TkView (dr_clock x + resolver_timeout x)).
  set (x' := x <| instances ::= alter (fun i => i <| entered_through := view |> <| current_view := view |>) target |>
    <| instances ::= alter (fun i => i <| di_views ::= partial_alter (fun o => Some ((default dvs_default o) <| suggestions ::= <[ dr_name x := suggest ]> |> <| proofs ::= <[ dr_name x := proof ]> |>)) view |>) target |>).
  assert (keeps x ([a1; a2] ++ [DBroadcastProof proof]) x') as Hstep.
  { apply (trace_trans (R := keeps)) with x.
    - apply keeps_aside; [done|done|]. intros past _. apply hush_quiet. repeat constructor; done.
    - destruct (decide (target = t)) as [->|Hne].
      + eapply (keeps_enter bincode_entry c sid me t said voted x i view _ <[ dr_name x := suggest ]>); [done|done|lia|].
        cbn. by rewrite !lookup_alter_eq, Hi.
      + apply keeps_aside; [done|cbn; by rewrite !lookup_alter_ne|].
        intros past _. apply hush_quiet, Forall_singleton. split; [by intros m [= <-]|done]. }
  change (keeps x (([a1; a2] ++ [DBroadcastProof proof]) ++ out (tail x')) (st (tail x'))).
  eapply trace_trans; [exact Hstep|apply Htail].
Qed.

Lemma sat_recheck_wishes target : sat keeps (recheck_wishes bincode_entry target).
Proof.
  apply sat_get_bind. intros x. destruct (has_instance target x); cbn [negb]; [|apply sat_ret, _].
  apply sat_at_bind; [apply _|apply sat_raise_wish|]. apply sat_get_bind. intros x1.
  destruct (instances x1 !! target) as [i|]; [|apply sat_ret, _]. cbn zeta. destruct (_ <? _); [apply sat_ret, _|].
  apply sat_for_each; [apply _|]. intros v. apply sat_enter_view.
Qed.

Lemma sat_on_timer target view kind : sat keeps (on_timer bincode_entry target view kind).
Proof.
  apply sat_get_bind. intros x. destruct (instances x !! target) as [i|]; [|apply sat_ret, _].
  assert (sat keeps (raise_own_wish target (u64_saturating_add view 1);; recheck_wishes bincode_entry target)) as Hw.
  { apply sat_bind; [apply _|apply sat_raise_wish|intros _; apply sat_recheck_wishes]. }
  destruct kind; (destruct (_ || _) || destruct (negb _)); try apply sat_ret, _; try (destruct (_ && _); [apply sat_ret, _|apply Hw]).
  apply sat_at_bind; [apply _|by apply sat_emit_silent|by apply sat_emit_silent].
Qed.

(** ** Phase messages *)

Lemma sat_retry_target target : sat keeps (retry_target bincode_entry target).
Proof.
  apply sat_get_bind. intros x. destruct (negb _); [apply sat_ret, _|]. cbn zeta.
  apply sat_at_bind; [apply _|apply sat_try_primary|]. apply sat_bind; [apply _|apply sat_try_echo|intros _].
  apply sat_bind; [apply _|apply sat_advance_view|intros _; apply sat_recheck_done].
Qed.

(** A change of a view's fields the invariant does not read. *)
Lemma calm_ext past v g s :
  (sent (g s), statements (g s), proofs (g s), backing_witnesses (g s), backing_sent (g s), proposal (g s), vote_status (g s), vote_origin (g s)) =
  (sent s, statements s, proofs s, backing_witnesses s, backing_sent s, proposal s, vote_status s, vote_origin s) ->
  calm bincode_entry c sid me t said voted past [] v g s.
Proof.
  intros [= E1 E2 E3 E4 E5 E6 E7 E8]. split; [|done]. rewrite app_nil_r.
  intros [B1 B2 B3 B4 B5 B6 B7 B8 B9]. split; rewrite ?E1, ?E2, ?E3, ?E4, ?E5, ?E6, ?E7, ?E8; done.
Qed.

Lemma sat_on_suggest g : sat keeps (on_suggest bincode_entry g).
Proof.
  apply sat_get_bind. intros x. cbn zeta. destruct (_ || negb (has_instance _ _)); [apply sat_ret, _|].
  destruct (negb (admits_phase_view x (sg_target g) (sg_view g)) || _) eqn:Ha; [apply sat_ret, _|].
  destruct (match view_of _ _ _ with Some _ => _ | None => _ end); [apply sat_ret, _|].
  apply sat_at_then; [apply _| |].
  - destruct (sg_key3_view g =? 0); [apply sat_ret, _|]. destruct (sg_entry g); [|apply sat_ret, _].
    apply sat_at_bind; [apply _|apply sat_remember|apply sat_ret, _].
  - intros named x1. destruct named; cbn [negb]; [|apply sat_ret, _]. apply sat_at_bind; [apply _| |apply sat_try_primary]. apply sat_at_entry. intros _. split.
    + by eapply admitted_pos.
    + intros past i _ _. by apply calm_ext.
Qed.

Lemma is_member_members x k : is_member x k = true -> k ∈ members (dr_committee x).
Proof.
  unfold is_member, stake, members. rewrite elem_of_dom. destruct (authorities (dr_committee x) !! k); [by eexists|done].
Qed.

Lemma sat_on_proof p : pr_sender p <> me -> said (pr_sender p) (MProof p) -> sat keeps (on_proof p).
Proof.
  intros Hme Hsaid. apply sat_get_bind. intros x. cbn zeta. destruct (_ || negb (has_instance _ _)) eqn:Hg; [apply sat_ret, _|].
  destruct (negb (admits_phase_view x (pr_target p) (pr_view p)) || _) eqn:Ha; [apply sat_ret, _|].
  assert (0 < pr_view p) as Hpos by by eapply admitted_pos.
  apply sat_at_bind; [apply _| |].
  - apply sat_at_entry. intros _. split; [done|]. intros past i _ _. by apply calm_ext.
  - destruct (match view_of _ _ _ with Some _ => _ | None => _ end); [apply sat_ret, _|].
    apply sat_at_bind; [apply _| |apply sat_try_echo]. apply sat_at_alter; [intros; apply quiet_nil|].
    intros Ht past i s L Hi Hs. split; [|done]. rewrite app_nil_r. intros [B1 B2 B3 B4 B5 B6 B7 B8 B9]. split; try done; cbn.
    intros k q. destruct (decide (k = pr_sender p)) as [->|]; [rewrite lookup_insert_eq|rewrite lookup_insert_ne by done; apply B4].
    intros [= <-]. split_and!; [|done|done|done|by right].
    destruct (config _ _ L) as (_ & _ & _ & _ & <-). apply (is_member_members x).
    by destruct (is_member x (pr_sender p)).
Qed.

Lemma sat_at_note_witness x w :
  wi_sender w <> me -> said (wi_sender w) (MWitness (wi_target w) (wi_view w) (wi_value w) (wi_sender w)) ->
  is_member x (wi_sender w) = true -> 0 < wi_view w ->
  sat_at keeps (on_view_entry (wi_target w) (wi_view w) (fun s => s <| backing_witnesses ::= <[ wi_sender w := wi_value w ]> |>)) x.
Proof.
  intros Hme Hsaid Hmem Hpos. apply sat_at_entry. intros Ht. split; [done|]. intros past i L Hi. split; [|done]. rewrite app_nil_r.
  intros [B1 B2 B3 B4 B5 B6 B7 B8 B9]. split; try done; cbn.
  intros k y. destruct (decide (k = wi_sender w)) as [->|]; [rewrite lookup_insert_eq|rewrite lookup_insert_ne by done; apply B5].
  intros [= <-]. split; [|right; rewrite <- Ht; done]. destruct (config _ _ L) as (_ & _ & _ & _ & <-). by apply is_member_members.
Qed.

Lemma remember_committee target entry x : dr_committee (st (remember_entry bincode_entry target entry x)) = dr_committee x.
Proof. unfold remember_entry. rewrite get_bind. by destruct (valid_entry x target entry). Qed.

Lemma sat_recheck_backing_now target view :
  sat keeps (recheck_backing (advance_view bincode_entry target view) target view).
Proof.
  apply sat_get_bind. intros x. apply sat_at_then; [apply _| |].
  - destruct (backing_winner x _ _ _) as [y|] eqn:Hy; [by apply sat_at_backing|apply sat_ret, _].
  - intros _. apply sat_bind; [apply _|apply sat_get, _|]. intros x3. apply sat_when; [apply _|apply sat_advance_view].
Qed.

Lemma sat_on_witness w : wi_sender w <> me -> said (wi_sender w) (MWitness (wi_target w) (wi_view w) (wi_value w) (wi_sender w)) ->
  sat keeps (on_witness bincode_entry w).
Proof.
  intros Hme Hsaid. apply sat_get_bind. intros x. cbn zeta. destruct (_ || negb (has_instance _ _)) eqn:Hg; [apply sat_ret, _|].
  destruct (admits_phase_view x (wi_target w) (wi_view w)) eqn:Ha; cbn [negb]; [|apply sat_ret, _].
  destruct (match view_of _ _ _ with Some _ => _ | None => _ end); [apply sat_ret, _|].
  apply sat_at_bind; [apply _|apply sat_remember|]. destruct (val _); [|apply sat_ret, _].
  apply sat_at_then; [apply _| |].
  - apply sat_at_note_witness; [done|done| |apply (admitted_pos x (wi_target w) _ false); by rewrite Ha].
    unfold is_member. rewrite remember_committee. change (is_member x (wi_sender w) = true). by destruct (is_member x (wi_sender w)).
  - intros _. apply sat_bind; [apply _|apply sat_recheck_backing_now|intros _; apply sat_retry_target].
Qed.

(** Answering a question asked about the proposal. *)
Lemma sat_at_answer x target view s p st' o :
  view_of x target view = Some s -> vote_status s <> VsUnknown -> proposal s = Some p ->
  (target = t -> st' = VsAccepted -> voted view (dp_value p) o) ->
  sat_at keeps (on_view target view (fun s => s <| vote_status := st' |> <| vote_origin := o |>)) x.
Proof.
  intros Hs Hst Hp Hacc. apply sat_at_alter; [intros; apply quiet_nil|]. intros Ht past i s' L Hi Hs'.
  assert (s' = s) as ->. { unfold view_of in Hs. rewrite Ht, Hi in Hs. cbn in Hs. congruence. }
  split; [|done]. rewrite app_nil_r. intros [B1 B2 B3 B4 B5 B6 B7 B8 B9]. split; try done; cbn.
  - intros _. by apply B8.
  - intros p' Hv' Hp'. assert (p' = p) as -> by congruence. by apply Hacc.
Qed.

Lemma sat_at_reject x target view s p st' :
  view_of x target view = Some s -> vote_status s <> VsUnknown -> proposal s = Some p -> st' <> VsAccepted ->
  sat_at keeps (on_view target view (fun s => s <| vote_status := st' |>)) x.
Proof.
  intros Hs Hst Hp Hacc. apply sat_at_alter; [intros; apply quiet_nil|]. intros Ht past i s' L Hi Hs'.
  assert (s' = s) as ->. { unfold view_of in Hs. rewrite Ht, Hi in Hs. cbn in Hs. congruence. }
  split; [|done]. rewrite app_nil_r. intros [B1 B2 B3 B4 B5 B6 B7 B8 B9]. split; try done; cbn.
  intros _. by apply B8.
Qed.

Lemma sat_on_vote target view value vote :
  (target = t -> forall origin, vote = Accept origin -> voted view value origin) -> sat keeps (on_vote bincode_entry target view value vote).
Proof.
  intros Hvote. apply sat_get_bind. intros x. destruct (view_of x target view) as [s|] eqn:Hs; [|apply sat_ret, _]. cbn zeta.
  destruct (_ || _) eqn:Hg; [apply sat_ret, _|].
  assert (vote_status s = VsRequested /\ exists p, proposal s = Some p /\ dp_value p = value) as (Hst & p & Hp & Hpv).
  { apply orb_false_iff in Hg as [H1%negb_false_iff%bool_decide_eq_true H2%negb_false_iff]. split; [done|].
    destruct (proposal s) as [p|]; [|done]. exists p. split; [done|lia]. }
  assert (vote_status s <> VsUnknown) as Hu by by rewrite Hst.
  destruct vote as [perm|o]; [eapply sat_at_reject; [done..|by destruct perm]|].
  destruct (match o with Some bit => 1 <? bit | None => false end); [by eapply sat_at_reject|].
  apply sat_at_bind; [apply _|eapply sat_at_answer; [done..|]|].
  - intros Ht _. rewrite Hpv. by apply Hvote.
  - apply sat_bind; [apply _|apply sat_try_echo|intros _; apply sat_advance_view].
Qed.

Lemma sat_retry_validity : sat keeps retry_external_validity.
Proof.
  apply sat_get_bind. intros x. cbn zeta. apply sat_at_then; [apply _| |].
  - apply sat_for_each; [apply _|]. intros [target view]. cbn. intros x1. apply sat_at_alter; [intros; apply quiet_nil|].
    intros Ht past i s L Hi Hs. split; [|done]. rewrite app_nil_r. intros [B1 B2 B3 B4 B5 B6 B7 B8 B9]. by split.
  - intros _. apply sat_for_each; [apply _|]. intros [target view]. apply sat_try_echo.
Qed.

Lemma sat_at_open_phase x m : 0 < ds_view m ->
  sat_at keeps (on_view_entry (ds_target m) (ds_view m) (fun s => s <| statements ::= fun m' => <[ ds_phase m := default ∅ (m' !! ds_phase m) ]> m' |>)) x.
Proof.
  intros Hpos. apply sat_at_entry. intros _. split; [done|]. intros past i _ _. split; [|done]. rewrite app_nil_r.
  intros [B1 B2 B3 B4 B5 B6 B7 B8 B9]. split; try done; cbn. intros ph k r.
  destruct (decide (ph = ds_phase m)) as [->|]; [rewrite lookup_insert_eq|rewrite lookup_insert_ne by done; apply B3].
  intros Hr. apply B3. by destruct (statements _ !! ds_phase m).
Qed.

Lemma sat_at_note_statement x m : ds_sender m <> me -> said (ds_sender m) (MStatement m) -> is_member x (ds_sender m) = true ->
  sat_at keeps (on_view (ds_target m) (ds_view m) (fun s => s <| statements ::= fun m' =>
    <[ ds_phase m := <[ ds_sender m := mkStatementRecord (ds_value m) (ds_proposal_key_view m) (ds_origin m) ]>
         (default ∅ (m' !! ds_phase m)) ]> m' |>)) x.
Proof.
  intros Hme Hsaid Hmem. apply sat_at_alter; [intros; apply quiet_nil|]. intros Ht past i s L Hi Hs. split; [|done]. rewrite app_nil_r.
  intros [B1 B2 B3 B4 B5 B6 B7 B8 B9]. split; try done; cbn. intros ph k r.
  destruct (decide (ph = ds_phase m)) as [->|]; [rewrite lookup_insert_eq|rewrite lookup_insert_ne by done; apply B3]. cbn.
  destruct (decide (k = ds_sender m)) as [->|]; [rewrite lookup_insert_eq|rewrite lookup_insert_ne by done].
  - intros [= <-]. cbn. split; [|right; split; [done|]; rewrite <- Ht; by destruct m].
    destruct (config _ _ L) as (_ & _ & _ & _ & <-). by apply is_member_members.
  - intros Hr. apply B3. by destruct (statements s !! ds_phase m).
Qed.

Lemma sat_on_statement m : ds_sender m <> me -> said (ds_sender m) (MStatement m) -> sat keeps (on_statement bincode_entry m).
Proof.
  intros Hme Hsaid. apply sat_get_bind. intros x. cbn zeta. destruct (_ || negb (has_instance _ _)) eqn:Hg; [apply sat_ret, _|].
  destruct (admits_phase_view x (ds_target m) (ds_view m)) eqn:Ha; cbn [negb]; [|apply sat_ret, _].
  apply sat_at_bind; [apply _|apply sat_at_open_phase; apply (admitted_pos x (ds_target m) _ false); by rewrite Ha|].
  destruct (match view_of _ _ _ with Some _ => _ | None => _ end); [apply sat_ret, _|].
  apply sat_at_then; [apply _|apply sat_at_note_statement; [done|done|]|].
  - change (is_member x (ds_sender m) = true). by destruct (is_member x (ds_sender m)).
  - intros _. apply sat_bind; [apply _|apply sat_try_primary|intros _]. apply sat_bind; [apply _|apply sat_try_echo|intros _].
    apply sat_when; [apply _|apply sat_advance_view].
Qed.

Lemma sat_on_done d : dd_sender d <> me -> said (dd_sender d) (MDone (dd_target d) (dd_value d) (dd_sender d)) ->
  sat keeps (on_done bincode_entry d).
Proof.
  intros Hme Hsaid. apply sat_get_bind. intros x. cbn zeta. destruct (_ || _) eqn:Hg; [apply sat_ret, _|].
  destruct (is_decided _ x); [apply sat_ret, _|]. destruct (instances x !! dd_target d) as [i|]; [|apply sat_ret, _].
  case_bool_decide; [apply sat_ret, _|]. apply sat_at_bind; [apply _|apply sat_remember|]. set (x1 := st _).
  assert (dr_committee x1 = dr_committee x) as Hc1.
  { unfold x1, remember_entry. rewrite get_bind. by destruct (valid_entry x (dd_target d) (dd_entry d)). }
  apply sat_at_bind; [apply _| |apply sat_recheck_done]. apply keeps_quiet; [done|intros; apply quiet_nil| |].
  - intros past i'. cbn. destruct (decide (dd_target d = t)) as [Ht|]; [rewrite Ht|rewrite lookup_alter_ne by done].
    + rewrite lookup_alter_eq. intros L (i0 & Hi & ->)%fmap_Some. exists i0. split; [done|]. rewrite app_nil_r.
      intros [B1 B2 B3 B4 B5 B6 B7 B8 B9]. split; try done; cbn. intros k w.
      destruct (decide (k = dd_sender d)) as [->|]; [rewrite lookup_insert_eq|rewrite lookup_insert_ne by done; apply B5].
      intros [= <-]. split; [|right; rewrite <- Ht; done]. destruct (config _ _ L) as (_ & _ & _ & _ & <-). rewrite Hc1.
      apply is_member_members. by destruct (is_member x (dd_sender d)).
    + intros L Hi. exists i'. by rewrite app_nil_r.
  - cbn. destruct (decide (dd_target d = t)) as [->|]; [rewrite lookup_alter_eq|by rewrite lookup_alter_ne by done].
    by intros ?%fmap_None.
Qed.

Lemma sat_on_value_fetch f : sat keeps (on_value_fetch f).
Proof.
  apply sat_get_bind. intros x. cbn zeta. destruct (_ || _); [apply sat_ret, _|]. destruct (entry_of _ _ _); [|apply sat_ret, _].
  destruct (set_has _ _ _); [apply sat_ret, _|]. apply sat_at_bind; [apply _|by apply sat_modify|by apply sat_emit_silent].
Qed.

Lemma sat_on_value_serve v : sat keeps (on_value_serve bincode_entry v).
Proof.
  apply sat_get_bind. intros x. cbn zeta. destruct (_ || _); [apply sat_ret, _|]. apply sat_at_bind; [apply _|by apply sat_modify|].
  apply sat_bind; [apply _|apply sat_remember|intros _; apply sat_retry_target].
Qed.

(** ** What the caller drives *)

Lemma sat_remember_all target entries : sat keeps (remember_all bincode_entry target entries).
Proof.
  induction entries as [|e entries IH]; [apply sat_ret, _|]. apply sat_get_bind. intros x. destruct (negb _); [apply IH|].
  apply sat_at_then; [apply _|apply sat_remember|intros _]. apply sat_bind; [apply _|apply IH|intros; apply sat_ret, _].
Qed.

(** A created instance. *)
Lemma sat_at_create x target i' x' :
  frame x x' -> is_decided target x = false -> (target <? retained_floor x) = false ->
  (forall u, u <> target -> instances x' !! u = instances x !! u) -> instances x' !! target = Some i' ->
  (instances x !! target = None -> icore i' = icore instance_new /\ di_views i' = ∅) ->
  (forall i, instances x !! target = Some i -> icore i' = icore i /\ di_views i' = di_views i) ->
  keeps x [] x'.
Proof.
  intros Hf Hd Hfl Ho Hi' Hnew Hold. destruct (decide (target = t)) as [->|Hne]; [|apply keeps_aside; [done|by apply Ho|intros; apply quiet_nil]].
  destruct (instances x !! t) as [i|] eqn:Hi.
  - destruct (Hold i eq_refl) as [E1 E2]. apply keeps_quiet; [done|intros; apply quiet_nil| |by rewrite Hi'].
    rewrite Hi'. intros past ? L [= <-]. exists i. split; [done|]. intros Lv.
    eapply live_views; [apply quiet_nil|done|done| |by rewrite E2]. rewrite E2. intros v s' Hs'. split; [|naive_solver].
    apply vlive_app. by eapply lv_views.
  - destruct (Hnew eq_refl) as [E1 E2]. unfold is_decided in Hd. apply bool_decide_eq_false, eq_None_not_Some in Hd.
    eapply keeps_create; [done|done|done|lia|done|done|done].
Qed.

Definition values_only x (es : list DirectResolutionEffect) x' : Prop := x' = x <| dr_values := dr_values x' |>.

#[export] Instance values_only_trace : TraceRel values_only.
Proof.
  split; [by intros []|]. unfold values_only. intros x1 x2 x3 _ _ H1 H2. rewrite H2, H1. by destruct x1.
Qed.

Lemma remember_all_st target entries : sat values_only (remember_all bincode_entry target entries).
Proof.
  induction entries as [|e entries IH]; [apply sat_ret, _|]. apply sat_get_bind. intros x. destruct (negb _); [apply IH|].
  apply sat_at_then; [apply _| |intros _; apply sat_bind; [apply _|apply IH|intros; apply sat_ret, _]].
  apply sat_get_bind. intros x1. destruct (negb _); [apply sat_ret, _|]. apply sat_at_bind; [apply _| |apply sat_ret, _]. done.
Qed.

(** The instance with the candidates. *)
Lemma sat_at_add x target accepted :
  is_decided target x = false -> (target <? retained_floor x) = false ->
  sat_at keeps (modify (fun x => x <| instances ::= partial_alter (fun o =>
          Some ((default instance_new o) <| wishes ::= merge_wishes (default ∅ (passive_wishes x !! target)) |>
            <| candidates ::= add_candidates bincode_payload accepted |>)) target |>
        <| passive_wishes ::= delete target |>)) x.
Proof.
  intros Hd Hf. eapply (sat_at_create _ target); [done|exact Hd|exact Hf| | | |].
  - intros u Hu. cbn. by rewrite lookup_partial_alter_ne.
  - cbn. by rewrite lookup_partial_alter_eq.
  - intros Hi. cbn in *. by rewrite Hi.
  - intros i Hi. cbn in *. by rewrite Hi.
Qed.

Lemma remember_all_floor target entries x :
  is_decided target (st (remember_all bincode_entry target entries x)) = is_decided target x /\
  retained_floor (st (remember_all bincode_entry target entries x)) = retained_floor x.
Proof. by rewrite (remember_all_st target entries x). Qed.

Lemma sat_update_candidates target entries : sat keeps (update_candidates bincode_entry bincode_payload target entries).
Proof.
  apply sat_get_bind. intros x. destruct (_ || _) eqn:Hg; [apply sat_ret, _|]. apply sat_at_bind; [apply _|by apply sat_modify|].
  apply sat_at_bind; [apply _|apply sat_remember_all|]. case_bool_decide; [apply sat_ret, _|].
  apply sat_at_then; [apply _|apply sat_at_add|].
  - rewrite (proj1 (remember_all_floor _ _ _)). change (is_decided target x = false).
    destruct (is_decided target x); [by rewrite orb_true_r in Hg|done].
  - rewrite (proj2 (remember_all_floor _ _ _)). change ((target <? retained_floor x) = false). lia.
  - intros _. apply sat_bind; [apply _|apply sat_raise_wish|intros _]. apply sat_bind; [apply _|apply sat_recheck_wishes|intros _].
    apply sat_get_bind. intros x2. apply sat_try_primary.
Qed.

Lemma sat_bar target : sat keeps (bar_full_selection target).
Proof. apply sat_modify. intros x. by destruct (_ || _). Qed.

(** A new instance that knows wishes. *)
Lemma sat_at_insert x target f pending :
  frame x (f x) -> instances (f x) = <[ target := instance_new <| wishes := pending |> ]> (instances x) ->
  is_decided target x = false -> (target <? retained_floor x) = false -> instances x !! target = None ->
  sat_at keeps (modify f) x.
Proof.
  intros Hfr Hf Hd Hfl Hi. eapply (sat_at_create _ target); [exact Hfr|exact Hd|exact Hfl| | | |]; cbn; rewrite ?Hf.
  - intros u Hu. by rewrite lookup_insert_ne.
  - by rewrite lookup_insert_eq.
  - done.
  - intros i ?. congruence.
Qed.

Lemma sat_activate_target target : sat keeps (activate_with_local_terminal bincode_entry target).
Proof.
  apply sat_get_bind. intros x. destruct (_ || _) eqn:Hg; [apply sat_ret, _|].
  apply orb_false_iff in Hg as [[Hg Hd]%orb_false_iff Hi]. apply orb_false_iff in Hg as [_ Hf].
  apply bool_decide_eq_false, eq_None_not_Some in Hi. apply sat_at_then; [apply _|by eapply sat_at_insert|].
  intros _. apply sat_bind; [apply _|apply sat_raise_wish|intros _; apply sat_recheck_wishes].
Qed.

Lemma sat_admit through : sat keeps (admit_targets_through through).
Proof. by apply sat_modify. Qed.

End runs.

(** ** All targets together

    A replay sends stored messages, of whichever target they are. *)

Section all.
Context {Hash : Hashing} {fuel : Fuel} (bincode_entry : ResolutionEntry -> list Z) (bincode_payload : Manifest -> Manifest -> list Z).
Context (c : Committee) (sid : Digest) (me : PublicKey) (said : PublicKey -> DMsg -> Prop)
  (voted : View -> DirectResolverView -> Digest -> option Z -> Prop).
Abbreviation DM := (M DirectResolutionEffect DirectResolver) (only parsing).
Abbreviation linv t := (linv bincode_entry c sid me t said (voted t)).
Abbreviation keeps t := (keeps bincode_entry c sid me t said (voted t)).

Definition linv_all (past : list DirectResolutionEffect) (x : DirectResolver) : Prop := forall t, linv t past x.

(** [K] are messages known to be sent already. *)
Definition kept_given (K : DMsg -> Prop) x es x' : Prop :=
  forall past, (forall m, K m -> spoke past m) -> linv_all past x -> linv_all (past ++ es) x' /\ forall t, frozen me t past es.
Definition kept := kept_given (fun _ => False).

#[export] Instance kept_given_trace K : TraceRel (kept_given K).
Proof.
  split.
  - intros x past _ H. rewrite app_nil_r. split; [done|]. intros t. apply frozen_nil.
  - intros x1 x2 x3 es1 es2 H1 H2 past HK L. destruct (H1 past HK L) as [L1 F1]. destruct (H2 (past ++ es1)) as [L2 F2]; [|done|].
    { intros m Hm. apply spoke_app. left. by apply HK. }
    rewrite (assoc_L (++)). split; [done|]. intros t. by apply frozen_app.
Qed.

#[export] Instance kept_trace : TraceRel kept.
Proof. apply kept_given_trace. Qed.

Lemma sat_at_all {A} K (m : DM A) x : (forall t, sat_at (keeps t) m x) -> sat_at (kept_given K) m x.
Proof. intros H past _ L. split; intros t; by apply (H t past). Qed.

Lemma sat_all {A} K (m : DM A) : (forall t, sat (keeps t) m) -> sat (kept_given K) m.
Proof. intros H x. apply sat_at_all. intros t. apply H. Qed.

(** The messages a state shows to have been sent. *)
Definition known x (m : DMsg) : Prop := forall past, linv_all past x -> spoke past m.

Lemma sat_at_known {A} (m : DM A) x : sat_at (kept_given (known x)) m x -> sat_at kept m x.
Proof. intros H past _ L. apply (H past); [|done]. intros msg Hm. by apply Hm. Qed.

Lemma emit_given K e : (forall m, msg_of e = Some m -> K m) -> (forall d, e <> DDecide d) -> sat (kept_given K) (emit e).
Proof.
  intros Hm Hd x past HK L. assert (forall t, quiet t past [e]) as Hq.
  { intros t. split; [intros m _ H%spoke_one; by apply HK, Hm|]. intros d H%list_elem_of_singleton. by destruct (Hd d). }
  split; intros t; [|by apply quiet_frozen].
  refine (linv_frame bincode_entry c sid me t said (voted t) past [e] x x (L t) _ _ _ _); [done| | |done].
  - apply hist_quiet; [done|apply L].
  - intros i Hi. split; [by exists i|]. apply live_quiet; [done|]. by apply (li_live _ _ _ _ _ _ _ _ _ (L t) i Hi).
Qed.

Lemma replay_item_given K target requester view kind effect :
  (forall e, effect = Some e -> (forall m, msg_of e = Some m -> K m) /\ (forall d, e <> DDecide d)) ->
  sat (kept_given K) (replay_item target requester view kind effect).
Proof.
  intros He. destruct effect as [e|]; [|apply sat_ret, _]. destruct (He e eq_refl). apply sat_get_bind. intros x.
  destruct (view_of x target view); [|apply sat_ret, _]. case_bool_decide; [apply sat_ret, _|].
  apply sat_at_then; [apply _| |intros _; by apply emit_given]. apply sat_at_all. intros t.
  apply sat_on_view. intros _ past s. by apply calm_ext.
Qed.

Lemma sat_replay_view target requester view : sat kept (replay_view target requester view).
Proof.
  apply sat_get_bind. intros x. apply sat_at_known. destruct (view_of x target view) as [s|] eqn:Hs; [|apply sat_ret, _].
  assert (forall past, linv_all past x -> dr_name x = me /\ vlive bincode_entry c sid me target said (voted target) past view s) as Hl.
  { intros past L. specialize (L target). split; [apply L|]. unfold view_of in Hs. destruct (instances x !! target) as [i|] eqn:Hi; [|done].
    eapply lv_views; [|exact Hs]. by apply (li_live _ _ _ _ _ _ _ _ _ L i Hi). }
  assert (forall k m, k = dr_name x -> (forall past, vlive bincode_entry c sid me target said (voted target) past view s -> heard me said past k m) -> known x m) as Hk.
  { intros k m -> Hm past L. destruct (Hl past L) as [Hme Ls]. destruct (Hm past Ls) as [[_ ?]|[? _]]; [done|congruence]. }
  apply sat_at_then; [apply _| |intros _].
  { apply sat_when; [apply _|]. apply replay_item_given. intros e He. destruct (suggestions s !! dr_name x); cbn in He; [|done]. by injection He as <-. }
  apply sat_bind; [apply _| |intros _].
  { apply replay_item_given. intros e He. destruct (proofs s !! dr_name x) as [p|] eqn:Hp; cbn in He; [|done]. injection He as <-. split; [|done].
    intros m [= <-]. apply (Hk _ _ eq_refl). intros past Ls. by apply (vl_proofs _ _ _ _ _ _ _ _ _ _ Ls _ _ Hp). }
  apply sat_bind; [apply _| |intros _].
  { apply replay_item_given. intros e He. destruct (proposal s) as [p|]; cbn in He; [|done]. destruct (dp_sender p =? dr_name x); cbn in He; [|done].
    by injection He as <-. }
  apply sat_bind; [apply _| |intros _].
  { apply sat_for_each; [apply _|]. intros ph. apply replay_item_given. intros e He. unfold replay_statement in He.
    destruct (statements s !! ph ≫= lookup (dr_name x)) as [r|] eqn:Hr; cbn in He; [|done]. injection He as <-. split; [|done].
    intros m [= <-]. apply (Hk _ _ eq_refl). intros past Ls. by apply (vl_records _ _ _ _ _ _ _ _ _ _ Ls _ _ _ Hr). }
  destruct (backing_sent s) as [w|] eqn:Hw; [|apply sat_ret, _]. destruct (entry_of x target w).
  - apply replay_item_given. intros e [= <-]. split; [|done]. intros m [= <-] past L. destruct (Hl past L) as [-> Ls]. by eapply vl_backing.
  - apply sat_when; [apply _|]. apply sat_all. intros t. apply sat_panic.
Qed.

Lemma sat_replay_done target requester : sat kept (replay_done target requester).
Proof.
  apply sat_get_bind. intros x. apply sat_at_known. destruct (instances x !! target ≫= done_sent) as [w|] eqn:Hw; [|apply sat_ret, _].
  destruct (set_has _ _ _); [apply sat_ret, _|]. apply sat_at_then; [apply _|apply sat_all; intros t; by apply sat_modify|intros _].
  destruct (entry_of x target w); [|apply sat_all; intros t; apply sat_panic]. apply emit_given; [|done]. intros m [= <-] past L. cbn.
  specialize (L target). destruct (instances x !! target) as [i|] eqn:Hi; [|done]. cbn in Hw. replace (dr_name x) with me by (symmetry; apply L).
  by apply (lv_done_sent _ _ _ _ _ _ _ _ _ (proj1 (li_live _ _ _ _ _ _ _ _ _ L i Hi))).
Qed.

Lemma sat_replay_progress target requester through : sat kept (replay_progress_to target requester through).
Proof.
  apply sat_get_bind. intros x. apply sat_at_then; [apply _| |intros _].
  - destruct (instances x !! target) as [i|]; [|apply sat_ret, _]. destruct (_ <=? _).
    + apply sat_all. intros t. by apply sat_on_inst.
    + apply sat_at_then; [apply _|apply sat_all; intros t; by apply sat_on_inst|intros _]. apply sat_all. intros t. by apply sat_emit_silent.
  - apply sat_bind; [apply _|apply sat_get, _|intros x1]. apply sat_bind; [apply _| |intros _; apply sat_replay_done].
    destruct (instances x1 !! target); [|apply sat_ret, _]. apply sat_for_each; [apply _|]. intros v. apply sat_replay_view.
Qed.

Lemma sat_on_wish w : sat kept (on_wish bincode_entry w).
Proof.
  apply sat_get_bind. intros x. cbn zeta. destruct (_ || _); [apply sat_ret, _|]. destruct (decisions x !! dw_target w) as [[value entry]|] eqn:Hd.
  - destruct (set_has _ _ _); [apply sat_ret, _|]. apply sat_at_all. intros t. unfold sat_at. rewrite bind_run. cbn [out st val emit modify app].
    destruct (decide (dw_target w = t)) as [<-|Hne].
    + eapply keeps_done_again; [done|done|exact Hd].
    + apply keeps_aside; [done|done|]. intros past _. apply hush_quiet, Forall_singleton. split; [by intros m [= <-]|done].
  - assert (is_decided (dw_target w) x = false) as Hdec by (unfold is_decided; by rewrite Hd, bool_decide_false by (by intros [])).
    destruct (instances x !! dw_target w) as [i|] eqn:Hi.
    + destruct (_ <=? _); [apply sat_all; intros t; by apply sat_on_inst|].
      apply sat_at_then; [apply _|apply sat_all; intros t; by apply sat_on_inst|intros _].
      apply sat_bind; [apply _|apply sat_all; intros t; apply sat_recheck_wishes|intros _; apply sat_replay_progress].
    + destruct (_ || _) eqn:Hf; [apply sat_ret, _|]. apply orb_false_iff in Hf as [Hf _]. cbn zeta.
      match goal with |- context [if ?b then _ else _] => destruct b end; [apply sat_all; intros t; by apply sat_modify|].
      match goal with |- context [if ?b then _ else _] => destruct b end; [apply sat_all; intros t; by apply sat_modify|].
      apply sat_at_then; [apply _|apply sat_at_all; intros t; by eapply sat_at_insert|intros _].
      apply sat_bind; [apply _|apply sat_all; intros t; apply sat_recheck_wishes|intros _; apply sat_replay_progress].
Qed.

(** ** Inputs *)

Inductive DirectEvent :=
| EvCandidates (target : View) (entries : list ResolutionEntry)
| EvBar (target : View)
| EvTerminal (target : View)
| EvAdmit (through : View)
| EvGc (floor : View)
| EvClock (now : Instant)
| EvTimer (target : View) (view : DirectResolverView) (kind : DirectResolutionTimerKind)
| EvVote (target : View) (view : DirectResolverView) (value : Digest) (vote : DirectResolutionVote)
| EvRetry
| EvWish (w : DirectResolutionWish)
| EvSuggest (g : DirectResolutionSuggest)
| EvProof (p : DirectResolutionProof)
| EvWitness (w : DirectResolutionWitness)
| EvProposal (p : DirectResolutionProposal)
| EvStatement (m : DirectResolutionStatement)
| EvDone (d : DirectResolutionDone)
| EvValueFetch (f : DirectResolutionValueFetch)
| EvValueServe (v : DirectResolutionValueServe).

Definition direct_run (ev : DirectEvent) : DM () :=
  match ev with
  | EvCandidates target entries => update_candidates bincode_entry bincode_payload target entries
  | EvBar target => bar_full_selection target
  | EvTerminal target => activate_with_local_terminal bincode_entry target
  | EvAdmit through => admit_targets_through through
  | EvGc floor => dr_gc_below floor
  | EvClock now => modify (fun x => x <| dr_clock := now |>)
  | EvTimer target view kind => on_timer bincode_entry target view kind
  | EvVote target view value vote => on_vote bincode_entry target view value vote
  | EvRetry => retry_external_validity
  | EvWish w => on_wish bincode_entry w
  | EvSuggest g => on_suggest bincode_entry g
  | EvProof p => on_proof p
  | EvWitness w => on_witness bincode_entry w
  | EvProposal p => on_proposal bincode_entry p
  | EvStatement m => on_statement bincode_entry m
  | EvDone d => on_done bincode_entry d
  | EvValueFetch f => on_value_fetch f
  | EvValueServe v => on_value_serve bincode_entry v
  end.

(** The message an input delivers, and its sender. *)
Definition delivered (ev : DirectEvent) : option (PublicKey * DMsg) :=
  match ev with
  | EvProof p => Some (pr_sender p, MProof p)
  | EvWitness w => Some (wi_sender w, MWitness (wi_target w) (wi_view w) (wi_value w) (wi_sender w))
  | EvStatement m => Some (ds_sender m, MStatement m)
  | EvDone d => Some (dd_sender d, MDone (dd_target d) (dd_value d) (dd_sender d))
  | _ => None
  end.

(** Messages come from others who sent them; a proposal's key view is unsigned; the answers are recorded. *)
Definition ev_ok (ev : DirectEvent) : Prop :=
  (forall k m, delivered ev = Some (k, m) -> k <> me /\ said k m) /\
  match ev with
  | EvProposal p => 0 <= dp_key_view p
  | EvVote target view value (Accept origin) => voted target view value origin
  | _ => True
  end.

Lemma direct_step ev : ev_ok ev -> sat kept (direct_run ev).
Proof.
  intros [Hd He]. destruct ev; cbn in *; lazymatch goal with |- sat _ (on_wish _ _) => apply sat_on_wish | _ => apply sat_all; intros t end.
  - apply sat_update_candidates.
  - apply sat_bar.
  - apply sat_activate_target.
  - apply sat_admit.
  - apply sat_gc.
  - by apply sat_modify.
  - apply sat_on_timer.
  - apply sat_on_vote. intros <- origin ->. done.
  - apply sat_retry_validity.
  - apply sat_on_suggest.
  - destruct (Hd _ _ eq_refl). by apply sat_on_proof.
  - destruct (Hd _ _ eq_refl). by apply sat_on_witness.
  - by apply sat_on_proposal.
  - destruct (Hd _ _ eq_refl). by apply sat_on_statement.
  - destruct (Hd _ _ eq_refl). by apply sat_on_done.
  - apply sat_on_value_fetch.
  - apply sat_on_value_serve.
Qed.

Lemma linv_new delta : me ∈ members c -> linv_all [] (resolver_new me c sid delta).
Proof.
  intros Hme t. split; try done.
  - split; intros; exfalso; repeat match goal with
    | H : own _ _ [] _ _ _ |- _ => by apply own_nil in H
    | H : spoke [] _ |- _ => by apply spoke_nil in H
    | H : own_done _ _ [] _ |- _ => by apply spoke_nil in H
    | H : own_witness _ _ [] _ _ |- _ => by apply spoke_nil in H
    | H : _ ∈ [] |- _ => by apply not_elem_of_nil in H
    end.
  - intros _. left. split_and!; [intros ph v w H; by apply own_nil in H|intros w H|intros v w H|intros p H]; by apply spoke_nil in H.
Qed.
End all.
