(* ===== verification/DirectNetwork.v ===== *)
(** Agreement and external validity of the resolvers of a committee.

    One resolver per correct party; the other parties, at most [f] of them, may say anything.
    Messages between correct parties may be delayed, reordered, duplicated or lost, but not
    forged.  Correct parties never decide a target with different entries, and what
    they decide was accepted, when it was first proposed, by parties of which at least
    [f + 1] are correct. *)

From S2P Require Import Prelude Committee Types Formed ResolutionEvidence Direct DirectInv DirectSteps DirectRuns Fixtures.

Lemma finite_or {A} `{Countable A} (P Q : A -> Prop) (X : gset A) :
  (forall x, x ∈ X -> P x \/ Q x) -> (exists x, x ∈ X /\ Q x) \/ (forall x, x ∈ X -> P x).
Proof.
  induction X as [|a X Ha IH] using set_ind_L; intros HX; [right; set_solver|].
  destruct IH as [(x & Hx & Hq)|Hall]; [intros x Hx; apply HX; set_solver|left; exists x; set_solver|].
  destruct (HX a ltac:(set_solver)) as [Hp|Hq]; [right|left; exists a; set_solver].
  intros x [->%elem_of_singleton|Hx]%elem_of_union; [done|by apply Hall].
Qed.

Section network.
Context {Hash : Hashing} {fuel : Fuel} (bincode_entry : ResolutionEntry -> list Z) (bincode_payload : Manifest -> Manifest -> list Z).
Context (c : Committee) (sid : Digest) (delta_ms : Z) (correct : gset PublicKey).
Abbreviation fp1 := (f_plus_1_parties (from_party_count (committee_size c))) (only parsing).
Abbreviation quo := (n_minus_f_parties (from_party_count (committee_size c))) (only parsing).

(** An accepted vote: target, view, value and origin bit. *)
Definition Answer : Type := View * DirectResolverView * Digest * option Z.

Record DNet := mkDNet {
  dn_node : PublicKey -> DirectResolver;
  dn_sent : PublicKey -> list DirectResolutionEffect;
  dn_voted : PublicKey -> list Answer;
}.

Definition answer_of (ev : DirectEvent) : list Answer :=
  match ev with EvVote target view value (Accept origin) => [(target, view, value, origin)] | _ => [] end.

(** What party [i] may receive. *)
Definition dn_allows (N : DNet) (i : PublicKey) (ev : DirectEvent) : Prop :=
  (forall k m, delivered ev = Some (k, m) -> k <> i /\ (k ∈ correct -> spoke (dn_sent N k) m)) /\
  match ev with EvProposal p => 0 <= dp_key_view p | _ => True end.

Definition dn_step (N : DNet) (i : PublicKey) (ev : DirectEvent) : DNet :=
  let r := direct_run bincode_entry bincode_payload ev (dn_node N i) in {|
  dn_node := fun j => if decide (j = i) then st r else dn_node N j;
  dn_sent := fun j => if decide (j = i) then dn_sent N j ++ out r else dn_sent N j;
  dn_voted := fun j => if decide (j = i) then dn_voted N j ++ answer_of ev else dn_voted N j;
|}.

Inductive dn_reaches : DNet -> Prop :=
| dn_init : dn_reaches (mkDNet (fun k => resolver_new k c sid delta_ms) (fun _ => []) (fun _ => []))
| dn_event N i ev : dn_reaches N -> i ∈ correct -> dn_allows N i ev -> dn_reaches (dn_step N i ev).

(** ** Local invariants in the network *)

Definition said_in (N : DNet) (k : PublicKey) (m : DMsg) : Prop := k ∈ correct -> spoke (dn_sent N k) m.
Definition voted_in (N : DNet) (i : PublicKey) (target : View) (v : DirectResolverView) (w : Digest) (o : option Z) : Prop :=
  (target, v, w, o) ∈ dn_voted N i.

Abbreviation party_inv N i := (linv_all bincode_entry c sid i (said_in N) (voted_in N i) (dn_sent N i) (dn_node N i)).

Lemma spoke_step N i ev k m : spoke (dn_sent N k) m -> spoke (dn_sent (dn_step N i ev) k) m.
Proof. cbn. case_decide; [|done]. intros Hs. apply spoke_app. by left. Qed.

Lemma voted_step N i ev j target v w o : voted_in N j target v w o -> voted_in (dn_step N i ev) j target v w o.
Proof. unfold voted_in. cbn. case_decide; [|done]. intros Hs. apply elem_of_app. by left. Qed.

Lemma linv_all_more i said said' voted voted' past x :
  (forall k m, said k m -> said' k m) -> (forall target v w o, voted target v w o -> voted' target v w o) ->
  linv_all bincode_entry c sid i said voted past x -> linv_all bincode_entry c sid i said' voted' past x.
Proof. intros H1 H2 L t. by eapply linv_more; [..|apply L]; auto. Qed.

Context (Hmem : correct ⊆ members c).

Lemma party_step N i ev :
  party_inv N i -> dn_allows N i ev -> party_inv (dn_step N i ev) i /\ forall t, frozen i t (dn_sent N i) (out (direct_run bincode_entry bincode_payload ev (dn_node N i))).
Proof.
  intros L [Hd Hp]. set (N' := dn_step N i ev).
  assert (linv_all bincode_entry c sid i (said_in N') (voted_in N' i) (dn_sent N i) (dn_node N i)) as L'.
  { eapply linv_all_more; [| |exact L].
    - intros k m H Hk. by apply spoke_step, H.
    - intros target v w o. apply voted_step. }
  destruct (direct_step bincode_entry bincode_payload c sid i (said_in N') (voted_in N' i) ev) with (s := dn_node N i) (past := dn_sent N i) as [L2 F].
  - split.
    + intros k m Hk. destruct (Hd k m Hk) as [? H]. split; [done|]. intros Hc. by apply spoke_step, H.
    + destruct ev as [| | | | | | |target view value []| | | | | | | | | |]; try done. unfold voted_in. cbn. rewrite decide_True by done.
      apply elem_of_app. right. by apply list_elem_of_singleton.
  - done.
  - done.
  - split; [|done]. cbn. rewrite !decide_True by done. done.
Qed.

Lemma party_invs N i : dn_reaches N -> i ∈ correct -> party_inv N i.
Proof using Hmem.
  intros HN Hi. induction HN as [|N j ev HN IH Hj Hal].
  - intros t. cbn. apply linv_new. set_solver.
  - destruct (decide (i = j)) as [->|Hne]; [by apply party_step|].
    assert (linv_all bincode_entry c sid i (said_in (dn_step N j ev)) (voted_in (dn_step N j ev) i) (dn_sent N i) (dn_node N i)) as L'.
    { eapply linv_all_more; [| |exact IH].
      - intros k m H Hk. by apply spoke_step, H.
      - intros target v w o. apply voted_step. }
    cbn. by rewrite !decide_False.
Qed.

(** ** Quorums *)

Context (Hfaulty : Z.of_nat (size (members c ∖ correct)) <= f_parties (from_party_count (committee_size c)))
  (Hsize : 1 < committee_size c).
#[local] Set Default Proof Using "Type Hmem Hfaulty Hsize".

(** A quorum whose correct members have the property. *)
Definition quorum_of (P : PublicKey -> Prop) : Prop :=
  exists S : gset PublicKey, quo <= Z.of_nat (size S) /\ S ⊆ members c /\ forall k, k ∈ S -> k ∈ correct -> P k.

Lemma quorum_impl (P Q : PublicKey -> Prop) : quorum_of P -> (forall k, k ∈ correct -> P k -> Q k) -> quorum_of Q.
Proof. intros (S & H1 & H2 & H3) HPQ. exists S. split_and!; [done|done|]. intros k Hk Hc. auto. Qed.

Lemma correct_quorums_meet P Q : quorum_of P -> quorum_of Q -> exists k, k ∈ correct /\ P k /\ Q k.
Proof.
  intros (S & H1 & H2 & H3) (S' & H1' & H2' & H3').
  pose proof (party_thresholds (committee_size c) ltac:(lia)) as Ht. pose proof (size_members_committee c). cbn in *.
  destruct (sizes_meet S S' (members c) (members c ∖ correct)) as (k & HS & HS' & Hk); [done|done|lia|].
  exists k. destruct (decide (k ∈ correct)); [auto|]. set_solver.
Qed.

Lemma some_correct (P : PublicKey -> Prop) n : f_parties (from_party_count (committee_size c)) < n -> many c n P -> exists k, k ∈ correct /\ P k.
Proof.
  intros Hn (S & H1 & H2). pose proof (size_members_committee c).
  destruct (sizes_meet S (members c) (members c) (members c ∖ correct)) as (k & HS & HS' & Hk); [|done|lia|].
  - intros k Hk. by apply H2.
  - exists k. destruct (decide (k ∈ correct)); [|set_solver]. split; [done|]. by apply H2.
Qed.

Lemma quorum_other P i : quorum_of P -> exists k, k ∈ correct /\ k <> i /\ P k.
Proof.
  intros (S & H1 & H2 & H3).
  pose proof (party_thresholds (committee_size c) ltac:(lia)) as Ht. pose proof (size_members_committee c). cbn in *.
  destruct (sizes_meet S (members c) (members c) ({[ i ]} ∪ members c ∖ correct)) as (k & HS & HS' & Hk); [done|done| |].
  - pose proof (size_union_alt {[ i ]} (members c ∖ correct)) as Hu. rewrite size_singleton in Hu.
    pose proof (subseteq_size ((members c ∖ correct) ∖ {[ i ]}) (members c ∖ correct) ltac:(set_solver)). lia.
  - exists k. apply not_elem_of_union in Hk as [Hi Hk]. rewrite not_elem_of_singleton in Hi.
    destruct (decide (k ∈ correct)); [auto|]. set_solver.
Qed.

(** What a party heard from correct parties was said. *)
Lemma heard_correct N i k m : heard i (said_in N) (dn_sent N i) k m -> k ∈ correct -> spoke (dn_sent N k) m.
Proof. intros [[-> ?]|[_ H]] Hk; [done|by apply H]. Qed.

Lemma many_quorum N i (m : PublicKey -> DMsg -> Prop) :
  many c quo (fun k => exists msg, m k msg /\ heard i (said_in N) (dn_sent N i) k msg) ->
  quorum_of (fun k => exists msg, m k msg /\ spoke (dn_sent N k) msg).
Proof.
  intros (S & H1 & H2). exists S. split_and!; [done|intros k Hk; by apply H2|]. intros k Hk Hc.
  destruct (H2 k Hk) as (_ & msg & Hm & Hh). exists msg. split; [done|]. by eapply heard_correct.
Qed.

(** ** One target *)

Context (t : View).
Definition says (N : DNet) (i : PublicKey) (ph : DirectResolutionPhase) (v : DirectResolverView) (w : Digest) : Prop :=
  own i t (dn_sent N i) ph v w.

Section reached.
Context (N : DNet) (HN : dn_reaches N).
#[local] Set Default Proof Using "Type Hmem Hfaulty Hsize HN".

Lemma hist_at i : i ∈ correct -> hist bincode_entry c sid i t (said_in N) (voted_in N i t) (dn_sent N i).
Proof. intros Hi. apply (party_invs N i HN Hi t). Qed.

Lemma chain_quorum i ph v w : i ∈ correct -> many c quo (heard_st i t (said_in N) (dn_sent N i) ph v w) -> quorum_of (fun k => says N k ph v w).
Proof.
  intros Hi H. eapply quorum_impl.
  - apply (many_quorum N i (fun k m => exists key o, m = MStatement (mkStatement t v w ph key o k))).
    eapply many_impl; [exact H|]. intros k (key & o & Hh). eexists. split; [by exists key, o|done].
  - intros k Hk (msg & (key & o & ->) & Hs). by exists key, o.
Qed.

Lemma says_chain i ph v w : i ∈ correct -> ph <> PEcho -> says N i ph v w -> quorum_of (fun k => says N k (prev_phase ph) v w).
Proof. intros Hi Hne Hs. eapply chain_quorum; [done|]. by apply (h_chain _ _ _ _ _ _ _ _ _ (hist_at i Hi)). Qed.

(** Behind every statement but an ECHO is a correct party's KEY1. *)
Lemma says_key1 i ph v w : i ∈ correct -> ph <> PEcho -> says N i ph v w -> exists k, k ∈ correct /\ says N k PKey1 v w.
Proof.
  intros Hi Hne Hs. assert (forall ph' i', ph' <> PEcho -> ph' <> PKey1 -> i' ∈ correct -> says N i' ph' v w ->
    exists k, k ∈ correct /\ says N k (prev_phase ph') v w) as Hprev.
  { intros ph' i' H1 H2 Hi' H. destruct (quorum_other _ 0 (says_chain i' ph' v w Hi' H1 H)) as (k & ? & _ & ?). eauto. }
  destruct ph; [done|eauto|..].
  - by destruct (Hprev PKey2 i) as (k & ? & ?); eauto.
  - destruct (Hprev PKey3 i) as (k & Hk & Hs2); [done..|]. destruct (Hprev PKey2 k) as (k1 & ? & ?); [done..|]. eauto.
  - destruct (Hprev PLock i) as (k & Hk & Hs2); [done..|]. destruct (Hprev PKey3 k) as (k1 & Hk1 & Hs3); [done..|].
    destruct (Hprev PKey2 k1) as (k2 & ? & ?); [done..|]. eauto.
Qed.

(** One value per view from KEY1 on. *)
Lemma key1_unique i j v w w' : i ∈ correct -> j ∈ correct -> says N i PKey1 v w -> says N j PKey1 v w' -> w = w'.
Proof.
  intros Hi Hj H H'.
  destruct (correct_quorums_meet _ _ (says_chain i PKey1 v w Hi ltac:(done) H) (says_chain j PKey1 v w' Hj ltac:(done) H')) as (k & Hk & H1 & H2).
  exact (h_uniq _ _ _ _ _ _ _ _ _ (hist_at k Hk) _ _ _ _ H1 H2).
Qed.
End reached.

Lemma says_step N i ev k ph v w : says N k ph v w -> says (dn_step N i ev) k ph v w.
Proof. intros (key & o & H). exists key, o. by apply spoke_step. Qed.

Lemma says_other N i ev k ph v w : k <> i -> says (dn_step N i ev) k ph v w -> says N k ph v w.
Proof. unfold says. cbn. intros Hne. by rewrite decide_False. Qed.

Definition strict_at (N : DNet) (k : PublicKey) (v : DirectResolverView) (w : Digest) : Prop :=
  strict c k t (said_in N) (dn_sent N k) v w.

Lemma strict_step N i ev k v w :
  dn_reaches N -> i ∈ correct -> k ∈ correct -> dn_allows N i ev -> says N k PEcho v w -> strict_at N k v w -> strict_at (dn_step N i ev) k v w.
Proof.
  intros HN Hi Hk Hal Hs Hst.
  apply strict_more with (said' := said_in (dn_step N i ev)) in Hst; [|intros j m H Hj; by apply spoke_step, H].
  unfold strict_at. cbn. destruct (decide (k = i)) as [->|]; [|done]. apply strict_app; [|done]. intros u y Hu Hlt.
  destruct (party_step N i ev (party_invs N i HN Hi) Hal) as [_ Hf]. by eapply Hf.
Qed.

(** The ECHOs behind a KEY1 respected the locks of their senders. *)
Lemma key1_strict N i v w :
  dn_reaches N -> i ∈ correct -> says N i PKey1 v w -> quorum_of (fun k => says N k PEcho v w /\ strict_at N k v w).
Proof.
  intros HN. revert i. induction HN as [|N j ev HN IH Hj Hal]; intros i Hi Hs.
  { by apply own_nil in Hs. }
  pose proof (dn_event N j ev HN Hj Hal) as HN'. set (N' := dn_step N j ev) in *.
  assert (forall k ph, k ∈ correct -> ph <> PEcho -> says N k ph v w -> quorum_of (fun k => says N' k PEcho v w /\ strict_at N' k v w)) as Hold.
  { intros k ph Hk Hne Hk'. destruct (says_key1 N HN k ph v w Hk Hne Hk') as (k' & Hk1 & Hs1). eapply quorum_impl; [by eapply IH|].
    intros k2 Hk2 [H1 H2]. split; [by apply says_step|]. by apply strict_step. }
  destruct (says_chain N' HN' i PKey1 v w Hi ltac:(done) Hs) as (S & HS1 & HS2 & HS3). cbn in HS3.
  destruct (finite_or (fun k => says N' k PEcho v w /\ strict_at N' k v w) (fun k => k ∈ correct /\ says N' k PLock v w) (S ∩ correct))
    as [(k & _ & Hk & Hl)|Hall].
  - intros k [HkS Hk]%elem_of_intersection. specialize (HS3 k HkS Hk).
    destruct (h_echo _ _ _ _ _ _ _ _ _ (hist_at N' HN' k Hk) v w HS3) as [?|?]; [by left|by right].
  - destruct (decide (k = j)) as [->|Hne]; [|eapply (Hold k PLock); [done|done|by eapply says_other]].
    destruct (quorum_other _ j (says_chain N' HN' j PLock v w Hj ltac:(done) Hl)) as (k2 & Hk2 & Hne & Hs2).
    eapply (Hold k2 PKey3); [done|done|by eapply says_other].
  - exists S. split_and!; [done|done|]. intros k HkS Hk. apply Hall. by apply elem_of_intersection.
Qed.

(** A quorum of LOCKs on one value in one view. *)
Definition lock_quorum (N : DNet) (v : DirectResolverView) (w : Digest) : Prop := quorum_of (fun k => says N k PLock v w).

(** From the view of a lock quorum on, KEY1s are on its value. *)
Lemma locked N v0 w0 i v w :
  dn_reaches N -> lock_quorum N v0 w0 -> i ∈ correct -> says N i PKey1 v w -> v0 <= v -> w = w0.
Proof.
  intros HN HL. destruct (quorum_other _ 0 HL) as (l & Hl & _ & Hsl).
  destruct (says_key1 N HN l PLock v0 w0 Hl ltac:(done) Hsl) as (l1 & Hl1 & Hs1).
  pose proof (h_pos _ _ _ _ _ _ _ _ _ (hist_at N HN l Hl) _ _ _ Hsl) as Hv0.
  assert (forall n i v w, v < v0 + Z.of_nat n -> i ∈ correct -> says N i PKey1 v w -> v0 <= v -> w = w0) as Hind.
  { clear i v w. induction n as [|n IH]; intros i v w Hlt Hi Hs Hle; [lia|].
    destruct (decide (v = v0)) as [->|Hne]; [by eapply (key1_unique N HN i l1)|].
    destruct (correct_quorums_meet _ _ (key1_strict N i v w HN Hi Hs) HL) as (k & Hk & [_ Hst] & Hlk).
    assert (forall j u y, j ∈ correct -> says N j PKey1 u y -> v0 <= u -> u < v -> y = w0) as IH' by (intros; eapply (IH j u); [lia|done..]).
    destruct Hst as [Hno|(u & y & Hu & Hult & Hmax & Hor)]; [specialize (Hno v0 w0 Hlk); lia|].
    specialize (Hmax v0 w0 Hlk ltac:(lia)). destruct (says_key1 N HN k PLock u y Hk ltac:(done) Hu) as (k1 & Hk1 & Hsk1).
    assert (y = w0) as -> by by eapply (IH' k1 u). destruct Hor as [<-|Hop]; [done|].
    destruct (some_correct _ fp1 ltac:(cbn; lia) Hop) as (j & Hj & p & Hpj & Hh & (Hpt & Hpv & Hp1 & Hp2 & Hp3)).
    apply heard_correct in Hh; [|done]. destruct (h_proof _ _ _ _ _ _ _ _ _ (hist_at N HN j Hj) p Hh Hpt Hpj) as [Hkey Hprev].
    destruct Hkey as [?|Hkey]; [lia|]. assert (pr_key1_value p = w0) as Hv1 by (eapply (IH' j (pr_key1_view p)); [done|done|lia|done]).
    destruct Hprev as [?|(y' & Hy' & Hprev)]; [lia|]. destruct Hp3 as [?|[_ ?]]; [|done].
    assert (y' = w0) by (eapply (IH' j (pr_prev_key1 p)); [done|done|lia|lia]). congruence. }
  intros Hi Hs Hle. eapply (Hind (Z.to_nat (v - v0 + 1)) i v); [lia|done..].
Qed.

Lemma lock_quorums_agree N v v' w w' : dn_reaches N -> lock_quorum N v w -> lock_quorum N v' w' -> w = w'.
Proof.
  intros HN H H'. destruct (quorum_other _ 0 H) as (k & Hk & _ & Hs). destruct (quorum_other _ 0 H') as (k' & Hk' & _ & Hs').
  destruct (says_key1 N HN k PLock v w Hk ltac:(done) Hs) as (l & Hl & Hsl).
  destruct (says_key1 N HN k' PLock v' w' Hk' ltac:(done) Hs') as (l' & Hl' & Hsl').
  destruct (Z.le_ge_cases v v') as [Hle|Hle].
  - symmetry. exact (locked N v w l' v' w' HN H Hl' Hsl' Hle).
  - exact (locked N v' w' l v w HN H' Hl Hsl Hle).
Qed.

(** A correct party's DONE has a lock quorum behind it. *)
Lemma done_locked N i w : dn_reaches N -> i ∈ correct -> spoke (dn_sent N i) (MDone t w i) -> exists v, lock_quorum N v w.
Proof.
  intros HN. revert i. induction HN as [|N j ev HN IH Hj Hal]; intros i Hi Hs; [by apply spoke_nil in Hs|].
  pose proof (dn_event N j ev HN Hj Hal) as HN'. set (N' := dn_step N j ev) in *.
  assert (forall k, k ∈ correct -> spoke (dn_sent N k) (MDone t w k) -> exists v, lock_quorum N' v w) as Hold.
  { intros k Hk Hsk. destruct (IH k Hk Hsk) as [v Hv]. exists v. eapply quorum_impl; [exact Hv|]. intros k' _. apply says_step. }
  destruct (h_done _ _ _ _ _ _ _ _ _ (hist_at N' HN' i Hi) w Hs) as [[v Hv]|Hm].
  - exists v. by eapply chain_quorum.
  - destruct (decide (i = j)) as [->|Hne].
    + destruct (some_correct _ fp1 ltac:(cbn; lia) Hm) as (k & Hk & Hkj & Hsk). apply (Hold k Hk). specialize (Hsk Hk).
      unfold N' in Hsk. cbn in Hsk. by rewrite decide_False in Hsk.
    + apply (Hold i Hi). unfold N' in Hs. cbn in Hs. by rewrite decide_False in Hs.
Qed.

Lemma decided_locked N i e : dn_reaches N -> i ∈ correct -> DDecide e ∈ dn_sent N i -> target_view e = t ->
  exists v, lock_quorum N v (vd bincode_entry sid e).
Proof.
  intros HN Hi He Ht. pose proof (h_decide _ _ _ _ _ _ _ _ _ (hist_at N HN i Hi) e He Ht) as Hq.
  pose proof (party_thresholds (committee_size c) ltac:(lia)) as Hth. cbn in Hth.
  destruct (some_correct _ quo ltac:(cbn; lia) Hq) as (k & Hk & Hh). eapply done_locked; [done|exact Hk|]. by eapply heard_correct.
Qed.
(** ** Where a decided value comes from *)

Definition echoed_fresh (N : DNet) (v : DirectResolverView) (w : Digest) (k : PublicKey) (o : option Z) : Prop :=
  spoke (dn_sent N k) (MStatement (mkStatement t v w PEcho (Some 0) o k)).

Definition fresh_in (N : DNet) (v : DirectResolverView) (w : Digest) : Prop :=
  quorum_of (fun k => exists o, echoed_fresh N v w k o) /\
  ((exists e, vd bincode_entry sid e = w /\ is_skip e = true) \/ exists k, k ∈ correct /\ echoed_fresh N v w k (Some 1)).

Lemma fresh_at N i v w : i ∈ correct -> fresh bincode_entry c sid i t (said_in N) (dn_sent N i) v w -> fresh_in N v w.
Proof.
  intros Hi [H1 H2]. split.
  - eapply quorum_impl.
    + apply (many_quorum N i (fun k m => exists o, m = MStatement (mkStatement t v w PEcho (Some 0) o k))).
      eapply many_impl; [exact H1|]. intros k (o & Hh). eexists. split; [by exists o|done].
    + intros k _ (msg & (o & ->) & Hs). by exists o.
  - destruct H2 as [?|H2]; [by left|right]. destruct (some_correct _ fp1 ltac:(cbn; lia) H2) as (k & Hk & Hh). exists k. split; [done|].
    by eapply heard_correct.
Qed.

Lemma fresh_step N i ev v w : fresh_in N v w -> fresh_in (dn_step N i ev) v w.
Proof.
  intros [H1 H2]. split.
  - eapply quorum_impl; [exact H1|]. intros k _ [o Ho]. exists o. by apply spoke_step.
  - destruct H2 as [?|(k & Hk & Ho)]; [by left|right; exists k; split; [done|by apply spoke_step]].
Qed.

Lemma witness_fresh N i v w : dn_reaches N -> i ∈ correct -> spoke (dn_sent N i) (MWitness t v w i) -> fresh_in N v w.
Proof.
  intros HN. revert i. induction HN as [|N j ev HN IH Hj Hal]; intros i Hi Hs; [by apply spoke_nil in Hs|].
  pose proof (dn_event N j ev HN Hj Hal) as HN'. set (N' := dn_step N j ev) in *.
  assert (forall k, k ∈ correct -> spoke (dn_sent N k) (MWitness t v w k) -> fresh_in N' v w) as Hold.
  { intros k Hk Hsk. by eapply fresh_step, IH. }
  destruct (h_witness _ _ _ _ _ _ _ _ _ (hist_at N' HN' i Hi) v w Hs) as [Hf|Hm]; [by eapply fresh_at|].
  destruct (decide (i = j)) as [->|Hne].
  - destruct (some_correct _ fp1 ltac:(cbn; lia) Hm) as (k & Hk & Hkj & Hsk). apply (Hold k Hk). specialize (Hsk Hk).
    unfold N' in Hsk. cbn in Hsk. by rewrite decide_False in Hsk.
  - apply (Hold i Hi). unfold N' in Hs. cbn in Hs. by rewrite decide_False in Hs.
Qed.

Lemma backed_fresh N i w : dn_reaches N -> i ∈ correct -> backed c i t (said_in N) (dn_sent N i) w -> exists v, fresh_in N v w.
Proof.
  intros HN Hi [v Hq]. pose proof (party_thresholds (committee_size c) ltac:(lia)) as Hth. cbn in Hth. exists v.
  destruct (some_correct _ quo ltac:(cbn; lia) Hq) as (k & Hk & Hh). eapply witness_fresh; [done|exact Hk|]. by eapply heard_correct.
Qed.

Lemma key1_fresh N i v w : dn_reaches N -> i ∈ correct -> says N i PKey1 v w -> exists v', fresh_in N v' w.
Proof.
  intros HN Hi Hs. pose proof (party_thresholds (committee_size c) ltac:(lia)) as Hth. cbn in Hth.
  destruct (h_source _ _ _ _ _ _ _ _ _ (hist_at N HN i Hi) v w Hs) as [Hb|(key & Hkey & Hq)]; [by eapply backed_fresh|].
  destruct (some_correct _ quo ltac:(cbn; lia) Hq) as (k & Hk & o & Hh). apply heard_correct in Hh; [|done].
  destruct (h_vote _ _ _ _ _ _ _ _ _ (hist_at N HN k Hk) v w (Some key) o Hh) as (_ & _ & [[= ->]|Hb]); [lia|by eapply backed_fresh].
Qed.

(** The correct parties that accepted a fresh proposal of the value. *)
Lemma fresh_accepted N v w :
  dn_reaches N -> fresh_in N v w ->
  exists X : gset PublicKey, X ⊆ correct /\ fp1 <= Z.of_nat (size X) /\
    forall k, k ∈ X -> exists o e, vd bincode_entry sid e = w /\ DValidateVote t v w e true ∈ dn_sent N k /\ (t, v, w, o) ∈ dn_voted N k.
Proof.
  intros HN [(S & H1 & H2 & H3) _]. exists (S ∩ correct). split_and!; [set_solver| |].
  - pose proof (party_thresholds (committee_size c) ltac:(lia)) as Hth. cbn in *.
    assert (size S <= size (S ∩ correct) + size (members c ∖ correct))%nat.
    { rewrite <- size_union by set_solver. apply subseteq_size. intros k Hk. destruct (decide (k ∈ correct)); set_solver. }
    lia.
  - intros k [HS Hk]%elem_of_intersection. destruct (H3 k HS Hk) as [o Ho].
    destruct (h_vote _ _ _ _ _ _ _ _ _ (hist_at N HN k Hk) v w (Some 0) o Ho) as (Hv & (e & He & Hq) & _).
    rewrite bool_decide_true in Hq by done. by exists o, e.
Qed.
End network.

(** What the two theorems say, for the files that build on them. *)
Section decided.
Context {Hash : Hashing} {fuel : Fuel} (bincode_entry : ResolutionEntry -> list Z) (bincode_payload : Manifest -> Manifest -> list Z).
Context (c : Committee) (sid : Digest) (delta_ms : Z) (correct : gset PublicKey).
Context (Hm : correct ⊆ members c) (Hf : Z.of_nat (size (members c ∖ correct)) <= f_parties (from_party_count (committee_size c)))
  (Hs : 1 < committee_size c) (Hinj : Inj (=) (=) (vd bincode_entry sid)).
#[local] Set Default Proof Using "All".

Lemma decided_same N i j e e' :
  dn_reaches bincode_entry bincode_payload c sid delta_ms correct N -> i ∈ correct -> j ∈ correct ->
  DDecide e ∈ dn_sent N i -> DDecide e' ∈ dn_sent N j -> target_view e = target_view e' -> e = e'.
Proof.
  intros HN Hi Hj He He' Ht. apply Hinj.
  destruct (decided_locked bincode_entry bincode_payload c sid delta_ms correct Hm Hf Hs (target_view e) N i e HN Hi He eq_refl) as [v Hv].
  destruct (decided_locked bincode_entry bincode_payload c sid delta_ms correct Hm Hf Hs (target_view e) N j e' HN Hj He' (eq_sym Ht)) as [v' Hv'].
  eapply lock_quorums_agree; done.
Qed.

Lemma decided_accepted N i e :
  dn_reaches bincode_entry bincode_payload c sid delta_ms correct N -> i ∈ correct -> DDecide e ∈ dn_sent N i ->
  exists v (X : gset PublicKey), X ⊆ correct /\ f_plus_1_parties (from_party_count (committee_size c)) <= Z.of_nat (size X) /\
    (forall k, k ∈ X -> exists o, DValidateVote (target_view e) v (vd bincode_entry sid e) e true ∈ dn_sent N k /\
       (target_view e, v, vd bincode_entry sid e, o) ∈ dn_voted N k) /\
    (is_skip e = true \/ exists k, k ∈ correct /\ (target_view e, v, vd bincode_entry sid e, Some 1) ∈ dn_voted N k).
Proof.
  intros HN Hi He.
  destruct (decided_locked bincode_entry bincode_payload c sid delta_ms correct Hm Hf Hs (target_view e) N i e HN Hi He eq_refl) as [u Hu].
  destruct (quorum_other c correct Hm Hf Hs _ 0 Hu) as (l & Hl & _ & Hsl).
  edestruct says_key1 as (k & Hk & Hsk); [done..|exact Hl| |exact Hsl|]; [done|].
  edestruct key1_fresh as (v & Hv); [done..|exact Hsk|]. exists v.
  edestruct fresh_accepted as (X & HX & Hn & HP); [done..|exact Hv|]. exists X. split_and!; [done|done| |].
  - intros k' Hk'. destruct (HP k' Hk') as (o & e' & Heq%Hinj & H1 & H2). subst e'. by exists o.
  - destruct Hv as [_ [(e' & Heq%Hinj & Hsk')|(k' & Hk' & Ho)]]; [left; by subst e'|right; exists k'; split; [done|]].
    edestruct h_vote as (Hvo & _); [by eapply hist_at|exact Ho|]. exact Hvo.
Qed.

End decided.

(** C4: two correct resolvers never decide a target with different entries. *)
Theorem resolver_agreement {Hash : Hashing} {fuel : Fuel} bincode_entry bincode_payload c sid delta_ms (correct : gset PublicKey) N i j e e' :
  correct ⊆ members c -> Z.of_nat (size (members c ∖ correct)) <= f_parties (from_party_count (committee_size c)) -> 1 < committee_size c ->
  Inj (=) (=) (vd bincode_entry sid) ->
  dn_reaches bincode_entry bincode_payload c sid delta_ms correct N -> i ∈ correct -> j ∈ correct ->
  DDecide e ∈ dn_sent N i -> DDecide e' ∈ dn_sent N j -> target_view e = target_view e' -> e = e'.
Proof. intros Hm Hf Hs Hinj HN Hi Hj He He' Ht. exact (decided_same _ _ c sid delta_ms correct Hm Hf Hs Hinj N i j e e' HN Hi Hj He He' Ht). Qed.

(** C6: a decided entry was put to a vote as a fresh proposal and accepted by at least [f + 1] correct parties; if
    it is not a skip, a correct party accepted it first-hand. *)
Theorem resolver_validity {Hash : Hashing} {fuel : Fuel} bincode_entry bincode_payload c sid delta_ms (correct : gset PublicKey) N i e :
  correct ⊆ members c -> Z.of_nat (size (members c ∖ correct)) <= f_parties (from_party_count (committee_size c)) -> 1 < committee_size c ->
  Inj (=) (=) (vd bincode_entry sid) ->
  dn_reaches bincode_entry bincode_payload c sid delta_ms correct N -> i ∈ correct -> DDecide e ∈ dn_sent N i ->
  exists v (X : gset PublicKey), X ⊆ correct /\ f_plus_1_parties (from_party_count (committee_size c)) <= Z.of_nat (size X) /\
    (forall k, k ∈ X -> exists o, DValidateVote (target_view e) v (vd bincode_entry sid e) e true ∈ dn_sent N k /\
       (target_view e, v, vd bincode_entry sid e, o) ∈ dn_voted N k) /\
    (is_skip e = true \/ exists k, k ∈ correct /\ (target_view e, v, vd bincode_entry sid e, Some 1) ∈ dn_voted N k).
Proof. intros Hm Hf Hs Hinj HN Hi He. exact (decided_accepted _ _ c sid delta_ms correct Hm Hf Hs Hinj N i e HN Hi He). Qed.

(** ** A run *)

#[export] Instance statement_eq_dec : EqDecision DirectResolutionStatement.
Proof. solve_decision. Defined.
#[export] Instance proof_eq_dec : EqDecision DirectResolutionProof.
Proof. solve_decision. Defined.
#[export] Instance DMsg_eq_dec : EqDecision DMsg.
Proof. solve_decision. Defined.

(** A hash under which digests of entries differ, and [bincode] as injective codes. *)
Definition last_hashing : Hashing := {|
  blake3 := fun l => default 0 (last l);
  bincode_view_proposal := fun _ => [];
  bincode_batch_view_proposal := fun _ => [];
|}.
Definition coded_entry (e : ResolutionEntry) : list Z := [Z.pos (encode e)].
Definition coded_payload (x y : Manifest) : list Z := [Z.pos (encode (x, y))].

Section drive.
Context (parties : list PublicKey).

(** The inputs the effects of party [i] cause: every message is delivered and every vote is in favour. *)
Definition posts (i : PublicKey) (e : DirectResolutionEffect) : list (PublicKey * DirectEvent) :=
  let all ev := (fun j => (j, ev)) <$> filter (fun j => j <> i) parties in
  match e with
  | DBroadcastWish w => all (EvWish w)
  | DSuggestTo j g => [(j, EvSuggest g)]
  | DBroadcastProof p => all (EvProof p)
  | DBroadcastWitness w => all (EvWitness w)
  | DBroadcastProposal p => all (EvProposal p)
  | DBroadcastStatement m => all (EvStatement m)
  | DBroadcastDone d => all (EvDone d)
  | DValidateVote target view value entry fresh => [(i, EvVote target view value (Accept (if fresh then Some 1 else None)))]
  | _ => []
  end.

Definition allowed_now (N : DNet) (i : PublicKey) (ev : DirectEvent) : bool :=
  bool_decide (i ∈ parties) &&
  match delivered ev with
  | Some (k, m) => bool_decide (k <> i) && bool_decide (m ∈ omap msg_of (dn_sent N k))
  | None => true
  end && match ev with EvProposal p => 0 <=? dp_key_view p | _ => true end.

Fixpoint drive (n : nat) (queue : list (PublicKey * DirectEvent)) (N : DNet) : DNet :=
  match n, queue with
  | S n, (i, ev) :: queue =>
      if allowed_now N i ev then
        let r := @direct_run last_hashing enough coded_entry coded_payload ev (dn_node N i) in
        drive n (queue ++ (out r ≫= posts i)) (@dn_step last_hashing enough coded_entry coded_payload N i ev)
      else drive n queue N
  | _, _ => N
  end.

Lemma drive_reaches c sid delta_ms n queue N :
  @dn_reaches last_hashing enough coded_entry coded_payload c sid delta_ms (list_to_set parties) N ->
  @dn_reaches last_hashing enough coded_entry coded_payload c sid delta_ms (list_to_set parties) (drive n queue N).
Proof.
  revert queue N. induction n as [|n IH]; intros [|[i ev] queue] N HN; try done. cbn.
  destruct (allowed_now N i ev) eqn:Ha; [|by apply IH]. apply IH. unfold allowed_now in Ha.
  apply andb_prop in Ha as [[Hi%bool_decide_eq_true Hd]%andb_prop Hp]. apply dn_event; [done|by apply elem_of_list_to_set|]. split.
  - intros k m Hk. rewrite Hk in Hd. apply andb_prop in Hd as [?%bool_decide_eq_true ?%bool_decide_eq_true]. done.
  - destruct ev; try done. lia.
Qed.
End drive.

(** Parties 10, 20 and 30 of a committee of four decide one candidate. *)
Definition entry5 : ResolutionEntry := EntryFull 5 [(20, 1, 100)] [(30, 2, 101)].
Definition parties3 : list PublicKey := [10; 20; 30].
Definition net5 : DNet :=
  drive parties3 400 ((fun j => (j, EvCandidates 5 [entry5])) <$> parties3)
    (mkDNet (fun k => resolver_new k committee4 7 100) (fun _ => []) (fun _ => [])).

Lemma net5_reached : @dn_reaches last_hashing enough coded_entry coded_payload committee4 7 100 (list_to_set parties3) net5.
Proof. apply drive_reaches, dn_init. Qed.

Definition decided_entry (e : DirectResolutionEffect) : option ResolutionEntry := match e with DDecide x => Some x | _ => None end.

Lemma decided_elem e (es : list DirectResolutionEffect) : e ∈ omap decided_entry es -> DDecide e ∈ es.
Proof. intros (x & Hx & He)%list_elem_of_omap. destruct x; try done. by injection He as ->. Qed.

Lemma net5_decides k : k ∈ parties3 -> DDecide entry5 ∈ dn_sent net5 k.
Proof.
  intros Hk. apply decided_elem. revert k Hk. apply Forall_forall.
  apply (bool_decide_unpack (Forall (fun k => entry5 ∈ omap decided_entry (dn_sent net5 k)) parties3)). vm_compute. exact I.
Qed.

Lemma coded_values : Inj (=) (=) (@vd last_hashing coded_entry 7).
Proof.
  intros x y. unfold vd, domain_hash, blake3, last_hashing, coded_entry. rewrite !(assoc_L (++)), !last_snoc. cbn. intros [= H].
  by apply (inj encode) in H.
Qed.

Lemma resolver_agreement_witness : DDecide entry5 ∈ dn_sent net5 10 /\ DDecide entry5 ∈ dn_sent net5 30 /\ entry5 = entry5.
Proof.
  assert (DDecide entry5 ∈ dn_sent net5 10) as H1 by (apply net5_decides; apply (bool_decide_unpack _); exact I).
  assert (DDecide entry5 ∈ dn_sent net5 30) as H3 by (apply net5_decides; apply (bool_decide_unpack _); exact I).
  refine (conj H1 (conj H3 (@resolver_agreement last_hashing enough coded_entry coded_payload committee4 7 100 (list_to_set parties3) net5
    10 30 entry5 entry5 _ _ _ coded_values net5_reached _ _ H1 H3 eq_refl))).
  - apply (bool_decide_unpack _). vm_compute. exact I.
  - vm_compute. discriminate.
  - vm_compute. reflexivity.
  - apply (bool_decide_unpack _). vm_compute. exact I.
  - apply (bool_decide_unpack _). vm_compute. exact I.
Defined.

Lemma resolver_validity_witness : exists v (X : gset PublicKey), X ⊆ list_to_set parties3 /\ 2 <= Z.of_nat (size X) /\
  (forall k, k ∈ X -> exists o, DValidateVote 5 v (@vd last_hashing coded_entry 7 entry5) entry5 true ∈ dn_sent net5 k /\
     (5, v, @vd last_hashing coded_entry 7 entry5, o) ∈ dn_voted net5 k) /\
  (is_skip entry5 = true \/ exists k, k ∈ (list_to_set parties3 : gset PublicKey) /\
     (5, v, @vd last_hashing coded_entry 7 entry5, Some 1) ∈ dn_voted net5 k).
Proof.
  apply (@resolver_validity last_hashing enough coded_entry coded_payload committee4 7 100 (list_to_set parties3) net5 10 entry5).
  - apply (bool_decide_unpack _). vm_compute. exact I.
  - vm_compute. discriminate.
  - vm_compute. reflexivity.
  - exact coded_values.
  - exact net5_reached.
  - apply (bool_decide_unpack _). vm_compute. exact I.
  - apply net5_decides. apply (bool_decide_unpack _). exact I.
Defined.
