(* ===== verification/DirectFuel.v ===== *)
(** The bounds of [advance_view] are never reached.

    A turn of the loop that continues sends a statement or the DONE, of which a view has
    five; and the recursion through a completed backing quorum happens at most once, because in a
    committee with at most [f] faulty parties the backed value is the one that was echoed.
    With larger bounds every handler computes the same result. *)

From S2P Require Import Prelude Committee Types Formed ResolutionEvidence Direct DirectInv DirectSteps DirectRuns DirectNetwork Fixtures.

Section advance.
Context {Hash : Hashing} (bincode_entry : ResolutionEntry -> list Z).
Abbreviation DM := (M DirectResolutionEffect DirectResolver) (only parsing).
Implicit Types (x y : DirectResolver) (i : DirectInstance) (s : DirectViewState).
Context (target : View) (view : DirectResolverView).

(** ** Only sends *)

Section again.
Context (again : DM ()) (Hagain : sat same_view again).
#[local] Set Default Proof Using "Type Hagain".

Lemma same_recheck_backing : sat same_view (recheck_backing again target view).
Proof.
  apply sat_get_bind. intros x. apply sat_at_then; [apply _| |].
  - destruct (backing_winner x target view (dr_f_plus_1 x)); [apply witness_same|apply sat_ret, _].
  - intros _. apply sat_get_bind. intros x1. apply sat_when; [apply _|apply Hagain].
Qed.

Lemma same_step from to : sat same_view (advance_step again target view from to).
Proof.
  apply sat_get_bind. intros x. destruct (phase_winner x target view from (dr_quorum x)) as [[w key]|]; [|apply sat_ret, _].
  destruct (view_of x target view) as [s|]; [|apply sat_ret, _]. case_bool_decide; [apply sat_ret, _|].
  destruct (negb _); [apply sat_at_then; [apply _|apply fetch_same|intros; apply sat_ret, _]|].
  destruct (_ && negb _); [apply sat_ret, _|]. destruct (_ && negb _).
  - apply sat_at_then; [apply _|apply witness_same|intros _]. apply sat_bind; [apply _|apply same_recheck_backing|intros; apply sat_ret, _].
  - apply sat_at_then; [apply _|apply same_on_inst; intros; apply grown_raise|intros _].
    apply sat_bind; [apply _|apply send_same|intros; apply sat_ret, _].
Qed.

Lemma same_round steps : sat same_view (advance_round again target view steps).
Proof.
  induction steps as [|[from to] steps IH]; [apply sat_ret, _|]. apply sat_bind; [apply _|apply same_step|].
  intros [moved|]; [|apply sat_ret, _]. apply sat_bind; [apply _|apply IH|intros; apply sat_ret, _].
Qed.

Lemma same_pass : sat same_view (advance_pass bincode_entry again target view).
Proof.
  apply sat_bind; [apply _|apply same_round|]. intros [progressed|]; [|apply sat_ret, _]. apply sat_get_bind. intros x.
  destruct (phase_winner x target view PLock (dr_quorum x)) as [[w key]|]; [|apply sat_ret, _].
  destruct (done_is_sent x target); [apply sat_ret, _|]. destruct (entry_of x target w) as [e|].
  - apply sat_at_then; [apply _|apply done_same|intros; apply sat_ret, _].
  - apply sat_at_then; [apply _|apply fetch_same|intros; apply sat_ret, _].
Qed.

Lemma same_loop n : sat same_view (advance_loop bincode_entry again n target view).
Proof.
  induction n as [|n IH]; [apply sat_ret, _|]. apply sat_bind; [apply _|apply same_pass|]. intros [[]|]; [apply IH|apply sat_ret, _..].
Qed.
End again.

Lemma same_deep {fuel : Fuel} depth : sat same_view (advance_deep bincode_entry depth target view).
Proof.
  induction depth as [|depth IH]; [apply sat_ret, _|]. apply sat_get_bind. intros x. destruct (_ || _); [apply sat_ret, _|].
  apply sat_at_then; [apply _|by apply same_loop|]. intros ended. apply sat_when; [apply _|apply recheck_done_same].
Qed.

(** ** What is left to send *)

Definition later_phases : list DirectResolutionPhase := [PKey1; PKey2; PKey3; PLock].
Definition unsent i : nat := length (filter (fun ph => sent (default dvs_default (di_views i !! view)) !! ph = None) later_phases).
Definition undone i : nat := match done_sent i with Some _ => 0 | None => 1 end%nat.
Definition left x : nat := match instances x !! target with Some i => (unsent i + undone i)%nat | None => 0%nat end.

Lemma length_filter_le {A} (P Q : A -> Prop) `{forall a, Decision (P a), forall a, Decision (Q a)} l :
  (forall a, P a -> Q a) -> (length (filter P l) <= length (filter Q l))%nat.
Proof.
  intros HPQ. induction l as [|a l IH]; [done|]. rewrite !filter_cons. destruct (decide (P a)), (decide (Q a)); cbn; naive_solver lia.
Qed.

Lemma length_filter_lt {A} (P Q : A -> Prop) `{forall a, Decision (P a), forall a, Decision (Q a)} l a :
  (forall a, P a -> Q a) -> a ∈ l -> Q a -> ~ P a -> (length (filter P l) < length (filter Q l))%nat.
Proof.
  intros HPQ. induction l as [|b l IH]; intros Hl HQ HP; [by apply not_elem_of_nil in Hl|].
  rewrite !filter_cons. pose proof (length_filter_le P Q l HPQ). apply elem_of_cons in Hl as [<-|Hl].
  - rewrite decide_False, decide_True by done. cbn. lia.
  - specialize (IH Hl HQ HP). destruct (decide (P b)), (decide (Q b)); cbn; naive_solver lia.
Qed.

Lemma grown_left i i' : grown i i' -> (unsent i' <= unsent i)%nat /\ (undone i' <= undone i)%nat.
Proof.
  intros (_ & Hd & Hs). split; [apply length_filter_le; intros ph; apply Hs|]. unfold undone. destruct (done_sent i') eqn:Hd'; [lia|].
  by rewrite Hd.
Qed.

Lemma same_left x es x' : same_view x es x' -> (left x' <= left x)%nat.
Proof.
  intros Hs. unfold left. destruct (instances x' !! target) as [i'|] eqn:Hi'; [|lia].
  destruct (Hs _ _ Hi') as (i & -> & Hg). destruct (grown_left _ _ Hg). lia.
Qed.

Lemma left_bound x : (left x <= 5)%nat.
Proof.
  unfold left. destruct (instances x !! target) as [i|]; [|lia]. unfold unsent, undone.
  pose proof (length_filter (fun ph => sent (default dvs_default (di_views i !! view)) !! ph = None) later_phases).
  cbn in *. destruct (done_sent i); lia.
Qed.

Lemma unsent_lt i i' ph :
  grown i i' -> ph ∈ later_phases -> sent (default dvs_default (di_views i !! view)) !! ph = None ->
  is_Some (sent (default dvs_default (di_views i' !! view)) !! ph) -> (unsent i' < unsent i)%nat.
Proof.
  intros (_ & _ & Hs) Hph Hn Hsome. eapply length_filter_lt; [intros ph'; apply Hs|exact Hph|done|].
  intros Hn'. rewrite Hn' in Hsome. by destruct Hsome.
Qed.

(** A turn that reports progress sent a statement. *)
Lemma step_progress again from to x :
  to ∈ later_phases -> val (advance_step again target view from to x) = Some true ->
  (left (st (advance_step again target view from to x)) < left x)%nat.
Proof.
  intros Hto. unfold advance_step. rewrite get_bind. destruct (phase_winner x target view from (dr_quorum x)) as [[w key]|]; [|done].
  destruct (view_of x target view) as [s|] eqn:Hs; [|done]. case_bool_decide as Hn; [done|]. apply eq_None_not_Some in Hn.
  destruct (negb _); [by rewrite bind_run|]. destruct (_ && negb _); [done|]. destruct (_ && negb _); [by rewrite !bind_run|]. intros _.
  unfold view_of in Hs. destruct (instances x !! target) as [i|] eqn:Hi; [|done]. cbn in Hs.
  rewrite bind_run. cbn [st]. rewrite bind_run. cbn [st]. set (x1 := st (on_inst _ _ x)). set (i1 := raise_key to view w i).
  assert (instances x1 !! target = Some i1) as Hi1 by (cbn; by rewrite lookup_alter_eq, Hi).
  assert (di_views i1 = di_views i /\ done_sent i1 = done_sent i) as [Hd Hds] by (split; apply raise_key_core).
  assert (to <> PEcho) as Hne by (intros ->; unfold later_phases in Hto; by repeat (apply elem_of_cons in Hto as [?|Hto]); try apply not_elem_of_nil in Hto).
  destruct (emit_statement_run x1 target view to w None None i1 s Hi1 ltac:(by rewrite Hd) Hn) as [[? _]|(views' & Hr & H1 & H2)]; [done|done|].
  rewrite Hr. cbn [st]. unfold left.
  match goal with |- (match ?o with _ => _ end < _)%nat => replace o with (Some (i1 <| di_views := views' |>))
    by (symmetry; apply lookup_insert_eq) end. rewrite Hi.
  assert (undone (i1 <| di_views := views' |>) = undone i) as ->.
  { unfold undone. cbn. by rewrite Hds. }
  enough (unsent (i1 <| di_views := views' |>) < unsent i)%nat by lia. apply (unsent_lt _ _ to).
  - split_and!; cbn; [apply raise_key_core|by rewrite Hds|].
    intros v ph. destruct (decide (v = view)) as [->|]; [rewrite H1, Hs|by rewrite H2, Hd]. cbn.
    destruct (decide (to = ph)) as [<-|]; [by rewrite lookup_insert_eq|by rewrite lookup_insert_ne].
  - done.
  - by rewrite Hs.
  - cbn. rewrite H1. cbn. rewrite lookup_insert_eq. by eexists.
Qed.

(** ** The loop *)

Lemma left_step {A} (m : DM A) x : sat same_view m -> (left (st (m x)) <= left x)%nat.
Proof. intros Hm. apply (same_left x (out (m x))). apply Hm. Qed.

Lemma round_progress again steps x :
  sat same_view again -> Forall (fun p => p.2 ∈ later_phases) steps -> val (advance_round again target view steps x) = Some true ->
  (left (st (advance_round again target view steps x)) < left x)%nat.
Proof.
  intros Hag Hst. revert x. induction Hst as [|[from to] steps Hto _ IH]; intros x; [done|]. cbn [advance_round]. rewrite bind_run. cbn [val st].
  pose proof (step_progress again from to x Hto) as Hp. pose proof (left_step (advance_step again target view from to) x (same_step again Hag from to)) as Hl.
  destruct (val (advance_step again target view from to x)) as [moved|]; [|done]. rewrite bind_run. cbn [val st mret M_ret].
  set (x1 := st (advance_step again target view from to x)) in *. specialize (IH x1).
  pose proof (left_step (advance_round again target view steps) x1 (same_round again Hag steps)) as Hl1.
  destruct (val (advance_round again target view steps x1)) as [later|]; cbn; [|done]. destruct moved; cbn.
  - intros _. specialize (Hp eq_refl). lia.
  - intros [= ->]. specialize (IH eq_refl). lia.
Qed.

(** The stored entries are well formed and named by their digest. *)
Definition sound_values x : Prop :=
  forall w e, dr_values x !! (target, w) = Some e -> valid_entry x target e = true /\ value_digest bincode_entry x e = w.

Lemma done_progress x w e :
  sound_values x -> entry_of x target w = Some e -> done_is_sent x target = false -> has_instance target x = true ->
  (left (st (emit_done bincode_entry target w e x)) < left x)%nat.
Proof.
  intros Hs He Hd Hi. destruct (Hs w e He) as [H1 H2]. unfold emit_done. rewrite get_bind, H1, H2, Z.eqb_refl. cbn [negb orb].
  unfold has_instance in Hi. apply bool_decide_eq_true in Hi as [i Hi]. unfold done_is_sent in Hd. rewrite Hi in Hd. rewrite Hi, Hd.
  apply bool_decide_eq_false, eq_None_not_Some in Hd. rewrite bind_run. cbn. unfold left. cbn. rewrite lookup_alter_eq, Hi. cbn.
  unfold undone. cbn. rewrite Hd. unfold unsent. cbn. lia.
Qed.

Definition all_steps : list (DirectResolutionPhase * DirectResolutionPhase) := [(PEcho, PKey1); (PKey1, PKey2); (PKey2, PKey3); (PKey3, PLock)].

Lemma pass_progress again x :
  sat same_view again -> sound_values (st (advance_round again target view all_steps x)) ->
  val (advance_pass bincode_entry again target view x) = Some true ->
  (left (st (advance_pass bincode_entry again target view x)) < left x)%nat.
Proof.
  intros Hag Hs. unfold advance_pass. fold all_steps. rewrite bind_run. cbn [val st].
  assert (Forall (fun p => p.2 ∈ later_phases) all_steps) as Hall.
  { apply (bool_decide_unpack _). vm_compute. exact I. }
  pose proof (round_progress again all_steps x Hag Hall) as Hp.
  pose proof (left_step (advance_round again target view all_steps) x (same_round again Hag all_steps)) as Hl.
  destruct (val (advance_round again target view all_steps x)) as [progressed|]; [|done].
  set (x1 := st (advance_round again target view all_steps x)) in *. rewrite get_bind.
  destruct (phase_winner x1 target view PLock (dr_quorum x1)) as [[w key]|] eqn:Hw; [|intros [= ->]; by apply Hp].
  destruct (done_is_sent x1 target) eqn:Hd; [intros [= ->]; by apply Hp|]. destruct (entry_of x1 target w) as [e|] eqn:He.
  - intros _. rewrite bind_run. cbn [st mret M_ret]. eapply Nat.lt_le_trans; [|exact Hl]. apply (done_progress x1 w e Hs He Hd).
    unfold has_instance. apply bool_decide_eq_true. unfold phase_winner, view_of in Hw. destruct (instances x1 !! target); [by eexists|done].
  - rewrite bind_run. done.
Qed.

(** More turns than statements left change nothing. *)
Lemma loop_bound_enough again (G : DirectResolver -> Prop) :
  sat same_view again -> (forall x, G x -> G (st (advance_pass bincode_entry again target view x))) ->
  (forall x, G x -> sound_values (st (advance_round again target view all_steps x))) ->
  forall n n' x, G x -> (left x < n)%nat -> (left x < n')%nat ->
  advance_loop bincode_entry again n target view x = advance_loop bincode_entry again n' target view x.
Proof.
  intros Hag HG Hs. induction n as [|n IH]; intros [|n'] x Hx Hn Hn'; [lia..|]. cbn [advance_loop]. rewrite !bind_run.
  pose proof (pass_progress again x Hag (Hs x Hx)) as Hp.
  destruct (val (advance_pass bincode_entry again target view x)) as [[]|]; [|done..].
  specialize (Hp eq_refl). rewrite (IH n'); [done|by apply HG|lia|lia].
Qed.

(** ** When the echoed value is backed *)

(** The ECHOs and the proposal of the view are kept, and what is backed stays so. *)
Definition echo_rel x (es : list DirectResolutionEffect) x' : Prop :=
  dr_quorum x' = dr_quorum x /\
  forall i', instances x' !! target = Some i' -> exists i, instances x !! target = Some i /\
    (forall s', di_views i' !! view = Some s' -> exists s, di_views i !! view = Some s /\
       statements s' !! PEcho = statements s !! PEcho /\ proposal s' = proposal s).
Definition settle_rel x (es : list DirectResolutionEffect) x' : Prop :=
  echo_rel x es x' /\ (forall w, has_instance target x' = true -> is_backed x target w = true -> is_backed x' target w = true).

#[export] Instance echo_rel_trace : TraceRel echo_rel.
Proof.
  split.
  - intros x. split; [done|]. intros i Hi. exists i. split; [done|]. intros s Hs. by exists s.
  - intros x1 x2 x3 es1 es2 [Q1 H1] [Q2 H2]. split; [congruence|]. intros i3 Hi3. destruct (H2 i3 Hi3) as (i2 & Hi2 & S2).
    destruct (H1 i2 Hi2) as (i1 & Hi1 & S1). exists i1. split; [done|]. intros s3 Hs3. destruct (S2 s3 Hs3) as (s2 & Hs2 & -> & ->).
    by apply S1.
Qed.

#[export] Instance settle_rel_trace : TraceRel settle_rel.
Proof.
  split.
  - intros x. split; [apply trace_refl|done].
  - intros x1 x2 x3 es1 es2 [E1 B1] [E2 B2]. split; [by eapply trace_trans|]. intros w Hi Hb. apply B2; [done|]. apply B1; [|done].
    destruct E2 as [_ E2]. unfold has_instance in *. apply bool_decide_eq_true in Hi as [i3 Hi3]. apply bool_decide_eq_true.
    destruct (E2 i3 Hi3) as (i2 & -> & _). by eexists.
Qed.

Lemma echo_rel_winner x es x' r :
  echo_rel x es x' -> phase_winner x' target view PEcho (dr_quorum x') = Some r -> phase_winner x target view PEcho (dr_quorum x) = Some r.
Proof.
  intros [Hq He]. unfold phase_winner, view_of. destruct (instances x' !! target) as [i'|]; [|done]. destruct (He i' eq_refl) as (i & -> & Hs).
  cbn. destruct (di_views i' !! view) as [s'|]; [|done]. destruct (Hs s' eq_refl) as (s & -> & H1 & H2). cbn.
  rewrite Hq. replace (phase_keys PEcho s') with (phase_keys PEcho s); [done|]. unfold phase_keys, expected_echo. by rewrite H1, H2.
Qed.

Definition settled x : Prop :=
  forall w key, phase_winner x target view PEcho (dr_quorum x) = Some (w, key) -> is_backed x target w = true.

Lemma settled_step x es x' : settled x -> settle_rel x es x' -> settled x'.
Proof.
  intros Hs [He Hb] w key Hw. apply Hb; [|eapply Hs; by eapply echo_rel_winner].
  unfold has_instance. apply bool_decide_eq_true. unfold phase_winner, view_of in Hw. destruct (instances x' !! target); [by eexists|done].
Qed.

Lemma is_backed_spec x w :
  is_backed x target w = true <-> exists i v s, instances x !! target = Some i /\ di_views i !! v = Some s /\
    dr_quorum x <= occurrences w (values_of (backing_witnesses s)).
Proof.
  unfold is_backed. destruct (instances x !! target) as [i|]; [|split; [done|intros (? & ? & ? & ? & _); done]].
  rewrite existsb_exists. split.
  - intros (s & Hs & Hq). apply list_elem_of_In, list_elem_of_fmap in Hs as ([v s'] & -> & Hs%elem_of_map_to_list).
    exists i, v, s'. split_and!; [done|done|]. cbn in Hq. lia.
  - intros (i' & v & s & [= <-] & Hs & Hq). exists s. split; [|lia]. apply list_elem_of_In, list_elem_of_fmap. exists (v, s).
    split; [done|by apply elem_of_map_to_list].
Qed.

(** Changes of the instance that keep its ECHOs, proposals and witnesses. *)
Lemma settle_upd x es x' i i' :
  dr_quorum x' = dr_quorum x -> instances x !! target = Some i -> instances x' !! target = Some i' ->
  (forall v, is_Some (di_views i' !! v) -> is_Some (di_views i !! v)) ->
  (forall v s, di_views i !! v = Some s -> exists s', di_views i' !! v = Some s' /\ statements s' !! PEcho = statements s !! PEcho /\
     proposal s' = proposal s /\ backing_witnesses s' = backing_witnesses s) ->
  settle_rel x es x'.
Proof.
  intros Hq Hi Hi' H1 H2. split; [split; [done|]|].
  - rewrite Hi'. intros ? [= <-]. exists i. split; [done|]. intros s' Hs'. destruct (H1 view ltac:(by eexists)) as [s Hs].
    destruct (H2 view s Hs) as (s'' & Hs'' & ? & ? & _). exists s. split; [done|]. by simplify_eq.
  - intros w _. rewrite !is_backed_spec. intros (i0 & v & s & Hi0 & Hs & Hn). assert (i0 = i) as -> by congruence.
    destruct (H2 v s Hs) as (s' & Hs' & _ & _ & Hb). exists i', v, s'. rewrite Hb, Hq. done.
Qed.

Lemma settle_same x es x' : dr_quorum x' = dr_quorum x -> instances x' !! target = instances x !! target -> settle_rel x es x'.
Proof.
  intros Hq Hi. split; [split; [done|]|].
  - rewrite Hi. intros i Hi'. exists i. split; [done|]. intros s Hs. by exists s.
  - intros w _. rewrite !is_backed_spec, Hi, Hq. done.
Qed.

Lemma fetch_settle w peers : sat settle_rel (ensure_value_fetch target w peers).
Proof.
  apply sat_fetch; [apply _|..]; intros; intros x; by apply settle_same.
Qed.

Lemma done_settle w e : sat settle_rel (emit_done bincode_entry target w e).
Proof.
  apply sat_get_bind. intros x. destruct (_ || _); [apply sat_ret, _|]. destruct (instances x !! target) as [i|] eqn:Hi; [|apply sat_ret, _].
  case_bool_decide; [apply sat_ret, _|]. unfold sat_at. rewrite bind_run. cbn [out st emit on_inst modify app val].
  eapply settle_upd; [done|exact Hi|cbn; by rewrite lookup_alter_eq, Hi|done|]. intros v s Hs. by exists s.
Qed.

Lemma send_settle x i s to w :
  instances x !! target = Some i -> di_views i !! view = Some s -> sent s !! to = None -> to <> PEcho ->
  sat_at settle_rel (on_inst target (raise_key to view w);; emit_statement target view to w None None) x.
Proof.
  intros Hi Hs Hn Hne. unfold sat_at. rewrite bind_run. cbn [out st].
  set (x1 := st (on_inst _ _ x)). set (i1 := raise_key to view w i).
  assert (instances x1 !! target = Some i1) as Hi1 by (cbn; by rewrite lookup_alter_eq, Hi).
  assert (di_views i1 = di_views i) as Hd by apply raise_key_core.
  destruct (emit_statement_run x1 target view to w None None i1 s Hi1 ltac:(by rewrite Hd) Hn) as [[? _]|(views' & Hr & H1 & H2)]; [done|done|].
  rewrite Hr. cbn [out st]. eapply settle_upd; [done|exact Hi|cbn; by rewrite lookup_insert_eq|..].
  - intros v. cbn. destruct (decide (v = view)) as [->|]; [by rewrite Hs|by rewrite H2, Hd].
  - intros v s0 Hs0. cbn. destruct (decide (v = view)) as [->|]; [|exists s0; by rewrite H2, Hd]. rewrite H1. eexists. split; [done|].
    assert (s0 = s) as -> by congruence. cbn. rewrite lookup_insert_ne by done. done.
Qed.

(** While the echoed value is backed, [again] is not called. *)
Lemma step_settled again again' from to x :
  settled x -> to <> PEcho ->
  advance_step again target view from to x = advance_step again' target view from to x /\
  settle_rel x (out (advance_step again target view from to x)) (st (advance_step again target view from to x)).
Proof.
  intros Hset Hto. unfold advance_step. rewrite !get_bind. destruct (phase_winner x target view from (dr_quorum x)) as [[w key]|] eqn:Hw.
  2: { split; [done|apply trace_refl]. }
  destruct (view_of x target view) as [s|] eqn:Hs; [|split; [done|apply trace_refl]].
  case_bool_decide as Hn; [split; [done|apply trace_refl]|]. apply eq_None_not_Some in Hn.
  destruct (negb (has_valid_entry x target w)).
  { split; [done|]. apply (sat_at_then settle_rel); [apply fetch_settle|intros; apply sat_ret, _]. }
  destruct (_ && negb (fresh_origin_ok x target view w)); [split; [done|apply trace_refl]|].
  destruct (_ && negb (is_backed x target w)) eqn:Hb.
  - exfalso. apply andb_prop in Hb as [[He%bool_decide_eq_true _]%andb_prop Hnb]. subst from. by rewrite (Hset w key Hw) in Hnb.
  - split; [done|]. unfold view_of in Hs. destruct (instances x !! target) as [i|] eqn:Hi; [|done]. cbn in Hs.
    assert (sat_at settle_rel ((on_inst target (raise_key to view w);; emit_statement target view to w None None);; mret (Some true)) x) as Hsend.
    { apply sat_at_then; [apply _|by eapply send_settle|intros; apply sat_ret, _]. }
    unfold sat_at in Hsend. by rewrite bind_assoc in Hsend.
Qed.

Lemma round_settled again again' steps x :
  settled x -> Forall (fun p => p.2 <> PEcho) steps ->
  advance_round again target view steps x = advance_round again' target view steps x /\
  settle_rel x (out (advance_round again target view steps x)) (st (advance_round again target view steps x)).
Proof.
  intros Hx Hst. revert x Hx. induction Hst as [|[from to] steps Hto _ IH]; intros x Hx; [split; [done|apply trace_refl]|].
  cbn [advance_round]. rewrite !bind_run. cbn [out st]. destruct (step_settled again again' from to x Hx Hto) as [Heq Hrel]. rewrite <- Heq.
  pose proof (settled_step _ _ _ Hx Hrel) as Hx1. destruct (val (advance_step again target view from to x)) as [moved|].
  - destruct (IH _ Hx1) as [Heq1 Hrel1]. rewrite !bind_run. cbn [out st val mret M_ret]. rewrite <- Heq1, app_nil_r.
    split; [done|by eapply trace_trans].
  - split; [done|]. cbn [out st mret M_ret]. by rewrite app_nil_r.
Qed.

Lemma pass_settled again again' x :
  settled x ->
  advance_pass bincode_entry again target view x = advance_pass bincode_entry again' target view x /\
  settle_rel x (out (advance_pass bincode_entry again target view x)) (st (advance_pass bincode_entry again target view x)).
Proof.
  intros Hx. unfold advance_pass. fold all_steps. rewrite !bind_run. cbn [out st].
  destruct (round_settled again again' all_steps x Hx) as [Heq Hrel].
  { apply (bool_decide_unpack _). vm_compute. exact I. }
  rewrite <- Heq. split; [done|]. eapply trace_trans; [exact Hrel|].
  destruct (val (advance_round again target view all_steps x)) as [progressed|]; [|apply trace_refl].
  set (x1 := st (advance_round again target view all_steps x)). rewrite get_bind.
  destruct (phase_winner x1 target view PLock (dr_quorum x1)) as [[w key]|]; [|apply trace_refl].
  destruct (done_is_sent x1 target); [apply trace_refl|]. destruct (entry_of x1 target w) as [e|].
  - apply (sat_at_then settle_rel); [apply done_settle|intros; apply sat_ret, _].
  - apply (sat_at_then settle_rel); [apply fetch_settle|intros; apply sat_ret, _].
Qed.

Lemma loop_settled again again' n x :
  settled x -> advance_loop bincode_entry again n target view x = advance_loop bincode_entry again' n target view x.
Proof.
  revert x. induction n as [|n IH]; intros x Hx; [done|]. cbn [advance_loop]. rewrite !bind_run.
  destruct (pass_settled again again' x Hx) as [<- Hrel]. pose proof (settled_step _ _ _ Hx Hrel) as Hx1.
  destruct (val (advance_pass bincode_entry again target view x)) as [[]|]; [|done..]. by rewrite IH.
Qed.
End advance.

(** ** Good states *)

Section good.
Context {Hash : Hashing} (bincode_entry : ResolutionEntry -> list Z).
Context (c : Committee) (sid : Digest) (me : PublicKey) (said : PublicKey -> DMsg -> Prop)
  (voted : View -> DirectResolverView -> Digest -> option Z -> Prop).
Abbreviation DM := (M DirectResolutionEffect DirectResolver) (only parsing).
Implicit Types (x y : DirectResolver).
(** A fresh ECHO quorum and a quorum of witnesses of one view are on one value. *)
Context (past0 : list DirectResolutionEffect).
Definition good x : Prop := exists es, linv_all bincode_entry c sid me said voted (past0 ++ es) x.
Definition coherent : Prop := forall x target view w w', good x ->
  phase_winner x target view PEcho (dr_quorum x) = Some (w, Some 0) -> backing_winner x target view (dr_quorum x) = Some w' -> w' = w.
Context (Hcoh : coherent).
#[local] Set Default Proof Using "Type Hcoh".

Lemma good_sound x target : good x -> sound_values bincode_entry target x.
Proof.
  intros [es L] w e He. destruct (li_config _ _ _ _ _ _ _ _ _ (L target)) as (Hc & _ & Hs & _).
  destruct (li_values _ _ _ _ _ _ _ _ _ (L target) _ _ _ He) as (Hw & Ht & Hf). unfold valid_entry, value_digest. rewrite Hc, Ht, Hf, Z.eqb_refl, Hs.
  done.
Qed.

Section at_one.
Context (target : View) (view : DirectResolverView).
Definition good_at x : Prop := good x /\ at_view target view x.
Abbreviation advs t := (advances bincode_entry c sid me t said (voted t) target view).

Lemma good_step {A} (m : DM A) x : (forall t, sat (advs t) m) -> good_at x -> good_at (st (m x)).
Proof.
  intros Hm [[es L] Hv]. split; [|by apply (Hm 0 x Hv)]. exists (es ++ out (m x)). rewrite (assoc_L (++)). intros t.
  apply (Hm t x Hv). apply L.
Qed.

Section again.
Context (again again' : DM ()) (Hk : forall t, sat (advs t) again) (Hk' : forall t, sat (advs t) again').
Context (Hag : forall y, good_at y -> settled target view y -> again y = again' y).
#[local] Set Default Proof Using "Type Hcoh Hk Hag".

Lemma witness_echo w : sat (echo_rel target view) (emit_backing_witness target view w).
Proof.
  apply sat_get_bind. intros x. destruct (entry_of x target w); [|apply sat_ret, _].
  unfold view_of. destruct (instances x !! target) as [i|] eqn:Hi; [|apply sat_ret, _]. cbn [mbind option_bind].
  destruct (di_views i !! view) as [s|] eqn:Hs; [|apply sat_ret, _]. case_bool_decide; [apply sat_ret, _|].
  unfold sat_at. rewrite bind_run. cbn [out st emit on_view on_inst modify app val]. split; [done|]. cbn. rewrite lookup_alter_eq, Hi. cbn.
  intros i' [= <-]. exists i. split; [done|]. cbn. rewrite lookup_alter_eq, Hs. cbn. intros s' [= <-]. by exists s.
Qed.

Lemma backing_settled x :
  good_at x -> (forall w key, phase_winner x target view PEcho (dr_quorum x) = Some (w, key) -> key = Some 0) ->
  is_Some (backing_winner x target view (dr_quorum x)) -> settled target view x.
Proof.
  intros [Hx _] Hk0 [w' Hw'] w key Hw. rewrite (Hk0 w key Hw) in Hw.
  assert (w' = w) as -> by by eapply Hcoh. apply is_backed_spec. unfold backing_winner, view_of in Hw'.
  destruct (instances x !! target) as [i|] eqn:Hi; [|done]. cbn in Hw'. destruct (di_views i !! view) as [s|] eqn:Hs; [|done].
  exists i, view, s. split_and!; [done|done|]. by apply first_quorum_spec in Hw'.
Qed.

Lemma good_step_at {A} (m : DM A) x : (forall t, sat_at (advs t) m x) -> good_at x -> good_at (st (m x)).
Proof.
  intros Hm [[es L] Hv]. split; [|by apply (Hm 0 Hv)]. exists (es ++ out (m x)). rewrite (assoc_L (++)). intros t.
  apply (Hm t Hv). apply L.
Qed.

Lemma backing_agree x :
  good_at x -> (forall w key, phase_winner x target view PEcho (dr_quorum x) = Some (w, key) -> key = Some 0) ->
  recheck_backing again target view x = recheck_backing again' target view x.
Proof.
  intros Hx Hk0. unfold recheck_backing. rewrite !get_bind.
  set (m := match backing_winner x target view (dr_f_plus_1 x) with Some _ => _ | None => _ end). rewrite !(bind_run m).
  assert (good_at (st (m x)) /\ echo_rel target view x (out (m x)) (st (m x))) as [Hx1 Hrel].
  { unfold m. destruct (backing_winner x target view (dr_f_plus_1 x)) as [w|] eqn:Hw; [|split; [done|apply trace_refl]]. split; [|apply witness_echo].
    apply good_step_at; [|done]. intros t. apply sat_advances; [by apply sat_at_backing|apply witness_same]. }
  set (x1 := st (m x)) in *. rewrite !get_bind. destruct (_ && _) eqn:Hb; [|done]. cbn [when].
  apply andb_prop in Hb as [[Hb%bool_decide_eq_true _]%andb_prop _]. rewrite Hag; [done|done|]. apply backing_settled; [done| |done].
  intros w key Hw. eapply Hk0. by eapply echo_rel_winner.
Qed.

Lemma step_agree from to x :
  good_at x -> to <> PEcho -> from = prev_phase to -> advance_step again target view from to x = advance_step again' target view from to x.
Proof.
  intros Hx Hto Hfrom. unfold advance_step. rewrite !get_bind.
  destruct (phase_winner x target view from (dr_quorum x)) as [[w key]|] eqn:Hw; [|done].
  destruct (view_of x target view) as [s|] eqn:Hs; [|done]. case_bool_decide; [done|]. destruct (negb (has_valid_entry x target w)); [done|].
  destruct (_ && negb (fresh_origin_ok x target view w)) eqn:Hf; [done|].
  destruct (_ && negb (is_backed x target w)) eqn:Hb; [|done]. destruct (proposal s) as [p|] eqn:Hp; [|by rewrite andb_false_r in Hb].
  apply andb_prop in Hb as [[He%bool_decide_eq_true Hz]%andb_prop _]. rewrite He in Hw, Hf.
  assert (fresh_origin_ok x target view w = true) as Hf' by by destruct (fresh_origin_ok x target view w).
  rewrite !bind_run. set (x1 := st (emit_backing_witness target view w x)).
  assert (good_at x1) as Hx1.
  { apply good_step_at; [|done]. intros t. apply sat_advances; [eapply sat_at_fresh; [done..|lia|done]|apply witness_same]. }
  rewrite backing_agree; [done|done|]. intros w2 key2 Hw2.
  assert (phase_winner x target view PEcho (dr_quorum x) = Some (w2, key2)) as Hw2' by exact (echo_rel_winner target view x (out (emit_backing_witness target view w x)) x1 _ (witness_echo w x) Hw2).
  destruct Hx as [[es L] _]. specialize (L target). pose proof Hs as Hs'. unfold view_of in Hs'. destruct (instances x !! target) as [i|] eqn:Hi; [|done].
  destruct (li_live _ _ _ _ _ _ _ _ _ L i Hi) as (Lv & _).
  destruct (proj1 (phase_winner_heard _ _ _ _ _ _ _ _ _ _ _ _ _ _ L Hi Lv Hw2') eq_refl s p Hs Hp) as [-> _]. f_equal. lia.
Qed.

Lemma round_agree steps x :
  good_at x -> Forall (fun p => p.2 <> PEcho /\ p.1 = prev_phase p.2) steps ->
  advance_round again target view steps x = advance_round again' target view steps x.
Proof.
  intros Hx Hst. revert x Hx. induction Hst as [|[from to] steps [Hto Hfrom] _ IH]; intros x Hx; [done|].
  cbn [advance_round]. rewrite !bind_run, <- (step_agree from to x Hx Hto Hfrom).
  assert (good_at (st (advance_step again target view from to x))) as Hx1 by (apply good_step; [intros t; by apply sat_advance_step|done]).
  destruct (val (advance_step again target view from to x)) as [moved|]; [|done]. rewrite !bind_run. by rewrite IH.
Qed.

Lemma all_steps_ok : Forall (fun p => p.2 <> PEcho /\ p.1 = prev_phase p.2) all_steps.
Proof. by repeat constructor. Qed.

Lemma pass_agree x : good_at x -> advance_pass bincode_entry again target view x = advance_pass bincode_entry again' target view x.
Proof.
  intros Hx. unfold advance_pass. fold all_steps. rewrite !bind_run, <- (round_agree all_steps x Hx all_steps_ok). done.
Qed.

Lemma loop_agree n x : good_at x -> advance_loop bincode_entry again n target view x = advance_loop bincode_entry again' n target view x.
Proof.
  revert x. induction n as [|n IH]; intros x Hx; [done|]. cbn [advance_loop]. rewrite !bind_run, <- (pass_agree x Hx).
  assert (good_at (st (advance_pass bincode_entry again target view x))) as Hx1 by (apply good_step; [intros t; by apply sat_advance_pass|done]).
  destruct (val (advance_pass bincode_entry again target view x)) as [[]|]; [|done..]. by rewrite IH.
Qed.
End again.

(** ** The recursion *)

Abbreviation deep F d := (advance_deep (fuel := F) bincode_entry d target view).

Lemma deep_advs (F : Fuel) d t : sat (advs t) (deep F d).
Proof. apply sat_advance_deep. Qed.

Lemma bound_enough (F : Fuel) d n n' x :
  good_at x -> (6 <= n)%nat -> (6 <= n')%nat ->
  advance_loop bincode_entry (deep F d) n target view x = advance_loop bincode_entry (deep F d) n' target view x.
Proof.
  intros Hx Hn Hn'. pose proof (left_bound target view x). apply (loop_bound_enough bincode_entry target view (deep F d) good_at); try lia.
  - apply same_deep.
  - intros y Hy. apply good_step; [|done]. intros t. apply sat_advance_pass, deep_advs.
  - intros y Hy. apply good_sound. apply (good_step (advance_round (deep F d) target view all_steps) y); [|done].
    intros t. apply sat_advance_round; [apply deep_advs|]. by repeat constructor.
  - done.
Qed.

Lemma deep_settled (F F' : Fuel) d d' x :
  good_at x -> settled target view x -> (6 <= @loop_bound F)%nat -> (6 <= @loop_bound F')%nat -> deep F (S d) x = deep F' (S d') x.
Proof.
  intros Hx Hs Hn Hn'. cbn [advance_deep]. rewrite !get_bind. destruct (_ || _); [done|]. rewrite !bind_run.
  rewrite (loop_settled bincode_entry target view (deep F d) (deep F' d') _ x Hs).
  by rewrite (bound_enough F' d' (@loop_bound F) (@loop_bound F') x Hx Hn Hn').
Qed.

Lemma deep_enough (F F' : Fuel) d d' x :
  good x -> (6 <= @loop_bound F)%nat -> (6 <= @loop_bound F')%nat -> deep F (S (S d)) x = deep F' (S (S d')) x.
Proof.
  intros Hg Hn Hn'. remember (S d) as d1 eqn:E1. remember (S d') as d1' eqn:E1'. cbn [advance_deep]. rewrite !get_bind.
  destruct (negb (has_instance target x) || negb (current_of x target =? view)) eqn:Hb; [done|].
  assert (good_at x) as Hx.
  { split; [done|]. intros i Hi. unfold current_of in Hb. rewrite Hi in Hb. lia. }
  rewrite !bind_run. rewrite (loop_agree (deep F d1) (deep F' d1')); [|apply deep_advs| |done].
  - by rewrite (bound_enough F' d1' (@loop_bound F) (@loop_bound F') x Hx Hn Hn').
  - intros y Hy Hs. subst. by apply deep_settled.
Qed.
End at_one.

(** ** Handlers with different bounds *)

Context (bincode_payload : Manifest -> Manifest -> list Z).
Context (F F' : Fuel) (HF : (6 <= @loop_bound F /\ 2 <= @advance_depth F)%nat) (HF' : (6 <= @loop_bound F' /\ 2 <= @advance_depth F')%nat).
#[local] Set Default Proof Using "Type Hcoh HF HF'".
Abbreviation kept := (kept bincode_entry c sid me said voted).
Abbreviation keeps t := (keeps bincode_entry c sid me t said (voted t)).

Definition agree_at {A} (m m' : DM A) x : Prop := m x = m' x /\ good (st (m x)).
Definition agree {A} (m m' : DM A) : Prop := forall x, good x -> agree_at m m' x.

Lemma kept_good {A} (m : DM A) x : sat_at kept m x -> good x -> good (st (m x)).
Proof.
  intros Hm [es L]. exists (es ++ out (m x)). rewrite (assoc_L (++)). by apply Hm.
Qed.

Lemma agree_at_refl {A} (m : DM A) x : sat_at kept m x -> good x -> agree_at m m x.
Proof. intros Hm Hx. split; [done|by apply kept_good]. Qed.

Lemma agree_refl {A} (m : DM A) : sat kept m -> agree m m.
Proof. intros Hm x Hx. by apply agree_at_refl. Qed.

Lemma agree_keeps {A} (m : DM A) : (forall t, sat (keeps t) m) -> agree m m.
Proof. intros Hm. by apply agree_refl, sat_all. Qed.

Lemma agree_at_keeps {A} (m : DM A) x : (forall t, sat_at (keeps t) m x) -> good x -> agree_at m m x.
Proof. intros Hm. by apply agree_at_refl, sat_at_all. Qed.

Lemma agree_at_ret {A} (a : A) x : good x -> agree_at (mret a) (mret a) x.
Proof. intros Hx. by split. Qed.

Lemma agree_at_bind {A B} (m m' : DM A) (k k' : A -> DM B) x :
  agree_at m m' x -> agree_at (k (val (m x))) (k' (val (m x))) (st (m x)) -> agree_at (m ≫= k) (m' ≫= k') x.
Proof. intros [H1 H2] [H3 H4]. split; [|done]. by rewrite !bind_run, <- H1, H3. Qed.

Lemma agree_at_then {A B} (m m' : DM A) (k k' : A -> DM B) x :
  agree_at m m' x -> (forall a, agree (k a) (k' a)) -> agree_at (m ≫= k) (m' ≫= k') x.
Proof. intros Hm Hk. apply agree_at_bind; [done|]. apply Hk, Hm. Qed.

Lemma agree_bind {A B} (m m' : DM A) (k k' : A -> DM B) :
  agree m m' -> (forall a, agree (k a) (k' a)) -> agree (m ≫= k) (m' ≫= k').
Proof. intros Hm Hk x Hx. apply agree_at_then; auto. Qed.

Lemma agree_get {B} (k k' : DirectResolver -> DM B) : (forall x, good x -> agree_at (k x) (k' x) x) -> agree (get ≫= k) (get ≫= k').
Proof. intros Hk x Hx. apply agree_at_bind; [by split|by apply Hk]. Qed.

Lemma agree_when b (m m' : DM ()) : agree m m' -> agree (when b m) (when b m').
Proof. destruct b; [done|]. intros _ x Hx. by apply agree_at_ret. Qed.

Lemma agree_for_each {A} (f f' : A -> DM ()) l : (forall a, agree (f a) (f' a)) -> agree (for_each f l) (for_each f' l).
Proof. intros Hf. induction l as [|a l IH]; [intros x; apply agree_at_ret|]. by apply agree_bind. Qed.

Lemma agree_advance target view : agree (advance_view (fuel := F) bincode_entry target view) (advance_view (fuel := F') bincode_entry target view).
Proof.
  intros x Hx. split; [|apply kept_good; [apply sat_all; intros t; apply sat_advance_view|done]]. unfold advance_view.
  destruct HF as [H1 H2], HF' as [H1' H2']. destruct (@advance_depth F) as [|[|d]], (@advance_depth F') as [|[|d']]; [lia..|].
  by apply deep_enough.
Qed.

(** With no depth at all, a handler stops before it advances. *)
Definition no_fuel : Fuel := {| loop_bound := 0; advance_depth := 0 |}.

Lemma bind_tail {A B C} (m : DM A) (k : A -> DM B) (k0 : A -> DM C) (tail : DM B) x :
  (forall y, k (val (m x)) y = (k0 (val (m x)) ≫= fun _ => tail) y) -> (m ≫= k) x = ((m ≫= k0) ≫= fun _ => tail) x.
Proof. intros Hk. rewrite bind_assoc, !(bind_run m). by rewrite Hk. Qed.

Lemma enter_view_shape (G : Fuel) target view x :
  enter_view (fuel := G) bincode_entry target view x =
  (match instances x !! target with
   | Some i => if view <=? entered_through i then skip
               else enter_view (fuel := no_fuel) bincode_entry target view;; advance_view (fuel := G) bincode_entry target view
   | None => skip
   end) x.
Proof.
  destruct (instances x !! target) as [i|] eqn:Hi.
  - destruct (view <=? entered_through i) eqn:Hv.
    + unfold enter_view. by rewrite get_bind, Hi, Hv.
    + apply bind_tail. intros y. cbn [val get]. rewrite Hi, Hv. cbn zeta.
      do 8 (apply bind_tail; clear y; intros y). symmetry.
      exact (ret_bind tt (fun _ => advance_view (fuel := G) bincode_entry target view) y).
  - unfold enter_view. by rewrite get_bind, Hi.
Qed.

Lemma agree_at_eq {A} (m m' n n' : DM A) x : m x = n x -> m' x = n' x -> agree_at n n' x -> agree_at m m' x.
Proof. unfold agree_at. by intros -> ->. Qed.

Lemma agree_enter target view : agree (enter_view (fuel := F) bincode_entry target view) (enter_view (fuel := F') bincode_entry target view).
Proof.
  intros x Hx. eapply agree_at_eq; [apply enter_view_shape..|]. destruct (instances x !! target); [|by apply agree_at_ret].
  destruct (_ <=? _); [by apply agree_at_ret|]. apply agree_at_then; [|intros _; apply agree_advance].
  apply agree_at_keeps; [|done]. intros t. apply sat_enter_view.
Qed.

Lemma agree_wishes target : agree (recheck_wishes (fuel := F) bincode_entry target) (recheck_wishes (fuel := F') bincode_entry target).
Proof.
  apply agree_get. intros x Hx. destruct (negb _); [by apply agree_at_ret|]. apply agree_at_then.
  - apply agree_at_keeps; [intros t; apply sat_raise_wish|done].
  - intros _. apply agree_get. intros x1 Hx1. destruct (instances x1 !! target); [|by apply agree_at_ret]. cbn zeta.
    destruct (_ <? _); [by apply agree_at_ret|]. apply agree_for_each; [|done]. intros v. apply agree_enter.
Qed.

Lemma agree_timer target view kind : agree (on_timer (fuel := F) bincode_entry target view kind) (on_timer (fuel := F') bincode_entry target view kind).
Proof.
  apply agree_get. intros x Hx. destruct (instances x !! target) as [i|]; [|by apply agree_at_ret].
  assert (agree (raise_own_wish target (u64_saturating_add view 1);; recheck_wishes (fuel := F) bincode_entry target)
    (raise_own_wish target (u64_saturating_add view 1);; recheck_wishes (fuel := F') bincode_entry target)) as Hw.
  { apply agree_bind; [apply agree_keeps; intros t; apply sat_raise_wish|intros _; apply agree_wishes]. }
  destruct kind; (destruct (_ || _) || destruct (negb _)); try by apply agree_at_ret.
  - apply agree_at_keeps; [|done]. intros t. apply sat_bind; [apply _|by apply sat_emit_silent|intros _; by apply sat_emit_silent].
  - destruct (_ && _); [by apply agree_at_ret|by apply Hw].
  - destruct (_ && _); [by apply agree_at_ret|by apply Hw].
  - destruct (_ && _); [by apply agree_at_ret|by apply Hw].
Qed.

Lemma agree_retry target : agree (retry_target (fuel := F) bincode_entry target) (retry_target (fuel := F') bincode_entry target).
Proof.
  apply agree_get. intros x Hx. destruct (negb _); [by apply agree_at_ret|]. cbn zeta.
  apply agree_at_then; [apply agree_at_keeps; [intros t; apply sat_try_primary|done]|intros _].
  apply agree_bind; [apply agree_keeps; intros t; apply sat_try_echo|intros _].
  apply agree_bind; [apply agree_advance|intros _]. apply agree_keeps. intros t. apply sat_recheck_done.
Qed.

Lemma agree_backing target view :
  agree (recheck_backing (advance_view (fuel := F) bincode_entry target view) target view)
    (recheck_backing (advance_view (fuel := F') bincode_entry target view) target view).
Proof.
  apply agree_get. intros x Hx. apply agree_at_then.
  - apply agree_at_keeps; [|done]. intros t. destruct (backing_winner x _ _ _) eqn:Hw; [by apply sat_at_backing|apply sat_ret, _].
  - intros _. apply agree_get. intros x1 Hx1. apply agree_when; [apply agree_advance|done].
Qed.

Lemma agree_witness w :
  wi_sender w <> me -> said (wi_sender w) (MWitness (wi_target w) (wi_view w) (wi_value w) (wi_sender w)) ->
  agree (on_witness (fuel := F) bincode_entry w) (on_witness (fuel := F') bincode_entry w).
Proof.
  intros Hme Hsaid. apply agree_get. intros x Hx. cbn zeta. destruct (_ || negb (has_instance _ _)) eqn:Hg; [by apply agree_at_ret|].
  destruct (admits_phase_view x (wi_target w) (wi_view w)) eqn:Ha; cbn [negb]; [|by apply agree_at_ret].
  destruct (match view_of _ _ _ with Some _ => _ | None => _ end); [by apply agree_at_ret|].
  assert (agree_at (remember_entry bincode_entry (wi_target w) (wi_entry w)) (remember_entry bincode_entry (wi_target w) (wi_entry w)) x) as Hr.
  { apply agree_at_keeps; [intros t; apply sat_remember|done]. }
  apply agree_at_bind; [done|]. destruct Hr as [_ Hg1]. destruct (val _); [|by apply agree_at_ret].
  apply agree_at_then.
  - apply agree_at_keeps; [|done]. intros t. apply sat_at_note_witness; [done|done| |apply (admitted_pos x (wi_target w) _ false); by rewrite Ha].
    unfold is_member. rewrite remember_committee. change (is_member x (wi_sender w) = true). by destruct (is_member x (wi_sender w)).
  - intros _. apply agree_bind; [apply agree_backing|intros _; apply agree_retry].
Qed.

Lemma agree_update target entries :
  agree (update_candidates (fuel := F) bincode_entry bincode_payload target entries) (update_candidates (fuel := F') bincode_entry bincode_payload target entries).
Proof.
  apply agree_get. intros x Hx. destruct (_ || _) eqn:Hg; [by apply agree_at_ret|].
  set (m := modify _). assert (agree_at m m x) as Hm by (apply agree_at_keeps; [intros t; by apply sat_modify|done]).
  apply agree_at_bind; [done|]. destruct Hm as [_ Hx1]. cbn [val m modify].
  assert (agree_at (remember_all bincode_entry target entries) (remember_all bincode_entry target entries) (st (m x))) as Hr.
  { apply agree_at_keeps; [intros t; apply sat_remember_all|done]. }
  apply agree_at_bind; [done|]. destruct Hr as [_ Hx2]. case_bool_decide; [by apply agree_at_ret|]. apply agree_at_then.
  - apply agree_at_keeps; [|done]. intros t. apply sat_at_add.
    + rewrite (proj1 (remember_all_floor _ _ _ _)). change (is_decided target x = false).
      destruct (is_decided target x); [by rewrite orb_true_r in Hg|done].
    + rewrite (proj2 (remember_all_floor _ _ _ _)). change ((target <? retained_floor x) = false). lia.
  - intros _. apply agree_bind; [apply agree_keeps; intros t; apply sat_raise_wish|intros _].
    apply agree_bind; [apply agree_wishes|intros _]. apply agree_keeps. intros t. apply sat_bind; [apply _|apply sat_get, _|].
    intros x2. apply sat_try_primary.
Qed.

Lemma agree_activate target :
  agree (activate_with_local_terminal (fuel := F) bincode_entry target) (activate_with_local_terminal (fuel := F') bincode_entry target).
Proof.
  apply agree_get. intros x Hx. destruct (_ || _) eqn:Hg; [by apply agree_at_ret|].
  apply orb_false_iff in Hg as [[Hg Hd]%orb_false_iff Hi]. apply orb_false_iff in Hg as [_ Hf].
  apply bool_decide_eq_false, eq_None_not_Some in Hi. apply agree_at_then.
  - apply agree_at_keeps; [|done]. intros t. by eapply sat_at_insert.
  - intros _. apply agree_bind; [apply agree_keeps; intros t; apply sat_raise_wish|intros _; apply agree_wishes].
Qed.

Lemma agree_wish w : agree (on_wish (fuel := F) bincode_entry w) (on_wish (fuel := F') bincode_entry w).
Proof.
  assert (sat kept (on_wish (fuel := F) bincode_entry w)) as Hk by apply sat_on_wish.
  assert (agree (recheck_wishes (fuel := F) bincode_entry (dw_target w);; replay_progress_to (dw_target w) (dw_sender w) (dw_view w))
    (recheck_wishes (fuel := F') bincode_entry (dw_target w);; replay_progress_to (dw_target w) (dw_sender w) (dw_view w))) as Hw.
  { apply agree_bind; [apply agree_wishes|intros _; apply agree_refl, sat_replay_progress]. }
  intros x Hx. split; [|by apply kept_good]. unfold on_wish. rewrite !get_bind. cbn zeta. destruct (_ || _); [done|].
  destruct (decisions x !! dw_target w) as [[value entry]|] eqn:Hd; [done|].
  assert (is_decided (dw_target w) x = false) as Hdec by (unfold is_decided; by rewrite Hd, bool_decide_false by (by intros [])).
  destruct (instances x !! dw_target w) as [i|] eqn:Hi.
  - destruct (_ <=? _); [done|]. refine (proj1 (agree_at_then _ _ _ _ x _ (fun _ => Hw))).
    apply agree_at_keeps; [|done]. intros t. by apply sat_on_inst.
  - destruct (_ || _) eqn:Hf; [done|]. apply orb_false_iff in Hf as [Hf _].
    repeat match goal with |- context [if ?b then _ else _] => destruct b; [done|] end.
    refine (proj1 (agree_at_then _ _ _ _ x _ (fun _ => Hw))). apply agree_at_keeps; [|done]. intros t. by eapply sat_at_insert.
Qed.

Lemma agree_statement m : ds_sender m <> me -> said (ds_sender m) (MStatement m) ->
  agree (on_statement (fuel := F) bincode_entry m) (on_statement (fuel := F') bincode_entry m).
Proof.
  intros Hme Hsaid. apply agree_get. intros x Hx. cbn zeta. destruct (_ || negb (has_instance _ _)) eqn:Hg; [by apply agree_at_ret|].
  destruct (admits_phase_view x (ds_target m) (ds_view m)) eqn:Ha; cbn [negb]; [|by apply agree_at_ret].
  set (open := on_view_entry _ _ _). assert (agree_at open open x) as Ho.
  { apply agree_at_keeps; [|done]. intros t. apply sat_at_open_phase. apply (admitted_pos x (ds_target m) _ false). by rewrite Ha. }
  apply agree_at_bind; [done|]. destruct Ho as [_ Hx1].
  destruct (match view_of _ _ _ with Some _ => _ | None => _ end); [by apply agree_at_ret|]. apply agree_at_then.
  - apply agree_at_keeps; [|done]. intros t. apply sat_at_note_statement; [done|done|].
    change (is_member x (ds_sender m) = true). by destruct (is_member x (ds_sender m)).
  - intros _. apply agree_bind; [apply agree_keeps; intros t; apply sat_try_primary|intros _].
    apply agree_bind; [apply agree_keeps; intros t; apply sat_try_echo|intros _]. apply agree_when, agree_advance.
Qed.

Lemma agree_vote target view value vote :
  (forall origin, vote = Accept origin -> voted target view value origin) ->
  agree (on_vote (fuel := F) bincode_entry target view value vote) (on_vote (fuel := F') bincode_entry target view value vote).
Proof.
  intros Hvote x Hx. split.
  2: { apply kept_good; [|done]. apply sat_all. intros t. apply sat_on_vote. by intros ->. }
  unfold on_vote. rewrite !get_bind. destruct (view_of x target view) as [s|] eqn:Hs; [|done]. cbn zeta.
  destruct (_ || _) eqn:Hg; [done|].
  assert (vote_status s = VsRequested /\ exists p, proposal s = Some p /\ dp_value p = value) as (Hst & p & Hp & Hpv).
  { apply orb_false_iff in Hg as [H1%negb_false_iff%bool_decide_eq_true H2%negb_false_iff]. split; [done|].
    destruct (proposal s) as [p|]; [|done]. exists p. split; [done|lia]. }
  destruct vote as [perm|o]; [done|]. destruct (match o with Some bit => 1 <? bit | None => false end); [done|].
  refine (proj1 (agree_at_then _ _ _ _ x _ _)).
  - apply agree_at_keeps; [|done]. intros t. eapply sat_at_answer; [done|by rewrite Hst|done|]. intros -> _. rewrite Hpv. by apply Hvote.
  - intros _. apply agree_bind; [apply agree_keeps; intros t; apply sat_try_echo|intros _; apply agree_advance].
Qed.

Lemma agree_serve v : agree (on_value_serve (fuel := F) bincode_entry v) (on_value_serve (fuel := F') bincode_entry v).
Proof.
  apply agree_get. intros x Hx. cbn zeta. destruct (_ || _); [by apply agree_at_ret|].
  apply agree_at_then; [apply agree_at_keeps; [intros t; by apply sat_modify|done]|intros _].
  apply agree_bind; [apply agree_keeps; intros t; apply sat_remember|intros _; apply agree_retry].
Qed.

Lemma agree_run ev x : ev_ok me said voted ev -> good x ->
  direct_run (fuel := F) bincode_entry bincode_payload ev x = direct_run (fuel := F') bincode_entry bincode_payload ev x.
Proof.
  intros [Hd He] Hx.
  assert (forall m m' : DM (), agree m m' -> m x = m' x) as Hm by (intros m m' Ha; by apply Ha).
  destruct ev; unfold direct_run; [apply Hm|reflexivity|apply Hm|reflexivity..|apply Hm|apply Hm|reflexivity|apply Hm|
    reflexivity|reflexivity|apply Hm|reflexivity|apply Hm|reflexivity|reflexivity|apply Hm].
  - apply agree_update.
  - apply agree_activate.
  - apply agree_timer.
  - apply agree_vote. by intros origin ->.
  - apply agree_wish.
  - destruct (Hd _ _ eq_refl). by apply agree_witness.
  - destruct (Hd _ _ eq_refl). by apply agree_statement.
  - apply agree_serve.
Qed.
End good.

(** ** In a network *)

Section network.
Context {Hash : Hashing} {fuel : Fuel} (bincode_entry : ResolutionEntry -> list Z) (bincode_payload : Manifest -> Manifest -> list Z).
Context (c : Committee) (sid : Digest) (delta_ms : Z) (correct : gset PublicKey).
Context (Hmem : correct ⊆ members c)
  (Hfaulty : Z.of_nat (size (members c ∖ correct)) <= f_parties (from_party_count (committee_size c))) (Hsize : 1 < committee_size c).
Context (N : DNet) (HN : dn_reaches bincode_entry bincode_payload c sid delta_ms correct N) (i : PublicKey) (Hi : i ∈ correct).

Lemma many_quorum_of P : many c (n_minus_f_parties (from_party_count (committee_size c))) P -> quorum_of c correct P.
Proof. intros (S & H1 & H2). exists S. split_and!; [done|intros k Hk; by apply H2|]. intros k Hk _. by apply H2. Qed.

(** The echoed value and the backed value agree: the witnesses of correct parties rest on ECHO quorums. *)
Lemma network_coherent voted : coherent bincode_entry c sid i (said_in correct N) voted (dn_sent N i).
Proof using Hmem Hfaulty Hsize HN Hi.
  intros x target view w w' [es L] Hw Hw'. specialize (L target). set (past := dn_sent N i ++ es) in *.
  pose proof (config _ _ _ _ _ _ _ _ _ L) as (_ & _ & Hq & _).
  unfold backing_winner, view_of in Hw'. destruct (instances x !! target) as [j|] eqn:Hj; [|done]. cbn in Hw'.
  destruct (di_views j !! view) as [s|] eqn:Hs; [|done]. apply first_quorum_spec in Hw'. rewrite Hq in Hw'.
  destruct (li_live _ _ _ _ _ _ _ _ _ L j Hj) as (Lv & _).
  destruct (quorum_other c correct Hmem Hfaulty Hsize _ i (many_quorum_of _ (witnesses_heard _ _ _ _ _ _ _ _ _ _ _ _ (lv_views _ _ _ _ _ _ _ _ _ Lv _ _ Hs) Hw')))
    as (k & Hk & Hki & [[? _]|[_ Hsk]]); [done|].
  destruct (witness_fresh bincode_entry bincode_payload c sid delta_ms correct Hmem Hfaulty Hsize target N k view w' HN Hk (Hsk Hk)) as [Hfq _].
  destruct (correct_quorums_meet c correct Hmem Hfaulty Hsize _ _ (many_quorum_of _ (echo_quorum _ _ _ _ _ _ _ _ _ _ _ _ _ L Hj Lv Hw)) Hfq)
    as (k2 & Hk2 & (o & Ho) & (o' & Ho')).
  pose proof (hist_at bincode_entry bincode_payload c sid delta_ms correct Hmem Hfaulty Hsize target N HN k2 Hk2) as Hh.
  destruct Ho as [[-> Ho]|[_ Ho]].
  - symmetry. eapply (h_uniq _ _ _ _ _ _ _ _ _ (li_hist _ _ _ _ _ _ _ _ _ L) PEcho view); [by exists (Some 0), o|].
    exists (Some 0), o'. unfold past. apply spoke_app. by left.
  - symmetry. eapply (h_uniq _ _ _ _ _ _ _ _ _ Hh PEcho view); [exists (Some 0), o; by apply Ho|by exists (Some 0), o'].
Qed.
End network.

(** C7: the bounds of [advance_view] are never reached: in a committee with at most [f] faulty parties, a
    handler of a correct resolver computes the same with any larger bounds. *)
Theorem resolver_bounds_enough {Hash : Hashing} bincode_entry bincode_payload c sid delta_ms (correct : gset PublicKey) N i ev (F : Fuel) :
  correct ⊆ members c -> Z.of_nat (size (members c ∖ correct)) <= f_parties (from_party_count (committee_size c)) -> 1 < committee_size c ->
  dn_reaches (fuel := enough) bincode_entry bincode_payload c sid delta_ms correct N -> i ∈ correct -> dn_allows correct N i ev ->
  (@loop_bound enough <= @loop_bound F)%nat -> (@advance_depth enough <= @advance_depth F)%nat ->
  direct_run (fuel := F) bincode_entry bincode_payload ev (dn_node N i) =
  direct_run (fuel := enough) bincode_entry bincode_payload ev (dn_node N i).
Proof.
  intros Hm Hf Hs HN Hi [Hd Hp] HF1 HF2. set (N' := dn_step (fuel := enough) bincode_entry bincode_payload N i ev).
  apply (agree_run bincode_entry c sid i (said_in correct N) (voted_in N' i) (dn_sent N i)).
  - exact (network_coherent bincode_entry bincode_payload c sid delta_ms correct Hm Hf Hs N HN i Hi _).
  - done.
  - cbn. lia.
  - split; [by apply Hd|]. destruct ev as [| | | | | | |target view value []| | | | | | | | | |]; try done.
    unfold voted_in, N'. cbn. rewrite decide_True by done. apply elem_of_app. right. by apply list_elem_of_singleton.
  - exists []. rewrite app_nil_r. eapply linv_all_more; [| |exact (party_invs bincode_entry bincode_payload c sid delta_ms correct Hm N i HN Hi)]; [done|].
    intros. by apply voted_step.
Qed.

Lemma resolver_bounds_enough_witness :
  @direct_run last_hashing {| loop_bound := 9; advance_depth := 7 |} coded_entry coded_payload (EvTerminal 6) (dn_node net5 10) =
  @direct_run last_hashing enough coded_entry coded_payload (EvTerminal 6) (dn_node net5 10).
Proof.
  apply (@resolver_bounds_enough last_hashing coded_entry coded_payload committee4 7 100 (list_to_set parties3)).
  - apply (bool_decide_unpack _). vm_compute. exact I.
  - vm_compute. discriminate.
  - vm_compute. reflexivity.
  - exact net5_reached.
  - apply (bool_decide_unpack _). vm_compute. exact I.
  - split; [|exact I]. intros k m [=].
  - apply (bool_decide_unpack _). exact I.
  - apply (bool_decide_unpack _). exact I.
Defined.
