(* ===== verification/DirectVotes.v ===== *)
(** One question per view of the resolver.

    The resolver asks the engine whether it may vote for a proposal ([ValidateVote]); the answer comes
    back as [on_vote], matched by target, view and value only.  A view binds one proposal for as
    long as its instance lives and an instance that ended never comes back, so that all questions
    about one view are the same question: an answer can not be taken for that to another. *)

From S2P Require Import Prelude Committee Types Formed ResolutionEvidence Direct DirectInv DirectSteps DirectRuns DirectNetwork.

#[local] Set Default Proof Using "Type".

Section asks.
Context {Hash : Hashing} {fuel : Fuel} (bincode_entry : ResolutionEntry -> list Z) (bincode_payload : Manifest -> Manifest -> list Z).
Abbreviation DM := (M DirectResolutionEffect DirectResolver) (only parsing).
Implicit Types (x : DirectResolver) (i : DirectInstance) (s : DirectViewState) (es : list DirectResolutionEffect).

(** ** The relation *)

Definition inst_proposal i (v : DirectResolverView) : option DirectResolutionProposal := di_views i !! v ≫= proposal.
Definition proposal_of x (t : View) (v : DirectResolverView) : option DirectResolutionProposal :=
  instances x !! t ≫= (fun i => inst_proposal i v).

(** The target's instance has ended. *)
Definition gone x (t : View) : Prop :=
  instances x !! t = None /\ (is_Some (decisions x !! t) \/ t < retained_floor x).

Definition question (p : DirectResolutionProposal) : Digest * ResolutionEntry * bool :=
  (dp_value p, dp_entry p, dp_key_view p =? 0).
Definition asked es (t : View) (v : DirectResolverView) (q : Digest * ResolutionEntry * bool) : Prop :=
  DValidateVote t v q.1.1 q.1.2 q.2 ∈ es.

Record asks x es x' : Prop := {
  ak_gone t : gone x t -> gone x' t /\ forall v q, ~ asked es t v q;
  ak_kept t v p : proposal_of x t v = Some p -> (forall q, asked es t v q -> q = question p) /\ (proposal_of x' t v = Some p \/ gone x' t);
  ak_asked t v q : asked es t v q -> gone x' t \/ exists p, proposal_of x' t v = Some p /\ q = question p;
  ak_same t v q q' : asked es t v q -> asked es t v q' -> q = q';
}.

Lemma asked_app es es' t v q : asked (es ++ es') t v q <-> asked es t v q \/ asked es' t v q.
Proof. apply elem_of_app. Qed.

Lemma asked_nil t v q : ~ asked [] t v q.
Proof. apply not_elem_of_nil. Qed.

Lemma asks_trans x1 x2 x3 es1 es2 : asks x1 es1 x2 -> asks x2 es2 x3 -> asks x1 (es1 ++ es2) x3.
Proof.
  intros [A1 A2 A3 A4] [B1 B2 B3 B4].
  assert (forall t v q q', asked es1 t v q -> asked es2 t v q' -> q = q') as Hx.
  { intros t v q q' H H'. destruct (A3 t v q H) as [Hg|(p & Hp & ->)]; [by destruct (proj2 (B1 t Hg) v q')|].
    symmetry. by apply (B2 t v p Hp). }
  split.
  - intros t Hg. destruct (A1 t Hg) as [H1 N1]. destruct (B1 t H1) as [H2 N2]. split; [done|].
    intros v q [?|?]%asked_app; [by eapply N1|by eapply N2].
  - intros t v p Hp. destruct (A2 t v p Hp) as [M1 [K1|K1]].
    + destruct (B2 t v p K1) as [M2 K2]. split; [|done]. intros q [?|?]%asked_app; auto.
    + destruct (B1 t K1) as [K2 N2]. split; [|by right]. intros q [?|?]%asked_app; [auto|by destruct (N2 v q)].
  - intros t v q [H|H]%asked_app; [|by apply B3]. destruct (A3 t v q H) as [Hg|(p & Hp & ->)]; [left; by apply B1|].
    destruct (B2 t v p Hp) as [_ [?|?]]; [right; by exists p|by left].
  - intros t v q q' [H|H]%asked_app [H'|H']%asked_app; [by eapply A4|by eapply Hx|symmetry; by eapply Hx|by eapply B4].
Qed.

(** Without questions. *)
Lemma asks_mute x es x' :
  (forall t v q, ~ asked es t v q) -> (forall t, gone x t -> gone x' t) ->
  (forall t v p, proposal_of x t v = Some p -> proposal_of x' t v = Some p \/ gone x' t) -> asks x es x'.
Proof. intros Hn Hg Hp. split; [by auto|by split; [intros q ?%Hn|auto]|by intros t v q ?%Hn|by intros t v q q' ?%Hn]. Qed.

#[export] Instance asks_trace : TraceRel asks.
Proof. split; [|apply asks_trans]. intros x. apply asks_mute; [apply asked_nil|auto|auto]. Qed.

(** ** Leaves *)

Lemma asks_emit e : (forall t v w d f, e <> DValidateVote t v w d f) -> sat asks (emit e).
Proof. intros He x. apply asks_mute; [|auto|auto]. intros t v q H%list_elem_of_singleton. by eapply He. Qed.

Lemma asks_modify f :
  (forall x, instances (f x) = instances x /\ decisions (f x) = decisions x /\ retained_floor (f x) = retained_floor x) -> sat asks (modify f).
Proof.
  intros Hf x. destruct (Hf x) as (H1 & H2 & H3). cbn. apply asks_mute; [apply asked_nil|..]; unfold gone, proposal_of; cbn; rewrite H1, ?H2, ?H3; auto.
Qed.

Lemma asks_on_inst target f :
  (forall i v p, inst_proposal i v = Some p -> inst_proposal (f i) v = Some p) -> sat asks (on_inst target f).
Proof.
  intros Hf x. apply asks_mute; [apply asked_nil|..].
  - intros t [Hn Hd]. split; [|done]. cbn. destruct (decide (target = t)) as [->|]; [by rewrite lookup_alter_eq, Hn|by rewrite lookup_alter_ne].
  - intros t v p. unfold proposal_of. cbn. destruct (decide (target = t)) as [->|]; [rewrite lookup_alter_eq|rewrite lookup_alter_ne by done; auto].
    destruct (instances x !! t); [|done]. cbn. auto.
Qed.

Lemma asks_on_view target v g : (forall s p, proposal s = Some p -> proposal (g s) = Some p) -> sat asks (on_view target v g).
Proof.
  intros Hg. apply asks_on_inst. intros i u p. unfold inst_proposal. cbn.
  destruct (decide (v = u)) as [->|]; [rewrite lookup_alter_eq|by rewrite lookup_alter_ne]. destruct (di_views i !! u); [|done]. cbn. auto.
Qed.

Lemma asks_on_view_entry target v g : (forall s p, proposal s = Some p -> proposal (g s) = Some p) -> sat asks (on_view_entry target v g).
Proof.
  intros Hg. apply asks_on_inst. intros i u p. unfold inst_proposal. cbn.
  destruct (decide (v = u)) as [->|]; [rewrite lookup_partial_alter_eq|by rewrite lookup_partial_alter_ne]. destruct (di_views i !! u); [|done]. cbn. auto.
Qed.

Lemma asks_then {A B} (m : DM A) (k : A -> DM B) x : sat_at asks m x -> (forall a, sat asks (k a)) -> sat_at asks (m ≫= k) x.
Proof. intros H1 H2. apply sat_at_bind; [apply _|done|apply H2]. Qed.

Lemma asks_skip {A} (a : A) : sat asks (mret a).
Proof. apply sat_ret, _. Qed.
Lemma asks_panic : sat asks panic.
Proof. by apply asks_modify. Qed.

Ltac asks_walk :=
  repeat lazymatch goal with
  | |- sat asks (get ≫= _) => apply sat_get_bind; intros ?
  | |- sat_at asks (get ≫= _) _ => apply sat_at_get_bind
  | |- sat_at asks (_ ≫= _) _ => apply asks_then; [|intros ?]
  | |- sat asks (_ ≫= _) => apply sat_bind; [apply _| |intros ?]
  | |- sat_at asks (let _ := _ in _) _ => cbn zeta
  | |- sat_at asks (match ?b with _ => _ end) _ => destruct b
  | |- sat asks (match ?b with _ => _ end) => destruct b
  | |- sat_at asks (when _ _) _ => apply sat_when; [apply _|]
  | |- sat asks (when _ _) => apply sat_when; [apply _|]
  | |- sat_at asks (for_each _ _) _ => apply sat_for_each; [apply _|intros ?]
  | |- sat asks (for_each _ _) => apply sat_for_each; [apply _|intros ?]
  | |- sat_at asks (mret _) _ => apply asks_skip
  | |- sat asks (mret _) => apply asks_skip
  | |- sat_at asks skip _ => apply asks_skip
  | |- sat asks skip => apply asks_skip
  | |- sat_at asks panic _ => apply asks_panic
  | |- sat asks panic => apply asks_panic
  | |- sat_at asks (emit _) _ => apply asks_emit; done
  | |- sat asks (emit _) => apply asks_emit; done
  | |- sat_at asks (on_view _ _ _) _ => apply asks_on_view; done
  | |- sat asks (on_view _ _ _) => apply asks_on_view; done
  | |- sat_at asks (on_view_entry _ _ _) _ => apply asks_on_view_entry; done
  | |- sat asks (on_view_entry _ _ _) => apply asks_on_view_entry; done
  | |- sat_at asks (on_inst _ _) _ => apply asks_on_inst; done
  | |- sat asks (on_inst _ _) => apply asks_on_inst; done
  | |- sat_at asks (modify _) _ => apply asks_modify; done
  | |- sat asks (modify _) => apply asks_modify; done
  | |- sat_at asks ?m ?x => apply (fun H : sat asks m => H x)
  end.

Lemma asks_emit_statement target view ph w key origin : sat asks (emit_statement target view ph w key origin).
Proof. unfold emit_statement. cbn zeta. asks_walk. Qed.

Lemma asks_remember target entry : sat asks (remember_entry bincode_entry target entry).
Proof. unfold remember_entry. asks_walk. Qed.

(** ** Asking *)

Lemma asks_ask x target view p :
  proposal_of x target view = Some p ->
  sat_at asks (emit (DValidateVote target view (dp_value p) (dp_entry p) (dp_key_view p =? 0))) x.
Proof.
  intros Hp. assert (forall t v q, asked [DValidateVote target view (dp_value p) (dp_entry p) (dp_key_view p =? 0)] t v q ->
    t = target /\ v = view /\ q = question p) as Hq.
  { intros t v [[w e] f] H%list_elem_of_singleton. cbn in H. by simplify_eq. }
  split.
  - intros t [Hn Hd]. split; [done|]. intros v q (-> & -> & _)%Hq. unfold proposal_of in Hp. by rewrite Hn in Hp.
  - intros t v p' Hp'. split; [|by left]. intros q (-> & -> & ->)%Hq. congruence.
  - intros t v q (-> & -> & ->)%Hq. right. by exists p.
  - intros t v q q' (_ & _ & ->)%Hq (_ & _ & ->)%Hq. done.
Qed.

Lemma proposal_on_view x target view g p :
  (forall s, proposal (g s) = proposal s) -> proposal_of x target view = Some p ->
  proposal_of (st (on_view target view g x)) target view = Some p.
Proof.
  intros Hg. unfold proposal_of, inst_proposal. cbn. rewrite lookup_alter_eq. destruct (instances x !! target) as [i|]; [|done].
  cbn. rewrite lookup_alter_eq. destruct (di_views i !! view); [|done]. cbn. by rewrite Hg.
Qed.

Lemma asks_try_echo target view : sat asks (try_echo target view).
Proof.
  apply sat_get_bind. intros x. destruct (instances x !! target) as [i|] eqn:Hi; [|apply asks_skip].
  destruct (negb _); [apply asks_skip|]. destruct (di_views i !! view) as [s|] eqn:Hs; [|apply asks_skip].
  destruct (bool_decide _); [apply asks_skip|]. destruct (proposal s) as [p|] eqn:Hp; [|apply asks_skip].
  destruct (_ && _); [apply asks_skip|]. destruct (negb _); [apply asks_skip|].
  destruct (vote_status s); try apply asks_skip; [|apply asks_emit_statement].
  apply sat_at_bind; [apply _|by apply asks_on_view|]. apply asks_ask, proposal_on_view; [done|].
  unfold proposal_of, inst_proposal. by rewrite Hi; cbn; rewrite Hs.
Qed.

(** A proposal is bound once. *)
Lemma asks_bind x target view p :
  proposal_of x target view = None -> sat_at asks (on_view_entry target view (fun s => s <| proposal := Some p |>)) x.
Proof.
  intros Hn. apply asks_mute; [apply asked_nil|..].
  - intros t [Hi Hd]. split; [|done]. cbn. destruct (decide (target = t)) as [->|]; [by rewrite lookup_alter_eq, Hi|by rewrite lookup_alter_ne].
  - intros t v p' Hp. left. revert Hp. unfold proposal_of, inst_proposal in *. cbn.
    destruct (decide (target = t)) as [->|]; [rewrite lookup_alter_eq|by rewrite lookup_alter_ne].
    destruct (instances x !! t) as [i|]; [|done]. cbn in *. destruct (decide (view = v)) as [->|]; [by rewrite Hn|].
    by rewrite lookup_partial_alter_ne.
Qed.

Lemma asks_on_proposal p : sat asks (on_proposal bincode_entry p).
Proof.
  apply sat_get_bind. intros x. cbn zeta. destruct (_ || _); [apply asks_skip|]. destruct (_ || _); [apply asks_skip|].
  destruct (has_proposal x (dp_target p) (dp_view p)) eqn:Hp; [apply asks_skip|].
  apply sat_at_bind; [apply _|apply asks_remember|].
  destruct (remember_run bincode_entry (dp_target p) (dp_entry p) x) as [_ Hi]. destruct (val _); [|apply asks_skip].
  destruct (negb _); [apply asks_skip|]. apply asks_then; [|intros _; apply asks_try_echo].
  apply asks_bind. unfold proposal_of. rewrite Hi. unfold has_proposal, view_of in Hp.
  destruct (instances x !! dp_target p) as [i|]; [|done]. cbn in *. unfold inst_proposal. destruct (di_views i !! dp_view p) as [s|]; [|done].
  cbn in *. case_bool_decide as Hb; [done|]. by apply eq_None_not_Some in Hb.
Qed.

(** ** The other handlers *)

Lemma asks_primary target view : sat asks (try_primary_propose bincode_entry target view).
Proof.
  unfold try_primary_propose, take_next_candidate. asks_walk; apply asks_on_proposal.
Qed.

Lemma asks_done target w e : sat asks (emit_done bincode_entry target w e).
Proof. unfold emit_done. asks_walk. Qed.

(** A decision ends the instance. *)
Lemma asks_recheck_done target : sat asks (recheck_done bincode_entry target).
Proof.
  unfold recheck_done. asks_walk; [apply asks_done|]. apply asks_mute; [apply asked_nil|..].
  - intros t [Hn Hd]. unfold gone. cbn. destruct (decide (target = t)) as [->|].
    + rewrite lookup_delete_eq, lookup_insert_eq. by eauto.
    + by rewrite lookup_delete_ne, lookup_insert_ne.
  - intros t v p. unfold gone, proposal_of. cbn. destruct (decide (target = t)) as [->|].
    + rewrite lookup_delete_eq, lookup_insert_eq. by eauto.
    + rewrite lookup_delete_ne by done. by left.
Qed.

Lemma asks_witness target view w : sat asks (emit_backing_witness target view w).
Proof. unfold emit_backing_witness. asks_walk. Qed.

Lemma asks_backing again target view : sat asks again -> sat asks (recheck_backing again target view).
Proof. intros Ha. unfold recheck_backing. asks_walk; [apply asks_witness|done]. Qed.

Lemma asks_fetch target w peers : sat asks (ensure_value_fetch target w peers).
Proof.
  unfold ensure_value_fetch. asks_walk. induction peers as [|k peers IH]; cbn; asks_walk. done.
Qed.

Lemma asks_round again target view steps : sat asks again -> sat asks (advance_round again target view steps).
Proof.
  intros Ha. induction steps as [|[from to] steps IH]; [apply asks_skip|]. cbn. unfold advance_step.
  asks_walk; first [apply asks_fetch|apply asks_witness|by apply asks_backing|apply asks_emit_statement|exact IH|idtac].
  apply asks_on_inst. intros i v p. unfold inst_proposal. by rewrite (proj1 (proj2 (proj2 (raise_key_core to view _ i)))).
Qed.

Lemma asks_loop again n target view : sat asks again -> sat asks (advance_loop bincode_entry again n target view).
Proof.
  intros Ha. induction n as [|n IH]; [apply asks_skip|]. cbn [advance_loop]. unfold advance_pass.
  asks_walk; first [by apply asks_round|apply asks_fetch|apply asks_done|exact IH].
Qed.

Lemma asks_advance target view : sat asks (advance_view bincode_entry target view).
Proof.
  unfold advance_view. induction advance_depth as [|n IH]; [apply asks_skip|]. cbn. asks_walk; [by apply asks_loop|apply asks_recheck_done].
Qed.

Lemma asks_raise_wish target view : sat asks (raise_own_wish target view).
Proof. unfold raise_own_wish. asks_walk. Qed.

Lemma asks_wishes target : sat asks (recheck_wishes bincode_entry target).
Proof.
  unfold recheck_wishes, enter_view.
  asks_walk; first [apply asks_raise_wish|apply asks_primary|apply asks_try_echo|apply asks_advance].
Qed.

Lemma asks_retry target : sat asks (retry_target bincode_entry target).
Proof.
  unfold retry_target. asks_walk; first [apply asks_primary|apply asks_try_echo|apply asks_advance|apply asks_recheck_done].
Qed.

Lemma asks_replay_item target requester view kind e :
  (forall d, e = Some d -> forall t v w d' f, d <> DValidateVote t v w d' f) -> sat asks (replay_item target requester view kind e).
Proof. intros He. unfold replay_item. destruct e as [d|]; asks_walk. apply asks_emit. by apply He. Qed.

Lemma asks_replay target requester through : sat asks (replay_progress_to target requester through).
Proof.
  unfold replay_progress_to, replay_view, replay_done. asks_walk; apply asks_replay_item; intros ?.
  all: unfold replay_statement; try (intros (? & _ & ->)%fmap_Some; done); intros [= <-]; done.
Qed.

(** An instance is created only for a target that is neither decided nor collected. *)
Lemma asks_create x x' t0 :
  ~ gone x t0 -> instances x !! t0 = None -> (forall t, t <> t0 -> instances x' !! t = instances x !! t) ->
  decisions x' = decisions x -> retained_floor x' = retained_floor x -> asks x [] x'.
Proof.
  intros Hg Hn Hi Hd Hf. apply asks_mute; [apply asked_nil|..].
  - intros t [H1 H2]. destruct (decide (t = t0)) as [->|Hne]; [by destruct Hg|]. unfold gone. by rewrite Hi, Hd, Hf.
  - intros t v p. unfold proposal_of. destruct (decide (t = t0)) as [->|Hne]; [by rewrite Hn|]. rewrite Hi by done. by left.
Qed.

Lemma not_gone x t : is_decided t x = false -> (t <? retained_floor x) = false -> ~ gone x t.
Proof.
  unfold is_decided. intros Hd Hf [_ [H|H]]; [|lia]. by rewrite bool_decide_true in Hd.
Qed.

Lemma asks_on_wish w : sat asks (on_wish bincode_entry w).
Proof.
  apply sat_get_bind. intros x. cbn zeta. destruct (_ || _); [apply asks_skip|].
  destruct (decisions x !! dw_target w) as [[value entry]|] eqn:Hd; [asks_walk|].
  destruct (instances x !! dw_target w) as [i|] eqn:Hi.
  { asks_walk; [apply asks_wishes|apply asks_replay]. }
  destruct (_ || _) eqn:Hf; [apply asks_skip|]. asks_walk; [|apply asks_wishes|apply asks_replay].
  apply (asks_create x _ (dw_target w)); try done.
  - apply not_gone; [|lia]. unfold is_decided. by rewrite Hd.
  - intros t Ht. cbn. by rewrite lookup_insert_ne.
Qed.

Lemma remember_all_same target entries x :
  let x' := st (remember_all bincode_entry target entries x) in
  instances x' = instances x /\ decisions x' = decisions x /\ retained_floor x' = retained_floor x.
Proof.
  revert x. induction entries as [|e entries IH]; intros x; [done|]. cbn [remember_all]. rewrite get_bind.
  destruct (negb _) eqn:Hv; [apply IH|]. rewrite !st_bind. cbn zeta. cbn [st mret M_ret]. 
  destruct (IH (st (remember_entry bincode_entry target e x))) as (-> & -> & ->). unfold remember_entry. rewrite get_bind. by rewrite Hv.
Qed.

Lemma asks_remember_all target entries : sat asks (remember_all bincode_entry target entries).
Proof. induction entries as [|e entries IH]; cbn [remember_all]; asks_walk; first [exact IH|apply asks_remember]. Qed.

Lemma asks_update target entries : sat asks (update_candidates bincode_entry bincode_payload target entries).
Proof.
  apply sat_get_bind. intros x. destruct (_ || _) eqn:Hg; [apply asks_skip|].
  apply sat_at_bind; [apply _|by apply asks_modify|]. apply sat_at_bind; [apply _|apply asks_remember_all|].
  destruct (bool_decide _); [apply asks_skip|]. apply asks_then; [|intros ?; asks_walk; first [apply asks_raise_wish|apply asks_wishes|apply asks_primary]].
  match goal with |- sat_at _ _ ?y => set (x1 := y) end.
  destruct (remember_all_same target entries (x <| admitted_through ::= Z.max target |>)) as (H1 & H2 & H3).
  change (st _) with x1 in H1, H2, H3. cbn in H1, H2, H3.
  destruct (instances x1 !! target) as [i|] eqn:Hi.
  - apply asks_mute; [apply asked_nil|..].
    + intros t [Hn Hd]. destruct (decide (target = t)) as [->|]; [congruence|]. split; [|done]. cbn. by rewrite lookup_partial_alter_ne.
    + intros t v p Hp. left. revert Hp. unfold proposal_of. cbn.
      destruct (decide (target = t)) as [->|]; [by rewrite lookup_partial_alter_eq, Hi|by rewrite lookup_partial_alter_ne].
  - apply (asks_create x1 _ target); try done.
    + apply orb_false_iff in Hg as [Hg Hd]. apply not_gone; [unfold is_decided in *; by rewrite H2|rewrite H3; lia].
    + intros t Ht. cbn. by rewrite lookup_partial_alter_ne.
Qed.

Lemma asks_activate target : sat asks (activate_with_local_terminal bincode_entry target).
Proof.
  apply sat_get_bind. intros x. destruct (_ || _) eqn:Hg; [apply asks_skip|].
  apply asks_then; [|intros ?; asks_walk; first [apply asks_raise_wish|apply asks_wishes]].
  apply (asks_create x _ target); try done.
  - apply not_gone; [by destruct (is_decided target x); rewrite ?orb_true_r in Hg|lia].
  - apply orb_false_iff in Hg as [_ Hg]. apply bool_decide_eq_false in Hg. by apply eq_None_not_Some in Hg.
  - intros t Ht. cbn. by rewrite lookup_insert_ne.
Qed.

Lemma asks_gc floor : sat asks (dr_gc_below floor).
Proof.
  unfold dr_gc_below. asks_walk. intros x. apply asks_mute; [apply asked_nil|..].
  - intros t [Hn Hd]. unfold gone. cbn. rewrite !lookup_map_split_off. destruct (decide _); [|split; [done|right; lia]].
    split; [done|]. destruct Hd; [by left|right; lia].
  - intros t v p. unfold gone, proposal_of. cbn. rewrite !lookup_map_split_off. destruct (decide _); [by left|].
    intros _. right. split; [done|right; lia].
Qed.

Lemma asks_run ev : sat asks (direct_run bincode_entry bincode_payload ev).
Proof.
  destruct ev; cbn [direct_run].
  - apply asks_update.
  - apply asks_modify. intros x. by destruct (_ || _).
  - apply asks_activate.
  - by apply asks_modify.
  - apply asks_gc.
  - by apply asks_modify.
  - unfold on_timer. asks_walk; first [apply asks_raise_wish|apply asks_wishes].
  - unfold on_vote. asks_walk; first [apply asks_try_echo|apply asks_advance].
  - unfold retry_external_validity. asks_walk. apply asks_try_echo.
  - apply asks_on_wish.
  - unfold on_suggest. asks_walk; first [apply asks_remember|apply asks_primary].
  - unfold on_proof. asks_walk. apply asks_try_echo.
  - unfold on_witness. asks_walk; first [apply asks_remember|apply asks_backing, asks_advance|apply asks_retry].
  - apply asks_on_proposal.
  - unfold on_statement. asks_walk; first [apply asks_primary|apply asks_try_echo|apply asks_advance].
  - unfold on_done. asks_walk; first [apply asks_remember|apply asks_recheck_done].
  - unfold on_value_fetch. asks_walk.
  - unfold on_value_serve. asks_walk; first [apply asks_remember|apply asks_retry].
Qed.
End asks.

(** All questions of a party about one view are one question. *)
Lemma questions_same {Hash : Hashing} {fuel : Fuel} bincode_entry bincode_payload c sid delta_ms correct N k t v w w' e e' f f' :
  dn_reaches bincode_entry bincode_payload c sid delta_ms correct N ->
  DValidateVote t v w e f ∈ dn_sent N k -> DValidateVote t v w' e' f' ∈ dn_sent N k -> w = w' /\ e = e' /\ f = f'.
Proof.
  intros HN H H'. assert (asks (resolver_new k c sid delta_ms) (dn_sent N k) (dn_node N k)) as Ha.
  { clear H H'. induction HN as [|N i ev HN IH Hi Hal]; [apply trace_refl|]. cbn. destruct (decide (k = i)) as [->|]; [|done].
    eapply trace_trans; [exact IH|]. apply asks_run. }
  by injection (ak_same _ _ _ Ha t v (w, e, f) (w', e', f') H H') as -> -> ->.
Qed.
