(* ===== verification/Sealing.v ===== *)
(** Seals across the engine and the resolver.

    The engines and the resolvers of a committee run together, as the node composes them: a resolver
    asks its engine before it votes ([ValidateVote], [try_direct_resolution_vote], [on_vote]), and what
    a resolver decides is submitted to its engine ([Decide], [submit_resolution]).  An engine that
    answers a question about a fresh value in favour has taken a position it keeps: its READY-stage response
    is final, its lock either agrees or was released, and it never votes to skip a view it endorsed a
    non-skip value for.  Therefore correct parties seal a view with one outcome, whichever of the
    direct, the fast, the skip-vote and the resolver route each of them takes. *)

From S2P Require Import Prelude Committee Types Formed Claim AgbState Agb AgbSteps AgbRefine Fixtures AgbTrace AgbCensus AgbSafety AgbVotes AgbNetwork ResolutionEvidence Direct DirectInv DirectRuns DirectNetwork DirectVotes.

(** ** Final READY-stage responses *)

Section engine.
Context {Hash : Hashing} {E : Type}.

(** The own READY-stage response was sent and is not a mix that may be refined. *)
Definition closed (e : AgbEngine) (u : View) : Prop :=
  is_pruned e u = true \/
  (is_Some (ready_statements (view_state e u) !! name (cfg e)) /\ ready_mix_open (view_state e u) = false).

Definition no_ready (u : View) (es : list Effect) : Prop :=
  forall y, y ∈ es -> is_ready_stage y = true -> effect_view y <> u.

Lemma foreign_no_ready u w y :
  Forall (fun y => foreign y = true) w -> is_ready_stage y = false -> no_ready u (w ++ [y]).
Proof.
  intros Hw Hy z [Hz|Hz]%elem_of_app.
  - rewrite Forall_forall in Hw. specialize (Hw z Hz). by destruct z.
  - apply list_elem_of_singleton in Hz as ->. by rewrite Hy.
Qed.

Lemma vstep_closed inp cf v s es s' :
  vstep inp cf v s es s' -> vinv cf v s -> is_Some (ready_statements s !! name cf) -> ready_mix_open s = false ->
  is_Some (ready_statements s' !! name cf) /\ ready_mix_open s' = false /\ no_ready v es.
Proof.
  intros Hstep Hv Hr Hm.
  assert (is_Some (ready_statements s' !! name cf)) as Hr'.
  { destruct Hr as [x Hx]. destruct (pe_ready _ _ _ (vstep_persists _ _ _ _ _ _ Hstep Hv) _ _ Hx) as [?|(? & ? & ? & ? & ? & ? & ? & ?)]; by eauto. }
  split; [done|]. clear Hr'. assert (no_ready v []) as Hnil by (by intros y ?%not_elem_of_nil).
  assert (forall y, is_ready_stage y = false -> no_ready v [y]) as Hone by (intros y; by apply (foreign_no_ready v [])).
  destruct Hstep; try (split; [done|]; by auto).
  - rewrite apply_echo_shape. split; [done|]. apply foreign_no_ready; [done|by destruct x].
  - rewrite apply_echo_shape. by split.
  - destruct Hr. congruence.
  - destruct Hr. congruence.
  - apply refinement_candidate_inv in H as (? & _). congruence.
  - rewrite apply_ready_shape. by destruct (ready_admits sender x s).
  - split; [done|]. by apply foreign_no_ready.
Qed.

Lemma estep_closed inp (s s' : AgbEngine * E) es u :
  estep inp s es s' -> inv s.1 -> closed s.1 u -> closed s'.1 u /\ no_ready u es.
Proof.
  intros Hstep Hinv Hns.
  destruct Hstep as [e v es s' w w' Hp Hv|e e' w w' es Hc Hvi Hm Hfor|e w floor]; simpl in *.
  - pose proof (inv_view_state e v Hinv) as Hvinv. destruct (decide (u = v)) as [->|Hne].
    + destruct Hns as [?|[Hr Ho]]; [congruence|]. destruct (vstep_closed _ _ _ _ _ _ Hv Hvinv Hr Ho) as (H1 & H2 & H3).
      split; [|done]. right. by rewrite view_state_update, decide_True.
    + split.
      * destruct Hns as [?|?]; [by left|right]. by rewrite view_state_update, decide_False.
      * intros y Hy Hs. destruct (vstep_emits _ _ _ _ _ _ y Hv Hvinv Hy) as [-> _]; [by destruct y|done].
  - split.
    + unfold closed, is_pruned, view_state in *. by rewrite Hc, Hvi, Hm.
    + intros y Hy Hs. apply (foreign_not es) in Hy; [|done]. by destruct y.
  - split; [|by intros y ?%not_elem_of_nil]. destruct Hns as [Hp|Hs]; [left; by apply is_pruned_gc|].
    destruct (view_state_gc e u floor) as [?|Heq]; [by left|right]. by rewrite Heq, cfg_gc_below.
Qed.

Lemma chain_closed inp (s s' : AgbEngine * E) es u :
  chain inp s es s' -> inv s.1 -> closed s.1 u -> closed s'.1 u /\ no_ready u es.
Proof.
  induction 1 as [|s1 s2 s3 es1 es2 Hstep Hc IH]; intros Hinv Hns; [split; [done|by intros y ?%not_elem_of_nil]|].
  destruct (estep_closed _ _ _ _ u Hstep Hinv Hns) as [Hns' Hno].
  destruct (IH (estep_inv _ _ _ _ Hstep Hinv) Hns') as [? Hno']. split; [done|].
  intros y [?|?]%elem_of_app; [by apply Hno|by apply Hno'].
Qed.
End engine.

(** ** Locks *)

Section locks.
Context {Hash : Hashing}.

Definition mismatch (d : Digest) (x : EchoStatement) : bool := negb (echo_for d true x).

(** An own grade-1 echo is locked, and a lock is open only against [f + 1] other echoes. *)
Record lock_ok (cf : AgbConfig) (s : ViewState) : Prop := {
  lk_own p d o : echo_statements s !! name cf = Some (EchoGraded p d 1 o) -> exists l, lock s = Some l /\ lock_digest l = d;
  lk_open l : lock s = Some l -> lock_active l = false ->
    f_plus_1 cf <= party_count (mismatch (lock_digest l)) (echo_statements s);
}.

Lemma party_count_split {V} (P : V -> bool) m :
  party_count P m + party_count (fun x => negb (P x)) m = Z.of_nat (size m).
Proof.
  unfold party_count. induction m as [|k x m Hk IH] using map_ind; [by rewrite !map_sum_empty, map_size_empty|].
  rewrite !map_sum_insert_None, map_size_insert_None by done. destruct (P x); cbn; lia.
Qed.

Lemma nonmatching_exact cf s d : echo_census cf s -> nonmatching_echoes s d = party_count (mismatch d) (echo_statements s).
Proof.
  intros He. pose proof (party_count_split (echo_for d true) (echo_statements s)) as Hp. unfold nonmatching_echoes, mismatch, u64_saturating_sub.
  assert (0 <= party_count (fun x => negb (echo_for d true x)) (echo_statements s)).
  { rewrite party_count_size. lia. }
  assert (match echo_tallies s !! d with Some t => et_grade_one_parties t | None => 0 end = party_count (echo_for d true) (echo_statements s)) as ->.
  { destruct (echo_tallies s !! d) as [t|] eqn:Ht; [by destruct (ec_tally _ _ He _ t Ht)|].
    symmetry. apply party_count_none. intros k x Hx. apply echo_for_any. by eapply ec_none. }
  lia.
Qed.

Lemma mismatch_grows d k x m : m !! k = None -> party_count (mismatch d) m <= party_count (mismatch d) (<[ k := x ]> m).
Proof. intros Hk. rewrite party_count_insert_None by done. destruct (mismatch d x); cbn; lia. Qed.

Lemma lock_ok_same cf s s' : lock s' = lock s -> echo_statements s' = echo_statements s -> lock_ok cf s -> lock_ok cf s'.
Proof. intros H1 H2 [L1 L2]. split; by rewrite H1, H2. Qed.

Lemma vstep_lock_ok inp cf v s es s' :
  vstep inp cf v s es s' -> vinv cf v s -> echo_census cf s -> lock_ok cf s -> lock_ok cf s'.
Proof.
  intros Hstep Hv He L. pose proof L as [L1 L2].
  destruct Hstep; rewrite ?apply_echo_shape, ?apply_ready_shape;
    repeat match goal with |- context [ready_admits ?k ?x ?s] => destruct (ready_admits k x s) end;
    try (by apply (lock_ok_same cf s)).
  - split; cbn.
    + intros q d' o Ho. destruct (L1 q d' o Ho) as (l & Hl & _). congruence.
    + intros l [= <-] Ha. cbn in *. rewrite <- (nonmatching_exact cf) by done. lia.
  - split; cbn.
    + intros q d' o Ho. destruct (L1 q d' o Ho) as (l' & Hl & <-). assert (l' = l) as -> by congruence. by eexists.
    + intros l' [= <-] _. cbn. by rewrite <- (nonmatching_exact cf).
  - split; cbn.
    + intros p d o. rewrite lookup_insert_eq. intros [= ->]. destruct H2 as (_ & _ & [?|[_ ?]]); done.
    + intros l Hl Ha. etrans; [by apply L2|]. by apply mismatch_grows.
  - split; cbn.
    + intros p d o. rewrite lookup_insert_ne by done. apply L1.
    + intros l Hl Ha. etrans; [by apply L2|]. by apply mismatch_grows.
Qed.
End locks.

(** ** What an acceptance says *)

Section accepts.
Context {Hash : Hashing} {E : Type} {Env : AgbEnv E} {Laws : AgbEnvLaws E}.

(** The position of the engine that accepts a fresh entry. *)
Record position (cf : AgbConfig) (entry : ResolutionEntry) (x : ViewState) : Prop := {
  po_echo : is_Some (echo_statements x !! name cf);
  po_mix : ready_mix_open x = false;
  po_lock : lock_blocks x entry = false;
  po_ready : exists z, ready_statements x !! name cf = Some z /\
    match entry with
    | EntryFull _ c t => graded_against GZero z c t = false
    | EntryCore _ c t => graded_against GOne z c t = false
    | EntrySkip _ => z = NoReady
    end;
}.

Lemma accept_position entry o e (w : E) :
  val (try_direct_resolution_vote entry true (e, w)) = VoteAccept o ->
  is_pruned e (target_view entry) = false /\
  exists x, views e !! target_view entry = Some x /\ position (cfg e) entry x.
Proof.
  intros Hval. unfold try_direct_resolution_vote in Hval. rewrite bind_run in Hval. cbn [eng val st fst negb] in Hval.
  destruct (is_pruned e (target_view entry)) eqn:Hp; [done|].
  match type of Hval with context [if ?b then mret VoteNever else _] => destruct b end; [done|].
  destruct (stance_excludes e entry); [done|]. rewrite bind_run in Hval. cbn [val st] in Hval.
  assert (val (meta_entry_status entry (e, w)) = MetaOk) as Hm.
  { by destruct (val (meta_entry_status entry (e, w))). }
  clear Hval. split; [done|]. unfold meta_entry_status in Hm. rewrite bind_run in Hm. cbn [eng val st fst] in Hm. rewrite Hp in Hm.
  destruct (views e !! target_view entry) as [x|]; [|done]. exists x. split; [done|].
  destruct (echo_statements x !! name (cfg e)) as [y|] eqn:Hy; [|done].
  destruct (ready_statements x !! name (cfg e)) as [z|] eqn:Hz; [|done].
  destruct (ready_mix_open x) eqn:Ho; [done|]. destruct (lock_blocks x entry) eqn:Hl; [done|].
  split; [by rewrite Hy|done|done|]. exists z. split; [done|].
  destruct entry as [u c t|u c t|u]; [..|by destruct z]; by destruct (graded_against _ z c t).
Qed.


Lemma accept_closed entry o e (w : E) :
  val (try_direct_resolution_vote entry true (e, w)) = VoteAccept o -> closed e (target_view entry).
Proof.
  intros (_ & x & Hx & [_ Hm _ (z & Hz & _)])%accept_position. right. unfold view_state. rewrite Hx. cbn. by rewrite Hz.
Qed.

Lemma vote_event entry fresh (s : AgbEngine * E) :
  out (handle (EvDirectVote entry fresh) s) = out (try_direct_resolution_vote entry fresh s) /\
  st (handle (EvDirectVote entry fresh) s) = st (try_direct_resolution_vote entry fresh s).
Proof. split; [|done]. apply app_nil_r. Qed.

Lemma live_stance e u : inv e -> stance (view_state e u) <> Free -> is_pruned e u = false.
Proof.
  intros Hinv. unfold view_state. destruct (views e !! u) as [x|] eqn:Hx; [|done]. intros _.
  destruct (Hinv u x Hx) as [Hle _]. unfold is_pruned. lia.
Qed.

(** No SKIP-VOTE up to and including an acceptance of a non-skip value. *)
Lemma accept_no_skip inp cf (s : AgbEngine * E) es entry o :
  reaches inp cf s es -> val (try_direct_resolution_vote entry true s) = VoteAccept o -> (forall u, entry <> EntrySkip u) ->
  non_skip (st (try_direct_resolution_vote entry true s)).1 (target_view entry) /\
  BroadcastSkipVote (target_view entry) ∉ es ++ out (try_direct_resolution_vote entry true s).
Proof.
  intros Hr Hval Hne. destruct s as [e w]. destruct (accept_claims entry o e w Hval Hne) as (_ & _ & Hst). split; [by right|].
  destruct (vote_event entry true (e, w)) as [Ho Hs].
  assert (reaches inp cf (st (handle (EvDirectVote entry true) (e, w))) (es ++ out (handle (EvDirectVote entry true) (e, w)))) as Hr'.
  { by apply reach_event. }
  rewrite Ho, Hs in Hr'. intros Hin. destruct (reaches_history _ _ _ _ Hr') as [_ [Hlive _]].
  destruct (Hlive _ Hin eq_refl) as [Hp|[Hsv _]]; cbn in *; [|congruence].
  rewrite (live_stance _ _ (reaches_inv _ _ _ _ Hr')) in Hp; [done|]. by rewrite Hst.
Qed.
End accepts.

(** ** Engines and resolvers together *)

(** The outcome a decision submits, and the answer to a question. *)
Definition outcome_of (entry : ResolutionEntry) : Outcome :=
  match entry with EntryFull _ c t => OFull c t | EntryCore _ c _ => OCore c | EntrySkip _ => OSkip end.

Definition vote_of (d : DirectVoteDecision) : DirectResolutionVote :=
  match d with VoteAccept origin => Accept origin | VoteNotYet => Reject false | VoteNever => Reject true end.

Section system.
Context {Hash : Hashing} {E : Type} {Env : AgbEnv E} {Laws : AgbEnvLaws E} {fuel : Fuel}.
Context (bincode_entry : ResolutionEntry -> list Z) (bincode_payload : Manifest -> Manifest -> list Z).
Context (c : Committee) (s0 : Digest) (delta_ms : Z) (rr : RoundRobin) (correct : gset PublicKey).

Record Sys := mkSys { engines : Net (E := E); resolvers : DNet }.

Definition resolved (S : Sys) (k : PublicKey) (v : View) (o : Outcome) : Prop :=
  exists e, DDecide e ∈ dn_sent (resolvers S) k /\ target_view e = v /\ outcome_of e = o.

Inductive sys_reaches : Sys -> Prop :=
| sys_init (w : PublicKey -> E) :
    sys_reaches (mkSys (mkNet (fun k => (agb_init (party_config c s0 delta_ms rr k), w k)) (fun _ => []))
      (mkDNet (fun k => resolver_new k c s0 delta_ms) (fun _ => []) (fun _ => [])))
| sys_engine S k ev : sys_reaches S -> k ∈ correct ->
    allowed (net_inputs c s0 delta_ms rr correct (resolved S) (engines S) k) (party_config c s0 delta_ms rr k) ev ->
    let r := handle ev (node (engines S) k) in
    sys_reaches (mkSys (set_node (engines S) k (st r) (out r)) (resolvers S))
| sys_resolver S k ev : sys_reaches S -> k ∈ correct -> dn_allows correct (resolvers S) k ev ->
    (forall t v w a, ev <> EvVote t v w a) ->
    sys_reaches (mkSys (engines S) (dn_step bincode_entry bincode_payload (resolvers S) k ev))
| sys_vote S k t v w e fresh : sys_reaches S -> k ∈ correct -> DValidateVote t v w e fresh ∈ dn_sent (resolvers S) k ->
    let r := try_direct_resolution_vote e fresh (node (engines S) k) in
    sys_reaches (mkSys (set_node (engines S) k (st r) (out r))
      (dn_step bincode_entry bincode_payload (resolvers S) k (EvVote t v w (vote_of (val r)))))
| sys_env S k w : sys_reaches S ->
    sys_reaches (mkSys (set_node (engines S) k ((node (engines S) k).1, w) []) (resolvers S)).

Abbreviation config k := (party_config c s0 delta_ms rr k) (only parsing).
Abbreviation nreaches S := (net_reaches c s0 delta_ms rr correct (resolved S)) (only parsing).

Lemma sys_resolvers S : sys_reaches S -> dn_reaches bincode_entry bincode_payload c s0 delta_ms correct (resolvers S).
Proof.
  induction 1 as [w|S k ev HS IH Hk Ha|S k ev HS IH Hk Ha Hv|S k t v w e fresh HS IH Hk Hq|S k w HS IH]; [apply dn_init|done|..|done].
  - by apply dn_event.
  - apply dn_event; [done..|]. by split.
Qed.

Lemma net_reaches_more (r r' : PublicKey -> View -> Outcome -> Prop) N :
  (forall k v o, r k v o -> r' k v o) -> net_reaches c s0 delta_ms rr correct r N -> net_reaches c s0 delta_ms rr correct r' N.
Proof.
  intros Hr. induction 1 as [w|N k ev HN IH Hk [Hs Ha]|N k w HN IH]; [apply nr_init| |by apply nr_env].
  apply nr_event; [done..|]. split; [done|]. destruct ev; try done. by apply Hr.
Qed.

Lemma resolved_step S N k ev j v o :
  resolved S j v o -> resolved (mkSys N (dn_step bincode_entry bincode_payload (resolvers S) k ev)) j v o.
Proof. intros (e & He & Hv). exists e. split; [|done]. cbn. case_decide; [apply elem_of_app; by left|done]. Qed.

Lemma sys_engines S : sys_reaches S -> nreaches S (engines S).
Proof.
  induction 1 as [w|S k ev HS IH Hk Ha|S k ev HS IH Hk Ha Hv|S k t v w e fresh HS IH Hk Hq|S k w HS IH]; cbn [engines].
  - apply nr_init.
  - by apply (nr_event c s0 delta_ms rr correct (resolved S)).
  - eapply net_reaches_more; [|exact IH]. intros j u o. apply resolved_step.
  - eapply net_reaches_more; [intros j u o; apply resolved_step|]. unfold r. destruct (vote_event e fresh (node (engines S) k)) as [<- <-].
    by apply (nr_event c s0 delta_ms rr correct (resolved S)).
  - by apply (nr_env c s0 delta_ms rr correct (resolved S)).
Qed.

(** ** Endorsements *)

Definition anything (_ : PublicKey) (_ : View) (_ : Outcome) : Prop := True.
Abbreviation inputs N k := (net_inputs c s0 delta_ms rr correct anything N k) (only parsing).

(** The engine accepted the fresh entry in state [s1], having sent [es1]; what it sent since keeps to that. *)
Definition endorsed (N : Net (E := E)) (k : PublicKey) (entry : ResolutionEntry) : Prop :=
  exists s1 es1 o, reaches (inputs N k) (config k) s1 es1 /\
    val (try_direct_resolution_vote entry true s1) = VoteAccept o /\
    (forall y, y ∈ es1 -> y ∈ AgbNetwork.sent N k) /\
    (forall y, y ∈ AgbNetwork.sent N k -> is_ready_stage y = true -> effect_view y = target_view entry -> y ∈ es1) /\
    closed (node N k).1 (target_view entry) /\
    ((forall u, entry <> EntrySkip u) -> non_skip (node N k).1 (target_view entry) /\ BroadcastSkipVote (target_view entry) ∉ AgbNetwork.sent N k).

Lemma endorsed_step N k j x es entry :
  (k = j -> exists inp, chain inp (node N k) es x /\ inv (node N k).1) ->
  endorsed N k entry -> endorsed (set_node N j x es) k entry.
Proof.
  intros Hch (s1 & es1 & o & Hr & Hval & Hsub & Hready & Hcl & Hns). exists s1, es1, o.
  split_and!; [by apply net_inputs_mono|done|..]; cbn; (case_decide as Hj; [|done]); destruct (Hch Hj) as (inp & Hc & Hinv).
  - intros y Hy. apply elem_of_app. left. by apply Hsub.
  - intros y [Hy|Hy]%elem_of_app Hs Hu; [by apply Hready|]. destruct (chain_closed _ _ _ _ _ Hc Hinv Hcl) as [_ Hno]. by destruct (Hno y Hy Hs).
  - by eapply chain_closed.
  - intros Hne. destruct (Hns Hne) as [H1 H2]. destruct (chain_non_skip _ _ _ _ _ Hc Hinv H1) as [? ?]. split; [done|].
    rewrite elem_of_app. tauto.
Qed.

Lemma local_chain S k ev :
  sys_reaches S -> k ∈ correct -> allowed (net_inputs c s0 delta_ms rr correct (resolved S) (engines S) k) (config k) ev ->
  exists inp, chain inp (node (engines S) k) (out (handle ev (node (engines S) k))) (st (handle ev (node (engines S) k))) /\
    inv (node (engines S) k).1.
Proof.
  intros HS Hk Ha. pose proof (net_local _ _ _ _ _ _ _ k (sys_engines S HS) Hk) as Hr.
  pose proof (reaches_inv _ _ _ _ Hr) as Hinv. destruct (reaches_history _ _ _ _ Hr) as [Hc _].
  eexists. split; [|done]. destruct (node (engines S) k) as [e w]. cbn in *. apply event_chain; [done|]. rewrite Hc. exact Ha.
Qed.

(** An acceptance in the network. *)
Lemma endorsed_now S k entry o :
  sys_reaches S -> k ∈ correct -> let s := node (engines S) k in
  val (try_direct_resolution_vote entry true s) = VoteAccept o ->
  endorsed (set_node (engines S) k (st (try_direct_resolution_vote entry true s)) (out (try_direct_resolution_vote entry true s))) k entry.
Proof.
  intros HS Hk s Hval. pose proof (net_local _ _ _ _ _ _ _ k (sys_engines S HS) Hk) as Hr. fold s in Hr.
  assert (reaches (inputs (engines S) k) (config k) s (AgbNetwork.sent (engines S) k)) as Hr' by (by eapply reaches_mono; [..|exact Hr]).
  destruct (local_chain S k (EvDirectVote entry true) HS Hk) as (inp & Hc & Hinv); [by split|].
  fold s in Hc. destruct (vote_event entry true s) as [Ho Hs]. rewrite Ho, Hs in Hc.
  assert (closed s.1 (target_view entry)) as Hcl by (destruct s as [e w]; by eapply accept_closed).
  destruct (chain_closed _ _ _ _ _ Hc Hinv Hcl) as [Hcl' Hno].
  exists s, (AgbNetwork.sent (engines S) k), o. split_and!; cbn; rewrite ?decide_True by done.
  - by apply net_inputs_mono.
  - done.
  - intros y Hy. apply elem_of_app. by left.
  - intros y [Hy|Hy]%elem_of_app Hst Hu; [done|]. by destruct (Hno y Hy Hst).
  - done.
  - by eapply accept_no_skip.
Qed.

(** Every recorded vote answers a question, and one about a fresh value is an endorsement. *)
Definition votes_ok (S : Sys) : Prop :=
  forall k t v w o, k ∈ correct -> (t, v, w, o) ∈ dn_voted (resolvers S) k ->
  exists e fresh, DValidateVote t v w e fresh ∈ dn_sent (resolvers S) k /\ (fresh = true -> endorsed (engines S) k e).

Lemma votes_grow S S' :
  votes_ok S -> (forall k y, y ∈ dn_sent (resolvers S) k -> y ∈ dn_sent (resolvers S') k) ->
  (forall k e, k ∈ correct -> endorsed (engines S) k e -> endorsed (engines S') k e) ->
  forall k t v w o, k ∈ correct -> (t, v, w, o) ∈ dn_voted (resolvers S) k ->
  exists e fresh, DValidateVote t v w e fresh ∈ dn_sent (resolvers S') k /\ (fresh = true -> endorsed (engines S') k e).
Proof.
  intros HV Hs He k t v w o Hk Hin. destruct (HV k t v w o Hk Hin) as (e & fresh & Hq & Hen). exists e, fresh. split; [by apply Hs|auto].
Qed.

Lemma sys_votes S : sys_reaches S -> votes_ok S.
Proof.
  induction 1 as [w|S k ev HS IH Hk Ha|S k ev HS IH Hk Ha Hv|S k t v w e fresh HS IH Hk Hq|S k w HS IH].
  - intros k t v w' o _ Hin. by apply not_elem_of_nil in Hin.
  - intros j t v w o. apply (votes_grow S); [done|done|]. intros j' e _. apply endorsed_step. intros ->. by eapply local_chain.
  - intros j t v w o Hj Hin.
    assert ((t, v, w, o) ∈ dn_voted (resolvers S) j) as Hin'.
    { cbn in Hin. case_decide; [|done]. apply elem_of_app in Hin as [?|Hin]; [done|]. destruct ev as [| | | | | | |? ? ? []| | | | | | | | | |];
        try (by apply not_elem_of_nil in Hin). by edestruct Hv. }
    clear Hin. revert j t v w o Hj Hin'. apply (votes_grow S); [done|..].
    + intros j y Hy. cbn. case_decide; [apply elem_of_app; by left|done].
    + done.
  - set (r' := try_direct_resolution_vote e fresh (node (engines S) k)) in *. subst r.
    set (S' := mkSys (set_node (engines S) k (st r') (out r')) (dn_step bincode_entry bincode_payload (resolvers S) k (EvVote t v w (vote_of (val r'))))).
    intros j t' v' w' o Hj Hin.
    assert (forall j y, y ∈ dn_sent (resolvers S) j -> y ∈ dn_sent (resolvers S') j) as Hsent.
    { intros j' y Hy. cbn. case_decide; [apply elem_of_app; by left|done]. }
    assert ((t', v', w', o) ∈ dn_voted (resolvers S) j \/ (j = k /\ t' = t /\ v' = v /\ w' = w /\ val r' = VoteAccept o)) as [Hin'|(-> & -> & -> & -> & Hval)].
    { cbn in Hin. case_decide; [|by left]. apply elem_of_app in Hin as [?|Hin]; [by left|right].
      destruct (val r'); cbn in Hin; try (by apply not_elem_of_nil in Hin). apply list_elem_of_singleton in Hin. by simplify_eq. }
    + clear Hin. revert j t' v' w' o Hj Hin'. apply (votes_grow S S'); [done|done|]. intros j e' _. apply endorsed_step. intros ->.
      destruct (local_chain S k (EvDirectVote e fresh) HS Hk) as (inp & Hc); [by split|].
      destruct (vote_event e fresh (node (engines S) k)) as [Ho Hs]. rewrite Ho, Hs in Hc. by exists inp.
    + exists e, fresh. split; [by apply Hsent|]. intros ->. by eapply endorsed_now.
  - intros j t v w' o. apply (votes_grow S); [done|done|]. intros j' e Hj'. apply endorsed_step. intros ->.
    pose proof (reaches_inv _ _ _ _ (net_local _ _ _ _ _ _ _ k (sys_engines S HS) Hj')) as Hinv. exists (inputs (engines S) k).
    split; [|done]. destruct (node (engines S) k) as [e0 w0]. apply chain_one. by apply es_frame.
Qed.

(** ** One outcome per view *)

Context (Hf : fault_model c correct) (Hinj : digest_injective s0) (Hvd : Inj (=) (=) (vd bincode_entry s0)) (Hsize : 1 < committee_size c).
#[local] Set Default Proof Using "Type Hf Hinj Hvd Hsize Laws".
Abbreviation recd N v x := (recorded c s0 delta_ms rr correct N v x) (only parsing).
Abbreviation fp1 := (f_plus_1_parties (from_party_count (committee_size c))) (only parsing).

Lemma decided_endorsed S i e :
  sys_reaches S -> i ∈ correct -> DDecide e ∈ dn_sent (resolvers S) i ->
  exists X : gset PublicKey, X ⊆ correct /\ fp1 <= Z.of_nat (size X) /\ forall k, k ∈ X -> endorsed (engines S) k e.
Proof.
  intros HS Hi He. pose proof (sys_resolvers S HS) as HD. pose proof Hf as [_ Hm _ Hfaulty].
  destruct (decided_accepted _ _ c s0 delta_ms correct Hm Hfaulty Hsize Hvd _ i e HD Hi He) as (v & X & HX & Hn & Hall & _).
  exists X. split_and!; [done|done|]. intros k Hk. destruct (Hall k Hk) as (o & Hq & Hv).
  destruct (sys_votes S HS k _ _ _ _ (HX k Hk) Hv) as (e' & fresh & Hq' & Hen).
  destruct (questions_same _ _ _ _ _ _ _ _ _ _ _ _ _ _ _ _ HD Hq Hq') as (_ & <- & <-). by apply Hen.
Qed.

Lemma endorsed_position r N k e :
  net_reaches c s0 delta_ms rr correct r N -> k ∈ correct -> endorsed N k e ->
  exists x, recd N (target_view e) x /\ position (config k) e x /\ vinv (config k) (target_view e) x /\ lock_ok (config k) x /\
    forall y, y ∈ AgbNetwork.sent N k -> is_ready_stage y = true -> effect_view y = target_view e -> consistent (config k) x y.
Proof.
  intros HN Hk (s1 & es1 & o & Hr & Hval & Hsub & Hready & _ & _).
  destruct (reaches_history _ _ _ _ Hr) as [Hc [Hlive _]]. destruct s1 as [e1 w1]. cbn in Hc.
  destruct (accept_position e o e1 w1 Hval) as (Hp & x & Hx & Hpos). rewrite Hc in Hpos. exists x.
  destruct (reaches_views (inputs N k) (config k) (fun cf _ s => census cf s /\ lock_ok cf s) (e1, w1) es1) with (v := target_view e) (x := x)
    as (Hv & _ & Hlk); [..|done|done|].
  { intros cf v. split; [split; [apply echo_census_default|apply ready_census_default]|]. by split. }
  { intros v y es y' Hst Hvi [Hce Hlo]. split; [eapply vstep_census; [apply Hf|exact Hinj|done..]|]. eapply vstep_lock_ok; [done|done|apply Hce|done]. }
  destruct (reaches_sources _ _ _ _ _ _ Hr Hx) as (Hso & B1 & B2 & B3).
  split_and!; [|done|done|done|].
  - pose proof (fm_correct _ _ Hf). eapply (recorded_of c s0 delta_ms rr correct anything); [done|done|done|exact Hso|..]; auto.
  - intros y Hy Hs Hu. destruct (Hlive y (Hready y Hy Hs Hu)) as [Hp'|Hcon]; [by destruct y|cbn in Hp'; congruence|].
    cbn in Hcon. rewrite Hu, Hc in Hcon. unfold view_state in Hcon. by rewrite Hx in Hcon.
Qed.

(** Enough endorsers to meet the correct members of a quorum. *)
Lemma endorser_meets (X Y : gset PublicKey) :
  X ⊆ correct -> fp1 <= Z.of_nat (size X) -> Y ⊆ members c ->
  n_minus_f_parties (from_party_count (committee_size c)) <= Z.of_nat (size Y) -> exists k, k ∈ X /\ k ∈ Y.
Proof.
  intros HX HnX HY HnY. pose proof Hf as [_ Hm _ _]. pose proof (size_members_committee c).
  destruct (sizes_meet X Y (members c) ∅) as (k & ? & ? & _); [set_solver|done|rewrite size_empty; cbn in *; lia|]. eauto.
Qed.


Section grounds.
Context (S : Sys) (e : ResolutionEntry) (X : gset PublicKey) (HS : sys_reaches S) (HX : X ⊆ correct) (HnX : fp1 <= Z.of_nat (size X))
  (Hen : forall k, k ∈ X -> endorsed (engines S) k e).
#[local] Set Default Proof Using "Type Hf Hinj Hvd Hsize Laws HS HX HnX Hen".

Lemma endorser k : k ∈ X -> exists x, recd (engines S) (target_view e) x /\ position (config k) e x /\ vinv (config k) (target_view e) x /\
  lock_ok (config k) x /\
  forall y, y ∈ AgbNetwork.sent (engines S) k -> is_ready_stage y = true -> effect_view y = target_view e -> consistent (config k) x y.
Proof. intros Hk. apply (endorsed_position (resolved S)); [by apply sys_engines|by apply HX|by apply Hen]. Qed.

(** A quorum of READYs has an endorser's final READY. *)
Lemma decided_direct x p d g :
  recd (engines S) (target_view e) x -> canonical (config 0) (target_view e) p d -> g <> GMix ->
  quorum_threshold c <= stake_sum c (ready_for d g) (ready_statements x) ->
  outcome_of e = match g with GOne => OFull (p_c p) (p_t p) | _ => OCore (p_c p) end.
Proof.
  intros Hx Cp Hg Q. pose proof Hf as [Hok Hm Huni Hfaulty].
  apply (selected_quorum c Hok) in Q. set (Y := selected _ _ ∩ _) in Q. assert (HY : Y ⊆ members c) by set_solver.
  rewrite (stake_of_size c Huni) in Q by done.
  destruct (committee_counts c correct Hok Huni) as (_ & H3 & _ & Ht & Hq). rewrite quorum_threshold_exact, Ht in Q by done.
  destruct (endorser_meets X Y HX HnX HY) as (k & HkX & HkY); [cbn; Z.to_euclidean_division_equations; lia|].
  apply elem_of_intersection in HkY as [(b & Hb & Pb)%elem_of_selected _].
  destruct (rec_ready _ _ _ _ _ _ _ _ Hx k b Hb) as (_ & Cb & Sb).
  destruct (ready_for_inv c s0 delta_ms rr (target_view e) d g b Pb) as (q & -> & Cq); [by destruct b|].
  destruct (endorser k HkX) as (y & Ry & [_ Po _ (z & Hz & Hze)] & Vy & _ & Hfin).
  destruct (Hfin _ (Sb (HX k HkX))) as (q' & d' & g0 & g' & Hown & Hmsg & Hgs); [done|by apply ready_message_view|].
  assert (q' = q /\ g0 = g) as [-> ->] by (destruct q, q'; cbn in Hmsg; by simplify_eq).
  destruct Hgs as [<-|?]; [|done]. cbn [name party_config] in *. assert (z = ReadyGraded q d' g) as -> by congruence.
  rewrite (canonical_eq c s0 delta_ms rr Hinj _ p q d) by done.
  destruct e as [u c' t'|u c' t'|u]; cbn in *; [..|done]; destruct g; try done;
    repeat case_bool_decide; cbn in *; try done; by subst.
Qed.

(** Grade-1 echoes of all parties hold an endorser's lock. *)
Lemma decided_fast x p d :
  recd (engines S) (target_view e) x -> canonical (config 0) (target_view e) p d ->
  committee_size c <= party_count (echo_for d true) (echo_statements x) ->
  outcome_of e = OFull (p_c p) (p_t p).
Proof.
  intros Hx Cp Hn. pose proof Hf as [Hok Hm Huni Hfaulty]. pose proof (sys_engines S HS) as HN.
  assert (forall k b, k ∈ correct -> echo_canonical (config k) (target_view e) b -> echo_message (config k) (target_view e) b ∈ AgbNetwork.sent (engines S) k ->
    exists o, b = EchoGraded p d 1 o) as Hall.
  { intros k b Hk Cb Sb. destruct (all_echoed _ _ _ _ _ _ _ _ _ k Hx Hn (Hm k Hk)) as (a & Ha & Pa).
    destruct (rec_echo _ _ _ _ _ _ _ _ Hx k a Ha) as (_ & Ca & Sa).
    pose proof (echoes_agree _ _ _ _ _ _ _ k _ a b HN Hk Ca (Sa Hk) Cb Sb) as Hag.
    destruct (echo_for_inv c s0 delta_ms rr (target_view e) d _ a Pa) as (qa & ga & oa & -> & Ga & Cqa); [by destruct a|].
    destruct b as [qb db gb ob|]; [|done]. destruct Hag as [-> ->]. exists ob.
    assert (gb = 1) as -> by lia. rewrite (canonical_eq c s0 delta_ms rr Hinj _ p qb d) by done.
    destruct Cb as [_ ->]. by destruct Cqa as [_ ->]. }
  assert (exists k, k ∈ X) as [k Hk].
  { apply set_choose_L. intros ->. rewrite size_empty in HnX. destruct (committee_counts c correct Hok Huni) as (_ & _ & ? & _).
    unfold from_committee in *. cbn in *. lia. }
  destruct (endorser k Hk) as (y & Ry & [[b Hb] _ Pl _] & Vy & [Lo Lp] & _). cbn [name party_config] in *.
  destruct (rec_echo _ _ _ _ _ _ _ _ Ry k b Hb) as (_ & Cb & Sb). destruct (Hall k b (HX k Hk) Cb (Sb (HX k Hk))) as [o ->].
  destruct (Lo _ _ _ Hb) as (l & Hl & <-). destruct (vi_lock _ _ _ Vy l Hl) as [_ Hfx]. destruct (vi_fixed _ _ _ Vy _ _ Hfx) as [Cl _].
  rewrite (canonical_eq c s0 delta_ms rr Hinj _ p (lock_proposal l) (lock_digest l)) by done.
  unfold lock_blocks in Pl. rewrite Hl in Pl. destruct (lock_active l) eqn:Ha.
  { destruct e as [u c' t'|u c' t'|u]; cbn in *; try done. by case_bool_decide as Hb'; [destruct Hb' as [-> ->]|]. }
  specialize (Lp l Hl Ha). cbn in Lp. rewrite party_count_size in Lp.
  assert (exists j, j ∈ correct /\ j ∈ selected (fun _ x => mismatch (lock_digest l) x) (echo_statements y)) as (j & Hj & Hjs).
  { pose proof (size_members_committee c). destruct (sizes_meet (selected (fun _ x => mismatch (lock_digest l) x) (echo_statements y)) (members c)
      (members c) (members c ∖ correct)) as (j & ? & ? & ?); [by eapply echo_selected_members|done|unfold from_committee in *; cbn in *; lia|].
    exists j. destruct (decide (j ∈ correct)); [done|]. set_solver. }
  apply elem_of_selected in Hjs as (b & Hbj & Pb). destruct (rec_echo _ _ _ _ _ _ _ _ Ry j b Hbj) as (_ & Cj & Sj).
  destruct (Hall j b Hj Cj (Sj Hj)) as [o' ->]. unfold mismatch in Pb. cbn in Pb. by rewrite Z.eqb_refl in Pb.
Qed.

(** A quorum of SKIP-VOTEs has an endorser's. *)
Lemma decided_skip x :
  recd (engines S) (target_view e) x ->
  n_minus_f_parties (from_party_count (committee_size c)) <= Z.of_nat (size (skip_vote_statements x)) -> outcome_of e = OSkip.
Proof.
  intros Hx Hn. destruct (endorser_meets X (skip_vote_statements x) HX HnX) as (k & HkX & Hk); [by eapply skip_votes_members|done|].
  destruct (rec_skip _ _ _ _ _ _ _ _ Hx k Hk) as [_ Sk]. destruct (Hen k HkX) as (s1 & es1 & o & _ & _ & _ & _ & _ & Hns).
  specialize (Sk (HX k HkX)). destruct e as [u c' t'|u c' t'|u]; [..|done]; destruct Hns as [_ Hno]; done.
Qed.

Lemma decided_grounds x o : recd (engines S) (target_view e) x -> grounds c s0 delta_ms rr (target_view e) x o -> outcome_of e = o.
Proof.
  intros Hx [p d g Cp Hg Q|p d Cp Q|Q]; [by eapply decided_direct|by eapply decided_fast|by eapply decided_skip].
Qed.
End grounds.
End system.

(** ** Agreement *)

(** C1: correct parties seal a view with one outcome, whatever the routes.  Engines and resolvers run together: an
    engine answers the questions of its resolver, and a decision of a resolver is submitted to its
    engine.  With at most [f] Byzantine parties among [n] of equal stake, two correct parties that have
    sealed a view - by a READY quorum, by grade-1 echoes of everyone, by a quorum of skip votes or
    through the resolver - have sealed the same outcome. *)
Theorem sealed_outcome_agreement {Hash : Hashing} {E} {Env : AgbEnv E} {Laws : AgbEnvLaws E} {fuel : Fuel}
    bincode_entry bincode_payload c s0 delta_ms rr correct (S : Sys (E := E)) i j v o o' :
  fault_model c correct -> 1 < committee_size c -> digest_injective s0 -> Inj (=) (=) (vd bincode_entry s0) ->
  sys_reaches bincode_entry bincode_payload c s0 delta_ms rr correct S -> i ∈ correct -> j ∈ correct ->
  sealed_at (engines S) i v = Some o -> sealed_at (engines S) j v = Some o' -> o = o'.
Proof.
  intros Hf Hsize Hinj Hvd HS Hi Hj Si Sj. pose proof (fault_model_stake _ _ Hf) as Hstake.
  pose proof Hf as [Hok Hcor Huni Hfaulty]. pose proof (sys_engines _ _ _ _ _ _ _ S HS) as HN. unfold sealed_at in *.
  destruct (views (node (engines S) i).1 !! v) as [x|] eqn:Hx; [|done].
  destruct (views (node (engines S) j).1 !! v) as [y|] eqn:Hy; [|done]. simpl in Si, Sj.
  destruct (view_recorded _ _ _ _ _ _ Hok Hinj Hcor _ i v x HN Hi Hx) as (Rx & _).
  destruct (view_recorded _ _ _ _ _ _ Hok Hinj Hcor _ j v y HN Hj Hy) as (Ry & _).
  assert (forall k z o1 o2, k ∈ correct -> recorded c s0 delta_ms rr correct (engines S) v z ->
    resolved S k v o1 -> grounds c s0 delta_ms rr v z o2 -> o1 = o2) as Hmixed.
  { intros k z o1 o2 Hk Rz (e & He & <- & <-) Hg.
    destruct (decided_endorsed _ _ c s0 delta_ms rr correct Hf Hinj Hvd Hsize S k e HS Hk He) as (X & HX & HnX & Hen).
    exact (decided_grounds bincode_entry bincode_payload c s0 delta_ms rr correct Hf Hinj Hvd Hsize S e X HS HX HnX Hen z o2 Rz Hg). }
  destruct (sealed_grounds _ _ _ _ _ _ Hok Hinj Hcor _ i v x o HN Hi Hx Si) as [Gi|Gi],
    (sealed_grounds _ _ _ _ _ _ Hok Hinj Hcor _ j v y o' HN Hj Hy Sj) as [Gj|Gj].
  - exact (grounds_agree c s0 delta_ms rr correct (resolved S) Hok Hinj Hcor Hstake Hfaulty Huni (engines S) v x y o o' HN Rx Ry Gi Gj).
  - symmetry. exact (Hmixed j x o' o Hj Rx Gj Gi).
  - exact (Hmixed i y o o' Hi Ry Gi Gj).
  - destruct Gi as (e & He & Ht & <-), Gj as (e' & He' & Ht' & <-).
    by rewrite (decided_same _ _ c s0 delta_ms correct Hcor Hfaulty Hsize Hvd _ i j e e' (sys_resolvers _ _ _ _ _ _ _ S HS)) by congruence.
Qed.

(** ** A run *)

(** One hash under which both kinds of digest are injective. *)
Definition keyed_hashing : Hashing := {|
  blake3 := fun l => default 0 (last l);
  bincode_view_proposal := fun p => [Z.pos (encode (true, Z.pos (encode (vp_view p, vp_c p, vp_t p, vp_m p))))];
  bincode_batch_view_proposal := fun p => [Z.pos (encode (false, Z.pos (encode (bp_view p, bp_c p, bp_t p, bp_m p))))];
|}.

Lemma keyed_injective s : @digest_injective keyed_hashing s.
Proof.
  intros [p|p] [q|q] _; unfold p_digest, vp_digest, bp_digest, domain_hash;
    cbn [blake3 bincode_view_proposal bincode_batch_view_proposal keyed_hashing];
    rewrite !(assoc_L (++)), !last_snoc; cbn [default]; intros Heq%(inj Z.pos)%(inj encode); try done.
  - injection Heq as Heq%(inj encode). destruct p, q; cbn in Heq; congruence.
  - injection Heq as Heq%(inj encode). destruct p, q; cbn in Heq; congruence.
Qed.

Lemma keyed_values s : Inj (=) (=) (@vd keyed_hashing coded_entry s).
Proof.
  intros x y. unfold vd, domain_hash, blake3, keyed_hashing, coded_entry. rewrite !(assoc_L (++)), !last_snoc. cbn. intros [= H].
  by apply (inj encode) in H.
Qed.

Definition question_of (x : DirectResolutionEffect) : option (View * DirectResolverView * Digest * ResolutionEntry * bool) :=
  match x with DValidateVote t v w e fresh => Some (t, v, w, e, fresh) | _ => None end.

Lemma question_elem t v w e fresh (es : list DirectResolutionEffect) : (t, v, w, e, fresh) ∈ omap question_of es -> DValidateVote t v w e fresh ∈ es.
Proof. intros (x & Hx & He)%list_elem_of_omap. destruct x; try done. cbn in He. by simplify_eq. Qed.

Inductive SysAct :=
| ActEngine (k : PublicKey) (ev : Event)
| ActResolver (k : PublicKey) (ev : DirectEvent)
| ActVote (k : PublicKey) (t : View) (v : DirectResolverView) (w : Digest) (e : ResolutionEntry) (fresh : bool).

Section drive.
Context (parties : list PublicKey).
#[local] Existing Instances keyed_hashing open_env open_env_laws enough.
Abbreviation sstep := (dn_step coded_entry coded_payload) (only parsing).

(** What the effects of a resolver cause at its own node and elsewhere. *)
Definition sys_posts (i : PublicKey) (e : DirectResolutionEffect) : list SysAct :=
  match e with
  | DValidateVote t v w entry fresh => [ActVote i t v w entry fresh]
  | DDecide entry => [ActEngine i (EvSubmitResolution (target_view entry) (outcome_of entry))]
  | _ => (fun p => ActResolver p.1 p.2) <$> posts parties i e
  end.

Definition act_ok (S : Sys (E := ())) (a : SysAct) : bool :=
  match a with
  | ActEngine k ev => bool_decide (k ∈ parties) &&
      match ev with
      | EvSubmitResolution v o =>
          bool_decide ((v, o) ∈ (fun e => (target_view e, outcome_of e)) <$> omap decided_entry (dn_sent (resolvers S) k))
      | _ => allowed_b committee4 7 100 rr4 (list_to_set parties) (engines S) k ev
      end
  | ActResolver k ev => allowed_now parties (resolvers S) k ev && match ev with EvVote _ _ _ _ => false | _ => true end
  | ActVote k t v w e fresh => bool_decide (k ∈ parties) && bool_decide ((t, v, w, e, fresh) ∈ omap question_of (dn_sent (resolvers S) k))
  end.

Definition act_step (S : Sys (E := ())) (a : SysAct) : list SysAct * Sys (E := ()) :=
  match a with
  | ActEngine k ev =>
      let r := handle ev (node (engines S) k) in ([], mkSys (set_node (engines S) k (st r) (out r)) (resolvers S))
  | ActResolver k ev =>
      (out (direct_run coded_entry coded_payload ev (dn_node (resolvers S) k)) ≫= sys_posts k, mkSys (engines S) (sstep (resolvers S) k ev))
  | ActVote k t v w e fresh =>
      let r := try_direct_resolution_vote e fresh (node (engines S) k) in
      let ev := EvVote t v w (vote_of (val r)) in
      (out (direct_run coded_entry coded_payload ev (dn_node (resolvers S) k)) ≫= sys_posts k,
       mkSys (set_node (engines S) k (st r) (out r)) (sstep (resolvers S) k ev))
  end.

Fixpoint sys_drive (n : nat) (queue : list SysAct) (S : Sys (E := ())) : Sys (E := ()) :=
  match n, queue with
  | Datatypes.S n, a :: queue =>
      if act_ok S a then let r := act_step S a in sys_drive n (queue ++ r.1) r.2 else sys_drive n queue S
  | _, _ => S
  end.

Abbreviation reachable := (sys_reaches coded_entry coded_payload committee4 7 100 rr4 (list_to_set parties)) (only parsing).

Lemma act_reaches S a : reachable S -> act_ok S a = true -> reachable (act_step S a).2.
Proof.
  intros HS Ha. destruct a as [k ev|k ev|k t v w e fresh]; cbn in Ha; apply andb_prop in Ha as [Hk Ha].
  - apply bool_decide_eq_true in Hk. apply sys_engine; [done|by apply elem_of_list_to_set|].
    destruct ev; try (by apply allowed_b_true). split; [done|]. apply bool_decide_eq_true in Ha.
    apply list_elem_of_fmap in Ha as (e & [= -> ->] & He). exists e. split; [by apply decided_elem|done].
  - unfold allowed_now in Hk. apply andb_prop in Hk as [[Hi%bool_decide_eq_true Hd]%andb_prop Hp].
    apply sys_resolver; [done|by apply elem_of_list_to_set| |by destruct ev]. split.
    + intros j m Hj. rewrite Hj in Hd. apply andb_prop in Hd as [?%bool_decide_eq_true ?%bool_decide_eq_true]. done.
    + destruct ev; try done. lia.
  - apply bool_decide_eq_true in Hk, Ha. by apply (sys_vote _ _ _ _ _ _ _ S k t v w e fresh); [|apply elem_of_list_to_set|apply question_elem].
Qed.

Lemma sys_drive_reaches n queue S : reachable S -> reachable (sys_drive n queue S).
Proof.
  revert queue S. induction n as [|n IH]; intros [|a queue] S HS; try done. cbn [sys_drive].
  destruct (act_ok S a) eqn:Ha; [|by apply IH]. by apply IH, act_reaches.
Qed.
End drive.

(** View 1 of the engines as in [net_schedule], where parties 10 and 20 seal directly; then the resolvers take it up, and
    party 30 seals through its own. *)
Definition entry1 : ResolutionEntry := EntryFull 1 [(20, 1, 100)] [(30, 2, 101)].
Definition sys1 : Sys (E := ()) :=
  sys_drive parties3 600 (((fun p => ActEngine p.1 p.2) <$> net_schedule) ++ ((fun j => ActResolver j (EvCandidates 1 [entry1])) <$> parties3))
    (mkSys (mkNet (fun k => (agb_init (party_config committee4 7 100 rr4 k), tt)) (fun _ => []))
      (mkDNet (fun k => resolver_new k committee4 7 100) (fun _ => []) (fun _ => []))).

Lemma sys1_reached : @sys_reaches keyed_hashing () open_env enough coded_entry coded_payload committee4 7 100 rr4 (list_to_set parties3) sys1.
Proof. apply sys_drive_reaches. apply (@sys_init keyed_hashing () open_env enough coded_entry coded_payload committee4 7 100 rr4 _ (fun _ => tt)). Qed.

(** The fault model for these three parties. *)
Lemma fault_model_parties3 : fault_model committee4 (list_to_set parties3).
Proof.
  destruct fault_model4 as [H1 H2 H3 H4]. replace (list_to_set parties3 : gset PublicKey) with ({[ 10; 20; 30 ]} : gset PublicKey); [by split|].
  refine (bool_decide_eq_true_1 _ _). by vm_compute.
Qed.

Lemma sealed_outcome_agreement_witness :
  sealed_at (engines sys1) 20 1 = directed_at (engines sys1) 20 1 /\ directed_at (engines sys1) 30 1 = None /\
  omap decided_entry (dn_sent (resolvers sys1) 30) = [entry1] /\
  forall o o', sealed_at (engines sys1) 20 1 = Some o -> sealed_at (engines sys1) 30 1 = Some o' -> o = o'.
Proof.
  split; [vm_compute; reflexivity|]. split; [vm_compute; reflexivity|]. split; [vm_compute; reflexivity|]. intros o o' H1 H2.
  apply (@sealed_outcome_agreement keyed_hashing () open_env open_env_laws enough coded_entry coded_payload committee4 7 100 rr4
    (list_to_set parties3) sys1 20 30 1).
  - exact fault_model_parties3.
  - vm_compute. reflexivity.
  - apply keyed_injective.
  - apply keyed_values.
  - exact sys1_reached.
  - apply (bool_decide_unpack _). vm_compute. exact I.
  - apply (bool_decide_unpack _). vm_compute. exact I.
  - exact H1.
  - exact H2.
Defined.

(** All three seal: two of them directly, one through its resolver. *)
Example sys1_seals : (fun k => sealed_at (engines sys1) k 1) <$> parties3 = replicate 3 (Some (outcome_of entry1)).
Proof. vm_compute. reflexivity. Qed.
