(* ===== verification/Cursor.v ===== *)
(** The output cursor.

    Models [Cursor] of [src/primary/src/vantage/cursor.rs]: views are finalised
    in increasing order, each manifest is expanded from the emitted watermarks
    into block digests, and verified sequences from peers are installed in
    budgeted pieces.  The block cache is shared with other components; each
    handler reads it as it is when the handler runs.  Left out: log lines and the
    two fields that only limit them, and the block headers' payloads are grouped
    in worker order where the code iterates a [HashMap]. *)

From S2P Require Import Prelude Committee Types Blocks.

Inductive InstallError :=
| OutOfOrder (expected got : View)
| PrefixMismatch (view : View) (emitted verified : nat)
| AlreadyOutput (view : View) (digest : Digest)
| BlocksMissing (view : View) (digest : Digest).

Record ViewInput := mkViewInput {
  vin_completed : option (Manifest * Manifest);
  vin_sealed : option Outcome;
}.

Definition vin_eta (i : ViewInput) : ViewInput := mkViewInput (vin_completed i) (vin_sealed i).

#[export] Instance set_vin_completed : Setter vin_completed.
Proof. solve_setter vin_eta vin_completed. Defined.
#[export] Instance set_vin_sealed : Setter vin_sealed.
Proof. solve_setter vin_eta vin_sealed. Defined.

Definition vin_default : ViewInput := mkViewInput None None.

Record InstallProgress := mkInstallProgress {
  ip_view : View;
  ip_outcome : SequenceOutcome;
  ip_verified : list Digest;
  ip_prefix_checked : nat;
  ip_prefix_len : nat;
}.

Record Cursor := mkCursor {
  cur_genesis : Digest;
  next_view : View;
  forked_dropped : Z;
  output : gset Digest;
  core_emitted : gset View;
  open_delta : list Digest;
  installing : option InstallProgress;
  pending : gmap View ViewInput;
  watermarks : gmap PublicKey (Height * Digest);
}.

Definition cursor_eta (c : Cursor) : Cursor :=
  mkCursor (cur_genesis c) (next_view c) (forked_dropped c) (output c) (core_emitted c) (open_delta c)
    (installing c) (pending c) (watermarks c).

#[export] Instance set_next_view : Setter next_view.
Proof. solve_setter cursor_eta next_view. Defined.
#[export] Instance set_forked_dropped : Setter forked_dropped.
Proof. solve_setter cursor_eta forked_dropped. Defined.
#[export] Instance set_output : Setter output.
Proof. solve_setter cursor_eta output. Defined.
#[export] Instance set_core_emitted : Setter core_emitted.
Proof. solve_setter cursor_eta core_emitted. Defined.
#[export] Instance set_open_delta : Setter open_delta.
Proof. solve_setter cursor_eta open_delta. Defined.
#[export] Instance set_installing : Setter installing.
Proof. solve_setter cursor_eta installing. Defined.
#[export] Instance set_pending : Setter pending.
Proof. solve_setter cursor_eta pending. Defined.
#[export] Instance set_watermarks : Setter watermarks.
Proof. solve_setter cursor_eta watermarks. Defined.

Definition cursor_new (genesis : Digest) : Cursor :=
  mkCursor genesis 1 0 {[ genesis ]} ∅ [] None ∅ ∅.

Abbreviation CM := (M Effect Cursor) (only parsing).

(** ** Expanding a manifest *)

(** The suffix of each entry above its author's watermark, and the number of
    entries dropped as forked; [None] if one is not ready. *)
Fixpoint manifest_suffixes (blocks : BlockCache) (genesis : Digest)
    (wm : gmap PublicKey (Height * Digest)) (manifest : Manifest)
    : option (list (PublicKey * Height * list Digest)) * Z :=
  match manifest with
  | [] => (Some [], 0)
  | (author, height, digest) :: manifest =>
      let stop := default (0, genesis) (wm !! author) in
      if height <=? stop.1 then manifest_suffixes blocks genesis wm manifest
      else
        match classify_suffix stop.1 stop.2 digest blocks with
        | SReady suffix =>
            let r := manifest_suffixes blocks genesis wm manifest in
            (cons (author, height, suffix) <$> r.1, r.2)
        | SPending => (None, 0)
        | SForked =>
            let r := manifest_suffixes blocks genesis wm manifest in
            (r.1, r.2 + 1)
        end
  end.

(** The digests of a suffix that are new, in order. *)
Fixpoint fresh_digests (out : gset Digest) (seen : gset Digest) (suffix : list Digest)
    : list Digest * gset Digest :=
  match suffix with
  | [] => ([], seen)
  | h :: suffix =>
      if bool_decide (h ∈ out) || bool_decide (h ∈ seen) then fresh_digests out seen suffix
      else
        let r := fresh_digests out ({[ h ]} ∪ seen) suffix in
        (h :: r.1, r.2)
  end.

(** The second loop of [expand]: output in manifest order, watermarks moved. *)
Fixpoint collect_suffixes (out : gset Digest) (seen : gset Digest)
    (suffixes : list (PublicKey * Height * list Digest)) (wm : gmap PublicKey (Height * Digest))
    : list Digest * gmap PublicKey (Height * Digest) :=
  match suffixes with
  | [] => ([], wm)
  | (author, height, suffix) :: suffixes =>
      let r := fresh_digests out seen suffix in
      let wm := match last suffix with Some d => <[ author := (height, d) ]> wm | None => wm end in
      let r' := collect_suffixes out r.2 suffixes wm in
      (r.1 ++ r'.1, r'.2)
  end.

Definition expand (blocks : BlockCache) (manifest : Manifest) : CM (option (list Digest)) :=
  c ← get;
  let r := manifest_suffixes blocks (cur_genesis c) (watermarks c) manifest in
  modify (fun c => c <| forked_dropped ::= fun n => u64_add n r.2 |>);;
  match r.1 with
  | None => mret None
  | Some suffixes =>
      let o := collect_suffixes (output c) ∅ suffixes (watermarks c) in
      modify (fun c => c <| watermarks := o.2 |>);;
      mret (Some o.1)
  end.

(** ** Emitting *)

(** [batches_by_worker_and_headers]. *)
Definition batches_by_worker_and_headers (blocks : BlockCache) (hashes : list Digest)
    : gmap WorkerId (list Digest) * list Header :=
  let headers := ent_block <$> omap (fun h => by_digest blocks !! h) hashes in
  (foldl (fun m h => foldl (fun m p => <[ p.2 := default [] (m !! p.2) ++ [p.1] ]> m) m (map_iter (hd_payload h)))
     ∅ headers, headers).

Definition emit_hashes (now_millis : Z) (blocks : BlockCache) (hashes : list Digest) : CM () :=
  if decide (hashes = []) then skip
  else
    modify (fun c => c <| output ::= union (list_to_set hashes) |> <| open_delta ::= fun l => l ++ hashes |>);;
    let r := batches_by_worker_and_headers blocks hashes in
    emit (NotifyCommitted now_millis (map_iter r.1) r.2).

Definition advance (c : Cursor) : Cursor :=
  c <| pending ::= delete (next_view c) |>
    <| core_emitted ::= fun s => s ∖ {[ next_view c ]} |>
    <| next_view ::= fun v => u64_add v 1 |>.

Definition finalize (o : SequenceOutcome) : CM () :=
  c ← get;
  modify (fun c => advance (c <| open_delta := [] |>));;
  emit (SequenceFinalized (next_view c) o (open_delta c)).

(** ** Pumping *)

(** Expand and emit a core once; false if its blocks are not ready. *)
Definition emit_core (now : Z) (blocks : BlockCache) (core : Manifest) : CM bool :=
  c ← get;
  if bool_decide (next_view c ∈ core_emitted c) then mret true
  else
    hashes ← expand blocks core;
    match hashes with
    | None => mret false
    | Some hashes =>
        modify (fun c => c <| core_emitted ::= union {[ next_view c ]} |>);;
        emit_hashes now blocks hashes;;
        mret true
    end.

Definition emit_completed_core (now : Z) (blocks : BlockCache) (i : ViewInput) : CM () :=
  match vin_completed i with
  | Some (core, _) => emit_core now blocks core;; skip
  | None => skip
  end.

(** One iteration of the loop of [pump]; true continues it. *)
Definition pump_step (now : Z) (blocks : BlockCache) : CM bool :=
  c ← get;
  match pending c !! next_view c with
  | None => mret false
  | Some input =>
      if bool_decide (ip_view <$> installing c = Some (next_view c)) then mret false
      else
        emit_completed_core now blocks input;;
        match vin_sealed input with
        | None => mret false
        | Some (OFull core tips) =>
            ok ← emit_core now blocks core;
            if negb ok then mret false
            else
              hashes ← expand blocks tips;
              match hashes with
              | None => mret false
              | Some hashes =>
                  emit_hashes now blocks hashes;;
                  finalize (SeqFull core tips);;
                  mret true
              end
        | Some (OCore core) =>
            ok ← emit_core now blocks core;
            if negb ok then mret false
            else finalize (SeqCore core);; mret true
        | Some OSkip => finalize SeqSkip;; mret true
        end
  end.

Fixpoint pump_loop (fuel : nat) (now : Z) (blocks : BlockCache) : CM () :=
  match fuel with
  | O => skip
  | S fuel =>
      continue ← pump_step now blocks;
      if (continue : bool) then pump_loop fuel now blocks else skip
  end.

(** Every iteration that continues removes a pending view. *)
Definition pump (now : Z) (blocks : BlockCache) : CM () :=
  c ← get;
  pump_loop (S (size (pending c))) now blocks.

Definition on_completed (now : Z) (blocks : BlockCache) (view : View) (c t : Manifest) : CM () :=
  cur ← get;
  if view <? next_view cur then skip
  else
    modify (fun cur => cur <| pending ::= fun m =>
      <[ view := (default vin_default (m !! view)) <| vin_completed := Some (c, t) |> ]> m |>);;
    pump now blocks.

Definition on_sealed (now : Z) (blocks : BlockCache) (view : View) (o : Outcome) : CM () :=
  cur ← get;
  if view <? next_view cur then skip
  else
    modify (fun cur => cur <| pending ::= fun m =>
      <[ view := (default vin_default (m !! view)) <| vin_sealed := Some o |> ]> m |>);;
    pump now blocks.

Definition retry (now : Z) (blocks : BlockCache) : CM () := pump now blocks.

(** ** Installing a verified sequence *)

(** A refused call or an index out of range, which panics, ends the call. *)
Inductive InstallEnd :=
| IOk (finalized : bool) (examined : nat)
| IErr (e : InstallError)
| IPanic.

(** [apply_watermarks]. *)
Definition raise_watermark (wm : gmap PublicKey (Height * Digest)) (p : PublicKey * Height * Digest)
    : gmap PublicKey (Height * Digest) :=
  let '(author, height, digest) := p in
  let entry := default (0, digest) (wm !! author) in
  <[ author := if entry.1 <? height then (height, digest) else entry ]> wm.

Definition apply_watermarks (blocks : BlockCache) (delivered : list Digest) (c : Cursor) : Cursor :=
  let advances := omap (fun d =>
    (fun e => (hd_author (ent_block e), hd_height (ent_block e), d)) <$> by_digest blocks !! d) delivered in
  c <| watermarks ::= fun wm => foldl raise_watermark wm advances |>.

(** The prefix comparison: at most [budget] digests; the number examined, or
    [Some false] on a mismatch and [None] on an index out of range. *)
Fixpoint check_prefix (fuel : nat) (delta verified : list Digest) (index prefix_len : nat) (examined budget : nat)
    : option (bool * nat * nat) :=
  match fuel with
  | O => Some (true, index, examined)
  | S fuel =>
      if ((index <? prefix_len) && (examined <? budget))%nat then
        match delta !! index, verified !! index with
        | Some d, Some d' =>
            if negb (d =? d') then Some (false, index, examined)
            else check_prefix fuel delta verified (S index) prefix_len (S examined) budget
        | _, _ => None
        end
      else Some (true, index, examined)
  end.

Definition block_ready (blocks : BlockCache) (d : Digest) : bool :=
  match by_digest blocks !! d with Some e => ent_block_ok_verified e | None => false end.

(** Deliver the next digests and, if they are the last, finalise the view. *)
Definition install_chunk (now : Z) (blocks : BlockCache) (install : InstallProgress) (chunk : list Digest)
    (complete : bool) (examined : nat) : CM InstallEnd :=
  emit_hashes now blocks chunk;;
  let examined := (examined + length chunk)%nat in
  if complete then
    modify (fun c => apply_watermarks blocks (ip_verified install) (c <| installing := None |>));;
    finalize (ip_outcome install);;
    mret (IOk true examined)
  else mret (IOk false examined).

(** The call after the installation is under way. *)
Definition install_continue (now : Z) (blocks : BlockCache) (view : View) (budget : nat)
    (install : InstallProgress) : CM InstallEnd :=
  c ← get;
  match check_prefix (ip_prefix_len install - ip_prefix_checked install) (open_delta c) (ip_verified install)
          (ip_prefix_checked install) (ip_prefix_len install) 0 budget with
  | None => mret IPanic
  | Some (matches, index, examined) =>
      modify (fun c => c <| installing := Some (mkInstallProgress (ip_view install) (ip_outcome install)
                              (ip_verified install) index (ip_prefix_len install)) |>);;
      if negb matches then
        mret (IErr (PrefixMismatch view (ip_prefix_len install) (length (ip_verified install))))
      else if (index <? ip_prefix_len install)%nat then mret (IOk false examined)
      else
        let start := length (open_delta c) in
        let last := Nat.min (length (ip_verified install)) (start + (budget - examined)) in
        if (last <? start)%nat then mret IPanic
        else
          let chunk := take (last - start) (drop start (ip_verified install)) in
          match list_find (fun d => d ∈ output c) chunk with
          | Some (_, d) => mret (IErr (AlreadyOutput view d))
          | None =>
              match list_find (fun d => block_ready blocks d = false) chunk with
              | Some (_, d) => mret (IErr (BlocksMissing view d))
              | None =>
                  install_chunk now blocks install chunk (last =? length (ip_verified install))%nat examined
              end
          end
  end.

Definition install_budgeted (now : Z) (blocks : BlockCache) (view : View) (outcome : SequenceOutcome)
    (delta : list Digest) (budget : nat) : CM InstallEnd :=
  c ← get;
  if negb (view =? next_view c) then mret (IErr (OutOfOrder (next_view c) view))
  else
    match installing c with
    | None =>
        if (length delta <? length (open_delta c))%nat then
          mret (IErr (PrefixMismatch view (length (open_delta c)) (length delta)))
        else
          let install := mkInstallProgress view outcome delta 0 (length (open_delta c)) in
          modify (fun c => c <| installing := Some install |>);;
          install_continue now blocks view (Nat.max budget 1) install
    | Some install =>
        if negb (ip_view install =? view) then mret (IErr (OutOfOrder (ip_view install) view))
        else install_continue now blocks view (Nat.max budget 1) install
    end.

Definition abort_install (now : Z) (blocks : BlockCache) : CM () :=
  modify (fun c => c <| installing := None |>);;
  pump now blocks.
