(* ===== verification/Ledger.v ===== *)
(** The ledger the cursor computes.

    What a view adds to the output depends on the decided outcomes of the views
    up to it and on the blocks their manifests name, not on the caches of the
    node that expands them: [view_result] is a partial function. *)

From S2P Require Import Prelude Committee Types Blocks BlockChains Cursor.

(** ** Lists *)

Lemma filter_notin_all {A} `{Countable A} (P l : list A) :
  (forall x, x ∈ l -> x ∉ P) -> filter (fun x => x ∉ P) l = l.
Proof. apply filter_full. Qed.

Lemma filter_notin_none {A} `{Countable A} (P l : list A) :
  (forall x, x ∈ l -> x ∈ P) -> filter (fun x => x ∉ P) l = [].
Proof. intros Hp. apply filter_none. intros x Hx Hn. by apply Hn, Hp. Qed.

(** What is left of [l] once a prefix of it is out. *)
Lemma prefix_rest {A} `{Countable A} (P l : list A) :
  NoDup l -> P `prefix_of` l -> P ++ filter (fun x => x ∉ P) l = l.
Proof.
  intros Hnd [k ->]. f_equal. apply NoDup_app in Hnd as (_ & Hd & _). rewrite filter_app.
  rewrite (filter_notin_none P P), (filter_notin_all P k); [done|set_solver..].
Qed.

(** ** Fresh digests *)

Lemma fresh_digests_spec out seen l :
  let r := fresh_digests out seen l in
  NoDup r.1 /\ (forall d, d ∈ r.1 -> d ∈ l /\ (d ∉ out) /\ (d ∉ seen)) /\
  r.2 = list_to_set r.1 ∪ seen /\ (forall d, d ∈ l -> d ∈ out \/ d ∈ r.2).
Proof.
  cbn zeta. revert seen. induction l as [|h l IH]; intros seen; cbn [fresh_digests fst snd].
  - split_and!; [constructor|set_solver|set_solver|set_solver].
  - destruct (bool_decide (h ∈ out) || bool_decide (h ∈ seen)) eqn:Hh.
    + destruct (IH seen) as (I1 & I2 & I3 & I4). split_and!; [done| |done|].
      * intros d Hd%I2. set_solver.
      * intros d [->|Hd]%elem_of_cons; [|by apply I4]. rewrite I3.
        apply orb_true_iff in Hh as [Hh%bool_decide_eq_true|Hh%bool_decide_eq_true]; set_solver.
    + apply orb_false_iff in Hh as [Ho%bool_decide_eq_false Hs%bool_decide_eq_false].
      destruct (IH ({[h]} ∪ seen)) as (I1 & I2 & I3 & I4). cbn [fst snd]. split_and!.
      * constructor; [|done]. intros Hd%I2. set_solver.
      * intros d [->|Hd%I2]%elem_of_cons; set_solver.
      * rewrite I3. set_solver.
      * intros d [->|Hd]%elem_of_cons; [rewrite I3; set_solver|by apply I4].
Qed.

(** Digests already out drop out of the result; the rest is unchanged. *)
Lemma fresh_digests_more (P : list Digest) out seen seen' l :
  (forall d, d ∉ P -> d ∈ seen <-> d ∈ seen') ->
  (fresh_digests (list_to_set P ∪ out) seen' l).1 = filter (fun d => d ∉ P) (fresh_digests out seen l).1 /\
  (forall d, d ∉ P -> d ∈ (fresh_digests out seen l).2 <-> d ∈ (fresh_digests (list_to_set P ∪ out) seen' l).2).
Proof.
  revert seen seen'. induction l as [|h l IH]; intros seen seen' Hs; cbn [fresh_digests fst snd]; [done|].
  destruct (decide (h ∈ P)) as [Hp|Hp].
  - rewrite (bool_decide_eq_true_2 (h ∈ list_to_set P ∪ out)) by set_solver. cbn [orb].
    destruct (bool_decide (h ∈ out) || bool_decide (h ∈ seen)); [by apply IH|]. cbn [fst snd].
    rewrite filter_cons_False by tauto. apply IH. set_solver.
  - rewrite (bool_decide_ext (h ∈ list_to_set P ∪ out) (h ∈ out)) by set_solver.
    rewrite (bool_decide_ext (h ∈ seen') (h ∈ seen)) by (symmetry; by apply Hs).
    destruct (bool_decide (h ∈ out) || bool_decide (h ∈ seen)); [by apply IH|]. cbn [fst snd].
    rewrite filter_cons_True by done. destruct (IH ({[h]} ∪ seen) ({[h]} ∪ seen')) as [-> ?]; [set_solver|done].
Qed.

Definition move_watermarks (suffixes : list (PublicKey * Height * list Digest))
    (wm : gmap PublicKey (Height * Digest)) : gmap PublicKey (Height * Digest) :=
  foldl (fun wm (p : PublicKey * Height * list Digest) =>
    match last p.2 with Some d => <[ p.1.1 := (p.1.2, d) ]> wm | None => wm end) wm suffixes.

Lemma collect_wm out seen sfx wm : (collect_suffixes out seen sfx wm).2 = move_watermarks sfx wm.
Proof.
  revert seen wm. induction sfx as [|[[a h] s] sfx IH]; intros seen wm; cbn [collect_suffixes snd]; [done|].
  rewrite IH. done.
Qed.

Lemma collect_suffixes_spec out seen sfx wm :
  let ds := (collect_suffixes out seen sfx wm).1 in
  NoDup ds /\ (forall d, d ∈ ds -> (d ∉ out) /\ (d ∉ seen)).
Proof.
  cbn zeta. revert seen wm. induction sfx as [|[[a h] s] sfx IH]; intros seen wm; cbn [collect_suffixes fst].
  - split; [constructor|set_solver].
  - destruct (fresh_digests_spec out seen s) as (F1 & F2 & F3 & _). set (f := fresh_digests out seen s) in *.
    match goal with |- context [collect_suffixes out f.2 sfx ?w] => destruct (IH f.2 w) as (I1 & I2) end.
    split.
    + apply NoDup_app. split_and!; [done| |done]. intros d Hd Hd'. apply I2 in Hd' as [_ Hd'].
      rewrite F3 in Hd'. set_solver.
    + intros d [Hd%F2|Hd%I2]%elem_of_app; [tauto|]. rewrite F3 in Hd. set_solver.
Qed.

Lemma collect_suffixes_more (P : list Digest) out seen seen' sfx wm :
  (forall d, d ∉ P -> d ∈ seen <-> d ∈ seen') ->
  (collect_suffixes (list_to_set P ∪ out) seen' sfx wm).1 =
    filter (fun d => d ∉ P) (collect_suffixes out seen sfx wm).1.
Proof.
  revert seen seen' wm. induction sfx as [|[[a h] s] sfx IH]; intros seen seen' wm Hs;
    cbn [collect_suffixes fst]; [done|].
  destruct (fresh_digests_more P out seen seen' s Hs) as [-> Hs']. rewrite filter_app. f_equal. by apply IH.
Qed.

(** ** Ledgers *)

(** The watermarks and the set of digests output. *)
Definition Ledger : Type := gmap PublicKey (Height * Digest) * gset Digest.

Definition seq_of (o : Outcome) : SequenceOutcome :=
  match o with OFull c t => SeqFull c t | OCore c => SeqCore c | OSkip => SeqSkip end.

Definition outcome_core (o : Outcome) : option Manifest :=
  match o with OFull c _ | OCore c => Some c | OSkip => None end.

Section ledger.
Context {Hash : Hashing} (cm : Committee) (sid : Digest) (mbp : Z).
Abbreviation genesis := (genesis_digest sid) (only parsing).
Abbreviation cache_ok := (cache_ok cm sid mbp) (only parsing).

Definition ledger_new : Ledger := (∅, {[ genesis ]}).

(** Some node's cache had every block that expanding [m] needs. *)
Definition expands (L : Ledger) (m : Manifest) (ds : list Digest) (L' : Ledger) : Prop :=
  exists blocks sfx, cache_ok blocks /\ (manifest_suffixes blocks genesis L.1 m).1 = Some sfx /\
    collect_suffixes L.2 ∅ sfx L.1 = (ds, L'.1) /\ L'.2 = list_to_set ds ∪ L.2.

(** What a decided view adds to the output. *)
Definition view_result (L : Ledger) (o : Outcome) (ds : list Digest) (L' : Ledger) : Prop :=
  match o with
  | OFull c t => exists d1 L1 d2, expands L c d1 L1 /\ expands L1 t d2 L' /\ ds = d1 ++ d2
  | OCore c => expands L c ds L'
  | OSkip => ds = [] /\ L' = L
  end.

Context (Hbind : header_binding cm sid mbp).

Lemma manifest_suffixes_agree b b' wm m s s' :
  cache_ok b -> cache_ok b' ->
  (manifest_suffixes b genesis wm m).1 = Some s -> (manifest_suffixes b' genesis wm m).1 = Some s' -> s = s'.
Proof.
  intros Hb Hb'. revert s s'. induction m as [|[[a h] d] m IH]; intros s s'; cbn [manifest_suffixes];
    [cbn; congruence|].
  destruct (default (0, genesis) (wm !! a)) as [sh sd]. cbn [fst snd]. destruct (h <=? sh); [apply IH|].
  pose proof (classify_suffix_agree cm sid mbp Hbind b b' sh sd d Hb Hb') as Hag.
  destruct (classify_suffix sh sd d b) as [ch| |]; destruct (classify_suffix sh sd d b') as [ch'| |];
    cbn [fst]; try done; try (specialize (Hag ltac:(done) ltac:(done)); discriminate Hag).
  - specialize (Hag ltac:(done) ltac:(done)). injection Hag as ->.
    destruct (manifest_suffixes b _ _ _).1 as [s0|] eqn:H1; [|done].
    destruct (manifest_suffixes b' _ _ _).1 as [s0'|] eqn:H2; [|done].
    cbn. intros [= <-] [= <-]. f_equal. by apply IH.
  - apply IH.
Qed.

Lemma expands_det L m ds1 L1 ds2 L2 :
  expands L m ds1 L1 -> expands L m ds2 L2 -> ds1 = ds2 /\ L1 = L2.
Proof.
  intros (b1 & s1 & Hb1 & Hs1 & Hc1 & Ho1) (b2 & s2 & Hb2 & Hs2 & Hc2 & Ho2).
  pose proof (manifest_suffixes_agree _ _ _ _ _ _ Hb1 Hb2 Hs1 Hs2) as ->.
  rewrite Hc1 in Hc2. injection Hc2 as -> Hw. split; [done|].
  destruct L1, L2. simpl in *. congruence.
Qed.

Lemma view_result_det L o ds1 L1 ds2 L2 :
  view_result L o ds1 L1 -> view_result L o ds2 L2 -> ds1 = ds2 /\ L1 = L2.
Proof.
  destruct o as [c t|c|]; cbn [view_result].
  - intros (a1 & M1 & a2 & E1 & E2 & ->) (b1 & N1 & b2 & F1 & F2 & ->).
    destruct (expands_det _ _ _ _ _ _ E1 F1) as [-> ->].
    destruct (expands_det _ _ _ _ _ _ E2 F2) as [-> ->]. done.
  - apply expands_det.
  - intros [-> ->] [-> ->]. done.
Qed.

Lemma expands_fresh L m ds L' :
  expands L m ds L' -> NoDup ds /\ (forall d, d ∈ ds -> d ∉ L.2) /\ L'.2 = list_to_set ds ∪ L.2.
Proof.
  intros (b & s & _ & _ & Hc & Ho). destruct (collect_suffixes_spec L.2 ∅ s L.1) as [H1 H2].
  rewrite Hc in H1, H2. split_and!; [done| |done]. intros d Hd. by apply H2.
Qed.

Lemma view_result_fresh L o ds L' :
  view_result L o ds L' -> NoDup ds /\ (forall d, d ∈ ds -> d ∉ L.2) /\ L'.2 = list_to_set ds ∪ L.2.
Proof.
  destruct o as [c t|c|]; cbn [view_result]; [|apply expands_fresh|].
  - intros (d1 & L1 & d2 & (N1 & F1 & O1)%expands_fresh & (N2 & F2 & O2)%expands_fresh & ->).
    rewrite O1 in F2, O2. split_and!.
    + apply NoDup_app. split_and!; [done| |done]. intros d Hd Hd'. apply F2 in Hd'. set_solver.
    + intros d [Hd|Hd]%elem_of_app; [by apply F1|]. apply F2 in Hd. set_solver.
    + rewrite O2, list_to_set_app_L. set_solver.
  - intros [-> ->]. split_and!; [constructor|set_solver|set_solver].
Qed.

(** ** The decided sequence *)

Context (decided : View -> Outcome -> Prop).

(** [ledger_at v L hist]: [hist] is what the views below [v] add, in order. *)
Inductive ledger_at : View -> Ledger -> list (View * SequenceOutcome * list Digest) -> Prop :=
| ledger_start : ledger_at 1 ledger_new []
| ledger_view v L hist o ds L' :
    ledger_at v L hist -> decided v o -> view_result L o ds L' ->
    ledger_at (v + 1) L' (hist ++ [(v, seq_of o, ds)]).

Context (Hfun : forall v o o', decided v o -> decided v o' -> o = o').

Lemma ledger_at_view v L hist : ledger_at v L hist -> v = 1 + Z.of_nat (length hist).
Proof. induction 1 as [|v L hist o ds L' _ IH]; [done|]. rewrite length_app. simpl. lia. Qed.

Lemma ledger_at_det v L hist L' hist' :
  ledger_at v L hist -> ledger_at v L' hist' -> L = L' /\ hist = hist'.
Proof.
  intros H1. revert L' hist'. induction H1 as [|v L hist o ds L1 H1 IH Hd Hv]; intros L2 hist2 H2.
  - inversion H2 as [|v L0 h0 ? ? ? Hp]; subst; [done|]. apply ledger_at_view in Hp. lia.
  - inversion H2 as [|v' L0 h0 o' ds' ? Hp Hd' Hv' Heq]; subst.
    { apply ledger_at_view in H1. lia. }
    assert (v' = v) as -> by lia. destruct (IH _ _ Hp) as [-> ->].
    rewrite (Hfun _ _ _ Hd Hd') in Hv. destruct (view_result_det _ _ _ _ _ _ Hv Hv') as [-> ->].
    by rewrite (Hfun _ _ _ Hd Hd').
Qed.

Lemma ledger_at_le v L hist v' L' hist' :
  ledger_at v L hist -> ledger_at v' L' hist' -> v <= v' -> hist `prefix_of` hist'.
Proof.
  intros H1 H2. induction H2 as [|v' L' hist' o ds L2 H2 IH Hd Hv]; intros Hle.
  - pose proof (ledger_at_view _ _ _ H1) as Hv. destruct hist; [done|]. simpl in Hv. lia.
  - destruct (decide (v = v' + 1)) as [->|Hne].
    + destruct (ledger_at_det _ _ _ _ _ H1 (ledger_view _ _ _ _ _ _ H2 Hd Hv)) as [_ ->]. done.
    + apply prefix_app_r, IH. lia.
Qed.

(** Nothing is output twice. *)
Lemma ledger_at_outputs v L hist :
  ledger_at v L hist ->
  NoDup (mjoin hist.*2) /\ L.2 = list_to_set (mjoin hist.*2) ∪ {[ genesis ]} /\ genesis ∉ mjoin hist.*2.
Proof.
  induction 1 as [|v L hist o ds L' _ (IH1 & IH2 & IH3) Hd (N & F & O)%view_result_fresh].
  - split_and!; [constructor|set_solver|set_solver].
  - rewrite fmap_app, join_app. cbn [fmap list_fmap mjoin list_join snd]. rewrite app_nil_r.
    split_and!.
    + apply NoDup_app. split_and!; [done| |done]. intros d Hd' Hd2. apply F in Hd2. set_solver.
    + rewrite O, IH2, list_to_set_app_L. set_solver.
    + intros [?|Hg]%elem_of_app; [done|]. apply F in Hg. set_solver.
Qed.
End ledger.
