(* ===== verification/Watermarks.v ===== *)
(** Watermarks by expansion and by delivery.

    A node that expands a decided manifest moves watermarks by manifest entries;
    one that installs the view's output from a peer moves them by the delivered
    blocks.  For manifests that name blocks by their true author and height, as
    the echoing nodes check ([holds_prefix]), the two agree. *)

From S2P Require Import Prelude Committee Types Blocks BlockChains Cursor Ledger.

Section watermarks.
Context {Hash : Hashing} (cm : Committee) (sid : Digest) (mbp : Z).
Abbreviation genesis := (genesis_digest sid) (only parsing).
Abbreviation cache_ok := (cache_ok cm sid mbp) (only parsing).
Abbreviation valid := (valid cm sid mbp) (only parsing).
Abbreviation expands := (expands cm sid mbp) (only parsing).

Definition truthful (m : Manifest) : Prop :=
  NoDup (ref_author <$> m) /\
  forall r b, r ∈ m -> valid b -> hd_id b = ref_digest r ->
    hd_author b = ref_author r /\ hd_height b = ref_height r.

Definition truthful_outcome (o : Outcome) : Prop :=
  match o with OFull c t => truthful c /\ truthful t | OCore c => truthful c | OSkip => True end.

(** Consecutive blocks of one author, the first above height [s]. *)
Definition lane_run (a : PublicKey) (s : Height) (l : list Digest) : Prop :=
  forall i d, l !! i = Some d -> exists b, valid b /\ hd_id b = d /\
    hd_author b = a /\ hd_height b = s + 1 + Z.of_nat i.

Definition stop_height (wm : gmap PublicKey (Height * Digest)) (a : PublicKey) : Height :=
  (default (0, genesis) (wm !! a)).1.

Record ledger_wf (L : Ledger) : Prop := {
  lw_pos a h d : L.1 !! a = Some (h, d) -> 0 <= h;
  lw_out b : valid b -> hd_id b ∈ L.2 ->
    exists h d, L.1 !! hd_author b = Some (h, d) /\ hd_height b <= h;
}.

Lemma ledger_wf_new : genesis_apart cm sid mbp -> ledger_wf (ledger_new sid).
Proof.
  intros Hg. split; cbn.
  - intros a h d. by rewrite lookup_empty.
  - intros b Hb Hin%elem_of_singleton. by destruct (Hg b Hb).
Qed.

(** An entry of the expansion: a nonempty run from the watermark to the entry's
    height. *)
Definition run_ok (wm : gmap PublicKey (Height * Digest)) (p : PublicKey * Height * list Digest) : Prop :=
  p.2 <> [] /\ lane_run p.1.1 (stop_height wm p.1.1) p.2 /\
  p.1.2 = stop_height wm p.1.1 + Z.of_nat (length p.2).

Lemma path_lookup c a n d l k d' j x :
  cache_ok c -> path (by_digest c) a n d l k d' -> l !! j = Some x ->
  exists b, valid b /\ hd_id b = x /\ hd_author b = a /\ hd_height b = Z.of_nat (n - j).
Proof.
  intros Hc Hp. revert j. induction Hp as [n d|n d e l k d' He Hpin _ _ IH]; intros j; [done|].
  destruct j as [|j]; simpl.
  - intros [= <-]. destruct (co_valid _ _ _ _ Hc _ _ He) as [Hid Hv].
    apply pinned_at_spec in Hpin as [Ha Hh]. by exists (ent_block e).
  - intros Hx. destruct (IH _ Hx) as (b & ?). exists b. done.
Qed.

Lemma ready_run c a h d sh sd ch :
  cache_ok c -> 0 <= sh < h -> (forall b, valid b -> hd_id b = d -> hd_author b = a /\ hd_height b = h) ->
  classify_suffix sh sd d c = SReady ch ->
  ch <> [] /\ lane_run a sh ch /\ h = sh + Z.of_nat (length ch).
Proof.
  intros Hc Hsh Ht. unfold classify_suffix. destruct (by_digest c !! d) as [e|] eqn:He; [|done].
  destruct (co_valid _ _ _ _ Hc _ _ He) as [Hid Hv]. destruct (Ht _ Hv Hid) as [Ha Hh]. rewrite Ha, Hh.
  rewrite <- (Z2Nat.id sh) at 1 by lia. intros (l & Hp & ->)%suffix_walk_ready. cbn [app].
  pose proof (path_le _ _ _ _ _ _ _ Hp) as [Hle Hlen]. split_and!.
  - intros Hr. apply (f_equal length) in Hr. rewrite length_reverse, Hlen in Hr. simpl in Hr. lia.
  - intros i x Hx. apply reverse_lookup_Some in Hx as [Hx Hi].
    destruct (path_lookup _ _ _ _ _ _ _ _ _ Hc Hp Hx) as (b & ? & ? & ? & Hbh).
    exists b. split_and!; try done. rewrite Hbh. lia.
  - rewrite length_reverse, Hlen. lia.
Qed.

Lemma suffixes_runs c wm m sfx :
  cache_ok c -> (forall a h d, wm !! a = Some (h, d) -> 0 <= h) -> truthful m ->
  (manifest_suffixes c genesis wm m).1 = Some sfx ->
  Forall (run_ok wm) sfx /\ NoDup (sfx.*1.*1) /\ (forall a, a ∈ sfx.*1.*1 -> a ∈ ref_author <$> m).
Proof.
  intros Hc Hpos. revert sfx. induction m as [|[[a h] d] m IH]; intros sfx [Hnd Ht].
  { cbn. intros [= <-]. split_and!; [constructor|constructor|set_solver]. }
  apply NoDup_cons in Hnd as [Ha Hnd].
  assert (Htm : truthful m) by (split; [done|]; intros r b Hr; apply Ht; set_solver).
  cbn [manifest_suffixes]. destruct (default (0, genesis) (wm !! a)) as [sh sd] eqn:Hst. cbn [fst snd].
  assert (Hsh : 0 <= sh).
  { destruct (wm !! a) as [[h0 d0]|] eqn:Hw; simpl in Hst; injection Hst as <- <-; [by eapply Hpos|lia]. }
  destruct (Z.leb_spec h sh).
  { intros Hs. destruct (IH _ Htm Hs) as (I1 & I2 & I3). split_and!; [done..|]. intros. right. by apply I3. }
  destruct (classify_suffix sh sd d c) as [ch| |] eqn:Hcl; cbn [fst]; [|done|].
  - destruct (manifest_suffixes c genesis wm m).1 as [s0|]; [|done]. cbn. intros [= <-].
    destruct (IH _ Htm eq_refl) as (I1 & I2 & I3).
    destruct (ready_run _ a h d _ _ _ Hc (conj Hsh H) ltac:(intros b Hb Hd; by apply (Ht (a, h, d)); [set_solver|..]) Hcl)
      as (R1 & R2 & R3).
    split_and!.
    + constructor; [|done]. unfold run_ok, stop_height. cbn [fst snd]. by rewrite Hst.
    + cbn. constructor; [|done]. by intros ?%I3.
    + cbn. intros a' [->|Ha']%elem_of_cons; [left|right; by apply I3].
  - intros Hs. destruct (IH _ Htm Hs) as (I1 & I2 & I3). split_and!; [done..|]. intros. right. by apply I3.
Qed.

Lemma fresh_digests_all out seen l :
  NoDup l -> (forall d, d ∈ l -> (d ∉ out) /\ (d ∉ seen)) ->
  fresh_digests out seen l = (l, list_to_set l ∪ seen).
Proof.
  revert seen. induction l as [|h l IH]; intros seen Hnd Hf; cbn [fresh_digests]; [f_equal; set_solver|].
  apply NoDup_cons in Hnd as [Hh Hnd]. destruct (Hf h) as [Ho Hs]; [set_solver|].
  rewrite !bool_decide_eq_false_2 by done. cbn [orb]. rewrite IH; [cbn [fst snd]; f_equal; set_solver|done|].
  intros d Hd. destruct (Hf d) as [? ?]; [set_solver|]. set_solver.
Qed.

Lemma collect_suffixes_all out seen sfx wm :
  NoDup (mjoin sfx.*2) -> (forall d, d ∈ mjoin sfx.*2 -> (d ∉ out) /\ (d ∉ seen)) ->
  (collect_suffixes out seen sfx wm).1 = mjoin sfx.*2.
Proof.
  revert seen wm. induction sfx as [|[[a h] l] sfx IH]; intros seen wm; [done|].
  cbn [fmap list_fmap snd mjoin list_join]. intros (N1 & N2 & N3)%NoDup_app Hf. cbn [collect_suffixes fst].
  rewrite fresh_digests_all; [|done|intros d Hd; apply Hf, elem_of_app; by left]. cbn [fst snd]. f_equal.
  apply IH; [done|]. intros d Hd. destruct (Hf d) as [? ?]; [apply elem_of_app; by right|].
  split; [done|]. intros [Hx%elem_of_list_to_set|?]%elem_of_union; [by apply (N2 d)|done].
Qed.

Context (Hbind : header_binding cm sid mbp).

Lemma run_block a s l d b :
  lane_run a s l -> d ∈ l -> valid b -> hd_id b = d ->
  hd_author b = a /\ s < hd_height b <= s + Z.of_nat (length l).
Proof.
  intros Hr (i & Hi)%list_elem_of_lookup Hb Hid. destruct (Hr _ _ Hi) as (b' & Hb' & Hid' & Ha & Hh).
  assert (coord b = coord b') as [= -> -> _] by (apply (valid_coord cm sid mbp Hbind); [done..|congruence]).
  apply lookup_lt_Some in Hi. split; [done|]. lia.
Qed.

Lemma run_NoDup a s l : lane_run a s l -> NoDup l.
Proof.
  intros Hr. apply NoDup_alt. intros i j d Hi Hj.
  destruct (Hr _ _ Hi) as (b & Hb & Hid & _ & Hh), (Hr _ _ Hj) as (b' & Hb' & Hid' & _ & Hh').
  assert (coord b = coord b') as [= _ Heq _] by (apply (valid_coord cm sid mbp Hbind); [done..|congruence]). lia.
Qed.

(** A digest of a run names a block of the run's author. *)
Lemma runs_author wm sfx d :
  Forall (run_ok wm) sfx -> d ∈ mjoin sfx.*2 ->
  exists p b, p ∈ sfx /\ d ∈ p.2 /\ valid b /\ hd_id b = d /\ hd_author b = p.1.1.
Proof.
  intros Hf (l & Hd & (p & -> & Hp)%list_elem_of_fmap)%list_elem_of_join.
  rewrite Forall_forall in Hf. destruct (Hf _ Hp) as (_ & Hr & _).
  apply list_elem_of_lookup in Hd as Hd'. destruct Hd' as (i & Hi).
  destruct (Hr _ _ Hi) as (b & ? & ? & ? & _). by exists p, b.
Qed.

Lemma runs_NoDup wm sfx :
  Forall (run_ok wm) sfx -> NoDup (sfx.*1.*1) -> NoDup (mjoin sfx.*2).
Proof.
  induction 1 as [|[[a h] l] sfx (_ & Hr & _) Hf IH]; [constructor|]. cbn.
  intros [Ha Hnd]%NoDup_cons. apply NoDup_app. split_and!; [by eapply run_NoDup| |by apply IH].
  intros d Hd Hd'. destruct (runs_author _ _ _ Hf Hd') as (p & b & Hp & _ & Hb & Hid & Hbp).
  destruct (run_block _ _ _ _ _ Hr Hd Hb Hid) as [Hba _]. cbn in Hba.
  apply Ha. apply list_elem_of_fmap. exists p.1. split; [congruence|]. apply list_elem_of_fmap. by exists p.
Qed.

Lemma runs_fresh L sfx d :
  ledger_wf L -> Forall (run_ok L.1) sfx -> d ∈ mjoin sfx.*2 -> d ∉ L.2.
Proof.
  intros Hw Hf Hd Hin. destruct (runs_author _ _ _ Hf Hd) as (p & b & Hp & Hdp & Hb & <- & Ha).
  rewrite Forall_forall in Hf. destruct (Hf _ Hp) as (_ & Hr & _).
  destruct (run_block _ _ _ _ _ Hr Hdp Hb eq_refl) as [_ Hh].
  destruct (lw_out _ Hw _ Hb Hin) as (h & d' & Hwm & Hle). rewrite Ha in Hwm.
  unfold stop_height in Hh. rewrite Hwm in Hh. simpl in Hh. lia.
Qed.

(** ** Delivered blocks *)

Definition advances (c : BlockCache) (l : list Digest) : list (PublicKey * Height * Digest) :=
  omap (fun d => (fun e => (hd_author (ent_block e), hd_height (ent_block e), d)) <$> by_digest c !! d) l.

Definition cached (c : BlockCache) (l : list Digest) : Prop := forall d, d ∈ l -> is_Some (by_digest c !! d).

Lemma advances_run c a s l :
  cache_ok c -> cached c l -> lane_run a s l ->
  advances c l = imap (fun i d => (a, s + 1 + Z.of_nat i, d)) l.
Proof.
  intros Hc. revert s. induction l as [|d l IH]; intros s Hca Hr; [done|]. cbn [imap].
  destruct (Hca d) as [e He]; [set_solver|]. unfold advances. cbn [omap list_omap]. rewrite He. cbn.
  destruct (co_valid _ _ _ _ Hc _ _ He) as [Hid Hv]. destruct (Hr 0%nat d eq_refl) as (b & Hb & Hbid & <- & Hbh).
  assert (coord (ent_block e) = coord b) as [= Ha Hh _] by (apply (valid_coord cm sid mbp Hbind); [done..|congruence]).
  f_equal; [rewrite Ha, Hh, Hbh; done|].
  etransitivity; [apply (IH (s + 1)); [set_solver|]|].
  - intros i x Hx. destruct (Hr (S i) x Hx) as (b' & ? & ? & ? & Hh'). exists b'. split_and!; try done. rewrite Hh'. lia.
  - apply imap_ext. intros i x _. unfold compose. apply (f_equal (fun h => (_, h, x))). lia.
Qed.

(** Raising by a run above the watermark sets it to the run's end. *)
Lemma raise_run wm a s l :
  l <> [] -> stop_height wm a = s -> 0 <= s ->
  foldl raise_watermark wm (imap (fun i d => (a, s + 1 + Z.of_nat i, d)) l) =
    match last l with Some d => <[ a := (s + Z.of_nat (length l), d) ]> wm | None => wm end.
Proof.
  revert wm s. induction l as [|d l IH]; intros wm s Hne Hs Hpos; [done|]. cbn [imap foldl].
  assert (Hr : raise_watermark wm (a, s + 1 + Z.of_nat 0, d) = <[ a := (s + 1, d) ]> wm).
  { unfold raise_watermark. replace (s + 1 + Z.of_nat 0) with (s + 1) by lia.
    assert ((default (0, d) (wm !! a)).1 = s) as ->.
    { unfold stop_height in Hs. by destruct (wm !! a) as [[h0 d0]|]. }
    by rewrite (proj2 (Z.ltb_lt s (s + 1))) by lia. }
  rewrite Hr. destruct l as [|d' l]; [done|].
  assert (Hx : imap (fun i x => (a, s + 1 + Z.of_nat (S i), x)) (d' :: l) =
    imap (fun i x => (a, s + 1 + 1 + Z.of_nat i, x)) (d' :: l)).
  { apply imap_ext. intros i x _. apply (f_equal (fun h => (a, h, x))). lia. }
  etransitivity; [apply (f_equal (foldl _ _)), Hx|]. rewrite IH; [|done| |lia].
  - rewrite last_cons_cons. destruct (last (d' :: l)) eqn:Hl; [|by apply last_None in Hl].
    rewrite insert_insert_eq. do 2 f_equal. cbn [length]. lia.
  - unfold stop_height. by rewrite lookup_insert_eq.
Qed.

(** Raising by blocks at or below the watermark changes nothing. *)
Lemma raise_below wm a s l h d0 :
  wm !! a = Some (h, d0) -> s + Z.of_nat (length l) <= h ->
  foldl raise_watermark wm (imap (fun i d => (a, s + 1 + Z.of_nat i, d)) l) = wm.
Proof.
  intros Hw. revert s. induction l as [|d l IH]; intros s Hle; [done|]. cbn [imap foldl]. cbn [length] in Hle.
  assert (raise_watermark wm (a, s + 1 + Z.of_nat 0, d) = wm) as ->.
  { unfold raise_watermark. rewrite Hw. cbn [default fst id]. destruct (Z.ltb_spec h (s + 1 + Z.of_nat 0)); [lia|].
    by apply insert_id. }
  etransitivity; [|apply (IH (s + 1)); lia]. f_equal. apply imap_ext. intros i x _. unfold compose. apply (f_equal (fun h => (a, h, x))). lia.
Qed.

Lemma advances_app c l l' : advances c (l ++ l') = advances c l ++ advances c l'.
Proof. apply omap_app. Qed.

Lemma raise_runs c wm wm0 sfx :
  cache_ok c -> cached c (mjoin sfx.*2) -> Forall (run_ok wm0) sfx -> NoDup (sfx.*1.*1) ->
  (forall a, 0 <= stop_height wm0 a) ->
  (forall a, a ∈ sfx.*1.*1 -> stop_height wm a = stop_height wm0 a) ->
  foldl raise_watermark wm (advances c (mjoin sfx.*2)) = move_watermarks sfx wm.
Proof.
  intros Hc Hca Hf Hnd Hpos. revert wm. induction Hf as [|[[a h] l] sfx (Hne & Hr & Hh) Hf IH]; intros wm Hst; [done|].
  cbn [fmap list_fmap mjoin list_join fst snd] in *. apply NoDup_cons in Hnd as [Ha Hnd].
  rewrite advances_app, foldl_app.
  rewrite (advances_run c a (stop_height wm0 a) l) by (done || (intros d Hd; apply Hca, elem_of_app; by left)).
  rewrite raise_run by (done || apply Hst; set_solver).
  rewrite <- Hh. cbn [move_watermarks foldl fst snd]. apply IH.
  - intros d Hd. apply Hca, elem_of_app. by right.
  - done.
  - intros a' Ha'. unfold stop_height. destruct (last l); [|by apply Hst; right].
    rewrite lookup_insert_ne by (intros ->; done). by apply Hst; right.
Qed.

Lemma raise_runs_below c wm wm0 sfx :
  cache_ok c -> cached c (mjoin sfx.*2) -> Forall (run_ok wm0) sfx ->
  (forall p, p ∈ sfx -> exists h d, wm !! p.1.1 = Some (h, d) /\ p.1.2 <= h) ->
  foldl raise_watermark wm (advances c (mjoin sfx.*2)) = wm.
Proof.
  intros Hc Hca Hf Hb. induction Hf as [|[[a h] l] sfx (Hne & Hr & Hh) Hf IH]; [done|].
  cbn [fmap list_fmap mjoin list_join fst snd] in *. rewrite advances_app, foldl_app.
  rewrite (advances_run c a (stop_height wm0 a) l) by (done || (intros d Hd; apply Hca, elem_of_app; by left)).
  destruct (Hb (a, h, l)) as (h' & d' & Hw & Hle); [set_solver|]. cbn [fst snd] in *.
  rewrite (raise_below _ _ _ _ h' d') by (done || lia). apply IH; [|intros p Hp; apply Hb; set_solver].
  intros d Hd. apply Hca, elem_of_app. by right.
Qed.

Lemma move_watermarks_other sfx wm a :
  (a ∉ sfx.*1.*1) -> move_watermarks sfx wm !! a = wm !! a.
Proof.
  revert wm. induction sfx as [|[[a' h'] l'] sfx IH]; intros wm Ha; [done|].
  cbn [move_watermarks foldl fst snd]. cbn in Ha. etransitivity; [apply IH; set_solver|].
  destruct (last l'); [|done]. apply lookup_insert_ne. set_solver.
Qed.

Lemma move_watermarks_lookup wm0 sfx wm p :
  Forall (run_ok wm0) sfx -> NoDup (sfx.*1.*1) -> p ∈ sfx ->
  exists d, move_watermarks sfx wm !! p.1.1 = Some (p.1.2, d).
Proof.
  intros Hf. revert wm. induction Hf as [|[[a h] l] sfx (Hne & _) Hf IH]; intros wm Hnd Hp; [set_solver|].
  cbn in Hnd. apply NoDup_cons in Hnd as [Ha Hnd]. cbn [move_watermarks foldl fst snd].
  apply elem_of_cons in Hp as [-> |Hp]; [|by apply IH]. cbn [fst snd].
  destruct (last l) as [d|] eqn:Hl; [|by apply last_None in Hl]. exists d.
  etransitivity; [by apply move_watermarks_other|]. apply lookup_insert_eq.
Qed.

Lemma stop_height_pos L a : ledger_wf L -> 0 <= stop_height L.1 a.
Proof. intros Hw. unfold stop_height. destruct (L.1 !! a) as [[h d]|] eqn:He; simpl; [by eapply lw_pos|lia]. Qed.

(** Expansion delivers whole runs; delivering them moves the watermarks as
    expansion does, and delivering them again moves nothing. *)
Lemma expands_watermarks L m ds L' :
  ledger_wf L -> truthful m -> expands L m ds L' ->
  ledger_wf L' /\
  (forall c, cache_ok c -> cached c ds ->
    foldl raise_watermark L.1 (advances c ds) = L'.1 /\ foldl raise_watermark L'.1 (advances c ds) = L'.1).
Proof.
  intros Hw Ht (blocks & sfx & Hb & Hs & Hcol & Ho).
  destruct (suffixes_runs _ _ _ _ Hb (lw_pos _ Hw) Ht Hs) as (Hf & Hnd & _).
  assert (Hds : ds = mjoin sfx.*2).
  { pose proof (collect_suffixes_all L.2 ∅ sfx L.1) as Hall. rewrite Hcol in Hall. apply Hall.
    - by eapply runs_NoDup.
    - intros d Hd. split; [by eapply runs_fresh|set_solver]. }
  assert (Hwm : L'.1 = move_watermarks sfx L.1).
  { pose proof (collect_wm L.2 ∅ sfx L.1) as Hx. by rewrite Hcol in Hx. }
  assert (Hrun : forall p, p ∈ sfx -> exists d, L'.1 !! p.1.1 = Some (p.1.2, d) /\ stop_height L.1 p.1.1 < p.1.2).
  { intros p Hp. destruct (move_watermarks_lookup _ sfx L.1 p Hf Hnd Hp) as (d & Hd). exists d.
    rewrite Hwm. split; [done|]. rewrite Forall_forall in Hf. destruct (Hf _ Hp) as (Hne & _ & ->).
    destruct (p.2); [done|]. simpl. lia. }
  assert (Hgrow : forall a h d, L.1 !! a = Some (h, d) -> exists h' d', L'.1 !! a = Some (h', d') /\ h <= h').
  { intros a h d Hl. destruct (decide (a ∈ sfx.*1.*1)) as [Hin|Hn].
    - apply list_elem_of_fmap in Hin as (q & -> & (p & -> & Hp)%list_elem_of_fmap).
      destruct (Hrun _ Hp) as (d' & Hd' & Hlt). exists p.1.2, d'. split; [done|].
      unfold stop_height in Hlt. rewrite Hl in Hlt. simpl in Hlt. lia.
    - exists h, d. rewrite Hwm, move_watermarks_other by done. done. }
  split; [split|].
  - intros a h d Hl. destruct (decide (a ∈ sfx.*1.*1)) as [Hin|Hn].
    + apply list_elem_of_fmap in Hin as (q & -> & (p & -> & Hp)%list_elem_of_fmap).
      destruct (Hrun _ Hp) as (d' & Hd' & Hlt). rewrite Hd' in Hl. injection Hl as <- _.
      pose proof (stop_height_pos L p.1.1 Hw). lia.
    + rewrite Hwm, move_watermarks_other in Hl by done. by eapply lw_pos.
  - intros b Hbv. rewrite Ho, Hds. intros [Hin%elem_of_list_to_set|Hin]%elem_of_union.
    + destruct (runs_author _ _ _ Hf Hin) as (p & b' & Hp & Hdp & _ & _ & _).
      rewrite Forall_forall in Hf. destruct (Hf _ Hp) as (_ & Hr & Hh).
      destruct (run_block _ _ _ _ _ Hr Hdp Hbv eq_refl) as [-> Hle].
      destruct (Hrun _ Hp) as (d' & Hd' & _). exists p.1.2, d'. split; [done|]. lia.
    + destruct (lw_out _ Hw _ Hbv Hin) as (h & d & Hl & Hle).
      destruct (Hgrow _ _ _ Hl) as (h' & d' & Hl' & ?). exists h', d'. split; [done|lia].
  - intros c Hc Hca. rewrite Hds in Hca |- *. split.
    + rewrite Hwm. apply (raise_runs c L.1 L.1); try done. intros a. by apply stop_height_pos.
    + apply (raise_runs_below c L'.1 L.1); try done. intros p Hp.
      destruct (Hrun _ Hp) as (d & Hd & _). by exists p.1.2, d.
Qed.

Lemma expands_wf L m ds L' : ledger_wf L -> truthful m -> expands L m ds L' -> ledger_wf L'.
Proof. intros Hw Ht He. by destruct (expands_watermarks _ _ _ _ Hw Ht He). Qed.

(** The same for a whole view, whether or not its core was expanded before. *)
Lemma view_watermarks L o ds L' c :
  ledger_wf L -> truthful_outcome o -> view_result cm sid mbp L o ds L' -> cache_ok c -> cached c ds ->
  foldl raise_watermark L.1 (advances c ds) = L'.1 /\
  (forall core d1 L1, outcome_core o = Some core -> expands L core d1 L1 ->
    foldl raise_watermark L1.1 (advances c ds) = L'.1).
Proof.
  destruct o as [core tips|core|]; cbn [view_result truthful_outcome outcome_core].
  - intros Hw [Ht1 Ht2] (d1 & L1 & d2 & E1 & E2 & ->) Hc Hca.
    destruct (expands_watermarks _ _ _ _ Hw Ht1 E1) as [Hw1 R1].
    destruct (expands_watermarks _ _ _ _ Hw1 Ht2 E2) as [_ R2].
    destruct (R1 c Hc) as [R1a R1b]; [intros d Hd; apply Hca, elem_of_app; by left|].
    destruct (R2 c Hc) as [R2a _]; [intros d Hd; apply Hca, elem_of_app; by right|].
    rewrite advances_app, foldl_app. split; [by rewrite R1a|].
    intros core' d1' L1' [= <-] E1'. destruct (expands_det cm sid mbp Hbind _ _ _ _ _ _ E1 E1') as [-> ->].
    by rewrite foldl_app, R1b.
  - intros Hw Ht E Hc Hca. destruct (expands_watermarks _ _ _ _ Hw Ht E) as [_ R].
    destruct (R c Hc Hca) as [Ra Rb]. split; [done|]. intros core' d1 L1 [= <-] E1.
    by destruct (expands_det cm sid mbp Hbind _ _ _ _ _ _ E E1) as [-> ->].
  - intros _ _ [-> ->] _ _. done.
Qed.

Lemma ledger_at_wf decided v L hist :
  genesis_apart cm sid mbp -> (forall v o, decided v o -> truthful_outcome o) ->
  ledger_at cm sid mbp decided v L hist -> ledger_wf L.
Proof.
  intros Hg Ht. induction 1 as [|v L hist o ds L' _ IH Hd Hv]; [by apply ledger_wf_new|].
  pose proof (Ht _ _ Hd) as Hto. destruct o as [core tips|core|]; cbn [view_result truthful_outcome] in *.
  - destruct Hv as (d1 & L1 & d2 & E1 & E2 & _). destruct Hto as [T1 T2].
    exact (expands_wf _ _ _ _ (expands_wf _ _ _ _ IH T1 E1) T2 E2).
  - exact (expands_wf _ _ _ _ IH Hto Hv).
  - by destruct Hv as [_ ->].
Qed.
End watermarks.
