(* ===== verification/CursorOrder.v ===== *)
(** Total order of the output.

    Cursors at different nodes, fed the same decided outcomes in any order, with
    completions, retries and installations at any time and with different
    caches, finalise the same views with the same outcomes and the same block
    digests in the same order. *)

From S2P Require Import Prelude Committee Types Fixtures Blocks BlockChains Cursor Ledger Watermarks.

#[local] Arguments u64_add : simpl never.

Definition finals (es : list Effect) : list (View * SequenceOutcome * list Digest) :=
  omap (fun x => match x with SequenceFinalized v o ds => Some (v, o, ds) | _ => None end) es.

Lemma finals_app es es' : finals (es ++ es') = finals es ++ finals es'.
Proof. apply omap_app. Qed.

(** ** Effects of the handlers' parts *)

Lemma expand_run blocks m c :
  expand blocks m c =
    let r := manifest_suffixes blocks (cur_genesis c) (watermarks c) m in
    let c' := c <| forked_dropped ::= fun n => u64_add n r.2 |> in
    match r.1 with
    | None => Res None [] c'
    | Some sfx =>
        let o := collect_suffixes (output c) ∅ sfx (watermarks c) in
        Res (Some o.1) [] (c' <| watermarks := o.2 |>)
    end.
Proof. unfold expand. rewrite get_bind. cbn. by destruct (manifest_suffixes _ _ _ _).1. Qed.

(** The fields emitting leaves alone. *)
Record same_frame (c c' : Cursor) : Prop := {
  sf_genesis : cur_genesis c' = cur_genesis c;
  sf_next : next_view c' = next_view c;
  sf_installing : installing c' = installing c;
  sf_pending : pending c' = pending c;
}.

#[export] Instance same_frame_refl : Reflexive same_frame.
Proof. by split. Qed.
#[export] Instance same_frame_trans : Transitive same_frame.
Proof. intros c1 c2 c3 [] []. split; congruence. Qed.

Lemma emit_hashes_spec now blocks hs c :
  let r := emit_hashes now blocks hs c in
  same_frame c (st r) /\ core_emitted (st r) = core_emitted c /\ watermarks (st r) = watermarks c /\
  output (st r) = list_to_set hs ∪ output c /\ open_delta (st r) = open_delta c ++ hs /\
  finals (out r) = [].
Proof.
  cbn zeta. unfold emit_hashes. destruct (decide (hs = [])) as [->|Hne]; cbn.
  - split_and!; [done|done|done|set_solver|by rewrite app_nil_r|done].
  - by split_and!.
Qed.

Lemma check_prefix_spec fuel delta verified index prefix_len examined budget :
  delta `prefix_of` verified -> (prefix_len <= length delta)%nat -> (index <= prefix_len)%nat ->
  (examined <= budget)%nat -> fuel = (prefix_len - index)%nat ->
  exists index' examined', check_prefix fuel delta verified index prefix_len examined budget =
    Some (true, index', examined') /\ (index' <= prefix_len)%nat /\ (examined' <= budget)%nat /\
    (index' = prefix_len \/ examined' = budget).
Proof.
  intros Hp Hlen. revert index examined. induction fuel as [|fuel IH]; intros index examined Hi He Hf; cbn [check_prefix].
  { exists index, examined. split_and!; [done|lia..]. }
  destruct (Nat.ltb_spec index prefix_len); [|lia]. cbn [andb].
  destruct (Nat.ltb_spec examined budget); [|exists index, examined; split_and!; [done|lia..]].
  destruct (lookup_lt_is_Some_2 delta index) as [d Hd]; [lia|].
  rewrite Hd, (prefix_lookup_Some _ _ _ _ Hd Hp), Z.eqb_refl. cbn [negb]. apply IH; lia.
Qed.

(** The two ends of [install_chunk]. *)
Lemma install_chunk_complete now blocks p chunk ex c r f :
  r = emit_hashes now blocks chunk c ->
  f = finalize (ip_outcome p) (apply_watermarks blocks (ip_verified p) ((st r) <| installing := None |>)) ->
  install_chunk now blocks p chunk true ex c = Res (IOk true (ex + length chunk)) (out r ++ out f) (st f).
Proof.
  intros -> ->. unfold install_chunk. rewrite !bind_run. cbn [val out st modify mret M_ret app].
  by rewrite app_nil_r.
Qed.

Lemma install_chunk_partial now blocks p chunk ex c r :
  r = emit_hashes now blocks chunk c ->
  install_chunk now blocks p chunk false ex c = Res (IOk false (ex + length chunk)) (out r) (st r).
Proof.
  intros ->. unfold install_chunk. rewrite !bind_run. cbn [val out st mret M_ret]. by rewrite app_nil_r.
Qed.

(** ** The invariant *)

Section order.
Context {Hash : Hashing} (cm : Committee) (sid : Digest) (mbp : Z).
Context (decided : View -> Outcome -> Prop) (completes : View -> Manifest -> Manifest -> Prop).
Abbreviation genesis := (genesis_digest sid) (only parsing).
Abbreviation cache_ok := (cache_ok cm sid mbp) (only parsing).
Abbreviation expands := (expands cm sid mbp) (only parsing).
Abbreviation view_result := (view_result cm sid mbp) (only parsing).

(** The outcomes fed to the cursors: one per view, of views below [u64::MAX],
    and consistent with the completions of the view, as the engine ensures. *)
Record consistent_inputs : Prop := {
  ci_fun v o o' : decided v o -> decided v o' -> o = o';
  ci_range v o : decided v o -> v < u64_max;
  ci_compat v c t o : completes v c t -> decided v o -> o = OFull c t \/ o = OCore c;
}.

Definition core_of (v : View) (core : Manifest) : Prop :=
  (exists t, completes v core t) \/ (exists o, decided v o /\ outcome_core o = Some core).

(** [P] starts what the decided view [v] adds to [L]. *)
Definition starts (v : View) (L : Ledger) (P : list Digest) : Prop :=
  exists o ds L', decided v o /\ view_result L o ds L' /\ P `prefix_of` ds.

(** Before and after the core of the view is expanded. *)
Inductive stage (v : View) (L : Ledger) (c : Cursor) : Prop :=
| stage_fresh : (v ∉ core_emitted c) -> watermarks c = L.1 ->
    open_delta c = [] \/ starts v L (open_delta c) -> stage v L c
| stage_core core d1 L1 : (v ∈ core_emitted c) -> core_of v core -> expands L core d1 L1 ->
    watermarks c = L1.1 ->
    open_delta c = d1 \/ (starts v L (open_delta c) /\ d1 `prefix_of` open_delta c) -> stage v L c.

Record install_ok (v : View) (L : Ledger) (P : list Digest) (p : InstallProgress) : Prop := {
  io_view : ip_view p = v;
  io_result : exists o L', decided v o /\ ip_outcome p = seq_of o /\ view_result L o (ip_verified p) L';
  io_prefix : P `prefix_of` ip_verified p;
  io_len : (ip_prefix_len p <= length P)%nat;
  io_checked : (ip_prefix_checked p <= ip_prefix_len p)%nat;
}.

Record cursor_inv (L : Ledger) (c : Cursor) : Prop := {
  cu_genesis : cur_genesis c = genesis;
  cu_output : output c = list_to_set (open_delta c) ∪ L.2;
  cu_core : core_emitted c ⊆ {[ next_view c ]};
  cu_pending v i : pending c !! v = Some i ->
    (forall m t, vin_completed i = Some (m, t) -> completes v m t) /\
    (forall o, vin_sealed i = Some o -> decided v o);
  cu_stage : stage (next_view c) L c;
  cu_install p : installing c = Some p -> install_ok (next_view c) L (open_delta c) p;
}.

Definition cursor_ok (c : Cursor) (es : list Effect) : Prop :=
  exists L, ledger_at cm sid mbp decided (next_view c) L (finals es) /\ cursor_inv L c.

Lemma cursor_ok_new : cursor_ok (cursor_new genesis) [].
Proof.
  exists (ledger_new sid). split; [constructor|]. split; cbn; try done; try (intros *; by rewrite lookup_empty).
  - set_solver.
  - apply stage_fresh; cbn; [set_solver|done|by left].
Qed.

Context (Hbind : header_binding cm sid mbp) (Hin : consistent_inputs).

Lemma core_of_decided v core o : core_of v core -> decided v o -> outcome_core o = Some core.
Proof.
  intros [[t Hc]|(o' & Hd' & Ho)] Hd.
  - by destruct (ci_compat Hin _ _ _ _ Hc Hd) as [-> | ->].
  - by rewrite (ci_fun Hin _ _ _ Hd Hd').
Qed.

(** The digests of an outcome's core come first. *)
Lemma view_result_core L o ds L' core d1 L1 :
  view_result L o ds L' -> outcome_core o = Some core -> expands L core d1 L1 ->
  match o with
  | OFull _ t => exists d2, ds = d1 ++ d2 /\ expands L1 t d2 L'
  | _ => ds = d1 /\ L' = L1
  end.
Proof.
  destruct o as [c t|c|]; cbn [Ledger.view_result outcome_core]; [| |done].
  - intros (e1 & M1 & e2 & E1 & E2 & ->) [= ->] E.
    destruct (expands_det cm sid mbp Hbind _ _ _ _ _ _ E1 E) as [-> ->]. by exists e2.
  - intros E1 [= ->] E. by destruct (expands_det cm sid mbp Hbind _ _ _ _ _ _ E1 E) as [-> ->].
Qed.

Lemma view_result_core_prefix L o ds L' core d1 L1 :
  view_result L o ds L' -> outcome_core o = Some core -> expands L core d1 L1 -> d1 `prefix_of` ds.
Proof.
  intros Hv Ho He. pose proof (view_result_core _ _ _ _ _ _ _ Hv Ho He) as Hx.
  destruct o; [destruct Hx as (d2 & -> & _); by exists d2|by destruct Hx as [-> _]|done].
Qed.

(** A ready manifest expands the ledger; what is already out is left out. *)
Lemma expand_ready blocks (L : Ledger) m sfx (P : list Digest) :
  cache_ok blocks -> (manifest_suffixes blocks genesis L.1 m).1 = Some sfx ->
  exists ds L', expands L m ds L' /\
    collect_suffixes (list_to_set P ∪ L.2) ∅ sfx L.1 = (filter (fun d => d ∉ P) ds, L'.1).
Proof.
  intros Hb Hs. set (r := collect_suffixes L.2 ∅ sfx L.1).
  exists r.1, (r.2, list_to_set r.1 ∪ L.2). split.
  - exists blocks, sfx. split_and!; [done..| |done]. unfold r. by destruct (collect_suffixes _ _ _ _).
  - rewrite (surjective_pairing (collect_suffixes (list_to_set P ∪ L.2) _ _ _)). cbn [fst].
    rewrite (collect_suffixes_more P L.2 ∅ ∅) by done. unfold r. by rewrite !collect_wm.
Qed.

(** Emitting the core from the fresh stage. *)
Lemma stage_expand_core v L P core d1 L1 :
  core_of v core -> expands L core d1 L1 -> P = [] \/ starts v L P ->
  let P' := P ++ filter (fun d => d ∉ P) d1 in
  P' = d1 \/ (starts v L P' /\ d1 `prefix_of` P').
Proof.
  intros Hco He [->|(o & ds & L' & Hd & Hv & Hp)]; cbn zeta.
  { left. cbn. apply filter_notin_all. set_solver. }
  pose proof (core_of_decided _ _ _ Hco Hd) as Ho.
  pose proof (view_result_core_prefix _ _ _ _ _ _ _ Hv Ho He) as Hd1.
  destruct (expands_fresh cm sid mbp _ _ _ _ He) as (N1 & _).
  destruct (prefix_weak_total _ _ _ Hp Hd1) as [HP|HP].
  - left. by apply prefix_rest.
  - right. rewrite filter_notin_none, app_nil_r; [|destruct HP as [k ->]; set_solver].
    split; [|done]. by exists o, ds, L'.
Qed.

Lemma emit_core_spec now blocks core c L :
  cache_ok blocks -> cursor_inv L c -> core_of (next_view c) core -> installing c = None ->
  let r := emit_core now blocks core c in
  cursor_inv L (st r) /\ finals (out r) = [] /\ next_view (st r) = next_view c /\
  installing (st r) = None /\ pending (st r) = pending c /\
  (val r = true -> next_view c ∈ core_emitted (st r)).
Proof.
  intros Hb Hc Hco Hi. cbn zeta. unfold emit_core. rewrite get_bind.
  case_bool_decide as Hem; [done|].
  destruct (cu_stage _ _ Hc) as [_ Hw HP|? ? ? Hem' _ _ _ _]; [|done].
  rewrite bind_run, expand_run. rewrite (cu_genesis _ _ Hc), Hw. cbn zeta.
  destruct (manifest_suffixes blocks genesis L.1 core) as [[sfx|] nf] eqn:Hs; cbn [fst snd].
  2: { cbn. split_and!; try done. destruct Hc as [C1 C2 C3 C4 C5 C6]. split; cbn; try done.
       by apply stage_fresh. }
  destruct (expand_ready blocks L core sfx (open_delta c)) as (d1 & L1 & He & Hcol); [done|by rewrite Hs|].
  rewrite (cu_output _ _ Hc), Hcol. cbn [val out st fst snd app].
  rewrite bind_run. cbn [val out st fst snd app modify].
  set (c1 := _ <| core_emitted ::= _ |>). rewrite bind_run.
  destruct (emit_hashes_spec now blocks (filter (fun d => d ∉ open_delta c) d1) c1)
    as ([F1 F2 F4 F5] & F3 & Ew & Eo & Ed & Ef).
  set (r := emit_hashes _ _ _ _) in *. cbn [val out st mret M_ret app]. rewrite app_nil_r.
  pose proof (stage_expand_core _ _ _ _ _ _ Hco He HP) as HP'. cbn zeta in HP'.
  assert (Hem1 : core_emitted (st r) = {[ next_view c ]} ∪ core_emitted c) by (by rewrite F3).
  assert (Hd1 : open_delta (st r) = open_delta c ++ filter (fun d => d ∉ open_delta c) d1) by (by rewrite Ed).
  split_and!; try done; try (by rewrite F4 || by rewrite F5).
  - destruct Hc as [C1 C2 C3 C4 C5 C6]. split.
    + by rewrite F1.
    + rewrite Eo, Ed. unfold c1. cbn. rewrite C2, list_to_set_app_L. set_solver.
    + rewrite Hem1, F2. unfold c1. cbn. set_solver.
    + by rewrite F5.
    + rewrite F2. unfold c1. cbn. eapply (stage_core _ _ _ core d1 L1).
      * rewrite Hem1. set_solver.
      * done.
      * done.
      * by rewrite Ew.
      * by rewrite Hd1.
    + rewrite F4. unfold c1. cbn. by rewrite Hi.
  - intros _. rewrite Hem1. set_solver.
Qed.

Abbreviation ledger_at := (ledger_at cm sid mbp decided) (only parsing).

(** Finalising a view whose whole output is out. *)
Lemma finalize_spec o c L hist L' :
  ledger_at (next_view c) L hist -> decided (next_view c) o -> view_result L o (open_delta c) L' ->
  watermarks c = L'.1 -> output c = L'.2 -> cur_genesis c = genesis -> core_emitted c ⊆ {[ next_view c ]} ->
  (forall v i, pending c !! v = Some i ->
    (forall m t, vin_completed i = Some (m, t) -> completes v m t) /\
    (forall o, vin_sealed i = Some o -> decided v o)) ->
  installing c = None ->
  let r := finalize (seq_of o) c in
  ledger_at (next_view (st r)) L' (hist ++ finals (out r)) /\ cursor_inv L' (st r) /\
  pending (st r) = delete (next_view c) (pending c).
Proof.
  intros Hl Hd Hv Hw Ho Hg Hc Hp Hi. cbn zeta. unfold finalize. rewrite get_bind, bind_run. cbn.
  pose proof (ledger_at_view _ _ _ _ _ _ _ Hl) as Hnv. pose proof (ci_range Hin _ _ Hd) as Hr.
  rewrite (u64_add_small (next_view c) 1) by lia.
  split_and!; [by eapply ledger_view| |done]. split; cbn; try done.
  - rewrite Ho. set_solver.
  - set_solver.
  - intros v i [_ Hi']%lookup_delete_Some. by apply Hp.
  - apply stage_fresh; cbn; [set_solver|done|by left].
  - by rewrite Hi.
Qed.

(** What a step of the loop leaves, and that it makes progress when it
    continues. *)
Definition step_ok (c : Cursor) (hist : list (View * SequenceOutcome * list Digest)) (r : res Effect Cursor bool)
    : Prop :=
  (exists L', ledger_at (next_view (st r)) L' (hist ++ finals (out r)) /\ cursor_inv L' (st r)) /\
  (val r = true -> pending (st r) = delete (next_view c) (pending c) /\ is_Some (pending c !! next_view c)).

Lemma step_ok_stop c hist L (r : res Effect Cursor bool) :
  ledger_at (next_view (st r)) L hist -> cursor_inv L (st r) -> finals (out r) = [] -> val r = false ->
  step_ok c hist r.
Proof. intros Hl Hc He Hv. split; [|by rewrite Hv]. exists L. by rewrite He, app_nil_r. Qed.

Lemma step_ok_finalize c hist L L' o c' (r : res Effect Cursor bool) :
  ledger_at (next_view c') L hist -> decided (next_view c') o -> view_result L o (open_delta c') L' ->
  watermarks c' = L'.1 -> output c' = L'.2 -> cursor_inv L c -> same_frame c c' ->
  core_emitted c' ⊆ {[ next_view c' ]} -> installing c = None -> is_Some (pending c !! next_view c) ->
  st r = st (finalize (seq_of o) c') -> finals (out r) = finals (out (finalize (seq_of o) c')) ->
  step_ok c hist r.
Proof.
  intros Hl Hd Hv Hw Ho Hc [F1 F2 F4 F5] Hce Hi Hs Hst Hout.
  destruct (finalize_spec o c' L hist L') as (H1 & H2 & H3); try done.
  { by rewrite F1, (cu_genesis _ _ Hc). }
  { rewrite F5. apply Hc. }
  { by rewrite F4. }
  split.
  - exists L'. by rewrite Hst, Hout.
  - intros _. by rewrite Hst, H3, F2, F5.
Qed.

(** The tips complete the output of a full outcome. *)
Lemma tips_complete v L c core tips d1 L1 d2 L2 :
  decided v (OFull core tips) -> expands L core d1 L1 -> expands L1 tips d2 L2 ->
  open_delta c = d1 \/ (starts v L (open_delta c) /\ d1 `prefix_of` open_delta c) ->
  open_delta c ++ filter (fun d => d ∉ open_delta c) d2 = d1 ++ d2 /\
  (forall d, d ∈ open_delta c -> d ∈ d1 ++ d2) /\ (forall d, d ∈ d1 -> d ∈ open_delta c).
Proof.
  intros Hd E1 E2 HP.
  assert (Hv : view_result L (OFull core tips) (d1 ++ d2) L2) by (by exists d1, L1, d2).
  destruct (view_result_fresh cm sid mbp Hbind _ _ _ _ Hv) as (N & _).
  assert (open_delta c `prefix_of` d1 ++ d2 /\ d1 `prefix_of` open_delta c) as [Hpre Hd1].
  { destruct HP as [-> |[(o & ds & L' & Hd' & Hv' & Hp) ?]]; [split; [by exists d2|done]|]. split; [|done].
    rewrite (ci_fun Hin _ _ _ Hd Hd') in Hv.
    by destruct (view_result_det cm sid mbp Hbind _ _ _ _ _ _ Hv Hv') as [-> _]. }
  split_and!.
  - etransitivity; [|exact (prefix_rest (open_delta c) (d1 ++ d2) N Hpre)]. f_equal. rewrite filter_app.
    rewrite (filter_notin_none _ d1); [done|]. destruct Hd1 as [k ->]. set_solver.
  - destruct Hpre as [k ->]. set_solver.
  - destruct Hd1 as [k ->]. set_solver.
Qed.

Lemma stage_core_inv L c :
  cursor_inv L c -> next_view c ∈ core_emitted c ->
  exists core d1 L1, core_of (next_view c) core /\ expands L core d1 L1 /\ watermarks c = L1.1 /\
    (open_delta c = d1 \/ (starts (next_view c) L (open_delta c) /\ d1 `prefix_of` open_delta c)).
Proof. intros Hc Hem. destruct (cu_stage _ _ Hc) as [? _ _|core d1 L1]; [done|]. by exists core, d1, L1. Qed.

(** After its core, a core outcome is complete. *)
Lemma core_complete v L o core d1 L1 P :
  decided v o -> o = OCore core -> expands L core d1 L1 ->
  P = d1 \/ (starts v L P /\ d1 `prefix_of` P) -> P = d1.
Proof.
  intros Hd -> E [?|[(o' & ds & L' & Hd' & Hv & Hp) Hp']]; [done|].
  rewrite <- (ci_fun Hin _ _ _ Hd Hd') in Hv.
  destruct (expands_det cm sid mbp Hbind _ _ _ _ _ _ Hv E) as [-> _]. by apply (anti_symm prefix).
Qed.

(** A cursor in mid-step: nothing finalised yet, only the view's output moved. *)
Record mid_step (L : Ledger) (c c' : Cursor) (es : list Effect) : Prop := {
  ms_inv : cursor_inv L c';
  ms_frame : same_frame c c';
  ms_quiet : finals es = [];
}.

Lemma mid_emit_core now blocks core c L :
  cache_ok blocks -> cursor_inv L c -> core_of (next_view c) core -> installing c = None ->
  let r := emit_core now blocks core c in
  mid_step L c (st r) (out r) /\ (val r = true -> next_view c ∈ core_emitted (st r)).
Proof.
  intros Hb Hc Hco Hi. cbn zeta.
  destruct (emit_core_spec now blocks core c L Hb Hc Hco Hi) as (H1 & H2 & H3 & H4 & H5 & H6).
  split; [|done]. split; [done| |done]. split; try done; [|by rewrite H4].
  by rewrite (cu_genesis _ _ H1), (cu_genesis _ _ Hc).
Qed.

Lemma mid_completed now blocks i c L :
  cache_ok blocks -> cursor_inv L c -> installing c = None -> pending c !! next_view c = Some i ->
  let r := emit_completed_core now blocks i c in mid_step L c (st r) (out r).
Proof.
  intros Hb Hc Hi Hp. cbn zeta. unfold emit_completed_core.
  destruct (vin_completed i) as [[core t]|] eqn:Hco; [|by split].
  destruct (mid_emit_core now blocks core c L Hb Hc) as [[H1 H2 H3] _]; [|done|].
  - left. exists t. by eapply (cu_pending _ _ Hc).
  - rewrite bind_run. cbn [out st skip mret M_ret]. rewrite app_nil_r. by split.
Qed.

(** A full outcome whose core is out. *)
Lemma step_full now blocks core tips c c2 L hist es :
  cache_ok blocks -> ledger_at (next_view c) L hist -> cursor_inv L c -> installing c = None ->
  is_Some (pending c !! next_view c) -> decided (next_view c) (OFull core tips) ->
  mid_step L c c2 es -> next_view c ∈ core_emitted c2 ->
  let r := (hashes ← expand blocks tips;
            match hashes with
            | None => mret false
            | Some hashes => emit_hashes now blocks hashes;; finalize (SeqFull core tips);; mret true
            end) c2 in
  step_ok c hist (Res (val r) (es ++ out r) (st r)).
Proof.
  intros Hb Hl Hc Hi Hs Hd [Hc2 Hfr He] Hem. cbn zeta. pose proof (sf_next _ _ Hfr) as Hnv.
  destruct (stage_core_inv _ _ Hc2) as (core' & d1 & L1 & Hco & E1 & Hw & HP); [by rewrite Hnv|].
  rewrite Hnv in Hco, HP. pose proof (core_of_decided _ _ _ Hco Hd) as [= <-].
  rewrite bind_run, expand_run, (cu_genesis _ _ Hc2), Hw. cbn zeta.
  destruct (manifest_suffixes blocks genesis L1.1 tips) as [[sfx|] nf] eqn:Hsf; cbn [fst snd].
  2: { eapply step_ok_stop; cbn [st val out mret M_ret]; [cbn; by rewrite Hnv| | |done].
       - destruct Hc2 as [C1 C2 C3 C4 C5 C6]. split; cbn; try done.
         eapply stage_core; cbn; try done; by rewrite Hnv.
       - by rewrite finals_app, He. }
  destruct (expand_ready blocks L1 tips sfx (open_delta c2)) as (d2 & L2 & E2 & Hcol); [done|by rewrite Hsf|].
  destruct (tips_complete _ _ c2 _ _ _ _ _ _ Hd E1 E2 HP) as (Hall & Hsub & Hd1).
  destruct (expands_fresh cm sid mbp _ _ _ _ E1) as (_ & _ & O1).
  destruct (expands_fresh cm sid mbp _ _ _ _ E2) as (_ & _ & O2).
  assert (output c2 = list_to_set (open_delta c2) ∪ L1.2) as ->.
  { rewrite (cu_output _ _ Hc2), O1. set_solver. }
  rewrite Hcol. cbn [val out st fst snd app].
  set (c3 := _ <| watermarks := L2.1 |>). rewrite bind_run.
  destruct (emit_hashes_spec now blocks (filter (fun d => d ∉ open_delta c2) d2) c3)
    as (Hfr3 & F3 & Ew & Eo & Ed & Ef).
  set (r := emit_hashes _ _ _ _) in *. rewrite bind_run. cbn [val out st mret M_ret].
  assert (Hfr' : same_frame c (st r)) by (etransitivity; [exact Hfr|etransitivity; [|exact Hfr3]]; by split).
  assert (Hdelta : open_delta (st r) = d1 ++ d2) by (rewrite Ed; exact Hall).
  eapply (step_ok_finalize c hist L L2 (OFull core tips) (st r)); try done.
  - by rewrite (sf_next _ _ Hfr').
  - by rewrite (sf_next _ _ Hfr').
  - rewrite Hdelta. by exists d1, L1, d2.
  - rewrite Eo. unfold c3. cbn [output setter set_watermarks set_forked_dropped].
    rewrite (cu_output _ _ Hc2), O2, O1. apply set_eq. intros d.
    rewrite !elem_of_union, !elem_of_list_to_set. rewrite list_elem_of_filter.
    pose proof (Hsub d) as S1. rewrite elem_of_app in S1. pose proof (Hd1 d) as S2.
    destruct (decide (d ∈ open_delta c2)); tauto.
  - rewrite (sf_next _ _ Hfr'), F3, <- Hnv. apply (cu_core _ _ Hc2).
  - cbn [out]. rewrite !finals_app, He, Ef. cbn. by rewrite app_nil_r.
Qed.

Lemma pump_step_ok now blocks c L hist :
  cache_ok blocks -> ledger_at (next_view c) L hist -> cursor_inv L c ->
  step_ok c hist (pump_step now blocks c).
Proof.
  intros Hb Hl Hc. unfold pump_step. rewrite get_bind.
  destruct (pending c !! next_view c) as [i|] eqn:Hp; [|by eapply step_ok_stop].
  case_bool_decide as Hins; [by eapply step_ok_stop|].
  assert (Hi : installing c = None).
  { destruct (installing c) as [p|] eqn:Hi; [|done]. destruct Hins. simpl.
    by rewrite (io_view _ _ _ _ (cu_install _ _ Hc _ Hi)). }
  assert (Hs : is_Some (pending c !! next_view c)) by (by rewrite Hp).
  pose proof (mid_completed now blocks i c L Hb Hc Hi Hp) as Hm1. cbn zeta in Hm1.
  rewrite bind_run. set (r1 := emit_completed_core now blocks i c) in *.
  destruct Hm1 as [Hc1 Hf1 He1]. pose proof (sf_next _ _ Hf1) as Hn1.
  destruct (vin_sealed i) as [o|] eqn:Hse.
  2: { eapply step_ok_stop; cbn [st val out mret M_ret]; [by rewrite Hn1|done| |done].
       by rewrite app_nil_r. }
  assert (Hd : decided (next_view c) o) by (by eapply (cu_pending _ _ Hc)).
  assert (Hce : forall core, outcome_core o = Some core -> core_of (next_view (st r1)) core).
  { intros core Ho. right. exists o. by rewrite Hn1. }
  assert (Hi1 : installing (st r1) = None) by (by rewrite (sf_installing _ _ Hf1)).
  destruct o as [core tips|core|].
  - destruct (mid_emit_core now blocks core (st r1) L Hb Hc1 (Hce _ eq_refl) Hi1) as [[Hc2 Hf2 He2] Hem].
    rewrite bind_run. set (r2 := emit_core now blocks core (st r1)) in *. cbn [out st val].
    assert (Hm2 : mid_step L c (st r2) (out r1 ++ out r2)).
    { split; [done|by etransitivity|]. by rewrite finals_app, He1, He2. }
    destruct (val r2); cbn [negb].
    + rewrite (assoc_L (++)). by eapply (step_full now blocks core tips c (st r2)); [..|rewrite <- Hn1; apply Hem].
    + eapply step_ok_stop; cbn [st val out mret M_ret]; [by rewrite (sf_next _ _ Hf2), Hn1|done| |done].
      rewrite app_nil_r. by apply Hm2.
  - destruct (mid_emit_core now blocks core (st r1) L Hb Hc1 (Hce _ eq_refl) Hi1) as [[Hc2 Hf2 He2] Hem].
    rewrite bind_run. set (r2 := emit_core now blocks core (st r1)) in *. cbn [out st val].
    destruct (val r2); cbn [negb].
    + pose proof (sf_next _ _ Hf2) as Hn2.
      destruct (stage_core_inv _ _ Hc2) as (core' & d1 & L1 & Hco & E1 & Hw & HP);
        [rewrite Hn2; by apply Hem|].
      rewrite Hn2, Hn1 in Hco, HP. pose proof (core_of_decided _ _ _ Hco Hd) as [= <-].
      pose proof (core_complete _ _ _ _ _ _ _ Hd eq_refl E1 HP) as HP'.
      destruct (expands_fresh cm sid mbp _ _ _ _ E1) as (_ & _ & O1).
      rewrite bind_run. cbn [out st val mret M_ret].
      eapply (step_ok_finalize c hist L L1 (OCore core) (st r2)); try done.
      * by rewrite Hn2, Hn1.
      * by rewrite Hn2, Hn1.
      * by rewrite HP'.
      * by rewrite (cu_output _ _ Hc2), HP', O1.
      * by etransitivity.
      * apply (cu_core _ _ Hc2).
      * cbn [out]. rewrite !finals_app, He1, He2. by rewrite app_nil_r.
    + eapply step_ok_stop; cbn [st val out mret M_ret]; [by rewrite (sf_next _ _ Hf2), Hn1|done| |done].
      by rewrite app_nil_r, finals_app, He1, He2.
  - assert (HP : (next_view c ∉ core_emitted (st r1)) /\ watermarks (st r1) = L.1 /\ open_delta (st r1) = []).
    { destruct (cu_stage _ _ Hc1) as [Hn Hw HP|core d1 L1 _ Hco _ _ _].
      - rewrite Hn1 in *. split_and!; try done. destruct HP as [?|(o & ds & L' & Hd' & Hv & Hpre)]; [done|].
        rewrite <- (ci_fun Hin _ _ _ Hd Hd') in Hv. destruct Hv as [-> _]. by apply prefix_nil_inv.
      - rewrite Hn1 in Hco. by pose proof (core_of_decided _ _ _ Hco Hd). }
    destruct HP as (Hn & Hw & HP). rewrite bind_run. cbn [out st val mret M_ret].
    eapply (step_ok_finalize c hist L L OSkip (st r1)); try done.
    + by rewrite Hn1.
    + by rewrite Hn1.
    + rewrite (cu_output _ _ Hc1), HP. set_solver.
    + apply (cu_core _ _ Hc1).
    + cbn [out]. rewrite finals_app, He1. by rewrite app_nil_r.
Qed.

(** Every handler keeps the cursor on the decided sequence. *)
Definition keeps (c : Cursor) (es : list Effect) (c' : Cursor) : Prop :=
  forall hist L, ledger_at (next_view c) L hist -> cursor_inv L c ->
  exists L', ledger_at (next_view c') L' (hist ++ finals es) /\ cursor_inv L' c'.

#[export] Instance keeps_trace : TraceRel keeps.
Proof.
  split.
  - intros c hist L Hl Hc. exists L. by rewrite app_nil_r.
  - intros c1 c2 c3 es1 es2 H1 H2 hist L Hl Hc. destruct (H1 _ _ Hl Hc) as (L1 & Hl1 & Hc1).
    destruct (H2 _ _ Hl1 Hc1) as (L2 & Hl2 & Hc2). exists L2. by rewrite finals_app, (assoc_L (++)).
Qed.

Lemma keeps_pump_loop fuel now blocks : cache_ok blocks -> sat keeps (pump_loop fuel now blocks).
Proof.
  intros Hb. induction fuel as [|fuel IH]; cbn [pump_loop]; [apply sat_ret; apply _|].
  apply sat_bind; [apply _| |intros []; [done|apply sat_ret; apply _]].
  intros c hist L Hl Hc. by apply (pump_step_ok now blocks c L hist).
Qed.

Lemma keeps_pump now blocks : cache_ok blocks -> sat keeps (pump now blocks).
Proof. intros Hb. apply sat_get_bind. intros c. by apply keeps_pump_loop. Qed.

Lemma keeps_pending (f : gmap View ViewInput -> gmap View ViewInput) :
  (forall m, (forall v i, m !! v = Some i ->
      (forall c t, vin_completed i = Some (c, t) -> completes v c t) /\ (forall o, vin_sealed i = Some o -> decided v o)) ->
    forall v i, f m !! v = Some i ->
      (forall c t, vin_completed i = Some (c, t) -> completes v c t) /\ (forall o, vin_sealed i = Some o -> decided v o)) ->
  sat keeps (modify (fun c => c <| pending ::= f |>)).
Proof.
  intros Hf c hist L Hl [C1 C2 C3 C4 C5 C6]. exists L. cbn. rewrite app_nil_r. split; [done|].
  split; cbn; try done; [by apply Hf|]. destruct C5; [by apply stage_fresh|by eapply stage_core].
Qed.

Lemma keeps_on_completed now blocks v m t :
  cache_ok blocks -> completes v m t -> sat keeps (on_completed now blocks v m t).
Proof.
  intros Hb Hco. apply sat_get_bind. intros c. destruct (_ <? _); [apply sat_ret; apply _|].
  apply sat_bind; [apply _| |intros _; by apply keeps_pump]. apply keeps_pending.
  intros p Hp v' i. rewrite lookup_insert_Some. intros [[<- <-]|[_ Hi]]; [|by apply Hp]. cbn.
  split; [by intros ? ? [= <- <-]|]. destruct (p !! v) as [i|] eqn:Hi; [by apply (Hp _ _ Hi)|done].
Qed.

Lemma keeps_on_sealed now blocks v o :
  cache_ok blocks -> decided v o -> sat keeps (on_sealed now blocks v o).
Proof.
  intros Hb Hd. apply sat_get_bind. intros c. destruct (_ <? _); [apply sat_ret; apply _|].
  apply sat_bind; [apply _| |intros _; by apply keeps_pump]. apply keeps_pending.
  intros p Hp v' i. rewrite lookup_insert_Some. intros [[<- <-]|[_ Hi]]; [|by apply Hp]. cbn.
  split; [|by intros ? [= <-]]. destruct (p !! v) as [i|] eqn:Hi; [by apply (Hp _ _ Hi)|done].
Qed.

Lemma keeps_installing_none : sat keeps (modify (fun c => c <| installing := None |>)).
Proof.
  intros c hist L Hl [C1 C2 C3 C4 C5 C6]. exists L. cbn. rewrite app_nil_r. split; [done|].
  split; cbn; try done. destruct C5; [by apply stage_fresh|by eapply stage_core].
Qed.

(** ** Installing *)

Context (Hgen : genesis_apart cm sid mbp) (Htrue : forall v o, decided v o -> truthful_outcome cm sid mbp o).

(** Wherever the open output ends, it starts the decided view's output. *)
Lemma open_prefix L c o ds L' :
  cursor_inv L c -> decided (next_view c) o -> view_result L o ds L' -> open_delta c `prefix_of` ds.
Proof.
  intros Hc Hd Hv.
  assert (Hst : starts (next_view c) L (open_delta c) -> open_delta c `prefix_of` ds).
  { intros (o' & ds' & L2 & Hd' & Hv' & Hp). rewrite <- (ci_fun Hin _ _ _ Hd Hd') in Hv'.
    by destruct (view_result_det cm sid mbp Hbind _ _ _ _ _ _ Hv Hv') as [-> _]. }
  destruct (cu_stage _ _ Hc) as [_ _ [-> |HP]|core d1 L1 _ Hco E _ [-> |[HP _]]]; try by apply Hst.
  - by exists ds.
  - eapply view_result_core_prefix; [done| |done]. by eapply core_of_decided.
Qed.

(** The view's output grows by the next digests of the decided view. *)
Lemma stage_grow L c c' o ds L' :
  stage (next_view c) L c -> decided (next_view c) o -> view_result L o ds L' ->
  next_view c' = next_view c -> core_emitted c' = core_emitted c -> watermarks c' = watermarks c ->
  open_delta c `prefix_of` open_delta c' -> open_delta c' `prefix_of` ds -> stage (next_view c) L c'.
Proof.
  intros Hs Hd Hv Hn Hem Hw Hp Hp'.
  assert (Hst : starts (next_view c) L (open_delta c')) by (by exists o, ds, L').
  destruct Hs as [H1 H2 _|core d1 L1 H1 H2 H3 H4 HP].
  - apply stage_fresh; [by rewrite Hem|by rewrite Hw|by right].
  - eapply (stage_core _ _ _ core d1 L1); [by rewrite Hem|done|done|by rewrite Hw|]. right. split; [done|].
    destruct HP as [<- |[_ ?]]; [done|by etransitivity].
Qed.

Lemma stage_watermarks L c o ds L' blocks hist :
  ledger_at (next_view c) L hist -> stage (next_view c) L c -> decided (next_view c) o ->
  view_result L o ds L' -> cache_ok blocks -> cached blocks ds ->
  foldl raise_watermark (watermarks c) (advances blocks ds) = L'.1.
Proof.
  intros Hl Hs Hd Hv Hb Hca. pose proof (ledger_at_wf cm sid mbp Hbind _ _ _ _ Hgen Htrue Hl) as Hw.
  destruct (view_watermarks cm sid mbp Hbind _ _ _ _ _ Hw (Htrue _ _ Hd) Hv Hb Hca) as [R1 R2].
  destruct Hs as [_ -> _|core d1 L1 _ Hco E -> _]; [done|]. eapply R2; [|done]. by eapply core_of_decided.
Qed.

(** An installation call that is fed the decided output either makes progress or
    reports a block it still lacks. *)
Definition install_end_ok (x : InstallEnd) : Prop :=
  match x with IOk _ _ | IErr (BlocksMissing _ _) => True | _ => False end.

Definition install_step_ok (hist : list (View * SequenceOutcome * list Digest)) (r : res Effect Cursor InstallEnd)
    : Prop :=
  (exists L', ledger_at (next_view (st r)) L' (hist ++ finals (out r)) /\ cursor_inv L' (st r)) /\
  install_end_ok (val r).

Lemma install_stop hist L (r : res Effect Cursor InstallEnd) :
  ledger_at (next_view (st r)) L hist -> cursor_inv L (st r) -> finals (out r) = [] -> install_end_ok (val r) ->
  install_step_ok hist r.
Proof. intros Hl Hc He Hv. split; [|done]. exists L. by rewrite He, app_nil_r. Qed.

Lemma cursor_inv_progress L c p index :
  cursor_inv L c -> installing c = Some p -> (index <= ip_prefix_len p)%nat ->
  cursor_inv L (c <| installing := Some (mkInstallProgress (ip_view p) (ip_outcome p) (ip_verified p) index
                                           (ip_prefix_len p)) |>).
Proof.
  intros [C1 C2 C3 C4 C5 C6] Hp Hi. split; cbn; try done.
  - destruct C5; [by apply stage_fresh|by eapply stage_core].
  - intros p' [= <-]. destruct (C6 _ Hp). by split.
Qed.

(** The open output is extended by [chunk], the next digests of the view. *)
Lemma deliver_chunk now blocks chunk c L p :
  cursor_inv L c -> installing c = Some p -> open_delta c ++ chunk `prefix_of` ip_verified p ->
  let r := emit_hashes now blocks chunk c in
  cursor_inv L (st r) /\ finals (out r) = [] /\ next_view (st r) = next_view c /\
  installing (st r) = Some p /\ open_delta (st r) = open_delta c ++ chunk.
Proof.
  intros Hc Hp Hpre. cbn zeta.
  destruct (emit_hashes_spec now blocks chunk c) as ([F1 F2 F4 F5] & F3 & Ew & Eo & Ed & Ef).
  set (r := emit_hashes now blocks chunk c) in *.
  destruct (cu_install _ _ Hc _ Hp) as [I1 (o & L' & Hd & Ho & Hv) I3 I4 I5].
  split_and!; [|done|done|by rewrite F4|done].
  destruct Hc as [C1 C2 C3 C4 C5 C6]. split.
  - by rewrite F1.
  - rewrite Eo, Ed, C2, list_to_set_app_L. set_solver.
  - by rewrite F3, F2.
  - by rewrite F5.
  - rewrite F2. eapply stage_grow; try done; rewrite Ed; [by exists chunk|done].
  - rewrite F4, F2, Ed. intros p' Hp'. rewrite Hp in Hp'. injection Hp' as <-.
    split; [done|by exists o, L'|done|rewrite length_app; lia|done].
Qed.

(** The last call: watermarks move and the view is finalised. *)
Lemma install_finish blocks c L hist p f :
  cache_ok blocks -> ledger_at (next_view c) L hist -> cursor_inv L c -> installing c = Some p ->
  open_delta c = ip_verified p -> cached blocks (ip_verified p) ->
  f = finalize (ip_outcome p) (apply_watermarks blocks (ip_verified p) (c <| installing := None |>)) ->
  exists L', ledger_at (next_view (st f)) L' (hist ++ finals (out f)) /\ cursor_inv L' (st f).
Proof.
  intros Hb Hl Hc Hp Hall Hca ->.
  destruct (cu_install _ _ Hc _ Hp) as [I1 (o & L' & Hd & -> & Hv) _ _ _].
  pose proof (stage_watermarks _ _ _ _ _ _ _ Hl (cu_stage _ _ Hc) Hd Hv Hb Hca) as Hw.
  destruct (view_result_fresh cm sid mbp Hbind _ _ _ _ Hv) as (_ & _ & O).
  destruct (finalize_spec o (apply_watermarks blocks (ip_verified p) (c <| installing := None |>)) L hist L')
    as (H1 & H2 & _); try done.
  - cbn. by rewrite Hall.
  - cbn. by rewrite (cu_output _ _ Hc), Hall, O.
  - apply Hc.
  - apply Hc.
  - apply Hc.
  - by exists L'.
Qed.

Lemma install_partial_ok now blocks p chunk ex c L hist r :
  r = emit_hashes now blocks chunk c ->
  ledger_at (next_view (st r)) L hist -> cursor_inv L (st r) -> finals (out r) = [] ->
  install_step_ok hist (install_chunk now blocks p chunk false ex c).
Proof.
  intros Hr D1 D2 D3. rewrite (install_chunk_partial _ _ _ _ _ _ r Hr). clear Hr.
  eapply install_stop; cbn [st out val]; [exact D1|exact D2|exact D3|exact I].
Qed.

Lemma install_complete_ok now blocks p chunk ex c L hist (r : res Effect Cursor ()) f :
  r = emit_hashes now blocks chunk c ->
  f = finalize (ip_outcome p) (apply_watermarks blocks (ip_verified p) ((st r) <| installing := None |>)) ->
  ledger_at (next_view (st f)) L (hist ++ finals (out f)) -> cursor_inv L (st f) -> finals (out r) = [] ->
  install_step_ok hist (install_chunk now blocks p chunk true ex c).
Proof.
  intros Hr Hf D1 D2 D3. rewrite (install_chunk_complete _ _ _ _ _ _ r f Hr Hf).
  clear Hf Hr. split; [|exact I]. exists L. cbn [out st]. by rewrite finals_app, D3.
Qed.

Lemma install_chunk_ok now blocks p chunk complete ex c L hist :
  cache_ok blocks -> ledger_at (next_view c) L hist -> cursor_inv L c -> installing c = Some p ->
  open_delta c ++ chunk `prefix_of` ip_verified p ->
  (complete = true -> open_delta c ++ chunk = ip_verified p) -> cached blocks (open_delta c ++ chunk) ->
  install_step_ok hist (install_chunk now blocks p chunk complete ex c).
Proof.
  intros Hb Hl Hc Hp Hpre Hall Hca.
  destruct (deliver_chunk now blocks chunk c L p Hc Hp Hpre) as (D1 & D2 & D3 & D4 & D5).
  rewrite <- D3 in Hl. destruct complete.
  - specialize (Hall eq_refl). rewrite Hall in Hca, D5.
    destruct (install_finish blocks _ L hist p _ Hb Hl D1 D4 D5 Hca eq_refl) as (L' & H1 & H2).
    exact (install_complete_ok _ _ _ _ _ _ L' _ _ _ eq_refl eq_refl H1 H2 D2).
  - exact (install_partial_ok _ _ _ _ _ _ L _ _ eq_refl Hl D1 D2).
Qed.

Lemma install_continue_ok now blocks budget p c L hist :
  cache_ok blocks -> ledger_at (next_view c) L hist -> cursor_inv L c -> installing c = Some p ->
  cached blocks (open_delta c) ->
  install_step_ok hist (install_continue now blocks (next_view c) budget p c).
Proof.
  intros Hb Hl Hc Hp Hca. unfold install_continue. rewrite get_bind.
  destruct (cu_install _ _ Hc _ Hp) as [I1 (o & L' & Hd & Ho & Hv) I3 I4 I5].
  destruct (check_prefix_spec (ip_prefix_len p - ip_prefix_checked p) (open_delta c) (ip_verified p)
    (ip_prefix_checked p) (ip_prefix_len p) 0 budget) as (index & ex & -> & Hix & Hex & _); [done..|lia|done|].
  rewrite bind_run. cbn [val out st modify negb app].
  set (p' := mkInstallProgress _ _ _ _ _). set (c1 := c <| installing := Some p' |>).
  assert (Hc1 : cursor_inv L c1) by (by apply cursor_inv_progress).
  destruct (index <? ip_prefix_len p)%nat; [by eapply install_stop|].
  destruct I3 as [rest Hrest].
  set (last := Nat.min _ _). assert (Hlast : (length (open_delta c) <= last)%nat).
  { unfold last. rewrite Hrest, length_app. lia. }
  destruct (Nat.ltb_spec last (length (open_delta c))); [lia|].
  assert (Hdrop : drop (length (open_delta c)) (ip_verified p) = rest) by (rewrite Hrest; apply drop_app_length).
  rewrite Hdrop. set (chunk := take _ rest).
  assert (Hpre : open_delta c ++ chunk `prefix_of` ip_verified p).
  { rewrite Hrest. apply prefix_app, prefix_take. }
  destruct (view_result_fresh cm sid mbp Hbind _ _ _ _ Hv) as (N & F & _).
  destruct (list_find (fun d => d ∈ output c) chunk) as [[i d]|] eqn:Hfind.
  { exfalso. apply list_find_Some in Hfind as (Hi & Hout & _). apply list_elem_of_lookup_2 in Hi.
    rewrite (cu_output _ _ Hc) in Hout. destruct Hpre as [k Hk]. rewrite Hk in N, F.
    apply NoDup_app in N as (N & _ & _). apply NoDup_app in N as (_ & N & _).
    apply elem_of_union in Hout as [Hout%elem_of_list_to_set|Hout]; [by apply (N d)|].
    apply (F d); set_solver. }
  destruct (list_find (fun d => block_ready blocks d = false) chunk) as [[i d]|] eqn:Hmiss;
    [by eapply install_stop|].
  assert (Hend : last = length (ip_verified p) -> open_delta c ++ chunk = ip_verified p).
  { intros Heq. rewrite Hrest. f_equal. unfold chunk. apply take_ge. rewrite Heq, Hrest, length_app. lia. }
  apply (install_chunk_ok now blocks p' chunk _ _ c1 L hist); try done.
  - intros Heq%Nat.eqb_eq. by apply Hend.
  - intros d [Hd'|Hd']%elem_of_app; [by apply Hca|].
    apply list_find_None in Hmiss. rewrite Forall_forall in Hmiss. specialize (Hmiss d Hd').
    unfold block_ready in Hmiss. by destruct (by_digest blocks !! d).
Qed.

(** The verified output a peer sent for a view is the decided one. *)
Definition verified_output (v : View) (outcome : SequenceOutcome) (delta : list Digest) : Prop :=
  forall L hist, ledger_at v L hist ->
  exists o L', decided v o /\ outcome = seq_of o /\ view_result L o delta L'.

Lemma cursor_inv_start L c o delta L' :
  cursor_inv L c -> decided (next_view c) o -> view_result L o delta L' -> open_delta c `prefix_of` delta ->
  cursor_inv L (c <| installing := Some (mkInstallProgress (next_view c) (seq_of o) delta 0 (length (open_delta c))) |>).
Proof.
  intros [C1 C2 C3 C4 C5 C6] Hd Hv Hpre. split; cbn; try done.
  - destruct C5; [by apply stage_fresh|by eapply stage_core].
  - intros p' [= <-]. split; cbn; [done|by exists o, L'|done|lia|lia].
Qed.

Lemma install_budgeted_ok now blocks v outcome delta budget c L hist :
  cache_ok blocks -> ledger_at (next_view c) L hist -> cursor_inv L c ->
  verified_output v outcome delta -> cached blocks (open_delta c) ->
  let r := install_budgeted now blocks v outcome delta budget c in
  (exists L', ledger_at (next_view (st r)) L' (hist ++ finals (out r)) /\ cursor_inv L' (st r)) /\
  (v = next_view c -> install_end_ok (val r)).
Proof.
  intros Hb Hl Hc Hv Hca. cbn zeta. unfold install_budgeted. rewrite get_bind.
  destruct (Z.eqb_spec v (next_view c)) as [->|Hne]; cbn [negb].
  2: { split; [|done]. exists L. cbn. by rewrite app_nil_r. }
  destruct (installing c) as [p|] eqn:Hp.
  - rewrite (io_view _ _ _ _ (cu_install _ _ Hc _ Hp)), Z.eqb_refl. cbn [negb].
    destruct (install_continue_ok now blocks (Nat.max budget 1) p c L hist Hb Hl Hc Hp Hca) as [H1 H2]. done.
  - destruct (Hv _ _ Hl) as (o & L' & Hd & -> & Hvr).
    pose proof (open_prefix _ _ _ _ _ Hc Hd Hvr) as Hpre. pose proof (prefix_length _ _ Hpre) as Hlen.
    destruct (Nat.ltb_spec (length delta) (length (open_delta c))); [lia|].
    set (p := mkInstallProgress _ _ _ _ _). rewrite bind_run. cbn [val out st modify app].
    set (c1 := c <| installing := Some p |>).
    assert (Hc1 : cursor_inv L c1) by (by eapply cursor_inv_start).
    destruct (install_continue_ok now blocks (Nat.max budget 1) p c1 L hist Hb Hl Hc1 eq_refl Hca) as [H1 H2].
    done.
Qed.

(** With the blocks at hand a call uses up its budget or finishes the view. *)
Lemma install_continue_progress now blocks budget p c L :
  cursor_inv L c -> installing c = Some p -> (forall d, d ∈ ip_verified p -> block_ready blocks d = true) ->
  let r := install_continue now blocks (next_view c) budget p c in
  val r = IOk false budget \/ exists n, (n <= budget)%nat /\ val r = IOk true n.
Proof.
  intros Hc Hp Hready. cbn zeta. unfold install_continue. rewrite get_bind.
  destruct (cu_install _ _ Hc _ Hp) as [I1 (o & L' & Hd & Ho & Hv) [rest Hrest] I4 I5].
  destruct (check_prefix_spec (ip_prefix_len p - ip_prefix_checked p) (open_delta c) (ip_verified p)
    (ip_prefix_checked p) (ip_prefix_len p) 0 budget) as (index & ex & -> & Hix & Hex & Hend);
    [by exists rest|done..|lia|done|].
  rewrite bind_run. cbn [val st modify negb].
  destruct (Nat.ltb_spec index (ip_prefix_len p)); [left; cbn; f_equal; lia|].
  set (last := Nat.min _ _). destruct (Nat.ltb_spec last (length (open_delta c))) as [Hlt|Hge].
  { unfold last in Hlt. rewrite Hrest, length_app in Hlt. lia. }
  assert (Hdrop : drop (length (open_delta c)) (ip_verified p) = rest) by (rewrite Hrest; apply drop_app_length).
  rewrite Hdrop. set (chunk := take _ rest).
  assert (Hlen : length chunk = (last - length (open_delta c))%nat).
  { unfold chunk, last. rewrite length_take, Hrest, length_app. lia. }
  destruct (view_result_fresh cm sid mbp Hbind _ _ _ _ Hv) as (N & F & _).
  assert (Hin' : forall d, d ∈ chunk -> d ∈ rest).
  { intros d (i & Hi & _)%elem_of_take. by eapply list_elem_of_lookup_2. }
  destruct (list_find (fun d => d ∈ output c) chunk) as [[i d]|] eqn:Hfind.
  { exfalso. apply list_find_Some in Hfind as (Hi & Hout & _). apply list_elem_of_lookup_2, Hin' in Hi.
    rewrite (cu_output _ _ Hc) in Hout. rewrite Hrest in N, F. apply NoDup_app in N as (_ & N & _).
    apply elem_of_union in Hout as [Hout%elem_of_list_to_set|Hout]; [by apply (N d)|].
    apply (F d); [apply elem_of_app; by right|done]. }
  destruct (list_find (fun d => block_ready blocks d = false) chunk) as [[i d]|] eqn:Hmiss.
  { exfalso. apply list_find_Some in Hmiss as (Hi & Hb & _). apply list_elem_of_lookup_2, Hin' in Hi.
    rewrite Hready in Hb; [done|]. rewrite Hrest. apply elem_of_app. by right. }
  match goal with |- context [install_chunk _ _ _ _ _ _ ?c1] => set (c' := c1) end.
  destruct (Nat.eqb_spec last (length (ip_verified p))) as [Heq|Hne].
  - right. exists (ex + length chunk)%nat. split; [unfold last in *; lia|].
    by rewrite (install_chunk_complete _ _ _ _ _ c' _ _ eq_refl eq_refl).
  - left. rewrite (install_chunk_partial _ _ _ _ _ c' _ eq_refl). cbn [val]. f_equal. unfold last in *. lia.
Qed.

(** ** Runs of a cursor *)

Inductive CursorEvent :=
| CeCompleted (v : View) (m t : Manifest)
| CeSealed (v : View) (o : Outcome)
| CeRetry
| CeInstall (v : View) (outcome : SequenceOutcome) (delta : list Digest) (budget : nat)
| CeAbort.

Definition cursor_handle (now : Z) (blocks : BlockCache) (ev : CursorEvent) : M Effect Cursor () :=
  match ev with
  | CeCompleted v m t => on_completed now blocks v m t
  | CeSealed v o => on_sealed now blocks v o
  | CeRetry => retry now blocks
  | CeInstall v outcome delta budget => install_budgeted now blocks v outcome delta budget;; skip
  | CeAbort => abort_install now blocks
  end.

Definition cursor_allowed (blocks : BlockCache) (ev : CursorEvent) (c : Cursor) : Prop :=
  match ev with
  | CeCompleted v m t => completes v m t
  | CeSealed v o => decided v o
  | CeInstall v outcome delta _ => verified_output v outcome delta /\ cached blocks (open_delta c)
  | CeRetry | CeAbort => True
  end.

Inductive cursor_reaches : Cursor -> list Effect -> Prop :=
| cursor_start : cursor_reaches (cursor_new genesis) []
| cursor_event c es now blocks ev :
    cursor_reaches c es -> cache_ok blocks -> cursor_allowed blocks ev c ->
    cursor_reaches (st (cursor_handle now blocks ev c)) (es ++ out (cursor_handle now blocks ev c)).

Lemma keeps_handle now blocks ev c :
  cache_ok blocks -> cursor_allowed blocks ev c -> sat_at keeps (cursor_handle now blocks ev) c.
Proof.
  intros Hb. destruct ev as [v m t|v o| |v outcome delta budget|]; cbn [cursor_allowed cursor_handle].
  - intros Hco. by apply keeps_on_completed.
  - intros Hd. by apply keeps_on_sealed.
  - intros _. by apply keeps_pump.
  - intros [Hv Hca]. apply sat_at_bind; [apply _| |apply sat_ret; apply _].
    intros hist L Hl Hc. by apply (install_budgeted_ok now blocks v outcome delta budget c L hist).
  - intros _. apply sat_bind; [apply _|apply keeps_installing_none|intros _; by apply keeps_pump].
Qed.

Lemma cursor_reaches_ok c es : cursor_reaches c es -> cursor_ok c es.
Proof.
  induction 1 as [|c es now blocks ev _ (L & Hl & Hc) Hb Hev]; [apply cursor_ok_new|].
  destruct (keeps_handle now blocks ev c Hb Hev _ _ Hl Hc) as (L' & Hl' & Hc').
  exists L'. by rewrite finals_app.
Qed.

Lemma open_fresh L c : cursor_inv L c -> NoDup (open_delta c) /\ (forall d, d ∈ open_delta c -> d ∉ L.2).
Proof.
  intros Hc.
  assert (Hst : starts (next_view c) L (open_delta c) ->
    NoDup (open_delta c) /\ (forall d, d ∈ open_delta c -> d ∉ L.2)).
  { intros (o & ds & L' & _ & Hv & [k Hk]).
    destruct (view_result_fresh cm sid mbp Hbind _ _ _ _ Hv) as (N & F & _). rewrite Hk in N, F.
    apply NoDup_app in N as (N & _). split; [done|]. intros d Hd. apply F, elem_of_app. by left. }
  destruct (cu_stage _ _ Hc) as [_ _ [-> |HP]|core d1 L1 _ _ E _ [-> |[HP _]]]; try by apply Hst.
  - split; [constructor|set_solver].
  - destruct (expands_fresh cm sid mbp _ _ _ _ E) as (N & F & _). done.
Qed.
End order.

(** C5: state-machine replication of the output.  Two nodes run their cursors on
    the same decided outcomes, one per view - received in any order, with
    completions, retries, and installations of verified output at any time, and
    with block caches that differ and change between events - and the sequences
    of views they have finalised, each with its outcome and the block digests it
    adds, are one a prefix of the other.  Each lists the views 1, 2, 3, ... with
    their decided outcomes, and no block is output twice, counting the open view
    as well. *)
Theorem cursor_total_order {Hash : Hashing} cm sid mbp decided completes c1 es1 c2 es2 :
  header_binding cm sid mbp -> consistent_inputs decided completes -> genesis_apart cm sid mbp ->
  (forall v o, decided v o -> truthful_outcome cm sid mbp o) ->
  cursor_reaches cm sid mbp decided completes c1 es1 -> cursor_reaches cm sid mbp decided completes c2 es2 ->
  (finals es1 `prefix_of` finals es2 \/ finals es2 `prefix_of` finals es1) /\
  (forall i v o ds, finals es1 !! i = Some (v, o, ds) ->
    v = 1 + Z.of_nat i /\ exists o', decided v o' /\ o = seq_of o') /\
  NoDup (mjoin (finals es1).*2 ++ open_delta c1) /\
  genesis_digest sid ∉ mjoin (finals es1).*2 ++ open_delta c1.
Proof.
  intros Hb Hin Hg Ht H1 H2.
  destruct (cursor_reaches_ok _ _ _ _ _ Hb Hin Hg Ht _ _ H1) as (L1 & Hl1 & Hc1).
  destruct (cursor_reaches_ok _ _ _ _ _ Hb Hin Hg Ht _ _ H2) as (L2 & Hl2 & Hc2).
  split; [|split].
  - destruct (Z.le_ge_cases (next_view c1) (next_view c2)); [left|right];
      eapply (ledger_at_le cm sid mbp Hb decided (ci_fun _ _ Hin)); done.
  - clear -Hl1. revert Hl1. generalize (next_view c1). intros n Hl1.
    induction Hl1 as [|n L hist o ds L' Hl IH Hd _]; [done|]. intros i v o' ds'.
    rewrite lookup_app_Some, list_lookup_singleton_Some. intros [Hi|[Hle [Hi [= <- <- <-]]]]; [by apply (IH i v o' ds')|].
    pose proof (ledger_at_view _ _ _ _ _ _ _ Hl). split; [lia|by exists o].
  - destruct (ledger_at_outputs cm sid mbp Hb decided (ci_fun _ _ Hin) _ _ _ Hl1) as (N & O & G).
    destruct (open_fresh _ _ _ _ _ Hb Hin Hg Ht _ _ Hc1) as [N' F]. split.
    + apply NoDup_app. split_and!; [done| |done]. intros d Hd Hd'. apply F in Hd'. rewrite O in Hd'. set_solver.
    + intros [?|Hgo]%elem_of_app; [done|]. apply F in Hgo. rewrite O in Hgo. set_solver.
Qed.

(** C27: installing the verified output of the next view works.  Whatever the
    cursor has emitted of that view, and whether or not an installation is under
    way, a call is never refused for its prefix or for output already made and
    never indexes out of range: the only possible error is a missing block.  When
    every block is cached and verified, each call examines as many digests as its
    budget allows or finalises the view, so repeated calls finish. *)
Theorem install_progress {Hash : Hashing} cm sid mbp decided completes c es now blocks outcome delta budget :
  header_binding cm sid mbp -> consistent_inputs decided completes -> genesis_apart cm sid mbp ->
  (forall v o, decided v o -> truthful_outcome cm sid mbp o) ->
  cursor_reaches cm sid mbp decided completes c es -> cache_ok cm sid mbp blocks ->
  verified_output cm sid mbp decided (next_view c) outcome delta -> cached blocks (open_delta c) ->
  let r := install_budgeted now blocks (next_view c) outcome delta budget c in
  install_end_ok (val r) /\
  ((forall d, d ∈ delta -> block_ready blocks d = true) ->
    val r = IOk false (Nat.max budget 1) \/ exists n, (n <= Nat.max budget 1)%nat /\ val r = IOk true n).
Proof.
  intros Hb Hin Hg Ht Hr Hbl Hvo Hca. cbn zeta.
  destruct (cursor_reaches_ok _ _ _ _ _ Hb Hin Hg Ht _ _ Hr) as (L & Hl & Hc). split.
  - by apply (install_budgeted_ok cm sid mbp decided completes Hb Hin Hg Ht now blocks _ outcome delta budget c L (finals es)).
  - intros Hready. destruct (Hvo _ _ Hl) as (o & L' & Hd & -> & Hvr).
    unfold install_budgeted. rewrite get_bind, Z.eqb_refl. cbn [negb].
    destruct (installing c) as [p|] eqn:Hp.
    + destruct (cu_install _ _ _ _ _ _ _ Hc _ Hp) as [I1 (o' & L2 & Hd' & _ & Hv') _ _ _].
      rewrite I1, Z.eqb_refl. cbn [negb]. rewrite (ci_fun _ _ Hin _ _ _ Hd' Hd) in Hv'.
      destruct (view_result_det cm sid mbp Hb _ _ _ _ _ _ Hvr Hv') as [-> _].
      by eapply (install_continue_progress cm sid mbp decided completes).
    + pose proof (open_prefix _ _ _ _ _ Hb Hin _ _ _ _ _ Hc Hd Hvr) as Hpre.
      pose proof (prefix_length _ _ Hpre) as Hlen.
      destruct (Nat.ltb_spec (length delta) (length (open_delta c))); [lia|].
      set (p := mkInstallProgress _ _ _ _ _). rewrite bind_run. cbn [val st modify].
      set (c1 := c <| installing := Some p |>).
      apply (install_continue_progress cm sid mbp decided completes Hb now blocks (Nat.max budget 1) p c1 L); [|done|done].
      by eapply cursor_inv_start.
Qed.

(** ** Termination of [pump] *)

Lemma frame_expand blocks m c : same_frame c (st (expand blocks m c)).
Proof. rewrite expand_run. cbn zeta. by destruct (manifest_suffixes _ _ _ _).1. Qed.

Lemma frame_emit_core now blocks core c : same_frame c (st (emit_core now blocks core c)).
Proof.
  unfold emit_core. rewrite get_bind. case_bool_decide; [done|]. rewrite bind_run.
  pose proof (frame_expand blocks core c) as Hf. set (r := expand blocks core c) in *. cbn [st].
  destruct (val r) as [hs|]; [|exact Hf]. rewrite bind_run. cbn [st modify val]. rewrite bind_run. cbn [st].
  match goal with |- context [emit_hashes now blocks hs ?c1] =>
    destruct (emit_hashes_spec now blocks hs c1) as (Hf2 & _) end.
  etransitivity; [exact Hf|]. etransitivity; [|exact Hf2]. by split.
Qed.

Lemma finalize_pending o c : pending (st (finalize o c)) = delete (next_view c) (pending c).
Proof. done. Qed.

Lemma pump_step_shrinks now blocks c :
  val (pump_step now blocks c) = true -> (size (pending (st (pump_step now blocks c))) < size (pending c))%nat.
Proof.
  assert (Hdel : forall c', same_frame c c' -> is_Some (pending c !! next_view c) -> forall o,
    (size (pending (st (finalize o c'))) < size (pending c))%nat).
  { intros c' [_ Hn _ Hp] [i Hi] o. rewrite finalize_pending, Hn, Hp, map_size_delete, Hi.
    assert (size (pending c) <> 0)%nat; [|lia]. intros H0%map_size_empty_inv. by rewrite H0, lookup_empty in Hi. }
  unfold pump_step. rewrite get_bind. destruct (pending c !! next_view c) as [i|] eqn:Hi; [|done].
  case_bool_decide; [done|]. rewrite bind_run.
  assert (Hf1 : same_frame c (st (emit_completed_core now blocks i c))).
  { unfold emit_completed_core. destruct (vin_completed i) as [[m t]|]; [|done]. apply frame_emit_core. }
  set (c1 := st (emit_completed_core now blocks i c)) in *. cbn [st val]. clearbody c1.
  destruct (vin_sealed i) as [[core tips|core|]|]; [..|done].
  - rewrite bind_run. cbn [st val]. pose proof (frame_emit_core now blocks core c1) as Hf2.
    set (r2 := emit_core now blocks core c1) in *. clearbody r2.
    destruct (val r2); cbn [negb]; [|done]. rewrite bind_run. cbn [st val].
    pose proof (frame_expand blocks tips (st r2)) as Hf3. set (r3 := expand blocks tips (st r2)) in *. clearbody r3.
    destruct (val r3) as [hs|]; [|done]. rewrite bind_run. cbn [st val].
    destruct (emit_hashes_spec now blocks hs (st r3)) as (Hf4 & _).
    set (r4 := emit_hashes now blocks hs (st r3)) in *. clearbody r4. rewrite bind_run. cbn [st val mret M_ret].
    intros _. apply Hdel; [|done]. by do 3 (etransitivity; [eassumption|]).
  - rewrite bind_run. cbn [st val]. pose proof (frame_emit_core now blocks core c1) as Hf2.
    set (r2 := emit_core now blocks core c1) in *. clearbody r2.
    destruct (val r2); cbn [negb]; [|done]. rewrite bind_run. cbn [st val mret M_ret].
    intros _. apply Hdel; [by etransitivity|done].
  - rewrite bind_run. cbn [st val mret M_ret]. intros _. by apply Hdel.
Qed.

(** C28: the loop of [pump] ends within one iteration more than there are pending
    views: any larger bound on its iterations gives the same cursor and the same
    effects, so the bound never cuts it short. *)
Theorem pump_terminates fuel now blocks c :
  (size (pending c) < fuel)%nat -> pump_loop fuel now blocks c = pump now blocks c.
Proof.
  intros Hf. unfold pump. rewrite get_bind.
  assert (HG : forall f1 f2 c, (size (pending c) < f1)%nat -> (size (pending c) < f2)%nat ->
    pump_loop f1 now blocks c = pump_loop f2 now blocks c); [|apply HG; lia].
  clear. intros f1. induction f1 as [|f1 IH]; intros f2 c H1 H2; [lia|]. destruct f2 as [|f2]; [lia|].
  cbn [pump_loop]. rewrite !bind_run. pose proof (pump_step_shrinks now blocks c) as Hs.
  set (r := pump_step now blocks c) in *. clearbody r. destruct (val r); [|done].
  specialize (Hs eq_refl). by rewrite (IH f2) by lia.
Qed.

(** ** Two concrete nodes *)

Definition view1 : Outcome := OFull [(20, 2, 3)] [(30, 1, 5)].
Definition view2 : Outcome := OCore [(20, 3, 4); (30, 2, 6)].

Definition decided2 (v : View) (o : Outcome) : Prop := (v = 1 /\ o = view1) \/ (v = 2 /\ o = view2).
Definition completes2 (v : View) (m t : Manifest) : Prop := v = 1 /\ m = [(20, 2, 3)] /\ t = [(30, 1, 5)].

Lemma inputs2 : consistent_inputs decided2 completes2.
Proof.
  split.
  - intros v o o' [[-> ->]|[-> ->]] [[? ->]|[? ->]]; done.
  - intros v o [[-> _]|[-> _]]; by vm_compute.
  - intros v m t o (-> & -> & ->) [[_ ->]|[? _]]; [by left|done].
Qed.

Lemma truthful_lanes (m : Manifest) :
  NoDup (ref_author <$> m) ->
  Forall (fun r => Exists (fun h => (hd_author h, hd_height h, hd_id h) = r) lanes_blocks) m ->
  @truthful table_hashing committee4 7 100 m.
Proof.
  intros Hnd Hm. split; [done|]. intros r b Hr Hb Hid. rewrite Forall_forall in Hm.
  apply Hm, Exists_exists in Hr as (h & Hh & <-). cbn in *.
  assert (coord b = coord h) as [= -> -> _]; [|done].
  apply (@valid_coord table_hashing committee4 7 100 table_binding); [done|by apply lanes_valid|done].
Qed.

Lemma truthful2 v o : decided2 v o -> @truthful_outcome table_hashing committee4 7 100 o.
Proof.
  intros [[_ ->]|[_ ->]]; cbn; [split|]; apply truthful_lanes;
    try (refine (bool_decide_eq_true_1 _ _); by vm_compute);
    apply Forall_forall; intros r Hr;
    repeat (apply elem_of_cons in Hr as [-> |Hr]); try (by apply not_elem_of_nil in Hr);
    repeat (first [by apply Exists_cons_hd|apply Exists_cons_tl]).
Qed.

(** One node pumps both views; the other installs view 1 in two calls, the first
    without block 5, and then pumps view 2. *)
Definition node_a : list (BlockCache * CursorEvent) :=
  [(lanes_cache 0, CeSealed 2 view2); (lanes_cache 2, CeCompleted 1 [(20, 2, 3)] [(30, 1, 5)]);
   (lanes_cache 2, CeSealed 1 view1); (lanes_cache 5, CeRetry)].
Definition node_b : list (BlockCache * CursorEvent) :=
  [(lanes_cache 2, CeInstall 1 (SeqFull [(20, 2, 3)] [(30, 1, 5)]) [2; 3; 5] 2);
   (lanes_cache 5, CeInstall 1 (SeqFull [(20, 2, 3)] [(30, 1, 5)]) [2; 3; 5] 2);
   (lanes_cache 5, CeSealed 2 view2)].

Fixpoint cursor_run (evs : list (BlockCache * CursorEvent)) (c : Cursor) : Cursor * list Effect :=
  match evs with
  | [] => (c, [])
  | (blocks, ev) :: evs =>
      let r := cursor_handle 0 blocks ev c in
      let r' := cursor_run evs (st r) in
      (r'.1, out r ++ r'.2)
  end.

Definition node_state (evs : list (BlockCache * CursorEvent)) : Cursor * list Effect :=
  cursor_run evs (cursor_new (@genesis_digest table_hashing 7)).

Lemma verified1 :
  @verified_output table_hashing committee4 7 100 decided2 1 (SeqFull [(20, 2, 3)] [(30, 1, 5)]) [2; 3; 5].
Proof.
  intros L hist Hl. assert (L = @ledger_new table_hashing 7) as ->.
  { inversion Hl as [|v ? h ? ? ? Hp]; [done|]. apply ledger_at_view in Hp. lia. }
  eexists view1, (_, _). split; [by left|]. split; [done|].
  eexists [2; 3], (_, list_to_set [2; 3] ∪ {[ 1 ]}), [5].
  split; [|split; [|done]].
  - eexists (lanes_cache 5), _. split; [apply lanes_cache_ok|]. split; [by vm_compute|].
    split; [by vm_compute|]. cbn [snd]. by vm_compute.
  - eexists (lanes_cache 5), _. split; [apply lanes_cache_ok|]. split; [by vm_compute|].
    split; [by vm_compute|]. cbn [snd]. reflexivity.
Qed.

Abbreviation reaches2 := (@cursor_reaches table_hashing committee4 7 100 decided2 completes2) (only parsing).

(** Every event of the run is allowed where it happens. *)
Fixpoint run_allowed (evs : list (BlockCache * CursorEvent)) (c : Cursor) : Prop :=
  match evs with
  | [] => True
  | (blocks, ev) :: evs =>
      @cache_ok table_hashing committee4 7 100 blocks /\
      @cursor_allowed table_hashing committee4 7 100 decided2 completes2 blocks ev c /\
      run_allowed evs (st (cursor_handle 0 blocks ev c))
  end.

Lemma cursor_run_reaches evs c es :
  reaches2 c es -> run_allowed evs c -> reaches2 (cursor_run evs c).1 (es ++ (cursor_run evs c).2).
Proof.
  revert c es. induction evs as [|[blocks ev] evs IH]; intros c es Hc Hok; cbn [cursor_run fst snd].
  - by rewrite app_nil_r.
  - destruct Hok as (Hb & Hev & Hok). rewrite (assoc_L (++)). apply IH; [|done]. by apply cursor_event.
Qed.

Lemma node_reaches evs :
  run_allowed evs (cursor_new (@genesis_digest table_hashing 7)) ->
  reaches2 (node_state evs).1 (node_state evs).2.
Proof. intros Hok. apply (cursor_run_reaches evs _ []); [constructor|done]. Qed.

Lemma node_a_allowed : run_allowed node_a (cursor_new (@genesis_digest table_hashing 7)).
Proof.
  cbn [node_a run_allowed cursor_allowed]. split_and!; try apply lanes_cache_ok; try done; [by right|by left].
Qed.

Lemma node_b_allowed : run_allowed node_b (cursor_new (@genesis_digest table_hashing 7)).
Proof.
  cbn [node_b run_allowed cursor_allowed].
  split_and!; try apply lanes_cache_ok; try exact verified1; [| |by right|done].
  - intros d Hd. by apply not_elem_of_nil in Hd.
  - intros d Hd. match type of Hd with d ∈ ?l => assert (l = [2; 3]) as E by (vm_compute; reflexivity) end.
    rewrite E in Hd. clear E.
    repeat (apply elem_of_cons in Hd as [-> |Hd]; [eexists; vm_compute; reflexivity|]). by apply not_elem_of_nil in Hd.
Qed.

Lemma cursor_total_order_witness :
  finals (node_state node_a).2 =
    [(1, SeqFull [(20, 2, 3)] [(30, 1, 5)], [2; 3; 5]); (2, SeqCore [(20, 3, 4); (30, 2, 6)], [4; 6])] /\
  finals (node_state node_b).2 = finals (node_state node_a).2 /\
  (finals (node_state node_a).2 `prefix_of` finals (node_state node_b).2 \/
   finals (node_state node_b).2 `prefix_of` finals (node_state node_a).2).
Proof.
  split; [vm_compute; reflexivity|]. split; [vm_compute; reflexivity|].
  apply (@cursor_total_order table_hashing committee4 7 100 decided2 completes2
    (node_state node_a).1 (node_state node_a).2 (node_state node_b).1 (node_state node_b).2
    table_binding inputs2 (genesis_apart_of_injective committee4 7 100 table_injective) truthful2
    (node_reaches node_a node_a_allowed) (node_reaches node_b node_b_allowed)).
Defined.

Lemma pump_terminates_witness :
  let c := (cursor_new 1) <| pending := {[ 1 := mkViewInput None (Some view1); 2 := mkViewInput None (Some view2) ]} |> in
  next_view (st (pump 0 (lanes_cache 5) c)) = 3 /\ pump_loop 9 0 (lanes_cache 5) c = pump 0 (lanes_cache 5) c.
Proof.
  cbn zeta. split; [vm_compute; reflexivity|].
  apply (pump_terminates 9 0 (lanes_cache 5)). apply Nat.ltb_lt. vm_compute. reflexivity.
Defined.

Lemma install_progress_witness :
  let c := (node_state (take 1 node_b)).1 in
  let r := install_budgeted 0 (lanes_cache 5) 1 (SeqFull [(20, 2, 3)] [(30, 1, 5)]) [2; 3; 5] 2 c in
  open_delta c = [2; 3] /\ val r = IOk true 1 /\ install_end_ok (val r).
Proof.
  cbn zeta. split; [vm_compute; reflexivity|]. split; [vm_compute; reflexivity|].
  refine (proj1 (@install_progress table_hashing committee4 7 100 decided2 completes2
    (node_state (take 1 node_b)).1 (node_state (take 1 node_b)).2 0 (lanes_cache 5)
    (SeqFull [(20, 2, 3)] [(30, 1, 5)]) [2; 3; 5] 2
    table_binding inputs2 (genesis_apart_of_injective committee4 7 100 table_injective) truthful2
    (node_reaches (take 1 node_b) _) (lanes_cache_ok 5) verified1 _)).
  - exact (conj (proj1 node_b_allowed) (conj (proj1 (proj2 node_b_allowed)) I)).
  - exact (proj2 (proj1 (proj2 (proj2 (proj2 node_b_allowed))))).
Defined.
