(* ===== verification/Sequence.v ===== *)
(** Certified sequences.

    Models [src/primary/src/vantage/sequence.rs]: the hash chain of finalised views with the bodies
    it commits to ([SequenceStore]), the checkpoint announcements ([CheckpointCollector]) and the
    download of a certified target from peers ([ChainVerifier], [DeltaVerifier], [SequenceTransfer]), and
    the four handlers of [src/primary/src/vantage/node.rs] that serve such downloads.  [bincode] of the
    hashed values is a parameter.  Left out: the display of heads and of errors, and plain getters. *)

From S2P Require Import Prelude Committee Types.

Definition SEQUENCE_VERSION : Z := 1.

(** ** Records *)

Record SequenceRecord := mkSeqRecord {
  sq_version : Z;
  sq_view : View;
  sq_previous_head : Digest;
  sq_outcome_digest : Digest;
  sq_delta_len : Z;
  sq_delta_head : Digest;
}.

#[export] Instance SequenceRecord_eq_dec : EqDecision SequenceRecord.
Proof. solve_decision. Defined.

(** [bincode] of what is hashed, and the array in a digest.  [digest_array] is a parameter rather than
    [digest_bytes] because the digests of the model are not bounded: collision freedom of
    [delta_step], whose arguments are digests themselves, can then be assumed. *)
Class SequenceCodec := {
  digest_array : Digest -> list Z;
  bincode_outcome : View -> SequenceOutcome -> list Z;
  bincode_index : View -> Z -> list Z;
  bincode_record : SequenceRecord -> list Z;
}.

Definition manifest_items (o : SequenceOutcome) : Z :=
  match o with
  | SeqFull c t => u64_saturating_add (Z.of_nat (length c)) (Z.of_nat (length t))
  | SeqCore c => Z.of_nat (length c)
  | SeqSkip => 0
  end.

(** [SequenceOutcome::from]. *)
Definition sequence_outcome (o : Outcome) : SequenceOutcome :=
  match o with OFull c t => SeqFull c t | OCore c => SeqCore c | OSkip => SeqSkip end.

Section hashes.
Context {Hash : Hashing} {Codec : SequenceCodec}.

Definition outcome_digest (sid : Digest) (view : View) (o : SequenceOutcome) : Digest :=
  domain_hash (ascii_bytes "vantage-sequence-outcome") sid (bincode_outcome view o).

Definition delta_seed (sid : Digest) (view : View) : Digest :=
  domain_hash (ascii_bytes "vantage-sequence-delta") sid (bincode_index view 0).

Definition delta_step (sid : Digest) (view : View) (index : Z) (previous item : Digest) : Digest :=
  domain_hash (ascii_bytes "vantage-sequence-item") sid
    (bincode_index view index ++ digest_array previous ++ digest_array item).

(** The loop of [delta_commitment] from [index] on. *)
Fixpoint delta_fold (sid : Digest) (view : View) (index : Z) (head : Digest) (items : list Digest) : Digest :=
  match items with
  | [] => head
  | item :: items => delta_fold sid view (u64_add index 1) (delta_step sid view index head item) items
  end.

Definition delta_commitment (sid : Digest) (view : View) (items : list Digest) : Z * Digest :=
  (Z.of_nat (length items) mod u64_modulus, delta_fold sid view 0 (delta_seed sid view) items).

Definition genesis_head (sid : Digest) : Digest := domain_hash (ascii_bytes "vantage-sequence-genesis") sid [].

Definition record_head (sid : Digest) (r : SequenceRecord) : Digest :=
  domain_hash (ascii_bytes "vantage-sequence-record") sid (bincode_record r).
End hashes.

(** ** The store *)

(** [SequenceError::OutOfOrder]. *)
Inductive SequenceError := SequenceOutOfOrder (expected got : View).

Record SequenceStore := mkSequenceStore {
  ss_sid : Digest;
  ss_interval : Z;
  ss_head : Digest;
  ss_next_view : View;
  ss_records : gmap View SequenceRecord;
  ss_boundaries : gmap View Digest;
  ss_outcomes : gmap View SequenceOutcome;
  ss_deltas : gmap View (list Digest);
  ss_headers : gmap Digest Header;
}.

Definition ss_eta (s : SequenceStore) : SequenceStore :=
  mkSequenceStore (ss_sid s) (ss_interval s) (ss_head s) (ss_next_view s) (ss_records s) (ss_boundaries s)
    (ss_outcomes s) (ss_deltas s) (ss_headers s).

#[export] Instance set_ss_head : Setter ss_head.
Proof. solve_setter ss_eta ss_head. Defined.
#[export] Instance set_ss_next_view : Setter ss_next_view.
Proof. solve_setter ss_eta ss_next_view. Defined.
#[export] Instance set_ss_records : Setter ss_records.
Proof. solve_setter ss_eta ss_records. Defined.
#[export] Instance set_ss_boundaries : Setter ss_boundaries.
Proof. solve_setter ss_eta ss_boundaries. Defined.
#[export] Instance set_ss_outcomes : Setter ss_outcomes.
Proof. solve_setter ss_eta ss_outcomes. Defined.
#[export] Instance set_ss_deltas : Setter ss_deltas.
Proof. solve_setter ss_eta ss_deltas. Defined.
#[export] Instance set_ss_headers : Setter ss_headers.
Proof. solve_setter ss_eta ss_headers. Defined.

(** The messages of a download. *)
Record SequenceOutcomeEntry := mkOutcomeEntry { oe_view : View; oe_outcome : SequenceOutcome }.
Record SequenceDeltaEntry := mkDeltaEntry { de_view : View; de_start_index : Z; de_items : list Digest; de_complete : bool }.

Section store.
Context {Hash : Hashing} {Codec : SequenceCodec}.

Definition store_new (sid : Digest) (interval : Z) : SequenceStore :=
  mkSequenceStore sid (Z.max interval 1) (genesis_head sid) 1 ∅ ∅ ∅ ∅ ∅.

Definition head_view (s : SequenceStore) : View := (ss_next_view s - 1) mod u64_modulus.

Definition latest_boundary (s : SequenceStore) : option (View * Digest) := last (map_iter (ss_boundaries s)).

Definition retain_verified_headers (headers : list Header) (s : SequenceStore) : SequenceStore :=
  foldl (fun s h => s <| ss_headers ::= partial_alter (fun o => Some (default h o)) (hd_id h) |>) s headers.

Definition recent_boundaries (s : SequenceStore) (limit : nat) : list (View * Digest) :=
  reverse (take limit (reverse (map_iter (ss_boundaries s)))).

Definition is_boundary (s : SequenceStore) (view : View) : bool := view mod ss_interval s =? 0.

Definition ss_record (view : View) (o : SequenceOutcome) (output_delta : list Digest) (s : SequenceStore)
    : (Digest + SequenceError) * SequenceStore :=
  if negb (view =? ss_next_view s) then (inr (SequenceOutOfOrder (ss_next_view s) view), s)
  else
    let c := delta_commitment (ss_sid s) view output_delta in
    let r := mkSeqRecord SEQUENCE_VERSION view (ss_head s) (outcome_digest (ss_sid s) view o) c.1 c.2 in
    let s := s <| ss_head := record_head (ss_sid s) r |> <| ss_records ::= <[ view := r ]> |>
               <| ss_outcomes ::= <[ view := o ]> |> <| ss_deltas ::= <[ view := output_delta ]> |>
               <| ss_next_view := u64_add view 1 |> in
    let s := if is_boundary s view then s <| ss_boundaries ::= <[ view := ss_head s ]> |> else s in
    (inl (ss_head s), s).

Definition serve_floor (s : SequenceStore) : View :=
  match map_iter (ss_records s) with (v, _) :: _ => v | [] => ss_next_view s end.

Fixpoint records_from (s : SequenceStore) (from : View) (max : nat) : list SequenceRecord :=
  match max with
  | O => []
  | S max =>
      match ss_records s !! from with
      | None => []
      | Some r => r :: records_from s (u64_add from 1) max
      end
  end.

(** The loop of [outcomes_from]; [first] is [outcomes.is_empty()]. *)
Fixpoint outcomes_loop (s : SequenceStore) (view through : View) (max_views : nat) (remaining : Z) (first : bool)
    : list SequenceOutcomeEntry :=
  match max_views with
  | O => []
  | S max_views =>
      if negb (view <=? through) then []
      else
        match ss_outcomes s !! view with
        | None => []
        | Some o =>
            let items := manifest_items o in
            if negb first && (remaining <? items) then []
            else
              mkOutcomeEntry view o ::
              (if view =? through then []
               else outcomes_loop s (u64_saturating_add view 1) through max_views (u64_saturating_sub remaining items) false)
        end
  end.

Definition outcomes_from (s : SequenceStore) (from through : View) (max_views : nat) (max_items : Z)
    : list SequenceOutcomeEntry :=
  outcomes_loop s from through max_views max_items true.

Definition delta_chunk (s : SequenceStore) (view : View) (start : nat) (max : nat) : option (list Digest * bool) :=
  delta ← ss_deltas s !! view;
  if (length delta <? start)%nat then None
  else
    let stop := Nat.min (length delta) (start + max) in
    Some (take (stop - start) (drop start delta), (stop =? length delta)%nat).

(** The loop of [delta_entries_from]; [start] is where the next chunk begins. *)
Fixpoint delta_loop (s : SequenceStore) (view through : View) (start : nat) (max_views remaining : nat)
    : list SequenceDeltaEntry :=
  match max_views with
  | O => []
  | S max_views =>
      if negb (view <=? through) || (remaining =? 0)%nat then []
      else
        match ss_deltas s !! view with
        | None => []
        | Some delta =>
            if (length delta <? start)%nat then []
            else
              let stop := Nat.min (length delta) (start + remaining) in
              let items := take (stop - start) (drop start delta) in
              let complete := (stop =? length delta)%nat in
              mkDeltaEntry view (Z.of_nat start) items complete ::
              (if negb complete || (view =? through) then []
               else delta_loop s (u64_saturating_add view 1) through 0 max_views (remaining - length items))
        end
  end.

Definition delta_entries_from (s : SequenceStore) (from_view : View) (start_index : nat) (through : View)
    (max_views max_items : nat) : list SequenceDeltaEntry :=
  delta_loop s from_view through start_index max_views max_items.
End store.

(** ** Checkpoint announcements *)

Record SequenceAnnouncement := mkAnnouncement {
  an_version : Z;
  an_view : View;
  an_head : Digest;
  an_serve_floor : View;
  an_sender : PublicKey;
}.

Inductive IgnoreReason := IrSenderMismatch | IrNotAMember | IrVersion | IrDuplicate | IrEquivocation | IrTooFarAhead.
Inductive AnnouncementOutcome := Counted (newly_certified : bool) | Ignored (reason : IgnoreReason).

Record CheckpointCollector := mkCollector {
  cc_threshold : Z;
  cc_max_candidate_views : nat;
  cc_future_view_slack : View;
  cc_candidates : gmap View (gmap Digest (gset PublicKey));
  cc_first_claim : gmap (View * PublicKey) Digest;
  cc_equivocators : gset PublicKey;
  cc_certified : gmap View Digest;
}.

Definition cc_eta (x : CheckpointCollector) : CheckpointCollector :=
  mkCollector (cc_threshold x) (cc_max_candidate_views x) (cc_future_view_slack x) (cc_candidates x) (cc_first_claim x)
    (cc_equivocators x) (cc_certified x).

#[export] Instance set_cc_candidates : Setter cc_candidates.
Proof. solve_setter cc_eta cc_candidates. Defined.
#[export] Instance set_cc_first_claim : Setter cc_first_claim.
Proof. solve_setter cc_eta cc_first_claim. Defined.
#[export] Instance set_cc_equivocators : Setter cc_equivocators.
Proof. solve_setter cc_eta cc_equivocators. Defined.
#[export] Instance set_cc_certified : Setter cc_certified.
Proof. solve_setter cc_eta cc_certified. Defined.

Definition collector_new (threshold : Z) (max_candidate_views : nat) (future_view_slack : View) : CheckpointCollector :=
  mkCollector (Z.max threshold 1) (Nat.max max_candidate_views 1) future_view_slack ∅ ∅ ∅ ∅.

Definition supporters (x : CheckpointCollector) (view : View) (head : Digest) : gset PublicKey :=
  default ∅ (heads ← cc_candidates x !! view; heads !! head).
Definition support (x : CheckpointCollector) (view : View) (head : Digest) : Z := Z.of_nat (size (supporters x view head)).
Definition announcers (x : CheckpointCollector) (view : View) (head : Digest) : list PublicKey := set_iter (supporters x view head).

(** [senders.remove(sender)] in every head, then [heads.retain(..)]. *)
Definition drop_sender (sender : PublicKey) (heads : gmap Digest (gset PublicKey)) : gmap Digest (gset PublicKey) :=
  filter (fun p => p.2 <> ∅) ((fun senders => senders ∖ {[ sender ]}) <$> heads).

Definition retract (view : View) (sender : PublicKey) (x : CheckpointCollector) : CheckpointCollector :=
  let x := x <| cc_candidates ::= alter (drop_sender sender) view |> in
  match cc_certified x !! view with
  | None => x
  | Some head => if support x view head <? cc_threshold x then x <| cc_certified ::= delete view |> else x
  end.

(** The loop of [evict_if_needed]; there are at most [n] candidate views. *)
Fixpoint evict_loop (n : nat) (x : CheckpointCollector) : CheckpointCollector :=
  match n with
  | O => x
  | S n =>
      if (size (cc_candidates x) <=? cc_max_candidate_views x)%nat then x
      else
        match map_iter (cc_candidates x) with
        | [] => x
        | (lowest, _) :: _ =>
            evict_loop n (x <| cc_candidates ::= delete lowest |> <| cc_first_claim ::= filter (fun p => p.1.1 <> lowest) |>)
        end
  end.
Definition cc_evict_if_needed (x : CheckpointCollector) : CheckpointCollector := evict_loop (size (cc_candidates x)) x.

Definition on_announcement (a : SequenceAnnouncement) (authenticated_sender : PublicKey) (is_member : bool) (local_view : View)
    (x : CheckpointCollector) : AnnouncementOutcome * CheckpointCollector :=
  if negb (an_version a =? SEQUENCE_VERSION) then (Ignored IrVersion, x)
  else if negb (an_sender a =? authenticated_sender) then (Ignored IrSenderMismatch, x)
  else if negb is_member then (Ignored IrNotAMember, x)
  else if u64_saturating_add local_view (cc_future_view_slack x) <? an_view a then (Ignored IrTooFarAhead, x)
  else
    let key := (an_view a, authenticated_sender) in
    match cc_first_claim x !! key with
    | Some previous =>
        if previous =? an_head a then (Ignored IrDuplicate, x)
        else (Ignored IrEquivocation,
              retract (an_view a) authenticated_sender (x <| cc_equivocators ::= union {[ authenticated_sender ]} |>))
    | None =>
        if bool_decide (authenticated_sender ∈ cc_equivocators x) then (Ignored IrEquivocation, x)
        else
          let senders := {[ authenticated_sender ]} ∪ supporters x (an_view a) (an_head a) in
          let x := x <| cc_first_claim ::= <[ key := an_head a ]> |>
                     <| cc_candidates ::= partial_alter (fun o => Some (<[ an_head a := senders ]> (default ∅ o))) (an_view a) |> in
          let reached := cc_threshold x <=? Z.of_nat (size senders) in
          let x := cc_evict_if_needed x in
          if reached then
            (Counted (negb (bool_decide (is_Some (cc_certified x !! an_view a)))),
             x <| cc_certified ::= <[ an_view a := an_head a ]> |>)
          else (Counted false, x)
    end.

Definition certified_head (x : CheckpointCollector) (above : View) : option (View * Digest) :=
  head (filter (fun p => above < p.1) (reverse (map_iter (cc_certified x)))).

(** ** Verifiers *)

Inductive ChainError :=
| CeVersion
| CeUnexpectedView (expected got : View)
| CeBrokenLink (view : View)
| CeHeadMismatch (view : View)
| CePastTarget (target : View)
| CeUnexpectedIndex (expected got : Z)
| CeDeltaMismatch (view : View)
| CeDeltaTooLong (view : View)
| CeSkipWithDelta (view : View)
| CeOutcomeMismatch (view : View).

Record ChainVerifier := mkChain {
  cv_sid : Digest;
  cv_target_view : View;
  cv_target_head : Digest;
  cv_next_view : View;
  cv_head : Digest;
  cv_verified : gmap View SequenceRecord;
  cv_complete : bool;
}.

Definition cv_eta (x : ChainVerifier) : ChainVerifier :=
  mkChain (cv_sid x) (cv_target_view x) (cv_target_head x) (cv_next_view x) (cv_head x) (cv_verified x) (cv_complete x).

#[export] Instance set_cv_next_view : Setter cv_next_view.
Proof. solve_setter cv_eta cv_next_view. Defined.
#[export] Instance set_cv_head : Setter cv_head.
Proof. solve_setter cv_eta cv_head. Defined.
#[export] Instance set_cv_verified : Setter cv_verified.
Proof. solve_setter cv_eta cv_verified. Defined.
#[export] Instance set_cv_complete : Setter cv_complete.
Proof. solve_setter cv_eta cv_complete. Defined.

Record DeltaVerifier := mkDelta {
  dv_sid : Digest;
  dv_view : View;
  dv_expected_len : Z;
  dv_expected_head : Digest;
  dv_next_index : Z;
  dv_running : Digest;
  dv_items : list Digest;
}.

Section verifiers.
Context {Hash : Hashing} {Codec : SequenceCodec}.

Definition chain_new (sid : Digest) (base_view : View) (base_head : Digest) (target_view : View) (target_head : Digest) : ChainVerifier :=
  mkChain sid target_view target_head (u64_add base_view 1) base_head ∅ false.

(** The loop over the records: the view and the head it ends with. *)
Fixpoint absorb_loop (sid : Digest) (target_view : View) (view : View) (head : Digest) (records : list SequenceRecord)
    : (View * Digest) + ChainError :=
  match records with
  | [] => inl (view, head)
  | r :: records =>
      if negb (sq_version r =? SEQUENCE_VERSION) then inr CeVersion
      else if target_view <? view then inr (CePastTarget target_view)
      else if negb (sq_view r =? view) then inr (CeUnexpectedView view (sq_view r))
      else if negb (sq_previous_head r =? head) then inr (CeBrokenLink view)
      else absorb_loop sid target_view (u64_add view 1) (record_head sid r) records
  end.

Definition absorb_records (records : list SequenceRecord) (x : ChainVerifier) : (bool + ChainError) * ChainVerifier :=
  match absorb_loop (cv_sid x) (cv_target_view x) (cv_next_view x) (cv_head x) records with
  | inr e => (inr e, x)
  | inl (view, head) =>
      let reached := cv_target_view x <? view in
      if reached && negb (head =? cv_target_head x) then (inr (CeHeadMismatch (cv_target_view x)), x)
      else
        (inl reached,
         x <| cv_verified ::= fun m => foldl (fun m r => <[ sq_view r := r ]> m) m records |>
           <| cv_next_view := view |> <| cv_head := head |> <| cv_complete := reached |>)
  end.

Definition check_outcome (view : View) (o : SequenceOutcome) (x : ChainVerifier) : () + ChainError :=
  match cv_verified x !! view with
  | None => inr (CeUnexpectedView (cv_next_view x) view)
  | Some r =>
      if negb (outcome_digest (cv_sid x) view o =? sq_outcome_digest r) then inr (CeOutcomeMismatch view)
      else if bool_decide (o = SeqSkip) && negb (sq_delta_len r =? 0) then inr (CeSkipWithDelta view)
      else inl tt
  end.

Definition delta_new (sid : Digest) (view : View) (r : SequenceRecord) : DeltaVerifier :=
  mkDelta sid view (sq_delta_len r) (sq_delta_head r) 0 (delta_seed sid view) [].

Definition dv_is_complete (x : DeltaVerifier) : bool := dv_next_index x =? dv_expected_len x.

(** The index after the items: [index += 1] for each. *)
Definition index_after (index : Z) (items : list Digest) : Z := (index + Z.of_nat (length items)) mod u64_modulus.

Definition absorb (start_index : Z) (items : list Digest) (x : DeltaVerifier) : (bool + ChainError) * DeltaVerifier :=
  if negb (start_index =? dv_next_index x) then (inr (CeUnexpectedIndex (dv_next_index x) start_index), x)
  else if dv_expected_len x <? u64_add (dv_next_index x) (Z.of_nat (length items)) then (inr (CeDeltaTooLong (dv_view x)), x)
  else
    let running := delta_fold (dv_sid x) (dv_view x) (dv_next_index x) (dv_running x) items in
    let index := index_after (dv_next_index x) items in
    let complete := index =? dv_expected_len x in
    if complete && negb (running =? dv_expected_head x) then (inr (CeDeltaMismatch (dv_view x)), x)
    else (inl complete,
          mkDelta (dv_sid x) (dv_view x) (dv_expected_len x) (dv_expected_head x) index running (dv_items x ++ items)).
End verifiers.

(** ** Downloads *)

Inductive SequenceWant :=
| WantRecords (from_view : View)
| WantOutcomes (from_view : View)
| WantDeltas (from_view : View) (start_index : Z).

Inductive TransferState := FetchingRecords | FetchingOutcomes | FetchingDeltas | TrVerified | TrExhausted.
#[export] Instance TransferState_eq_dec : EqDecision TransferState.
Proof. solve_decision. Defined.

Definition MAX_INVALID_PER_SOURCE : Z := 2.

Record SequenceRequest := mkSequenceRequest {
  rq_version : Z; rq_transfer_id : Z; rq_target_view : View; rq_target_head : Digest; rq_from_view : View;
  rq_max_records : nat; rq_requester : PublicKey;
}.
Record SequenceRecordChunk := mkRecordChunk {
  rc_version : Z; rc_transfer_id : Z; rc_target_head : Digest; rc_records : list SequenceRecord; rc_serve_floor : View;
  rc_sender : PublicKey;
}.
Record SequenceDeltaRequest := mkDeltaRequest {
  dq_version : Z; dq_transfer_id : Z; dq_target_head : Digest; dq_view : View; dq_start_index : nat; dq_max_items : nat;
  dq_requester : PublicKey;
}.
Record SequenceDeltaChunk := mkDeltaChunk {
  dc_version : Z; dc_transfer_id : Z; dc_target_head : Digest; dc_view : View; dc_start_index : Z; dc_items : list Digest;
  dc_complete : bool; dc_sender : PublicKey;
}.
Record SequenceDeltaRangeRequest := mkDeltaRangeRequest {
  gq_version : Z; gq_transfer_id : Z; gq_target_head : Digest; gq_target_view : View; gq_from_view : View; gq_start_index : nat;
  gq_max_views : nat; gq_max_items : nat; gq_requester : PublicKey;
}.
Record SequenceDeltaRangeChunk := mkDeltaRangeChunk {
  gc_version : Z; gc_transfer_id : Z; gc_target_head : Digest; gc_entries : list SequenceDeltaEntry; gc_sender : PublicKey;
}.
Record SequenceOutcomeRequest := mkOutcomeRequest {
  oq_version : Z; oq_transfer_id : Z; oq_target_head : Digest; oq_target_view : View; oq_from_view : View;
  oq_max_views : nat; oq_max_items : Z; oq_requester : PublicKey;
}.
Record SequenceOutcomeServe := mkOutcomeServe {
  os_version : Z; os_transfer_id : Z; os_target_head : Digest; os_outcomes : list SequenceOutcomeEntry; os_sender : PublicKey;
}.
Record SequenceUnavailable := mkUnavailable {
  un_version : Z; un_transfer_id : Z; un_target_head : Digest; un_serve_floor : View; un_sender : PublicKey;
}.

(** What a peer answers. *)
Inductive SequenceResponse :=
| RespRecords (c : SequenceRecordChunk)
| RespOutcome (c : SequenceOutcomeServe)
| RespDelta (c : SequenceDeltaChunk)
| RespDeltaRange (c : SequenceDeltaRangeChunk)
| RespUnavailable (u : SequenceUnavailable).

Record SequenceTransfer := mkTransfer {
  tr_sid : Digest;
  tr_transfer_id : Z;
  tr_target_view : View;
  tr_target_head : Digest;
  tr_sources : list PublicKey;
  tr_cursor : nat;
  tr_invalid : gmap PublicKey Z;
  tr_chain : ChainVerifier;
  tr_outcomes : gmap View SequenceOutcome;
  tr_deltas : gmap View (list Digest);
  tr_delta_in_flight : gmap View DeltaVerifier;
  tr_outcome_scan_from : View;
  tr_delta_scan_from : View;
  tr_state : TransferState;
}.

Definition tr_eta (x : SequenceTransfer) : SequenceTransfer :=
  mkTransfer (tr_sid x) (tr_transfer_id x) (tr_target_view x) (tr_target_head x) (tr_sources x) (tr_cursor x) (tr_invalid x)
    (tr_chain x) (tr_outcomes x) (tr_deltas x) (tr_delta_in_flight x) (tr_outcome_scan_from x) (tr_delta_scan_from x) (tr_state x).

#[export] Instance set_tr_sources : Setter tr_sources.
Proof. solve_setter tr_eta tr_sources. Defined.
#[export] Instance set_tr_cursor : Setter tr_cursor.
Proof. solve_setter tr_eta tr_cursor. Defined.
#[export] Instance set_tr_invalid : Setter tr_invalid.
Proof. solve_setter tr_eta tr_invalid. Defined.
#[export] Instance set_tr_chain : Setter tr_chain.
Proof. solve_setter tr_eta tr_chain. Defined.
#[export] Instance set_tr_outcomes : Setter tr_outcomes.
Proof. solve_setter tr_eta tr_outcomes. Defined.
#[export] Instance set_tr_deltas : Setter tr_deltas.
Proof. solve_setter tr_eta tr_deltas. Defined.
#[export] Instance set_tr_delta_in_flight : Setter tr_delta_in_flight.
Proof. solve_setter tr_eta tr_delta_in_flight. Defined.
#[export] Instance set_tr_outcome_scan_from : Setter tr_outcome_scan_from.
Proof. solve_setter tr_eta tr_outcome_scan_from. Defined.
#[export] Instance set_tr_delta_scan_from : Setter tr_delta_scan_from.
Proof. solve_setter tr_eta tr_delta_scan_from. Defined.
#[export] Instance set_tr_state : Setter tr_state.
Proof. solve_setter tr_eta tr_state. Defined.

Section transfer.
Context {Hash : Hashing} {Codec : SequenceCodec}.
(** A method of the transfer: no effects, an answer and the new state. *)
Abbreviation TM := (M Empty_set SequenceTransfer) (only parsing).

Definition transfer_new (sid : Digest) (transfer_id : Z) (base_view : View) (base_head : Digest) (target_view : View)
    (target_head : Digest) (sources : list PublicKey) : SequenceTransfer :=
  mkTransfer sid transfer_id target_view target_head sources 0 ∅
    (chain_new sid base_view base_head target_view target_head) ∅ ∅ ∅ 1 1
    (if decide (sources = []) then TrExhausted else FetchingRecords).

(** The pairs of both maps, in the order of the outcomes. *)
Definition verified_output (x : SequenceTransfer) : option (list (View * SequenceOutcome * list Digest)) :=
  if decide (tr_state x = TrVerified) then
    Some (omap (fun p => (fun delta => (p.1, p.2, delta)) <$> tr_deltas x !! p.1) (map_iter (tr_outcomes x)))
  else None.

Definition verified_heads (x : SequenceTransfer) : option (list (View * Digest)) :=
  if decide (tr_state x = TrVerified) then
    Some (omap (fun view => (fun r => (view, record_head (tr_sid x) r)) <$> cv_verified (tr_chain x) !! view)
      (seqZ 1 (tr_target_view x)))
  else None.

(** A view with a record and no body. *)
Definition lacks {V} (x : SequenceTransfer) (have : gmap View V) (view : View) : bool :=
  bool_decide (is_Some (cv_verified (tr_chain x) !! view)) && negb (bool_decide (is_Some (have !! view))).

(** [(from..=target_view).find(..)]. *)
Definition find_lacking {V} (x : SequenceTransfer) (have : gmap View V) (from : View) : option View :=
  snd <$> list_find (fun v => lacks x have v = true) (seqZ from (tr_target_view x - from + 1)).

(** The loop that moves the scan cursor, with enough turns to pass the target: the view it returns, if
    it returns, and the cursor. *)
Fixpoint scan_loop {V} (n : nat) (x : SequenceTransfer) (have : gmap View V) (cursor : View) : option View * View :=
  match n with
  | O => (None, cursor)
  | S n =>
      if tr_target_view x <? cursor then (None, cursor)
      else if negb (bool_decide (is_Some (cv_verified (tr_chain x) !! cursor))) then (None, cursor)
      else if negb (bool_decide (is_Some (have !! cursor))) then (Some cursor, cursor)
      else scan_loop n x have (u64_add cursor 1)
  end.

Definition first_missing {V} (x : SequenceTransfer) (have : gmap View V) (cursor : View) : option View * View :=
  match scan_loop (Z.to_nat (tr_target_view x - cursor + 1)) x have cursor with
  | (Some view, cursor) => (Some view, cursor)
  | (None, cursor) => (find_lacking x have cursor, cursor)
  end.

Definition first_missing_outcome : TM (option View) :=
  x ← get;
  let r := first_missing x (tr_outcomes x) (tr_outcome_scan_from x) in
  modify (fun x => x <| tr_outcome_scan_from := r.2 |>);; mret r.1.

Definition first_missing_delta : TM (option View) :=
  x ← get;
  let r := first_missing x (tr_deltas x) (tr_delta_scan_from x) in
  modify (fun x => x <| tr_delta_scan_from := r.2 |>);; mret r.1.

Definition want_deltas (x : SequenceTransfer) (view : View) : SequenceWant :=
  WantDeltas view (match tr_delta_in_flight x !! view with Some v => dv_next_index v | None => 0 end).

Definition want : TM (option SequenceWant) :=
  x ← get;
  match tr_state x with
  | FetchingRecords => mret (Some (WantRecords (cv_next_view (tr_chain x))))
  | FetchingOutcomes => o ← first_missing_outcome; mret (WantOutcomes <$> o)
  | FetchingDeltas => o ← first_missing_delta; mret (want_deltas x <$> o)
  | TrVerified | TrExhausted => mret None
  end.

(** The loop of [missing_spaced] after the first view. *)
Fixpoint spaced_loop {V} (n : nat) (x : SequenceTransfer) (have : gmap View V) (span from : View) : list View :=
  match n with
  | O => []
  | S n =>
      if negb (from <=? tr_target_view x) then []
      else
        match find_lacking x have from with
        | None => []
        | Some view => view :: spaced_loop n x have span (u64_saturating_add view span)
        end
  end.

Definition missing_spaced {V} (x : SequenceTransfer) (have : gmap View V) (first : option View) (span : View) (max : nat) : list View :=
  match first with
  | None => []
  | Some first =>
      let span := Z.max span 1 in
      first :: spaced_loop (Nat.max max 1 - 1) x have span (u64_saturating_add first span)
  end.

Definition wants (max : nat) (outcome_span delta_span : View) : TM (list SequenceWant) :=
  x ← get;
  match tr_state x with
  | FetchingRecords | TrVerified | TrExhausted => o ← want; mret (option_list o)
  | FetchingOutcomes =>
      o ← first_missing_outcome; mret (WantOutcomes <$> missing_spaced x (tr_outcomes x) o outcome_span max)
  | FetchingDeltas =>
      o ← first_missing_delta; mret (want_deltas x <$> missing_spaced x (tr_deltas x) o delta_span max)
  end.

Definition next_sources (x : SequenceTransfer) (max : nat) : list PublicKey :=
  let n := length (tr_sources x) in
  omap (fun i => tr_sources x !! ((tr_cursor x + i) mod n)%nat) (seq 0 (Nat.min (Nat.max max 1) n)).

(** ** Penalties and sources *)

Definition drop_source (from : PublicKey) : TM () :=
  modify (fun x =>
    let x :=
      match list_find (eq from) (tr_sources x) with
      | Some (index, _) =>
          x <| tr_sources := delete index (tr_sources x) |>
            <| tr_cursor := if (index <? tr_cursor x)%nat then (tr_cursor x - 1)%nat else tr_cursor x |>
      | None => x
      end in
    if decide (tr_sources x = []) then x <| tr_state := TrExhausted |>
    else x <| tr_cursor := (tr_cursor x mod length (tr_sources x))%nat |>).

Definition penalize (from : PublicKey) : TM () :=
  x ← get;
  let count := default 0 (tr_invalid x !! from) + 1 in
  modify (fun x => x <| tr_invalid ::= <[ from := count ]> |>);;
  when (MAX_INVALID_PER_SOURCE <=? count) (drop_source from).

Definition rotate : TM () :=
  modify (fun x => if decide (tr_sources x = []) then x
                   else x <| tr_cursor := ((tr_cursor x + 1) mod length (tr_sources x))%nat |>).

Definition accepts (x : SequenceTransfer) (from : PublicKey) (transfer_id : Z) (head : Digest) : bool :=
  (transfer_id =? tr_transfer_id x) && (head =? tr_target_head x) && bool_decide (from ∈ tr_sources x).

Definition advance_if_done : TM () :=
  x ← get;
  if negb (cv_complete (tr_chain x)) then skip
  else
    o ← first_missing_outcome;
    if bool_decide (is_Some o) then skip
    else
      d ← first_missing_delta;
      if bool_decide (is_Some d) then skip
      else modify (fun x => x <| tr_state := TrVerified |>).

(** ** Responses *)

Definition on_records (chunk : SequenceRecordChunk) (from : PublicKey) : TM (() + ChainError) :=
  x ← get;
  if negb (bool_decide (tr_state x = FetchingRecords)) || negb (accepts x from (rc_transfer_id chunk) (rc_target_head chunk)) then
    mret (inl tt)
  else
    let fresh := filter (fun r => cv_next_view (tr_chain x) <= sq_view r <= tr_target_view x) (rc_records chunk) in
    if decide (fresh = []) then mret (inl tt)
    else
      match absorb_records fresh (tr_chain x) with
      | (inl complete, chain) =>
          modify (fun x => x <| tr_chain := chain |>);;
          when complete (modify (fun x => x <| tr_state := FetchingOutcomes |>);; advance_if_done);;
          mret (inl tt)
      | (inr e, chain) =>
          modify (fun x => x <| tr_chain := chain |>);;
          penalize from;; mret (inr e)
      end.

Fixpoint absorb_outcomes (from : PublicKey) (entries : list SequenceOutcomeEntry) : TM (() + ChainError) :=
  match entries with
  | [] => mret (inl tt)
  | entry :: entries =>
      x ← get;
      if bool_decide (is_Some (tr_outcomes x !! oe_view entry)) ||
         negb (bool_decide (is_Some (cv_verified (tr_chain x) !! oe_view entry))) then absorb_outcomes from entries
      else
        match check_outcome (oe_view entry) (oe_outcome entry) (tr_chain x) with
        | inr e => penalize from;; mret (inr e)
        | inl _ =>
            modify (fun x => x <| tr_outcomes ::= <[ oe_view entry := oe_outcome entry ]> |>);;
            absorb_outcomes from entries
        end
  end.

Definition on_outcomes (serve : SequenceOutcomeServe) (from : PublicKey) : TM (() + ChainError) :=
  x ← get;
  if negb (bool_decide (tr_state x = FetchingOutcomes)) || negb (accepts x from (os_transfer_id serve) (os_target_head serve)) then
    mret (inl tt)
  else
    r ← absorb_outcomes from (os_outcomes serve);
    match r with
    | inr e => mret (inr e)
    | inl _ =>
        o ← first_missing_outcome;
        when (negb (bool_decide (is_Some o))) (modify (fun x => x <| tr_state := FetchingDeltas |>);; advance_if_done);;
        mret (inl tt)
    end.

Definition on_delta_entry (entry : SequenceDeltaEntry) (from : PublicKey) : TM (() + ChainError) :=
  x ← get;
  match cv_verified (tr_chain x) !! de_view entry with
  | None => mret (inl tt)
  | Some r =>
      if bool_decide (is_Some (tr_deltas x !! de_view entry)) then mret (inl tt)
      else
        if match tr_delta_in_flight x !! de_view entry with
           | Some v => de_start_index entry <? dv_next_index v | None => false end then mret (inl tt)
        else
          let verifier := default (delta_new (tr_sid x) (de_view entry) r) (tr_delta_in_flight x !! de_view entry) in
          match absorb (de_start_index entry) (de_items entry) verifier with
          | (inl true, verifier) =>
              modify (fun x => x <| tr_delta_in_flight ::= delete (de_view entry) |>
                                 <| tr_deltas ::= <[ de_view entry := dv_items verifier ]> |>);;
              advance_if_done;; mret (inl tt)
          | (inl false, verifier) =>
              modify (fun x => x <| tr_delta_in_flight ::= <[ de_view entry := verifier ]> |>);; mret (inl tt)
          | (inr e, _) =>
              modify (fun x => x <| tr_delta_in_flight ::= delete (de_view entry) |>);;
              penalize from;; mret (inr e)
          end
  end.

Definition on_delta (chunk : SequenceDeltaChunk) (from : PublicKey) : TM (() + ChainError) :=
  x ← get;
  if negb (bool_decide (tr_state x = FetchingDeltas)) || negb (accepts x from (dc_transfer_id chunk) (dc_target_head chunk)) then
    mret (inl tt)
  else on_delta_entry (mkDeltaEntry (dc_view chunk) (dc_start_index chunk) (dc_items chunk) (dc_complete chunk)) from.

(** [self.on_delta_entry(entry, from)?] for each entry. *)
Fixpoint absorb_deltas (from : PublicKey) (entries : list SequenceDeltaEntry) : TM (() + ChainError) :=
  match entries with
  | [] => mret (inl tt)
  | entry :: entries =>
      r ← on_delta_entry entry from;
      match r with inr e => mret (inr e) | inl _ => absorb_deltas from entries end
  end.

Definition on_delta_range (chunk : SequenceDeltaRangeChunk) (from : PublicKey) : TM (() + ChainError) :=
  x ← get;
  if negb (bool_decide (tr_state x = FetchingDeltas)) || negb (accepts x from (gc_transfer_id chunk) (gc_target_head chunk)) then
    mret (inl tt)
  else absorb_deltas from (gc_entries chunk).

Definition on_unavailable (u : SequenceUnavailable) (from : PublicKey) : TM () :=
  x ← get;
  if negb (un_transfer_id u =? tr_transfer_id x) || negb (un_target_head u =? tr_target_head x) then skip
  else drop_source from.

(** The transfer's part of [on_sequence_response]. *)
Definition on_response (response : SequenceResponse) (from : PublicKey) : TM (() + ChainError) :=
  match response with
  | RespRecords c => on_records c from
  | RespOutcome c => on_outcomes c from
  | RespDelta c => on_delta c from
  | RespDeltaRange c => on_delta_range c from
  | RespUnavailable u => on_unavailable u from;; mret (inl tt)
  end.
End transfer.

(** ** Serving *)

(** The node's settings for chunk sizes. *)
Record ServeCaps := mkServeCaps {
  chunk_records : nat;
  chunk_digests : nat;
  chunk_outcomes : nat;
  chunk_outcome_items : Z;
}.

Section serving.
Context (store : SequenceStore) (caps : ServeCaps) (name : PublicKey).

Definition unavailable (transfer_id : Z) (target_head : Digest) : SequenceResponse :=
  RespUnavailable (mkUnavailable SEQUENCE_VERSION transfer_id target_head (serve_floor store) name).

Definition serve_sequence_records (q : SequenceRequest) : SequenceResponse :=
  let floor := serve_floor store in
  let max := Nat.min (chunk_records caps) (rq_max_records q) in
  let records := if rq_from_view q <? floor then [] else records_from store (rq_from_view q) max in
  if decide (records = []) then unavailable (rq_transfer_id q) (rq_target_head q)
  else RespRecords (mkRecordChunk SEQUENCE_VERSION (rq_transfer_id q) (rq_target_head q) records floor name).

Definition serve_sequence_delta (q : SequenceDeltaRequest) : SequenceResponse :=
  let max := Nat.min (chunk_digests caps) (dq_max_items q) in
  match delta_chunk store (dq_view q) (dq_start_index q) max with
  | Some (items, complete) =>
      RespDelta (mkDeltaChunk SEQUENCE_VERSION (dq_transfer_id q) (dq_target_head q) (dq_view q) (Z.of_nat (dq_start_index q)) items
        complete name)
  | None => unavailable (dq_transfer_id q) (dq_target_head q)
  end.

Definition serve_sequence_delta_range (q : SequenceDeltaRangeRequest) : SequenceResponse :=
  let floor := serve_floor store in
  let max_views := Nat.max (gq_max_views q) 1 in
  let max_items := Nat.max (Nat.min (chunk_digests caps) (gq_max_items q)) 1 in
  let entries := if gq_from_view q <? floor then []
                 else delta_entries_from store (gq_from_view q) (gq_start_index q) (gq_target_view q) max_views max_items in
  match entries with
  | [] => unavailable (gq_transfer_id q) (gq_target_head q)
  | _ => RespDeltaRange (mkDeltaRangeChunk SEQUENCE_VERSION (gq_transfer_id q) (gq_target_head q) entries name)
  end.

Definition serve_sequence_outcome (q : SequenceOutcomeRequest) : SequenceResponse :=
  let floor := serve_floor store in
  let max_views := Nat.max (Nat.min (chunk_outcomes caps) (oq_max_views q)) 1 in
  let max_items := Z.max (Z.min (chunk_outcome_items caps) (oq_max_items q)) 1 in
  let outcomes := if oq_from_view q <? floor then []
                  else outcomes_from store (oq_from_view q) (oq_target_view q) max_views max_items in
  match outcomes with
  | [] => unavailable (oq_transfer_id q) (oq_target_head q)
  | _ => RespOutcome (mkOutcomeServe SEQUENCE_VERSION (oq_transfer_id q) (oq_target_head q) outcomes name)
  end.
End serving.
