(* ===== verification/SequenceChain.v ===== *)
(** The hash chain of a sequence and what it commits to.

    A store holds exactly the views below its next one, each record commits to the outcome, to the
    output and to the record before it.  A chain of records that ends in the head of a store is the
    store's, and a delta with the committed length and head is the store's: this is what
    lets a download trust bodies from anyone. *)

From S2P Require Import Prelude Committee Types Sequence.

(** The hashes of the chain have no collision. *)
Record sequence_binding `{Hash : Hashing} `{Codec : SequenceCodec} (sid : Digest) : Prop := {
  sb_record : Inj (=) (=) (record_head sid);
  sb_outcome v : Inj (=) (=) (outcome_digest sid v);
  sb_item v i h h' a a' : delta_step sid v i h a = delta_step sid v i h' a' -> h = h' /\ a = a';
}.

Section chain.
Context {Hash : Hashing} {Codec : SequenceCodec}.

(** ** Deltas *)

Lemma delta_fold_app sid v i h l l' :
  0 <= i < u64_modulus -> delta_fold sid v i h (l ++ l') = delta_fold sid v (index_after i l) (delta_fold sid v i h l) l'.
Proof.
  revert i h. induction l as [|a l IH]; intros i h Hi; cbn.
  - unfold index_after. cbn. by rewrite Z.add_0_r, Z.mod_small.
  - rewrite IH by (by apply Z.mod_pos_bound). f_equal. unfold index_after, u64_add. cbn [length].
    rewrite Zplus_mod_idemp_l. f_equal. lia.
Qed.

Lemma delta_fold_snoc sid v i h l a :
  0 <= i < u64_modulus -> delta_fold sid v i h (l ++ [a]) = delta_step sid v (index_after i l) (delta_fold sid v i h l) a.
Proof. intros Hi. by rewrite delta_fold_app. Qed.

(** Lists of one length with one head are one list. *)
Lemma delta_fold_inj sid v i h l l' :
  sequence_binding sid -> 0 <= i < u64_modulus -> length l = length l' -> delta_fold sid v i h l = delta_fold sid v i h l' -> l = l'.
Proof.
  intros Hb Hi. revert l'. induction l as [|a l IH] using rev_ind; intros l' Hl Hf.
  { by destruct l'. }
  destruct l' as [|a' l' _] using rev_ind; [rewrite length_app in Hl; cbn in Hl; lia|].
  rewrite !length_app in Hl. cbn in Hl. rewrite !delta_fold_snoc in Hf by done.
  assert (length l = length l') as Hl' by lia. unfold index_after in Hf. rewrite Hl' in Hf.
  apply (sb_item _ Hb) in Hf as [Hf ->]. by rewrite (IH l').
Qed.

(** ** The store *)

(** The head after a view. *)
Definition head_at (s : SequenceStore) (v : View) : Digest :=
  match ss_records s !! v with Some r => record_head (ss_sid s) r | None => genesis_head (ss_sid s) end.

(** The record of a view for an outcome and a delta. *)
Definition record_of (sid : Digest) (previous : Digest) (v : View) (o : SequenceOutcome) (d : list Digest) : SequenceRecord :=
  let c := delta_commitment sid v d in
  mkSeqRecord SEQUENCE_VERSION v previous (outcome_digest sid v o) c.1 c.2.

Record store_ok (s : SequenceStore) : Prop := {
  so_next : 1 <= ss_next_view s <= u64_max;
  so_interval : 1 <= ss_interval s;
  so_views v : is_Some (ss_records s !! v) <-> 1 <= v < ss_next_view s;
  so_record v r : ss_records s !! v = Some r -> exists o d,
    ss_outcomes s !! v = Some o /\ ss_deltas s !! v = Some d /\ r = record_of (ss_sid s) (head_at s (v - 1)) v o d;
  so_outcomes v : is_Some (ss_outcomes s !! v) -> is_Some (ss_records s !! v);
  so_deltas v : is_Some (ss_deltas s !! v) -> is_Some (ss_records s !! v);
  so_head : ss_head s = head_at s (ss_next_view s - 1);
  so_boundary v h : ss_boundaries s !! v = Some h <-> v mod ss_interval s = 0 /\ 1 <= v < ss_next_view s /\ head_at s v = h;
}.

Lemma store_new_ok sid interval : store_ok (store_new sid interval).
Proof.
  split; cbn.
  - unfold u64_max, u64_modulus. lia.
  - lia.
  - intros v. rewrite lookup_empty. split; [intros [? [=]]|lia].
  - intros v r. by rewrite lookup_empty.
  - intros v. rewrite lookup_empty. by intros [? [=]].
  - intros v. rewrite lookup_empty. by intros [? [=]].
  - done.
  - intros v h. rewrite lookup_empty. split; [done|lia].
Qed.

Lemma store_record_ok s v o d :
  store_ok s -> v < u64_max -> store_ok (ss_record v o d s).2.
Proof.
  intros Hs Hv. unfold ss_record. destruct (Z.eqb_spec v (ss_next_view s)) as [->|]; [|done]. cbn [negb snd]. cbn zeta.
  set (n := ss_next_view s) in *. destruct Hs as [S1 S2 S3 S4 S5 S6 S7 S8]. fold n in S1, S3, S7, S8.
  assert (u64_add n 1 = n + 1) as Hn by (unfold u64_add, u64_max in *; apply Z.mod_small; lia).
  assert (ss_records s !! n = None) as Hnone.
  { destruct (ss_records s !! n) eqn:Hr; [|done]. assert (1 <= n < n) by (apply S3; by rewrite Hr). lia. }
  set (c := delta_commitment (ss_sid s) n d). set (r := mkSeqRecord _ _ _ _ _ _).
  match goal with |- store_ok (if is_boundary ?x n then _ else _) => set (s1 := x) end.
  assert (ss_records s1 = <[ n := r ]> (ss_records s)) as Hrec by done.
  assert (forall v, v <> n -> head_at s1 v = head_at s v) as Hold.
  { intros v Hne. unfold head_at. rewrite Hrec, lookup_insert_ne by done. done. }
  assert (head_at s1 n = record_head (ss_sid s) r) as Hnew.
  { unfold head_at. by rewrite Hrec, lookup_insert_eq. }
  assert (store_ok (s1 <| ss_boundaries := (if is_boundary s1 n then <[ n := ss_head s1 ]> else id) (ss_boundaries s) |>)) as Hok.
  { split; cbn.
    - rewrite Hn. lia.
    - done.
    - intros v. rewrite Hn. destruct (decide (v = n)) as [->|]; [rewrite lookup_insert_eq; split; [lia|by eexists]|].
      rewrite lookup_insert_ne by done. rewrite S3. lia.
    - intros v r'. destruct (decide (v = n)) as [->|].
      + rewrite !lookup_insert_eq. intros [= <-]. exists o, d. split_and!; [done|done|]. unfold record_of. fold c.
        change (head_at _ (n - 1)) with (head_at s1 (n - 1)). by rewrite Hold, <- S7 by lia.
      + rewrite !lookup_insert_ne by done. intros Hr. destruct (S4 v r' Hr) as (o' & d' & H1 & H2 & H3). exists o', d'.
        split_and!; [done|done|]. change (head_at _ (v - 1)) with (head_at s1 (v - 1)). assert (1 <= v < n) by (apply S3; by rewrite Hr).
        by rewrite Hold by lia.
    - intros v. destruct (decide (v = n)) as [->|]; [by rewrite !lookup_insert_eq|rewrite !lookup_insert_ne by done; apply S5].
    - intros v. destruct (decide (v = n)) as [->|]; [by rewrite !lookup_insert_eq|rewrite !lookup_insert_ne by done; apply S6].
    - rewrite Hn. replace (n + 1 - 1) with n by lia. change (head_at _ n) with (head_at s1 n). done.
    - intros v h. rewrite Hn. change (head_at _ v) with (head_at s1 v). unfold is_boundary. cbn.
      destruct (decide (v = n)) as [->|Hne].
      + rewrite Hnew. destruct (Z.eqb_spec (n mod ss_interval s) 0).
        * rewrite lookup_insert_eq. split; [intros [= <-]; split_and!; [done|lia|lia|done]|by intros (_ & _ & <-)].
        * cbn. rewrite S8. split; [lia|naive_solver].
      + rewrite Hold by done. assert ((if n mod ss_interval s =? 0 then <[ n := record_head (ss_sid s) r ]> else id) (ss_boundaries s) !! v =
          ss_boundaries s !! v) as ->; [destruct (_ =? 0); [by rewrite lookup_insert_ne|done]|]. rewrite S8. intuition lia. }
  unfold is_boundary in Hok |- *. cbn in Hok |- *. destruct (n mod ss_interval s =? 0); exact Hok.
Qed.

(** Stores as the node makes them. *)
Inductive store_reaches (sid : Digest) (interval : Z) : SequenceStore -> Prop :=
| sr_new : store_reaches sid interval (store_new sid interval)
| sr_record s v o d : store_reaches sid interval s -> v < u64_max -> store_reaches sid interval (ss_record v o d s).2
| sr_headers s hs : store_reaches sid interval s -> store_reaches sid interval (retain_verified_headers hs s).

Lemma store_headers_same hs s : exists m, retain_verified_headers hs s = s <| ss_headers := m |>.
Proof.
  unfold retain_verified_headers. revert s. induction hs as [|h hs IH]; intros s; cbn; [by exists (ss_headers s); destruct s|].
  destruct (IH (s <| ss_headers ::= partial_alter (fun o => Some (default h o)) (hd_id h) |>)) as [m ->]. by exists m.
Qed.

Lemma store_reaches_ok sid interval s : store_reaches sid interval s -> store_ok s /\ ss_sid s = sid.
Proof.
  induction 1 as [|s v o d _ [IH <-] Hv|s hs _ [IH <-]].
  - split; [apply store_new_ok|done].
  - split; [by apply store_record_ok|]. unfold ss_record. destruct (negb _); [done|]. cbn. by destruct (is_boundary _ _).
  - destruct (store_headers_same hs s) as [m ->]. split; [|done]. by destruct IH.
Qed.

(** ** Chains that end in a store *)

(** The records of [m] above [base], linked from [base_head], up to the one before [next]. *)
Record linked (sid : Digest) (base : View) (base_head : Digest) (m : gmap View SequenceRecord) (next : View) (h : Digest) : Prop := {
  ln_next : base < next;
  ln_views v : is_Some (m !! v) <-> base < v < next;
  ln_first r : m !! (base + 1) = Some r -> sq_previous_head r = base_head;
  ln_link v r r' : m !! v = Some r -> m !! (v + 1) = Some r' -> sq_previous_head r' = record_head sid r;
  ln_head : (next = base + 1 /\ h = base_head) \/ exists r, m !! (next - 1) = Some r /\ h = record_head sid r;
}.

Lemma linked_new sid base base_head : linked sid base base_head ∅ (base + 1) base_head.
Proof.
  split; [lia|..]; intros *; rewrite ?lookup_empty; try done; [|by left]. split; [intros [? [=]]|lia].
Qed.

Lemma linked_snoc sid base base_head m next h r :
  linked sid base base_head m next h -> sq_previous_head r = h -> linked sid base base_head (<[ next := r ]> m) (next + 1) (record_head sid r).
Proof.
  intros [L1 L2 L3 L4 L5] Hr.
  assert (m !! next = None) as Hn by (destruct (m !! next) eqn:E; [|done]; assert (base < next < next) by (apply L2; by rewrite E); lia).
  assert (m !! (next + 1) = None) as Hn' by (destruct (m !! (next + 1)) eqn:E; [|done]; assert (base < next + 1 < next) by (apply L2; by rewrite E); lia).
  split.
  - lia.
  - intros v. destruct (decide (v = next)) as [->|]; [rewrite lookup_insert_eq; split; [lia|by eexists]|].
    rewrite lookup_insert_ne, L2 by done. lia.
  - intros r'. destruct (decide (next = base + 1)) as [->|].
    + rewrite lookup_insert_eq. intros [= <-]. destruct L5 as [[_ ->]|(r' & Hr' & _)]; [done|].
      assert (base < base + 1 - 1 < base + 1) by (apply L2; by rewrite Hr'). lia.
    + rewrite lookup_insert_ne by done. apply L3.
  - intros v r1 r2. destruct (decide (v + 1 = next)) as [<-|].
    + rewrite lookup_insert_eq, lookup_insert_ne by lia. intros Hr1 [= <-]. destruct L5 as [[Hb _]|(r' & Hr' & Hh)].
      * assert (base < v < v + 1) by (apply L2; by rewrite Hr1). lia.
      * replace (v + 1 - 1) with v in Hr' by lia. congruence.
    + rewrite (lookup_insert_ne _ _ (v + 1)) by done. destruct (decide (v = next)) as [->|]; [by rewrite Hn'|].
      rewrite lookup_insert_ne by done. apply L4.
  - right. exists r. replace (next + 1 - 1) with next by lia. by rewrite lookup_insert_eq.
Qed.

Lemma absorb_linked sid base base_head target records m view h view' h' :
  absorb_loop sid target view h records = inl (view', h') -> target < u64_max -> 0 <= base -> view <= target + 1 ->
  linked sid base base_head m view h ->
  linked sid base base_head (foldl (fun m r => <[ sq_view r := r ]> m) m records) view' h' /\ view' <= target + 1 /\
  (records <> [] -> view < view').
Proof.
  intros Ha Ht Hb. revert m view h Ha. induction records as [|r records IH]; intros m view h Ha Hle Hl; cbn in *.
  { injection Ha as <- <-. done. }
  destruct (negb (sq_version r =? _)); [done|]. destruct (Z.ltb_spec target view); [done|].
  destruct (Z.eqb_spec (sq_view r) view) as [Hv|]; [|done]. cbn [negb] in Ha.
  destruct (Z.eqb_spec (sq_previous_head r) h) as [Hh|]; [|done]. cbn [negb] in Ha.
  pose proof (ln_next _ _ _ _ _ _ Hl).
  assert (u64_add view 1 = view + 1) as Hadd by (unfold u64_add, u64_max in *; apply Z.mod_small; lia). rewrite Hadd in Ha.
  destruct (IH (<[ sq_view r := r ]> m) _ _ Ha) as (H1 & H2 & H3); [lia|rewrite Hv; by apply (linked_snoc _ _ _ _ _ h)|].
  split_and!; [done|done|]. intros _. destruct records as [|r' records]; [cbn in Ha; injection Ha as <- _; lia|].
  specialize (H3 ltac:(done)). lia.
Qed.

(** A linked chain that ends in the head of a store is the store's. *)
Lemma linked_store s base base_head m target :
  store_ok s -> sequence_binding (ss_sid s) -> linked (ss_sid s) base base_head m (target + 1) (head_at s target) ->
  0 <= base < target -> target < ss_next_view s -> forall v, base < v <= target -> m !! v = ss_records s !! v.
Proof.
  intros Hs Hb Hl Hbt Htn v.
  assert (forall n v, v = target - Z.of_nat n -> base < v <= target -> m !! v = ss_records s !! v) as Hall; [|intros Hv].
  2: { apply (Hall (Z.to_nat (target - v)) v); [lia|done]. }
  induction n as [|n IH]; clear v; intros v Hv Hr.
  - assert (v = target) as -> by lia. destruct (ln_head _ _ _ _ _ _ Hl) as [[? _]|(r & Hm & Hh)]; [lia|].
    replace (target + 1 - 1) with target in Hm by lia. rewrite Hm. unfold head_at in Hh.
    destruct (so_views _ Hs target) as [_ H]. destruct H as [r' Hr']; [lia|]. rewrite Hr' in *. f_equal. symmetry. by apply (sb_record _ Hb).
  - destruct (ln_views _ _ _ _ _ _ Hl v) as [_ H]. destruct H as [r Hm]; [lia|].
    destruct (ln_views _ _ _ _ _ _ Hl (v + 1)) as [_ H]. destruct H as [r1 Hm1]; [lia|].
    pose proof (ln_link _ _ _ _ _ _ Hl v r r1 Hm Hm1) as Hlk. rewrite (IH (v + 1)) in Hm1 by lia.
    destruct (so_record _ Hs _ _ Hm1) as (o & d & _ & _ & ->). cbn in Hlk. replace (v + 1 - 1) with v in Hlk by lia.
    destruct (so_views _ Hs v) as [_ H]. destruct H as [r' Hr']; [lia|]. unfold head_at in Hlk. rewrite Hr' in Hlk.
    rewrite Hm, Hr'. f_equal. symmetry. by apply (sb_record _ Hb).
Qed.
End chain.
