(* ===== verification/SequenceRuns.v ===== *)
(** Downloads of a certified sequence: what a verified transfer holds.

    The target head is the head of some honest store at the target view; nothing is assumed of
    the sources.  The invariant [tinv] says that the records always form a chain from the base, that the
    bodies kept are the ones of the store once the chain is complete, and that the scan cursors
    have passed nothing that is missing. *)

From S2P Require Import Prelude Committee Types Fixtures Sequence SequenceChain.

(** The most digests a vector holds: its bytes fit in [isize]. *)
Definition vec_max : Z := 2 ^ 58.

Definition vec_fits (l : list Digest) : Prop := Z.of_nat (length l) < vec_max.

#[export] Instance vec_fits_dec l : Decision (vec_fits l).
Proof. unfold vec_fits. apply _. Defined.

(** A response that a machine can hold. *)
Definition response_fits (r : SequenceResponse) : Prop :=
  match r with
  | RespDelta c => vec_fits (dc_items c)
  | RespDeltaRange c => Forall (fun e => vec_fits (de_items e)) (gc_entries c)
  | _ => True
  end.

#[export] Instance response_fits_dec r : Decision (response_fits r).
Proof. destruct r; cbn; apply _. Defined.

Section runs.
Context {Hash : Hashing} {Codec : SequenceCodec}.
Context (s : SequenceStore) (B T : View) (Bh : Digest).
Context (Hs : store_ok s) (Hbind : sequence_binding (ss_sid s)) (HB : 0 <= B < T) (HT : T < ss_next_view s).
Context (Hfits : forall v d, ss_deltas s !! v = Some d -> vec_fits d).
Set Default Proof Using "Type Hs Hbind HB HT Hfits".

(** A verifier of the delta of a view of the store. *)
Definition dv_ok (v : View) (x : DeltaVerifier) : Prop :=
  dv_sid x = ss_sid s /\ dv_view x = v /\ B < v <= T /\
  (exists r, ss_records s !! v = Some r /\ dv_expected_len x = sq_delta_len r /\ dv_expected_head x = sq_delta_head r) /\
  dv_next_index x = Z.of_nat (length (dv_items x)) /\ dv_next_index x <= dv_expected_len x /\
  dv_running x = delta_fold (ss_sid s) v 0 (delta_seed (ss_sid s) v) (dv_items x).

(** The cursor is past views with record and body only. *)
Definition scanned {V} (have : gmap View V) (cursor : View) : Prop :=
  1 <= cursor <= T + 1 /\ forall v, 1 <= v < cursor -> is_Some (have !! v).

(** Every view that has to be fetched is there. *)
Definition all_in {V} (have : gmap View V) : Prop := forall v, B < v <= T -> is_Some (have !! v).

Record tinv (x : SequenceTransfer) : Prop := {
  ti_sid : tr_sid x = ss_sid s /\ cv_sid (tr_chain x) = ss_sid s;
  ti_view : tr_target_view x = T /\ cv_target_view (tr_chain x) = T;
  ti_target : tr_target_head x = head_at s T /\ cv_target_head (tr_chain x) = head_at s T;
  ti_link : linked (ss_sid s) B Bh (cv_verified (tr_chain x)) (cv_next_view (tr_chain x)) (cv_head (tr_chain x));
  ti_next : cv_next_view (tr_chain x) <= T + 1;
  ti_complete : if cv_complete (tr_chain x)
                then cv_next_view (tr_chain x) = T + 1 /\ cv_head (tr_chain x) = head_at s T /\ tr_state x <> FetchingRecords
                else tr_outcomes x = ∅ /\ tr_deltas x = ∅ /\ tr_delta_in_flight x = ∅ /\
                     (tr_state x = FetchingRecords \/ tr_state x = TrExhausted);
  ti_outcomes v o : tr_outcomes x !! v = Some o -> B < v <= T /\ ss_outcomes s !! v = Some o;
  ti_deltas v d : tr_deltas x !! v = Some d -> B < v <= T /\ ss_deltas s !! v = Some d;
  ti_flight v dv : tr_delta_in_flight x !! v = Some dv -> dv_ok v dv;
  ti_scan_outcomes : scanned (tr_outcomes x) (tr_outcome_scan_from x);
  ti_scan_deltas : scanned (tr_deltas x) (tr_delta_scan_from x);
  ti_fetch : tr_state x = FetchingDeltas -> all_in (tr_outcomes x);
  ti_verified : tr_state x = TrVerified -> all_in (tr_outcomes x) /\ all_in (tr_deltas x);
}.

Lemma target_max : T < u64_max.
Proof. pose proof (so_next _ Hs). lia. Qed.

(** The records of a complete chain are the store's. *)
Lemma verified_store x v r :
  tinv x -> cv_complete (tr_chain x) = true -> cv_verified (tr_chain x) !! v = Some r <-> B < v <= T /\ ss_records s !! v = Some r.
Proof.
  intros Hi Hc. pose proof (ti_complete _ Hi) as H. rewrite Hc in H. destruct H as (Hn & Hh & _).
  pose proof (ti_link _ Hi) as Hl. rewrite Hn, Hh in Hl.
  pose proof (linked_store s B Bh _ T Hs Hbind Hl HB HT) as Hall. split.
  - intros Hv. assert (B < v < T + 1) by (apply (ln_views _ _ _ _ _ _ Hl); by rewrite Hv). split; [lia|]. by rewrite <- Hall by lia.
  - intros [Hr Hv]. by rewrite Hall.
Qed.

Lemma verified_some x v : tinv x -> cv_complete (tr_chain x) = true -> is_Some (cv_verified (tr_chain x) !! v) <-> B < v <= T.
Proof.
  intros Hi Hc. split.
  - intros [r Hr]. by apply (verified_store x v r) in Hr as [? _].
  - intros Hv. destruct (so_views _ Hs v) as [_ H]. destruct H as [r Hr]; [lia|]. exists r. by apply verified_store.
Qed.

(** ** Scanning for missing bodies *)

Lemma find_lacking_none {V} x (have : gmap View V) from v :
  find_lacking x have from = None -> from <= v <= tr_target_view x -> lacks x have v = false.
Proof.
  unfold find_lacking. rewrite fmap_None, list_find_None, Forall_forall. intros Hf Hv. apply not_true_is_false, Hf.
  apply elem_of_seqZ. lia.
Qed.

Lemma find_lacking_some {V} x (have : gmap View V) from v :
  find_lacking x have from = Some v -> from <= v <= tr_target_view x /\ lacks x have v = true.
Proof.
  unfold find_lacking. rewrite fmap_Some. intros ([i v'] & Hf & ->). cbn. apply list_find_Some in Hf as (Hi & Hl & _). split; [|done].
  apply list_elem_of_lookup_2, elem_of_seqZ in Hi. lia.
Qed.

Lemma lacks_true {V} x (have : gmap View V) v :
  lacks x have v = true <-> is_Some (cv_verified (tr_chain x) !! v) /\ have !! v = None.
Proof.
  unfold lacks. rewrite andb_true_iff, negb_true_iff, bool_decide_eq_true, bool_decide_eq_false, eq_None_not_Some. done.
Qed.

(** What the scan returns, and that its cursor stays sound. *)
Definition missing_spec {V} (x : SequenceTransfer) (have : gmap View V) (r : option View * View) : Prop :=
  scanned have r.2 /\
  match r.1 with
  | None => forall v, is_Some (cv_verified (tr_chain x) !! v) -> 1 <= v <= T -> is_Some (have !! v)
  | Some v => is_Some (cv_verified (tr_chain x) !! v) /\ have !! v = None /\ v <= T
  end.

Lemma scan_loop_spec {V} n x (have : gmap View V) cursor r :
  tr_target_view x = T -> scan_loop n x have cursor = r -> scanned have cursor -> scanned have r.2 /\
  match r.1 with Some v => v = r.2 /\ v <= T /\ is_Some (cv_verified (tr_chain x) !! v) /\ have !! v = None | None => True end.
Proof.
  intros HTv. revert cursor. induction n as [|n IH]; intros cursor Hr Hc; cbn in Hr; [by subst r|].
  rewrite HTv in Hr. destruct (Z.ltb_spec T cursor); [by subst r|].
  destruct (decide (is_Some (cv_verified (tr_chain x) !! cursor))) as [Hv|Hv];
    [rewrite (bool_decide_eq_true_2 _ Hv) in Hr|rewrite (bool_decide_eq_false_2 _ Hv) in Hr; by subst r].
  destruct (decide (is_Some (have !! cursor))) as [Hh|Hh];
    [rewrite (bool_decide_eq_true_2 _ Hh) in Hr|rewrite (bool_decide_eq_false_2 _ Hh) in Hr; subst r; cbn in *].
  2: { split_and!; [done|done|done|done|by apply eq_None_not_Some]. }
  cbn [negb] in Hr. pose proof target_max. destruct Hc as [Hc1 Hc2].
  rewrite u64_add_small in Hr by lia. apply (IH _ Hr). split; [lia|]. intros v Hv'.
  destruct (decide (v = cursor)) as [->|]; [done|]. apply Hc2. lia.
Qed.

Lemma first_missing_spec {V} x (have : gmap View V) cursor :
  tr_target_view x = T -> scanned have cursor -> missing_spec x have (first_missing x have cursor).
Proof.
  intros HTv Hc. unfold first_missing. destruct (scan_loop _ x have cursor) as [o c] eqn:Hl.
  destruct (scan_loop_spec _ x have cursor _ HTv Hl Hc) as [Hc' Ho]. cbn in Hc', Ho.
  destruct o as [v|]; split; cbn; [done| |done|].
  - destruct Ho as (-> & Hle & Hv & Hh). done.
  - destruct (find_lacking x have c) as [v|] eqn:Hf.
    + apply find_lacking_some in Hf as [Hle Hlk]. rewrite lacks_true in Hlk. destruct Hlk. split_and!; [done|done|lia].
    + intros v Hv Hle. destruct (decide (v < c)); [apply Hc'; lia|].
      destruct (have !! v) eqn:Hh; [by eexists|]. exfalso.
      assert (lacks x have v = false) as Hl' by (eapply find_lacking_none; [done|lia]).
      assert (lacks x have v = true) by (by apply lacks_true). congruence.
Qed.

(** ** Preservation *)

Ltac keep Hi := destruct Hi; split; cbn; try done.

Lemma scan_outcomes_inv x c : tinv x -> scanned (tr_outcomes x) c -> tinv (x <| tr_outcome_scan_from := c |>).
Proof. intros Hi Hc. keep Hi. Qed.

Lemma scan_deltas_inv x c : tinv x -> scanned (tr_deltas x) c -> tinv (x <| tr_delta_scan_from := c |>).
Proof. intros Hi Hc. keep Hi. Qed.

Lemma all_in_spec {V} x (have : gmap View V) r :
  tinv x -> cv_complete (tr_chain x) = true -> missing_spec x have r -> r.1 = None -> all_in have.
Proof. intros Hi Hc [_ Hm] Hr v Hv. rewrite Hr in Hm. apply Hm; [by apply verified_some|lia]. Qed.

Lemma all_in_missing {V} x (have : gmap View V) v c :
  tinv x -> cv_complete (tr_chain x) = true -> missing_spec x have (Some v, c) -> B < v <= T /\ have !! v = None /\ ~ all_in have.
Proof.
  intros Hi Hc [_ (Hv & Hn & _)]. cbn in Hv. rewrite (verified_some x v Hi Hc) in Hv. split_and!; [lia|lia|done|].
  intros Ha. destruct (Ha v Hv) as [? Hx]. cbn in Hn. congruence.
Qed.

Lemma first_missing_outcome_wp x (Q : option View -> list Empty_set -> SequenceTransfer -> Prop) :
  tinv x ->
  (forall o c, missing_spec x (tr_outcomes x) (o, c) -> tinv (x <| tr_outcome_scan_from := c |>) ->
     Q o [] (x <| tr_outcome_scan_from := c |>)) -> wp first_missing_outcome x Q.
Proof.
  intros Hi HQ. unfold first_missing_outcome. apply wp_bind, wp_get, wp_bind, wp_modify, wp_ret.
  pose proof (first_missing_spec x (tr_outcomes x) (tr_outcome_scan_from x) (proj1 (ti_view _ Hi)) (ti_scan_outcomes _ Hi)) as Hm.
  destruct (first_missing _ _ _) as [o c]. apply HQ; [done|]. by apply scan_outcomes_inv, Hm.
Qed.

Lemma first_missing_delta_wp x (Q : option View -> list Empty_set -> SequenceTransfer -> Prop) :
  tinv x ->
  (forall o c, missing_spec x (tr_deltas x) (o, c) -> tinv (x <| tr_delta_scan_from := c |>) ->
     Q o [] (x <| tr_delta_scan_from := c |>)) -> wp first_missing_delta x Q.
Proof.
  intros Hi HQ. unfold first_missing_delta. apply wp_bind, wp_get, wp_bind, wp_modify, wp_ret.
  pose proof (first_missing_spec x (tr_deltas x) (tr_delta_scan_from x) (proj1 (ti_view _ Hi)) (ti_scan_deltas _ Hi)) as Hm.
  destruct (first_missing _ _ _) as [o c]. apply HQ; [done|]. by apply scan_deltas_inv, Hm.
Qed.

(** [want] and [wants] only move the cursors. *)
Lemma want_inv x : tinv x -> tinv (st (want x)).
Proof.
  intros Hi. change (wp want x (fun _ _ x' => tinv x')). unfold want. apply wp_bind, wp_get.
  destruct (tr_state x); try (by apply wp_ret).
  - apply wp_bind, first_missing_outcome_wp; [done|]. intros o c _ Hi'. by apply wp_ret.
  - apply wp_bind, first_missing_delta_wp; [done|]. intros o c _ Hi'. by apply wp_ret.
Qed.

Lemma wants_inv max os ds x : tinv x -> tinv (st (wants max os ds x)).
Proof.
  intros Hi. change (wp (wants max os ds) x (fun _ _ x' => tinv x')). unfold wants. apply wp_bind, wp_get.
  destruct (tr_state x).
  1, 4, 5: apply wp_bind; by apply want_inv.
  - apply wp_bind, first_missing_outcome_wp; [done|]. intros o c _ Hi'. by apply wp_ret.
  - apply wp_bind, first_missing_delta_wp; [done|]. intros o c _ Hi'. by apply wp_ret.
Qed.

(** ** Sources *)

(** Same but for the sources, the penalties and, if there are no sources left, the state. *)
Lemma exhausted_inv x : tinv x -> tinv (x <| tr_state := TrExhausted |>).
Proof. intros Hi. keep Hi. destruct (cv_complete _); naive_solver. Qed.

Lemma sources_inv x l : tinv x -> tinv (x <| tr_sources := l |>).
Proof. intros Hi. keep Hi. Qed.

Lemma cursor_inv x c : tinv x -> tinv (x <| tr_cursor := c |>).
Proof. intros Hi. keep Hi. Qed.

Lemma invalid_inv x f : tinv x -> tinv (x <| tr_invalid ::= f |>).
Proof. intros Hi. keep Hi. Qed.

Lemma drop_source_inv from x : tinv x -> tinv (st (drop_source from x)) /\ tr_chain (st (drop_source from x)) = tr_chain x.
Proof.
  intros Hi. unfold drop_source. cbn [st modify]. set (x' := match _ with Some _ => _ | None => x end).
  assert (tinv x' /\ tr_chain x' = tr_chain x) as [Hx Hc].
  { unfold x'. destruct (list_find _ _) as [[i k]|]; [|done]. split; [|done]. by apply cursor_inv, sources_inv. }
  destruct (decide (tr_sources x' = [])); split; [by apply exhausted_inv|done|by apply cursor_inv|done].
Qed.

Lemma penalize_inv from x : tinv x -> tinv (st (penalize from x)) /\ tr_chain (st (penalize from x)) = tr_chain x.
Proof.
  intros Hi. change (wp (penalize from) x (fun _ _ x' => tinv x' /\ tr_chain x' = tr_chain x)). unfold penalize.
  apply wp_bind, wp_get, wp_bind, wp_modify. unfold when. destruct (_ <=? _); [|apply wp_skip; split; [by apply invalid_inv|done]].
  unfold wp. edestruct (drop_source_inv from) as [H1 H2]; [by apply invalid_inv|]. split; [exact H1|exact H2].
Qed.

Lemma rotate_inv x : tinv x -> tinv (st (rotate x)).
Proof. intros Hi. unfold rotate. cbn. destruct (decide _); [done|]. by apply cursor_inv. Qed.

Lemma to_verified_inv x :
  tinv x -> cv_complete (tr_chain x) = true -> all_in (tr_outcomes x) -> all_in (tr_deltas x) -> tinv (x <| tr_state := TrVerified |>).
Proof. intros Hi Hc H1 H2. keep Hi. cbn in *. rewrite Hc in *. naive_solver. Qed.

Lemma advance_if_done_inv x :
  tinv x -> tinv (st (advance_if_done x)) /\ tr_chain (st (advance_if_done x)) = tr_chain x.
Proof.
  intros Hi. change (wp advance_if_done x (fun _ _ x' => tinv x' /\ tr_chain x' = tr_chain x)). unfold advance_if_done.
  apply wp_bind, wp_get. destruct (cv_complete (tr_chain x)) eqn:Hc; [|by apply wp_skip]. cbn [negb].
  apply wp_bind, first_missing_outcome_wp; [done|]. intros o c Ho Hi1.
  destruct o as [v|]; [by apply wp_skip|]. cbn [bool_decide is_Some_dec].
  apply wp_bind, first_missing_delta_wp; [done|]. intros d c' Hd Hi2.
  destruct d as [v|]; [by apply wp_skip|]. apply wp_modify. split; [|done].
  assert (all_in (tr_outcomes x)) as H1 by exact (all_in_spec x _ _ Hi Hc Ho eq_refl).
  assert (all_in (tr_deltas x)) as H2 by exact (all_in_spec _ _ _ Hi1 Hc Hd eq_refl).
  by apply to_verified_inv.
Qed.

(** ** Responses *)

(** A chain that took records.  The state moves on together with the chain. *)
Lemma absorb_inv records x complete chain :
  tinv x -> tr_state x = FetchingRecords -> absorb_records records (tr_chain x) = (inl complete, chain) ->
  tinv (x <| tr_chain := chain |> <| tr_state := if complete then FetchingOutcomes else FetchingRecords |>) /\
  (records <> [] -> cv_next_view (tr_chain x) < cv_next_view chain) /\ cv_complete chain = complete.
Proof.
  intros Hi Hst Ha. unfold absorb_records in Ha.
  destruct (ti_sid _ Hi) as [_ Hsid]. destruct (ti_view _ Hi) as [_ Hview]. destruct (ti_target _ Hi) as [_ Htar].
  rewrite Hsid, Hview, Htar in Ha. destruct (absorb_loop _ _ _ _ _) as [[view h]|] eqn:Hl; [|done].
  pose proof target_max as HTm.
  destruct (absorb_linked _ B Bh _ _ _ _ _ _ _ Hl HTm ltac:(lia) (ti_next _ Hi) (ti_link _ Hi)) as (Hlk & Hle & Hlt).
  assert (cv_complete (tr_chain x) = false) as Hnc.
  { pose proof (ti_complete _ Hi) as H. destruct (cv_complete _); naive_solver. }
  pose proof (ti_complete _ Hi) as He. rewrite Hnc in He. destruct He as (E1 & E2 & E3 & _).
  destruct (Z.ltb_spec T view) as [Hr|Hr]; cbn [andb] in Ha.
  - destruct (Z.eqb_spec h (head_at s T)) as [->|]; [|done]. cbn in Ha. injection Ha as <- <-. split; [|done].
    assert (view = T + 1) as -> by lia. keep Hi.
  - injection Ha as <- <-. split; [|done]. keep Hi. naive_solver.
Qed.

Lemma on_records_inv chunk from x : tinv x -> tinv (st (on_records chunk from x)).
Proof.
  intros Hi. change (wp (on_records chunk from) x (fun _ _ x' => tinv x')). unfold on_records. apply wp_bind, wp_get.
  destruct (decide (tr_state x = FetchingRecords)) as [Hst|Hst];
    [rewrite (bool_decide_eq_true_2 _ Hst)|rewrite (bool_decide_eq_false_2 _ Hst); by apply wp_ret].
  cbn [negb orb]. destruct (accepts _ _ _ _); [|by apply wp_ret]. cbn [negb].
  destruct (decide (_ = [])) as [|Hne]; [by apply wp_ret|].
  destruct (absorb_records _ (tr_chain x)) as [[complete|e] chain] eqn:Ha.
  - destruct (absorb_inv _ _ _ _ Hi Hst Ha) as (Hi' & _ & _). apply wp_bind, wp_modify, wp_bind. unfold when.
    destruct complete; [|apply wp_skip, wp_ret; rewrite <- Hst in Hi'; by destruct x].
    apply wp_bind, wp_modify. by apply advance_if_done_inv.
  - assert (chain = tr_chain x) as ->.
    { unfold absorb_records in Ha. destruct (absorb_loop _ _ _ _ _) as [[]|]; [|by injection Ha]. destruct (_ && _); [by injection Ha|done]. }
    apply wp_bind, wp_modify, wp_bind. apply penalize_inv. by destruct x.
Qed.

(** The outcome of a record of the store is the store's. *)
Lemma check_outcome_store x v o :
  tinv x -> cv_complete (tr_chain x) = true -> check_outcome v o (tr_chain x) = inl tt -> B < v <= T /\ ss_outcomes s !! v = Some o.
Proof.
  intros Hi Hc. unfold check_outcome. destruct (cv_verified _ !! v) as [r|] eqn:Hr; [|done].
  apply (verified_store x v r Hi Hc) in Hr as [Hv Hr]. destruct (so_record _ Hs _ _ Hr) as (o' & d & Ho & _ & ->).
  rewrite (proj2 (ti_sid _ Hi)). cbn. destruct (Z.eqb_spec (outcome_digest (ss_sid s) v o) (outcome_digest (ss_sid s) v o')) as [He|]; [|done].
  apply (sb_outcome _ Hbind) in He as ->. done.
Qed.

Lemma outcome_inv x v o :
  tinv x -> cv_complete (tr_chain x) = true -> B < v <= T -> ss_outcomes s !! v = Some o -> tinv (x <| tr_outcomes ::= <[ v := o ]> |>).
Proof.
  intros Hi Hc Hv Ho. assert (forall v', is_Some (tr_outcomes x !! v') -> is_Some (<[ v := o ]> (tr_outcomes x) !! v')) as Hk.
  { intros v' H. apply lookup_insert_is_Some. destruct (decide (v = v')); [by left|by right]. }
  destruct (ti_scan_outcomes _ Hi) as [Hsc1 Hsc2].
  keep Hi; unfold all_in, scanned in *.
  - rewrite Hc in *. naive_solver.
  - intros v' o'. destruct (decide (v = v')) as [<-|]; [rewrite lookup_insert_eq; by intros [= <-]|rewrite lookup_insert_ne by done; auto].
  - split; [done|]. auto.
  - intros E. auto.
  - intros E. destruct (ti_verified0 E). split; auto.
Qed.

Lemma absorb_outcomes_inv from entries x :
  tinv x -> cv_complete (tr_chain x) = true ->
  tinv (st (absorb_outcomes from entries x)) /\ tr_chain (st (absorb_outcomes from entries x)) = tr_chain x.
Proof.
  revert x. induction entries as [|[v o] entries IH]; intros x Hi Hc; [done|].
  change (wp (absorb_outcomes from (mkOutcomeEntry v o :: entries)) x (fun _ _ x' => tinv x' /\ tr_chain x' = tr_chain x)).
  cbn [absorb_outcomes]. apply wp_bind, wp_get. cbn [oe_view oe_outcome]. destruct (_ || _); [by apply IH|].
  destruct (check_outcome v o (tr_chain x)) as [[]|e] eqn:Ho.
  - apply wp_bind, wp_modify. apply (check_outcome_store x v o Hi Hc) in Ho as [Hv Ho].
    destruct (IH (x <| tr_outcomes ::= <[ v := o ]> |>)) as [H1 H2]; [by apply outcome_inv|done|]. split; [exact H1|exact H2].
  - apply wp_bind. by apply penalize_inv.
Qed.

Lemma state_complete x : tinv x -> tr_state x <> FetchingRecords -> tr_state x <> TrExhausted -> cv_complete (tr_chain x) = true.
Proof. intros Hi H1 H2. pose proof (ti_complete _ Hi) as H. destruct (cv_complete _); naive_solver. Qed.

(** All outcomes are there: on to the deltas. *)
Lemma to_deltas_inv x :
  tinv x -> cv_complete (tr_chain x) = true -> all_in (tr_outcomes x) -> tinv (x <| tr_state := FetchingDeltas |>).
Proof. intros Hi Hc Ha. keep Hi. rewrite Hc in *. naive_solver. Qed.

Lemma on_outcomes_inv serve from x : tinv x -> tinv (st (on_outcomes serve from x)).
Proof.
  intros Hi. change (wp (on_outcomes serve from) x (fun _ _ x' => tinv x')). unfold on_outcomes. apply wp_bind, wp_get.
  destruct (decide (tr_state x = FetchingOutcomes)) as [Hst|Hst];
    [rewrite (bool_decide_eq_true_2 _ Hst)|rewrite (bool_decide_eq_false_2 _ Hst); by apply wp_ret].
  cbn [negb orb]. destruct (accepts _ _ _ _); [|by apply wp_ret]. cbn [negb].
  assert (cv_complete (tr_chain x) = true) as Hc by (apply state_complete; [done|congruence..]).
  apply wp_bind. destruct (absorb_outcomes_inv from (os_outcomes serve) x Hi Hc) as [Hi' Hch].
  unfold wp at 1. set (r := absorb_outcomes _ _ x) in *. clearbody r. rewrite <- Hch in Hc. clear Hi Hch Hst x.
  destruct (val r) as [[]|e]; [|by apply wp_ret].
  apply wp_bind, first_missing_outcome_wp; [done|]. intros o c Ho Hi2.
  apply wp_bind. unfold when. destruct o as [v|]; cbn [bool_decide is_Some_dec negb]; [by apply wp_skip, wp_ret|].
  apply wp_bind, wp_modify. apply advance_if_done_inv. apply to_deltas_inv; [done|done|].
  exact (all_in_spec _ _ _ Hi' Hc Ho eq_refl).
Qed.

(** ** Deltas *)

Lemma delta_new_ok v r : B < v <= T -> ss_records s !! v = Some r -> dv_ok v (delta_new (ss_sid s) v r).
Proof.
  intros Hv Hr. destruct (so_record _ Hs _ _ Hr) as (o & d & _ & Hd & ->).
  unfold dv_ok, delta_new. cbn. split_and!; try done; [lia|lia|by eexists|].
  apply Z.mod_pos_bound. by unfold u64_modulus.
Qed.

Lemma delta_len v r d : ss_records s !! v = Some r -> ss_deltas s !! v = Some d -> sq_delta_len r = Z.of_nat (length d).
Proof.
  intros Hr Hd. destruct (so_record _ Hs _ _ Hr) as (o & d' & _ & Hd' & ->). assert (d' = d) as -> by congruence.
  cbn. apply Z.mod_small. pose proof (Hfits v d Hd) as H. unfold vec_fits, vec_max, u64_modulus in *. lia.
Qed.

Lemma delta_some v r : ss_records s !! v = Some r -> exists d, ss_deltas s !! v = Some d.
Proof. intros Hr. destruct (so_record _ Hs _ _ Hr) as (o & d & _ & Hd & _). by exists d. Qed.

(** A verifier stays one, and when it completes its items are the store's. *)
Lemma absorb_ok v i items x complete x' :
  dv_ok v x -> vec_fits items -> absorb i items x = (inl complete, x') ->
  dv_ok v x' /\ dv_items x' = dv_items x ++ items /\ i = dv_next_index x /\
  complete = (dv_next_index x' =? dv_expected_len x') /\ (complete = true -> ss_deltas s !! v = Some (dv_items x')).
Proof.
  intros (D1 & D2 & D3 & (r & Hr & D4 & D5) & D6 & D7 & D8) Hf Ha. unfold absorb in Ha.
  destruct (Z.eqb_spec i (dv_next_index x)) as [->|]; [|done]. cbn [negb] in Ha.
  destruct (delta_some v r Hr) as [d Hd]. pose proof (delta_len v r d Hr Hd) as Hlen. pose proof (Hfits v d Hd) as Hfd.
  unfold vec_fits, vec_max in Hf, Hfd.
  assert (dv_next_index x + Z.of_nat (length items) < u64_modulus) as Hsm by (unfold u64_modulus; lia).
  rewrite u64_add_small in Ha by (unfold u64_max, u64_modulus in *; lia).
  assert (index_after (dv_next_index x) items = Z.of_nat (length (dv_items x ++ items))) as Hix.
  { unfold index_after. rewrite Z.mod_small by lia. rewrite length_app. lia. }
  rewrite Hix, D1, D2 in Ha. destruct (Z.ltb_spec (dv_expected_len x) (dv_next_index x + Z.of_nat (length items))); [done|].
  assert (delta_fold (ss_sid s) v (dv_next_index x) (dv_running x) items =
          delta_fold (ss_sid s) v 0 (delta_seed (ss_sid s) v) (dv_items x ++ items)) as Hrun.
  { rewrite delta_fold_app by (unfold u64_modulus; lia). rewrite <- D8. unfold index_after. rewrite Z.add_0_l, Z.mod_small by lia. by rewrite <- D6. }
  rewrite Hrun in Ha.
  destruct (_ && _) eqn:Hb; [done|]. injection Ha as <- <-. cbn. split_and!; [|done|done|done|].
  - split_and!; cbn; try done; [lia|lia|by exists r|rewrite length_app in *; lia].
  - intros Hc. rewrite Hc in Hb. cbn in Hb. apply negb_false_iff, Z.eqb_eq in Hb. rewrite D5 in Hb. apply Z.eqb_eq in Hc.
    destruct (so_record _ Hs _ _ Hr) as (o & d' & _ & Hd' & Hr'). assert (d' = d) as -> by congruence. rewrite Hr' in Hb. cbn in Hb.
    rewrite Hd. f_equal. symmetry. apply (delta_fold_inj (ss_sid s) v 0 (delta_seed (ss_sid s) v)); [done|unfold u64_modulus; lia|lia|done].
Qed.

Lemma flight_inv x f :
  tinv x -> cv_complete (tr_chain x) = true -> (forall v dv, f (tr_delta_in_flight x) !! v = Some dv -> dv_ok v dv) ->
  tinv (x <| tr_delta_in_flight ::= f |>).
Proof. intros Hi Hc Hf. keep Hi. rewrite Hc in *. done. Qed.

Lemma delete_flight_inv x v : tinv x -> cv_complete (tr_chain x) = true -> tinv (x <| tr_delta_in_flight ::= delete v |>).
Proof.
  intros Hi Hc. apply flight_inv; [done|done|]. intros v' dv. destruct (decide (v = v')) as [<-|]; [by rewrite lookup_delete_eq|].
  rewrite lookup_delete_ne by done. apply (ti_flight _ Hi).
Qed.

Lemma insert_flight_inv x v dv :
  tinv x -> cv_complete (tr_chain x) = true -> dv_ok v dv -> tinv (x <| tr_delta_in_flight ::= <[ v := dv ]> |>).
Proof.
  intros Hi Hc Hd. apply flight_inv; [done|done|]. intros v' dv'. destruct (decide (v = v')) as [<-|].
  - rewrite lookup_insert_eq. by intros [= <-].
  - rewrite lookup_insert_ne by done. apply (ti_flight _ Hi).
Qed.

Lemma delta_inv x v d :
  tinv x -> cv_complete (tr_chain x) = true -> B < v <= T -> ss_deltas s !! v = Some d -> tinv (x <| tr_deltas ::= <[ v := d ]> |>).
Proof.
  intros Hi Hc Hv Ho. assert (forall v', is_Some (tr_deltas x !! v') -> is_Some (<[ v := d ]> (tr_deltas x) !! v')) as Hk.
  { intros v' H. apply lookup_insert_is_Some. destruct (decide (v = v')); [by left|by right]. }
  destruct (ti_scan_deltas _ Hi) as [Hsc1 Hsc2].
  keep Hi; unfold all_in, scanned in *.
  - rewrite Hc in *. naive_solver.
  - intros v' o'. destruct (decide (v = v')) as [<-|]; [rewrite lookup_insert_eq; by intros [= <-]|rewrite lookup_insert_ne by done; auto].
  - split; [done|]. auto.
  - intros E. destruct (ti_verified0 E). split; auto.
Qed.

Lemma on_delta_entry_inv entry from x :
  tinv x -> cv_complete (tr_chain x) = true -> vec_fits (de_items entry) ->
  tinv (st (on_delta_entry entry from x)) /\ tr_chain (st (on_delta_entry entry from x)) = tr_chain x.
Proof.
  intros Hi Hc Hf. change (wp (on_delta_entry entry from) x (fun _ _ x' => tinv x' /\ tr_chain x' = tr_chain x)).
  unfold on_delta_entry. apply wp_bind, wp_get. set (v := de_view entry).
  destruct (cv_verified (tr_chain x) !! v) as [r|] eqn:Hr; [|by apply wp_ret].
  apply (verified_store x v r Hi Hc) in Hr as [Hv Hr].
  destruct (bool_decide _); [by apply wp_ret|]. destruct (match tr_delta_in_flight x !! v with Some _ => _ | None => _ end); [by apply wp_ret|].
  rewrite (proj1 (ti_sid _ Hi)). set (dv := default _ _).
  assert (dv_ok v dv) as Hdv.
  { unfold dv. destruct (tr_delta_in_flight x !! v) eqn:Hfl; cbn; [by apply (ti_flight _ Hi)|by apply delta_new_ok]. }
  clearbody dv. destruct (absorb _ _ dv) as [[[]|e] dv'] eqn:Ha.
  - destruct (absorb_ok v _ _ _ _ _ Hdv Hf Ha) as (_ & _ & _ & _ & Hd).
    apply wp_bind, wp_modify, wp_bind.
    assert (tinv (x <| tr_delta_in_flight ::= delete v |> <| tr_deltas ::= <[ v := dv_items dv' ]> |>)) as Hi'.
    { apply delta_inv; [by apply delete_flight_inv|done|done|by apply Hd]. }
    destruct (advance_if_done_inv _ Hi') as [H1 H2]. split; [exact H1|exact H2].
  - destruct (absorb_ok v _ _ _ _ _ Hdv Hf Ha) as (Hdv' & _). apply wp_bind, wp_modify, wp_ret.
    split; [by apply insert_flight_inv|done].
  - apply wp_bind, wp_modify, wp_bind. destruct (penalize_inv from _ (delete_flight_inv x v Hi Hc)) as [H1 H2]. split; [exact H1|exact H2].
Qed.

Lemma absorb_deltas_inv from entries x :
  tinv x -> cv_complete (tr_chain x) = true -> Forall (fun e => vec_fits (de_items e)) entries -> tinv (st (absorb_deltas from entries x)).
Proof.
  intros Hi Hc Hf. revert x Hi Hc. induction Hf as [|e entries He Hf IH]; intros x Hi Hc; [done|].
  cbn [absorb_deltas]. destruct (on_delta_entry_inv e from x Hi Hc He) as [H1 H2]. rewrite st_bind.
  destruct (val (on_delta_entry e from x)); [|done]. apply IH; [done|]. by rewrite H2.
Qed.

Lemma on_delta_inv chunk from x : tinv x -> vec_fits (dc_items chunk) -> tinv (st (on_delta chunk from x)).
Proof.
  intros Hi Hf. change (wp (on_delta chunk from) x (fun _ _ x' => tinv x')). unfold on_delta. apply wp_bind, wp_get.
  destruct (decide (tr_state x = FetchingDeltas)) as [Hst|Hst];
    [rewrite (bool_decide_eq_true_2 _ Hst)|rewrite (bool_decide_eq_false_2 _ Hst); by apply wp_ret].
  cbn [negb orb]. destruct (accepts _ _ _ _); [|by apply wp_ret]. cbn [negb].
  apply on_delta_entry_inv; [done| |done]. apply state_complete; [done|congruence..].
Qed.

Lemma on_delta_range_inv chunk from x :
  tinv x -> Forall (fun e => vec_fits (de_items e)) (gc_entries chunk) -> tinv (st (on_delta_range chunk from x)).
Proof.
  intros Hi Hf. change (wp (on_delta_range chunk from) x (fun _ _ x' => tinv x')). unfold on_delta_range. apply wp_bind, wp_get.
  destruct (decide (tr_state x = FetchingDeltas)) as [Hst|Hst];
    [rewrite (bool_decide_eq_true_2 _ Hst)|rewrite (bool_decide_eq_false_2 _ Hst); by apply wp_ret].
  cbn [negb orb]. destruct (accepts _ _ _ _); [|by apply wp_ret]. cbn [negb].
  apply absorb_deltas_inv; [done| |done]. apply state_complete; [done|congruence..].
Qed.

Lemma on_unavailable_inv u from x : tinv x -> tinv (st (on_unavailable u from x)).
Proof.
  intros Hi. change (wp (on_unavailable u from) x (fun _ _ x' => tinv x')). unfold on_unavailable. apply wp_bind, wp_get.
  destruct (_ || _); [by apply wp_skip|]. by apply drop_source_inv.
Qed.

Lemma on_response_inv r from x : tinv x -> response_fits r -> tinv (st (on_response r from x)).
Proof.
  intros Hi Hf. destruct r; cbn in *; rewrite ?st_bind.
  - by apply on_records_inv.
  - by apply on_outcomes_inv.
  - by apply on_delta_inv.
  - by apply on_delta_range_inv.
  - by apply on_unavailable_inv.
Qed.

Lemma transfer_new_inv id sources : tinv (transfer_new (ss_sid s) id B Bh T (head_at s T) sources).
Proof.
  pose proof target_max. split; cbn; try done.
  - rewrite u64_add_small by lia. apply linked_new.
  - rewrite u64_add_small by lia. lia.
  - split_and!; [done..|]. destruct (decide _); auto.
  - split; [lia|]. lia.
  - split; [lia|]. lia.
  - by destruct (decide _).
  - by destruct (decide _).
Qed.
End runs.

(** ** Runs *)

(** What the node does with a transfer.  Responses come from anyone, with any content. *)
Inductive TransferStep :=
| TsResponse (r : SequenceResponse) (from : PublicKey)
| TsWants (max : nat) (outcome_span delta_span : View)
| TsRotate.

Section trace.
Context {Hash : Hashing} {Codec : SequenceCodec}.
Set Default Proof Using "Type".

Definition transfer_step (t : TransferStep) (x : SequenceTransfer) : SequenceTransfer :=
  match t with
  | TsResponse r from => st (on_response r from x)
  | TsWants max os ds => st (wants max os ds x)
  | TsRotate => st (rotate x)
  end.

Definition step_fits (t : TransferStep) : Prop :=
  match t with TsResponse r _ => response_fits r | _ => True end.

#[export] Instance step_fits_dec t : Decision (step_fits t).
Proof. destruct t; cbn; apply _. Defined.

Definition transfer_run (ts : list TransferStep) (x : SequenceTransfer) : SequenceTransfer :=
  foldl (fun x t => transfer_step t x) x ts.

(** A store whose deltas fit in memory. *)
Definition store_fits (s : SequenceStore) : Prop := map_Forall (fun _ d => vec_fits d) (ss_deltas s).

Lemma transfer_run_inv s B T Bh ts x :
  store_ok s -> sequence_binding (ss_sid s) -> 0 <= B < T -> T < ss_next_view s -> store_fits s ->
  Forall step_fits ts -> tinv s B T Bh x -> tinv s B T Bh (transfer_run ts x).
Proof.
  intros Hs Hb HB HT Hf Hts. revert x. induction Hts as [|t ts Ht _ IH]; intros x Hi; [done|]. cbn. apply IH.
  destruct t; cbn; [by apply on_response_inv|by apply wants_inv|by apply rotate_inv].
Qed.

(** What an honest store has for the views above [B] up to [T]. *)
Definition sequence_slice (s : SequenceStore) (B T : View) : list (View * SequenceOutcome * list Digest) :=
  omap (fun v => o ← ss_outcomes s !! v; d ← ss_deltas s !! v; Some (v, o, d)) (seqZ (B + 1) (T - B)).

Lemma omap_some_fmap {A C} (f : A -> option C) (g : A -> C) (l : list A) :
  (forall a, a ∈ l -> f a = Some (g a)) -> omap f l = g <$> l.
Proof.
  induction l as [|a l IH]; intros Hf; [done|]. cbn. rewrite Hf by left. f_equal. apply IH. intros b Hb. apply Hf. by right.
Qed.

Lemma omap_nil_iff {A C} (f : A -> option C) (l : list A) : omap f l = [] <-> Forall (fun a => f a = None) l.
Proof.
  induction l as [|a l IH]; cbn; [by split; [constructor|]|]. rewrite Forall_cons, <- IH. destruct (f a); naive_solver.
Qed.

Lemma omap_fmap_ext {A C D} (f : A -> option D) (g : C -> option D) (h : A -> C) (l : list A) :
  (forall a, a ∈ l -> f a = g (h a)) -> omap f l = omap g (h <$> l).
Proof.
  induction l as [|a l IH]; intros Hf; [done|]. cbn. rewrite Hf by left. rewrite IH; [done|]. intros b Hb. apply Hf. by right.
Qed.

Lemma verified_output_slice s B T Bh x :
  tinv s B T Bh x -> tr_state x = TrVerified -> verified_output x = Some (sequence_slice s B T).
Proof.
  intros Hi Hv. destruct (ti_verified _ _ _ _ _ Hi Hv) as [Ho Hd]. unfold verified_output, sequence_slice. rewrite decide_True by done.
  f_equal. rewrite <- (map_iter_interval (tr_outcomes x) (B + 1) (T - B)).
  - apply omap_fmap_ext. intros [v o] Hin%elem_of_map_iter. cbn.
    destruct (ti_outcomes _ _ _ _ _ Hi v o Hin) as [Hr Ho']. destruct (Hd v Hr) as [d Hd'].
    destruct (ti_deltas _ _ _ _ _ Hi v d Hd') as [_ Hd'']. rewrite Ho', Hd', Hd''. done.
  - intros v. split; [|intros ?; apply Ho; lia]. intros [o Hin]. apply (ti_outcomes _ _ _ _ _ Hi) in Hin as [? _]. lia.
Qed.

Lemma verified_heads_slice s B T Bh x :
  store_ok s -> sequence_binding (ss_sid s) -> 0 <= B < T -> T < ss_next_view s -> store_fits s ->
  tinv s B T Bh x -> tr_state x = TrVerified -> verified_heads x = Some ((fun v => (v, head_at s v)) <$> seqZ (B + 1) (T - B)).
Proof.
  intros Hs Hb HB HT Hf Hi Hv. unfold verified_heads. rewrite decide_True by done. f_equal.
  assert (cv_complete (tr_chain x) = true) as Hc by (eapply state_complete; [done..|congruence|congruence]).
  rewrite (proj1 (ti_view _ _ _ _ _ Hi)), (proj1 (ti_sid _ _ _ _ _ Hi)).
  assert (seqZ 1 T = seqZ 1 B ++ seqZ (B + 1) (T - B)) as ->.
  { replace T with (B + (T - B)) at 1 by lia. rewrite seqZ_app by lia. by rewrite Z.add_comm. }
  rewrite omap_app. rewrite (proj2 (omap_nil_iff _ (seqZ 1 B))).
  - cbn. apply omap_some_fmap. intros v Hin%elem_of_seqZ.
    destruct (so_views _ Hs v) as [_ H]. destruct H as [r Hr]; [lia|].
    rewrite (proj2 (verified_store s B T Bh Hs Hb HB HT Hf x v r Hi Hc)) by (split; [lia|done]). cbn. unfold head_at. by rewrite Hr.
  - apply Forall_forall. intros v Hin%elem_of_seqZ.
    destruct (cv_verified (tr_chain x) !! v) as [r|] eqn:Hr; [|done].
    apply (verified_store s B T Bh Hs Hb HB HT Hf x v r Hi Hc) in Hr as [? _]. lia.
Qed.

Lemma slice_views s B T :
  store_ok s -> 0 <= B < T -> T < ss_next_view s -> (sequence_slice s B T).*1.*1 = seqZ (B + 1) (T - B).
Proof.
  intros Hs HB HT. unfold sequence_slice.
  assert (forall v, v ∈ seqZ (B + 1) (T - B) -> is_Some (ss_outcomes s !! v) /\ is_Some (ss_deltas s !! v)) as Hv.
  { intros v Hin%elem_of_seqZ. destruct (so_views _ Hs v) as [_ H]. destruct H as [r Hr]; [lia|].
    destruct (so_record _ Hs _ _ Hr) as (o & d & -> & -> & _). by split; eexists. }
  induction (seqZ (B + 1) (T - B)) as [|v l IH]; [done|]. cbn. destruct (Hv v) as [[o ->] [d ->]]; [by left|]. cbn. f_equal.
  apply IH. intros v' Hv'. apply Hv. by right.
Qed.
End trace.

(** C3: A download trusts nobody.  Whatever the sources send, in any order, a transfer that reaches the state [Verified] for a target
    head that is the head of an honest store holds exactly the store's views above its base up to
    the target, in order, with the store's outcomes and output deltas, and their heads. *)
Theorem verified_download {Hash : Hashing} {Codec : SequenceCodec} s sid interval id B Bh T sources ts x :
  store_reaches sid interval s -> sequence_binding sid -> store_fits s -> 0 <= B < T -> T < ss_next_view s -> Forall step_fits ts ->
  x = transfer_run ts (transfer_new sid id B Bh T (head_at s T) sources) -> tr_state x = TrVerified ->
  verified_output x = Some (sequence_slice s B T) /\ (sequence_slice s B T).*1.*1 = seqZ (B + 1) (T - B) /\
  verified_heads x = Some ((fun v => (v, head_at s v)) <$> seqZ (B + 1) (T - B)).
Proof.
  intros Hr Hb Hf HB HT Hts Hx Hv. apply store_reaches_ok in Hr as [Hs <-].
  assert (tinv s B T Bh x) as Hi by (rewrite Hx; apply transfer_run_inv; [done..|by apply transfer_new_inv]).
  split_and!; [by apply (verified_output_slice s B T Bh)|by apply slice_views|by apply (verified_heads_slice s B T Bh)].
Qed.

(** ** A run *)

Definition outcome_code (o : SequenceOutcome) : (Manifest * Manifest) + Manifest + () :=
  match o with SeqFull c t => inl (inl (c, t)) | SeqCore c => inl (inr c) | SeqSkip => inr tt end.
Definition outcome_decode (x : (Manifest * Manifest) + Manifest + ()) : SequenceOutcome :=
  match x with inl (inl (c, t)) => SeqFull c t | inl (inr c) => SeqCore c | inr _ => SeqSkip end.

#[export] Instance SequenceOutcome_countable : Countable SequenceOutcome.
Proof. apply (inj_countable' outcome_code outcome_decode). by intros []. Defined.

(** [bincode] as an injective code. *)
Definition coded_sequence : SequenceCodec := {|
  digest_array := fun d => [d];
  bincode_outcome := fun v o => [v; Z.pos (encode o)];
  bincode_index := fun v i => [v; i];
  bincode_record := fun r => [sq_version r; sq_view r; sq_previous_head r; sq_outcome_digest r; sq_delta_len r; sq_delta_head r];
|}.

(** With an injective hash nothing collides. *)
Lemma coded_binding_of {Hash : Hashing} sid : Inj (=) (=) blake3 -> @sequence_binding Hash coded_sequence sid.
Proof.
  intros Hinj. assert (forall tag l l', domain_hash tag sid l = domain_hash tag sid l' -> l = l') as Hd.
  { intros tag l l' He. apply Hinj in He. by simplify_eq. }
  split.
  - intros [] [] He%Hd. cbn in He. by simplify_eq.
  - intros v o o' He%Hd. cbn in He. by simplify_eq.
  - intros v i h h' a a' He%Hd. cbn in He. by simplify_eq.
Qed.

Lemma coded_binding sid : @sequence_binding coded_hashing coded_sequence sid.
Proof. apply coded_binding_of. intros l l' He. cbn [blake3 coded_hashing] in He. by simplify_eq. Qed.

#[local] Existing Instance coded_hashing.
#[local] Existing Instance coded_sequence.

(** Two finalised views: one with two digests and a skip. *)
Definition store2 : SequenceStore := (ss_record 2 SeqSkip [] (ss_record 1 (SeqCore []) [5; 6] (store_new 7 2)).2).2.

Definition caps8 : ServeCaps := mkServeCaps 8 8 8 8.
Definition target2 : Digest := head_at store2 2.

(** Source 20 is honest; source 10 sends a wrong outcome and then a wrong delta. *)
Definition steps2 : list TransferStep :=
  [TsWants 2 8 8;
   TsResponse (serve_sequence_records store2 caps8 20 (mkSequenceRequest 1 1 2 target2 1 8 30)) 20;
   TsResponse (RespOutcome (mkOutcomeServe 1 1 target2 [mkOutcomeEntry 1 SeqSkip] 10)) 10;
   TsRotate;
   TsResponse (serve_sequence_outcome store2 caps8 20 (mkOutcomeRequest 1 1 target2 2 1 8 8 30)) 20;
   TsResponse (RespDelta (mkDeltaChunk 1 1 target2 1 0 [9; 9] true 10)) 10;
   TsResponse (serve_sequence_delta_range store2 caps8 20 (mkDeltaRangeRequest 1 1 target2 2 1 0 8 8 30)) 20].

Lemma store2_reaches : store_reaches 7 2 store2.
Proof. unfold store2. repeat (apply sr_record; [|done]). apply sr_new. Qed.

Lemma store2_fits : store_fits store2.
Proof. unfold store_fits. refine (bool_decide_unpack _ _). vm_compute. exact I. Qed.

Lemma steps2_fits : Forall step_fits steps2.
Proof. refine (bool_decide_unpack _ _). vm_compute. exact I. Qed.

Definition run2 : SequenceTransfer := transfer_run steps2 (transfer_new 7 1 0 (genesis_head 7) 2 (head_at store2 2) [10; 20]).

Lemma run2_verified : tr_state run2 = TrVerified.
Proof. vm_compute. reflexivity. Qed.

Lemma slice2 : sequence_slice store2 0 2 = [(1, SeqCore [], [5; 6]); (2, SeqSkip, [])].
Proof. vm_compute. reflexivity. Qed.

Lemma next2 : 2 < ss_next_view store2.
Proof. vm_compute. reflexivity. Qed.

Lemma run2_sources : tr_sources run2 = [20].
Proof. vm_compute. reflexivity. Qed.

Lemma verified_download_witness :
  tr_state run2 = TrVerified /\ tr_sources run2 = [20] /\
  verified_output run2 = Some [(1, SeqCore [], [5; 6]); (2, SeqSkip, [])].
Proof.
  pose proof (verified_download store2 7 2 1 0 (genesis_head 7) 2 [10; 20] steps2 run2) as H.
  specialize (H store2_reaches (coded_binding 7) store2_fits (conj (Z.le_refl 0) eq_refl) next2 steps2_fits).
  specialize (H eq_refl). specialize (H run2_verified).
  rewrite slice2 in H. exact (conj run2_verified (conj run2_sources (proj1 H))).
Defined.
