(* ===== verification/SequenceFetch.v ===== *)
(** Downloads of a certified sequence: they complete.

    The node's requests ([emit_sequence_requests] of [src/primary/src/vantage/node.rs]) against peers that
    serve one honest store: no response is ever rejected, no source is lost, and every answer to
    the current request brings the transfer closer to the state [Verified]. *)

From S2P Require Import Prelude Committee Types Fixtures Sequence SequenceChain SequenceRuns.

(** ** Requests *)

Definition SEQUENCE_DELTA_RANGE_VIEWS : nat := 256.

(** [n as u32]. *)
Definition as_u32 (n : nat) : nat := Z.to_nat (Z.of_nat n mod u32_modulus).

(** The requests a node sends for a download. *)
Inductive SequenceQuery :=
| QueryRecords (q : SequenceRequest)
| QueryOutcomes (q : SequenceOutcomeRequest)
| QueryDeltaRange (q : SequenceDeltaRangeRequest).

(** The message for a want. *)
Definition query_for (caps : ServeCaps) (me : PublicKey) (x : SequenceTransfer) (w : SequenceWant) : SequenceQuery :=
  match w with
  | WantRecords from_view =>
      QueryRecords (mkSequenceRequest SEQUENCE_VERSION (tr_transfer_id x) (tr_target_view x) (tr_target_head x) from_view
        (as_u32 (chunk_records caps)) me)
  | WantOutcomes from_view =>
      QueryOutcomes (mkOutcomeRequest SEQUENCE_VERSION (tr_transfer_id x) (tr_target_head x) (tr_target_view x) from_view
        (as_u32 (chunk_outcomes caps)) (chunk_outcome_items caps mod u32_modulus) me)
  | WantDeltas from_view start_index =>
      QueryDeltaRange (mkDeltaRangeRequest SEQUENCE_VERSION (tr_transfer_id x) (tr_target_head x) (tr_target_view x) from_view
        (Z.to_nat start_index) SEQUENCE_DELTA_RANGE_VIEWS (as_u32 (chunk_digests caps)) me)
  end.

(** The messages, in the order of the sources; [slot] counts them. *)
Fixpoint spread (caps : ServeCaps) (me : PublicKey) (x : SequenceTransfer) (ws : list SequenceWant) (nearest : SequenceWant)
    (slot : nat) (sources : list PublicKey) : list (PublicKey * SequenceQuery) :=
  match sources with
  | [] => []
  | peer :: sources => (peer, query_for caps me x (default nearest (ws !! slot))) :: spread caps me x ws nearest (S slot) sources
  end.

Definition emit_sequence_requests (caps : ServeCaps) (me : PublicKey) (max_sources : nat)
    : M Empty_set SequenceTransfer (list (PublicKey * SequenceQuery)) :=
  x ← get;
  ws ← wants max_sources (Z.of_nat (chunk_outcomes caps)) (Z.of_nat SEQUENCE_DELTA_RANGE_VIEWS);
  match ws with
  | [] => mret []
  | nearest :: _ => mret (spread caps me x ws nearest 0 (next_sources x max_sources))
  end.

(** A peer that serves its store. *)
Definition serve (s : SequenceStore) (caps : ServeCaps) (name : PublicKey) (q : SequenceQuery) : SequenceResponse :=
  match q with
  | QueryRecords q => serve_sequence_records s caps name q
  | QueryOutcomes q => serve_sequence_outcome s caps name q
  | QueryDeltaRange q => serve_sequence_delta_range s caps name q
  end.

(** A run: rounds of requests with all their answers, late copies of answers to any earlier message,
    and the rotation after a timeout. *)
Inductive FetchEvent := FtRound (max_sources : nat) | FtLate (k : nat) | FtRotate.

Section fetch_run.
Context {Hash : Hashing} {Codec : SequenceCodec}.
Context (s : SequenceStore) (caps : ServeCaps) (peer_caps : PublicKey -> ServeCaps) (me : PublicKey).

Definition deliver (m : PublicKey * SequenceQuery) (x : SequenceTransfer) : SequenceTransfer :=
  st (on_response (serve s (peer_caps m.1) m.1 m.2) m.1 x).

(** The transfer and all messages sent so far. *)
Definition fetch_step (ev : FetchEvent) (c : SequenceTransfer * list (PublicKey * SequenceQuery))
    : SequenceTransfer * list (PublicKey * SequenceQuery) :=
  match ev with
  | FtRound max =>
      let r := emit_sequence_requests caps me max c.1 in (foldl (fun x m => deliver m x) (st r) (val r), c.2 ++ val r)
  | FtLate k => (match c.2 !! k with Some m => deliver m c.1 | None => c.1 end, c.2)
  | FtRotate => (st (rotate c.1), c.2)
  end.

Definition fetch_run (evs : list FetchEvent) (x : SequenceTransfer) : SequenceTransfer * list (PublicKey * SequenceQuery) :=
  foldl (fun c ev => fetch_step ev c) (x, []) evs.
End fetch_run.

Definition is_round (ev : FetchEvent) : bool := match ev with FtRound _ => true | _ => false end.
Definition rounds (evs : list FetchEvent) : nat := length (filter (fun ev => is_round ev = true) evs).

Lemma rounds_cons ev evs : rounds (ev :: evs) = ((if is_round ev then 1 else 0) + rounds evs)%nat.
Proof. unfold rounds. rewrite filter_cons. destruct (is_round ev); [by rewrite decide_True|by rewrite decide_False]. Qed.

(** Rounds that are enough: per view a record, an outcome, the digests of the delta and its end. *)
Definition download_size (s : SequenceStore) (B T : View) : nat :=
  sum_list_with (fun v => 3 + length (default [] (ss_deltas s !! v)))%nat (seqZ (B + 1) (T - B)).

(** ** What an honest store serves *)

Section served.
Context {Hash : Hashing} {Codec : SequenceCodec}.
Context (s : SequenceStore) (Hs : store_ok s).
Set Default Proof Using "Type Hs".

(** Records of the store from view [v] on. *)
Fixpoint consec (v : View) (l : list SequenceRecord) : Prop :=
  match l with
  | [] => True
  | r :: l => ss_records s !! v = Some r /\ consec (v + 1) l
  end.

Lemma record_view v r : ss_records s !! v = Some r -> sq_view r = v /\ sq_version r = SEQUENCE_VERSION /\ sq_previous_head r = head_at s (v - 1) /\ 1 <= v < u64_max.
Proof.
  intros Hr. assert (1 <= v < ss_next_view s) by (apply (so_views _ Hs); by rewrite Hr). pose proof (so_next _ Hs).
  destruct (so_record _ Hs _ _ Hr) as (o & d & _ & _ & ->). cbn. split_and!; [done|done|done|lia|lia].
Qed.

Lemma records_from_consec max : forall v, consec v (records_from s v max).
Proof.
  induction max as [|max IH]; intros v; cbn; [done|]. destruct (ss_records s !! v) as [r|] eqn:Hr; [|done]. split; [done|].
  apply record_view in Hr as (_ & _ & _ & ?). rewrite u64_add_small by lia. apply IH.
Qed.

Lemma records_from_nonempty v max : 1 <= v < ss_next_view s -> (1 <= max)%nat -> records_from s v max <> [].
Proof.
  intros Hv Hm. destruct max; [lia|]. cbn. destruct (so_views _ Hs v) as [_ H]. destruct H as [r ->]; [done|]. done.
Qed.

Lemma consec_view v l r : consec v l -> r ∈ l -> v <= sq_view r.
Proof.
  revert v. induction l as [|r' l IH]; intros v Hc Hr; [by apply elem_of_nil in Hr|]. destruct Hc as [Hv Hc].
  apply elem_of_cons in Hr as [->|Hr]; [by apply record_view in Hv as [-> _]|]. specialize (IH _ Hc Hr). lia.
Qed.

(** The part of a chunk the transfer looks at. *)
Lemma consec_filter v l a b :
  consec v l -> v <= a -> consec a (filter (fun r => a <= sq_view r <= b) l).
Proof.
  assert (forall v l a, consec v l -> a <= v -> consec v (filter (fun r => a <= sq_view r <= b) l)) as Hup.
  { clear v l a. intros v l a. revert v. induction l as [|r l IH]; intros v Hc Ha; [done|]. destruct Hc as [Hr Hc].
    destruct (record_view _ _ Hr) as [Hv _]. rewrite filter_cons. destruct (decide _) as [Hd|Hd]; [split; [done|apply IH; [done|lia]]|].
    assert (filter (fun r => a <= sq_view r <= b) l = []) as ->; [|done].
    destruct (filter _ l) as [|r' l'] eqn:Hf; [done|]. exfalso. assert (r' ∈ filter (fun r => a <= sq_view r <= b) l) as Hin by (rewrite Hf; left).
    apply list_elem_of_filter in Hin as [Hb Hin]. pose proof (consec_view _ _ _ Hc Hin). lia. }
  revert v. induction l as [|r l IH]; intros v Hc Ha; [done|]. destruct (decide (v = a)) as [->|]; [by apply Hup|].
  destruct Hc as [Hr Hc]. destruct (record_view _ _ Hr) as [Hv _]. rewrite filter_cons, decide_False by lia. apply (IH (v + 1)); [done|lia].
Qed.

(** The chain takes such records. *)
Lemma absorb_consec T v l :
  consec v l -> Forall (fun r => sq_view r <= T) l ->
  absorb_loop (ss_sid s) T v (head_at s (v - 1)) l = inl (v + Z.of_nat (length l), head_at s (v + Z.of_nat (length l) - 1)).
Proof.
  intros Hc Hf. revert v Hc. induction Hf as [|r l Hr Hf IH]; intros v Hc; cbn [absorb_loop length]; [by rewrite Z.add_0_r|].
  destruct Hc as [Hrec Hc]. destruct (record_view _ _ Hrec) as (Hv & Hver & Hprev & Hb).
  rewrite Hver, Z.eqb_refl. cbn [negb]. destruct (Z.ltb_spec T v); [lia|]. rewrite Hv, Z.eqb_refl, Hprev, Z.eqb_refl. cbn [negb].
  rewrite u64_add_small by lia. assert (record_head (ss_sid s) r = head_at s (v + 1 - 1)) as ->.
  { replace (v + 1 - 1) with v by lia. unfold head_at. by rewrite Hrec. }
  rewrite IH by done. do 2 f_equal; [|f_equal]; lia.
Qed.

(** Outcomes of the store. *)
Definition honest_outcome (e : SequenceOutcomeEntry) : Prop := ss_outcomes s !! oe_view e = Some (oe_outcome e).

Lemma outcomes_loop_honest n : forall v through remaining first, Forall honest_outcome (outcomes_loop s v through n remaining first).
Proof.
  induction n as [|n IH]; intros v through remaining first; cbn; [constructor|]. destruct (negb _); [constructor|].
  destruct (ss_outcomes s !! v) as [o|] eqn:Ho; [|constructor]. destruct (_ && _); [constructor|]. constructor; [done|].
  destruct (v =? through); [constructor|apply IH].
Qed.

Lemma outcomes_from_first v through n items :
  1 <= v < ss_next_view s -> v <= through -> (1 <= n)%nat -> exists o l, outcomes_from s v through n items = mkOutcomeEntry v o :: l.
Proof.
  intros Hv Ht Hn. destruct n as [|n]; [lia|]. unfold outcomes_from. cbn. destruct (Z.leb_spec v through); [|lia]. cbn.
  destruct (so_views _ Hs v) as [_ Hsome]. destruct Hsome as [r Hr]; [done|]. destruct (so_record _ Hs _ _ Hr) as (o & d & -> & _ & _). by eexists _, _.
Qed.

Lemma take_length_take {A} k (l : list A) : take (length (take k l)) l = take k l.
Proof.
  rewrite length_take. destruct (decide (k <= length l)%nat); [by rewrite Nat.min_l|]. rewrite Nat.min_r by lia. by rewrite !take_ge by lia.
Qed.

(** Parts of the store's deltas. *)
Definition honest_delta (e : SequenceDeltaEntry) : Prop :=
  exists d, ss_deltas s !! de_view e = Some d /\ 0 <= de_start_index e /\
    de_items e = take (length (de_items e)) (drop (Z.to_nat (de_start_index e)) d).

Lemma delta_loop_honest n : forall v through start remaining,
  match delta_loop s v through start n remaining with
  | [] => True
  | e :: l => de_view e = v /\ de_start_index e = Z.of_nat start /\ honest_delta e /\
              Forall (fun e => honest_delta e /\ de_start_index e = 0) l
  end.
Proof.
  induction n as [|n IH]; intros v through start remaining; cbn [delta_loop]; [done|]. destruct (_ || _); [done|].
  destruct (ss_deltas s !! v) as [d|] eqn:Hd; [|done]. destruct (length d <? start)%nat; [done|]. cbn beta iota. split_and!; [done|done| |].
  - exists d. cbn. rewrite Nat2Z.id. split_and!; [done|lia|]. by rewrite take_length_take.
  - destruct (_ || _); [constructor|]. specialize (IH (u64_saturating_add v 1) through 0%nat
      (remaining - length (take (length d `min` (start + remaining) - start) (drop start d)))%nat).
    destruct (delta_loop _ _ _ _ _ _) as [|e l]; [constructor|]. destruct IH as (_ & H1 & H2 & H3). by constructor.
Qed.

Lemma delta_entries_honest v start through n items e l :
  delta_entries_from s v start through n items = e :: l -> honest_delta e /\ Forall (fun e => honest_delta e /\ de_start_index e = 0) l.
Proof. intros Hl. pose proof (delta_loop_honest n v through start items) as Hh. unfold delta_entries_from in Hl. rewrite Hl in Hh. tauto. Qed.

(** The first chunk of a range: it moves on, or the delta is over. *)
Lemma delta_first v start through n items d :
  ss_deltas s !! v = Some d -> v <= through -> (start <= length d)%nat -> (1 <= n)%nat -> (1 <= items)%nat ->
  exists l c es, delta_entries_from s v start through n items = mkDeltaEntry v (Z.of_nat start) l c :: es /\ (l <> [] \/ start = length d).
Proof.
  intros Hd Hv Hst Hn Hi. destruct n as [|n]; [lia|]. unfold delta_entries_from. cbn [delta_loop]. destruct (Z.leb_spec v through); [|lia].
  destruct (Nat.eqb_spec items 0); [lia|]. cbn [negb orb]. rewrite Hd. destruct (Nat.ltb_spec (length d) start); [lia|].
  eexists _, _, _. split; [done|]. destruct (decide (start = length d)); [by right|left].
  intros Hnil. apply (f_equal length) in Hnil. rewrite length_take, length_drop in Hnil. cbn in Hnil. lia.
Qed.
End served.

(** ** Progress *)

Section fetch.
Context {Hash : Hashing} {Codec : SequenceCodec}.
Context (s : SequenceStore) (B T : View) (src : list PublicKey) (id : Z).
Context (Hs : store_ok s) (Hbind : sequence_binding (ss_sid s)) (HB : 0 <= B < T) (HT : T < ss_next_view s).
Context (Hfits : forall v d, ss_deltas s !! v = Some d -> vec_fits d).
Context (Hskip : forall v, ss_outcomes s !! v = Some SeqSkip -> ss_deltas s !! v = Some []).
Set Default Proof Using "Type Hs Hbind HB HT Hfits Hskip".

(** How much of the delta of a view is there. *)
Definition progress (x : SequenceTransfer) (v : View) : Z :=
  match tr_deltas x !! v with
  | Some d => Z.of_nat (length d)
  | None => match tr_delta_in_flight x !! v with Some dv => dv_next_index dv | None => 0 end
  end.

Record hinv (x : SequenceTransfer) : Prop := {
  hi_t : tinv s B T (head_at s B) x;
  hi_chain v r : cv_verified (tr_chain x) !! v = Some r -> ss_records s !! v = Some r;
  hi_head : cv_head (tr_chain x) = head_at s (cv_next_view (tr_chain x) - 1);
  hi_flight v dv : tr_delta_in_flight x !! v = Some dv -> exists d, ss_deltas s !! v = Some d /\ dv_items dv = take (length (dv_items dv)) d;
  hi_const : tr_sources x = src /\ tr_transfer_id x = id /\ tr_invalid x = ∅;
  hi_state : match tr_state x with
             | FetchingRecords => cv_next_view (tr_chain x) <= T
             | FetchingOutcomes => ~ all_in B T (tr_outcomes x)
             | FetchingDeltas => ~ all_in B T (tr_deltas x)
             | TrVerified => True
             | TrExhausted => False
             end;
}.

(** Nothing gets lost. *)
Record grows (x x' : SequenceTransfer) : Prop := {
  gr_next : cv_next_view (tr_chain x) <= cv_next_view (tr_chain x');
  gr_outcomes v : is_Some (tr_outcomes x !! v) -> is_Some (tr_outcomes x' !! v);
  gr_deltas v : is_Some (tr_deltas x !! v) -> is_Some (tr_deltas x' !! v);
  gr_progress v : progress x v <= progress x' v;
  gr_verified : tr_state x = TrVerified -> tr_state x' = TrVerified;
}.

#[local] Instance grows_preorder : PreOrder grows.
Proof using Type.
  split.
  - intros x. by split.
  - intros x y z [] []. split; [lia|auto|auto| |auto]. intros v. etransitivity; eauto.
Qed.

(** A want that was true at some point of the run. *)
Definition asked (x : SequenceTransfer) (w : SequenceWant) : Prop :=
  match w with
  | WantRecords v => B < v <= T /\ v <= cv_next_view (tr_chain x)
  | WantOutcomes v => B < v <= T
  | WantDeltas v i => B < v <= T /\ 0 <= i <= progress x v
  end.

(** A want that is true now. *)
Definition current (x : SequenceTransfer) (w : SequenceWant) : Prop :=
  match w with
  | WantRecords v => tr_state x = FetchingRecords /\ v = cv_next_view (tr_chain x)
  | WantOutcomes v => tr_state x = FetchingOutcomes /\ B < v <= T /\ tr_outcomes x !! v = None
  | WantDeltas v i => tr_state x = FetchingDeltas /\ B < v <= T /\ tr_deltas x !! v = None /\ i = progress x v
  end.

Lemma asked_grows x x' w : grows x x' -> asked x w -> asked x' w.
Proof using Type.
  intros Hg. destruct w; cbn; [|done|].
  - pose proof (gr_next _ _ Hg). lia.
  - pose proof (gr_progress _ _ Hg from_view). lia.
Qed.

Lemma progress_range x v : tinv s B T (head_at s B) x -> 0 <= progress x v.
Proof.
  intros Hi. unfold progress. destruct (tr_deltas x !! v); [lia|]. destruct (tr_delta_in_flight x !! v) as [dv|] eqn:Hf; [|lia].
  destruct (ti_flight _ _ _ _ _ Hi _ _ Hf) as (_ & _ & _ & _ & -> & _). lia.
Qed.

Lemma progress_le x v d : tinv s B T (head_at s B) x -> ss_deltas s !! v = Some d -> progress x v <= Z.of_nat (length d).
Proof.
  intros Hi Hd. unfold progress. destruct (tr_deltas x !! v) as [d'|] eqn:Hx.
  - apply (ti_deltas _ _ _ _ _ Hi) in Hx as [_ Hx]. assert (d' = d) as -> by congruence. lia.
  - destruct (tr_delta_in_flight x !! v) as [dv|] eqn:Hf; [|lia].
    destruct (ti_flight _ _ _ _ _ Hi _ _ Hf) as (_ & _ & _ & (r & Hr & Hl & _) & _ & Hle & _).
    erewrite <- delta_len; [|done..]. lia.
Qed.

Lemma current_asked x w : hinv x -> current x w -> asked x w.
Proof.
  intros Hi. destruct w; cbn.
  - intros [Hst ->]. pose proof (hi_state _ Hi) as H. rewrite Hst in H. pose proof (ln_next _ _ _ _ _ _ (ti_link _ _ _ _ _ (hi_t _ Hi))). lia.
  - by intros (_ & ? & _).
  - intros (_ & ? & _ & ->). split; [done|]. split; [by apply progress_range, hi_t|done].
Qed.

(** ** Moving on *)

(** [advance_if_done] moves the cursors, and the state if nothing is missing. *)
Lemma advance_wp x (Q : () -> list Empty_set -> SequenceTransfer -> Prop) :
  tinv s B T (head_at s B) x -> cv_complete (tr_chain x) = true ->
  (forall x', tinv s B T (head_at s B) x' -> tr_chain x' = tr_chain x -> tr_outcomes x' = tr_outcomes x -> tr_deltas x' = tr_deltas x ->
     tr_delta_in_flight x' = tr_delta_in_flight x -> tr_sources x' = tr_sources x -> tr_transfer_id x' = tr_transfer_id x ->
     tr_invalid x' = tr_invalid x ->
     (tr_state x' = TrVerified \/ tr_state x' = tr_state x /\ ~ (all_in B T (tr_outcomes x) /\ all_in B T (tr_deltas x))) -> Q tt [] x') ->
  wp advance_if_done x Q.
Proof.
  intros Hi Hc HQ. unfold advance_if_done. apply wp_bind, wp_get. rewrite Hc. cbn [negb].
  apply wp_bind, (first_missing_outcome_wp s B T (head_at s B)); [done..|]. intros [v|] c Ho Hi1.
  { apply wp_skip, HQ; [done..|]. right. split; [done|]. eapply (all_in_missing s B T (head_at s B)) in Ho as (_ & _ & Hn); [|done..]. naive_solver. }
  apply wp_bind, (first_missing_delta_wp s B T (head_at s B)); [done..|]. intros [v|] c' Hd Hi2.
  { apply wp_skip, HQ; [done..|]. right. split; [done|]. eapply (all_in_missing s B T (head_at s B)) in Hd as (_ & _ & Hn); [|done..]. naive_solver. }
  apply wp_modify, HQ; try done; [|by left]. apply to_verified_inv; [done..| |].
  - exact (all_in_spec s B T _ Hs Hbind HB HT Hfits x _ _ Hi Hc Ho eq_refl).
  - exact (all_in_spec s B T _ Hs Hbind HB HT Hfits _ _ _ Hi1 Hc Hd eq_refl).
Qed.

Lemma accepts_honest x from : hinv x -> from ∈ src -> accepts x from id (head_at s T) = true.
Proof.
  intros Hi Hf. destruct (hi_const _ Hi) as (H1 & H2 & _). unfold accepts. rewrite H2, (proj1 (ti_target _ _ _ _ _ (hi_t _ Hi))), !Z.eqb_refl, H1.
  cbn. by apply bool_decide_eq_true.
Qed.

Lemma foldl_verified records (m : gmap View SequenceRecord) v r :
  foldl (fun m r => <[ sq_view r := r ]> m) m records !! v = Some r -> m !! v = Some r \/ r ∈ records /\ v = sq_view r.
Proof using Type.
  revert m. induction records as [|r' l IH]; intros m Hv; cbn in Hv; [by left|]. apply IH in Hv as [Hv|[Hin ->]]; [|right; split; [by right|done]].
  destruct (decide (v = sq_view r')) as [->|]; [|rewrite lookup_insert_ne in Hv by done; by left].
  rewrite lookup_insert_eq in Hv. injection Hv as <-. right. split; [left|done].
Qed.

Lemma consec_stored v l r : consec s v l -> r ∈ l -> ss_records s !! sq_view r = Some r.
Proof.
  revert v. induction l as [|r' l IH]; intros v Hc Hr; [by apply elem_of_nil in Hr|]. destruct Hc as [Hv Hc].
  apply elem_of_cons in Hr as [->|Hr]; [|by eapply IH]. destruct (record_view s Hs _ _ Hv) as [-> _]. done.
Qed.

(** A wp with the answer, the invariant and growth. *)
Definition fine (x : SequenceTransfer) (P : SequenceTransfer -> Prop) (r : () + ChainError) (x' : SequenceTransfer) : Prop :=
  r = inl tt /\ hinv x' /\ grows x x' /\ P x'.

Lemma fine_refl x (P : SequenceTransfer -> Prop) : hinv x -> P x -> fine x P (inl tt) x.
Proof using Type. intros Hi HP. by split_and!. Qed.

(** The chain takes the next records of the store. *)
Lemma absorb_honest x fresh :
  hinv x -> consec s (cv_next_view (tr_chain x)) fresh -> Forall (fun r => sq_view r <= T) fresh ->
  exists chain, absorb_records fresh (tr_chain x) = (inl (T <? cv_next_view chain), chain) /\
    cv_next_view chain = cv_next_view (tr_chain x) + Z.of_nat (length fresh) /\
    cv_head chain = head_at s (cv_next_view chain - 1) /\ (forall v r, cv_verified chain !! v = Some r -> ss_records s !! v = Some r).
Proof.
  intros Hi Hc Hall. pose proof (hi_t _ Hi) as Ht. set (n := cv_next_view (tr_chain x)) in *.
  pose proof (absorb_consec s Hs T n fresh Hc Hall) as Hab. pose proof (hi_head _ Hi) as Hhead. fold n in Hhead.
  unfold absorb_records. rewrite (proj2 (ti_sid _ _ _ _ _ Ht)), (proj2 (ti_view _ _ _ _ _ Ht)), (proj2 (ti_target _ _ _ _ _ Ht)), Hhead. fold n. rewrite Hab.
  assert (n + Z.of_nat (length fresh) <= T + 1) as Hle.
  { destruct (absorb_linked _ B (head_at s B) _ _ (cv_verified (tr_chain x)) _ _ _ _ Hab) as (_ & Hle & _);
      [by apply (target_max s B T)|lia|apply (ti_next _ _ _ _ _ Ht)| |done]. rewrite <- Hhead. apply (ti_link _ _ _ _ _ Ht). }
  destruct (_ && _) eqn:Hb.
  { exfalso. apply andb_true_iff in Hb as [Hlt%Z.ltb_lt Hb%negb_true_iff%Z.eqb_neq]. apply Hb. f_equal. lia. }
  match goal with |- exists c, (inl _, ?ch) = _ /\ _ => exists ch end. split_and!; [done|done|done|]. cbn. intros v r [Hv|[Hin ->]]%foldl_verified; [by apply (hi_chain _ Hi)|by eapply consec_stored].
Qed.

Lemma on_records_honest x f records floor sender from :
  hinv x -> from ∈ src -> consec s f records -> f <= cv_next_view (tr_chain x) ->
  wp (on_records (mkRecordChunk SEQUENCE_VERSION id (head_at s T) records floor sender) from) x
    (fun r _ x' => fine x (fun x' => tr_state x = FetchingRecords -> f = cv_next_view (tr_chain x) -> records <> [] ->
       cv_next_view (tr_chain x) < cv_next_view (tr_chain x')) r x').
Proof.
  intros Hi Hfrom Hc Hf. unfold on_records. apply wp_bind, wp_get. cbn [rc_transfer_id rc_target_head rc_records].
  destruct (decide (tr_state x = FetchingRecords)) as [Hst|Hst];
    [rewrite (bool_decide_eq_true_2 _ Hst)|rewrite (bool_decide_eq_false_2 _ Hst); by apply wp_ret, fine_refl].
  rewrite accepts_honest by done. cbn [negb orb]. pose proof (hi_t _ Hi) as Ht.
  rewrite (proj1 (ti_view _ _ _ _ _ Ht)). set (n := cv_next_view (tr_chain x)) in *.
  pose proof (hi_state _ Hi) as Hnx. rewrite Hst in Hnx. fold n in Hnx.
  assert (f = n -> records <> [] -> filter (fun r => n <= sq_view r <= T) records <> []) as Hne.
  { intros -> Hne. destruct records as [|r records]; [done|]. destruct Hc as [Hr _]. destruct (record_view s Hs _ _ Hr) as [Hv _].
    rewrite filter_cons, decide_True by lia. done. }
  pose proof (consec_filter s Hs f records n T Hc Hf) as Hcf.
  assert (Forall (fun r => sq_view r <= T) (filter (fun r => n <= sq_view r <= T) records)) as Hall.
  { apply Forall_forall. intros r [? _]%list_elem_of_filter. lia. }
  set (fresh := filter _ records) in *. destruct (decide (fresh = [])) as [He|He]; [apply wp_ret, fine_refl; [done|naive_solver]|].
  destruct (absorb_honest x fresh Hi Hcf Hall) as (chain & Ha & Hnext & Hh & Hrec). rewrite Ha.
  destruct (absorb_inv s B T (head_at s B) Hs Hbind HB HT Hfits fresh x _ chain Ht Hst Ha) as (Hi' & Hlt & Hcc).
  specialize (Hlt He). fold n in Hlt. apply wp_bind, wp_modify, wp_bind. unfold when. destruct (Z.ltb_spec T (cv_next_view chain)) as [Hc'|Hc'].
  - apply wp_bind, wp_modify, advance_wp; [done|done|]. intros x' Hi2 E1 E2 E3 E4 E5 E6 E7 Est. apply wp_ret. cbn in *.
    assert (~ all_in B T (tr_outcomes x)) as Hno.
    { intros H. destruct (H T ltac:(lia)) as [o Ho]. pose proof (ti_complete _ _ _ _ _ Ht) as Hcp.
      destruct (cv_complete (tr_chain x)); [naive_solver|]. destruct Hcp as (Hemp & _). by rewrite Hemp, lookup_empty in Ho. }
    assert (tr_state x' = FetchingOutcomes) as Est'.
    { destruct Est as [Est|[Est _]]; [|done]. exfalso. destruct (ti_verified _ _ _ _ _ Hi2 Est) as [H _]. rewrite E2 in H. done. }
    split_and!; [done| | |].
    + split; [done|by rewrite E1|by rewrite E1|rewrite E4; apply (hi_flight _ Hi)|rewrite E5, E6, E7; apply (hi_const _ Hi)|]. by rewrite Est', E2.
    + split; rewrite ?E1, ?E2, ?E3; [fold n; lia|done|done| |congruence]. intros v. unfold progress. by rewrite E3, E4.
    + intros _ _ _. by rewrite E1.
  - apply wp_skip, wp_ret. cbn. rewrite <- Hst in Hi'. split_and!; [done| | |done].
    + split; cbn; [by destruct x|done|done|apply (hi_flight _ Hi)|apply (hi_const _ Hi)|]. by rewrite Hst.
    + split; cbn; [fold n; lia|done|done|done|congruence].
Qed.

(** ** Outcomes *)

Lemma check_outcome_honest x v o :
  tinv s B T (head_at s B) x -> cv_complete (tr_chain x) = true -> B < v <= T -> ss_outcomes s !! v = Some o -> check_outcome v o (tr_chain x) = inl tt.
Proof.
  intros Hi Hc Hv Ho. unfold check_outcome. destruct (so_views _ Hs v) as [_ H]. destruct H as [r Hr]; [lia|].
  rewrite (proj2 (verified_store s B T _ Hs Hbind HB HT Hfits x v r Hi Hc)) by done. rewrite (proj2 (ti_sid _ _ _ _ _ Hi)).
  destruct (so_record _ Hs _ _ Hr) as (o' & d & Ho' & Hd & Hrec). assert (o' = o) as -> by congruence. rewrite Hrec. cbn. rewrite Z.eqb_refl. cbn.
  destruct (bool_decide (o = SeqSkip)) eqn:Hsk; [|done]. apply bool_decide_eq_true in Hsk as ->. apply Hskip in Ho.
  assert (d = []) as -> by congruence. done.
Qed.

(** The outcomes of a chunk all enter. *)
Lemma absorb_outcomes_honest from entries x :
  tinv s B T (head_at s B) x -> cv_complete (tr_chain x) = true -> Forall (honest_outcome s) entries ->
  wp (absorb_outcomes from entries) x (fun r _ x' => r = inl tt /\ tinv s B T (head_at s B) x' /\ exists m, x' = x <| tr_outcomes := m |> /\
    (forall v, is_Some (tr_outcomes x !! v) -> is_Some (m !! v)) /\
    (forall e, e ∈ entries -> B < oe_view e <= T -> is_Some (m !! oe_view e))).
Proof.
  intros Hi Hc Hf. revert x Hi Hc. induction Hf as [|[v o] entries He Hf IH]; intros x Hi Hc.
  { apply wp_ret. split_and!; [done|done|]. exists (tr_outcomes x). split_and!; [by destruct x|done|]. intros e He. by apply elem_of_nil in He. }
  cbn [absorb_outcomes]. apply wp_bind, wp_get. cbn [oe_view oe_outcome]. unfold honest_outcome in He. cbn in He.
  destruct (_ || _) eqn:Hb.
  - eapply wp_mono; [by apply IH|]. intros r es x' (-> & Hi' & m & -> & H1 & H2). split_and!; [done|done|]. exists m. split_and!; [done|done|].
    intros e [->|Hin]%elem_of_cons Hv; [|by apply H2]. cbn in *. apply H1. apply orb_true_iff in Hb as [Hb|Hb]; [by apply bool_decide_eq_true in Hb|].
    exfalso. apply negb_true_iff, bool_decide_eq_false in Hb. apply Hb. by apply (verified_some s B T (head_at s B)).
  - apply orb_false_iff in Hb as [Hb1 Hb2]. apply bool_decide_eq_false in Hb1. apply negb_false_iff, bool_decide_eq_true in Hb2.
    assert (B < v <= T) as Hv by (by apply (verified_some s B T (head_at s B) Hs Hbind HB HT Hfits x)).
    rewrite check_outcome_honest by done. apply wp_bind, wp_modify.
    eapply wp_mono; [apply IH; [by apply outcome_inv|done]|]. intros r es x' (-> & Hi' & m & -> & H1 & H2). split_and!; [done|done|].
    exists m. split_and!; [done| |].
    + intros v' Hv'. apply H1. cbn. apply lookup_insert_is_Some. destruct (decide (v = v')); [by left|by right].
    + intros e [->|Hin]%elem_of_cons Hev; [|by apply H2]. cbn. apply H1. cbn. by rewrite lookup_insert_eq.
Qed.

Lemma on_outcomes_honest x entries sender from :
  hinv x -> from ∈ src -> Forall (honest_outcome s) entries ->
  wp (on_outcomes (mkOutcomeServe SEQUENCE_VERSION id (head_at s T) entries sender) from) x
    (fun r _ x' => fine x (fun x' => tr_state x = FetchingOutcomes ->
       forall e, e ∈ entries -> B < oe_view e <= T -> is_Some (tr_outcomes x' !! oe_view e)) r x').
Proof.
  intros Hi Hfrom Hf. unfold on_outcomes. apply wp_bind, wp_get. cbn [os_transfer_id os_target_head os_outcomes].
  destruct (decide (tr_state x = FetchingOutcomes)) as [Hst|Hst];
    [rewrite (bool_decide_eq_true_2 _ Hst)|rewrite (bool_decide_eq_false_2 _ Hst); by apply wp_ret, fine_refl].
  rewrite accepts_honest by done. cbn [negb orb]. pose proof (hi_t _ Hi) as Ht.
  assert (cv_complete (tr_chain x) = true) as Hc by (apply (state_complete s B T (head_at s B)); [done..|congruence|congruence]).
  apply wp_bind. eapply wp_mono; [by apply absorb_outcomes_honest|]. intros r es x1 (-> & Hi1 & m & -> & H1 & H2).
  apply wp_bind, (first_missing_outcome_wp s B T (head_at s B)); [done..|]. intros o c Ho Hi2. apply wp_bind. unfold when.
  destruct o as [v|]; cbn [bool_decide is_Some_dec negb].
  - apply wp_skip, wp_ret. eapply (all_in_missing s B T (head_at s B)) in Ho as (_ & _ & Hn); [|done..].
    split_and!; [done| | |by intros _].
    + destruct Hi. split; cbn; try done. by rewrite Hst.
    + split; cbn; try done. 
  - apply wp_bind, wp_modify. assert (all_in B T m) as Hall by exact (all_in_spec s B T _ Hs Hbind HB HT Hfits _ _ _ Hi1 Hc Ho eq_refl).
    apply advance_wp; [by apply to_deltas_inv|done|]. intros x' Hi3 E1 E2 E3 E4 E5 E6 E7 Est. apply wp_ret. cbn in *.
    split_and!; [done| | |intros _; by rewrite E2].
    + split; rewrite ?E1, ?E3, ?E4, ?E5, ?E6, ?E7; [done|by apply Hi..|]. destruct Est as [->|[-> Hn]]; [done|]. naive_solver.
    + split; rewrite ?E1, ?E2, ?E3; try done; [|congruence]. intros v. unfold progress. by rewrite E3, E4.
Qed.

(** ** Deltas *)

(** A verifier that has a part of the store's delta takes the next part. *)
Lemma absorb_delta_honest v dv items d :
  dv_ok s B T v dv -> ss_deltas s !! v = Some d -> dv_items dv = take (length (dv_items dv)) d ->
  items = take (length items) (drop (length (dv_items dv)) d) ->
  exists dv', absorb (dv_next_index dv) items dv = (inl (dv_next_index dv' =? Z.of_nat (length d)), dv') /\ dv_ok s B T v dv' /\
    dv_items dv' = dv_items dv ++ items /\ dv_items dv' = take (length (dv_items dv')) d.
Proof.
  intros Hok Hd Hpre Hit. pose proof Hok as (D1 & D2 & D3 & (r & Hr & D4 & D5) & D6 & D7 & D8).
  assert (dv_expected_len dv = Z.of_nat (length d)) as Hlen by (rewrite D4; by eapply delta_len).
  assert (length items <= length d - length (dv_items dv))%nat as Hle by (rewrite Hit at 1; rewrite length_take, length_drop; lia).
  assert (length (dv_items dv) <= length d)%nat as Hle' by lia.
  assert (vec_fits items) as Hvi by (pose proof (Hfits v d Hd); unfold vec_fits in *; lia).
  assert (dv_items dv ++ items = take (length (dv_items dv ++ items)) d) as Happ.
  { rewrite length_app. rewrite <- take_take_drop. by rewrite <- Hpre, <- Hit. }
  destruct (absorb (dv_next_index dv) items dv) as [[c|e] dv'] eqn:Ha.
  - destruct (absorb_ok s B T Hs Hbind HB HT Hfits v _ _ _ _ _ Hok Hvi Ha) as (Hok' & Hi' & _ & Hc & _). exists dv'.
    pose proof Hok' as (_ & _ & _ & (r' & Hr' & D4' & _) & _). assert (r' = r) as -> by congruence.
    rewrite Hi'. split_and!; [|done|done|done]. do 2 f_equal. rewrite Hc, D4', <- D4, Hlen. done.
  - exfalso. unfold absorb in Ha. rewrite Z.eqb_refl in Ha. cbn [negb] in Ha. pose proof (Hfits v d Hd) as Hfd.
    unfold vec_fits, vec_max in Hfd, Hvi.
    rewrite u64_add_small in Ha by (unfold u64_max, u64_modulus; lia).
    destruct (Z.ltb_spec (dv_expected_len dv) (dv_next_index dv + Z.of_nat (length items))); [lia|].
    destruct (_ && _) eqn:Hb; [|done]. apply andb_true_iff in Hb as [Hb1%Z.eqb_eq Hb2%negb_true_iff%Z.eqb_neq]. apply Hb2.
    unfold index_after in Hb1. rewrite Z.mod_small in Hb1 by (unfold u64_modulus; lia).
    destruct (so_record _ Hs _ _ Hr) as (o & d' & _ & Hd' & Hrec). assert (d' = d) as -> by congruence.
    rewrite D5, Hrec, D1, D2, D8, D6. cbn. symmetry. rewrite take_ge in Happ by (rewrite length_app; lia). rewrite <- Happ.
    rewrite delta_fold_app by (unfold u64_modulus; lia). unfold index_after. rewrite Z.add_0_l, Z.mod_small by (unfold u64_modulus; lia). done.
Qed.

(** What a chunk does for its view. *)
Definition moved (x : SequenceTransfer) (e : SequenceDeltaEntry) (x' : SequenceTransfer) : Prop :=
  tr_deltas x !! de_view e = None -> B < de_view e <= T -> de_start_index e = progress x (de_view e) ->
  (de_items e <> [] \/ exists d, ss_deltas s !! de_view e = Some d /\ de_start_index e = Z.of_nat (length d)) ->
  is_Some (tr_deltas x' !! de_view e) \/ progress x (de_view e) < progress x' (de_view e).

Lemma delta_complete_honest x e v dv' d :
  hinv x -> tr_state x = FetchingDeltas \/ tr_state x = TrVerified -> cv_complete (tr_chain x) = true -> v = de_view e -> B < v <= T ->
  ss_deltas s !! v = Some d -> tr_deltas x !! v = None -> dv_items dv' = take (length (dv_items dv')) d -> dv_next_index dv' = Z.of_nat (length (dv_items dv')) ->
  dv_next_index dv' = Z.of_nat (length d) ->
  wp (modify (fun x => x <| tr_delta_in_flight ::= delete v |> <| tr_deltas ::= <[ v := dv_items dv' ]> |>);; advance_if_done;; mret (inl tt)) x
    (fun r _ x' => fine x (fun x' => moved x e x' /\ (tr_state x' = FetchingDeltas \/ tr_state x' = TrVerified)) r x').
Proof.
  intros Hi Hst Hc -> Hv Hd Hn Hpre Hni Hcp. set (v := de_view e) in *. assert (dv_items dv' = d) as ->.
  { rewrite Hpre. apply take_ge. lia. }
  pose proof (hi_t _ Hi) as Ht. apply wp_bind, wp_modify, wp_bind, advance_wp.
  { apply delta_inv; [done..| |done|done|done]. by apply delete_flight_inv. }
  { done. }
  intros x' Hi2 E1 E2 E3 E4 E5 E6 E7 Est. cbn in *. apply wp_ret.
  assert (tr_state x = FetchingDeltas) as Hfd.
  { destruct Hst as [|Hst]; [done|]. destruct (ti_verified _ _ _ _ _ Ht Hst) as [_ Ha]. destruct (Ha v Hv) as [? Hx]. congruence. }
  pose proof (ti_fetch _ _ _ _ _ Ht Hfd) as Hao.
  assert (forall w, progress x w <= progress x' w) as Hpr.
  { intros w. unfold progress at 2. rewrite E3, E4. destruct (decide (w = v)) as [->|Hne].
    - rewrite lookup_insert_eq. by apply progress_le.
    - rewrite lookup_insert_ne, lookup_delete_ne by done. done. }
  split_and!; [done| | | |].
  - split; rewrite ?E1, ?E3, ?E4, ?E5, ?E6, ?E7; [done|by apply Hi|by apply Hi| |by apply Hi|].
    + intros w dv. destruct (decide (w = v)) as [->|]; [by rewrite lookup_delete_eq|rewrite lookup_delete_ne by done; apply (hi_flight _ Hi)].
    + destruct Est as [->|[-> Hna]]; [done|]. rewrite Hfd. naive_solver.
  - split; rewrite ?E1, ?E2, ?E3; try done; [|congruence]. intros w Hw. apply lookup_insert_is_Some. destruct (decide (v = w)); [by left|by right].
  - intros _ _ _ _. left. rewrite E3. fold v. by rewrite lookup_insert_eq.
  - destruct Est as [|[? _]]; [by right|left; congruence].
Qed.

Lemma delta_partial_honest x e v dv' d :
  hinv x -> tr_state x = FetchingDeltas \/ tr_state x = TrVerified -> cv_complete (tr_chain x) = true -> v = de_view e ->
  ss_deltas s !! v = Some d -> tr_deltas x !! v = None -> dv_ok s B T v dv' -> dv_items dv' = take (length (dv_items dv')) d ->
  progress x v <= dv_next_index dv' ->
  (de_items e <> [] \/ (exists d, ss_deltas s !! v = Some d /\ de_start_index e = Z.of_nat (length d)) -> progress x v < dv_next_index dv') ->
  fine x (fun x' => moved x e x' /\ (tr_state x' = FetchingDeltas \/ tr_state x' = TrVerified)) (inl tt) (x <| tr_delta_in_flight ::= <[ v := dv' ]> |>).
Proof.
  intros Hi Hst Hc -> Hd Hn Hdv Hpre Hle Hlt. set (v := de_view e) in *.
  assert (forall w, progress x w <= progress (x <| tr_delta_in_flight ::= <[ v := dv' ]> |>) w) as Hpr.
  { intros w. unfold progress at 2. cbn. destruct (decide (w = v)) as [->|Hne].
    - by rewrite Hn, lookup_insert_eq.
    - rewrite lookup_insert_ne by done. done. }
  split_and!; [done| | | |].
  - split; cbn; [|by apply (hi_chain _ Hi)|by apply (hi_head _ Hi)|intros w dv|by apply (hi_const _ Hi)|by apply (hi_state _ Hi)].
    + apply insert_flight_inv; [done..|by apply hi_t|done|done].
    + destruct (decide (w = v)) as [->|]; [rewrite lookup_insert_eq; intros [= <-]; by exists d|rewrite lookup_insert_ne by done; apply (hi_flight _ Hi)].
  - by split.
  - intros _ _ _ Hor. right. fold v in Hor |- *. specialize (Hlt Hor). unfold progress at 2. cbn. by rewrite Hn, lookup_insert_eq.
  - done.
Qed.

Lemma on_delta_entry_honest x e from :
  hinv x -> tr_state x = FetchingDeltas \/ tr_state x = TrVerified -> honest_delta s e ->
  (B < de_view e <= T -> de_start_index e <= progress x (de_view e)) ->
  wp (on_delta_entry e from) x (fun r _ x' => fine x (fun x' => moved x e x' /\ (tr_state x' = FetchingDeltas \/ tr_state x' = TrVerified)) r x').
Proof.
  intros Hi Hst (d & Hd & Hs0 & Hit) Hle. set (v := de_view e) in *. pose proof (hi_t _ Hi) as Ht.
  assert (cv_complete (tr_chain x) = true) as Hc by (apply (state_complete s B T (head_at s B)); [done..| |]; destruct Hst; congruence).
  unfold on_delta_entry. apply wp_bind, wp_get. fold v.
  destruct (cv_verified (tr_chain x) !! v) as [r|] eqn:Hr.
  2: { apply wp_ret, fine_refl; [done|]. split; [|done]. intros _ Hv. exfalso.
       apply (verified_some s B T (head_at s B) Hs Hbind HB HT Hfits x v Ht Hc) in Hv as [? Hv]. congruence. }
  apply (verified_store s B T (head_at s B) Hs Hbind HB HT Hfits x v r Ht Hc) in Hr as [Hv Hr]. specialize (Hle Hv).
  destruct (bool_decide (is_Some (tr_deltas x !! v))) eqn:Hhas.
  { apply bool_decide_eq_true in Hhas as [d' Hd']. apply wp_ret, fine_refl; [done|]. split; [|done]. intros Hn. fold v in Hn. congruence. }
  apply bool_decide_eq_false, eq_None_not_Some in Hhas.
  set (dv := default (delta_new (tr_sid x) v r) (tr_delta_in_flight x !! v)).
  assert (dv_ok s B T v dv /\ dv_next_index dv = progress x v /\ dv_items dv = take (length (dv_items dv)) d) as (Hdv & Hnx & Hpre).
  { unfold dv, progress. rewrite Hhas. destruct (tr_delta_in_flight x !! v) as [dv0|] eqn:Hfl; cbn.
    - destruct (hi_flight _ Hi _ _ Hfl) as (d' & Hd' & Hpre). assert (d' = d) as -> by congruence.
      split_and!; [by apply (ti_flight _ _ _ _ _ Ht)|done|done].
    - split_and!; [|done|done]. rewrite (proj1 (ti_sid _ _ _ _ _ Ht)). by apply delta_new_ok. }
  destruct (match tr_delta_in_flight x !! v with Some dv0 => _ | None => _ end) eqn:Hlt.
  { apply wp_ret, fine_refl; [done|]. split; [|done]. intros _ _ Heq. fold v in Heq. exfalso. unfold dv in Hnx.
    destruct (tr_delta_in_flight x !! v); [|done]. cbn in Hnx. apply Z.ltb_lt in Hlt. lia. }
  assert (de_start_index e = dv_next_index dv) as Hstart.
  { rewrite Hnx in *. unfold dv in Hnx. destruct (tr_delta_in_flight x !! v); [apply Z.ltb_ge in Hlt|]; cbn in Hnx; lia. }
  rewrite Hstart. pose proof Hdv as (_ & _ & _ & _ & Hni & _). rewrite Hstart, Hni, Nat2Z.id in Hit.
  destruct (absorb_delta_honest v dv (de_items e) d Hdv Hd Hpre Hit) as (dv' & -> & Hdv' & Hi' & Hpre').
  pose proof Hdv' as (_ & _ & _ & _ & Hni' & _). rewrite Hi' in Hni'. rewrite length_app in Hni'.
  clearbody dv. destruct (Z.eqb_spec (dv_next_index dv') (Z.of_nat (length d))) as [Hcp|Hcp].
  - apply (delta_complete_honest x e v dv' d); try done. rewrite Hi', length_app. lia.
  - apply wp_bind, wp_modify, wp_ret. apply (delta_partial_honest x e v dv' d); try done; [lia|].
    intros [Hne|(d' & Hd' & Hl)]; [destruct (de_items e); [done|cbn in Hni'; lia]|]. assert (d' = d) as -> by congruence.
    destruct Hdv' as (_ & _ & _ & (r' & Hr' & Hl' & _) & _ & Hle' & _).
    rewrite Hl', (delta_len s B T Hs Hbind HB HT Hfits v r' d Hr' Hd) in Hle'. lia.
Qed.

Lemma moved_grows x e x1 x2 : moved x e x1 -> grows x1 x2 -> moved x e x2.
Proof using Type.
  intros Hm Hg H1 H2 H3 H4. destruct (Hm H1 H2 H3 H4) as [H|H]; [left; by apply (gr_deltas _ _ Hg)|right].
  pose proof (gr_progress _ _ Hg (de_view e)). lia.
Qed.

Lemma absorb_deltas_honest from l x :
  hinv x -> tr_state x = FetchingDeltas \/ tr_state x = TrVerified -> Forall (fun e => honest_delta s e /\ de_start_index e = 0) l ->
  wp (absorb_deltas from l) x (fun r _ x' => fine x (fun _ => True) r x').
Proof.
  intros Hi Hst Hf. revert x Hi Hst. induction Hf as [|e l [He H0] Hf IH]; intros x Hi Hst; [by apply wp_ret, fine_refl|].
  cbn [absorb_deltas]. apply wp_bind. eapply wp_mono.
  { apply on_delta_entry_honest; [done|done|done|]. intros _. rewrite H0. by apply progress_range, hi_t. }
  intros r es x1 (-> & Hi1 & Hg1 & _ & Hst1). eapply wp_mono; [by apply IH|]. intros r es' x2 (-> & Hi2 & Hg2 & _).
  split_and!; [done|done|by etransitivity|done].
Qed.

Lemma on_delta_range_honest x e l sender from :
  hinv x -> from ∈ src -> honest_delta s e -> (B < de_view e <= T -> de_start_index e <= progress x (de_view e)) ->
  Forall (fun e => honest_delta s e /\ de_start_index e = 0) l ->
  wp (on_delta_range (mkDeltaRangeChunk SEQUENCE_VERSION id (head_at s T) (e :: l) sender) from) x
    (fun r _ x' => fine x (fun x' => tr_state x = FetchingDeltas -> moved x e x') r x').
Proof.
  intros Hi Hfrom He Hle Hf. unfold on_delta_range. apply wp_bind, wp_get. cbn [gc_transfer_id gc_target_head gc_entries].
  destruct (decide (tr_state x = FetchingDeltas)) as [Hst|Hst];
    [rewrite (bool_decide_eq_true_2 _ Hst)|rewrite (bool_decide_eq_false_2 _ Hst); by apply wp_ret, fine_refl].
  rewrite accepts_honest by done. cbn [negb orb absorb_deltas]. apply wp_bind.
  eapply wp_mono; [apply on_delta_entry_honest; [done|by left|done|done]|]. intros r es x1 (-> & Hi1 & Hg1 & Hm & Hst1).
  eapply wp_mono; [by apply absorb_deltas_honest|]. intros r es' x2 (-> & Hi2 & Hg2 & _).
  split_and!; [done|done|by etransitivity|]. intros _. by eapply moved_grows.
Qed.

(** ** Answers *)

Lemma serve_floor_one : serve_floor s = 1.
Proof.
  unfold serve_floor. assert ((map_iter (ss_records s)).*1 = seqZ 1 (ss_next_view s - 1)) as Hk.
  { apply map_iter_interval. intros k. rewrite (so_views _ Hs). lia. }
  destruct (map_iter (ss_records s)) as [|[v r] l]; cbn in Hk; [|].
  - symmetry in Hk. apply (f_equal length) in Hk. rewrite length_seqZ in Hk. cbn in Hk. lia.
  - rewrite seqZ_cons in Hk by lia. by injection Hk.
Qed.

(** What the answer to a current want achieves. *)
Definition advanced (x : SequenceTransfer) (w : SequenceWant) (x' : SequenceTransfer) : Prop :=
  match w with
  | WantRecords _ => cv_next_view (tr_chain x) < cv_next_view (tr_chain x')
  | WantOutcomes v => is_Some (tr_outcomes x' !! v)
  | WantDeltas v _ => is_Some (tr_deltas x' !! v) \/ progress x v < progress x' v
  end.

(** A peer answers a want of the transfer, stale or not. *)
Lemma answer_fine caps caps' me peer x0 x w :
  (1 <= chunk_records caps')%nat -> (1 <= as_u32 (chunk_records caps))%nat ->
  tr_transfer_id x0 = id -> tr_target_view x0 = T -> tr_target_head x0 = head_at s T ->
  hinv x -> peer ∈ src -> asked x w ->
  wp (on_response (serve s caps' peer (query_for caps me x0 w)) peer) x (fun r _ x' => fine x (fun x' => current x w -> advanced x w x') r x').
Proof.
  intros Hc1 Hc2 E1 E2 E3 Hi Hp Ha. pose proof (hi_t _ Hi) as Ht. destruct w as [v|v|v i]; cbn [query_for serve].
  - destruct Ha as [Hv Hle]. unfold serve_sequence_records. cbn [rq_from_view rq_max_records rq_transfer_id rq_target_head].
    rewrite serve_floor_one. destruct (Z.ltb_spec v 1); [lia|]. set (records := records_from s v _).
    assert (records <> []) as Hne by (apply records_from_nonempty; [done|lia|lia]). rewrite decide_False by done. cbn [on_response]. rewrite E1, E3.
    eapply wp_mono; [apply (on_records_honest x v records); [done|done|by apply records_from_consec|done]|].
    intros r es x' (-> & H1 & H2 & H3). split_and!; [done..|]. intros [Hst ->]. by apply H3.
  - cbn in Ha. unfold serve_sequence_outcome. cbn [oq_from_view oq_max_views oq_max_items oq_transfer_id oq_target_head oq_target_view].
    rewrite serve_floor_one, E1, E2, E3. destruct (Z.ltb_spec v 1); [lia|].
    match goal with |- context [outcomes_from s v T ?n ?i] => destruct (outcomes_from_first s Hs v T n i) as (o & l & Hl); [lia|lia|lia|];
      pose proof (outcomes_loop_honest s Hs n v T i true) as Hh end.
    change (outcomes_loop s v T ?n ?i true) with (outcomes_from s v T n i) in Hh. rewrite Hl in Hh |- *. cbn [on_response].
    eapply wp_mono; [by apply on_outcomes_honest|]. intros r es x' (-> & H1 & H2 & H3). split_and!; [done..|]. intros (Hst & Hv & Hn).
    apply (H3 Hst (mkOutcomeEntry v o)); [left|done].
  - destruct Ha as [Hv Hp']. unfold serve_sequence_delta_range.
    cbn [gq_from_view gq_start_index gq_max_views gq_max_items gq_transfer_id gq_target_head gq_target_view].
    rewrite serve_floor_one, E1, E2, E3. destruct (Z.ltb_spec v 1); [lia|].
    destruct (so_views _ Hs v) as [_ Hr]. destruct Hr as [r Hr]; [lia|]. destruct (delta_some s B T Hs Hbind HB HT Hfits v r Hr) as [d Hd].
    pose proof (progress_le x v d Ht Hd) as Hpl.
    match goal with |- context [delta_entries_from s v ?st T ?n ?k] =>
      destruct (delta_first s Hs v st T n k d) as (items & c & es & Hl & Hmv); [done|lia|lia|lia|lia|] end.
    destruct (delta_entries_honest s Hs _ _ _ _ _ _ _ Hl) as [Hhe Hhl]. rewrite Hl. cbn [on_response]. rewrite Z2Nat.id in * by lia.
    eapply wp_mono; [apply on_delta_range_honest; [done|done|done|cbn; lia|done]|]. intros r' es' x' (-> & H1 & H2 & H3). split_and!; [done..|].
    intros (Hst & _ & Hn & ->). apply (H3 Hst); cbn; [done|done|done|]. destruct Hmv as [|Hmv]; [by left|right]. exists d. split; [done|]. lia.
Qed.

(** ** The measure *)

Definition todo (x : SequenceTransfer) (v : View) : nat :=
  match tr_outcomes x !! v with Some _ => 0 | None => 1 end +
  match tr_deltas x !! v with Some _ => 0 | None => S (length (default [] (ss_deltas s !! v)) - Z.to_nat (progress x v)) end.

Definition todo_all (x : SequenceTransfer) : nat := sum_list_with (todo x) (seqZ (B + 1) (T - B)).
Definition remaining (x : SequenceTransfer) : nat := Z.to_nat (T + 1 - cv_next_view (tr_chain x)) + todo_all x.

Lemma todo_grows x x' v : grows x x' -> (todo x' v <= todo x v)%nat.
Proof.
  intros Hg. unfold todo. pose proof (gr_outcomes _ _ Hg v) as H1. pose proof (gr_deltas _ _ Hg v) as H2. pose proof (gr_progress _ _ Hg v) as H3.
  assert (is_Some (tr_outcomes x !! v) -> tr_outcomes x' !! v <> None) as H1' by (intros H; apply not_eq_None_Some; auto).
  assert (is_Some (tr_deltas x !! v) -> tr_deltas x' !! v <> None) as H2' by (intros H; apply not_eq_None_Some; auto).
  clear H1 H2. destruct (tr_outcomes x !! v), (tr_outcomes x' !! v), (tr_deltas x !! v), (tr_deltas x' !! v); try lia; naive_solver.
Qed.

Lemma todo_all_grows x x' : grows x x' -> (todo_all x' <= todo_all x)%nat.
Proof.
  intros Hg. unfold todo_all. induction (seqZ (B + 1) (T - B)) as [|v l IH]; [done|]. cbn. pose proof (todo_grows x x' v Hg). lia.
Qed.

Lemma remaining_grows x x' : grows x x' -> (remaining x' <= remaining x)%nat.
Proof. intros Hg. unfold remaining. pose proof (gr_next _ _ Hg). pose proof (todo_all_grows x x' Hg). lia. Qed.

Lemma sum_list_with_lt {A} (f g : A -> nat) a (l : list A) :
  (forall b, f b <= g b)%nat -> a ∈ l -> (f a < g a)%nat -> (sum_list_with f l < sum_list_with g l)%nat.
Proof using Type.
  intros Hle Hin Hlt. assert (forall l, sum_list_with f l <= sum_list_with g l)%nat as Hl.
  { intros l'. induction l' as [|b l' IH]; [done|]. cbn. specialize (Hle b). lia. }
  induction Hin as [a l|a b l _ IH]; cbn; [specialize (Hl l)|specialize (Hle b); specialize (IH Hlt)]; lia.
Qed.

Lemma remaining_view x x' v : grows x x' -> B < v <= T -> (todo x' v < todo x v)%nat -> (remaining x' < remaining x)%nat.
Proof.
  intros Hg Hv Hlt. unfold remaining. pose proof (gr_next _ _ Hg). assert (todo_all x' < todo_all x)%nat; [|lia].
  apply (sum_list_with_lt _ _ v); [intros; by apply todo_grows|apply elem_of_seqZ; lia|done].
Qed.

(** The answer to a current want brings the end closer. *)
Lemma remaining_advanced x w x' :
  hinv x -> hinv x' -> current x w -> grows x x' -> advanced x w x' -> (remaining x' < remaining x)%nat.
Proof.
  intros Hi Hi' Hcu Hg Had. pose proof (gr_next _ _ Hg). destruct w as [v|v|v i]; cbn in Hcu, Had.
  - destruct Hcu as [Hst ->]. pose proof (hi_state _ Hi) as Hn. rewrite Hst in Hn. pose proof (todo_all_grows x x' Hg). unfold remaining. lia.
  - destruct Hcu as (_ & Hv & Hn). apply (remaining_view x x' v); [done|done|]. pose proof (gr_deltas _ _ Hg v) as H2. pose proof (gr_progress _ _ Hg v) as H3.
    unfold todo. rewrite Hn. destruct Had as [o ->]. destruct (tr_deltas x !! v); [destruct H2 as [? ->]; [by eexists|lia]|]. destruct (tr_deltas x' !! v); lia.
  - destruct Hcu as (_ & Hv & Hn & _). apply (remaining_view x x' v); [done|done|]. pose proof (gr_outcomes _ _ Hg v) as H1.
    assert (match tr_outcomes x' !! v with Some _ => 0 | None => 1 end <= match tr_outcomes x !! v with Some _ => 0 | None => 1 end)%nat as Ho.
    { destruct (tr_outcomes x !! v); [destruct H1 as [? ->]; [by eexists|lia]|]. destruct (tr_outcomes x' !! v); lia. }
    unfold todo. rewrite Hn. destruct (tr_deltas x' !! v) as [d'|] eqn:Hd'; [lia|]. destruct Had as [[? ?]|Had]; [done|].
    destruct (so_views _ Hs v) as [_ Hr]. destruct Hr as [r Hr]; [lia|]. destruct (delta_some s B T Hs Hbind HB HT Hfits v r Hr) as [d Hd].
    pose proof (progress_range x v (hi_t _ Hi)). pose proof (progress_le x' v d (hi_t _ Hi') Hd). rewrite Hd. cbn. lia.
Qed.

(** ** The requests of a round *)

Lemma spaced_lacks {V} n x (have : gmap View V) span : forall from v, v ∈ spaced_loop n x have span from -> v <= tr_target_view x /\ lacks x have v = true.
Proof.
  induction n as [|n IH]; intros from v Hv; cbn in Hv; [by apply elem_of_nil in Hv|]. destruct (negb _); [by apply elem_of_nil in Hv|].
  destruct (find_lacking x have from) as [v'|] eqn:Hf; [|by apply elem_of_nil in Hv]. apply elem_of_cons in Hv as [->|Hv]; [|by eapply IH].
  eapply find_lacking_some in Hf as [? ?]; [|done..]. split; [lia|done].
Qed.

(** All requested views are missing. *)
Lemma spaced_missing {V} x (have : gmap View V) o c span max v :
  tinv s B T (head_at s B) x -> cv_complete (tr_chain x) = true -> missing_spec T x have (o, c) ->
  v ∈ missing_spaced x have o span max -> B < v <= T /\ have !! v = None.
Proof.
  intros Hi Hc Hm Hv. destruct o as [v0|]; [|by apply elem_of_nil in Hv]. apply elem_of_cons in Hv as [->|Hv].
  - eapply (all_in_missing s B T (head_at s B)) in Hm as (? & ? & _); done.
  - apply spaced_lacks in Hv as [_ Hl]. rewrite (lacks_true s B T Hs Hbind HB HT Hfits x have v) in Hl. destruct Hl as [Hl ?]. split; [|done].
    by apply (verified_some s B T (head_at s B) Hs Hbind HB HT Hfits x v).
Qed.

Definition cursors_only (x x' : SequenceTransfer) : Prop :=
  exists c1 c2, x' = x <| tr_outcome_scan_from := c1 |> <| tr_delta_scan_from := c2 |>.

Lemma cursors_hinv x x' : hinv x -> cursors_only x x' -> tinv s B T (head_at s B) x' -> hinv x'.
Proof using Type. intros [] (c1 & c2 & ->) Ht. by split. Qed.

Lemma cursors_grows x x' : cursors_only x x' -> grows x x'.
Proof using Type. intros (c1 & c2 & ->). by split. Qed.

(** The wants of a transfer are current, and there is one as long as it is not verified. *)
Lemma wants_current max os ds x :
  hinv x -> wp (wants max os ds) x (fun ws _ x' => cursors_only x x' /\ Forall (current x) ws /\ (tr_state x <> TrVerified -> ws <> [])).
Proof.
  intros Hi. pose proof (hi_t _ Hi) as Ht. pose proof (hi_state _ Hi) as Hst.
  assert (cursors_only x x) as Hsame by (exists (tr_outcome_scan_from x), (tr_delta_scan_from x); by destruct x).
  assert (tr_state x <> FetchingRecords -> tr_state x <> TrExhausted -> cv_complete (tr_chain x) = true) as Hcp
    by (intros; by apply (state_complete s B T (head_at s B))).
  unfold wants, want. apply wp_bind, wp_get. destruct (tr_state x) eqn:E.
  - apply wp_bind, wp_bind, wp_get. rewrite E. apply wp_ret, wp_ret. split_and!; [done| |done]. by repeat constructor.
  - specialize (Hcp ltac:(done) ltac:(done)). apply wp_bind, (first_missing_outcome_wp s B T (head_at s B)); [done..|]. intros o c Ho Hi'. apply wp_ret.
    split_and!; [by exists c, (tr_delta_scan_from x); destruct x| |].
    + apply Forall_fmap, Forall_forall. intros v Hv. eapply spaced_missing in Hv as [Hv Hn]; [|done..]. cbn. split_and!; [done|lia|lia|done].
    + intros _. destruct o as [v|]; [done|]. exfalso. apply Hst. exact (all_in_spec s B T _ Hs Hbind HB HT Hfits _ _ _ Ht Hcp Ho eq_refl).
  - specialize (Hcp ltac:(done) ltac:(done)). apply wp_bind, (first_missing_delta_wp s B T (head_at s B)); [done..|]. intros o c Ho Hi'. apply wp_ret.
    split_and!; [by exists (tr_outcome_scan_from x), c; destruct x| |].
    + apply Forall_fmap, Forall_forall. intros v Hv. eapply spaced_missing in Hv as [Hv Hn]; [|done..]. cbn. split_and!; [done|lia|lia|done|].
      unfold progress. by rewrite Hn.
    + intros _. destruct o as [v|]; [done|]. exfalso. apply Hst. exact (all_in_spec s B T _ Hs Hbind HB HT Hfits _ _ _ Ht Hcp Ho eq_refl).
  - apply wp_bind, wp_bind, wp_get. rewrite E. apply wp_ret, wp_ret. by split_and!.
  - done.
Qed.

(** A message of the run, and that its want was current once. *)
Definition message_ok (caps : ServeCaps) (me : PublicKey) (x : SequenceTransfer) (m : PublicKey * SequenceQuery) : Prop :=
  exists x0 w, tr_transfer_id x0 = id /\ tr_target_view x0 = T /\ tr_target_head x0 = head_at s T /\
    m.2 = query_for caps me x0 w /\ m.1 ∈ src /\ asked x w.

Lemma message_grows caps me x x' m : grows x x' -> message_ok caps me x m -> message_ok caps me x' m.
Proof using Type. intros Hg (x0 & w & H1 & H2 & H3 & H4 & H5 & H6). exists x0, w. split_and!; [assumption..|by eapply asked_grows]. Qed.

Lemma spread_ok caps me x ws nearest slot l :
  tr_transfer_id x = id -> tr_target_view x = T -> tr_target_head x = head_at s T -> Forall (asked x) (nearest :: ws) -> (forall p, p ∈ l -> p ∈ src) ->
  Forall (message_ok caps me x) (spread caps me x ws nearest slot l).
Proof using Type.
  intros E1 E2 E3 Hw Hl. apply Forall_cons in Hw as [Hn Hw]. revert slot. induction l as [|p l IH]; intros slot; cbn; [constructor|].
  constructor; [|apply IH; intros q Hq; apply Hl; by right]. exists x, (default nearest (ws !! slot)). split_and!; [assumption..|reflexivity|apply Hl; left|].
  destruct (ws !! slot) as [w|] eqn:Hs'; cbn; [|done]. by eapply (Forall_lookup_1 _ _ _ _ Hw).
Qed.

Lemma next_sources_in x max p : p ∈ next_sources x max -> p ∈ tr_sources x.
Proof using Type. unfold next_sources. rewrite list_elem_of_omap. intros (i & _ & Hi). by eapply list_elem_of_lookup_2. Qed.

Lemma next_sources_some x max : tr_sources x <> [] -> exists p l, next_sources x max = p :: l.
Proof using Type.
  intros Hne. unfold next_sources. destruct (tr_sources x) as [|p0 l0] eqn:E; [done|]. rewrite <- E.
  assert (0 < length (tr_sources x))%nat by (rewrite E; cbn; lia). destruct (Nat.max max 1 `min` length (tr_sources x))%nat as [|k] eqn:Hk; [lia|].
  cbn [seq omap list_omap]. destruct (lookup_lt_is_Some_2 (tr_sources x) ((tr_cursor x + 0) mod length (tr_sources x))) as [p ->];
    [apply Nat.mod_upper_bound; lia|]. by eexists _, _.
Qed.

(** A round starts with a message whose want is current. *)
Lemma emit_ok caps me max x :
  hinv x -> src <> [] ->
  wp (emit_sequence_requests caps me max) x (fun ms _ x' => cursors_only x x' /\ Forall (message_ok caps me x) ms /\
    (tr_state x = TrVerified \/ exists p w ms', ms = (p, query_for caps me x w) :: ms' /\ p ∈ src /\ current x w)).
Proof.
  intros Hi Hne. unfold emit_sequence_requests. apply wp_bind, wp_get, wp_bind. eapply wp_mono; [by apply wants_current|].
  intros ws es x' (Hc & Hcu & Hws). pose proof (hi_t _ Hi) as Ht. destruct (hi_const _ Hi) as (C1 & C2 & _). destruct ws as [|w ws].
  - apply wp_ret. split_and!; [done|constructor|]. left. destruct (decide (tr_state x = TrVerified)); [done|]. by destruct Hws.
  - apply wp_ret. split_and!; [done| |right].
    + apply spread_ok; [done|apply (ti_view _ _ _ _ _ Ht)|apply (ti_target _ _ _ _ _ Ht)| |].
      * apply Forall_cons. assert (Forall (asked x) (w :: ws)) as Ha by (eapply Forall_impl; [done|]; intros; by apply current_asked).
        split; [by apply Forall_cons in Ha as [? _]|done].
      * intros p Hp%next_sources_in. by rewrite <- C1.
    + destruct (next_sources_some x max) as (p & l & Hl); [by rewrite C1|]. rewrite Hl. cbn. exists p, w. eexists. split_and!; [done| |by apply Forall_cons in Hcu as [? _]].
      rewrite <- C1. apply (next_sources_in x max). rewrite Hl. left.
Qed.

(** ** Runs *)

Section run.
Context (caps : ServeCaps) (peer_caps : PublicKey -> ServeCaps) (me : PublicKey).
Context (Hcaps : (1 <= as_u32 (chunk_records caps))%nat) (Hpeers : forall p, p ∈ src -> (1 <= chunk_records (peer_caps p))%nat) (Hsrc : src <> []).
Set Default Proof Using "Type Hs Hbind HB HT Hfits Hskip Hcaps Hpeers Hsrc".

Lemma deliver_fine m x :
  hinv x -> message_ok caps me x m -> hinv (deliver s peer_caps m x) /\ grows x (deliver s peer_caps m x).
Proof.
  intros Hi (x0 & w & E1 & E2 & E3 & Em & Hp & Ha). unfold deliver. rewrite Em.
  destruct (answer_fine caps (peer_caps m.1) me m.1 x0 x w (Hpeers _ Hp) Hcaps E1 E2 E3 Hi Hp Ha) as (_ & H1 & H2 & _). done.
Qed.

Lemma deliver_all ms x :
  hinv x -> Forall (message_ok caps me x) ms ->
  hinv (foldl (fun x m => deliver s peer_caps m x) x ms) /\ grows x (foldl (fun x m => deliver s peer_caps m x) x ms).
Proof.
  revert x. induction ms as [|m ms IH]; intros x Hi Hm; [done|]. apply Forall_cons in Hm as [Hm Hms]. cbn.
  destruct (deliver_fine m x Hi Hm) as [H1 H2]. destruct (IH (deliver s peer_caps m x) H1) as [H3 H4].
  { eapply Forall_impl; [done|]. intros m'. by apply message_grows. }
  split; [done|by etransitivity].
Qed.

(** A round that does not start verified makes progress. *)
Lemma round_fine max x :
  hinv x ->
  let r := emit_sequence_requests caps me max x in
  let x' := foldl (fun x m => deliver s peer_caps m x) (st r) (val r) in
  hinv x' /\ grows x x' /\ Forall (message_ok caps me x) (val r) /\ (tr_state x = TrVerified \/ (remaining x' < remaining x)%nat).
Proof.
  intros Hi r x'. pose proof (emit_ok caps me max x Hi Hsrc) as Hw. unfold wp in Hw. fold r in Hw. destruct Hw as (Hc & Hms & Hor).
  assert (tinv s B T (head_at s B) (st r)) as Ht1.
  { subst r. unfold emit_sequence_requests. rewrite st_bind. cbn [get val st]. rewrite st_bind.
    assert (tinv s B T (head_at s B) (st (wants max (Z.of_nat (chunk_outcomes caps)) (Z.of_nat SEQUENCE_DELTA_RANGE_VIEWS) x))) as H
      by (by apply wants_inv; [..|apply hi_t]). by destruct (val (wants _ _ _ _)). }
  pose proof (cursors_hinv x (st r) Hi Hc Ht1) as Hi1. pose proof (cursors_grows x (st r) Hc) as Hg1.
  assert (Forall (message_ok caps me (st r)) (val r)) as Hms1 by (eapply Forall_impl; [done|]; intros m; by apply message_grows).
  destruct (deliver_all (val r) (st r) Hi1 Hms1) as [Hi2 Hg2]. fold x' in Hi2, Hg2.
  split_and!; [done|by etransitivity|done|]. destruct Hor as [|(p & w & ms' & Hms' & Hp & Hcu)]; [by left|right].
  unfold x'. rewrite Hms' in *. cbn [foldl] in *. apply Forall_cons in Hms1 as [_ Hms1].
  assert (current (st r) w) as Hcu1 by (destruct Hc as (c1 & c2 & ->); by destruct w).
  destruct (hi_const _ Hi) as (_ & C2 & _). pose proof (hi_t _ Hi) as Ht.
  destruct (answer_fine caps (peer_caps p) me p x (st r) w (Hpeers _ Hp) Hcaps C2 (proj1 (ti_view _ _ _ _ _ Ht)) (proj1 (ti_target _ _ _ _ _ Ht)) Hi1 Hp
    (current_asked _ _ Hi1 Hcu1)) as (_ & H1 & H2 & H3). specialize (H3 Hcu1).
  change (st (on_response _ p (st r))) with (deliver s peer_caps (p, query_for caps me x w) (st r)) in H1, H2, H3.
  set (x1 := deliver _ _ _ (st r)) in *. destruct (deliver_all ms' x1 H1) as [_ Hg3].
  { eapply Forall_impl; [done|]. intros m. by apply message_grows. }
  pose proof (remaining_advanced _ _ _ Hi1 H1 Hcu1 H2 H3). pose proof (remaining_grows _ _ Hg3). pose proof (remaining_grows _ _ Hg1). lia.
Qed.

Lemma rotate_fine x : hinv x -> hinv (st (rotate x)) /\ grows x (st (rotate x)).
Proof.
  intros Hi. unfold rotate. cbn. destruct (decide _); [done|]. split; [|by split]. destruct Hi. split; cbn; try done. by apply cursor_inv.
Qed.

Definition fetch_ok (c : SequenceTransfer * list (PublicKey * SequenceQuery)) : Prop := hinv c.1 /\ Forall (message_ok caps me c.1) c.2.

Lemma fetch_step_fine ev c :
  fetch_ok c ->
  let c' := fetch_step s caps peer_caps me ev c in
  fetch_ok c' /\ grows c.1 c'.1 /\ (is_round ev = true -> tr_state c.1 = TrVerified \/ (remaining c'.1 < remaining c.1)%nat).
Proof.
  intros [Hi Hm]. assert (forall x' l, grows c.1 x' -> hinv x' -> Forall (message_ok caps me c.1) l -> fetch_ok (x', l)) as Hk.
  { intros x' l Hg Hx Hl. split; [done|]. eapply Forall_impl; [done|]. intros m. by apply message_grows. }
  destruct ev as [max|k|]; cbn.
  - destruct (round_fine max c.1 Hi) as (H1 & H2 & H3 & H4). split_and!; [|done|done]. apply Hk; [done|done|]. by apply Forall_app.
  - destruct (c.2 !! k) as [m|] eqn:Hk'; [|by destruct c].
    destruct (deliver_fine m c.1 Hi) as [H1 H2]; [by eapply (Forall_lookup_1 _ _ _ _ Hm)|]. split_and!; [by apply Hk|done|done].
  - destruct (rotate_fine c.1 Hi) as [H1 H2]. split_and!; [by apply Hk|done|done].
Qed.

Lemma remaining_pos x : hinv x -> tr_state x <> TrVerified -> (0 < remaining x)%nat.
Proof using All. intros Hi Hv. destruct (round_fine 1 x Hi) as (_ & _ & _ & [?|?]); [done|lia]. Qed.

Lemma run_verified evs c :
  fetch_ok c -> tr_state c.1 = TrVerified -> tr_state (foldl (fun c ev => fetch_step s caps peer_caps me ev c) c evs).1 = TrVerified.
Proof.
  revert c. induction evs as [|ev evs IH]; intros c Hc Hv; [done|]. cbn.
  destruct (fetch_step_fine ev c Hc) as (H1 & H2 & _). apply IH; [done|]. by apply (gr_verified _ _ H2).
Qed.

Lemma fetch_run_fine evs c :
  fetch_ok c ->
  let c' := foldl (fun c ev => fetch_step s caps peer_caps me ev c) c evs in
  fetch_ok c' /\ (tr_state c'.1 = TrVerified \/ (remaining c'.1 + rounds evs <= remaining c.1)%nat).
Proof.
  revert c. induction evs as [|ev evs IH]; intros c Hc; cbn [foldl]; [split; [done|right; unfold rounds; cbn; lia]|].
  destruct (fetch_step_fine ev c Hc) as (H1 & H2 & H3). destruct (IH _ H1) as [H4 H5]. split; [exact H4|].
  destruct (decide (tr_state c.1 = TrVerified)) as [Hv|Hv].
  { left. apply run_verified; [done|]. by apply (gr_verified _ _ H2). }
  destruct H5 as [?|H5]; [by left|right]. rewrite rounds_cons. pose proof (remaining_grows _ _ H2).
  destruct (is_round ev); [destruct (H3 eq_refl) as [?|?]; [done|]|]; lia.
Qed.
End run.
Set Default Proof Using "Type Hs Hbind HB HT Hfits Hskip".

Lemma transfer_new_hinv : src <> [] -> hinv (transfer_new (ss_sid s) id B (head_at s B) T (head_at s T) src).
Proof.
  intros Hne. pose proof (target_max s B T Hs Hbind HB HT Hfits). split; cbn; try done.
  - by apply transfer_new_inv.
  - rewrite u64_add_small by lia. f_equal. lia.
  - rewrite decide_False by done. rewrite u64_add_small by lia. lia.
Qed.

Lemma remaining_new : remaining (transfer_new (ss_sid s) id B (head_at s B) T (head_at s T) src) = download_size s B T.
Proof.
  unfold remaining, todo_all, download_size. pose proof (target_max s B T Hs Hbind HB HT Hfits). cbn. rewrite u64_add_small by lia.
  assert (Z.to_nat (T + 1 - (B + 1)) = length (seqZ (B + 1) (T - B))) as -> by (rewrite length_seqZ; f_equal; lia).
  induction (seqZ (B + 1) (T - B)) as [|v l IH]; [done|]. cbn [length sum_list_with].
  assert (todo (transfer_new (ss_sid s) id B (head_at s B) T (head_at s T) src) v = 2 + length (default [] (ss_deltas s !! v)))%nat as ->
    by (unfold todo, progress; cbn; rewrite !lookup_empty; lia). lia.
Qed.
End fetch.
Unset Default Proof Using.

(** A skip has no output. *)
Definition skips_empty (s : SequenceStore) : Prop := map_Forall (fun v o => o = SeqSkip -> ss_deltas s !! v = Some []) (ss_outcomes s).

(** C12: Downloads complete.  Against peers that serve an honest store, with any chunk sizes, a transfer that sends its rounds of requests
    is verified after at most as many rounds as there are records, outcomes, digests and deltas to
    fetch; late and repeated answers and rotations in between do no harm; and no source is ever penalised or lost. *)
Theorem download_completes {Hash : Hashing} {Codec : SequenceCodec} s sid interval id B T sources caps peer_caps me evs x :
  store_reaches sid interval s -> sequence_binding sid -> store_fits s -> skips_empty s -> 0 <= B < T -> T < ss_next_view s -> sources <> [] ->
  (1 <= as_u32 (chunk_records caps))%nat -> (forall p, p ∈ sources -> 1 <= chunk_records (peer_caps p))%nat ->
  x = (fetch_run s caps peer_caps me evs (transfer_new sid id B (head_at s B) T (head_at s T) sources)).1 ->
  (download_size s B T <= rounds evs)%nat ->
  tr_state x = TrVerified /\ tr_sources x = sources /\ tr_invalid x = ∅ /\ verified_output x = Some (sequence_slice s B T).
Proof.
  intros Hr Hb Hf Hsk HB HT Hne Hc Hp -> Hrounds. apply store_reaches_ok in Hr as [Hs <-].
  assert (forall v, ss_outcomes s !! v = Some SeqSkip -> ss_deltas s !! v = Some []) as Hskip by (intros v Hv; by eapply Hsk).
  set (x0 := transfer_new _ _ _ _ _ _ _). destruct (fetch_run_fine s B T sources id Hs Hb HB HT Hf Hskip caps peer_caps me Hc Hp Hne evs (x0, [])) as [[Hi _] Hor].
  { split; [by apply transfer_new_hinv|constructor]. }
  unfold fetch_run. set (x := (foldl _ _ evs).1) in *. destruct (hi_const _ _ _ _ _ _ Hi) as (H1 & _ & H3).
  assert (tr_state x = TrVerified) as Hv.
  { destruct (decide (tr_state x = TrVerified)) as [|Hn]; [done|]. exfalso. destruct Hor as [?|Hor]; [done|].
    pose proof (remaining_pos s B T sources id Hs Hb HB HT Hf Hskip caps peer_caps me Hc Hp Hne x Hi Hn) as Hpos.
    cbn in Hor. unfold x0 in Hor. rewrite remaining_new in Hor by done. lia. }
  split_and!; [done|done|done|]. eapply verified_output_slice; [exact (hi_t _ _ _ _ _ _ Hi)|done].
Qed.

(** ** A run *)

#[local] Existing Instance coded_hashing.
#[local] Existing Instance coded_sequence.

(** One record, outcome and digest per chunk. *)
Definition caps1 : ServeCaps := mkServeCaps 1 1 1 1.

(** Nine rounds with a late answer and a timeout. *)
Definition events2 : list FetchEvent :=
  [FtRound 2; FtRound 1; FtLate 0; FtRound 2; FtRotate; FtRound 2; FtRound 1; FtLate 3; FtRound 1; FtRound 1; FtRound 2; FtRound 1].

Definition fetched2 : SequenceTransfer :=
  (fetch_run store2 caps1 (fun _ => caps1) 30 events2 (transfer_new 7 1 0 (head_at store2 0) 2 (head_at store2 2) [10; 20])).1.

Lemma store2_skips : skips_empty store2.
Proof. refine (bool_decide_unpack _ _). vm_compute. exact I. Qed.

Lemma download_completes_witness :
  tr_state fetched2 = TrVerified /\ tr_sources fetched2 = [10; 20] /\
  verified_output fetched2 = Some [(1, SeqCore [], [5; 6]); (2, SeqSkip, [])].
Proof.
  unfold fetched2. set (x := (fetch_run _ _ _ _ _ _).1).
  pose proof (download_completes store2 7 2 1 0 2 [10; 20] caps1 (fun _ => caps1) 30 events2 x) as H.
  specialize (H store2_reaches (coded_binding 7) store2_fits store2_skips (conj (Z.le_refl 0) eq_refl) next2 ltac:(done)).
  specialize (H ltac:(vm_compute; lia) ltac:(intros; cbn; lia)). specialize (H (eq_refl x)). specialize (H ltac:(vm_compute; lia)).
  rewrite slice2 in H. destruct H as (H1 & H2 & _ & H4). exact (conj H1 (conj H2 H4)).
Defined.
