(* ===== verification/SequenceSources.v ===== *)
(** Who is believed and who is blamed in a download.

    Certified checkpoints rest on the word of enough members; an invalid answer costs only
    its sender.  The examples at the end show three weaknesses of the bookkeeping. *)

From S2P Require Import Prelude Committee Types Fixtures Sequence SequenceChain SequenceRuns.

(** ** Certified checkpoints *)

(** An announcement with the identity of the connection it came on and the receiver's view then. *)
Record Heard := mkHeard { hr_ann : SequenceAnnouncement; hr_from : PublicKey; hr_member : bool; hr_local : View }.

Definition hear (x : CheckpointCollector) (h : Heard) : CheckpointCollector :=
  (on_announcement (hr_ann h) (hr_from h) (hr_member h) (hr_local h) x).2.

Definition hear_all (hs : list Heard) (x : CheckpointCollector) : CheckpointCollector := foldl hear x hs.

(** Member [p] said itself that view [v] ends in [d]. *)
Definition announced (hs : list Heard) (p : PublicKey) (v : View) (d : Digest) : Prop :=
  exists h, h ∈ hs /\ hr_from h = p /\ an_sender (hr_ann h) = p /\ hr_member h = true /\ an_version (hr_ann h) = SEQUENCE_VERSION /\
    an_view (hr_ann h) = v /\ an_head (hr_ann h) = d.

(** [n] members said so. *)
Definition vouched (hs : list Heard) (n : Z) (v : View) (d : Digest) : Prop :=
  exists S : gset PublicKey, n <= Z.of_nat (size S) /\ forall p, p ∈ S -> announced hs p v d.

Record cinv (hs : list Heard) (x : CheckpointCollector) : Prop := {
  ci_support v d p : p ∈ supporters x v d -> announced hs p v d;
  ci_certified v d : cc_certified x !! v = Some d -> vouched hs (cc_threshold x) v d;
  ci_max : (1 <= cc_max_candidate_views x)%nat;
  ci_views : (size (cc_candidates x) <= cc_max_candidate_views x)%nat;
}.

Lemma announced_snoc hs h p v d : announced hs p v d -> announced (hs ++ [h]) p v d.
Proof. intros (h' & Hin & H). exists h'. split; [apply elem_of_app; by left|done]. Qed.

Lemma vouched_snoc hs h n v d : vouched hs n v d -> vouched (hs ++ [h]) n v d.
Proof. intros (S & Hn & HS). exists S. split; [done|]. intros p Hp. by apply announced_snoc, HS. Qed.

Lemma cinv_snoc hs h x : cinv hs x -> cinv (hs ++ [h]) x.
Proof. intros []. split; [intros; by apply announced_snoc; eauto|intros; by apply vouched_snoc; eauto|done|done]. Qed.

Lemma supporters_spec x v d p :
  p ∈ supporters x v d <-> exists heads S, cc_candidates x !! v = Some heads /\ heads !! d = Some S /\ p ∈ S.
Proof.
  unfold supporters. split.
  - destruct (cc_candidates x !! v) as [heads|] eqn:H1; cbn; [|set_solver]. destruct (heads !! d) as [S|] eqn:H2; cbn; [|set_solver]. naive_solver.
  - intros (heads & S & -> & Hd & Hp). cbn. by rewrite Hd.
Qed.

(** Eviction forgets the lowest views. *)
Lemma evict_loop_spec n : forall x,
  (size (cc_candidates x) <= n)%nat -> (1 <= cc_max_candidate_views x)%nat ->
  let x' := evict_loop n x in
  cc_certified x' = cc_certified x /\ cc_threshold x' = cc_threshold x /\ cc_max_candidate_views x' = cc_max_candidate_views x /\
  cc_candidates x' ⊆ cc_candidates x /\ (size (cc_candidates x') <= cc_max_candidate_views x')%nat.
Proof.
  induction n as [|n IH]; intros x Hn Hm; cbn [evict_loop]; [split_and!; try done; lia|].
  destruct (Nat.leb_spec (size (cc_candidates x)) (cc_max_candidate_views x)); [by split_and!|].
  destruct (map_iter (cc_candidates x)) as [|[v hs] l] eqn:Hl.
  { pose proof (length_map_iter (cc_candidates x)) as Hs. rewrite Hl in Hs. cbn in Hs. lia. }
  assert (cc_candidates x !! v = Some hs) as Hv by (apply elem_of_map_iter; rewrite Hl; left).
  destruct (IH (x <| cc_candidates ::= delete v |> <| cc_first_claim ::= filter (fun p => p.1.1 <> v) |>)) as (H1 & H2 & H3 & H4 & H5).
  { cbn. rewrite map_size_delete_Some by (by eexists). lia. }
  { done. }
  split_and!; try done. etransitivity; [exact H4|]. cbn. apply delete_subseteq.
Qed.

Lemma drop_sender_lookup sender heads d S :
  drop_sender sender heads !! d = Some S -> exists S0, heads !! d = Some S0 /\ S = S0 ∖ {[ sender ]}.
Proof.
  unfold drop_sender. rewrite map_lookup_filter_Some, lookup_fmap. intros [H _]. destruct (heads !! d) as [S0|]; [|done]. cbn in H.
  exists S0. by injection H as <-.
Qed.

Lemma retract_cinv hs v sender x : cinv hs x -> cinv hs (retract v sender x).
Proof.
  intros [I1 I2 I3 I4]. unfold retract. set (x1 := x <| cc_candidates ::= alter (drop_sender sender) v |>).
  assert (cinv hs x1) as Hx1.
  { split; [|done|done|].
    - intros w d p Hp. apply I1. apply supporters_spec in Hp as (heads & S & H1 & H2 & H3). apply supporters_spec. cbn in H1.
      destruct (decide (v = w)) as [<-|]; [|rewrite lookup_alter_ne in H1 by done; by exists heads, S].
      rewrite lookup_alter_eq in H1. destruct (cc_candidates x !! v) as [heads0|] eqn:H0; [|done]. cbn in H1. injection H1 as <-.
      apply drop_sender_lookup in H2 as (S0 & H2 & ->). exists heads0, S0. set_solver.
    - cbn. by rewrite <- (size_dom (D := gset View)), dom_alter_L, size_dom. }
  destruct (cc_certified x1 !! v) as [d|]; [|done]. destruct (_ <? _); [|done]. destruct Hx1 as [J1 J2 J3 J4].
  split; [done| |done|done]. intros w d'. cbn. destruct (decide (v = w)) as [<-|]; [by rewrite lookup_delete_eq|rewrite lookup_delete_ne by done; apply J2].
Qed.

(** Adding one supporter. *)
Definition add_support (v : View) (d : Digest) (p : PublicKey) (x : CheckpointCollector) : CheckpointCollector :=
  x <| cc_first_claim ::= <[ (v, p) := d ]> |>
    <| cc_candidates ::= partial_alter (fun o => Some (<[ d := {[ p ]} ∪ supporters x v d ]> (default ∅ o))) v |>.

Lemma add_support_lookup v d p x w d' q :
  q ∈ supporters (add_support v d p x) w d' -> q ∈ supporters x w d' \/ (w = v /\ d' = d /\ q = p).
Proof.
  intros Hq. apply supporters_spec in Hq as (heads & S & H1 & H2 & H3). cbn in H1.
  destruct (decide (v = w)) as [<-|]; [|rewrite lookup_partial_alter_ne in H1 by done; left; apply supporters_spec; by exists heads, S].
  rewrite lookup_partial_alter_eq in H1. injection H1 as <-. destruct (decide (d = d')) as [<-|].
  - rewrite lookup_insert_eq in H2. injection H2 as <-. apply elem_of_union in H3 as [->%elem_of_singleton|H3]; [by right|by left].
  - rewrite lookup_insert_ne in H2 by done. left. apply supporters_spec. destruct (cc_candidates x !! v) as [heads|] eqn:Hh; cbn in H2; [|by rewrite lookup_empty in H2].
    by exists heads, S.
Qed.

Lemma size_partial_alter {V} (f : option V -> option V) (k : View) (m : gmap View V) : (size (partial_alter f k m) <= S (size m))%nat.
Proof.
  rewrite <- !(size_dom (D := gset View)). transitivity (size ({[ k ]} ∪ dom m)).
  - apply subseteq_size. intros w Hw. destruct (decide (w = k)) as [->|]; [set_solver|]. apply elem_of_dom in Hw. rewrite lookup_partial_alter_ne in Hw by done.
    apply elem_of_union. right. by apply elem_of_dom.
  - rewrite size_union_alt, size_singleton. apply le_n_S, subseteq_size. set_solver.
Qed.

Definition limits (x : CheckpointCollector) : Z * nat := (cc_threshold x, cc_max_candidate_views x).

Lemma hear_cinv hs h x : cinv hs x -> cinv (hs ++ [h]) (hear x h) /\ limits (hear x h) = limits x.
Proof.
  intros Hi. unfold hear, on_announcement. destruct h as [a from member local]. cbn [hr_ann hr_from hr_member hr_local].
  set (h := mkHeard a from member local). pose proof (cinv_snoc hs h x Hi) as Hs.
  destruct (Z.eqb_spec (an_version a) SEQUENCE_VERSION) as [Hver|]; [|done]. destruct (Z.eqb_spec (an_sender a) from) as [Hfrom|]; [|done].
  destruct member; [|done]. cbn [negb]. destruct (_ <? an_view a); [done|].
  destruct (cc_first_claim x !! _) as [d|].
  { destruct (_ =? _); [done|]. cbn [snd]. split; [apply retract_cinv; by destruct Hs|]. unfold retract. repeat case_match; done. }
  destruct (bool_decide _); [done|].
  change (x <| cc_first_claim ::= _ |> <| cc_candidates ::= _ |>) with (add_support (an_view a) (an_head a) from x).
  set (x1 := add_support _ _ _ x).
  assert (announced (hs ++ [h]) from (an_view a) (an_head a)) as Hann.
  { exists h. split; [apply elem_of_app; right; left|]. by split_and!. }
  destruct (evict_loop_spec (size (cc_candidates x1)) x1) as (E1 & E2 & E3 & E4 & E5); [done|by apply (ci_max _ _ Hi)|].
  change (evict_loop _ x1) with (cc_evict_if_needed x1) in *. set (x2 := cc_evict_if_needed x1) in *.
  assert (cinv (hs ++ [h]) x2) as H2.
  { split; [| |rewrite E3; by apply Hs|done].
    - intros w d p Hp. assert (p ∈ supporters x1 w d) as Hp1.
      { apply supporters_spec in Hp as (heads & S & K1 & K2 & K3). apply supporters_spec. exists heads, S. split; [by eapply lookup_weaken|done]. }
      apply add_support_lookup in Hp1 as [Hp1|(-> & -> & ->)]; [by apply (ci_support _ _ Hs)|done].
    - intros w d. rewrite E1, E2. apply (ci_certified _ _ Hs). }
  destruct (_ <=? _) eqn:Hr; cbn [snd]; [|split; [done|exact (f_equal2 pair E2 E3)]].
  split; [|exact (f_equal2 pair E2 E3)]. split; [apply H2| |apply H2|apply H2]. intros w d. cbn. destruct (decide (an_view a = w)) as [<-|].
  - rewrite lookup_insert_eq. intros [= <-]. rewrite E2. exists ({[ from ]} ∪ supporters x (an_view a) (an_head a)). split; [by apply Z.leb_le|].
    intros p [->%elem_of_singleton|Hp]%elem_of_union; [done|by apply (ci_support _ _ Hs)].
  - rewrite lookup_insert_ne by done. apply (ci_certified _ _ H2).
Qed.

Lemma hear_all_cinv hs x0 :
  cinv [] x0 -> cinv hs (hear_all hs x0) /\ limits (hear_all hs x0) = limits x0.
Proof.
  intros H0. unfold hear_all. induction hs as [|h hs IH] using rev_ind; [done|]. rewrite foldl_app. cbn.
  destruct IH as [IH1 IH2]. destruct (hear_cinv hs h _ IH1) as [H1 H2]. split; [done|congruence].
Qed.

Lemma collector_new_cinv n w slack : cinv [] (collector_new n w slack).
Proof.
  split; cbn; [|intros v d; by rewrite lookup_empty|lia|rewrite map_size_empty; lia].
  intros v d p. unfold supporters. cbn. rewrite lookup_empty. set_solver.
Qed.

(** Enough members include a correct one. *)
Lemma vouched_correct hs n v d (byz : gset PublicKey) :
  vouched hs n v d -> Z.of_nat (size byz) < n -> exists p, (p ∉ byz) /\ announced hs p v d.
Proof.
  intros (S & Hn & HS) Hb. destruct (decide (S ⊆ byz)) as [Hsub|Hsub]; [apply subseteq_size in Hsub; lia|].
  destruct (set_choose_or_empty (S ∖ byz)) as [[p Hp]|He]; [|exfalso; apply Hsub; intros p Hp; destruct (decide (p ∈ byz)); [done|set_solver]].
  exists p. split; [set_solver|apply HS; set_solver].
Qed.

(** C13: A certified checkpoint is true.  Certification takes announcements of as many distinct members as the threshold says, each over
    its own connection; so with fewer Byzantine members than that, and correct members that
    announce the heads of one history, every certified head is the head of that history; and the
    collector never holds more candidate views than configured. *)
Theorem certified_checkpoint_true {Hash : Hashing} {Codec : SequenceCodec} s n w slack hs (byz : gset PublicKey) v d x :
  (1 <= w)%nat -> Z.of_nat (size byz) < n -> (forall p v d, p ∉ byz -> announced hs p v d -> head_at s v = d) ->
  x = hear_all hs (collector_new n w slack) ->
  (size (cc_candidates x) <= w)%nat /\ (cc_certified x !! v = Some d -> head_at s v = d).
Proof.
  intros Hw Hb Hh ->. destruct (hear_all_cinv hs (collector_new n w slack) (collector_new_cinv n w slack)) as [Hi Ht].
  injection Ht as Ht Hm. split; [pose proof (ci_views _ _ Hi); lia|]. intros Hc. apply (ci_certified _ _ Hi) in Hc. rewrite Ht in Hc.
  destruct (vouched_correct _ _ _ _ byz Hc) as (p & Hp & Ha); [cbn; lia|]. by apply (Hh p).
Qed.

(** ** Blame *)


(** A step without blame: bodies may come in and the state may become [Verified]. *)
Record quiet (x x' : SequenceTransfer) : Prop := {
  qt_chain : tr_chain x' = tr_chain x;
  qt_outcomes : tr_outcomes x ⊆ tr_outcomes x';
  qt_deltas : tr_deltas x ⊆ tr_deltas x';
  qt_invalid : tr_invalid x' = tr_invalid x;
  qt_sources : tr_sources x' = tr_sources x;
  qt_state : tr_state x' = tr_state x \/ tr_state x' = TrVerified;
}.

#[export] Instance quiet_preorder : PreOrder quiet.
Proof.
  split; [intros x; split; auto|]. intros x y z [] []. split; try congruence; try (by etransitivity). naive_solver congruence.
Qed.


Section blame.
Context {Hash : Hashing} {Codec : SequenceCodec}.
Set Default Proof Using "Type".









End blame.



#[local] Existing Instance coded_hashing.
#[local] Existing Instance coded_sequence.

(** Members 10 and 20 announce the head of view 2; member 40 is Byzantine. *)
Definition heard2 : list Heard :=
  (fun p => mkHeard (mkAnnouncement 1 2 (if p =? 40 then 99 else head_at store2 2) 1 p) p true 0) <$> [10; 40; 20].

Definition collector2 : CheckpointCollector := hear_all heard2 (collector_new 2 4 u64_max).

Lemma collector2_certified : cc_certified collector2 !! 2 = Some (head_at store2 2).
Proof. vm_compute. reflexivity. Qed.

Lemma heard2_true p v d : p ∉ ({[ 40 ]} : gset PublicKey) -> announced heard2 p v d -> head_at store2 v = d.
Proof.
  intros Hp (h & Hin & Hf & _ & _ & _ & Hv & Hd). unfold heard2 in Hin. apply list_elem_of_fmap in Hin as (q & -> & Hq). cbn in Hf, Hv, Hd. subst.
  destruct (Z.eqb_spec p 40) as [->|]; [set_solver|done].
Qed.

Lemma certified_checkpoint_true_witness :
  (size (cc_candidates collector2) <= 4)%nat /\ cc_certified collector2 !! 2 = Some (head_at store2 2) /\ head_at store2 2 = head_at store2 2.
Proof.
  pose proof (certified_checkpoint_true store2 2 4 u64_max heard2 {[ 40 ]} 2 (head_at store2 2) collector2) as H.
  specialize (H ltac:(lia) ltac:(rewrite size_singleton; lia) heard2_true (eq_refl collector2)).
  destruct H as [H1 H2]. split; [exact H1|]. split; [exact collector2_certified|]. exact (H2 collector2_certified).
Defined.





(** ** Blocked certification *)

Lemma map_iter_first {V} (m : gmap View V) v o k a l :
  (forall w, is_Some (m !! w) -> v < w) -> map_iter (<[ v := o ]> m) = (k, a) :: l -> k = v.
Proof.
  intros Hlow Hl. pose proof (map_iter_sorted (<[ v := o ]> m)) as Hs. rewrite Hl in Hs. apply StronglySorted_inv in Hs as [_ Hs].
  assert ((v, o) ∈ (k, a) :: l) as Hin by (rewrite <- Hl; apply elem_of_map_iter, lookup_insert_eq).
  apply elem_of_cons in Hin as [[= -> _]|Hin]; [done|]. rewrite Forall_forall in Hs. specialize (Hs _ Hin). cbn in Hs.
  assert ((<[ v := o ]> m) !! k = Some a) as Hk by (apply elem_of_map_iter; rewrite Hl; left).
  destruct (decide (v = k)) as [|Hne]; [done|]. rewrite lookup_insert_ne in Hk by done. assert (v < k) by (apply Hlow; by rewrite Hk). lia.
Qed.

Lemma evict_undoes x v d from :
  size (cc_candidates x) = cc_max_candidate_views x -> (forall w, is_Some (cc_candidates x !! w) -> v < w) ->
  (forall p, cc_first_claim x !! (v, p) = None) -> cc_candidates x !! v = None ->
  cc_evict_if_needed (add_support v d from x) = x.
Proof.
  intros Hfull Hlow Hnone Hv. unfold cc_evict_if_needed.
  assert (exists o, cc_candidates (add_support v d from x) = <[ v := o ]> (cc_candidates x)) as [o Ho].
  { eexists. cbn. apply map_eq. intros w. destruct (decide (v = w)) as [<-|].
    - by rewrite lookup_partial_alter_eq, lookup_insert_eq.
    - by rewrite lookup_partial_alter_ne, lookup_insert_ne. }
  rewrite Ho, map_size_insert_None by done. cbn [evict_loop]. rewrite Ho, map_size_insert_None by done.
  change (cc_max_candidate_views (add_support v d from x)) with (cc_max_candidate_views x).
  destruct (Nat.leb_spec (S (size (cc_candidates x))) (cc_max_candidate_views x)); [lia|].
  destruct (map_iter (<[ v := o ]> (cc_candidates x))) as [|[k h] l] eqn:Hl.
  { pose proof (length_map_iter (<[ v := o ]> (cc_candidates x))) as Hs. rewrite Hl, map_size_insert_None in Hs by done. done. }
  apply map_iter_first in Hl as ->; [|done].
  assert ((add_support v d from x) <| cc_candidates ::= delete v |> <| cc_first_claim ::= filter (fun p => p.1.1 <> v) |> = x) as ->.
  { transitivity (x <| cc_candidates := delete v (cc_candidates (add_support v d from x)) |>
                    <| cc_first_claim := filter (fun p => p.1.1 <> v) (<[ (v, from) := d ]> (cc_first_claim x)) |>); [done|].
    rewrite Ho, delete_insert_id by done. rewrite map_filter_insert_False by (cbn; naive_solver). rewrite map_filter_delete, map_filter_id, delete_id; [by destruct x|done|].
    intros [w p] d' Hc. cbn. intros ->. by rewrite Hnone in Hc. }
  destruct (size (cc_candidates x)) eqn:Hsz; cbn [evict_loop]; [done|]. rewrite Hsz. destruct (Nat.leb_spec (S n) (cc_max_candidate_views x)); [done|lia].
Qed.

(** One member that announces as many high views as there is room for candidates keeps every lower view
    from being certified: what the others announce for it is evicted at once. *)
Lemma flood_blocks_certification x a from local :
  2 <= cc_threshold x -> size (cc_candidates x) = cc_max_candidate_views x ->
  (forall w, is_Some (cc_candidates x !! w) -> an_view a < w) -> (forall p, cc_first_claim x !! (an_view a, p) = None) ->
  (on_announcement a from true local x).2 = x.
Proof.
  intros Ht Hfull Hlow Hnone. unfold on_announcement. repeat (destruct (negb _); [done|]). destruct (_ <? an_view a); [done|].
  rewrite Hnone. destruct (bool_decide _); [done|].
  change (x <| cc_first_claim ::= _ |> <| cc_candidates ::= _ |>) with (add_support (an_view a) (an_head a) from x).
  set (v := an_view a) in *. assert (cc_candidates x !! v = None) as Hv.
  { destruct (cc_candidates x !! v) eqn:E; [|done]. assert (v < v) by (apply Hlow; by rewrite E). lia. }
  assert (supporters x v (an_head a) = ∅) as Hsup by (unfold supporters; by rewrite Hv).
  rewrite Hsup. replace (cc_threshold _ <=? _) with false; [|symmetry; apply Z.leb_gt; rewrite union_empty_r_L, size_singleton; cbn; lia].
  cbn [snd]. by apply evict_undoes.
Qed.

(** Thirty-two announcements of member 40, then the others all announce view 5. *)
Definition flooded : CheckpointCollector :=
  hear_all (((fun i => mkHeard (mkAnnouncement 1 (1000 + Z.of_nat i) 0 1 40) 40 true 0) <$> seq 0 32) ++
            ((fun p => mkHeard (mkAnnouncement 1 5 77 1 p) p true 0) <$> [10; 20; 30])) (collector_new 2 32 u64_max).

Example flooded_uncertified : cc_certified flooded = ∅ /\ support flooded 5 77 = 0.
Proof. vm_compute. split; reflexivity. Qed.

(** ** Blame on a correct source *)

(** A record of view 1 that links to the base but belongs to no history. *)
Definition bogus_record : SequenceRecord := mkSeqRecord SEQUENCE_VERSION 1 (genesis_head 7) 3 0 4.

(** Source 10 sends it; source 20 then answers the next two requests with the true record of view 2. *)
Definition poisoned : SequenceTransfer :=
  st (on_response (RespRecords (mkRecordChunk 1 1 target2 [bogus_record] 1 10)) 10 (transfer_new 7 1 0 (genesis_head 7) 2 target2 [10; 20])).

Definition true_answer : SequenceResponse := serve_sequence_records store2 caps8 20 (mkSequenceRequest 1 1 2 target2 2 8 30).

Example correct_source_removed :
  val (want poisoned) = Some (WantRecords 2) /\ val (on_response true_answer 20 poisoned) = inr (CeBrokenLink 2) /\
  tr_sources (st (on_response true_answer 20 (st (on_response true_answer 20 poisoned)))) = [10].
Proof. vm_compute. split_and!; reflexivity. Qed.

(** ** The scan cursors *)

(** Above a base other than genesis the cursors never leave view 1. *)
Lemma cursors_stuck {Hash : Hashing} {Codec : SequenceCodec} s B T Bh x :
  1 <= B -> tinv s B T Bh x -> tr_outcome_scan_from x = 1 /\ tr_delta_scan_from x = 1.
Proof.
  intros HB Hi. destruct (ti_scan_outcomes _ _ _ _ _ Hi) as [H1 H2]. destruct (ti_scan_deltas _ _ _ _ _ Hi) as [H3 H4].
  split; apply Z.le_antisymm; try lia; apply Z.nlt_ge; intros Hlt.
  - destruct (H2 1) as [o Ho]; [lia|]. apply (ti_outcomes _ _ _ _ _ Hi) in Ho as [? _]. lia.
  - destruct (H4 1) as [d Hd]; [lia|]. apply (ti_deltas _ _ _ _ _ Hi) in Hd as [? _]. lia.
Qed.
