(* ===== verification/Install.v ===== *)
(** Installing a verified sequence.

    Models [SequenceInstall] of [src/primary/src/vantage/install.rs] - views staged in order, a window of
    views admitted for fetching, readiness checked under a budget - and the handlers of
    [src/primary/src/vantage/node.rs] that move it along with the output cursor:
    [rebase_sequence_install], [apply_sequence_install] and the part of [drive_sequence_install]
    between them.  The block cache is read as it is when a handler runs.  Left out: metrics and logging, the
    retry of payload downloads, and entering the first live view after the last one is installed,
    which is returned to the caller. *)

From S2P Require Import Prelude Committee Types Blocks Cursor.

Definition DEFAULT_WINDOW_VIEWS : nat := 64.

Inductive RebaseOutcome :=
| RbContinue
| RbOvertaken
| RbDiverged (view : View) (expected local : Digest).

Record StagedView := mkStaged {
  sv_outcome : SequenceOutcome;
  sv_delta : list Digest;
  sv_refs : list BlockRef;
  sv_admitted : bool;
  sv_ready_prefix : nat;
  sv_complete : bool;
}.

Definition sv_eta (x : StagedView) : StagedView :=
  mkStaged (sv_outcome x) (sv_delta x) (sv_refs x) (sv_admitted x) (sv_ready_prefix x) (sv_complete x).

#[export] Instance set_sv_admitted : Setter sv_admitted.
Proof. solve_setter sv_eta sv_admitted. Defined.
#[export] Instance set_sv_ready_prefix : Setter sv_ready_prefix.
Proof. solve_setter sv_eta sv_ready_prefix. Defined.
#[export] Instance set_sv_complete : Setter sv_complete.
Proof. solve_setter sv_eta sv_complete. Defined.

Record SequenceInstall := mkInstall {
  si_base_view : View;
  si_target_view : View;
  si_target_head : Digest;
  si_views : gmap View StagedView;
  si_lane_tips : gmap PublicKey BlockRef;
  si_installed_lane_tips : gmap PublicKey Header;
  si_heads : gmap View Digest;
  si_next_admit : View;
  si_next_install : View;
  si_window_views : nat;
}.

Definition si_eta (x : SequenceInstall) : SequenceInstall :=
  mkInstall (si_base_view x) (si_target_view x) (si_target_head x) (si_views x) (si_lane_tips x) (si_installed_lane_tips x)
    (si_heads x) (si_next_admit x) (si_next_install x) (si_window_views x).

#[export] Instance set_si_views : Setter si_views.
Proof. solve_setter si_eta si_views. Defined.
#[export] Instance set_si_lane_tips : Setter si_lane_tips.
Proof. solve_setter si_eta si_lane_tips. Defined.
#[export] Instance set_si_installed_lane_tips : Setter si_installed_lane_tips.
Proof. solve_setter si_eta si_installed_lane_tips. Defined.
#[export] Instance set_si_next_admit : Setter si_next_admit.
Proof. solve_setter si_eta si_next_admit. Defined.
#[export] Instance set_si_next_install : Setter si_next_install.
Proof. solve_setter si_eta si_next_install. Defined.

Definition manifest_refs (o : SequenceOutcome) : list BlockRef :=
  match o with SeqFull c t => c ++ t | SeqCore c => c | SeqSkip => [] end.

(** [lane_tips.insert(..)] if the entry is missing or lower. *)
Definition raise_tip (tips : gmap PublicKey BlockRef) (r : BlockRef) : gmap PublicKey BlockRef :=
  match tips !! ref_author r with
  | Some current => if ref_height current <? ref_height r then <[ ref_author r := r ]> tips else tips
  | None => <[ ref_author r := r ]> tips
  end.

(** The loop of [new] over the staged output. *)
Definition stage_view (base target : View) (p : gmap View StagedView * gmap PublicKey BlockRef)
    (e : View * SequenceOutcome * list Digest) : gmap View StagedView * gmap PublicKey BlockRef :=
  let '(view, outcome, delta) := e in
  if (view <=? base) || (target <? view) then p
  else
    let refs := manifest_refs outcome in
    (<[ view := mkStaged outcome delta refs false 0 (bool_decide (delta = []) && bool_decide (refs = [])) ]> p.1,
     foldl raise_tip p.2 refs).

Definition install_new (base_view target_view : View) (target_head : Digest) (staged : list (View * SequenceOutcome * list Digest))
    (heads : list (View * Digest)) (window_views : nat) : SequenceInstall :=
  let heads := filter (fun p => base_view < p.1 /\ p.1 <= target_view) heads in
  let r := foldl (stage_view base_view target_view) (∅, ∅) staged in
  mkInstall base_view target_view target_head r.1 r.2 ∅ (foldl (fun m p => <[ p.1 := p.2 ]> m) ∅ heads)
    (u64_add base_view 1) (u64_add base_view 1) (Nat.max window_views 1).

(** The loop of [rebase]: at most [n] turns are left. *)
Fixpoint rebase_loop (n : nat) (local_view : View) (x : SequenceInstall) : SequenceInstall :=
  match n with
  | O => x
  | S n =>
      if (si_next_install x <=? local_view) && (si_next_install x <=? si_target_view x) then
        rebase_loop n local_view (x <| si_views ::= delete (si_next_install x) |> <| si_next_install ::= fun v => u64_add v 1 |>)
      else x
  end.

Definition rebase (local_view : View) (local_head : Digest) (x : SequenceInstall) : RebaseOutcome * SequenceInstall :=
  match (if si_next_install x <=? local_view then si_heads x !! local_view else None) with
  | Some expected =>
      if negb (expected =? local_head) then (RbDiverged local_view expected local_head, x)
      else
        let x := rebase_loop (Z.to_nat (local_view - si_next_install x + 1)) local_view x in
        let x := x <| si_next_admit := Z.max (si_next_admit x) (si_next_install x) |> in
        (if si_target_view x <? si_next_install x then RbOvertaken else RbContinue, x)
  | None =>
      let x := rebase_loop (Z.to_nat (local_view - si_next_install x + 1)) local_view x in
      let x := x <| si_next_admit := Z.max (si_next_admit x) (si_next_install x) |> in
      (if si_target_view x <? si_next_install x then RbOvertaken else RbContinue, x)
  end.

Definition is_contiguous (x : SequenceInstall) : bool :=
  forallb (fun v => bool_decide (is_Some (si_views x !! v))) (seqZ (si_base_view x + 1) (si_target_view x - si_base_view x)).

Definition lane_tips (x : SequenceInstall) : list (PublicKey * Height) :=
  (fun p => (ref_author p.2, ref_height p.2)) <$> map_iter (si_lane_tips x).

Definition views_complete (x : SequenceInstall) : nat :=
  length (filter (fun p => sv_complete p.2 = true) (map_iter (si_views x))).

(** The staged views that are being fetched, in order. *)
Definition fetching (x : SequenceInstall) : list StagedView :=
  filter (fun sv => sv_admitted sv && negb (sv_complete sv) = true) (snd <$> map_iter (si_views x)).

Definition views_in_flight (x : SequenceInstall) : nat := length (fetching x).

(** [deliverable] of install.rs. *)
Definition deliverable (blocks : BlockCache) (d : Digest) : bool :=
  match by_digest blocks !! d with Some e => ent_block_ok_verified e | None => false end.

Definition blocks_awaited (blocks : BlockCache) (x : SequenceInstall) : nat :=
  length (filter (fun d => deliverable blocks d = false) (mjoin (sv_delta <$> fetching x))).

(** The digests still to be checked, in order. *)
Definition unchecked (x : SequenceInstall) : list Digest := mjoin ((fun sv => drop (sv_ready_prefix sv) (sv_delta sv)) <$> fetching x).

Definition missing_digests (blocks : BlockCache) (scan_limit : nat) (x : SequenceInstall) : list Digest :=
  filter (fun d => deliverable blocks d = false) (take scan_limit (unchecked x)).

Definition payload_retry_headers (blocks : BlockCache) (limit : nat) (x : SequenceInstall) : list Header :=
  take limit (omap (fun d => e ← by_digest blocks !! d; if ent_payload_ok e then None else Some (ent_block e)) (unchecked x)).

(** The inner loop of [refresh_budgeted]. *)
Fixpoint ready_loop (n : nat) (blocks : BlockCache) (delta : list Digest) (budget ready examined : nat) : nat * nat :=
  match n with
  | O => (ready, examined)
  | S n =>
      if ((ready <? length delta) && (examined <? budget))%nat then
        match delta !! ready with
        | Some d => if deliverable blocks d then ready_loop n blocks delta budget (S ready) (S examined) else (ready, S examined)
        | None => (ready, S examined)
        end
      else (ready, examined)
  end.

(** The outer loop, over the keys in order; [Some] examined so far. *)
Fixpoint refresh_loop (views : list (View * StagedView)) (blocks : BlockCache) (budget examined : nat) (m : gmap View StagedView)
    : gmap View StagedView * nat :=
  match views with
  | [] => (m, examined)
  | (v, sv) :: views =>
      if sv_complete sv || negb (sv_admitted sv) then refresh_loop views blocks budget examined m
      else
        let r := ready_loop (length (sv_delta sv) - sv_ready_prefix sv) blocks (sv_delta sv) budget (sv_ready_prefix sv) examined in
        let sv := sv <| sv_ready_prefix := r.1 |> in
        let sv := if (r.1 =? length (sv_delta sv))%nat then sv <| sv_complete := true |> else sv in
        let m := <[ v := sv ]> m in
        if (r.2 =? budget)%nat then (m, r.2) else refresh_loop views blocks budget r.2 m
  end.

Definition refresh_budgeted (blocks : BlockCache) (budget : nat) (x : SequenceInstall) : nat * SequenceInstall :=
  let r := refresh_loop (map_iter (si_views x)) blocks budget 0 (si_views x) in
  (r.2, x <| si_views := r.1 |>).

(** The loop of [admit_views]: at most [n] views are left. *)
Fixpoint admit_loop (n : nat) (in_flight : nat) (x : SequenceInstall) : list BlockRef * SequenceInstall :=
  match n with
  | O => ([], x)
  | S n =>
      if (si_next_admit x <=? si_target_view x) && (in_flight <? si_window_views x)%nat then
        match si_views x !! si_next_admit x with
        | None => ([], x)
        | Some sv =>
            let view := si_next_admit x in
            let x := x <| si_next_admit ::= fun v => u64_add v 1 |> in
            if sv_complete sv then admit_loop n in_flight x
            else
              let r := admit_loop n (S in_flight) (x <| si_views ::= <[ view := sv <| sv_admitted := true |> ]> |>) in
              (sv_refs sv ++ r.1, r.2)
        end
      else ([], x)
  end.

Definition admit_views (x : SequenceInstall) : list BlockRef * SequenceInstall :=
  admit_loop (Z.to_nat (si_target_view x - si_next_admit x + 1)) (views_in_flight x) x.

Definition installable (x : SequenceInstall) : option View :=
  if si_target_view x <? si_next_install x then None
  else sv ← si_views x !! si_next_install x; if sv_complete sv then Some (si_next_install x) else None.

Definition view_output (x : SequenceInstall) (view : View) : option (SequenceOutcome * list Digest) :=
  (fun sv => (sv_outcome sv, sv_delta sv)) <$> si_views x !! view.

(** The highest installed header per lane. *)
Definition raise_installed (blocks : BlockCache) (tips : gmap PublicKey Header) (d : Digest) : gmap PublicKey Header :=
  match by_digest blocks !! d with
  | None => tips
  | Some e =>
      if negb (ent_block_ok_verified e) then tips
      else
        let h := ent_block e in
        match tips !! hd_author h with
        | Some current => if hd_height current <? hd_height h then <[ hd_author h := h ]> tips else tips
        | None => <[ hd_author h := h ]> tips
        end
  end.

(** [None] if the assertion on the order fails or the view is not staged, which panics. *)
Definition mark_installed (view : View) (blocks : BlockCache) (x : SequenceInstall) : option SequenceInstall :=
  if negb (view =? si_next_install x) then None
  else
    match si_views x !! view with
    | None => None
    | Some sv =>
        Some (x <| si_views ::= delete view |> <| si_installed_lane_tips ::= fun tips => foldl (raise_installed blocks) tips (sv_delta sv) |>
                <| si_next_install ::= fun v => u64_add v 1 |>)
    end.

Definition is_done (x : SequenceInstall) : bool := si_target_view x <? si_next_install x.

(** ** The node *)

(** The fields of the node that an installation uses. *)
Record InstallNode := mkInstallNode {
  in_cursor : Cursor;
  in_install : option SequenceInstall;
  in_verified_target : option (View * Digest);
  in_target_installed : bool;
}.

Definition in_eta (x : InstallNode) : InstallNode := mkInstallNode (in_cursor x) (in_install x) (in_verified_target x) (in_target_installed x).

#[export] Instance set_in_cursor : Setter in_cursor.
Proof. solve_setter in_eta in_cursor. Defined.
#[export] Instance set_in_install : Setter in_install.
Proof. solve_setter in_eta in_install. Defined.
#[export] Instance set_in_verified_target : Setter in_verified_target.
Proof. solve_setter in_eta in_verified_target. Defined.
#[export] Instance set_in_target_installed : Setter in_target_installed.
Proof. solve_setter in_eta in_target_installed. Defined.

Abbreviation NM := (M Effect InstallNode) (only parsing).

Definition on_cursor {A} (m : M Effect Cursor A) : NM A := fun x =>
  let r := m (in_cursor x) in Res (val r) (out r) (x <| in_cursor := st r |>).

(** [rebase_sequence_install]; the effects of [abort_install] are dropped here, as the code does. *)
Definition rebase_sequence_install (now : Z) (blocks : BlockCache) (local_head : Digest) : NM bool :=
  x ← get;
  match in_install x with
  | None => mret false
  | Some i =>
      let r := rebase (u64_saturating_sub (next_view (in_cursor x)) 1) local_head i in
      match r.1 with
      | RbContinue => modify (fun x => x <| in_install := Some r.2 |>);; mret true
      | RbOvertaken =>
          modify (fun x => x <| in_install := None |> <| in_cursor := st (abort_install now blocks (in_cursor x)) |>);; mret false
      | RbDiverged _ _ _ =>
          modify (fun x => x <| in_install := None |> <| in_verified_target := None |>
                             <| in_cursor := st (abort_install now blocks (in_cursor x)) |>);; mret false
      end
  end.

(** How the loop of [apply_sequence_install] ends. *)
Inductive ApplyEnd := ApStopped (applied : nat) | ApAborted | ApPanic.

(** The loop: at most [n] more views, [left] digests. *)
Fixpoint apply_loop (n : nat) (now : Z) (blocks : BlockCache) (left applied : nat) : NM ApplyEnd :=
  match n with
  | O => mret (ApStopped applied)
  | S n =>
      x ← get;
      if (left =? 0)%nat then mret (ApStopped applied)
      else
        match in_install x with
        | None => mret (ApStopped applied)
        | Some i =>
            match installable i with
            | None => mret (ApStopped applied)
            | Some view =>
                match view_output i view with
                | None => mret (ApStopped applied)
                | Some (outcome, delta) =>
                    r ← on_cursor (install_budgeted now blocks view outcome delta left);
                    match r with
                    | IPanic => mret ApPanic
                    | IErr _ =>
                        modify (fun x => x <| in_install := None |> <| in_verified_target := None |>);;
                        on_cursor (abort_install now blocks);; mret ApAborted
                    | IOk finalized examined =>
                        modify (fun x => x <| in_target_installed := true |>);;
                        if negb finalized then mret (ApStopped applied)
                        else
                          match mark_installed view blocks i with
                          | None => mret ApPanic
                          | Some i =>
                              modify (fun x => x <| in_install := Some i |>);;
                              apply_loop n now blocks (left - examined) (S applied)
                          end
                    end
                end
            end
        end
  end.

(** What the caller learns: the target is installed, with the own lane's tip in it. *)
Inductive Applied := ApDone (target : View) (own_anchor : option Header) | ApMore | ApFailed.

Definition apply_sequence_install (name : PublicKey) (enabled : bool) (views_per_tick : nat) (now : Z) (blocks : BlockCache)
    (digest_budget : nat) : NM Applied :=
  if negb enabled || (digest_budget =? 0)%nat then mret ApMore
  else
    r ← apply_loop views_per_tick now blocks digest_budget 0;
    match r with
    | ApPanic => mret ApFailed
    | ApAborted => mret ApMore
    | ApStopped applied =>
        x ← get;
        when (default u64_max (si_target_view <$> in_install x) <? next_view (in_cursor x)) (on_cursor (retry now blocks));;
        match in_install x with
        | Some i =>
            if (0 <? applied)%nat && is_done i then mret (ApDone (si_target_view i) (si_installed_lane_tips i !! name)) else mret ApMore
        | None => mret ApMore
        end
    end.

(** [drive_sequence_install] after the payload retries: the references to authorise and what was applied. *)
Definition drive_sequence_install (name : PublicKey) (enabled : bool) (views_per_tick digests_per_tick : nat) (now : Z)
    (blocks : BlockCache) (local_head : Digest) : NM (list BlockRef * Applied) :=
  ok ← rebase_sequence_install now blocks local_head;
  if negb ok then mret ([], ApMore)
  else
    x ← get;
    match in_install x with
    | None => mret ([], ApMore)
    | Some i =>
        let budget := Nat.max digests_per_tick 1 in
        let r := refresh_budgeted blocks budget i in
        let a := admit_views r.2 in
        modify (fun x => x <| in_install := Some a.2 |>);;
        applied ← apply_sequence_install name enabled views_per_tick now blocks (budget - r.1);
        mret (a.1, applied)
    end.
