(* ===== verification/InstallOrder.v ===== *)
(** Installation keeps the order of the output.

    A node whose staged views hold the decided output of their views may install them in budgeted
    pieces between ordinary events: its cursor stays one of the cursors of [CursorOrder], and no
    assertion of the installation fails.  A pumped cursor emits nothing when an installation is aborted. *)

From S2P Require Import Prelude Committee Types Blocks BlockChains Cursor Ledger Watermarks CursorOrder Install.

(** ** Staged views keep their content *)

Definition same_content (m m' : gmap View StagedView) : Prop :=
  forall v sv', m' !! v = Some sv' -> exists sv, m !! v = Some sv /\ sv_outcome sv' = sv_outcome sv /\ sv_delta sv' = sv_delta sv.

#[export] Instance same_content_preorder : PreOrder same_content.
Proof.
  split; [intros m v sv H; by exists sv|]. intros m1 m2 m3 H12 H23 v sv H. destruct (H23 v sv H) as (sv2 & H2 & E1 & E2).
  destruct (H12 v sv2 H2) as (sv1 & H1 & E3 & E4). exists sv1. split_and!; [done|congruence|congruence].
Qed.

Lemma content_delete m v : same_content m (delete v m).
Proof. intros w sv Hw. exists sv. apply lookup_delete_Some in Hw as [_ Hw]. done. Qed.

Lemma content_insert m v sv sv' :
  m !! v = Some sv -> sv_outcome sv' = sv_outcome sv -> sv_delta sv' = sv_delta sv -> same_content m (<[ v := sv' ]> m).
Proof.
  intros Hv E1 E2 w sw Hw. destruct (decide (v = w)) as [<-|]; [rewrite lookup_insert_eq in Hw; injection Hw as <-; by exists sv|].
  rewrite lookup_insert_ne in Hw by done. by exists sw.
Qed.

Lemma refresh_content views blocks budget : forall examined m m0,
  (forall v sv, (v, sv) ∈ views -> exists sv0, m0 !! v = Some sv0 /\ sv_outcome sv = sv_outcome sv0 /\ sv_delta sv = sv_delta sv0) ->
  same_content m0 m -> same_content m0 (refresh_loop views blocks budget examined m).1.
Proof.
  induction views as [|[v sv] views IH]; intros examined m m0 Hv Hm; [done|]. cbn [refresh_loop].
  assert (forall w sw, (w, sw) ∈ views -> exists sv0, m0 !! w = Some sv0 /\ sv_outcome sw = sv_outcome sv0 /\ sv_delta sw = sv_delta sv0) as Hv'
    by (intros w sw Hw; apply Hv; by right).
  destruct (_ || _); [by apply IH|]. set (r := ready_loop _ _ _ _ _ _). set (sv1 := if (r.1 =? _)%nat then _ else _).
  assert (same_content m0 (<[ v := sv1 ]> m)) as Hm1.
  { intros w sw Hw. destruct (decide (v = w)) as [<-|]; [|rewrite lookup_insert_ne in Hw by done; by apply Hm].
    rewrite lookup_insert_eq in Hw. injection Hw as <-. destruct (Hv v sv) as (sv0 & H0 & E1 & E2); [left|]. exists sv0. split; [done|].
    unfold sv1. by destruct (_ =? _)%nat. }
  destruct (r.2 =? budget)%nat; [exact Hm1|by apply IH].
Qed.

Lemma refresh_budgeted_content blocks budget x : same_content (si_views x) (si_views (refresh_budgeted blocks budget x).2).
Proof. unfold refresh_budgeted. cbn. apply refresh_content; [|done]. intros v sv Hv. apply elem_of_map_iter in Hv. by exists sv. Qed.

Lemma admit_content n : forall in_flight x, same_content (si_views x) (si_views (admit_loop n in_flight x).2).
Proof.
  induction n as [|n IH]; intros in_flight x; [done|]. cbn [admit_loop]. destruct (_ && _); [|done].
  destruct (si_views x !! si_next_admit x) as [sv|] eqn:Hv; [|done]. destruct (sv_complete sv);
    [pose proof (IH in_flight (x <| si_next_admit ::= fun v => u64_add v 1 |>)) as H; exact H|]. cbn [snd].
  etransitivity; [|apply IH]. cbn. by eapply content_insert.
Qed.

Lemma rebase_loop_content n local : forall x, same_content (si_views x) (si_views (rebase_loop n local x)).
Proof.
  induction n as [|n IH]; intros x; [done|]. cbn [rebase_loop]. destruct (_ && _); [|done]. etransitivity; [|apply IH]. cbn. apply content_delete.
Qed.

(** ** A pumped cursor is quiet *)

Section pumped.
Context (blocks : BlockCache).

(** A manifest some of whose blocks the cursor misses. *)
Definition blocked (m : Manifest) (c : Cursor) : Prop :=
  (manifest_suffixes blocks (cur_genesis c) (watermarks c) m).1 = None.

(** No iteration of [pump] gets further. *)
Definition pumped (c : Cursor) : Prop :=
  forall input, pending c !! next_view c = Some input -> ip_view <$> installing c <> Some (next_view c) ->
    (forall core tips, vin_completed input = Some (core, tips) -> next_view c ∈ core_emitted c \/ blocked core c) /\
    match vin_sealed input with
    | None => True
    | Some OSkip => False
    | Some (OCore core) => (next_view c ∉ core_emitted c) /\ blocked core c
    | Some (OFull core tips) => if decide (next_view c ∈ core_emitted c) then blocked tips c else blocked core c
    end.

Lemma expand_blocked m c : blocked m c -> wp (expand blocks m) c (fun r o _ => r = None /\ o = []).
Proof. intros Hm. unfold wp. rewrite expand_run. cbn zeta. by rewrite Hm. Qed.

(** [emit_core] settles its manifest or leaves all but a counter alone. *)
Lemma emit_core_settles now core c :
  wp (emit_core now blocks core) c (fun ok o c' =>
    next_view c' = next_view c /\ pending c' = pending c /\ installing c' = installing c /\
    if ok then next_view c ∈ core_emitted c' /\ ((next_view c ∈ core_emitted c /\ o = [] /\ c' = c) \/ ((next_view c ∉ core_emitted c) /\ ~ blocked core c))
    else (next_view c ∉ core_emitted c) /\ blocked core c /\ o = [] /\ exists n, c' = c <| forked_dropped := n |>).
Proof.
  apply wp_bind, wp_get. case_bool_decide as He; [by apply wp_ret; auto 10|]. apply wp_bind. unfold wp, blocked. rewrite expand_run. cbn zeta.
  destruct (_.1) as [sfx|] eqn:Hs; cbn [val out st]; [|cbn; split_and!; [done..|by eexists]].
  unfold emit_hashes. rewrite !bind_run. cbn [val st modify]. destruct (decide _); cbn; split_and!; try done; try set_solver; by right.
Qed.

Lemma completed_settles now input c :
  wp (emit_completed_core now blocks input) c (fun _ o c' =>
    next_view c' = next_view c /\ pending c' = pending c /\ installing c' = installing c /\
    (forall core tips, vin_completed input = Some (core, tips) -> next_view c' ∈ core_emitted c' \/ blocked core c') /\
    ((forall core tips, vin_completed input = Some (core, tips) -> next_view c ∈ core_emitted c \/ blocked core c) ->
      o = [] /\ exists n, c' = c <| forked_dropped := n |>)).
Proof.
  assert (exists n, c = c <| forked_dropped := n |>) as Hsame by (exists (forked_dropped c); by destruct c).
  unfold emit_completed_core. destruct (vin_completed input) as [[core tips]|]; [|by apply wp_skip; auto 10].
  apply wp_bind. eapply wp_mono; [apply emit_core_settles|]. intros ok o c' (H1 & H2 & H3 & H). apply wp_skip. rewrite app_nil_r.
  split_and!; try done.
  - intros ? ? [= <- <-]. destruct ok; [left; rewrite H1; by apply H|right]. destruct H as (_ & Hb & _ & n & ->). exact Hb.
  - intros Hc. specialize (Hc core tips eq_refl). destruct ok; [|naive_solver]. destruct H as [_ [(_ & -> & ->)|[He Hb]]]; [done|]. by destruct Hc.
Qed.

(** A step on a pumped cursor does nothing visible. *)
Lemma pumped_step now c : pumped c -> val (pump_step now blocks c) = false /\ out (pump_step now blocks c) = [].
Proof.
  intros Hp. cut (wp (pump_step now blocks) c (fun b o _ => b = false /\ o = [])); [done|]. apply wp_bind, wp_get.
  destruct (pending c !! next_view c) as [input|] eqn:Hi; [|by apply wp_ret]. case_bool_decide as Hn; [by apply wp_ret|].
  destruct (Hp input Hi Hn) as [Hc Hs]. apply wp_bind. eapply wp_mono; [apply completed_settles|].
  intros [] o c' (_ & _ & _ & _ & Hq). destruct (Hq Hc) as [-> [n ->]]. cbn [app].
  assert (forall core, next_view c ∉ core_emitted c -> blocked core c ->
    wp (emit_core now blocks core) (c <| forked_dropped := n |>) (fun ok o _ => ok = false /\ o = [])) as Hcore.
  { intros core He Hb. eapply wp_mono; [apply emit_core_settles|]. intros [] o c' (_ & _ & _ & H); [|naive_solver].
    destruct H as [_ [[? _]|[_ H]]]; [done|by destruct H]. }
  destruct (vin_sealed input) as [[core tips|core|]|]; [..|by apply wp_ret]; [|destruct Hs as [He Hb]|done].
  - destruct (decide _) as [He|He].
    + apply wp_bind. eapply wp_mono; [apply emit_core_settles|]. intros ok o c' (_ & _ & _ & H).
      destruct ok; [|by destruct H]. destruct H as [_ [(_ & -> & ->)|[? _]]]; [|done]. cbn [negb]. apply wp_bind.
      eapply wp_mono; [by apply expand_blocked|]. intros r o c' [-> ->]. by apply wp_ret.
    + apply wp_bind. eapply wp_mono; [by apply Hcore|]. intros ok o c' [-> ->]. by apply wp_ret.
  - apply wp_bind. eapply wp_mono; [by apply Hcore|]. intros ok o c' [-> ->]. by apply wp_ret.
Qed.

(** The loop stops on a pumped cursor. *)
Lemma stopped_pumped now c : val (pump_step now blocks c) = false -> pumped (st (pump_step now blocks c)).
Proof.
  cut (wp (pump_step now blocks) c (fun b _ c' => b = false -> pumped c')); [done|]. apply wp_bind, wp_get.
  destruct (pending c !! next_view c) as [input|] eqn:Hi; [|apply wp_ret; intros _ i ?; congruence].
  case_bool_decide as Hn; [by apply wp_ret; intros _ i _ ?|]. apply wp_bind. eapply wp_mono; [apply completed_settles|].
  intros [] o c1 (V1 & P1 & I1 & C1 & _). rewrite <- V1, <- P1 in Hi. clear V1 P1 I1 Hn c o. rename c1 into c.
  assert (forall o, wp (finalize o;; mret true) c (fun b _ c' => b = false -> pumped c')) as Hfin by done.
  destruct (vin_sealed input) as [[core tips|core|]|] eqn:Hs.
  - apply wp_bind. eapply wp_mono; [apply emit_core_settles|]. intros ok o c' (V & P & I & H). destruct ok; cbn [negb].
    + destruct H as [He H]. apply wp_bind. unfold wp at 1. rewrite expand_run. cbn zeta.
      destruct (_.1) as [sfx|] eqn:Hx; cbn [val out st]; [done|]. apply wp_ret. intros _ i Hi' _. cbn in Hi'. rewrite V, P, Hi in Hi'. injection Hi' as <-.
      cbn. rewrite V, Hs, decide_True by done. split; [by left|exact Hx].
    + destruct H as (He & Hb & _ & n & ->). apply wp_ret. intros _ i Hi' _. cbn in Hi'. rewrite Hi in Hi'. injection Hi' as <-.
      split; [exact C1|]. rewrite Hs. cbn. by rewrite decide_False.
  - apply wp_bind. eapply wp_mono; [apply emit_core_settles|]. intros ok o c' (V & P & I & H). destruct ok; cbn [negb]; [done|].
    destruct H as (He & Hb & _ & n & ->). apply wp_ret. intros _ i Hi' _. cbn in Hi'. rewrite Hi in Hi'. injection Hi' as <-.
    split; [exact C1|]. by rewrite Hs.
  - done.
  - apply wp_ret. intros _ i Hi' _. rewrite Hi in Hi'. injection Hi' as <-. by rewrite Hs.
Qed.

Lemma pump_pumped now c : pumped (st (pump now blocks c)).
Proof.
  unfold pump. rewrite get_bind. assert (size (pending c) < S (size (pending c)))%nat as Hf by lia. revert Hf.
  generalize (S (size (pending c))). intros fuel. revert c. induction fuel as [|fuel IH]; intros c Hf; [lia|].
  cbn [pump_loop]. rewrite bind_run. cbn [st]. pose proof (pump_step_shrinks now blocks c) as Hs. pose proof (stopped_pumped now c) as Hq.
  destruct (val _); [|by apply Hq]. apply IH. specialize (Hs eq_refl). lia.
Qed.

(** What the node discards when it aborts is empty, unless blocks came or an installation was under way. *)
Lemma pumped_abort now c : pumped c -> installing c = None -> out (abort_install now blocks c) = [].
Proof.
  intros Hp Hi. unfold abort_install. rewrite bind_run. cbn [st modify out app]. replace (c <| installing := None |>) with c by (destruct c; cbn in Hi; by subst).
  unfold pump. rewrite get_bind. cbn [pump_loop]. rewrite bind_run. destruct (pumped_step now c Hp) as [-> ->]. done.
Qed.
End pumped.

(** ** Staged views hold the decided output *)

Section order.
Context {Hash : Hashing} (cm : Committee) (sid : Digest) (mbp : Z).
Context (decided : View -> Outcome -> Prop) (completes : View -> Manifest -> Manifest -> Prop).
Abbreviation cache_ok := (cache_ok cm sid mbp) (only parsing).
Abbreviation verified := (CursorOrder.verified_output cm sid mbp decided) (only parsing).
Abbreviation reaches := (cursor_reaches cm sid mbp decided completes) (only parsing).

Definition staged_ok (m : gmap View StagedView) : Prop := forall v sv, m !! v = Some sv -> verified v (sv_outcome sv) (sv_delta sv).

Lemma staged_content m m' : same_content m m' -> staged_ok m -> staged_ok m'.
Proof. intros Hc Hm v sv Hv. destruct (Hc v sv Hv) as (sv0 & H0 & -> & ->). by apply Hm. Qed.

Lemma stage_views_ok base target l : forall p,
  Forall (fun e => verified e.1.1 e.1.2 e.2) l -> staged_ok p.1 -> staged_ok (foldl (stage_view base target) p l).1.
Proof.
  induction l as [|[[v o] d] l IH]; intros p Hl Hp; [done|]. apply Forall_cons in Hl as [He Hl]. cbn [foldl]. apply IH; [done|].
  unfold stage_view. destruct (_ || _); [done|]. intros w sv. cbn. destruct (decide (v = w)) as [<-|]; [|rewrite lookup_insert_ne by done; apply Hp].
  rewrite lookup_insert_eq. by intros [= <-].
Qed.

(** The node: its cursor is one of the reachable ones and its stage is true. *)
Definition node_ok (x : InstallNode) (es : list Effect) : Prop :=
  reaches (in_cursor x) es /\ forall i, in_install x = Some i -> staged_ok (si_views i).

Lemma mark_installed_ok view blocks i i' :
  mark_installed view blocks i = Some i' -> staged_ok (si_views i) -> staged_ok (si_views i').
Proof.
  unfold mark_installed. destruct (negb _); [done|]. destruct (si_views i !! view); [|done]. intros [= <-]. cbn. apply staged_content, content_delete.
Qed.

Lemma installable_marked view blocks i : installable i = Some view -> is_Some (mark_installed view blocks i).
Proof.
  unfold installable, mark_installed. destruct (_ <? _); [done|]. destruct (si_views i !! si_next_install i) as [sv|] eqn:Hv; [|done]. cbn.
  destruct (sv_complete sv); [|done]. intros [= <-]. rewrite Z.eqb_refl, Hv. by eexists.
Qed.

Context (Hb : header_binding cm sid mbp) (Hin : consistent_inputs decided completes) (Hg : genesis_apart cm sid mbp).
Context (Ht : forall v o, decided v o -> truthful_outcome cm sid mbp o).

(** One call of the cursor, seen as an event. *)
Lemma install_reaches now blocks view outcome delta budget c es :
  reaches c es -> cache_ok blocks -> verified view outcome delta -> cached blocks (open_delta c) ->
  let r := install_budgeted now blocks view outcome delta budget c in
  reaches (st r) (es ++ out r) /\ val r <> IPanic.
Proof.
  intros Hr Hbl Hv Hca r. split.
  - pose proof (cursor_event cm sid mbp decided completes c es now blocks (CeInstall view outcome delta budget) Hr Hbl (conj Hv Hca)) as H.
    cbn [cursor_handle] in H. rewrite bind_run in H. cbn [out st skip mret M_ret] in H. by rewrite app_nil_r in H.
  - destruct (cursor_reaches_ok _ _ _ _ _ Hb Hin Hg Ht _ _ Hr) as (L & Hl & Hc).
    destruct (install_budgeted_ok cm sid mbp decided completes Hb Hin Hg Ht now blocks view outcome delta budget c L (finals es) Hbl Hl Hc Hv Hca) as [_ Hp].
    fold r in Hp. destruct (decide (view = next_view c)) as [Hvw|Hvw]; [specialize (Hp Hvw); by destruct (val r)|].
    unfold r, install_budgeted. rewrite get_bind. destruct (Z.eqb_spec view (next_view c)); done.
Qed.

Lemma abort_reaches now blocks c es : reaches c es -> cache_ok blocks -> reaches (st (abort_install now blocks c)) (es ++ out (abort_install now blocks c)).
Proof. intros Hr Hbl. exact (cursor_event cm sid mbp decided completes c es now blocks CeAbort Hr Hbl I). Qed.

Lemma retry_reaches now blocks c es : reaches c es -> cache_ok blocks -> reaches (st (retry now blocks c)) (es ++ out (retry now blocks c)).
Proof. intros Hr Hbl. exact (cursor_event cm sid mbp decided completes c es now blocks CeRetry Hr Hbl I). Qed.

(** ** The handlers *)

Lemma wp_on_cursor {A} (m : M Effect Cursor A) x (Q : A -> list Effect -> InstallNode -> Prop) :
  wp m (in_cursor x) (fun a es c => Q a es (x <| in_cursor := c |>)) -> wp (on_cursor m) x Q.
Proof. done. Qed.

Lemma install_chunk_open now blocks p chunk complete ex c n :
  val (install_chunk now blocks p chunk complete ex c) = IOk true n -> open_delta (st (install_chunk now blocks p chunk complete ex c)) = [].
Proof. unfold install_chunk. rewrite bind_run. cbn [val st]. destruct complete; [|done]. rewrite !bind_run. done. Qed.

Lemma install_continue_open now blocks view budget p c n :
  val (install_continue now blocks view budget p c) = IOk true n -> open_delta (st (install_continue now blocks view budget p c)) = [].
Proof.
  unfold install_continue. rewrite get_bind. destruct (check_prefix _ _ _ _ _ _ _) as [[[m i] ex]|]; [|done]. rewrite bind_run. cbn [modify val st].
  destruct (negb m); [done|]. destruct (_ <? _)%nat; [done|]. destruct (_ <? _)%nat; [done|]. destruct (list_find _ _) as [[]|]; [done|].
  destruct (list_find _ _) as [[]|]; [done|]. apply install_chunk_open.
Qed.

Lemma install_budgeted_open now blocks view o d budget c n :
  val (install_budgeted now blocks view o d budget c) = IOk true n -> open_delta (st (install_budgeted now blocks view o d budget c)) = [].
Proof.
  unfold install_budgeted. rewrite get_bind. destruct (negb _); [done|]. destruct (installing c) as [p|].
  - destruct (negb _); [done|]. apply install_continue_open.
  - destruct (_ <? _)%nat; [done|]. rewrite bind_run. cbn [modify val st]. apply install_continue_open.
Qed.

Lemma apply_loop_ok now blocks (Hbl : cache_ok blocks) n : forall left applied x es,
  node_ok x es -> cached blocks (open_delta (in_cursor x)) ->
  wp (apply_loop n now blocks left applied) x (fun a o x' => node_ok x' (es ++ o) /\ a <> ApPanic).
Proof using Hb Hin Hg Ht.
  induction n as [|n IH]; intros left applied x es Hx Hca; cbn [apply_loop].
  { apply wp_ret. by rewrite app_nil_r. }
  assert (forall a, a <> ApPanic -> wp (mret a) x (fun a o x' => node_ok x' (es ++ o) /\ a <> ApPanic)) as Hstop
    by (intros a Ha; apply wp_ret; by rewrite app_nil_r).
  apply wp_bind, wp_get. destruct (left =? 0)%nat; [by apply Hstop|]. destruct (in_install x) as [i|] eqn:Hi; [|by apply Hstop].
  destruct (installable i) as [view|] eqn:Hv; [|by apply Hstop].
  destruct (view_output i view) as [[o d]|] eqn:Ho; [|by apply Hstop]. destruct Hx as [Hr Hst]. specialize (Hst i Hi).
  assert (verified view o d) as Hvo.
  { unfold view_output in Ho. destruct (si_views i !! view) as [sv|] eqn:Hsv; [|done]. cbn in Ho. injection Ho as <- <-. by apply Hst. }
  destruct (install_reaches now blocks view o d left (in_cursor x) es Hr Hbl Hvo Hca) as [Hr1 Hnp].
  apply wp_bind, wp_on_cursor. unfold wp at 1. pose proof (install_budgeted_open now blocks view o d left (in_cursor x)) as Hopen.
  set (r := install_budgeted _ _ _ _ _ _ _) in *. clearbody r. destruct (val r) as [fin ex|e|]; [..|done].
  - apply wp_bind, wp_modify. destruct fin; cbn [negb].
    + destruct (installable_marked view blocks i Hv) as [i' Hi']. rewrite Hi'. apply wp_bind, wp_modify.
      eapply wp_mono; [apply (IH _ _ _ (es ++ out r))|].
      * split; [done|]. cbn. intros i0 [= <-]. by eapply mark_installed_ok.
      * cbn. rewrite (Hopen ex) by done. intros d' Hd'. by apply elem_of_nil in Hd'.
      * intros a o' x' H. cbn. by rewrite (assoc_L (++)).
    + apply wp_ret. rewrite !app_nil_r. split; [|done]. split; [done|]. cbn. rewrite Hi. by intros i0 [= <-].
  - apply wp_bind, wp_modify, wp_bind, wp_on_cursor. unfold wp. cbn. split; [|done]. rewrite app_nil_r, (assoc_L (++)). split; [|done].
    by apply abort_reaches.
Qed.

Lemma apply_ok name enabled vpt now blocks budget x es :
  cache_ok blocks -> node_ok x es -> cached blocks (open_delta (in_cursor x)) ->
  wp (apply_sequence_install name enabled vpt now blocks budget) x (fun a o x' => node_ok x' (es ++ o) /\ a <> ApFailed).
Proof using Hb Hin Hg Ht.
  intros Hbl Hx Hca. unfold apply_sequence_install. destruct (_ || _); [apply wp_ret; by rewrite app_nil_r|].
  apply wp_bind. eapply wp_mono; [by apply apply_loop_ok|]. intros [applied| |] o x' [Hx' Hp]; [..|done].
  2: { apply wp_ret. by rewrite app_nil_r. }
  apply wp_bind, wp_get, wp_bind.
  assert (wp (when (default u64_max (si_target_view <$> in_install x') <? next_view (in_cursor x')) (on_cursor (retry now blocks))) x'
    (fun _ o' x'' => node_ok x'' (es ++ o ++ o') /\ in_install x'' = in_install x')) as Hw.
  { unfold when. destruct (_ <? _); [|apply wp_skip; by rewrite app_nil_r]. apply wp_on_cursor. unfold wp. destruct Hx' as [Hr Hs]. split; [|done].
    split; [|done]. cbn. rewrite (assoc_L (++)). by apply retry_reaches. }
  eapply wp_mono; [exact Hw|]. intros [] o' x'' [Hx'' _]. destruct (in_install x') as [i|]; [destruct (_ && _)|]; apply wp_ret; by rewrite !app_nil_r.
Qed.

(** The node discards what the abort of a rebase emits ([let _ = self.cursor.abort_install()]), so a run is followed only
    where that is nothing: the rebase continues, or the cursor is pumped.  It is pumped after every block, completion,
    seal and target passed, and the target is never passed while a view is being installed, so
    the condition is met whenever the target was overtaken ([pumped_quiet]). *)
Definition rebase_quiet (now : Z) (blocks : BlockCache) (local_head : Digest) (x : InstallNode) : Prop :=
  forall i, in_install x = Some i ->
    (rebase (u64_saturating_sub (next_view (in_cursor x)) 1) local_head i).1 = RbContinue \/ out (abort_install now blocks (in_cursor x)) = [].

Lemma pumped_quiet now blocks local_head x :
  pumped blocks (in_cursor x) -> installing (in_cursor x) = None -> rebase_quiet now blocks local_head x.
Proof. intros Hp Hi i _. right. by apply pumped_abort. Qed.

Lemma rebase_views local head i : same_content (si_views i) (si_views (rebase local head i).2).
Proof.
  unfold rebase. destruct (if _ <=? _ then _ else _); [destruct (negb _); [done|]|]; cbn; apply rebase_loop_content.
Qed.

Lemma rebase_ok now blocks local_head x es :
  cache_ok blocks -> node_ok x es -> rebase_quiet now blocks local_head x ->
  wp (rebase_sequence_install now blocks local_head) x (fun b o x' => node_ok x' es /\ o = [] /\ (b = true -> in_cursor x' = in_cursor x)).
Proof.
  intros Hbl [Hr Hs] Hq. unfold rebase_sequence_install. apply wp_bind, wp_get. destruct (in_install x) as [i|] eqn:Hi.
  2: { apply wp_ret. split_and!; [|done|done]. split; [done|]. by rewrite Hi. }
  specialize (Hs i eq_refl). pose proof (rebase_views (u64_saturating_sub (next_view (in_cursor x)) 1) local_head i) as Hc.
  pose proof (Hq i Hi) as Hq'. assert (out (abort_install now blocks (in_cursor x)) = [] -> reaches (st (abort_install now blocks (in_cursor x))) es) as Ha.
  { intros He. pose proof (abort_reaches now blocks (in_cursor x) es Hr Hbl) as H. by rewrite He, app_nil_r in H. }
  destruct (rebase _ _ i) as [o i']. cbn [fst snd] in *. destruct o; apply wp_bind, wp_modify, wp_ret; cbn.
  - split_and!; [|done|done]. split; [done|]. cbn. intros i0 [= <-]. by eapply staged_content.
  - destruct Hq' as [?|He]; [done|]. split_and!; [|done|done]. split; [by apply Ha|done].
  - destruct Hq' as [?|He]; [done|]. split_and!; [|done|done]. split; [by apply Ha|done].
Qed.

Lemma drive_ok name enabled vpt dpt now blocks local_head x es :
  cache_ok blocks -> node_ok x es -> cached blocks (open_delta (in_cursor x)) -> rebase_quiet now blocks local_head x ->
  wp (drive_sequence_install name enabled vpt dpt now blocks local_head) x (fun a o x' => node_ok x' (es ++ o) /\ a.2 <> ApFailed).
Proof using Hb Hin Hg Ht.
  intros Hbl Hx Hca Hq. unfold drive_sequence_install. apply wp_bind. eapply wp_mono; [by apply rebase_ok|].
  intros ok o x1 (Hx1 & -> & Hsame). destruct ok; cbn [negb]; [|apply wp_ret; by rewrite app_nil_r]. specialize (Hsame eq_refl).
  apply wp_bind, wp_get. destruct (in_install x1) as [i|] eqn:Hi; [|apply wp_ret; by rewrite app_nil_r].
  set (r := refresh_budgeted _ _ i). set (a := admit_views r.2). apply wp_bind, wp_modify, wp_bind.
  destruct Hx1 as [Hr Hs]. eapply wp_mono.
  { apply (apply_ok name enabled vpt now blocks _ _ es Hbl); [|cbn; by rewrite Hsame]. split; [done|]. cbn. intros i0 [= <-].
    apply (staged_content (si_views i)); [|by apply Hs]. etransitivity; [apply refresh_budgeted_content|]. apply admit_content. }
  intros b o x2 [H1 H2]. apply wp_ret. cbn. by rewrite app_nil_r.
Qed.

(** ** Runs of the node *)

Inductive InstallEvent :=
| IeCursor (ev : CursorEvent)
| IeDrive (name : PublicKey) (enabled : bool) (views_per_tick digests_per_tick : nat) (local_head : Digest).

Definition node_handle (now : Z) (blocks : BlockCache) (ev : InstallEvent) : NM () :=
  match ev with
  | IeCursor ev => on_cursor (cursor_handle now blocks ev)
  | IeDrive name enabled vpt dpt local_head => drive_sequence_install name enabled vpt dpt now blocks local_head;; skip
  end.

(** Ordinary events are completions, seals and retries; installations only come from the stage. *)
Definition node_allowed (now : Z) (blocks : BlockCache) (ev : InstallEvent) (x : InstallNode) : Prop :=
  match ev with
  | IeCursor (CeInstall _ _ _ _) => False
  | IeCursor ev => cursor_allowed cm sid mbp decided completes blocks ev (in_cursor x)
  | IeDrive _ _ _ _ local_head => cached blocks (open_delta (in_cursor x)) /\ rebase_quiet now blocks local_head x
  end.

Inductive staged_reaches (x0 : InstallNode) (es0 : list Effect) : InstallNode -> list Effect -> Prop :=
| staged_start : staged_reaches x0 es0 x0 es0
| staged_event x es now blocks ev :
    staged_reaches x0 es0 x es -> cache_ok blocks -> node_allowed now blocks ev x ->
    staged_reaches x0 es0 (st (node_handle now blocks ev x)) (es ++ out (node_handle now blocks ev x)).

Lemma staged_reaches_ok x0 es0 x es : node_ok x0 es0 -> staged_reaches x0 es0 x es -> node_ok x es.
Proof using Hb Hin Hg Ht.
  intros H0. induction 1 as [|x es now blocks ev _ IH Hbl Ha]; [done|]. destruct ev as [ev|name enabled vpt dpt head].
  - destruct IH as [Hr Hs]. split; [|done]. cbn. apply cursor_event; [done|done|]. by destruct ev.
  - destruct Ha as [Hca Hq]. destruct (drive_ok name enabled vpt dpt now blocks head x es Hbl IH Hca Hq) as [H _].
    cbn [node_handle]. rewrite bind_run. cbn. by rewrite app_nil_r.
Qed.
End order.
