(* ===== verification/StateTransfer.v ===== *)
(** State transfer, from announcements to output.

    A node records every view its cursor finalises in its sequence store and announces the store's
    boundaries.  A node that is behind takes a target that enough members announced, downloads
    it from anyone and installs it into its own cursor.  The theorem composes the
    collector, the transfer, the stage and the cursor. *)

From S2P Require Import Prelude Committee Types Fixtures ResolutionEvidence Blocks BlockChains Cursor Ledger Watermarks CursorOrder.
From S2P Require Import Sequence SequenceChain SequenceRuns SequenceSources Install InstallOrder.

(** ** What a node records *)

Section recorded.
Context {Hash : Hashing} {Codec : SequenceCodec}.

(** [record_sequence]: the evidence learns that the view is resolved, the store (if there is one) takes it, and an
    awaited target is compared with the local head; [Some b] tells whether they agree. *)
Definition record_sequence (view : View) (o : SequenceOutcome) (delta : list Digest) (ev : ResolutionEvidence)
    (store : option SequenceStore) (x : InstallNode) : option bool * (ResolutionEvidence * option SequenceStore * InstallNode) :=
  let ev := note_resolved_through view ev in
  let awaited := match in_verified_target x with Some (v, h) => if v =? view then Some h else None | None => None end in
  match store with
  | None => (None, (ev, None, x))
  | Some s =>
      match ss_record view o delta s with
      | (inr _, s) => (None, (ev, Some s, x))
      | (inl head, s) =>
          match awaited with
          | Some expected =>
              (Some (expected =? head),
               (ev, Some s, x <| in_verified_target := None |> <| in_install := None |> <| in_target_installed := false |>))
          | None => (None, (ev, Some s, x))
          end
      end
  end.

(** The store after a list of finalised views. *)
Definition record_all (l : list (View * SequenceOutcome * list Digest)) (s : SequenceStore) : SequenceStore :=
  foldl (fun s e => (ss_record e.1.1 e.1.2 e.2 s).2) s l.

(** The store of a node with these effects. *)
Definition store_of (sid : Digest) (interval : Z) (es : list Effect) : SequenceStore := record_all (finals es) (store_new sid interval).

(** Recording the next view. *)
Lemma record_next v o d s :
  store_ok s -> v = ss_next_view s -> v < u64_max ->
  let s' := (ss_record v o d s).2 in
  ss_next_view s' = v + 1 /\ ss_outcomes s' = <[ v := o ]> (ss_outcomes s) /\ ss_deltas s' = <[ v := d ]> (ss_deltas s) /\
  (forall w, w < v -> head_at s' w = head_at s w) /\ (ss_record v o d s).1 = inl (head_at s' v).
Proof.
  intros Hs -> Hv. unfold ss_record. rewrite Z.eqb_refl. cbn [negb snd]. cbn zeta. pose proof (so_next _ Hs).
  assert (u64_add (ss_next_view s) 1 = ss_next_view s + 1) as Hn by (apply u64_add_small; lia).
  destruct (is_boundary _ _); cbn; (split_and!; [done|done|done| |]); unfold head_at; cbn; [|by rewrite lookup_insert_eq| |by rewrite lookup_insert_eq];
    intros w Hw; by rewrite lookup_insert_ne by lia.
Qed.

Context (cm : Committee) (sid : Digest) (mbp : Z) (decided : View -> Outcome -> Prop) (interval : Z).
Context (Hrange : forall v o, decided v o -> v < u64_max).
Abbreviation ledger_at := (ledger_at cm sid mbp decided) (only parsing).
Abbreviation recorded hist := (record_all hist (store_new sid interval)) (only parsing).

(** The store holds exactly the views of the ledger. *)
Lemma recorded_ledger v L hist :
  ledger_at v L hist ->
  store_reaches sid interval (recorded hist) /\ ss_next_view (recorded hist) = v /\
  (forall w o d, ss_outcomes (recorded hist) !! w = Some o -> ss_deltas (recorded hist) !! w = Some d -> (w, o, d) ∈ hist) /\
  (forall w, ss_outcomes (recorded hist) !! w = Some SeqSkip -> ss_deltas (recorded hist) !! w = Some []).
Proof using Hrange.
  induction 1 as [|v L hist o ds L' Hl IH Hd Hv].
  { split_and!; [apply sr_new|done|intros w o d; cbn; by rewrite lookup_empty|intros w; cbn; by rewrite lookup_empty]. }
  destruct IH as (I1 & I2 & I3 & I4). unfold record_all in *. rewrite foldl_app. cbn [foldl fst snd].
  set (s := foldl _ _ hist) in *. pose proof (Hrange _ _ Hd) as Hvr. destruct (store_reaches_ok _ _ _ I1) as [Hs _].
  destruct (record_next v (seq_of o) ds s Hs (eq_sym I2) Hvr) as (R1 & R2 & R3 & _).
  split_and!; [by apply sr_record|done| |]; rewrite R2, R3.
  - intros w o' d'. destruct (decide (v = w)) as [<-|].
    + rewrite !lookup_insert_eq. intros [= <-] [= <-]. apply elem_of_app. right. left.
    + rewrite !lookup_insert_ne by done. intros Ho Hd'. apply elem_of_app. left. by apply I3.
  - intros w. destruct (decide (v = w)) as [<-|]; [|rewrite !lookup_insert_ne by done; apply I4].
    rewrite !lookup_insert_eq. intros [= He]. destruct o; try done. by destruct Hv as [-> _].
Qed.

Lemma ledger_snoc v L hist e :
  ledger_at v L (hist ++ [e]) -> exists v0 L0 o ds, ledger_at v0 L0 hist /\ decided v0 o /\ e = (v0, seq_of o, ds).
Proof using Type.
  remember (hist ++ [e]) as k eqn:Hk. destruct 1 as [|v L h o ds L' Hl Hd Hv]; [by destruct hist|].
  apply app_inj_tail in Hk as [-> <-]. by exists v, L, o, ds.
Qed.

Lemma ledger_prefix v L h1 h2 : ledger_at v L (h1 ++ h2) -> exists v1 L1, ledger_at v1 L1 h1.
Proof using Type.
  revert v L. induction h2 as [|e h2 IH] using rev_ind; intros v L Hl; [rewrite app_nil_r in Hl; by eexists _, _|].
  rewrite (assoc_L (++)) in Hl. apply ledger_snoc in Hl as (v0 & L0 & o & ds & Hl & _). by eapply IH.
Qed.

Lemma recorded_prefix v L hist v' L' hist' w :
  ledger_at v L hist -> ledger_at v' L' (hist ++ hist') -> w < v -> head_at (recorded (hist ++ hist')) w = head_at (recorded hist) w.
Proof using Hrange.
  intros Hl. revert v' L'. induction hist' as [|e hist' IH] using rev_ind; intros v' L' Hl' Hw; [by rewrite app_nil_r|].
  rewrite (assoc_L (++)) in Hl' |- *. apply ledger_snoc in Hl' as (v0 & L0 & o & ds & Hl0 & Hd & ->). destruct (recorded_ledger _ _ _ Hl0) as (R1 & R2 & _). destruct (store_reaches_ok _ _ _ R1) as [Hs _].
  rewrite <- (IH v0 L0) by done. unfold record_all at 1. rewrite foldl_app. cbn [foldl fst snd].
  apply record_next; [done|done|by eapply Hrange|].
  pose proof (ledger_at_view _ _ _ _ _ _ _ Hl). pose proof (ledger_at_view _ _ _ _ _ _ _ Hl0) as H0. rewrite length_app in H0. lia.
Qed.

(** When a view of the ledger was recorded, the head was the one it has now. *)
Lemma recorded_when v L pre w o ds rest :
  ledger_at v L (pre ++ (w, o, ds) :: rest) ->
  w < v /\ (ss_record w o ds (recorded pre)).1 = inl (head_at (recorded (pre ++ (w, o, ds) :: rest)) w).
Proof using Hrange.
  intros Hl. replace (pre ++ (w, o, ds) :: rest) with ((pre ++ [(w, o, ds)]) ++ rest) in * by (by rewrite <- (assoc_L (++))).
  destruct (ledger_prefix _ _ _ _ Hl) as (v1 & L1 & Hl1). pose proof (ledger_at_view _ _ _ _ _ _ _ Hl1) as Hn1. pose proof (ledger_at_view _ _ _ _ _ _ _ Hl) as Hn.
  destruct (ledger_snoc _ _ _ _ Hl1) as (v0 & L0 & o0 & ds0 & Hl0 & Hd & [= -> -> ->]). pose proof (ledger_at_view _ _ _ _ _ _ _ Hl0) as Hn0.
  rewrite !length_app in Hn. rewrite length_app in Hn1. cbn in Hn, Hn1. assert (v0 < v1) by lia.
  split; [lia|]. rewrite (recorded_prefix _ _ _ _ _ _ _ Hl1 Hl) by done.
  destruct (recorded_ledger _ _ _ Hl0) as (R1 & R2 & _). destruct (store_reaches_ok _ _ _ R1) as [Hs _].
  destruct (record_next v0 (seq_of o0) ds0 _ Hs (eq_sym R2) (Hrange _ _ Hd)) as (_ & _ & _ & _ & Hh).
  unfold record_all at 2. by rewrite foldl_app.
Qed.

(** The output of a ledger's view is the decided one. *)
Lemma ledger_verified (Hb : header_binding cm sid mbp) (Hfun : forall v o o', decided v o -> decided v o' -> o = o') v L hist w o d :
  ledger_at v L hist -> (w, o, d) ∈ hist -> CursorOrder.verified_output cm sid mbp decided w o d.
Proof.
  induction 1 as [|v L hist o0 ds L' Hl IH Hd Hv]; intros Hin; [by apply elem_of_nil in Hin|].
  apply elem_of_app in Hin as [Hin|Hin]; [by apply IH|]. apply list_elem_of_singleton in Hin. injection Hin as -> -> ->.
  intros L2 hist2 Hl2. destruct (ledger_at_det cm sid mbp Hb decided Hfun _ _ _ _ _ Hl Hl2) as [-> _]. by exists o0, L'.
Qed.
End recorded.

(** ** State transfer *)

(** A correct member announces views it has finalised, with the heads of its store. *)
Definition announces_own {Hash : Hashing} {Codec : SequenceCodec} cm sid mbp decided completes interval (byz : gset PublicKey) (hs : list Heard) : Prop :=
  forall p v d, p ∉ byz -> announced hs p v d ->
  exists c es, cursor_reaches cm sid mbp decided completes c es /\ 1 <= v < next_view c /\
    head_at (store_of sid interval es) v = d /\ store_fits (store_of sid interval es).

Lemma certified_head_spec x above v d : certified_head x above = Some (v, d) -> above < v /\ cc_certified x !! v = Some d.
Proof.
  unfold certified_head. intros Hh. apply head_Some_elem_of in Hh. apply list_elem_of_filter in Hh as [Hv Hin]. split; [done|].
  rewrite elem_of_reverse in Hin. by apply elem_of_map_iter in Hin.
Qed.

Lemma stage_views_some base target l v : forall p,
  base < v <= target -> is_Some (p.1 !! v) \/ v ∈ l.*1.*1 -> is_Some ((foldl (stage_view base target) p l).1 !! v).
Proof.
  induction l as [|[[w o] d] l IH]; intros p Hv Hor; cbn [foldl]; [destruct Hor as [?|Hn]; [done|by apply elem_of_nil in Hn]|].
  apply IH; [done|]. destruct Hor as [[sv Hp]|Hor].
  - left. unfold stage_view. destruct (_ || _); [by eexists|]. cbn. apply lookup_insert_is_Some. destruct (decide (w = v)); [by left|right].
    split; [done|by eexists].
  - cbn in Hor. apply elem_of_cons in Hor as [->|Hor]; [left|by right]. unfold stage_view.
    destruct (Z.leb_spec w base); [lia|]. destruct (Z.ltb_spec target w); [lia|]. cbn. rewrite lookup_insert_eq. by eexists.
Qed.

Lemma install_new_contiguous B T d l heads window : 0 <= B -> l.*1.*1 = seqZ (B + 1) (T - B) -> is_contiguous (install_new B T d l heads window) = true.
Proof.
  intros HB Hl. unfold is_contiguous. apply forallb_forall. intros v Hv. apply bool_decide_eq_true. apply list_elem_of_In in Hv. cbn in Hv |- *.
  apply stage_views_some; [apply elem_of_seqZ in Hv; lia|]. right. by rewrite Hl.
Qed.

Section transfer.
Context {Hash : Hashing} {Codec : SequenceCodec} (cm : Committee) (sid : Digest) (mbp : Z).
Context (decided : View -> Outcome -> Prop) (completes : View -> Manifest -> Manifest -> Prop) (interval : Z).
Context (Hb : header_binding cm sid mbp) (Hin : consistent_inputs decided completes) (Hg : genesis_apart cm sid mbp).
Context (Ht : forall v o, decided v o -> truthful_outcome cm sid mbp o).
Abbreviation reaches := (cursor_reaches cm sid mbp decided completes) (only parsing).
Set Default Proof Using "Type Hb Hin Hg Ht".

(** The store of a node and its ledger. *)
Lemma store_of_ok c es :
  reaches c es -> exists L, ledger_at cm sid mbp decided (next_view c) L (finals es) /\ store_reaches sid interval (store_of sid interval es) /\
    ss_next_view (store_of sid interval es) = next_view c.
Proof.
  intros Hr. destruct (cursor_reaches_ok _ _ _ _ _ Hb Hin Hg Ht _ _ Hr) as (L & Hl & _). exists L. split; [done|].
  destruct (recorded_ledger cm sid mbp decided interval (ci_range _ _ Hin) _ _ _ Hl) as (H1 & H2 & _). done.
Qed.

(** Whatever two nodes have both finalised has one head. *)
Lemma heads_agree c1 es1 c2 es2 v :
  reaches c1 es1 -> reaches c2 es2 -> v < next_view c1 -> v < next_view c2 ->
  head_at (store_of sid interval es1) v = head_at (store_of sid interval es2) v.
Proof.
  intros H1 H2 Hv1 Hv2. destruct (store_of_ok c1 es1 H1) as (L1 & Hl1 & _). destruct (store_of_ok c2 es2 H2) as (L2 & Hl2 & _).
  assert (forall v1 L1 h1 v2 L2 h2, ledger_at cm sid mbp decided v1 L1 h1 -> ledger_at cm sid mbp decided v2 L2 h2 -> v1 <= v2 -> v < v1 ->
    head_at (record_all h2 (store_new sid interval)) v = head_at (record_all h1 (store_new sid interval)) v) as Hle.
  { intros v1 M1 h1 v2 M2 h2 K1 K2 Hle Hv. destruct (ledger_at_le cm sid mbp Hb decided (ci_fun _ _ Hin) _ _ _ _ _ _ K1 K2 Hle) as [h ->].
    eapply recorded_prefix; [exact (ci_range _ _ Hin)|done|done|done]. }
  destruct (Z.le_ge_cases (next_view c1) (next_view c2)); [symmetry|]; by eapply Hle.
Qed.

(** What the download of a member's checkpoint yields. *)
Lemma slice_verified c es B T :
  reaches c es -> 0 <= B -> Forall (fun e => CursorOrder.verified_output cm sid mbp decided e.1.1 e.1.2 e.2) (sequence_slice (store_of sid interval es) B T).
Proof.
  intros Hr HB. destruct (cursor_reaches_ok _ _ _ _ _ Hb Hin Hg Ht _ _ Hr) as (L & Hl & _).
  destruct (recorded_ledger cm sid mbp decided interval (ci_range _ _ Hin) _ _ _ Hl) as (_ & _ & Hm & _).
  apply Forall_forall. intros [[v o] d] He. unfold sequence_slice in He. apply list_elem_of_omap in He as (w & _ & He).
  change (record_all (finals es) (store_new sid interval)) with (store_of sid interval es) in Hm.
  destruct (ss_outcomes (store_of sid interval es) !! w) as [o'|] eqn:Ho; [|done]. cbn in He.
  destruct (ss_deltas (store_of sid interval es) !! w) as [d'|] eqn:Hd; [|done]. cbn in He. injection He as -> -> ->. cbn.
  eapply (ledger_verified cm sid mbp decided Hb (ci_fun _ _ Hin)); [exact Hl|by apply Hm].
Qed.
End transfer.
Unset Default Proof Using.

(** C2: State transfer keeps nodes in one order.  A node behind the others takes the highest checkpoint that enough members announced, downloads it from
    any sources, stages what it verified and installs it in pieces between ordinary events; where a rebase gives the target up,
    the abort, whose effects the code discards, emits nothing ([rebase_quiet], which holds for a pumped cursor).
    Then the stage covers every view up to the target; the views the node finalises agree with those of every other
    correct node, one list a prefix of the other; when it passes the target its own head there is the certified one, and the comparison it makes
    when it records the target succeeds. *)
Theorem state_transfer_safe {Hash : Hashing} {Codec : SequenceCodec} cm sid mbp decided completes interval
    n w slack hs byz col B T d id Bh sources ts tr l heads window c es vt ti x' es' c2 es2 :
  header_binding cm sid mbp -> consistent_inputs decided completes -> genesis_apart cm sid mbp ->
  (forall v o, decided v o -> truthful_outcome cm sid mbp o) -> sequence_binding sid ->
  Z.of_nat (size byz) < n -> announces_own cm sid mbp decided completes interval byz hs ->
  col = hear_all hs (collector_new n w slack) -> 0 <= B -> certified_head col B = Some (T, d) ->
  Forall step_fits ts -> tr = transfer_run ts (transfer_new sid id B Bh T d sources) -> tr_state tr = TrVerified ->
  verified_output tr = Some l -> verified_heads tr = Some heads ->
  cursor_reaches cm sid mbp decided completes c es -> cursor_reaches cm sid mbp decided completes c2 es2 ->
  staged_reaches cm sid mbp decided completes (mkInstallNode c (Some (install_new B T d l heads window)) vt ti) es x' es' ->
  is_contiguous (install_new B T d l heads window) = true /\
  (finals es' `prefix_of` finals es2 \/ finals es2 `prefix_of` finals es') /\
  (T < next_view (in_cursor x') -> head_at (store_of sid interval es') T = d) /\
  (forall pre o ds rest ev x, finals es' = pre ++ (T, o, ds) :: rest -> in_verified_target x = Some (T, d) ->
    (record_sequence T o ds ev (Some (record_all pre (store_new sid interval))) x).1 = Some true).
Proof.
  intros Hb Hin Hg Ht Hsb Hbyz Hann -> HB Hcert Hts -> Hver Hl Hheads Hc Hc2 Hrun.
  apply certified_head_spec in Hcert as [HBT Hcert].
  destruct (hear_all_cinv hs (collector_new n w slack) (collector_new_cinv n w slack)) as [Hi Hlim]. injection Hlim as Hthr _.
  apply (ci_certified _ _ Hi) in Hcert. rewrite Hthr in Hcert.
  destruct (vouched_correct _ _ _ _ byz Hcert) as (p & Hp & Ha); [cbn; lia|].
  destruct (Hann p T d Hp Ha) as (c1 & es1 & Hc1 & HT & <- & Hfits).
  destruct (store_of_ok cm sid mbp decided completes interval Hb Hin Hg Ht c1 es1 Hc1) as (L1 & Hl1 & Hreach & Hnext).
  set (s1 := store_of sid interval es1) in *. destruct (store_reaches_ok _ _ _ Hreach) as [Hs1 Hsid].
  set (tr := transfer_run _ _) in *.
  assert (tinv s1 B T Bh tr) as Hti.
  { unfold tr. rewrite <- Hsid. rewrite <- Hsid in Hsb. apply transfer_run_inv; [done|done|lia|lia|done|done|]. apply transfer_new_inv; [done|done|lia|lia|done]. }
  rewrite (verified_output_slice s1 B T Bh tr Hti Hver) in Hl. injection Hl as <-.
  split; [apply install_new_contiguous; [done|]; apply slice_views; [done|lia|lia]|].
  assert (node_ok cm sid mbp decided completes x' es') as [Hx _].
  { eapply (staged_reaches_ok cm sid mbp decided completes Hb Hin Hg Ht); [|exact Hrun]. split; [done|]. cbn. intros i [= <-].
    apply stage_views_ok; [|intros v sv; cbn; by rewrite lookup_empty]. by apply (slice_verified cm sid mbp decided completes interval Hb Hin Hg Ht c1 es1). }
  destruct (cursor_reaches_ok _ _ _ _ _ Hb Hin Hg Ht _ _ Hx) as (La & Hla & _).
  assert (T < next_view (in_cursor x') -> head_at (store_of sid interval es') T = head_at s1 T) as Hhead.
  { intros HTx. apply (heads_agree cm sid mbp decided completes interval Hb Hin Hg Ht (in_cursor x') es' c1 es1); [done|done|done|lia]. }
  split; [|split; [done|]].
  - destruct (cursor_reaches_ok _ _ _ _ _ Hb Hin Hg Ht _ _ Hc2) as (Lb & Hlb & _).
    destruct (Z.le_ge_cases (next_view (in_cursor x')) (next_view c2)); [left|right];
      eapply (ledger_at_le cm sid mbp Hb decided (ci_fun _ _ Hin)); done.
  - intros pre o ds rest ev x Hf Htgt. unfold store_of in Hhead. rewrite Hf in Hla, Hhead.
    destruct (recorded_when cm sid mbp decided interval (ci_range _ _ Hin) _ _ _ _ _ _ _ Hla) as [HTx Hrec].
    unfold record_sequence. rewrite Htgt, Z.eqb_refl. destruct (ss_record _ _ _ _) as [r s'']. cbn in Hrec. subst r. cbn.
    by rewrite Hhead, Z.eqb_refl.
Qed.

(** ** A recovery *)

#[local] Existing Instance table_hashing.
#[local] Existing Instance coded_sequence.

(** Members 10 and 20 have run as [node_a] and announce view 2; member 40 announces something else. *)
Definition store_a : SequenceStore := store_of 7 2 (node_state node_a).2.
Definition heard_a : list Heard :=
  (fun p => mkHeard (mkAnnouncement 1 2 (if p =? 40 then 99 else head_at store_a 2) 1 p) p true 0) <$> [10; 40; 20].
Definition collector_a : CheckpointCollector := hear_all heard_a (collector_new 2 32 u64_max).

Lemma collector_a_target : certified_head collector_a 0 = Some (2, head_at store_a 2).
Proof. refine (bool_decide_unpack _ _). vm_compute. exact I. Qed.

Lemma announces_a : announces_own committee4 7 100 decided2 completes2 2 {[ 40 ]} heard_a.
Proof.
  intros p v d Hp (h & Hin & Hf & _ & _ & _ & Hv & Hd). unfold heard_a in Hin. apply list_elem_of_fmap in Hin as (q & -> & Hq). cbn in Hf, Hv, Hd. subst.
  destruct (Z.eqb_spec p 40) as [->|]; [set_solver|]. exists (node_state node_a).1, (node_state node_a).2.
  split; [apply node_reaches, node_a_allowed|]. split; [vm_compute; done|]. split; [reflexivity|]. unfold store_fits. refine (bool_decide_unpack _ _). vm_compute. exact I.
Qed.

(** The download from member 20 and the stage it gives. *)
Definition steps_a : list TransferStep :=
  [TsResponse (serve_sequence_records store_a caps8 20 (mkSequenceRequest 1 1 2 (head_at store_a 2) 1 8 30)) 20;
   TsResponse (serve_sequence_outcome store_a caps8 20 (mkOutcomeRequest 1 1 (head_at store_a 2) 2 1 8 8 30)) 20;
   TsResponse (serve_sequence_delta_range store_a caps8 20 (mkDeltaRangeRequest 1 1 (head_at store_a 2) 2 1 0 8 8 30)) 20].
Definition transfer_a : SequenceTransfer := transfer_run steps_a (transfer_new 7 1 0 (genesis_head 7) 2 (head_at store_a 2) [10; 20]).
Definition staged_a : list (View * SequenceOutcome * list Digest) := default [] (verified_output transfer_a).
Definition heads_a : list (View * Digest) := default [] (verified_heads transfer_a).

Lemma steps_a_fit : Forall step_fits steps_a.
Proof. refine (bool_decide_unpack _ _). vm_compute. exact I. Qed.
Lemma transfer_a_verified : tr_state transfer_a = TrVerified.
Proof. refine (bool_decide_unpack _ _). vm_compute. exact I. Qed.
Lemma staged_a_output : verified_output transfer_a = Some staged_a.
Proof. refine (bool_decide_unpack _ _). vm_compute. exact I. Qed.
Lemma heads_a_output : verified_heads transfer_a = Some heads_a.
Proof. refine (bool_decide_unpack _ _). vm_compute. exact I. Qed.

(** A node that has nothing drives the installation three times: it looks the payload up, then installs a view at a time. *)
Definition fresh_node : InstallNode :=
  mkInstallNode (cursor_new (genesis_digest 7)) (Some (install_new 0 2 (head_at store_a 2) staged_a heads_a 64)) None false.
Definition drive_from (head : Digest) (p : InstallNode * list Effect) : InstallNode * list Effect :=
  let r := node_handle 0 (lanes_cache 5) (IeDrive 30 true 8 8 head) p.1 in (st r, p.2 ++ out r).
Definition driven_1 : InstallNode * list Effect := drive_from (genesis_head 7) (fresh_node, []).
Definition driven_2 : InstallNode * list Effect := drive_from (genesis_head 7) driven_1.
Definition driven_3 : InstallNode * list Effect := drive_from (head_at store_a 1) driven_2.

Definition ready_for (head : Digest) (x : InstallNode) : bool :=
  match open_delta (in_cursor x), in_install x with
  | [], Some i => match (rebase (u64_saturating_sub (next_view (in_cursor x)) 1) head i).1 with RbContinue => true | _ => false end
  | _, _ => false
  end.

Lemma drive_step_reaches head p :
  ready_for head p.1 = true -> staged_reaches committee4 7 100 decided2 completes2 fresh_node [] p.1 p.2 ->
  staged_reaches committee4 7 100 decided2 completes2 fresh_node [] (drive_from head p).1 (drive_from head p).2.
Proof.
  intros Hr Hp. apply (staged_event committee4 7 100 decided2 completes2 _ _ p.1 p.2 0 (lanes_cache 5) (IeDrive 30 true 8 8 head) Hp (lanes_cache_ok 5)).
  unfold ready_for in Hr. destruct (open_delta (in_cursor p.1)) eqn:Ho; [|done].
  destruct (in_install p.1) as [i|] eqn:Hi; [|done]. cbn. rewrite Ho. split; [intros d Hd; by apply elem_of_nil in Hd|].
  intros i' Hi'. rewrite Hi in Hi'. injection Hi' as <-. left. by destruct (rebase _ head i).1.
Qed.

Lemma drives_ready : ready_for (genesis_head 7) fresh_node && ready_for (genesis_head 7) driven_1.1 && ready_for (head_at store_a 1) driven_2.1 = true.
Proof. vm_compute. reflexivity. Qed.

Lemma drives_a : staged_reaches committee4 7 100 decided2 completes2 fresh_node [] driven_3.1 driven_3.2.
Proof.
  pose proof drives_ready as H. apply andb_true_iff in H as [H H3]. apply andb_true_iff in H as [H1 H2].
  apply drive_step_reaches; [exact H3|]. apply drive_step_reaches; [exact H2|]. apply drive_step_reaches; [exact H1|]. constructor.
Qed.

Lemma driven_finals : finals driven_3.2 = finals (node_state node_a).2 /\ next_view (in_cursor driven_3.1) = 3.
Proof. refine (bool_decide_unpack _ _). vm_compute. exact I. Qed.

Lemma state_transfer_safe_witness :
  finals driven_3.2 = finals (node_state node_a).2 /\
  (finals driven_3.2 `prefix_of` finals (node_state node_a).2 \/
   finals (node_state node_a).2 `prefix_of` finals driven_3.2) /\
  head_at (store_of 7 2 driven_3.2) 2 = head_at store_a 2.
Proof.
  pose proof (state_transfer_safe committee4 7 100 decided2 completes2 2 2 32 u64_max heard_a {[ 40 ]} collector_a 0 2 (head_at store_a 2) 1
    (genesis_head 7) [10; 20] steps_a transfer_a staged_a heads_a 64 (cursor_new (genesis_digest 7)) [] None false driven_3.1 driven_3.2
    (node_state node_a).1 (node_state node_a).2) as H.
  specialize (H table_binding inputs2 (genesis_apart_of_injective committee4 7 100 table_injective) truthful2 (coded_binding_of 7 table_injective)).
  specialize (H ltac:(rewrite size_singleton; lia) announces_a). specialize (H (eq_refl collector_a) (Z.le_refl 0) collector_a_target steps_a_fit).
  specialize (H (eq_refl transfer_a)). specialize (H transfer_a_verified staged_a_output heads_a_output).
  specialize (H (cursor_start committee4 7 100 decided2 completes2) (node_reaches node_a node_a_allowed) drives_a).
  destruct H as (_ & H1 & H2 & _). exact (conj (proj1 driven_finals) (conj H1 (H2 ltac:(rewrite (proj2 driven_finals); lia)))).
Defined.
