(* ===== verification/SimpleIt.v ===== *)
(** The Simple-IT cut consensus.

    Models the baseline protocol of [src/primary/src/simpleit]: the messages, the vote, ready, decide and timeout
    aggregators, and every handler of [CutEngine] in [engine.rs] as a state transformer that emits effects.  The tips
    that a call reads and the oracle for their availability are arguments.  The handlers call each other - a vote
    can make a cut safe, which can make the own next proposal, which is voted for - so the recursive ones have
    a bound on the depth of calls; a call beyond it is cut off and recorded in [ce_overrun].
    Left out: logging and the deadlines of timers. *)

From S2P Require Import Prelude Committee Types Blocks.

Abbreviation CutRound := Z (only parsing).

(** ** Messages *)

(** The proof of availability of a tip plays no part here. *)
Record Proposal := mkProposal { pr_header_digest : Digest; pr_height : Height }.
#[export] Instance Proposal_eq_dec : EqDecision Proposal.
Proof. solve_decision. Defined.

Abbreviation Cut := (gmap PublicKey Proposal) (only parsing).

Record CutProposal := mkCutProposal { cp_round : CutRound; cp_proposer : PublicKey; cp_parent_cut : Digest; cp_tips : Cut }.
#[export] Instance CutProposal_eq_dec : EqDecision CutProposal.
Proof. solve_decision. Defined.

Record CutVote := mkCutVote { cv_round : CutRound; cv_cut_id : Digest; cv_author : PublicKey }.
#[export] Instance CutVote_eq_dec : EqDecision CutVote.
Proof. solve_decision. Defined.
Record CutReady := mkCutReady { cr_round : CutRound; cr_cut_id : Digest; cr_author : PublicKey }.
#[export] Instance CutReady_eq_dec : EqDecision CutReady.
Proof. solve_decision. Defined.
Record Decide := mkDecide { de_id : Digest; de_round : CutRound; de_author : PublicKey }.
#[export] Instance Decide_eq_dec : EqDecision Decide.
Proof. solve_decision. Defined.
Record Timeout := mkTimeout { to_round : CutRound; to_author : PublicKey }.
#[export] Instance Timeout_eq_dec : EqDecision Timeout.
Proof. solve_decision. Defined.
Record TimeoutAccept := mkTimeoutAccept { ta_round : CutRound; ta_author : PublicKey }.
#[export] Instance TimeoutAccept_eq_dec : EqDecision TimeoutAccept.
Proof. solve_decision. Defined.
Record TimeoutCert := mkTimeoutCert { tc_round : CutRound; tc_timeouts : list PublicKey }.

(** [Digest::default()]. *)
Definition default_digest : Digest := 0.

(** Every message is checked by [committee.stake(&author) > 0]. *)
Definition known_author (c : Committee) (a : PublicKey) : bool := 0 <? stake c a.

(** The loop of [TimeoutCert::verify]; [None] is an error. *)
Fixpoint cert_weight (c : Committee) (used : gset PublicKey) (weight : Stake) (names : list PublicKey) : option Stake :=
  match names with
  | [] => Some weight
  | name :: names =>
      if bool_decide (name ∈ used) then None
      else if negb (0 <? stake c name) then None
      else cert_weight c ({[ name ]} ∪ used) (u32_add weight (stake c name)) names
  end.

Definition cert_verify (c : Committee) (t : TimeoutCert) : bool :=
  match cert_weight c ∅ 0 (tc_timeouts t) with Some w => quorum_threshold c <=? w | None => false end.

Section ids.
Context {Hash : Hashing}.

Definition cut_bytes (p : CutProposal) : list Z :=
  le_bytes 8 (cp_round p) ++ digest_bytes (cp_proposer p) ++ digest_bytes (cp_parent_cut p) ++
  mjoin ((fun e => digest_bytes e.1 ++ digest_bytes (pr_header_digest e.2) ++ le_bytes 8 (pr_height e.2)) <$> map_iter (cp_tips p)).

Definition cut_id (p : CutProposal) : Digest := blake3 (cut_bytes p).
End ids.

Inductive Inbound :=
| InCutProposal (p : CutProposal)
| InCutVote (v : CutVote)
| InDecide (d : Decide)
| InTimeout (t : Timeout)
| InTimeoutAccept (a : TimeoutAccept)
| InCutReady (r : CutReady)
| InTimerFired (round : CutRound)
| InCutFetch (round : CutRound) (cut : Digest) (requester : PublicKey)
| InCutServe (p : CutProposal).

Inductive CutOut :=
| OutCutProposal (p : CutProposal)
| OutCutVote (v : CutVote)
| OutDecide (d : Decide)
| OutTimeout (t : Timeout)
| OutTimeoutAccept (a : TimeoutAccept)
| OutCutReady (r : CutReady).
#[export] Instance CutOut_eq_dec : EqDecision CutOut.
Proof. solve_decision. Defined.

Inductive CutEffect :=
| CutBroadcast (o : CutOut)
| CutArmTimer (round : CutRound)
| CutCommit (round : CutRound) (proposals : Cut)
| CutFetchTo (peer : PublicKey) (round : CutRound) (cut : Digest)
| CutServeTo (peer : PublicKey) (p : CutProposal).
#[export] Instance CutEffect_eq_dec : EqDecision CutEffect.
Proof. solve_decision. Defined.

Inductive Variant := Opt | Bracha.
#[export] Instance Variant_eq_dec : EqDecision Variant.
Proof. solve_decision. Defined.

(** ** Aggregators *)

Record CutVoteAggregator := mkVoteAgg { va_weight : Stake; va_used : gset PublicKey; va_voters : list PublicKey }.
Record CutReadyAggregator := mkReadyAgg { ra_weight : Stake; ra_used : gset PublicKey; ra_voters : list PublicKey }.
Record DecideAggregator := mkDecideAgg { da_weight : Stake; da_used : gset PublicKey; da_round : option CutRound; da_cut_id : option Digest }.
Record TimeoutAggregator := mkTimeoutAgg { tg_weight : Stake; tg_used : gset PublicKey }.
Record TimeoutAcceptAggregator := mkAcceptAgg { aa_weight : Stake; aa_accepts : list PublicKey; aa_used : gset PublicKey }.

(** The default aggregators. *)
Definition vote_agg_new : CutVoteAggregator := mkVoteAgg 0 ∅ [].
Definition ready_agg_new : CutReadyAggregator := mkReadyAgg 0 ∅ [].
Definition decide_agg_new : DecideAggregator := mkDecideAgg 0 ∅ None None.
Definition timeout_agg_new : TimeoutAggregator := mkTimeoutAgg 0 ∅.
Definition accept_agg_new : TimeoutAcceptAggregator := mkAcceptAgg 0 [] ∅.

Definition optimistic_threshold (c : Committee) : Stake :=
  let total := map_sum (fun _ a => auth_stake a) (authorities c) in
  let f := Z.quot (total - 1) 3 in
  let numerator := Z.max (total + 2 * f - 2) 0 in
  ((numerator + 1) / 2) mod u32_modulus.

Definition mint_threshold (c : Committee) : Stake := Z.max (optimistic_threshold c) (quorum_threshold c).

(** [append] returns [None] for an error, before or after which nothing is counted. *)
Definition vote_append (c : Committee) (v : CutVote) (x : CutVoteAggregator) : option ((Stake * Stake) * CutVoteAggregator) :=
  if bool_decide (cv_author v ∈ va_used x) then None
  else
    let w := u32_add (va_weight x) (stake c (cv_author v)) in
    Some ((va_weight x, w), mkVoteAgg w ({[ cv_author v ]} ∪ va_used x) (va_voters x ++ [cv_author v])).

Definition ready_append (c : Committee) (r : CutReady) (x : CutReadyAggregator) : option (option (list PublicKey) * CutReadyAggregator) :=
  if bool_decide (cr_author r ∈ ra_used x) then None
  else
    let used := {[ cr_author r ]} ∪ ra_used x in
    let voters := ra_voters x ++ [cr_author r] in
    let w := u32_add (ra_weight x) (stake c (cr_author r)) in
    Some (if quorum_threshold c <=? w then (Some voters, mkReadyAgg 0 used []) else (None, mkReadyAgg w used voters)).

(** The round and the cut of the first message are kept even when the author is refused. *)
Definition decide_append (c : Committee) (d : Decide) (x : DecideAggregator) : option (option Decide) * DecideAggregator :=
  if negb (default (de_round d) (da_round x) =? de_round d) then (None, x)
  else
    let x := mkDecideAgg (da_weight x) (da_used x) (Some (de_round d)) (da_cut_id x) in
    if negb (default (de_id d) (da_cut_id x) =? de_id d) then (None, x)
    else
      let x := mkDecideAgg (da_weight x) (da_used x) (da_round x) (Some (de_id d)) in
      if bool_decide (de_author d ∈ da_used x) then (None, x)
      else
        let used := {[ de_author d ]} ∪ da_used x in
        let w := u32_add (da_weight x) (stake c (de_author d)) in
        if quorum_threshold c <=? w then (Some (Some d), mkDecideAgg 0 used (da_round x) (da_cut_id x))
        else (Some None, mkDecideAgg w used (da_round x) (da_cut_id x)).

Definition timeout_append (c : Committee) (t : Timeout) (x : TimeoutAggregator) : option (bool * TimeoutAggregator) :=
  if bool_decide (to_author t ∈ tg_used x) then None
  else
    let w := u32_add (tg_weight x) (stake c (to_author t)) in
    Some (quorum_threshold c <=? w, mkTimeoutAgg w ({[ to_author t ]} ∪ tg_used x)).

Definition accept_append (c : Committee) (a : TimeoutAccept) (x : TimeoutAcceptAggregator)
    : option ((Stake * option TimeoutCert) * TimeoutAcceptAggregator) :=
  if bool_decide (ta_author a ∈ aa_used x) then None
  else
    let used := {[ ta_author a ]} ∪ aa_used x in
    let accepts := aa_accepts x ++ [ta_author a] in
    let w := u32_add (aa_weight x) (stake c (ta_author a)) in
    Some (if quorum_threshold c <=? w then ((w, Some (mkTimeoutCert (ta_round a) accepts)), mkAcceptAgg w [] used)
          else ((w, None), mkAcceptAgg w accepts used)).

(** ** The engine *)

Record CutEngine := mkCutEngine {
  ce_name : PublicKey;
  ce_committee : Committee;
  ce_leaders : RoundRobin;
  ce_gate_tips : bool;
  ce_variant : Variant;
  ce_cut_round : CutRound;
  ce_highest_safe_cut : Digest;
  ce_gc_floor : CutRound;
  ce_cut_vote_aggregators : gmap (CutRound * Digest) CutVoteAggregator;
  ce_cut_ready_aggregators : gmap (CutRound * Digest) CutReadyAggregator;
  ce_timeouts_aggregators : gmap CutRound TimeoutAggregator;
  ce_timeout_accept_aggregators : gmap CutRound TimeoutAcceptAggregator;
  ce_cut_proposals : gmap (CutRound * Digest) CutProposal;
  ce_pending_cut_children : gmap (CutRound * Digest) (list CutProposal);
  ce_cut_round_by_id : gmap Digest CutRound;
  ce_leader_cut_by_round : gmap CutRound Digest;
  ce_safe : gmap CutRound Digest;
  ce_decide_aggregators : gmap (CutRound * Digest) DecideAggregator;
  ce_committed : gmap CutRound Decide;
  ce_sent_cut_votes : gset CutRound;
  ce_sent_cut_ready : gset CutRound;
  ce_proposed_cut_rounds : gset CutRound;
  ce_voted : gset CutRound;
  ce_sent_commit_rounds : gset CutRound;
  ce_timed_out : gset CutRound;
  ce_sent_timeout_accepts : gset CutRound;
  ce_certified_timed_out : gset CutRound;
  ce_scheduled_cut_timers : gset CutRound;
  ce_pending_cut_fetch : gmap (CutRound * Digest) CutRound;
  ce_fetch_answered : gset (CutRound * Digest * PublicKey);
  (** Set when a call of the model is cut off; no code. *)
  ce_overrun : bool;
}.

Definition ce_eta (x : CutEngine) : CutEngine :=
  mkCutEngine (ce_name x) (ce_committee x) (ce_leaders x) (ce_gate_tips x) (ce_variant x) (ce_cut_round x) (ce_highest_safe_cut x)
    (ce_gc_floor x) (ce_cut_vote_aggregators x) (ce_cut_ready_aggregators x) (ce_timeouts_aggregators x)
    (ce_timeout_accept_aggregators x) (ce_cut_proposals x) (ce_pending_cut_children x) (ce_cut_round_by_id x)
    (ce_leader_cut_by_round x) (ce_safe x) (ce_decide_aggregators x) (ce_committed x) (ce_sent_cut_votes x) (ce_sent_cut_ready x)
    (ce_proposed_cut_rounds x) (ce_voted x) (ce_sent_commit_rounds x) (ce_timed_out x) (ce_sent_timeout_accepts x)
    (ce_certified_timed_out x) (ce_scheduled_cut_timers x) (ce_pending_cut_fetch x) (ce_fetch_answered x) (ce_overrun x).

#[export] Instance set_ce_cut_round : Setter ce_cut_round.
Proof. solve_setter ce_eta ce_cut_round. Defined.
#[export] Instance set_ce_highest_safe_cut : Setter ce_highest_safe_cut.
Proof. solve_setter ce_eta ce_highest_safe_cut. Defined.
#[export] Instance set_ce_gc_floor : Setter ce_gc_floor.
Proof. solve_setter ce_eta ce_gc_floor. Defined.
#[export] Instance set_ce_cut_vote_aggregators : Setter ce_cut_vote_aggregators.
Proof. solve_setter ce_eta ce_cut_vote_aggregators. Defined.
#[export] Instance set_ce_cut_ready_aggregators : Setter ce_cut_ready_aggregators.
Proof. solve_setter ce_eta ce_cut_ready_aggregators. Defined.
#[export] Instance set_ce_timeouts_aggregators : Setter ce_timeouts_aggregators.
Proof. solve_setter ce_eta ce_timeouts_aggregators. Defined.
#[export] Instance set_ce_timeout_accept_aggregators : Setter ce_timeout_accept_aggregators.
Proof. solve_setter ce_eta ce_timeout_accept_aggregators. Defined.
#[export] Instance set_ce_cut_proposals : Setter ce_cut_proposals.
Proof. solve_setter ce_eta ce_cut_proposals. Defined.
#[export] Instance set_ce_pending_cut_children : Setter ce_pending_cut_children.
Proof. solve_setter ce_eta ce_pending_cut_children. Defined.
#[export] Instance set_ce_cut_round_by_id : Setter ce_cut_round_by_id.
Proof. solve_setter ce_eta ce_cut_round_by_id. Defined.
#[export] Instance set_ce_leader_cut_by_round : Setter ce_leader_cut_by_round.
Proof. solve_setter ce_eta ce_leader_cut_by_round. Defined.
#[export] Instance set_ce_safe : Setter ce_safe.
Proof. solve_setter ce_eta ce_safe. Defined.
#[export] Instance set_ce_decide_aggregators : Setter ce_decide_aggregators.
Proof. solve_setter ce_eta ce_decide_aggregators. Defined.
#[export] Instance set_ce_committed : Setter ce_committed.
Proof. solve_setter ce_eta ce_committed. Defined.
#[export] Instance set_ce_sent_cut_votes : Setter ce_sent_cut_votes.
Proof. solve_setter ce_eta ce_sent_cut_votes. Defined.
#[export] Instance set_ce_sent_cut_ready : Setter ce_sent_cut_ready.
Proof. solve_setter ce_eta ce_sent_cut_ready. Defined.
#[export] Instance set_ce_proposed_cut_rounds : Setter ce_proposed_cut_rounds.
Proof. solve_setter ce_eta ce_proposed_cut_rounds. Defined.
#[export] Instance set_ce_voted : Setter ce_voted.
Proof. solve_setter ce_eta ce_voted. Defined.
#[export] Instance set_ce_sent_commit_rounds : Setter ce_sent_commit_rounds.
Proof. solve_setter ce_eta ce_sent_commit_rounds. Defined.
#[export] Instance set_ce_timed_out : Setter ce_timed_out.
Proof. solve_setter ce_eta ce_timed_out. Defined.
#[export] Instance set_ce_sent_timeout_accepts : Setter ce_sent_timeout_accepts.
Proof. solve_setter ce_eta ce_sent_timeout_accepts. Defined.
#[export] Instance set_ce_certified_timed_out : Setter ce_certified_timed_out.
Proof. solve_setter ce_eta ce_certified_timed_out. Defined.
#[export] Instance set_ce_scheduled_cut_timers : Setter ce_scheduled_cut_timers.
Proof. solve_setter ce_eta ce_scheduled_cut_timers. Defined.
#[export] Instance set_ce_pending_cut_fetch : Setter ce_pending_cut_fetch.
Proof. solve_setter ce_eta ce_pending_cut_fetch. Defined.
#[export] Instance set_ce_fetch_answered : Setter ce_fetch_answered.
Proof. solve_setter ce_eta ce_fetch_answered. Defined.
#[export] Instance set_ce_overrun : Setter ce_overrun.
Proof. solve_setter ce_eta ce_overrun. Defined.

Definition cut_engine_new (name : PublicKey) (c : Committee) : option CutEngine :=
  rr ← round_robin_new c;
  Some (mkCutEngine name c rr true Opt 1 default_digest 0 ∅ ∅ ∅ ∅ ∅ ∅ ∅ ∅ ∅ ∅ ∅ ∅ ∅ ∅ ∅ ∅ ∅ ∅ ∅ ∅ ∅ ∅ false).

Definition with_gate_tips (b : bool) (x : CutEngine) : CutEngine :=
  mkCutEngine (ce_name x) (ce_committee x) (ce_leaders x) b (ce_variant x) (ce_cut_round x) (ce_highest_safe_cut x) (ce_gc_floor x)
    (ce_cut_vote_aggregators x) (ce_cut_ready_aggregators x) (ce_timeouts_aggregators x) (ce_timeout_accept_aggregators x)
    (ce_cut_proposals x) (ce_pending_cut_children x) (ce_cut_round_by_id x) (ce_leader_cut_by_round x) (ce_safe x)
    (ce_decide_aggregators x) (ce_committed x) (ce_sent_cut_votes x) (ce_sent_cut_ready x) (ce_proposed_cut_rounds x) (ce_voted x)
    (ce_sent_commit_rounds x) (ce_timed_out x) (ce_sent_timeout_accepts x) (ce_certified_timed_out x) (ce_scheduled_cut_timers x)
    (ce_pending_cut_fetch x) (ce_fetch_answered x) (ce_overrun x).
Definition with_variant (v : Variant) (x : CutEngine) : CutEngine :=
  mkCutEngine (ce_name x) (ce_committee x) (ce_leaders x) (ce_gate_tips x) v (ce_cut_round x) (ce_highest_safe_cut x) (ce_gc_floor x)
    (ce_cut_vote_aggregators x) (ce_cut_ready_aggregators x) (ce_timeouts_aggregators x) (ce_timeout_accept_aggregators x)
    (ce_cut_proposals x) (ce_pending_cut_children x) (ce_cut_round_by_id x) (ce_leader_cut_by_round x) (ce_safe x)
    (ce_decide_aggregators x) (ce_committed x) (ce_sent_cut_votes x) (ce_sent_cut_ready x) (ce_proposed_cut_rounds x) (ce_voted x)
    (ce_sent_commit_rounds x) (ce_timed_out x) (ce_sent_timeout_accepts x) (ce_certified_timed_out x) (ce_scheduled_cut_timers x)
    (ce_pending_cut_fetch x) (ce_fetch_answered x) (ce_overrun x).

Definition leader_for_round (x : CutEngine) (round : CutRound) : option PublicKey := one_based (ce_leaders x) (u64_add round 1).

(** [split_off] at a round. *)
Definition rounds_from {V} (floor : CutRound) (m : gmap CutRound V) : gmap CutRound V := filter (fun p => floor <= p.1) m.
Definition cuts_from {V} (floor : CutRound) (m : gmap (CutRound * Digest) V) : gmap (CutRound * Digest) V := filter (fun p => floor <= p.1.1) m.
Definition set_from (floor : CutRound) (s : gset CutRound) : gset CutRound := filter (fun r => floor <= r) s.

Definition prune_below (floor : CutRound) (x : CutEngine) : CutEngine :=
  if floor <=? ce_gc_floor x then x
  else
    let dropped := (filter (fun p => p.1.1 < floor) (map_iter (ce_cut_proposals x))).*1.*2 in
    x <| ce_cut_round_by_id ::= fun m => foldr delete m dropped |> <| ce_cut_proposals ::= cuts_from floor |>
      <| ce_cut_vote_aggregators ::= cuts_from floor |> <| ce_cut_ready_aggregators ::= cuts_from floor |>
      <| ce_pending_cut_children ::= cuts_from floor |> <| ce_decide_aggregators ::= cuts_from floor |>
      <| ce_timeouts_aggregators ::= rounds_from floor |> <| ce_timeout_accept_aggregators ::= rounds_from floor |>
      <| ce_leader_cut_by_round ::= rounds_from floor |> <| ce_safe ::= rounds_from floor |> <| ce_committed ::= rounds_from floor |>
      <| ce_sent_cut_votes ::= set_from floor |> <| ce_sent_cut_ready ::= set_from floor |>
      <| ce_proposed_cut_rounds ::= set_from floor |> <| ce_voted ::= set_from floor |> <| ce_sent_commit_rounds ::= set_from floor |>
      <| ce_timed_out ::= set_from floor |> <| ce_sent_timeout_accepts ::= set_from floor |>
      <| ce_certified_timed_out ::= set_from floor |> <| ce_scheduled_cut_timers ::= set_from floor |>
      <| ce_pending_cut_fetch ::= cuts_from floor |> <| ce_fetch_answered ::= filter (fun k => floor <= k.1.1) |>
      <| ce_gc_floor := floor |>.

Definition FETCH_RETRY_ROUNDS : CutRound := 8.

Definition all_other_committee_members (x : CutEngine) : list PublicKey :=
  filter (fun k => k <> ce_name x) (authority_keys (ce_committee x)).

Abbreviation CM := (M CutEffect CutEngine) (only parsing).

Definition ensure_cut_fetch (round : CutRound) (cut : Digest) (targets : list PublicKey) : CM () :=
  x ← get;
  if (round <? ce_gc_floor x) || bool_decide (is_Some (ce_cut_round_by_id x !! cut)) then skip
  else if match ce_pending_cut_fetch x !! (round, cut) with
          | Some last => u64_saturating_sub (ce_cut_round x) last <? FETCH_RETRY_ROUNDS
          | None => false
          end then skip
  else
    modify (fun x => x <| ce_pending_cut_fetch ::= <[ (round, cut) := ce_cut_round x ]> |>);;
    emit_all ((fun peer => CutFetchTo peer round cut) <$> targets).

(** [(from..round).all(certified)], which stops at the first round that is not certified; [n] exceeds the number of those that are. *)
Fixpoint all_timed_out (n : nat) (certified : gset CutRound) (from round : CutRound) : bool :=
  if round <=? from then true
  else
    match n with
    | O => false
    | S n => if bool_decide (from ∈ certified) then all_timed_out n certified (from + 1) round else false
    end.

Definition safe_cut_parent (x : CutEngine) (round : CutRound) (parent_cut : Digest) : bool :=
  match (if parent_cut =? default_digest then Some 0 else ce_cut_round_by_id x !! parent_cut) with
  | None => false
  | Some parent_round =>
      if round <=? parent_round then false
      else all_timed_out (S (size (ce_certified_timed_out x))) (ce_certified_timed_out x) (parent_round + 1) round
  end.

(** The loop skips certified rounds, so it makes at most as many turns as there are. *)
Fixpoint advance_loop (n : nat) (x : CutEngine) : CutEngine :=
  match n with
  | O => x
  | S n =>
      if bool_decide (ce_cut_round x ∈ ce_certified_timed_out x)
         && safe_cut_parent x (u64_add (ce_cut_round x) 1) (ce_highest_safe_cut x)
      then advance_loop n (x <| ce_cut_round ::= fun r => u64_add r 1 |>) else x
  end.

Definition advance_timed_out_cut_rounds : CM bool :=
  x ← get;
  modify (fun x => advance_loop (S (size (ce_certified_timed_out x))) x);;
  y ← get;
  mret (negb (ce_cut_round y =? ce_cut_round x)).

Definition schedule_cut_timer (round : CutRound) : CM () :=
  x ← get;
  if bool_decide (round ∈ ce_scheduled_cut_timers x) then skip
  else modify (fun x => x <| ce_scheduled_cut_timers ::= union {[ round ]} |>);; emit (CutArmTimer round).

Definition emit_commit_to_committer (round : CutRound) (cut : Digest) : CM () :=
  x ← get;
  if bool_decide (round ∈ ce_sent_commit_rounds x) then skip
  else
    match ce_cut_proposals x !! (round, cut) with
    | None => skip
    | Some p => modify (fun x => x <| ce_sent_commit_rounds ::= union {[ round ]} |>);; emit (CutCommit round (cp_tips p))
    end.

Definition try_commit_round (round : CutRound) : CM () :=
  x ← get;
  match ce_committed x !! round, ce_leader_cut_by_round x !! round with
  | Some decide, Some leader_cut => if de_id decide =? leader_cut then emit_commit_to_committer round leader_cut else skip
  | _, _ => skip
  end.

Definition process_decide (d : Decide) : CM () :=
  x ← get;
  if negb (known_author (ce_committee x) (de_author d)) then skip
  else if bool_decide (is_Some (ce_committed x !! de_round d)) then skip
  else
    let key := (de_round d, de_id d) in
    let r := decide_append (ce_committee x) d (default decide_agg_new (ce_decide_aggregators x !! key)) in
    modify (fun x => x <| ce_decide_aggregators ::= <[ key := r.2 ]> |>);;
    match r.1 with
    | Some (Some quorum_decide) =>
        modify (fun x => x <| ce_committed ::= fun m =>
          match m !! de_round quorum_decide with Some _ => m | None => <[ de_round quorum_decide := quorum_decide ]> m end |>);;
        try_commit_round (de_round quorum_decide)
    | _ => skip
    end.

Section engine.
Context {Hash : Hashing} (tips : Cut) (oracle : PublicKey -> Proposal -> bool).

Definition make_cut_proposal (x : CutEngine) (round : CutRound) (parent_cut : Digest) : CutProposal :=
  mkCutProposal round (ce_name x) parent_cut tips.

Definition record_cut_proposal (p : CutProposal) : CM Digest :=
  modify (fun x => x <| ce_cut_round_by_id ::= <[ cut_id p := cp_round p ]> |> <| ce_cut_proposals ::= <[ (cp_round p, cut_id p) := p ]> |>);;
  mret (cut_id p).

(** [pending_cut_children] that wait for [cut], taken out in the order of their rounds. *)
Definition take_children (cut : Digest) : CM (list CutProposal) :=
  x ← get;
  let waiting := filter (fun p => p.1.2 = cut) (map_iter (ce_pending_cut_children x)) in
  modify (fun x => x <| ce_pending_cut_children ::= filter (fun p => p.1.2 <> cut) |>);;
  mret (mjoin waiting.*2).

(** Entries of [pending_cut_children]. *)
Definition push_child (p : CutProposal) (x : CutEngine) : CutEngine :=
  x <| ce_pending_cut_children ::= fun m =>
    <[ (cp_round p, cp_parent_cut p) := default [] (m !! (cp_round p, cp_parent_cut p)) ++ [p] ]> m |>.

Definition tips_ok (x : CutEngine) (p : CutProposal) : bool :=
  negb (ce_gate_tips x) || forallb (fun e => oracle e.1 e.2) (map_iter (cp_tips p)).

Definition cut_off : CM () := modify (fun x => x <| ce_overrun := true |>).

(** The handlers that can lead to an own proposal take the call that processes it as an argument. *)
Section calls.
Context (process_own : CutProposal -> CM ()).

Definition try_propose_cut_for_current_round : CM () :=
  x ← get;
  let round := ce_cut_round x in
  if negb (bool_decide (Some (ce_name x) = leader_for_round x round)) then skip
  else if negb (safe_cut_parent x round (ce_highest_safe_cut x)) then skip
  else if bool_decide (round ∈ ce_proposed_cut_rounds x) then skip
  else
    modify (fun x => x <| ce_proposed_cut_rounds ::= union {[ round ]} |>);;
    let proposal := make_cut_proposal x round (ce_highest_safe_cut x) in
    emit (CutBroadcast (OutCutProposal proposal));;
    process_own proposal.

(** [voted.insert(round)] and the own decide. *)
Definition send_decide (round : CutRound) (cut : Digest) : CM () :=
  x ← get;
  if bool_decide (round ∈ ce_voted x) then skip
  else
    modify (fun x => x <| ce_voted ::= union {[ round ]} |>);;
    let decide := mkDecide cut round (ce_name x) in
    emit (CutBroadcast (OutDecide decide));;
    process_decide decide.

Definition note_safe (round : CutRound) (cut : Digest) (x : CutEngine) : CutEngine :=
  let x := x <| ce_safe ::= fun m => match m !! round with Some _ => m | None => <[ round := cut ]> m end |> in
  let x := if ce_cut_round x <=? u64_add round 1 then x <| ce_highest_safe_cut := cut |> else x in
  x <| ce_cut_round ::= fun r => Z.max r (u64_add round 1) |>.

Definition mark_cut_safe (round : CutRound) (cut : Digest) (witnesses : list PublicKey) : CM () :=
  x ← get;
  if bool_decide (round ∈ ce_certified_timed_out x) then skip
  else
    modify (note_safe round cut);;
    advance_timed_out_cut_rounds;;
    ensure_cut_fetch round cut witnesses;;
    send_decide round cut;;
    try_propose_cut_for_current_round;;
    x ← get;
    schedule_cut_timer (ce_cut_round x).

Definition process_cut_ready (r : CutReady) : CM () :=
  x ← get;
  if negb (known_author (ce_committee x) (cr_author r)) then skip
  else
    let key := (cr_round r, cr_cut_id r) in
    let agg := default ready_agg_new (ce_cut_ready_aggregators x !! key) in
    match ready_append (ce_committee x) r agg with
    | None => modify (fun x => x <| ce_cut_ready_aggregators ::= <[ key := agg ]> |>)
    | Some (witnesses, agg) =>
        modify (fun x => x <| ce_cut_ready_aggregators ::= <[ key := agg ]> |>);;
        match witnesses with Some w => mark_cut_safe (cr_round r) (cr_cut_id r) w | None => skip end
    end.

Definition broadcast_cut_ready (round : CutRound) (cut : Digest) : CM () :=
  x ← get;
  if bool_decide (round ∈ ce_sent_cut_ready x) then skip
  else
    modify (fun x => x <| ce_sent_cut_ready ::= union {[ round ]} |>);;
    let ready := mkCutReady round cut (ce_name x) in
    emit (CutBroadcast (OutCutReady ready));;
    process_cut_ready ready.

Definition process_cut_vote (v : CutVote) : CM () :=
  x ← get;
  if negb (known_author (ce_committee x) (cv_author v)) then skip
  else
    let key := (cv_round v, cv_cut_id v) in
    let agg := default vote_agg_new (ce_cut_vote_aggregators x !! key) in
    match vote_append (ce_committee x) v agg with
    | None => modify (fun x => x <| ce_cut_vote_aggregators ::= <[ key := agg ]> |>)
    | Some ((previous, current), agg) =>
        modify (fun x => x <| ce_cut_vote_aggregators ::= <[ key := agg ]> |>);;
        let quorum := quorum_threshold (ce_committee x) in
        let mint := mint_threshold (ce_committee x) in
        when ((previous <? quorum) && (quorum <=? current)) (broadcast_cut_ready (cv_round v) (cv_cut_id v));;
        when (bool_decide (ce_variant x = Opt) && (previous <? mint) && (mint <=? current))
          (mark_cut_safe (cv_round v) (cv_cut_id v) (va_voters agg))
    end.

(** [sent_cut_votes.insert(round)] and the own vote. *)
Definition send_vote (round : CutRound) (cut : Digest) : CM () :=
  x ← get;
  if bool_decide (round ∈ ce_sent_cut_votes x) then skip
  else
    modify (fun x => x <| ce_sent_cut_votes ::= union {[ round ]} |>);;
    let vote := mkCutVote round cut (ce_name x) in
    emit (CutBroadcast (OutCutVote vote));;
    process_cut_vote vote.

(** A proposal whose parent is not safe yet waits, and an unknown parent is asked for. *)
Definition defer_proposal (p : CutProposal) : CM () :=
  x ← get;
  when (negb (cp_parent_cut p =? default_digest) && negb (bool_decide (is_Some (ce_cut_round_by_id x !! cp_parent_cut p))))
    (ensure_cut_fetch (u64_saturating_sub (cp_round p) 1) (cp_parent_cut p) (all_other_committee_members x));;
  modify (push_child p).

(** One turn of the loop of [process_cut_proposal]; the children to append to the queue. *)
Definition proposal_turn (p : CutProposal) : CM (list CutProposal) :=
  x ← get;
  let round := cp_round p in
  if negb (known_author (ce_committee x) (cp_proposer p)) then mret []
  else if bool_decide (round ∈ ce_certified_timed_out x) then mret []
  else if negb (bool_decide (Some (cp_proposer p) = leader_for_round x round)) then mret []
  else if negb (safe_cut_parent x round (cp_parent_cut p)) then defer_proposal p;; mret []
  else if bool_decide (is_Some (ce_cut_proposals x !! (round, cut_id p))) then mret []
  else
    let ok := tips_ok x p in
    cut ← record_cut_proposal p;
    modify (fun x => x <| ce_leader_cut_by_round ::= fun m => match m !! round with Some _ => m | None => <[ round := cut ]> m end |>);;
    children ← take_children cut;
    when ok (send_vote round cut);;
    try_commit_round round;;
    mret children.
End calls.

(** The loop of [process_cut_proposal]; [n] bounds the turns of the loop and of the calls inside it. *)
Fixpoint process_cut_queue (n : nat) (queue : list CutProposal) : CM () :=
  match queue with
  | [] => skip
  | p :: queue =>
      match n with
      | O => cut_off
      | S n =>
          children ← proposal_turn (fun own => process_cut_queue n [own]) p;
          process_cut_queue n (queue ++ children)
      end
  end.

Context (n : nat).

Definition process_cut_proposal (p : CutProposal) : CM () := process_cut_queue n [p].

Definition retry_pending_cut_proposals : CM () :=
  x ← get;
  let pending := map_iter (ce_pending_cut_children x) in
  let is_safe (p : CutProposal) := safe_cut_parent x (cp_round p) (cp_parent_cut p) in
  let ready := filter (fun p => is_safe p = true) (mjoin pending.*2) in
  modify (fun x => x <| ce_pending_cut_children ::= omap (fun l =>
    let deferred := filter (fun p => is_safe p = false) l in if decide (deferred = []) then None else Some deferred) |>);;
  for_each process_cut_proposal ready.

Definition record_timeout_accept (a : TimeoutAccept) : CM (Stake * option TimeoutCert) :=
  x ← get;
  if negb (known_author (ce_committee x) (ta_author a)) then mret (0, None)
  else if bool_decide (ta_round a ∈ ce_certified_timed_out x) || bool_decide (is_Some (ce_safe x !! ta_round a)) then mret (0, None)
  else
    let agg := default accept_agg_new (ce_timeout_accept_aggregators x !! ta_round a) in
    match accept_append (ce_committee x) a agg with
    | None => modify (fun x => x <| ce_timeout_accept_aggregators ::= <[ ta_round a := agg ]> |>);; mret (0, None)
    | Some (r, agg) => modify (fun x => x <| ce_timeout_accept_aggregators ::= <[ ta_round a := agg ]> |>);; mret r
    end.

Definition send_timeout_accept (round : CutRound) : CM (option (Stake * option TimeoutCert)) :=
  x ← get;
  if bool_decide (round ∈ ce_sent_timeout_accepts x) then mret None
  else
    modify (fun x => x <| ce_sent_timeout_accepts ::= union {[ round ]} |>);;
    let accept := mkTimeoutAccept round (ce_name x) in
    emit (CutBroadcast (OutTimeoutAccept accept));;
    r ← record_timeout_accept accept;
    mret (Some r).

(** The certified round lets waiting proposals and the own round move on. *)
Definition certify_timeout (round : CutRound) : CM () :=
  x ← get;
  if bool_decide (round ∈ ce_certified_timed_out x) then skip
  else
    modify (fun x => x <| ce_certified_timed_out ::= union {[ round ]} |>);;
    retry_pending_cut_proposals;;
    advanced ← advance_timed_out_cut_rounds;
    when advanced (
      try_propose_cut_for_current_round process_cut_proposal;;
      x ← get;
      schedule_cut_timer (ce_cut_round x)).

Definition handle_timeout_accept_action (round : CutRound) (weight : Stake) (cert : option TimeoutCert) : CM () :=
  x ← get;
  cert ← (if validity_threshold (ce_committee x) <=? weight then
            r ← send_timeout_accept round;
            mret (match cert, r with Some t, _ => Some t | None, Some (_, own) => own | None, None => None end)
          else mret cert);
  match cert with
  | Some t => if cert_verify (ce_committee x) t then certify_timeout round else skip
  | None => skip
  end.

Definition process_timeout_accept (a : TimeoutAccept) : CM () :=
  r ← record_timeout_accept a;
  handle_timeout_accept_action (ta_round a) r.1 r.2.

Definition process_timeout (t : Timeout) : CM () :=
  x ← get;
  if negb (known_author (ce_committee x) (to_author t)) then skip
  else if bool_decide (to_round t ∈ ce_certified_timed_out x) || bool_decide (is_Some (ce_safe x !! to_round t)) then skip
  else
    let agg := default timeout_agg_new (ce_timeouts_aggregators x !! to_round t) in
    match timeout_append (ce_committee x) t agg with
    | None => modify (fun x => x <| ce_timeouts_aggregators ::= <[ to_round t := agg ]> |>)
    | Some (quorum, agg) =>
        modify (fun x => x <| ce_timeouts_aggregators ::= <[ to_round t := agg ]> |>);;
        when quorum (
          r ← send_timeout_accept (to_round t);
          match r with
          | Some (weight, cert) => handle_timeout_accept_action (to_round t) weight cert
          | None => skip
          end)
    end.

Definition process_cut_timer (round : CutRound) : CM () :=
  x ← get;
  if negb (round =? ce_cut_round x) || bool_decide (is_Some (ce_safe x !! round)) || bool_decide (round ∈ ce_certified_timed_out x)
     || bool_decide (round ∈ ce_timed_out x) then skip
  else
    modify (fun x => x <| ce_timed_out ::= union {[ round ]} |>);;
    let timeout := mkTimeout round (ce_name x) in
    emit (CutBroadcast (OutTimeout timeout));;
    process_timeout timeout.

Definition on_cut_fetch (requester : PublicKey) (round : CutRound) (cut : Digest) : CM () :=
  x ← get;
  if round <? ce_gc_floor x then skip
  else if bool_decide ((round, cut, requester) ∈ ce_fetch_answered x) then skip
  else
    match ce_cut_proposals x !! (round, cut) with
    | None => skip
    | Some p => modify (fun x => x <| ce_fetch_answered ::= union {[ (round, cut, requester) ]} |>);; emit (CutServeTo requester p)
    end.

Definition on_cut_serve (p : CutProposal) : CM () :=
  x ← get;
  let key := (cp_round p, cut_id p) in
  if negb (bool_decide (is_Some (ce_pending_cut_fetch x !! key))) then skip
  else
    modify (fun x => x <| ce_pending_cut_fetch ::= delete key |>);;
    process_cut_proposal p.

(** [sanitize_timeout_accept]. *)
Definition accept_is_current (x : CutEngine) (a : TimeoutAccept) : bool := ce_gc_floor x <=? ta_round a.

Definition cut_handle (i : Inbound) : CM () :=
  match i with
  | InCutProposal p => process_cut_proposal p
  | InCutVote v => process_cut_vote process_cut_proposal v
  | InCutReady r => process_cut_ready process_cut_proposal r
  | InDecide d => process_decide d
  | InTimeout t => process_timeout t
  | InTimeoutAccept a =>
      x ← get;
      if accept_is_current x a then process_timeout_accept a else skip
  | InTimerFired round => process_cut_timer round
  | InCutFetch round cut requester => on_cut_fetch requester round cut
  | InCutServe p => on_cut_serve p
  end.

(** The first calls of the node loop: the proposal of round 1 and its timer. *)
Definition cut_bootstrap : CM () :=
  try_propose_cut_for_current_round process_cut_proposal;;
  schedule_cut_timer 1.
End engine.

(** The floor of [collect_internal_garbage]; the node keeps its own copy of the last one. *)
Definition collect_internal_garbage (gc_window : CutRound) (last_gc_floor : CutRound) (x : CutEngine) : CutRound * CutEngine :=
  let floor := u64_saturating_sub (ce_cut_round x) gc_window in
  if floor <=? last_gc_floor then (last_gc_floor, x) else (floor, prune_below floor x).
