(* ===== verification/SimpleItInv.v ===== *)
(** The invariant of the Simple-IT engine.

    What an engine has counted was said by its authors, its own votes, ready messages and decides are sent once
    per round and for a reason, and what it commits has a quorum of decides.  [ok] is the triple that the handlers
    are verified with: it carries the history of effects along. *)

From S2P Require Import Prelude Committee Types Blocks SimpleIt.

(** The fields hold values of their types. *)
Definition typed_tips (t : gmap PublicKey Proposal) : Prop :=
  map_Forall (fun a t => is_digest a /\ is_digest (pr_header_digest t) /\ is_u64 (pr_height t)) t.
Definition typed_cut (p : CutProposal) : Prop :=
  is_u64 (cp_round p) /\ typed_tips (cp_tips p).

(** Sent before or now. *)
Lemma elem_of_snoc {A} (h : list A) (e e' : A) : e' ∈ h ++ [e] <-> e' ∈ h \/ e = e'.
Proof. rewrite elem_of_app, list_elem_of_singleton. naive_solver. Qed.

Section inv.
Context {Hash : Hashing} (cm : Committee) (Hcm : committee_ok cm) (name : PublicKey) (gate : bool).
Context (inp : Inbound -> Prop) (avail : PublicKey -> Proposal -> Prop).
Abbreviation hist := (list CutEffect) (only parsing).
Set Default Proof Using "Type Hcm".

(** ** What was said *)

Definition said_vote (h : hist) (v : CutVote) : Prop := inp (InCutVote v) \/ CutBroadcast (OutCutVote v) ∈ h.
Definition said_ready (h : hist) (r : CutReady) : Prop := inp (InCutReady r) \/ CutBroadcast (OutCutReady r) ∈ h.
Definition said_decide (h : hist) (d : Decide) : Prop := inp (InDecide d) \/ CutBroadcast (OutDecide d) ∈ h.

Definition vote_quorum (h : hist) (r : CutRound) (c : Digest) : Prop :=
  exists X, quorum_threshold cm <= stake_of cm X /\ forall k, k ∈ X -> said_vote h (mkCutVote r c k).
Definition ready_quorum (h : hist) (r : CutRound) (c : Digest) : Prop :=
  exists X, quorum_threshold cm <= stake_of cm X /\ forall k, k ∈ X -> said_ready h (mkCutReady r c k).
Definition decide_quorum (h : hist) (r : CutRound) (c : Digest) : Prop :=
  exists X, quorum_threshold cm <= stake_of cm X /\ forall k, k ∈ X -> said_decide h (mkDecide c r k).
Definition justified (h : hist) (r : CutRound) (c : Digest) : Prop := vote_quorum h r c \/ ready_quorum h r c.

Definition commits (h : hist) : list CutRound := omap (fun e => match e with CutCommit r _ => Some r | _ => None end) h.

(** ** The invariant *)

Record cut_ok (h : hist) (x : CutEngine) : Prop := {
  ck_config : ce_committee x = cm /\ ce_name x = name /\ ce_gate_tips x = gate;
  ck_floor : 0 <= ce_gc_floor x <= ce_cut_round x /\ ce_cut_round x <= u64_max;
  ck_by_id c r : ce_cut_round_by_id x !! c = Some r -> 0 <= r;
  ck_vote_agg r c a : ce_cut_vote_aggregators x !! (r, c) = Some a ->
    va_weight a = stake_of cm (va_used a) /\ forall k, k ∈ va_used a -> said_vote h (mkCutVote r c k);
  ck_ready_agg r c a : ce_cut_ready_aggregators x !! (r, c) = Some a ->
    0 <= ra_weight a <= stake_of cm (ra_used a) /\ forall k, k ∈ ra_used a -> said_ready h (mkCutReady r c k);
  ck_decide_agg r c a : ce_decide_aggregators x !! (r, c) = Some a ->
    0 <= da_weight a <= stake_of cm (da_used a) /\ forall k, k ∈ da_used a -> said_decide h (mkDecide c r k);
  ck_votes v : CutBroadcast (OutCutVote v) ∈ h ->
    cv_author v = name /\ (cv_round v ∈ ce_sent_cut_votes x \/ cv_round v < ce_gc_floor x) /\
    exists p, typed_cut p /\ cut_id p = cv_cut_id v /\ (gate = true -> map_Forall avail (cp_tips p));
  ck_vote_once v v' : CutBroadcast (OutCutVote v) ∈ h -> CutBroadcast (OutCutVote v') ∈ h -> cv_round v = cv_round v' -> v = v';
  ck_readies r : CutBroadcast (OutCutReady r) ∈ h ->
    cr_author r = name /\ (cr_round r ∈ ce_sent_cut_ready x \/ cr_round r < ce_gc_floor x) /\ vote_quorum h (cr_round r) (cr_cut_id r);
  ck_ready_once r r' : CutBroadcast (OutCutReady r) ∈ h -> CutBroadcast (OutCutReady r') ∈ h -> cr_round r = cr_round r' -> r = r';
  ck_decides d : CutBroadcast (OutDecide d) ∈ h ->
    de_author d = name /\ (de_round d ∈ ce_voted x \/ de_round d < ce_gc_floor x) /\ justified h (de_round d) (de_id d);
  ck_decide_once d d' : CutBroadcast (OutDecide d) ∈ h -> CutBroadcast (OutDecide d') ∈ h -> de_round d = de_round d' -> d = d';
  ck_safe r c : ce_safe x !! r = Some c -> justified h r c;
  ck_committed r d : ce_committed x !! r = Some d -> de_round d = r /\ decide_quorum h r (de_id d);
  ck_proposals r c p : ce_cut_proposals x !! (r, c) = Some p -> cp_round p = r /\ cut_id p = c /\ typed_cut p;
  ck_pending k l : ce_pending_cut_children x !! k = Some l -> Forall (fun p => cp_round p = k.1 /\ typed_cut p /\ ce_gc_floor x <= cp_round p) l;
  ck_commits r t : CutCommit r t ∈ h -> (r ∈ ce_sent_commit_rounds x \/ r < ce_gc_floor x) /\
    exists p, typed_cut p /\ cp_round p = r /\ cp_tips p = t /\ decide_quorum h r (cut_id p);
  ck_commit_once : NoDup (commits h);
}.

(** ** Histories grow *)

Lemma said_vote_app h es v : said_vote h v -> said_vote (h ++ es) v.
Proof. intros [?|?]; [by left|right]. apply elem_of_app. by left. Qed.
Lemma said_ready_app h es r : said_ready h r -> said_ready (h ++ es) r.
Proof. intros [?|?]; [by left|right]. apply elem_of_app. by left. Qed.
Lemma said_decide_app h es d : said_decide h d -> said_decide (h ++ es) d.
Proof. intros [?|?]; [by left|right]. apply elem_of_app. by left. Qed.
Lemma vote_quorum_app h es r c : vote_quorum h r c -> vote_quorum (h ++ es) r c.
Proof. intros (X & HX & Hk). exists X. split; [done|]. intros k Hin. by apply said_vote_app, Hk. Qed.
Lemma ready_quorum_app h es r c : ready_quorum h r c -> ready_quorum (h ++ es) r c.
Proof. intros (X & HX & Hk). exists X. split; [done|]. intros k Hin. by apply said_ready_app, Hk. Qed.
Lemma decide_quorum_app h es r c : decide_quorum h r c -> decide_quorum (h ++ es) r c.
Proof. intros (X & HX & Hk). exists X. split; [done|]. intros k Hin. by apply said_decide_app, Hk. Qed.
Lemma justified_app h es r c : justified h r c -> justified (h ++ es) r c.
Proof. intros [?|?]; [left; by apply vote_quorum_app|right; by apply ready_quorum_app]. Qed.

(** Effects that say nothing. *)
Definition mute (e : CutEffect) : Prop :=
  match e with
  | CutBroadcast (OutCutVote _) | CutBroadcast (OutCutReady _) | CutBroadcast (OutDecide _) | CutCommit _ _ => False
  | _ => True
  end.

(** The steps of the engine write few of the fields the invariant speaks of. *)
Definition core (x : CutEngine) :=
  ((ce_committee x, ce_name x, ce_gate_tips x, ce_gc_floor x), (ce_cut_vote_aggregators x, ce_cut_ready_aggregators x, ce_decide_aggregators x),
   (ce_sent_cut_votes x, ce_sent_cut_ready x, ce_voted x, ce_sent_commit_rounds x), (ce_safe x, ce_committed x), (ce_cut_proposals x, ce_pending_cut_children x)).

Lemma cut_ok_core h x x' :
  cut_ok h x -> core x' = core x -> ce_gc_floor x <= ce_cut_round x' <= u64_max ->
  (forall c r, ce_cut_round_by_id x' !! c = Some r -> 0 <= r) -> cut_ok h x'.
Proof.
  intros [A1 A2 A3 A4 A5 A6 A7 A8 A9 A10 A11 A12 A13 A14 A15 A16 A17 A18] [= E1 E2 E3 E4 E5 E6 E7 E8 E9 E10 E11 E12 E13 E14 E15] Hr Hi.
  split; rewrite ?E1, ?E2, ?E3, ?E4, ?E5, ?E6, ?E7, ?E8, ?E9, ?E10, ?E11, ?E12, ?E13, ?E14, ?E15; try done. lia.
Qed.

Lemma commits_app h es : commits (h ++ es) = commits h ++ commits es.
Proof. unfold commits. apply omap_app. Qed.

Lemma cut_ok_mute h es x : cut_ok h x -> Forall mute es -> cut_ok (h ++ es) x.
Proof.
  intros [A1 A2 A3 A4 A5 A6 A7 A8 A9 A10 A11 A12 A13 A14 A15 A16 A17 A18] Hm. rewrite Forall_forall in Hm.
  assert (forall e, e ∈ h ++ es -> ~ mute e -> e ∈ h) as Hold.
  { intros e [?|He]%elem_of_app Hn; [done|]. by apply Hm in He. }
  split; try done.
  - intros r c a Ha. destruct (A4 r c a Ha). split; [done|]. intros k Hk. by apply said_vote_app; auto.
  - intros r c a Ha. destruct (A5 r c a Ha). split; [done|]. intros k Hk. by apply said_ready_app; auto.
  - intros r c a Ha. destruct (A6 r c a Ha). split; [done|]. intros k Hk. by apply said_decide_app; auto.
  - intros v Hv. apply A7, Hold; [done|tauto].
  - intros v v' Hv Hv'. apply A8; apply Hold; auto.
  - intros r Hr. destruct (A9 r) as (? & ? & ?); [apply Hold; auto|]. split_and!; try done. by apply vote_quorum_app.
  - intros v v' Hv Hv'. apply A10; apply Hold; auto.
  - intros d Hd. destruct (A11 d) as (? & ? & ?); [apply Hold; auto|]. split_and!; try done. by apply justified_app.
  - intros v v' Hv Hv'. apply A12; apply Hold; auto.
  - intros r c Hs. by apply justified_app, A13.
  - intros r d Hd. destruct (A14 r d Hd). split; [done|by apply decide_quorum_app].
  - intros r t Ht. destruct (A17 r t) as (? & p & ? & ? & ? & ?); [apply Hold; auto|]. split; [done|]. exists p. split_and!; try done. by apply decide_quorum_app.
  - rewrite commits_app. assert (commits es = []) as ->; [|by rewrite app_nil_r].
    unfold commits. clear -Hm. induction es as [|e es IH]; [done|]. cbn. rewrite IH by (intros; apply Hm; by right).
    destruct e; try done. exfalso. apply (Hm (CutCommit round proposals)). left.
Qed.

(** ** The triple *)

(** From a state that satisfies the invariant with history [h], [m] leads to one that does with the longer history, keeps the
    floor and establishes [Q]. *)
Definition ok {A} (h : hist) (m : M CutEffect CutEngine A) (x : CutEngine) (Q : A -> hist -> CutEngine -> Prop) : Prop :=
  wp m x (fun a es x' => cut_ok (h ++ es) x' /\ ce_gc_floor x' = ce_gc_floor x /\ Q a (h ++ es) x').

Lemma ok_bind {A B} h (m : M CutEffect CutEngine A) (k : A -> M CutEffect CutEngine B) x Q Q' :
  ok h m x Q -> (forall a es x', cut_ok (h ++ es) x' -> ce_gc_floor x' = ce_gc_floor x -> Q a (h ++ es) x' -> ok (h ++ es) (k a) x' Q') ->
  ok h (m ≫= k) x Q'.
Proof.
  unfold ok. intros Hm Hk. apply wp_bind. eapply wp_mono; [exact Hm|]. cbn. intros a es x' (H1 & H2 & H3).
  eapply wp_mono; [by apply Hk|]. cbn. intros b es' x'' (K1 & K2 & K3). rewrite <- (assoc_L (++)) in K1, K3. split; [done|]. by split; [congruence|].
Qed.

Lemma ok_get {B} h (k : CutEngine -> M CutEffect CutEngine B) x Q : ok h (k x) x Q -> ok h (get ≫= k) x Q.
Proof. unfold ok. intros H. apply wp_bind, wp_get. exact H. Qed.

Lemma ok_modify {B} h f (k : () -> M CutEffect CutEngine B) x Q :
  ce_gc_floor (f x) = ce_gc_floor x -> ok h (k tt) (f x) Q -> ok h (modify f ≫= k) x Q.
Proof. unfold ok. intros Hf H. apply wp_bind, wp_modify. rewrite Hf in H. exact H. Qed.

Lemma ok_emit {B} h e (k : () -> M CutEffect CutEngine B) x Q : ok (h ++ [e]) (k tt) x Q -> ok h (emit e ≫= k) x Q.
Proof.
  unfold ok. intros H. apply wp_bind, wp_emit. eapply wp_mono; [exact H|]. cbn. intros a es x' H1. by rewrite <- (assoc_L (++)) in H1.
Qed.

Lemma ok_ret {A} h (a : A) x (Q : A -> hist -> CutEngine -> Prop) : cut_ok h x -> Q a h x -> ok h (mret a) x Q.
Proof. intros. unfold ok. apply wp_ret. by rewrite app_nil_r. Qed.

Abbreviation anything := (fun _ (_ : hist) (_ : CutEngine) => True) (only parsing).

Lemma ok_skip h x : cut_ok h x -> ok h skip x anything.
Proof. intros. by apply ok_ret. Qed.

Lemma ok_last_modify h f x : cut_ok h (f x) -> ce_gc_floor (f x) = ce_gc_floor x -> ok h (modify f) x anything.
Proof. intros. unfold ok. apply wp_modify. by rewrite app_nil_r. Qed.

Lemma ok_last_emit h e x : cut_ok (h ++ [e]) x -> ok h (emit e) x anything.
Proof. done. Qed.

Lemma ok_emit_all h es x : cut_ok h x -> Forall mute es -> ok h (emit_all es) x anything.
Proof. intros. unfold ok. apply wp_emit_all. split; [|done]. by apply cut_ok_mute. Qed.

Lemma ok_when h (b : bool) m x : cut_ok h x -> (b = true -> ok h m x anything) -> ok h (when b m) x anything.
Proof. intros Hx Hm. destruct b; [by apply Hm|by apply ok_skip]. Qed.

Lemma ok_weaken {A} h (m : M CutEffect CutEngine A) x Q Q' : ok h m x Q -> (forall a h' x', Q a h' x' -> Q' a h' x') -> ok h m x Q'.
Proof. unfold ok. intros Hm HQ. eapply wp_mono; [exact Hm|]. cbn. naive_solver. Qed.

(** ** Counting *)

Lemma stake_of_grow k X : k ∉ X -> stake_of cm ({[ k ]} ∪ X) = stake_of cm X + stake cm k.
Proof.
  intros Hk. unfold stake_of. rewrite set_sum_disj_union by set_solver.
  assert (set_sum (stake cm) {[ k ]} = stake cm k) as ->; [|lia]. unfold set_sum. by rewrite set_fold_singleton, Z.add_0_r.
Qed.

Lemma stake_of_nonneg X : 0 <= stake_of cm X.
Proof. unfold stake_of. rewrite <- (set_sum_empty (stake cm)). apply set_sum_mono; [apply (stake_nonneg cm Hcm)|set_solver]. Qed.

Lemma stake_counted k X w : k ∉ X -> 0 <= w <= stake_of cm X ->
  0 <= u32_add w (stake cm k) <= stake_of cm ({[ k ]} ∪ X) /\ (w = stake_of cm X -> u32_add w (stake cm k) = stake_of cm ({[ k ]} ∪ X)).
Proof.
  intros Hk Hw. pose proof (stake_nonneg cm Hcm k). pose proof (stake_of_le cm Hcm ({[ k ]} ∪ X)) as Hle. rewrite stake_of_grow in * by done.
  pose proof (total_votes_bounds cm Hcm). rewrite u32_add_small by lia. lia.
Qed.

(** ** Decides and commits *)

(** Names the fields of the invariant. *)
Ltac open_inv H := destruct H as [A1 A2 A3 A4 A5 A6 A7 A8 A9 A10 A11 A12 A13 A14 A15 A16 A17 A18].

Definition decide_agg_ok (h : hist) (r : CutRound) (c : Digest) (a : DecideAggregator) : Prop :=
  0 <= da_weight a <= stake_of cm (da_used a) /\ forall k, k ∈ da_used a -> said_decide h (mkDecide c r k).

Lemma decide_append_ok h d a :
  decide_agg_ok h (de_round d) (de_id d) a -> said_decide h d ->
  decide_agg_ok h (de_round d) (de_id d) (decide_append cm d a).2 /\
  forall q, (decide_append cm d a).1 = Some (Some q) -> q = d /\ decide_quorum h (de_round d) (de_id d).
Proof.
  intros [Hw Hs] Hd. unfold decide_append. destruct (negb _); [done|]. cbn [da_used da_weight da_round da_cut_id].
  destruct (negb _); [done|]. case_bool_decide as Hin; [done|].
  destruct (stake_counted (de_author d) (da_used a) (da_weight a) Hin Hw) as [Hle _]. pose proof (stake_nonneg cm Hcm (de_author d)).
  assert (forall k, k ∈ {[ de_author d ]} ∪ da_used a -> said_decide h (mkDecide (de_id d) (de_round d) k)) as Hall.
  { intros k [->%elem_of_singleton|Hk]%elem_of_union; [by destruct d|by apply Hs]. }
  destruct (Z.leb_spec (quorum_threshold cm) (u32_add (da_weight a) (stake cm (de_author d)))); cbn [fst snd]; (split; [split; [cbn; lia|exact Hall]|]); [|done].
  intros q [= <-]. split; [done|]. eexists. split; [|exact Hall]. lia.
Qed.

(** One effect that says something, sent for the first time in its round and above the floor; only latches change. *)
Record speaks (h : hist) (x : CutEngine) (e : CutEffect) (x' : CutEngine) : Prop := {
  sp_core : ce_sent_cut_votes x ⊆ ce_sent_cut_votes x' /\ ce_sent_cut_ready x ⊆ ce_sent_cut_ready x' /\ ce_voted x ⊆ ce_voted x' /\
    ce_sent_commit_rounds x ⊆ ce_sent_commit_rounds x';
  sp_rest : core (x' <| ce_sent_cut_votes := ce_sent_cut_votes x |> <| ce_sent_cut_ready := ce_sent_cut_ready x |> <| ce_voted := ce_voted x |>
    <| ce_sent_commit_rounds := ce_sent_commit_rounds x |>) = core x;
  sp_round : ce_cut_round x' = ce_cut_round x /\ ce_cut_round_by_id x' = ce_cut_round_by_id x;
  sp_vote v : e = CutBroadcast (OutCutVote v) -> cv_author v = name /\ (ce_gc_floor x <= cv_round v /\ (cv_round v ∉ ce_sent_cut_votes x) /\ cv_round v ∈ ce_sent_cut_votes x') /\
    exists p, typed_cut p /\ cut_id p = cv_cut_id v /\ (gate = true -> map_Forall avail (cp_tips p));
  sp_ready r : e = CutBroadcast (OutCutReady r) -> cr_author r = name /\ (ce_gc_floor x <= cr_round r /\ (cr_round r ∉ ce_sent_cut_ready x) /\ cr_round r ∈ ce_sent_cut_ready x') /\
    vote_quorum h (cr_round r) (cr_cut_id r);
  sp_decide d : e = CutBroadcast (OutDecide d) -> de_author d = name /\ (ce_gc_floor x <= de_round d /\ (de_round d ∉ ce_voted x) /\ de_round d ∈ ce_voted x') /\
    justified h (de_round d) (de_id d);
  sp_commit r t : e = CutCommit r t -> (ce_gc_floor x <= r /\ (r ∉ ce_sent_commit_rounds x) /\ r ∈ ce_sent_commit_rounds x') /\
    exists p, typed_cut p /\ cp_round p = r /\ cp_tips p = t /\ decide_quorum h r (cut_id p);
}.

Lemma cut_ok_speaks h x e x' : cut_ok h x -> speaks h x e x' -> cut_ok (h ++ [e]) x'.
Proof.
  intros Hok [(S1 & S2 & S3 & S4) Sc [Sr Si] Sv Srd Sd Scm]. open_inv Hok.
  injection Sc as E1 E2 E3 E4 E5 E6 E7 E8 E9 E10 E11. cbn in *.
  split; rewrite ?E1, ?E2, ?E3, ?E4, ?E5, ?E6, ?E7, ?E8, ?E9, ?E10, ?E11, ?Sr, ?Si; try done.
  - intros r c a Ha. destruct (A4 r c a Ha). split; [done|]. intros k Hk. by apply said_vote_app; auto.
  - intros r c a Ha. destruct (A5 r c a Ha). split; [done|]. intros k Hk. by apply said_ready_app; auto.
  - intros r c a Ha. destruct (A6 r c a Ha). split; [done|]. intros k Hk. by apply said_decide_app; auto.
  - intros v [Hv|Hv]%elem_of_snoc; [destruct (A7 v Hv) as (? & [?|?] & ?); auto|]. destruct (Sv v Hv) as (? & (? & ? & ?) & ?). auto.
  - intros v v' [Hv|Hv]%elem_of_snoc [Hv'|Hv']%elem_of_snoc Hr; [by apply A8| | |congruence].
    + destruct (Sv v' Hv') as (_ & (? & Hn & _) & _), (A7 v Hv) as (_ & [?|?] & _); [|lia]. by rewrite Hr in *.
    + destruct (Sv v Hv) as (_ & (? & Hn & _) & _), (A7 v' Hv') as (_ & [?|?] & _); [|lia]. by rewrite Hr in *.
  - intros v [Hv|Hv]%elem_of_snoc; [destruct (A9 v Hv) as (? & [?|?] & ?)|destruct (Srd v Hv) as (? & (? & ? & ?) & ?)]; split_and!; auto; by apply vote_quorum_app.
  - intros v v' [Hv|Hv]%elem_of_snoc [Hv'|Hv']%elem_of_snoc Hr; [by apply A10| | |congruence].
    + destruct (Srd v' Hv') as (_ & (? & Hn & _) & _), (A9 v Hv) as (_ & [?|?] & _); [|lia]. by rewrite Hr in *.
    + destruct (Srd v Hv) as (_ & (? & Hn & _) & _), (A9 v' Hv') as (_ & [?|?] & _); [|lia]. by rewrite Hr in *.
  - intros v [Hv|Hv]%elem_of_snoc; [destruct (A11 v Hv) as (? & [?|?] & ?)|destruct (Sd v Hv) as (? & (? & ? & ?) & ?)]; split_and!; auto; by apply justified_app.
  - intros v v' [Hv|Hv]%elem_of_snoc [Hv'|Hv']%elem_of_snoc Hr; [by apply A12| | |congruence].
    + destruct (Sd v' Hv') as (_ & (? & Hn & _) & _), (A11 v Hv) as (_ & [?|?] & _); [|lia]. by rewrite Hr in *.
    + destruct (Sd v Hv) as (_ & (? & Hn & _) & _), (A11 v' Hv') as (_ & [?|?] & _); [|lia]. by rewrite Hr in *.
  - intros r c Hs. by apply justified_app, A13.
  - intros r d Hd. destruct (A14 r d Hd). split; [done|by apply decide_quorum_app].
  - intros r t [Ht|Ht]%elem_of_snoc; [destruct (A17 r t Ht) as ([?|?] & p & ? & ? & ? & ?)|destruct (Scm r t Ht) as ((? & ? & ?) & p & ? & ? & ? & ?)];
      (split; [by auto|]); exists p; split_and!; try done; by apply decide_quorum_app.
  - rewrite commits_app. apply NoDup_app. split; [done|]. split; [|destruct e; cbn; try constructor; [apply not_elem_of_nil|constructor]].
    intros r Hr Hr'. unfold commits in Hr, Hr'. apply list_elem_of_omap in Hr as (e1 & He1 & Hre1), Hr' as (e2 & He2 & Hre2).
    apply list_elem_of_singleton in He2 as ->. destruct e1; try done. destruct e; try done. injection Hre1 as ->. injection Hre2 as ->.
    destruct (A17 _ _ He1) as [Hor _], (Scm _ _ eq_refl) as ((? & ? & ?) & _). destruct Hor; [done|lia].
Qed.

Lemma try_commit_round_ok h x r : cut_ok h x -> ce_gc_floor x <= r -> ok h (try_commit_round r) x anything.
Proof.
  intros Hok Hr. unfold try_commit_round. apply ok_get. destruct (ce_committed x !! r) as [d|] eqn:Hd; [|by apply ok_skip].
  destruct (ce_leader_cut_by_round x !! r) as [c|]; [|by apply ok_skip]. destruct (Z.eqb_spec (de_id d) c) as [<-|]; [|by apply ok_skip].
  unfold emit_commit_to_committer. apply ok_get. case_bool_decide as Hs; [by apply ok_skip|].
  destruct (ce_cut_proposals x !! (r, de_id d)) as [p|] eqn:Hp; [|by apply ok_skip]. apply ok_modify; [done|]. apply ok_last_emit.
  destruct (ck_committed _ _ Hok _ _ Hd) as [_ Hq]. destruct (ck_proposals _ _ Hok _ _ _ Hp) as (E1 & E2 & Ht).
  apply (cut_ok_speaks h x); [done|]. split; cbn; try done; [set_solver|]. intros r' t [= <- <-]. split; [set_solver|].
  exists p. rewrite E2. done.
Qed.

Lemma process_decide_ok h x d : cut_ok h x -> said_decide h d -> ce_gc_floor x <= de_round d -> ok h (process_decide d) x anything.
Proof.
  intros Hok Hd Hr. unfold process_decide. apply ok_get. destruct (negb _); [by apply ok_skip|]. case_bool_decide as Hc; [by apply ok_skip|].
  destruct (ck_config _ _ Hok) as (-> & _). set (key := (de_round d, de_id d)). set (a := default decide_agg_new _).
  assert (decide_agg_ok h (de_round d) (de_id d) a) as Ha.
  { unfold a. destruct (ce_decide_aggregators x !! key) as [b|] eqn:Hb; cbn; [by apply (ck_decide_agg _ _ Hok)|].
    split; [cbn; unfold stake_of; by rewrite set_sum_empty|]. intros k Hk. cbn in Hk. set_solver. }
  destruct (decide_append_ok h d a Ha Hd) as [Ha' Hq]. destruct (decide_append cm d a) as [res a']. cbn [fst snd] in *. apply ok_modify; [done|].
  assert (cut_ok h (x <| ce_decide_aggregators ::= <[ key := a' ]> |>)) as H1.
  { open_inv Hok. split; try done. cbn. intros r c b [[[= <- <-] <-]|[_ Hb]]%lookup_insert_Some; [done|by apply A6]. }
  destruct res as [[q|]|]; [|by apply ok_skip|by apply ok_skip]. destruct (Hq q eq_refl) as [-> Hquo]. apply ok_modify; [done|].
  apply try_commit_round_ok; [|done]. open_inv H1. split; try done. cbn in *. intros r d'.
  destruct (ce_committed x !! de_round d) as [d0|] eqn:E; [apply A14|]. intros [[<- <-]|[_ H]]%lookup_insert_Some; [done|by apply A14].
Qed.

(** ** Steps outside the core *)

(** Changes of other fields. *)
Lemma cut_ok_calm h x x' : cut_ok h x -> core x' = core x -> ce_cut_round x' = ce_cut_round x ->
  ce_cut_round_by_id x' = ce_cut_round_by_id x -> cut_ok h x'.
Proof. intros Hok Hc Hr Hi. apply (cut_ok_core h x); [done|done| |by rewrite Hi; apply (ck_by_id _ _ Hok)]. rewrite Hr. destruct (ck_floor _ _ Hok). lia. Qed.

Lemma ensure_cut_fetch_ok h x r c targets : cut_ok h x -> ok h (ensure_cut_fetch r c targets) x anything.
Proof.
  intros Hok. unfold ensure_cut_fetch. apply ok_get. destruct (_ || _); [by apply ok_skip|]. case_match; [by apply ok_skip|].
  apply ok_modify; [done|]. apply ok_emit_all; [by apply (cut_ok_calm h x)|]. apply Forall_fmap, Forall_forall. by intros p _.
Qed.

Lemma safe_cut_parent_zero x c : (forall c r, ce_cut_round_by_id x !! c = Some r -> 0 <= r) -> safe_cut_parent x 0 c = false.
Proof.
  intros Hi. unfold safe_cut_parent. destruct (if c =? default_digest then _ else _) as [r|] eqn:E; [|done].
  assert (0 <= r); [|by destruct (Z.leb_spec 0 r); [|lia]]. destruct (c =? default_digest); [by injection E as <-|by eapply Hi].
Qed.

Lemma advance_loop_ok n : forall x,
  (forall c r, ce_cut_round_by_id x !! c = Some r -> 0 <= r) -> 0 <= ce_cut_round x <= u64_max ->
  core (advance_loop n x) = core x /\ ce_cut_round_by_id (advance_loop n x) = ce_cut_round_by_id x /\ ce_cut_round x <= ce_cut_round (advance_loop n x) <= u64_max.
Proof.
  induction n as [|n IH]; intros x Hi Hr; cbn [advance_loop]; [split_and!; [done|done|lia|lia]|].
  destruct (bool_decide _); cbn [andb]; [|split_and!; [done|done|lia|lia]].
  destruct (safe_cut_parent x (u64_add (ce_cut_round x) 1) (ce_highest_safe_cut x)) eqn:Hs; [|split_and!; [done|done|lia|lia]].
  destruct (Z.eq_dec (ce_cut_round x) u64_max) as [Hm|Hm].
  { rewrite Hm in Hs. change (u64_add u64_max 1) with 0 in Hs. by rewrite safe_cut_parent_zero in Hs. }
  assert (u64_add (ce_cut_round x) 1 = ce_cut_round x + 1) as Hadd by (apply u64_add_small; lia).
  destruct (IH (x <| ce_cut_round ::= fun r => u64_add r 1 |>)) as (I1 & I2 & I3); [done|cbn; lia|]. rewrite I1, I2. cbn in I3. split_and!; [done|done|lia|lia].
Qed.

Lemma advance_ok h x : cut_ok h x -> ok h advance_timed_out_cut_rounds x anything.
Proof.
  intros Hok. unfold advance_timed_out_cut_rounds. destruct (ck_floor _ _ Hok) as [Hf Hm].
  destruct (advance_loop_ok (S (size (ce_certified_timed_out x))) x (ck_by_id _ _ Hok)) as (I1 & I2 & I3); [lia|].
  apply ok_get, ok_modify; [by injection I1|]. apply ok_get, ok_ret; [|done].
  apply (cut_ok_core h x); [done|done|lia|rewrite I2; apply (ck_by_id _ _ Hok)].
Qed.

Lemma schedule_ok h x r : cut_ok h x -> ok h (schedule_cut_timer r) x anything.
Proof.
  intros Hok. unfold schedule_cut_timer. apply ok_get. case_bool_decide; [by apply ok_skip|]. apply ok_modify; [done|]. apply ok_last_emit, cut_ok_mute; [|by repeat constructor].
  by apply (cut_ok_calm h x).
Qed.

(** Sequencing when nothing is learnt from the first part. *)
Lemma ok_then {A B} h (m : M CutEffect CutEngine A) (k : A -> M CutEffect CutEngine B) x Q :
  ok h m x anything -> (forall a es x', cut_ok (h ++ es) x' -> ce_gc_floor x' = ce_gc_floor x -> ok (h ++ es) (k a) x' Q) -> ok h (m ≫= k) x Q.
Proof. intros Hm Hk. eapply ok_bind; [exact Hm|]. intros a es x' H1 H2 _. by apply Hk. Qed.

(** ** The handlers that call each other *)

Context (tips : gmap PublicKey Proposal) (oracle : PublicKey -> Proposal -> bool).
Context (Htips : typed_tips tips) (Horacle : forall a t, oracle a t = true -> avail a t).
Set Default Proof Using "Type Hcm Htips Horacle".

(** A proposal that may be processed. *)
Definition fits (x : CutEngine) (p : CutProposal) : Prop := typed_cut p /\ ce_gc_floor x <= cp_round p.

Section calls.
Context (own : CutProposal -> M CutEffect CutEngine ()).
Context (Hown : forall h x p, cut_ok h x -> fits x p -> ok h (own p) x anything).
Set Default Proof Using "Type Hcm Htips Horacle Hown".

Lemma try_propose_ok h x : cut_ok h x -> ok h (try_propose_cut_for_current_round tips own) x anything.
Proof.
  intros Hok. unfold try_propose_cut_for_current_round. apply ok_get. destruct (negb _); [by apply ok_skip|]. destruct (negb _); [by apply ok_skip|].
  case_bool_decide; [by apply ok_skip|]. apply ok_modify; [done|]. apply ok_emit. destruct (ck_floor _ _ Hok).
  apply Hown; [apply cut_ok_mute; [by apply (cut_ok_calm h x)|by repeat constructor]|]. split; [|cbn; lia]. split; [cbn; unfold is_u64; lia|exact Htips].
Qed.

Lemma send_decide_ok h x r c : cut_ok h x -> justified h r c -> ce_gc_floor x <= r -> ok h (send_decide r c) x anything.
Proof.
  intros Hok Hj Hr. unfold send_decide. apply ok_get. case_bool_decide as Hv; [by apply ok_skip|]. apply ok_modify; [done|]. apply ok_emit.
  destruct (ck_config _ _ Hok) as (_ & Hn & _). apply process_decide_ok; [|right; apply elem_of_snoc; by right|done].
  apply (cut_ok_speaks h x); [done|]. split; cbn; try done; [set_solver|]. intros d [= <-]. cbn. split_and!; try done. set_solver.
Qed.

Lemma note_safe_ok h x r c : cut_ok h x -> justified h r c -> cut_ok h (note_safe r c x) /\ ce_gc_floor (note_safe r c x) = ce_gc_floor x.
Proof.
  intros Hok Hj. unfold note_safe. set (x1 := x <| ce_safe ::= _ |>).
  assert (cut_ok h x1) as H1.
  { open_inv Hok. split; try done. cbn. intros r' c'. destruct (ce_safe x !! r) as [c0|]; [apply A13|].
    intros [[<- <-]|[_ H]]%lookup_insert_Some; [done|by apply A13]. }
  set (x2 := if ce_cut_round x1 <=? u64_add r 1 then _ else x1).
  assert (cut_ok h x2 /\ ce_gc_floor x2 = ce_gc_floor x /\ ce_cut_round x2 = ce_cut_round x) as (H2 & Ef & Er).
  { unfold x2. destruct (_ <=? _); [|done]. split; [by apply (cut_ok_calm h x1)|done]. }
  split; [|done]. pose proof (u64_add_range r 1) as Hadd. unfold is_u64 in Hadd. apply (cut_ok_core h x2); [done|done| |apply (ck_by_id _ _ H2)]. cbn. destruct (ck_floor _ _ H2). lia.
Qed.

Lemma mark_cut_safe_ok h x r c w : cut_ok h x -> justified h r c -> ce_gc_floor x <= r -> ok h (mark_cut_safe tips own r c w) x anything.
Proof.
  intros Hok Hj Hr. unfold mark_cut_safe. apply ok_get. case_bool_decide; [by apply ok_skip|].
  destruct (note_safe_ok h x r c Hok Hj) as [H1 E1]. apply ok_modify; [done|]. eapply ok_then; [by apply advance_ok|]. intros _ es1 x1 K1 F1.
  eapply ok_then; [by apply ensure_cut_fetch_ok|]. intros _ es2 x2 K2 F2.
  eapply ok_then; [apply send_decide_ok; [done|by do 2 apply justified_app|congruence || lia]|]. intros _ es3 x3 K3 F3.
  eapply ok_then; [by apply try_propose_ok|]. intros _ es4 x4 K4 F4. apply ok_get. by apply schedule_ok.
Qed.

Definition ready_agg_ok (h : hist) (r : CutRound) (c : Digest) (a : CutReadyAggregator) : Prop :=
  0 <= ra_weight a <= stake_of cm (ra_used a) /\ forall k, k ∈ ra_used a -> said_ready h (mkCutReady r c k).

Lemma cut_ok_ready_agg h x r c a : cut_ok h x -> ready_agg_ok h r c a -> cut_ok h (x <| ce_cut_ready_aggregators ::= <[ (r, c) := a ]> |>).
Proof.
  intros Hok Ha. open_inv Hok. split; try done. cbn. intros r' c' b [[[= <- <-] <-]|[_ Hb]]%lookup_insert_Some; [done|by apply A5].
Qed.

Lemma process_cut_ready_ok h x r : cut_ok h x -> said_ready h r -> ce_gc_floor x <= cr_round r -> ok h (process_cut_ready tips own r) x anything.
Proof.
  intros Hok Hs Hr. unfold process_cut_ready. apply ok_get. destruct (negb _); [by apply ok_skip|]. destruct (ck_config _ _ Hok) as (-> & _).
  set (key := (cr_round r, cr_cut_id r)). set (a := default ready_agg_new _).
  assert (ready_agg_ok h (cr_round r) (cr_cut_id r) a) as Ha.
  { unfold a. destruct (ce_cut_ready_aggregators x !! key) as [b|] eqn:Hb; cbn; [by apply (ck_ready_agg _ _ Hok)|].
    split; [cbn; unfold stake_of; by rewrite set_sum_empty|]. intros k Hk. cbn in Hk. set_solver. }
  unfold ready_append. case_bool_decide as Hin; [by apply ok_last_modify; [apply cut_ok_ready_agg|]|].
  destruct Ha as [Hw Ha]. destruct (stake_counted (cr_author r) (ra_used a) (ra_weight a) Hin Hw) as [Hle _]. pose proof (stake_nonneg cm Hcm (cr_author r)).
  assert (forall k, k ∈ {[ cr_author r ]} ∪ ra_used a -> said_ready h (mkCutReady (cr_round r) (cr_cut_id r) k)) as Hall.
  { intros k [->%elem_of_singleton|Hk]%elem_of_union; [by destruct r|by apply Ha]. }
  destruct (Z.leb_spec (quorum_threshold cm) (u32_add (ra_weight a) (stake cm (cr_author r)))); apply ok_modify; try done.
  - apply mark_cut_safe_ok; [|right; eexists; split; [|exact Hall]; lia|done]. apply cut_ok_ready_agg; [done|]. split; [cbn; lia|exact Hall].
  - apply ok_skip, cut_ok_ready_agg; [done|]. split; [cbn; lia|exact Hall].
Qed.

Lemma broadcast_cut_ready_ok h x r c : cut_ok h x -> vote_quorum h r c -> ce_gc_floor x <= r -> ok h (broadcast_cut_ready tips own r c) x anything.
Proof.
  intros Hok Hj Hr. unfold broadcast_cut_ready. apply ok_get. case_bool_decide as Hv; [by apply ok_skip|]. apply ok_modify; [done|]. apply ok_emit.
  destruct (ck_config _ _ Hok) as (_ & Hn & _). apply process_cut_ready_ok; [|right; apply elem_of_snoc; by right|done].
  apply (cut_ok_speaks h x); [done|]. split; cbn; try done; [set_solver|]. intros d [= <-]. cbn. split_and!; try done. set_solver.
Qed.

Lemma process_cut_vote_ok h x v : cut_ok h x -> said_vote h v -> ce_gc_floor x <= cv_round v -> ok h (process_cut_vote tips own v) x anything.
Proof.
  intros Hok Hs Hr. unfold process_cut_vote. apply ok_get. destruct (negb _); [by apply ok_skip|]. destruct (ck_config _ _ Hok) as (-> & _).
  set (key := (cv_round v, cv_cut_id v)). set (a := default vote_agg_new _).
  assert (va_weight a = stake_of cm (va_used a) /\ forall k, k ∈ va_used a -> said_vote h (mkCutVote (cv_round v) (cv_cut_id v) k)) as [Hw Ha].
  { unfold a. destruct (ce_cut_vote_aggregators x !! key) as [b|] eqn:Hb; cbn; [by apply (ck_vote_agg _ _ Hok)|].
    split; [cbn; unfold stake_of; by rewrite set_sum_empty|]. intros k Hk. cbn in Hk. set_solver. }
  assert (forall b, va_weight b = stake_of cm (va_used b) -> (forall k, k ∈ va_used b -> said_vote h (mkCutVote (cv_round v) (cv_cut_id v) k)) ->
    cut_ok h (x <| ce_cut_vote_aggregators ::= <[ key := b ]> |>)) as Hins.
  { intros b Hb1 Hb2. open_inv Hok. split; try done. cbn. intros r' c' b' [[[= <- <-] <-]|[_ Hb]]%lookup_insert_Some; [done|by apply A4]. }
  unfold vote_append. case_bool_decide as Hin; [by apply ok_last_modify; [apply Hins|]|].
  assert (0 <= va_weight a <= stake_of cm (va_used a)) as Hwb by (rewrite Hw; split; [apply stake_of_nonneg|lia]).
  destruct (stake_counted (cv_author v) (va_used a) (va_weight a) Hin Hwb) as [_ Heq]. specialize (Heq Hw).
  set (used := {[ cv_author v ]} ∪ va_used a) in *. set (cur := u32_add (va_weight a) (stake cm (cv_author v))) in *.
  assert (forall k, k ∈ used -> said_vote h (mkCutVote (cv_round v) (cv_cut_id v) k)) as Hall.
  { intros k [->%elem_of_singleton|Hk]%elem_of_union; [by destruct v|by apply Ha]. }
  apply ok_modify; [done|]. assert (quorum_threshold cm <= cur -> vote_quorum h (cv_round v) (cv_cut_id v)) as Hq.
  { intros Hc. exists used. split; [lia|exact Hall]. }
  eapply ok_then; [apply ok_when; [by apply Hins|]|].
  - intros [_ Hc]%andb_true_iff. apply Z.leb_le in Hc. apply broadcast_cut_ready_ok; [by apply Hins|by apply Hq|done].
  - intros _ es x1 K1 F1. apply ok_when; [done|]. intros [_ Hc]%andb_true_iff. apply Z.leb_le in Hc.
    apply mark_cut_safe_ok; [done| |rewrite F1; done]. apply justified_app. left. apply Hq. unfold mint_threshold in Hc. lia.
Qed.

Lemma send_vote_ok h x r c p :
  cut_ok h x -> ce_gc_floor x <= r -> typed_cut p -> cut_id p = c -> (gate = true -> map_Forall avail (cp_tips p)) ->
  ok h (send_vote tips own r c) x anything.
Proof.
  intros Hok Hr Ht Hc Hav. unfold send_vote. apply ok_get. case_bool_decide as Hv; [by apply ok_skip|]. apply ok_modify; [done|]. apply ok_emit.
  destruct (ck_config _ _ Hok) as (_ & Hn & _). apply process_cut_vote_ok; [|right; apply elem_of_snoc; by right|done].
  apply (cut_ok_speaks h x); [done|]. split; cbn; try done; [set_solver|]. intros d [= <-]. cbn. split_and!; try done; [set_solver|by exists p].
Qed.

Lemma defer_proposal_ok h x p : cut_ok h x -> fits x p -> ok h (defer_proposal p) x anything.
Proof.
  intros Hok Hp. unfold defer_proposal. apply ok_get. eapply ok_then; [apply ok_when; [done|intros _; by apply ensure_cut_fetch_ok]|].
  intros _ es x1 K1 F1. apply ok_last_modify; [|done]. open_inv K1. split; try done. cbn. intros k l [[<- <-]|[_ Hl]]%lookup_insert_Some; [|by apply A16 in Hl].
  apply Forall_app. split; [|constructor; [|constructor]; split; [done|by rewrite F1]].
  destruct (ce_pending_cut_children x1 !! (cp_round p, cp_parent_cut p)) as [l'|] eqn:Hl; cbn; [by apply A16 in Hl|constructor].
Qed.

(** The children taken out may be processed. *)
Lemma take_children_ok h x c : cut_ok h x -> ok h (take_children c) x (fun l _ x' => Forall (fits x') l).
Proof.
  intros Hok. unfold take_children. apply ok_get, ok_modify; [done|]. apply ok_ret.
  - open_inv Hok. split; try done. cbn. intros k l [Hl _]%map_lookup_filter_Some. by apply A16 in Hl.
  - apply Forall_forall. intros p (l & Hp & Hl)%list_elem_of_join. apply list_elem_of_fmap in Hl as ([k l'] & -> & Hl). apply list_elem_of_filter in Hl as [_ Hl].
    apply elem_of_map_iter in Hl. pose proof (ck_pending _ _ Hok _ _ Hl) as Hf. rewrite Forall_forall in Hf. by apply (Hf p Hp).
Qed.

Lemma proposal_turn_ok h x p : cut_ok h x -> fits x p -> ok h (proposal_turn tips oracle own p) x (fun l _ x' => Forall (fits x') l).
Proof.
  intros Hok [Ht Hr]. assert (forall h x, cut_ok h x -> ok h (mret []) x (fun l _ x' => Forall (fits x') l)) as Hnil by (intros; by apply ok_ret; [|constructor]).
  unfold proposal_turn. apply ok_get. destruct (negb _); [by apply Hnil|]. case_bool_decide; [by apply Hnil|]. destruct (negb _); [by apply Hnil|].
  destruct (negb _); [eapply ok_then; [by apply defer_proposal_ok|]; intros; by apply Hnil|]. case_bool_decide; [by apply Hnil|].
  unfold record_cut_proposal. eapply (ok_bind _ _ _ _ (fun c h' x' => h' = h /\ c = cut_id p)).
  { apply ok_modify; [done|]. apply ok_ret; [|by split]. destruct Ht as [Htr Htt]. open_inv Hok. split; try done; cbn.
    - intros c r [[_ <-]|[_ Hc]]%lookup_insert_Some; [apply Htr|by eapply A3].
    - intros r c q [[[= <- <-] <-]|[_ Hc]]%lookup_insert_Some; [done|by apply A15]. }
  intros c es x1 K1 F1 (E1 & ->). rewrite E1 in *. clear E1 es. apply ok_modify; [done|]. set (x2 := x1 <| ce_leader_cut_by_round ::= _ |>).
  assert (cut_ok h x2) as K2 by (by apply (cut_ok_calm h x1)).
  eapply ok_bind; [by apply take_children_ok|]. intros children es3 x3 K3 F3 Hch.
  assert (ce_gc_floor x3 <= cp_round p) as Hr3 by (rewrite F3; cbn; lia). eapply ok_then.
  - apply ok_when; [done|]. intros Hok'. apply (send_vote_ok _ _ _ _ p); try done. intros Hgate. unfold tips_ok in Hok'.
    destruct (ck_config _ _ Hok) as (_ & _ & Hg). rewrite Hg, Hgate in Hok'. cbn in Hok'.
    intros a t Hat. apply Horacle. rewrite forallb_forall in Hok'. apply (Hok' (a, t)). apply list_elem_of_In. by apply elem_of_map_iter.
  - intros _ es4 x4 K4 F4. eapply ok_then; [apply try_commit_round_ok; [done|lia]|]. intros _ es5 x5 K5 F5. apply ok_ret; [done|].
    eapply Forall_impl; [exact Hch|]. intros q [Hq1 Hq2]. split; [done|]. lia.
Qed.
End calls.
Set Default Proof Using "Type Hcm Htips Horacle".

Lemma process_cut_queue_ok n : forall queue h x, cut_ok h x -> Forall (fits x) queue -> ok h (process_cut_queue tips oracle n queue) x anything.
Proof.
  induction n as [|n IH]; intros [|p queue] h x Hok Hq; cbn [process_cut_queue]; try by apply ok_skip.
  - apply ok_last_modify; [by apply (cut_ok_calm h x)|done].
  - apply Forall_cons in Hq as [Hp Hq]. eapply ok_bind; [apply proposal_turn_ok; [|done|done]|].
    + intros h' x' p' Hok' Hp'. apply IH; [done|by apply Forall_singleton].
    + cbn. intros children es x' K1 F1 Hch. apply IH; [done|]. apply Forall_app. split; [|done].
      eapply Forall_impl; [exact Hq|]. intros q [? ?]. split; [done|lia].
Qed.

Context (n : nat).

Lemma process_cut_proposal_ok h x p : cut_ok h x -> fits x p -> ok h (process_cut_proposal tips oracle n p) x anything.
Proof. intros. apply process_cut_queue_ok; [done|by apply Forall_singleton]. Qed.

Lemma for_each_proposal_ok l : forall h x, cut_ok h x -> Forall (fits x) l -> ok h (for_each (process_cut_proposal tips oracle n) l) x anything.
Proof.
  induction l as [|p l IH]; intros h x Hok Hl; cbn [for_each]; [by apply ok_skip|]. apply Forall_cons in Hl as [Hp Hl].
  eapply ok_then; [by apply process_cut_proposal_ok|]. intros _ es x1 K1 F1. apply IH; [done|]. eapply Forall_impl; [exact Hl|]. intros q [? ?]. split; [done|lia].
Qed.

Lemma retry_pending_ok h x : cut_ok h x -> ok h (retry_pending_cut_proposals tips oracle n) x anything.
Proof.
  intros Hok. unfold retry_pending_cut_proposals. apply ok_get, ok_modify; [done|]. apply for_each_proposal_ok.
  - open_inv Hok. split; try done. cbn. intros k l. rewrite lookup_omap_Some. intros (l' & Hl & Hk). apply A16 in Hk. case_decide; [done|]. injection Hl as <-.
    rewrite Forall_forall in Hk |- *. intros p Hp. apply Hk. by apply list_elem_of_filter in Hp as [_ Hp].
  - apply Forall_forall. intros p [_ Hp]%list_elem_of_filter. apply list_elem_of_join in Hp as (l & Hp & Hl). apply list_elem_of_fmap in Hl as ([k l'] & -> & Hl).
    apply elem_of_map_iter in Hl. pose proof (ck_pending _ _ Hok _ _ Hl) as Hf. rewrite Forall_forall in Hf. by apply (Hf p Hp).
Qed.

(** ** Timeouts *)

Lemma record_timeout_accept_ok h x a : cut_ok h x -> ok h (record_timeout_accept a) x anything.
Proof.
  intros Hok. unfold record_timeout_accept. apply ok_get. destruct (negb _); [by apply ok_ret|]. destruct (_ || _); [by apply ok_ret|].
  destruct (accept_append _ _ _) as [[r agg]|]; apply ok_modify; try done; apply ok_ret; try done; by apply (cut_ok_calm h x).
Qed.

Lemma send_timeout_accept_ok h x r : cut_ok h x -> ok h (send_timeout_accept r) x anything.
Proof.
  intros Hok. unfold send_timeout_accept. apply ok_get. case_bool_decide; [by apply ok_ret|]. apply ok_modify; [done|]. apply ok_emit.
  eapply ok_then; [apply record_timeout_accept_ok, cut_ok_mute; [by apply (cut_ok_calm h x)|by repeat constructor]|]. intros. by apply ok_ret.
Qed.

Lemma certify_timeout_ok h x r : cut_ok h x -> ok h (certify_timeout tips oracle n r) x anything.
Proof.
  intros Hok. unfold certify_timeout. apply ok_get. case_bool_decide; [by apply ok_skip|]. apply ok_modify; [done|].
  eapply ok_then; [apply retry_pending_ok; by apply (cut_ok_calm h x)|]. intros _ es1 x1 K1 F1. eapply ok_then; [by apply advance_ok|]. intros b es2 x2 K2 F2.
  apply ok_when; [done|]. intros _. eapply ok_then; [apply try_propose_ok; [|done]; intros; by apply process_cut_proposal_ok|]. intros _ es3 x3 K3 F3. apply ok_get. by apply schedule_ok.
Qed.

Lemma handle_accept_ok h x r w cert : cut_ok h x -> ok h (handle_timeout_accept_action tips oracle n r w cert) x anything.
Proof.
  intros Hok. unfold handle_timeout_accept_action. apply ok_get. eapply ok_then.
  - destruct (_ <=? _); [|by apply ok_ret]. eapply ok_then; [by apply send_timeout_accept_ok|]. intros. by apply ok_ret.
  - intros c es x1 K1 F1. destruct c as [t|]; [|by apply ok_skip]. destruct (cert_verify _ _); [by apply certify_timeout_ok|by apply ok_skip].
Qed.

Lemma process_timeout_accept_ok h x a : cut_ok h x -> ok h (process_timeout_accept tips oracle n a) x anything.
Proof. intros Hok. unfold process_timeout_accept. eapply ok_then; [by apply record_timeout_accept_ok|]. intros. by apply handle_accept_ok. Qed.

Lemma process_timeout_ok h x t : cut_ok h x -> ok h (process_timeout tips oracle n t) x anything.
Proof.
  intros Hok. unfold process_timeout. apply ok_get. destruct (negb _); [by apply ok_skip|]. destruct (_ || _); [by apply ok_skip|].
  destruct (timeout_append _ _ _) as [[q agg]|]; [|apply ok_last_modify; [by apply (cut_ok_calm h x)|done]]. apply ok_modify; [done|].
  apply ok_when; [by apply (cut_ok_calm h x)|]. intros _. eapply ok_then; [apply send_timeout_accept_ok; by apply (cut_ok_calm h x)|].
  intros [[w c]|] es x1 K1 F1; [by apply handle_accept_ok|by apply ok_skip].
Qed.

(** ** Events *)

(** Rounds that are collected say nothing any more. *)
Definition current (x : CutEngine) (i : Inbound) : Prop :=
  match i with
  | InCutProposal p | InCutServe p => fits x p
  | InCutVote v => ce_gc_floor x <= cv_round v
  | InCutReady r => ce_gc_floor x <= cr_round r
  | InDecide d => ce_gc_floor x <= de_round d
  | _ => True
  end.

Lemma cut_handle_ok h x i : cut_ok h x -> inp i -> current x i -> ok h (cut_handle tips oracle n i) x anything.
Proof.
  intros Hok Hi Hc. assert (forall h x p, cut_ok h x -> fits x p -> ok h (process_cut_proposal tips oracle n p) x anything) as Hp by exact process_cut_proposal_ok.
  destruct i; cbn [cut_handle current] in *.
  - by apply Hp.
  - apply process_cut_vote_ok; [done|done|by left|done].
  - apply process_decide_ok; [done|by left|done].
  - by apply process_timeout_ok.
  - apply ok_get. destruct (accept_is_current _ _); [by apply process_timeout_accept_ok|by apply ok_skip].
  - apply process_cut_ready_ok; [done|done|by left|done].
  - unfold process_cut_timer. apply ok_get. destruct (_ || _); [by apply ok_skip|]. apply ok_modify; [done|]. apply ok_emit.
    apply process_timeout_ok, cut_ok_mute; [by apply (cut_ok_calm h x)|by repeat constructor].
  - unfold on_cut_fetch. apply ok_get. destruct (_ <? _); [by apply ok_skip|]. case_bool_decide; [by apply ok_skip|].
    destruct (ce_cut_proposals x !! _); [|by apply ok_skip]. apply ok_modify; [done|]. apply ok_last_emit, cut_ok_mute; [by apply (cut_ok_calm h x)|by repeat constructor].
  - unfold on_cut_serve. apply ok_get. destruct (negb _); [by apply ok_skip|]. apply ok_modify; [done|]. apply Hp; [by apply (cut_ok_calm h x)|done].
Qed.

Lemma cut_bootstrap_ok h x : cut_ok h x -> ok h (cut_bootstrap tips oracle n) x anything.
Proof.
  intros Hok. unfold cut_bootstrap. eapply ok_then; [apply try_propose_ok; [|done]; intros; by apply process_cut_proposal_ok|].
  intros _ es x' Hok' _. by apply schedule_ok.
Qed.

Lemma prune_below_ok h x floor : cut_ok h x -> floor <= ce_cut_round x -> cut_ok h (prune_below floor x).
Proof using Hcm.
  intros Hok Hf. unfold prune_below. destruct (Z.leb_spec floor (ce_gc_floor x)); [done|].
  assert (forall (S : gset CutRound) r, r ∈ S \/ r < ce_gc_floor x -> r ∈ set_from floor S \/ r < floor) as Hlatch.
  { intros S r Hor. destruct (Z.lt_ge_cases r floor) as [|Hge]; [by right|left]. apply elem_of_filter. destruct Hor; [done|lia]. }
  open_inv Hok. split; try done; cbn.
  - lia.
  - intros c r Hr. assert (forall l (m : gmap Digest CutRound), foldr delete m l !! c = Some r -> m !! c = Some r) as Hd; [|by eapply A3, Hd].
    induction l as [|k l IH]; intros m; [done|]. cbn. intros [_ Hl]%lookup_delete_Some. by apply IH.
  - intros r c a [Ha _]%map_lookup_filter_Some. by apply A4.
  - intros r c a [Ha _]%map_lookup_filter_Some. by apply A5.
  - intros r c a [Ha _]%map_lookup_filter_Some. by apply A6.
  - intros v Hv. destruct (A7 v Hv) as (? & ? & ?). auto.
  - intros v Hv. destruct (A9 v Hv) as (? & ? & ?). auto.
  - intros v Hv. destruct (A11 v Hv) as (? & ? & ?). auto.
  - intros r c [Hc _]%map_lookup_filter_Some. by apply A13.
  - intros r d [Hd _]%map_lookup_filter_Some. by apply A14.
  - intros r c p [Hp _]%map_lookup_filter_Some. by apply A15.
  - intros k l [Hl Hk]%map_lookup_filter_Some. cbn in Hk. apply A16 in Hl. eapply Forall_impl; [exact Hl|]. cbn. intros p (E & ? & ?). split_and!; [done|done|lia].
  - intros r t Ht. destruct (A17 r t Ht) as [? ?]. auto.
Qed.
End inv.
Unset Default Proof Using.
