(* ===== verification/SimpleItSafety.v ===== *)
(** Agreement of the Simple-IT cut consensus.

    Engines of the correct parties, connected by authenticated channels that may delay, reorder, duplicate and lose
    messages, never hold different cuts safe in a round and never commit different tips.  As the run relation says,
    messages of rounds that a node has collected are not delivered to it; the last section shows what happens
    otherwise. *)

From S2P Require Import Prelude Committee Types Blocks BlockChains Fixtures SimpleIt SimpleItInv.

(** ** Runs *)

(** What one party is and has seen: every message it ever received, its history and its state. *)
Record CutNode := mkCutNode {
  cn_gate : bool;
  cn_variant : Variant;
  cn_inputs : Inbound -> Prop;
  cn_available : PublicKey -> Proposal -> Prop;
  cn_history : list CutEffect;
  cn_engine : CutEngine;
}.

Section runs.
Context {Hash : Hashing} (cm : Committee).

Definition engine_start (name : PublicKey) (gate : bool) (v : Variant) (x : CutEngine) : Prop :=
  exists y, cut_engine_new name cm = Some y /\ x = with_variant v (with_gate_tips gate y).

(** Any depth, tips and oracle may come with an event, if the tips are typed and the oracle's answers sound. *)
Inductive cut_reaches (name : PublicKey) (gate : bool) (v : Variant) (inp : Inbound -> Prop) (avail : PublicKey -> Proposal -> Prop)
    : list CutEffect -> CutEngine -> Prop :=
| cut_start x : engine_start name gate v x -> cut_reaches name gate v inp avail [] x
| cut_event h x n tips oracle i :
    cut_reaches name gate v inp avail h x -> typed_tips tips -> (forall a t, oracle a t = true -> avail a t) -> inp i -> current x i ->
    cut_reaches name gate v inp avail (h ++ out (cut_handle tips oracle n i x)) (st (cut_handle tips oracle n i x))
| cut_boot h x n tips oracle :
    cut_reaches name gate v inp avail h x -> typed_tips tips -> (forall a t, oracle a t = true -> avail a t) ->
    cut_reaches name gate v inp avail (h ++ out (cut_bootstrap tips oracle n x)) (st (cut_bootstrap tips oracle n x))
| cut_gc h x gc_window last :
    cut_reaches name gate v inp avail h x -> is_u64 gc_window ->
    cut_reaches name gate v inp avail h (collect_internal_garbage gc_window last x).2.

Lemma cut_reaches_ok (Hcm : committee_ok cm) name gate v inp avail h x :
  cut_reaches name gate v inp avail h x -> cut_ok cm name gate inp avail h x.
Proof.
  induction 1 as [x (y & Hy & ->)|h x n tips oracle i _ IH Ht Ho Hi Hc|h x n tips oracle _ IH Ht Ho|h x w last _ IH Hw].
  - unfold cut_engine_new in Hy. destruct (round_robin_new cm) as [rr|]; cbn in Hy; [|done]. injection Hy as <-.
    split; cbn; try done; try (intros *; rewrite lookup_empty; done); try (intros * H; by apply elem_of_nil in H); try constructor.
  - destruct (cut_handle_ok cm Hcm name gate inp avail tips oracle Ht Ho n h x i IH Hi Hc) as (H & _). exact H.
  - destruct (cut_bootstrap_ok cm Hcm name gate inp avail tips oracle Ht Ho n h x IH) as (H & _). exact H.
  - unfold collect_internal_garbage. destruct (_ <=? _); [done|]. apply prune_below_ok; [done|done|].
    unfold u64_saturating_sub. unfold is_u64 in Hw. destruct (ck_floor _ _ _ _ _ _ _ IH). lia.
Qed.

(** ** Networks *)

Context (faulty : gset PublicKey) (node : PublicKey -> CutNode).

Definition correct (p : PublicKey) : Prop := p ∈ members cm /\ p ∉ faulty.

(** What a correct party says to another is what it broadcast. *)
Record cut_network : Prop := {
  net_reaches p : correct p ->
    cut_reaches p (cn_gate (node p)) (cn_variant (node p)) (cn_inputs (node p)) (cn_available (node p)) (cn_history (node p)) (cn_engine (node p));
  net_votes p v : correct p -> correct (cv_author v) -> cn_inputs (node p) (InCutVote v) -> CutBroadcast (OutCutVote v) ∈ cn_history (node (cv_author v));
  net_readies p r : correct p -> correct (cr_author r) -> cn_inputs (node p) (InCutReady r) -> CutBroadcast (OutCutReady r) ∈ cn_history (node (cr_author r));
  net_decides p d : correct p -> correct (de_author d) -> cn_inputs (node p) (InDecide d) -> CutBroadcast (OutDecide d) ∈ cn_history (node (de_author d));
}.

Context (Hcm : committee_ok cm) (Hfaulty : 3 * stake_of cm faulty < total_votes cm) (Hnet : cut_network).
Abbreviation history p := (cn_history (node p)) (only parsing).
Abbreviation inputs p := (cn_inputs (node p)) (only parsing).
Set Default Proof Using "Type Hcm Hfaulty Hnet".

Lemma cut_node_ok p : correct p -> cut_ok cm p (cn_gate (node p)) (inputs p) (cn_available (node p)) (history p) (cn_engine (node p)).
Proof. intros Hp. apply (cut_reaches_ok Hcm p _ (cn_variant (node p))). by apply (net_reaches Hnet). Qed.

(** Two quorums share a correct party. *)
Lemma quorum_pair X Y :
  quorum_threshold cm <= stake_of cm X -> quorum_threshold cm <= stake_of cm Y -> exists k, correct k /\ k ∈ X /\ k ∈ Y.
Proof.
  intros HX HY. rewrite (stake_of_members cm Hcm X) in HX. rewrite (stake_of_members cm Hcm Y) in HY.
  destruct (stake_quorums_intersect cm Hcm faulty Hfaulty (X ∩ members cm) (Y ∩ members cm)) as (k & Hk & Hk' & Hf); [set_solver|set_solver|done|done|].
  exists k. unfold correct. set_solver.
Qed.

Lemma vote_heard p r c k : correct p -> correct k -> said_vote (inputs p) (history p) (mkCutVote r c k) -> CutBroadcast (OutCutVote (mkCutVote r c k)) ∈ history k.
Proof.
  intros Hp Hk [Hi|Hh]; [by apply (net_votes Hnet p)|]. destruct (ck_votes _ _ _ _ _ _ _ (cut_node_ok p Hp) _ Hh) as [Hn _]. cbn in Hn. by subst.
Qed.
Lemma ready_heard p r c k : correct p -> correct k -> said_ready (inputs p) (history p) (mkCutReady r c k) -> CutBroadcast (OutCutReady (mkCutReady r c k)) ∈ history k.
Proof.
  intros Hp Hk [Hi|Hh]; [by apply (net_readies Hnet p)|]. destruct (ck_readies _ _ _ _ _ _ _ (cut_node_ok p Hp) _ Hh) as [Hn _]. cbn in Hn. by subst.
Qed.
Lemma decide_heard p r c k : correct p -> correct k -> said_decide (inputs p) (history p) (mkDecide c r k) -> CutBroadcast (OutDecide (mkDecide c r k)) ∈ history k.
Proof.
  intros Hp Hk [Hi|Hh]; [by apply (net_decides Hnet p)|]. destruct (ck_decides _ _ _ _ _ _ _ (cut_node_ok p Hp) _ Hh) as [Hn _]. cbn in Hn. by subst.
Qed.

Lemma vote_quorums_agree p q r c c' : correct p -> correct q ->
  vote_quorum cm (inputs p) (history p) r c -> vote_quorum cm (inputs q) (history q) r c' -> c = c'.
Proof.
  intros Hp Hq (X & HX & Hsx) (Y & HY & Hsy). destruct (quorum_pair X Y HX HY) as (k & Hk & HkX & HkY).
  apply Hsx, vote_heard in HkX; [|done|done]. apply Hsy, vote_heard in HkY; [|done|done].
  by pose proof (ck_vote_once _ _ _ _ _ _ _ (cut_node_ok k Hk) _ _ HkX HkY eq_refl) as [= ->].
Qed.

(** A cut is safe only with a quorum of votes somewhere. *)
Lemma justified_voted p r c : correct p -> justified cm (inputs p) (history p) r c -> exists k, correct k /\ vote_quorum cm (inputs k) (history k) r c.
Proof.
  intros Hp [Hv|(X & HX & Hs)]; [by exists p|]. destruct (quorum_pair X X HX HX) as (k & Hk & HkX & _). exists k. split; [done|].
  apply Hs, ready_heard in HkX; [|done|done]. by destruct (ck_readies _ _ _ _ _ _ _ (cut_node_ok k Hk) _ HkX) as (_ & _ & ?).
Qed.

Lemma justified_agree p q r c c' : correct p -> correct q ->
  justified cm (inputs p) (history p) r c -> justified cm (inputs q) (history q) r c' -> c = c'.
Proof.
  intros Hp Hq Hj Hj'. apply justified_voted in Hj as (k & Hk & Hv); [|done]. apply justified_voted in Hj' as (k' & Hk' & Hv'); [|done].
  by apply (vote_quorums_agree k k' r).
Qed.

(** A decided cut is safe for a correct party, and a correct party has checked its tips. *)
Lemma decide_justified p r c : correct p -> decide_quorum cm (inputs p) (history p) r c -> exists k, correct k /\ justified cm (inputs k) (history k) r c.
Proof.
  intros Hp (X & HX & Hs). destruct (quorum_pair X X HX HX) as (k & Hk & HkX & _). exists k. split; [done|].
  apply Hs, decide_heard in HkX; [|done|done]. by destruct (ck_decides _ _ _ _ _ _ _ (cut_node_ok k Hk) _ HkX) as (_ & _ & ?).
Qed.

Lemma voted_available p r c : correct p -> vote_quorum cm (inputs p) (history p) r c ->
  exists k b, correct k /\ typed_cut b /\ cut_id b = c /\ (cn_gate (node k) = true -> map_Forall (cn_available (node k)) (cp_tips b)).
Proof.
  intros Hp (X & HX & Hs). destruct (quorum_pair X X HX HX) as (k & Hk & HkX & _). apply Hs, vote_heard in HkX; [|done|done].
  destruct (ck_votes _ _ _ _ _ _ _ (cut_node_ok k Hk) _ HkX) as (_ & _ & b & Ht & Hid & Hav). exists k, b. done.
Qed.
End runs.
Unset Default Proof Using.

(** Proposals with one identity are one proposal. *)
Definition cut_binding {Hash : Hashing} : Prop := forall p q, typed_cut p -> typed_cut q -> cut_id p = cut_id q -> cp_round p = cp_round q /\ cp_tips p = cp_tips q.

(** C15: The cut consensus agrees.  With faulty parties of less than a third of the stake, in either variant and for any schedule of messages,
    timers and garbage collection in which messages of collected rounds are not delivered: correct parties hold the same cut safe in a round; commits of a round carry
    the same tips; a party commits a round at most once; and if the correct parties gate their votes, all tips of a
    committed cut were available to some correct party. *)
Theorem cut_agreement {Hash : Hashing} cm faulty node p q :
  committee_ok cm -> 3 * stake_of cm faulty < total_votes cm -> cut_binding -> cut_network cm faulty node ->
  correct cm faulty p -> correct cm faulty q ->
  (forall r c c', ce_safe (cn_engine (node p)) !! r = Some c -> ce_safe (cn_engine (node q)) !! r = Some c' -> c = c') /\
  (forall r t t', CutCommit r t ∈ cn_history (node p) -> CutCommit r t' ∈ cn_history (node q) -> t = t') /\
  NoDup (commits (cn_history (node p))) /\
  (forall r t, CutCommit r t ∈ cn_history (node p) -> (forall k, correct cm faulty k -> cn_gate (node k) = true) ->
    exists k, correct cm faulty k /\ map_Forall (cn_available (node k)) t).
Proof.
  intros Hcm Hf Hb Hn Hp Hq. pose proof (cut_node_ok cm faulty node Hcm Hf Hn p Hp) as Hop. pose proof (cut_node_ok cm faulty node Hcm Hf Hn q Hq) as Hoq.
  split_and!.
  - intros r c c' Hc Hc'. apply (ck_safe _ _ _ _ _ _ _ Hop) in Hc. apply (ck_safe _ _ _ _ _ _ _ Hoq) in Hc'.
    by apply (justified_agree cm faulty node Hcm Hf Hn p q r).
  - intros r t t' Ht Ht'. destruct (ck_commits _ _ _ _ _ _ _ Hop _ _ Ht) as (_ & b & Hbt & _ & <- & Hdq).
    destruct (ck_commits _ _ _ _ _ _ _ Hoq _ _ Ht') as (_ & b' & Hbt' & _ & <- & Hdq').
    apply (decide_justified cm faulty node Hcm Hf Hn p) in Hdq as (k & Hk & Hj); [|done].
    apply (decide_justified cm faulty node Hcm Hf Hn q) in Hdq' as (k' & Hk' & Hj'); [|done].
    apply Hb; [done|done|]. by apply (justified_agree cm faulty node Hcm Hf Hn k k' r).
  - apply (ck_commit_once _ _ _ _ _ _ _ Hop).
  - intros r t Ht Hg. destruct (ck_commits _ _ _ _ _ _ _ Hop _ _ Ht) as (_ & b & Hbt & _ & <- & Hdq).
    apply (decide_justified cm faulty node Hcm Hf Hn p) in Hdq as (k & Hk & Hj); [|done].
    apply (justified_voted cm faulty node Hcm Hf Hn k) in Hj as (k1 & Hk1 & Hv); [|done].
    apply (voted_available cm faulty node Hcm Hf Hn k1) in Hv as (k2 & b2 & Hk2 & Ht2 & Hid & Hav); [|done].
    exists k2. split; [done|]. destruct (Hb b2 b Ht2 Hbt Hid) as [_ <-]. by apply Hav, Hg.
Qed.

(** ** Binding *)

Lemma join_inj {A B} (P : A -> Prop) (f : A -> list B) w :
  (0 < w)%nat -> (forall a, length (f a) = w) -> (forall a b, P a -> P b -> f a = f b -> a = b) ->
  forall l k, Forall P l -> Forall P k -> mjoin (f <$> l) = mjoin (f <$> k) -> l = k.
Proof.
  intros Hw Hl Hf l. induction l as [|a l IH]; intros [|b k] Pl Pk He; cbn in He; [done| | |].
  - apply (f_equal length) in He. rewrite length_app, Hl in He. cbn in He. lia.
  - apply (f_equal length) in He. rewrite length_app, Hl in He. cbn in He. lia.
  - apply app_inj_1 in He as [Ha He]; [|by rewrite !Hl]. apply Forall_cons in Pl as [Pa Pl], Pk as [Pb Pk]. f_equal; [by apply Hf|by apply IH].
Qed.

Lemma map_iter_inj {V} (m m' : gmap Z V) : map_iter m = map_iter m' -> m = m'.
Proof. intros He. apply map_eq. intros k. apply option_eq. intros v. by rewrite <- !elem_of_map_iter, He. Qed.

Lemma length_le_bytes n x : length (le_bytes n x) = n.
Proof. unfold le_bytes. by rewrite length_reverse, length_be_bytes. Qed.
Lemma length_digest_bytes d : length (digest_bytes d) = 32%nat.
Proof. unfold digest_bytes. by rewrite length_be_bytes. Qed.

Lemma le_bytes_inj x y : is_u64 x -> is_u64 y -> le_bytes 8 x = le_bytes 8 y -> x = y.
Proof.
  intros Hx Hy He. unfold le_bytes in He. apply (inj reverse) in He. apply (be_bytes_inj 8); [unfold is_u64, u64_max, u64_modulus in *; simpl; lia..|done].
Qed.

(** A hash without collisions binds: every field has a fixed width. *)
Lemma cut_binding_of_injective {Hash : Hashing} : Inj (=) (=) blake3 -> cut_binding.
Proof.
  intros Hinj p q [Hpr Hpt] [Hqr Hqt] He. unfold cut_id in He. apply Hinj in He. unfold cut_bytes in He.
  apply app_inj_1 in He as [Hr He]; [|by rewrite !length_le_bytes]. split; [by apply le_bytes_inj|].
  apply app_inj_1 in He as [_ He]; [|by rewrite !length_digest_bytes]. apply app_inj_1 in He as [_ He]; [|by rewrite !length_digest_bytes].
  apply map_iter_inj. apply (join_inj (fun e => is_digest e.1 /\ is_digest (pr_header_digest e.2) /\ is_u64 (pr_height e.2)) _ 72) in He; [done|lia| | | |].
  - intros e. by rewrite !length_app, !length_digest_bytes, length_le_bytes.
  - intros [a [d h]] [a' [d' h']] (Ha & Hd & Hh) (Ha' & Hd' & Hh') Hf. cbn [fst snd pr_header_digest pr_height] in *. apply app_inj_1 in Hf as [H1 Hf]; [|by rewrite !length_digest_bytes].
    apply app_inj_1 in Hf as [H2 H3]; [|by rewrite !length_digest_bytes]. f_equal; [by apply (be_bytes_inj 32)|]. f_equal; [by apply (be_bytes_inj 32)|by apply le_bytes_inj].
  - apply Forall_forall. intros [a t] Hin. apply elem_of_map_iter in Hin. by apply Hpt.
  - apply Forall_forall. intros [a t] Hin. apply elem_of_map_iter in Hin. by apply Hqt.
Qed.

(** ** Concrete runs *)

Section scripts.
Context {Hash : Hashing} (tips : gmap PublicKey Proposal) (oracle : PublicKey -> Proposal -> bool) (n : nat).

(** Bootstrap, then the inputs in order. *)
Definition script_step (s : list CutEffect * CutEngine) (i : Inbound) : list CutEffect * CutEngine :=
  let r := cut_handle tips oracle n i s.2 in (s.1 ++ out r, st r).
Definition cut_script (x : CutEngine) (l : list Inbound) : list CutEffect * CutEngine :=
  let r := cut_bootstrap tips oracle n x in foldl script_step (out r, st r) l.

Definition round_of (i : Inbound) : option CutRound :=
  match i with
  | InCutProposal p | InCutServe p => Some (cp_round p)
  | InCutVote v => Some (cv_round v)
  | InCutReady r => Some (cr_round r)
  | InDecide d => Some (de_round d)
  | _ => None
  end.
Definition typed_input (i : Inbound) : Prop := match i with InCutProposal p | InCutServe p => typed_cut p | _ => True end.

Fixpoint script_current (s : list CutEffect * CutEngine) (l : list Inbound) : bool :=
  match l with
  | [] => true
  | i :: l => match round_of i with Some r => ce_gc_floor s.2 <=? r | None => true end && script_current (script_step s i) l
  end.

Lemma script_reaches cm name gate v inp avail l : typed_tips tips -> (forall a t, oracle a t = true -> avail a t) ->
  forall s, cut_reaches cm name gate v inp avail s.1 s.2 -> Forall (fun i => inp i /\ typed_input i) l -> script_current s l = true ->
  cut_reaches cm name gate v inp avail (foldl script_step s l).1 (foldl script_step s l).2.
Proof.
  intros Ht Ho. induction l as [|i l IH]; intros s Hs Hl Hc; [done|]. apply Forall_cons in Hl as [[Hi Hti] Hl]. cbn in Hc.
  apply andb_true_iff in Hc as [Hc Hl']. cbn [foldl]. apply IH; [|done|done]. cbn [script_step fst snd]. apply cut_event; [done|done|done|done|].
  destruct i; cbn in *; try done; try (split; [done|]); by apply Z.leb_le.
Qed.

Lemma cut_script_reaches cm name gate v inp avail x l : typed_tips tips -> (forall a t, oracle a t = true -> avail a t) ->
  engine_start cm name gate v x -> Forall (fun i => inp i /\ typed_input i) l ->
  script_current (out (cut_bootstrap tips oracle n x), st (cut_bootstrap tips oracle n x)) l = true ->
  cut_reaches cm name gate v inp avail (cut_script x l).1 (cut_script x l).2.
Proof.
  intros Ht Ho Hx Hl Hc. unfold cut_script. apply script_reaches; [done|done| |done|done]. cbn [fst snd].
  apply (cut_boot _ _ _ _ _ _ []); [by constructor|done|done].
Qed.
End scripts.

(** The leader of round 1 is party 20, that of round 2 is party 30. *)
Definition cut_tips : gmap PublicKey Proposal := {[ 10 := mkProposal 111 1; 20 := mkProposal 222 3 ]}.
Definition first_cut : CutProposal := mkCutProposal 1 20 default_digest cut_tips.
Definition second_cut : CutProposal := mkCutProposal 2 30 1 cut_tips.
Definition other_cut : CutProposal := mkCutProposal 1 20 default_digest ∅.

(** A hash that numbers these proposals and has no collisions. *)
Definition cut_table : list (list Z) := [cut_bytes first_cut; cut_bytes second_cut; cut_bytes other_cut].
Definition cut_hashing : Hashing := {|
  blake3 := fun l => match list_find (eq l) cut_table with Some (i, _) => Z.of_nat i + 1 | None => 256 ^ 32 + Z.pos (encode l) end;
  bincode_view_proposal := bincode_view_proposal (Hashing := coded_hashing);
  bincode_batch_view_proposal := bincode_batch_view_proposal (Hashing := coded_hashing);
|}.

Lemma cut_hashing_injective : Inj (=) (=) (@blake3 cut_hashing).
Proof.
  assert (Hsmall : forall l i x, list_find (eq l) cut_table = Some (i, x) -> cut_table !! i = Some l /\ Z.of_nat i < 256).
  { intros l i x (Hi & -> & _)%list_find_Some. split; [done|]. apply lookup_lt_Some in Hi. cbn in Hi. lia. }
  intros l l'. cbn [blake3 cut_hashing].
  destruct (list_find (eq l) cut_table) as [[i x]|] eqn:Hl, (list_find (eq l') cut_table) as [[i' x']|] eqn:Hl'; intros Heq.
  - apply Hsmall in Hl as [Hl _]. apply Hsmall in Hl' as [Hl' _]. assert (i = i') as -> by lia. congruence.
  - apply Hsmall in Hl as [_ ?]. lia.
  - apply Hsmall in Hl' as [_ ?]. lia.
  - assert (Z.pos (encode l) = Z.pos (encode l')) as Hp by lia. by apply (inj Z.pos), (inj encode) in Hp.
Qed.

(** Parties 10, 20 and 30 exchange votes and decides of the first cut. *)
Definition live : list PublicKey := [10; 20; 30].
Definition first_inputs : list Inbound :=
  [InCutProposal first_cut] ++ ((fun k => InCutVote (mkCutVote 1 1 k)) <$> live) ++ ((fun k => InDecide (mkDecide 1 1 k)) <$> live).
Definition engine4 (k : PublicKey) (v : Variant) : CutEngine :=
  mkCutEngine k committee4 (mkRoundRobin [10; 20; 30; 40]) true v 1 0 0 ∅ ∅ ∅ ∅ ∅ ∅ ∅ ∅ ∅ ∅ ∅ ∅ ∅ ∅ ∅ ∅ ∅ ∅ ∅ ∅ ∅ ∅ false.
Definition all_available (a : PublicKey) (t : Proposal) : bool := true.
Definition first_run (k : PublicKey) : list CutEffect * CutEngine := @cut_script cut_hashing cut_tips all_available 8 (engine4 k Opt) first_inputs.


Definition first_node (k : PublicKey) : CutNode :=
  mkCutNode true Opt (fun i => i ∈ first_inputs) (fun _ _ => True) (first_run k).1 (first_run k).2.

Lemma cut_tips_typed : typed_tips cut_tips.
Proof.
  unfold typed_tips, cut_tips. apply map_Forall_insert_2; [unfold is_digest, is_u64, u64_max, u64_modulus; cbn; lia|].
  apply map_Forall_singleton. unfold is_digest, is_u64, u64_max, u64_modulus. cbn. lia.
Qed.

Lemma live_correct p : correct committee4 {[ 40 ]} p -> p ∈ live.
Proof.
  intros [Hp Hf]. assert (members committee4 = {[ 10; 20; 30; 40 ]}) as Hm.
  { apply leibniz_equiv. refine (bool_decide_unpack _ _). vm_compute. exact I. }
  rewrite Hm in Hp. unfold live. set_solver.
Qed.

Lemma first_reaches k : k ∈ live ->
  @cut_reaches cut_hashing committee4 k true Opt (fun i => i ∈ first_inputs) (fun _ _ => True) (first_run k).1 (first_run k).2.
Proof.
  intros Hk. refine (@cut_script_reaches cut_hashing cut_tips all_available 8 committee4 k true Opt _ _ (engine4 k Opt) first_inputs
    cut_tips_typed (fun _ _ _ => I) _ _ _).
  - unfold live in Hk. repeat (apply elem_of_cons in Hk as [-> |Hk]); [by eexists..|by apply elem_of_nil in Hk].
  - apply Forall_forall. intros i Hi. split; [done|]. unfold first_inputs, live in Hi. cbn in Hi.
    repeat (apply elem_of_cons in Hi as [-> |Hi]); [|done..|by apply elem_of_nil in Hi].
    split; [unfold is_u64, u64_max, u64_modulus; cbn; lia|apply cut_tips_typed].
  - unfold live in Hk. repeat (apply elem_of_cons in Hk as [-> |Hk]); [by vm_compute..|by apply elem_of_nil in Hk].
Qed.

(** What each of the three says is in the history of its author. *)
Lemma first_sent :
  forallb (fun k => bool_decide (CutBroadcast (OutCutVote (mkCutVote 1 1 k)) ∈ (first_run k).1) &&
                    bool_decide (CutBroadcast (OutDecide (mkDecide 1 1 k)) ∈ (first_run k).1)) live = true.
Proof. vm_compute. reflexivity. Qed.

Lemma first_network : @cut_network cut_hashing committee4 {[ 40 ]} first_node.
Proof.
  pose proof first_sent as Hs. rewrite forallb_forall in Hs.
  assert (forall i, i ∈ first_inputs -> match i with
    | InCutVote v => CutBroadcast (OutCutVote v) ∈ (first_run (cv_author v)).1
    | InDecide d => CutBroadcast (OutDecide d) ∈ (first_run (de_author d)).1
    | InCutReady r => False
    | _ => True end) as Hin.
  { intros i Hi. unfold first_inputs in Hi. rewrite !elem_of_app, list_elem_of_singleton, !list_elem_of_fmap in Hi.
    destruct Hi as [-> |[(k & -> & Hk)|(k & -> & Hk)]]; [done|..]; apply list_elem_of_In in Hk; apply Hs, andb_true_iff in Hk as [H1 H2];
      [by apply bool_decide_eq_true in H1|by apply bool_decide_eq_true in H2]. }
  split.
  - intros p Hp. apply first_reaches. by apply live_correct.
  - intros p v _ _ Hi. exact (Hin _ Hi).
  - intros p r _ _ Hi. by destruct (Hin _ Hi).
  - intros p d _ _ Hi. exact (Hin _ Hi).
Qed.

Lemma cut_agreement_witness :
  ce_overrun (first_run 10).2 = false /\ CutCommit 1 cut_tips ∈ (first_run 10).1 /\
  (forall t, CutCommit 1 t ∈ (first_run 30).1 -> t = cut_tips) /\
  exists k, correct committee4 {[ 40 ]} k.
Proof.
  assert (correct committee4 {[ 40 ]} 10 /\ correct committee4 {[ 40 ]} 30) as [H10 H30].
  { unfold correct. split_and!; refine (bool_decide_unpack _ _); vm_compute; exact I. }
  split; [by vm_compute|]. assert (CutCommit 1 cut_tips ∈ (first_run 10).1) as Hc by (refine (bool_decide_unpack _ _); vm_compute; exact I).
  pose proof (@cut_agreement cut_hashing committee4 {[ 40 ]} first_node 30 10) as H.
  specialize (H committee4_ok ltac:(by vm_compute) (cut_binding_of_injective cut_hashing_injective) first_network H30 H10).
  destruct H as (_ & H & _). split; [done|]. split; [|by exists 10]. intros t Ht. exact (H 1 t cut_tips Ht Hc).
Defined.

(** ** Collected rounds *)

(** Votes sent. *)
Definition votes_of (h : list CutEffect) : list CutVote :=
  omap (fun e => match e with CutBroadcast (OutCutVote v) => Some v | _ => None end) h.

(** A quorum of readies of round 60 moves the node there; the window of 50 rounds collects round 1; then its leader
    proposes another cut of round 1. *)
Definition stale_run : list CutEffect * CutEngine :=
  let s := foldl (@script_step cut_hashing cut_tips all_available 8) (first_run 10) ((fun k => InCutReady (mkCutReady 60 9 k)) <$> [20; 30; 40]) in
  @script_step cut_hashing cut_tips all_available 8 (s.1, (collect_internal_garbage 50 0 s.2).2) (InCutProposal other_cut).

(** The party votes for two cuts of one round: only the deliveries that [cut_reaches] excludes can do this. *)
Lemma stale_proposal_votes_twice :
  votes_of stale_run.1 = [mkCutVote 1 1 10; mkCutVote 1 3 10] /\ ce_gc_floor stale_run.2 = 11 /\ ce_overrun stale_run.2 = false.
Proof. by vm_compute. Qed.
