(* ===== verification/SimpleItCommit.v ===== *)
(** The output of the Simple-IT node.

    Models the commit queue of [src/primary/src/simpleit/node.rs]: a committed cut waits until the blocks below
    its tips are verified, and then notifies the client of them, lane by lane.  What is output is a function of the
    sequence of cuts that were output, whatever blocks arrived when; the last section shows that the sequence of
    cuts is not always that of the rounds, and that a fork of a lane stops it. *)

From S2P Require Import Prelude Committee Types Blocks BlockChains Fixtures SimpleIt SimpleItInv SimpleItSafety.

Record Committer := mkCommitter {
  sc_committed_watermark : gmap PublicKey (Height * Digest);
  sc_commit_queue : gmap CutRound (gmap PublicKey Proposal);
}.

Definition committer_new : Committer := mkCommitter ∅ ∅.

(** The digests of the batches by worker, and the headers. *)
Abbreviation CommitBatch := (gmap WorkerId (list Digest) * list Header)%type (only parsing).

Section committer.
Context (genesis : Digest).

(** Every suffix is resolved before a watermark moves. *)
Fixpoint resolve_tips (blocks : BlockCache) (wm : gmap PublicKey (Height * Digest)) (tips : list (PublicKey * Proposal))
    : option (list (PublicKey * Height * Digest * list Digest)) :=
  match tips with
  | [] => Some []
  | (author, proposal) :: tips =>
      let '(stop_height, stop_digest) := default (0, genesis) (wm !! author) in
      if pr_height proposal <=? stop_height then resolve_tips blocks wm tips
      else
        suffix ← collect_verified_suffix stop_height stop_digest (pr_header_digest proposal) blocks;
        rest ← resolve_tips blocks wm tips;
        Some ((author, pr_height proposal, pr_header_digest proposal, suffix) :: rest)
  end.

Definition push_payload (by_worker : gmap WorkerId (list Digest)) (e : Digest * WorkerId) : gmap WorkerId (list Digest) :=
  <[ e.2 := default [] (by_worker !! e.2) ++ [e.1] ]> by_worker.

Definition push_block (blocks : BlockCache) (b : CommitBatch) (digest : Digest) : CommitBatch :=
  match by_digest blocks !! digest with
  | Some entry => (foldl push_payload b.1 (map_iter (hd_payload (ent_block entry))), b.2 ++ [ent_block entry])
  | None => b
  end.

Definition try_expand_commit (blocks : BlockCache) (wm : gmap PublicKey (Height * Digest)) (proposals : gmap PublicKey Proposal)
    : option (CommitBatch * gmap PublicKey (Height * Digest)) :=
  resolved ← resolve_tips blocks wm (map_iter proposals);
  Some (foldl (fun b e => foldl (push_block blocks) b e.2) (∅, []) resolved,
        foldl (fun wm '(author, height, tip_digest, _) => <[ author := (height, tip_digest) ]> wm) wm resolved).

(** The loop of [drain_commit_queue], with the rounds and the cuts of the batches; each turn removes a round. *)
Fixpoint drain_loop (n : nat) (blocks : BlockCache) (x : Committer)
    : list (CutRound * gmap PublicKey Proposal * CommitBatch) * Committer :=
  match n, map_iter (sc_commit_queue x) with
  | S n, (round, proposals) :: _ =>
      match try_expand_commit blocks (sc_committed_watermark x) proposals with
      | None => ([], x)
      | Some (batch, wm) =>
          let r := drain_loop n blocks (mkCommitter wm (delete round (sc_commit_queue x))) in ((round, proposals, batch) :: r.1, r.2)
      end
  | _, _ => ([], x)
  end.

Definition drain_commit_queue (blocks : BlockCache) (x : Committer) := drain_loop (size (sc_commit_queue x)) blocks x.

(** The effect [Commit] is executed. *)
Definition commit_cut (blocks : BlockCache) (round : CutRound) (proposals : gmap PublicKey Proposal) (x : Committer) :=
  drain_commit_queue blocks (mkCommitter (sc_committed_watermark x) (<[ round := proposals ]> (sc_commit_queue x))).
End committer.

(** ** Draining *)

Section drain.
Context (genesis : Digest).

(** The loop stops only at an empty queue or at a round that cannot be resolved. *)
Lemma drain_loop_stops n blocks x : (size (sc_commit_queue x) <= n)%nat ->
  let y := (drain_loop genesis n blocks x).2 in
  match map_iter (sc_commit_queue y) with
  | [] => True
  | (round, proposals) :: _ => try_expand_commit genesis blocks (sc_committed_watermark y) proposals = None
  end.
Proof.
  revert x. induction n as [|n IH]; intros x Hn; cbn zeta.
  - rewrite <- length_map_iter in Hn. cbn [drain_loop snd]. destruct (map_iter _); [done|cbn in Hn; lia].
  - cbn [drain_loop]. destruct (map_iter (sc_commit_queue x)) as [|[r p] q] eqn:Hq; cbn [snd]; [by rewrite Hq|].
    destruct (try_expand_commit _ _ _ p) as [[b wm]|] eqn:He; cbn [snd]; [|by rewrite Hq]. apply IH. cbn [sc_commit_queue].
    assert (sc_commit_queue x !! r = Some p) by (apply elem_of_map_iter; rewrite Hq; left). rewrite map_size_delete_Some by done. lia.
Qed.

(** ** Runs *)

Context {Hash : Hashing} (cm : Committee) (sid : Digest) (mbp : Z).
Abbreviation entry := (CutRound * gmap PublicKey Proposal * CommitBatch)%type (only parsing).

(** Commits and changes of the cache, in any order. *)
Inductive committer_reaches : list entry -> Committer -> Prop :=
| committer_start : committer_reaches [] committer_new
| committer_commit h x blocks round proposals : committer_reaches h x -> cache_ok cm sid mbp blocks ->
    committer_reaches (h ++ (commit_cut genesis blocks round proposals x).1) (commit_cut genesis blocks round proposals x).2
| committer_drain h x blocks : committer_reaches h x -> cache_ok cm sid mbp blocks ->
    committer_reaches (h ++ (drain_commit_queue genesis blocks x).1) (drain_commit_queue genesis blocks x).2.

(** Each batch is expanded from the watermarks that the batches before it left. *)
Inductive expanded : gmap PublicKey (Height * Digest) -> list entry -> gmap PublicKey (Height * Digest) -> Prop :=
| expanded_nil wm : expanded wm [] wm
| expanded_cons wm blocks round proposals batch wm1 h wm2 :
    cache_ok cm sid mbp blocks -> try_expand_commit genesis blocks wm proposals = Some (batch, wm1) -> expanded wm1 h wm2 ->
    expanded wm ((round, proposals, batch) :: h) wm2.

Lemma expanded_app wm h wm1 h' wm2 : expanded wm h wm1 -> expanded wm1 h' wm2 -> expanded wm (h ++ h') wm2.
Proof. induction 1; [done|]. intros. cbn. econstructor; [done|done|eauto]. Qed.

Lemma drain_expanded n blocks x : cache_ok cm sid mbp blocks ->
  expanded (sc_committed_watermark x) (drain_loop genesis n blocks x).1 (sc_committed_watermark (drain_loop genesis n blocks x).2).
Proof.
  intros Hb. revert x. induction n as [|n IH]; intros x; cbn [drain_loop]; [constructor|].
  destruct (map_iter _) as [|[r p] q]; [constructor|]. destruct (try_expand_commit _ _ _ p) as [[b wm]|] eqn:He; [|constructor].
  cbn [fst snd]. econstructor; [done|done|]. apply (IH (mkCommitter wm _)).
Qed.

Lemma reaches_expanded h x : committer_reaches h x -> expanded ∅ h (sc_committed_watermark x).
Proof.
  induction 1 as [|h x blocks r p _ IH Hb|h x blocks _ IH Hb]; [constructor|..]; (eapply expanded_app; [done|]).
  - unfold commit_cut, drain_commit_queue. by apply (drain_expanded _ _ (mkCommitter _ _)).
  - by apply drain_expanded.
Qed.

(** ** What is output does not depend on the cache *)

Context (Hbind : header_binding cm sid mbp).
Set Default Proof Using "Type Hbind".

Definition ids (b : CommitBatch) : list Digest := hd_id <$> b.2.

Lemma resolve_agree blocks blocks' wm tips r r' : cache_ok cm sid mbp blocks -> cache_ok cm sid mbp blocks' ->
  resolve_tips genesis blocks wm tips = Some r -> resolve_tips genesis blocks' wm tips = Some r' -> r = r'.
Proof.
  intros Hb Hb'. revert r r'. induction tips as [|[a p] tips IH]; intros r r' Hr Hr'; cbn in Hr, Hr'; [congruence|].
  destruct (default _ _) as [k d]. destruct (_ <=? _); [by apply IH|].
  apply bind_Some in Hr as (s & Hs & (t & Ht & [= <-])%bind_Some). apply bind_Some in Hr' as (s' & Hs' & (t' & Ht' & [= <-])%bind_Some).
  rewrite (IH _ _ Ht Ht'). repeat f_equal. unfold collect_verified_suffix in *.
  pose proof (classify_suffix_agree cm sid mbp Hbind blocks blocks' k d (pr_header_digest p) Hb Hb') as He.
  destruct (classify_suffix k d _ blocks), (classify_suffix k d _ blocks'); simplify_eq. by pose proof (He ltac:(done) ltac:(done)) as [= ->].
Qed.

(** The blocks of a suffix are all in the cache. *)
Lemma path_cached m a n d l k d' : path m a n d l k d' -> Forall (fun c => is_Some (m !! c)) l.
Proof using. induction 1; constructor; [by eexists|done]. Qed.

Lemma suffix_cached blocks k d h s : 0 <= k -> collect_verified_suffix k d h blocks = Some s -> Forall (fun c => is_Some (by_digest blocks !! c)) s.
Proof using.
  intros Hk. unfold collect_verified_suffix, classify_suffix. destruct (by_digest blocks !! h) as [e|]; [|done].
  destruct (suffix_walk _ _ _ _ _ _ _) as [ch| |] eqn:Hw; [|done..]. intros [= <-].
  rewrite <- (Z2Nat.id k) in Hw by done. apply suffix_walk_ready in Hw as (l & Hp & ->). by apply Forall_reverse, (path_cached _ _ _ _ _ _ _ Hp).
Qed.

Lemma push_blocks_ids blocks s b : cache_ok cm sid mbp blocks -> Forall (fun c => is_Some (by_digest blocks !! c)) s ->
  ids (foldl (push_block blocks) b s) = ids b ++ s.
Proof using.
  intros Hb Hs. revert b. induction Hs as [|c s [e He] _ IH]; intros b; cbn [foldl]; [by rewrite app_nil_r|].
  rewrite IH. unfold push_block, ids. rewrite He. cbn [snd]. rewrite fmap_app. cbn. rewrite <- app_assoc. cbn.
  by destruct (co_valid _ _ _ _ Hb _ _ He) as [-> _].
Qed.

Definition wm_ok (wm : gmap PublicKey (Height * Digest)) : Prop := forall a w, wm !! a = Some w -> 0 <= w.1.

(** The suffixes of a resolved cut are cached, and their tips are above the watermarks. *)
Lemma resolve_cached blocks wm tips r : wm_ok wm -> resolve_tips genesis blocks wm tips = Some r ->
  Forall (fun e => 0 <= e.1.1.2 /\ Forall (fun c => is_Some (by_digest blocks !! c)) e.2) r.
Proof using.
  intros Hw. revert r. induction tips as [|[a p] tips IH]; intros r Hr; cbn in Hr; [by injection Hr as <-|].
  assert (0 <= (default (0, genesis) (wm !! a)).1) as Hk.
  { destruct (wm !! a) as [w|] eqn:Hwa; [by apply (Hw a)|done]. }
  destruct (default _ _) as [k d]. cbn in Hk. destruct (_ <=? _) eqn:Hle; [by apply IH|]. apply Z.leb_gt in Hle.
  apply bind_Some in Hr as (s & Hs & (t & Ht & [= <-])%bind_Some). constructor; [|by apply IH]. cbn. split; [lia|]. by apply suffix_cached in Hs.
Qed.

Lemma expand_ids blocks wm proposals batch wm' : cache_ok cm sid mbp blocks -> wm_ok wm ->
  try_expand_commit genesis blocks wm proposals = Some (batch, wm') ->
  exists r, resolve_tips genesis blocks wm (map_iter proposals) = Some r /\ ids batch = mjoin r.*2 /\ wm_ok wm'.
Proof using.
  intros Hb Hw (r & Hr & [= <- <-])%bind_Some. exists r. split; [done|]. pose proof (resolve_cached _ _ _ _ Hw Hr) as Hc. clear Hr. split.
  - change (mjoin r.*2) with (@ids (∅, []) ++ mjoin r.*2). generalize (∅ : gmap WorkerId (list Digest), @nil Header).
    induction Hc as [|e r [_ He] _ IH]; intros b; cbn; [by rewrite app_nil_r|]. rewrite IH, (push_blocks_ids blocks) by done. by rewrite app_assoc.
  - revert wm Hw. induction Hc as [|[[[a k] d] s] r [Hk _] _ IH]; intros wm Hw; cbn; [done|]. apply IH. intros a' w.
    rewrite lookup_insert_Some. intros [[_ <-]|[_ ?]]; [done|by apply (Hw a')].
Qed.

Lemma expand_agree blocks blocks' wm proposals b b' w w' : cache_ok cm sid mbp blocks -> cache_ok cm sid mbp blocks' -> wm_ok wm ->
  try_expand_commit genesis blocks wm proposals = Some (b, w) -> try_expand_commit genesis blocks' wm proposals = Some (b', w') ->
  ids b = ids b' /\ w = w'.
Proof.
  intros Hb Hb' Hw He He'. destruct (expand_ids _ _ _ _ _ Hb Hw He) as (r & Hr & -> & _). destruct (expand_ids _ _ _ _ _ Hb' Hw He') as (r' & Hr' & -> & _).
  assert (r = r') as -> by by apply (resolve_agree blocks blocks' wm (map_iter proposals)). split; [done|].
  unfold try_expand_commit in He, He'. rewrite Hr in He. rewrite Hr' in He'. cbn in He, He'. by simplify_eq.
Qed.

Lemma expanded_agree wm h w h' w' : wm_ok wm -> expanded wm h w -> expanded wm h' w' -> h.*1.*2 `prefix_of` h'.*1.*2 ->
  (ids <$> h.*2) `prefix_of` (ids <$> h'.*2).
Proof.
  intros Hw He. revert h' w' Hw. induction He as [wm|wm blocks r p b w1 h w2 Hb He _ IH]; intros h' w' Hw He' Hp; [apply prefix_nil|].
  destruct He' as [wm'|wm' blocks' r' p' b' w1' h' w2' Hb' He' Hrest]; cbn in Hp; [by apply prefix_nil_not in Hp|].
  pose proof (prefix_cons_inv_1 _ _ _ _ Hp) as <-. apply prefix_cons_inv_2 in Hp.
  destruct (expand_agree _ _ _ _ _ _ _ _ Hb Hb' Hw He He') as [Hids ->]. cbn. rewrite Hids. apply prefix_cons, (IH h' w2'); [|done|done].
  by destruct (expand_ids _ _ _ _ _ Hb' Hw He') as (? & _ & _ & ?).
Qed.
End drain.
Unset Default Proof Using.

(** C16: The output is a function of the cuts.  Nodes that output the same sequence of cuts notify the same
    blocks in the same order, cut by cut, however the blocks and the commits arrived; a drain leaves a cut waiting
    only if the first one of the queue cannot be resolved yet. *)
Theorem commit_output_agree {Hash : Hashing} genesis cm sid mbp h x h' x' :
  header_binding cm sid mbp -> committer_reaches genesis cm sid mbp h x -> committer_reaches genesis cm sid mbp h' x' ->
  (h.*1.*2 `prefix_of` h'.*1.*2 -> (ids <$> h.*2) `prefix_of` (ids <$> h'.*2)) /\
  (forall blocks, let y := (drain_commit_queue genesis blocks x).2 in
    sc_commit_queue y = ∅ \/
    exists r p, sc_commit_queue y !! r = Some p /\ try_expand_commit genesis blocks (sc_committed_watermark y) p = None /\
      forall r' p', sc_commit_queue y !! r' = Some p' -> r <= r').
Proof.
  intros Hbind Hx Hx'. split.
  - eapply expanded_agree; [done| |by apply reaches_expanded..]. intros a w. by rewrite lookup_empty.
  - intros blocks y. pose proof (drain_loop_stops genesis _ blocks x (le_n _)) as Hs. cbn zeta in Hs. fold (drain_commit_queue genesis blocks x) in Hs. fold y in Hs.
    destruct (map_iter (sc_commit_queue y)) as [|[r p] q] eqn:Hq.
    + left. apply map_empty. intros k. destruct (sc_commit_queue y !! k) as [v|] eqn:Hk; [|done]. apply elem_of_map_iter in Hk. rewrite Hq in Hk. by apply elem_of_nil in Hk.
    + right. exists r, p. split_and!; [apply elem_of_map_iter; rewrite Hq; left|done|]. intros r' p' Hr'. apply elem_of_map_iter in Hr'. rewrite Hq in Hr'.
      apply elem_of_cons in Hr' as [[= -> ->]|Hin]; [lia|]. pose proof (map_iter_sorted (sc_commit_queue y)) as Hst. rewrite Hq in Hst.
      apply StronglySorted_inv in Hst as [_ Hst]. rewrite Forall_forall in Hst. by apply (Hst _ Hin).
Qed.

(** ** Concrete outputs *)

(** A cut of lane 30's first block, then one of both lanes. *)
Definition lanes_cuts : list (CutRound * gmap PublicKey Proposal) :=
  [(1, {[ 30 := mkProposal 5 1 ]}); (2, {[ 20 := mkProposal 4 3; 30 := mkProposal 6 2 ]})].

Definition commit_all (blocks : BlockCache) (l : list (CutRound * gmap PublicKey Proposal)) :
    list (CutRound * gmap PublicKey Proposal * CommitBatch) * Committer :=
  foldl (fun s c => let r := commit_cut 1 blocks c.1 c.2 s.2 in (s.1 ++ r.1, r.2)) ([], committer_new) l.

Lemma commit_all_reaches blocks l : @cache_ok table_hashing committee4 7 100 blocks ->
  @committer_reaches 1 table_hashing committee4 7 100 (commit_all blocks l).1 (commit_all blocks l).2.
Proof.
  intros Hb. unfold commit_all. assert (@committer_reaches 1 table_hashing committee4 7 100 (@nil (CutRound * gmap PublicKey Proposal * CommitBatch), committer_new).1
    (@nil (CutRound * gmap PublicKey Proposal * CommitBatch), committer_new).2) as H0 by constructor. revert H0.
  generalize (@nil (CutRound * gmap PublicKey Proposal * CommitBatch), committer_new). induction l as [|c l IH]; intros s Hs; [done|].
  cbn [foldl]. apply IH. cbn [fst snd]. by constructor.
Qed.

(** One node has all blocks at once, the other the blocks of lane 20 only when both cuts are committed. *)
Definition late_outputs : list (CutRound * gmap PublicKey Proposal * CommitBatch) * Committer :=
  let s := commit_all cache_new lanes_cuts in
  let r := drain_commit_queue 1 (lanes_cache 5) s.2 in (s.1 ++ r.1, r.2).

Lemma commit_output_agree_witness :
  (ids <$> (commit_all (lanes_cache 5) lanes_cuts).1.*2) = [[5]; [2; 3; 4; 6]] /\
  (ids <$> (commit_all (lanes_cache 5) lanes_cuts).1.*2) `prefix_of` (ids <$> late_outputs.1.*2).
Proof.
  split; [by vm_compute|].
  refine (proj1 (@commit_output_agree table_hashing 1 committee4 7 100 (commit_all (lanes_cache 5) lanes_cuts).1 (commit_all (lanes_cache 5) lanes_cuts).2
    late_outputs.1 late_outputs.2 table_binding _ _) _).
  - apply commit_all_reaches, lanes_cache_ok.
  - unfold late_outputs. apply committer_drain; [|apply lanes_cache_ok]. apply commit_all_reaches, cache_ok_new.
  - refine (bool_decide_unpack _ _). vm_compute. exact I.
Defined.

(** ** Order of rounds *)

(** Proposals of rounds 1 and 2, then decides of round 2 before those of round 1. *)
Definition late_decides : list Inbound :=
  [InCutProposal first_cut; InCutProposal second_cut] ++
  ((fun k => InDecide (mkDecide 2 2 k)) <$> [20; 30; 40]) ++ ((fun k => InDecide (mkDecide 1 1 k)) <$> [20; 30; 40]).

(** The engine commits round 2 before round 1. *)
Lemma commits_out_of_order :
  commits (@cut_script cut_hashing cut_tips all_available 8 (engine4 10 Opt) late_decides).1 = [2; 1].
Proof. by vm_compute. Qed.

(** And the queue, which knows only the rounds it has got, outputs them in that order: two nodes with the same blocks that
    commit the same two cuts notify the same blocks in different orders. *)
Lemma outputs_out_of_order :
  mjoin (ids <$> (commit_all (lanes_cache 5) lanes_cuts).1.*2) = [5; 2; 3; 4; 6] /\
  mjoin (ids <$> (commit_all (lanes_cache 5) (reverse lanes_cuts)).1.*2) = [2; 3; 4; 5; 6].
Proof. by vm_compute. Qed.

(** ** Forked lanes *)

(** If a cut's tip contradicts the watermark of its lane, no blocks that arrive later resolve the cut. *)
Theorem forked_cut_blocks {Hash : Hashing} genesis cm sid mbp blocks wm proposals author proposal stop_height stop_digest :
  header_binding cm sid mbp -> cache_ok cm sid mbp blocks ->
  proposals !! author = Some proposal -> wm !! author = Some (stop_height, stop_digest) -> stop_height < pr_height proposal ->
  classify_suffix stop_height stop_digest (pr_header_digest proposal) blocks = SForked ->
  forall blocks', cache_ok cm sid mbp blocks' -> try_expand_commit genesis blocks' wm proposals = None.
Proof.
  intros Hbind Hb Hp Hw Hlt Hf blocks' Hb'. unfold try_expand_commit. apply elem_of_map_iter in Hp.
  enough (resolve_tips genesis blocks' wm (map_iter proposals) = None) as -> by done.
  induction (map_iter proposals) as [|[a p] tips IH]; [by apply elem_of_nil in Hp|]. apply elem_of_cons in Hp as [[= <- <-]|Hp].
  - cbn. rewrite Hw. cbn. apply Z.leb_gt in Hlt. rewrite Hlt.
    pose proof (classify_suffix_agree cm sid mbp Hbind blocks blocks' stop_height stop_digest (pr_header_digest proposal) Hb Hb') as He.
    unfold collect_verified_suffix. rewrite Hf in He. destruct (classify_suffix _ _ _ blocks'); [|done..]. by discriminate He.
  - cbn. destruct (default _ _) as [k d]. destruct (_ <=? _); [by apply IH|]. destruct (collect_verified_suffix _ _ _ _); [|done]. cbn. by rewrite IH.
Qed.
