(* ===== verification/Resume.v ===== *)
(** Lane resume and replay.

    Models [src/primary/src/vantage/resume.rs] and the handlers of [node.rs] that use it: the requests that a
    node makes for a gap in a lane and the blocks of its own lane it serves; the replay of broadcasts from the
    outbox to a peer that missed some, with its Hello messages, drop floors, byte budget and streams in flight.
    Instants and durations are numbers of milliseconds.  What the pacemaker and the lane manager answer, and
    whether the replay queue accepts a stream, are arguments. *)

From S2P Require Import Prelude Committee Types Outbox.

Abbreviation Instant := Z (only parsing).
Abbreviation Duration := Z (only parsing).
Abbreviation SocketAddr := Z (only parsing).

(** [now.duration_since(at)], which is zero for a later instant. *)
Definition duration_since (now at_ : Instant) : Duration := Z.max 0 (now - at_).

(** ** Requests for a lane *)

Record ResumeTrigger := mkResumeTrigger {
  rt_pending : gmap PublicKey Height;
  rt_established : gset PublicKey;
  rt_in_flight : gmap PublicKey (Height * Instant);
  rt_max_concurrent : Z;
}.

Definition with_max_concurrent (max_concurrent : Z) : ResumeTrigger := mkResumeTrigger ∅ ∅ ∅ max_concurrent.

(** The part of [check] that decides if a gap is established. *)
Definition establish (author : PublicKey) (from : Height) (x : ResumeTrigger) : bool * ResumeTrigger :=
  if bool_decide (author ∈ rt_established x) then (true, x)
  else if bool_decide (rt_pending x !! author = Some from) then
    if negb (rt_max_concurrent x =? 0) && (rt_max_concurrent x <=? Z.of_nat (size (rt_established x))) then
      (false, mkResumeTrigger (<[ author := from ]> (rt_pending x)) (rt_established x) (rt_in_flight x) (rt_max_concurrent x))
    else (true, mkResumeTrigger (rt_pending x) ({[ author ]} ∪ rt_established x) (rt_in_flight x) (rt_max_concurrent x))
  else (false, mkResumeTrigger (<[ author := from ]> (rt_pending x)) (rt_established x) (rt_in_flight x) (rt_max_concurrent x)).

Definition check (author : PublicKey) (frontier avail : Height) (now : Instant) (backoff : Duration) (resume_batch : Height)
    (x : ResumeTrigger) : option Height * ResumeTrigger :=
  let from := u64_add frontier 1 in
  if avail <? from then
    (None, mkResumeTrigger (delete author (rt_pending x)) (rt_established x ∖ {[ author ]}) (delete author (rt_in_flight x)) (rt_max_concurrent x))
  else
    let '(established, x) := establish author from x in
    if negb established then (None, x)
    else if match rt_in_flight x !! author with
            | Some (expected_end, sent_at) => (from <=? expected_end) && (duration_since now sent_at <? backoff)
            | None => false
            end then (None, x)
    else
      let last := u64_saturating_sub (Z.min u64_max (from + Z.max resume_batch 1)) 1 in
      (Some from, mkResumeTrigger (rt_pending x) (rt_established x) (<[ author := (last, now) ]> (rt_in_flight x)) (rt_max_concurrent x)).

(** The request, to the author of the lane. *)
Definition try_resume_request (author : PublicKey) (frontier avail : Height) (now : Instant) (backoff : Duration) (resume_batch : Height)
    (x : ResumeTrigger) : list (PublicKey * Height) * ResumeTrigger :=
  let r := check author frontier avail now backoff resume_batch x in
  (match r.1 with Some from => [(author, from)] | None => [] end, r.2).

Abbreviation ResumeServe := (gmap PublicKey (Height * Instant)) (only parsing).

Definition should_serve (requester : PublicKey) (from : Height) (now : Instant) (backoff : Duration) (x : ResumeServe) : bool * ResumeServe :=
  if match x !! requester with Some (last_from, at_) => (last_from =? from) && (duration_since now at_ <? backoff) | None => false end
  then (false, x)
  else (true, <[ requester := (from, now) ]> x).

(** The handler of [LaneResume]: blocks of the own lane from [from] on, at most [resume_batch] heights. *)
Definition serve_lane_resume (name : PublicKey) (floor tip : Height) (author_block_at : Height -> option Header) (resume_batch : Height)
    (backoff : Duration) (author : PublicKey) (from : Height) (requester : PublicKey) (now : Instant) (x : ResumeServe)
    : list Header * ResumeServe :=
  if negb (author =? name) then ([], x)
  else
    let from := Z.max from floor in
    if tip <? from then ([], x)
    else
      let '(serve, x) := should_serve requester from now backoff x in
      if negb serve then ([], x)
      else
        let to := Z.min ((from + resume_batch - 1) mod u64_modulus) tip in
        (omap author_block_at (seqZ from (to - from + 1)), x).

(** ** Replay episodes *)

Record Episode := mkEpisode { ep_opened_at : Instant; ep_last_hello_at : Instant }.
Record ReplayEpisodes := mkReplayEpisodes { re_open : gmap PublicKey Episode; re_last_hello_sent : gmap PublicKey Instant }.

Definition is_open (peer : PublicKey) (x : ReplayEpisodes) : bool := bool_decide (is_Some (re_open x !! peer)).
Definition open_episode (peer : PublicKey) (now : Instant) (x : ReplayEpisodes) : ReplayEpisodes :=
  mkReplayEpisodes (<[ peer := mkEpisode now now ]> (re_open x)) (re_last_hello_sent x).
Definition on_hello_received (peer : PublicKey) (now : Instant) (backoff : Duration) (x : ReplayEpisodes) : bool * ReplayEpisodes :=
  if is_open peer x then (false, x)
  else if match re_last_hello_sent x !! peer with Some at_ => duration_since now at_ <? backoff | None => false end then (false, x)
  else (true, open_episode peer now x).
Definition record_hello_sent (peer : PublicKey) (now : Instant) (x : ReplayEpisodes) : ReplayEpisodes :=
  mkReplayEpisodes (re_open x) (<[ peer := now ]> (re_last_hello_sent x)).
Definition tick (peer : PublicKey) (now : Instant) (backoff max_age : Duration) (x : ReplayEpisodes) : bool * ReplayEpisodes :=
  match re_open x !! peer with
  | None => (false, x)
  | Some episode =>
      if max_age <=? duration_since now (ep_opened_at episode) then (false, mkReplayEpisodes (delete peer (re_open x)) (re_last_hello_sent x))
      else if backoff <=? duration_since now (ep_last_hello_at episode) then
        (true, mkReplayEpisodes (<[ peer := mkEpisode (ep_opened_at episode) now ]> (re_open x)) (re_last_hello_sent x))
      else (false, x)
  end.
Definition close_episode (peer : PublicKey) (x : ReplayEpisodes) : ReplayEpisodes :=
  mkReplayEpisodes (delete peer (re_open x)) (re_last_hello_sent x).

Record InFlightEntry := mkInFlight { if_started : Instant; if_generation : Z }.
Inductive InFlightState := Absent | InFlight | Expired (generation : Z).

Definition in_flight_state (m : gmap PublicKey InFlightEntry) (peer : PublicKey) (now : Instant) (ttl : Duration) : InFlightState :=
  match m !! peer with
  | None => Absent
  | Some entry => if duration_since now (if_started entry) <? ttl then InFlight else Expired (if_generation entry)
  end.

(** [ServeBudget] and [NudgeMemo]. *)
Abbreviation ServeBudget := (gmap PublicKey (Instant * Z)) (only parsing).
Definition remaining (peer : PublicKey) (now : Instant) (window : Duration) (max_bytes : Z) (x : ServeBudget) : Z :=
  match x !! peer with
  | Some (start, served) => if duration_since now start <? window then Z.max 0 (max_bytes - served) else max_bytes
  | None => max_bytes
  end.
Definition budget_record (peer : PublicKey) (bytes : Z) (now : Instant) (window : Duration) (x : ServeBudget) : ServeBudget :=
  match x !! peer with
  | Some (start, served) => if duration_since now start <? window then <[ peer := (start, served + bytes) ]> x else <[ peer := (now, bytes) ]> x
  | None => <[ peer := (now, bytes) ]> x
  end.

Abbreviation NudgeMemo := (gmap PublicKey Instant) (only parsing).
Definition nudge_due (peer : PublicKey) (now : Instant) (backoff : Duration) (x : NudgeMemo) : bool :=
  match x !! peer with Some at_ => backoff <=? duration_since now at_ | None => true end.
Definition nudge_record (peer : PublicKey) (now : Instant) (x : NudgeMemo) : NudgeMemo := <[ peer := now ]> x.

(** ** The node *)

Record Replay := mkReplay {
  rp_outbox : Outbox;
  rp_episodes : ReplayEpisodes;
  rp_serve_budget : ServeBudget;
  rp_nudge_memo : NudgeMemo;
  rp_pending_low : gmap PublicKey View;
  rp_dirty_map : gmap SocketAddr View;
  rp_in_flight : gmap PublicKey InFlightEntry;
  rp_generation : Z;
}.
Definition rp_eta (x : Replay) : Replay :=
  mkReplay (rp_outbox x) (rp_episodes x) (rp_serve_budget x) (rp_nudge_memo x) (rp_pending_low x) (rp_dirty_map x) (rp_in_flight x) (rp_generation x).
#[export] Instance set_rp_outbox : Setter rp_outbox.
Proof. solve_setter rp_eta rp_outbox. Defined.
#[export] Instance set_rp_episodes : Setter rp_episodes.
Proof. solve_setter rp_eta rp_episodes. Defined.
#[export] Instance set_rp_serve_budget : Setter rp_serve_budget.
Proof. solve_setter rp_eta rp_serve_budget. Defined.
#[export] Instance set_rp_nudge_memo : Setter rp_nudge_memo.
Proof. solve_setter rp_eta rp_nudge_memo. Defined.
#[export] Instance set_rp_pending_low : Setter rp_pending_low.
Proof. solve_setter rp_eta rp_pending_low. Defined.
#[export] Instance set_rp_dirty_map : Setter rp_dirty_map.
Proof. solve_setter rp_eta rp_dirty_map. Defined.
#[export] Instance set_rp_in_flight : Setter rp_in_flight.
Proof. solve_setter rp_eta rp_in_flight. Defined.
#[export] Instance set_rp_generation : Setter rp_generation.
Proof. solve_setter rp_eta rp_generation. Defined.

Record ReplayConfig := mkReplayConfig {
  rc_reconnect_replay : bool;
  rc_backoff : Duration;
  rc_episode_max : Duration;
  rc_serve_max_bytes : Z;
  rc_history_views : View;
  rc_addr_to_peer : gmap SocketAddr PublicKey;
}.

Definition replay_new (max_bytes : Z) : Replay := mkReplay (outbox_new max_bytes) (mkReplayEpisodes ∅ ∅) ∅ ∅ ∅ ∅ ∅ 0.

Inductive ReplayEffect :=
| SendHello (peer : PublicKey) (floor_hint : View)
| SendNudge (peer : PublicKey) (floor_hint key : View)
| BroadcastVolatile (key : View) (bytes : Bytes)
(** A stream that the replay queue accepted; the last arguments are those of the message that ends it, and, for
    the statements only, the outbox it was read from. *)
| EnqueueReplay (peer : PublicKey) (generation : Z) (msgs : list Bytes) (end_key : View) (complete clamped : bool) (read : Outbox) (served_from : View).

Abbreviation RM := (M ReplayEffect Replay) (only parsing).

(** [entry(k).and_modify(min).or_insert(v)]. *)
Definition insert_min (k v : Z) (m : gmap Z View) : gmap Z View := <[ k := match m !! k with Some v' => Z.min v' v | None => v end ]> m.

(** The transport reports the least key of messages it drops. *)
Definition report_dropped (address : SocketAddr) (key : View) : RM () := modify (fun x => x <| rp_dirty_map ::= insert_min address key |>).

Definition remove_in_flight_generation (peer : PublicKey) (generation : Z) : RM () :=
  modify (fun x => x <| rp_in_flight ::= fun m =>
    match m !! peer with Some e => if if_generation e =? generation then delete peer m else m | None => m end |>).

Section handlers.
Context (cfg : ReplayConfig) (omega_of : PublicKey -> View) (own_watermark : View).

(** With replay disabled, broadcasts go the durable way and are not recorded. *)
Definition broadcast_recorded (bytes : Bytes) : RM () :=
  if negb (rc_reconnect_replay cfg) then skip
  else
    x ← get;
    match record own_watermark bytes (rp_outbox x) with
    | None => skip (** The panic of a debug build: nothing is sent. *)
    | Some o => modify (fun x => x <| rp_outbox := o |>);; emit (BroadcastVolatile own_watermark bytes)
    end.

(** The part of [collect_internal_garbage] that concerns replay. *)
Definition collect_replay : RM () :=
  let outbox_floor := Z.max (u64_saturating_sub own_watermark (rc_history_views cfg)) 1 in
  modify (fun x => x <| rp_outbox ::= prune_below outbox_floor |>
    <| rp_pending_low ::= fmap (fun pending => if pending <? outbox_floor then outbox_floor else pending) |>).

Definition merge_drop (e : SocketAddr * View) (m : gmap PublicKey View) : gmap PublicKey View :=
  match rc_addr_to_peer cfg !! e.1 with Some peer => insert_min peer e.2 m | None => m end.
Definition sweep_dirty_map : RM () :=
  modify (fun x => x <| rp_pending_low ::= fun m => foldr merge_drop m (map_iter (rp_dirty_map x)) |> <| rp_dirty_map := ∅ |>).

Definition check_in_flight (peer : PublicKey) (now : Instant) : RM bool :=
  x ← get;
  match in_flight_state (rp_in_flight x) peer now (rc_episode_max cfg) with
  | InFlight => mret true
  | Absent => mret false
  | Expired generation => remove_in_flight_generation peer generation;; mret false
  end.

Definition send_resume_hello (peer : PublicKey) (now : Instant) : RM () :=
  emit (SendHello peer (omega_of peer));;
  modify (fun x => x <| rp_episodes ::= record_hello_sent peer now |>).

Definition send_nudge_hello (peer : PublicKey) (now : Instant) : RM () :=
  emit (SendNudge peer (omega_of peer) own_watermark);;
  modify (fun x => x <| rp_episodes ::= record_hello_sent peer now |>).

Definition maybe_nudge (peer : PublicKey) (now : Instant) (backoff : Duration) : RM () :=
  x ← get;
  if negb (bool_decide (is_Some (rp_pending_low x !! peer))) then skip
  else
    live ← check_in_flight peer now;
    if (live : bool) then skip
    else
      x ← get;
      if negb (nudge_due peer now backoff (rp_nudge_memo x)) then skip
      else
        send_nudge_hello peer now;;
        modify (fun x => x <| rp_nudge_memo ::= nudge_record peer now |>).

Definition resume_tick_replay_effects (author : PublicKey) (now : Instant) (backoff max_age : Duration) : RM () :=
  if negb (rc_reconnect_replay cfg) then skip
  else
    x ← get;
    let r := tick author now backoff max_age (rp_episodes x) in
    modify (fun x => x <| rp_episodes := r.2 |>);;
    when r.1 (send_resume_hello author now);;
    maybe_nudge author now backoff.

(** The tick of the node loop, less the requests for lanes. *)
Definition resume_tick (others : list PublicKey) (now : Instant) : RM () :=
  when (rc_reconnect_replay cfg) sweep_dirty_map;;
  for_each (fun author => resume_tick_replay_effects author now (rc_backoff cfg) (rc_episode_max cfg)) others.

Definition on_reconnect (peer : PublicKey) (now : Instant) : RM () :=
  when (rc_reconnect_replay cfg) (
    modify (fun x => x <| rp_episodes ::= open_episode peer now |>);;
    send_resume_hello peer now).

(** A stream takes a new generation; [enqueued] is the answer of the replay queue. *)
Definition serve_replay (sender : PublicKey) (served_from : View) (clamped : bool) (budget : Z) (now : Instant) (enqueued : bool) : RM () :=
  x ← get;
  let '(msgs, end_key, complete) := take_budgeted_slice served_from budget (rp_outbox x) in
  let generation := rp_generation x in
  modify (fun x => x <| rp_generation ::= fun g => g + 1 |> <| rp_in_flight ::= <[ sender := mkInFlight now generation ]> |>);;
  if negb enqueued then remove_in_flight_generation sender generation
  else
    emit (EnqueueReplay sender generation msgs end_key complete clamped (rp_outbox x) served_from);;
    modify (fun x => x <| rp_serve_budget ::= budget_record sender (byte_len msgs) now (rc_backoff cfg) |>);;
    modify (fun x => x <| rp_pending_low ::= fun m =>
      if (complete : bool) then delete sender m
      else <[ sender := match m !! sender with Some e => Z.max e end_key | None => end_key end ]> m |>);;
    modify (fun x => x <| rp_nudge_memo ::= nudge_record sender now |>).

Definition on_resume_hello (hello_floor : View) (sender : PublicKey) (now : Instant) (enqueued : bool) : RM () :=
  x ← get;
  let r := on_hello_received sender now (rc_backoff cfg) (rp_episodes x) in
  modify (fun x => x <| rp_episodes := r.2 |>);;
  when r.1 (send_resume_hello sender now);;
  sweep_dirty_map;;
  live ← check_in_flight sender now;
  if (live : bool) then skip
  else
    x ← get;
    let raw_from := match rp_pending_low x !! sender with Some p => Z.min hello_floor p | None => hello_floor end in
    let served_from := Z.max raw_from (ob_floor (rp_outbox x)) in
    let clamped := raw_from <? served_from in
    let budget := remaining sender now (rc_backoff cfg) (rc_serve_max_bytes cfg) (rp_serve_budget x) in
    let has_backlog := negb (bool_decide (slice_from served_from (rp_outbox x) = [])) in
    if (budget =? 0) && has_backlog then skip
    else serve_replay sender served_from clamped budget now enqueued.

(** The dispatch of a Hello. *)
Definition handle_resume_hello (floor : View) (sender : PublicKey) (now : Instant) (enqueued : bool) : RM () :=
  when (rc_reconnect_replay cfg) (on_resume_hello floor sender now enqueued).

Definition on_replay_done (complete : bool) (sender : PublicKey) (now : Instant) : RM () :=
  if complete then modify (fun x => x <| rp_episodes ::= close_episode sender |>)
  else
    modify (fun x => x <| rp_episodes ::= open_episode sender now |>);;
    send_resume_hello sender now.

(** The dispatch of the message that ends a stream; its key and its clamping flag are only reported. *)
Definition handle_replay_done (complete : bool) (sender : PublicKey) (now : Instant) : RM () :=
  when (rc_reconnect_replay cfg) (on_replay_done complete sender now).
End handlers.
