(* ===== verification/ResumeRuns.v ===== *)
(** Guarantees of replay and of lane resume.

    Whatever a node is told was dropped on the way to a peer stays owed to it until a replay stream with the
    messages was accepted, or the outbox had given them up; and the streams keep within the byte budget of a time
    window.  The requests for a lane are paced. *)

From S2P Require Import Prelude Committee Types Outbox Resume.

(** ** Runs *)

Inductive ReplayEvent :=
| EvDropped (address : SocketAddr) (key : View)
| EvRecord (bytes : Bytes)
| EvCollect
| EvHello (floor : View) (sender : PublicKey) (enqueued : bool)
| EvDone (complete : bool) (sender : PublicKey)
| EvTick (others : list PublicKey)
| EvReconnect (peer : PublicKey)
| EvStreamEnds (peer : PublicKey) (generation : Z).

Section runs.
Context (cfg : ReplayConfig).

Definition replay_exec (omega_of : PublicKey -> View) (own_watermark : View) (now : Instant) (e : ReplayEvent) : M ReplayEffect Replay () :=
  match e with
  | EvDropped address key => report_dropped address key
  | EvRecord bytes => broadcast_recorded cfg own_watermark bytes
  | EvCollect => collect_replay cfg own_watermark
  | EvHello floor sender enqueued => handle_resume_hello cfg omega_of floor sender now enqueued
  | EvDone complete sender => handle_replay_done cfg omega_of complete sender now
  | EvTick others => resume_tick cfg omega_of own_watermark others now
  | EvReconnect peer => on_reconnect cfg omega_of peer now
  | EvStreamEnds peer generation => remove_in_flight_generation peer generation
  end.

(** What happened: reports of the transport and effects, with their instants. *)
Inductive LogItem := LDropped (address : SocketAddr) (key : View) | LEffect (now : Instant) (e : ReplayEffect).

Definition reports (e : ReplayEvent) : list LogItem := match e with EvDropped address key => [LDropped address key] | _ => [] end.

(** Time does not go back, and own messages are recorded at or above the outbox's floor. *)
Inductive replay_run (m : Z) : Instant -> list LogItem -> Replay -> Prop :=
| replay_start : replay_run m 0 [] (replay_new m)
| replay_event t l x omega_of own_watermark now e :
    replay_run m t l x -> t <= now -> (forall b, e = EvRecord b -> ob_floor (rp_outbox x) <= own_watermark < u64_max) ->
    let r := replay_exec omega_of own_watermark now e x in
    replay_run m now (l ++ reports e ++ (LEffect now <$> out r)) (st r).

(** ** Drops are owed *)

(** In the drop map, or at or above the peer's floor - which follows the outbox's own when the view is given up. *)
Definition owed (x : Replay) (p : PublicKey) (k : View) : Prop :=
  (exists a k', rc_addr_to_peer cfg !! a = Some p /\ rp_dirty_map x !! a = Some k' /\ k' <= k) \/
  (exists f, rp_pending_low x !! p = Some f /\ f <= Z.max k (ob_floor (rp_outbox x))).

(** The stream has all messages of the view, or the outbox no longer had the view when it was read. *)
Definition covers (e : ReplayEffect) (p : PublicKey) (k : View) : Prop :=
  match e with
  | EnqueueReplay peer _ msgs _ _ _ o _ => peer = p /\ (k < ob_floor o \/ forall m, ob_views o !! k = Some m -> m ⊆ msgs)
  | _ => False
  end.

Definition keeps (x : Replay) (es : list ReplayEffect) (x' : Replay) : Prop :=
  rp_outbox x' = rp_outbox x /\
  (outbox_ok (rp_outbox x) -> forall p k, owed x p k -> owed x' p k \/ exists e, e ∈ es /\ covers e p k).

#[local] Instance keeps_trace : TraceRel keeps.
Proof.
  split.
  - intros x. split; [done|]. intros _ p k H. by left.
  - intros x1 x2 x3 es1 es2 [O1 H1] [O2 H2]. split; [congruence|]. intros Ho p k H. destruct (H1 Ho p k H) as [H'|(e & He & Hc)].
    + rewrite <- O1 in Ho. destruct (H2 Ho p k H') as [?|(e & He & Hc)]; [by left|]. right. exists e. split; [|done]. apply elem_of_app. by right.
    + right. exists e. split; [|done]. apply elem_of_app. by left.
Qed.

(** Changes that leave the drops and the outbox alone. *)
Lemma keeps_same x es x' : rp_outbox x' = rp_outbox x -> rp_pending_low x' = rp_pending_low x -> rp_dirty_map x' = rp_dirty_map x -> keeps x es x'.
Proof. intros Ho Hp Hd. split; [done|]. intros _ p k. unfold owed. rewrite Hp, Hd, Ho. by left. Qed.

Ltac keeps_easy := intros ?; apply keeps_same; reflexivity.

Lemma insert_min_le k v m k' v' : m !! k' = Some v' -> exists w, insert_min k v m !! k' = Some w /\ w <= v'.
Proof.
  intros Hm. unfold insert_min. destruct (decide (k = k')) as [->|Hne].
  - rewrite lookup_insert_eq, Hm. exists (Z.min v' v). split; [done|lia].
  - rewrite lookup_insert_ne by done. exists v'. split; [done|lia].
Qed.
Lemma insert_min_new k v m : exists w, insert_min k v m !! k = Some w /\ w <= v.
Proof. unfold insert_min. rewrite lookup_insert_eq. destruct (m !! k); eexists; (split; [done|lia]). Qed.

Lemma merge_drops_le l m p v : m !! p = Some v -> exists w, foldr (merge_drop cfg) m l !! p = Some w /\ w <= v.
Proof.
  intros Hm. induction l as [|[a k] l (w & Hw & Hle)]; [by exists v|]. cbn [foldr]. unfold merge_drop at 1. cbn.
  destruct (_ !! a) as [q|]; [|by exists w]. destruct (insert_min_le q k _ _ _ Hw) as (w' & Hw' & ?). exists w'. split; [done|lia].
Qed.
Lemma merge_drops_new l m a k p : (a, k) ∈ l -> rc_addr_to_peer cfg !! a = Some p -> exists w, foldr (merge_drop cfg) m l !! p = Some w /\ w <= k.
Proof.
  induction l as [|[a' k'] l IH]; intros Hin Ha; [by apply elem_of_nil in Hin|]. cbn [foldr]. unfold merge_drop at 1. cbn.
  apply elem_of_cons in Hin as [[= -> ->]|Hin].
  - rewrite Ha. apply insert_min_new.
  - destruct (IH Hin Ha) as (w & Hw & Hle). destruct (_ !! a') as [q|]; [|by exists w].
    destruct (insert_min_le q k' _ _ _ Hw) as (w' & Hw' & ?). exists w'. split; [done|lia].
Qed.

Lemma sweep_keeps : sat keeps (sweep_dirty_map cfg).
Proof.
  intros x. split; [done|]. intros _ p k [(a & k' & Ha & Hd & Hle)|(f & Hf & Hle)]; left; right; cbn.
  - apply elem_of_map_iter in Hd. destruct (merge_drops_new _ (rp_pending_low x) _ _ _ Hd Ha) as (w & Hw & ?). exists w. split; [done|lia].
  - destruct (merge_drops_le (map_iter (rp_dirty_map x)) _ _ _ Hf) as (w & Hw & ?). exists w. split; [done|lia].
Qed.

Lemma check_in_flight_keeps peer now : sat keeps (check_in_flight cfg peer now).
Proof.
  unfold check_in_flight. apply sat_get_bind. intros x. destruct (in_flight_state _ _ _ _); apply keeps_same; reflexivity.
Qed.

Lemma maybe_nudge_keeps omega_of w peer now b : sat keeps (maybe_nudge cfg omega_of w peer now b).
Proof.
  unfold maybe_nudge. apply sat_get_bind. intros x. destruct (negb _); [apply trace_refl|]. apply sat_at_bind; [apply _|apply check_in_flight_keeps|].
  destruct (val _); [apply trace_refl|]. apply sat_at_get_bind. destruct (negb _); [apply trace_refl|]. apply keeps_same; reflexivity.
Qed.

Lemma tick_keeps omega_of w others now : sat keeps (resume_tick cfg omega_of w others now).
Proof.
  unfold resume_tick. apply sat_bind; [apply _|apply sat_when; [apply _|apply sweep_keeps]|]. intros _. apply sat_for_each; [apply _|]. intros a.
  unfold resume_tick_replay_effects. destruct (negb _); [keeps_easy|]. apply sat_get_bind. intros x. apply sat_at_bind; [apply _|apply keeps_same; reflexivity|].
  apply sat_at_bind; [apply _| |apply maybe_nudge_keeps]. destruct (tick _ _ _ _ _).1; [apply keeps_same; reflexivity|apply trace_refl].
Qed.

(** A slice has the whole of every kept view from its start up to its end, and all of them if it is complete. *)
Lemma slice_has o from budget msgs end_key complete k m : outbox_ok o -> 0 <= budget ->
  take_budgeted_slice from budget o = (msgs, end_key, complete) -> ob_views o !! k = Some m -> from <= k -> complete = true \/ k < end_key -> m ⊆ msgs.
Proof.
  intros Ho Hb Hs Hk Hle Hc. pose proof (slice_exact o from budget Ho Hb) as He. rewrite Hs in He. destruct He as (-> & Hcomp & _).
  assert (k < end_key) as Hlt. { destruct Hc as [Hc|?]; [|done]. apply (proj1 Hcomp Hc _ _ Hk Hle). }
  intros b Hbm. apply list_elem_of_join. exists m. split; [done|]. apply list_elem_of_fmap. exists (k, m). split; [done|].
  apply list_elem_of_filter. split; [by split|]. by apply elem_of_map_iter.
Qed.

Lemma serve_keeps sender served_from clamped budget now enqueued x : rp_dirty_map x = ∅ -> 0 <= budget ->
  (forall f, rp_pending_low x !! sender = Some f -> served_from <= Z.max f (ob_floor (rp_outbox x))) ->
  sat_at keeps (serve_replay cfg sender served_from clamped budget now enqueued) x.
Proof.
  intros Hd Hb Hf. unfold serve_replay. apply sat_at_get_bind. destruct (take_budgeted_slice _ _ _) as [[msgs end_key] complete] eqn:Hs.
  destruct enqueued; cbn [negb]; [|apply keeps_same; reflexivity]. split; [done|]. cbn. intros Ho p k [(a & k' & _ & Hk & _)|(f & Hp & Hle)].
  { rewrite Hd in Hk. by rewrite lookup_empty in Hk. }
  destruct (decide (p = sender)) as [->|Hne].
  - specialize (Hf f Hp). destruct (Z.lt_ge_cases k (ob_floor (rp_outbox x))); [right; eexists; split; [left|by split; [|left]]|].
    destruct complete; [|destruct (Z.lt_ge_cases k end_key)].
    + right. eexists. split; [left|]. split; [done|]. right. intros m Hm. eapply slice_has; eauto. lia.
    + right. eexists. split; [left|]. split; [done|]. right. intros m Hm. eapply slice_has; eauto. lia.
    + left. right. exists (Z.max f end_key). split; [|lia].
      change ((<[ sender := match rp_pending_low x !! sender with Some e => Z.max e end_key | None => end_key end ]> (rp_pending_low x)) !! sender = Some (Z.max f end_key)).
      by rewrite lookup_insert_eq, Hp.
  - left. right. exists f. split; [|done]. destruct complete.
    + change ((delete sender (rp_pending_low x)) !! p = Some f). by rewrite lookup_delete_ne.
    + change ((<[ sender := match rp_pending_low x !! sender with Some e => Z.max e end_key | None => end_key end ]> (rp_pending_low x)) !! p = Some f). by rewrite lookup_insert_ne.
Qed.

Lemma remaining_nonneg peer now w mb b : 0 <= mb -> 0 <= remaining peer now w mb b.
Proof. intros. unfold remaining. destruct (b !! peer) as [[start served]|]; [|done]. destruct (_ <? _); lia. Qed.

Context (Hmax : 0 <= rc_serve_max_bytes cfg).
Set Default Proof Using "Type Hmax".

Lemma hello_keeps omega_of floor sender now enqueued : sat keeps (on_resume_hello cfg omega_of floor sender now enqueued).
Proof.
  unfold on_resume_hello. apply sat_get_bind. intros x. apply sat_at_bind; [apply _|apply keeps_same; reflexivity|].
  apply sat_at_bind; [apply _|destruct (on_hello_received _ _ _ _).1; [apply keeps_same; reflexivity|apply trace_refl]|].
  apply sat_at_bind; [apply _|apply sweep_keeps|]. apply sat_at_bind; [apply _|apply check_in_flight_keeps|].
  match goal with |- context [val (check_in_flight cfg sender now ?y)] => set (y0 := y) end.
  assert (rp_dirty_map y0 = ∅) as Hd by reflexivity.
  assert (rp_dirty_map (st (check_in_flight cfg sender now y0)) = ∅) as Hd'.
  { rewrite <- Hd. clearbody y0. unfold check_in_flight. rewrite get_bind. by destruct (in_flight_state _ _ _ _). }
  set (y1 := st (check_in_flight cfg sender now y0)) in *. clearbody y1. destruct (val _); [apply trace_refl|]. apply sat_at_get_bind.
  destruct (_ && _); [apply trace_refl|]. apply serve_keeps; [done|by apply remaining_nonneg|]. intros f Hf. rewrite Hf. lia.
Qed.

(** Events other than a report, a recording and a pruning. *)
Lemma exec_keeps omega_of w now e : (forall b, e <> EvRecord b) -> (e <> EvCollect) -> (forall a k, e <> EvDropped a k) ->
  sat keeps (replay_exec omega_of w now e).
Proof.
  intros H1 H2 H3. destruct e; cbn [replay_exec]; [by destruct (H3 address key)|by destruct (H1 bytes)|by destruct H2|..].
  - apply sat_when; [apply _|apply hello_keeps].
  - apply sat_when; [apply _|]. destruct complete; keeps_easy.
  - apply tick_keeps.
  - unfold on_reconnect. apply sat_when; [apply _|keeps_easy].
  - keeps_easy.
Qed.

(** The drops of the log that came before. *)
Definition settled (l : list LogItem) (x : Replay) : Prop :=
  forall l1 a k l2 p, l = l1 ++ LDropped a k :: l2 -> rc_addr_to_peer cfg !! a = Some p ->
    owed x p k \/ exists t e, LEffect t e ∈ l2 /\ covers e p k.

Lemma replay_settled_step l es x x' : (forall it, it ∈ es -> exists t e, it = LEffect t e) -> settled l x ->
  (forall p k, owed x p k -> owed x' p k \/ exists t e, LEffect t e ∈ es /\ covers e p k) -> settled (l ++ es) x'.
Proof using.
  intros He Hs Hk l1 a k l2 p Hl Ha. apply app_eq_inv in Hl as [(m & Hl & He')|(m & Hl & He')].
  - destruct m as [|it m]; cbn in He'.
    + subst es. destruct (He (LDropped a k)) as (? & ? & ?); [left|done].
    + injection He' as <- ->. destruct (Hs _ _ _ _ _ Hl Ha) as [H|(t & e & H & Hc)].
      * destruct (Hk p k H) as [?|(t & e & Hin & Hc)]; [by left|]. right. exists t, e. split; [apply elem_of_app; by right|done].
      * right. exists t, e. split; [apply elem_of_app; by left|done].
  - subst es. destruct (He (LDropped a k)) as (? & ? & ?); [apply elem_of_app; right; left|done].
Qed.

(** The outbox's floor rises. *)
Lemma owed_floor x x' p k : rp_pending_low x' = rp_pending_low x -> rp_dirty_map x' = rp_dirty_map x -> ob_floor (rp_outbox x) <= ob_floor (rp_outbox x') ->
  owed x p k -> owed x' p k.
Proof using.
  intros Hp Hd Hf [?|(f & Hpf & Hle)]; [left; by rewrite Hd|right]. exists f. rewrite Hp. split; [done|lia].
Qed.

Lemma collect_owed w x : outbox_ok (rp_outbox x) -> let x' := st (collect_replay cfg w x) in
  outbox_ok (rp_outbox x') /\ forall p k, owed x p k -> owed x' p k.
Proof using.
  intros Ho. unfold collect_replay. set (floor := Z.max _ 1). cbn [st modify]. destruct (prune_evicts floor _ Ho) as [E1 _ E3 _]. split; [done|].
  assert (floor <= ob_floor (prune_below floor (rp_outbox x))) as Hfl.
  { unfold prune_below. destruct (Z.leb_spec floor (ob_floor (rp_outbox x))); cbn; lia. }
  intros p k [?|(f & Hf & Hle)]; [by left|right]. exists (if f <? floor then floor else f). cbn. split.
  - change ((fun pending => if pending <? floor then floor else pending) <$> rp_pending_low x) with (fmap (fun pending => if pending <? floor then floor else pending) (rp_pending_low x)).
    by rewrite lookup_fmap, Hf.
  - destruct (_ <? _); lia.
Qed.

Lemma run_settled m t l x : replay_run m t l x -> outbox_ok (rp_outbox x) /\ settled l x.
Proof.
  induction 1 as [|t l x om w now e _ [Ho Hs] _ Hrec r].
  { split; [apply outbox_ok_new|]. intros l1 a k l2 p Hl _. by destruct l1. }
  assert (Hnode : (forall b, e <> EvRecord b) -> (e <> EvCollect) -> (forall a k, e <> EvDropped a k) ->
    outbox_ok (rp_outbox (st r)) /\ settled (l ++ reports e ++ (LEffect now <$> out r)) (st r)).
  { intros H1 H2 H3. destruct (exec_keeps om w now e H1 H2 H3 x) as [E1 E2]. fold r in E1, E2. split; [by rewrite E1|].
    assert (reports e = []) as -> by (destruct e; [by destruct (H3 address key)|done..]). cbn [app]. apply (replay_settled_step l _ x); [|done|].
    - intros it (e' & -> & _)%list_elem_of_fmap. by eexists _, _.
    - intros p k Hk. destruct (E2 Ho p k Hk) as [?|(e' & He' & Hc)]; [by left|]. right. exists now, e'. split; [|done]. apply list_elem_of_fmap. by exists e'. }
  destruct e as [address key|bytes| | | | | |]; [| | |by apply Hnode..]; clear Hnode; subst r; cbn [replay_exec reports app].
  - split; [done|]. cbn [out report_dropped modify fmap list_fmap app]. intros l1 a k l2 p Hl Ha.
    assert (forall q j, owed x q j -> owed (st (report_dropped address key x)) q j) as Hmono.
    { intros q j [(a' & k' & Ha' & Hd & Hle)|(f & Hf & Hle)]; [left|right; by exists f]. cbn.
      destruct (insert_min_le address key _ _ _ Hd) as (v & Hv & ?). exists a', v. split_and!; [done|done|lia]. }
    apply app_eq_inv in Hl as [(m' & Hl & He')|(m' & Hl & He')].
    + destruct m' as [|it m']; cbn in He'.
      * injection He' as -> -> ->. left. left. cbn. destruct (insert_min_new address key (rp_dirty_map x)) as (v & Hv & ?). by exists address, v.
      * injection He' as <- He'. rewrite He'. destruct (Hs _ _ _ _ _ Hl Ha) as [?|(t' & e' & Hin & Hc)]; [left; by apply Hmono|].
        right. exists t', e'. split; [apply elem_of_app; by left|done].
    + destruct m' as [|it m']; cbn in He'; [|by destruct m'].
      injection He' as <- <- <-. left. left. cbn. destruct (insert_min_new address key (rp_dirty_map x)) as (v & Hv & ?). by exists address, v.
  - unfold broadcast_recorded. destruct (negb _); [split; [done|by rewrite app_nil_r]|]. rewrite get_bind. unfold record.
    destruct (negb _); [split; [done|by rewrite app_nil_r]|]. destruct (record_evicts w bytes (rp_outbox x) Ho (Hrec _ eq_refl)) as ([E1 _ E3 _] & _). split; [exact E1|].
    apply (replay_settled_step l _ x); [|done|].
    + intros it (e' & -> & _)%list_elem_of_fmap. by eexists _, _.
    + intros p k Hk. left. by apply (owed_floor x).
  - destruct (collect_owed w x Ho) as [H1 H2]. split; [done|]. cbn [collect_replay out modify fmap list_fmap].
    apply (replay_settled_step l [] x); [by intros it ?%elem_of_nil|done|]. intros p k Hk. left. by apply H2.
Qed.

(** ** Budget *)

(** The streams accepted for a peer: when, and how many bytes. *)
Definition serves (p : PublicKey) (l : list LogItem) : list (Instant * Z) :=
  omap (fun it => match it with
    | LEffect t (EnqueueReplay peer _ msgs _ _ _ _ _) => if peer =? p then Some (t, byte_len msgs) else None
    | _ => None
    end) l.

Lemma serves_app p l l' : serves p (l ++ l') = serves p l ++ serves p l'.
Proof using. apply omap_app. Qed.

(** Serves fall into windows of [w]; each is at least [w] after the one before and has at most [B] bytes. *)
Inductive windows (w B : Z) : list (Instant * Z) -> option (Instant * Z) -> Prop :=
| windows_none : windows w B [] None
| windows_new l e t b : windows w B l e -> (forall start served, e = Some (start, served) -> w <= t - start) -> 0 <= b <= B ->
    windows w B (l ++ [(t, b)]) (Some (t, b))
| windows_more l start served t b : windows w B l (Some (start, served)) -> t - start < w -> 0 <= b -> served + b <= B ->
    windows w B (l ++ [(t, b)]) (Some (start, served + b)).

Lemma windows_start w B l start served : windows w B l (Some (start, served)) -> start ∈ l.*1 /\ 0 <= served <= B.
Proof using.
  intros H. remember (Some (start, served)) as e eqn:He. revert start served He.
  induction H as [|l e t b _ _ _ Hb|l s sv t b _ IH _ Hb HB]; intros start served He; [done|..]; injection He as <- <-.
  - split; [|done]. rewrite fmap_app. apply elem_of_app. right. by left.
  - destruct (IH _ _ eq_refl) as [? ?]. split; [|lia]. rewrite fmap_app. apply elem_of_app. by left.
Qed.

(** The bytes of the serves in [[T, T + w)]. *)
Definition within (T w : Z) (l : list (Instant * Z)) : Z := foldr (fun e n => (if bool_decide (T <= e.1 < T + w) then e.2 else 0) + n) 0 l.

Lemma within_app T w l l' : within T w (l ++ l') = within T w l + within T w l'.
Proof using. induction l as [|e l IH]; cbn; [done|]. fold (within T w (l ++ l')) (within T w l). rewrite IH. lia. Qed.

Lemma within_none T w l : Forall (fun t => t < T) l.*1 -> within T w l = 0.
Proof using.
  induction l as [|[t b] l IH]; cbn; [done|]. intros [Ht Hl]%Forall_cons. fold (within T w l). rewrite IH by done. rewrite bool_decide_false by lia. done.
Qed.

Lemma windows_within T w B l e : 0 <= B -> windows w B l e -> StronglySorted Z.le l.*1 ->
  match e with
  | None => within T w l = 0
  | Some (start, served) => within T w l <= if bool_decide (start < T) then served else if bool_decide (start < T + w) then B + served else 2 * B
  end.
Proof using.
  intros HB H. induction H as [|l e t b Hw IH Hfar Hb|l start served t b Hw IH Hnear Hb Htot]; intros Hs; [done|..];
    rewrite fmap_app in Hs; apply StronglySorted_app in Hs as (Hcross & Hs & _); specialize (IH Hs); rewrite within_app; cbn.
  - rewrite Z.add_0_r. assert (Forall (fun u => u <= t) l.*1) as Hle.
    { apply Forall_forall. intros u Hu. apply (Hcross u t Hu). by left. }
    destruct (decide (t < T)).
    + rewrite within_none; [|eapply Forall_impl; [exact Hle|]; cbn; lia]. rewrite !bool_decide_false, bool_decide_true by lia. lia.
    + destruct e as [[start served]|].
      * pose proof (Hfar _ _ eq_refl). destruct (windows_start _ _ _ _ _ Hw) as [_ Hsv].
        repeat case_bool_decide; try lia.
      * rewrite IH. repeat case_bool_decide; lia.
  - rewrite Z.add_0_r. destruct (windows_start _ _ _ _ _ Hw) as [Hin Hsv]. assert (start <= t) by (apply (Hcross start t Hin); by left).
    repeat case_bool_decide; lia.
Qed.

(** Streams read from an outbox with at most [G] bytes in a view. *)
Definition small (G : Z) (e : ReplayEffect) : Prop :=
  match e with EnqueueReplay _ _ _ _ _ _ o _ => forall v m, ob_views o !! v = Some m -> byte_len m <= G | _ => True end.

Context (G : Z) (HG : 0 <= G).
Abbreviation B := (rc_serve_max_bytes cfg + G) (only parsing).
Set Default Proof Using "Type Hmax HG".

Definition spends (now : Instant) (x : Replay) (es : list ReplayEffect) (x' : Replay) : Prop :=
  rp_outbox x' = rp_outbox x /\
  (outbox_ok (rp_outbox x) -> Forall (small G) es -> forall p l, Forall (fun t => t <= now) l.*1 ->
    windows (rc_backoff cfg) B l (rp_serve_budget x !! p) ->
    windows (rc_backoff cfg) B (l ++ serves p (LEffect now <$> es)) (rp_serve_budget x' !! p)).

Lemma serves_at p now es : Forall (fun t => t = now) (serves p (LEffect now <$> es)).*1.
Proof using.
  apply Forall_forall. intros t Ht. apply list_elem_of_fmap in Ht as ([t' b] & -> & Ht). unfold serves in Ht.
  apply list_elem_of_omap in Ht as (it & Hit & Hb). apply list_elem_of_fmap in Hit as (e & -> & _).
  destruct e; try done. destruct (_ =? _); [|done]. by injection Hb as <- _.
Qed.
Lemma serves_now p now es : Forall (fun t => t <= now) (serves p (LEffect now <$> es)).*1.
Proof using. eapply Forall_impl; [apply serves_at|]. cbn. lia. Qed.

#[local] Instance spends_trace now : TraceRel (spends now).
Proof using.
  split.
  - intros x. split; [done|]. intros _ _ p l _ Hw. cbn. by rewrite app_nil_r.
  - intros x1 x2 x3 es1 es2 [O1 H1] [O2 H2]. split; [congruence|]. intros Ho [S1 S2]%Forall_app p l Ht Hw.
    rewrite fmap_app, serves_app, (assoc_L (++)). rewrite <- O1 in Ho. apply H2; [done|done| |apply H1; [by rewrite <- O1|done..]].
    rewrite fmap_app. apply Forall_app. split; [done|apply serves_now].
Qed.

(** Changes that accept no stream. *)
Definition quiet (e : ReplayEffect) : Prop := match e with EnqueueReplay _ _ _ _ _ _ _ _ => False | _ => True end.
Lemma spends_same now x es x' : rp_outbox x' = rp_outbox x -> rp_serve_budget x' = rp_serve_budget x -> Forall quiet es -> spends now x es x'.
Proof using.
  intros Ho Hb Hq. split; [done|]. intros _ _ p l _ Hw. rewrite Hb. assert (serves p (LEffect now <$> es) = []) as ->; [|by rewrite app_nil_r].
  induction Hq as [|e es He _ IH]; [done|]. cbn. destruct e; done.
Qed.
Ltac spends_easy := intros ?; apply spends_same; [reflexivity|reflexivity|repeat constructor].

Lemma serve_spends sender served_from clamped budget now enqueued x :
  budget = remaining sender now (rc_backoff cfg) (rc_serve_max_bytes cfg) (rp_serve_budget x) ->
  (budget = 0 -> slice_from served_from (rp_outbox x) = []) ->
  sat_at (spends now) (serve_replay cfg sender served_from clamped budget now enqueued) x.
Proof.
  intros Hb Hz. unfold serve_replay. apply sat_at_get_bind. destruct (take_budgeted_slice _ _ _) as [[msgs end_key] complete] eqn:Hs.
  destruct enqueued; cbn [negb]; [|apply spends_same; [reflexivity|reflexivity|repeat constructor]]. split; [done|].
  intros Ho Hsm p l Ht Hw. change (Forall (small G) [EnqueueReplay sender (rp_generation x) msgs end_key complete clamped (rp_outbox x) served_from]) in Hsm.
  apply Forall_cons in Hsm as [Hsm _]. cbn [small] in Hsm.
  change (windows (rc_backoff cfg) B (l ++ (if sender =? p then [(now, byte_len msgs)] else [])) (budget_record sender (byte_len msgs) now (rc_backoff cfg) (rp_serve_budget x) !! p))
    || change (windows (rc_backoff cfg) B (l ++ serves p [LEffect now (EnqueueReplay sender (rp_generation x) msgs end_key complete clamped (rp_outbox x) served_from)])
        (budget_record sender (byte_len msgs) now (rc_backoff cfg) (rp_serve_budget x) !! p)).
  assert (0 <= budget) as Hb0 by (rewrite Hb; by apply remaining_nonneg).
  pose proof (slice_exact (rp_outbox x) served_from budget Ho Hb0) as Hex. rewrite Hs in Hex. destruct Hex as (_ & _ & _ & _ & Hlen).
  pose proof (byte_len_nonneg msgs) as Hnn.
  assert (byte_len msgs <= budget \/ (0 < budget /\ byte_len msgs <= G)) as Hbytes.
  { destruct Hlen as [?|(v & m & Hv & _ & Hle)]; [by left|]. destruct (decide (budget = 0)) as [H0|]; [|right; specialize (Hsm _ _ Hv); lia].
    unfold take_budgeted_slice in Hs. rewrite (Hz H0) in Hs. injection Hs as <- _ _. left. cbn. lia. }
  unfold budget_record, remaining in *. cbn. destruct (Z.eqb_spec sender p) as [->|Hne].
  - destruct (rp_serve_budget x !! p) as [[start served]|] eqn:He.
    + destruct (windows_start _ _ _ _ _ Hw) as [Hin Hsv]. rewrite Forall_forall in Ht. pose proof (Ht _ Hin). unfold duration_since in *.
      destruct (Z.ltb_spec (Z.max 0 (now - start)) (rc_backoff cfg)); rewrite lookup_insert_eq.
      * apply windows_more; [done|lia|lia|lia].
      * apply (windows_new _ _ _ (Some (start, served))); [done| |lia]. intros ? ? [= <- <-]. lia.
    + rewrite lookup_insert_eq. apply (windows_new _ _ _ None); [done|done|lia].
  - rewrite app_nil_r. destruct (rp_serve_budget x !! sender) as [[start served]|]; [destruct (_ <? _)|]; by rewrite lookup_insert_ne.
Qed.

Lemma sweep_spends now : sat (spends now) (sweep_dirty_map cfg).
Proof using. spends_easy. Qed.
Lemma check_in_flight_spends t peer now : sat (spends t) (check_in_flight cfg peer now).
Proof using.
  unfold check_in_flight. apply sat_get_bind. intros x. destruct (in_flight_state _ _ _ _); (apply spends_same; [reflexivity|reflexivity|repeat constructor]).
Qed.
Lemma maybe_nudge_spends t omega_of w peer now b : sat (spends t) (maybe_nudge cfg omega_of w peer now b).
Proof using.
  unfold maybe_nudge. apply sat_get_bind. intros x. destruct (negb _); [apply trace_refl|]. apply sat_at_bind; [apply _|apply check_in_flight_spends|].
  destruct (val _); [apply trace_refl|]. apply sat_at_get_bind. destruct (negb _); [apply trace_refl|].
  apply spends_same; [reflexivity|reflexivity|repeat constructor].
Qed.
Lemma tick_spends t omega_of w others now : sat (spends t) (resume_tick cfg omega_of w others now).
Proof using.
  unfold resume_tick. apply sat_bind; [apply _|apply sat_when; [apply _|apply sweep_spends]|]. intros _. apply sat_for_each; [apply _|]. intros a.
  unfold resume_tick_replay_effects. destruct (negb _); [spends_easy|]. apply sat_get_bind. intros x.
  apply sat_at_bind; [apply _|apply spends_same; [reflexivity|reflexivity|repeat constructor]|].
  apply sat_at_bind; [apply _| |apply maybe_nudge_spends].
  destruct (tick _ _ _ _ _).1; [apply spends_same; [reflexivity|reflexivity|repeat constructor]|apply trace_refl].
Qed.

Lemma hello_spends omega_of floor sender now enqueued : sat (spends now) (on_resume_hello cfg omega_of floor sender now enqueued).
Proof.
  unfold on_resume_hello. apply sat_get_bind. intros x. apply sat_at_bind; [apply _|apply spends_same; [reflexivity|reflexivity|repeat constructor]|].
  apply sat_at_bind; [apply _|destruct (on_hello_received _ _ _ _).1; [apply spends_same; [reflexivity|reflexivity|repeat constructor]|apply trace_refl]|].
  apply sat_at_bind; [apply _|apply sweep_spends|]. apply sat_at_bind; [apply _|apply check_in_flight_spends|].
  destruct (val _); [apply trace_refl|]. apply sat_at_get_bind. destruct (_ && _) eqn:Hz; [apply trace_refl|]. apply serve_spends; [done|].
  intros H0. apply andb_false_iff in Hz as [Hz|Hz]; [apply Z.eqb_neq in Hz; lia|]. by apply negb_false_iff, bool_decide_eq_true in Hz.
Qed.

Lemma exec_spends omega_of w now e : (forall b, e <> EvRecord b) -> (e <> EvCollect) -> sat (spends now) (replay_exec omega_of w now e).
Proof.
  intros H1 H2. destruct e; cbn [replay_exec]; [spends_easy|by destruct (H1 bytes)|by destruct H2|..].
  - apply sat_when; [apply _|apply hello_spends].
  - apply sat_when; [apply _|]. destruct complete; spends_easy.
  - apply tick_spends.
  - unfold on_reconnect. apply sat_when; [apply _|spends_easy].
  - spends_easy.
Qed.

Lemma serves_quiet p now es : Forall quiet es -> serves p (LEffect now <$> es) = [].
Proof using. induction 1 as [|e es He _ IH]; [done|]. cbn. destruct e; done. Qed.

Definition small_log (l : list LogItem) : Prop := forall t e, LEffect t e ∈ l -> small G e.

Lemma run_windows m t l x : replay_run m t l x -> small_log l -> forall p,
  windows (rc_backoff cfg) B (serves p l) (rp_serve_budget x !! p) /\ StronglySorted Z.le (serves p l).*1 /\ Forall (fun u => u <= t) (serves p l).*1.
Proof.
  induction 1 as [|t l x om w now e Hrun IH Ht Hrec r]; intros Hsm p.
  { cbn. rewrite lookup_empty. split_and!; constructor. }
  destruct (IH ltac:(intros ? ? ?; eapply Hsm, elem_of_app; by left) p) as (Hw & Hs & Hle). destruct (run_settled _ _ _ _ Hrun) as [Ho _].
  assert (Forall (fun u => u <= now) (serves p l).*1) as Hle' by (eapply Forall_impl; [exact Hle|]; cbn; lia).
  assert (serves p (l ++ reports e ++ (LEffect now <$> out r)) = serves p l ++ serves p (LEffect now <$> out r)) as ->.
  { rewrite !serves_app. f_equal. by destruct e. }
  split; [|split].
  - assert (Forall (small G) (out r)) as Hes.
    { apply Forall_forall. intros e' He'. apply (Hsm now). rewrite !elem_of_app. right. right. apply list_elem_of_fmap. by exists e'. }
    assert (Hnode : (forall b, e <> EvRecord b) -> (e <> EvCollect) ->
      windows (rc_backoff cfg) B (serves p l ++ serves p (LEffect now <$> out r)) (rp_serve_budget (st r) !! p)).
    { intros H1 H2. destruct (exec_spends om w now e H1 H2 x) as [_ E]. fold r in E. by apply E. }
    destruct e as [|bytes| | | | | |]; try (by apply Hnode); subst r; cbn [replay_exec] in *.
    + unfold broadcast_recorded in *. destruct (negb _); [rewrite serves_quiet, app_nil_r by repeat constructor; done|]. rewrite !get_bind in *.
      destruct (record _ _ _); rewrite serves_quiet, app_nil_r by repeat constructor; done.
    + rewrite serves_quiet, app_nil_r by repeat constructor. done.
  - rewrite fmap_app. apply StronglySorted_app_2; [|done|].
    + intros u v Hu Hv. rewrite Forall_forall in Hle. pose proof (Hle _ Hu). pose proof (serves_at p now (out r)) as Hat.
      rewrite Forall_forall in Hat. pose proof (Hat _ Hv). cbn in *. lia.
    + induction (serves_at p now (out r)) as [|u k -> Hk IHk]; constructor; [done|]. eapply Forall_impl; [exact Hk|]. cbn. lia.
  - rewrite fmap_app. apply Forall_app. split; [done|apply serves_now].
Qed.
End runs.
Unset Default Proof Using.

(** C17: Drops are made good.  In any run, a drop to a peer that the transport reported is still owed - in the drop map, or
    the peer's floor is at or below the dropped view, or at or below all that the outbox keeps if it has given the view up -
    or a replay stream was accepted for the peer later with all messages that the outbox then held
    under the dropped view, unless the outbox had given the view up. *)
Theorem replay_covers_drops cfg m t l x :
  0 <= rc_serve_max_bytes cfg -> replay_run cfg m t l x ->
  forall l1 a k l2 p, l = l1 ++ LDropped a k :: l2 -> rc_addr_to_peer cfg !! a = Some p ->
    owed cfg x p k \/ exists u e, LEffect u e ∈ l2 /\ covers e p k.
Proof. intros Hm Hr. by destruct (run_settled cfg Hm m t l x Hr) as [_ Hs]. Qed.

(** C39: Replay keeps to its budget.  If no view of the outbox has more than [G] bytes, the streams accepted for a
    peer in any period of the backoff's length have at most twice the budget and [G] bytes. *)
Theorem replay_budget_bounded cfg m t l x G p T :
  0 <= rc_serve_max_bytes cfg -> 0 <= G -> replay_run cfg m t l x -> small_log G l ->
  within T (rc_backoff cfg) (serves p l) <= 2 * (rc_serve_max_bytes cfg + G).
Proof.
  intros Hm HG Hr Hs. destruct (run_windows cfg Hm G HG m t l x Hr Hs p) as (Hw & Hsort & _).
  pose proof (windows_within T (rc_backoff cfg) (rc_serve_max_bytes cfg + G) _ _ ltac:(lia) Hw Hsort) as Hb. destruct (rp_serve_budget x !! p) as [[start served]|]; [|lia].
  apply windows_start in Hw as [_ Hsv]. repeat case_bool_decide; lia.
Qed.

(** ** Requests for a lane *)

(** What [check] did: a request up to a height, or a closed gap. *)
Inductive TriggerItem := TRequest (author : PublicKey) (last : Height) (now : Instant) | TClosed (author : PublicKey).

Definition last_request (l : list TriggerItem) : gmap PublicKey (Height * Instant) :=
  foldl (fun m it => match it with TRequest a e t => <[ a := (e, t) ]> m | TClosed a => delete a m end) ∅ l.

Definition trigger_item (author : PublicKey) (frontier avail : Height) (now : Instant) (batch : Height) (r : option Height) : list TriggerItem :=
  if avail <? u64_add frontier 1 then [TClosed author]
  else match r with
       | Some from => [TRequest author (u64_saturating_sub (Z.min u64_max (from + Z.max batch 1)) 1) now]
       | None => []
       end.

Inductive trigger_run (max : Z) (backoff : Duration) (batch : Height) : Instant -> list TriggerItem -> ResumeTrigger -> Prop :=
| trigger_start : trigger_run max backoff batch 0 [] (with_max_concurrent max)
| trigger_check t l x author frontier avail now :
    trigger_run max backoff batch t l x -> t <= now -> let r := check author frontier avail now backoff batch x in
    trigger_run max backoff batch now (l ++ trigger_item author frontier avail now batch r.1) r.2.

Lemma establish_spec a from x : let r := establish a from x in
  rt_in_flight r.2 = rt_in_flight x /\ rt_max_concurrent r.2 = rt_max_concurrent x /\
  (Z.of_nat (size (rt_established x)) <= rt_max_concurrent x -> Z.of_nat (size (rt_established r.2)) <= rt_max_concurrent x \/ rt_max_concurrent x = 0).
Proof.
  unfold establish. repeat case_bool_decide; cbn; [by auto..| |by auto].
  destruct (negb _ && _) eqn:Hc; cbn; [by auto|]. split_and!; [done|done|]. intros _. apply andb_false_iff in Hc as [Hc|Hc].
  - right. by apply negb_false_iff, Z.eqb_eq in Hc.
  - left. apply Z.leb_gt in Hc. rewrite size_union by set_solver. rewrite size_singleton. lia.
Qed.

Lemma trigger_inv max backoff batch t l x : 0 < max -> trigger_run max backoff batch t l x ->
  rt_in_flight x = last_request l /\ rt_max_concurrent x = max /\ Z.of_nat (size (rt_established x)) <= max /\
  (forall a e u, rt_in_flight x !! a = Some (e, u) -> u <= t).
Proof.
  intros Hmax Hrun. induction Hrun as [|t l x a f av now _ (I1 & I2 & I3 & I4) Ht r].
  - cbn. split_and!; [done|done|rewrite size_empty; lia|]. intros *. by rewrite lookup_empty.
  - subst r. unfold check, trigger_item. destruct (av <? u64_add f 1).
    + cbn [fst snd rt_in_flight rt_max_concurrent rt_established]. unfold last_request. rewrite foldl_app. fold (last_request l). rewrite <- I1. split_and!; [done|done| |].
      * pose proof (subseteq_size (rt_established x ∖ {[a]}) (rt_established x) ltac:(set_solver)). lia.
      * intros b e u Hb. apply lookup_delete_Some in Hb as [_ Hb]. apply I4 in Hb. lia.
    + pose proof (establish_spec a (u64_add f 1) x) as (E1 & E2 & E3). destruct (establish a (u64_add f 1) x) as [ok y]. cbn [fst snd] in *.
      assert (Z.of_nat (size (rt_established y)) <= max) as Hy by (destruct E3; lia).
      assert (forall b e u, rt_in_flight y !! b = Some (e, u) -> u <= now) as Hb by (intros *; rewrite E1; intros ?%I4; lia).
      destruct (negb ok); [cbn; rewrite app_nil_r; split_and!; try done; congruence|].
      match goal with |- context [if ?c then (None, _) else _] => destruct c end; [cbn; rewrite app_nil_r; split_and!; try done; congruence|].
      cbn [fst snd rt_in_flight rt_max_concurrent rt_established]. unfold last_request. rewrite foldl_app. fold (last_request l). rewrite <- I1, <- E1.
      split_and!; [done|congruence|done|]. intros b e u. rewrite lookup_insert_Some. intros [[_ [= <- <-]]|[_ ?]]; [lia|by apply Hb in H].
Qed.

(** Requests are for a height that is missing and available; until the gap is closed, a request for a lane comes only after
    the blocks asked for before or after the backoff; and no more lanes are resumed at a time than allowed. *)
Theorem resume_requests_paced max backoff batch t l x author frontier avail now :
  0 < max -> trigger_run max backoff batch t l x -> t <= now -> is_u64 frontier -> frontier < u64_max ->
  Z.of_nat (size (rt_established x)) <= max /\
  forall from, (check author frontier avail now backoff batch x).1 = Some from ->
    from = frontier + 1 /\ from <= avail /\
    forall last sent_at, last_request l !! author = Some (last, sent_at) -> last < from \/ backoff <= now - sent_at.
Proof.
  intros Hmax Hrun Hnow Hf Hf'.
  destruct (trigger_inv _ _ _ _ _ _ Hmax Hrun) as (Hif & Hm & Hsz & Hu).
  split; [done|]. intros from. unfold check. destruct (Z.ltb_spec avail (u64_add frontier 1)); [done|].
  rewrite u64_add_small in * by (unfold is_u64 in *; lia). pose proof (establish_spec author (frontier + 1) x) as (E1 & _ & _).
  destruct (establish author (frontier + 1) x) as [ok y]. cbn [fst snd] in *. destruct (negb ok); [done|]. rewrite E1.
  destruct (rt_in_flight x !! author) as [[e u]|] eqn:He.
  - destruct (_ && _) eqn:Hc; [done|]. intros [= <-]. split_and!; [done|done|]. rewrite <- Hif, He. intros ? ? [= <- <-]. apply Hu in He.
    apply andb_false_iff in Hc as [Hc%Z.leb_gt|Hc%Z.ltb_ge]; [by left|]. unfold duration_since in Hc. right. lia.
  - intros [= <-]. split_and!; [done|done|]. rewrite <- Hif, He. done.
Qed.

(** ** A concrete run *)

Section script.
Context (cfg : ReplayConfig) (m : Z).

Definition replay_step (s : Instant * list LogItem * Replay) (e : View * Instant * ReplayEvent) : Instant * list LogItem * Replay :=
  let r := replay_exec cfg (fun _ => 0) e.1.1 e.1.2 e.2 s.2 in (e.1.2, s.1.2 ++ reports e.2 ++ (LEffect e.1.2 <$> out r), st r).

Definition step_ok (s : Instant * list LogItem * Replay) (e : View * Instant * ReplayEvent) : bool :=
  (s.1.1 <=? e.1.2) && match e.2 with EvRecord _ => (ob_floor (rp_outbox s.2) <=? e.1.1) && (e.1.1 <? u64_max) | _ => true end.

Fixpoint script_ok (s : Instant * list LogItem * Replay) (es : list (View * Instant * ReplayEvent)) : bool :=
  match es with [] => true | e :: es => step_ok s e && script_ok (replay_step s e) es end.

Lemma replay_script es s : replay_run cfg m s.1.1 s.1.2 s.2 -> script_ok s es = true ->
  replay_run cfg m (foldl replay_step s es).1.1 (foldl replay_step s es).1.2 (foldl replay_step s es).2.
Proof.
  revert s. induction es as [|[[w now] e] es IH]; intros s Hs Hok; [done|]. cbn [script_ok] in Hok. apply andb_true_iff in Hok as [He Hok].
  cbn [foldl]. apply IH; [|done]. apply andb_true_iff in He as [Ht Hr]. apply Z.leb_le in Ht. apply (replay_event cfg m s.1.1); [done|done|].
  cbn [fst snd] in *. intros b ->. apply andb_true_iff in Hr as [H1 H2]. apply Z.leb_le in H1. apply Z.ltb_lt in H2. done.
Qed.
End script.

(** The first view fills the budget; a second Hello gets the rest after the backoff. *)
Definition replay_config : ReplayConfig := mkReplayConfig true 100 1000 4 50 {[ 1 := 20; 2 := 30 ]}.
Definition replay_events : list (View * Instant * ReplayEvent) :=
  [(1, 0, EvRecord [1; 2; 3]); (2, 1, EvRecord [4; 5]); (2, 2, EvDropped 1 1); (2, 10, EvHello 9 20 true); (2, 20, EvStreamEnds 20 0); (2, 30, EvCollect);
   (2, 120, EvHello 9 20 true)].
Definition replayed : Instant * list LogItem * Replay := foldl (replay_step replay_config) (0, [], replay_new 50) replay_events.

Lemma replayed_run : replay_run replay_config 50 replayed.1.1 replayed.1.2 replayed.2.
Proof. apply replay_script; [constructor|by vm_compute]. Qed.

Lemma replay_covers_drops_witness :
  serves 20 replayed.1.2 = [(10, 3); (120, 2)] /\
  (owed replay_config replayed.2 20 1 \/ exists u e, LEffect u e ∈ drop 3 replayed.1.2 /\ covers e 20 1).
Proof.
  split; [by vm_compute|].
  apply (replay_covers_drops replay_config 50 replayed.1.1 replayed.1.2 replayed.2 ltac:(by vm_compute) replayed_run (take 2 replayed.1.2) 1 1 (drop 3 replayed.1.2) 20);
    by vm_compute.
Defined.

Lemma replay_budget_bounded_witness : within 10 100 (serves 20 replayed.1.2) = 3 /\ within 10 100 (serves 20 replayed.1.2) <= 2 * (4 + 3).
Proof.
  split; [by vm_compute|]. refine (replay_budget_bounded replay_config 50 replayed.1.1 replayed.1.2 replayed.2 3 20 10 _ _ replayed_run _); [by vm_compute|by vm_compute|].
  assert (Forall (fun it => match it with LEffect _ e => small 3 e | _ => True end) replayed.1.2) as Hs.
  { assert (forallb (fun it => match it with LEffect _ (EnqueueReplay _ _ _ _ _ _ o _) => forallb (fun p => byte_len p.2 <=? 3) (map_iter (ob_views o)) | _ => true end) replayed.1.2 = true)
      as Hb by by vm_compute.
    rewrite forallb_forall in Hb. apply Forall_forall. intros it Hit. apply list_elem_of_In, Hb in Hit. destruct it as [|u []]; try done. cbn [small].
    intros v m Hm. rewrite forallb_forall in Hit. apply elem_of_map_iter, list_elem_of_In, Hit in Hm. by apply Z.leb_le in Hm. }
  rewrite Forall_forall in Hs. intros u e He. exact (Hs _ He).
Defined.
